(* ===== verification/_CoqProject ===== *)
-Q . S2P
Prelude.v
Decode.v
Compressed.v
Exception.v
Csr.v
State.v
Bus.v
Mmu.v
Trap.v
CsrOps.v
Vector.v
SoftFp.v
Exec.v
Step.v
T0.v
Run.v
VecBase.v
VecInt.v
VecFloat.v
VecMem.v
Wf.v
SoftFpSpec.v
RvcEquiv.v
T0Equiv.v
VecFrame.v
SafeMem.v
SafeCsr.v
SafeExec.v
VecSafe.v
VecOk.v
VecMemOk.v
SafeStep.v
T0Run.v
MmuSpec.v
TrapSpec.v
CsrSpec.v
ExecSpec.v
RunSpec.v
Retire.v
VecElem.v
VecArch.v
VecIntSpec.v
VecWideSpec.v
DbtVector.v
DbtIr.v
DbtBuilder.v
DbtLift.v
DbtExec.v
DbtDce.v
DbtInv.v
DbtFold.v
DbtBuildSpec.v
DbtSim.v
DbtLiftSpec.v
Structure.v
StructureScc.v
StructureLoop.v
StructureSpec.v
Slices.v
Linux.v
LinuxSpec.v
Devices.v
DevicesSpec.v
Virtio.v
VirtioSpec.v
VirtioRing.v
Dtb.v
DtbSpec.v
Virt.v
VirtSpec.v
VirtTime.v
VirtBoot.v
P9.v
P9Fs.v
P9Spec.v
P9Mem.v
P9Serve.v
P9Wire.v
P9Board.v
