(* ===== verification/Prelude.v ===== *)
(** * rv64.js: a verification development for the RV64 emulator

    rv64.js is an RV64GCV emulator in Rust.  Its core, crates/rv64-core, is a
    hart (registers, CSRs, privilege modes, TLBs) that executes instructions
    against a memory interface, the [Bus] trait.  rv64-linux runs user-mode
    programs on it over flat memory, rv64-system builds a full machine (RAM,
    CLINT, PLIC, UART, RTC, virtio) around it, rv64-dbt compiles hot guest code
    to WebAssembly and rv64-wasm exposes everything to the browser.  This
    development models the hart (all of crates/rv64-core/src, vector unit
    included), the compiler's intermediate representation, lifter, control-flow
    structuring and user-mode code generation, rv64-linux, and the virt machine
    of rv64-system with its devices.

    ** The model

    A machine integer is a [Z] with its wrap-around written out ([u64], [i64],
    [add64], ...); arithmetic follows the release profile, where Rust's [+],
    [-], [*] and [<<] wrap.  A host [usize] is 64 bits.  A fallible operation
    runs in the monad [M]: a state function with three outcomes, [Ok], [Err]
    (Rust's [Err(e)] through [?]) and [Panic] (an [unwrap] of [None], a slice
    out of range, an [unreachable!]); state changed before an error stays
    changed.  The hart monad is [Hart S A := M Exception S A] with
    [S := Cpu], or [Cpu * B] for operations that reach the bus.  Field updates
    are the [set_*] functions.  All definitions compute.

    The hart (crates/rv64-core/src):
    - [Prelude]: integers, bit notations, arrays, the monad, shared lemmas and
      tactics.
    - [Decode] (decode.rs), [Compressed] (compressed.rs): fields, encoders and
      the RVC expander.
    - [Exception] (exception.rs), [Csr] (csr.rs), [State] (the structs of
      cpu.rs and cpu/vector.rs): data.
    - [Bus] (bus.rs): the trait as the class [Bus], flat memory as its
      instance, and [BusOk], the promise the hart relies on.
    - [Mmu] (cpu.rs): TLBs, fused rows, permission contexts, the Sv39/Sv48
      walk, loads and stores.
    - [Trap] (cpu.rs): trap entry, exception causes, interrupt sampling.
    - [CsrOps] (cpu.rs csr_read/csr_write), [SoftFp] (softfp.rs: the softfp!
      macro as a Section over the format, instances sf32 and sf64).
    - [Vector] (cpu/vector.rs: vtype, vset{i}vl{i}, dispatch, and the class
      [VectorUnit], the interface between the decoder and the vector bodies),
      [VecBase], [VecInt], [VecFloat], [VecMem] (cpu/vector.rs: the bodies;
      [rvv_unit] is the instance of the class).
    - [Exec], [Step] (cpu.rs step, step_compressed and the opcode groups),
      [T0] (the Tier-0 decoder), [Run] (the drivers and the generated-code
      entry map).

    The compiler (crates/rv64-dbt/src):
    - [DbtVector], [DbtIr], [DbtBuilder] (ir.rs): direct vector candidates,
      the region format with its validator and dead-value pass, the builder
      with its constant folding.
    - [DbtLift] (lift.rs): the lifter, from one instruction to a trace.
    - [Structure] (structure.rs): from a control-flow graph to nested loops,
      blocks and dispatchers.
    - [DbtExec] (wasm.rs, and the floating-point helper of rv64-wasm): what
      the code emitted for a region does on the flat user layout.

    User-mode Linux (crates/rv64-linux/src): [Slices] (byte ranges of guest
    memory) and [Linux] (elf.rs, syscall.rs, lib.rs).

    The virt machine (crates/rv64-system/src): [Devices] (the PLIC and UART of
    virt.rs, rtc.rs), [Virtio] (virtio.rs), [Dtb] (dtb.rs), [Virt] (virt.rs:
    the bus as an instance of [Bus], the device tree, boot, the timer, the host
    SBI and the execution slices).  [P9] (p9.rs) is the 9P2000.L server over the
    class [FsBackend] of file systems, [P9Fs] (p9fs.rs) the in-memory file
    system, an instance of it; [P9Board] makes the server the one behind the
    virtio 9P device.

    ** What the theorems show

    - [Wf], [SafeMem], [SafeCsr], [SafeExec], [SafeStep]: the hart invariant
      [wf_cpu] and that every operation keeps it without a panic; [step_safe]
      and [run_safe] (in [T0Run]) conclude it for whole instructions and runs,
      for every instruction word.  The client side is proved against [BusOk]
      and [VectorUnitOk]; flat memory and the board's bus discharge the former,
      [VecSafe], [VecOk] and [VecMemOk] the latter for [rvv_unit], and
      [VecFrame] the promise [VectorUnitFrame] that the vector unit does not
      look at the fields the Tier-0 decoder lets lag.
    - [VecElem], [VecArch], [VecIntSpec], [VecWideSpec]: the integer,
      fixed-point, widening and narrowing vector instructions write the
      architecture's result, stated on mathematical integers, to exactly the
      active elements, although they run in place over groups that may overlap.
    - [RvcEquiv]: the direct RVC decoder executes exactly what the expander
      describes.  [T0Equiv] and [T0Run]: the Tier-0 decoder and driver refine
      [step] and [run] in user mode.  [RunSpec]: budget slices compose, driver
      variants agree, the entry map probes the compiler's slot.  [Retire]: an
      instruction retires exactly once, and a run stays within its budget.
    - [MmuSpec]: an inductive page table; the walk implements it, the TLB
      answers as the walk did, tags separate permission contexts, fences and
      satp writes forget; and one behaviour that falls short of the
      architecture (a page fence inside a superpage).
    - [TrapSpec]: trap entry and return bit by bit, their round trip, and the
      choice of interrupt.  [CsrSpec]: privilege checks, WARL read-after-write,
      isolation of machine state, address-space switches.
    - [ExecSpec]: exact multiplication and division, LR/SC, AMO widths,
      vset{i}vl{i}.  [SoftFpSpec]: rounding in the normal range against an
      arithmetic reference, exact integer square roots, comparison order,
      commutativity.
    - Round trips and bounds of the encoders and of flat memory are in
      [Decode], [Compressed] and [Bus].
    - [DbtDce]: dead-value elimination keeps what a region computes.
      [DbtInv], [DbtFold], [DbtBuildSpec]: the builder's invariant and its
      operations against it.  [DbtSim], [DbtLiftSpec]: a lifted region runs the
      interpreter's instructions (for the integer part of the instruction set;
      the floating-point and vector arms are modelled and not covered by
      [lift_sound]).
    - [StructureScc]: the two searches return the strongly connected components.
      [StructureLoop], [StructureSpec]: structuring ends, keeps every block, and
      every branch of the result resolves to an enclosing scope.
    - [LinuxSpec]: the loader, the initial stack and the system calls, with
      the inputs that make the code panic.
    - [DevicesSpec]: the interrupt controller's choice, its exclusive claims
      and their drain; the serial port's streams; the clock.  [VirtioSpec],
      [VirtioRing]: descriptor walks, the frame of a device's writes, the disk
      round trip, the drain of a transmit queue, bounded mailboxes.
      [DtbSpec]: a reference decoder reads back every blob the writer builds.
    - [P9Spec]: one pass over the 9P messages, generic in the backend
      and an invariant; [P9Serve] draws from it that only normalised paths reach
      a backend, that a server over a backend that keeps its promises
      ([FsBackendOk]) answers everything, and that the nodes of the in-memory
      file system ([P9Mem]) stay typed.  [P9Wire]: what a client gets, message
      by message: data written is data read, a directory is listed to
      its end.  [P9Board]: a request in guest memory is answered in guest memory.
    - [VirtSpec]: the board's bus behind the hart's interface, its fast path,
      the reports of changed code pages, the interrupt lines.  [VirtTime]: the
      clocks, idling, the SBI and the slices.  [VirtBoot]: what a booted
      machine has in memory.

    ** Bounds and fuel

    A budget is a number of loop iterations, so the drivers recurse on it.  The
    page walk recurses on the level (2 for Sv39, 3 for Sv48).  The Newton loop
    of the square root has a fuel of the format's width plus three, which
    [fp_sqrtrem_exact] shows to be enough for every argument the code passes.
    The searches of structure.rs have the number of nodes
    plus one as fuel, enough by [strong_components] and [stackify_resolves].
    Loading a tar archive has its length plus one ([load_tar_ends]).
    A slice of the virt machine has a fuel of its budget plus one, enough by
    [run_slice_total].  A descriptor walk is bounded by the table, as in the
    code.  A notified queue is processed for at most [PROCESS_FUEL] = 65536
    chains, more than a 16-bit ring index can name; running out counts as a
    panic of the bus.  The reference decoder of device trees has the size of
    the tree as fuel.

    ** What is not modelled

    Host pointers handed to
    compiled code (jit_tlb_ptrs and the like) are raw addresses; the accesses
    the interpreter itself makes through them are [host_load]/[host_store] of
    the bus.  Host floating point (fp_fast32/64) is the Standard Library's
    [spec_float].  A [String] is the list of its UTF-8 bytes, and
    [from_utf8_lossy] is written out.  Of p9fs.rs, the backend over a host
    directory is file I/O and left out, so [paths_confined] is about the paths
    it is asked for and not about the links it follows on them.  The safety
    theorems of a hart are for buses that keep [BusOk]: flat memory not based
    below 8, since an access at the end of the address space panics otherwise
    ([flat_overflow_panics]), and boards without virtio devices, because malformed
    requests make the devices panic ([block_single_descriptor_panics] and its
    neighbours).  The generated code's caches of granted offsets, and their
    clearing when a page is marked (clear_store_jtlb), are not modelled:
    [virt_fast_path_sound] is about an offset until its page is marked.  Debug prints and
    read-only diagnostics are left out.

    Not modelled: the system layout and module encoding of the WebAssembly back
    end, the scheduling of compiled code in rv64-wasm, the older HTIF machine of
    rv64-system's lib.rs, the network stack and proxies, the command-line
    programs, and everything that is not Rust. *)

From Stdlib Require Export ZArith Lia Bool.
From stdpp Require Export base numbers list option decidable.

#[global] Open Scope Z_scope.

(** ** Machine integers

    A Rust [u8]/[u16]/[u32]/[u64]/[u128] is a [Z] kept in range by explicit
    wrap-around; a signed reading is [signed w].  The casts below carry the
    names of the Rust types they model. *)

Definition wrap (w x : Z) : Z := x mod 2 ^ w.

Definition signed (w x : Z) : Z := (x + 2 ^ (w - 1)) mod 2 ^ w - 2 ^ (w - 1).

Definition u8 (x : Z) : Z := wrap 8 x.
Definition u16 (x : Z) : Z := wrap 16 x.
Definition u32 (x : Z) : Z := wrap 32 x.
Definition u64 (x : Z) : Z := wrap 64 x.
Definition u128 (x : Z) : Z := wrap 128 x.
Definition i8 (x : Z) : Z := signed 8 x.
Definition i16 (x : Z) : Z := signed 16 x.
Definition i32 (x : Z) : Z := signed 32 x.
Definition i64 (x : Z) : Z := signed 64 x.
Definition i128 (x : Z) : Z := signed 128 x.

Definition U64_MAX : Z := 0xffffffffffffffff.
Definition U32_MAX : Z := 0xffffffff.

(** [uint w x] : [x] is a value of the unsigned [w]-bit type. *)
Definition uint (w x : Z) : Prop := 0 <= x < 2 ^ w.

#[global] Instance uint_dec w x : Decision (uint w x).
Proof. unfold uint. apply _. Defined.

Declare Scope rv_scope.
Delimit Scope rv_scope with rv.

Notation "a .& b" := (Z.land a b) (at level 46, left associativity) : rv_scope.
Notation "a .| b" := (Z.lor a b) (at level 48, left associativity) : rv_scope.
Notation "a .^ b" := (Z.lxor a b) (at level 47, left associativity) : rv_scope.
Notation "a .>> b" := (Z.shiftr a b) (at level 40, left associativity) : rv_scope.
Notation "a .<< b" := (Z.shiftl a b) (at level 40, left associativity) : rv_scope.
(** [a .&~ b] is Rust's [a & !b] (for operands of the same width). *)
Notation "a .&~ b" := (Z.ldiff a b) (at level 46, left associativity) : rv_scope.

#[global] Open Scope rv_scope.

(** Wrapping arithmetic of the 64- and 32-bit types. *)
Definition add64 (a b : Z) : Z := u64 (a + b).
Definition sub64 (a b : Z) : Z := u64 (a - b).
Definition mul64 (a b : Z) : Z := u64 (a * b).
Definition shl64 (a n : Z) : Z := u64 (a .<< n).
Definition add32 (a b : Z) : Z := u32 (a + b).
Definition sub32 (a b : Z) : Z := u32 (a - b).
Definition mul32 (a b : Z) : Z := u32 (a * b).
Definition shl32 (a n : Z) : Z := u32 (a .<< n).
(** Sign-extension of a 32-bit value into a 64-bit register:
    Rust's [v as i32 as i64 as u64]. *)
Definition sext32 (v : Z) : Z := u64 (i32 v).
Definition not64 (a : Z) : Z := U64_MAX .&~ a.

(** ** Arrays

    A fixed-size Rust array indexed by a [usize].  Every index the modelled
    code forms is masked or bounded by the array's length, so the total
    lookup and the in-place update are what the code does. *)

Definition aget {A} `{Inhabited A} (l : list A) (i : Z) : A := l !!! Z.to_nat i.
Definition aset {A} (l : list A) (i : Z) (v : A) : list A := <[Z.to_nat i := v]> l.

(** ** Outcomes and the state-and-error monad

    A fallible operation of the source is [Result<A, Exception>]; a Rust panic
    (an [unwrap] of [None], an out-of-range slice, [unreachable!]) is a third
    outcome.  State mutated before an error stays mutated, so the state is
    threaded through all three. *)

Inductive outcome (E A : Type) : Type :=
| Ok (a : A)
| Err (e : E)
| Panic.
Arguments Ok {E A} a.
Arguments Err {E A} e.
Arguments Panic {E A}.

Definition M (E S A : Type) : Type := S -> outcome E A * S.

Definition ret {E S A} (a : A) : M E S A := fun s => (Ok a, s).
Definition throw {E S A} (e : E) : M E S A := fun s => (Err e, s).
Definition panic {E S A} : M E S A := fun s => (Panic, s).

Definition bind {E S A B} (m : M E S A) (k : A -> M E S B) : M E S B := fun s =>
  match m s with
  | (Ok a, s') => k a s'
  | (Err e, s') => (Err e, s')
  | (Panic, s') => (Panic, s')
  end.

Definition gets {E S A} (f : S -> A) : M E S A := fun s => (Ok (f s), s).
Definition modify {E S} (f : S -> S) : M E S unit := fun s => (Ok tt, f s).

(** [Result::map_err]. *)
Definition map_err {E E' S A} (f : E -> E') (m : M E S A) : M E' S A := fun s =>
  match m s with
  | (Ok a, s') => (Ok a, s')
  | (Err e, s') => (Err (f e), s')
  | (Panic, s') => (Panic, s')
  end.

(** [Option::ok_or]. *)
Definition ok_or {E S A} (o : option A) (e : E) : M E S A :=
  match o with Some a => ret a | None => throw e end.

(** [Option::unwrap]. *)
Definition unwrap {E S A} (o : option A) : M E S A :=
  match o with Some a => ret a | None => panic end.

(** [match] on a [Result]: the error becomes a value. *)
Definition attempt {E S A} (m : M E S A) : M E S (A + E) := fun s =>
  match m s with
  | (Ok a, s') => (Ok (inl a), s')
  | (Err e, s') => (Ok (inr e), s')
  | (Panic, s') => (Panic, s')
  end.

(** Running an operation on one half of a paired state. *)
Definition on_fst {E S T A} (m : M E S A) : M E (S * T) A := fun st =>
  match m (fst st) with (o, s') => (o, (s', snd st)) end.
Definition on_snd {E S T A} (m : M E T A) : M E (S * T) A := fun st =>
  match m (snd st) with (o, t') => (o, (fst st, t')) end.

Notation "x <- m ;; k" := (bind m (fun x => k))
  (at level 100, m at next level, right associativity) : rv_scope.
Notation "m ;;; k" := (bind m (fun _ => k))
  (at level 100, right associativity) : rv_scope.

Definition is_panic {E A} (o : outcome E A) : bool :=
  match o with Panic => true | _ => false end.

(** ** Integer lemmas *)

Create HintDb rv.

Lemma uint_wrap w x : 0 <= w -> uint w (wrap w x).
Proof. intros. unfold uint, wrap. apply Z.mod_pos_bound. lia. Qed.

Lemma wrap_small w x : uint w x -> wrap w x = x.
Proof. apply Z.mod_small. Qed.

Lemma wrap_wrap w x : wrap w (wrap w x) = wrap w x.
Proof.
  unfold wrap. destruct (decide (2 ^ w = 0)) as [->|Hw].
  - by rewrite !Z.mod_0_r.
  - by rewrite Z.mod_mod.
Qed.

Lemma uint_mono w v x : 0 <= w <= v -> uint w x -> uint v x.
Proof. unfold uint. intros ? [? ?]. pose proof (Z.pow_le_mono_r 2 w v). lia. Qed.

Lemma uint_0 w : 0 <= w -> uint w 0.
Proof. unfold uint. lia. Qed.

(** A non-negative number is below [2 ^ w] exactly when its bits at and above
    position [w] are clear; the bitwise operators follow from that. *)
Lemma uint_testbit w x :
  0 <= w -> 0 <= x -> uint w x <-> (forall i, w <= i -> Z.testbit x i = false).
Proof.
  intros Hw Hx. split.
  - intros [_ Hlt] i Hi.
    destruct (decide (x = 0)) as [->|]; [apply Z.bits_0|].
    apply Z.bits_above_log2; [lia|].
    apply Z.log2_lt_pow2; [lia|].
    pose proof (Z.pow_le_mono_r 2 w i). lia.
  - intros Hb. split; [done|].
    destruct (decide (x = 0)) as [->|]; [lia|].
    apply Z.log2_lt_pow2; [lia|].
    destruct (decide (Z.log2 x < w)); [done|].
    pose proof (Hb (Z.log2 x)) as Hc.
    rewrite Z.bit_log2 in Hc by lia. lia.
Qed.

Lemma uint_land_l w a b : 0 <= w -> uint w a -> 0 <= b -> uint w (a .& b).
Proof.
  intros Hw Ha Hb. pose proof Ha as [Ha0 _].
  apply uint_testbit; [done|by apply Z.land_nonneg; left|].
  intros i Hi. rewrite Z.land_spec.
  by rewrite (proj1 (uint_testbit w a Hw Ha0) Ha).
Qed.

Lemma uint_land_r w a b : 0 <= w -> uint w b -> uint w (a .& b).
Proof.
  intros Hw Hb. pose proof Hb as [Hb0 _].
  apply uint_testbit; [done|by apply Z.land_nonneg; right|].
  intros i Hi. rewrite Z.land_spec.
  by rewrite (proj1 (uint_testbit w b Hw Hb0) Hb), andb_false_r.
Qed.

Lemma uint_lor w a b : 0 <= w -> uint w a -> uint w b -> uint w (a .| b).
Proof.
  intros Hw Ha Hb. pose proof Ha as [Ha0 _]. pose proof Hb as [Hb0 _].
  apply uint_testbit; [done|by apply Z.lor_nonneg|].
  intros i Hi. rewrite Z.lor_spec.
  by rewrite (proj1 (uint_testbit w a Hw Ha0) Ha),
    (proj1 (uint_testbit w b Hw Hb0) Hb).
Qed.

Lemma uint_lxor w a b : 0 <= w -> uint w a -> uint w b -> uint w (a .^ b).
Proof.
  intros Hw Ha Hb. pose proof Ha as [Ha0 _]. pose proof Hb as [Hb0 _].
  apply uint_testbit; [done|by apply Z.lxor_nonneg|].
  intros i Hi. rewrite Z.lxor_spec.
  by rewrite (proj1 (uint_testbit w a Hw Ha0) Ha),
    (proj1 (uint_testbit w b Hw Hb0) Hb).
Qed.

Lemma uint_ldiff w a b : 0 <= w -> uint w a -> uint w (a .&~ b).
Proof.
  intros Hw Ha. pose proof Ha as [Ha0 _].
  apply uint_testbit; [done|by apply Z.ldiff_nonneg; left|].
  intros i Hi. rewrite Z.ldiff_spec.
  by rewrite (proj1 (uint_testbit w a Hw Ha0) Ha).
Qed.

Lemma uint_shiftr w a n : 0 <= n -> uint w a -> uint w (a .>> n).
Proof.
  intros Hn [Ha Hb]. rewrite Z.shiftr_div_pow2 by done. split.
  - apply Z.div_pos; lia.
  - apply Z.le_lt_trans with a; [|done]. apply Z.div_le_upper_bound; [lia|].
    pose proof (Z.pow_pos_nonneg 2 n). nia.
Qed.

Lemma uint_b2z w b : 1 <= w -> uint w (Z.b2z b).
Proof.
  intros. unfold uint. pose proof (Z.pow_le_mono_r 2 1 w). destruct b; simpl; lia.
Qed.

(** A mask of ones is a remainder, a shift a quotient or a product: the forms
    that linear arithmetic decides. *)
Lemma land_ones_lit x m n : 0 <= n -> m = Z.ones n -> x .& m = x mod 2 ^ n.
Proof. intros ? ->. by apply Z.land_ones. Qed.

Lemma shiftr_lit x n d : 0 <= n -> d = 2 ^ n -> x .>> n = x / d.
Proof. intros ? ->. by apply Z.shiftr_div_pow2. Qed.

Lemma shiftl_lit x n d : 0 <= n -> d = 2 ^ n -> x .<< n = x * d.
Proof. intros ? ->. by apply Z.shiftl_mul_pow2. Qed.

(** Fields that do not overlap: a disjunction is a sum. *)
Lemma lor_add n a b : 0 <= n -> uint n a -> b mod 2 ^ n = 0 -> a .| b = a + b.
Proof.
  intros Hn Ha Hb. rewrite <- Z.lxor_lor, Z.add_nocarry_lxor; try done.
  all: apply Z.bits_inj'; intros i Hi; rewrite Z.land_spec, Z.bits_0;
    destruct (decide (i < n)).
  all: try (rewrite (proj1 (uint_testbit n a Hn (proj1 Ha)) Ha i); [done|lia]).
  all: apply andb_false_iff; right;
    rewrite <- (Z.mod_pow2_bits_low b n) by lia; by rewrite Hb, Z.bits_0.
Qed.

(** [land] with a shifted mask of ones. *)
Lemma land_shifted_ones x m k n d :
  0 <= k -> 0 <= n -> m = Z.shiftl (Z.ones n) k -> d = 2 ^ k ->
  x .& m = (x / d) mod 2 ^ n * d.
Proof.
  intros Hk Hn -> ->. rewrite <- Z.land_ones, <- Z.shiftr_div_pow2 by done.
  rewrite <- Z.shiftl_mul_pow2 by done.
  apply Z.bits_inj'. intros i Hi.
  rewrite Z.land_spec, !Z.shiftl_spec by lia.
  destruct (decide (i < k)).
  - rewrite (Z.testbit_neg_r _ (i - k)) by lia.
    by rewrite andb_false_r, Z.testbit_neg_r by lia.
  - rewrite Z.land_spec, Z.shiftr_spec by lia. do 2 f_equal. lia.
Qed.

(** [arith_bits] turns masks and shifts by literals of the goal into
    remainders, quotients and products. *)
Ltac lit_log2 m :=
  let m1 := eval vm_compute in (m + 1)%Z in
  let n := eval vm_compute in (Z.log2 m1) in
  let p := eval vm_compute in (2 ^ n)%Z in
  lazymatch m1 with p => constr:(n) end.

Ltac arith_bits_step :=
  match goal with
  | |- context [Z.land ?x ?m] =>
      let n := lit_log2 m in
      let p := eval vm_compute in (2 ^ n)%Z in
      rewrite (land_ones_lit x m n) by (vm_compute; congruence);
      change (2 ^ n)%Z with p
  | |- context [Z.land ?x ?m] =>
      let k := eval vm_compute in (Z.log2 (Z.land m (- m))) in
      let r := eval vm_compute in (Z.shiftr m k) in
      let n := lit_log2 r in
      let d := eval vm_compute in (2 ^ k)%Z in
      let p := eval vm_compute in (2 ^ n)%Z in
      rewrite (land_shifted_ones x m k n d) by (vm_compute; congruence);
      change (2 ^ n)%Z with p
  | |- context [Z.shiftr ?x ?n] =>
      let d := eval vm_compute in (2 ^ n)%Z in
      lazymatch d with Zpos _ => idtac end;
      rewrite (shiftr_lit x n d) by (vm_compute; congruence)
  | |- context [Z.shiftl ?x ?n] =>
      let d := eval vm_compute in (2 ^ n)%Z in
      lazymatch d with Zpos _ => idtac end;
      rewrite (shiftl_lit x n d) by (vm_compute; congruence)
  end.

Ltac arith_bits := repeat arith_bits_step.

(** [zlia]: [lia] with quotients and remainders by literals. *)
Ltac is_pos_lit n :=
  lazymatch n with
  | xH => idtac
  | xO ?m => is_pos_lit m
  | xI ?m => is_pos_lit m
  end.

Ltac is_Z_lit n :=
  lazymatch n with Z0 => idtac | Zpos ?p => is_pos_lit p | Zneg ?p => is_pos_lit p end.

Ltac eval_pow2 :=
  repeat match goal with
  | |- context [2 ^ ?n] =>
      is_Z_lit n; let v := eval vm_compute in (2 ^ n)%Z in change (2 ^ n)%Z with v
  | H : context [2 ^ ?n] |- _ =>
      is_Z_lit n; let v := eval vm_compute in (2 ^ n)%Z in change (2 ^ n)%Z with v in H
  end.

Ltac zlia := eval_pow2; Z.to_euclidean_division_equations; lia.

(** ** Exhaustive checks over a bit width

    A boolean property of a [w]-bit value, checked on all of them by
    evaluation along the bits, most significant first. *)

Fixpoint all_bits (w : nat) (acc : Z) (P : Z -> bool) : bool :=
  match w with
  | O => P acc
  | S w => all_bits w (2 * acc) P && all_bits w (2 * acc + 1) P
  end.

Lemma all_bits_spec w acc P :
  all_bits w acc P = true ->
  forall x, acc * 2 ^ Z.of_nat w <= x < (acc + 1) * 2 ^ Z.of_nat w -> P x = true.
Proof.
  revert acc. induction w as [|w IH]; intros acc; simpl.
  - intros H x Hx. replace x with acc by lia. done.
  - intros [H1 H2]%andb_true_iff x Hx.
    rewrite Nat2Z.inj_succ, Z.pow_succ_r in Hx by lia.
    destruct (decide (x < (2 * acc + 1) * 2 ^ Z.of_nat w)).
    + apply (IH _ H1). nia.
    + apply (IH _ H2). nia.
Qed.

Lemma all_uint w P :
  all_bits w 0 P = true -> forall x, uint (Z.of_nat w) x -> P x = true.
Proof. intros H x Hx. apply (all_bits_spec _ _ _ H). unfold uint in Hx. lia. Qed.

(** Case analysis on the boolean comparisons of a chain of tests. *)
Ltac zcase :=
  match goal with
  | |- context [if ?a =? ?b then _ else _] => destruct (Z.eqb_spec a b)
  | |- context [if ?a <? ?b then _ else _] => destruct (Z.ltb_spec a b)
  | |- context [if ?a <=? ?b then _ else _] => destruct (Z.leb_spec a b)
  end.
