(* ===== verification/Decode.v ===== *)
(** * Instruction fields of the 32-bit encoding (decode.rs)

    Field extraction, and the encoders of compressed.rs that build the same
    formats.  The round-trip lemmas below say that each extractor recovers the
    field its encoder was given; [Compressed] and [Exec] rest on them. *)

From S2P Require Import Prelude.

(** ** Extractors *)

Definition opcode (insn : Z) : Z := insn .& 0x7f.
Definition rd (insn : Z) : Z := (insn .>> 7) .& 0x1f.
Definition rs1 (insn : Z) : Z := (insn .>> 15) .& 0x1f.
Definition rs2 (insn : Z) : Z := (insn .>> 20) .& 0x1f.
Definition funct3 (insn : Z) : Z := (insn .>> 12) .& 7.
Definition funct7 (insn : Z) : Z := insn .>> 25.

(** I-type immediate: insn[31:20], sign-extended. *)
Definition imm_i (insn : Z) : Z := i32 insn .>> 20.

(** S-type immediate: insn[31:25] ++ insn[11:7], sign-extended. *)
Definition imm_s (insn : Z) : Z :=
  (i32 (insn .& 0xfe000000) .>> 20) .| ((insn .>> 7) .& 0x1f).

(** B-type immediate: bit-swizzled branch offset, sign-extended, even. *)
Definition imm_b (insn : Z) : Z :=
  (i32 (insn .& 0x80000000) .>> 19)
    .| ((insn .& 0x80) .<< 4)
    .| ((insn .>> 20) .& 0x7e0)
    .| ((insn .>> 7) .& 0x1e).

(** U-type immediate: insn[31:12] << 12, sign-extended. *)
Definition imm_u (insn : Z) : Z := i32 (insn .& 0xfffff000).

(** J-type immediate: bit-swizzled JAL offset, sign-extended, even. *)
Definition imm_j (insn : Z) : Z :=
  (i32 (insn .& 0x80000000) .>> 11)
    .| (insn .& 0xff000)
    .| ((insn .>> 9) .& 0x800)
    .| ((insn .>> 20) .& 0x7fe).

(** ** Encoders (compressed.rs) *)

Definition enc_r (op rd f3 rs1 rs2 f7 : Z) : Z :=
  op .| shl32 rd 7 .| shl32 f3 12 .| shl32 rs1 15 .| shl32 rs2 20 .| shl32 f7 25.

Definition enc_i (op rd f3 rs1 imm : Z) : Z :=
  op .| shl32 rd 7 .| shl32 f3 12 .| shl32 rs1 15 .| shl32 (u32 imm .& 0xfff) 20.

Definition enc_s (op f3 rs1 rs2 imm : Z) : Z :=
  let imm := u32 imm in
  op .| (shl32 (imm .& 0x1f) 7 .| shl32 f3 12 .| shl32 rs1 15 .| shl32 rs2 20
           .| shl32 (imm .& 0xfe0) 20).

Definition enc_b (op f3 rs1 rs2 imm : Z) : Z :=
  let imm := u32 imm in
  op .| shl32 ((imm .>> 11) .& 1) 7
     .| shl32 ((imm .>> 1) .& 0xf) 8
     .| shl32 f3 12
     .| shl32 rs1 15
     .| shl32 rs2 20
     .| shl32 ((imm .>> 5) .& 0x3f) 25
     .| shl32 ((imm .>> 12) .& 1) 31.

Definition enc_u (op rd imm20 : Z) : Z := op .| shl32 rd 7 .| shl32 imm20 12.

Definition enc_j (op rd imm : Z) : Z :=
  let imm := u32 imm in
  op .| shl32 rd 7
     .| (imm .& 0xff000)
     .| shl32 ((imm .>> 11) .& 1) 20
     .| shl32 ((imm .>> 1) .& 0x3ff) 21
     .| shl32 ((imm .>> 20) .& 1) 31.

(** ** Encoders as sums of disjoint fields *)

Lemma shl32_small a n d :
  0 <= n -> d = 2 ^ n -> 0 <= a * d < 2 ^ 32 -> shl32 a n = a * d.
Proof.
  intros Hn Hd H. unfold shl32, u32, wrap. rewrite (shiftl_lit a n d) by done.
  by apply Z.mod_small.
Qed.

(** Rewrite the disjunctions of an encoder, innermost first, into sums. *)
Ltac sum_fields :=
  repeat match goal with
  | |- context [?a .| ?b * 2 ^ ?n] =>
      lazymatch a with context [Z.lor _ _] => fail | _ => idtac end;
      rewrite (lor_add n a (b * 2 ^ n)) by (unfold uint; zlia)
  end.

Ltac shl32_fields :=
  repeat match goal with
  | |- context [shl32 ?b ?n] =>
      rewrite (shl32_small b n (2 ^ n)) by (unfold uint in *; zlia)
  end.

Section EncodersAsSums.
Context (op rd f3 rs1 rs2 f7 : Z).
Context (Hop : uint 7 op) (Hrd : uint 5 rd) (Hf3 : uint 3 f3)
  (Hrs1 : uint 5 rs1) (Hrs2 : uint 5 rs2) (Hf7 : uint 7 f7).

Lemma enc_r_sum :
  enc_r op rd f3 rs1 rs2 f7
  = op + rd * 2 ^ 7 + f3 * 2 ^ 12 + rs1 * 2 ^ 15 + rs2 * 2 ^ 20 + f7 * 2 ^ 25.
Proof using All.
  unfold enc_r, uint in *.
  shl32_fields.
  sum_fields. lia.
Qed.

Lemma enc_i_sum imm :
  enc_i op rd f3 rs1 imm
  = op + rd * 2 ^ 7 + f3 * 2 ^ 12 + rs1 * 2 ^ 15 + (imm mod 2 ^ 12) * 2 ^ 20.
Proof using All.
  unfold enc_i, uint in *.
  assert (u32 imm .& 0xfff = imm mod 2 ^ 12) as ->.
  { unfold u32, wrap. arith_bits. zlia. }
  shl32_fields.
  sum_fields. lia.
Qed.

Lemma enc_s_sum imm :
  enc_s op f3 rs1 rs2 imm
  = op + (imm mod 2 ^ 5) * 2 ^ 7 + f3 * 2 ^ 12 + rs1 * 2 ^ 15 + rs2 * 2 ^ 20
    + ((imm / 2 ^ 5) mod 2 ^ 7) * 2 ^ 25.
Proof using All.
  unfold enc_s, uint in *. cbv zeta.
  assert (u32 imm .& 0x1f = imm mod 2 ^ 5) as ->.
  { unfold u32, wrap. arith_bits. zlia. }
  assert (u32 imm .& 0xfe0 = (imm / 2 ^ 5) mod 2 ^ 7 * 2 ^ 5) as ->.
  { unfold u32, wrap. arith_bits. zlia. }
  shl32_fields.
  rewrite <- Z.mul_assoc. change (2 ^ 5 * 2 ^ 20) with (2 ^ 25).
  rewrite !Z.lor_assoc.
  sum_fields. lia.
Qed.

Lemma enc_b_sum imm :
  enc_b op f3 rs1 rs2 imm
  = op + ((imm / 2 ^ 11) mod 2) * 2 ^ 7 + ((imm / 2) mod 2 ^ 4) * 2 ^ 8
    + f3 * 2 ^ 12 + rs1 * 2 ^ 15 + rs2 * 2 ^ 20
    + ((imm / 2 ^ 5) mod 2 ^ 6) * 2 ^ 25 + ((imm / 2 ^ 12) mod 2) * 2 ^ 31.
Proof using All.
  unfold enc_b, uint in *. cbv zeta.
  assert ((u32 imm .>> 11) .& 1 = (imm / 2 ^ 11) mod 2) as ->.
  { unfold u32, wrap. arith_bits. zlia. }
  assert ((u32 imm .>> 1) .& 0xf = (imm / 2) mod 2 ^ 4) as ->.
  { unfold u32, wrap. arith_bits. zlia. }
  assert ((u32 imm .>> 5) .& 0x3f = (imm / 2 ^ 5) mod 2 ^ 6) as ->.
  { unfold u32, wrap. arith_bits. zlia. }
  assert ((u32 imm .>> 12) .& 1 = (imm / 2 ^ 12) mod 2) as ->.
  { unfold u32, wrap. arith_bits. zlia. }
  shl32_fields.
  sum_fields. lia.
Qed.

Lemma enc_u_sum imm20 :
  uint 20 imm20 -> enc_u op rd imm20 = op + rd * 2 ^ 7 + imm20 * 2 ^ 12.
Proof using All.
  intros Himm. unfold enc_u, uint in *.
  shl32_fields.
  sum_fields. lia.
Qed.

Lemma enc_j_sum imm :
  enc_j op rd imm
  = op + rd * 2 ^ 7 + ((imm / 2 ^ 12) mod 2 ^ 8) * 2 ^ 12
    + ((imm / 2 ^ 11) mod 2) * 2 ^ 20 + ((imm / 2) mod 2 ^ 10) * 2 ^ 21
    + ((imm / 2 ^ 20) mod 2) * 2 ^ 31.
Proof using All.
  unfold enc_j, uint in *. cbv zeta.
  assert (u32 imm .& 0xff000 = (imm / 2 ^ 12) mod 2 ^ 8 * 2 ^ 12) as ->.
  { unfold u32, wrap. arith_bits. zlia. }
  assert ((u32 imm .>> 11) .& 1 = (imm / 2 ^ 11) mod 2) as ->.
  { unfold u32, wrap. arith_bits. zlia. }
  assert ((u32 imm .>> 1) .& 0x3ff = (imm / 2) mod 2 ^ 10) as ->.
  { unfold u32, wrap. arith_bits. zlia. }
  assert ((u32 imm .>> 20) .& 1 = (imm / 2 ^ 20) mod 2) as ->.
  { unfold u32, wrap. arith_bits. zlia. }
  shl32_fields.
  sum_fields. lia.
Qed.
End EncodersAsSums.

(** ** Immediates as sums of their pieces *)

Lemma lor_add_hi n a b : 0 <= n -> uint n b -> a mod 2 ^ n = 0 -> a .| b = a + b.
Proof. intros. rewrite Z.lor_comm, Z.add_comm. by apply (lor_add n). Qed.

Lemma imm_i_sum insn :
  uint 32 insn -> imm_i insn = insn / 2 ^ 20 - 2 ^ 12 * (insn / 2 ^ 31).
Proof. intros [??]. unfold imm_i, i32, signed. arith_bits. zlia. Qed.

Lemma imm_u_sum insn :
  uint 32 insn -> imm_u insn = insn / 2 ^ 12 * 2 ^ 12 - 2 ^ 32 * (insn / 2 ^ 31).
Proof. intros [??]. unfold imm_u, i32, signed. arith_bits. zlia. Qed.

Lemma imm_s_sum insn :
  uint 32 insn ->
  imm_s insn = (insn / 2 ^ 25) * 2 ^ 5 - 2 ^ 12 * (insn / 2 ^ 31) + (insn / 2 ^ 7) mod 2 ^ 5.
Proof.
  intros [??]. unfold imm_s.
  assert (i32 (insn .& 0xfe000000) .>> 20
          = (insn / 2 ^ 25) * 2 ^ 5 - 2 ^ 12 * (insn / 2 ^ 31)) as ->.
  { unfold i32, signed. arith_bits. zlia. }
  assert ((insn .>> 7) .& 0x1f = (insn / 2 ^ 7) mod 2 ^ 5) as -> by (arith_bits; zlia).
  apply (lor_add_hi 5); [lia|unfold uint; zlia|zlia].
Qed.

Lemma imm_b_sum insn :
  uint 32 insn ->
  imm_b insn = - (insn / 2 ^ 31) * 2 ^ 12 + (insn / 2 ^ 7) mod 2 * 2 ^ 11
    + (insn / 2 ^ 25) mod 2 ^ 6 * 2 ^ 5 + (insn / 2 ^ 8) mod 2 ^ 4 * 2.
Proof.
  intros [??]. unfold imm_b.
  assert (i32 (insn .& 0x80000000) .>> 19 = - (insn / 2 ^ 31) * 2 ^ 12) as ->.
  { unfold i32, signed. arith_bits. zlia. }
  assert ((insn .& 0x80) .<< 4 = (insn / 2 ^ 7) mod 2 * 2 ^ 11) as -> by (arith_bits; zlia).
  assert ((insn .>> 20) .& 0x7e0 = (insn / 2 ^ 25) mod 2 ^ 6 * 2 ^ 5) as ->
    by (arith_bits; zlia).
  assert ((insn .>> 7) .& 0x1e = (insn / 2 ^ 8) mod 2 ^ 4 * 2) as -> by (arith_bits; zlia).
  rewrite (lor_add_hi 12 (- (insn / 2 ^ 31) * 2 ^ 12)) by (unfold uint; zlia).
  rewrite (lor_add_hi 11 (_ + _)) by (unfold uint; zlia).
  rewrite (lor_add_hi 5 (_ + _)) by (unfold uint; zlia). lia.
Qed.

Lemma imm_j_sum insn :
  uint 32 insn ->
  imm_j insn = - (insn / 2 ^ 31) * 2 ^ 20 + (insn / 2 ^ 12) mod 2 ^ 8 * 2 ^ 12
    + (insn / 2 ^ 20) mod 2 * 2 ^ 11 + (insn / 2 ^ 21) mod 2 ^ 10 * 2.
Proof.
  intros [??]. unfold imm_j.
  assert (i32 (insn .& 0x80000000) .>> 11 = - (insn / 2 ^ 31) * 2 ^ 20) as ->.
  { unfold i32, signed. arith_bits. zlia. }
  assert (insn .& 0xff000 = (insn / 2 ^ 12) mod 2 ^ 8 * 2 ^ 12) as -> by (arith_bits; zlia).
  assert ((insn .>> 9) .& 0x800 = (insn / 2 ^ 20) mod 2 * 2 ^ 11) as -> by (arith_bits; zlia).
  assert ((insn .>> 20) .& 0x7fe = (insn / 2 ^ 21) mod 2 ^ 10 * 2) as ->
    by (arith_bits; zlia).
  rewrite (lor_add_hi 20 (- (insn / 2 ^ 31) * 2 ^ 20)) by (unfold uint; zlia).
  rewrite (lor_add_hi 12 (_ + _)) by (unfold uint; zlia).
  rewrite (lor_add_hi 11 (_ + _)) by (unfold uint; zlia). lia.
Qed.

(** ** Bounds of the extracted fields *)

Lemma uint_rd insn : uint 5 (rd insn).
Proof. unfold rd, uint. arith_bits. zlia. Qed.
Lemma uint_rs1 insn : uint 5 (rs1 insn).
Proof. unfold rs1, uint. arith_bits. zlia. Qed.
Lemma uint_rs2 insn : uint 5 (rs2 insn).
Proof. unfold rs2, uint. arith_bits. zlia. Qed.
Lemma uint_funct3 insn : uint 3 (funct3 insn).
Proof. unfold funct3, uint. arith_bits. zlia. Qed.
Lemma uint_funct7 insn : uint 32 insn -> uint 7 (funct7 insn).
Proof. unfold funct7, uint. arith_bits. zlia. Qed.

#[export] Hint Resolve uint_rd uint_rs1 uint_rs2 uint_funct3 uint_funct7 : rv.

Lemma imm_i_range insn : uint 32 insn -> - 2 ^ 11 <= imm_i insn < 2 ^ 11.
Proof. intros H. rewrite imm_i_sum by done. destruct H. zlia. Qed.
Lemma imm_s_range insn : uint 32 insn -> - 2 ^ 11 <= imm_s insn < 2 ^ 11.
Proof. intros H. rewrite imm_s_sum by done. destruct H. zlia. Qed.
Lemma imm_b_range insn : uint 32 insn -> - 2 ^ 12 <= imm_b insn < 2 ^ 12.
Proof. intros H. rewrite imm_b_sum by done. destruct H. zlia. Qed.
Lemma imm_j_range insn : uint 32 insn -> - 2 ^ 20 <= imm_j insn < 2 ^ 20.
Proof. intros H. rewrite imm_j_sum by done. destruct H. zlia. Qed.

(** ** Round trips: every extractor inverts every encoder *)

Section RoundTrips.
Context (op rd' f3 rs1' rs2' f7 : Z).
Context (Hop : uint 7 op) (Hrd : uint 5 rd') (Hf3 : uint 3 f3)
  (Hrs1 : uint 5 rs1') (Hrs2 : uint 5 rs2') (Hf7 : uint 7 f7).

Lemma enc_r_fields :
  let i := enc_r op rd' f3 rs1' rs2' f7 in
  uint 32 i /\ opcode i = op /\ rd i = rd' /\ funct3 i = f3
  /\ rs1 i = rs1' /\ rs2 i = rs2' /\ funct7 i = f7.
Proof using All.
  cbv zeta. rewrite enc_r_sum by done.
  unfold uint, opcode, rd, funct3, rs1, rs2, funct7 in *. arith_bits.
  repeat split; zlia.
Qed.

Lemma enc_i_fields imm :
  - 2 ^ 11 <= imm < 2 ^ 11 ->
  let i := enc_i op rd' f3 rs1' imm in
  uint 32 i /\ opcode i = op /\ rd i = rd' /\ funct3 i = f3 /\ rs1 i = rs1'
  /\ imm_i i = imm.
Proof using Hop Hrd Hf3 Hrs1.
  clear rs2' f7 Hrs2 Hf7.
  intros Himm. cbv zeta. rewrite (enc_i_sum op rd' f3 rs1' 0 0) by done.
  assert (uint 32 (op + rd' * 2 ^ 7 + f3 * 2 ^ 12 + rs1' * 2 ^ 15
                   + imm mod 2 ^ 12 * 2 ^ 20)) as Hu.
  { unfold uint in *. zlia. }
  rewrite imm_i_sum by done.
  unfold uint, opcode, rd, funct3, rs1 in *. arith_bits. repeat split; zlia.
Qed.

Lemma enc_s_fields imm :
  - 2 ^ 11 <= imm < 2 ^ 11 ->
  let i := enc_s op f3 rs1' rs2' imm in
  uint 32 i /\ opcode i = op /\ funct3 i = f3 /\ rs1 i = rs1' /\ rs2 i = rs2'
  /\ imm_s i = imm.
Proof using Hop Hf3 Hrs1 Hrs2.
  clear rd' f7 Hrd Hf7.
  intros Himm. cbv zeta. rewrite (enc_s_sum op 0 f3 rs1' rs2' 0) by done.
  assert (uint 32 (op + imm mod 2 ^ 5 * 2 ^ 7 + f3 * 2 ^ 12 + rs1' * 2 ^ 15
    + rs2' * 2 ^ 20 + (imm / 2 ^ 5) mod 2 ^ 7 * 2 ^ 25)) as Hu.
  { unfold uint in *. zlia. }
  rewrite imm_s_sum by done.
  unfold uint, opcode, funct3, rs1, rs2 in *. arith_bits. repeat split; zlia.
Qed.

Lemma enc_b_fields imm :
  - 2 ^ 12 <= imm < 2 ^ 12 -> imm mod 2 = 0 ->
  let i := enc_b op f3 rs1' rs2' imm in
  uint 32 i /\ opcode i = op /\ funct3 i = f3 /\ rs1 i = rs1' /\ rs2 i = rs2'
  /\ imm_b i = imm.
Proof using Hop Hf3 Hrs1 Hrs2.
  clear rd' f7 Hrd Hf7.
  intros Himm Hev. cbv zeta. rewrite (enc_b_sum op 0 f3 rs1' rs2' 0) by done.
  assert (uint 32 (op + (imm / 2 ^ 11) mod 2 * 2 ^ 7 + (imm / 2) mod 2 ^ 4 * 2 ^ 8
    + f3 * 2 ^ 12 + rs1' * 2 ^ 15 + rs2' * 2 ^ 20
    + (imm / 2 ^ 5) mod 2 ^ 6 * 2 ^ 25 + (imm / 2 ^ 12) mod 2 * 2 ^ 31)) as Hu.
  { unfold uint in *. zlia. }
  rewrite imm_b_sum by done.
  unfold uint, opcode, funct3, rs1, rs2 in *. arith_bits. repeat split; zlia.
Qed.

Lemma enc_u_fields imm20 :
  uint 20 imm20 ->
  let i := enc_u op rd' imm20 in
  uint 32 i /\ opcode i = op /\ rd i = rd' /\ imm_u i = signed 20 imm20 * 2 ^ 12.
Proof using Hop Hrd.
  clear f3 rs1' rs2' f7 Hf3 Hrs1 Hrs2 Hf7.
  intros Himm. cbv zeta. rewrite (enc_u_sum op rd' 0 0 0 0) by done.
  assert (uint 32 (op + rd' * 2 ^ 7 + imm20 * 2 ^ 12)) as Hu.
  { unfold uint in *. zlia. }
  rewrite imm_u_sum by done.
  unfold uint, opcode, rd, signed in *. arith_bits. repeat split; zlia.
Qed.

Lemma enc_j_fields imm :
  - 2 ^ 20 <= imm < 2 ^ 20 -> imm mod 2 = 0 ->
  let i := enc_j op rd' imm in
  uint 32 i /\ opcode i = op /\ rd i = rd' /\ imm_j i = imm.
Proof using Hop Hrd.
  clear f3 rs1' rs2' f7 Hf3 Hrs1 Hrs2 Hf7.
  intros Himm Hev. cbv zeta. rewrite (enc_j_sum op rd' 0 0 0 0) by done.
  assert (imm = - ((imm / 2 ^ 20) mod 2) * 2 ^ 20 + (imm / 2 ^ 12) mod 2 ^ 8 * 2 ^ 12
    + (imm / 2 ^ 11) mod 2 * 2 ^ 11 + (imm / 2) mod 2 ^ 10 * 2) as Himm_eq.
  { zlia. }
  remember ((imm / 2 ^ 12) mod 2 ^ 8) as a eqn:Ha.
  remember ((imm / 2 ^ 11) mod 2) as b eqn:Hb.
  remember ((imm / 2) mod 2 ^ 10) as c eqn:Hc.
  remember ((imm / 2 ^ 20) mod 2) as d eqn:Hd.
  assert (uint 8 a /\ uint 1 b /\ uint 10 c /\ uint 1 d) as (Ha' & Hb' & Hc' & Hd').
  { subst a b c d. unfold uint. zlia. }
  clear Ha Hb Hc Hd.
  assert (uint 32 (op + rd' * 2 ^ 7 + a * 2 ^ 12 + b * 2 ^ 20 + c * 2 ^ 21 + d * 2 ^ 31))
    as Hu. { unfold uint in *. lia. }
  split; [done|]. rewrite imm_j_sum by done. rewrite Himm_eq. clear Himm_eq Himm Hev Hu imm.
  unfold uint, opcode, rd in *. arith_bits.
  split; [zlia|]. split; [zlia|].
  set (n := op + _ + _ + _ + _ + _).
  assert (n / 2 ^ 31 = d) as -> by (subst n; zlia).
  assert ((n / 2 ^ 12) mod 2 ^ 8 = a) as -> by (subst n; zlia).
  assert ((n / 2 ^ 20) mod 2 = b) as -> by (subst n; zlia).
  assert ((n / 2 ^ 21) mod 2 ^ 10 = c) as -> by (subst n; zlia).
  done.
Qed.
End RoundTrips.

(** Encoding and decoding are inverse: for each of the six instruction formats, the
    word assembled from an opcode, registers, function fields and an immediate
    in the format's range is a 32-bit word from which the decoder's extractors
    return exactly those parts, the scattered and sign-extended immediates
    included. *)
Theorem decode_encode op rd' f3 rs1' rs2' f7 imm12 imm13 imm20 imm21 :
  uint 7 op -> uint 5 rd' -> uint 3 f3 -> uint 5 rs1' -> uint 5 rs2' -> uint 7 f7 ->
  - 2 ^ 11 <= imm12 < 2 ^ 11 ->
  - 2 ^ 12 <= imm13 < 2 ^ 12 -> imm13 mod 2 = 0 -> uint 20 imm20 ->
  - 2 ^ 20 <= imm21 < 2 ^ 20 -> imm21 mod 2 = 0 ->
  (let i := enc_r op rd' f3 rs1' rs2' f7 in
   (opcode i, rd i, funct3 i, rs1 i, rs2 i, funct7 i) = (op, rd', f3, rs1', rs2', f7))
  /\ (let i := enc_i op rd' f3 rs1' imm12 in
      (opcode i, rd i, funct3 i, rs1 i, imm_i i) = (op, rd', f3, rs1', imm12))
  /\ (let i := enc_s op f3 rs1' rs2' imm12 in
      (opcode i, funct3 i, rs1 i, rs2 i, imm_s i) = (op, f3, rs1', rs2', imm12))
  /\ (let i := enc_b op f3 rs1' rs2' imm13 in
      (opcode i, funct3 i, rs1 i, rs2 i, imm_b i) = (op, f3, rs1', rs2', imm13))
  /\ (let i := enc_u op rd' imm20 in
      (opcode i, rd i, imm_u i) = (op, rd', signed 20 imm20 * 2 ^ 12))
  /\ (let i := enc_j op rd' imm21 in (opcode i, rd i, imm_j i) = (op, rd', imm21)).
Proof.
  intros. cbv zeta.
  destruct (enc_r_fields op rd' f3 rs1' rs2' f7) as (_ & -> & -> & -> & -> & -> & ->); try done.
  destruct (enc_i_fields op rd' f3 rs1' ltac:(done) ltac:(done) ltac:(done) ltac:(done) imm12)
    as (_ & -> & -> & -> & -> & ->); [done|].
  destruct (enc_s_fields op f3 rs1' rs2' ltac:(done) ltac:(done) ltac:(done) ltac:(done) imm12)
    as (_ & -> & -> & -> & -> & ->); [done|].
  destruct (enc_b_fields op f3 rs1' rs2' ltac:(done) ltac:(done) ltac:(done) ltac:(done) imm13)
    as (_ & -> & -> & -> & -> & ->); [done|done|].
  destruct (enc_u_fields op rd' ltac:(done) ltac:(done) imm20) as (_ & -> & -> & ->); [done|].
  destruct (enc_j_fields op rd' ltac:(done) ltac:(done) imm21) as (_ & -> & -> & ->); done.
Qed.

Lemma decode_encode_witness :
  let i := enc_b 0x63 1 5 6 (-4096) in
  (opcode i, funct3 i, rs1 i, rs2 i, imm_b i) = (0x63, 1, 5, 6, -4096).
Proof.
  apply (decode_encode 0x63 7 1 5 6 0x20 (-2048) (-4096) 0x80000 0xffffe);
    unfold uint; lia || reflexivity.
Defined.
