(* ===== verification/Compressed.v ===== *)
(** * The RVC expander (compressed.rs)

    [expand] maps a 16-bit instruction to its 32-bit equivalent.  The outer
    option is the panic of the final [unreachable!] arm (a 32-bit prefix), the
    inner one the source's [Option]: [None] for a reserved encoding. *)

From S2P Require Import Prelude Decode.

Definition creg (f : Z) : Z := f + 8.

Definition sext (val bits : Z) : Z := i32 (shl32 val (32 - bits)) .>> (32 - bits).

Definition OP : Z := 0x33.
Definition OP32 : Z := 0x3b.
Definition OPIMM : Z := 0x13.
Definition OPIMM32 : Z := 0x1b.
Definition LOAD : Z := 0x03.
Definition STORE : Z := 0x23.
Definition LOADFP : Z := 0x07.
Definition STOREFP : Z := 0x27.
Definition LUI : Z := 0x37.
Definition JAL : Z := 0x6f.
Definition JALR : Z := 0x67.
Definition BRANCH : Z := 0x63.

(** Quadrant 0. *)
Definition expand_q0 (c f3 : Z) : option Z :=
  let rd := creg ((c .>> 2) .& 7) in
  let rs1 := creg ((c .>> 7) .& 7) in
  if f3 =? 0 then
    let imm := (((c .>> 11) .& 3) .<< 4)
                 .| (((c .>> 7) .& 0xf) .<< 6)
                 .| (((c .>> 6) .& 1) .<< 2)
                 .| (((c .>> 5) .& 1) .<< 3) in
    if imm =? 0 then None else Some (enc_i OPIMM rd 0 2 imm)
  else if f3 =? 2 then
    let imm := (((c .>> 10) .& 7) .<< 3) .| (((c .>> 6) .& 1) .<< 2)
                 .| (((c .>> 5) .& 1) .<< 6) in
    Some (enc_i LOAD rd 2 rs1 imm)
  else if f3 =? 3 then
    let imm := (((c .>> 10) .& 7) .<< 3) .| (((c .>> 5) .& 3) .<< 6) in
    Some (enc_i LOAD rd 3 rs1 imm)
  else if f3 =? 6 then
    let imm := (((c .>> 10) .& 7) .<< 3) .| (((c .>> 6) .& 1) .<< 2)
                 .| (((c .>> 5) .& 1) .<< 6) in
    Some (enc_s STORE 2 rs1 rd imm)
  else if f3 =? 7 then
    let imm := (((c .>> 10) .& 7) .<< 3) .| (((c .>> 5) .& 3) .<< 6) in
    Some (enc_s STORE 3 rs1 rd imm)
  else if f3 =? 1 then
    let imm := (((c .>> 10) .& 7) .<< 3) .| (((c .>> 5) .& 3) .<< 6) in
    Some (enc_i LOADFP rd 3 rs1 imm)
  else if f3 =? 5 then
    let imm := (((c .>> 10) .& 7) .<< 3) .| (((c .>> 5) .& 3) .<< 6) in
    Some (enc_s STOREFP 3 rs1 rd imm)
  else None.

(** Quadrant 1. *)
Definition expand_q1 (c f3 : Z) : option Z :=
  let rd := (c .>> 7) .& 0x1f in
  let imm6 := sext ((((c .>> 12) .& 1) .<< 5) .| ((c .>> 2) .& 0x1f)) 6 in
  if f3 =? 0 then Some (enc_i OPIMM rd 0 rd imm6)
  else if f3 =? 1 then
    if rd =? 0 then None else Some (enc_i OPIMM32 rd 0 rd imm6)
  else if f3 =? 2 then Some (enc_i OPIMM rd 0 0 imm6)
  else if f3 =? 3 then
    if rd =? 2 then
      let imm := sext ((((c .>> 12) .& 1) .<< 9)
                         .| (((c .>> 6) .& 1) .<< 4)
                         .| (((c .>> 5) .& 1) .<< 6)
                         .| (((c .>> 3) .& 3) .<< 7)
                         .| (((c .>> 2) .& 1) .<< 5)) 10 in
      if imm =? 0 then None else Some (enc_i OPIMM 2 0 2 imm)
    else
      if imm6 =? 0 then None else Some (enc_u LUI rd (u32 imm6 .& 0xfffff))
  else if f3 =? 4 then
    let rdp := creg ((c .>> 7) .& 7) in
    let sel := (c .>> 10) .& 3 in
    if sel =? 0 then
      let shamt := (((c .>> 12) .& 1) .<< 5) .| ((c .>> 2) .& 0x1f) in
      Some (enc_i OPIMM rdp 5 rdp shamt)
    else if sel =? 1 then
      let shamt := (((c .>> 12) .& 1) .<< 5) .| ((c .>> 2) .& 0x1f) in
      Some (enc_i OPIMM rdp 5 rdp (shamt .| 0x400))
    else if sel =? 2 then Some (enc_i OPIMM rdp 7 rdp imm6)
    else
      let rs2 := creg ((c .>> 2) .& 7) in
      let k := (((c .>> 12) .& 1) .<< 2) .| ((c .>> 5) .& 3) in
      if k =? 0 then Some (enc_r OP rdp 0 rdp rs2 0x20)
      else if k =? 1 then Some (enc_r OP rdp 4 rdp rs2 0)
      else if k =? 2 then Some (enc_r OP rdp 6 rdp rs2 0)
      else if k =? 3 then Some (enc_r OP rdp 7 rdp rs2 0)
      else if k =? 4 then Some (enc_r OP32 rdp 0 rdp rs2 0x20)
      else if k =? 5 then Some (enc_r OP32 rdp 0 rdp rs2 0)
      else None
  else if f3 =? 5 then
    let imm := sext ((((c .>> 12) .& 1) .<< 11)
                       .| (((c .>> 11) .& 1) .<< 4)
                       .| (((c .>> 9) .& 3) .<< 8)
                       .| (((c .>> 8) .& 1) .<< 10)
                       .| (((c .>> 7) .& 1) .<< 6)
                       .| (((c .>> 6) .& 1) .<< 7)
                       .| (((c .>> 3) .& 7) .<< 1)
                       .| (((c .>> 2) .& 1) .<< 5)) 12 in
    Some (enc_j JAL 0 imm)
  else if (f3 =? 6) || (f3 =? 7) then
    let rs1 := creg ((c .>> 7) .& 7) in
    let imm := sext ((((c .>> 12) .& 1) .<< 8)
                       .| (((c .>> 10) .& 3) .<< 3)
                       .| (((c .>> 5) .& 3) .<< 6)
                       .| (((c .>> 3) .& 3) .<< 1)
                       .| (((c .>> 2) .& 1) .<< 5)) 9 in
    Some (enc_b BRANCH (if f3 =? 6 then 0 else 1) rs1 0 imm)
  else None.

(** Quadrant 2. *)
Definition expand_q2 (c f3 : Z) : option Z :=
  let rd := (c .>> 7) .& 0x1f in
  let rs2 := (c .>> 2) .& 0x1f in
  if f3 =? 0 then
    let shamt := (((c .>> 12) .& 1) .<< 5) .| ((c .>> 2) .& 0x1f) in
    Some (enc_i OPIMM rd 1 rd shamt)
  else if f3 =? 2 then
    if rd =? 0 then None else
    let imm := (((c .>> 12) .& 1) .<< 5) .| (((c .>> 4) .& 7) .<< 2)
                 .| (((c .>> 2) .& 3) .<< 6) in
    Some (enc_i LOAD rd 2 2 imm)
  else if f3 =? 3 then
    if rd =? 0 then None else
    let imm := (((c .>> 12) .& 1) .<< 5) .| (((c .>> 5) .& 3) .<< 3)
                 .| (((c .>> 2) .& 7) .<< 6) in
    Some (enc_i LOAD rd 3 2 imm)
  else if f3 =? 4 then
    let bit12 := (c .>> 12) .& 1 in
    if (bit12 =? 0) && (rd =? 0) then None
    else if (bit12 =? 0) && (rs2 =? 0) then Some (enc_i JALR 0 0 rd 0)
    else if bit12 =? 0 then Some (enc_r OP rd 0 0 rs2 0)
    else if (bit12 =? 1) && (rd =? 0) && (rs2 =? 0) then Some 0x00100073
    else if (bit12 =? 1) && (rs2 =? 0) then Some (enc_i JALR 1 0 rd 0)
    else if bit12 =? 1 then Some (enc_r OP rd 0 rd rs2 0)
    else None
  else if f3 =? 6 then
    let imm := (((c .>> 9) .& 0xf) .<< 2) .| (((c .>> 7) .& 3) .<< 6) in
    Some (enc_s STORE 2 2 rs2 imm)
  else if f3 =? 7 then
    let imm := (((c .>> 10) .& 7) .<< 3) .| (((c .>> 7) .& 7) .<< 6) in
    Some (enc_s STORE 3 2 rs2 imm)
  else if f3 =? 1 then
    let imm := (((c .>> 12) .& 1) .<< 5) .| (((c .>> 5) .& 3) .<< 3)
                 .| (((c .>> 2) .& 7) .<< 6) in
    Some (enc_i LOADFP rd 3 2 imm)
  else if f3 =? 5 then
    let imm := (((c .>> 10) .& 7) .<< 3) .| (((c .>> 7) .& 7) .<< 6) in
    Some (enc_s STOREFP 3 2 rs2 imm)
  else None.

(** Expand a 16-bit RVC instruction to its 32-bit equivalent (RV64C). *)
Definition expand (c : Z) : option (option Z) :=
  if c =? 0 then Some None else
  let f3 := (c .>> 13) .& 7 in
  let q := c .& 3 in
  if q =? 0 then Some (expand_q0 c f3)
  else if q =? 1 then Some (expand_q1 c f3)
  else if q =? 2 then Some (expand_q2 c f3)
  else None.

(** ** Immediates of the expansions *)

Lemma sext_range v b : 0 < b <= 32 -> - 2 ^ (b - 1) <= sext v b < 2 ^ (b - 1).
Proof.
  intros Hb. unfold sext, i32, signed. rewrite Z.shiftr_div_pow2 by lia.
  set (y := shl32 v (32 - b)).
  assert (- 2 ^ 31 <= (y + 2 ^ (32 - 1)) mod 2 ^ 32 - 2 ^ (32 - 1) < 2 ^ 31) as Hy by zlia.
  assert (2 ^ 31 = 2 ^ (b - 1) * 2 ^ (32 - b)) as Hp
    by (rewrite <- Z.pow_add_r by lia; f_equal; lia).
  split.
  - apply Z.div_le_lower_bound; [lia|]. lia.
  - apply Z.div_lt_upper_bound; [lia|]. lia.
Qed.

(** A sign extension keeps the value modulo the field width, hence its parity. *)
Lemma sext_mod v b : 0 < b <= 32 -> sext v b mod 2 ^ b = v mod 2 ^ b.
Proof.
  intros Hb. unfold sext, i32, signed, shl32, u32, wrap.
  rewrite Z.shiftl_mul_pow2, Z.shiftr_div_pow2 by lia.
  set (m := 2 ^ (32 - b)). assert (0 < m) by lia.
  assert (2 ^ 32 = 2 ^ b * m) as Hp
    by (unfold m; rewrite <- Z.pow_add_r by lia; f_equal; lia).
  set (y := ((v * m) mod 2 ^ 32 + 2 ^ (32 - 1)) mod 2 ^ 32 - 2 ^ (32 - 1)).
  assert (exists k, y = (v + k * 2 ^ b) * m) as [k Hk].
  { exists (- ((v * m) / 2 ^ 32) - ((v * m) mod 2 ^ 32 + 2 ^ (32 - 1)) / 2 ^ 32).
    unfold y. rewrite Z.mod_eq by lia. rewrite (Z.mod_eq (v * m)) at 1 by lia. rewrite Hp. lia. }
  rewrite Hk, Z.div_mul by lia. by rewrite Z.mod_add by lia.
Qed.

Lemma sext_even v b : 1 < b <= 32 -> v mod 2 = 0 -> sext v b mod 2 = 0.
Proof.
  intros Hb Hv. pose proof (sext_mod v b ltac:(lia)) as H.
  assert (2 ^ b = 2 * 2 ^ (b - 1)) as Hp
    by (rewrite <- Z.pow_succ_r by lia; f_equal; lia).
  pose proof (Z.div_mod (sext v b) (2 ^ b) ltac:(lia)).
  pose proof (Z.div_mod v (2 ^ b) ltac:(lia)).
  assert (sext v b = v + 2 * (2 ^ (b - 1) * (sext v b / 2 ^ b - v / 2 ^ b))) as -> by nia.
  by rewrite Z.mul_comm, Z.mod_add.
Qed.

Lemma uint_creg c n : uint 5 (creg ((c .>> n) .& 7)).
Proof.
  unfold creg, uint. rewrite (land_ones_lit _ _ 3) by done.
  pose proof (Z.mod_pos_bound (c .>> n) (2 ^ 3)). lia.
Qed.

Lemma uint_land5 x : uint 5 (x .& 0x1f).
Proof. apply uint_land_r; [lia|]. unfold uint. lia. Qed.

(** A masked field moved left by [k] fits in [n] bits; it is even if moved. *)
Lemma uint_field x m k w n :
  0 <= k -> 0 <= w -> uint w m -> w + k <= n -> uint n ((x .& m) .<< k).
Proof.
  intros Hk Hw Hm Hn. pose proof (uint_land_r w x m Hw Hm) as [H1 H2].
  rewrite Z.shiftl_mul_pow2 by done. split; [nia|].
  apply Z.lt_le_trans with (2 ^ w * 2 ^ k); [nia|].
  rewrite <- Z.pow_add_r by done. apply Z.pow_le_mono_r; lia.
Qed.

Lemma even_shl x k : 0 < k -> (x .<< k) mod 2 = 0.
Proof.
  intros. rewrite Z.shiftl_mul_pow2 by lia.
  replace k with (1 + (k - 1)) by lia. rewrite Z.pow_add_r by lia.
  change (2 ^ 1) with 2. replace (x * (2 * 2 ^ (k - 1))) with (x * 2 ^ (k - 1) * 2) by lia.
  by apply Z.mod_mul.
Qed.

Lemma even_lor a b : a mod 2 = 0 -> b mod 2 = 0 -> (a .| b) mod 2 = 0.
Proof.
  rewrite <- !Z.bit0_mod, Z.lor_spec.
  by destruct (Z.testbit a 0), (Z.testbit b 0).
Qed.

Ltac even_tac := repeat (apply even_lor); apply even_shl; lia.

(** Bound of a disjunction of masked, shifted fields. *)
Ltac field_tac :=
  repeat lazymatch goal with
  | |- uint _ (Z.lor _ _) => apply uint_lor; [lia| |]
  | |- uint _ (Z.shiftl (Z.land _ ?m) _) =>
      let w := eval vm_compute in (Z.log2 m + 1) in
      apply (uint_field _ _ _ w); [lia|lia|unfold uint; lia|lia]
  | |- uint ?n (Z.land _ ?m) =>
      apply uint_land_r; [lia|unfold uint; lia]
  | |- uint _ _ => unfold uint; lia
  end.

Lemma uint_pos n x : uint n x -> - 2 ^ n <= x < 2 ^ n.
Proof. unfold uint. lia. Qed.

(** The range side conditions of [enc_*_fields]. *)
Ltac imm_tac :=
  first
  [ solve [apply uint_pos; field_tac]
  | match goal with
    | |- _ <= sext ?v ?b < _ =>
        let H := fresh in
        pose proof (sext_range v b ltac:(lia)) as H;
        eval_pow2; change (2 ^ (b - 1)) with ltac:(let r := eval vm_compute in (2 ^ (b - 1)) in exact r) in H;
        lia
    end
  | lia ].

Ltac reg_tac :=
  first [apply uint_creg | apply uint_land5 | apply uint_land_r; [lia|unfold uint; lia]
        | unfold uint; vm_compute; split; congruence].

Ltac parity_tac := first [even_tac | apply sext_even; [lia|even_tac] | done].

(** The fields of the encoded instruction [i]. *)
Ltac enc_fields i :=
  lazymatch i with
  | enc_i ?op ?d ?f ?s ?im =>
      constr:(enc_i_fields op d f s ltac:(reg_tac) ltac:(reg_tac) ltac:(reg_tac)
                ltac:(reg_tac) im ltac:(imm_tac))
  | enc_s ?op ?f ?s1 ?s2 ?im =>
      constr:(enc_s_fields op f s1 s2 ltac:(reg_tac) ltac:(reg_tac) ltac:(reg_tac)
                ltac:(reg_tac) im ltac:(imm_tac))
  | enc_r ?op ?d ?f ?s1 ?s2 ?f7 =>
      constr:(enc_r_fields op d f s1 s2 f7 ltac:(reg_tac) ltac:(reg_tac) ltac:(reg_tac)
                ltac:(reg_tac) ltac:(reg_tac) ltac:(reg_tac))
  | enc_b ?op ?f ?s1 ?s2 ?im =>
      constr:(enc_b_fields op f s1 s2 ltac:(reg_tac) ltac:(reg_tac) ltac:(reg_tac)
                ltac:(reg_tac) im ltac:(imm_tac) ltac:(parity_tac))
  | enc_u ?op ?d ?im =>
      constr:(enc_u_fields op d ltac:(reg_tac) ltac:(reg_tac) im ltac:(field_tac))
  | enc_j ?op ?d ?im =>
      constr:(enc_j_fields op d ltac:(reg_tac) ltac:(reg_tac) im ltac:(imm_tac)
                ltac:(parity_tac))
  end.

(** ** Well-formed expansions

    A halfword that is not a 32-bit prefix never reaches [unreachable!], and an
    expansion is a 32-bit word with the 32-bit prefix and one of the opcodes the
    expander emits. *)

Definition expand_opcodes : list Z :=
  [OP; OP32; OPIMM; OPIMM32; LOAD; STORE; LOADFP; STOREFP; LUI; JAL; JALR; BRANCH; 0x73].

Definition expansion (i : Z) : Prop :=
  uint 32 i /\ In (opcode i) expand_opcodes.

Lemma expansion_intro i op :
  uint 32 i -> opcode i = op -> In op expand_opcodes -> expansion i.
Proof. intros H1 <- H2. by split. Qed.

(** A leaf of the expander: its encoder's fields. *)
Ltac expansion_leaf :=
  lazymatch goal with
  | |- forall i, None = Some i -> _ => discriminate
  | |- forall i, Some ?e = Some i -> expansion i =>
      let H := fresh in
      intros i H; assert (i = e) as -> by congruence; clear H
  end;
  lazymatch goal with
  | |- expansion ?i =>
      let H := enc_fields i in
      let H1 := fresh in let H2 := fresh in
      destruct H as (H1 & H2 & _);
      apply (expansion_intro _ _ H1 H2); unfold expand_opcodes; simpl; tauto
  end.

Lemma expand_q0_expansion c f3 i : expand_q0 c f3 = Some i -> expansion i.
Proof.
  unfold expand_q0. cbv zeta. revert i.
  repeat zcase; expansion_leaf.
Qed.
Lemma expand_q1_expansion c f3 i : expand_q1 c f3 = Some i -> expansion i.
Proof.
  unfold expand_q1. cbv zeta. revert i.
  destruct ((f3 =? 6) || (f3 =? 7)); repeat zcase; expansion_leaf.
Qed.

Lemma expand_q2_expansion c f3 i : expand_q2 c f3 = Some i -> expansion i.
Proof.
  unfold expand_q2. cbv zeta. revert i.
  repeat (zcase || match goal with |- context [if (?a && ?b) then _ else _] =>
                     destruct (a && b) end);
    try expansion_leaf.
  intros i [= <-]. by split; [|vm_compute; tauto].
Qed.

Lemma expand_expansion c i : expand c = Some (Some i) -> expansion i.
Proof.
  unfold expand. cbv zeta. repeat zcase; intros [= H].
  - by eapply expand_q0_expansion.
  - by eapply expand_q1_expansion.
  - by eapply expand_q2_expansion.
Qed.

(** The low two bits of a word are those of its opcode. *)
Lemma opcode_prefix i : i .& 3 = opcode i .& 3.
Proof. unfold opcode. rewrite <- Z.land_assoc. done. Qed.

(** The expander is total on RVC halfwords and emits only 32-bit instructions:
    the [unreachable!] arm is reached exactly by a 32-bit prefix, and every
    expansion is a 32-bit word whose low two bits are 11 and whose opcode is one
    of those the full decoder executes. *)
Theorem expand_wellformed c :
  uint 16 c ->
  (expand c = None <-> c .& 3 = 3)
  /\ (forall i, expand c = Some (Some i) ->
        uint 32 i /\ i .& 3 = 3 /\ In (opcode i) expand_opcodes).
Proof.
  intros Hc. split.
  - pose proof (Z.mod_pos_bound c (2 ^ 2) ltac:(lia)) as Hq.
    unfold expand. cbv zeta. rewrite (land_ones_lit c 3 2) by done.
    destruct (Z.eqb_spec c 0) as [->|]; [done|].
    repeat zcase; split; intros; try done; change (2 ^ 2) with 4 in *; lia.
  - intros i Hi. destruct (expand_expansion c i Hi) as [H1 H2]. split_and!; [done| |done].
    rewrite opcode_prefix. unfold expand_opcodes in H2.
    repeat (destruct H2 as [<-|H2]; [done|]). done.
Qed.

Lemma expand_wellformed_witness :
  uint 16 0x4501 /\ expand 0x4501 = Some (Some 0x00000513)
  /\ uint 32 0x513 /\ In (opcode 0x513) expand_opcodes.
Proof.
  assert (uint 16 0x4501) as H by (unfold uint; lia).
  destruct (expand_wellformed 0x4501 H) as [_ H2].
  destruct (H2 0x513) as (? & _ & ?); [reflexivity|]. by repeat split.
Defined.
