(* ===== verification/Exception.v ===== *)
(** * Exception causes (exception.rs) *)

From S2P Require Import Prelude.

(** RISC-V exception causes (privileged spec, mcause values). *)
Inductive Exception : Type :=
| InstructionAddressMisaligned (addr : Z)
| InstructionAccessFault (addr : Z)
| IllegalInstruction (insn : Z)
| Breakpoint
| LoadAddressMisaligned (addr : Z)
| LoadAccessFault (addr : Z)
| StoreAddressMisaligned (addr : Z)
| StoreAccessFault (addr : Z)
| EnvironmentCallFromUMode
| EnvironmentCallFromSMode
| EnvironmentCallFromMMode
| InstructionPageFault (addr : Z)
| LoadPageFault (addr : Z)
| StorePageFault (addr : Z).

#[global] Instance Exception_eq_dec : EqDecision Exception.
Proof. solve_decision. Defined.

(** mcause code per the privileged spec. *)
Definition cause (e : Exception) : Z :=
  match e with
  | InstructionAddressMisaligned _ => 0
  | InstructionAccessFault _ => 1
  | IllegalInstruction _ => 2
  | Breakpoint => 3
  | LoadAddressMisaligned _ => 4
  | LoadAccessFault _ => 5
  | StoreAddressMisaligned _ => 6
  | StoreAccessFault _ => 7
  | EnvironmentCallFromUMode => 8
  | EnvironmentCallFromSMode => 9
  | EnvironmentCallFromMMode => 11
  | InstructionPageFault _ => 12
  | LoadPageFault _ => 13
  | StorePageFault _ => 15
  end.

(** The monad of the hart: [Result<_, Exception>] over a threaded state. *)
Definition Hart (S A : Type) : Type := M Exception S A.

(** ** Invariants of hart computations

    [hoare P m Q]: started in a state satisfying [P], [m] does not panic, ends
    in a state satisfying [P] again whether it succeeds or raises, a success
    value satisfies [Q], and a raised exception carries machine-width values. *)

Definition exc_ok (e : Exception) : Prop :=
  match e with
  | InstructionAddressMisaligned a | InstructionAccessFault a
  | LoadAddressMisaligned a | LoadAccessFault a
  | StoreAddressMisaligned a | StoreAccessFault a
  | InstructionPageFault a | LoadPageFault a | StorePageFault a => uint 64 a
  | IllegalInstruction i => uint 32 i
  | _ => True
  end.

Definition hoare {S A} (P : S -> Prop) (m : Hart S A) (Q : A -> Prop) : Prop :=
  forall s, P s ->
  match m s with
  | (Ok a, s') => P s' /\ Q a
  | (Err e, s') => P s' /\ exc_ok e
  | (Panic, _) => False
  end.

Section HoareRules.
Context {S : Type} (P : S -> Prop).

Lemma hoare_ret {A} (a : A) (Q : A -> Prop) : Q a -> hoare P (ret a) Q.
Proof. intros HQ s Hs. by split. Qed.

Lemma hoare_throw {A} e (Q : A -> Prop) : exc_ok e -> hoare P (throw e) Q.
Proof. intros He s Hs. by split. Qed.

Lemma hoare_bind {A B} (m : Hart S A) (k : A -> Hart S B) Q R :
  hoare P m Q -> (forall a, Q a -> hoare P (k a) R) -> hoare P (bind m k) R.
Proof.
  intros Hm Hk s Hs. specialize (Hm s Hs). unfold bind.
  destruct (m s) as [[a|e|] s']; [|done|done].
  destruct Hm as [Hs' Ha]. by apply (Hk a Ha s').
Qed.

Lemma hoare_weaken {A} (m : Hart S A) (Q R : A -> Prop) :
  hoare P m Q -> (forall a, Q a -> R a) -> hoare P m R.
Proof.
  intros Hm HQ s Hs. specialize (Hm s Hs).
  destruct (m s) as [[a|e|] s']; naive_solver.
Qed.

Lemma hoare_gets {A} (f : S -> A) (Q : A -> Prop) :
  (forall s, P s -> Q (f s)) -> hoare P (gets f) Q.
Proof. intros Hf s Hs. split; auto. Qed.

Lemma hoare_modify f : (forall s, P s -> P (f s)) -> hoare P (modify f) (fun _ => True).
Proof. intros Hf s Hs. split; auto. Qed.

Lemma hoare_map_err {A} g (m : Hart S A) (Q : A -> Prop) :
  (forall e, exc_ok e -> exc_ok (g e)) -> hoare P m Q -> hoare P (map_err g m) Q.
Proof.
  intros Hg Hm s Hs. specialize (Hm s Hs). unfold map_err.
  destruct (m s) as [[a|e|] s']; naive_solver.
Qed.

Lemma hoare_ok_or {A} (o : option A) e (Q : A -> Prop) :
  exc_ok e -> (forall a, o = Some a -> Q a) -> hoare P (ok_or o e) Q.
Proof.
  intros He Ho. destruct o; simpl; [apply hoare_ret; auto|by apply hoare_throw].
Qed.

Lemma hoare_if {A} (b : bool) (m1 m2 : Hart S A) Q :
  (b = true -> hoare P m1 Q) -> (b = false -> hoare P m2 Q) ->
  hoare P (if b then m1 else m2) Q.
Proof. destruct b; auto. Qed.
End HoareRules.

Lemma hoare_on_fst {S T A} (P : S -> Prop) (R : T -> Prop) (m : Hart S A) Q :
  hoare P m Q -> hoare (fun st => P (fst st) /\ R (snd st)) (on_fst m) Q.
Proof.
  intros Hm [s t] [Hs Ht]. specialize (Hm s Hs). unfold on_fst. simpl in *.
  destruct (m s) as [[a|e|] s']; naive_solver.
Qed.

Lemma hoare_on_snd {S T A} (P : S -> Prop) (R : T -> Prop) (m : Hart T A) Q :
  hoare R m Q -> hoare (fun st => P (fst st) /\ R (snd st)) (on_snd m) Q.
Proof.
  intros Hm [s t] [Hs Ht]. specialize (Hm t Ht). unfold on_snd. simpl in *.
  destruct (m t) as [[a|e|] t']; naive_solver.
Qed.

(** ** Computations that leave a projection of the state alone *)

Section Steady.
Context {S T : Type} (f : S -> T).

Definition steady {A} (m : Hart S A) : Prop := forall s, f (snd (m s)) = f s.

Lemma steady_ret {A} (a : A) : steady (ret a).
Proof. done. Qed.
Lemma steady_throw {A} e : steady (A := A) (throw e).
Proof. done. Qed.
Lemma steady_panic {A} : steady (A := A) panic.
Proof. done. Qed.
Lemma steady_gets {A} (g : S -> A) : steady (gets g).
Proof. done. Qed.
Lemma steady_ok_or {A} (o : option A) e : steady (ok_or o e).
Proof. by destruct o. Qed.
Lemma steady_unwrap {A} (o : option A) : steady (unwrap o).
Proof. by destruct o. Qed.
Lemma steady_modify g : (forall s, f (g s) = f s) -> steady (modify g).
Proof. done. Qed.
Lemma steady_bind {A C} (m : Hart S A) (k : A -> Hart S C) :
  steady m -> (forall a, steady (k a)) -> steady (bind m k).
Proof.
  intros Hm Hk s. specialize (Hm s). unfold bind. destruct (m s) as [[a|e|] s']; cbn [snd] in *; [|done..].
  by rewrite Hk.
Qed.

(** An invariant that only looks at the projection may be kept beside another. *)
Lemma hoare_steady {A} (P : S -> Prop) (R : T -> Prop) (m : Hart S A) Q :
  hoare P m Q -> steady m -> hoare (fun s => P s /\ R (f s)) m Q.
Proof.
  intros Hm Hs s [HP HR]. specialize (Hm s HP). specialize (Hs s).
  destruct (m s) as [[a|e|] s']; cbn [snd] in Hs; [|..|done]; rewrite Hs; naive_solver.
Qed.
End Steady.

Create HintDb steady.
#[export] Hint Resolve steady_ret steady_throw steady_panic steady_gets steady_ok_or steady_unwrap : steady.
