(* ===== verification/Csr.v ===== *)
(** * Privileged architecture (csr.rs)

    Privilege modes, CSR addresses, the mstatus layout and the privileged CSR
    state [SysCsrs] of a full-system hart. *)

From S2P Require Import Prelude.

Inductive Mode : Type := User | Supervisor | Machine.

#[global] Instance Mode_eq_dec : EqDecision Mode.
Proof. solve_decision. Defined.

(** The discriminants of the enum ([mode as u64]). *)
Definition mode_bits (m : Mode) : Z :=
  match m with User => 0 | Supervisor => 1 | Machine => 3 end.

Definition mode_eqb (a b : Mode) : bool := mode_bits a =? mode_bits b.

Definition from_bits (b : Z) : Mode :=
  let k := b .& 3 in
  if k =? 0 then User else if k =? 1 then Supervisor else Machine.

(** ** CSR addresses *)

Definition FFLAGS : Z := 0x001.
Definition FRM : Z := 0x002.
Definition FCSR : Z := 0x003.
Definition VSTART : Z := 0x008.
Definition VXSAT : Z := 0x009.
Definition VXRM : Z := 0x00a.
Definition VCSR : Z := 0x00f.
Definition SSTATUS : Z := 0x100.
Definition SIE : Z := 0x104.
Definition STVEC : Z := 0x105.
Definition SCOUNTEREN : Z := 0x106.
Definition SSCRATCH : Z := 0x140.
Definition SEPC : Z := 0x141.
Definition SCAUSE : Z := 0x142.
Definition STVAL : Z := 0x143.
Definition SIP : Z := 0x144.
Definition SATP : Z := 0x180.
Definition MSTATUS : Z := 0x300.
Definition MISA : Z := 0x301.
Definition MEDELEG : Z := 0x302.
Definition MIDELEG : Z := 0x303.
Definition MIE : Z := 0x304.
Definition MTVEC : Z := 0x305.
Definition MCOUNTEREN : Z := 0x306.
Definition MSCRATCH : Z := 0x340.
Definition MEPC : Z := 0x341.
Definition MCAUSE : Z := 0x342.
Definition MTVAL : Z := 0x343.
Definition MIP : Z := 0x344.
Definition MCYCLE : Z := 0xb00.
Definition MINSTRET : Z := 0xb02.
Definition CYCLE : Z := 0xc00.
Definition TIME : Z := 0xc01.
Definition INSTRET : Z := 0xc02.
Definition VL : Z := 0xc20.
Definition VTYPE : Z := 0xc21.
Definition VLENB : Z := 0xc22.
Definition MVENDORID : Z := 0xf11.
Definition MARCHID : Z := 0xf12.
Definition MIMPID : Z := 0xf13.
Definition MHARTID : Z := 0xf14.

(** ** mstatus bits *)

Definition MSTATUS_SIE : Z := 1 .<< 1.
Definition MSTATUS_MIE : Z := 1 .<< 3.
Definition MSTATUS_SPIE : Z := 1 .<< 5.
Definition MSTATUS_MPIE : Z := 1 .<< 7.
Definition MSTATUS_SPP : Z := 1 .<< 8.
Definition MSTATUS_VS : Z := 3 .<< 9.
Definition MSTATUS_MPP : Z := 3 .<< 11.
Definition MSTATUS_FS : Z := 3 .<< 13.
Definition MSTATUS_MPRV : Z := 1 .<< 17.
Definition MSTATUS_SUM : Z := 1 .<< 18.
Definition MSTATUS_MXR : Z := 1 .<< 19.
Definition MSTATUS_TVM : Z := 1 .<< 20.
Definition MSTATUS_TW : Z := 1 .<< 21.
Definition MSTATUS_TSR : Z := 1 .<< 22.
Definition MSTATUS_UXL : Z := 3 .<< 32.
Definition MSTATUS_SXL : Z := 3 .<< 34.
Definition MSTATUS_SD : Z := 1 .<< 63.

(** Bits of mstatus visible/writable through sstatus. *)
Definition SSTATUS_MASK : Z :=
  MSTATUS_SIE .| MSTATUS_SPIE .| MSTATUS_SPP .| MSTATUS_VS .| MSTATUS_FS
    .| MSTATUS_SUM .| MSTATUS_MXR .| MSTATUS_UXL .| MSTATUS_SD.

(** ** Interrupt bits (mip/mie) *)

Definition IRQ_SSIP : Z := 1 .<< 1.
Definition IRQ_MSIP : Z := 1 .<< 3.
Definition IRQ_STIP : Z := 1 .<< 5.
Definition IRQ_MTIP : Z := 1 .<< 7.
Definition IRQ_SEIP : Z := 1 .<< 9.
Definition IRQ_MEIP : Z := 1 .<< 11.

(** misa: RV64 IMAFDCSUV. *)
Definition MISA_VALUE : Z :=
  (2 .<< 62) .| (1 .<< 0) .| (1 .<< 2) .| (1 .<< 3) .| (1 .<< 5) .| (1 .<< 8)
    .| (1 .<< 12) .| (1 .<< 18) .| (1 .<< 20) .| (1 .<< 21).

(** The privileged CSR state added to the hart for full-system mode. *)
Record SysCsrs : Type := mkSys {
  mode : Mode;
  mstatus : Z;
  medeleg : Z;
  mideleg : Z;
  mie : Z;
  mip : Z;
  mtvec : Z;
  mcounteren : Z;
  mscratch : Z;
  mepc : Z;
  mcause : Z;
  mtval : Z;
  stvec : Z;
  scounteren : Z;
  sscratch : Z;
  sepc : Z;
  scause : Z;
  stval : Z;
  satp : Z;
  mhartid : Z;
  mtime : Z;
  time_scale : Z;
  time_offset : Z;
  pmpcfg : list Z;
  pmpaddr : list Z;
  minstret_off : Z
}.

(** Field updates of [SysCsrs]. *)
Definition set_mode (v : Mode) (r : SysCsrs) : SysCsrs :=
  mkSys v (r.(mstatus)) (r.(medeleg)) (r.(mideleg)) (r.(mie)) (r.(mip)) (r.(mtvec))
    (r.(mcounteren)) (r.(mscratch)) (r.(mepc)) (r.(mcause)) (r.(mtval)) (r.(stvec))
    (r.(scounteren)) (r.(sscratch)) (r.(sepc)) (r.(scause)) (r.(stval)) (r.(satp))
    (r.(mhartid)) (r.(mtime)) (r.(time_scale)) (r.(time_offset)) (r.(pmpcfg))
    (r.(pmpaddr)) (r.(minstret_off)).
Definition set_mstatus (v : Z) (r : SysCsrs) : SysCsrs :=
  mkSys (r.(mode)) v (r.(medeleg)) (r.(mideleg)) (r.(mie)) (r.(mip)) (r.(mtvec))
    (r.(mcounteren)) (r.(mscratch)) (r.(mepc)) (r.(mcause)) (r.(mtval)) (r.(stvec))
    (r.(scounteren)) (r.(sscratch)) (r.(sepc)) (r.(scause)) (r.(stval)) (r.(satp))
    (r.(mhartid)) (r.(mtime)) (r.(time_scale)) (r.(time_offset)) (r.(pmpcfg))
    (r.(pmpaddr)) (r.(minstret_off)).
Definition set_medeleg (v : Z) (r : SysCsrs) : SysCsrs :=
  mkSys (r.(mode)) (r.(mstatus)) v (r.(mideleg)) (r.(mie)) (r.(mip)) (r.(mtvec))
    (r.(mcounteren)) (r.(mscratch)) (r.(mepc)) (r.(mcause)) (r.(mtval)) (r.(stvec))
    (r.(scounteren)) (r.(sscratch)) (r.(sepc)) (r.(scause)) (r.(stval)) (r.(satp))
    (r.(mhartid)) (r.(mtime)) (r.(time_scale)) (r.(time_offset)) (r.(pmpcfg))
    (r.(pmpaddr)) (r.(minstret_off)).
Definition set_mideleg (v : Z) (r : SysCsrs) : SysCsrs :=
  mkSys (r.(mode)) (r.(mstatus)) (r.(medeleg)) v (r.(mie)) (r.(mip)) (r.(mtvec))
    (r.(mcounteren)) (r.(mscratch)) (r.(mepc)) (r.(mcause)) (r.(mtval)) (r.(stvec))
    (r.(scounteren)) (r.(sscratch)) (r.(sepc)) (r.(scause)) (r.(stval)) (r.(satp))
    (r.(mhartid)) (r.(mtime)) (r.(time_scale)) (r.(time_offset)) (r.(pmpcfg))
    (r.(pmpaddr)) (r.(minstret_off)).
Definition set_mie (v : Z) (r : SysCsrs) : SysCsrs :=
  mkSys (r.(mode)) (r.(mstatus)) (r.(medeleg)) (r.(mideleg)) v (r.(mip)) (r.(mtvec))
    (r.(mcounteren)) (r.(mscratch)) (r.(mepc)) (r.(mcause)) (r.(mtval)) (r.(stvec))
    (r.(scounteren)) (r.(sscratch)) (r.(sepc)) (r.(scause)) (r.(stval)) (r.(satp))
    (r.(mhartid)) (r.(mtime)) (r.(time_scale)) (r.(time_offset)) (r.(pmpcfg))
    (r.(pmpaddr)) (r.(minstret_off)).
Definition set_mip (v : Z) (r : SysCsrs) : SysCsrs :=
  mkSys (r.(mode)) (r.(mstatus)) (r.(medeleg)) (r.(mideleg)) (r.(mie)) v (r.(mtvec))
    (r.(mcounteren)) (r.(mscratch)) (r.(mepc)) (r.(mcause)) (r.(mtval)) (r.(stvec))
    (r.(scounteren)) (r.(sscratch)) (r.(sepc)) (r.(scause)) (r.(stval)) (r.(satp))
    (r.(mhartid)) (r.(mtime)) (r.(time_scale)) (r.(time_offset)) (r.(pmpcfg))
    (r.(pmpaddr)) (r.(minstret_off)).
Definition set_mtvec (v : Z) (r : SysCsrs) : SysCsrs :=
  mkSys (r.(mode)) (r.(mstatus)) (r.(medeleg)) (r.(mideleg)) (r.(mie)) (r.(mip)) v
    (r.(mcounteren)) (r.(mscratch)) (r.(mepc)) (r.(mcause)) (r.(mtval)) (r.(stvec))
    (r.(scounteren)) (r.(sscratch)) (r.(sepc)) (r.(scause)) (r.(stval)) (r.(satp))
    (r.(mhartid)) (r.(mtime)) (r.(time_scale)) (r.(time_offset)) (r.(pmpcfg))
    (r.(pmpaddr)) (r.(minstret_off)).
Definition set_mcounteren (v : Z) (r : SysCsrs) : SysCsrs :=
  mkSys (r.(mode)) (r.(mstatus)) (r.(medeleg)) (r.(mideleg)) (r.(mie)) (r.(mip))
    (r.(mtvec)) v (r.(mscratch)) (r.(mepc)) (r.(mcause)) (r.(mtval)) (r.(stvec))
    (r.(scounteren)) (r.(sscratch)) (r.(sepc)) (r.(scause)) (r.(stval)) (r.(satp))
    (r.(mhartid)) (r.(mtime)) (r.(time_scale)) (r.(time_offset)) (r.(pmpcfg))
    (r.(pmpaddr)) (r.(minstret_off)).
Definition set_mscratch (v : Z) (r : SysCsrs) : SysCsrs :=
  mkSys (r.(mode)) (r.(mstatus)) (r.(medeleg)) (r.(mideleg)) (r.(mie)) (r.(mip))
    (r.(mtvec)) (r.(mcounteren)) v (r.(mepc)) (r.(mcause)) (r.(mtval)) (r.(stvec))
    (r.(scounteren)) (r.(sscratch)) (r.(sepc)) (r.(scause)) (r.(stval)) (r.(satp))
    (r.(mhartid)) (r.(mtime)) (r.(time_scale)) (r.(time_offset)) (r.(pmpcfg))
    (r.(pmpaddr)) (r.(minstret_off)).
Definition set_mepc (v : Z) (r : SysCsrs) : SysCsrs :=
  mkSys (r.(mode)) (r.(mstatus)) (r.(medeleg)) (r.(mideleg)) (r.(mie)) (r.(mip))
    (r.(mtvec)) (r.(mcounteren)) (r.(mscratch)) v (r.(mcause)) (r.(mtval)) (r.(stvec))
    (r.(scounteren)) (r.(sscratch)) (r.(sepc)) (r.(scause)) (r.(stval)) (r.(satp))
    (r.(mhartid)) (r.(mtime)) (r.(time_scale)) (r.(time_offset)) (r.(pmpcfg))
    (r.(pmpaddr)) (r.(minstret_off)).
Definition set_mcause (v : Z) (r : SysCsrs) : SysCsrs :=
  mkSys (r.(mode)) (r.(mstatus)) (r.(medeleg)) (r.(mideleg)) (r.(mie)) (r.(mip))
    (r.(mtvec)) (r.(mcounteren)) (r.(mscratch)) (r.(mepc)) v (r.(mtval)) (r.(stvec))
    (r.(scounteren)) (r.(sscratch)) (r.(sepc)) (r.(scause)) (r.(stval)) (r.(satp))
    (r.(mhartid)) (r.(mtime)) (r.(time_scale)) (r.(time_offset)) (r.(pmpcfg))
    (r.(pmpaddr)) (r.(minstret_off)).
Definition set_mtval (v : Z) (r : SysCsrs) : SysCsrs :=
  mkSys (r.(mode)) (r.(mstatus)) (r.(medeleg)) (r.(mideleg)) (r.(mie)) (r.(mip))
    (r.(mtvec)) (r.(mcounteren)) (r.(mscratch)) (r.(mepc)) (r.(mcause)) v (r.(stvec))
    (r.(scounteren)) (r.(sscratch)) (r.(sepc)) (r.(scause)) (r.(stval)) (r.(satp))
    (r.(mhartid)) (r.(mtime)) (r.(time_scale)) (r.(time_offset)) (r.(pmpcfg))
    (r.(pmpaddr)) (r.(minstret_off)).
Definition set_stvec (v : Z) (r : SysCsrs) : SysCsrs :=
  mkSys (r.(mode)) (r.(mstatus)) (r.(medeleg)) (r.(mideleg)) (r.(mie)) (r.(mip))
    (r.(mtvec)) (r.(mcounteren)) (r.(mscratch)) (r.(mepc)) (r.(mcause)) (r.(mtval)) v
    (r.(scounteren)) (r.(sscratch)) (r.(sepc)) (r.(scause)) (r.(stval)) (r.(satp))
    (r.(mhartid)) (r.(mtime)) (r.(time_scale)) (r.(time_offset)) (r.(pmpcfg))
    (r.(pmpaddr)) (r.(minstret_off)).
Definition set_scounteren (v : Z) (r : SysCsrs) : SysCsrs :=
  mkSys (r.(mode)) (r.(mstatus)) (r.(medeleg)) (r.(mideleg)) (r.(mie)) (r.(mip))
    (r.(mtvec)) (r.(mcounteren)) (r.(mscratch)) (r.(mepc)) (r.(mcause)) (r.(mtval))
    (r.(stvec)) v (r.(sscratch)) (r.(sepc)) (r.(scause)) (r.(stval)) (r.(satp))
    (r.(mhartid)) (r.(mtime)) (r.(time_scale)) (r.(time_offset)) (r.(pmpcfg))
    (r.(pmpaddr)) (r.(minstret_off)).
Definition set_sscratch (v : Z) (r : SysCsrs) : SysCsrs :=
  mkSys (r.(mode)) (r.(mstatus)) (r.(medeleg)) (r.(mideleg)) (r.(mie)) (r.(mip))
    (r.(mtvec)) (r.(mcounteren)) (r.(mscratch)) (r.(mepc)) (r.(mcause)) (r.(mtval))
    (r.(stvec)) (r.(scounteren)) v (r.(sepc)) (r.(scause)) (r.(stval)) (r.(satp))
    (r.(mhartid)) (r.(mtime)) (r.(time_scale)) (r.(time_offset)) (r.(pmpcfg))
    (r.(pmpaddr)) (r.(minstret_off)).
Definition set_sepc (v : Z) (r : SysCsrs) : SysCsrs :=
  mkSys (r.(mode)) (r.(mstatus)) (r.(medeleg)) (r.(mideleg)) (r.(mie)) (r.(mip))
    (r.(mtvec)) (r.(mcounteren)) (r.(mscratch)) (r.(mepc)) (r.(mcause)) (r.(mtval))
    (r.(stvec)) (r.(scounteren)) (r.(sscratch)) v (r.(scause)) (r.(stval)) (r.(satp))
    (r.(mhartid)) (r.(mtime)) (r.(time_scale)) (r.(time_offset)) (r.(pmpcfg))
    (r.(pmpaddr)) (r.(minstret_off)).
Definition set_scause (v : Z) (r : SysCsrs) : SysCsrs :=
  mkSys (r.(mode)) (r.(mstatus)) (r.(medeleg)) (r.(mideleg)) (r.(mie)) (r.(mip))
    (r.(mtvec)) (r.(mcounteren)) (r.(mscratch)) (r.(mepc)) (r.(mcause)) (r.(mtval))
    (r.(stvec)) (r.(scounteren)) (r.(sscratch)) (r.(sepc)) v (r.(stval)) (r.(satp))
    (r.(mhartid)) (r.(mtime)) (r.(time_scale)) (r.(time_offset)) (r.(pmpcfg))
    (r.(pmpaddr)) (r.(minstret_off)).
Definition set_stval (v : Z) (r : SysCsrs) : SysCsrs :=
  mkSys (r.(mode)) (r.(mstatus)) (r.(medeleg)) (r.(mideleg)) (r.(mie)) (r.(mip))
    (r.(mtvec)) (r.(mcounteren)) (r.(mscratch)) (r.(mepc)) (r.(mcause)) (r.(mtval))
    (r.(stvec)) (r.(scounteren)) (r.(sscratch)) (r.(sepc)) (r.(scause)) v (r.(satp))
    (r.(mhartid)) (r.(mtime)) (r.(time_scale)) (r.(time_offset)) (r.(pmpcfg))
    (r.(pmpaddr)) (r.(minstret_off)).
Definition set_satp (v : Z) (r : SysCsrs) : SysCsrs :=
  mkSys (r.(mode)) (r.(mstatus)) (r.(medeleg)) (r.(mideleg)) (r.(mie)) (r.(mip))
    (r.(mtvec)) (r.(mcounteren)) (r.(mscratch)) (r.(mepc)) (r.(mcause)) (r.(mtval))
    (r.(stvec)) (r.(scounteren)) (r.(sscratch)) (r.(sepc)) (r.(scause)) (r.(stval)) v
    (r.(mhartid)) (r.(mtime)) (r.(time_scale)) (r.(time_offset)) (r.(pmpcfg))
    (r.(pmpaddr)) (r.(minstret_off)).
Definition set_mhartid (v : Z) (r : SysCsrs) : SysCsrs :=
  mkSys (r.(mode)) (r.(mstatus)) (r.(medeleg)) (r.(mideleg)) (r.(mie)) (r.(mip))
    (r.(mtvec)) (r.(mcounteren)) (r.(mscratch)) (r.(mepc)) (r.(mcause)) (r.(mtval))
    (r.(stvec)) (r.(scounteren)) (r.(sscratch)) (r.(sepc)) (r.(scause)) (r.(stval))
    (r.(satp)) v (r.(mtime)) (r.(time_scale)) (r.(time_offset)) (r.(pmpcfg))
    (r.(pmpaddr)) (r.(minstret_off)).
Definition set_mtime (v : Z) (r : SysCsrs) : SysCsrs :=
  mkSys (r.(mode)) (r.(mstatus)) (r.(medeleg)) (r.(mideleg)) (r.(mie)) (r.(mip))
    (r.(mtvec)) (r.(mcounteren)) (r.(mscratch)) (r.(mepc)) (r.(mcause)) (r.(mtval))
    (r.(stvec)) (r.(scounteren)) (r.(sscratch)) (r.(sepc)) (r.(scause)) (r.(stval))
    (r.(satp)) (r.(mhartid)) v (r.(time_scale)) (r.(time_offset)) (r.(pmpcfg))
    (r.(pmpaddr)) (r.(minstret_off)).
Definition set_time_scale (v : Z) (r : SysCsrs) : SysCsrs :=
  mkSys (r.(mode)) (r.(mstatus)) (r.(medeleg)) (r.(mideleg)) (r.(mie)) (r.(mip))
    (r.(mtvec)) (r.(mcounteren)) (r.(mscratch)) (r.(mepc)) (r.(mcause)) (r.(mtval))
    (r.(stvec)) (r.(scounteren)) (r.(sscratch)) (r.(sepc)) (r.(scause)) (r.(stval))
    (r.(satp)) (r.(mhartid)) (r.(mtime)) v (r.(time_offset)) (r.(pmpcfg)) (r.(pmpaddr))
    (r.(minstret_off)).
Definition set_time_offset (v : Z) (r : SysCsrs) : SysCsrs :=
  mkSys (r.(mode)) (r.(mstatus)) (r.(medeleg)) (r.(mideleg)) (r.(mie)) (r.(mip))
    (r.(mtvec)) (r.(mcounteren)) (r.(mscratch)) (r.(mepc)) (r.(mcause)) (r.(mtval))
    (r.(stvec)) (r.(scounteren)) (r.(sscratch)) (r.(sepc)) (r.(scause)) (r.(stval))
    (r.(satp)) (r.(mhartid)) (r.(mtime)) (r.(time_scale)) v (r.(pmpcfg)) (r.(pmpaddr))
    (r.(minstret_off)).
Definition set_pmpcfg (v : list Z) (r : SysCsrs) : SysCsrs :=
  mkSys (r.(mode)) (r.(mstatus)) (r.(medeleg)) (r.(mideleg)) (r.(mie)) (r.(mip))
    (r.(mtvec)) (r.(mcounteren)) (r.(mscratch)) (r.(mepc)) (r.(mcause)) (r.(mtval))
    (r.(stvec)) (r.(scounteren)) (r.(sscratch)) (r.(sepc)) (r.(scause)) (r.(stval))
    (r.(satp)) (r.(mhartid)) (r.(mtime)) (r.(time_scale)) (r.(time_offset)) v
    (r.(pmpaddr)) (r.(minstret_off)).
Definition set_pmpaddr (v : list Z) (r : SysCsrs) : SysCsrs :=
  mkSys (r.(mode)) (r.(mstatus)) (r.(medeleg)) (r.(mideleg)) (r.(mie)) (r.(mip))
    (r.(mtvec)) (r.(mcounteren)) (r.(mscratch)) (r.(mepc)) (r.(mcause)) (r.(mtval))
    (r.(stvec)) (r.(scounteren)) (r.(sscratch)) (r.(sepc)) (r.(scause)) (r.(stval))
    (r.(satp)) (r.(mhartid)) (r.(mtime)) (r.(time_scale)) (r.(time_offset)) (r.(pmpcfg))
    v (r.(minstret_off)).
Definition set_minstret_off (v : Z) (r : SysCsrs) : SysCsrs :=
  mkSys (r.(mode)) (r.(mstatus)) (r.(medeleg)) (r.(mideleg)) (r.(mie)) (r.(mip))
    (r.(mtvec)) (r.(mcounteren)) (r.(mscratch)) (r.(mepc)) (r.(mcause)) (r.(mtval))
    (r.(stvec)) (r.(scounteren)) (r.(sscratch)) (r.(sepc)) (r.(scause)) (r.(stval))
    (r.(satp)) (r.(mhartid)) (r.(mtime)) (r.(time_scale)) (r.(time_offset)) (r.(pmpcfg))
    (r.(pmpaddr)) v.

(** [SysCsrs::new]: UXL/SXL fixed at 64-bit; FS starts Off. *)
Definition SysCsrs_new : SysCsrs := {|
  mode := Machine;
  mstatus := (MSTATUS_UXL .& (2 .<< 32)) .| (MSTATUS_SXL .& (2 .<< 34));
  medeleg := 0; mideleg := 0; mie := 0; mip := 0; mtvec := 0; mcounteren := 0;
  mscratch := 0; mepc := 0; mcause := 0; mtval := 0; time_scale := 0;
  time_offset := 0; stvec := 0; scounteren := 0; sscratch := 0; sepc := 0;
  scause := 0; stval := 0; satp := 0; mhartid := 0; mtime := 0;
  pmpcfg := replicate 8 0; pmpaddr := replicate 64 0; minstret_off := 0 |}.

Lemma mode_eqb_spec a b : reflect (a = b) (mode_eqb a b).
Proof. destruct a, b; constructor; congruence. Qed.

Lemma from_bits_mode_bits m : from_bits (mode_bits m) = m.
Proof. by destruct m. Qed.
