(* ===== verification/State.v ===== *)
(** * The hart's state (cpu.rs, cpu/vector.rs)

    The [Cpu] record with every field of the source (the register arrays [x]
    and [f] are [xregs] and [fregs]), its constructors and the small helpers
    that the components below share. *)

From S2P Require Import Prelude Exception Csr.

(** Why [step]/[run] returned control to the caller. *)
Inductive StopReason : Type :=
| Budget
| Ecall
| Break
| Trap (e : Exception)
| Wfi.

#[global] Instance StopReason_eq_dec : EqDecision StopReason.
Proof. solve_decision. Defined.

(** Memory access type, for translation and fault selection. *)
Inductive Access : Type := Fetch | Load | Store.

#[global] Instance Access_eq_dec : EqDecision Access.
Proof. solve_decision. Defined.

(** [access as usize]. *)
Definition access_index (a : Access) : Z :=
  match a with Fetch => 0 | Load => 1 | Store => 2 end.

Definition access_eqb (a b : Access) : bool := access_index a =? access_index b.

Definition TLB_BITS : Z := 12.
Definition TLB_SIZE : Z := 1 .<< TLB_BITS.
Definition TLB_INVALID : Z := 0xffffffffffffffff.
Definition TLB_PAGE_MASK : Z := 0xfffffffffffff000.
Definition TLB_CTX_SUM : Z := 1 .<< 2.
Definition TLB_CTX_MXR : Z := 1 .<< 3.
Definition IRQ_POLL_INTERVAL : Z := 32.

Definition VLEN_BITS : Z := 128.
Definition VLEN_BYTES : Z := VLEN_BITS / 8.
Definition VREG_COUNT : Z := 32.
Definition VILL : Z := 1 .<< 63.

(** Complete architectural vector-register and vector-CSR state; [regs] is
    [vregs]. *)
Record VectorState : Type := mkVec {
  vregs : list (list Z);
  vl : Z;
  vtype : Z;
  vstart : Z;
  vxrm : Z;
  vxsat : bool
}.

(** Field updates of [VectorState]. *)
Definition set_vregs (v : list (list Z)) (r : VectorState) : VectorState :=
  mkVec v (r.(vl)) (r.(vtype)) (r.(vstart)) (r.(vxrm)) (r.(vxsat)).
Definition set_vl (v : Z) (r : VectorState) : VectorState :=
  mkVec (r.(vregs)) v (r.(vtype)) (r.(vstart)) (r.(vxrm)) (r.(vxsat)).
Definition set_vtype (v : Z) (r : VectorState) : VectorState :=
  mkVec (r.(vregs)) (r.(vl)) v (r.(vstart)) (r.(vxrm)) (r.(vxsat)).
Definition set_vstart (v : Z) (r : VectorState) : VectorState :=
  mkVec (r.(vregs)) (r.(vl)) (r.(vtype)) v (r.(vxrm)) (r.(vxsat)).
Definition set_vxrm (v : Z) (r : VectorState) : VectorState :=
  mkVec (r.(vregs)) (r.(vl)) (r.(vtype)) (r.(vstart)) v (r.(vxsat)).
Definition set_vxsat (v : bool) (r : VectorState) : VectorState :=
  mkVec (r.(vregs)) (r.(vl)) (r.(vtype)) (r.(vstart)) (r.(vxrm)) v.

Definition VectorState_default : VectorState := {|
  vregs := replicate (Z.to_nat VREG_COUNT) (replicate (Z.to_nat VLEN_BYTES) 0);
  vl := 0; vtype := VILL; vstart := 0; vxrm := 0; vxsat := false |}.

(** RV64 hart state + interpreter. *)
Record Cpu : Type := mkCpu {
  xregs : list Z;
  pc : Z;
  insn_count : Z;
  reservation : option Z;
  syscall_log : list (Z * Z);
  syscall_log_pos : Z;
  fregs : list Z;
  fcsr : Z;
  vector : VectorState;
  sys : option SysCsrs;
  host_sbi : bool;
  exc_counts : list Z;
  irq_counts : list Z;
  last_timer_trap : list Z;
  jit_flush_gen : Z;
  irq_poll_cd : Z;
  map_gen : Z;
  tlb_flushes : Z;
  store_jtlb_clears : Z;
  sfence_all : Z;
  sfence_page : Z;
  sfence_foreign_asid : Z;
  tlb_tag : list (list Z);
  tlb_diff : list (list Z);
  jit_tlb_context : Z;
  jtlb_tag : list (list Z);
  jtlb_off : list (list Z);
  jtlb_hashed : bool;
  interpreter_fused_memory : bool;
  retain_tlb_on_privilege_change : bool;
  interpreter_fetch_tag : Z;
  interpreter_fetch_map_gen : Z;
  interpreter_fetch_pa_diff : Z;
  interpreter_fetch_linear_off : Z
}.

(** Field updates of [Cpu]. *)
Definition set_xregs (v : list Z) (r : Cpu) : Cpu :=
  mkCpu v (r.(pc)) (r.(insn_count)) (r.(reservation)) (r.(syscall_log))
    (r.(syscall_log_pos)) (r.(fregs)) (r.(fcsr)) (r.(vector)) (r.(sys)) (r.(host_sbi))
    (r.(exc_counts)) (r.(irq_counts)) (r.(last_timer_trap)) (r.(jit_flush_gen))
    (r.(irq_poll_cd)) (r.(map_gen)) (r.(tlb_flushes)) (r.(store_jtlb_clears))
    (r.(sfence_all)) (r.(sfence_page)) (r.(sfence_foreign_asid)) (r.(tlb_tag))
    (r.(tlb_diff)) (r.(jit_tlb_context)) (r.(jtlb_tag)) (r.(jtlb_off)) (r.(jtlb_hashed))
    (r.(interpreter_fused_memory)) (r.(retain_tlb_on_privilege_change))
    (r.(interpreter_fetch_tag)) (r.(interpreter_fetch_map_gen))
    (r.(interpreter_fetch_pa_diff)) (r.(interpreter_fetch_linear_off)).
Definition set_pc (v : Z) (r : Cpu) : Cpu :=
  mkCpu (r.(xregs)) v (r.(insn_count)) (r.(reservation)) (r.(syscall_log))
    (r.(syscall_log_pos)) (r.(fregs)) (r.(fcsr)) (r.(vector)) (r.(sys)) (r.(host_sbi))
    (r.(exc_counts)) (r.(irq_counts)) (r.(last_timer_trap)) (r.(jit_flush_gen))
    (r.(irq_poll_cd)) (r.(map_gen)) (r.(tlb_flushes)) (r.(store_jtlb_clears))
    (r.(sfence_all)) (r.(sfence_page)) (r.(sfence_foreign_asid)) (r.(tlb_tag))
    (r.(tlb_diff)) (r.(jit_tlb_context)) (r.(jtlb_tag)) (r.(jtlb_off)) (r.(jtlb_hashed))
    (r.(interpreter_fused_memory)) (r.(retain_tlb_on_privilege_change))
    (r.(interpreter_fetch_tag)) (r.(interpreter_fetch_map_gen))
    (r.(interpreter_fetch_pa_diff)) (r.(interpreter_fetch_linear_off)).
Definition set_insn_count (v : Z) (r : Cpu) : Cpu :=
  mkCpu (r.(xregs)) (r.(pc)) v (r.(reservation)) (r.(syscall_log)) (r.(syscall_log_pos))
    (r.(fregs)) (r.(fcsr)) (r.(vector)) (r.(sys)) (r.(host_sbi)) (r.(exc_counts))
    (r.(irq_counts)) (r.(last_timer_trap)) (r.(jit_flush_gen)) (r.(irq_poll_cd))
    (r.(map_gen)) (r.(tlb_flushes)) (r.(store_jtlb_clears)) (r.(sfence_all))
    (r.(sfence_page)) (r.(sfence_foreign_asid)) (r.(tlb_tag)) (r.(tlb_diff))
    (r.(jit_tlb_context)) (r.(jtlb_tag)) (r.(jtlb_off)) (r.(jtlb_hashed))
    (r.(interpreter_fused_memory)) (r.(retain_tlb_on_privilege_change))
    (r.(interpreter_fetch_tag)) (r.(interpreter_fetch_map_gen))
    (r.(interpreter_fetch_pa_diff)) (r.(interpreter_fetch_linear_off)).
Definition set_reservation (v : option Z) (r : Cpu) : Cpu :=
  mkCpu (r.(xregs)) (r.(pc)) (r.(insn_count)) v (r.(syscall_log)) (r.(syscall_log_pos))
    (r.(fregs)) (r.(fcsr)) (r.(vector)) (r.(sys)) (r.(host_sbi)) (r.(exc_counts))
    (r.(irq_counts)) (r.(last_timer_trap)) (r.(jit_flush_gen)) (r.(irq_poll_cd))
    (r.(map_gen)) (r.(tlb_flushes)) (r.(store_jtlb_clears)) (r.(sfence_all))
    (r.(sfence_page)) (r.(sfence_foreign_asid)) (r.(tlb_tag)) (r.(tlb_diff))
    (r.(jit_tlb_context)) (r.(jtlb_tag)) (r.(jtlb_off)) (r.(jtlb_hashed))
    (r.(interpreter_fused_memory)) (r.(retain_tlb_on_privilege_change))
    (r.(interpreter_fetch_tag)) (r.(interpreter_fetch_map_gen))
    (r.(interpreter_fetch_pa_diff)) (r.(interpreter_fetch_linear_off)).
Definition set_syscall_log (v : list (Z * Z)) (r : Cpu) : Cpu :=
  mkCpu (r.(xregs)) (r.(pc)) (r.(insn_count)) (r.(reservation)) v (r.(syscall_log_pos))
    (r.(fregs)) (r.(fcsr)) (r.(vector)) (r.(sys)) (r.(host_sbi)) (r.(exc_counts))
    (r.(irq_counts)) (r.(last_timer_trap)) (r.(jit_flush_gen)) (r.(irq_poll_cd))
    (r.(map_gen)) (r.(tlb_flushes)) (r.(store_jtlb_clears)) (r.(sfence_all))
    (r.(sfence_page)) (r.(sfence_foreign_asid)) (r.(tlb_tag)) (r.(tlb_diff))
    (r.(jit_tlb_context)) (r.(jtlb_tag)) (r.(jtlb_off)) (r.(jtlb_hashed))
    (r.(interpreter_fused_memory)) (r.(retain_tlb_on_privilege_change))
    (r.(interpreter_fetch_tag)) (r.(interpreter_fetch_map_gen))
    (r.(interpreter_fetch_pa_diff)) (r.(interpreter_fetch_linear_off)).
Definition set_syscall_log_pos (v : Z) (r : Cpu) : Cpu :=
  mkCpu (r.(xregs)) (r.(pc)) (r.(insn_count)) (r.(reservation)) (r.(syscall_log)) v
    (r.(fregs)) (r.(fcsr)) (r.(vector)) (r.(sys)) (r.(host_sbi)) (r.(exc_counts))
    (r.(irq_counts)) (r.(last_timer_trap)) (r.(jit_flush_gen)) (r.(irq_poll_cd))
    (r.(map_gen)) (r.(tlb_flushes)) (r.(store_jtlb_clears)) (r.(sfence_all))
    (r.(sfence_page)) (r.(sfence_foreign_asid)) (r.(tlb_tag)) (r.(tlb_diff))
    (r.(jit_tlb_context)) (r.(jtlb_tag)) (r.(jtlb_off)) (r.(jtlb_hashed))
    (r.(interpreter_fused_memory)) (r.(retain_tlb_on_privilege_change))
    (r.(interpreter_fetch_tag)) (r.(interpreter_fetch_map_gen))
    (r.(interpreter_fetch_pa_diff)) (r.(interpreter_fetch_linear_off)).
Definition set_fregs (v : list Z) (r : Cpu) : Cpu :=
  mkCpu (r.(xregs)) (r.(pc)) (r.(insn_count)) (r.(reservation)) (r.(syscall_log))
    (r.(syscall_log_pos)) v (r.(fcsr)) (r.(vector)) (r.(sys)) (r.(host_sbi))
    (r.(exc_counts)) (r.(irq_counts)) (r.(last_timer_trap)) (r.(jit_flush_gen))
    (r.(irq_poll_cd)) (r.(map_gen)) (r.(tlb_flushes)) (r.(store_jtlb_clears))
    (r.(sfence_all)) (r.(sfence_page)) (r.(sfence_foreign_asid)) (r.(tlb_tag))
    (r.(tlb_diff)) (r.(jit_tlb_context)) (r.(jtlb_tag)) (r.(jtlb_off)) (r.(jtlb_hashed))
    (r.(interpreter_fused_memory)) (r.(retain_tlb_on_privilege_change))
    (r.(interpreter_fetch_tag)) (r.(interpreter_fetch_map_gen))
    (r.(interpreter_fetch_pa_diff)) (r.(interpreter_fetch_linear_off)).
Definition set_fcsr (v : Z) (r : Cpu) : Cpu :=
  mkCpu (r.(xregs)) (r.(pc)) (r.(insn_count)) (r.(reservation)) (r.(syscall_log))
    (r.(syscall_log_pos)) (r.(fregs)) v (r.(vector)) (r.(sys)) (r.(host_sbi))
    (r.(exc_counts)) (r.(irq_counts)) (r.(last_timer_trap)) (r.(jit_flush_gen))
    (r.(irq_poll_cd)) (r.(map_gen)) (r.(tlb_flushes)) (r.(store_jtlb_clears))
    (r.(sfence_all)) (r.(sfence_page)) (r.(sfence_foreign_asid)) (r.(tlb_tag))
    (r.(tlb_diff)) (r.(jit_tlb_context)) (r.(jtlb_tag)) (r.(jtlb_off)) (r.(jtlb_hashed))
    (r.(interpreter_fused_memory)) (r.(retain_tlb_on_privilege_change))
    (r.(interpreter_fetch_tag)) (r.(interpreter_fetch_map_gen))
    (r.(interpreter_fetch_pa_diff)) (r.(interpreter_fetch_linear_off)).
Definition set_vector (v : VectorState) (r : Cpu) : Cpu :=
  mkCpu (r.(xregs)) (r.(pc)) (r.(insn_count)) (r.(reservation)) (r.(syscall_log))
    (r.(syscall_log_pos)) (r.(fregs)) (r.(fcsr)) v (r.(sys)) (r.(host_sbi))
    (r.(exc_counts)) (r.(irq_counts)) (r.(last_timer_trap)) (r.(jit_flush_gen))
    (r.(irq_poll_cd)) (r.(map_gen)) (r.(tlb_flushes)) (r.(store_jtlb_clears))
    (r.(sfence_all)) (r.(sfence_page)) (r.(sfence_foreign_asid)) (r.(tlb_tag))
    (r.(tlb_diff)) (r.(jit_tlb_context)) (r.(jtlb_tag)) (r.(jtlb_off)) (r.(jtlb_hashed))
    (r.(interpreter_fused_memory)) (r.(retain_tlb_on_privilege_change))
    (r.(interpreter_fetch_tag)) (r.(interpreter_fetch_map_gen))
    (r.(interpreter_fetch_pa_diff)) (r.(interpreter_fetch_linear_off)).
Definition set_sys (v : option SysCsrs) (r : Cpu) : Cpu :=
  mkCpu (r.(xregs)) (r.(pc)) (r.(insn_count)) (r.(reservation)) (r.(syscall_log))
    (r.(syscall_log_pos)) (r.(fregs)) (r.(fcsr)) (r.(vector)) v (r.(host_sbi))
    (r.(exc_counts)) (r.(irq_counts)) (r.(last_timer_trap)) (r.(jit_flush_gen))
    (r.(irq_poll_cd)) (r.(map_gen)) (r.(tlb_flushes)) (r.(store_jtlb_clears))
    (r.(sfence_all)) (r.(sfence_page)) (r.(sfence_foreign_asid)) (r.(tlb_tag))
    (r.(tlb_diff)) (r.(jit_tlb_context)) (r.(jtlb_tag)) (r.(jtlb_off)) (r.(jtlb_hashed))
    (r.(interpreter_fused_memory)) (r.(retain_tlb_on_privilege_change))
    (r.(interpreter_fetch_tag)) (r.(interpreter_fetch_map_gen))
    (r.(interpreter_fetch_pa_diff)) (r.(interpreter_fetch_linear_off)).
Definition set_host_sbi (v : bool) (r : Cpu) : Cpu :=
  mkCpu (r.(xregs)) (r.(pc)) (r.(insn_count)) (r.(reservation)) (r.(syscall_log))
    (r.(syscall_log_pos)) (r.(fregs)) (r.(fcsr)) (r.(vector)) (r.(sys)) v
    (r.(exc_counts)) (r.(irq_counts)) (r.(last_timer_trap)) (r.(jit_flush_gen))
    (r.(irq_poll_cd)) (r.(map_gen)) (r.(tlb_flushes)) (r.(store_jtlb_clears))
    (r.(sfence_all)) (r.(sfence_page)) (r.(sfence_foreign_asid)) (r.(tlb_tag))
    (r.(tlb_diff)) (r.(jit_tlb_context)) (r.(jtlb_tag)) (r.(jtlb_off)) (r.(jtlb_hashed))
    (r.(interpreter_fused_memory)) (r.(retain_tlb_on_privilege_change))
    (r.(interpreter_fetch_tag)) (r.(interpreter_fetch_map_gen))
    (r.(interpreter_fetch_pa_diff)) (r.(interpreter_fetch_linear_off)).
Definition set_exc_counts (v : list Z) (r : Cpu) : Cpu :=
  mkCpu (r.(xregs)) (r.(pc)) (r.(insn_count)) (r.(reservation)) (r.(syscall_log))
    (r.(syscall_log_pos)) (r.(fregs)) (r.(fcsr)) (r.(vector)) (r.(sys)) (r.(host_sbi)) v
    (r.(irq_counts)) (r.(last_timer_trap)) (r.(jit_flush_gen)) (r.(irq_poll_cd))
    (r.(map_gen)) (r.(tlb_flushes)) (r.(store_jtlb_clears)) (r.(sfence_all))
    (r.(sfence_page)) (r.(sfence_foreign_asid)) (r.(tlb_tag)) (r.(tlb_diff))
    (r.(jit_tlb_context)) (r.(jtlb_tag)) (r.(jtlb_off)) (r.(jtlb_hashed))
    (r.(interpreter_fused_memory)) (r.(retain_tlb_on_privilege_change))
    (r.(interpreter_fetch_tag)) (r.(interpreter_fetch_map_gen))
    (r.(interpreter_fetch_pa_diff)) (r.(interpreter_fetch_linear_off)).
Definition set_irq_counts (v : list Z) (r : Cpu) : Cpu :=
  mkCpu (r.(xregs)) (r.(pc)) (r.(insn_count)) (r.(reservation)) (r.(syscall_log))
    (r.(syscall_log_pos)) (r.(fregs)) (r.(fcsr)) (r.(vector)) (r.(sys)) (r.(host_sbi))
    (r.(exc_counts)) v (r.(last_timer_trap)) (r.(jit_flush_gen)) (r.(irq_poll_cd))
    (r.(map_gen)) (r.(tlb_flushes)) (r.(store_jtlb_clears)) (r.(sfence_all))
    (r.(sfence_page)) (r.(sfence_foreign_asid)) (r.(tlb_tag)) (r.(tlb_diff))
    (r.(jit_tlb_context)) (r.(jtlb_tag)) (r.(jtlb_off)) (r.(jtlb_hashed))
    (r.(interpreter_fused_memory)) (r.(retain_tlb_on_privilege_change))
    (r.(interpreter_fetch_tag)) (r.(interpreter_fetch_map_gen))
    (r.(interpreter_fetch_pa_diff)) (r.(interpreter_fetch_linear_off)).
Definition set_last_timer_trap (v : list Z) (r : Cpu) : Cpu :=
  mkCpu (r.(xregs)) (r.(pc)) (r.(insn_count)) (r.(reservation)) (r.(syscall_log))
    (r.(syscall_log_pos)) (r.(fregs)) (r.(fcsr)) (r.(vector)) (r.(sys)) (r.(host_sbi))
    (r.(exc_counts)) (r.(irq_counts)) v (r.(jit_flush_gen)) (r.(irq_poll_cd))
    (r.(map_gen)) (r.(tlb_flushes)) (r.(store_jtlb_clears)) (r.(sfence_all))
    (r.(sfence_page)) (r.(sfence_foreign_asid)) (r.(tlb_tag)) (r.(tlb_diff))
    (r.(jit_tlb_context)) (r.(jtlb_tag)) (r.(jtlb_off)) (r.(jtlb_hashed))
    (r.(interpreter_fused_memory)) (r.(retain_tlb_on_privilege_change))
    (r.(interpreter_fetch_tag)) (r.(interpreter_fetch_map_gen))
    (r.(interpreter_fetch_pa_diff)) (r.(interpreter_fetch_linear_off)).
Definition set_jit_flush_gen (v : Z) (r : Cpu) : Cpu :=
  mkCpu (r.(xregs)) (r.(pc)) (r.(insn_count)) (r.(reservation)) (r.(syscall_log))
    (r.(syscall_log_pos)) (r.(fregs)) (r.(fcsr)) (r.(vector)) (r.(sys)) (r.(host_sbi))
    (r.(exc_counts)) (r.(irq_counts)) (r.(last_timer_trap)) v (r.(irq_poll_cd))
    (r.(map_gen)) (r.(tlb_flushes)) (r.(store_jtlb_clears)) (r.(sfence_all))
    (r.(sfence_page)) (r.(sfence_foreign_asid)) (r.(tlb_tag)) (r.(tlb_diff))
    (r.(jit_tlb_context)) (r.(jtlb_tag)) (r.(jtlb_off)) (r.(jtlb_hashed))
    (r.(interpreter_fused_memory)) (r.(retain_tlb_on_privilege_change))
    (r.(interpreter_fetch_tag)) (r.(interpreter_fetch_map_gen))
    (r.(interpreter_fetch_pa_diff)) (r.(interpreter_fetch_linear_off)).
Definition set_irq_poll_cd (v : Z) (r : Cpu) : Cpu :=
  mkCpu (r.(xregs)) (r.(pc)) (r.(insn_count)) (r.(reservation)) (r.(syscall_log))
    (r.(syscall_log_pos)) (r.(fregs)) (r.(fcsr)) (r.(vector)) (r.(sys)) (r.(host_sbi))
    (r.(exc_counts)) (r.(irq_counts)) (r.(last_timer_trap)) (r.(jit_flush_gen)) v
    (r.(map_gen)) (r.(tlb_flushes)) (r.(store_jtlb_clears)) (r.(sfence_all))
    (r.(sfence_page)) (r.(sfence_foreign_asid)) (r.(tlb_tag)) (r.(tlb_diff))
    (r.(jit_tlb_context)) (r.(jtlb_tag)) (r.(jtlb_off)) (r.(jtlb_hashed))
    (r.(interpreter_fused_memory)) (r.(retain_tlb_on_privilege_change))
    (r.(interpreter_fetch_tag)) (r.(interpreter_fetch_map_gen))
    (r.(interpreter_fetch_pa_diff)) (r.(interpreter_fetch_linear_off)).
Definition set_map_gen (v : Z) (r : Cpu) : Cpu :=
  mkCpu (r.(xregs)) (r.(pc)) (r.(insn_count)) (r.(reservation)) (r.(syscall_log))
    (r.(syscall_log_pos)) (r.(fregs)) (r.(fcsr)) (r.(vector)) (r.(sys)) (r.(host_sbi))
    (r.(exc_counts)) (r.(irq_counts)) (r.(last_timer_trap)) (r.(jit_flush_gen))
    (r.(irq_poll_cd)) v (r.(tlb_flushes)) (r.(store_jtlb_clears)) (r.(sfence_all))
    (r.(sfence_page)) (r.(sfence_foreign_asid)) (r.(tlb_tag)) (r.(tlb_diff))
    (r.(jit_tlb_context)) (r.(jtlb_tag)) (r.(jtlb_off)) (r.(jtlb_hashed))
    (r.(interpreter_fused_memory)) (r.(retain_tlb_on_privilege_change))
    (r.(interpreter_fetch_tag)) (r.(interpreter_fetch_map_gen))
    (r.(interpreter_fetch_pa_diff)) (r.(interpreter_fetch_linear_off)).
Definition set_tlb_flushes (v : Z) (r : Cpu) : Cpu :=
  mkCpu (r.(xregs)) (r.(pc)) (r.(insn_count)) (r.(reservation)) (r.(syscall_log))
    (r.(syscall_log_pos)) (r.(fregs)) (r.(fcsr)) (r.(vector)) (r.(sys)) (r.(host_sbi))
    (r.(exc_counts)) (r.(irq_counts)) (r.(last_timer_trap)) (r.(jit_flush_gen))
    (r.(irq_poll_cd)) (r.(map_gen)) v (r.(store_jtlb_clears)) (r.(sfence_all))
    (r.(sfence_page)) (r.(sfence_foreign_asid)) (r.(tlb_tag)) (r.(tlb_diff))
    (r.(jit_tlb_context)) (r.(jtlb_tag)) (r.(jtlb_off)) (r.(jtlb_hashed))
    (r.(interpreter_fused_memory)) (r.(retain_tlb_on_privilege_change))
    (r.(interpreter_fetch_tag)) (r.(interpreter_fetch_map_gen))
    (r.(interpreter_fetch_pa_diff)) (r.(interpreter_fetch_linear_off)).
Definition set_store_jtlb_clears (v : Z) (r : Cpu) : Cpu :=
  mkCpu (r.(xregs)) (r.(pc)) (r.(insn_count)) (r.(reservation)) (r.(syscall_log))
    (r.(syscall_log_pos)) (r.(fregs)) (r.(fcsr)) (r.(vector)) (r.(sys)) (r.(host_sbi))
    (r.(exc_counts)) (r.(irq_counts)) (r.(last_timer_trap)) (r.(jit_flush_gen))
    (r.(irq_poll_cd)) (r.(map_gen)) (r.(tlb_flushes)) v (r.(sfence_all))
    (r.(sfence_page)) (r.(sfence_foreign_asid)) (r.(tlb_tag)) (r.(tlb_diff))
    (r.(jit_tlb_context)) (r.(jtlb_tag)) (r.(jtlb_off)) (r.(jtlb_hashed))
    (r.(interpreter_fused_memory)) (r.(retain_tlb_on_privilege_change))
    (r.(interpreter_fetch_tag)) (r.(interpreter_fetch_map_gen))
    (r.(interpreter_fetch_pa_diff)) (r.(interpreter_fetch_linear_off)).
Definition set_sfence_all (v : Z) (r : Cpu) : Cpu :=
  mkCpu (r.(xregs)) (r.(pc)) (r.(insn_count)) (r.(reservation)) (r.(syscall_log))
    (r.(syscall_log_pos)) (r.(fregs)) (r.(fcsr)) (r.(vector)) (r.(sys)) (r.(host_sbi))
    (r.(exc_counts)) (r.(irq_counts)) (r.(last_timer_trap)) (r.(jit_flush_gen))
    (r.(irq_poll_cd)) (r.(map_gen)) (r.(tlb_flushes)) (r.(store_jtlb_clears)) v
    (r.(sfence_page)) (r.(sfence_foreign_asid)) (r.(tlb_tag)) (r.(tlb_diff))
    (r.(jit_tlb_context)) (r.(jtlb_tag)) (r.(jtlb_off)) (r.(jtlb_hashed))
    (r.(interpreter_fused_memory)) (r.(retain_tlb_on_privilege_change))
    (r.(interpreter_fetch_tag)) (r.(interpreter_fetch_map_gen))
    (r.(interpreter_fetch_pa_diff)) (r.(interpreter_fetch_linear_off)).
Definition set_sfence_page (v : Z) (r : Cpu) : Cpu :=
  mkCpu (r.(xregs)) (r.(pc)) (r.(insn_count)) (r.(reservation)) (r.(syscall_log))
    (r.(syscall_log_pos)) (r.(fregs)) (r.(fcsr)) (r.(vector)) (r.(sys)) (r.(host_sbi))
    (r.(exc_counts)) (r.(irq_counts)) (r.(last_timer_trap)) (r.(jit_flush_gen))
    (r.(irq_poll_cd)) (r.(map_gen)) (r.(tlb_flushes)) (r.(store_jtlb_clears))
    (r.(sfence_all)) v (r.(sfence_foreign_asid)) (r.(tlb_tag)) (r.(tlb_diff))
    (r.(jit_tlb_context)) (r.(jtlb_tag)) (r.(jtlb_off)) (r.(jtlb_hashed))
    (r.(interpreter_fused_memory)) (r.(retain_tlb_on_privilege_change))
    (r.(interpreter_fetch_tag)) (r.(interpreter_fetch_map_gen))
    (r.(interpreter_fetch_pa_diff)) (r.(interpreter_fetch_linear_off)).
Definition set_sfence_foreign_asid (v : Z) (r : Cpu) : Cpu :=
  mkCpu (r.(xregs)) (r.(pc)) (r.(insn_count)) (r.(reservation)) (r.(syscall_log))
    (r.(syscall_log_pos)) (r.(fregs)) (r.(fcsr)) (r.(vector)) (r.(sys)) (r.(host_sbi))
    (r.(exc_counts)) (r.(irq_counts)) (r.(last_timer_trap)) (r.(jit_flush_gen))
    (r.(irq_poll_cd)) (r.(map_gen)) (r.(tlb_flushes)) (r.(store_jtlb_clears))
    (r.(sfence_all)) (r.(sfence_page)) v (r.(tlb_tag)) (r.(tlb_diff))
    (r.(jit_tlb_context)) (r.(jtlb_tag)) (r.(jtlb_off)) (r.(jtlb_hashed))
    (r.(interpreter_fused_memory)) (r.(retain_tlb_on_privilege_change))
    (r.(interpreter_fetch_tag)) (r.(interpreter_fetch_map_gen))
    (r.(interpreter_fetch_pa_diff)) (r.(interpreter_fetch_linear_off)).
Definition set_tlb_tag (v : list (list Z)) (r : Cpu) : Cpu :=
  mkCpu (r.(xregs)) (r.(pc)) (r.(insn_count)) (r.(reservation)) (r.(syscall_log))
    (r.(syscall_log_pos)) (r.(fregs)) (r.(fcsr)) (r.(vector)) (r.(sys)) (r.(host_sbi))
    (r.(exc_counts)) (r.(irq_counts)) (r.(last_timer_trap)) (r.(jit_flush_gen))
    (r.(irq_poll_cd)) (r.(map_gen)) (r.(tlb_flushes)) (r.(store_jtlb_clears))
    (r.(sfence_all)) (r.(sfence_page)) (r.(sfence_foreign_asid)) v (r.(tlb_diff))
    (r.(jit_tlb_context)) (r.(jtlb_tag)) (r.(jtlb_off)) (r.(jtlb_hashed))
    (r.(interpreter_fused_memory)) (r.(retain_tlb_on_privilege_change))
    (r.(interpreter_fetch_tag)) (r.(interpreter_fetch_map_gen))
    (r.(interpreter_fetch_pa_diff)) (r.(interpreter_fetch_linear_off)).
Definition set_tlb_diff (v : list (list Z)) (r : Cpu) : Cpu :=
  mkCpu (r.(xregs)) (r.(pc)) (r.(insn_count)) (r.(reservation)) (r.(syscall_log))
    (r.(syscall_log_pos)) (r.(fregs)) (r.(fcsr)) (r.(vector)) (r.(sys)) (r.(host_sbi))
    (r.(exc_counts)) (r.(irq_counts)) (r.(last_timer_trap)) (r.(jit_flush_gen))
    (r.(irq_poll_cd)) (r.(map_gen)) (r.(tlb_flushes)) (r.(store_jtlb_clears))
    (r.(sfence_all)) (r.(sfence_page)) (r.(sfence_foreign_asid)) (r.(tlb_tag)) v
    (r.(jit_tlb_context)) (r.(jtlb_tag)) (r.(jtlb_off)) (r.(jtlb_hashed))
    (r.(interpreter_fused_memory)) (r.(retain_tlb_on_privilege_change))
    (r.(interpreter_fetch_tag)) (r.(interpreter_fetch_map_gen))
    (r.(interpreter_fetch_pa_diff)) (r.(interpreter_fetch_linear_off)).
Definition set_jit_tlb_context (v : Z) (r : Cpu) : Cpu :=
  mkCpu (r.(xregs)) (r.(pc)) (r.(insn_count)) (r.(reservation)) (r.(syscall_log))
    (r.(syscall_log_pos)) (r.(fregs)) (r.(fcsr)) (r.(vector)) (r.(sys)) (r.(host_sbi))
    (r.(exc_counts)) (r.(irq_counts)) (r.(last_timer_trap)) (r.(jit_flush_gen))
    (r.(irq_poll_cd)) (r.(map_gen)) (r.(tlb_flushes)) (r.(store_jtlb_clears))
    (r.(sfence_all)) (r.(sfence_page)) (r.(sfence_foreign_asid)) (r.(tlb_tag))
    (r.(tlb_diff)) v (r.(jtlb_tag)) (r.(jtlb_off)) (r.(jtlb_hashed))
    (r.(interpreter_fused_memory)) (r.(retain_tlb_on_privilege_change))
    (r.(interpreter_fetch_tag)) (r.(interpreter_fetch_map_gen))
    (r.(interpreter_fetch_pa_diff)) (r.(interpreter_fetch_linear_off)).
Definition set_jtlb_tag (v : list (list Z)) (r : Cpu) : Cpu :=
  mkCpu (r.(xregs)) (r.(pc)) (r.(insn_count)) (r.(reservation)) (r.(syscall_log))
    (r.(syscall_log_pos)) (r.(fregs)) (r.(fcsr)) (r.(vector)) (r.(sys)) (r.(host_sbi))
    (r.(exc_counts)) (r.(irq_counts)) (r.(last_timer_trap)) (r.(jit_flush_gen))
    (r.(irq_poll_cd)) (r.(map_gen)) (r.(tlb_flushes)) (r.(store_jtlb_clears))
    (r.(sfence_all)) (r.(sfence_page)) (r.(sfence_foreign_asid)) (r.(tlb_tag))
    (r.(tlb_diff)) (r.(jit_tlb_context)) v (r.(jtlb_off)) (r.(jtlb_hashed))
    (r.(interpreter_fused_memory)) (r.(retain_tlb_on_privilege_change))
    (r.(interpreter_fetch_tag)) (r.(interpreter_fetch_map_gen))
    (r.(interpreter_fetch_pa_diff)) (r.(interpreter_fetch_linear_off)).
Definition set_jtlb_off (v : list (list Z)) (r : Cpu) : Cpu :=
  mkCpu (r.(xregs)) (r.(pc)) (r.(insn_count)) (r.(reservation)) (r.(syscall_log))
    (r.(syscall_log_pos)) (r.(fregs)) (r.(fcsr)) (r.(vector)) (r.(sys)) (r.(host_sbi))
    (r.(exc_counts)) (r.(irq_counts)) (r.(last_timer_trap)) (r.(jit_flush_gen))
    (r.(irq_poll_cd)) (r.(map_gen)) (r.(tlb_flushes)) (r.(store_jtlb_clears))
    (r.(sfence_all)) (r.(sfence_page)) (r.(sfence_foreign_asid)) (r.(tlb_tag))
    (r.(tlb_diff)) (r.(jit_tlb_context)) (r.(jtlb_tag)) v (r.(jtlb_hashed))
    (r.(interpreter_fused_memory)) (r.(retain_tlb_on_privilege_change))
    (r.(interpreter_fetch_tag)) (r.(interpreter_fetch_map_gen))
    (r.(interpreter_fetch_pa_diff)) (r.(interpreter_fetch_linear_off)).
Definition set_jtlb_hashed (v : bool) (r : Cpu) : Cpu :=
  mkCpu (r.(xregs)) (r.(pc)) (r.(insn_count)) (r.(reservation)) (r.(syscall_log))
    (r.(syscall_log_pos)) (r.(fregs)) (r.(fcsr)) (r.(vector)) (r.(sys)) (r.(host_sbi))
    (r.(exc_counts)) (r.(irq_counts)) (r.(last_timer_trap)) (r.(jit_flush_gen))
    (r.(irq_poll_cd)) (r.(map_gen)) (r.(tlb_flushes)) (r.(store_jtlb_clears))
    (r.(sfence_all)) (r.(sfence_page)) (r.(sfence_foreign_asid)) (r.(tlb_tag))
    (r.(tlb_diff)) (r.(jit_tlb_context)) (r.(jtlb_tag)) (r.(jtlb_off)) v
    (r.(interpreter_fused_memory)) (r.(retain_tlb_on_privilege_change))
    (r.(interpreter_fetch_tag)) (r.(interpreter_fetch_map_gen))
    (r.(interpreter_fetch_pa_diff)) (r.(interpreter_fetch_linear_off)).
Definition set_interpreter_fused_memory (v : bool) (r : Cpu) : Cpu :=
  mkCpu (r.(xregs)) (r.(pc)) (r.(insn_count)) (r.(reservation)) (r.(syscall_log))
    (r.(syscall_log_pos)) (r.(fregs)) (r.(fcsr)) (r.(vector)) (r.(sys)) (r.(host_sbi))
    (r.(exc_counts)) (r.(irq_counts)) (r.(last_timer_trap)) (r.(jit_flush_gen))
    (r.(irq_poll_cd)) (r.(map_gen)) (r.(tlb_flushes)) (r.(store_jtlb_clears))
    (r.(sfence_all)) (r.(sfence_page)) (r.(sfence_foreign_asid)) (r.(tlb_tag))
    (r.(tlb_diff)) (r.(jit_tlb_context)) (r.(jtlb_tag)) (r.(jtlb_off)) (r.(jtlb_hashed))
    v (r.(retain_tlb_on_privilege_change)) (r.(interpreter_fetch_tag))
    (r.(interpreter_fetch_map_gen)) (r.(interpreter_fetch_pa_diff))
    (r.(interpreter_fetch_linear_off)).
Definition set_retain_tlb_on_privilege_change (v : bool) (r : Cpu) : Cpu :=
  mkCpu (r.(xregs)) (r.(pc)) (r.(insn_count)) (r.(reservation)) (r.(syscall_log))
    (r.(syscall_log_pos)) (r.(fregs)) (r.(fcsr)) (r.(vector)) (r.(sys)) (r.(host_sbi))
    (r.(exc_counts)) (r.(irq_counts)) (r.(last_timer_trap)) (r.(jit_flush_gen))
    (r.(irq_poll_cd)) (r.(map_gen)) (r.(tlb_flushes)) (r.(store_jtlb_clears))
    (r.(sfence_all)) (r.(sfence_page)) (r.(sfence_foreign_asid)) (r.(tlb_tag))
    (r.(tlb_diff)) (r.(jit_tlb_context)) (r.(jtlb_tag)) (r.(jtlb_off)) (r.(jtlb_hashed))
    (r.(interpreter_fused_memory)) v (r.(interpreter_fetch_tag))
    (r.(interpreter_fetch_map_gen)) (r.(interpreter_fetch_pa_diff))
    (r.(interpreter_fetch_linear_off)).
Definition set_interpreter_fetch_tag (v : Z) (r : Cpu) : Cpu :=
  mkCpu (r.(xregs)) (r.(pc)) (r.(insn_count)) (r.(reservation)) (r.(syscall_log))
    (r.(syscall_log_pos)) (r.(fregs)) (r.(fcsr)) (r.(vector)) (r.(sys)) (r.(host_sbi))
    (r.(exc_counts)) (r.(irq_counts)) (r.(last_timer_trap)) (r.(jit_flush_gen))
    (r.(irq_poll_cd)) (r.(map_gen)) (r.(tlb_flushes)) (r.(store_jtlb_clears))
    (r.(sfence_all)) (r.(sfence_page)) (r.(sfence_foreign_asid)) (r.(tlb_tag))
    (r.(tlb_diff)) (r.(jit_tlb_context)) (r.(jtlb_tag)) (r.(jtlb_off)) (r.(jtlb_hashed))
    (r.(interpreter_fused_memory)) (r.(retain_tlb_on_privilege_change)) v
    (r.(interpreter_fetch_map_gen)) (r.(interpreter_fetch_pa_diff))
    (r.(interpreter_fetch_linear_off)).
Definition set_interpreter_fetch_map_gen (v : Z) (r : Cpu) : Cpu :=
  mkCpu (r.(xregs)) (r.(pc)) (r.(insn_count)) (r.(reservation)) (r.(syscall_log))
    (r.(syscall_log_pos)) (r.(fregs)) (r.(fcsr)) (r.(vector)) (r.(sys)) (r.(host_sbi))
    (r.(exc_counts)) (r.(irq_counts)) (r.(last_timer_trap)) (r.(jit_flush_gen))
    (r.(irq_poll_cd)) (r.(map_gen)) (r.(tlb_flushes)) (r.(store_jtlb_clears))
    (r.(sfence_all)) (r.(sfence_page)) (r.(sfence_foreign_asid)) (r.(tlb_tag))
    (r.(tlb_diff)) (r.(jit_tlb_context)) (r.(jtlb_tag)) (r.(jtlb_off)) (r.(jtlb_hashed))
    (r.(interpreter_fused_memory)) (r.(retain_tlb_on_privilege_change))
    (r.(interpreter_fetch_tag)) v (r.(interpreter_fetch_pa_diff))
    (r.(interpreter_fetch_linear_off)).
Definition set_interpreter_fetch_pa_diff (v : Z) (r : Cpu) : Cpu :=
  mkCpu (r.(xregs)) (r.(pc)) (r.(insn_count)) (r.(reservation)) (r.(syscall_log))
    (r.(syscall_log_pos)) (r.(fregs)) (r.(fcsr)) (r.(vector)) (r.(sys)) (r.(host_sbi))
    (r.(exc_counts)) (r.(irq_counts)) (r.(last_timer_trap)) (r.(jit_flush_gen))
    (r.(irq_poll_cd)) (r.(map_gen)) (r.(tlb_flushes)) (r.(store_jtlb_clears))
    (r.(sfence_all)) (r.(sfence_page)) (r.(sfence_foreign_asid)) (r.(tlb_tag))
    (r.(tlb_diff)) (r.(jit_tlb_context)) (r.(jtlb_tag)) (r.(jtlb_off)) (r.(jtlb_hashed))
    (r.(interpreter_fused_memory)) (r.(retain_tlb_on_privilege_change))
    (r.(interpreter_fetch_tag)) (r.(interpreter_fetch_map_gen)) v
    (r.(interpreter_fetch_linear_off)).
Definition set_interpreter_fetch_linear_off (v : Z) (r : Cpu) : Cpu :=
  mkCpu (r.(xregs)) (r.(pc)) (r.(insn_count)) (r.(reservation)) (r.(syscall_log))
    (r.(syscall_log_pos)) (r.(fregs)) (r.(fcsr)) (r.(vector)) (r.(sys)) (r.(host_sbi))
    (r.(exc_counts)) (r.(irq_counts)) (r.(last_timer_trap)) (r.(jit_flush_gen))
    (r.(irq_poll_cd)) (r.(map_gen)) (r.(tlb_flushes)) (r.(store_jtlb_clears))
    (r.(sfence_all)) (r.(sfence_page)) (r.(sfence_foreign_asid)) (r.(tlb_tag))
    (r.(tlb_diff)) (r.(jit_tlb_context)) (r.(jtlb_tag)) (r.(jtlb_off)) (r.(jtlb_hashed))
    (r.(interpreter_fused_memory)) (r.(retain_tlb_on_privilege_change))
    (r.(interpreter_fetch_tag)) (r.(interpreter_fetch_map_gen))
    (r.(interpreter_fetch_pa_diff)) v.

(** One row of [TLB_SIZE] equal entries, and the rows of a bank. *)
Definition tlb_row (v : Z) : list Z := replicate (Z.to_nat TLB_SIZE) v.
Definition tlb_bank (n : nat) (v : Z) : list (list Z) := replicate n (tlb_row v).

Definition Cpu_new : Cpu := {|
  xregs := replicate 32 0;
  pc := 0;
  insn_count := 0;
  syscall_log := replicate 64 (U64_MAX, 0);
  syscall_log_pos := 0;
  reservation := None;
  fregs := replicate 32 0;
  fcsr := 0;
  vector := VectorState_default;
  sys := None;
  host_sbi := false;
  exc_counts := replicate 16 0;
  irq_counts := replicate 16 0;
  last_timer_trap := replicate 13 0;
  jit_flush_gen := 0;
  irq_poll_cd := 0;
  map_gen := 0;
  tlb_flushes := 0;
  store_jtlb_clears := 0;
  sfence_all := 0;
  sfence_page := 0;
  sfence_foreign_asid := 0;
  tlb_tag := tlb_bank 3 TLB_INVALID;
  tlb_diff := tlb_bank 3 0;
  jit_tlb_context := 0;
  jtlb_tag := tlb_bank 2 TLB_INVALID;
  jtlb_off := tlb_bank 2 0;
  jtlb_hashed := false;
  interpreter_fused_memory := false;
  retain_tlb_on_privilege_change := true;
  interpreter_fetch_tag := TLB_INVALID;
  interpreter_fetch_map_gen := 0;
  interpreter_fetch_pa_diff := 0;
  interpreter_fetch_linear_off := 0 |}.

(** [self.sys.is_some()]. *)
Definition is_sys (c : Cpu) : bool := match c.(sys) with Some _ => true | None => false end.
