(* ===== verification/Bus.v ===== *)
(** * The memory interface and flat memory (bus.rs)

    [Bus] is the trait the hart executes against.  Beyond the trait's methods
    the class has the raw host memory its backing allocation occupies:
    [host_load]/[host_store] are the unaligned little-endian pointer accesses
    that the interpreter performs on the addresses [jit_fast_off] hands out.

    [BusOk] is what a bus promises to the hart (machine-width results, no
    panic, an invariant of its own kept); [FlatMemory] is the user-mode bus. *)

From S2P Require Import Prelude Exception.

Class Bus (B : Type) : Type := {
  read8 : Z -> Hart B Z;
  read16 : Z -> Hart B Z;
  read32 : Z -> Hart B Z;
  read64 : Z -> Hart B Z;
  write8 : Z -> Z -> Hart B unit;
  write16 : Z -> Z -> Hart B unit;
  write32 : Z -> Z -> Hart B unit;
  write64 : Z -> Z -> Hart B unit;
  jit_fast_off : B -> Z -> Z -> bool -> option Z;
  fetch32 : Z -> Hart B Z;
  fetch16 : Z -> Hart B Z;
  irq_lines : B -> Z * B;
  (** [N] bytes at a host address. *)
  host_load : Z -> Z -> B -> Z;
  host_store : Z -> Z -> Z -> B -> B
}.

(** The trait's provided methods. *)
Definition default_jit_fast_off {B} (_ : B) (_va _pa : Z) (_store : bool) : option Z := None.

Definition default_fetch {B} (rd : Z -> Hart B Z) (addr : Z) : Hart B Z :=
  map_err (fun _ => InstructionAccessFault addr) (rd addr).

Definition default_irq_lines {B} (b : B) : Z * B := (0, b).

Class BusOk (B : Type) `{Bus B} : Type := {
  bus_wf : B -> Prop;
  read8_ok a : uint 64 a -> hoare bus_wf (read8 a) (uint 8);
  read16_ok a : uint 64 a -> hoare bus_wf (read16 a) (uint 16);
  read32_ok a : uint 64 a -> hoare bus_wf (read32 a) (uint 32);
  read64_ok a : uint 64 a -> hoare bus_wf (read64 a) (uint 64);
  write8_ok a v : uint 64 a -> uint 8 v -> hoare bus_wf (write8 a v) (fun _ => True);
  write16_ok a v : uint 64 a -> uint 16 v -> hoare bus_wf (write16 a v) (fun _ => True);
  write32_ok a v : uint 64 a -> uint 32 v -> hoare bus_wf (write32 a v) (fun _ => True);
  write64_ok a v : uint 64 a -> uint 64 v -> hoare bus_wf (write64 a v) (fun _ => True);
  fetch16_ok a : uint 64 a -> hoare bus_wf (fetch16 a) (uint 16);
  irq_lines_ok b : bus_wf b -> uint 64 (fst (irq_lines b)) /\ bus_wf (snd (irq_lines b));
  host_load_ok n a b : bus_wf b -> 0 <= n <= 8 -> uint (8 * n) (host_load n a b);
  host_store_ok n a v b : bus_wf b -> bus_wf (host_store n a v b)
}.

(** ** Little-endian bytes *)

Fixpoint from_le_bytes (bs : list Z) : Z :=
  match bs with
  | [] => 0
  | b :: bs => b + 2 ^ 8 * from_le_bytes bs
  end.

Fixpoint to_le_bytes (n : nat) (v : Z) : list Z :=
  match n with
  | O => []
  | S n => u8 v :: to_le_bytes n (v .>> 8)
  end.

Lemma length_to_le_bytes n v : length (to_le_bytes n v) = n.
Proof. revert v. induction n; intros; simpl; auto. Qed.

Lemma to_le_bytes_bytes n v : Forall (uint 8) (to_le_bytes n v).
Proof.
  revert v. induction n; intros; simpl; constructor; auto.
  by apply uint_wrap.
Qed.

Lemma from_to_le_bytes n v : from_le_bytes (to_le_bytes n v) = v mod 2 ^ (8 * Z.of_nat n).
Proof.
  revert v. induction n as [|n IH]; intros v; cbn [from_le_bytes to_le_bytes].
  - change (8 * Z.of_nat 0) with 0. by rewrite Z.mod_1_r.
  - rewrite IH. unfold u8, wrap. rewrite Z.shiftr_div_pow2 by lia.
    rewrite Nat2Z.inj_succ, Z.mul_succ_r, (Z.add_comm _ 8), Z.pow_add_r by lia.
    rewrite Z.rem_mul_r by lia. done.
Qed.

Lemma from_le_bytes_range bs :
  Forall (uint 8) bs -> uint (8 * Z.of_nat (length bs)) (from_le_bytes bs).
Proof.
  induction 1 as [|b bs Hb Hbs IH]; cbn [from_le_bytes length]; unfold uint in *; [simpl; lia|].
  rewrite Nat2Z.inj_succ, Z.mul_succ_r, (Z.add_comm _ 8), Z.pow_add_r by lia. nia.
Qed.

(** ** Slices of a byte vector: [mem[s..e]], [None] when Rust panics. *)

Definition slice (l : list Z) (s e : Z) : option (list Z) :=
  if (s <=? e) && (e <=? Z.of_nat (length l))
  then Some (take (Z.to_nat (e - s)) (drop (Z.to_nat s) l))
  else None.

(** [mem[s..e].copy_from_slice(bs)]: panics out of range or on a length
    mismatch. *)
Definition copy_from_slice (l : list Z) (s e : Z) (bs : list Z) : option (list Z) :=
  if (s <=? e) && (e <=? Z.of_nat (length l)) && (Z.of_nat (length bs) =? e - s)
  then Some (take (Z.to_nat s) l ++ bs ++ drop (Z.to_nat e) l)
  else None.

(** ** Flat guest memory *)

Record FlatMemory : Type := mkFlat { base : Z; mem : list Z }.

Definition set_mem (m : list Z) (f : FlatMemory) : FlatMemory := mkFlat f.(base) m.

(** [addr.checked_sub(base)?]; then [off + len <= mem.len()], the addition
    wrapping as it does in the shipped (release) profile. *)
Definition offset (f : FlatMemory) (addr len : Z) : option Z :=
  if addr <? f.(base) then None else
  let off := addr - f.(base) in
  if u64 (off + len) <=? Z.of_nat (length f.(mem)) then Some off else None.

(** [flat_rw!]: one reader and one writer per width [n] in bytes. *)
Definition flat_read (n : Z) (addr : Z) : Hart FlatMemory Z := fun f =>
  match offset f addr n with
  | None => (Err (LoadAccessFault addr), f)
  | Some off =>
      match slice f.(mem) off (u64 (off + n)) with
      | None => (Panic, f)
      | Some bytes => (Ok (from_le_bytes bytes), f)
      end
  end.

Definition flat_write (n : Z) (addr val : Z) : Hart FlatMemory unit := fun f =>
  match offset f addr n with
  | None => (Err (StoreAccessFault addr), f)
  | Some off =>
      match copy_from_slice f.(mem) off (u64 (off + n)) (to_le_bytes (Z.to_nat n) val) with
      | None => (Panic, f)
      | Some m => (Ok tt, set_mem m f)
      end
  end.

(** Flat memory uses the provided methods for everything else; it hands out no
    pointer capability, so its host view is never consulted. *)
#[global] Instance FlatMemory_Bus : Bus FlatMemory := {
  read8 := flat_read 1;
  read16 := flat_read 2;
  read32 := flat_read 4;
  read64 := flat_read 8;
  write8 := flat_write 1;
  write16 := flat_write 2;
  write32 := flat_write 4;
  write64 := flat_write 8;
  jit_fast_off := default_jit_fast_off;
  fetch32 := default_fetch (flat_read 4);
  fetch16 := default_fetch (flat_read 2);
  irq_lines := default_irq_lines;
  host_load := fun _ _ _ => 0;
  host_store := fun _ _ _ b => b
}.

(** ** Flat memory: behaviour of every access *)

(** The access [addr, addr + n) lies inside the buffer. *)
Definition flat_inside (f : FlatMemory) (addr n : Z) : Prop :=
  0 <= n /\ f.(base) <= addr
  /\ addr - f.(base) + n <= Z.of_nat (length f.(mem)) < 2 ^ 64.

Lemma offset_inside f addr n :
  flat_inside f addr n -> offset f addr n = Some (addr - f.(base)).
Proof.
  intros (Hn & Hb & Hl). unfold offset, u64, wrap.
  destruct (Z.ltb_spec addr f.(base)); [lia|].
  rewrite Z.mod_small by lia.
  destruct (Z.leb_spec (addr - base f + n) (Z.of_nat (length f.(mem)))); [done|lia].
Qed.

Lemma flat_read_inside f addr n :
  flat_inside f addr n ->
  flat_read n addr f
  = (Ok (from_le_bytes (take (Z.to_nat n) (drop (Z.to_nat (addr - f.(base))) f.(mem)))), f).
Proof.
  intros Hin. unfold flat_read. rewrite offset_inside by done.
  destruct Hin as (Hn & Hb & Hl). unfold slice, u64, wrap.
  rewrite Z.mod_small by lia.
  destruct (Z.leb_spec (addr - base f) (addr - base f + n)); [|lia].
  destruct (Z.leb_spec (addr - base f + n) (Z.of_nat (length f.(mem)))); [|lia].
  simpl. by replace (addr - base f + n - (addr - base f)) with n by lia.
Qed.

Lemma flat_write_inside f addr n val :
  flat_inside f addr n ->
  flat_write n addr val f
  = (Ok tt, set_mem (take (Z.to_nat (addr - f.(base))) f.(mem)
                     ++ to_le_bytes (Z.to_nat n) val
                     ++ drop (Z.to_nat (addr - f.(base) + n)) f.(mem)) f).
Proof.
  intros Hin. unfold flat_write. rewrite offset_inside by done.
  destruct Hin as (Hn & Hb & Hl). unfold copy_from_slice, u64, wrap.
  rewrite Z.mod_small by lia. rewrite length_to_le_bytes.
  destruct (Z.leb_spec (addr - base f) (addr - base f + n)); [|lia].
  destruct (Z.leb_spec (addr - base f + n) (Z.of_nat (length f.(mem)))); [|lia].
  destruct (Z.eqb_spec (Z.of_nat (Z.to_nat n)) (addr - base f + n - (addr - base f)));
    [done|lia].
Qed.

Lemma length_flat_update (l bs : list Z) (s n : nat) :
  (s + n <= length l)%nat -> length bs = n ->
  length (take s l ++ bs ++ drop (s + n) l) = length l.
Proof. intros. rewrite !length_app, length_take, length_drop. lia. Qed.

Lemma lookup_flat_update (l bs : list Z) (s n i : nat) :
  (s + n <= length l)%nat -> length bs = n ->
  (take s l ++ bs ++ drop (s + n) l) !! i
  = if decide (s <= i < s + n)%nat then bs !! (i - s)%nat else l !! i.
Proof.
  intros Hs Hbs. case_decide.
  - rewrite lookup_app_r by (rewrite length_take; lia).
    rewrite length_take. rewrite lookup_app_l by lia. f_equal; lia.
  - destruct (decide (i < s)%nat).
    + rewrite lookup_app_l by (rewrite length_take; lia). by rewrite lookup_take_lt.
    + rewrite lookup_app_r by (rewrite length_take; lia). rewrite length_take.
      rewrite lookup_app_r by lia. rewrite lookup_drop. f_equal; lia.
Qed.

Lemma flat_inside_update f addr n val a' n' :
  flat_inside f addr n ->
  flat_inside (snd (flat_write n addr val f)) a' n' <-> flat_inside f a' n'.
Proof.
  intros Hin. rewrite flat_write_inside by done. destruct Hin as (Hn & Hb & Hl).
  unfold flat_inside. simpl.
  replace (Z.to_nat (addr - base f + n)) with (Z.to_nat (addr - base f) + Z.to_nat n)%nat by lia.
  rewrite length_flat_update; [done|lia|apply length_to_le_bytes].
Qed.

(** A store of [n] bytes to flat memory followed by a load of the same [n] bytes
    returns the stored value truncated to [n] bytes, little-endian, for every
    address whose access lies inside the buffer. *)
Theorem flat_store_load f addr n val :
  flat_inside f addr n ->
  fst (flat_read n addr (snd (flat_write n addr val f))) = Ok (wrap (8 * n) val).
Proof.
  intros Hin. pose proof (proj2 (flat_inside_update f addr n val addr n Hin) Hin) as Hin'.
  rewrite flat_read_inside by done. rewrite flat_write_inside by done. simpl.
  destruct Hin as (Hn & Hb & Hl).
  rewrite drop_app_length' by (rewrite length_take; lia).
  rewrite take_app_length' by (by rewrite length_to_le_bytes).
  by rewrite from_to_le_bytes, Z2Nat.id by lia.
Qed.

(** A store changes no byte outside its range: a load that does not overlap it
    returns what it returned before the store. *)
Theorem flat_store_frame f addr n val addr' n' :
  flat_inside f addr n -> flat_inside f addr' n' ->
  addr' + n' <= addr \/ addr + n <= addr' ->
  fst (flat_read n' addr' (snd (flat_write n addr val f))) = fst (flat_read n' addr' f).
Proof.
  intros Hin Hin' Hdis.
  pose proof (proj2 (flat_inside_update f addr n val addr' n' Hin) Hin') as Hin2.
  rewrite !flat_read_inside by done. rewrite flat_write_inside by done. simpl.
  destruct Hin as (Hn & Hb & Hl), Hin' as (Hn' & Hb' & Hl').
  do 2 f_equal. apply list_eq. intros i.
  destruct (decide (i < Z.to_nat n')%nat);
    [|by rewrite !lookup_take_ge by lia].
  rewrite !lookup_take_lt, !lookup_drop by done.
  replace (Z.to_nat (addr - base f + n)) with (Z.to_nat (addr - base f) + Z.to_nat n)%nat by lia.
  rewrite lookup_flat_update by (try apply length_to_le_bytes; lia).
  case_decide; [lia|done].
Qed.

(** Every access that does not lie inside the buffer and whose end does not
    overflow 64 bits is refused with the access fault of its kind, carrying
    the address, and leaves the memory as it was. *)
Theorem flat_outside_faults f addr n val :
  0 <= f.(base) -> 0 <= n -> 0 <= addr -> addr - f.(base) + n < 2 ^ 64 ->
  addr < f.(base) \/ Z.of_nat (length f.(mem)) < addr - f.(base) + n ->
  flat_read n addr f = (Err (LoadAccessFault addr), f)
  /\ flat_write n addr val f = (Err (StoreAccessFault addr), f).
Proof.
  intros Hb Hn Ha Hov Hout.
  assert (offset f addr n = None) as Ho.
  { unfold offset, u64, wrap. destruct (Z.ltb_spec addr f.(base)); [done|].
    rewrite Z.mod_small by lia.
    destruct (Z.leb_spec (addr - base f + n) (Z.of_nat (length f.(mem)))); [lia|done]. }
  unfold flat_read, flat_write. by rewrite Ho.
Qed.

(** An access whose end [off + len] overflows 64 bits passes the bounds check of
    [FlatMemory::offset] and panics in the slice instead of raising an access
    fault: with memory based at 0, as the user-mode machine uses it, a one-byte
    load or store at address 2^64 - 1 brings the emulator down. *)
Theorem flat_overflow_panics f addr n val :
  0 <= f.(base) -> f.(base) <= addr < 2 ^ 64 -> 1 <= n <= 8 ->
  2 ^ 64 <= addr - f.(base) + n -> 8 <= Z.of_nat (length f.(mem)) ->
  flat_read n addr f = (Panic, f) /\ flat_write n addr val f = (Panic, f).
Proof.
  intros Hb Ha Hn Hov Hl.
  assert (u64 (addr - base f + n) = addr - base f + n - 2 ^ 64) as Hu.
  { unfold u64, wrap. rewrite <- (Z_mod_plus_full _ (-1)). apply Z.mod_small. lia. }
  assert (offset f addr n = Some (addr - base f)) as Ho.
  { unfold offset. rewrite Hu. destruct (Z.ltb_spec addr f.(base)); [lia|].
    destruct (Z.leb_spec (addr - base f + n - 2 ^ 64) (Z.of_nat (length f.(mem)))); [done|lia]. }
  unfold flat_read, flat_write, slice, copy_from_slice. rewrite Ho, Hu.
  destruct (Z.leb_spec (addr - base f) (addr - base f + n - 2 ^ 64)); [lia|done].
Qed.

Lemma flat_store_load_witness :
  flat_inside (mkFlat 0x1000 (replicate 16 0)) 0x1003 4
  /\ fst (flat_read 4 0x1003 (snd (flat_write 4 0x1003 0xdeadbeef
       (mkFlat 0x1000 (replicate 16 0))))) = Ok 0xdeadbeef.
Proof.
  split; [vm_compute; split_and!; done|].
  apply (flat_store_load (mkFlat 0x1000 (replicate 16 0)) 0x1003 4 0xdeadbeef).
  vm_compute; split_and!; done.
Defined.

Lemma flat_store_frame_witness :
  fst (flat_read 2 4 (snd (flat_write 4 0 0xdeadbeef (mkFlat 0 (replicate 16 7)))))
  = fst (flat_read 2 4 (mkFlat 0 (replicate 16 7))).
Proof.
  apply flat_store_frame; [vm_compute; split_and!; done..|right; vm_compute; done].
Defined.

Lemma flat_outside_faults_witness :
  flat_read 8 9 (mkFlat 0 (replicate 16 7)) = (Err (LoadAccessFault 9), mkFlat 0 (replicate 16 7))
  /\ flat_write 8 9 0 (mkFlat 0 (replicate 16 7))
     = (Err (StoreAccessFault 9), mkFlat 0 (replicate 16 7)).
Proof. apply flat_outside_faults; simpl; lia. Defined.

Lemma flat_overflow_panics_witness :
  flat_read 1 0xffffffffffffffff (mkFlat 0 (replicate 16 7)) = (Panic, mkFlat 0 (replicate 16 7))
  /\ flat_write 1 0xffffffffffffffff 0 (mkFlat 0 (replicate 16 7))
     = (Panic, mkFlat 0 (replicate 16 7)).
Proof. apply flat_overflow_panics; simpl; lia. Defined.

(** ** Flat memory keeps the bus promise when it is not based below 8 *)

Definition flat_wf (f : FlatMemory) : Prop :=
  8 <= f.(base) /\ Z.of_nat (length f.(mem)) < 2 ^ 64 /\ Forall (uint 8) f.(mem).

Lemma flat_cases f addr n :
  flat_wf f -> uint 64 addr -> 0 <= n <= 8 ->
  flat_inside f addr n \/ offset f addr n = None.
Proof.
  intros (Hb & Hl & _) [Ha Ha'] Hn.
  destruct (decide (flat_inside f addr n)) as [|Hout]; [by left|right].
  unfold flat_inside in Hout. unfold offset, u64, wrap.
  destruct (Z.ltb_spec addr f.(base)); [done|].
  rewrite Z.mod_small by lia.
  destruct (Z.leb_spec (addr - base f + n) (Z.of_nat (length f.(mem)))); [lia|done].
Qed.

Lemma flat_read_ok n addr :
  uint 64 addr -> 0 <= n <= 8 -> hoare flat_wf (flat_read n addr) (uint (8 * n)).
Proof.
  intros Ha Hn f Hf. destruct (flat_cases f addr n Hf Ha Hn) as [Hin|Ho].
  - rewrite flat_read_inside by done. split; [done|].
    assert (length (take (Z.to_nat n) (drop (Z.to_nat (addr - base f)) f.(mem)))
            = Z.to_nat n) as Hlen.
    { destruct Hin as (? & ? & ?). rewrite length_take, length_drop. lia. }
    pose proof (from_le_bytes_range
      (take (Z.to_nat n) (drop (Z.to_nat (addr - base f)) f.(mem)))) as Hr.
    rewrite Hlen, Z2Nat.id in Hr by lia. apply Hr.
    by apply Forall_take, Forall_drop, Hf.
  - unfold flat_read. by rewrite Ho.
Qed.

Lemma flat_write_ok n addr val :
  uint 64 addr -> 0 <= n <= 8 -> hoare flat_wf (flat_write n addr val) (fun _ => True).
Proof.
  intros Ha Hn f Hf. destruct (flat_cases f addr n Hf Ha Hn) as [Hin|Ho].
  - rewrite flat_write_inside by done. split; [|done]. destruct Hf as (Hb & Hl & Hm).
    destruct Hin as (? & ? & ?). split_and!; simpl; [done| |].
    + replace (Z.to_nat (addr - base f + n))
        with (Z.to_nat (addr - base f) + Z.to_nat n)%nat by lia.
      rewrite length_flat_update; [done|lia|apply length_to_le_bytes].
    + rewrite !Forall_app. split_and!;
        [by apply Forall_take|apply to_le_bytes_bytes|by apply Forall_drop].
  - unfold flat_write. by rewrite Ho.
Qed.

Lemma flat_fetch_ok n addr :
  uint 64 addr -> 0 <= n <= 8 ->
  hoare flat_wf (default_fetch (flat_read n) addr) (uint (8 * n)).
Proof. intros. apply hoare_map_err; [done|by apply flat_read_ok]. Qed.

#[global, refine] Instance FlatMemory_BusOk : BusOk FlatMemory := { bus_wf := flat_wf }.
Proof.
  1-4: intros; by apply flat_read_ok.
  1-4: intros; by apply flat_write_ok.
  - intros; by apply (flat_fetch_ok 2).
  - intros. by split.
  - intros. apply uint_0. lia.
  - done.
Defined.
