(* ===== verification/Mmu.v ===== *)
(** * Address translation, TLBs and memory accessors (cpu.rs)

    The two direct-mapped translation caches (the ordinary rows, one per access
    kind, and the fused JIT rows), the Sv39/Sv48 page walk, and the load/store
    paths.  Operations on the hart alone are functions on [Cpu]; those that
    reach the bus run in the hart monad over [Cpu * B]. *)

From S2P Require Import Prelude Exception Csr State Bus.

(** ** TLB maintenance *)

(** [tags[row][idx]] and its update. *)
Definition row_get (t : list (list Z)) (row idx : Z) : Z := aget (aget t row) idx.
Definition row_set (t : list (list Z)) (row idx v : Z) : list (list Z) :=
  aset t row (aset (aget t row) idx v).

Definition tlb_index (va : Z) : Z := (va .>> 12) .& (TLB_SIZE - 1).

Definition jit_tlb_hash_index (va : Z) : Z :=
  let page := va .>> 12 in (page .^ (page .>> TLB_BITS)) .& (TLB_SIZE - 1).

Definition jit_tlb_index (c : Cpu) (va : Z) : Z :=
  if c.(jtlb_hashed) then jit_tlb_hash_index va else (va .>> 12) .& (TLB_SIZE - 1).

Definition flush_tlb (c : Cpu) : Cpu :=
  let c := set_tlb_flushes (add64 c.(tlb_flushes) 1) c in
  let c := set_tlb_tag (tlb_bank 3 TLB_INVALID) c in
  let c := set_jtlb_tag (tlb_bank 2 TLB_INVALID) c in
  set_interpreter_fetch_tag TLB_INVALID c.

Definition clear_store_jtlb (c : Cpu) : Cpu :=
  let c := set_store_jtlb_clears (add64 c.(store_jtlb_clears) 1) c in
  set_jtlb_tag (aset c.(jtlb_tag) 1 (tlb_row TLB_INVALID)) c.

(** [if tags[index] & TLB_PAGE_MASK == page { tags[index] = TLB_INVALID }] for
    each row of a bank. *)
Definition invalidate_page (page index : Z) (tags : list Z) : list Z :=
  if (aget tags index .& TLB_PAGE_MASK) =? page then aset tags index TLB_INVALID else tags.

Definition sfence_vma (va : option Z) (asid : option Z) (c : Cpu) : Cpu :=
  let current_asid :=
    match c.(sys) with None => 0 | Some s => u16 ((s.(satp) .>> 44) .& 0xffff) end in
  if match asid with Some target => negb (target =? current_asid) | None => false end then
    set_sfence_foreign_asid (add64 c.(sfence_foreign_asid) 1) c
  else
    let c := set_map_gen (add64 c.(map_gen) 1) c in
    match va with
    | None =>
        let c := set_sfence_all (add64 c.(sfence_all) 1) c in
        flush_tlb c
    | Some va =>
        let c := set_sfence_page (add64 c.(sfence_page) 1) c in
        let page := va .& TLB_PAGE_MASK in
        let index := (va .>> 12) .& (TLB_SIZE - 1) in
        let c := set_tlb_tag (map (invalidate_page page index) c.(tlb_tag)) c in
        let jit_index := jit_tlb_index c va in
        set_jtlb_tag (map (invalidate_page page jit_index) c.(jtlb_tag)) c
    end.

Definition set_jit_tlb_hash (hashed : bool) (c : Cpu) : Cpu :=
  if negb (Bool.eqb c.(jtlb_hashed) hashed) then
    let c := set_jtlb_hashed hashed c in
    set_jtlb_tag (tlb_bank 2 TLB_INVALID) c
  else c.

Definition set_privilege_tlb_retention (retain : bool) (c : Cpu) : Cpu :=
  if negb (Bool.eqb c.(retain_tlb_on_privilege_change) retain) then
    let c := set_retain_tlb_on_privilege_change retain c in
    flush_tlb c
  else c.

(** ** Permission contexts *)

(** Effective privilege for data accesses (MPRV) or fetch.  The source unwraps
    [self.sys]; every caller has it. *)
Definition eff_mode (s : SysCsrs) (access : Access) : Mode :=
  if negb (access_eqb access Fetch) && negb ((s.(mstatus) .& MSTATUS_MPRV) =? 0)
  then from_bits ((s.(mstatus) .& MSTATUS_MPP) .>> 11)
  else s.(mode).

Definition translation_context (c : Cpu) (access : Access) : Z :=
  match c.(sys) with
  | None => 0
  | Some s =>
      let context := mode_bits (eff_mode s access) in
      let context :=
        if negb (access_eqb access Fetch) && negb ((s.(mstatus) .& MSTATUS_SUM) =? 0)
        then context .| TLB_CTX_SUM else context in
      if access_eqb access Load && negb ((s.(mstatus) .& MSTATUS_MXR) =? 0)
      then context .| TLB_CTX_MXR else context
  end.

Definition data_tlb_context (c : Cpu) : Z :=
  match c.(sys) with
  | None => 0
  | Some s =>
      let context := mode_bits (eff_mode s Load) in
      let context :=
        if negb ((s.(mstatus) .& MSTATUS_SUM) =? 0) then context .| TLB_CTX_SUM else context in
      if negb ((s.(mstatus) .& MSTATUS_MXR) =? 0) then context .| TLB_CTX_MXR else context
  end.

Definition translation_tag (c : Cpu) (va : Z) (access : Access) : Z :=
  (va .& TLB_PAGE_MASK) .| translation_context c access.

Definition sync_jit_tlb_context (c : Cpu) : Cpu := set_jit_tlb_context (data_tlb_context c) c.

Definition privilege_changed (c : Cpu) : Cpu :=
  let c := if negb c.(retain_tlb_on_privilege_change) then flush_tlb c else c in
  sync_jit_tlb_context c.

(** ** Fused rows *)

Definition publish_jtlb (store : bool) (index tag offset : Z) (c : Cpu) : Cpu :=
  let c := set_jtlb_tag (row_set c.(jtlb_tag) (Z.b2z store) index tag) c in
  set_jtlb_off (row_set c.(jtlb_off) (Z.b2z store) index offset) c.

Definition jtlb_entry (c : Cpu) (store : bool) (index : Z) : Z * Z :=
  (row_get c.(jtlb_tag) (Z.b2z store) index, row_get c.(jtlb_off) (Z.b2z store) index).

Definition interpreter_fused_ptr (c : Cpu) (va : Z) (store : bool) : option Z :=
  if negb c.(interpreter_fused_memory) then None else
  let index := jit_tlb_index c va in
  let expected := (va .& TLB_PAGE_MASK) .| c.(jit_tlb_context) in
  let '(tag, offset) := jtlb_entry c store index in
  if tag =? expected then Some (add64 va (u64 offset)) else None.

Definition jit_probe_tlb (c : Cpu) (va : Z) (store : bool) : option Z :=
  let idx := jit_tlb_index c va in
  let expected := (va .& TLB_PAGE_MASK) .| data_tlb_context c in
  let '(tag, offset) := jtlb_entry c store idx in
  if tag =? expected then Some offset else None.

Definition jit_tlb_miss_kind (c : Cpu) (va : Z) (store : bool) : Z :=
  let '(tag, _) := jtlb_entry c store (jit_tlb_index c va) in
  let expected := (va .& TLB_PAGE_MASK) .| data_tlb_context c in
  if tag =? expected then 0
  else if tag =? TLB_INVALID then 1
  else if (tag .& TLB_PAGE_MASK) =? (va .& TLB_PAGE_MASK) then 2
  else 3.

(** ** Register writes and FP gating *)

Definition wr (rd val : Z) (c : Cpu) : Cpu :=
  if negb (rd =? 0) then set_xregs (aset c.(xregs) rd val) c else c.

Definition fp_check (insn : Z) : Hart Cpu unit := fun c =>
  match c.(sys) with
  | Some s => if (s.(mstatus) .& MSTATUS_FS) =? 0
              then (Err (IllegalInstruction insn), c) else (Ok tt, c)
  | None => (Ok tt, c)
  end.

Definition fp_dirty (c : Cpu) : Cpu :=
  match c.(sys) with
  | Some s => set_sys (Some (set_mstatus (s.(mstatus) .| MSTATUS_FS) s)) c
  | None => c
  end.

Definition fault (access : Access) (addr : Z) : Exception :=
  match access with
  | Fetch => InstructionPageFault addr
  | Load => LoadPageFault addr
  | Store => StorePageFault addr
  end.

(** Permission of a leaf PTE for an effective mode and access. *)
Definition leaf_allows (md : Mode) (sum mxr : bool) (access : Access) (pte : Z) : bool :=
  let r := (pte .>> 1) .& 1 in
  let w := (pte .>> 2) .& 1 in
  let x := (pte .>> 3) .& 1 in
  let u := negb (((pte .>> 4) .& 1) =? 0) in
  match md with
  | User => u
  | Supervisor => negb (u && negb (sum && negb (access_eqb access Fetch)))
  | Machine => true
  end
  && match access with
     | Fetch => x =? 1
     | Load => (r =? 1) || (mxr && (x =? 1))
     | Store => w =? 1
     end.

(** The A/D-updated PTE of an access. *)
Definition pte_ad (access : Access) (pte : Z) : Z :=
  let new_pte := pte .| (1 .<< 6) in
  if access_eqb access Store then new_pte .| (1 .<< 7) else new_pte.

(** Physical address of a leaf at [level]: superpage low VPN bits come from va. *)
Definition leaf_pa (level ppn va : Z) : Z :=
  let mask := (1 .<< (12 + 9 * level)) - 1 in
  (shl64 ppn 12 .&~ mask) .| (va .& mask).

Section Memory.
Context {B : Type} `{Bus B}.

Definition jit_fill_publish (va : Z) (store : bool) (off : Z) (c : Cpu) : Cpu :=
  publish_jtlb store (jit_tlb_index c va)
    ((va .& TLB_PAGE_MASK) .| data_tlb_context c) off c.

Definition fill_jtlb (b : B) (va pa : Z) (store : bool) (c : Cpu) : Cpu :=
  match jit_fast_off b va pa store with
  | Some off => jit_fill_publish va store off c
  | None => c
  end.

(** The walk loop of [translate_slow] from [level] down; [level = 0] is the
    last level, where a pointer PTE faults. *)
Fixpoint walk (level : nat) (md : Mode) (sum mxr : bool) (tag table va : Z)
    (access : Access) : Hart (Cpu * B) Z :=
  let lv := Z.of_nat level in
  let vpn := (va .>> (12 + 9 * lv)) .& 0x1ff in
  let pte_addr := add64 table (vpn * 8) in
  pte <- map_err (fun _ => fault access va) (on_snd (read64 pte_addr)) ;;
  let v := pte .& 1 in
  let r := (pte .>> 1) .& 1 in
  let w := (pte .>> 2) .& 1 in
  let x := (pte .>> 3) .& 1 in
  if (v =? 0) || ((r =? 0) && (w =? 1)) then throw (fault access va)
  else if (r =? 0) && (x =? 0) then
    match level with
    | O => throw (fault access va)
    | S level' => walk level' md sum mxr tag (shl64 (pte .>> 10) 12) va access
    end
  else
    let ppn := pte .>> 10 in
    if (0 <? lv) && negb ((ppn .& ((1 .<< (9 * lv)) - 1)) =? 0) then
      throw (fault access va)
    else if negb (leaf_allows md sum mxr access pte) then throw (fault access va)
    else
      let new_pte := pte_ad access pte in
      (if negb (new_pte =? pte) then
         map_err (fun _ => fault access va) (on_snd (write64 pte_addr new_pte))
       else ret tt) ;;;
      let pa := leaf_pa lv ppn va in
      let idx := (va .>> 12) .& (TLB_SIZE - 1) in
      modify (fun '(c, b) =>
        let c := set_tlb_tag (row_set c.(tlb_tag) (access_index access) idx tag) c in
        (set_tlb_diff (row_set c.(tlb_diff) (access_index access) idx (sub64 pa va)) c, b)) ;;;
      ret pa.

(** Page-table walk (sv39/sv48), permission checks, A/D update, TLB fill. *)
Definition translate_slow (va : Z) (access : Access) : Hart (Cpu * B) Z := fun st =>
  let '(c, b) := st in
  let tag := translation_tag c va access in
  match c.(sys) with
  | None => (Panic, st)
  | Some s =>
      let md := eff_mode s access in
      let vm := s.(satp) .>> 60 in
      if (vm =? 0) || mode_eqb md Machine then (Ok va, st) else
      let levels := if vm =? 8 then Some 3 else if vm =? 9 then Some 4 else None in
      match levels with
      | None => (Err (fault access va), st)
      | Some levels =>
          let va_bits := 9 * levels + 12 in
          let ext := i64 va .>> (va_bits - 1) in
          if negb (ext =? 0) && negb (ext =? -1) then (Err (fault access va), st) else
          let sum := negb ((s.(mstatus) .& MSTATUS_SUM) =? 0) in
          let mxr := negb ((s.(mstatus) .& MSTATUS_MXR) =? 0) in
          let table := shl64 (s.(satp) .& 0xfffffffffff) 12 in
          walk (Z.to_nat (levels - 1)) md sum mxr tag table va access st
      end
  end.

(** Translate a virtual address (full-system mode).  Hot path: TLB hit. *)
Definition translate (va : Z) (access : Access) : Hart (Cpu * B) Z := fun st =>
  let '(c, b) := st in
  match c.(sys) with
  | None => (Ok va, st)
  | Some _ =>
      let idx := (va .>> 12) .& (TLB_SIZE - 1) in
      let tag := translation_tag c va access in
      let a := access_index access in
      if row_get c.(tlb_tag) a idx =? tag then
        (Ok (add64 va (row_get c.(tlb_diff) a idx)), st)
      else translate_slow va access st
  end.

(** [.ok()] of a translation: the error is dropped, its effects stay. *)
Definition jit_fill_tlb (va : Z) (store : bool) : Hart (Cpu * B) (option Z) := fun st =>
  match translate va (if store then Store else Load) st with
  | (Ok pa, (c, b)) =>
      match jit_fast_off b va pa store with
      | None => (Ok None, (c, b))
      | Some off => (Ok (Some off), (jit_fill_publish va store off c, b))
      end
  | (Err _, st') => (Ok None, st')
  | (Panic, st') => (Panic, st')
  end.

Definition jit_probe_fetch (va : Z) : Hart (Cpu * B) (option Z) := fun st =>
  match translate va Fetch st with
  | (Ok pa, st') => (Ok (Some pa), st')
  | (Err _, st') => (Ok None, st')
  | (Panic, st') => (Panic, st')
  end.

(** ** Loads and stores *)

Definition interpreter_direct_load (N address : Z) : Hart (Cpu * B) Z :=
  if (N =? 1) || (N =? 2) || (N =? 4) || (N =? 8)
  then gets (fun '(_, b) => host_load N address b) else panic.

Definition interpreter_direct_store (N address value : Z) : Hart (Cpu * B) unit :=
  if (N =? 1) || (N =? 2) || (N =? 4) || (N =? 8)
  then modify (fun '(c, b) => (c, host_store N address (wrap (8 * N) value) b)) else panic.

(** Does an [N]-byte access at [va] cross a page in full-system mode? *)
Definition crosses_page (c : Cpu) (va N : Z) : bool :=
  match c.(sys) with Some _ => 0x1000 <? (va .& 0xfff) + N | None => false end.

Definition bus_read (N pa : Z) : Hart B Z :=
  if N =? 1 then read8 pa else if N =? 2 then read16 pa
  else if N =? 4 then read32 pa else read64 pa.

Definition bus_write (N pa val : Z) : Hart B unit :=
  if N =? 1 then write8 pa (u8 val) else if N =? 2 then write16 pa (u16 val)
  else if N =? 4 then write32 pa (u32 val) else write64 pa val.

(** The byte loops of a page-crossing access, [k] bytes to go from index [i]. *)
Fixpoint ld_bytes (k : nat) (i v va : Z) : Hart (Cpu * B) Z :=
  match k with
  | O => ret v
  | S k =>
      pa <- translate (add64 va i) Load ;;
      byte <- on_snd (read8 pa) ;;
      ld_bytes k (i + 1) (v .| shl64 byte (8 * i)) va
  end.

Fixpoint st_bytes (k : nat) (i va val : Z) : Hart (Cpu * B) unit :=
  match k with
  | O => ret tt
  | S k =>
      pa <- translate (add64 va i) Store ;;
      on_snd (write8 pa (u8 (val .>> (8 * i)))) ;;;
      st_bytes k (i + 1) va val
  end.

Definition ld_slow (N va : Z) : Hart (Cpu * B) Z := fun st =>
  if crosses_page (fst st) va N then ld_bytes (Z.to_nat N) 0 0 va st else
  (pa <- translate va Load ;;
   modify (fun '(c, b) => (fill_jtlb b va pa false c, b)) ;;;
   on_snd (bus_read N pa)) st.

Definition ld (N va : Z) : Hart (Cpu * B) Z := fun st =>
  if crosses_page (fst st) va N then ld_slow N va st else
  match interpreter_fused_ptr (fst st) va false with
  | Some address => interpreter_direct_load N address st
  | None => ld_slow N va st
  end.

Definition st_slow (N va val : Z) : Hart (Cpu * B) unit := fun st =>
  if crosses_page (fst st) va N then st_bytes (Z.to_nat N) 0 va val st else
  (pa <- translate va Store ;;
   modify (fun '(c, b) => (fill_jtlb b va pa true c, b)) ;;;
   on_snd (bus_write N pa val)) st.

Definition st (N va val : Z) : Hart (Cpu * B) unit := fun s =>
  if crosses_page (fst s) va N then st_slow N va val s else
  match interpreter_fused_ptr (fst s) va true with
  | Some address => interpreter_direct_store N address val s
  | None => st_slow N va val s
  end.
End Memory.
