(* ===== verification/Trap.v ===== *)
(** * Traps and interrupts (cpu.rs)

    Trap entry with M/S delegation, the mapping of exceptions to causes, and
    interrupt sampling.  Trap return (MRET/SRET) is in [Exec]. *)

From S2P Require Import Prelude Exception Csr State Bus Mmu.

(** ** The diagnostic records [take_trap] keeps *)

Definition log_syscall (cause : Z) (is_interrupt : bool) (c : Cpu) : Cpu :=
  if negb is_interrupt && (cause =? 8) then
    let satp_v := match c.(sys) with None => 0 | Some s => s.(satp) end in
    let c := set_syscall_log (aset c.(syscall_log) c.(syscall_log_pos)
                                (aget c.(xregs) 17, satp_v)) c in
    set_syscall_log_pos ((c.(syscall_log_pos) + 1) mod 64) c
  else c.

Definition count_trap (cause : Z) (is_interrupt : bool) (c : Cpu) : Cpu :=
  let k := cause .& 15 in
  if is_interrupt then set_irq_counts (aset c.(irq_counts) k (add64 (aget c.(irq_counts) k) 1)) c
  else set_exc_counts (aset c.(exc_counts) k (add64 (aget c.(exc_counts) k) 1)) c.

(** [insn_count.checked_div(time_scale).map(+ time_offset).unwrap_or(mtime)]. *)
Definition rdtime (insn_count : Z) (s : SysCsrs) : Z :=
  if s.(time_scale) =? 0 then s.(mtime)
  else add64 (insn_count / s.(time_scale)) s.(time_offset).

Definition record_timer_trap (cause : Z) (is_interrupt : bool) (c : Cpu) : Cpu :=
  match c.(sys) with
  | Some s =>
      if is_interrupt && (cause =? 5) && mode_eqb s.(mode) User then
        let ltt := c.(last_timer_trap) in
        let now := rdtime c.(insn_count) s in
        let prior := aget ltt 6 in
        let delta := Z.max 0 (now - prior) in
        let backwards := add64 (aget ltt 12) (Z.b2z (negb (prior =? 0) && (now <? prior))) in
        let min_delta :=
          if prior =? 0 then 0
          else if aget ltt 10 =? 0 then delta
          else Z.min (aget ltt 10) delta in
        let max_delta := Z.max (aget ltt 11) delta in
        set_last_timer_trap
          [c.(pc); aget c.(xregs) 4; s.(sscratch); s.(mstatus); s.(satp);
           mode_bits s.(mode); now; c.(insn_count); s.(time_scale); s.(time_offset);
           min_delta; max_delta; backwards] c
      else c
  | None => c
  end.

(** ** Trap entry *)

(** Does the trap go to S-mode? *)
Definition trap_to_s (s : SysCsrs) (cause : Z) (is_interrupt : bool) : bool :=
  let deleg := if is_interrupt then s.(mideleg) else s.(medeleg) in
  let bit := 1 .<< (cause .& 63) in
  negb (mode_eqb s.(mode) Machine) && negb ((deleg .& bit) =? 0).

(** Handler address from a trap vector: vectored only for interrupts. *)
Definition trap_vector (tvec cause : Z) (is_interrupt : bool) : Z :=
  let base := tvec .&~ 3 in
  if ((tvec .& 3) =? 1) && is_interrupt then add64 base (4 * cause) else base.

(** The privileged half of trap entry: [(sys', pc')] from [sys] and [pc]. *)
Definition enter_trap (s : SysCsrs) (pc cause tval : Z) (is_interrupt : bool) : SysCsrs * Z :=
  let cause_val := if is_interrupt then (1 .<< 63) .| cause else cause in
  if trap_to_s s cause is_interrupt then
    let s := set_scause cause_val s in
    let s := set_stval tval s in
    let s := set_sepc pc s in
    let sie := (s.(mstatus) .>> 1) .& 1 in
    let s := set_mstatus
      ((s.(mstatus) .&~ (MSTATUS_SPIE .| MSTATUS_SPP .| MSTATUS_SIE))
         .| (sie .<< 5)
         .| (if mode_eqb s.(mode) Supervisor then MSTATUS_SPP else 0)) s in
    let s := set_mode Supervisor s in
    (s, trap_vector s.(stvec) cause is_interrupt)
  else
    let s := set_mcause cause_val s in
    let s := set_mtval tval s in
    let s := set_mepc pc s in
    let mie := (s.(mstatus) .>> 3) .& 1 in
    let s := set_mstatus
      ((s.(mstatus) .&~ (MSTATUS_MPIE .| MSTATUS_MPP .| MSTATUS_MIE))
         .| (mie .<< 7)
         .| (mode_bits s.(mode) .<< 11)) s in
    let s := set_mode Machine s in
    (s, trap_vector s.(mtvec) cause is_interrupt).

(** Enter the trap handler for an exception or interrupt. *)
Definition take_trap (cause tval : Z) (is_interrupt : bool) : Hart Cpu unit := fun c =>
  let c := set_irq_poll_cd 0 c in
  let c := set_reservation None c in
  let c := log_syscall cause is_interrupt c in
  let c := count_trap cause is_interrupt c in
  let c := record_timer_trap cause is_interrupt c in
  match c.(sys) with
  | None => (Panic, c)
  | Some s =>
      let '(s', pc') := enter_trap s c.(pc) cause tval is_interrupt in
      let c := set_sys (Some s') c in
      let c := set_pc pc' c in
      (Ok tt, privilege_changed c)
  end.

Definition exception_cause_tval (pc : Z) (e : Exception) : Z * Z :=
  match e with
  | InstructionAddressMisaligned addr => (0, addr)
  | InstructionAccessFault addr => (1, addr)
  | IllegalInstruction insn => (2, insn)
  | Breakpoint => (3, pc)
  | LoadAddressMisaligned addr => (4, addr)
  | LoadAccessFault addr => (5, addr)
  | StoreAddressMisaligned addr => (6, addr)
  | StoreAccessFault addr => (7, addr)
  | EnvironmentCallFromUMode => (8, 0)
  | EnvironmentCallFromSMode => (9, 0)
  | EnvironmentCallFromMMode => (11, 0)
  | InstructionPageFault addr => (12, addr)
  | LoadPageFault addr => (13, addr)
  | StorePageFault addr => (15, addr)
  end.

Definition exception_to_trap (e : Exception) : Hart Cpu unit := fun c =>
  let '(k, tval) := exception_cause_tval c.(pc) e in take_trap k tval false c.

(** ** Interrupts *)

Definition HW_LINES : Z := IRQ_MTIP .| IRQ_MSIP .| IRQ_MEIP .| IRQ_SEIP.

(** Priority: MEI, MSI, MTI, SEI, SSI, STI. *)
Definition irq_priority : list Z := [11; 3; 7; 9; 1; 5].

(** Can a pending interrupt be delivered in the current mode? *)
Definition deliverable (s : SysCsrs) (irq : Z) : bool :=
  let m_enabled :=
    negb (mode_eqb s.(mode) Machine) || negb ((s.(mstatus) .& MSTATUS_MIE) =? 0) in
  let s_enabled :=
    mode_eqb s.(mode) User
    || (mode_eqb s.(mode) Supervisor && negb ((s.(mstatus) .& MSTATUS_SIE) =? 0)) in
  let target_s := negb ((s.(mideleg) .& (1 .<< irq)) =? 0) in
  if target_s then
    mode_eqb s.(mode) User || (mode_eqb s.(mode) Supervisor && s_enabled)
  else negb (mode_eqb s.(mode) Machine) || m_enabled.

(** The [for] loop over the priority list: the first interrupt that is pending
    and deliverable. *)
Fixpoint select_irq (s : SysCsrs) (pending : Z) (irqs : list Z) : option Z :=
  match irqs with
  | [] => None
  | irq :: irqs =>
      if (pending .& (1 .<< irq)) =? 0 then select_irq s pending irqs
      else if deliverable s irq then Some irq
      else select_irq s pending irqs
  end.

Section Interrupts.
Context {B : Type} `{Bus B}.

Definition check_interrupts : Hart (Cpu * B) bool := fun st =>
  let '(c, b) := st in
  match c.(sys) with
  | None => (Ok false, st)
  | Some s =>
      let '(lines, b) := irq_lines b in
      let s := set_mip ((s.(mip) .&~ HW_LINES) .| (lines .& HW_LINES)) s in
      let c := set_sys (Some s) c in
      let pending := s.(mip) .& s.(mie) in
      if pending =? 0 then (Ok false, (c, b)) else
      match select_irq s pending irq_priority with
      | Some irq => (on_fst (take_trap irq 0 true) ;;; ret true) (c, b)
      | None => (Ok false, (c, b))
      end
  end.
End Interrupts.
