(* ===== verification/CsrOps.v ===== *)
(** * CSR reads and writes (cpu.rs [csr_read], [csr_write]) *)

From S2P Require Import Prelude Exception Csr State Bus Mmu Trap.

(** ** Vector gating (cpu/vector.rs) *)

Definition vector_enabled (c : Cpu) : bool :=
  match c.(sys) with
  | None => true
  | Some s => negb ((s.(mstatus) .& MSTATUS_VS) =? 0)
  end.

Definition vector_dirty (c : Cpu) : Cpu :=
  match c.(sys) with
  | Some s => set_sys (Some (set_mstatus (s.(mstatus) .| MSTATUS_VS) s)) c
  | None => c
  end.

(** ** Reads *)

(** mstatus as CSR reads see it: SD summarises dirty FS or VS. *)
Definition mstatus_read (s : SysCsrs) : Z :=
  if ((s.(mstatus) .& MSTATUS_FS) =? MSTATUS_FS)
     || ((s.(mstatus) .& MSTATUS_VS) =? MSTATUS_VS)
  then s.(mstatus) .| MSTATUS_SD else s.(mstatus).

(** The privileged CSRs: the final arm of the read [match]. *)
Definition sys_csr_read (s : SysCsrs) (csr : Z) : option Z :=
  if csr =? SSTATUS then Some (mstatus_read s .& SSTATUS_MASK)
  else if csr =? SIE then Some (s.(mie) .& s.(mideleg))
  else if csr =? STVEC then Some s.(stvec)
  else if csr =? SCOUNTEREN then Some s.(scounteren)
  else if csr =? SSCRATCH then Some s.(sscratch)
  else if csr =? SEPC then Some s.(sepc)
  else if csr =? SCAUSE then Some s.(scause)
  else if csr =? STVAL then Some s.(stval)
  else if csr =? SIP then Some (s.(mip) .& s.(mideleg))
  else if csr =? SATP then
    if mode_eqb s.(mode) Supervisor && negb ((s.(mstatus) .& MSTATUS_TVM) =? 0)
    then None else Some s.(satp)
  else if csr =? 0x7a0 then Some 1
  else if ((0x7a1 <=? csr) && (csr <=? 0x7a3)) || (csr =? 0x7a5) then Some 0
  else if csr =? MSTATUS then Some (mstatus_read s)
  else if csr =? MISA then Some MISA_VALUE
  else if csr =? MEDELEG then Some s.(medeleg)
  else if csr =? MIDELEG then Some s.(mideleg)
  else if csr =? MIE then Some s.(mie)
  else if csr =? MTVEC then Some s.(mtvec)
  else if csr =? MCOUNTEREN then Some s.(mcounteren)
  else if csr =? MSCRATCH then Some s.(mscratch)
  else if csr =? MEPC then Some s.(mepc)
  else if csr =? MCAUSE then Some s.(mcause)
  else if csr =? MTVAL then Some s.(mtval)
  else if csr =? MIP then Some s.(mip)
  else if (csr =? MVENDORID) || (csr =? MARCHID) || (csr =? MIMPID) then Some 0
  else if csr =? MHARTID then Some s.(mhartid)
  else None.

(** Bits [9:8] of the address are the minimum mode; a user-mode hart has none. *)
Definition csr_privileged (c : Cpu) (csr : Z) : bool :=
  match c.(sys) with
  | Some s => mode_bits s.(mode) <? ((csr .>> 8) .& 3)
  | None => false
  end.

(** Read a CSR; [None] = unimplemented (traps as illegal instruction). *)
Definition csr_read (c : Cpu) (csr : Z) : option Z :=
  if csr_privileged c csr then None else
  if csr =? FFLAGS then Some (c.(fcsr) .& 0x1f)
  else if csr =? FRM then Some ((c.(fcsr) .>> 5) .& 7)
  else if csr =? FCSR then Some c.(fcsr)
  else if (csr =? VSTART) && vector_enabled c then Some c.(vector).(vstart)
  else if (csr =? VXSAT) && vector_enabled c then Some (Z.b2z c.(vector).(vxsat))
  else if (csr =? VXRM) && vector_enabled c then Some c.(vector).(vxrm)
  else if (csr =? VCSR) && vector_enabled c then
    Some ((c.(vector).(vxrm) .<< 1) .| Z.b2z c.(vector).(vxsat))
  else if (csr =? VL) && vector_enabled c then Some c.(vector).(vl)
  else if (csr =? VTYPE) && vector_enabled c then Some c.(vector).(vtype)
  else if (csr =? VLENB) && vector_enabled c then Some VLEN_BYTES
  else if (csr =? CYCLE) || (csr =? INSTRET) || (csr =? MCYCLE) || (csr =? MINSTRET) then
    Some (add64 c.(insn_count)
            (match c.(sys) with None => 0 | Some s => s.(minstret_off) end))
  else if csr =? TIME then
    Some (match c.(sys) with None => c.(insn_count) | Some s => rdtime c.(insn_count) s end)
  else if ((0x3a0 <=? csr) && (csr <=? 0x3af)) && ((csr .& 1) =? 0) then
    match c.(sys) with None => None | Some s => Some (aget s.(pmpcfg) ((csr - 0x3a0) / 2)) end
  else if (0x3b0 <=? csr) && (csr <=? 0x3ef) then
    match c.(sys) with None => None | Some s => Some (aget s.(pmpaddr) (csr - 0x3b0)) end
  else match c.(sys) with None => None | Some s => sys_csr_read s csr end.

(** ** Writes *)

(** Writable bits of sstatus and mstatus. *)
Definition SSTATUS_W : Z :=
  MSTATUS_SIE .| MSTATUS_SPIE .| MSTATUS_SPP .| MSTATUS_VS .| MSTATUS_FS
    .| MSTATUS_SUM .| MSTATUS_MXR.

Definition MSTATUS_W : Z :=
  MSTATUS_SIE .| MSTATUS_MIE .| MSTATUS_SPIE .| MSTATUS_MPIE .| MSTATUS_SPP
    .| MSTATUS_MPP .| MSTATUS_VS .| MSTATUS_FS .| MSTATUS_MPRV .| MSTATUS_SUM
    .| MSTATUS_MXR .| MSTATUS_TVM .| MSTATUS_TW .| MSTATUS_TSR.

(** [(old & !mask) | (v & mask)] *)
Definition merge (mask old v : Z) : Z := (old .&~ mask) .| (v .& mask).

(** The CSRs whose write only updates [SysCsrs]. *)
Definition sys_csr_write (s : SysCsrs) (csr v : Z) : option SysCsrs :=
  if csr =? SIE then Some (set_mie (merge s.(mideleg) s.(mie) v) s)
  else if csr =? STVEC then Some (set_stvec (v .&~ 2) s)
  else if csr =? SCOUNTEREN then Some (set_scounteren (v .& 7) s)
  else if csr =? SSCRATCH then Some (set_sscratch v s)
  else if csr =? SEPC then Some (set_sepc (v .&~ 1) s)
  else if csr =? SCAUSE then Some (set_scause v s)
  else if csr =? STVAL then Some (set_stval v s)
  else if csr =? SIP then
    Some (set_mip (merge (IRQ_SSIP .& s.(mideleg)) s.(mip) v) s)
  else if csr =? MEDELEG then Some (set_medeleg v s)
  else if csr =? MIDELEG then
    Some (set_mideleg (v .& (IRQ_SSIP .| IRQ_STIP .| IRQ_SEIP)) s)
  else if csr =? MIE then Some (set_mie v s)
  else if csr =? MTVEC then Some (set_mtvec (v .&~ 2) s)
  else if csr =? MCOUNTEREN then Some (set_mcounteren (v .& 7) s)
  else if csr =? MSCRATCH then Some (set_mscratch v s)
  else if csr =? MEPC then Some (set_mepc (v .&~ 1) s)
  else if csr =? MCAUSE then Some (set_mcause v s)
  else if csr =? MTVAL then Some (set_mtval v s)
  else if csr =? MIP then
    Some (set_mip (merge (IRQ_SSIP .| IRQ_STIP .| IRQ_SEIP) s.(mip) v) s)
  else None.

(** sstatus/mstatus: a masked merge, then the translation context follows. *)
Definition write_status (mask v : Z) (s : SysCsrs) (c : Cpu) : Cpu :=
  let c := set_sys (Some (set_mstatus (merge mask s.(mstatus) v) s)) c in
  let c := if negb c.(retain_tlb_on_privilege_change) then flush_tlb c else c in
  sync_jit_tlb_context c.

(** satp: bare/sv39/sv48 accepted, other modes ignored (WARL); [None] when the
    access traps under TVM. *)
Definition write_satp (v : Z) (s : SysCsrs) (c : Cpu) : option Cpu :=
  if mode_eqb s.(mode) Supervisor && negb ((s.(mstatus) .& MSTATUS_TVM) =? 0) then None else
  let md := v .>> 60 in
  if (md =? 0) || (md =? 8) || (md =? 9) then
    let changed := negb (s.(satp) =? v) in
    let c := set_sys (Some (set_satp v s)) c in
    let c := flush_tlb c in
    Some (if changed then
            let c := set_jit_flush_gen (add64 c.(jit_flush_gen) 1) c in
            set_map_gen (add64 c.(map_gen) 1) c
          else c)
  else Some c.

(** Write a CSR; the flag is the source's result ([false] =
    unimplemented/read-only). *)
Definition csr_write (csr v : Z) (c : Cpu) : bool * Cpu :=
  let c := set_irq_poll_cd 0 c in
  if (csr .>> 10) =? 3 then (false, c) else
  if csr_privileged c csr then (false, c) else
  if csr =? FFLAGS then (true, set_fcsr ((c.(fcsr) .&~ 0x1f) .| (u32 v .& 0x1f)) c)
  else if csr =? FRM then (true, set_fcsr ((c.(fcsr) .&~ 0xe0) .| ((u32 v .& 7) .<< 5)) c)
  else if csr =? FCSR then (true, set_fcsr (u32 v .& 0xff) c)
  else if (csr =? VSTART) && vector_enabled c then
    (true, vector_dirty (set_vector (set_vstart (v .& (VLEN_BITS - 1)) c.(vector)) c))
  else if (csr =? VXSAT) && vector_enabled c then
    (true, vector_dirty (set_vector (set_vxsat (negb ((v .& 1) =? 0)) c.(vector)) c))
  else if (csr =? VXRM) && vector_enabled c then
    (true, vector_dirty (set_vector (set_vxrm (v .& 3) c.(vector)) c))
  else if (csr =? VCSR) && vector_enabled c then
    (true, vector_dirty (set_vector (set_vxrm ((v .>> 1) .& 3)
                                       (set_vxsat (negb ((v .& 1) =? 0)) c.(vector))) c))
  else if (csr =? MCYCLE) || (csr =? MINSTRET) then
    let ic := add64 c.(insn_count) 1 in
    (true, match c.(sys) with
           | Some s => set_sys (Some (set_minstret_off (sub64 v ic) s)) c
           | None => c
           end)
  else if ((0x3a0 <=? csr) && (csr <=? 0x3af)) && ((csr .& 1) =? 0) then
    match c.(sys) with
    | Some s => (true, set_sys (Some (set_pmpcfg (aset s.(pmpcfg) ((csr - 0x3a0) / 2) v) s)) c)
    | None => (false, c)
    end
  else if (0x3b0 <=? csr) && (csr <=? 0x3ef) then
    match c.(sys) with
    | Some s =>
        (true, set_sys (Some (set_pmpaddr (aset s.(pmpaddr) (csr - 0x3b0)
                                             (v .& 0x003fffffffffffff)) s)) c)
    | None => (false, c)
    end
  else if csr =? SSTATUS then
    match c.(sys) with Some s => (true, write_status SSTATUS_W v s c) | None => (false, c) end
  else if csr =? SATP then
    match c.(sys) with
    | Some s => match write_satp v s c with Some c' => (true, c') | None => (false, c) end
    | None => (false, c)
    end
  else if ((0x7a0 <=? csr) && (csr <=? 0x7a3)) || (csr =? 0x7a5) then (true, c)
  else if csr =? MSTATUS then
    match c.(sys) with Some s => (true, write_status MSTATUS_W v s c) | None => (false, c) end
  else if csr =? MISA then (true, c)
  else
    match c.(sys) with
    | Some s =>
        match sys_csr_write s csr v with
        | Some s' => (true, set_sys (Some s') c)
        | None => (false, c)
        end
    | None => (false, c)
    end.
