(* ===== verification/Vector.v ===== *)
(** * Vector configuration and the vector-unit interface (cpu/vector.rs)

    The vtype decoder, [vset{i}vl{i}] and the dispatch of OP-V are modelled
    here.  The decoder calls the arithmetic and memory bodies through the
    interface [VectorUnit] and relies on [VectorUnitOk]; [VecMem] has the
    instance. *)

From S2P Require Import Prelude Exception Decode Csr State Bus Mmu Trap CsrOps.

Record VectorConfig : Type := mkVectorConfig {
  sew : Z; lmul_num : Z; lmul_den : Z; lmul_exp : Z; vlmax : Z
}.

(** [VectorConfig::decode]. *)
Definition decode_vtype (raw : Z) : option VectorConfig :=
  if negb ((raw .& VILL) =? 0) || negb ((raw .>> 8) =? 0) then None else
  let m := raw .& 7 in
  let lmul_exp :=
    if m =? 0 then Some 0 else if m =? 1 then Some 1 else if m =? 2 then Some 2
    else if m =? 3 then Some 3 else if m =? 5 then Some (-3) else if m =? 6 then Some (-2)
    else if m =? 7 then Some (-1) else None in
  match lmul_exp with
  | None => None
  | Some lmul_exp =>
      let vsew := (raw .>> 3) .& 7 in
      if 3 <? vsew then None else
      let sew_log := 3 + vsew in
      if 6 + lmul_exp <? sew_log then None else
      let vlmax_log := 7 + lmul_exp - sew_log in
      if vlmax_log <? 0 then None else
      let '(num, den) :=
        if 0 <=? lmul_exp then (1 .<< lmul_exp, 1) else (1, 1 .<< (- lmul_exp)) in
      Some {| sew := 1 .<< sew_log; lmul_num := num; lmul_den := den;
              lmul_exp := lmul_exp; vlmax := 1 .<< vlmax_log |}
  end.

Definition config (v : VectorState) : option VectorConfig := decode_vtype v.(vtype).

(** [install_config]: the new vl and the updated state. *)
Definition install_config (raw_type rd : Z) (rs1_is_zero : bool) (avl : Z)
    (immediate_avl : bool) (v : VectorState) : Z * VectorState :=
  let old_vlmax := match config v with Some c => Some c.(vlmax) | None => None end in
  let new_config := decode_vtype raw_type in
  let retain_vl := negb immediate_avl && (rd =? 0) && rs1_is_zero in
  let legal :=
    match new_config with
    | Some new =>
        if negb retain_vl
           || match old_vlmax with Some o => o =? new.(vlmax) | None => false end
        then Some new else None
    | None => None
    end in
  let v :=
    match legal with
    | Some cfg =>
        let v := set_vtype (raw_type .& 0xff) v in
        set_vl (if immediate_avl then Z.min avl cfg.(vlmax)
                else if retain_vl then v.(vl)
                else if rs1_is_zero then cfg.(vlmax)
                else Z.min avl cfg.(vlmax)) v
    | None => set_vl 0 (set_vtype VILL v)
    end in
  let v := set_vstart 0 v in
  (v.(vl), v).

Definition unit_stride_memory_encoding (insn : Z) : bool :=
  let SHAPE_MASK := (7 .<< 29) .| (1 .<< 28) .| (3 .<< 26) .| (1 .<< 25) .| (0x1f .<< 20) in
  (insn .& SHAPE_MASK) =? (1 .<< 25).

Definition vector_check (insn : Z) : Hart Cpu unit := fun c =>
  if vector_enabled c then (Ok tt, c) else (Err (IllegalInstruction insn), c).

Definition exec_vector_config (insn : Z) : Hart Cpu unit :=
  vector_check insn ;;;
  if negb (funct3 insn =? 7) then throw (IllegalInstruction insn) else
  c <- gets id ;;
  let d := rd insn in
  let s1 := rs1 insn in
  let args :=
    if (insn .>> 30) =? 3 then Some ((insn .>> 20) .& 0x3ff, s1, true, false)
    else if (insn .>> 31) =? 0 then
      Some ((insn .>> 20) .& 0x7ff, aget c.(xregs) s1, false, s1 =? 0)
    else if ((insn .>> 25) .& 0x3f) =? 0 then
      Some (aget c.(xregs) (rs2 insn), aget c.(xregs) s1, false, s1 =? 0)
    else None in
  match args with
  | None => throw (IllegalInstruction insn)
  | Some (raw_type, avl, immediate_avl, rs1_is_zero) =>
      modify (fun c =>
        let '(new_vl, v) := install_config raw_type d rs1_is_zero avl immediate_avl c.(vector) in
        wr d new_vl (vector_dirty (set_vector v c)))
  end.

(** ** The bodies behind the decoder *)

Class VectorUnit (B : Type) : Type := {
  exec_vector_float : Z -> VectorConfig -> Hart Cpu unit;
  exec_vector_integer : Z -> VectorConfig -> Hart Cpu unit;
  exec_unit_stride_memory_insn : Z -> bool -> Hart (Cpu * B) unit;
  exec_vector_memory : Z -> bool -> Hart (Cpu * B) unit
}.

Section VectorDispatch.
Context {B : Type} `{VectorUnit B}.

Definition exec_vector_op (insn : Z) : Hart Cpu unit :=
  if funct3 insn =? 7 then exec_vector_config insn else
  vector_check insn ;;;
  c <- gets id ;;
  cfg <- ok_or (config c.(vector)) (IllegalInstruction insn) ;;
  let whole_register_move := (funct3 insn =? 3) && ((insn .>> 26) =? 0x27) in
  if negb whole_register_move && negb (c.(vector).(vstart) =? 0)
     && (cfg.(vlmax) <=? c.(vector).(vstart))
  then throw (IllegalInstruction insn)
  else if (funct3 insn =? 1) || (funct3 insn =? 5) then exec_vector_float insn cfg
  else exec_vector_integer insn cfg.
End VectorDispatch.

(** The smallest vector unit: every arithmetic or memory instruction is
    illegal. *)
Definition trapping_unit {B} : VectorUnit B := {|
  exec_vector_float := fun insn _ => throw (IllegalInstruction insn);
  exec_vector_integer := fun insn _ => throw (IllegalInstruction insn);
  exec_unit_stride_memory_insn := fun insn _ => throw (IllegalInstruction insn);
  exec_vector_memory := fun insn _ => throw (IllegalInstruction insn)
|}.
