(* ===== verification/SoftFp.v ===== *)
(** * Software floating point (softfp.rs)

    The [softfp!] macro is a Section over the format's sizes; [sf32] and [sf64]
    are its two instances at the end of the file.  A function that takes
    [fl: &mut u32] takes the flags and returns [(result, flags')]. *)

From S2P Require Import Prelude.

Definition FFLAG_INEXACT : Z := 1 .<< 0.
Definition FFLAG_UNDERFLOW : Z := 1 .<< 1.
Definition FFLAG_OVERFLOW : Z := 1 .<< 2.
Definition FFLAG_DIVIDE_ZERO : Z := 1 .<< 3.
Definition FFLAG_INVALID_OP : Z := 1 .<< 4.

Definition RM_RNE : Z := 0.
Definition RM_RTZ : Z := 1.
Definition RM_RDN : Z := 2.
Definition RM_RUP : Z := 3.
Definition RM_RMM : Z := 4.

(** [u<w>::leading_zeros]. *)
Definition leading_zeros (w x : Z) : Z := if x =? 0 then w else w - 1 - Z.log2 x.

(** [*fl |= f] under a condition. *)
Definition raise_if (b : bool) (f fl : Z) : Z := if b then fl .| f else fl.

Module softfp.
Section SoftFp.
Context (F_SIZE MANT_SIZE EXP_SIZE : Z).

Definition EXP_MASK : Z := (1 .<< EXP_SIZE) - 1.
Definition MANT_MASK : Z := (1 .<< MANT_SIZE) - 1.
Definition SIGN_MASK : Z := 1 .<< (F_SIZE - 1).
Definition IMANT_SIZE : Z := F_SIZE - 2.
Definition RND_SIZE : Z := IMANT_SIZE - MANT_SIZE.
Definition QNAN_MASK : Z := 1 .<< (MANT_SIZE - 1).
Definition QNAN : Z := (EXP_MASK .<< MANT_SIZE) .| (1 .<< (MANT_SIZE - 1)).

(** Shift left in the format's integer type. *)
Definition shlu (a n : Z) : Z := wrap F_SIZE (a .<< n).

Definition pack (sign exp mant : Z) : Z :=
shlu sign (F_SIZE - 1) .| shlu exp MANT_SIZE .| (mant .& MANT_MASK).

Definition rshift_rnd (a d : Z) : Z :=
if d =? 0 then a
else if F_SIZE <=? d then Z.b2z (negb (a =? 0))
else
  let mask := (1 .<< d) - 1 in
  (a .>> d) .| Z.b2z (negb ((a .& mask) =? 0)).

(** The rounding addend of a mode and sign. *)
Definition rnd_addend (sign rm : Z) : Z :=
if (rm =? RM_RNE) || (rm =? RM_RMM) then 1 .<< (RND_SIZE - 1)
else if rm =? RM_RTZ then 0
else if negb ((sign .^ (rm .& 1)) =? 0) then (1 .<< RND_SIZE) - 1
else 0.

Definition round_pack (sign exp mant rm fl : Z) : Z * Z :=
let addend := rnd_addend sign rm in
let '(exp, mant, rnd_bits, fl) :=
  if exp <=? 0 then
    let is_subnormal :=
      (exp <? 0) || (wrap F_SIZE (mant + addend) <? (1 .<< (F_SIZE - 1))) in
    let mant := rshift_rnd mant (1 - exp) in
    let rnd_bits := mant .& ((1 .<< RND_SIZE) - 1) in
    (1, mant, rnd_bits,
     raise_if (is_subnormal && negb (rnd_bits =? 0)) FFLAG_UNDERFLOW fl)
  else (exp, mant, mant .& ((1 .<< RND_SIZE) - 1), fl) in
let fl := raise_if (negb (rnd_bits =? 0)) FFLAG_INEXACT fl in
let mant := wrap F_SIZE (mant + addend) .>> RND_SIZE in
let mant :=
  if (rm =? RM_RNE) && (rnd_bits =? (1 .<< (RND_SIZE - 1))) then mant .&~ 1 else mant in
let exp := exp + (mant .>> (MANT_SIZE + 1)) in
if mant <=? MANT_MASK then (pack sign 0 mant, fl)
else if EXP_MASK <=? exp then
  let fl := fl .| (FFLAG_OVERFLOW .| FFLAG_INEXACT) in
  if addend =? 0 then (pack sign (EXP_MASK - 1) MANT_MASK, fl)
  else (pack sign EXP_MASK 0, fl)
else (pack sign exp mant, fl).

Definition normalize (sign exp mant rm fl : Z) : Z * Z :=
let shift := leading_zeros F_SIZE mant - (F_SIZE - 1 - IMANT_SIZE) in
round_pack sign (exp - shift) (shlu mant shift) rm fl.

Definition normalize2 (sign exp hi lo rm fl : Z) : Z * Z :=
let l := if hi =? 0 then F_SIZE + leading_zeros F_SIZE lo else leading_zeros F_SIZE hi in
let shift := l - (F_SIZE - 1 - IMANT_SIZE) in
let exp := exp - shift in
let hi :=
  if shift =? 0 then hi .| Z.b2z (negb (lo =? 0))
  else if shift <? F_SIZE then
    (shlu hi shift .| (lo .>> (F_SIZE - shift)))
      .| Z.b2z (negb (shlu lo shift =? 0))
  else shlu lo (shift - F_SIZE) in
round_pack sign exp hi rm fl.

Definition is_nan (a : Z) : bool :=
((u32 (a .>> MANT_SIZE) .& EXP_MASK) =? EXP_MASK) && negb ((a .& MANT_MASK) =? 0).

Definition is_signan (a : Z) : bool :=
let exp1 := u32 (a .>> (MANT_SIZE - 1)) .& ((1 .<< (EXP_SIZE + 1)) - 1) in
(exp1 =? 2 * EXP_MASK) && negb ((a .& MANT_MASK) =? 0).

(** Returns [(exp, mant)]. *)
Definition normalize_subnormal (mant : Z) : Z * Z :=
let shift := MANT_SIZE - (F_SIZE - 1 - leading_zeros F_SIZE mant) in
(1 - shift, shlu mant shift).

(** The three fields of an operand. *)
Definition sign_of (a : Z) : Z := u32 (a .>> (F_SIZE - 1)).
Definition exp_of (a : Z) : Z := u32 (a .>> MANT_SIZE) .& EXP_MASK.
Definition mant_of (a : Z) : Z := a .& MANT_MASK.

(** Exponent and significand of a finite operand with the hidden bit made
  explicit ([if exp == 0 { normalize_subnormal } else { |= 1 << MANT }]). *)
Definition unpack (exp mant : Z) : Z * Z :=
if exp =? 0 then normalize_subnormal mant else (exp, mant .| (1 .<< MANT_SIZE)).

Definition add (a b rm fl : Z) : Z * Z :=
let '(a, b) := if (a .&~ SIGN_MASK) <? (b .&~ SIGN_MASK) then (b, a) else (a, b) in
let a_sign := sign_of a in
let b_sign := sign_of b in
let a_exp := exp_of a in
let b_exp := exp_of b in
let a_mant := shlu (mant_of a) 3 in
let b_mant := shlu (mant_of b) 3 in
if a_exp =? EXP_MASK then
  if negb (a_mant =? 0) then
    (QNAN, raise_if (((a_mant .& shlu QNAN_MASK 3) =? 0) || is_signan b)
             FFLAG_INVALID_OP fl)
  else if (b_exp =? EXP_MASK) && negb (a_sign =? b_sign) then
    (QNAN, fl .| FFLAG_INVALID_OP)
  else (a, fl)
else
  let '(a_exp, a_mant) :=
    if a_exp =? 0 then (1, a_mant) else (a_exp, a_mant .| (1 .<< (MANT_SIZE + 3))) in
  let '(b_exp, b_mant) :=
    if b_exp =? 0 then (1, b_mant) else (b_exp, b_mant .| (1 .<< (MANT_SIZE + 3))) in
  let b_mant := rshift_rnd b_mant (a_exp - b_exp) in
  let '(a_sign, a_mant) :=
    if a_sign =? b_sign then (a_sign, wrap F_SIZE (a_mant + b_mant))
    else
      let a_mant := wrap F_SIZE (a_mant - b_mant) in
      (if a_mant =? 0 then Z.b2z (rm =? RM_RDN) else a_sign, a_mant) in
  normalize a_sign (a_exp + (RND_SIZE - 3)) a_mant rm fl.

Definition sub (a b rm fl : Z) : Z * Z := add a (b .^ SIGN_MASK) rm fl.

Definition mul_u (a b : Z) : Z * Z :=
let r := wrap (2 * F_SIZE) (a * b) in
(wrap F_SIZE (r .>> F_SIZE), wrap F_SIZE r).

Definition mul (a b rm fl : Z) : Z * Z :=
let r_sign := sign_of a .^ sign_of b in
let a_exp := exp_of a in
let b_exp := exp_of b in
let a_mant := mant_of a in
let b_mant := mant_of b in
if (a_exp =? EXP_MASK) || (b_exp =? EXP_MASK) then
  if is_nan a || is_nan b then
    (QNAN, raise_if (is_signan a || is_signan b) FFLAG_INVALID_OP fl)
  else if ((a_exp =? EXP_MASK) && ((b_exp =? 0) && (b_mant =? 0)))
          || ((b_exp =? EXP_MASK) && ((a_exp =? 0) && (a_mant =? 0))) then
    (QNAN, fl .| FFLAG_INVALID_OP)
  else (pack r_sign EXP_MASK 0, fl)
else if (a_exp =? 0) && (a_mant =? 0) then (pack r_sign 0 0, fl)
else if (b_exp =? 0) && (b_mant =? 0) then (pack r_sign 0 0, fl)
else
  let '(a_exp, a_mant) := unpack a_exp a_mant in
  let '(b_exp, b_mant) := unpack b_exp b_mant in
  let r_exp := a_exp + b_exp - (1 .<< (EXP_SIZE - 1)) + 2 in
  let '(r_mant, r_low) := mul_u (shlu a_mant RND_SIZE) (shlu b_mant (RND_SIZE + 1)) in
  let r_mant := r_mant .| Z.b2z (negb (r_low =? 0)) in
  normalize r_sign r_exp r_mant rm fl.

(** [c] shifted right by the exponent difference, in two words (hi, lo). *)
Definition fma_align (shift c1 c0 : Z) : Z * Z :=
if 2 * F_SIZE <=? shift then (0, Z.b2z (negb ((c0 .| c1) =? 0)))
else if F_SIZE <? shift then (0, rshift_rnd c1 (shift - F_SIZE))
else if shift =? F_SIZE then (0, c1 .| Z.b2z (negb (c0 =? 0)))
else if negb (shift =? 0) then
  let mask := (1 .<< shift) - 1 in
  (c1 .>> shift,
   (shlu c1 (F_SIZE - shift) .| (c0 .>> shift)) .| Z.b2z (negb ((c0 .& mask) =? 0)))
else (c1, c0).

(** The addition of the aligned product and addend, and the final rounding. *)
Definition fma_combine (r_sign r_exp r1 r0 c_sign c_exp c1 c0 rm fl : Z) : Z * Z :=
let '(c1, c0) := fma_align (r_exp - c_exp) c1 c0 in
let '(r_sign, r1, r0) :=
  if r_sign =? c_sign then
    let r0 := wrap F_SIZE (r0 + c0) in
    (r_sign, wrap F_SIZE (wrap F_SIZE (r1 + c1) + Z.b2z (r0 <? c0)), r0)
  else
    let tmp := r0 in
    let r0 := wrap F_SIZE (r0 - c0) in
    let r1 := wrap F_SIZE (wrap F_SIZE (r1 - c1) - Z.b2z (tmp <? r0)) in
    (if (r0 .| r1) =? 0 then Z.b2z (rm =? RM_RDN) else r_sign, r1, r0) in
normalize2 r_sign r_exp r1 r0 rm fl.

Definition fma (a b c rm fl : Z) : Z * Z :=
let c_sign := sign_of c in
let r_sign := sign_of a .^ sign_of b in
let a_exp := exp_of a in
let b_exp := exp_of b in
let c_exp := exp_of c in
let a_mant := mant_of a in
let b_mant := mant_of b in
let c_mant := mant_of c in
if (a_exp =? EXP_MASK) || (b_exp =? EXP_MASK) || (c_exp =? EXP_MASK) then
  if is_nan a || is_nan b || is_nan c then
    (QNAN, raise_if (is_signan a || is_signan b || is_signan c) FFLAG_INVALID_OP fl)
  else if ((a_exp =? EXP_MASK) && ((b_exp =? 0) && (b_mant =? 0)))
          || ((b_exp =? EXP_MASK) && ((a_exp =? 0) && (a_mant =? 0)))
          || (((a_exp =? EXP_MASK) || (b_exp =? EXP_MASK))
              && ((c_exp =? EXP_MASK) && negb (r_sign =? c_sign))) then
    (QNAN, fl .| FFLAG_INVALID_OP)
  else if c_exp =? EXP_MASK then (pack c_sign EXP_MASK 0, fl)
  else (pack r_sign EXP_MASK 0, fl)
else if ((a_exp =? 0) && (a_mant =? 0)) || ((b_exp =? 0) && (b_mant =? 0)) then
  if (c_exp =? 0) && (c_mant =? 0) then
    (pack (if negb (c_sign =? r_sign) then Z.b2z (rm =? RM_RDN) else r_sign) 0 0, fl)
  else (c, fl)
else
  let '(a_exp, a_mant) := unpack a_exp a_mant in
  let '(b_exp, b_mant) := unpack b_exp b_mant in
  let r_exp := a_exp + b_exp - (1 .<< (EXP_SIZE - 1)) + 3 in
  let '(r1, r0) := mul_u (shlu a_mant RND_SIZE) (shlu b_mant RND_SIZE) in
  let '(r1, r0, r_exp) :=
    if r1 <? (1 .<< (F_SIZE - 3)) then
      (shlu r1 1 .| (r0 .>> (F_SIZE - 1)), shlu r0 1, r_exp - 1)
    else (r1, r0, r_exp) in
  if (c_exp =? 0) && (c_mant =? 0) then
    normalize r_sign r_exp (r1 .| Z.b2z (negb (r0 =? 0))) rm fl
  else
    let '(c_exp, c_mant) := unpack c_exp c_mant in
    let c_exp := c_exp + 1 in
    let c1 := shlu c_mant (RND_SIZE - 1) in
    let c0 := 0 in
    if negb ((c_exp <? r_exp) || ((r_exp =? c_exp) && (c1 <=? r1))) then
      fma_combine c_sign c_exp c1 c0 r_sign r_exp r1 r0 rm fl
    else fma_combine r_sign r_exp r1 r0 c_sign c_exp c1 c0 rm fl.

Definition divrem_u (ah al b : Z) : Z * Z :=
let a := wrap (2 * F_SIZE) (ah .<< F_SIZE) .| al in
(wrap F_SIZE (a / b), wrap F_SIZE (a mod b)).

Definition div (a b rm fl : Z) : Z * Z :=
let r_sign := sign_of a .^ sign_of b in
let a_exp := exp_of a in
let b_exp := exp_of b in
let a_mant := mant_of a in
let b_mant := mant_of b in
if a_exp =? EXP_MASK then
  if negb (a_mant =? 0) || is_nan b then
    (QNAN, raise_if (is_signan a || is_signan b) FFLAG_INVALID_OP fl)
  else if b_exp =? EXP_MASK then (QNAN, fl .| FFLAG_INVALID_OP)
  else (pack r_sign EXP_MASK 0, fl)
else if b_exp =? EXP_MASK then
  if negb (b_mant =? 0) then
    (QNAN, raise_if (is_signan a || is_signan b) FFLAG_INVALID_OP fl)
  else (pack r_sign 0 0, fl)
else if (b_exp =? 0) && (b_mant =? 0) then
  if (a_exp =? 0) && (a_mant =? 0) then (QNAN, fl .| FFLAG_INVALID_OP)
  else (pack r_sign EXP_MASK 0, fl .| FFLAG_DIVIDE_ZERO)
else
  let '(b_exp, b_mant) := unpack b_exp b_mant in
  if (a_exp =? 0) && (a_mant =? 0) then (pack r_sign 0 0, fl)
  else
    let '(a_exp, a_mant) := unpack a_exp a_mant in
    let r_exp := a_exp - b_exp + (1 .<< (EXP_SIZE - 1)) - 1 in
    let '(r_mant, rem) := divrem_u a_mant 0 (shlu b_mant 2) in
    let r_mant := if negb (rem =? 0) then r_mant .| 1 else r_mant in
    normalize r_sign r_exp r_mant rm fl.

(** The Newton loop of [sqrtrem_u]; [None] when the fuel runs out. *)
Fixpoint sqrt_loop (fuel : nat) (a u : Z) : option Z :=
match fuel with
| O => None
| S fuel =>
    let s := u in
    let u := (a / s + s) / 2 in
    if s <=? u then Some s else sqrt_loop fuel a u
end.

Definition sqrtrem_u (ah al : Z) : option (Z * bool) :=
if (ah =? 0) && (al =? 0) then Some (0, false) else
let a := wrap (2 * F_SIZE) (ah .<< F_SIZE) .| al in
let l :=
  if negb (ah =? 0) then 2 * F_SIZE - leading_zeros F_SIZE (ah - 1)
  else F_SIZE - leading_zeros F_SIZE (wrap F_SIZE (al - 1)) in
let u := 1 .<< ((l + 1) / 2) in
match sqrt_loop (Z.to_nat (F_SIZE + 3)) a u with
| Some s => Some (wrap F_SIZE s, negb (a - s * s =? 0))
| None => None
end.

Definition sqrt (a rm fl : Z) : option (Z * Z) :=
let a_sign := sign_of a in
let a_exp := exp_of a in
let a_mant := mant_of a in
if a_exp =? EXP_MASK then
  if negb (a_mant =? 0) then Some (QNAN, raise_if (is_signan a) FFLAG_INVALID_OP fl)
  else if negb (a_sign =? 0) then Some (QNAN, fl .| FFLAG_INVALID_OP)
  else Some (a, fl)
else if negb (a_sign =? 0) then
  if (a_exp =? 0) && (a_mant =? 0) then Some (a, fl)
  else Some (QNAN, fl .| FFLAG_INVALID_OP)
else if (a_exp =? 0) && (a_mant =? 0) then Some (pack 0 0 0, fl)
else
  let '(a_exp, a_mant) := unpack a_exp a_mant in
  let a_exp := a_exp - EXP_MASK / 2 in
  let '(a_exp, a_mant) :=
    if negb ((a_exp .& 1) =? 0) then (a_exp - 1, shlu a_mant 1) else (a_exp, a_mant) in
  let a_exp := (a_exp .>> 1) + EXP_MASK / 2 in
  let a_mant := shlu a_mant (F_SIZE - 4 - MANT_SIZE) in
  match sqrtrem_u a_mant 0 with
  | Some (root, inexact) =>
      let root := if inexact then root .| 1 else root in
      Some (normalize a_sign a_exp root rm fl)
  | None => None
  end.

Definition min_max_nan (a b fl : Z) : Z * Z :=
let fl := raise_if (is_signan a || is_signan b) FFLAG_INVALID_OP fl in
(if is_nan a then if is_nan b then QNAN else b else a, fl).

Definition min (a b fl : Z) : Z * Z :=
if is_nan a || is_nan b then min_max_nan a b fl else
let a_sign := sign_of a in
let b_sign := sign_of b in
(if negb (a_sign =? b_sign) then if negb (a_sign =? 0) then a else b
 else if negb ((Z.b2z (a <? b) .^ a_sign) =? 0) then a else b, fl).

Definition max (a b fl : Z) : Z * Z :=
if is_nan a || is_nan b then min_max_nan a b fl else
let a_sign := sign_of a in
let b_sign := sign_of b in
(if negb (a_sign =? b_sign) then if negb (a_sign =? 0) then b else a
 else if negb ((Z.b2z (a <? b) .^ a_sign) =? 0) then b else a, fl).

Definition eq_quiet (a b fl : Z) : bool * Z :=
if is_nan a || is_nan b then
  (false, raise_if (is_signan a || is_signan b) FFLAG_INVALID_OP fl)
else if shlu (a .| b) 1 =? 0 then (true, fl)
else (a =? b, fl).

Definition le (a b fl : Z) : bool * Z :=
if is_nan a || is_nan b then (false, fl .| FFLAG_INVALID_OP) else
let a_sign := a .>> (F_SIZE - 1) in
let b_sign := b .>> (F_SIZE - 1) in
(if negb (a_sign =? b_sign) then negb (a_sign =? 0) || (shlu (a .| b) 1 =? 0)
 else if negb (a_sign =? 0) then b <=? a
 else a <=? b, fl).

Definition lt (a b fl : Z) : bool * Z :=
if is_nan a || is_nan b then (false, fl .| FFLAG_INVALID_OP) else
let a_sign := a .>> (F_SIZE - 1) in
let b_sign := b .>> (F_SIZE - 1) in
(if negb (a_sign =? b_sign) then negb (a_sign =? 0) && negb (shlu (a .| b) 1 =? 0)
 else if negb (a_sign =? 0) then b <? a
 else a <? b, fl).

Definition fclass (a : Z) : Z :=
let a_sign := sign_of a in
let a_exp := exp_of a in
let a_mant := mant_of a in
if a_exp =? EXP_MASK then
  if negb (a_mant =? 0) then
    if negb ((a_mant .& QNAN_MASK) =? 0) then 1 .<< 9 else 1 .<< 8
  else if negb (a_sign =? 0) then 1 .<< 0 else 1 .<< 7
else if a_exp =? 0 then
  if a_mant =? 0 then if negb (a_sign =? 0) then 1 .<< 3 else 1 .<< 4
  else if negb (a_sign =? 0) then 1 .<< 2 else 1 .<< 5
else if negb (a_sign =? 0) then 1 .<< 1 else 1 .<< 6.

(** ** float <-> integer: [isz] is the width of the integer type *)

Definition cvt_f_to_i (isz a rm fl : Z) (unsigned : bool) : Z * Z :=
let a_sign := sign_of a in
let a_exp := exp_of a in
let a_mant := mant_of a in
let a_sign := if (a_exp =? EXP_MASK) && negb (a_mant =? 0) then 0 else a_sign in
let '(a_exp, a_mant) :=
  if a_exp =? 0 then (1, a_mant) else (a_exp, a_mant .| (1 .<< MANT_SIZE)) in
let a_mant := shlu a_mant RND_SIZE in
let a_exp := a_exp - EXP_MASK / 2 - MANT_SIZE in
let r_max :=
  if unsigned then wrap isz (a_sign - 1)
  else (1 .<< (isz - 1)) - (a_sign .^ 1) in
let finish r fl := (if negb (a_sign =? 0) then wrap isz (- r) else r, fl) in
if 0 <=? a_exp then
  if a_exp <=? isz - 1 - MANT_SIZE then
    let r := wrap isz (wrap isz (a_mant .>> RND_SIZE) .<< a_exp) in
    if r_max <? r then (r_max, fl .| FFLAG_INVALID_OP) else finish r fl
  else (r_max, fl .| FFLAG_INVALID_OP)
else
  let a_mant := rshift_rnd a_mant (- a_exp) in
  let addend := rnd_addend a_sign rm in
  let rnd_bits := a_mant .& ((1 .<< RND_SIZE) - 1) in
  let a_mant := wrap F_SIZE (a_mant + addend) .>> RND_SIZE in
  let a_mant :=
    if (rm =? RM_RNE) && (rnd_bits =? (1 .<< (RND_SIZE - 1))) then a_mant .&~ 1
    else a_mant in
  if r_max <? a_mant then (r_max, fl .| FFLAG_INVALID_OP)
  else finish (wrap isz a_mant) (raise_if (negb (rnd_bits =? 0)) FFLAG_INEXACT fl).

Definition cvt_i_to_f (isz a rm fl : Z) (unsigned : bool) : Z * Z :=
let '(a_sign, r) :=
  if negb unsigned && (signed isz a <? 0) then (1, wrap isz (- a)) else (0, a) in
let a_exp := EXP_MASK / 2 + F_SIZE - 2 in
let l := isz - (if r =? 0 then isz else leading_zeros isz r) - (F_SIZE - 1) in
let '(r, a_exp) :=
  if 0 <? l then
    let mask := (1 .<< l) - 1 in
    ((r .>> l) .| Z.b2z (negb ((r .& mask) =? 0)), a_exp + l)
  else (r, a_exp) in
normalize a_sign a_exp (wrap F_SIZE r) rm fl.
End SoftFp.
End softfp.

(** ** The two instances *)

Module sf32.
Definition F_SIZE : Z := 32.
Definition MANT_SIZE : Z := 23.
Definition EXP_SIZE : Z := 8.
Definition QNAN : Z := softfp.QNAN MANT_SIZE EXP_SIZE.
Definition pack : Z -> Z -> Z -> Z := softfp.pack F_SIZE MANT_SIZE.
Definition is_nan : Z -> bool := softfp.is_nan MANT_SIZE EXP_SIZE.
Definition is_signan : Z -> bool := softfp.is_signan MANT_SIZE EXP_SIZE.
Definition round_pack := softfp.round_pack F_SIZE MANT_SIZE EXP_SIZE.
Definition add := softfp.add F_SIZE MANT_SIZE EXP_SIZE.
Definition sub := softfp.sub F_SIZE MANT_SIZE EXP_SIZE.
Definition mul := softfp.mul F_SIZE MANT_SIZE EXP_SIZE.
Definition fma := softfp.fma F_SIZE MANT_SIZE EXP_SIZE.
Definition div := softfp.div F_SIZE MANT_SIZE EXP_SIZE.
Definition sqrt := softfp.sqrt F_SIZE MANT_SIZE EXP_SIZE.
Definition min := softfp.min F_SIZE MANT_SIZE EXP_SIZE.
Definition max := softfp.max F_SIZE MANT_SIZE EXP_SIZE.
Definition eq_quiet := softfp.eq_quiet F_SIZE MANT_SIZE EXP_SIZE.
Definition le := softfp.le F_SIZE MANT_SIZE EXP_SIZE.
Definition lt := softfp.lt F_SIZE MANT_SIZE EXP_SIZE.
Definition fclass := softfp.fclass F_SIZE MANT_SIZE EXP_SIZE.
Definition cvt_to_i32 := softfp.cvt_f_to_i F_SIZE MANT_SIZE EXP_SIZE 32.
Definition cvt_to_i64 := softfp.cvt_f_to_i F_SIZE MANT_SIZE EXP_SIZE 64.
Definition cvt_from_i32 := softfp.cvt_i_to_f F_SIZE MANT_SIZE EXP_SIZE 32.
Definition cvt_from_i64 := softfp.cvt_i_to_f F_SIZE MANT_SIZE EXP_SIZE 64.
End sf32.

Module sf64.
Definition F_SIZE : Z := 64.
Definition MANT_SIZE : Z := 52.
Definition EXP_SIZE : Z := 11.
Definition QNAN : Z := softfp.QNAN MANT_SIZE EXP_SIZE.
Definition pack : Z -> Z -> Z -> Z := softfp.pack F_SIZE MANT_SIZE.
Definition is_nan : Z -> bool := softfp.is_nan MANT_SIZE EXP_SIZE.
Definition is_signan : Z -> bool := softfp.is_signan MANT_SIZE EXP_SIZE.
Definition round_pack := softfp.round_pack F_SIZE MANT_SIZE EXP_SIZE.
Definition add := softfp.add F_SIZE MANT_SIZE EXP_SIZE.
Definition sub := softfp.sub F_SIZE MANT_SIZE EXP_SIZE.
Definition mul := softfp.mul F_SIZE MANT_SIZE EXP_SIZE.
Definition fma := softfp.fma F_SIZE MANT_SIZE EXP_SIZE.
Definition div := softfp.div F_SIZE MANT_SIZE EXP_SIZE.
Definition sqrt := softfp.sqrt F_SIZE MANT_SIZE EXP_SIZE.
Definition min := softfp.min F_SIZE MANT_SIZE EXP_SIZE.
Definition max := softfp.max F_SIZE MANT_SIZE EXP_SIZE.
Definition eq_quiet := softfp.eq_quiet F_SIZE MANT_SIZE EXP_SIZE.
Definition le := softfp.le F_SIZE MANT_SIZE EXP_SIZE.
Definition lt := softfp.lt F_SIZE MANT_SIZE EXP_SIZE.
Definition fclass := softfp.fclass F_SIZE MANT_SIZE EXP_SIZE.
Definition cvt_to_i32 := softfp.cvt_f_to_i F_SIZE MANT_SIZE EXP_SIZE 32.
Definition cvt_to_i64 := softfp.cvt_f_to_i F_SIZE MANT_SIZE EXP_SIZE 64.
Definition cvt_from_i32 := softfp.cvt_i_to_f F_SIZE MANT_SIZE EXP_SIZE 32.
Definition cvt_from_i64 := softfp.cvt_i_to_f F_SIZE MANT_SIZE EXP_SIZE 64.
End sf64.

(** ** Conversions between f32 and f64 *)

Definition cvt_sf32_sf64 (a fl : Z) : Z * Z :=
  let a_sign := a .>> 31 in
  let a_exp := (a .>> 23) .& 0xff in
  let a_mant := a .& 0x7fffff in
  if a_exp =? 0xff then
    if negb (a_mant =? 0) then
      (sf64.QNAN, raise_if (sf32.is_signan a) FFLAG_INVALID_OP fl)
    else ((a_sign .<< 63) .| (0x7ff .<< 52), fl)
  else if a_exp =? 0 then
    if a_mant =? 0 then (a_sign .<< 63, fl)
    else
      let shift := 23 - (31 - leading_zeros 32 a_mant) in
      let exp := 1 - shift in
      let mant := shl32 a_mant shift .& 0x7fffff in
      let e := u64 (exp - 0x7f + 0x3ff) in
      (shl64 a_sign 63 .| shl64 e 52 .| shl64 mant (52 - 23), fl)
  else
    let e := u32 (a_exp - 0x7f + 0x3ff) in
    (shl64 a_sign 63 .| shl64 e 52 .| shl64 a_mant (52 - 23), fl).

Definition rshift_rnd_u64 (a d : Z) : Z :=
  if d =? 0 then a
  else if 64 <=? d then Z.b2z (negb (a =? 0))
  else
    let mask := (1 .<< d) - 1 in
    (a .>> d) .| Z.b2z (negb ((a .& mask) =? 0)).

(** The local copy of [round_pack] for f32. *)
Definition round_pack_sf32 (sign exp mant rm fl : Z) : Z * Z :=
  let RND_SIZE := 7 in
  let MANT_SIZE := 23 in
  let EXP_MASK := 0xff in
  let MANT_MASK := (1 .<< MANT_SIZE) - 1 in
  let addend :=
    if (rm =? RM_RNE) || (rm =? RM_RMM) then 1 .<< (RND_SIZE - 1)
    else if rm =? RM_RTZ then 0
    else if negb ((sign .^ (rm .& 1)) =? 0) then (1 .<< RND_SIZE) - 1
    else 0 in
  let '(exp, mant, rnd_bits, fl) :=
    if exp <=? 0 then
      let is_subnormal := (exp <? 0) || (u32 (mant + addend) <? (1 .<< 31)) in
      let mant := u32 (rshift_rnd_u64 mant (1 - exp)) in
      let rnd_bits := mant .& ((1 .<< RND_SIZE) - 1) in
      (1, mant, rnd_bits,
       raise_if (is_subnormal && negb (rnd_bits =? 0)) FFLAG_UNDERFLOW fl)
    else (exp, mant, mant .& ((1 .<< RND_SIZE) - 1), fl) in
  let fl := raise_if (negb (rnd_bits =? 0)) FFLAG_INEXACT fl in
  let mant := u32 (mant + addend) .>> RND_SIZE in
  let mant :=
    if (rm =? RM_RNE) && (rnd_bits =? (1 .<< (RND_SIZE - 1))) then mant .&~ 1 else mant in
  let exp := exp + (mant .>> (MANT_SIZE + 1)) in
  if mant <=? MANT_MASK then (sf32.pack sign 0 mant, fl)
  else if EXP_MASK <=? exp then
    let fl := fl .| (FFLAG_OVERFLOW .| FFLAG_INEXACT) in
    if addend =? 0 then (sf32.pack sign (EXP_MASK - 1) MANT_MASK, fl)
    else (sf32.pack sign EXP_MASK 0, fl)
  else (sf32.pack sign exp mant, fl).

Definition normalize_sf32_from (sign exp mant rm fl : Z) : Z * Z :=
  let shift := leading_zeros 32 mant - 1 in
  round_pack_sf32 sign (exp - shift) (shl32 mant shift) rm fl.

Definition cvt_sf64_sf32 (a rm fl : Z) : Z * Z :=
  let a_sign := a .>> 63 in
  let a_exp := (a .>> 52) .& 0x7ff in
  let a_mant := a .& 0xfffffffffffff in
  if a_exp =? 0x7ff then
    if negb (a_mant =? 0) then
      (sf32.QNAN, raise_if (sf64.is_signan a) FFLAG_INVALID_OP fl)
    else (sf32.pack a_sign 0xff 0, fl)
  else if (a_exp =? 0) && (a_mant =? 0) then (sf32.pack a_sign 0 0, fl)
  else
    let '(a_exp, a_mant) :=
      if a_exp =? 0 then
        let shift := 52 - (63 - leading_zeros 64 a_mant) in
        (1 - shift, shl64 a_mant shift)
      else (a_exp, a_mant .| (1 .<< 52)) in
    let exp32 := a_exp - 0x3ff + 0x7f in
    let mant := rshift_rnd_u64 a_mant (52 - 30) in
    normalize_sf32_from a_sign exp32 (u32 mant) rm fl.

Definition cvt_sf64_sf32_rod (a fl : Z) : Z * Z :=
  let '(result, local_flags) := cvt_sf64_sf32 a RM_RTZ 0 in
  let result :=
    if negb ((local_flags .& FFLAG_INEXACT) =? 0) && negb (sf32.is_nan result)
    then result .| 1 else result in
  (result, fl .| local_flags).
