(* ===== verification/Exec.v ===== *)
(** * Instruction execution (cpu.rs)

    The opcode groups of [step], one definition each, integer, atomic,
    floating-point and system.  The body of [step] after the fetch is
    [execute], over the instruction word and the address of the next
    instruction; [Step] has the fetch and the direct RVC decoder. *)

From Stdlib Require Import Floats.SpecFloat.
From S2P Require Import Prelude Exception Decode Compressed Csr State Bus Mmu Trap CsrOps.
From S2P Require Import Vector SoftFp.

Definition xr (c : Cpu) (i : Z) : Z := aget c.(xregs) i.
Definition fr (c : Cpu) (i : Z) : Z := aget c.(fregs) i.
Definition set_fr (i v : Z) (c : Cpu) : Cpu := set_fregs (aset c.(fregs) i v) c.

Definition illegal {S A} (insn : Z) : Hart S A := throw (IllegalInstruction insn).

(** How an instruction body ends: falling through to the common epilogue
    ([pc = next_pc; insn_count += 1; Ok(stop)]), or an early [return Ok(stop)]. *)
Inductive flow : Type :=
| Next (next_pc : Z) (stop : option StopReason)
| Return (stop : option StopReason).

(** ** Integer groups *)

Definition branch_taken (f3 a b : Z) : option bool :=
  if f3 =? 0 then Some (a =? b)
  else if f3 =? 1 then Some (negb (a =? b))
  else if f3 =? 4 then Some (i64 a <? i64 b)
  else if f3 =? 5 then Some (i64 b <=? i64 a)
  else if f3 =? 6 then Some (a <? b)
  else if f3 =? 7 then Some (b <=? a)
  else None.

Definition op_imm_val (insn a : Z) : Z :=
  let imm := u64 (imm_i insn) in
  let shamt := imm .& 0x3f in
  let f3 := funct3 insn in
  if f3 =? 0 then add64 a imm
  else if f3 =? 1 then shl64 a shamt
  else if f3 =? 2 then Z.b2z (i64 a <? i64 imm)
  else if f3 =? 3 then Z.b2z (a <? imm)
  else if f3 =? 4 then a .^ imm
  else if f3 =? 5 then
    if (insn .>> 26) =? 0x10 then u64 (i64 a .>> shamt) else a .>> shamt
  else if f3 =? 6 then a .| imm
  else a .& imm.

Definition op_imm_32_val (insn a : Z) : option Z :=
  let imm := imm_i insn in
  let shamt := imm .& 0x1f in
  let f3 := funct3 insn in
  if f3 =? 0 then Some (add32 a (u32 imm))
  else if f3 =? 1 then Some (shl32 a shamt)
  else if f3 =? 5 then
    Some (if funct7 insn =? 0x20 then u32 (i32 a .>> shamt) else a .>> shamt)
  else None.

Definition op_val (f7 f3 a b : Z) : option Z :=
  let shamt := b .& 0x3f in
  if (f7 =? 0x00) && (f3 =? 0) then Some (add64 a b)
  else if (f7 =? 0x20) && (f3 =? 0) then Some (sub64 a b)
  else if (f7 =? 0x00) && (f3 =? 1) then Some (shl64 a shamt)
  else if (f7 =? 0x00) && (f3 =? 2) then Some (Z.b2z (i64 a <? i64 b))
  else if (f7 =? 0x00) && (f3 =? 3) then Some (Z.b2z (a <? b))
  else if (f7 =? 0x00) && (f3 =? 4) then Some (a .^ b)
  else if (f7 =? 0x00) && (f3 =? 5) then Some (a .>> shamt)
  else if (f7 =? 0x20) && (f3 =? 5) then Some (u64 (i64 a .>> shamt))
  else if (f7 =? 0x00) && (f3 =? 6) then Some (a .| b)
  else if (f7 =? 0x00) && (f3 =? 7) then Some (a .& b)
  else if (f7 =? 0x01) && (f3 =? 0) then Some (mul64 a b)
  else if (f7 =? 0x01) && (f3 =? 1) then Some (u64 (i128 (i64 a * i64 b) .>> 64))
  else if (f7 =? 0x01) && (f3 =? 2) then Some (u64 (i128 (i64 a * b) .>> 64))
  else if (f7 =? 0x01) && (f3 =? 3) then Some (u64 (u128 (a * b) .>> 64))
  else if (f7 =? 0x01) && (f3 =? 4) then
    Some (if i64 b =? 0 then U64_MAX else u64 (Z.quot (i64 a) (i64 b)))
  else if (f7 =? 0x01) && (f3 =? 5) then Some (if b =? 0 then U64_MAX else a / b)
  else if (f7 =? 0x01) && (f3 =? 6) then
    Some (if i64 b =? 0 then u64 (i64 a) else u64 (Z.rem (i64 a) (i64 b)))
  else if (f7 =? 0x01) && (f3 =? 7) then Some (if b =? 0 then a else a mod b)
  else None.

Definition op_32_val (f7 f3 a b : Z) : option Z :=
  let shamt := b .& 0x1f in
  if (f7 =? 0x00) && (f3 =? 0) then Some (add32 a b)
  else if (f7 =? 0x20) && (f3 =? 0) then Some (sub32 a b)
  else if (f7 =? 0x00) && (f3 =? 1) then Some (shl32 a shamt)
  else if (f7 =? 0x00) && (f3 =? 5) then Some (a .>> shamt)
  else if (f7 =? 0x20) && (f3 =? 5) then Some (u32 (i32 a .>> shamt))
  else if (f7 =? 0x01) && (f3 =? 0) then Some (mul32 a b)
  else if (f7 =? 0x01) && (f3 =? 4) then
    Some (if i32 b =? 0 then U32_MAX else u32 (Z.quot (i32 a) (i32 b)))
  else if (f7 =? 0x01) && (f3 =? 5) then Some (if b =? 0 then U32_MAX else a / b)
  else if (f7 =? 0x01) && (f3 =? 6) then
    Some (if i32 b =? 0 then u32 (i32 a) else u32 (Z.rem (i32 a) (i32 b)))
  else if (f7 =? 0x01) && (f3 =? 7) then Some (if b =? 0 then a else a mod b)
  else None.

(** The new memory value of an AMO, from the (sign-extended) old value and the
    source register; [None] for a reserved funct5. *)
Definition amo_val (is64 : bool) (funct5 old src : Z) : option Z :=
  let '(co, cs) := if is64 then (old, src) else (u32 old, u32 src) in
  let signed_lt := if is64 then i64 co <? i64 cs else i32 (u32 co) <? i32 (u32 cs) in
  if funct5 =? 0x01 then Some src
  else if funct5 =? 0x00 then Some (add64 old src)
  else if funct5 =? 0x04 then Some (old .^ src)
  else if funct5 =? 0x0c then Some (old .& src)
  else if funct5 =? 0x08 then Some (old .| src)
  else if funct5 =? 0x10 then Some (if signed_lt then old else src)
  else if funct5 =? 0x14 then Some (if negb signed_lt && negb (co =? cs) then old else src)
  else if funct5 =? 0x18 then Some (if co <? cs then old else src)
  else if funct5 =? 0x1c then Some (if cs <? co then old else src)
  else None.

(** ** Floating point *)

(** Resolve a rounding mode field (0b111 = dynamic via frm). *)
Definition get_rm (c : Cpu) (rm_field : Z) : option Z :=
  let rm := if rm_field =? 7 then (c.(fcsr) .>> 5) .& 7 else rm_field in
  if rm <=? 4 then Some rm else None.

Definition ub32 (r : Z) : Z := if (r .>> 32) =? 0xffffffff then u32 r else 0x7fc00000.
Definition bx32 (v : Z) : Z := 0xffffffff00000000 .| v.
Definition box32 (v : Z) : Z := 0xffffffff00000000 .| v.

(** Host floating point: IEEE 754 round-to-nearest-even on the bit patterns of
    a binary format with [mw] fraction bits and [ew] exponent bits, through the
    Standard Library's [spec_float]. *)
Definition fp_prec (mw : Z) : Z := mw + 1.
Definition fp_emax (ew : Z) : Z := 2 ^ (ew - 1).

Definition fp_from_bits (mw ew bits : Z) : spec_float :=
  let s := Z.testbit bits (mw + ew) in
  let e := (bits .>> mw) .& (2 ^ ew - 1) in
  let m := bits .& (2 ^ mw - 1) in
  if e =? 2 ^ ew - 1 then if m =? 0 then S754_infinity s else S754_nan
  else if e =? 0 then
    match m with
    | Zpos p => S754_finite s p (SpecFloat.emin (fp_prec mw) (fp_emax ew))
    | _ => S754_zero s
    end
  else
    match m + 2 ^ mw with
    | Zpos p => S754_finite s p (e - 1 + SpecFloat.emin (fp_prec mw) (fp_emax ew))
    | _ => S754_zero s
    end.

Definition fp_to_bits (mw ew : Z) (f : spec_float) : Z :=
  let sgn (s : bool) := Z.b2z s .<< (mw + ew) in
  wrap (mw + ew + 1)
  match f with
  | S754_zero s => sgn s
  | S754_infinity s => sgn s .| ((2 ^ ew - 1) .<< mw)
  | S754_nan => ((2 ^ ew - 1) .<< mw) .| (1 .<< (mw - 1))
  | S754_finite s p e =>
      if Zpos p <? 2 ^ mw then sgn s .| Zpos p
      else sgn s .| ((e + 1 - SpecFloat.emin (fp_prec mw) (fp_emax ew)) .<< mw)
             .| (Zpos p - 2 ^ mw)
  end.

Definition host_arith (mw ew op a b : Z) : Z :=
  let fa := fp_from_bits mw ew a in
  let fb := fp_from_bits mw ew b in
  let p := fp_prec mw in
  let em := fp_emax ew in
  fp_to_bits mw ew
    (if op =? 0 then SFadd p em fa fb
     else if op =? 1 then SFsub p em fa fb
     else if op =? 2 then SFmul p em fa fb
     else SFdiv p em fa fb).

Definition fp_fast64 (op a b : Z) : option Z :=
  let ea := (a .>> 52) .& 0x7ff in
  let eb := (b .>> 52) .& 0x7ff in
  if (ea =? 0x7ff) || (eb =? 0x7ff) then None
  else if (op =? 3) && (shl64 b 1 =? 0) then None
  else
    let rb := host_arith 52 11 op a b in
    let er := (rb .>> 52) .& 0x7ff in
    let ok :=
      if (op =? 0) || (op =? 1) then negb (er =? 0x7ff)
      else if op =? 2 then
        ((1 <=? er) && (er <=? 0x7fe))
        || ((shl64 rb 1 =? 0) && ((shl64 a 1 =? 0) || (shl64 b 1 =? 0)))
      else
        ((1 <=? er) && (er <=? 0x7fe)) || ((shl64 rb 1 =? 0) && (shl64 a 1 =? 0)) in
    if ok then Some rb else None.

Definition fp_fast32 (op a b : Z) : option Z :=
  let ea := (a .>> 23) .& 0xff in
  let eb := (b .>> 23) .& 0xff in
  if (ea =? 0xff) || (eb =? 0xff) then None
  else if (op =? 3) && (shl32 b 1 =? 0) then None
  else
    let rb := host_arith 23 8 op a b in
    let er := (rb .>> 23) .& 0xff in
    let ok :=
      if (op =? 0) || (op =? 1) then negb (er =? 0xff)
      else if op =? 2 then
        ((1 <=? er) && (er <=? 0xfe))
        || ((shl32 rb 1 =? 0) && ((shl32 a 1 =? 0) || (shl32 b 1 =? 0)))
      else
        ((1 <=? er) && (er <=? 0xfe)) || ((shl32 rb 1 =? 0) && (shl32 a 1 =? 0)) in
    if ok then Some rb else None.

(** [self.fcsr |= fl & 0x1f]. *)
Definition or_fflags (fl : Z) (c : Cpu) : Cpu := set_fcsr (c.(fcsr) .| (fl .& 0x1f)) c.

(** FADD/FSUB/FMUL/FDIV, the fast path included. *)
Definition fp_arith32 (insn op d s1 s2 f3 : Z) : Hart Cpu unit :=
  c <- gets id ;;
  rm <- ok_or (get_rm c f3) (IllegalInstruction insn) ;;
  let a := ub32 (fr c s1) in
  let b := ub32 (fr c s2) in
  match (if (rm =? RM_RNE) && negb ((c.(fcsr) .& FFLAG_INEXACT) =? 0)
         then fp_fast32 op a b else None) with
  | Some r => modify (set_fr d (bx32 r))
  | None =>
      let '(r, fl) :=
        if op =? 0 then sf32.add a b rm 0
        else if op =? 1 then sf32.sub a b rm 0
        else if op =? 2 then sf32.mul a b rm 0
        else sf32.div a b rm 0 in
      modify (fun c => or_fflags fl (set_fr d (bx32 r) c))
  end.

Definition fp_arith64 (insn op d s1 s2 f3 : Z) : Hart Cpu unit :=
  c <- gets id ;;
  rm <- ok_or (get_rm c f3) (IllegalInstruction insn) ;;
  let a := fr c s1 in
  let b := fr c s2 in
  match (if (rm =? RM_RNE) && negb ((c.(fcsr) .& FFLAG_INEXACT) =? 0)
         then fp_fast64 op a b else None) with
  | Some r => modify (set_fr d r)
  | None =>
      let '(r, fl) :=
        if op =? 0 then sf64.add a b rm 0
        else if op =? 1 then sf64.sub a b rm 0
        else if op =? 2 then sf64.mul a b rm 0
        else sf64.div a b rm 0 in
      modify (fun c => or_fflags fl (set_fr d r c))
  end.

(** Sign injection, min/max, comparison: [None] is an illegal funct3. *)
Definition sgnj32 (f3 a b : Z) : option Z :=
  if f3 =? 0 then Some ((a .& 0x7fffffff) .| (b .& 0x80000000))
  else if f3 =? 1 then Some ((a .& 0x7fffffff) .| ((U32_MAX .&~ b) .& 0x80000000))
  else if f3 =? 2 then Some (a .^ (b .& 0x80000000))
  else None.

Definition sgnj64 (f3 a b : Z) : option Z :=
  let S := 1 .<< 63 in
  if f3 =? 0 then Some ((a .&~ S) .| (b .& S))
  else if f3 =? 1 then Some ((a .&~ S) .| (not64 b .& S))
  else if f3 =? 2 then Some (a .^ (b .& S))
  else None.

Definition fcmp32 (f3 a b : Z) : option (bool * Z) :=
  if f3 =? 2 then Some (sf32.eq_quiet a b 0)
  else if f3 =? 1 then Some (sf32.lt a b 0)
  else if f3 =? 0 then Some (sf32.le a b 0)
  else None.

Definition fcmp64 (f3 a b : Z) : option (bool * Z) :=
  if f3 =? 2 then Some (sf64.eq_quiet a b 0)
  else if f3 =? 1 then Some (sf64.lt a b 0)
  else if f3 =? 0 then Some (sf64.le a b 0)
  else None.

Definition cvt_to_int32 (s2 a rm : Z) : option (Z * Z) :=
  if s2 =? 0 then let '(r, fl) := sf32.cvt_to_i32 a rm 0 false in Some (sext32 r, fl)
  else if s2 =? 1 then let '(r, fl) := sf32.cvt_to_i32 a rm 0 true in Some (sext32 r, fl)
  else if s2 =? 2 then Some (sf32.cvt_to_i64 a rm 0 false)
  else if s2 =? 3 then Some (sf32.cvt_to_i64 a rm 0 true)
  else None.

Definition cvt_to_int64 (s2 a rm : Z) : option (Z * Z) :=
  if s2 =? 0 then let '(r, fl) := sf64.cvt_to_i32 a rm 0 false in Some (sext32 r, fl)
  else if s2 =? 1 then let '(r, fl) := sf64.cvt_to_i32 a rm 0 true in Some (sext32 r, fl)
  else if s2 =? 2 then Some (sf64.cvt_to_i64 a rm 0 false)
  else if s2 =? 3 then Some (sf64.cvt_to_i64 a rm 0 true)
  else None.

Definition cvt_from_int32 (s2 x rm : Z) : option (Z * Z) :=
  if s2 =? 0 then Some (sf32.cvt_from_i32 (u32 x) rm 0 false)
  else if s2 =? 1 then Some (sf32.cvt_from_i32 (u32 x) rm 0 true)
  else if s2 =? 2 then Some (sf32.cvt_from_i64 x rm 0 false)
  else if s2 =? 3 then Some (sf32.cvt_from_i64 x rm 0 true)
  else None.

Definition cvt_from_int64 (s2 x rm : Z) : option (Z * Z) :=
  if s2 =? 0 then Some (sf64.cvt_from_i32 (u32 x) rm 0 false)
  else if s2 =? 1 then Some (sf64.cvt_from_i32 (u32 x) rm 0 true)
  else if s2 =? 2 then Some (sf64.cvt_from_i64 x rm 0 false)
  else if s2 =? 3 then Some (sf64.cvt_from_i64 x rm 0 true)
  else None.

(** Write an FP (resp. integer) result and accumulate the flags; an absent
    result is an illegal instruction. *)
Definition put_f (insn d : Z) (r : option (Z * Z)) : Hart Cpu unit :=
  v <- ok_or r (IllegalInstruction insn) ;;
  modify (fun c => or_fflags (snd v) (set_fr d (fst v) c)).

Definition put_x (insn d : Z) (r : option (Z * Z)) : Hart Cpu unit :=
  v <- ok_or r (IllegalInstruction insn) ;;
  modify (fun c => or_fflags (snd v) (wr d (fst v) c)).

Definition with_flags (fl : Z) (o : option Z) : option (Z * Z) :=
  match o with Some v => Some (v, fl) | None => None end.
Definition box_fst (o : option (Z * Z)) : option (Z * Z) :=
  match o with Some (v, fl) => Some (bx32 v, fl) | None => None end.
Definition b2z_fst (o : option (bool * Z)) : option (Z * Z) :=
  match o with Some (v, fl) => Some (Z.b2z v, fl) | None => None end.

(** OP-FP (opcode 0x53). *)
Definition op_fp (insn : Z) : Hart Cpu unit :=
  let f7 := funct7 insn in
  let fmt := f7 .& 3 in
  let op := f7 .>> 2 in
  let f3 := funct3 insn in
  let d := rd insn in
  let s1 := rs1 insn in
  let s2 := rs2 insn in
  let ill := IllegalInstruction insn in
  c <- gets id ;;
  if (op <=? 3) && (fmt =? 0) then fp_arith32 insn op d s1 s2 f3
  else if (op <=? 3) && (fmt =? 1) then fp_arith64 insn op d s1 s2 f3
  else if (op =? 0x0b) && (fmt =? 0) && (s2 =? 0) then
    rm <- ok_or (get_rm c f3) ill ;;
    r <- unwrap (sf32.sqrt (ub32 (fr c s1)) rm 0) ;;
    put_f insn d (Some (bx32 (fst r), snd r))
  else if (op =? 0x0b) && (fmt =? 1) && (s2 =? 0) then
    rm <- ok_or (get_rm c f3) ill ;;
    r <- unwrap (sf64.sqrt (fr c s1) rm 0) ;;
    put_f insn d (Some r)
  else if (op =? 0x04) && (fmt =? 0) then
    put_f insn d (box_fst (with_flags 0 (sgnj32 f3 (ub32 (fr c s1)) (ub32 (fr c s2)))))
  else if (op =? 0x04) && (fmt =? 1) then
    put_f insn d (with_flags 0 (sgnj64 f3 (fr c s1) (fr c s2)))
  else if (op =? 0x05) && (fmt =? 0) then
    let a := ub32 (fr c s1) in
    let b := ub32 (fr c s2) in
    put_f insn d (box_fst (if f3 =? 0 then Some (sf32.min a b 0)
                           else if f3 =? 1 then Some (sf32.max a b 0) else None))
  else if (op =? 0x05) && (fmt =? 1) then
    let a := fr c s1 in
    let b := fr c s2 in
    put_f insn d (if f3 =? 0 then Some (sf64.min a b 0)
                  else if f3 =? 1 then Some (sf64.max a b 0) else None)
  else if (op =? 0x08) && (fmt =? 0) && (s2 =? 1) then
    rm <- ok_or (get_rm c f3) ill ;;
    put_f insn d (box_fst (Some (cvt_sf64_sf32 (fr c s1) rm 0)))
  else if (op =? 0x08) && (fmt =? 1) && (s2 =? 0) then
    put_f insn d (Some (cvt_sf32_sf64 (ub32 (fr c s1)) 0))
  else if (op =? 0x14) && (fmt =? 0) then
    put_x insn d (b2z_fst (fcmp32 f3 (ub32 (fr c s1)) (ub32 (fr c s2))))
  else if (op =? 0x14) && (fmt =? 1) then
    put_x insn d (b2z_fst (fcmp64 f3 (fr c s1) (fr c s2)))
  else if (op =? 0x18) && (fmt =? 0) then
    rm <- ok_or (get_rm c f3) ill ;;
    put_x insn d (cvt_to_int32 s2 (ub32 (fr c s1)) rm)
  else if (op =? 0x18) && (fmt =? 1) then
    rm <- ok_or (get_rm c f3) ill ;;
    put_x insn d (cvt_to_int64 s2 (fr c s1) rm)
  else if (op =? 0x1a) && (fmt =? 0) then
    rm <- ok_or (get_rm c f3) ill ;;
    put_f insn d (box_fst (cvt_from_int32 s2 (xr c s1) rm))
  else if (op =? 0x1a) && (fmt =? 1) then
    rm <- ok_or (get_rm c f3) ill ;;
    put_f insn d (cvt_from_int64 s2 (xr c s1) rm)
  else if (op =? 0x1c) && (fmt =? 0) && (f3 =? 0) then
    put_x insn d (Some (sext32 (u32 (fr c s1)), 0))
  else if (op =? 0x1c) && (fmt =? 0) && (f3 =? 1) then
    put_x insn d (Some (sf32.fclass (ub32 (fr c s1)), 0))
  else if (op =? 0x1c) && (fmt =? 1) && (f3 =? 0) then put_x insn d (Some (fr c s1, 0))
  else if (op =? 0x1c) && (fmt =? 1) && (f3 =? 1) then
    put_x insn d (Some (sf64.fclass (fr c s1), 0))
  else if (op =? 0x1e) && (fmt =? 0) && (f3 =? 0) then
    put_f insn d (Some (bx32 (u32 (xr c s1)), 0))
  else if (op =? 0x1e) && (fmt =? 1) && (f3 =? 0) then put_f insn d (Some (xr c s1, 0))
  else throw ill.

(** FMADD/FMSUB/FNMSUB/FNMADD. *)
Definition op_fma (insn : Z) : Hart Cpu unit :=
  fp_check insn ;;;
  modify fp_dirty ;;;
  let rs3 := insn .>> 27 in
  let neg_prod := (opcode insn =? 0x4b) || (opcode insn =? 0x4f) in
  let neg_c := (opcode insn =? 0x47) || (opcode insn =? 0x4f) in
  st <- gets id ;;
  rm <- ok_or (get_rm st (funct3 insn)) (IllegalInstruction insn) ;;
  let fmt := (insn .>> 25) .& 3 in
  if fmt =? 0 then
    let a := ub32 (fr st (rs1 insn)) in
    let b := ub32 (fr st (rs2 insn)) in
    let c := ub32 (fr st rs3) in
    let a := if neg_prod then a .^ 0x80000000 else a in
    let c := if neg_c then c .^ 0x80000000 else c in
    let '(r, fl) := sf32.fma a b c rm 0 in
    modify (fun st => or_fflags fl (set_fr (rd insn) (bx32 r) st))
  else if fmt =? 1 then
    let a := fr st (rs1 insn) in
    let b := fr st (rs2 insn) in
    let c := fr st rs3 in
    let a := if neg_prod then a .^ (1 .<< 63) else a in
    let c := if neg_c then c .^ (1 .<< 63) else c in
    let '(r, fl) := sf64.fma a b c rm 0 in
    modify (fun st => or_fflags fl (set_fr (rd insn) r st))
  else illegal insn.

(** ** The decoder *)

(** [self.x[i] = v], for an index known not to be 0. *)
Definition set_xr (i v : Z) (c : Cpu) : Cpu := set_xregs (aset c.(xregs) i v) c.

(** ECALL, EBREAK, MRET, SRET, WFI and SFENCE.VMA: each ends with the address
    of the next instruction and the stop reason, or returns early. *)
Definition exec_ecall (next_pc : Z) : Hart Cpu flow :=
  c <- gets id ;;
  match c.(sys) with
  | Some s =>
      if c.(host_sbi) && mode_eqb s.(mode) Supervisor then ret (Next next_pc (Some Ecall))
      else
        let cause := match s.(mode) with User => 8 | Supervisor => 9 | Machine => 11 end in
        take_trap cause 0 false ;;;
        modify (fun c => set_insn_count (add64 c.(insn_count) 1) c) ;;;
        ret (Return None)
  | None => ret (Next next_pc (Some Ecall))
  end.

Definition exec_ebreak (next_pc : Z) : Hart Cpu flow :=
  c <- gets id ;;
  match c.(sys) with
  | Some _ => throw Breakpoint
  | None => ret (Next next_pc (Some Break))
  end.

Definition mret_sys (s : SysCsrs) : SysCsrs :=
  let mpp := from_bits ((s.(mstatus) .& MSTATUS_MPP) .>> 11) in
  let mpie := (s.(mstatus) .>> 7) .& 1 in
  let s := set_mstatus
    ((s.(mstatus) .&~ (MSTATUS_MIE .| MSTATUS_MPIE .| MSTATUS_MPP))
       .| (mpie .<< 3) .| MSTATUS_MPIE) s in
  let s := if negb (mode_eqb mpp Machine) then set_mstatus (s.(mstatus) .&~ MSTATUS_MPRV) s
           else s in
  set_mode mpp s.

Definition exec_mret (insn : Z) : Hart Cpu flow :=
  modify (set_irq_poll_cd 0) ;;;
  c <- gets id ;;
  s <- ok_or c.(sys) (IllegalInstruction insn) ;;
  if negb (mode_eqb s.(mode) Machine) then illegal insn else
  modify (fun c => privilege_changed (set_sys (Some (mret_sys s)) c)) ;;;
  ret (Next s.(mepc) None).

Definition sret_sys (s : SysCsrs) : SysCsrs :=
  let spp := if negb ((s.(mstatus) .& MSTATUS_SPP) =? 0) then Supervisor else User in
  let spie := (s.(mstatus) .>> 5) .& 1 in
  let s := set_mstatus
    ((s.(mstatus) .&~ (MSTATUS_SIE .| MSTATUS_SPIE .| MSTATUS_SPP))
       .| (spie .<< 1) .| MSTATUS_SPIE) s in
  let s := if negb (mode_eqb spp Machine) then set_mstatus (s.(mstatus) .&~ MSTATUS_MPRV) s
           else s in
  set_mode spp s.

Definition exec_sret (insn : Z) : Hart Cpu flow :=
  modify (set_irq_poll_cd 0) ;;;
  c <- gets id ;;
  s <- ok_or c.(sys) (IllegalInstruction insn) ;;
  if mode_eqb s.(mode) User
     || (mode_eqb s.(mode) Supervisor && negb ((s.(mstatus) .& MSTATUS_TSR) =? 0))
  then illegal insn else
  modify (fun c => privilege_changed (set_sys (Some (sret_sys s)) c)) ;;;
  ret (Next s.(sepc) None).

Definition exec_wfi (insn next_pc : Z) : Hart Cpu flow :=
  c <- gets id ;;
  match c.(sys) with
  | Some s =>
      if mode_eqb s.(mode) User
         || (mode_eqb s.(mode) Supervisor && negb ((s.(mstatus) .& MSTATUS_TW) =? 0))
      then illegal insn
      else ret (Next next_pc (if (s.(mip) .& s.(mie)) =? 0 then Some Wfi else None))
  | None => ret (Next next_pc None)
  end.

Definition exec_sfence_vma (insn next_pc : Z) : Hart Cpu flow :=
  c <- gets id ;;
  (match c.(sys) with
   | Some s =>
       if mode_eqb s.(mode) User
          || (mode_eqb s.(mode) Supervisor && negb ((s.(mstatus) .& MSTATUS_TVM) =? 0))
       then illegal insn else ret tt
   | None => ret tt
   end) ;;;
  let va := if negb (rs1 insn =? 0) then Some (xr c (rs1 insn)) else None in
  let asid := if negb (rs2 insn =? 0) then Some (u16 (xr c (rs2 insn))) else None in
  modify (sfence_vma va asid) ;;;
  ret (Next next_pc None).

(** The value a CSR instruction writes, if it writes. *)
Definition csr_new_value (f3 old src : Z) (src_is_zero : bool) : option Z :=
  if (f3 .& 3) =? 1 then Some src
  else if ((f3 .& 3) =? 2) && negb src_is_zero then Some (old .| src)
  else if ((f3 .& 3) =? 3) && negb src_is_zero then Some (old .&~ src)
  else None.

Definition exec_zicsr (insn next_pc : Z) : Hart Cpu flow :=
  let f3 := funct3 insn in
  let csr := insn .>> 20 in
  (if csr <=? 3 then fp_check insn ;;; modify fp_dirty else ret tt) ;;;
  c <- gets id ;;
  let src := if 5 <=? f3 then rs1 insn else xr c (rs1 insn) in
  old <- ok_or (csr_read c csr) (IllegalInstruction insn) ;;
  let src_is_zero := if 5 <=? f3 then src =? 0 else rs1 insn =? 0 in
  (match csr_new_value f3 old src src_is_zero with
   | Some v => fun c =>
       let '(ok, c') := csr_write csr v c in
       if ok then (Ok tt, c') else (Err (IllegalInstruction insn), c')
   | None => ret tt
   end) ;;;
  modify (wr (rd insn) old) ;;;
  ret (Next next_pc None).

Definition exec_system (insn next_pc : Z) : Hart Cpu flow :=
  let f3 := funct3 insn in
  if insn =? 0x00000073 then exec_ecall next_pc
  else if insn =? 0x00100073 then exec_ebreak next_pc
  else if insn =? 0x30200073 then exec_mret insn
  else if insn =? 0x10200073 then exec_sret insn
  else if insn =? 0x10500073 then exec_wfi insn next_pc
  else if (funct7 insn =? 0x09) && (f3 =? 0) then exec_sfence_vma insn next_pc
  else if ((1 <=? f3) && (f3 <=? 3)) || ((5 <=? f3) && (f3 <=? 7)) then
    exec_zicsr insn next_pc
  else illegal insn.

(** The common epilogue. *)
Definition finish (f : flow) : Hart Cpu (option StopReason) :=
  match f with
  | Next next_pc stop =>
      modify (fun c => set_insn_count (add64 c.(insn_count) 1) (set_pc next_pc c)) ;;;
      ret stop
  | Return stop => ret stop
  end.

Definition is_vector_width (f3 : Z) : bool :=
  (f3 =? 0) || (f3 =? 5) || (f3 =? 6) || (f3 =? 7).

Section Decoder.
Context {B : Type} `{Bus B} `{VectorUnit B}.

Definition hart : (Cpu * B -> Cpu) := fst.

Definition exec_load (insn : Z) : Hart (Cpu * B) unit :=
  c <- gets hart ;;
  let addr := add64 (xr c (rs1 insn)) (u64 (imm_i insn)) in
  let f3 := funct3 insn in
  val <- (if f3 =? 0 then v <- ld 1 addr ;; ret (u64 (i8 v))
          else if f3 =? 1 then v <- ld 2 addr ;; ret (u64 (i16 v))
          else if f3 =? 2 then v <- ld 4 addr ;; ret (sext32 v)
          else if f3 =? 3 then ld 8 addr
          else if f3 =? 4 then ld 1 addr
          else if f3 =? 5 then ld 2 addr
          else if f3 =? 6 then ld 4 addr
          else illegal insn) ;;
  on_fst (modify (wr (rd insn) val)).

Definition exec_store (insn : Z) : Hart (Cpu * B) unit :=
  c <- gets hart ;;
  let addr := add64 (xr c (rs1 insn)) (u64 (imm_s insn)) in
  let val := xr c (rs2 insn) in
  let f3 := funct3 insn in
  if f3 =? 0 then st 1 addr val
  else if f3 =? 1 then st 2 addr val
  else if f3 =? 2 then st 4 addr val
  else if f3 =? 3 then st 8 addr val
  else illegal insn.

(** The [aload!]/[astore!] macros. *)
Definition aload (is64 : bool) (addr : Z) : Hart (Cpu * B) Z :=
  if is64 then ld 8 addr else v <- ld 4 addr ;; ret (sext32 v).

Definition astore (is64 : bool) (addr v : Z) : Hart (Cpu * B) unit :=
  if is64 then st 8 addr v else st 4 addr v.

Definition exec_amo (insn : Z) : Hart (Cpu * B) unit :=
  c <- gets hart ;;
  let addr := xr c (rs1 insn) in
  let src := xr c (rs2 insn) in
  let funct5 := funct7 insn .>> 2 in
  is64 <- (if funct3 insn =? 2 then ret false
           else if funct3 insn =? 3 then ret true else illegal insn) ;;
  if funct5 =? 0x02 then
    v <- aload is64 addr ;;
    on_fst (modify (fun c => wr (rd insn) v (set_reservation (Some addr) c)))
  else if funct5 =? 0x03 then
    (if bool_decide (c.(reservation) = Some addr) then
       astore is64 addr src ;;; on_fst (modify (wr (rd insn) 0))
     else on_fst (modify (wr (rd insn) 1))) ;;;
    on_fst (modify (set_reservation None))
  else
    old <- aload is64 addr ;;
    new <- ok_or (amo_val is64 funct5 old src) (IllegalInstruction insn) ;;
    astore is64 addr new ;;;
    on_fst (modify (wr (rd insn) old)).

Definition vector_memory (insn : Z) (load : bool) : Hart (Cpu * B) unit :=
  if unit_stride_memory_encoding insn then exec_unit_stride_memory_insn insn load
  else exec_vector_memory insn load.

Definition exec_load_fp (insn : Z) : Hart (Cpu * B) unit :=
  if is_vector_width (funct3 insn) then vector_memory insn true else
  on_fst (fp_check insn) ;;;
  on_fst (modify fp_dirty) ;;;
  c <- gets hart ;;
  let addr := add64 (xr c (rs1 insn)) (u64 (imm_i insn)) in
  v <- (if funct3 insn =? 2 then v <- ld 4 addr ;; ret (box32 (u32 v))
        else if funct3 insn =? 3 then ld 8 addr
        else illegal insn) ;;
  on_fst (modify (set_fr (rd insn) v)).

Definition exec_store_fp (insn : Z) : Hart (Cpu * B) unit :=
  if is_vector_width (funct3 insn) then vector_memory insn false else
  on_fst (fp_check insn) ;;;
  c <- gets hart ;;
  let addr := add64 (xr c (rs1 insn)) (u64 (imm_s insn)) in
  let v := fr c (rs2 insn) in
  if funct3 insn =? 2 then st 4 addr v
  else if funct3 insn =? 3 then st 8 addr v
  else illegal insn.

(** The [match opcode(insn)] of [step]. *)
Definition exec_body (insn next_pc : Z) : Hart (Cpu * B) flow :=
  c <- gets hart ;;
  let next := ret (Next next_pc None) in
  let op := opcode insn in
  if op =? 0x37 then on_fst (modify (wr (rd insn) (u64 (imm_u insn)))) ;;; next
  else if op =? 0x17 then
    on_fst (modify (wr (rd insn) (add64 c.(pc) (u64 (imm_u insn))))) ;;; next
  else if op =? 0x6f then
    on_fst (modify (wr (rd insn) next_pc)) ;;;
    ret (Next (add64 c.(pc) (u64 (imm_j insn))) None)
  else if op =? 0x67 then
    let target := add64 (xr c (rs1 insn)) (u64 (imm_i insn)) .&~ 1 in
    on_fst (modify (wr (rd insn) next_pc)) ;;;
    ret (Next target None)
  else if op =? 0x63 then
    taken <- ok_or (branch_taken (funct3 insn) (xr c (rs1 insn)) (xr c (rs2 insn)))
               (IllegalInstruction insn) ;;
    ret (Next (if taken : bool then add64 c.(pc) (u64 (imm_b insn)) else next_pc) None)
  else if op =? 0x03 then exec_load insn ;;; next
  else if op =? 0x23 then exec_store insn ;;; next
  else if op =? 0x13 then
    on_fst (modify (wr (rd insn) (op_imm_val insn (xr c (rs1 insn))))) ;;; next
  else if op =? 0x1b then
    v <- ok_or (op_imm_32_val insn (u32 (xr c (rs1 insn)))) (IllegalInstruction insn) ;;
    on_fst (modify (wr (rd insn) (sext32 v))) ;;; next
  else if op =? 0x33 then
    v <- ok_or (op_val (funct7 insn) (funct3 insn) (xr c (rs1 insn)) (xr c (rs2 insn)))
           (IllegalInstruction insn) ;;
    on_fst (modify (wr (rd insn) v)) ;;; next
  else if op =? 0x3b then
    v <- ok_or (op_32_val (funct7 insn) (funct3 insn)
                  (u32 (xr c (rs1 insn))) (u32 (xr c (rs2 insn))))
           (IllegalInstruction insn) ;;
    on_fst (modify (wr (rd insn) (sext32 v))) ;;; next
  else if op =? 0x2f then exec_amo insn ;;; next
  else if op =? 0x07 then exec_load_fp insn ;;; next
  else if op =? 0x27 then exec_store_fp insn ;;; next
  else if op =? 0x57 then
    (if funct3 insn =? 7 then on_fst (exec_vector_config insn)
     else on_fst (exec_vector_op (B := B) insn)) ;;; next
  else if (op =? 0x43) || (op =? 0x47) || (op =? 0x4b) || (op =? 0x4f) then
    on_fst (op_fma insn) ;;; next
  else if op =? 0x53 then
    on_fst (fp_check insn) ;;; on_fst (modify fp_dirty) ;;; on_fst (op_fp insn) ;;; next
  else if op =? 0x0f then next
  else if op =? 0x73 then on_fst (exec_system insn next_pc)
  else illegal insn.

(** [step] after the fetch: decode, execute and retire [insn]. *)
Definition execute (insn next_pc : Z) : Hart (Cpu * B) (option StopReason) :=
  f <- exec_body insn next_pc ;; on_fst (finish f).

Definition jit_exec_vector (insn : Z) : Hart (Cpu * B) unit :=
  let op := opcode insn in
  if (op =? 0x07) && is_vector_width (funct3 insn) then vector_memory insn true
  else if (op =? 0x27) && is_vector_width (funct3 insn) then vector_memory insn false
  else if (op =? 0x57) && (funct3 insn =? 7) then on_fst (exec_vector_config insn)
  else if op =? 0x57 then on_fst (exec_vector_op (B := B) insn)
  else illegal insn.
End Decoder.

Definition enable_system (hartid : Z) (c : Cpu) : Cpu :=
  set_interpreter_fetch_tag TLB_INVALID
    (set_sys (Some (set_mhartid hartid SysCsrs_new)) c).

Definition enable_host_sbi (c : Cpu) : Cpu := set_host_sbi true c.
