(* ===== verification/Step.v ===== *)
(** * The direct RVC decoder and [step] (cpu.rs)

    [step_compressed] executes a 16-bit instruction without expanding it;
    [step] fetches, and hands the instruction to it or to [execute]. *)

From S2P Require Import Prelude Exception Decode Compressed Csr State Bus Mmu Trap CsrOps.
From S2P Require Import Vector Exec.

Definition compressed_register (field : Z) : Z := field + 8.

Definition compressed_sext (value bits : Z) : Z :=
  i32 (shl32 value (32 - bits)) .>> (32 - bits).

(** Immediate layouts that several instructions share. *)
Definition ci_imm (c : Z) : Z := (((c .>> 12) .& 1) .<< 5) .| ((c .>> 2) .& 0x1f).
Definition cl_imm_d (c : Z) : Z := (((c .>> 10) .& 7) .<< 3) .| (((c .>> 5) .& 3) .<< 6).
Definition cl_imm_w (c : Z) : Z :=
  (((c .>> 10) .& 7) .<< 3) .| (((c .>> 6) .& 1) .<< 2) .| (((c .>> 5) .& 1) .<< 6).
Definition ci_imm_dsp (c : Z) : Z :=
  (((c .>> 12) .& 1) .<< 5) .| (((c .>> 5) .& 3) .<< 3) .| (((c .>> 2) .& 7) .<< 6).
Definition css_imm_d (c : Z) : Z := (((c .>> 10) .& 7) .<< 3) .| (((c .>> 7) .& 7) .<< 6).

(** [expand(instruction).expect(..)]. *)
Definition expand_expect {S} (c : Z) : Hart S Z :=
  match expand c with Some (Some e) => ret e | _ => panic end.

Section StepCompressed.
Context {B : Type} `{Bus B} `{VectorUnit B}.

Definition step_compressed_q0 (c f3 next_pc : Z) : Hart (Cpu * B) flow :=
  let rd := compressed_register ((c .>> 2) .& 7) in
  let rs1 := compressed_register ((c .>> 7) .& 7) in
  let next := ret (Next next_pc None) in
  h <- gets hart ;;
  if f3 =? 0 then
    let immediate := (((c .>> 11) .& 3) .<< 4)
                       .| (((c .>> 7) .& 0xf) .<< 6)
                       .| (((c .>> 6) .& 1) .<< 2)
                       .| (((c .>> 5) .& 1) .<< 3) in
    if immediate =? 0 then illegal c else
    on_fst (modify (wr rd (add64 (xr h 2) immediate))) ;;; next
  else if f3 =? 1 then
    expanded <- expand_expect c ;;
    on_fst (fp_check expanded) ;;;
    on_fst (modify fp_dirty) ;;;
    v <- ld 8 (add64 (xr h rs1) (cl_imm_d c)) ;;
    on_fst (modify (set_fr rd v)) ;;; next
  else if f3 =? 2 then
    value <- ld 4 (add64 (xr h rs1) (cl_imm_w c)) ;;
    on_fst (modify (wr rd (sext32 (u32 value)))) ;;; next
  else if f3 =? 3 then
    value <- ld 8 (add64 (xr h rs1) (cl_imm_d c)) ;;
    on_fst (modify (wr rd value)) ;;; next
  else if f3 =? 5 then
    expanded <- expand_expect c ;;
    on_fst (fp_check expanded) ;;;
    st 8 (add64 (xr h rs1) (cl_imm_d c)) (fr h rd) ;;; next
  else if f3 =? 6 then
    st 4 (add64 (xr h rs1) (cl_imm_w c)) (xr h rd) ;;; next
  else if f3 =? 7 then
    st 8 (add64 (xr h rs1) (cl_imm_d c)) (xr h rd) ;;; next
  else illegal c.

(** The register-register and shift group of quadrant 1 ([f3 = 0b100]): the
    new value of [rd'], [None] when reserved. *)
Definition step_compressed_alu (c : Z) (h : Cpu) : option Z :=
  let a := xr h (compressed_register ((c .>> 7) .& 7)) in
  let immediate := compressed_sext (ci_imm c) 6 in
  let sel := (c .>> 10) .& 3 in
  if sel =? 0 then Some (a .>> ci_imm c)
  else if sel =? 1 then Some (u64 (i64 a .>> ci_imm c))
  else if sel =? 2 then Some (a .& u64 immediate)
  else
    let b := xr h (compressed_register ((c .>> 2) .& 7)) in
    let k := (((c .>> 12) .& 1) .<< 2) .| ((c .>> 5) .& 3) in
    if k =? 0 then Some (sub64 a b)
    else if k =? 1 then Some (a .^ b)
    else if k =? 2 then Some (a .| b)
    else if k =? 3 then Some (a .& b)
    else if k =? 4 then Some (sext32 (sub32 (u32 a) (u32 b)))
    else if k =? 5 then Some (sext32 (add32 (u32 a) (u32 b)))
    else None.

Definition step_compressed_q1 (c f3 next_pc : Z) : Hart (Cpu * B) flow :=
  let rd := (c .>> 7) .& 0x1f in
  let immediate := compressed_sext (ci_imm c) 6 in
  let next := ret (Next next_pc None) in
  h <- gets hart ;;
  if f3 =? 0 then
    on_fst (modify (wr rd (add64 (xr h rd) (u64 immediate)))) ;;; next
  else if f3 =? 1 then
    if rd =? 0 then illegal c else
    on_fst (modify (wr rd (sext32 (add32 (u32 (xr h rd)) (u32 immediate))))) ;;; next
  else if f3 =? 2 then on_fst (modify (wr rd (u64 immediate))) ;;; next
  else if f3 =? 3 then
    if rd =? 2 then
      let value := compressed_sext ((((c .>> 12) .& 1) .<< 9)
                                      .| (((c .>> 6) .& 1) .<< 4)
                                      .| (((c .>> 5) .& 1) .<< 6)
                                      .| (((c .>> 3) .& 3) .<< 7)
                                      .| (((c .>> 2) .& 1) .<< 5)) 10 in
      if value =? 0 then illegal c else
      on_fst (modify (set_xr 2 (add64 (xr h 2) (u64 value)))) ;;; next
    else
      if immediate =? 0 then illegal c else
      on_fst (modify (wr rd (u64 (immediate .<< 12)))) ;;; next
  else if f3 =? 4 then
    v <- ok_or (step_compressed_alu c h) (IllegalInstruction c) ;;
    on_fst (modify (set_xr (compressed_register ((c .>> 7) .& 7)) v)) ;;; next
  else if f3 =? 5 then
    let immediate := compressed_sext ((((c .>> 12) .& 1) .<< 11)
                                        .| (((c .>> 11) .& 1) .<< 4)
                                        .| (((c .>> 9) .& 3) .<< 8)
                                        .| (((c .>> 8) .& 1) .<< 10)
                                        .| (((c .>> 7) .& 1) .<< 6)
                                        .| (((c .>> 6) .& 1) .<< 7)
                                        .| (((c .>> 3) .& 7) .<< 1)
                                        .| (((c .>> 2) .& 1) .<< 5)) 12 in
    ret (Next (add64 h.(pc) (u64 immediate)) None)
  else if (f3 =? 6) || (f3 =? 7) then
    let rs1 := compressed_register ((c .>> 7) .& 7) in
    let immediate := compressed_sext ((((c .>> 12) .& 1) .<< 8)
                                        .| (((c .>> 10) .& 3) .<< 3)
                                        .| (((c .>> 5) .& 3) .<< 6)
                                        .| (((c .>> 3) .& 3) .<< 1)
                                        .| (((c .>> 2) .& 1) .<< 5)) 9 in
    let taken := if f3 =? 6 then xr h rs1 =? 0 else negb (xr h rs1 =? 0) in
    ret (Next (if taken then add64 h.(pc) (u64 immediate) else next_pc) None)
  else illegal c.

Definition step_compressed_q2 (c f3 next_pc : Z) : Hart (Cpu * B) flow :=
  let rd := (c .>> 7) .& 0x1f in
  let rs2 := (c .>> 2) .& 0x1f in
  let next := ret (Next next_pc None) in
  h <- gets hart ;;
  if f3 =? 0 then on_fst (modify (wr rd (shl64 (xr h rd) (ci_imm c)))) ;;; next
  else if f3 =? 1 then
    expanded <- expand_expect c ;;
    on_fst (fp_check expanded) ;;;
    on_fst (modify fp_dirty) ;;;
    v <- ld 8 (add64 (xr h 2) (ci_imm_dsp c)) ;;
    on_fst (modify (set_fr rd v)) ;;; next
  else if f3 =? 2 then
    if rd =? 0 then illegal c else
    let immediate := (((c .>> 12) .& 1) .<< 5) .| (((c .>> 4) .& 7) .<< 2)
                       .| (((c .>> 2) .& 3) .<< 6) in
    value <- ld 4 (add64 (xr h 2) immediate) ;;
    on_fst (modify (wr rd (sext32 (u32 value)))) ;;; next
  else if f3 =? 3 then
    if rd =? 0 then illegal c else
    value <- ld 8 (add64 (xr h 2) (ci_imm_dsp c)) ;;
    on_fst (modify (wr rd value)) ;;; next
  else if f3 =? 4 then
    let bit12 := (c .>> 12) .& 1 in
    if (bit12 =? 0) && (rd =? 0) then illegal c
    else if (bit12 =? 0) && (rs2 =? 0) then ret (Next (xr h rd .&~ 1) None)
    else if bit12 =? 0 then on_fst (modify (wr rd (xr h rs2))) ;;; next
    else if (bit12 =? 1) && (rd =? 0) && (rs2 =? 0) then
      match h.(sys) with
      | Some _ => throw Breakpoint
      | None => ret (Next next_pc (Some Break))
      end
    else if (bit12 =? 1) && (rs2 =? 0) then
      let target := xr h rd .&~ 1 in
      on_fst (modify (set_xr 1 next_pc)) ;;; ret (Next target None)
    else if bit12 =? 1 then
      on_fst (modify (wr rd (add64 (xr h rd) (xr h rs2)))) ;;; next
    else panic
  else if f3 =? 5 then
    expanded <- expand_expect c ;;
    on_fst (fp_check expanded) ;;;
    st 8 (add64 (xr h 2) (css_imm_d c)) (fr h rs2) ;;; next
  else if f3 =? 6 then
    let immediate := (((c .>> 9) .& 0xf) .<< 2) .| (((c .>> 7) .& 3) .<< 6) in
    st 4 (add64 (xr h 2) immediate) (xr h rs2) ;;; next
  else if f3 =? 7 then
    st 8 (add64 (xr h 2) (css_imm_d c)) (xr h rs2) ;;; next
  else illegal c.

(** Execute one RV64C instruction directly. *)
Definition step_compressed (c : Z) : Hart (Cpu * B) (option StopReason) :=
  if c =? 0 then illegal c else
  let f3 := (c .>> 13) .& 7 in
  h <- gets hart ;;
  let next_pc := add64 h.(pc) 2 in
  let q := c .& 3 in
  f <- (if q =? 0 then step_compressed_q0 c f3 next_pc
        else if q =? 1 then step_compressed_q1 c f3 next_pc
        else if q =? 2 then step_compressed_q2 c f3 next_pc
        else panic) ;;
  on_fst (finish f).

(** Execute one instruction. *)
Definition step : Hart (Cpu * B) (option StopReason) :=
  h <- gets hart ;;
  pa <- translate h.(pc) Fetch ;;
  lo <- on_snd (fetch16 pa) ;;
  if negb ((lo .& 3) =? 3) then step_compressed (u16 lo) else
  let pc2 := add64 h.(pc) 2 in
  pa2 <- (if (pc2 .& 0xfff) =? 0 then translate pc2 Fetch else ret (add64 pa 2)) ;;
  hi <- on_snd (fetch16 pa2) ;;
  let insn := lo .| (shl32 hi 16) in
  execute insn (add64 h.(pc) 4).
End StepCompressed.
