(* ===== verification/T0.v ===== *)
(** * The integrated scalar Tier-0 decoder (cpu.rs)

    [scalar_t0_step] and [scalar_t0_compressed] execute the common instruction
    families with the program counter in a local, fetching through a
    slice-local executable-page capability; every other family is [Slow]. *)

From S2P Require Import Prelude Exception Decode Compressed Csr State Bus Mmu Trap CsrOps.
From S2P Require Import Vector Exec Step.

Inductive ScalarT0Step : Type :=
| Retired (next_pc : Z)
| Stop (next_pc : Z) (stop : StopReason)
| Slow.

Record ScalarFetchCapability : Type := mkCap { cap_tag : Z; pa_diff : Z; linear_off : Z }.

Definition cap_invalid : ScalarFetchCapability := mkCap TLB_INVALID 0 0.
Definition cap_drop (f : ScalarFetchCapability) : ScalarFetchCapability :=
  mkCap TLB_INVALID f.(pa_diff) f.(linear_off).

Section T0.
Context {B : Type} `{Bus B} `{VectorUnit B}.

(** [core::ptr::read_unaligned] of a halfword at a host address. *)
Definition read_host16 (address : Z) : Hart (Cpu * B) Z :=
  gets (fun '(_, b) => host_load 2 address b).

(** The fetches return the physical address, the halfword, the host address
    of a direct fetch, and the capability ([&mut] in the source). *)
Definition scalar_fetch16_slow (va tag : Z) (cap : ScalarFetchCapability) :
    Hart (Cpu * B) (Z * Z * option Z * ScalarFetchCapability) :=
  pa <- translate va Fetch ;;
  off <- gets (fun '(_, b) => jit_fast_off b va pa false) ;;
  match off with
  | Some offset =>
      let address := add64 va (u64 offset) in
      instruction <- read_host16 address ;;
      ret (pa, instruction, Some address, mkCap tag (sub64 pa va) offset)
  | None =>
      instruction <- on_snd (fetch16 pa) ;;
      ret (pa, instruction, None, cap)
  end.

Definition scalar_fetch16 (va context : Z) (cap : ScalarFetchCapability) :
    Hart (Cpu * B) (Z * Z * option Z * ScalarFetchCapability) :=
  let tag := (va .& TLB_PAGE_MASK) .| context in
  if cap.(cap_tag) =? tag then
    let address := add64 va (u64 cap.(linear_off)) in
    instruction <- read_host16 address ;;
    ret (add64 va cap.(pa_diff), instruction, Some address, cap)
  else scalar_fetch16_slow va tag cap.

(** ** RVC forms *)

Definition scalar_t0_compressed_q0 (c f3 next_pc : Z) : Hart (Cpu * B) ScalarT0Step :=
  let rd := compressed_register ((c .>> 2) .& 7) in
  let rs1 := compressed_register ((c .>> 7) .& 7) in
  let next := ret (Retired next_pc) in
  h <- gets hart ;;
  if f3 =? 0 then
    let immediate := (((c .>> 11) .& 3) .<< 4)
                       .| (((c .>> 7) .& 0xf) .<< 6)
                       .| (((c .>> 6) .& 1) .<< 2)
                       .| (((c .>> 5) .& 1) .<< 3) in
    if immediate =? 0 then illegal c else
    on_fst (modify (wr rd (add64 (xr h 2) immediate))) ;;; next
  else if (f3 =? 1) || (f3 =? 5) then ret Slow
  else if f3 =? 2 then
    value <- ld 4 (add64 (xr h rs1) (cl_imm_w c)) ;;
    on_fst (modify (wr rd (sext32 (u32 value)))) ;;; next
  else if f3 =? 3 then
    value <- ld 8 (add64 (xr h rs1) (cl_imm_d c)) ;;
    on_fst (modify (wr rd value)) ;;; next
  else if f3 =? 6 then
    st 4 (add64 (xr h rs1) (cl_imm_w c)) (xr h rd) ;;; next
  else if f3 =? 7 then
    st 8 (add64 (xr h rs1) (cl_imm_d c)) (xr h rd) ;;; next
  else illegal c.

Definition scalar_t0_compressed_q1 (c f3 pc next_pc : Z) : Hart (Cpu * B) ScalarT0Step :=
  let rd := (c .>> 7) .& 0x1f in
  let immediate := compressed_sext (ci_imm c) 6 in
  let next := ret (Retired next_pc) in
  h <- gets hart ;;
  if f3 =? 0 then
    on_fst (modify (wr rd (add64 (xr h rd) (u64 immediate)))) ;;; next
  else if f3 =? 1 then
    if rd =? 0 then illegal c else
    on_fst (modify (wr rd (sext32 (add32 (u32 (xr h rd)) (u32 immediate))))) ;;; next
  else if f3 =? 2 then on_fst (modify (wr rd (u64 immediate))) ;;; next
  else if f3 =? 3 then
    if rd =? 2 then
      let value := compressed_sext ((((c .>> 12) .& 1) .<< 9)
                                      .| (((c .>> 6) .& 1) .<< 4)
                                      .| (((c .>> 5) .& 1) .<< 6)
                                      .| (((c .>> 3) .& 3) .<< 7)
                                      .| (((c .>> 2) .& 1) .<< 5)) 10 in
      if value =? 0 then illegal c else
      on_fst (modify (set_xr 2 (add64 (xr h 2) (u64 value)))) ;;; next
    else
      if immediate =? 0 then illegal c else
      on_fst (modify (wr rd (u64 (immediate .<< 12)))) ;;; next
  else if f3 =? 4 then
    v <- ok_or (step_compressed_alu c h) (IllegalInstruction c) ;;
    on_fst (modify (set_xr (compressed_register ((c .>> 7) .& 7)) v)) ;;; next
  else if f3 =? 5 then
    let immediate := compressed_sext ((((c .>> 12) .& 1) .<< 11)
                                        .| (((c .>> 11) .& 1) .<< 4)
                                        .| (((c .>> 9) .& 3) .<< 8)
                                        .| (((c .>> 8) .& 1) .<< 10)
                                        .| (((c .>> 7) .& 1) .<< 6)
                                        .| (((c .>> 6) .& 1) .<< 7)
                                        .| (((c .>> 3) .& 7) .<< 1)
                                        .| (((c .>> 2) .& 1) .<< 5)) 12 in
    ret (Retired (add64 pc (u64 immediate)))
  else if (f3 =? 6) || (f3 =? 7) then
    let rs1 := compressed_register ((c .>> 7) .& 7) in
    let immediate := compressed_sext ((((c .>> 12) .& 1) .<< 8)
                                        .| (((c .>> 10) .& 3) .<< 3)
                                        .| (((c .>> 5) .& 3) .<< 6)
                                        .| (((c .>> 3) .& 3) .<< 1)
                                        .| (((c .>> 2) .& 1) .<< 5)) 9 in
    let taken := if f3 =? 6 then xr h rs1 =? 0 else negb (xr h rs1 =? 0) in
    ret (Retired (if taken then add64 pc (u64 immediate) else next_pc))
  else illegal c.

Definition scalar_t0_compressed_q2 (c f3 next_pc : Z) : Hart (Cpu * B) ScalarT0Step :=
  let rd := (c .>> 7) .& 0x1f in
  let rs2 := (c .>> 2) .& 0x1f in
  let next := ret (Retired next_pc) in
  h <- gets hart ;;
  if f3 =? 0 then on_fst (modify (wr rd (shl64 (xr h rd) (ci_imm c)))) ;;; next
  else if (f3 =? 1) || (f3 =? 5) then ret Slow
  else if f3 =? 2 then
    if rd =? 0 then illegal c else
    let immediate := (((c .>> 12) .& 1) .<< 5) .| (((c .>> 4) .& 7) .<< 2)
                       .| (((c .>> 2) .& 3) .<< 6) in
    value <- ld 4 (add64 (xr h 2) immediate) ;;
    on_fst (modify (wr rd (sext32 (u32 value)))) ;;; next
  else if f3 =? 3 then
    if rd =? 0 then illegal c else
    value <- ld 8 (add64 (xr h 2) (ci_imm_dsp c)) ;;
    on_fst (modify (wr rd value)) ;;; next
  else if f3 =? 4 then
    let bit12 := (c .>> 12) .& 1 in
    if (bit12 =? 0) && (rd =? 0) then illegal c
    else if (bit12 =? 0) && (rs2 =? 0) then ret (Retired (xr h rd .&~ 1))
    else if bit12 =? 0 then on_fst (modify (wr rd (xr h rs2))) ;;; next
    else if (bit12 =? 1) && (rd =? 0) && (rs2 =? 0) then
      match h.(sys) with
      | Some _ => throw Breakpoint
      | None => ret (Stop next_pc Break)
      end
    else if (bit12 =? 1) && (rs2 =? 0) then
      let target := xr h rd .&~ 1 in
      on_fst (modify (set_xr 1 next_pc)) ;;; ret (Retired target)
    else if bit12 =? 1 then
      on_fst (modify (wr rd (add64 (xr h rd) (xr h rs2)))) ;;; next
    else panic
  else if f3 =? 6 then
    let immediate := (((c .>> 9) .& 0xf) .<< 2) .| (((c .>> 7) .& 3) .<< 6) in
    st 4 (add64 (xr h 2) immediate) (xr h rs2) ;;; next
  else if f3 =? 7 then
    st 8 (add64 (xr h 2) (css_imm_d c)) (xr h rs2) ;;; next
  else illegal c.

Definition scalar_t0_compressed (c pc : Z) : Hart (Cpu * B) ScalarT0Step :=
  if c =? 0 then illegal c else
  let f3 := (c .>> 13) .& 7 in
  let next_pc := add64 pc 2 in
  let q := c .& 3 in
  if q =? 0 then scalar_t0_compressed_q0 c f3 next_pc
  else if q =? 1 then scalar_t0_compressed_q1 c f3 pc next_pc
  else if q =? 2 then scalar_t0_compressed_q2 c f3 next_pc
  else panic.

(** ** 32-bit forms *)

(** The [match opcode(insn)] of [scalar_t0_step]. *)
Definition scalar_t0_body (insn pc : Z) : Hart (Cpu * B) ScalarT0Step :=
  let next_pc := add64 pc 4 in
  c <- gets hart ;;
  let next := ret (Retired next_pc) in
  let op := opcode insn in
  if op =? 0x37 then on_fst (modify (wr (rd insn) (u64 (imm_u insn)))) ;;; next
  else if op =? 0x17 then
    on_fst (modify (wr (rd insn) (add64 pc (u64 (imm_u insn))))) ;;; next
  else if op =? 0x6f then
    on_fst (modify (wr (rd insn) next_pc)) ;;; ret (Retired (add64 pc (u64 (imm_j insn))))
  else if op =? 0x67 then
    let target := add64 (xr c (rs1 insn)) (u64 (imm_i insn)) .&~ 1 in
    on_fst (modify (wr (rd insn) next_pc)) ;;; ret (Retired target)
  else if op =? 0x63 then
    taken <- ok_or (branch_taken (funct3 insn) (xr c (rs1 insn)) (xr c (rs2 insn)))
               (IllegalInstruction insn) ;;
    ret (Retired (if taken : bool then add64 pc (u64 (imm_b insn)) else next_pc))
  else if op =? 0x03 then exec_load insn ;;; next
  else if op =? 0x23 then exec_store insn ;;; next
  else if op =? 0x13 then
    on_fst (modify (wr (rd insn) (op_imm_val insn (xr c (rs1 insn))))) ;;; next
  else if op =? 0x1b then
    v <- ok_or (op_imm_32_val insn (u32 (xr c (rs1 insn)))) (IllegalInstruction insn) ;;
    on_fst (modify (wr (rd insn) (sext32 v))) ;;; next
  else if op =? 0x33 then
    v <- ok_or (op_val (funct7 insn) (funct3 insn) (xr c (rs1 insn)) (xr c (rs2 insn)))
           (IllegalInstruction insn) ;;
    on_fst (modify (wr (rd insn) v)) ;;; next
  else if op =? 0x3b then
    v <- ok_or (op_32_val (funct7 insn) (funct3 insn)
                  (u32 (xr c (rs1 insn))) (u32 (xr c (rs2 insn))))
           (IllegalInstruction insn) ;;
    on_fst (modify (wr (rd insn) (sext32 v))) ;;; next
  else if (op =? 0x07) && is_vector_width (funct3 insn) then
    vector_memory insn true ;;; next
  else if (op =? 0x27) && is_vector_width (funct3 insn) then
    vector_memory insn false ;;; next
  else if op =? 0x57 then
    (if funct3 insn =? 7 then on_fst (exec_vector_config insn)
     else on_fst (exec_vector_op (B := B) insn)) ;;; next
  else ret Slow.

(** An exception leaves with the capability as it is at that point. *)
Definition with_cap {A} (f : ScalarFetchCapability) (m : Hart (Cpu * B) A) :
    M (Exception * ScalarFetchCapability) (Cpu * B) A :=
  map_err (fun e => (e, f)) m.

Definition scalar_t0_step (pc fetch_context : Z) (fetch : ScalarFetchCapability) :
    M (Exception * ScalarFetchCapability) (Cpu * B) (ScalarT0Step * ScalarFetchCapability) :=
  r <- with_cap fetch (scalar_fetch16 pc fetch_context fetch) ;;
  let '(pa, lo, linear_fetch, fetch) := r in
  if negb ((lo .& 3) =? 3) then
    s <- with_cap fetch (scalar_t0_compressed (u16 lo) pc) ;; ret (s, fetch)
  else
    let pc2 := add64 pc 2 in
    r <- with_cap fetch
           (if (pc2 .& 0xfff) =? 0 then
              r <- scalar_fetch16 pc2 fetch_context fetch ;;
              let '(_, hi, _, fetch) := r in ret (hi, fetch)
            else match linear_fetch with
                 | Some address => hi <- read_host16 (add64 address 2) ;; ret (hi, fetch)
                 | None => hi <- on_snd (fetch16 (add64 pa 2)) ;; ret (hi, fetch)
                 end) ;;
    let '(hi, fetch) := r in
    s <- with_cap fetch (scalar_t0_body (lo .| shl32 hi 16) pc) ;; ret (s, fetch).
End T0.
