(* ===== verification/Run.v ===== *)
(** * The drivers (cpu.rs [run] and its variants)

    The reference loop [run], its variants with a stop predicate, an observer
    or a trace, and the integrated Tier-0 loop, which keeps the program counter
    and the retirement count in locals.  A budget is a number of loop
    iterations, so the loops are structural in it.  The callbacks of the source
    are [FnMut] closures: functions over an explicit environment [U]. *)

From S2P Require Import Prelude Exception Csr State Bus Mmu Trap CsrOps Vector Exec Step T0.

(** ** The generated-code entry map *)

(** [usize::count_ones] and [usize::trailing_zeros]. *)
Definition count_ones (x : Z) : Z :=
  Z.of_nat (length (filter (fun i => Z.testbit x (Z.of_nat i) = true) (seq 0 64))).
Definition trailing_zeros (x : Z) : Z := if x =? 0 then 64 else Z.log2 (x .& (- x)).

Definition compiled_entry_slot (pc slot_mask : Z) : Z :=
  let fold_shift := count_ones slot_mask + 1 in
  ((pc .>> 1) .^ (pc .>> fold_shift)) .& slot_mask.

(** [tags] is the sequence of [u64] words the pointer covers. *)
Record CompiledEntryMap : Type := mkEntryMap {
  tags : list Z; slot_mask : Z; stride_words : Z; fold_shift : Z;
  require_nonnegative_index : bool
}.

Definition from_strided_pc_tags (tags : list Z) (slots stride_words : Z) : CompiledEntryMap :=
  {| tags := tags; slot_mask := slots - 1; stride_words := stride_words;
     fold_shift := trailing_zeros slots + 1; require_nonnegative_index := false |}.

Definition from_strided_dispatch_lines (tags : list Z) (slots stride_words : Z)
    : CompiledEntryMap :=
  let map := from_strided_pc_tags tags slots stride_words in
  mkEntryMap map.(Run.tags) map.(slot_mask) map.(Run.stride_words) map.(fold_shift) true.

Definition contains (m : CompiledEntryMap) (pc : Z) : bool :=
  let slot := ((pc .>> 1) .^ (pc .>> m.(fold_shift))) .& m.(slot_mask) in
  let line := slot * m.(stride_words) in
  (aget m.(tags) line =? pc)
  && (negb m.(require_nonnegative_index) || (0 <=? i32 (u32 (aget m.(tags) (line + 1))))).

Record InstructionTrace : Type := mkTrace {
  icount : Z; t_va : Z; t_pa : Z; t_next_va : Z; t_satp : Z; t_mode : Z; t_ilen : Z
}.

Definition commit_scalar_t0_state (pc retired : Z) (c : Cpu) : Cpu :=
  set_insn_count (add64 c.(insn_count) retired) (set_pc pc c).

Definition publish_scalar_fetch_capability (cap : ScalarFetchCapability) (c : Cpu) : Cpu :=
  let c := set_interpreter_fetch_tag cap.(cap_tag) c in
  let c := set_interpreter_fetch_map_gen c.(map_gen) c in
  let c := set_interpreter_fetch_pa_diff cap.(pa_diff) c in
  set_interpreter_fetch_linear_off cap.(linear_off) c.

(** [self.sys.as_ref().map_or(0, |sys| sys.mode as u64)]. *)
Definition fetch_mode (c : Cpu) : Z :=
  match c.(sys) with None => 0 | Some s => mode_bits s.(mode) end.

(** [map_or((0, u8::MAX), |sys| (sys.satp, sys.mode as u8))]. *)
Definition satp_mode (c : Cpu) : Z * Z :=
  match c.(sys) with None => (0, 255) | Some s => (s.(satp), mode_bits s.(mode)) end.

Definition checked_add_is (a n b : Z) : bool := (a + n <=? U64_MAX) && (a + n =? b).

Section Drivers.
Context {B : Type} `{Bus B} `{VectorUnit B}.

(** The interrupt poll at the head of every loop. *)
Definition poll (system : bool) : Hart (Cpu * B) unit := fun s =>
  if system then
    if (fst s).(irq_poll_cd) =? 0 then
      (on_fst (modify (set_irq_poll_cd IRQ_POLL_INTERVAL)) ;;; check_interrupts ;;; ret tt) s
    else on_fst (modify (fun c => set_irq_poll_cd (c.(irq_poll_cd) - 1) c)) s
  else ret tt s.

(** [match self.step(bus)]: [Some stop] leaves the loop. *)
Definition step_or_trap (system : bool) : Hart (Cpu * B) (option StopReason) :=
  r <- attempt step ;;
  match r with
  | inl stop => ret stop
  | inr e =>
      if system then on_fst (exception_to_trap e) ;;; ret None else ret (Some (Trap e))
  end.

(** Run up to [budget] instructions. *)
Fixpoint run_loop (system : bool) (budget : nat) : Hart (Cpu * B) StopReason :=
  match budget with
  | O => ret Budget
  | S budget =>
      poll system ;;;
      stop <- step_or_trap system ;;
      match stop with
      | Some stop => ret stop
      | None => run_loop system budget
      end
  end.

Definition run (budget : Z) : Hart (Cpu * B) StopReason := fun s =>
  run_loop (is_sys (fst s)) (Z.to_nat budget) s.

Section Callbacks.
Context {U : Type} (stop_at : Z -> U -> bool * U)
  (observe_target : Z -> Z -> Z -> Z -> U -> U).

Fixpoint run_until_loop (system : bool) (budget : nat) (u : U) :
    Hart (Cpu * B) (StopReason * U) :=
  match budget with
  | O => ret (Budget, u)
  | S budget =>
      poll system ;;;
      stop <- step_or_trap system ;;
      match stop with
      | Some stop => ret (stop, u)
      | None =>
          c <- gets hart ;;
          let '(hit, u) := stop_at c.(pc) u in
          if hit then ret (Budget, u) else run_until_loop system budget u
      end
  end.

Definition run_until (budget : Z) (u : U) : Hart (Cpu * B) (StopReason * U) := fun s =>
  run_until_loop (is_sys (fst s)) (Z.to_nat budget) u s.

(** Probe the first non-sequential target and report it. *)
Definition observe (previous_pc : Z) (observed : bool) (u : U) :
    Hart (Cpu * B) (bool * U) :=
  c <- gets hart ;;
  let sequential2 := checked_add_is previous_pc 2 c.(pc) in
  let sequential4 := checked_add_is previous_pc 4 c.(pc) in
  if negb observed && negb sequential2 && negb sequential4 then
    pa <- jit_probe_fetch c.(pc) ;;
    match pa with
    | Some pa =>
        c' <- gets hart ;;
        let '(satp, mode) := satp_mode c' in
        ret (true, observe_target c.(pc) pa satp mode u)
    | None => ret (observed, u)
    end
  else ret (observed, u).

Fixpoint run_until_observed_loop (system : bool) (budget : nat) (observed : bool) (u : U) :
    Hart (Cpu * B) (StopReason * U) :=
  match budget with
  | O => ret (Budget, u)
  | S budget =>
      poll system ;;;
      c <- gets hart ;;
      let previous_pc := c.(pc) in
      stop <- step_or_trap system ;;
      match stop with
      | Some stop => ret (stop, u)
      | None =>
          c <- gets hart ;;
          let '(hit, u) := stop_at c.(pc) u in
          if hit then ret (Budget, u) else
          r <- observe previous_pc observed u ;;
          let '(observed, u) := r in
          run_until_observed_loop system budget observed u
      end
  end.

Definition run_until_observed (budget : Z) (u : U) : Hart (Cpu * B) (StopReason * U) :=
  fun s => run_until_observed_loop (is_sys (fst s)) (Z.to_nat budget) false u s.
End Callbacks.

Section Traced.
Context {U : Type} (trace : InstructionTrace -> U -> U).

(** Length of the instruction at a probed physical address; a failed fetch
    is length 0. *)
Definition probe_ilen (pa : option Z) : Hart (Cpu * B) Z :=
  match pa with
  | None => ret 0
  | Some pa =>
      r <- attempt (on_snd (fetch16 pa)) ;;
      ret (match r with inl insn => if (insn .& 3) =? 3 then 4 else 2 | inr _ => 0 end)
  end.

Fixpoint run_traced_loop (system : bool) (budget : nat) (u : U) :
    Hart (Cpu * B) (StopReason * U) :=
  match budget with
  | O => ret (Budget, u)
  | S budget =>
      poll system ;;;
      c <- gets hart ;;
      let va := c.(pc) in
      pa <- jit_probe_fetch va ;;
      ilen <- probe_ilen pa ;;
      c <- gets hart ;;
      let '(satp, mode) := satp_mode c in
      let before := c.(insn_count) in
      r <- attempt step ;;
      match r with
      | inl stop =>
          c <- gets hart ;;
          let u :=
            if negb (c.(insn_count) =? before) then
              match pa with
              | Some pa => trace (mkTrace c.(insn_count) va pa c.(pc) satp mode ilen) u
              | None => u
              end
            else u in
          match stop with
          | Some stop => ret (stop, u)
          | None => run_traced_loop system budget u
          end
      | inr e =>
          if system then on_fst (exception_to_trap e) ;;; run_traced_loop system budget u
          else ret (Trap e, u)
      end
  end.

Definition run_traced (budget : Z) (u : U) : Hart (Cpu * B) (StopReason * U) := fun s =>
  run_traced_loop (is_sys (fst s)) (Z.to_nat budget) u s.
End Traced.

(** ** The integrated Tier-0 loop *)

(** The locals of [run_integrated_scalar_t0] that one iteration changes. *)
Record T0Locals : Type := mkLocals {
  l_pc : Z; retired : Z; fetch_context : Z; fetch : ScalarFetchCapability
}.

(** The capability a call starts from. *)
Definition initial_capability (c : Cpu) : ScalarFetchCapability :=
  if c.(interpreter_fetch_map_gen) =? c.(map_gen) then
    mkCap c.(interpreter_fetch_tag) c.(interpreter_fetch_pa_diff)
      c.(interpreter_fetch_linear_off)
  else mkCap TLB_INVALID 0 0.

Definition commit (l : T0Locals) : Hart (Cpu * B) unit :=
  on_fst (modify (commit_scalar_t0_state l.(l_pc) l.(retired))).

Definition publish (l : T0Locals) : Hart (Cpu * B) unit :=
  on_fst (modify (publish_scalar_fetch_capability l.(fetch))).

(** The interrupt poll: delivery observes the architectural pc/minstret. *)
Definition t0_poll (system : bool) (l : T0Locals) : Hart (Cpu * B) T0Locals := fun s =>
  if system then
    if (fst s).(irq_poll_cd) =? 0 then
      (commit l ;;;
       on_fst (modify (set_irq_poll_cd IRQ_POLL_INTERVAL)) ;;;
       taken <- check_interrupts ;;
       c <- gets hart ;;
       ret (if taken : bool
            then mkLocals c.(pc) 0 (fetch_mode c) (cap_drop l.(fetch))
            else mkLocals c.(pc) 0 l.(fetch_context) l.(fetch))) s
    else (on_fst (modify (fun c => set_irq_poll_cd (c.(irq_poll_cd) - 1) c)) ;;; ret l) s
  else ret l s.

(** One decoded instruction: the new locals, or the stop reason. *)
Definition t0_dispatch (system : bool) (l : T0Locals) :
    Hart (Cpu * B) (T0Locals + StopReason) := fun s =>
  match scalar_t0_step l.(l_pc) l.(fetch_context) l.(fetch) s with
  | (Panic, s) => (Panic, s)
  | (Ok (Retired next_pc, fetch), s) =>
      (Ok (inl (mkLocals next_pc (add64 l.(retired) 1) l.(fetch_context) fetch)), s)
  | (Ok (Stop next_pc stop, fetch), s) =>
      (on_fst (modify (commit_scalar_t0_state next_pc (add64 l.(retired) 1))) ;;;
       on_fst (modify (publish_scalar_fetch_capability fetch)) ;;;
       ret (inr stop)) s
  | (Ok (Slow, fetch), s) =>
      (commit l ;;;
       stop <- step_or_trap system ;;
       match stop with
       | Some stop => ret (inr stop)
       | None =>
           c <- gets hart ;;
           ret (inl (mkLocals c.(pc) 0 (fetch_mode c) (cap_drop fetch)))
       end) s
  | (Err (e, fetch), s) =>
      (commit l ;;;
       if system then
         on_fst (exception_to_trap e) ;;;
         c <- gets hart ;;
         ret (inl (mkLocals c.(pc) 0 (fetch_mode c) (cap_drop fetch)))
       else ret (inr (Trap e))) s
  end.

Section Integrated.
Context {U : Type} (stop_at : Z -> U -> bool * U)
  (observe_target : Z -> Z -> Z -> Z -> U -> U)
  (CHECK_STOP OBSERVE_TARGET : bool).

(** The observer: commits before probing, at most once per call. *)
Definition t0_observe (previous_pc : Z) (observed : bool) (u : U) (l : T0Locals) :
    Hart (Cpu * B) (bool * U * T0Locals) :=
  let sequential2 := checked_add_is previous_pc 2 l.(l_pc) in
  let sequential4 := checked_add_is previous_pc 4 l.(l_pc) in
  if OBSERVE_TARGET && negb observed && (negb sequential2 && negb sequential4) then
    commit l ;;;
    let l := mkLocals l.(l_pc) 0 l.(fetch_context) l.(fetch) in
    pa <- jit_probe_fetch l.(l_pc) ;;
    match pa with
    | Some pa =>
        c <- gets hart ;;
        let '(satp, mode) := satp_mode c in
        ret (true, observe_target l.(l_pc) pa satp mode u, l)
    | None => ret (observed, u, l)
    end
  else ret (observed, u, l).

Fixpoint t0_loop (system : bool) (budget : nat) (observed : bool) (u : U) (l : T0Locals) :
    Hart (Cpu * B) (StopReason * U) :=
  match budget with
  | O => commit l ;;; publish l ;;; ret (Budget, u)
  | S budget =>
      l <- t0_poll system l ;;
      let previous_pc := l.(l_pc) in
      r <- t0_dispatch system l ;;
      match r with
      | inr stop => ret (stop, u)
      | inl l =>
          let '(hit, u) := if CHECK_STOP then stop_at l.(l_pc) u else (false, u) in
          if hit then commit l ;;; publish l ;;; ret (Budget, u) else
          r <- t0_observe previous_pc observed u l ;;
          let '(observed, u, l) := r in
          t0_loop system budget observed u l
      end
  end.

Definition run_integrated_scalar_t0 (budget : Z) (u : U) :
    Hart (Cpu * B) (StopReason * U) := fun s =>
  let c := fst s in
  t0_loop (is_sys c) (Z.to_nat budget) false u
    (mkLocals c.(pc) 0 (fetch_mode c) (initial_capability c)) s.
End Integrated.

Definition run_integrated_scalar (budget : Z) : Hart (Cpu * B) StopReason :=
  r <- run_integrated_scalar_t0 (fun _ u => (false, u)) (fun _ _ _ _ u => u)
         false false budget tt ;;
  ret (fst r).

Definition run_integrated_scalar_until {U} (stop_at : Z -> U -> bool * U) (budget : Z) (u : U) :
    Hart (Cpu * B) (StopReason * U) :=
  run_integrated_scalar_t0 stop_at (fun _ _ _ _ u => u) true false budget u.

Definition run_integrated_scalar_until_compiled (budget : Z) (compiled : CompiledEntryMap) :
    Hart (Cpu * B) StopReason :=
  r <- run_integrated_scalar_t0 (fun pc u => (contains compiled pc, u))
         (fun _ _ _ _ u => u) true false budget tt ;;
  ret (fst r).

Definition run_integrated_scalar_until_observed {U} (stop_at : Z -> U -> bool * U)
    (observe_target : Z -> Z -> Z -> Z -> U -> U) (budget : Z) (u : U) :
    Hart (Cpu * B) (StopReason * U) :=
  run_integrated_scalar_t0 stop_at observe_target true true budget u.
End Drivers.
