(* ===== verification/VecBase.v ===== *)
(** * Vector elements and register groups (cpu/vector.rs)

    The register file as the flat byte array its elements are read from, the
    legality tests of register groups, the fixed-point rounding and reciprocal
    estimates, and the loop over the active elements that the instructions
    share.  An access outside the register file, which the source excludes
    before it uses raw pointers, is a panic here. *)

From S2P Require Import Prelude Exception Decode Csr State Bus Mmu Trap CsrOps Vector SoftFp Exec.

(** ** Group ratios *)

Record GroupRatio : Type := mkRatio { num : Z; den : Z }.

Definition MASK_REGISTER_RATIO : GroupRatio := mkRatio 1 1.

Definition register_span (r : GroupRatio) : Z :=
  if r.(num) <? r.(den) then 1 else r.(num) / r.(den).

Definition lmul (cfg : VectorConfig) : GroupRatio := mkRatio cfg.(lmul_num) cfg.(lmul_den).

Definition width_log (eew : Z) : option Z :=
  if eew =? 8 then Some 3 else if eew =? 16 then Some 4
  else if eew =? 32 then Some 5 else if eew =? 64 then Some 6 else None.

(** The exponent of EMUL for an element width; the outer [None] is the
    unreachable arm for a SEW that no configuration has. *)
Definition emul_exponent (cfg : VectorConfig) (eew : Z) : option (option Z) :=
  match width_log eew with
  | None => Some None
  | Some eew_log =>
      match width_log cfg.(sew) with
      | None => None
      | Some sew_log =>
          let exponent := cfg.(lmul_exp) + eew_log - sew_log in
          Some (if (-3 <=? exponent) && (exponent <=? 3) then Some exponent else None)
      end
  end.

Definition emul {S} (cfg : VectorConfig) (eew : Z) : Hart S (option GroupRatio) :=
  e <- unwrap (emul_exponent cfg eew) ;;
  ret (match e with
       | None => None
       | Some exponent =>
           Some (if 0 <=? exponent then mkRatio (1 .<< exponent) 1
                 else mkRatio 1 (1 .<< (- exponent)))
       end).

Definition emul_register_span {S} (cfg : VectorConfig) (eew : Z) : Hart S (option Z) :=
  e <- unwrap (emul_exponent cfg eew) ;;
  ret (match e with
       | None => None
       | Some exponent => Some (if 0 <? exponent then 1 .<< exponent else 1)
       end).

(** [config.emul(eew).ok_or(IllegalInstruction)?]. *)
Definition emul_or_illegal {S} (insn : Z) (cfg : VectorConfig) (eew : Z) : Hart S GroupRatio :=
  r <- emul cfg eew ;; ok_or r (IllegalInstruction insn).

Definition validate_group (base : Z) (ratio : GroupRatio) (fields : Z) : bool :=
  let span := register_span ratio in
  negb (fields =? 0) && (fields * ratio.(num) <=? 8 * ratio.(den))
  && ((span =? 1) || (base mod span =? 0)) && (base + span * fields <=? VREG_COUNT).

Definition groups_overlap (a : Z) (ar : GroupRatio) (an b : Z) (br : GroupRatio) : bool :=
  (a <? b + register_span br) && (b <? a + register_span ar * an).

Definition destination_source_overlap_legal (destination : Z) (destination_ratio : GroupRatio)
    (destination_eew source : Z) (source_ratio : GroupRatio) (source_eew : Z) : bool :=
  if negb (groups_overlap destination destination_ratio 1 source source_ratio) then true
  else if destination_eew =? source_eew then true
  else if destination_eew <? source_eew then destination =? source
  else (source_ratio.(den) <=? source_ratio.(num))
       && (destination + register_span destination_ratio =? source + register_span source_ratio).

Definition mixed_width_sources_overlap (first : Z) (first_ratio : GroupRatio) (first_eew second : Z)
    (second_ratio : GroupRatio) (second_eew : Z) : bool :=
  negb (first_eew =? second_eew) && groups_overlap first first_ratio 1 second second_ratio.

(** [(insn >> 25) & 1 == 0]: the instruction is predicated by v0. *)
Definition masked (insn : Z) : bool := ((insn .>> 25) .& 1) =? 0.

(** A predicated destination or source that collides with v0. *)
Definition masked_overlap (insn reg : Z) (ratio : GroupRatio) : bool :=
  masked insn && groups_overlap reg ratio 1 0 MASK_REGISTER_RATIO.
Definition masked_source (insn reg : Z) (ratio : GroupRatio) (eew : Z) : bool :=
  masked insn && mixed_width_sources_overlap reg ratio eew 0 MASK_REGISTER_RATIO 1.

(** ** The register file *)

(** The register file as [regs.as_ptr().cast::<u8>()] sees it. *)
Definition flat (v : VectorState) : list Z := concat v.(vregs).

Fixpoint chunks (n k : nat) (l : list Z) : list (list Z) :=
  match k with
  | O => []
  | S k => take n l :: chunks n k (drop n l)
  end.

Definition with_flat (l : list Z) (v : VectorState) : VectorState :=
  set_vregs (chunks (Z.to_nat VLEN_BYTES) (Z.to_nat VREG_COUNT) l) v.

Definition ptr_read (v : VectorState) (offset n : Z) : option (list Z) :=
  slice (flat v) offset (offset + n).

Definition ptr_write (v : VectorState) (offset : Z) (bytes : list Z) : option VectorState :=
  match copy_from_slice (flat v) offset (offset + Z.of_nat (length bytes)) bytes with
  | Some l => Some (with_flat l v)
  | None => None
  end.

(** [regs[reg]], [regs[reg][index]]. *)
Definition register (v : VectorState) (reg : Z) : option (list Z) := v.(vregs) !! Z.to_nat reg.
Definition register_byte (v : VectorState) (reg index : Z) : option Z :=
  register v reg ≫= fun row => row !! Z.to_nat index.
Definition set_register_byte (reg index value : Z) (v : VectorState) : VectorState :=
  set_vregs (alter (fun row => <[Z.to_nat index := value]> row) (Z.to_nat reg) v.(vregs)) v.
Definition set_register (reg : Z) (row : list Z) (v : VectorState) : VectorState :=
  set_vregs (<[Z.to_nat reg := row]> v.(vregs)) v.

(** [regs[reg][index >> 3] & (1 << (index & 7)) != 0]. *)
Definition register_bit (v : VectorState) (reg index : Z) : option bool :=
  byte ← register_byte v reg (index .>> 3);
  Some (negb ((byte .& (1 .<< (index .& 7))) =? 0)).

Definition is_width (eew : Z) : bool := match width_log eew with Some _ => true | None => false end.

Definition read_element (v : VectorState) (reg index eew : Z) : option Z :=
  if is_width eew then from_le_bytes <$> ptr_read v (reg * VLEN_BYTES + index * (eew / 8)) (eew / 8)
  else None.

Definition write_element (reg index eew value : Z) (v : VectorState) : option VectorState :=
  if is_width eew
  then ptr_write v (reg * VLEN_BYTES + index * (eew / 8)) (to_le_bytes (Z.to_nat (eew / 8)) value)
  else None.

Definition read_single_register_element (bytes : list Z) (index eew : Z) : option Z :=
  if is_width eew
  then from_le_bytes <$> slice bytes (index * (eew / 8)) (index * (eew / 8) + eew / 8)
  else None.

(** ** Operations on the hart *)

Definition vec : Hart Cpu VectorState := gets vector.

Definition update_vec (f : VectorState -> VectorState) : Hart Cpu unit :=
  modify (fun c => set_vector (f c.(vector)) c).

Definition mask_bit (index : Z) : Hart Cpu bool :=
  v <- vec ;; unwrap (register_bit v 0 index).

Definition get_bit (reg index : Z) : Hart Cpu bool :=
  v <- vec ;; unwrap (register_bit v reg index).

Definition get_element (reg index eew : Z) : Hart Cpu Z :=
  v <- vec ;; unwrap (read_element v reg index eew).

Definition put_element (reg index eew value : Z) : Hart Cpu unit :=
  v <- vec ;; v <- unwrap (write_element reg index eew value v) ;; update_vec (fun _ => v).

Definition write_mask_element (reg index : Z) (value : bool) : Hart Cpu unit :=
  v <- vec ;;
  byte <- unwrap (register_byte v reg (index .>> 3)) ;;
  let bit := 1 .<< (index .& 7) in
  update_vec (set_register_byte reg (index .>> 3) (if value then byte .| bit else byte .&~ bit)).

Definition set_flat_byte (offset value : Z) : Hart Cpu unit :=
  v <- vec ;;
  _ <- unwrap (register_byte v (offset / VLEN_BYTES) (offset mod VLEN_BYTES)) ;;
  update_vec (set_register_byte (offset / VLEN_BYTES) (offset mod VLEN_BYTES) value).

(** [self.vector.vstart = 0; Ok(())]. *)
Definition finish_vector : Hart Cpu unit := update_vec (set_vstart 0).

Definition mark_dirty : Hart Cpu unit := modify vector_dirty.
Definition mark_fp_dirty : Hart Cpu unit := modify fp_dirty.

Definition x_reg (i : Z) : Hart Cpu Z := gets (fun c => xr c i).
Definition vstart_now : Hart Cpu Z := gets (fun c => c.(vector).(vstart)).
(** [self.vector.vl.min(config.vlmax as u64)]. *)
Definition active_length (cfg : VectorConfig) : Hart Cpu Z :=
  gets (fun c => Z.min c.(vector).(vl) cfg.(vlmax)).
Definition rounding_mode (insn : Z) : Hart Cpu Z :=
  rm <- gets (fun c => get_rm c 7) ;; ok_or rm (IllegalInstruction insn).

(** ** Loops *)

Section Loops.
Context {S A : Type}.

Fixpoint for_loop (n : nat) (index : Z) (body : Z -> A -> Hart S A) (acc : A) : Hart S A :=
  match n with
  | O => ret acc
  | Datatypes.S n => acc <- body index acc ;; for_loop n (index + 1) body acc
  end.

(** [for index in start..stop], the mutable locals of the body in [acc]. *)
Definition for_range (start stop : Z) (body : Z -> A -> Hart S A) (acc : A) : Hart S A :=
  for_loop (Z.to_nat (stop - start)) start body acc.
End Loops.

(** The loop over the active elements: [if masked && !mask_bit(index) { continue; }]. *)
Definition for_elements {A} (predicated : bool) (start stop : Z) (body : Z -> A -> Hart Cpu A)
    (acc : A) : Hart Cpu A :=
  for_range start stop (fun index acc =>
    if predicated then
      active <- mask_bit index ;;
      if (active : bool) then body index acc else ret acc
    else body index acc) acc.

(** ** Integer helpers *)

Definition element_mask (bits : Z) : Z := if bits =? 64 then U64_MAX else (1 .<< bits) - 1.

Definition signed_element (value bits : Z) : Z :=
  if bits =? 64 then i64 value else i64 (shl64 value (64 - bits)) .>> (64 - bits).

Definition simm5 (field : Z) : Z := u64 (i32 (shl32 field 27) .>> 27).

Definition fixed_round_increment (value shift vxrm : Z) : Z :=
  if shift =? 0 then 0 else
  let retained_lsb := (value .>> shift) .& 1 in
  let highest_discarded := (value .>> (shift - 1)) .& 1 in
  let discarded_mask := (1 .<< shift) - 1 in
  let discarded := value .& discarded_mask in
  let mode := vxrm .& 3 in
  if mode =? 0 then highest_discarded
  else if mode =? 1 then
    highest_discarded .& (Z.b2z (negb ((discarded .& (discarded_mask .>> 1)) =? 0)) .| retained_lsb)
  else if mode =? 2 then 0
  else Z.b2z ((retained_lsb =? 0) && negb (discarded =? 0)).

Definition fixed_round_unsigned (value shift vxrm : Z) : Z :=
  u128 ((value .>> shift) + fixed_round_increment value shift vxrm).

Definition fixed_round_signed (value shift vxrm : Z) : Z :=
  i128 ((value .>> shift) + fixed_round_increment (u128 value) shift vxrm).

Definition signed_narrow (value bits : Z) : Z := signed_element value bits.

Definition clamp (minimum maximum value : Z) : Z :=
  if value <? minimum then minimum else if maximum <? value then maximum else value.

Definition vector_width (funct3 : Z) : option Z :=
  if funct3 =? 0 then Some 8 else if funct3 =? 5 then Some 16
  else if funct3 =? 6 then Some 32 else if funct3 =? 7 then Some 64 else None.

(** [matches!(x, a | b | ...)] and [matches!(x, lo..=hi)]. *)
Definition one_of (x : Z) (l : list Z) : bool := existsb (Z.eqb x) l.
Definition between (lo hi x : Z) : bool := (lo <=? x) && (x <=? hi).
