(* ===== verification/VecInt.v ===== *)
(** * Vector integer instructions (cpu/vector.rs)

    The OPI and OPM instruction families: legality tests, the element loops and
    the whole-register and single-register byte paths, one definition per
    function of the source. *)

From S2P Require Import Prelude Exception Decode Csr State Bus Mmu Trap CsrOps Vector SoftFp Exec VecBase.

(** ** Shared tests and operands *)

Definition integer_groups (insn : Z) (cfg : VectorConfig)
    (destination_is_mask needs_vs2 needs_vs1 : bool) : Hart Cpu unit :=
  let ratio := lmul cfg in
  let d := rd insn in
  let s2 := rs2 insn in
  let s1 := rs1 insn in
  let destination_ok :=
    if destination_is_mask then
      (d <? VREG_COUNT)
      && (negb needs_vs2
          || destination_source_overlap_legal d MASK_REGISTER_RATIO 1 s2 ratio cfg.(sew))
      && (negb needs_vs1
          || destination_source_overlap_legal d MASK_REGISTER_RATIO 1 s1 ratio cfg.(sew))
    else validate_group d ratio 1 && negb (masked_overlap insn d ratio) in
  if negb destination_ok
     || (needs_vs2 && negb (validate_group s2 ratio 1))
     || (needs_vs1 && negb (validate_group s1 ratio 1))
     || (needs_vs2 && masked_source insn s2 ratio cfg.(sew))
     || (needs_vs1 && masked_source insn s1 ratio cfg.(sew))
  then illegal insn else ret tt.

(** The second operand: [read_element(rs1)] or [x[rs1]], masked to a width. *)
Definition vector_or_scalar (vector_rhs : bool) (insn index eew mask : Z) : Hart Cpu Z :=
  b <- (if vector_rhs then get_element (rs1 insn) index eew else x_reg (rs1 insn)) ;;
  ret (b .& mask).

(** A shift amount: a vector element, the immediate, or a register. *)
Definition shift_operand (format insn index eew : Z) (otherwise : Hart Cpu Z) : Hart Cpu Z :=
  if format =? 0 then get_element (rs1 insn) index eew
  else if format =? 3 then ret (rs1 insn)
  else if format =? 4 then x_reg (rs1 insn)
  else otherwise.

Definition vxrm_now : Hart Cpu Z := gets (fun c => c.(vector).(vxrm)).

(** ** Moves *)

Definition exec_vector_whole_move (insn : Z) (cfg : VectorConfig) : Hart Cpu unit :=
  let count := rs1 insn + 1 in
  let evl := count * VLEN_BITS / cfg.(sew) in
  vstart <- vstart_now ;;
  if negb (one_of count [1; 2; 4; 8]) || masked insn
     || negb (rd insn mod count =? 0) || negb (rs2 insn mod count =? 0)
     || (VREG_COUNT <? rd insn + count) || (VREG_COUNT <? rs2 insn + count)
     || (evl <=? vstart)
  then illegal insn else
  let start := vstart * (cfg.(sew) / 8) in
  let bytes := count * VLEN_BYTES in
  (if negb (rd insn =? rs2 insn) && (start <? bytes) then
     source <- vec ;;
     for_range start bytes (fun offset _ =>
       let source_flat := rs2 insn * VLEN_BYTES + offset in
       let destination_flat := rd insn * VLEN_BYTES + offset in
       value <- unwrap (register_byte source (source_flat / VLEN_BYTES) (source_flat mod VLEN_BYTES)) ;;
       set_flat_byte destination_flat value) tt
   else ret tt) ;;;
  finish_vector ;;; mark_dirty.

Definition exec_vector_extension (insn : Z) (cfg : VectorConfig) : Hart Cpu unit :=
  let selector := rs1 insn in
  let parameters :=
    if selector =? 2 then Some (8, false) else if selector =? 3 then Some (8, true)
    else if selector =? 4 then Some (4, false) else if selector =? 5 then Some (4, true)
    else if selector =? 6 then Some (2, false) else if selector =? 7 then Some (2, true)
    else None in
  parameters <- ok_or parameters (IllegalInstruction insn) ;;
  let '(divisor, sgn) := parameters in
  if negb (cfg.(sew) mod divisor =? 0) then illegal insn else
  let source_eew := cfg.(sew) / divisor in
  if source_eew <? 8 then illegal insn else
  let destination_ratio := lmul cfg in
  source_ratio <- emul_or_illegal insn cfg source_eew ;;
  if negb (validate_group (rd insn) destination_ratio 1)
     || negb (validate_group (rs2 insn) source_ratio 1)
     || negb (destination_source_overlap_legal (rd insn) destination_ratio cfg.(sew)
                (rs2 insn) source_ratio source_eew)
     || masked_overlap insn (rd insn) destination_ratio
     || masked_source insn (rs2 insn) source_ratio source_eew
  then illegal insn else
  start <- vstart_now ;;
  vl <- active_length cfg ;;
  mark_dirty ;;;
  for_elements (masked insn) start vl (fun index _ =>
    source <- get_element (rs2 insn) index source_eew ;;
    let value := if (sgn : bool) then u64 (signed_element source source_eew) else source in
    put_element (rd insn) index cfg.(sew) value) tt ;;;
  finish_vector.

(** ** Permutations *)

(** The unmasked single-register slides: contiguous byte moves inside [regs[rd]]. *)
Definition slide_bytes (insn : Z) (cfg : VectorConfig) (funct6 selected vl : Z)
    (source_register : list Z) : Hart Cpu unit :=
  let width := cfg.(sew) / 8 in
  v <- vec ;;
  destination <- unwrap (register v (rd insn)) ;;
  destination <-
    (if funct6 =? 0x0e then
       let first := Z.min selected vl in
       let count := vl - first in
       if negb (count =? 0) then
         bytes <- unwrap (slice source_register 0 (count * width)) ;;
         unwrap (copy_from_slice destination (first * width) (vl * width) bytes)
       else ret destination
     else
       let count := Z.min vl (Z.max 0 (cfg.(vlmax) - selected)) in
       destination <-
         (if negb (count =? 0) then
            bytes <- unwrap (slice source_register (selected * width) ((selected + count) * width)) ;;
            unwrap (copy_from_slice destination 0 (count * width) bytes)
          else ret destination) ;;
       unwrap (copy_from_slice destination (count * width) (vl * width)
                 (replicate (Z.to_nat (vl * width - count * width)) 0))) ;;
  update_vec (set_register (rd insn) destination).

(** An element of the source group as it was before the instruction. *)
Definition snapshot_element (single_group : bool) (source_register : list Z) (source_state : VectorState)
    (reg index eew : Z) : Hart Cpu Z :=
  if single_group then unwrap (read_single_register_element source_register index eew)
  else unwrap (read_element source_state reg index eew).

Definition exec_vector_slide_or_gather (insn : Z) (cfg : VectorConfig) (funct6 format : Z)
    : Hart Cpu unit :=
  let ratio := lmul cfg in
  let source_reg := rs2 insn in
  if negb (validate_group (rd insn) ratio 1) || negb (validate_group source_reg ratio 1)
     || masked_overlap insn (rd insn) ratio || masked_source insn source_reg ratio cfg.(sew)
  then illegal insn else
  let is_slide_up := (funct6 =? 0x0e) && negb (format =? 0) in
  if is_slide_up && (rd insn =? source_reg) then illegal insn else
  let needs_index_group := (format =? 0) && (funct6 =? 0x0c) in
  if needs_index_group && negb (validate_group (rs1 insn) ratio 1) then illegal insn else
  if needs_index_group && masked_source insn (rs1 insn) ratio cfg.(sew) then illegal insn else
  if (funct6 =? 0x0c)
     && (groups_overlap (rd insn) ratio 1 source_reg ratio
         || (needs_index_group && groups_overlap (rd insn) ratio 1 (rs1 insn) ratio))
  then illegal insn else
  scalar <- (if format =? 3 then ret (rs1 insn)
             else if format =? 4 then x_reg (rs1 insn) else ret 0) ;;
  let single_group := register_span ratio =? 1 in
  source_state <- vec ;;
  source_register <- unwrap (register source_state source_reg) ;;
  index_register <- unwrap (register source_state (rs1 insn)) ;;
  start <- vstart_now ;;
  vl <- active_length cfg ;;
  mark_dirty ;;;
  if single_group && negb (masked insn) && (start =? 0) && one_of funct6 [0x0e; 0x0f]
  then slide_bytes insn cfg funct6 scalar vl source_register ;;; finish_vector
  else
  for_elements (masked insn) start vl (fun index _ =>
    selected <- (if (funct6 =? 0x0c) && (format =? 0)
                 then snapshot_element single_group index_register source_state (rs1 insn) index cfg.(sew)
                 else ret scalar) ;;
    source_index <-
      (if funct6 =? 0x0c then ret selected
       else if funct6 =? 0x0e then ret (index - selected)
       else if funct6 =? 0x0f then ret (index + selected) else panic) ;;
    if (funct6 =? 0x0e) && (index <? selected) then ret tt else
    value <- (if (0 <=? source_index) && (source_index <? cfg.(vlmax))
              then snapshot_element single_group source_register source_state source_reg source_index cfg.(sew)
              else ret 0) ;;
    put_element (rd insn) index cfg.(sew) value) tt ;;;
  finish_vector.

Definition exec_vector_gather_ei16 (insn : Z) (cfg : VectorConfig) : Hart Cpu unit :=
  let data_ratio := lmul cfg in
  index_ratio <- emul_or_illegal insn cfg 16 ;;
  let d := rd insn in
  let source := rs2 insn in
  let indices := rs1 insn in
  if negb (validate_group d data_ratio 1) || negb (validate_group source data_ratio 1)
     || negb (validate_group indices index_ratio 1)
     || groups_overlap d data_ratio 1 source data_ratio
     || groups_overlap d data_ratio 1 indices index_ratio
     || (negb (cfg.(sew) =? 16) && groups_overlap indices index_ratio 1 source data_ratio)
     || masked_overlap insn d data_ratio
     || masked_source insn source data_ratio cfg.(sew)
     || masked_source insn indices index_ratio 16
  then illegal insn else
  start <- vstart_now ;;
  vl <- active_length cfg ;;
  mark_dirty ;;;
  for_elements (masked insn) start vl (fun index _ =>
    selected <- get_element indices index 16 ;;
    value <- (if selected <? cfg.(vlmax) then get_element source selected cfg.(sew) else ret 0) ;;
    put_element d index cfg.(sew) value) tt ;;;
  finish_vector.

(** The unmasked single-register slide by one, with the scalar shifted in. *)
Definition slide1_bytes (insn : Z) (cfg : VectorConfig) (up : bool) (vl scalar : Z)
    (source_register : list Z) : Hart Cpu unit :=
  let width := cfg.(sew) / 8 in
  let active_bytes := vl * width in
  v <- vec ;;
  destination <- unwrap (register v (rd insn)) ;;
  inserted <- unwrap (slice (to_le_bytes 8 scalar) 0 width) ;;
  destination <-
    (if up then
       bytes <- unwrap (slice source_register 0 (active_bytes - width)) ;;
       destination <- unwrap (copy_from_slice destination width active_bytes bytes) ;;
       unwrap (copy_from_slice destination 0 width inserted)
     else
       bytes <- unwrap (slice source_register width active_bytes) ;;
       destination <- unwrap (copy_from_slice destination 0 (active_bytes - width) bytes) ;;
       unwrap (copy_from_slice destination (active_bytes - width) active_bytes inserted)) ;;
  update_vec (set_register (rd insn) destination).

Definition exec_vector_slide1 (insn : Z) (cfg : VectorConfig) (up : bool) : Hart Cpu unit :=
  let ratio := lmul cfg in
  if negb (validate_group (rd insn) ratio 1) || negb (validate_group (rs2 insn) ratio 1)
     || (up && (rd insn =? rs2 insn))
     || masked_overlap insn (rd insn) ratio || masked_source insn (rs2 insn) ratio cfg.(sew)
  then illegal insn else
  let single_group := register_span ratio =? 1 in
  source_state <- vec ;;
  source_register <- unwrap (register source_state (rs2 insn)) ;;
  start <- vstart_now ;;
  vl <- active_length cfg ;;
  scalar <- x_reg (rs1 insn) ;;
  mark_dirty ;;;
  if single_group && negb (masked insn) && (start =? 0) && negb (vl =? 0)
  then slide1_bytes insn cfg up vl scalar source_register ;;; finish_vector
  else
  for_elements (masked insn) start vl (fun index _ =>
    value <-
      (if up then
         if index =? 0 then ret scalar
         else snapshot_element single_group source_register source_state (rs2 insn) (index - 1) cfg.(sew)
       else if index + 1 =? vl then ret scalar
       else snapshot_element single_group source_register source_state (rs2 insn) (index + 1) cfg.(sew)) ;;
    put_element (rd insn) index cfg.(sew) value) tt ;;;
  finish_vector.

Definition exec_vector_compress (insn : Z) (cfg : VectorConfig) : Hart Cpu unit :=
  let ratio := lmul cfg in
  let d := rd insn in
  let source := rs2 insn in
  let selector := rs1 insn in
  vstart <- vstart_now ;;
  if negb (vstart =? 0) || masked insn
     || negb (validate_group d ratio 1) || negb (validate_group source ratio 1)
     || groups_overlap d ratio 1 source ratio
     || groups_overlap d ratio 1 selector MASK_REGISTER_RATIO
  then illegal insn else
  vl <- active_length cfg ;;
  mark_dirty ;;;
  for_range 0 vl (fun index output =>
    bit <- get_bit selector index ;;
    if (bit : bool) then
      value <- get_element source index cfg.(sew) ;;
      put_element d output cfg.(sew) value ;;;
      ret (output + 1)
    else ret output) 0 ;;;
  finish_vector.

(** ** Masks *)

Definition mask_logic (funct6 : Z) (a b : bool) : option bool :=
  if funct6 =? 0x18 then Some (a && negb b)
  else if funct6 =? 0x19 then Some (a && b)
  else if funct6 =? 0x1a then Some (a || b)
  else if funct6 =? 0x1b then Some (xorb a b)
  else if funct6 =? 0x1c then Some (a || negb b)
  else if funct6 =? 0x1d then Some (negb (a && b))
  else if funct6 =? 0x1e then Some (negb (a || b))
  else if funct6 =? 0x1f then Some (negb (xorb a b))
  else None.

Definition exec_vector_mask_logic (insn : Z) (cfg : VectorConfig) (funct6 : Z) : Hart Cpu unit :=
  if masked insn then illegal insn else
  start <- vstart_now ;;
  vl <- active_length cfg ;;
  mark_dirty ;;;
  for_range start vl (fun index _ =>
    a <- get_bit (rs2 insn) index ;;
    b <- get_bit (rs1 insn) index ;;
    value <- unwrap (mask_logic funct6 a b) ;;
    write_mask_element (rd insn) index value) tt ;;;
  finish_vector.

(** Is element [index] active and its bit of [reg] set? *)
Definition active_bit (vm : bool) (reg index : Z) : Hart Cpu bool :=
  active <- (if vm then ret true else mask_bit index) ;;
  if (active : bool) then get_bit reg index else ret false.

Definition exec_vector_mask_query (insn : Z) (cfg : VectorConfig) : Hart Cpu unit :=
  vstart <- vstart_now ;;
  if negb (vstart =? 0) then illegal insn else
  let selector := rs1 insn in
  if negb (one_of selector [0x10; 0x11]) then illegal insn else
  vl <- active_length cfg ;;
  found <- for_range 0 vl (fun index found =>
    bit <- active_bit (negb (masked insn)) (rs2 insn) index ;;
    let '(count, first) := found in
    ret (if (bit : bool) then (count + 1, match first with Some i => Some i | None => Some index end)
         else (count, first))) (0, None) ;;
  let '(count, first) := found in
  modify (wr (rd insn) (if selector =? 0x10 then count
                        else match first with Some i => i | None => U64_MAX end)).

Definition exec_vector_mask_prefix (insn : Z) (cfg : VectorConfig) : Hart Cpu unit :=
  let selector := rs1 insn in
  let d := rd insn in
  let source := rs2 insn in
  let vm := negb (masked insn) in
  vstart <- vstart_now ;;
  if negb (vstart =? 0) || negb (one_of selector [1; 2; 3]) || (d =? source)
     || (negb vm && (d =? 0))
  then illegal insn else
  vl <- active_length cfg ;;
  mark_dirty ;;;
  for_elements (negb vm) 0 vl (fun index found =>
    source_set <- get_bit source index ;;
    let '(value, found) :=
      if (found : bool) then (false, true)
      else if (source_set : bool) then (negb (selector =? 1), true)
      else (negb (selector =? 2), false) in
    write_mask_element d index value ;;;
    ret found) false ;;;
  finish_vector.

Definition exec_vector_iota (insn : Z) (cfg : VectorConfig) : Hart Cpu unit :=
  let ratio := lmul cfg in
  let d := rd insn in
  let source := rs2 insn in
  vstart <- vstart_now ;;
  if negb (vstart =? 0) || negb (validate_group d ratio 1)
     || groups_overlap d ratio 1 source MASK_REGISTER_RATIO || masked_overlap insn d ratio
  then illegal insn else
  vl <- active_length cfg ;;
  mark_dirty ;;;
  for_elements (masked insn) 0 vl (fun index count =>
    put_element d index cfg.(sew) count ;;;
    bit <- get_bit source index ;;
    ret (if (bit : bool) then count + 1 else count)) 0 ;;;
  finish_vector.

(** ** Reductions *)

Definition reduce_val (sew funct6 accumulator value : Z) : option Z :=
  if funct6 =? 0x00 then Some (add64 accumulator value)
  else if funct6 =? 0x01 then Some (accumulator .& value)
  else if funct6 =? 0x02 then Some (accumulator .| value)
  else if funct6 =? 0x03 then Some (accumulator .^ value)
  else if funct6 =? 0x04 then Some (Z.min accumulator value)
  else if funct6 =? 0x05 then
    Some (if signed_element accumulator sew <=? signed_element value sew then accumulator else value)
  else if funct6 =? 0x06 then Some (Z.max accumulator value)
  else if funct6 =? 0x07 then
    Some (if signed_element value sew <=? signed_element accumulator sew then accumulator else value)
  else None.

Definition exec_vector_reduction (insn : Z) (cfg : VectorConfig) (funct6 : Z) : Hart Cpu unit :=
  vstart <- vstart_now ;;
  if negb (vstart =? 0) || negb (validate_group (rs2 insn) (lmul cfg) 1)
     || masked_source insn (rs2 insn) (lmul cfg) cfg.(sew)
     || masked_source insn (rs1 insn) MASK_REGISTER_RATIO cfg.(sew)
  then illegal insn else
  accumulator <- get_element (rs1 insn) 0 cfg.(sew) ;;
  vl <- active_length cfg ;;
  if vl =? 0 then finish_vector else
  accumulator <- for_elements (masked insn) 0 vl (fun index accumulator =>
    value <- get_element (rs2 insn) index cfg.(sew) ;;
    unwrap (reduce_val cfg.(sew) funct6 accumulator value)) accumulator ;;
  put_element (rd insn) 0 cfg.(sew) accumulator ;;;
  mark_dirty ;;; finish_vector.

Definition exec_vector_widen_reduction (insn : Z) (cfg : VectorConfig) (sgn : bool) : Hart Cpu unit :=
  let wide_eew := cfg.(sew) * 2 in
  vstart <- vstart_now ;;
  if negb (vstart =? 0) || (64 <? wide_eew) || negb (validate_group (rs2 insn) (lmul cfg) 1)
     || mixed_width_sources_overlap (rs2 insn) (lmul cfg) cfg.(sew) (rs1 insn) MASK_REGISTER_RATIO wide_eew
     || masked_source insn (rs2 insn) (lmul cfg) cfg.(sew)
     || masked_source insn (rs1 insn) MASK_REGISTER_RATIO wide_eew
  then illegal insn else
  let wide_mask := element_mask wide_eew in
  accumulator <- get_element (rs1 insn) 0 wide_eew ;;
  vl <- active_length cfg ;;
  if vl =? 0 then finish_vector else
  accumulator <- for_elements (masked insn) 0 vl (fun index accumulator =>
    source <- get_element (rs2 insn) index cfg.(sew) ;;
    ret ((if sgn then u64 (signed_narrow accumulator wide_eew + signed_narrow source cfg.(sew))
          else add64 accumulator source) .& wide_mask)) accumulator ;;
  put_element (rd insn) 0 wide_eew accumulator ;;;
  mark_dirty ;;; finish_vector.

(** ** Multiplication, division, carries *)

Definition multiply_divide_val (sew funct6 a b : Z) : option Z :=
  let mask := element_mask sew in
  let signed_a := signed_element a sew in
  let signed_b := signed_element b sew in
  if funct6 =? 0x20 then Some (if b =? 0 then mask else a / b)
  else if funct6 =? 0x21 then
    Some (if signed_b =? 0 then U64_MAX else u64 (Z.quot signed_a signed_b))
  else if funct6 =? 0x22 then Some (if b =? 0 then a else a mod b)
  else if funct6 =? 0x23 then Some (if signed_b =? 0 then a else u64 (Z.rem signed_a signed_b))
  else if funct6 =? 0x24 then Some (u64 ((a * b) .>> sew))
  else if funct6 =? 0x25 then Some (mul64 a b)
  else if funct6 =? 0x26 then Some (u64 ((signed_a * b) .>> sew))
  else if funct6 =? 0x27 then Some (u64 ((signed_a * signed_b) .>> sew))
  else None.

Definition exec_vector_multiply_divide (insn : Z) (cfg : VectorConfig) (funct6 : Z)
    (vector_rhs : bool) : Hart Cpu unit :=
  integer_groups insn cfg false true vector_rhs ;;;
  let mask := element_mask cfg.(sew) in
  start <- vstart_now ;;
  vl <- active_length cfg ;;
  mark_dirty ;;;
  for_elements (masked insn) start vl (fun index _ =>
    a <- get_element (rs2 insn) index cfg.(sew) ;;
    b <- vector_or_scalar vector_rhs insn index cfg.(sew) mask ;;
    value <- unwrap (multiply_divide_val cfg.(sew) funct6 a b) ;;
    put_element (rd insn) index cfg.(sew) (value .& mask)) tt ;;;
  finish_vector.

Definition exec_vector_carry (insn : Z) (cfg : VectorConfig) (funct6 : Z) : Hart Cpu unit :=
  let format := funct3 insn in
  let vector_rhs := format =? 0 in
  if negb (one_of format [0; 3; 4]) || (one_of funct6 [0x12; 0x13] && (format =? 3))
  then illegal insn else
  let ratio := lmul cfg in
  let d := rd insn in
  let s2 := rs2 insn in
  let s1 := rs1 insn in
  let vm := negb (masked insn) in
  let mask_result := one_of funct6 [0x11; 0x13] in
  if negb (validate_group s2 ratio 1) || (vector_rhs && negb (validate_group s1 ratio 1))
     || masked_source insn s2 ratio cfg.(sew)
     || (vector_rhs && masked_source insn s1 ratio cfg.(sew))
  then illegal insn else
  if (if mask_result then
        negb (destination_source_overlap_legal d MASK_REGISTER_RATIO 1 s2 ratio cfg.(sew))
        || (vector_rhs
            && negb (destination_source_overlap_legal d MASK_REGISTER_RATIO 1 s1 ratio cfg.(sew)))
      else vm || negb (validate_group d ratio 1)
           || groups_overlap d ratio 1 0 (mkRatio 1 1))
  then illegal insn else
  let width_mask := element_mask cfg.(sew) in
  start <- vstart_now ;;
  vl <- active_length cfg ;;
  mark_dirty ;;;
  for_range start vl (fun index _ =>
    a <- get_element s2 index cfg.(sew) ;;
    b <- (if format =? 0 then get_element s1 index cfg.(sew)
          else if format =? 3 then ret (simm5 s1)
          else if format =? 4 then x_reg s1 else panic) ;;
    let b := b .& width_mask in
    carry <- (if vm then ret false else mask_bit index) ;;
    let carry := Z.b2z carry in
    let subtract := one_of funct6 [0x12; 0x13] in
    if mask_result then
      write_mask_element d index
        (if subtract then (a <? b) || (negb (carry =? 0) && (a =? b))
         else width_mask <? a + b + carry)
    else
      put_element d index cfg.(sew)
        ((if subtract then sub64 (sub64 a b) carry else add64 (add64 a b) carry) .& width_mask)) tt ;;;
  finish_vector.

Definition madd_val (funct6 source operand old : Z) : option Z :=
  let product := mul64 old operand in
  if funct6 =? 0x29 then Some (add64 product source)
  else if funct6 =? 0x2b then Some (sub64 source product)
  else if funct6 =? 0x2d then Some (add64 (mul64 source operand) old)
  else if funct6 =? 0x2f then Some (sub64 old (mul64 source operand))
  else None.

Definition exec_vector_integer_madd (insn : Z) (cfg : VectorConfig) (funct6 : Z) : Hart Cpu unit :=
  let format := funct3 insn in
  let vector_rhs := format =? 2 in
  if negb (one_of format [2; 6]) || negb (one_of funct6 [0x29; 0x2b; 0x2d; 0x2f])
  then illegal insn else
  integer_groups insn cfg false true vector_rhs ;;;
  let width_mask := element_mask cfg.(sew) in
  start <- vstart_now ;;
  vl <- active_length cfg ;;
  mark_dirty ;;;
  for_elements (masked insn) start vl (fun index _ =>
    source <- get_element (rs2 insn) index cfg.(sew) ;;
    operand <- vector_or_scalar vector_rhs insn index cfg.(sew) width_mask ;;
    old <- get_element (rd insn) index cfg.(sew) ;;
    value <- unwrap (madd_val funct6 source operand old) ;;
    put_element (rd insn) index cfg.(sew) (value .& width_mask)) tt ;;;
  finish_vector.

(** ** Widening *)

(** The legality tests the two-narrow-source widening instructions share. *)
Definition widen_illegal (insn : Z) (cfg : VectorConfig) (wide_ratio left_ratio : GroupRatio)
    (left_eew : Z) (vector_rhs : bool) : bool :=
  let wide_eew := cfg.(sew) * 2 in
  let narrow_ratio := lmul cfg in
  negb (validate_group (rd insn) wide_ratio 1)
  || negb (validate_group (rs2 insn) left_ratio 1)
  || (vector_rhs && negb (validate_group (rs1 insn) narrow_ratio 1))
  || negb (destination_source_overlap_legal (rd insn) wide_ratio wide_eew (rs2 insn) left_ratio left_eew)
  || (vector_rhs
      && negb (destination_source_overlap_legal (rd insn) wide_ratio wide_eew
                 (rs1 insn) narrow_ratio cfg.(sew)))
  || masked_overlap insn (rd insn) wide_ratio
  || masked_source insn (rs2 insn) left_ratio left_eew
  || (vector_rhs && masked_source insn (rs1 insn) narrow_ratio cfg.(sew)).

Definition widen_add_sub_val (sew : Z) (wide_left sgn subtract : bool) (a b : Z) : Z :=
  let wide_eew := sew * 2 in
  (if sgn then
     let a := if wide_left then signed_narrow a wide_eew else signed_narrow a sew in
     let b := signed_narrow b sew in
     u64 (if subtract then a - b else a + b)
   else if subtract then sub64 a b else add64 a b) .& element_mask wide_eew.

Definition exec_vector_widen_add_sub (insn : Z) (cfg : VectorConfig) (funct6 : Z) : Hart Cpu unit :=
  let wide_eew := cfg.(sew) * 2 in
  if 64 <? wide_eew then illegal insn else
  let narrow_ratio := lmul cfg in
  wide_ratio <- emul_or_illegal insn cfg wide_eew ;;
  let format := funct3 insn in
  let vector_rhs := format =? 2 in
  if negb (one_of format [2; 6]) || negb (between 0x30 0x37 funct6) then illegal insn else
  let wide_left := 0x34 <=? funct6 in
  let sgn := negb ((funct6 .& 1) =? 0) in
  let subtract := negb ((funct6 .& 2) =? 0) in
  let left_ratio := if wide_left then wide_ratio else narrow_ratio in
  let left_eew := if wide_left then wide_eew else cfg.(sew) in
  if widen_illegal insn cfg wide_ratio left_ratio left_eew vector_rhs
     || (wide_left && vector_rhs
         && mixed_width_sources_overlap (rs2 insn) wide_ratio wide_eew (rs1 insn) narrow_ratio cfg.(sew))
  then illegal insn else
  let narrow_mask := element_mask cfg.(sew) in
  start <- vstart_now ;;
  vl <- active_length cfg ;;
  mark_dirty ;;;
  for_elements (masked insn) start vl (fun index _ =>
    a <- get_element (rs2 insn) index left_eew ;;
    b <- vector_or_scalar vector_rhs insn index cfg.(sew) narrow_mask ;;
    put_element (rd insn) index wide_eew (widen_add_sub_val cfg.(sew) wide_left sgn subtract a b)) tt ;;;
  finish_vector.

Definition widen_product (sew funct6 a b : Z) : option Z :=
  if funct6 =? 0x38 then Some (a * b)
  else if funct6 =? 0x3a then Some (signed_narrow a sew * b)
  else if funct6 =? 0x3b then Some (signed_narrow a sew * signed_narrow b sew)
  else None.

Definition exec_vector_widen_multiply (insn : Z) (cfg : VectorConfig) (funct6 : Z) : Hart Cpu unit :=
  let wide_eew := cfg.(sew) * 2 in
  if (64 <? wide_eew) || negb (one_of funct6 [0x38; 0x3a; 0x3b]) then illegal insn else
  let format := funct3 insn in
  let vector_rhs := format =? 2 in
  if negb (one_of format [2; 6]) then illegal insn else
  let narrow_ratio := lmul cfg in
  wide_ratio <- emul_or_illegal insn cfg wide_eew ;;
  if widen_illegal insn cfg wide_ratio narrow_ratio cfg.(sew) vector_rhs then illegal insn else
  let narrow_mask := element_mask cfg.(sew) in
  let wide_mask := element_mask wide_eew in
  start <- vstart_now ;;
  vl <- active_length cfg ;;
  mark_dirty ;;;
  for_elements (masked insn) start vl (fun index _ =>
    a <- get_element (rs2 insn) index cfg.(sew) ;;
    b <- vector_or_scalar vector_rhs insn index cfg.(sew) narrow_mask ;;
    product <- unwrap (widen_product cfg.(sew) funct6 a b) ;;
    put_element (rd insn) index wide_eew (u64 product .& wide_mask)) tt ;;;
  finish_vector.

Definition widen_madd_product (sew funct6 a b : Z) : option Z :=
  if funct6 =? 0x3c then Some (a * b)
  else if funct6 =? 0x3d then Some (signed_narrow a sew * signed_narrow b sew)
  else if funct6 =? 0x3e then Some (signed_narrow a sew * b)
  else if funct6 =? 0x3f then Some (a * signed_narrow b sew)
  else None.

Definition exec_vector_widen_madd (insn : Z) (cfg : VectorConfig) (funct6 : Z) : Hart Cpu unit :=
  let wide_eew := cfg.(sew) * 2 in
  let format := funct3 insn in
  let vector_rhs := format =? 2 in
  if (64 <? wide_eew) || negb (one_of format [2; 6]) || negb (between 0x3c 0x3f funct6)
     || ((funct6 =? 0x3e) && vector_rhs)
  then illegal insn else
  let narrow_ratio := lmul cfg in
  wide_ratio <- emul_or_illegal insn cfg wide_eew ;;
  if widen_illegal insn cfg wide_ratio narrow_ratio cfg.(sew) vector_rhs
     || mixed_width_sources_overlap (rd insn) wide_ratio wide_eew (rs2 insn) narrow_ratio cfg.(sew)
     || (vector_rhs
         && mixed_width_sources_overlap (rd insn) wide_ratio wide_eew (rs1 insn) narrow_ratio cfg.(sew))
  then illegal insn else
  let narrow_mask := element_mask cfg.(sew) in
  let wide_mask := element_mask wide_eew in
  start <- vstart_now ;;
  vl <- active_length cfg ;;
  mark_dirty ;;;
  for_elements (masked insn) start vl (fun index _ =>
    a <- get_element (rs2 insn) index cfg.(sew) ;;
    b <- vector_or_scalar vector_rhs insn index cfg.(sew) narrow_mask ;;
    product <- unwrap (widen_madd_product cfg.(sew) funct6 a b) ;;
    old <- get_element (rd insn) index wide_eew ;;
    put_element (rd insn) index wide_eew (add64 old (u64 product) .& wide_mask)) tt ;;;
  finish_vector.

(** ** Narrowing and fixed point *)

(** The legality tests of the instructions with a double-width source. *)
Definition narrow_illegal (insn : Z) (cfg : VectorConfig) (source_ratio : GroupRatio) (format : Z) : bool :=
  let wide_eew := cfg.(sew) * 2 in
  let destination_ratio := lmul cfg in
  negb (one_of format [0; 3; 4])
  || negb (validate_group (rd insn) destination_ratio 1)
  || negb (validate_group (rs2 insn) source_ratio 1)
  || ((format =? 0) && negb (validate_group (rs1 insn) destination_ratio 1))
  || negb (destination_source_overlap_legal (rd insn) destination_ratio cfg.(sew)
             (rs2 insn) source_ratio wide_eew)
  || ((format =? 0)
      && mixed_width_sources_overlap (rs2 insn) source_ratio wide_eew
           (rs1 insn) destination_ratio cfg.(sew))
  || masked_overlap insn (rd insn) destination_ratio
  || masked_source insn (rs2 insn) source_ratio wide_eew
  || ((format =? 0) && masked_source insn (rs1 insn) destination_ratio cfg.(sew)).

Definition exec_vector_narrow_shift (insn : Z) (cfg : VectorConfig) (arithmetic : bool) : Hart Cpu unit :=
  let wide_eew := cfg.(sew) * 2 in
  if 64 <? wide_eew then illegal insn else
  source_ratio <- emul_or_illegal insn cfg wide_eew ;;
  let format := funct3 insn in
  if narrow_illegal insn cfg source_ratio format then illegal insn else
  start <- vstart_now ;;
  vl <- active_length cfg ;;
  mark_dirty ;;;
  for_elements (masked insn) start vl (fun index _ =>
    shift <- shift_operand format insn index cfg.(sew) (illegal insn) ;;
    let shift := shift .& (wide_eew - 1) in
    source <- get_element (rs2 insn) index wide_eew ;;
    put_element (rd insn) index cfg.(sew)
      (if arithmetic then u64 (signed_element source wide_eew .>> shift) else source .>> shift)) tt ;;;
  finish_vector.

Definition average_val (sew vxrm : Z) (sgn subtract : bool) (a b : Z) : Z :=
  if sgn then
    u64 (fixed_round_signed (if subtract then signed_narrow a sew - signed_narrow b sew
                             else signed_narrow a sew + signed_narrow b sew) 1 vxrm)
  else if subtract then u64 (fixed_round_signed (a - b) 1 vxrm)
  else u64 (fixed_round_unsigned (a + b) 1 vxrm).

Definition exec_vector_average (insn : Z) (cfg : VectorConfig) (funct6 : Z) : Hart Cpu unit :=
  let format := funct3 insn in
  let vector_rhs := format =? 2 in
  if negb (one_of format [2; 6]) || negb (between 0x08 0x0b funct6) then illegal insn else
  integer_groups insn cfg false true vector_rhs ;;;
  let width_mask := element_mask cfg.(sew) in
  let sgn := negb ((funct6 .& 1) =? 0) in
  let subtract := negb ((funct6 .& 2) =? 0) in
  start <- vstart_now ;;
  vl <- active_length cfg ;;
  mark_dirty ;;;
  for_elements (masked insn) start vl (fun index _ =>
    a <- get_element (rs2 insn) index cfg.(sew) ;;
    b <- vector_or_scalar vector_rhs insn index cfg.(sew) width_mask ;;
    vxrm <- vxrm_now ;;
    put_element (rd insn) index cfg.(sew) (average_val cfg.(sew) vxrm sgn subtract a b .& width_mask)) tt ;;;
  finish_vector.

Definition exec_vector_scaling_shift (insn : Z) (cfg : VectorConfig) (arithmetic : bool) : Hart Cpu unit :=
  let format := funct3 insn in
  let vector_rhs := format =? 0 in
  if negb (one_of format [0; 3; 4]) then illegal insn else
  integer_groups insn cfg false true vector_rhs ;;;
  let width_mask := element_mask cfg.(sew) in
  start <- vstart_now ;;
  vl <- active_length cfg ;;
  mark_dirty ;;;
  for_elements (masked insn) start vl (fun index _ =>
    source <- get_element (rs2 insn) index cfg.(sew) ;;
    shift <- shift_operand format insn index cfg.(sew) panic ;;
    let shift := shift .& (cfg.(sew) - 1) in
    vxrm <- vxrm_now ;;
    let value :=
      if arithmetic then u64 (fixed_round_signed (signed_narrow source cfg.(sew)) shift vxrm)
      else u64 (fixed_round_unsigned source shift vxrm) in
    put_element (rd insn) index cfg.(sew) (value .& width_mask)) tt ;;;
  finish_vector.

(** [self.vector.vxsat |= saturated]. *)
Definition saturate (saturated : bool) : Hart Cpu unit :=
  update_vec (fun v => set_vxsat (v.(vxsat) || saturated) v).

Definition exec_vector_fractional_multiply (insn : Z) (cfg : VectorConfig) : Hart Cpu unit :=
  let format := funct3 insn in
  let vector_rhs := format =? 0 in
  if negb (one_of format [0; 4]) then illegal insn else
  integer_groups insn cfg false true vector_rhs ;;;
  let width_mask := element_mask cfg.(sew) in
  let minimum := - (1 .<< (cfg.(sew) - 1)) in
  let maximum := (1 .<< (cfg.(sew) - 1)) - 1 in
  start <- vstart_now ;;
  vl <- active_length cfg ;;
  mark_dirty ;;;
  saturated <- for_elements (masked insn) start vl (fun index saturated =>
    a <- get_element (rs2 insn) index cfg.(sew) ;;
    b <- vector_or_scalar vector_rhs insn index cfg.(sew) width_mask ;;
    vxrm <- vxrm_now ;;
    let product := signed_narrow a cfg.(sew) * signed_narrow b cfg.(sew) in
    let rounded := fixed_round_signed product (cfg.(sew) - 1) vxrm in
    let value := clamp minimum maximum rounded in
    put_element (rd insn) index cfg.(sew) (u64 value .& width_mask) ;;;
    ret (saturated || negb (value =? rounded))) false ;;
  saturate saturated ;;; finish_vector.

(** The clipped value and whether it differs from the rounded one. *)
Definition clip_val (sew vxrm : Z) (sgn : bool) (source shift : Z) : Z * bool :=
  if sgn then
    let rounded := fixed_round_signed (signed_narrow source (sew * 2)) shift vxrm in
    let clipped := clamp (- (1 .<< (sew - 1))) ((1 .<< (sew - 1)) - 1) rounded in
    (u64 clipped, negb (clipped =? rounded))
  else
    let rounded := fixed_round_unsigned source shift vxrm in
    let clipped := Z.min rounded (element_mask sew) in
    (u64 clipped, negb (clipped =? rounded)).

Definition exec_vector_clip (insn : Z) (cfg : VectorConfig) (sgn : bool) : Hart Cpu unit :=
  let wide_eew := cfg.(sew) * 2 in
  if 64 <? wide_eew then illegal insn else
  source_ratio <- emul_or_illegal insn cfg wide_eew ;;
  let format := funct3 insn in
  if narrow_illegal insn cfg source_ratio format then illegal insn else
  let destination_mask := element_mask cfg.(sew) in
  start <- vstart_now ;;
  vl <- active_length cfg ;;
  mark_dirty ;;;
  saturated <- for_elements (masked insn) start vl (fun index saturated =>
    shift <- shift_operand format insn index cfg.(sew) panic ;;
    let shift := shift .& (wide_eew - 1) in
    source <- get_element (rs2 insn) index wide_eew ;;
    vxrm <- vxrm_now ;;
    let '(value, clipped) := clip_val cfg.(sew) vxrm sgn source shift in
    put_element (rd insn) index cfg.(sew) (value .& destination_mask) ;;;
    ret (saturated || clipped)) false ;;
  saturate saturated ;;; finish_vector.

(** ** Single-width arithmetic *)

Definition bitwise_val (funct6 a b : Z) : Z :=
  if funct6 =? 0x09 then a .& b else if funct6 =? 0x0a then a .| b else a .^ b.

(** One chunk of [n] bytes of a bitwise operation on the flat register file. *)
Definition bitwise_chunk (funct6 d s2 s1 n offset : Z) : Hart Cpu unit :=
  v <- vec ;;
  a <- unwrap (ptr_read v (s2 * VLEN_BYTES + offset) n) ;;
  b <- unwrap (ptr_read v (s1 * VLEN_BYTES + offset) n) ;;
  v <- unwrap (ptr_write v (d * VLEN_BYTES + offset)
                 (to_le_bytes (Z.to_nat n) (bitwise_val funct6 (from_le_bytes a) (from_le_bytes b)))) ;;
  update_vec (fun _ => v).

(** The unmasked bitwise path: eight bytes at a time, then the rest. *)
Definition bitwise_bytes (funct6 d s2 s1 byte_count : Z) : Hart Cpu unit :=
  for_range 0 (byte_count / 8) (fun i _ => bitwise_chunk funct6 d s2 s1 8 (8 * i)) tt ;;;
  for_range (8 * (byte_count / 8)) byte_count (fun i _ => bitwise_chunk funct6 d s2 s1 1 i) tt.

Definition compare_val (sew funct6 a b : Z) : option bool :=
  if funct6 =? 0x18 then Some (a =? b)
  else if funct6 =? 0x19 then Some (negb (a =? b))
  else if funct6 =? 0x1a then Some (a <? b)
  else if funct6 =? 0x1b then Some (signed_element a sew <? signed_element b sew)
  else if funct6 =? 0x1c then Some (a <=? b)
  else if funct6 =? 0x1d then Some (signed_element a sew <=? signed_element b sew)
  else if funct6 =? 0x1e then Some (b <? a)
  else if funct6 =? 0x1f then Some (signed_element b sew <? signed_element a sew)
  else None.

(** A saturated signed result and whether it saturated. *)
Definition saturate_signed (sew value : Z) : Z * bool :=
  let minimum := - (1 .<< (sew - 1)) in
  let maximum := (1 .<< (sew - 1)) - 1 in
  (u64 (clamp minimum maximum value), (value <? minimum) || (maximum <? value)).

(** The result of an arithmetic operation, and whether it saturated. *)
Definition binary_val (sew funct6 a b : Z) : option (Z * bool) :=
  let mask := element_mask sew in
  if funct6 =? 0x00 then Some (add64 a b, false)
  else if funct6 =? 0x02 then Some (sub64 a b, false)
  else if funct6 =? 0x03 then Some (sub64 b a, false)
  else if funct6 =? 0x04 then Some (Z.min a b, false)
  else if funct6 =? 0x05 then
    Some (if signed_element a sew <? signed_element b sew then a else b, false)
  else if funct6 =? 0x06 then Some (Z.max a b, false)
  else if funct6 =? 0x07 then
    Some (if signed_element b sew <? signed_element a sew then a else b, false)
  else if funct6 =? 0x09 then Some (a .& b, false)
  else if funct6 =? 0x0a then Some (a .| b, false)
  else if funct6 =? 0x0b then Some (a .^ b, false)
  else if funct6 =? 0x20 then Some (if mask <? a + b then (mask, true) else (u64 (a + b), false))
  else if funct6 =? 0x21 then Some (saturate_signed sew (signed_element a sew + signed_element b sew))
  else if funct6 =? 0x22 then Some (if a <? b then (0, true) else (a - b, false))
  else if funct6 =? 0x23 then Some (saturate_signed sew (signed_element a sew - signed_element b sew))
  else if funct6 =? 0x25 then Some (shl64 a (b .& (sew - 1)), false)
  else if funct6 =? 0x28 then Some (a .>> (b .& (sew - 1)), false)
  else if funct6 =? 0x29 then Some (u64 (signed_element a sew .>> (b .& (sew - 1))), false)
  else None.

Definition supported_binary (funct6 format : Z) : bool :=
  if one_of funct6 [0x00; 0x09; 0x0a; 0x0b; 0x18; 0x19; 0x1c; 0x1d; 0x20; 0x21; 0x25; 0x28; 0x29]
  then one_of format [0; 3; 4]
  else if one_of funct6 [0x02; 0x04; 0x05; 0x06; 0x07; 0x1a; 0x1b; 0x22; 0x23]
  then one_of format [0; 4]
  else if one_of funct6 [0x03; 0x1e; 0x1f] then one_of format [3; 4]
  else false.

(** The second operand of OPIVV, OPIVI and OPIVX; shifts by an immediate take
    it unsigned. *)
Definition binary_operand (funct6 format s1 index sew : Z) : Hart Cpu Z :=
  if format =? 0 then get_element s1 index sew
  else if (format =? 3) && one_of funct6 [0x25; 0x28; 0x29] then ret s1
  else if format =? 3 then ret (simm5 s1)
  else if format =? 4 then x_reg s1
  else panic.

Definition exec_vector_integer_binary (insn : Z) (cfg : VectorConfig) (funct6 format : Z) : Hart Cpu unit :=
  let vm := negb (masked insn) in
  let d := rd insn in
  let s2 := rs2 insn in
  let s1 := rs1 insn in
  let comparison := between 0x18 0x1f funct6 in
  let move_or_merge := (funct6 =? 0x17) && one_of format [0; 3; 4] in
  if negb (supported_binary funct6 format) && negb move_or_merge then illegal insn else
  let needs_vs1 := format =? 0 in
  let needs_vs2 := negb move_or_merge || negb vm in
  if move_or_merge && vm && negb (s2 =? 0) then illegal insn else
  integer_groups insn cfg comparison needs_vs2 needs_vs1 ;;;
  let mask := element_mask cfg.(sew) in
  start <- vstart_now ;;
  vl <- active_length cfg ;;
  mark_dirty ;;;
  if vm && (start =? 0) && (format =? 0) && between 0x09 0x0b funct6
  then bitwise_bytes funct6 d s2 s1 (vl * (cfg.(sew) / 8)) ;;; finish_vector
  else
  saturated <- for_elements (negb move_or_merge && negb vm) start vl (fun index saturated =>
    a <- (if move_or_merge && vm then ret 0 else get_element s2 index cfg.(sew)) ;;
    b <- binary_operand funct6 format s1 index cfg.(sew) ;;
    let b := b .& mask in
    if comparison then
      result <- unwrap (compare_val cfg.(sew) funct6 a b) ;;
      write_mask_element d index result ;;;
      ret saturated
    else
      r <- (if move_or_merge then
              active <- (if vm then ret true else mask_bit index) ;;
              ret (if (active : bool) then b else a, false)
            else unwrap (binary_val cfg.(sew) funct6 a b)) ;;
      let '(value, clipped) := r in
      put_element d index cfg.(sew) (value .& mask) ;;;
      ret (saturated || clipped)) false ;;
  (if (saturated : bool) then update_vec (set_vxsat true) else ret tt) ;;;
  finish_vector.

(** vid.v. *)
Definition exec_vector_id (insn : Z) (cfg : VectorConfig) : Hart Cpu unit :=
  integer_groups insn cfg false false false ;;;
  start <- vstart_now ;;
  vl <- active_length cfg ;;
  mark_dirty ;;;
  for_elements (masked insn) start vl (fun index _ =>
    put_element (rd insn) index cfg.(sew) index) tt ;;;
  finish_vector.

(** vmv.s.x: element 0 is written when there is a body. *)
Definition move_to_element (insn : Z) (cfg : VectorConfig) (value : Z) : Hart Cpu unit :=
  v <- vec ;;
  (if (0 <? v.(vl)) && (v.(vstart) <? v.(vl))
   then put_element (rd insn) 0 cfg.(sew) value else ret tt) ;;;
  finish_vector ;;; mark_dirty.

(** ** Dispatch *)

Module Integer.
Definition exec_vector_integer (insn : Z) (cfg : VectorConfig) : Hart Cpu unit :=
  let format := funct3 insn in
  let funct6 := insn .>> 26 in
  let vm := negb (masked insn) in
  let d := rd insn in
  let s2 := rs2 insn in
  let s1 := rs1 insn in
  if (format =? 3) && (funct6 =? 0x27) then exec_vector_whole_move insn cfg
  else if (format =? 6) && (funct6 =? 0x10) && vm && (s2 =? 0) then
    value <- x_reg s1 ;; move_to_element insn cfg value
  else if (format =? 2) && (funct6 =? 0x10) && vm && (s1 =? 0) then
    value <- get_element s2 0 cfg.(sew) ;;
    modify (wr d (u64 (signed_element value cfg.(sew)))) ;;;
    finish_vector
  else if supported_binary funct6 format || ((funct6 =? 0x17) && one_of format [0; 3; 4]) then
    exec_vector_integer_binary insn cfg funct6 format
  else if (format =? 6) && one_of funct6 [0x0e; 0x0f] then
    exec_vector_slide1 insn cfg (funct6 =? 0x0e)
  else if (format =? 0) && (funct6 =? 0x0e) then exec_vector_gather_ei16 insn cfg
  else if one_of funct6 [0x0c; 0x0e; 0x0f] && one_of format [0; 3; 4] then
    exec_vector_slide_or_gather insn cfg funct6 format
  else if (format =? 2) && (funct6 =? 0x12) then exec_vector_extension insn cfg
  else if (format =? 2) && (funct6 =? 0x14) && (s2 =? 0) && (s1 =? 0x11) then exec_vector_id insn cfg
  else if (format =? 2) && (funct6 =? 0x10) && one_of s1 [0x10; 0x11] then
    exec_vector_mask_query insn cfg
  else if (format =? 2) && (funct6 =? 0x14) && one_of s1 [1; 2; 3] then
    exec_vector_mask_prefix insn cfg
  else if (format =? 2) && (funct6 =? 0x14) && (s1 =? 0x10) then exec_vector_iota insn cfg
  else if (format =? 2) && (funct6 =? 0x17) then exec_vector_compress insn cfg
  else if (format =? 2) && between 0x18 0x1f funct6 then exec_vector_mask_logic insn cfg funct6
  else if (format =? 2) && between 0x00 0x07 funct6 then exec_vector_reduction insn cfg funct6
  else if (format =? 0) && one_of funct6 [0x30; 0x31] then
    exec_vector_widen_reduction insn cfg (funct6 =? 0x31)
  else if between 0x10 0x13 funct6 && one_of format [0; 3; 4] then exec_vector_carry insn cfg funct6
  else if one_of format [2; 6] && between 0x20 0x27 funct6 then
    exec_vector_multiply_divide insn cfg funct6 (format =? 2)
  else if one_of format [2; 6] && between 0x30 0x37 funct6 then
    exec_vector_widen_add_sub insn cfg funct6
  else if one_of format [2; 6] && one_of funct6 [0x38; 0x3a; 0x3b] then
    exec_vector_widen_multiply insn cfg funct6
  else if one_of format [2; 6] && between 0x3c 0x3f funct6 then
    exec_vector_widen_madd insn cfg funct6
  else if one_of format [2; 6] && one_of funct6 [0x29; 0x2b; 0x2d; 0x2f] then
    exec_vector_integer_madd insn cfg funct6
  else if one_of format [2; 6] && between 0x08 0x0b funct6 then exec_vector_average insn cfg funct6
  else if one_of format [0; 4] && (funct6 =? 0x27) then exec_vector_fractional_multiply insn cfg
  else if one_of format [0; 3; 4] && one_of funct6 [0x2a; 0x2b] then
    exec_vector_scaling_shift insn cfg (funct6 =? 0x2b)
  else if (format =? 6) && one_of funct6 [0x0e; 0x0f] then
    exec_vector_slide1 insn cfg (funct6 =? 0x0e)
  else if (format =? 0) && (funct6 =? 0x0e) then exec_vector_gather_ei16 insn cfg
  else if one_of funct6 [0x0c; 0x0e; 0x0f] && one_of format [0; 3; 4] then
    exec_vector_slide_or_gather insn cfg funct6 format
  else if one_of funct6 [0x2c; 0x2d] && one_of format [0; 3; 4] then
    exec_vector_narrow_shift insn cfg (funct6 =? 0x2d)
  else if one_of funct6 [0x2e; 0x2f] && one_of format [0; 3; 4] then
    exec_vector_clip insn cfg (funct6 =? 0x2f)
  else illegal insn.
End Integer.
