(* ===== verification/VecFloat.v ===== *)
(** * Vector floating-point instructions (cpu/vector.rs)

    The OPFVV and OPFVF families over the software floating point, the
    seven-bit reciprocal estimates and the conversions. *)

From S2P Require Import Prelude Exception Decode Csr State Bus Mmu Trap CsrOps Vector SoftFp Exec.
From S2P Require Import VecBase VecInt.

(** ** Reciprocal estimates *)

Definition FRSQRT7_TABLE : list Z := [
  52; 51; 50; 48; 47; 46; 44; 43; 42; 41; 40; 39; 38; 36; 35; 34; 33; 32; 31; 30; 30; 29; 28; 27;
  26; 25; 24; 23; 23; 22; 21; 20; 19; 19; 18; 17; 16; 16; 15; 14; 14; 13; 12; 12; 11; 10; 10; 9;
  9; 8; 7; 7; 6; 6; 5; 4; 4; 3; 3; 2; 2; 1; 1; 0; 127; 125; 123; 121; 119; 118; 116; 114; 113;
  111; 109; 108; 106; 105; 103; 102; 100; 99; 97; 96; 95; 93; 92; 91; 90; 88; 87; 86; 85; 84; 83;
  82; 80; 79; 78; 77; 76; 75; 74; 73; 72; 71; 70; 70; 69; 68; 67; 66; 65; 64; 63; 63; 62; 61; 60;
  59; 59; 58; 57; 56; 56; 55; 54; 53].

Definition FREC7_TABLE : list Z := [
  127; 125; 123; 121; 119; 117; 116; 114; 112; 110; 109; 107; 105; 104; 102; 100; 99; 97; 96; 94;
  93; 91; 90; 88; 87; 85; 84; 83; 81; 80; 79; 77; 76; 75; 74; 72; 71; 70; 69; 68; 66; 65; 64; 63;
  62; 61; 60; 59; 58; 57; 56; 55; 54; 53; 52; 51; 50; 49; 48; 47; 46; 45; 44; 43; 42; 41; 40; 40;
  39; 38; 37; 36; 35; 35; 34; 33; 32; 31; 31; 30; 29; 28; 28; 27; 26; 25; 25; 24; 23; 23; 22; 21;
  21; 20; 19; 19; 18; 17; 17; 16; 15; 15; 14; 14; 13; 12; 12; 11; 11; 10; 9; 9; 8; 8; 7; 7; 6; 5;
  5; 4; 4; 3; 3; 2; 2; 1; 1; 0].

Section Estimates.
Context (exp_bits frac_bits : Z).

Definition fp_estimate_parts (value : Z) : Z * Z * Z :=
  let frac_mask := (1 .<< frac_bits) - 1 in
  let exp_mask := (1 .<< exp_bits) - 1 in
  (value .>> (frac_bits + exp_bits), (value .>> frac_bits) .& exp_mask, value .& frac_mask).

(** [while fraction >> (frac_bits - 1) == 0]; out of fuel only on a zero
    fraction, on which the source would not return. *)
Fixpoint estimate_normalize (fuel : nat) (exponent fraction : Z) : option (Z * Z) :=
  if (fraction .>> (frac_bits - 1)) =? 0 then
    match fuel with
    | O => None
    | S fuel => estimate_normalize fuel (sub64 exponent 1) (shl64 fraction 1)
    end
  else Some (exponent, fraction).

(** A subnormal operand is normalized first. *)
Definition estimate_subnormal (exponent fraction : Z) : option (Z * Z) :=
  if exponent =? 0 then
    '(exponent, fraction) ← estimate_normalize (Z.to_nat frac_bits) exponent fraction;
    Some (exponent, shl64 fraction 1 .& ((1 .<< frac_bits) - 1))
  else Some (exponent, fraction).

Definition rvv_frsqrt7 (value flags : Z) : option (Z * Z) :=
  let '(sign, exponent, fraction) := fp_estimate_parts value in
  let exp_mask := (1 .<< exp_bits) - 1 in
  let quiet_bit := 1 .<< (frac_bits - 1) in
  let infinity := exp_mask .<< frac_bits in
  let canonical_nan := infinity .| quiet_bit in
  if (exponent =? exp_mask) && negb (fraction =? 0) then
    Some (canonical_nan, raise_if ((fraction .& quiet_bit) =? 0) FFLAG_INVALID_OP flags)
  else if negb (sign =? 0) && (negb (exponent =? 0) || negb (fraction =? 0)) then
    Some (canonical_nan, flags .| FFLAG_INVALID_OP)
  else if (exponent =? 0) && (fraction =? 0) then
    Some ((sign .<< (exp_bits + frac_bits)) .| infinity, flags .| FFLAG_DIVIDE_ZERO)
  else if exponent =? exp_mask then Some (0, flags)
  else
    '(exponent, fraction) ← estimate_subnormal exponent fraction;
    let index := ((exponent .& 1) .<< 6) .| (fraction .>> (frac_bits - 6)) in
    entry ← FRSQRT7_TABLE !! Z.to_nat index;
    let output_fraction := entry .<< (frac_bits - 7) in
    let half_exp_mask := (1 .<< (exp_bits - 1)) - 1 in
    let output_exponent := add64 (3 * half_exp_mask) (not64 exponent) / 2 in
    Some ((sign .<< (exp_bits + frac_bits)) .| ((output_exponent .& exp_mask) .<< frac_bits)
            .| output_fraction, flags).

Definition rvv_frec7 (value rm flags : Z) : option (Z * Z) :=
  let '(sign, exponent0, fraction) := fp_estimate_parts value in
  let exp_mask := (1 .<< exp_bits) - 1 in
  let frac_mask := (1 .<< frac_bits) - 1 in
  let quiet_bit := 1 .<< (frac_bits - 1) in
  let infinity := exp_mask .<< frac_bits in
  let sign_field := sign .<< (exp_bits + frac_bits) in
  if (exponent0 =? exp_mask) && (fraction =? 0) then Some (sign_field, flags)
  else if (exponent0 =? 0) && (fraction =? 0) then
    Some (sign_field .| infinity, flags .| FFLAG_DIVIDE_ZERO)
  else if exponent0 =? exp_mask then
    Some (infinity .| quiet_bit, raise_if ((fraction .& quiet_bit) =? 0) FFLAG_INVALID_OP flags)
  else
    '(exponent, fraction) ← estimate_subnormal exponent0 fraction;
    if (exponent0 =? 0) && negb (exponent =? 0) && negb (exponent =? U64_MAX) then
      let greatest_finite := infinity - 1 in
      let finite := (rm =? RM_RTZ) || ((rm =? RM_RDN) && (sign =? 0))
                    || ((rm =? RM_RUP) && negb (sign =? 0)) in
      Some (sign_field .| (if finite then greatest_finite else infinity),
            flags .| (FFLAG_OVERFLOW .| FFLAG_INEXACT))
    else
      entry ← FREC7_TABLE !! Z.to_nat (fraction .>> (frac_bits - 7));
      let output_fraction := entry .<< (frac_bits - 7) in
      let half_exp_mask := (1 .<< (exp_bits - 1)) - 1 in
      let output_exponent := add64 (2 * half_exp_mask) (not64 exponent) in
      let '(output_fraction, output_exponent) :=
        if (output_exponent =? 0) || (output_exponent =? U64_MAX) then
          let output_fraction := (output_fraction .>> 1) .| (1 .<< (frac_bits - 1)) in
          if output_exponent =? U64_MAX then (output_fraction .>> 1, 0)
          else (output_fraction, output_exponent)
        else (output_fraction, output_exponent) in
      Some (sign_field .| ((output_exponent .& exp_mask) .<< frac_bits)
              .| (output_fraction .& frac_mask), flags).
End Estimates.

(** ** Element operations *)

Definition fp32_to_integer_width (value width : Z) (unsigned : bool) (rm flags : Z) : Z * Z :=
  let '(converted, local) := sf32.cvt_to_i64 value rm 0 unsigned in
  let invalid := negb ((local .& FFLAG_INVALID_OP) =? 0) in
  let saturated_flags := flags .| ((local .&~ FFLAG_INEXACT) .| FFLAG_INVALID_OP) in
  if unsigned then
    let maximum := element_mask width in
    if invalid || (maximum <? converted) then (Z.min converted maximum, saturated_flags)
    else (converted, flags .| local)
  else
    let converted := i64 converted in
    let minimum := - (1 .<< (width - 1)) in
    let maximum := (1 .<< (width - 1)) - 1 in
    if invalid || (converted <? minimum) || (maximum <? converted)
    then (u64 (clamp minimum maximum converted) .& element_mask width, saturated_flags)
    else (u64 converted .& element_mask width, flags .| local).

Definition scalar_float_bits (reg sew : Z) : Hart Cpu Z :=
  value <- gets (fun c => fr c reg) ;;
  ret (if sew =? 32 then
         if (value .>> 32) =? 0xffffffff then u32 value else sf32.QNAN
       else value).

Definition write_scalar_float_bits (reg sew value : Z) : Hart Cpu unit :=
  modify (set_fr reg (if sew =? 32 then 0xffffffff00000000 .| u32 value else value)).

(** The sign-injection operations of a format with sign mask [m]. *)
Definition sign_inject (m a b : Z) : Z := (a .&~ m) .| (b .& m).

Definition SIGN32 : Z := softfp.SIGN_MASK 32.
Definition SIGN64 : Z := softfp.SIGN_MASK 64.

Definition vector_fp_binary (sew funct6 a b rm flags : Z) : option (Z * Z) :=
  if sew =? 32 then
    let a := u32 a in
    let b := u32 b in
    if funct6 =? 0x00 then Some (sf32.add a b rm flags)
    else if funct6 =? 0x02 then Some (sf32.sub a b rm flags)
    else if funct6 =? 0x04 then Some (sf32.min a b flags)
    else if funct6 =? 0x06 then Some (sf32.max a b flags)
    else if funct6 =? 0x08 then Some (sign_inject SIGN32 a b, flags)
    else if funct6 =? 0x09 then Some (sign_inject SIGN32 a (Z.lnot b), flags)
    else if funct6 =? 0x0a then Some (sign_inject SIGN32 a (a .^ b), flags)
    else if funct6 =? 0x20 then Some (sf32.div a b rm flags)
    else if funct6 =? 0x21 then Some (sf32.div b a rm flags)
    else if funct6 =? 0x24 then Some (sf32.mul a b rm flags)
    else if funct6 =? 0x27 then Some (sf32.sub b a rm flags)
    else None
  else if sew =? 64 then
    if funct6 =? 0x00 then Some (sf64.add a b rm flags)
    else if funct6 =? 0x02 then Some (sf64.sub a b rm flags)
    else if funct6 =? 0x04 then Some (sf64.min a b flags)
    else if funct6 =? 0x06 then Some (sf64.max a b flags)
    else if funct6 =? 0x08 then Some (sign_inject SIGN64 a b, flags)
    else if funct6 =? 0x09 then Some (sign_inject SIGN64 a (Z.lnot b), flags)
    else if funct6 =? 0x0a then Some (sign_inject SIGN64 a (a .^ b), flags)
    else if funct6 =? 0x20 then Some (sf64.div a b rm flags)
    else if funct6 =? 0x21 then Some (sf64.div b a rm flags)
    else if funct6 =? 0x24 then Some (sf64.mul a b rm flags)
    else if funct6 =? 0x27 then Some (sf64.sub b a rm flags)
    else None
  else None.

Definition vector_fp_fma (sew funct6 old a b rm flags : Z) : option (Z * Z) :=
  let '(x, y, z) := if funct6 <? 0x2c then (old, b, a) else (a, b, old) in
  let negate_product := one_of funct6 [0x29; 0x2b; 0x2d; 0x2f] in
  let negate_addend := one_of funct6 [0x29; 0x2a; 0x2d; 0x2e] in
  if sew =? 32 then
    let x := if negate_product then x .^ SIGN32 else x in
    let z := if negate_addend then z .^ SIGN32 else z in
    Some (sf32.fma (u32 x) (u32 y) (u32 z) rm flags)
  else if sew =? 64 then
    let x := if negate_product then x .^ SIGN64 else x in
    let z := if negate_addend then z .^ SIGN64 else z in
    Some (sf64.fma x y z rm flags)
  else None.

(** [!relation]. *)
Definition negated (r : bool * Z) : bool * Z := (negb (fst r), snd r).

Definition vector_fp_compare (sew funct6 a b flags : Z) : option (bool * Z) :=
  if sew =? 32 then
    let a := u32 a in
    let b := u32 b in
    if funct6 =? 0x18 then Some (sf32.eq_quiet a b flags)
    else if funct6 =? 0x19 then Some (sf32.le a b flags)
    else if funct6 =? 0x1b then Some (sf32.lt a b flags)
    else if funct6 =? 0x1c then Some (negated (sf32.eq_quiet a b flags))
    else if funct6 =? 0x1d then Some (sf32.lt b a flags)
    else if funct6 =? 0x1f then Some (sf32.le b a flags)
    else None
  else if sew =? 64 then
    if funct6 =? 0x18 then Some (sf64.eq_quiet a b flags)
    else if funct6 =? 0x19 then Some (sf64.le a b flags)
    else if funct6 =? 0x1b then Some (sf64.lt a b flags)
    else if funct6 =? 0x1c then Some (negated (sf64.eq_quiet a b flags))
    else if funct6 =? 0x1d then Some (sf64.lt b a flags)
    else if funct6 =? 0x1f then Some (sf64.le b a flags)
    else None
  else None.

(** [self.fcsr |= flags & 0x1f]. *)
Definition accrue (flags : Z) : Hart Cpu unit :=
  modify (or_fflags flags).

(** ** Unary operations and conversions *)

Definition float_unary_val (sew selector source rm flags : Z) : option (Z * Z) :=
  if sew =? 32 then
    let source := u32 source in
    if selector =? 0 then sf32.sqrt source rm flags
    else if selector =? 4 then rvv_frsqrt7 8 23 source flags
    else if selector =? 5 then rvv_frec7 8 23 source rm flags
    else if selector =? 0x10 then Some (sf32.fclass source, flags)
    else None
  else
    if selector =? 0 then sf64.sqrt source rm flags
    else if selector =? 4 then rvv_frsqrt7 11 52 source flags
    else if selector =? 5 then rvv_frec7 11 52 source rm flags
    else if selector =? 0x10 then Some (sf64.fclass source, flags)
    else None.

Definition exec_vector_float_unary (insn : Z) (cfg : VectorConfig) (selector : Z) : Hart Cpu unit :=
  let ratio := lmul cfg in
  if negb (validate_group (rd insn) ratio 1) || negb (validate_group (rs2 insn) ratio 1)
     || masked_overlap insn (rd insn) ratio || masked_source insn (rs2 insn) ratio cfg.(sew)
     || negb (one_of selector [0; 4; 5; 0x10])
  then illegal insn else
  rm <- (if (selector =? 5) || (selector =? 0) then rounding_mode insn else ret 0) ;;
  start <- vstart_now ;;
  vl <- active_length cfg ;;
  mark_dirty ;;; mark_fp_dirty ;;;
  flags <- for_elements (masked insn) start vl (fun index flags =>
    source <- get_element (rs2 insn) index cfg.(sew) ;;
    r <- unwrap (float_unary_val cfg.(sew) selector source rm flags) ;;
    let '(value, flags) := r in
    put_element (rd insn) index cfg.(sew) value ;;; ret flags) 0 ;;
  accrue flags ;;; finish_vector.

Definition float_convert_val (selector source_eew destination_eew source rm flags : Z) : option (Z * Z) :=
  let source32 := u32 source in
  if one_of selector [0x00; 0x06] then
    Some (if source_eew =? 32 then sf32.cvt_to_i32 source32 rm flags true
          else sf64.cvt_to_i64 source rm flags true)
  else if one_of selector [0x01; 0x07] then
    Some (if source_eew =? 32 then sf32.cvt_to_i32 source32 rm flags false
          else sf64.cvt_to_i64 source rm flags false)
  else if selector =? 0x02 then
    Some (if destination_eew =? 32 then sf32.cvt_from_i32 source32 rm flags true
          else sf64.cvt_from_i64 source rm flags true)
  else if selector =? 0x03 then
    Some (if destination_eew =? 32 then sf32.cvt_from_i32 source32 rm flags false
          else sf64.cvt_from_i64 source rm flags false)
  else if one_of selector [0x08; 0x0e] then Some (sf32.cvt_to_i64 source32 rm flags true)
  else if one_of selector [0x09; 0x0f] then Some (sf32.cvt_to_i64 source32 rm flags false)
  else if selector =? 0x0a then
    Some (if destination_eew =? 32 then sf32.cvt_from_i32 (u16 source) rm flags true
          else sf64.cvt_from_i32 source32 rm flags true)
  else if selector =? 0x0b then
    Some (if destination_eew =? 32 then
            sf32.cvt_from_i32 (u32 (i32 (signed_element source source_eew))) rm flags false
          else sf64.cvt_from_i32 source32 rm flags false)
  else if selector =? 0x0c then Some (cvt_sf32_sf64 source32 flags)
  else if one_of selector [0x10; 0x16] then
    Some (if source_eew =? 32 then fp32_to_integer_width source32 destination_eew true rm flags
          else sf64.cvt_to_i32 source rm flags true)
  else if one_of selector [0x11; 0x17] then
    Some (if source_eew =? 32 then fp32_to_integer_width source32 destination_eew false rm flags
          else sf64.cvt_to_i32 source rm flags false)
  else if selector =? 0x12 then Some (sf32.cvt_from_i64 source rm flags true)
  else if selector =? 0x13 then Some (sf32.cvt_from_i64 source rm flags false)
  else if selector =? 0x14 then Some (cvt_sf64_sf32 source rm flags)
  else if selector =? 0x15 then Some (cvt_sf64_sf32_rod source flags)
  else None.

(** The widths of a conversion, [None] for an undefined selector. *)
Definition convert_widths (sew selector : Z) : option (Z * Z) :=
  if between 0x00 0x07 selector then Some (sew, sew)
  else if between 0x08 0x0f selector then Some (sew, sew * 2)
  else if between 0x10 0x17 selector then Some (sew * 2, sew)
  else None.

Definition convert_supported (sew selector : Z) : bool :=
  if between 0x00 0x03 selector || one_of selector [0x06; 0x07] then one_of sew [32; 64]
  else if one_of selector [0x08; 0x09; 0x0c; 0x0e; 0x0f] then sew =? 32
  else if one_of selector [0x0a; 0x0b] then one_of sew [16; 32]
  else if one_of selector [0x10; 0x11; 0x16; 0x17] then one_of sew [16; 32]
  else if between 0x12 0x15 selector then sew =? 32
  else false.

Definition exec_vector_float_convert (insn : Z) (cfg : VectorConfig) (selector : Z) : Hart Cpu unit :=
  widths <- ok_or (convert_widths cfg.(sew) selector) (IllegalInstruction insn) ;;
  let '(source_eew, destination_eew) := widths in
  if negb (convert_supported cfg.(sew) selector) then illegal insn else
  source_ratio <- emul_or_illegal insn cfg source_eew ;;
  destination_ratio <- emul_or_illegal insn cfg destination_eew ;;
  if negb (validate_group (rd insn) destination_ratio 1)
     || negb (validate_group (rs2 insn) source_ratio 1)
     || negb (destination_source_overlap_legal (rd insn) destination_ratio destination_eew
                (rs2 insn) source_ratio source_eew)
     || masked_overlap insn (rd insn) destination_ratio
     || masked_source insn (rs2 insn) source_ratio source_eew
  then illegal insn else
  let operation := selector .& 7 in
  rm <- (if one_of operation [6; 7] then ret RM_RTZ
         else if selector =? 0x15 then ret RM_RTZ
         else rounding_mode insn) ;;
  start <- vstart_now ;;
  vl <- active_length cfg ;;
  mark_dirty ;;; mark_fp_dirty ;;;
  flags <- for_elements (masked insn) start vl (fun index flags =>
    source <- get_element (rs2 insn) index source_eew ;;
    r <- ok_or (float_convert_val selector source_eew destination_eew source rm flags)
           (IllegalInstruction insn) ;;
    let '(value, flags) := r in
    put_element (rd insn) index destination_eew value ;;; ret flags) 0 ;;
  accrue flags ;;; finish_vector.

(** ** Widening *)

(** [scalar.unwrap_or_else(|| read_element(rs1))]. *)
Definition scalar_or_element (scalar : option Z) (reg index eew : Z) : Hart Cpu Z :=
  match scalar with Some s => ret s | None => get_element reg index eew end.

(** [(!vector_rhs).then(|| scalar_float_bits(rs1))]. *)
Definition float_scalar (vector_rhs : bool) (reg sew : Z) : Hart Cpu (option Z) :=
  if vector_rhs then ret None else s <- scalar_float_bits reg sew ;; ret (Some s).

Definition float_widen_val (funct6 lhs rhs rm flags : Z) : option (Z * Z) :=
  if one_of funct6 [0x30; 0x34] then Some (sf64.add lhs rhs rm flags)
  else if one_of funct6 [0x32; 0x36] then Some (sf64.sub lhs rhs rm flags)
  else if funct6 =? 0x38 then Some (sf64.mul lhs rhs rm flags)
  else None.

Definition exec_vector_float_widen_binary (insn : Z) (cfg : VectorConfig) (funct6 : Z) : Hart Cpu unit :=
  let wide_eew := cfg.(sew) * 2 in
  if negb ((cfg.(sew) =? 32) && (wide_eew =? 64)) then illegal insn else
  let format := funct3 insn in
  let vector_rhs := format =? 1 in
  if negb (one_of format [1; 5]) || negb (one_of funct6 [0x30; 0x32; 0x34; 0x36; 0x38])
  then illegal insn else
  let narrow_ratio := lmul cfg in
  wide_ratio <- emul_or_illegal insn cfg wide_eew ;;
  let wide_left := one_of funct6 [0x34; 0x36] in
  let left_ratio := if wide_left then wide_ratio else narrow_ratio in
  let left_eew := if wide_left then wide_eew else cfg.(sew) in
  if widen_illegal insn cfg wide_ratio left_ratio left_eew vector_rhs
     || (wide_left && vector_rhs
         && mixed_width_sources_overlap (rs2 insn) wide_ratio wide_eew (rs1 insn) narrow_ratio cfg.(sew))
  then illegal insn else
  rm <- rounding_mode insn ;;
  scalar <- float_scalar vector_rhs (rs1 insn) cfg.(sew) ;;
  start <- vstart_now ;;
  vl <- active_length cfg ;;
  mark_dirty ;;; mark_fp_dirty ;;;
  flags <- for_elements (masked insn) start vl (fun index flags =>
    lhs <- get_element (rs2 insn) index left_eew ;;
    let '(lhs, flags) := if wide_left then (lhs, flags) else cvt_sf32_sf64 (u32 lhs) flags in
    narrow_right <- scalar_or_element scalar (rs1 insn) index cfg.(sew) ;;
    let '(rhs, flags) := cvt_sf32_sf64 (u32 narrow_right) flags in
    r <- unwrap (float_widen_val funct6 lhs rhs rm flags) ;;
    let '(value, flags) := r in
    put_element (rd insn) index wide_eew value ;;; ret flags) 0 ;;
  accrue flags ;;; finish_vector.

Definition exec_vector_float_widen_fma (insn : Z) (cfg : VectorConfig) (funct6 : Z) : Hart Cpu unit :=
  let wide_eew := cfg.(sew) * 2 in
  if negb ((cfg.(sew) =? 32) && (wide_eew =? 64)) || negb (between 0x3c 0x3f funct6)
  then illegal insn else
  let format := funct3 insn in
  let vector_rhs := format =? 1 in
  if negb (one_of format [1; 5]) then illegal insn else
  let narrow_ratio := lmul cfg in
  wide_ratio <- emul_or_illegal insn cfg wide_eew ;;
  if widen_illegal insn cfg wide_ratio narrow_ratio cfg.(sew) vector_rhs
     || mixed_width_sources_overlap (rd insn) wide_ratio wide_eew (rs2 insn) narrow_ratio cfg.(sew)
     || (vector_rhs
         && mixed_width_sources_overlap (rd insn) wide_ratio wide_eew (rs1 insn) narrow_ratio cfg.(sew))
  then illegal insn else
  rm <- rounding_mode insn ;;
  scalar <- float_scalar vector_rhs (rs1 insn) cfg.(sew) ;;
  start <- vstart_now ;;
  vl <- active_length cfg ;;
  mark_dirty ;;; mark_fp_dirty ;;;
  flags <- for_elements (masked insn) start vl (fun index flags =>
    narrow_a <- get_element (rs2 insn) index cfg.(sew) ;;
    let '(a, flags) := cvt_sf32_sf64 (u32 narrow_a) flags in
    narrow_b <- scalar_or_element scalar (rs1 insn) index cfg.(sew) ;;
    let '(b, flags) := cvt_sf32_sf64 (u32 narrow_b) flags in
    old <- get_element (rd insn) index wide_eew ;;
    let product_left := if one_of funct6 [0x3d; 0x3f] then a .^ SIGN64 else a in
    let addend := if one_of funct6 [0x3d; 0x3e] then old .^ SIGN64 else old in
    let '(value, flags) := sf64.fma product_left b addend rm flags in
    put_element (rd insn) index wide_eew value ;;; ret flags) 0 ;;
  accrue flags ;;; finish_vector.

Definition exec_vector_float_widen_reduction (insn : Z) (cfg : VectorConfig) : Hart Cpu unit :=
  let wide_eew := cfg.(sew) * 2 in
  vstart <- vstart_now ;;
  if negb (vstart =? 0) || negb ((cfg.(sew) =? 32) && (wide_eew =? 64))
     || negb (validate_group (rs2 insn) (lmul cfg) 1)
     || mixed_width_sources_overlap (rs2 insn) (lmul cfg) cfg.(sew) (rs1 insn) MASK_REGISTER_RATIO wide_eew
     || masked_source insn (rs2 insn) (lmul cfg) cfg.(sew)
     || masked_source insn (rs1 insn) MASK_REGISTER_RATIO wide_eew
  then illegal insn else
  rm <- rounding_mode insn ;;
  accumulator <- get_element (rs1 insn) 0 wide_eew ;;
  vl <- active_length cfg ;;
  if vl =? 0 then finish_vector else
  r <- for_elements (masked insn) 0 vl (fun index r =>
    let '(accumulator, flags) := r in
    narrow <- get_element (rs2 insn) index cfg.(sew) ;;
    let '(source, flags) := cvt_sf32_sf64 (u32 narrow) flags in
    ret (sf64.add accumulator source rm flags)) (accumulator, 0) ;;
  let '(accumulator, flags) := r in
  put_element (rd insn) 0 wide_eew accumulator ;;;
  accrue flags ;;; mark_dirty ;;; mark_fp_dirty ;;; finish_vector.

(** ** Single-width operations *)

(** vfmv.f.s. *)
Definition move_from_element (insn : Z) (cfg : VectorConfig) : Hart Cpu unit :=
  value <- get_element (rs2 insn) 0 cfg.(sew) ;;
  write_scalar_float_bits (rd insn) cfg.(sew) value ;;;
  finish_vector ;;; mark_dirty ;;; mark_fp_dirty.

(** vfmerge.vfm and vfmv.v.f. *)
Definition exec_vector_float_merge (insn : Z) (cfg : VectorConfig) : Hart Cpu unit :=
  let vm := negb (masked insn) in
  let ratio := lmul cfg in
  if negb (validate_group (rd insn) ratio 1)
     || (negb vm && negb (validate_group (rs2 insn) ratio 1))
     || (vm && negb (rs2 insn =? 0))
     || masked_overlap insn (rd insn) ratio || masked_source insn (rs2 insn) ratio cfg.(sew)
  then illegal insn else
  scalar <- scalar_float_bits (rs1 insn) cfg.(sew) ;;
  start <- vstart_now ;;
  vl <- active_length cfg ;;
  mark_dirty ;;;
  for_range start vl (fun index _ =>
    chosen <- (if vm then ret true else mask_bit index) ;;
    value <- (if (chosen : bool) then ret scalar else get_element (rs2 insn) index cfg.(sew)) ;;
    put_element (rd insn) index cfg.(sew) value) tt ;;;
  finish_vector.

(** vfslide1up.vf and vfslide1down.vf, over a copy of the vector state. *)
Definition exec_vector_float_slide1 (insn : Z) (cfg : VectorConfig) (funct6 : Z) : Hart Cpu unit :=
  let vm := negb (masked insn) in
  let ratio := lmul cfg in
  if negb (validate_group (rd insn) ratio 1) || negb (validate_group (rs2 insn) ratio 1)
     || ((funct6 =? 0x0e) && (rd insn =? rs2 insn))
     || masked_overlap insn (rd insn) ratio || masked_source insn (rs2 insn) ratio cfg.(sew)
  then illegal insn else
  source <- vec ;;
  scalar <- scalar_float_bits (rs1 insn) cfg.(sew) ;;
  start <- vstart_now ;;
  vl <- active_length cfg ;;
  mark_dirty ;;;
  for_range start vl (fun index _ =>
    active <- (if vm then ret true else unwrap (register_bit source 0 index)) ;;
    if negb active then ret tt else
    value <-
      (if funct6 =? 0x0e then
         if index =? 0 then ret scalar
         else unwrap (read_element source (rs2 insn) (index - 1) cfg.(sew))
       else if index + 1 =? vl then ret scalar
       else unwrap (read_element source (rs2 insn) (index + 1) cfg.(sew))) ;;
    put_element (rd insn) index cfg.(sew) value) tt ;;;
  finish_vector.

(** vfred{o,u}sum, vfredmin, vfredmax. *)
Definition exec_vector_float_reduction (insn : Z) (cfg : VectorConfig) (funct6 : Z) : Hart Cpu unit :=
  let ratio := lmul cfg in
  let selector := rs1 insn in
  vstart <- vstart_now ;;
  if negb (vstart =? 0) || negb (validate_group (rs2 insn) ratio 1)
     || masked_source insn (rs2 insn) ratio cfg.(sew)
     || masked_source insn selector MASK_REGISTER_RATIO cfg.(sew)
  then illegal insn else
  rm <- (if one_of funct6 [0x01; 0x03] then rounding_mode insn else ret 0) ;;
  accumulator <- get_element selector 0 cfg.(sew) ;;
  vl <- active_length cfg ;;
  if vl =? 0 then finish_vector else
  r <- for_elements (masked insn) 0 vl (fun index r =>
    let '(accumulator, flags) := r in
    value <- get_element (rs2 insn) index cfg.(sew) ;;
    unwrap (vector_fp_binary cfg.(sew)
              (if funct6 =? 0x05 then 0x04 else if funct6 =? 0x07 then 0x06 else 0x00)
              accumulator value rm flags)) (accumulator, 0) ;;
  let '(accumulator, flags) := r in
  put_element (rd insn) 0 cfg.(sew) accumulator ;;;
  accrue flags ;;; mark_dirty ;;; mark_fp_dirty.

(** The arithmetic, comparison and fused families. *)
Definition exec_vector_float_arith (insn : Z) (cfg : VectorConfig) (format funct6 : Z) : Hart Cpu unit :=
  let selector := rs1 insn in
  let ratio := lmul cfg in
  let comparison := one_of funct6 [0x18; 0x19; 0x1b; 0x1c; 0x1d; 0x1f] in
  let fused := between 0x28 0x2f funct6 in
  let ordinary :=
    one_of funct6 [0x00; 0x02; 0x04; 0x06; 0x08; 0x09; 0x0a; 0x20; 0x21; 0x24; 0x27] in
  let destination_ok :=
    if comparison then
      (rd insn <? VREG_COUNT)
      && destination_source_overlap_legal (rd insn) MASK_REGISTER_RATIO 1 (rs2 insn) ratio cfg.(sew)
      && (negb (format =? 1)
          || destination_source_overlap_legal (rd insn) MASK_REGISTER_RATIO 1 selector ratio cfg.(sew))
    else validate_group (rd insn) ratio 1 && negb (masked_overlap insn (rd insn) ratio) in
  if (negb comparison && negb fused && negb ordinary) || negb (one_of format [1; 5])
     || negb (validate_group (rs2 insn) ratio 1)
     || ((format =? 1) && negb (validate_group selector ratio 1))
     || negb destination_ok
     || masked_source insn (rs2 insn) ratio cfg.(sew)
     || ((format =? 1) && masked_source insn selector ratio cfg.(sew))
     || ((format =? 1) && one_of funct6 [0x21; 0x27; 0x1d; 0x1f])
  then illegal insn else
  let rounding_required := fused || one_of funct6 [0x00; 0x02; 0x20; 0x21; 0x24; 0x27] in
  rm <- (if rounding_required then rounding_mode insn else ret 0) ;;
  scalar <- float_scalar (negb (format =? 5)) selector cfg.(sew) ;;
  start <- vstart_now ;;
  vl <- active_length cfg ;;
  mark_dirty ;;; mark_fp_dirty ;;;
  flags <- for_elements (masked insn) start vl (fun index flags =>
    a <- get_element (rs2 insn) index cfg.(sew) ;;
    b <- scalar_or_element scalar selector index cfg.(sew) ;;
    if comparison then
      r <- ok_or (vector_fp_compare cfg.(sew) funct6 a b flags) (IllegalInstruction insn) ;;
      let '(result, flags) := r in
      write_mask_element (rd insn) index result ;;; ret flags
    else
      r <- (if fused then
              old <- get_element (rd insn) index cfg.(sew) ;;
              ok_or (vector_fp_fma cfg.(sew) funct6 old a b rm flags) (IllegalInstruction insn)
            else ok_or (vector_fp_binary cfg.(sew) funct6 a b rm flags) (IllegalInstruction insn)) ;;
      let '(value, flags) := r in
      put_element (rd insn) index cfg.(sew) value ;;; ret flags) 0 ;;
  accrue flags ;;; finish_vector.

(** ** Dispatch *)

Module Float.
Definition exec_vector_float (insn : Z) (cfg : VectorConfig) : Hart Cpu unit :=
  fp_check insn ;;;
  let format := funct3 insn in
  let funct6 := insn .>> 26 in
  let selector := rs1 insn in
  let vm := negb (masked insn) in
  if (format =? 1) && (funct6 =? 0x12) then exec_vector_float_convert insn cfg selector
  else if negb (one_of cfg.(sew) [32; 64]) then illegal insn
  else if (format =? 1) && (funct6 =? 0x13) then exec_vector_float_unary insn cfg selector
  else if one_of format [1; 5] && one_of funct6 [0x30; 0x32; 0x34; 0x36; 0x38] then
    exec_vector_float_widen_binary insn cfg funct6
  else if one_of format [1; 5] && between 0x3c 0x3f funct6 then
    exec_vector_float_widen_fma insn cfg funct6
  else if (format =? 1) && one_of funct6 [0x31; 0x33] then
    exec_vector_float_widen_reduction insn cfg
  else if (format =? 5) && (funct6 =? 0x10) && vm && (rs2 insn =? 0) then
    value <- scalar_float_bits selector cfg.(sew) ;; move_to_element insn cfg value
  else if (format =? 1) && (funct6 =? 0x10) && vm && (selector =? 0) then move_from_element insn cfg
  else if (format =? 5) && (funct6 =? 0x17) then exec_vector_float_merge insn cfg
  else if (format =? 5) && one_of funct6 [0x0e; 0x0f] then exec_vector_float_slide1 insn cfg funct6
  else if (format =? 1) && one_of funct6 [0x01; 0x03; 0x05; 0x07] then
    exec_vector_float_reduction insn cfg funct6
  else exec_vector_float_arith insn cfg format funct6.
End Float.
