(* ===== verification/VecMem.v ===== *)
(** * Vector loads and stores (cpu/vector.rs)

    Unit-stride, strided, indexed, segmented, whole-register, mask and
    fault-only-first transfers, with the direct paths over host memory; and the
    vector unit as the instance of the decoder's interface. *)

From S2P Require Import Prelude Exception Decode Csr State Bus Mmu Trap CsrOps Vector SoftFp Exec.
From S2P Require Import VecBase VecInt VecFloat.

Section VectorMemory.
Context {B : Type} `{Bus B}.

Definition vector_load_element (address eew : Z) : Hart (Cpu * B) Z :=
  if eew =? 8 then ld 1 address else if eew =? 16 then ld 2 address
  else if eew =? 32 then ld 4 address else if eew =? 64 then ld 8 address else panic.

Definition vector_store_element (address eew value : Z) : Hart (Cpu * B) unit :=
  if eew =? 8 then st 1 address value else if eew =? 16 then st 2 address value
  else if eew =? 32 then st 4 address value else if eew =? 64 then st 8 address value else panic.

(** One element between a register and memory. *)
Definition transfer_element (load : bool) (reg index eew address : Z) : Hart (Cpu * B) unit :=
  if load then
    value <- vector_load_element address eew ;;
    on_fst (put_element reg index eew value)
  else
    value <- on_fst (get_element reg index eew) ;;
    vector_store_element address eew value.

(** [if let Err(exception) = result { self.vector.vstart = index; return Err(exception); }]. *)
Definition restart_at {A} (index : Z) (m : Hart (Cpu * B) A) : Hart (Cpu * B) A :=
  r <- attempt m ;;
  match r with
  | inl a => ret a
  | inr e => on_fst (update_vec (set_vstart index)) ;;; throw e
  end.

(** ** Direct transfers *)

Definition vector_direct_span (address byte_count : Z) (store : bool) : Hart (Cpu * B) (option Z) :=
  c <- gets fst ;;
  if negb c.(interpreter_fused_memory) || (byte_count =? 0) then ret None else
  let last := address + (byte_count - 1) in
  if U64_MAX <? last then ret None else
  if negb ((address .& TLB_PAGE_MASK) =? (last .& TLB_PAGE_MASK)) then ret None else
  match interpreter_fused_ptr c address store with
  | Some pointer => ret (Some pointer)
  | None =>
      physical <- translate address (if store then Store else Load) ;;
      modify (fun '(c, b) => (fill_jtlb b address physical store c, b)) ;;;
      gets (fun '(c, _) => interpreter_fused_ptr c address store)
  end.

(** [copy_nonoverlapping] between host memory and the flat register file. *)
Fixpoint host_bytes (n : nat) (pointer : Z) (b : B) : list Z :=
  match n with
  | O => []
  | S n => host_load 1 pointer b :: host_bytes n (pointer + 1) b
  end.

Fixpoint host_put_bytes (pointer : Z) (bytes : list Z) (b : B) : B :=
  match bytes with
  | [] => b
  | byte :: bytes => host_put_bytes (pointer + 1) bytes (host_store 1 pointer byte b)
  end.

Definition copy_direct (load : bool) (pointer vector_offset byte_count : Z) : Hart (Cpu * B) unit :=
  v <- on_fst vec ;;
  if load then
    bytes <- gets (fun '(_, b) => host_bytes (Z.to_nat byte_count) pointer b) ;;
    v <- unwrap (ptr_write v vector_offset bytes) ;;
    on_fst (update_vec (fun _ => v))
  else
    bytes <- unwrap (ptr_read v vector_offset byte_count) ;;
    modify (fun '(c, b) => (c, host_put_bytes pointer bytes b)).

(** The page runs of a contiguous transfer: the index the loop stops at.  Every
    run moves at least one element, so [fuel] is the number of elements. *)
Fixpoint unit_stride_runs (fuel : nat) (load : bool) (base first_reg vl element_bytes index : Z)
    : Hart (Cpu * B) Z :=
  if vl <=? index then ret index else
  match fuel with
  | O => panic
  | S fuel =>
      let byte_offset := index * element_bytes in
      let address := add64 base byte_offset in
      let bytes_to_page := 0x1000 - (address .& 0xfff) in
      let page_elements := bytes_to_page / element_bytes in
      if page_elements =? 0 then ret index else
      let run_elements := Z.min page_elements (vl - index) in
      let byte_count := run_elements * element_bytes in
      pointer <- restart_at index (vector_direct_span address byte_count (negb load)) ;;
      match pointer with
      | None => ret index
      | Some pointer =>
          copy_direct load pointer (first_reg * VLEN_BYTES + byte_offset) byte_count ;;;
          unit_stride_runs fuel load base first_reg vl element_bytes (index + run_elements)
      end
  end.

Definition exec_unit_stride_direct (load : bool) (base first_reg start vl element_bytes : Z)
    : Hart (Cpu * B) Z :=
  if vl <=? start then on_fst finish_vector ;;; ret vl else
  index <- unit_stride_runs (Z.to_nat (vl - start)) load base first_reg vl element_bytes start ;;
  (if index =? vl then on_fst finish_vector else ret tt) ;;;
  ret index.

Definition exec_strided_direct (load : bool) (base first_reg start vl element_bytes stride : Z)
    : Hart (Cpu * B) bool :=
  if vl <=? start then on_fst finish_vector ;;; ret true else
  c <- gets fst ;;
  if negb c.(interpreter_fused_memory) then ret false else
  let step := i64 stride in
  let first_address := base + step * start in
  let last_address := base + step * (vl - 1) in
  let maximum_start := U64_MAX - (element_bytes - 1) in
  if negb (between 0 maximum_start first_address) || negb (between 0 maximum_start last_address)
  then ret false else
  let low := Z.min first_address last_address in
  let high := Z.max first_address last_address + element_bytes - 1 in
  if negb ((low .& TLB_PAGE_MASK) =? (high .& TLB_PAGE_MASK)) then ret false else
  first_pointer <- restart_at start (vector_direct_span first_address element_bytes (negb load)) ;;
  match first_pointer with
  | None => ret false
  | Some first_pointer =>
      for_range start vl (fun index _ =>
        let pointer_delta := i64 (step * (index - start)) in
        let vector_offset := first_reg * VLEN_BYTES + index * element_bytes in
        copy_direct load (first_pointer + pointer_delta) vector_offset element_bytes) tt ;;;
      on_fst finish_vector ;;;
      ret true
  end.

(** ** Unit stride, whole registers, masks *)

Definition exec_unit_stride_memory (load : bool) (insn eew base first_reg : Z) (cfg : VectorConfig)
    : Hart (Cpu * B) unit :=
  span <- (if eew =? cfg.(sew) then ret (register_span (lmul cfg))
           else span <- emul_register_span cfg eew ;; ok_or span (IllegalInstruction insn)) ;;
  if ((1 <? span) && negb ((first_reg .& (span - 1)) =? 0)) || (VREG_COUNT <? first_reg + span)
  then illegal insn else
  let element_bytes := eew / 8 in
  start <- on_fst vstart_now ;;
  vl <- on_fst (active_length cfg) ;;
  on_fst mark_dirty ;;;
  start <- exec_unit_stride_direct load base first_reg start vl element_bytes ;;
  if start =? vl then ret tt else
  for_range start vl (fun index _ =>
    restart_at index (transfer_element load first_reg index eew (add64 base (index * element_bytes)))) tt ;;;
  on_fst finish_vector.

Definition exec_whole_register_memory (insn : Z) (load : bool) (eew base first_reg register_count : Z)
    : Hart (Cpu * B) unit :=
  let evl := register_count * VLEN_BITS / eew in
  vstart <- on_fst vstart_now ;;
  if negb (one_of register_count [1; 2; 4; 8]) || negb (first_reg mod register_count =? 0)
     || (VREG_COUNT <? first_reg + register_count) || (negb load && negb (eew =? 8))
     || (evl <=? vstart)
  then illegal insn else
  let element_bytes := eew / 8 in
  let evl := register_count * VLEN_BYTES / element_bytes in
  on_fst mark_dirty ;;;
  for_range vstart evl (fun index _ =>
    restart_at index (transfer_element load first_reg index eew (add64 base (index * element_bytes)))) tt ;;;
  on_fst finish_vector.

(** One byte of a mask register. *)
Definition transfer_mask_byte (load : bool) (reg index address : Z) : Hart (Cpu * B) unit :=
  if load then
    value <- vector_load_element address 8 ;;
    v <- on_fst vec ;;
    _ <- unwrap (register_byte v reg index) ;;
    on_fst (update_vec (set_register_byte reg index (u8 value)))
  else
    v <- on_fst vec ;;
    byte <- unwrap (register_byte v reg index) ;;
    vector_store_element address 8 byte.

Definition exec_mask_memory (load : bool) (base reg : Z) : Hart (Cpu * B) unit :=
  v <- on_fst vec ;;
  let evl := (v.(vl) + 7) / 8 in
  on_fst mark_dirty ;;;
  for_range v.(vstart) evl (fun index _ =>
    restart_at index (transfer_mask_byte load reg index (add64 base index))) tt ;;;
  on_fst finish_vector.

(** ** Every other addressing mode *)

(** The index group of an indexed access against each data field. *)
Definition indexed_illegal (load : bool) (insn first_reg fields data_eew aux eew : Z)
    (data_ratio index_ratio : GroupRatio) : bool :=
  existsb (fun field =>
    let data_reg := first_reg + field * register_span data_ratio in
    if load then
      negb (destination_source_overlap_legal data_reg data_ratio data_eew aux index_ratio eew)
      || ((1 <? fields) && groups_overlap data_reg data_ratio 1 aux index_ratio)
    else mixed_width_sources_overlap data_reg data_ratio data_eew aux index_ratio eew)
    (seqZ 0 fields)
  || masked_source insn aux index_ratio eew.

(** A predicated store whose data collides with v0. *)
Definition store_mask_illegal (insn first_reg fields data_eew : Z) (data_ratio : GroupRatio) : bool :=
  existsb (fun field =>
    masked_source insn (first_reg + field * register_span data_ratio) data_ratio data_eew)
    (seqZ 0 fields).

(** The fields of one element: [true] when a fault after element 0 of a
    fault-only-first load has shortened vl and ended the instruction. *)
Definition transfer_fields (load fault_only_first : bool) (first_reg data_span fields index data_eew
    address : Z) : Hart (Cpu * B) bool :=
  for_range 0 fields (fun field stopped =>
    if (stopped : bool) then ret true else
    let reg := first_reg + field * data_span in
    r <- attempt (transfer_element load reg index data_eew (add64 address (field * (data_eew / 8)))) ;;
    match r with
    | inl _ => ret false
    | inr e =>
        if fault_only_first && negb (index =? 0) then
          on_fst (update_vec (fun v => set_vstart 0 (set_vl index v))) ;;; ret true
        else on_fst (update_vec (set_vstart index)) ;;; throw e
    end) false.

(** The element loop of the general form. *)
Definition transfer_elements (insn : Z) (load fault_only_first : bool)
    (mop aux eew data_eew fields first_reg data_span base stride start vl : Z) : Hart (Cpu * B) bool :=
  for_range start vl (fun index stopped =>
    if (stopped : bool) then ret true else
    active <- (if masked insn then on_fst (mask_bit index) else ret true) ;;
    if negb active then ret false else
    element_offset <-
      (if mop =? 0 then ret (u64 (index * fields * (data_eew / 8)))
       else if mop =? 2 then ret (mul64 stride index)
       else on_fst (get_element aux index eew)) ;;
    transfer_fields load fault_only_first first_reg data_span fields index data_eew
      (add64 base element_offset)) false.
End VectorMemory.

Module Memory.
Section Memory.
Context {B : Type} `{Bus B}.

Definition exec_unit_stride_memory_insn (insn : Z) (load : bool) : Hart (Cpu * B) unit :=
  on_fst (vector_check insn) ;;;
  eew <- ok_or (vector_width (funct3 insn)) (IllegalInstruction insn) ;;
  v <- on_fst vec ;;
  cfg <- ok_or (config v) (IllegalInstruction insn) ;;
  if negb (v.(vstart) =? 0) && (cfg.(vlmax) <=? v.(vstart)) then illegal insn else
  base <- on_fst (x_reg (rs1 insn)) ;;
  exec_unit_stride_memory load insn eew base (rd insn) cfg.

Definition exec_vector_memory (insn : Z) (load : bool) : Hart (Cpu * B) unit :=
  on_fst (vector_check insn) ;;;
  eew <- ok_or (vector_width (funct3 insn)) (IllegalInstruction insn) ;;
  let mew := (insn .>> 28) .& 1 in
  let mop := (insn .>> 26) .& 3 in
  let aux := (insn .>> 20) .& 0x1f in
  let fields := ((insn .>> 29) .& 7) + 1 in
  let first_reg := rd insn in
  base <- on_fst (x_reg (rs1 insn)) ;;
  if negb (mew =? 0) then illegal insn else
  if (mop =? 0) && negb (masked insn) && (aux =? 8) then
    exec_whole_register_memory insn load eew base first_reg fields
  else
  v <- on_fst vec ;;
  cfg <- ok_or (config v) (IllegalInstruction insn) ;;
  if negb (v.(vstart) =? 0) && (cfg.(vlmax) <=? v.(vstart)) then illegal insn else
  if (mop =? 0) && negb (masked insn) && (aux =? 0) && (fields =? 1) then
    exec_unit_stride_memory load insn eew base first_reg cfg
  else if (mop =? 0) && negb (masked insn) && (aux =? 0x0b) && (fields =? 1) && (eew =? 8) then
    exec_mask_memory load base first_reg
  else
  let fault_only_first := load && (mop =? 0) && (aux =? 0x10) in
  if (mop =? 0) && negb (aux =? 0) && negb fault_only_first then illegal insn else
  if negb load && fault_only_first then illegal insn else
  let indexed := (mop =? 1) || (mop =? 3) in
  let data_eew := if indexed then cfg.(sew) else eew in
  data_ratio <- emul_or_illegal insn cfg data_eew ;;
  if negb (validate_group first_reg data_ratio fields) then illegal insn else
  let data_span := register_span data_ratio in
  index_ratio <-
    (if indexed then
       ratio <- emul_or_illegal insn cfg eew ;;
       if negb (validate_group aux ratio 1) then illegal insn else ret (Some ratio)
     else ret None) ;;
  if load && masked insn && groups_overlap first_reg data_ratio fields 0 MASK_REGISTER_RATIO
  then illegal insn else
  if match index_ratio with
     | Some index_ratio =>
         indexed_illegal load insn first_reg fields data_eew aux eew data_ratio index_ratio
     | None => false
     end
  then illegal insn else
  if negb load && store_mask_illegal insn first_reg fields data_eew data_ratio then illegal insn else
  stride <- (if mop =? 2 then on_fst (x_reg aux) else ret 0) ;;
  start <- on_fst vstart_now ;;
  vl <- on_fst (active_length cfg) ;;
  on_fst mark_dirty ;;;
  direct <- (if (mop =? 2) && negb (masked insn) && (fields =? 1)
             then exec_strided_direct load base first_reg start vl (data_eew / 8) stride
             else ret false) ;;
  if (direct : bool) then ret tt else
  stopped <- transfer_elements insn load fault_only_first mop aux eew data_eew fields first_reg
               data_span base stride start vl ;;
  if (stopped : bool) then ret tt else on_fst finish_vector.
End Memory.
End Memory.

(** The vector unit of the hart. *)
#[global] Instance rvv_unit {B} `{Bus B} : VectorUnit B := {
  exec_vector_float := Float.exec_vector_float;
  exec_vector_integer := Integer.exec_vector_integer;
  exec_unit_stride_memory_insn := Memory.exec_unit_stride_memory_insn;
  exec_vector_memory := Memory.exec_vector_memory
}.
