(* ===== verification/Wf.v ===== *)
(** * The hart invariant

    [wf_cpu]: every register and counter holds a value of its machine width,
    every array has its declared length, x0 is zero, and the CSRs keep their
    WARL shapes.  The lemmas here say which updates keep it; [SafeMem],
    [SafeCsr], [SafeExec] and [SafeStep] prove that every operation does. *)

From S2P Require Import Prelude Exception Decode Csr State Bus Mmu Trap CsrOps Vector SoftFp.
From S2P Require Import Exec.

#[global] Arguments tlb_row : simpl never.
#[global] Arguments tlb_bank : simpl never.
#[global] Arguments Z.land : simpl never.
#[global] Arguments Z.lor : simpl never.
#[global] Arguments Z.ldiff : simpl never.
#[global] Arguments Z.shiftl : simpl never.
#[global] Arguments Z.shiftr : simpl never.
#[global] Arguments Z.pow : simpl never.

(** An array of [n] values of the unsigned [w]-bit type. *)
Definition arr (n : nat) (w : Z) (l : list Z) : Prop := length l = n /\ Forall (uint w) l.

(** A bank of [n] TLB rows. *)
Definition bank (n : nat) (t : list (list Z)) : Prop :=
  length t = n /\ Forall (arr (Z.to_nat TLB_SIZE) 64) t.

(** satp as WARL keeps it: bare, Sv39 or Sv48. *)
Definition satp_legal (v : Z) : Prop := v .>> 60 = 0 \/ v .>> 60 = 8 \/ v .>> 60 = 9.

Record wf_sys (s : SysCsrs) : Prop := {
  wf_mstatus : uint 64 s.(mstatus);
  wf_xl : s.(mstatus) .& (MSTATUS_UXL .| MSTATUS_SXL) = (2 .<< 32) .| (2 .<< 34);
  wf_medeleg : uint 64 s.(medeleg);
  wf_mideleg : uint 64 s.(mideleg)
    /\ s.(mideleg) .&~ (IRQ_SSIP .| IRQ_STIP .| IRQ_SEIP) = 0;
  wf_mie : uint 64 s.(mie);
  wf_mip : uint 64 s.(mip);
  wf_mtvec : uint 64 s.(mtvec);
  wf_mcounteren : uint 3 s.(mcounteren);
  wf_mscratch : uint 64 s.(mscratch);
  wf_mepc : uint 64 s.(mepc);
  wf_mcause : uint 64 s.(mcause);
  wf_mtval : uint 64 s.(mtval);
  wf_stvec : uint 64 s.(stvec);
  wf_scounteren : uint 3 s.(scounteren);
  wf_sscratch : uint 64 s.(sscratch);
  wf_sepc : uint 64 s.(sepc);
  wf_scause : uint 64 s.(scause);
  wf_stval : uint 64 s.(stval);
  wf_satp : uint 64 s.(satp) /\ satp_legal s.(satp);
  wf_mhartid : uint 64 s.(mhartid);
  wf_mtime : uint 64 s.(mtime);
  wf_time_scale : uint 64 s.(time_scale);
  wf_time_offset : uint 64 s.(time_offset);
  wf_pmpcfg : arr 8 64 s.(pmpcfg);
  wf_pmpaddr : arr 64 64 s.(pmpaddr);
  wf_minstret_off : uint 64 s.(minstret_off)
}.

(** vl never exceeds VLMAX, and is zero while vtype is illegal. *)
Definition vl_bounded (v : VectorState) : Prop :=
  0 <= v.(vl)
  /\ match config v with Some cfg => v.(vl) <= cfg.(vlmax) | None => v.(vl) = 0 end.

Record wf_vec (v : VectorState) : Prop := {
  wf_vregs : length v.(vregs) = Z.to_nat VREG_COUNT
    /\ Forall (arr (Z.to_nat VLEN_BYTES) 8) v.(vregs);
  wf_vl : uint 64 v.(vl);
  wf_vl_bounded : vl_bounded v;
  wf_vtype : uint 64 v.(vtype);
  wf_vstart : uint 64 v.(vstart);
  wf_vxrm : uint 2 v.(vxrm)
}.

Definition opt_wf {A} (P : A -> Prop) (o : option A) : Prop :=
  match o with Some a => P a | None => True end.

Record wf_cpu (c : Cpu) : Prop := {
  wf_xregs : arr 32 64 c.(xregs);
  wf_x0 : aget c.(xregs) 0 = 0;
  wf_pc : uint 64 c.(pc);
  wf_insn_count : uint 64 c.(insn_count);
  wf_reservation : opt_wf (uint 64) c.(reservation);
  wf_syscall_log : length c.(syscall_log) = 64%nat;
  wf_syscall_log_pos : 0 <= c.(syscall_log_pos) < 64;
  wf_fregs : arr 32 64 c.(fregs);
  wf_fcsr : uint 8 c.(fcsr);
  wf_vector : wf_vec c.(vector);
  wf_csrs : opt_wf wf_sys c.(sys);
  wf_exc_counts : arr 16 64 c.(exc_counts);
  wf_irq_counts : arr 16 64 c.(irq_counts);
  wf_last_timer_trap : arr 13 64 c.(last_timer_trap);
  wf_jit_flush_gen : uint 64 c.(jit_flush_gen);
  wf_irq_poll_cd : uint 32 c.(irq_poll_cd);
  wf_map_gen : uint 64 c.(map_gen);
  wf_tlb_flushes : uint 64 c.(tlb_flushes);
  wf_store_jtlb_clears : uint 64 c.(store_jtlb_clears);
  wf_sfence_all : uint 64 c.(sfence_all);
  wf_sfence_page : uint 64 c.(sfence_page);
  wf_sfence_foreign_asid : uint 64 c.(sfence_foreign_asid);
  wf_tlb_tag : bank 3 c.(tlb_tag);
  wf_tlb_diff : bank 3 c.(tlb_diff);
  wf_jit_tlb_context : uint 64 c.(jit_tlb_context);
  wf_jtlb_tag : bank 2 c.(jtlb_tag);
  wf_interpreter_fetch_tag : uint 64 c.(interpreter_fetch_tag);
  wf_interpreter_fetch_pa_diff : uint 64 c.(interpreter_fetch_pa_diff)
}.

(** ** Values that are in range by construction *)

Lemma uint_u8 x : uint 8 (u8 x).
Proof. by apply uint_wrap. Qed.
Lemma uint_u16 x : uint 16 (u16 x).
Proof. by apply uint_wrap. Qed.
Lemma uint_u32 x : uint 32 (u32 x).
Proof. by apply uint_wrap. Qed.
Lemma uint_u64 x : uint 64 (u64 x).
Proof. by apply uint_wrap. Qed.
Lemma uint_add64 a b : uint 64 (add64 a b).
Proof. apply uint_u64. Qed.
Lemma uint_sub64 a b : uint 64 (sub64 a b).
Proof. apply uint_u64. Qed.
Lemma uint_mul64 a b : uint 64 (mul64 a b).
Proof. apply uint_u64. Qed.
Lemma uint_shl64 a b : uint 64 (shl64 a b).
Proof. apply uint_u64. Qed.
Lemma uint_sext32 a : uint 64 (sext32 a).
Proof. apply uint_u64. Qed.
Lemma uint_add32 a b : uint 32 (add32 a b).
Proof. apply uint_u32. Qed.
Lemma uint_sub32 a b : uint 32 (sub32 a b).
Proof. apply uint_u32. Qed.
Lemma uint_mul32 a b : uint 32 (mul32 a b).
Proof. apply uint_u32. Qed.
Lemma uint_shl32 a b : uint 32 (shl32 a b).
Proof. apply uint_u32. Qed.
Lemma uint_not64 a : uint 64 (not64 a).
Proof. apply uint_ldiff; [lia|]. unfold uint, U64_MAX. lia. Qed.

Lemma uint_64_of w x : 0 <= w <= 64 -> uint w x -> uint 64 x.
Proof. apply uint_mono. Qed.

(** Dispatch on the head symbol of a range goal. *)
Ltac uint_step :=
  lazymatch goal with
  | |- uint _ (Z.b2z _) => apply uint_b2z
  | |- uint _ (if ?b then _ else _) => destruct b eqn:?
  | |- uint _ (Z.lor _ _) => apply uint_lor
  | |- uint _ (Z.lxor _ _) => apply uint_lxor
  | |- uint _ (Z.ldiff _ _) => apply uint_ldiff
  | |- uint _ (Z.shiftr _ _) => apply uint_shiftr
  | |- uint 64 (u64 _) => apply uint_u64
  | |- uint 64 (add64 _ _) => apply uint_add64
  | |- uint 64 (sub64 _ _) => apply uint_sub64
  | |- uint 64 (mul64 _ _) => apply uint_mul64
  | |- uint 64 (shl64 _ _) => apply uint_shl64
  | |- uint 64 (sext32 _) => apply uint_sext32
  | |- uint 64 (not64 _) => apply uint_not64
  | |- uint 32 (u32 _) => apply uint_u32
  | |- uint 32 (add32 _ _) => apply uint_add32
  | |- uint 32 (sub32 _ _) => apply uint_sub32
  | |- uint 32 (mul32 _ _) => apply uint_mul32
  | |- uint 32 (shl32 _ _) => apply uint_shl32
  | |- uint 16 (u16 _) => apply uint_u16
  | |- uint 8 (u8 _) => apply uint_u8
  end.

(** A closed range goal. *)
Ltac uint_lit := unfold uint; vm_compute; split; congruence.

Ltac uint_const :=
  lazymatch goal with
  | |- uint _ Z0 => uint_lit
  | |- uint _ (Zpos _) => uint_lit
  | |- uint _ (Z.shiftl (Zpos _) (Zpos _)) => uint_lit
  | |- uint _ ?x => is_const x; uint_lit
  end.

Ltac uint_side := lazymatch goal with |- uint _ _ => fail | |- _ => lia end.

Ltac uint_tac := repeat (assumption || uint_step || uint_const || uint_side).

#[export] Hint Resolve uint_u8 uint_u16 uint_u32 uint_u64 uint_add64 uint_sub64 uint_mul64
  uint_shl64 uint_sext32 uint_add32 uint_sub32 uint_mul32 uint_shl32 uint_not64 : rv.

(** ** Arrays *)

Lemma arr_get n w l i : arr n w l -> 0 <= i < Z.of_nat n -> uint w (aget l i).
Proof.
  intros [Hl Hf] Hi. unfold aget. rewrite Forall_lookup in Hf.
  destruct (lookup_lt_is_Some_2 l (Z.to_nat i)) as [x Hx]; [lia|].
  rewrite (list_lookup_total_correct _ _ _ Hx). by apply (Hf (Z.to_nat i)).
Qed.

Lemma arr_set n w l i v : arr n w l -> uint w v -> arr n w (aset l i v).
Proof.
  intros [Hl Hf] Hv. split; [by unfold aset; rewrite length_insert|].
  by apply Forall_insert.
Qed.

Lemma arr_replicate n w v : uint w v -> arr n w (replicate n v).
Proof. intros. split; [apply length_replicate|by apply Forall_replicate]. Qed.

Lemma aget_aset_same {A} `{Inhabited A} (l : list A) i v :
  0 <= i < Z.of_nat (length l) -> aget (aset l i v) i = v.
Proof. intros. unfold aget, aset. apply list_lookup_total_insert_eq. lia. Qed.

Lemma aget_aset_other {A} `{Inhabited A} (l : list A) i j v :
  0 <= i -> 0 <= j -> i <> j -> aget (aset l i v) j = aget l j.
Proof. intros. unfold aget, aset. apply list_lookup_total_insert_ne. lia. Qed.

Lemma bank_row n t i : bank n t -> 0 <= i < Z.of_nat n -> arr (Z.to_nat TLB_SIZE) 64 (aget t i).
Proof.
  intros [Hl Hf] Hi. unfold aget. rewrite Forall_lookup in Hf.
  destruct (lookup_lt_is_Some_2 t (Z.to_nat i)) as [x Hx]; [lia|].
  rewrite (list_lookup_total_correct _ _ _ Hx). by apply (Hf (Z.to_nat i)).
Qed.

Lemma bank_set n t i row : bank n t -> arr (Z.to_nat TLB_SIZE) 64 row -> bank n (aset t i row).
Proof.
  intros [Hl Hf] Hr. split; [by unfold aset; rewrite length_insert|].
  by apply Forall_insert.
Qed.

Lemma bank_row_set n t row idx v :
  bank n t -> 0 <= row < Z.of_nat n -> uint 64 v -> bank n (row_set t row idx v).
Proof.
  intros Hb Hr Hv. apply bank_set; [done|]. apply arr_set; [|done]. by eapply bank_row.
Qed.

Lemma bank_fresh n v : uint 64 v -> bank n (tlb_bank n v).
Proof.
  intros Hv. split; [apply length_replicate|]. apply Forall_replicate.
  by apply arr_replicate.
Qed.

Lemma tlb_row_arr v : uint 64 v -> arr (Z.to_nat TLB_SIZE) 64 (tlb_row v).
Proof. apply arr_replicate. Qed.

Lemma uint_TLB_INVALID : uint 64 TLB_INVALID.
Proof. uint_lit. Qed.

#[export] Hint Resolve uint_TLB_INVALID bank_fresh tlb_row_arr : rv.

Lemma uint_tlb_index va : 0 <= (va .>> 12) .& (TLB_SIZE - 1) < TLB_SIZE.
Proof. rewrite (land_ones_lit _ _ 12) by (vm_compute; congruence). apply Z.mod_pos_bound. done. Qed.

(** ** Records: [wf_tac] proves that a field update keeps the invariant. *)

Ltac wf_tac :=
  intros; match goal with H : wf_cpu _ |- _ => destruct H end;
  constructor; simpl; auto with rv.

Ltac wfs_tac :=
  intros; match goal with H : wf_sys _ |- _ => destruct H end;
  constructor; simpl; auto with rv.

(** [wf_cpu] depends on the hart only through the updates named here. *)
Lemma wf_set_xregs v c : wf_cpu c -> arr 32 64 v -> aget v 0 = 0 -> wf_cpu (set_xregs v c).
Proof. wf_tac. Qed.
Lemma wf_set_pc v c : wf_cpu c -> uint 64 v -> wf_cpu (set_pc v c).
Proof. wf_tac. Qed.
Lemma wf_set_insn_count v c : wf_cpu c -> uint 64 v -> wf_cpu (set_insn_count v c).
Proof. wf_tac. Qed.
Lemma wf_set_reservation v c : wf_cpu c -> opt_wf (uint 64) v -> wf_cpu (set_reservation v c).
Proof. wf_tac. Qed.
Lemma wf_set_fregs v c : wf_cpu c -> arr 32 64 v -> wf_cpu (set_fregs v c).
Proof. wf_tac. Qed.
Lemma wf_set_fcsr v c : wf_cpu c -> uint 8 v -> wf_cpu (set_fcsr v c).
Proof. wf_tac. Qed.
Lemma wf_set_vector v c : wf_cpu c -> wf_vec v -> wf_cpu (set_vector v c).
Proof. wf_tac. Qed.
Lemma wf_set_sys v c : wf_cpu c -> opt_wf wf_sys v -> wf_cpu (set_sys v c).
Proof. wf_tac. Qed.
Lemma wf_set_irq_poll_cd v c : wf_cpu c -> uint 32 v -> wf_cpu (set_irq_poll_cd v c).
Proof. wf_tac. Qed.
Lemma wf_set_map_gen v c : wf_cpu c -> uint 64 v -> wf_cpu (set_map_gen v c).
Proof. wf_tac. Qed.
Lemma wf_set_tlb_tag v c : wf_cpu c -> bank 3 v -> wf_cpu (set_tlb_tag v c).
Proof. wf_tac. Qed.
Lemma wf_set_tlb_diff v c : wf_cpu c -> bank 3 v -> wf_cpu (set_tlb_diff v c).
Proof. wf_tac. Qed.
Lemma wf_set_jtlb_tag v c : wf_cpu c -> bank 2 v -> wf_cpu (set_jtlb_tag v c).
Proof. wf_tac. Qed.

Lemma wf_xr c i : wf_cpu c -> uint 5 i -> uint 64 (xr c i).
Proof.
  intros Hc Hi. eapply arr_get; [by apply wf_xregs|].
  unfold uint in Hi. change (2 ^ 5) with 32 in Hi. lia.
Qed.
Lemma wf_fr c i : wf_cpu c -> uint 5 i -> uint 64 (fr c i).
Proof.
  intros Hc Hi. eapply arr_get; [by apply wf_fregs|].
  unfold uint in Hi. change (2 ^ 5) with 32 in Hi. lia.
Qed.

Lemma wf_set_xr c i v : wf_cpu c -> 0 < i -> uint 64 v -> wf_cpu (set_xr i v c).
Proof.
  intros Hc Hi Hv. apply wf_set_xregs; [done|apply arr_set; [by apply wf_xregs|done]|].
  rewrite aget_aset_other by lia. by apply wf_x0.
Qed.
Lemma wf_wr c i v : wf_cpu c -> 0 <= i -> uint 64 v -> wf_cpu (wr i v c).
Proof.
  intros Hc Hi Hv. unfold wr. destruct (Z.eqb_spec i 0); simpl; [done|].
  apply wf_set_xr; [done|lia|done].
Qed.
Lemma wf_set_fr c i v : wf_cpu c -> uint 64 v -> wf_cpu (set_fr i v c).
Proof. intros. apply wf_set_fregs; [done|apply arr_set; [by apply wf_fregs|done]]. Qed.
Lemma wf_or_fflags c fl : wf_cpu c -> wf_cpu (or_fflags fl c).
Proof.
  intros Hc. apply wf_set_fcsr; [done|]. apply uint_lor; [lia|by apply wf_fcsr|].
  apply uint_land_r; [lia|uint_lit].
Qed.

(** x0 reads as zero. *)
Lemma xr_0 c : wf_cpu c -> xr c 0 = 0.
Proof. apply wf_x0. Qed.

#[export] Hint Resolve wf_xr wf_fr wf_set_xr wf_wr wf_set_fr wf_or_fflags : rv.

(** The reset state satisfies the invariant. *)
Lemma uint_64_0 : uint 64 0.
Proof. by apply uint_0. Qed.

Lemma arr_zeros n w : 0 <= w -> arr n w (replicate n 0).
Proof. intros. apply arr_replicate. by apply uint_0. Qed.

Lemma wf_SysCsrs_new : wf_sys SysCsrs_new.
Proof.
  constructor; cbn [SysCsrs_new mstatus medeleg mideleg mie mip mtvec mcounteren mscratch
    mepc mcause mtval stvec scounteren sscratch sepc scause stval satp mhartid mtime
    time_scale time_offset pmpcfg pmpaddr minstret_off];
    lazymatch goal with
    | |- uint _ 0 => by apply uint_0
    | |- uint _ _ => uint_lit
    | |- arr _ _ _ => by apply arr_zeros
    | |- _ => idtac
    end.
  - reflexivity.
  - split; [apply uint_64_0|reflexivity].
  - split; [apply uint_64_0|by left].
Qed.

Lemma wf_vec_default : wf_vec VectorState_default.
Proof.
  constructor; cbn [VectorState_default vregs vl vtype vstart vxrm];
    lazymatch goal with
    | |- uint _ 0 => by apply uint_0
    | |- uint _ _ => uint_lit
    | |- vl_bounded _ => done
    | |- _ => split; [apply length_replicate|]; apply Forall_replicate; by apply arr_zeros
    end.
Qed.

Lemma wf_Cpu_new : wf_cpu Cpu_new.
Proof.
  constructor; cbn -[tlb_bank VectorState_default TLB_INVALID U64_MAX uint];
    lazymatch goal with
    | |- uint _ 0 => by apply uint_0
    | |- uint _ TLB_INVALID => apply uint_TLB_INVALID
    | |- arr ?n ?w _ => by apply (arr_zeros n w)
    | |- bank _ (tlb_bank _ 0) => apply bank_fresh, uint_64_0
    | |- bank _ _ => apply bank_fresh, uint_TLB_INVALID
    | |- wf_vec _ => apply wf_vec_default
    | |- _ => done || lia
    end.
Qed.
