(* ===== verification/SoftFpSpec.v ===== *)
(** * Properties of the software floating point

    Result ranges of every operation, the integer square root (the Newton loop
    terminates within its fuel and returns the floor of the root), the order
    the comparisons decide, commutativity of addition, and the agreement of the
    local f32 rounder with the generic one. *)

From S2P Require Import Prelude SoftFp Wf.

Section Generic.
Context (F M E : Z).
Context (HM : 2 <= M) (HE : 2 <= E) (HF : F = 1 + E + M) (HE32 : E < 32).

(** ** Ranges *)

Lemma shl1_pow n : 0 <= n -> 1 .<< n = 2 ^ n.
Proof. intros. rewrite Z.shiftl_mul_pow2 by done. lia. Qed.

Lemma mask_uint n : 0 <= n -> uint n ((1 .<< n) - 1).
Proof. intros. unfold uint. rewrite shl1_pow by done. lia. Qed.

Lemma uint_shlu a n : uint F (softfp.shlu F a n).
Proof using All. apply uint_wrap. lia. Qed.

Lemma pack_range s e m : uint F (softfp.pack F M s e m).
Proof using All.
  unfold softfp.pack. apply uint_lor; [lia| |].
  - apply uint_lor; [lia|apply uint_shlu|apply uint_shlu].
  - apply (uint_mono M); [lia|]. apply uint_land_r; [lia|]. apply mask_uint. lia.
Qed.

Lemma QNAN_range : uint F (softfp.QNAN M E).
Proof using All.
  unfold softfp.QNAN, softfp.EXP_MASK. apply uint_lor; [lia| |].
  - rewrite shl1_pow, Z.shiftl_mul_pow2 by lia. split; [nia|].
    apply Z.lt_le_trans with (2 ^ E * 2 ^ M); [nia|].
    rewrite <- Z.pow_add_r by lia. apply Z.pow_le_mono_r; lia.
  - rewrite shl1_pow by lia. split; [lia|]. apply Z.pow_lt_mono_r; lia.
Qed.

Lemma round_pack_range s e m rm fl : uint F (fst (softfp.round_pack F M E s e m rm fl)).
Proof using All.
  unfold softfp.round_pack. cbv zeta.
  repeat case_match; apply pack_range.
Qed.

Lemma normalize_range s e m rm fl : uint F (fst (softfp.normalize F M E s e m rm fl)).
Proof using All. apply round_pack_range. Qed.

Lemma normalize2_range s e h l rm fl : uint F (fst (softfp.normalize2 F M E s e h l rm fl)).
Proof using All. apply round_pack_range. Qed.

Ltac range_tac :=
  repeat (case_match; cbn [fst]);
  first [assumption | apply QNAN_range | apply pack_range | apply normalize_range
        | apply normalize2_range].

Lemma add_range a b rm fl : uint F a -> uint F b -> uint F (fst (softfp.add F M E a b rm fl)).
Proof using All.
  intros Ha Hb. unfold softfp.add. cbv zeta.
  destruct (_ <? _); range_tac.
Qed.

Lemma sub_range a b rm fl : uint F a -> uint F b -> uint F (fst (softfp.sub F M E a b rm fl)).
Proof using All.
  intros. apply add_range; [done|]. apply uint_lxor; [lia|done|].
  unfold softfp.SIGN_MASK. rewrite shl1_pow by lia. split; [lia|].
  apply Z.pow_lt_mono_r; lia.
Qed.

Lemma mul_range a b rm fl : uint F (fst (softfp.mul F M E a b rm fl)).
Proof using All. unfold softfp.mul. cbv zeta. range_tac. Qed.

Lemma fma_combine_range rs re r1 r0 cs ce c1 c0 rm fl :
  uint F (fst (softfp.fma_combine F M E rs re r1 r0 cs ce c1 c0 rm fl)).
Proof using All. unfold softfp.fma_combine. cbv zeta. range_tac. Qed.

Lemma fma_range a b c rm fl : uint F c -> uint F (fst (softfp.fma F M E a b c rm fl)).
Proof using All.
  intros Hc. unfold softfp.fma. cbv zeta.
  repeat (case_match; cbn [fst]); first [range_tac | apply fma_combine_range].
Qed.

Lemma div_range a b rm fl : uint F (fst (softfp.div F M E a b rm fl)).
Proof using All. unfold softfp.div. cbv zeta. range_tac. Qed.

Lemma min_max_nan_range a b fl :
  uint F a -> uint F b -> uint F (fst (softfp.min_max_nan M E a b fl)).
Proof using All. intros. unfold softfp.min_max_nan. cbv zeta. cbn [fst]. range_tac. Qed.

Lemma min_range a b fl : uint F a -> uint F b -> uint F (fst (softfp.min F M E a b fl)).
Proof using All.
  intros. unfold softfp.min. cbv zeta.
  case_match; [by apply min_max_nan_range|]. cbn [fst]. range_tac.
Qed.

Lemma max_range a b fl : uint F a -> uint F b -> uint F (fst (softfp.max F M E a b fl)).
Proof using All.
  intros. unfold softfp.max. cbv zeta.
  case_match; [by apply min_max_nan_range|]. cbn [fst]. range_tac.
Qed.

Lemma cvt_i_to_f_range isz a rm fl u : uint F (fst (softfp.cvt_i_to_f F M E isz a rm fl u)).
Proof using All. unfold softfp.cvt_i_to_f. cbv zeta. range_tac. Qed.

Lemma fclass_range a : uint 10 (softfp.fclass F M E a).
Proof using All. unfold softfp.fclass. cbv zeta. repeat case_match; uint_lit. Qed.

Lemma sign_of_bit a : uint F a -> softfp.sign_of F a = 0 \/ softfp.sign_of F a = 1.
Proof using All.
  intros [H1 H2]. unfold softfp.sign_of, u32, wrap. rewrite Z.shiftr_div_pow2 by lia.
  assert (2 ^ F = 2 * 2 ^ (F - 1)) as Hp
    by (rewrite <- Z.pow_succ_r by lia; f_equal; lia).
  assert (0 <= a / 2 ^ (F - 1) < 2).
  { split; [apply Z.div_pos; lia|apply Z.div_lt_upper_bound; lia]. }
  rewrite Z.mod_small by lia. lia.
Qed.

Lemma cvt_f_to_i_range isz a rm fl u :
  1 <= isz -> uint F a -> uint isz (fst (softfp.cvt_f_to_i F M E isz a rm fl u)).
Proof using All.
  intros Hi Ha. unfold softfp.cvt_f_to_i. cbv zeta.
  set (sg := if (softfp.exp_of M E a =? _) && _ then 0 else softfp.sign_of F a).
  assert (sg = 0 \/ sg = 1) as Hsg.
  { unfold sg. case_match; [by left|]. by apply sign_of_bit. }
  assert (uint isz (if u then wrap isz (sg - 1) else (1 .<< (isz - 1)) - (sg .^ 1))) as Hmax.
  { case_match; [apply uint_wrap; lia|]. rewrite shl1_pow by lia.
    assert (2 ^ isz = 2 * 2 ^ (isz - 1)) by (rewrite <- Z.pow_succ_r by lia; f_equal; lia).
    pose proof (Z.pow_pos_nonneg 2 (isz - 1)).
    destruct Hsg as [-> | ->]; unfold uint; change (0 .^ 1) with 1; change (1 .^ 1) with 0;
      lia. }
  clearbody sg. repeat (case_match; cbn [fst]); try assumption; apply uint_wrap; lia.
Qed.

(** ** The integer square root *)

Lemma sqrt_bounds a :
  0 <= a -> Z.sqrt a * Z.sqrt a <= a < (Z.sqrt a + 1) * (Z.sqrt a + 1).
Proof. intros Ha. exact (Z.sqrt_spec a Ha). Qed.

(** One Newton step from [s] over the root [r]. *)
Lemma newton_ge a s r : 0 <= a -> 0 < s -> r * r <= a -> r <= (a / s + s) / 2.
Proof.
  intros Ha Hs Hr. apply Z.div_le_lower_bound; [lia|].
  pose proof (Z.div_mod a s ltac:(lia)). pose proof (Z.mod_pos_bound a s Hs).
  set (q := a / s) in *.
  destruct (decide (2 * r <= q + s)); [done|exfalso].
  assert (a < s * (q + 1)) by nia. assert (0 <= q) by (apply Z.div_pos; lia).
  pose proof (Z.square_nonneg (s - (q + 1))).
  pose proof (Z.square_le_mono_nonneg (s + q + 1) (2 * r) ltac:(lia) ltac:(lia)). lia.
Qed.

Lemma newton_le a s r :
  0 <= r -> r < s -> a < (r + 1) * (r + 1) -> 0 <= a -> (a / s + s) / 2 - r <= (s - r) / 2.
Proof.
  intros Hr Hs Ha Ha0. assert (a / s <= r).
  { apply Z.lt_succ_r, Z.div_lt_upper_bound; [lia|]. nia. }
  transitivity ((r + s) / 2 - r).
  - apply Z.sub_le_mono_r, Z.div_le_mono; lia.
  - replace (r + s) with ((s - r) + r * 2) by lia. rewrite Z.div_add by lia. lia.
Qed.

Lemma sqrt_loop_correct fuel a s :
  0 < a -> Z.sqrt a <= s -> s - Z.sqrt a < 2 ^ Z.of_nat fuel ->
  softfp.sqrt_loop (S fuel) a s = Some (Z.sqrt a).
Proof.
  revert s. induction fuel as [|fuel IH]; intros s Ha Hs Hd.
  - pose proof (sqrt_bounds a ltac:(lia)). pose proof (proj2 (Z.sqrt_pos a) Ha).
    change (2 ^ Z.of_nat 0) with 1 in Hd. assert (s = Z.sqrt a) as -> by lia.
    cbn [softfp.sqrt_loop]. cbv zeta.
    pose proof (newton_ge a (Z.sqrt a) (Z.sqrt a) ltac:(lia) ltac:(lia) ltac:(lia)).
    destruct (Z.leb_spec (Z.sqrt a) ((a / Z.sqrt a + Z.sqrt a) / 2)); [done|lia].
  - pose proof (sqrt_bounds a ltac:(lia)) as Hsq. pose proof (proj2 (Z.sqrt_pos a) Ha).
    pose proof (newton_ge a s (Z.sqrt a) ltac:(lia) ltac:(lia) ltac:(lia)) as Hge.
    change (softfp.sqrt_loop (S (S fuel)) a s) with
      (let u := (a / s + s) / 2 in
       if s <=? u then Some s else softfp.sqrt_loop (S fuel) a u).
    cbv zeta. destruct (Z.leb_spec s ((a / s + s) / 2)) as [Hle|Hlt].
    + f_equal. destruct (decide (s = Z.sqrt a)); [done|exfalso].
      assert (a / s < s); [apply Z.div_lt_upper_bound; [lia|nia]|].
      assert ((a / s + s) / 2 < s) by (apply Z.div_lt_upper_bound; lia). lia.
    + apply IH; [done|done|]. rewrite Nat2Z.inj_succ, Z.pow_succ_r in Hd by lia.
      pose proof (newton_le a s (Z.sqrt a) ltac:(lia) ltac:(lia) ltac:(lia) ltac:(lia)).
      assert ((s - Z.sqrt a) / 2 < 2 ^ Z.of_nat fuel)
        by (apply Z.div_lt_upper_bound; lia). lia.
Qed.

(** The loop starts at or above the root. *)
Lemma leading_zeros_bound x : 0 <= x < 2 ^ F -> x < 2 ^ (F - leading_zeros F x)
  /\ 0 <= F - leading_zeros F x <= F.
Proof using All.
  intros Hx. unfold leading_zeros. destruct (Z.eqb_spec x 0) as [->|].
  - replace (F - F) with 0 by lia. split; lia.
  - pose proof (Z.log2_spec x ltac:(lia)). pose proof (Z.log2_nonneg x).
    assert (Z.log2 x < F) by (apply Z.log2_lt_pow2; lia).
    replace (F - (F - 1 - Z.log2 x)) with (Z.succ (Z.log2 x)) by lia. lia.
Qed.

Lemma sqrt_start ah :
  0 < ah < 2 ^ F ->
  let l := 2 * F - leading_zeros F (ah - 1) in
  Z.sqrt (ah * 2 ^ F) <= 2 ^ ((l + 1) / 2) <= 2 ^ F.
Proof using All.
  intros Hah l. destruct (leading_zeros_bound (ah - 1) ltac:(lia)) as [H1 H2].
  assert (F <= l <= 2 * F) as Hl by lia.
  set (k := (l + 1) / 2). assert (l <= 2 * k) by (unfold k; zlia).
  assert (k <= F) by (unfold k; zlia).
  split; [|apply Z.pow_le_mono_r; lia].
  apply Z.square_le_simpl_nonneg; [lia|]. rewrite <- Z.pow_add_r by lia.
  transitivity (ah * 2 ^ F); [apply sqrt_bounds; nia|].
  transitivity (2 ^ (F - leading_zeros F (ah - 1)) * 2 ^ F); [nia|].
  rewrite <- Z.pow_add_r by lia. apply Z.pow_le_mono_r; lia.
Qed.

Lemma sqrtrem_u_correct ah :
  uint F ah ->
  let a := ah * 2 ^ F in
  softfp.sqrtrem_u F ah 0 = Some (Z.sqrt a, negb (a - Z.sqrt a * Z.sqrt a =? 0)).
Proof using All.
  intros Hah a. unfold softfp.sqrtrem_u.
  destruct (Z.eqb_spec ah 0) as [->|Hnz]; [done|]. cbn [andb negb].
  rewrite Z.lor_0_r, Z.shiftl_mul_pow2 by lia.
  rewrite (wrap_small (2 * F)).
  2:{ unfold uint in *. replace (2 * F) with (F + F) by lia. rewrite Z.pow_add_r by lia. nia. }
  fold a. unfold uint in Hah.
  destruct (sqrt_start ah ltac:(lia)) as [H1 H2]. fold a in H1.
  rewrite shl1_pow by (destruct (leading_zeros_bound (ah - 1) ltac:(lia)); zlia).
  assert (0 < a) by (unfold a; nia).
  assert (0 <= Z.sqrt a) by apply Z.sqrt_nonneg.
  replace (Z.to_nat (F + 3)) with (S (Z.to_nat (F + 2))) by lia.
  rewrite sqrt_loop_correct; [|done|done|].
  - do 2 f_equal. apply wrap_small. split; [done|].
    apply Z.square_lt_simpl_nonneg; [lia|].
    apply Z.le_lt_trans with a; [apply sqrt_bounds; lia|]. unfold a. nia.
  - rewrite Z2Nat.id by lia. pose proof (Z.pow_lt_mono_r 2 F (F + 2)). lia.
Qed.

Lemma sqrt_total a rm fl :
  uint F a -> exists r fl', softfp.sqrt F M E a rm fl = Some (r, fl') /\ uint F r.
Proof using All.
  intros Ha.
  assert (forall v f : Z, uint F v -> exists r fl', Some (v, f) = Some (r, fl') /\ uint F r)
    as Hdone by (intros; eauto).
  unfold softfp.sqrt. cbv zeta.
  destruct (_ =? softfp.EXP_MASK E).
  { repeat case_match; apply Hdone; first [apply QNAN_range|assumption]. }
  destruct (negb _).
  { repeat case_match; apply Hdone; first [apply QNAN_range|assumption]. }
  destruct (_ && _); [apply Hdone, pack_range|].
  destruct (softfp.unpack _ _ _ _) as [e m].
  destruct (if negb _ then _ else _) as [e' m'].
  rewrite sqrtrem_u_correct by apply uint_shlu. cbv iota beta.
  match goal with |- context [Some ?x] => destruct x as [r fl'] eqn:Hx end.
  apply Hdone. change r with (fst (r, fl')). rewrite <- Hx. apply normalize_range.
Qed.

(** ** Sign and magnitude *)

Definition mag (a : Z) : Z := a mod 2 ^ (F - 1).
Definition neg (a : Z) : Z := a / 2 ^ (F - 1).

Lemma half : 2 ^ F = 2 * 2 ^ (F - 1).
Proof using All. rewrite <- Z.pow_succ_r by lia. f_equal. lia. Qed.

Lemma neg_mag a : uint F a -> a = neg a * 2 ^ (F - 1) + mag a /\ 0 <= mag a < 2 ^ (F - 1)
  /\ (neg a = 0 \/ neg a = 1).
Proof using All.
  intros [H1 H2]. pose proof half. unfold neg, mag.
  pose proof (Z.div_mod a (2 ^ (F - 1)) ltac:(lia)).
  pose proof (Z.mod_pos_bound a (2 ^ (F - 1)) ltac:(lia)).
  assert (0 <= a / 2 ^ (F - 1) < 2); [|lia].
  split; [apply Z.div_pos; lia|apply Z.div_lt_upper_bound; lia].
Qed.

Lemma sign_of_neg a : uint F a -> softfp.sign_of F a = neg a.
Proof using All.
  intros Ha. unfold softfp.sign_of. rewrite Z.shiftr_div_pow2 by lia. fold (neg a).
  apply wrap_small. destruct (neg_mag a Ha) as (_ & _ & [-> | ->]); uint_lit.
Qed.

Lemma ldiff_sign a : uint F a -> a .&~ softfp.SIGN_MASK F = mag a.
Proof using All.
  intros Ha. unfold mag, softfp.SIGN_MASK. rewrite <- Z.land_ones by lia.
  apply Z.bits_inj'. intros i Hi. rewrite Z.ldiff_spec, Z.land_spec, shl1_pow by lia.
  rewrite Z.pow2_bits_eqb by lia. destruct (decide (F <= i)).
  - by rewrite (proj1 (uint_testbit F a ltac:(lia) (proj1 Ha)) Ha).
  - destruct (Z.eqb_spec (F - 1) i) as [<-|].
    + by rewrite Z.ones_spec_high, !andb_false_r by lia.
    + rewrite Z.ones_spec_low, !andb_true_r by lia. done.
Qed.

Lemma twice_zero a b :
  uint F a -> uint F b -> softfp.shlu F (a .| b) 1 = 0 <-> mag a = 0 /\ mag b = 0.
Proof using All.
  intros Ha Hb. pose proof half as Hh.
  assert (mag (a .| b) = mag a .| mag b) as Hm.
  { unfold mag. rewrite <- !Z.land_ones by lia. apply Z.land_lor_distr_l. }
  unfold softfp.shlu, wrap. rewrite Z.shiftl_mul_pow2, Hh by lia.
  change (2 ^ 1) with 2. rewrite (Z.mul_comm _ 2), Z.mul_mod_distr_l by lia.
  fold (mag (a .| b)). rewrite Hm.
  rewrite <- (Z.lor_eq_0_iff (mag a) (mag b)). lia.
Qed.

(** The order IEEE 754 gives the bit patterns of the numbers. *)
Definition order_key (a : Z) : Z := if neg a =? 1 then - mag a else mag a.

Lemma order_comparisons a b fl :
  uint F a -> uint F b -> softfp.is_nan M E a || softfp.is_nan M E b = false ->
  softfp.le F M E a b fl = (order_key a <=? order_key b, fl)
  /\ softfp.lt F M E a b fl = (order_key a <? order_key b, fl)
  /\ softfp.eq_quiet F M E a b fl = (order_key a =? order_key b, fl).
Proof using All.
  intros Ha Hb Hn. unfold softfp.le, softfp.lt, softfp.eq_quiet. rewrite Hn.
  rewrite !Z.shiftr_div_pow2 by lia. fold (neg a) (neg b). unfold order_key.
  pose proof (twice_zero a b Ha Hb) as Hz.
  destruct (neg_mag a Ha) as (Ea & Ma & Na), (neg_mag b Hb) as (Eb & Mb & Nb).
  destruct (Z.eqb_spec (softfp.shlu F (a .| b) 1) 0) as [Hs|Hs].
  - destruct (proj1 Hz Hs) as [Za Zb]. rewrite Za, Zb in *.
    destruct Na as [Na|Na], Nb as [Nb|Nb]; rewrite Na, Nb in *; cbn [Z.eqb Pos.eqb negb orb andb];
      split_and!; f_equal; repeat match goal with |- context [?x <=? ?y] => destruct (Z.leb_spec x y)
        | |- context [?x <? ?y] => destruct (Z.ltb_spec x y) end; try reflexivity; lia.
  - assert (~ (mag a = 0 /\ mag b = 0)) by tauto.
    destruct Na as [Na|Na], Nb as [Nb|Nb]; rewrite Na, Nb in *; cbn [Z.eqb Pos.eqb negb orb andb];
      split_and!; f_equal; repeat match goal with |- context [?x <=? ?y] => destruct (Z.leb_spec x y)
        | |- context [?x <? ?y] => destruct (Z.ltb_spec x y)
        | |- context [?x =? ?y] => destruct (Z.eqb_spec x y) end; try reflexivity; lia.
Qed.

(** ** Addition is commutative *)

(** The exponent and significand are fields of the magnitude. *)
Lemma exp_of_mag a b : mag a = mag b -> softfp.exp_of M E a = softfp.exp_of M E b.
Proof using All.
  intros Hm. unfold softfp.exp_of, softfp.EXP_MASK, u32, wrap, mag in *.
  rewrite shl1_pow by lia. replace (2 ^ E - 1) with (Z.ones E) by (rewrite Z.ones_equiv; lia).
  apply Z.bits_inj'. intros i Hi. rewrite !Z.land_spec.
  destruct (decide (i < E)); [|by rewrite Z.ones_spec_high, !andb_false_r by lia].
  rewrite !Z.mod_pow2_bits_low, !Z.shiftr_spec by lia. f_equal.
  rewrite <- (Z.mod_pow2_bits_low a (F - 1)), <- (Z.mod_pow2_bits_low b (F - 1)) by lia.
  by rewrite Hm.
Qed.

Lemma mant_of_mag a b : mag a = mag b -> softfp.mant_of M a = softfp.mant_of M b.
Proof using All.
  intros Hm. unfold softfp.mant_of, softfp.MANT_MASK, mag in *.
  rewrite shl1_pow by lia. replace (2 ^ M - 1) with (Z.ones M) by (rewrite Z.ones_equiv; lia).
  rewrite !Z.land_ones by lia.
  assert (forall x, x mod 2 ^ M = (x mod 2 ^ (F - 1)) mod 2 ^ M) as Hx.
  { intros x. replace (F - 1) with (M + E) by lia. rewrite Z.pow_add_r by lia.
    rewrite Z.rem_mul_r by lia.
    rewrite (Z.mul_comm (2 ^ M)), Z.mod_add by lia. by rewrite Z.mod_mod by lia. }
  by rewrite (Hx a), (Hx b), Hm.
Qed.

Lemma add_swap a b rm fl :
  uint F a -> uint F b -> mag b < mag a ->
  softfp.add F M E a b rm fl = softfp.add F M E b a rm fl.
Proof using All.
  intros Ha Hb Hlt. unfold softfp.add. rewrite !ldiff_sign by done.
  destruct (Z.ltb_spec (mag a) (mag b)); [lia|].
  by destruct (Z.ltb_spec (mag b) (mag a)); [|lia].
Qed.

(** Equal magnitudes and opposite signs: the result does not depend on which
    operand comes first. *)
Lemma add_opposite a b rm fl :
  uint F a -> uint F b -> mag a = mag b -> neg a <> neg b ->
  softfp.is_signan M E a = softfp.is_signan M E b ->
  softfp.add F M E a b rm fl = softfp.add F M E b a rm fl.
Proof using All.
  intros Ha Hb Hm Hn Hs. unfold softfp.add. rewrite !ldiff_sign, Hm by done.
  destruct (Z.ltb_spec (mag b) (mag b)); [lia|].
  rewrite !sign_of_neg by done. rewrite (exp_of_mag a b Hm), (mant_of_mag a b Hm), Hs.
  destruct (Z.eqb_spec (neg a) (neg b)); [done|].
  destruct (Z.eqb_spec (neg b) (neg a)); [by subst|].
  destruct (_ =? softfp.EXP_MASK E); [by destruct (negb _)|].
  destruct (softfp.exp_of M E b =? 0); cbv iota beta zeta.
  all: rewrite Z.sub_diag; change (softfp.rshift_rnd F ?m 0) with m; rewrite ?Z.sub_diag.
  all: unfold wrap; by rewrite Z.mod_0_l by lia.
Qed.

Lemma is_signan_mag a b : mag a = mag b -> softfp.is_signan M E a = softfp.is_signan M E b.
Proof using All.
  intros Hm. unfold softfp.is_signan. fold (softfp.mant_of M a) (softfp.mant_of M b).
  rewrite (mant_of_mag a b Hm). do 2 f_equal.
  rewrite shl1_pow by lia.
  replace (2 ^ (E + 1) - 1) with (Z.ones (E + 1)) by (rewrite Z.ones_equiv; lia).
  apply Z.bits_inj'. intros i Hi. rewrite !Z.land_spec.
  destruct (decide (i < E + 1)); [|by rewrite Z.ones_spec_high, !andb_false_r by lia].
  unfold u32, wrap. rewrite !Z.mod_pow2_bits_low, !Z.shiftr_spec by lia. f_equal.
  unfold mag in Hm.
  rewrite <- (Z.mod_pow2_bits_low a (F - 1)), <- (Z.mod_pow2_bits_low b (F - 1)) by lia.
  by rewrite Hm.
Qed.

Lemma add_comm a b rm fl :
  uint F a -> uint F b -> softfp.add F M E a b rm fl = softfp.add F M E b a rm fl.
Proof using All.
  intros Ha Hb. destruct (Z.lt_trichotomy (mag a) (mag b)) as [Hlt|[Heq|Hgt]].
  - symmetry. by apply add_swap.
  - destruct (decide (neg a = neg b)) as [Hn|Hn].
    + destruct (neg_mag a Ha) as (Ea & _), (neg_mag b Hb) as (Eb & _).
      assert (a = b) as -> by congruence. done.
    + apply add_opposite; try done. by apply is_signan_mag.
  - by apply add_swap.
Qed.
End Generic.

(** The two formats of the program: (F_SIZE, MANT_SIZE, EXP_SIZE). *)
Definition formats : list (Z * Z * Z) :=
  [(sf32.F_SIZE, sf32.MANT_SIZE, sf32.EXP_SIZE); (sf64.F_SIZE, sf64.MANT_SIZE, sf64.EXP_SIZE)].

Lemma formats_ok F M E : In (F, M, E) formats -> 2 <= M /\ 2 <= E /\ F = 1 + E + M /\ E < 32.
Proof. intros [[= <- <- <-]|[[= <- <- <-]|[]]]; vm_compute; split_and!; congruence. Qed.

(** In both formats addition is commutative, flags included: for all operands
    (NaNs, infinities, zeros and subnormals too), rounding modes and incoming
    flags, swapping the operands changes neither the result nor the flags. *)
Theorem fp_add_comm F M E a b rm fl :
  In (F, M, E) formats -> uint F a -> uint F b ->
  softfp.add F M E a b rm fl = softfp.add F M E b a rm fl.
Proof. intros (? & ? & ? & ?)%formats_ok. by apply add_comm. Qed.

(** In both formats, on operands that are not NaN, FLE, FLT and FEQ decide the
    order of the numbers the bit patterns denote (sign and magnitude, with the
    two zeros equal) and raise no flag. *)
Theorem fp_compare_order F M E a b fl :
  In (F, M, E) formats -> uint F a -> uint F b ->
  softfp.is_nan M E a = false -> softfp.is_nan M E b = false ->
  softfp.le F M E a b fl = (order_key F a <=? order_key F b, fl)
  /\ softfp.lt F M E a b fl = (order_key F a <? order_key F b, fl)
  /\ softfp.eq_quiet F M E a b fl = (order_key F a =? order_key F b, fl).
Proof.
  intros (? & ? & ? & ?)%formats_ok Ha Hb Na Nb. apply order_comparisons; try done.
  by rewrite Na, Nb.
Qed.

(** The Newton iteration of the square root terminates and is exact: for every
    significand the loop ends within its fuel and returns the floor of the
    square root of [ah * 2 ^ F_SIZE], with the inexact flag telling whether the
    radicand is not a perfect square. *)
Theorem fp_sqrtrem_exact F M E ah :
  In (F, M, E) formats -> uint F ah ->
  softfp.sqrtrem_u F ah 0
  = Some (Z.sqrt (ah * 2 ^ F),
          negb (ah * 2 ^ F - Z.sqrt (ah * 2 ^ F) * Z.sqrt (ah * 2 ^ F) =? 0)).
Proof. intros (? & ? & ? & ?)%formats_ok Ha. by apply (sqrtrem_u_correct F M E). Qed.

(** ** The local f32 rounder *)

Lemma rshift_rnd_range F a d : 1 <= F -> 0 <= d -> uint F a -> uint F (softfp.rshift_rnd F a d).
Proof.
  intros HF Hd Ha. unfold softfp.rshift_rnd. repeat case_match; [done|by apply uint_b2z|].
  apply uint_lor; [lia|by apply uint_shiftr|by apply uint_b2z].
Qed.

Lemma rshift_rnd_u64_32 a d :
  uint 32 a -> 0 <= d -> u32 (rshift_rnd_u64 a d) = softfp.rshift_rnd 32 a d.
Proof.
  intros Ha Hd.
  assert (rshift_rnd_u64 a d = softfp.rshift_rnd 32 a d) as ->.
  { unfold rshift_rnd_u64, softfp.rshift_rnd.
    destruct (Z.eqb_spec d 0); [done|].
    destruct (Z.leb_spec 64 d), (Z.leb_spec 32 d); try done; [lia|].
    assert (a .>> d = 0) as ->.
    { rewrite Z.shiftr_div_pow2 by lia. apply Z.div_small. unfold uint in Ha.
      pose proof (Z.pow_le_mono_r 2 32 d). lia. }
    rewrite Z.lor_0_l. do 3 f_equal.
    rewrite shl1_pow by lia. replace (2 ^ d - 1) with (Z.ones d) by (rewrite Z.ones_equiv; lia).
    rewrite Z.land_ones by lia. apply Z.mod_small. unfold uint in Ha.
    pose proof (Z.pow_le_mono_r 2 32 d). lia. }
  apply wrap_small. by apply rshift_rnd_range.
Qed.

(** The hand-written f32 rounder used by the double-to-single conversion is the
    generic rounder at the f32 sizes: same packed result and same flags, for
    every sign, exponent, 32-bit significand and rounding mode. *)
Theorem round_pack_sf32_generic sign exp mant rm fl :
  uint 32 mant -> round_pack_sf32 sign exp mant rm fl = sf32.round_pack sign exp mant rm fl.
Proof.
  intros Hm. unfold round_pack_sf32, sf32.round_pack, softfp.round_pack, sf32.pack. cbv zeta.
  destruct (Z.leb_spec exp 0); [|reflexivity].
  rewrite rshift_rnd_u64_32 by (done || lia). reflexivity.
Qed.

Lemma round_pack_sf32_generic_witness :
  uint 32 0x4fffffff
  /\ round_pack_sf32 0 (-3) 0x4fffffff RM_RNE 0 = sf32.round_pack 0 (-3) 0x4fffffff RM_RNE 0.
Proof. split; [uint_lit|apply round_pack_sf32_generic; uint_lit]. Defined.

(** ** Rounding *)

(** Reference rounding of [m / 2 ^ n] to an integer: quotient, remainder and the
    five IEEE 754 directions. *)
Definition round_ref (n rm sign m : Z) : Z :=
  let q := m / 2 ^ n in
  let r := m mod 2 ^ n in
  if rm =? RM_RNE then
    if (2 ^ n <? 2 * r) || ((2 * r =? 2 ^ n) && Z.odd q) then q + 1 else q
  else if rm =? RM_RTZ then q
  else if rm =? RM_RDN then if (sign =? 1) && (0 <? r) then q + 1 else q
  else if rm =? RM_RUP then if (sign =? 0) && (0 <? r) then q + 1 else q
  else if 2 ^ n <=? 2 * r then q + 1 else q.

(** The rounder's add-and-shift, with the ties-to-even correction. *)
Definition round_step (F n rm m addend rnd_bits : Z) : Z :=
  let mant := wrap F (m + addend) .>> n in
  if (rm =? RM_RNE) && (rnd_bits =? (1 .<< (n - 1))) then mant .&~ 1 else mant.

Lemma div_add_small q r k d : 0 < d -> 0 <= r + k < 2 * d ->
  (q * d + r + k) / d = if d <=? r + k then q + 1 else q.
Proof.
  intros Hd Hr. replace (q * d + r + k) with (r + k + q * d) by lia.
  rewrite Z.div_add by lia.
  destruct (Z.leb_spec d (r + k)).
  - replace (r + k) with ((r + k - d) + 1 * d) by lia.
    rewrite Z.div_add, Z.div_small by lia. lia.
  - rewrite Z.div_small by lia. lia.
Qed.

Lemma clear_bit0 x : x .&~ 1 = 2 * (x / 2).
Proof.
  change 1 with (Z.ones 1). rewrite Z.ldiff_ones_r by lia.
  rewrite Z.shiftr_div_pow2, Z.shiftl_mul_pow2 by lia. change (2 ^ 1) with 2. lia.
Qed.

Lemma round_step_ref F M E sign rm m :
  2 <= M -> 2 <= E -> F = 1 + E + M -> E < 32 -> 2 <= softfp.RND_SIZE F M ->
  sign = 0 \/ sign = 1 -> 0 <= rm <= 4 -> 0 <= m < 2 ^ (F - 1) ->
  round_step F (softfp.RND_SIZE F M) rm m (softfp.rnd_addend F M sign rm)
    (m mod 2 ^ softfp.RND_SIZE F M)
  = round_ref (softfp.RND_SIZE F M) rm sign m.
Proof.
  intros HM HE HF HE32 Hn Hs Hrm Hm. unfold round_step, round_ref, softfp.rnd_addend.
  assert (softfp.RND_SIZE F M <= F - 2) as HnF by (unfold softfp.RND_SIZE, softfp.IMANT_SIZE; lia).
  set (n := softfp.RND_SIZE F M) in *. clearbody n.
  assert (2 ^ n = 2 * 2 ^ (n - 1)) as Hh by (rewrite <- Z.pow_succ_r by lia; f_equal; lia).
  assert (2 ^ F = 2 * 2 ^ (F - 1)) as HF2 by (rewrite <- Z.pow_succ_r by lia; f_equal; lia).
  assert (2 ^ n <= 2 ^ (F - 1)) as HnF' by (apply Z.pow_le_mono_r; lia).
  rewrite !shl1_pow by lia.
  pose proof (Z.div_mod m (2 ^ n) ltac:(lia)) as Hd. rewrite (Z.mul_comm (2 ^ n)) in Hd.
  pose proof (Z.mod_pos_bound m (2 ^ n) ltac:(lia)) as Hr.
  set (q := m / 2 ^ n) in *. set (r := m mod 2 ^ n) in *. clearbody q r.
  assert (forall k, 0 <= k < 2 ^ n ->
            wrap F (m + k) .>> n = if 2 ^ n <=? r + k then q + 1 else q) as Hdiv.
  { intros k Hk. rewrite wrap_small by (unfold uint; lia).
    rewrite Z.shiftr_div_pow2 by lia. rewrite Hd. apply div_add_small; lia. }
  assert (rm = 0 \/ rm = 1 \/ rm = 2 \/ rm = 3 \/ rm = 4) as Hcases by lia.
  destruct Hcases as [-> | [-> | [-> | [-> | ->]]]];
    unfold RM_RNE, RM_RTZ, RM_RDN, RM_RUP, RM_RMM; cbn [Z.eqb Pos.eqb orb andb].
  - rewrite Hdiv by lia. destruct (Z.eqb_spec r (2 ^ (n - 1))) as [->|Hne].
    + destruct (Z.leb_spec (2 ^ n) (2 ^ (n - 1) + 2 ^ (n - 1))); [|lia].
      destruct (Z.ltb_spec (2 ^ n) (2 * 2 ^ (n - 1))); [lia|].
      destruct (Z.eqb_spec (2 * 2 ^ (n - 1)) (2 ^ n)); [|lia]. cbn [orb andb].
      rewrite clear_bit0. pose proof (Zmod_odd q). destruct (Z.odd q); zlia.
    + destruct (Z.leb_spec (2 ^ n) (r + 2 ^ (n - 1))),
        (Z.ltb_spec (2 ^ n) (2 * r)), (Z.eqb_spec (2 * r) (2 ^ n)); cbn [orb andb]; lia.
  - rewrite Hdiv by lia. destruct (Z.leb_spec (2 ^ n) (r + 0)); lia.
  - destruct Hs as [-> | ->]; change (0 .^ (2 .& 1)) with 0; change (1 .^ (2 .& 1)) with 1;
      cbn [Z.eqb Pos.eqb negb andb]; rewrite Hdiv by lia.
    + destruct (Z.leb_spec (2 ^ n) (r + 0)); lia.
    + destruct (Z.leb_spec (2 ^ n) (r + (2 ^ n - 1))), (Z.ltb_spec 0 r); lia.
  - destruct Hs as [-> | ->]; change (0 .^ (3 .& 1)) with 1; change (1 .^ (3 .& 1)) with 0;
      cbn [Z.eqb Pos.eqb negb andb]; rewrite Hdiv by lia.
    + destruct (Z.leb_spec (2 ^ n) (r + (2 ^ n - 1))), (Z.ltb_spec 0 r); lia.
    + destruct (Z.leb_spec (2 ^ n) (r + 0)); lia.
  - rewrite Hdiv by lia.
    destruct (Z.leb_spec (2 ^ n) (r + 2 ^ (n - 1))), (Z.leb_spec (2 ^ n) (2 * r)); lia.
Qed.

(** The fields of an encoding: sign, biased exponent, fraction. *)
Definition sign_field (F r : Z) : Z := r / 2 ^ (F - 1).
Definition exp_field (M E r : Z) : Z := r / 2 ^ M mod 2 ^ E.
Definition frac_field (M r : Z) : Z := r mod 2 ^ M.

Lemma pack_fields F M E sign exp mant :
  In (F, M, E) formats -> sign = 0 \/ sign = 1 -> 0 <= exp < 2 ^ E ->
  let r := softfp.pack F M sign exp mant in
  sign_field F r = sign /\ exp_field M E r = exp /\ frac_field M r = mant mod 2 ^ M.
Proof.
  intros Hin Hs He r. destruct (formats_ok F M E Hin) as (HM & HE & HF & HE32).
  assert (2 ^ (F - 1) = 2 ^ E * 2 ^ M) as HF1 by (rewrite <- Z.pow_add_r by lia; f_equal; lia).
  assert (2 ^ F = 2 * 2 ^ (F - 1)) as HF2 by (rewrite <- Z.pow_succ_r by lia; f_equal; lia).
  assert (0 < 2 ^ M) as Hp by (apply Z.pow_pos_nonneg; lia).
  pose proof (Z.mod_pos_bound mant (2 ^ M) Hp) as Hm.
  assert (0 <= exp * 2 ^ M /\ exp * 2 ^ M + 2 ^ M <= 2 ^ (F - 1)) as Hx by (rewrite HF1; nia).
  assert (r = sign * 2 ^ (F - 1) + (exp * 2 ^ M + mant mod 2 ^ M)) as ->.
  { unfold r, softfp.pack, softfp.shlu, softfp.MANT_MASK. rewrite shl1_pow by lia.
    replace (2 ^ M - 1) with (Z.ones M) by (rewrite Z.ones_equiv; lia).
    rewrite Z.land_ones, !Z.shiftl_mul_pow2 by lia.
    rewrite !wrap_small by (unfold uint; destruct Hs; subst sign; lia).
    rewrite <- Z.lor_assoc, (Z.lor_comm (exp * 2 ^ M)), (lor_add M _ _ ltac:(lia) Hm) by (apply Z.mod_mul; lia).
    rewrite Z.lor_comm, (lor_add (F - 1)); [lia|lia|unfold uint; lia|apply Z.mod_mul; lia]. }
  unfold sign_field, exp_field, frac_field. split_and!.
  - rewrite Z.div_add_l, Z.div_small by lia. lia.
  - rewrite HF1, Z.mul_assoc, Z.add_assoc, <- Z.mul_add_distr_r, Z.div_add_l, (Z.div_small (mant mod _)), Z.add_0_r by lia.
    rewrite Z.add_comm, Z.mod_add by lia. by apply Z.mod_small.
  - rewrite HF1, Z.mul_assoc, Z.add_assoc, <- Z.mul_add_distr_r, Z.add_comm, Z.mod_add by lia. by apply Z.mod_mod; lia.
Qed.

Lemma round_ref_range n M rm sign m :
  0 <= n -> 0 <= M -> 2 ^ (n + M) <= m < 2 ^ (n + M + 1) -> 2 ^ M <= round_ref n rm sign m <= 2 ^ (M + 1).
Proof.
  intros Hn HM Hm. assert (2 ^ M <= m / 2 ^ n < 2 ^ (M + 1)).
  { replace (n + M + 1) with (n + (M + 1)) in Hm by lia. rewrite !Z.pow_add_r in Hm by lia.
    pose proof (Z.pow_pos_nonneg 2 n). rewrite Z.pow_add_r in * by lia.
    split; [apply Z.div_le_lower_bound|apply Z.div_lt_upper_bound]; lia. }
  unfold round_ref. repeat case_match; lia.
Qed.

(** The same before the fields are taken apart. *)
Lemma round_pack_normal_packed F M E sign exp mant rm fl :
  In (F, M, E) formats -> sign = 0 \/ sign = 1 -> 0 <= rm <= 4 ->
  0 < exp -> 2 ^ (F - 2) <= mant < 2 ^ (F - 1) ->
  let n := softfp.RND_SIZE F M in
  let q := round_ref n rm sign mant in
  exp + q / 2 ^ (M + 1) < softfp.EXP_MASK E ->
  softfp.round_pack F M E sign exp mant rm fl
  = (softfp.pack F M sign (exp + q / 2 ^ (M + 1)) q,
     if mant mod 2 ^ n =? 0 then fl else fl .| FFLAG_INEXACT).
Proof.
  intros Hin Hs Hrm He Hm n q Hov. destruct (formats_ok F M E Hin) as (HM & HE & HF & HE32).
  assert (2 <= n) as Hn by (unfold n; destruct Hin as [[= <- <- <-]|[[= <- <- <-]|[]]]; done).
  assert (n = F - 2 - M) as Hnv by done.
  pose proof (round_step_ref F M E sign rm mant HM HE HF HE32 Hn Hs Hrm ltac:(
    pose proof (Z.pow_pos_nonneg 2 (F - 2)); lia)) as Hstep.
  fold n q in Hstep. unfold round_step in Hstep.
  assert (2 ^ M <= q) as Hq.
  { assert (2 ^ M <= mant / 2 ^ n).
    { apply Z.div_le_lower_bound; [lia|]. rewrite <- Z.pow_add_r by lia.
      replace (n + M) with (F - 2) by lia. lia. }
    unfold q, round_ref. repeat case_match; lia. }
  unfold softfp.round_pack. cbv zeta. fold n.
  destruct (Z.leb_spec exp 0); [lia|].
  assert (mant .& ((1 .<< n) - 1) = mant mod 2 ^ n) as ->.
  { rewrite shl1_pow by lia. replace (2 ^ n - 1) with (Z.ones n) by (rewrite Z.ones_equiv; lia).
    apply Z.land_ones. lia. }
  cbv zeta in Hstep. rewrite Hstep.
  rewrite (Z.shiftr_div_pow2 q) by lia.
  destruct (Z.leb_spec q (softfp.MANT_MASK M)) as [Hle|_].
  { unfold softfp.MANT_MASK in Hle. rewrite shl1_pow in Hle by lia. lia. }
  destruct (Z.leb_spec (softfp.EXP_MASK E) (exp + q / 2 ^ (M + 1))); [lia|].
  unfold raise_if. by destruct (_ =? 0).
Qed.

(** C37: Rounding is correct in the normal range: for a normalized significand
    (leading one at bit F-2) with a positive biased exponent whose rounded result
    does not overflow, the encoding returned has the requested sign, a biased
    exponent into which the carry of the rounding moved, and a fraction that with
    the hidden one is, at that exponent, exactly the significand rounded in the
    requested direction (ties to even, toward zero, down, up, ties away);
    inexact is raised exactly when discarded bits were not all zero, and no other
    flag is. *)
Theorem fp_round_pack_normal F M E sign exp mant rm fl :
  In (F, M, E) formats -> sign = 0 \/ sign = 1 -> 0 <= rm <= 4 ->
  0 < exp -> 2 ^ (F - 2) <= mant < 2 ^ (F - 1) ->
  let n := F - 2 - M in
  let q := round_ref n rm sign mant in
  exp + q / 2 ^ (M + 1) < 2 ^ E - 1 ->
  exists r,
    softfp.round_pack F M E sign exp mant rm fl = (r, if mant mod 2 ^ n =? 0 then fl else fl .| FFLAG_INEXACT)
    /\ uint F r /\ sign_field F r = sign /\ exp_field M E r = exp + q / 2 ^ (M + 1)
    /\ (2 ^ M + frac_field M r) * 2 ^ exp_field M E r = q * 2 ^ exp.
Proof.
  intros Hin Hs Hrm He Hm n q Hov. destruct (formats_ok F M E Hin) as (HM & HE & HF & HE32).
  assert (0 <= n) as Hn by (unfold n; destruct Hin as [[= <- <- <-]|[[= <- <- <-]|[]]]; done).
  assert (2 ^ M <= q <= 2 ^ (M + 1)) as Hq.
  { apply round_ref_range; [done|lia|]. by replace (n + M) with (F - 2) by lia; replace (F - 2 + 1) with (F - 1) by lia. }
  assert (2 ^ (M + 1) = 2 * 2 ^ M) as HM1 by (rewrite <- Z.pow_succ_r by lia; f_equal; lia).
  pose proof (Z.div_pos q (2 ^ (M + 1)) ltac:(lia) ltac:(lia)) as Hc.
  destruct (pack_fields F M E sign (exp + q / 2 ^ (M + 1)) q Hin Hs ltac:(lia)) as (Fs & Fe & Ff).
  exists (softfp.pack F M sign (exp + q / 2 ^ (M + 1)) q). split; [apply (round_pack_normal_packed F M E); try done|].
  { unfold softfp.EXP_MASK. rewrite shl1_pow by lia. exact Hov. }
  split; [by apply (pack_range F M E)|]. split; [exact Fs|]. split; [exact Fe|].
  rewrite Fe, Ff. destruct (Z.eq_dec q (2 ^ (M + 1))) as [->|Hne].
  - rewrite Z.div_same, HM1, Z.mod_mul, Z.pow_add_r by lia. lia.
  - rewrite (Z.div_small q) by lia. rewrite Z.add_0_r.
    replace (q mod 2 ^ M) with (q - 2 ^ M); [nia|].
    apply (Z.mod_unique_pos _ _ 1); lia.
Qed.

(** 0x40.0000c0 is rounded up, to 0x80.0002. *)
Lemma fp_round_pack_normal_witness :
  exists r, sf32.round_pack 0 127 0x400000c0 RM_RNE 0 = (r, FFLAG_INEXACT)
    /\ exp_field 23 8 r = 127 /\ (2 ^ 23 + frac_field 23 r) * 2 ^ exp_field 23 8 r = 0x800002 * 2 ^ 127.
Proof.
  destruct (fp_round_pack_normal 32 23 8 0 127 0x400000c0 RM_RNE 0) as (r & E & _ & _ & Ee & Ev);
    [by left|by left|done|done|done|reflexivity|].
  exists r. split; [exact E|]. split; [exact Ee|exact Ev].
Defined.

Lemma fp_add_comm_witness :
  In (32, 23, 8) formats /\ sf32.add 0x3f800000 0x7f800001 RM_RUP 0
                            = sf32.add 0x7f800001 0x3f800000 RM_RUP 0.
Proof.
  split; [by left|].
  apply (fp_add_comm 32 23 8 0x3f800000 0x7f800001 RM_RUP 0); [by left|uint_lit|uint_lit].
Defined.

Lemma fp_compare_order_witness :
  sf64.lt 0xbff0000000000000 0x3ff0000000000000 0 = (true, 0)
  /\ sf64.eq_quiet 0x8000000000000000 0 0 = (true, 0).
Proof.
  split.
  - apply (fp_compare_order 64 52 11 0xbff0000000000000 0x3ff0000000000000 0);
      [right; by left|uint_lit|uint_lit|reflexivity|reflexivity].
  - apply (fp_compare_order 64 52 11 0x8000000000000000 0 0);
      [right; by left|uint_lit|uint_lit|reflexivity|reflexivity].
Defined.

Lemma fp_sqrtrem_exact_witness :
  softfp.sqrtrem_u 32 0x20000000 0 = Some (Z.sqrt (0x20000000 * 2 ^ 32), true).
Proof. apply (fp_sqrtrem_exact 32 23 8 0x20000000); [by left|uint_lit]. Defined.
