(* ===== verification/RvcEquiv.v ===== *)
(** * The direct RVC decoder executes the expansion

    [step_compressed] never builds the 32-bit word that [expand] describes; the
    theorem of this file is that it behaves, on every halfword and every
    well-formed hart, exactly as [execute] on that word with a 2-byte
    fall-through. *)

From S2P Require Import Prelude Exception Decode Compressed Csr State Bus Mmu Trap CsrOps.
From S2P Require Import Vector SoftFp Exec Step Wf.

(** ** Arithmetic the two decoders spell differently *)

Lemma add64_0_l x : uint 64 x -> add64 0 x = x.
Proof. intros. by apply wrap_small. Qed.

Lemma add64_0_r x : uint 64 x -> add64 x 0 = x.
Proof. intros. unfold add64. rewrite Z.add_0_r. by apply wrap_small. Qed.

Lemma u64_small x : uint 64 x -> u64 x = x.
Proof. apply wrap_small. Qed.

Lemma sext32_u32 x : sext32 (u32 x) = sext32 x.
Proof. unfold sext32, i32, signed, u32, wrap. by rewrite Zplus_mod_idemp_l. Qed.

Lemma xr_fp_dirty c i : xr (fp_dirty c) i = xr c i.
Proof. unfold fp_dirty. by destruct (sys c). Qed.

Lemma wr_set_xr i v c : i <> 0 -> wr i v c = set_xr i v c.
Proof. intros. unfold wr. by destruct (Z.eqb_spec i 0). Qed.

Lemma creg_nonzero c n : compressed_register ((c .>> n) .& 7) <> 0.
Proof. pose proof (uint_creg c n) as H. unfold compressed_register, creg, uint in *.
  pose proof (proj1 (uint_land_r 3 (c .>> n) 7 ltac:(lia) ltac:(unfold uint; lia))). lia. Qed.

(** The shift amount and the SRAI marker of an expanded shift. *)
Lemma enc_i_shift op d f s imm :
  uint 7 op -> uint 5 d -> uint 3 f -> uint 5 s -> uint 11 imm ->
  let i := enc_i op d f s imm in
  (i .>> 26) = imm / 2 ^ 6 /\ u64 (imm_i i) .& 0x3f = imm mod 2 ^ 6.
Proof.
  intros Ho Hd Hf Hs Hi i. unfold uint in Hi.
  destruct (enc_i_fields op d f s Ho Hd Hf Hs imm ltac:(lia)) as (_ & _ & _ & _ & _ & Him).
  split.
  - unfold i. rewrite (enc_i_sum op d f s 0 0) by done.
    unfold uint in *. arith_bits. zlia.
  - fold i in Him. rewrite Him, u64_small by (unfold uint; lia). by arith_bits.
Qed.

Lemma ci_imm_uint c : uint 6 (ci_imm c).
Proof. unfold ci_imm. field_tac. Qed.

Lemma ci_imm_marked c : ci_imm c .| 0x400 = ci_imm c + 0x400.
Proof. apply (lor_add 6); [lia|apply ci_imm_uint|done]. Qed.

(** The interpreter's copies of the expander's helpers. *)
Lemma compressed_sext_eq : compressed_sext = sext.
Proof. reflexivity. Qed.
Lemma compressed_register_eq : compressed_register = creg.
Proof. reflexivity. Qed.

Section Equivalence.
Context {B : Type} `{Bus B} `{VectorUnit B}.

(** ** [exec_body] by opcode *)

(** Select the arm of the opcode [E]. *)
Ltac by_opcode E :=
  unfold exec_body; unfold bind at 1, gets at 1; cbv beta zeta;
  rewrite E; cbn [Z.eqb Pos.eqb orb hart fst].

Lemma exec_lui e npc h (b : B) :
  opcode e = 0x37 ->
  exec_body e npc (h, b) = (Ok (Next npc None), (wr (rd e) (u64 (imm_u e)) h, b)).
Proof. intros E. by_opcode E. done. Qed.

Lemma exec_jal e npc h (b : B) :
  opcode e = 0x6f ->
  exec_body e npc (h, b)
  = (Ok (Next (add64 h.(pc) (u64 (imm_j e))) None), (wr (rd e) npc h, b)).
Proof. intros E. by_opcode E. done. Qed.

Lemma exec_jalr e npc h (b : B) :
  opcode e = 0x67 ->
  exec_body e npc (h, b)
  = (Ok (Next (add64 (xr h (rs1 e)) (u64 (imm_i e)) .&~ 1) None), (wr (rd e) npc h, b)).
Proof. intros E. by_opcode E. done. Qed.

Lemma exec_branch e npc h (b : B) taken :
  opcode e = 0x63 -> branch_taken (funct3 e) (xr h (rs1 e)) (xr h (rs2 e)) = Some taken ->
  exec_body e npc (h, b)
  = (Ok (Next (if taken : bool then add64 h.(pc) (u64 (imm_b e)) else npc) None), (h, b)).
Proof.
  intros E T. by_opcode E.
  unfold bind. by rewrite T.
Qed.

Lemma exec_opimm e npc h (b : B) :
  opcode e = 0x13 ->
  exec_body e npc (h, b)
  = (Ok (Next npc None), (wr (rd e) (op_imm_val e (xr h (rs1 e))) h, b)).
Proof. intros E. by_opcode E. done. Qed.

Lemma exec_opimm32 e npc h (b : B) v :
  opcode e = 0x1b -> op_imm_32_val e (u32 (xr h (rs1 e))) = Some v ->
  exec_body e npc (h, b) = (Ok (Next npc None), (wr (rd e) (sext32 v) h, b)).
Proof.
  intros E V. by_opcode E.
  unfold bind. by rewrite V.
Qed.

Lemma exec_op e npc h (b : B) v :
  opcode e = 0x33 ->
  op_val (funct7 e) (funct3 e) (xr h (rs1 e)) (xr h (rs2 e)) = Some v ->
  exec_body e npc (h, b) = (Ok (Next npc None), (wr (rd e) v h, b)).
Proof.
  intros E V. by_opcode E.
  unfold bind. by rewrite V.
Qed.

Lemma exec_op32 e npc h (b : B) v :
  opcode e = 0x3b ->
  op_32_val (funct7 e) (funct3 e) (u32 (xr h (rs1 e))) (u32 (xr h (rs2 e))) = Some v ->
  exec_body e npc (h, b) = (Ok (Next npc None), (wr (rd e) (sext32 v) h, b)).
Proof.
  intros E V. by_opcode E.
  unfold bind. by rewrite V.
Qed.

Lemma exec_lw e npc h (b : B) :
  opcode e = 0x03 -> funct3 e = 2 ->
  exec_body e npc (h, b)
  = (v <- ld 4 (add64 (xr h (rs1 e)) (u64 (imm_i e))) ;;
     on_fst (modify (wr (rd e) (sext32 v))) ;;; ret (Next npc None)) (h, b).
Proof.
  intros E F. by_opcode E.
  unfold exec_load, bind, gets, hart. cbn [fst]. rewrite F. cbn [Z.eqb Pos.eqb].
  by destruct (ld 4 _ (h, b)) as [[]].
Qed.

Lemma exec_ld e npc h (b : B) :
  opcode e = 0x03 -> funct3 e = 3 ->
  exec_body e npc (h, b)
  = (v <- ld 8 (add64 (xr h (rs1 e)) (u64 (imm_i e))) ;;
     on_fst (modify (wr (rd e) v)) ;;; ret (Next npc None)) (h, b).
Proof.
  intros E F. by_opcode E.
  unfold exec_load, bind, gets, hart. cbn [fst]. rewrite F. cbn [Z.eqb Pos.eqb].
  by destruct (ld 8 _ (h, b)) as [[]].
Qed.

Lemma exec_sw e npc h (b : B) :
  opcode e = 0x23 -> funct3 e = 2 ->
  exec_body e npc (h, b)
  = (st 4 (add64 (xr h (rs1 e)) (u64 (imm_s e))) (xr h (rs2 e)) ;;;
     ret (Next npc None)) (h, b).
Proof.
  intros E F. by_opcode E.
  unfold exec_store, bind, gets, hart. cbn [fst]. by rewrite F.
Qed.

Lemma exec_sd e npc h (b : B) :
  opcode e = 0x23 -> funct3 e = 3 ->
  exec_body e npc (h, b)
  = (st 8 (add64 (xr h (rs1 e)) (u64 (imm_s e))) (xr h (rs2 e)) ;;;
     ret (Next npc None)) (h, b).
Proof.
  intros E F. by_opcode E.
  unfold exec_store, bind, gets, hart. cbn [fst]. by rewrite F.
Qed.

Lemma exec_fld e npc h (b : B) :
  opcode e = 0x07 -> funct3 e = 3 ->
  exec_body e npc (h, b)
  = (on_fst (fp_check e) ;;; on_fst (modify fp_dirty) ;;;
     v <- ld 8 (add64 (xr h (rs1 e)) (u64 (imm_i e))) ;;
     on_fst (modify (set_fr (rd e) v)) ;;; ret (Next npc None)) (h, b).
Proof.
  intros E F. by_opcode E.
  unfold exec_load_fp. rewrite F. unfold is_vector_width. cbn [Z.eqb Pos.eqb orb].
  unfold fp_check, on_fst, modify, bind, gets, hart. cbn [fst snd].
  destruct (sys h) as [s|]; [destruct (_ =? 0)|]; cbn [fst snd]; [done|..];
    rewrite xr_fp_dirty;
    match goal with |- context [ld 8 ?a ?s] => by destruct (ld 8 a s) as [[]] end.
Qed.

Lemma exec_fsd e npc h (b : B) :
  opcode e = 0x27 -> funct3 e = 3 ->
  exec_body e npc (h, b)
  = (on_fst (fp_check e) ;;;
     st 8 (add64 (xr h (rs1 e)) (u64 (imm_s e))) (fr h (rs2 e)) ;;;
     ret (Next npc None)) (h, b).
Proof.
  intros E F. by_opcode E.
  unfold exec_store_fp. rewrite F. unfold is_vector_width. cbn [Z.eqb Pos.eqb orb].
  unfold fp_check, on_fst, bind, gets, hart. cbn [fst snd].
  by destruct (sys h) as [s|]; [destruct (_ =? 0)|].
Qed.

Lemma exec_ebreak_word npc h (b : B) :
  exec_body 0x00100073 npc (h, b)
  = (match h.(sys) with
     | Some _ => Err Breakpoint
     | None => Ok (Next npc (Some Break))
     end, (h, b)).
Proof.
  unfold exec_body, bind, gets, hart. change (opcode 0x00100073) with 0x73.
  cbn [Z.eqb Pos.eqb orb fst]. unfold exec_system, exec_ebreak, on_fst, bind, gets.
  cbn [Z.eqb Pos.eqb fst snd id]. unfold id. by destruct (sys h).
Qed.

(** ** The quadrants *)

(** What the direct decoder must do on the result of the expander. *)
Definition follows (e : option Z) (c npc : Z) (m : Hart (Cpu * B) flow) (s : Cpu * B) : Prop :=
  m s = match e with
        | Some e => exec_body e npc s
        | None => (Err (IllegalInstruction c), s)
        end.

(** Name the expansion and its fields: [F : uint 32 e /\ opcode e = ...]. *)
Ltac name_expansion :=
  lazymatch goal with
  | |- context [exec_body ?i _ _] =>
      let P := enc_fields i in
      let F := fresh "F" in let e := fresh "e" in
      pose proof P as F; cbv zeta in F; set (e := i) in *; clearbody e;
      destruct_and? F
  end.

(** Evaluate a chain of tests on a literal. *)
Ltac eval_tests := cbn [Z.eqb Pos.eqb orb andb negb].

Ltac use_fields :=
  repeat match goal with
  | E : ?f ?e = _ |- context [?f ?e] => is_var e; rewrite E
  end.

Lemma uint_3_cases f :
  uint 3 f -> f = 0 \/ f = 1 \/ f = 2 \/ f = 3 \/ f = 4 \/ f = 5 \/ f = 6 \/ f = 7.
Proof. unfold uint. change (2 ^ 3) with 8. lia. Qed.

Ltac split_f3 H := destruct (uint_3_cases _ H) as [-> | [-> | [-> | [-> | [-> | [-> | [-> | ->]]]]]]].

Lemma q0_follows c f3 npc h b :
  uint 3 f3 -> expand c = Some (expand_q0 c f3) ->
  follows (expand_q0 c f3) c npc (step_compressed_q0 c f3 npc) (h, b).
Proof.
  intros Hf3 Hx. unfold follows, step_compressed_q0, expand_expect. rewrite Hx. clear Hx.
  unfold bind at 1, gets at 1. unfold expand_q0. cbv beta zeta.
  split_f3 Hf3; eval_tests.
  - zcase; [done|]. name_expansion.
    rewrite exec_opimm by done. unfold op_imm_val. use_fields. eval_tests.
    rewrite u64_small by field_tac. done.
  - name_expansion. rewrite exec_fld by done. use_fields. by rewrite u64_small by field_tac.
  - name_expansion. rewrite exec_lw by done. use_fields. rewrite u64_small by field_tac.
    unfold bind. destruct (ld 4 _ (h, b)) as [[]]; [|done..]. by rewrite sext32_u32.
  - name_expansion. rewrite exec_ld by done. use_fields. by rewrite u64_small by field_tac.
  - done.
  - name_expansion. rewrite exec_fsd by done. use_fields. by rewrite u64_small by field_tac.
  - name_expansion. rewrite exec_sw by done. use_fields. by rewrite u64_small by field_tac.
  - name_expansion. rewrite exec_sd by done. use_fields. by rewrite u64_small by field_tac.
Qed.

(** The shift immediates: [marker] is funct6. *)
Lemma op_imm_shift e a marker :
  funct3 e = 5 -> (e .>> 26) = marker ->
  op_imm_val e a = (let shamt := u64 (imm_i e) .& 0x3f in
                    if marker =? 0x10 then u64 (i64 a .>> shamt) else a .>> shamt).
Proof. intros F <-. unfold op_imm_val. by rewrite F. Qed.

Lemma op_imm_slli e a :
  funct3 e = 1 -> op_imm_val e a = shl64 a (u64 (imm_i e) .& 0x3f).
Proof. intros F. unfold op_imm_val. by rewrite F. Qed.

(** An expanded shift by [ci_imm c], plain or with the SRAI marker. *)
Lemma ci_shift op d f s c (top : bool) :
  uint 7 op -> uint 5 d -> uint 3 f -> uint 5 s ->
  let i := enc_i op d f s (ci_imm c + (if top then 0x400 else 0)) in
  (i .>> 26) = (if top then 0x10 else 0) /\ u64 (imm_i i) .& 0x3f = ci_imm c.
Proof.
  intros Ho Hd Hf Hs i. pose proof (ci_imm_uint c) as Hci. unfold uint in Hci.
  destruct (enc_i_shift op d f s (ci_imm c + (if top then 0x400 else 0)) Ho Hd Hf Hs)
    as [T1 T2]; [unfold uint; destruct top; lia|].
  fold i in T1, T2. rewrite T1, T2. destruct top; eval_pow2; zlia.
Qed.

Lemma alu_follows c npc h b :
  follows (expand_q1 c 4) c npc
    (v <- ok_or (step_compressed_alu c h) (IllegalInstruction c) ;;
     on_fst (modify (set_xr (compressed_register ((c .>> 7) .& 7)) v)) ;;;
     ret (Next npc None)) (h, b).
Proof.
  unfold follows, step_compressed_alu, expand_q1. cbv beta zeta. eval_tests.
  pose proof (creg_nonzero c 7) as Hnz.
  pose proof (ci_imm_uint c) as Hci. unfold uint in Hci.
  change ((((c .>> 12) .& 1) .<< 5) .| ((c .>> 2) .& 0x1f)) with (ci_imm c).
  change (ci_imm c .| 0x400) with (ci_imm c .| 1024). rewrite ci_imm_marked.
  zcase; [|zcase; [|zcase; [|repeat zcase]]]; try done.
  - destruct (ci_shift OPIMM (creg ((c .>> 7) .& 7)) 5 (creg ((c .>> 7) .& 7)) c false
      ltac:(reg_tac) ltac:(reg_tac) ltac:(reg_tac) ltac:(reg_tac)) as [T1 T2].
    rewrite Z.add_0_r in T1, T2. name_expansion.
    rewrite exec_opimm by done. rewrite (op_imm_shift _ _ _ ltac:(done) T1), T2. use_fields.
    by rewrite wr_set_xr.
  - destruct (ci_shift OPIMM (creg ((c .>> 7) .& 7)) 5 (creg ((c .>> 7) .& 7)) c true
      ltac:(reg_tac) ltac:(reg_tac) ltac:(reg_tac) ltac:(reg_tac)) as [T1 T2].
    name_expansion.
    rewrite exec_opimm by done. rewrite (op_imm_shift _ _ _ ltac:(done) T1), T2. use_fields.
    by rewrite wr_set_xr.
  - name_expansion. rewrite exec_opimm by done. unfold op_imm_val. use_fields.
    by rewrite wr_set_xr.
  - name_expansion. erewrite exec_op by (try done; by use_fields). use_fields.
    by rewrite wr_set_xr.
  - name_expansion. erewrite exec_op by (try done; by use_fields). use_fields.
    by rewrite wr_set_xr.
  - name_expansion. erewrite exec_op by (try done; by use_fields). use_fields.
    by rewrite wr_set_xr.
  - name_expansion. erewrite exec_op by (try done; by use_fields). use_fields.
    by rewrite wr_set_xr.
  - name_expansion. erewrite exec_op32 by (try done; by use_fields). use_fields.
    by rewrite wr_set_xr.
  - name_expansion. erewrite exec_op32 by (try done; by use_fields). use_fields.
    by rewrite wr_set_xr.
Qed.

(** C.LUI: the 20-bit field of the expansion is the 6-bit immediate. *)
Lemma lui_imm imm :
  - 2 ^ 5 <= imm < 2 ^ 5 ->
  signed 20 (u32 imm .& 0xfffff) * 2 ^ 12 = imm .<< 12.
Proof.
  intros Hi. rewrite Z.shiftl_mul_pow2 by lia. f_equal.
  unfold signed, u32, wrap. arith_bits. zlia.
Qed.

Lemma q1_follows c f3 npc h b :
  wf_cpu h -> uint 3 f3 ->
  follows (expand_q1 c f3) c npc (step_compressed_q1 c f3 npc) (h, b).
Proof.
  intros Hwf Hf3.
  destruct (Z.eqb_spec f3 4) as [->|Hf4].
  { unfold follows. etransitivity; [|apply (alu_follows c npc h b)]. done. }
  unfold follows, step_compressed_q1. unfold bind at 1, gets at 1. unfold expand_q1.
  cbv beta zeta.
  change ((((c .>> 12) .& 1) .<< 5) .| ((c .>> 2) .& 0x1f)) with (ci_imm c).
  rewrite compressed_sext_eq, compressed_register_eq.
  pose proof (sext_range (ci_imm c) 6 ltac:(lia)) as Hi. change (6 - 1) with 5 in Hi.
  split_f3 Hf3; eval_tests.
  - name_expansion. rewrite exec_opimm by done. unfold op_imm_val. by use_fields.
  - zcase; [done|]. name_expansion.
    erewrite exec_opimm32 by (try done; unfold op_imm_32_val; by use_fields). by use_fields.
  - name_expansion. rewrite exec_opimm by done. unfold op_imm_val. use_fields.
    eval_tests. by rewrite (xr_0 _ Hwf), (add64_0_l (u64 (sext _ _)) (uint_u64 _)).
  - zcase.
    + zcase; [done|]. name_expansion. rewrite exec_opimm by done. unfold op_imm_val.
      by use_fields.
    + zcase; [done|]. name_expansion. rewrite exec_lui by done. use_fields.
      by rewrite lui_imm.
  - done.
  - name_expansion. rewrite exec_jal by done. by use_fields.
  - name_expansion. erewrite exec_branch by (try done; by use_fields). use_fields.
    by rewrite (xr_0 _ Hwf).
  - name_expansion. erewrite exec_branch by (try done; by use_fields). use_fields.
    by rewrite (xr_0 _ Hwf).
Qed.

Lemma q2_follows c f3 npc h b :
  wf_cpu h -> uint 3 f3 -> expand c = Some (expand_q2 c f3) ->
  follows (expand_q2 c f3) c npc (step_compressed_q2 c f3 npc) (h, b).
Proof.
  intros Hwf Hf3 Hx. unfold follows, step_compressed_q2, expand_expect. rewrite Hx. clear Hx.
  unfold bind at 1, gets at 1. unfold expand_q2. cbv beta zeta.
  change (hart (h, b)) with h.
  change ((((c .>> 12) .& 1) .<< 5) .| ((c .>> 2) .& 0x1f)) with (ci_imm c).
  pose proof (ci_imm_uint c) as Hci. unfold uint in Hci.
  pose proof (wf_xr h _ Hwf (uint_land5 (c .>> 7))) as Hrd.
  pose proof (wf_xr h _ Hwf (uint_land5 (c .>> 2))) as Hrs2.
  split_f3 Hf3; eval_tests.
  - destruct (ci_shift OPIMM ((c .>> 7) .& 0x1f) 1 ((c .>> 7) .& 0x1f) c false
      ltac:(reg_tac) ltac:(reg_tac) ltac:(reg_tac) ltac:(reg_tac)) as [_ T].
    rewrite Z.add_0_r in T. name_expansion. rewrite exec_opimm by done.
    rewrite op_imm_slli, T by done. by use_fields.
  - name_expansion. rewrite exec_fld by done. use_fields. by rewrite u64_small by field_tac.
  - zcase; [done|]. name_expansion. rewrite exec_lw by done. use_fields.
    rewrite u64_small by field_tac.
    unfold bind. destruct (ld 4 _ (h, b)) as [[]]; [|done..]. by rewrite sext32_u32.
  - zcase; [done|]. name_expansion. rewrite exec_ld by done. use_fields.
    by rewrite u64_small by field_tac.
  - pose proof (land_ones_lit (c .>> 12) 1 1 ltac:(lia) eq_refl) as Hb.
    pose proof (Z.mod_pos_bound (c .>> 12) (2 ^ 1) ltac:(lia)) as Hb2.
    destruct (Z.eqb_spec ((c .>> 12) .& 1) 0); eval_tests.
    + destruct (Z.eqb_spec ((c .>> 7) .& 0x1f) 0); [done|].
      destruct (Z.eqb_spec ((c .>> 2) .& 0x1f) 0); name_expansion.
      * rewrite exec_jalr by done. use_fields. by rewrite add64_0_r.
      * erewrite exec_op by (try done; by use_fields). use_fields.
        by rewrite (xr_0 _ Hwf), add64_0_l.
    + destruct (Z.eqb_spec ((c .>> 12) .& 1) 1); [|change (2 ^ 1) with 2 in *; lia]. eval_tests.
      destruct (Z.eqb_spec ((c .>> 2) .& 0x1f) 0);
        [destruct (Z.eqb_spec ((c .>> 7) .& 0x1f) 0)|rewrite andb_false_r]; eval_tests.
      * rewrite exec_ebreak_word. by destruct (sys h).
      * name_expansion. rewrite exec_jalr by done. use_fields. by rewrite add64_0_r.
      * name_expansion. erewrite exec_op by (try done; by use_fields). by use_fields.
  - name_expansion. rewrite exec_fsd by done. use_fields. by rewrite u64_small by field_tac.
  - name_expansion. rewrite exec_sw by done. use_fields. by rewrite u64_small by field_tac.
  - name_expansion. rewrite exec_sd by done. use_fields. by rewrite u64_small by field_tac.
Qed.

Lemma uint_land7 x : uint 3 (x .& 7).
Proof. apply uint_land_r; [lia|]. unfold uint. lia. Qed.

Lemma step_compressed_as_execute c h (b : B) :
  uint 16 c -> c .& 3 <> 3 -> wf_cpu h ->
  step_compressed c (h, b)
  = match expand c with
    | Some (Some e) => execute e (add64 h.(pc) 2) (h, b)
    | _ => (Err (IllegalInstruction c), (h, b))
    end.
Proof.
  intros Hc Hq Hwf. unfold step_compressed, expand. cbv zeta.
  destruct (Z.eqb_spec c 0) as [->|Hnz]; [done|].
  pose proof (uint_land7 (c .>> 13)) as Hf3.
  unfold bind at 1, gets at 1. cbv beta. cbn [hart fst].
  assert (forall q e, follows e c (add64 (pc h) 2) q (h, b) ->
    (f <- q;; on_fst (finish f)) (h, b) =
    match Some e with
    | Some (Some e) => execute e (add64 (pc h) 2) (h, b)
    | _ => (Err (IllegalInstruction c), (h, b))
    end) as Hfin.
  { intros q e Hq'. unfold follows in Hq'. unfold execute, bind. rewrite Hq'. by destruct e. }
  destruct (Z.eqb_spec (c .& 3) 0) as [E0|]; [|destruct (Z.eqb_spec (c .& 3) 1) as [E1|];
    [|destruct (Z.eqb_spec (c .& 3) 2) as [E2|]]].
  - apply Hfin, q0_follows; [done|]. unfold expand. cbv zeta.
    destruct (Z.eqb_spec c 0); [done|]. by rewrite E0.
  - by apply Hfin, q1_follows.
  - apply Hfin, q2_follows; [done..|]. unfold expand. cbv zeta.
    destruct (Z.eqb_spec c 0); [done|]. by rewrite E2.
  - pose proof (land_ones_lit c 3 2 ltac:(lia) eq_refl) as Hl.
    pose proof (Z.mod_pos_bound c (2 ^ 2) ltac:(lia)). change (2 ^ 2) with 4 in *. lia.
Qed.

(** C7: The direct RVC decoder and the expander agree: on every 16-bit instruction
    and every well-formed hart, [step_compressed] does exactly what [execute]
    does on the expansion with a fall-through of two bytes (same outcome, same
    hart, same bus), and it raises an illegal-instruction exception carrying
    the halfword, without touching the state, exactly where the expander
    reports a reserved encoding. *)
Theorem step_compressed_expand c h (b : B) :
  uint 16 c -> c .& 3 <> 3 -> wf_cpu h ->
  step_compressed c (h, b)
  = match expand c with
    | Some (Some e) => execute e (add64 h.(pc) 2) (h, b)
    | _ => (Err (IllegalInstruction c), (h, b))
    end.
Proof. apply step_compressed_as_execute. Qed.
End Equivalence.

Lemma step_compressed_expand_witness :
  step_compressed (B := FlatMemory) 0x4515 (Cpu_new, mkFlat 8 [])
  = execute (B := FlatMemory) (H0 := trapping_unit) 0x00500513 2 (Cpu_new, mkFlat 8 [])
  /\ step_compressed (B := FlatMemory) 0x2001 (Cpu_new, mkFlat 8 [])
     = (Err (IllegalInstruction 0x2001), (Cpu_new, mkFlat 8 [])).
Proof.
  split.
  - apply (step_compressed_expand (H0 := trapping_unit) 0x4515);
      [unfold uint; lia|done|apply wf_Cpu_new].
  - apply (step_compressed_expand (H0 := trapping_unit) 0x2001);
      [unfold uint; lia|done|apply wf_Cpu_new].
Defined.
