(* ===== verification/T0Equiv.v ===== *)
(** * The Tier-0 decoder against [step]

    [scalar_t0_step] keeps the program counter and the retirement count in
    locals, so the hart it works on lags behind the architectural one; it
    decodes only part of the instruction set.  This file shows that on that
    part it computes what [step] computes; [T0Run] lifts it to the driver. *)

From S2P Require Import Prelude Exception Decode Compressed Csr State Bus Mmu Trap CsrOps.
From S2P Require Import Vector SoftFp Exec Step T0 Run Wf RvcEquiv.

(** The architectural hart, from the lagging one and the locals. *)
Definition lag (p n : Z) (c : Cpu) : Cpu := set_insn_count n (set_pc p c).

(** ** Computations that do not look at the lagging fields *)

Definition frames {A} (m : Hart Cpu A) : Prop :=
  forall p n c, m (lag p n c) = (fst (m c), lag p n (snd (m c))).

(** What the Tier-0 path relies on from the vector bodies. *)
Class VectorUnitFrame (B : Type) `{VectorUnit B} : Prop := {
  exec_vector_float_frame insn cfg : frames (exec_vector_float insn cfg);
  exec_vector_integer_frame insn cfg : frames (exec_vector_integer insn cfg);
  exec_unit_stride_frame insn load p n c b :
    exec_unit_stride_memory_insn insn load (lag p n c, b)
    = (let r := exec_unit_stride_memory_insn insn load (c, b) in
       (fst r, (lag p n (fst (snd r)), snd (snd r))));
  exec_vector_memory_frame insn load p n c b :
    exec_vector_memory insn load (lag p n c, b)
    = (let r := exec_vector_memory insn load (c, b) in
       (fst r, (lag p n (fst (snd r)), snd (snd r))))
}.

Section Frames.
Context {B : Type}.

Definition lags (p n : Z) (s : Cpu * B) : Cpu * B := (lag p n (fst s), snd s).

Definition framed {A} (m : Hart (Cpu * B) A) : Prop :=
  forall p n s, m (lags p n s) = (fst (m s), lags p n (snd (m s))).

Lemma framed_ret {A} (a : A) : framed (ret a).
Proof. done. Qed.

Lemma framed_throw {A} e : framed (A := A) (throw e).
Proof. done. Qed.

Lemma framed_panic {A} : framed (A := A) panic.
Proof. done. Qed.

Lemma framed_bind {A C} (m : Hart (Cpu * B) A) (k : A -> Hart (Cpu * B) C) :
  framed m -> (forall a, framed (k a)) -> framed (bind m k).
Proof.
  intros Hm Hk p n s. unfold bind. rewrite (Hm p n s).
  destruct (m s) as [[a|e|] s']; simpl; [apply Hk|done|done].
Qed.

(** Reading the hart is harmless when the continuation ignores the lagging
    fields. *)
Lemma framed_hart {C} (k : Cpu -> Hart (Cpu * B) C) :
  (forall p n c, k (lag p n c) = k c) -> (forall c, framed (k c)) ->
  framed (bind (gets hart) k).
Proof.
  intros Hk Hf p n s. unfold bind, gets, hart. cbn [lags fst]. rewrite Hk. apply Hf.
Qed.

Lemma framed_modify f :
  (forall p n c, f (lag p n c) = lag p n (f c)) -> framed (on_fst (modify f)).
Proof. intros Hf p n [c b]. unfold on_fst, modify, lags. simpl. by rewrite Hf. Qed.

Lemma framed_on_fst {A} (m : Hart Cpu A) : frames m -> framed (on_fst m).
Proof.
  intros Hm p n [c b]. unfold on_fst, lags. simpl. rewrite (Hm p n c).
  by destruct (m c).
Qed.

Lemma framed_on_snd {A} (m : Hart B A) : framed (on_snd m).
Proof. intros p n [c b]. unfold on_snd, lags. simpl. by destruct (m b). Qed.

Lemma framed_map_err {A} g (m : Hart (Cpu * B) A) : framed m -> framed (map_err g m).
Proof.
  intros Hm p n s. unfold map_err. rewrite (Hm p n s). by destruct (m s) as [[]].
Qed.

Lemma framed_if {A} (x : bool) (m1 m2 : Hart (Cpu * B) A) :
  framed m1 -> framed m2 -> framed (if x then m1 else m2).
Proof. by destruct x. Qed.

Lemma framed_ok_or {A} (o : option A) e : framed (ok_or o e).
Proof. by destruct o. Qed.

Lemma framed_wr d v : framed (on_fst (modify (wr d v))).
Proof. apply framed_modify. intros. unfold wr. by destruct (negb _). Qed.

Lemma framed_set_xr d v : framed (on_fst (modify (set_xr d v))).
Proof. by apply framed_modify. Qed.

Context `{Bus B} `{VectorUnit B}.

Lemma framed_walk level md sum mxr tag table va access :
  framed (walk level md sum mxr tag table va access).
Proof.
  revert table. induction level as [|level IH]; intros table; cbn [walk]; cbv zeta.
  all: apply framed_bind; [apply framed_map_err, framed_on_snd|]; intros pte.
  all: repeat apply framed_if; try apply framed_throw; try apply IH.
  all: apply framed_bind;
    [apply framed_if; [apply framed_map_err, framed_on_snd|apply framed_ret]|]; intros _.
  all: apply framed_bind; [by intros p n [c b]|intros _; apply framed_ret].
Qed.

Lemma framed_translate va access : framed (translate va access).
Proof.
  intros p n [c b]. unfold translate, lags. cbn [fst snd].
  change (sys (lag p n c)) with (sys c). destruct (sys c) as [s|] eqn:E; [|done].
  cbv zeta. change (translation_tag (lag p n c) va access) with (translation_tag c va access).
  change (tlb_tag (lag p n c)) with (tlb_tag c).
  destruct (_ =? _); [done|]. unfold translate_slow. change (sys (lag p n c)) with (sys c).
  rewrite E. destruct (_ || _); [done|].
  destruct (if satp s .>> 60 =? 8 then _ else _); [|done]. cbv zeta. destruct (_ && _); [done|].
  apply (framed_walk _ _ _ _ _ _ _ _ p n (c, b)).
Qed.

Lemma framed_ld_bytes k i v va : framed (ld_bytes k i v va).
Proof.
  revert i v. induction k as [|k IH]; intros; cbn [ld_bytes]; [apply framed_ret|].
  apply framed_bind; [apply framed_translate|]. intros pa.
  apply framed_bind; [apply framed_on_snd|]. intros byte. apply IH.
Qed.

Lemma framed_st_bytes k i va v : framed (st_bytes k i va v).
Proof.
  revert i. induction k as [|k IH]; intros; cbn [st_bytes]; [apply framed_ret|].
  apply framed_bind; [apply framed_translate|]. intros pa.
  apply framed_bind; [apply framed_on_snd|]. intros _. apply IH.
Qed.

Lemma framed_fill va pa store :
  framed (modify (fun '(c, b) => (fill_jtlb b va pa store c, b))).
Proof.
  intros p n [c b]. unfold modify, lags, fill_jtlb. simpl.
  by destruct (jit_fast_off b va pa store).
Qed.

Lemma framed_ld_slow N va : framed (ld_slow N va).
Proof.
  intros p n s. unfold ld_slow. change (crosses_page (fst (lags p n s)) va N)
    with (crosses_page (fst s) va N).
  destruct (crosses_page _ _ _); [apply framed_ld_bytes|].
  apply (framed_bind (translate va Load)); [apply framed_translate|]. intros pa.
  apply framed_bind; [apply framed_fill|]. intros _. apply framed_on_snd.
Qed.

Lemma framed_st_slow N va v : framed (st_slow N va v).
Proof.
  intros p n s. unfold st_slow. change (crosses_page (fst (lags p n s)) va N)
    with (crosses_page (fst s) va N).
  destruct (crosses_page _ _ _); [apply framed_st_bytes|].
  apply (framed_bind (translate va Store)); [apply framed_translate|]. intros pa.
  apply framed_bind; [apply framed_fill|]. intros _. apply framed_on_snd.
Qed.

Lemma framed_ld N va : framed (ld N va).
Proof.
  intros p n s. unfold ld. change (crosses_page (fst (lags p n s)) va N)
    with (crosses_page (fst s) va N).
  change (interpreter_fused_ptr (fst (lags p n s)) va false)
    with (interpreter_fused_ptr (fst s) va false).
  destruct (crosses_page _ _ _); [apply framed_ld_slow|].
  destruct (interpreter_fused_ptr _ _ _); [|apply framed_ld_slow].
  unfold interpreter_direct_load. destruct (_ || _); [|done]. by destruct s.
Qed.

Lemma framed_st N va v : framed (st N va v).
Proof.
  intros p n s. unfold st. change (crosses_page (fst (lags p n s)) va N)
    with (crosses_page (fst s) va N).
  change (interpreter_fused_ptr (fst (lags p n s)) va true)
    with (interpreter_fused_ptr (fst s) va true).
  destruct (crosses_page _ _ _); [apply framed_st_slow|].
  destruct (interpreter_fused_ptr _ _ _); [|apply framed_st_slow].
  unfold interpreter_direct_store. destruct (_ || _); [|done]. by destruct s.
Qed.
End Frames.

Create HintDb frame.
#[export] Hint Resolve framed_ret framed_throw framed_panic framed_on_snd framed_ok_or framed_wr
  framed_set_xr framed_translate framed_ld framed_st : frame.

(** Structural steps of a frame proof. *)
Ltac frame_step :=
  lazymatch goal with
  | |- framed (bind (gets hart) _) => apply framed_hart; [reflexivity|intros]
  | |- framed (bind _ _) => apply framed_bind; [|intros]
  | |- framed (if ?x then _ else _) => destruct x
  | |- framed (illegal _) => apply framed_throw
  | |- framed (match ?x with _ => _ end) => destruct x
  end.

Ltac frame_tac := repeat (auto with frame; frame_step).

Section BodyFrames.
Context {B : Type} `{Bus B} `{HF : VectorUnitFrame B}.

Lemma framed_exec_load insn : framed (B := B) (exec_load insn).
Proof. unfold exec_load. cbv zeta. frame_tac. Qed.

Lemma framed_exec_store insn : framed (B := B) (exec_store insn).
Proof. unfold exec_store. cbv zeta. frame_tac. Qed.

Lemma framed_vector_memory insn load : framed (B := B) (vector_memory insn load).
Proof using HF.
  unfold vector_memory. apply framed_if; intros p n [c b].
  - apply exec_unit_stride_frame.
  - apply exec_vector_memory_frame.
Qed.

Lemma frames_vector_check insn : frames (vector_check insn).
Proof.
  intros p n c. unfold vector_check.
  change (vector_enabled (lag p n c)) with (vector_enabled c). by destruct (vector_enabled c).
Qed.

Lemma frames_bind {A C} (m : Hart Cpu A) (k : A -> Hart Cpu C) :
  frames m -> (forall a, frames (k a)) -> frames (bind m k).
Proof.
  intros Hm Hk p n c. unfold bind. rewrite (Hm p n c).
  destruct (m c) as [[a|e|] c']; simpl; [apply Hk|done|done].
Qed.

Lemma frames_get {C} (k : Cpu -> Hart Cpu C) :
  (forall p n c, k (lag p n c) = k c) -> (forall c, frames (k c)) ->
  frames (bind (gets id) k).
Proof. intros Hk Hf p n c. unfold bind, gets, id. rewrite Hk. apply Hf. Qed.

Lemma frames_exec_vector_config insn : frames (exec_vector_config insn).
Proof.
  unfold exec_vector_config. apply frames_bind; [apply frames_vector_check|]. intros _.
  destruct (negb _); [done|].
  apply frames_get; [reflexivity|]. intros c. cbv zeta.
  destruct (if insn .>> 30 =? 3 then _ else _) as [[[[raw avl] imm] z]|]; [|done].
  intros p n c'. unfold modify. change (vector (lag p n c')) with (vector c').
  destruct (install_config _ _ _ _ _ _) as [nvl v']. simpl. unfold vector_dirty, wr. simpl.
  destruct (sys c'), (negb _); reflexivity.
Qed.

Lemma frames_exec_vector_op insn : frames (exec_vector_op (B := B) insn).
Proof using HF.
  unfold exec_vector_op. destruct (_ =? 7); [apply frames_exec_vector_config|].
  apply frames_bind; [apply frames_vector_check|]. intros _.
  apply frames_get; [reflexivity|]. intros c.
  apply frames_bind; [by destruct (config _)|]. intros cfg. cbv zeta.
  destruct (_ && _); [done|].
  destruct (_ || _); [apply exec_vector_float_frame|apply exec_vector_integer_frame].
Qed.

Lemma framed_t0_body insn pc : framed (B := B) (scalar_t0_body insn pc).
Proof using HF.
  unfold scalar_t0_body. cbv zeta. apply framed_hart; [reflexivity|]. intros c.
  pose proof (framed_exec_load insn). pose proof (framed_exec_store insn).
  pose proof (framed_vector_memory insn). pose proof (framed_on_fst (B := B) _ (frames_exec_vector_config insn)).
  pose proof (framed_on_fst (B := B) _ (frames_exec_vector_op insn)).
  frame_tac.
Qed.

Lemma framed_t0_compressed c pc : framed (B := B) (scalar_t0_compressed c pc).
Proof.
  unfold scalar_t0_compressed, scalar_t0_compressed_q0, scalar_t0_compressed_q1,
    scalar_t0_compressed_q2. cbv zeta.
  frame_tac.
Qed.
End BodyFrames.

(** ** The Tier-0 decoder computes what [exec_body] computes *)

(** The instruction families [scalar_t0_body] executes itself. *)
Definition t0_family (insn : Z) : bool :=
  let op := opcode insn in
  (op =? 0x37) || (op =? 0x17) || (op =? 0x6f) || (op =? 0x67) || (op =? 0x63) || (op =? 0x03)
  || (op =? 0x23) || (op =? 0x13) || (op =? 0x1b) || (op =? 0x33) || (op =? 0x3b)
  || ((op =? 0x07) && is_vector_width (funct3 insn))
  || ((op =? 0x27) && is_vector_width (funct3 insn)) || (op =? 0x57).

(** RVC forms left to the complete decoder: the floating-point ones. *)
Definition t0_family_rvc (c : Z) : bool :=
  let f3 := (c .>> 13) .& 7 in
  negb ((((c .& 3) =? 0) || ((c .& 3) =? 2)) && ((f3 =? 1) || (f3 =? 5))).

(** The Tier-0 result of an instruction body. *)
Definition t0_result (o : outcome Exception flow) : outcome Exception ScalarT0Step :=
  match o with
  | Ok (Next n None) => Ok (Retired n)
  | Ok (Next n (Some r)) => Ok (Stop n r)
  | Ok (Return _) => Ok Slow
  | Err e => Err e
  | Panic => Panic
  end.

Section Bodies.
Context {B : Type} `{Bus B} `{VectorUnit B}.

Definition lift (r : outcome Exception flow * (Cpu * B)) :
    outcome Exception ScalarT0Step * (Cpu * B) := (t0_result (fst r), snd r).

Lemma lift_bind {A} (m : Hart (Cpu * B) A) k k' s :
  (forall a s, k' a s = lift (k a s)) -> bind m k' s = lift (bind m k s).
Proof. intros Hk. unfold bind. destruct (m s) as [[a|e|] s']; [apply Hk|done|done]. Qed.

Lemma t0_body_exec insn h (b : B) :
  scalar_t0_body insn h.(pc) (h, b)
  = if t0_family insn then lift (exec_body insn (add64 h.(pc) 4) (h, b))
    else (Ok Slow, (h, b)).
Proof.
  unfold scalar_t0_body, exec_body, t0_family. cbv zeta.
  change (bind (gets hart) ?k (h, b)) with (k h (h, b)). cbv beta.
  repeat match goal with
  | |- (if ?x then _ else _) _ = _ => destruct x eqn:?; cbn [orb]
  end; rewrite ?orb_true_r; cbn [orb].
  1-11: repeat (apply lift_bind; intros); done.
  - match goal with E : _ && _ = true |- _ => apply andb_true_iff in E as [E1%Z.eqb_eq E2] end.
    rewrite E1. cbn [Z.eqb Pos.eqb]. unfold exec_load_fp. rewrite E2.
    by apply lift_bind.
  - match goal with E : _ && _ = true |- _ => apply andb_true_iff in E as [E1%Z.eqb_eq E2] end.
    rewrite E1. cbn [Z.eqb Pos.eqb]. unfold exec_store_fp. rewrite E2.
    by apply lift_bind.
  - match goal with E : (_ =? 0x57) = true |- _ => apply Z.eqb_eq in E as E1 end.
    rewrite E1. cbn [Z.eqb Pos.eqb]. by apply lift_bind.
  - done.
Qed.

(** The RVC quadrants, branch for branch. *)
Ltac lift_tac :=
  repeat match goal with
  | |- (if ?x then _ else _) _ = lift ((if ?x then _ else _) _) => destruct x
  | |- bind _ _ _ = lift (bind _ _ _) => apply lift_bind; intros
  end; try done.

Lemma t0_q0_exec c f3 npc (s : Cpu * B) :
  scalar_t0_compressed_q0 c f3 npc s
  = if (f3 =? 1) || (f3 =? 5) then (Ok Slow, s)
    else lift (step_compressed_q0 c f3 npc s).
Proof.
  unfold scalar_t0_compressed_q0, step_compressed_q0. cbv zeta.
  change (bind (gets hart) ?k s) with (k (fst s) s). cbv beta.
  destruct (Z.eqb_spec f3 0) as [->|]; [by cbn [Z.eqb orb]; lift_tac|].
  destruct (Z.eqb_spec f3 1) as [->|]; [done|]. cbn [orb].
  destruct (Z.eqb_spec f3 5) as [->|]; [done|]. lift_tac.
Qed.

Lemma t0_q1_exec c f3 npc (s : Cpu * B) :
  scalar_t0_compressed_q1 c f3 (pc (fst s)) npc s = lift (step_compressed_q1 c f3 npc s).
Proof.
  unfold scalar_t0_compressed_q1, step_compressed_q1. cbv zeta.
  change (bind (gets hart) ?k s) with (k (fst s) s). cbv beta. lift_tac.
Qed.

Lemma t0_q2_exec c f3 npc (s : Cpu * B) :
  scalar_t0_compressed_q2 c f3 npc s
  = if (f3 =? 1) || (f3 =? 5) then (Ok Slow, s)
    else lift (step_compressed_q2 c f3 npc s).
Proof.
  unfold scalar_t0_compressed_q2, step_compressed_q2. cbv zeta.
  change (bind (gets hart) ?k s) with (k (fst s) s). cbv beta.
  destruct (Z.eqb_spec f3 0) as [->|]; [by cbn [Z.eqb orb]; lift_tac|].
  destruct (Z.eqb_spec f3 1) as [->|]; [done|]. cbn [orb].
  destruct (Z.eqb_spec f3 5) as [->|]; [done|]. lift_tac.
Qed.

(** [step_compressed] without its epilogue. *)
Definition rvc_body (c : Z) : Hart (Cpu * B) flow := fun s =>
  if c =? 0 then illegal c s else
  let f3 := (c .>> 13) .& 7 in
  let npc := add64 (pc (fst s)) 2 in
  let q := c .& 3 in
  if q =? 0 then step_compressed_q0 c f3 npc s
  else if q =? 1 then step_compressed_q1 c f3 npc s
  else if q =? 2 then step_compressed_q2 c f3 npc s
  else panic s.

Lemma step_compressed_body c (s : Cpu * B) :
  step_compressed c s = (f <- rvc_body c ;; on_fst (finish f)) s.
Proof.
  unfold step_compressed, rvc_body, bind. destruct (c =? 0); [done|]. cbv zeta.
  unfold gets, hart. by destruct (c .& 3 =? 0), (c .& 3 =? 1), (c .& 3 =? 2).
Qed.

Lemma t0_compressed_exec c (s : Cpu * B) :
  scalar_t0_compressed c (pc (fst s)) s
  = if (c =? 0) || t0_family_rvc c then lift (rvc_body c s) else (Ok Slow, s).
Proof.
  unfold scalar_t0_compressed, rvc_body, t0_family_rvc. cbv zeta.
  destruct (c =? 0); [done|]. cbn [orb].
  destruct (Z.eqb_spec (c .& 3) 0) as [->|].
  { rewrite t0_q0_exec. cbn [Z.eqb Pos.eqb orb andb]. by destruct (_ || _). }
  destruct (Z.eqb_spec (c .& 3) 1) as [->|]; [by rewrite t0_q1_exec|].
  destruct (Z.eqb_spec (c .& 3) 2) as [_|]; [|done].
  rewrite t0_q2_exec. cbn [Z.eqb Pos.eqb orb andb]. by destruct (_ || _).
Qed.
End Bodies.

(** ** User mode: the integrated driver is [run] *)

(** A bus that hands out no direct-memory capability and whose instruction
    fetches have no side effect, as flat guest memory is. *)
Class PlainBus (B : Type) `{Bus B} : Prop := {
  plain_no_fast_off b va pa store : jit_fast_off b va pa store = None;
  plain_fetch a b : snd (fetch16 a b) = b
}.

#[global] Instance FlatMemory_PlainBus : PlainBus FlatMemory.
Proof.
  constructor; [done|]. intros a f. simpl. unfold default_fetch, map_err, flat_read.
  destruct (offset f a 2); [|done]. by destruct (slice _ _ _).
Qed.

Section UserMode.
Context {B : Type} `{PlainBus B} `{HF : VectorUnitFrame B}.

Lemma page_tag_valid va : (va .& TLB_PAGE_MASK) .| 0 <> TLB_INVALID.
Proof.
  rewrite Z.lor_0_r. intros E. apply (f_equal (fun x => Z.testbit x 0)) in E.
  rewrite Z.land_spec in E. change (Z.testbit TLB_PAGE_MASK 0) with false in E.
  by rewrite andb_false_r in E.
Qed.

(** A fetch in user mode with no valid capability. *)
Lemma user_fetch va cap c (b : B) :
  c.(sys) = None -> cap.(cap_tag) = TLB_INVALID ->
  scalar_fetch16 va 0 cap (c, b)
  = (match fst (fetch16 va b) with
     | Ok i => Ok (va, i, None, cap)
     | Err e => Err e
     | Panic => Panic
     end, (c, b)).
Proof.
  intros Hs Ht. unfold scalar_fetch16. cbv zeta.
  destruct (Z.eqb_spec (cap_tag cap) ((va .& TLB_PAGE_MASK) .| 0)) as [E|_].
  { exfalso. apply (page_tag_valid va). congruence. }
  unfold scalar_fetch16_slow, bind, gets, translate. rewrite Hs, plain_no_fast_off.
  unfold on_snd. cbn [fst snd]. pose proof (plain_fetch va b) as Hf.
  by destruct (fetch16 va b) as [[i|e|] b']; simpl in Hf; subst b'.
Qed.
End UserMode.
