(* ===== verification/VecFrame.v ===== *)
(** * The vector unit does not look at the lagging fields

    The Tier-0 decoder runs vector instructions on a hart whose pc and
    retirement count lag behind; no vector instruction reads or writes them. *)

From S2P Require Import Prelude Exception Decode Csr State Bus Mmu Trap CsrOps Vector SoftFp Exec.
From S2P Require Import Step T0 Run VecBase VecInt VecFloat VecMem Wf RvcEquiv T0Equiv.

Create HintDb vec_frames.

Lemma frames_gets {A} (f : Cpu -> A) : (forall p n c, f (lag p n c) = f c) -> frames (gets f).
Proof. intros Hf p n c. unfold gets. by rewrite Hf. Qed.

Lemma frames_modify f : (forall p n c, f (lag p n c) = lag p n (f c)) -> frames (modify f).
Proof. intros Hf p n c. unfold modify. by rewrite Hf. Qed.

Lemma frames_unwrap {A} (o : option A) : frames (unwrap o).
Proof. by destruct o. Qed.
Lemma frames_ok_or {A} (o : option A) e : frames (ok_or o e).
Proof. by destruct o. Qed.
Lemma frames_ret {A} (a : A) : frames (ret a).
Proof. done. Qed.
Lemma frames_illegal {A} insn : frames (illegal (A := A) insn).
Proof. done. Qed.
Lemma frames_panic {A} : frames (panic (A := A)).
Proof. done. Qed.

#[export] Hint Resolve frames_unwrap frames_ok_or frames_ret frames_illegal frames_panic : vec_frames.

Lemma frames_for_loop {A} n i body (acc : A) :
  (forall i acc, frames (body i acc)) -> frames (for_loop n i body acc).
Proof.
  intros Hb. revert i acc. induction n as [|n IH]; intros; cbn [for_loop]; [apply frames_ret|].
  apply frames_bind; auto.
Qed.

Lemma frames_for_range {A} start stop body (acc : A) :
  (forall i acc, frames (body i acc)) -> frames (for_range start stop body acc).
Proof. apply frames_for_loop. Qed.

(** Structural descent through a computation. *)
Ltac frames_step :=
  lazymatch goal with
  | |- frames (bind _ _) => apply frames_bind; [|intros]
  | |- frames (if ?b then _ else _) => destruct b
  | |- frames (match ?x with _ => _ end) => destruct x
  | |- frames (for_range _ _ _ _) => apply frames_for_range; intros
  | |- frames _ => solve [auto with vec_frames]
  end.
Ltac frames_tac := cbv zeta; repeat (frames_step; cbv zeta).

Lemma frames_vec : frames vec.
Proof. by apply frames_gets. Qed.
Lemma frames_update_vec f : frames (update_vec f).
Proof. by apply frames_modify. Qed.
Lemma frames_x_reg i : frames (x_reg i).
Proof. by apply frames_gets. Qed.
Lemma frames_vstart_now : frames vstart_now.
Proof. by apply frames_gets. Qed.
Lemma frames_vxrm_now : frames vxrm_now.
Proof. by apply frames_gets. Qed.
Lemma frames_active_length cfg : frames (active_length cfg).
Proof. by apply frames_gets. Qed.
Lemma frames_wr d v : frames (modify (wr d v)).
Proof. apply frames_modify. intros. unfold wr. by destruct (negb _). Qed.
Lemma frames_mark_dirty : frames mark_dirty.
Proof. apply frames_modify. intros p n c. unfold vector_dirty. simpl. by destruct (sys c). Qed.
Lemma frames_mark_fp_dirty : frames mark_fp_dirty.
Proof. apply frames_modify. intros p n c. unfold fp_dirty. simpl. by destruct (sys c). Qed.
Lemma frames_accrue flags : frames (accrue flags).
Proof. by apply frames_modify. Qed.
Lemma frames_fp_check insn : frames (fp_check insn).
Proof.
  intros p n c. unfold fp_check. simpl. destruct (sys c) as [s|]; [|done]. by destruct (_ =? _).
Qed.
Lemma frames_write_scalar reg sew v : frames (write_scalar_float_bits reg sew v).
Proof. by apply frames_modify. Qed.

#[export] Hint Resolve frames_vec frames_update_vec frames_x_reg frames_vstart_now frames_vxrm_now
  frames_active_length frames_wr frames_mark_dirty frames_mark_fp_dirty frames_accrue frames_fp_check
  frames_write_scalar : vec_frames.

Lemma frames_rounding_mode insn : frames (rounding_mode insn).
Proof. apply frames_bind; [by apply frames_gets|auto with vec_frames]. Qed.
Lemma frames_scalar_float_bits reg sew : frames (scalar_float_bits reg sew).
Proof. apply frames_bind; [by apply frames_gets|auto with vec_frames]. Qed.
Lemma frames_mask_bit i : frames (mask_bit i).
Proof. unfold mask_bit. frames_tac. Qed.
Lemma frames_get_bit r i : frames (get_bit r i).
Proof. unfold get_bit. frames_tac. Qed.
Lemma frames_get_element r i e : frames (get_element r i e).
Proof. unfold get_element. frames_tac. Qed.
Lemma frames_put_element r i e v : frames (put_element r i e v).
Proof. unfold put_element. frames_tac. Qed.
Lemma frames_write_mask_element r i v : frames (write_mask_element r i v).
Proof. unfold write_mask_element. frames_tac. Qed.
Lemma frames_set_flat_byte o v : frames (set_flat_byte o v).
Proof. unfold set_flat_byte. frames_tac. Qed.
Lemma frames_finish_vector : frames finish_vector.
Proof. apply frames_update_vec. Qed.
Lemma frames_emul cfg e : frames (emul cfg e).
Proof. unfold emul. frames_tac. Qed.
Lemma frames_snapshot g l v r i e : frames (snapshot_element g l v r i e).
Proof. unfold snapshot_element. frames_tac. Qed.

#[export] Hint Resolve frames_rounding_mode frames_scalar_float_bits frames_mask_bit frames_get_bit
  frames_get_element frames_put_element frames_write_mask_element frames_set_flat_byte
  frames_finish_vector frames_emul frames_snapshot : vec_frames.

Lemma frames_emul_or_illegal insn cfg e : frames (emul_or_illegal insn cfg e).
Proof. unfold emul_or_illegal. frames_tac. Qed.
Lemma frames_for_elements {A} p start stop body (acc : A) :
  (forall i acc, frames (body i acc)) -> frames (for_elements p start stop body acc).
Proof. intros. unfold for_elements. frames_tac; auto. Qed.
Lemma frames_vector_or_scalar b insn i e k : frames (vector_or_scalar b insn i e k).
Proof. unfold vector_or_scalar. frames_tac. Qed.
Lemma frames_shift_operand f insn i e o : frames o -> frames (shift_operand f insn i e o).
Proof. intros. unfold shift_operand. frames_tac; done. Qed.
Lemma frames_binary_operand f g s i e : frames (binary_operand f g s i e).
Proof. unfold binary_operand. frames_tac. Qed.
Lemma frames_integer_groups insn cfg a b d : frames (integer_groups insn cfg a b d).
Proof. unfold integer_groups. frames_tac. Qed.
Lemma frames_saturate b : frames (saturate b).
Proof. apply frames_update_vec. Qed.
Lemma frames_active_bit vm r i : frames (active_bit vm r i).
Proof. unfold active_bit. frames_tac. Qed.
Lemma frames_move_to_element insn cfg v : frames (move_to_element insn cfg v).
Proof. unfold move_to_element. frames_tac. Qed.
Lemma frames_scalar_or_element s r i e : frames (scalar_or_element s r i e).
Proof. unfold scalar_or_element. frames_tac. Qed.
Lemma frames_float_scalar b r e : frames (float_scalar b r e).
Proof. unfold float_scalar. frames_tac. Qed.
Lemma frames_bitwise_chunk f d a b n o : frames (bitwise_chunk f d a b n o).
Proof. unfold bitwise_chunk. frames_tac. Qed.

#[export] Hint Resolve frames_emul_or_illegal frames_vector_or_scalar frames_shift_operand
  frames_binary_operand frames_integer_groups frames_saturate frames_active_bit
  frames_move_to_element frames_scalar_or_element frames_float_scalar frames_bitwise_chunk : vec_frames.

Ltac frames_step ::=
  lazymatch goal with
  | |- frames (bind _ _) => apply frames_bind; [|intros]
  | |- frames (if ?b then _ else _) => destruct b
  | |- frames (match ?x with _ => _ end) => destruct x
  | |- frames (for_range _ _ _ _) => apply frames_for_range; intros
  | |- frames (for_elements _ _ _ _ _) => apply frames_for_elements; intros
  | |- frames _ => solve [auto with vec_frames]
  end.

Lemma frames_exec_vector_integer insn cfg : frames (Integer.exec_vector_integer insn cfg).
Proof.
  unfold Integer.exec_vector_integer, exec_vector_whole_move, exec_vector_integer_binary,
    bitwise_bytes, exec_vector_slide1, slide1_bytes, exec_vector_gather_ei16,
    exec_vector_slide_or_gather, slide_bytes, exec_vector_extension, exec_vector_id,
    exec_vector_mask_query, exec_vector_mask_prefix, exec_vector_iota, exec_vector_compress,
    exec_vector_mask_logic, exec_vector_reduction, exec_vector_widen_reduction, exec_vector_carry,
    exec_vector_multiply_divide, exec_vector_widen_add_sub, exec_vector_widen_multiply,
    exec_vector_widen_madd, exec_vector_integer_madd, exec_vector_average,
    exec_vector_fractional_multiply, exec_vector_scaling_shift, exec_vector_narrow_shift,
    exec_vector_clip.
  frames_tac.
Qed.

Lemma frames_exec_vector_float insn cfg : frames (Float.exec_vector_float insn cfg).
Proof.
  unfold Float.exec_vector_float, exec_vector_float_convert, exec_vector_float_unary,
    exec_vector_float_widen_binary, exec_vector_float_widen_fma, exec_vector_float_widen_reduction,
    move_from_element, exec_vector_float_merge, exec_vector_float_slide1,
    exec_vector_float_reduction, exec_vector_float_arith.
  frames_tac.
Qed.

(** ** Loads and stores *)

Section Memory.
Context {B : Type} `{Bus B}.

Create HintDb vec_framed.
#[local] Hint Resolve framed_ret framed_throw framed_panic framed_translate framed_fill : vec_framed.

Lemma framed_unwrap {A} (o : option A) : framed (B := B) (unwrap o).
Proof. by destruct o. Qed.

Lemma framed_attempt {A} (m : Hart (Cpu * B) A) : framed m -> framed (attempt m).
Proof. intros Hm p n s. unfold attempt. rewrite (Hm p n s). by destruct (m s) as [[]]. Qed.

Lemma framed_for_range {A} start stop body (acc : A) :
  (forall i acc, framed (B := B) (body i acc)) -> framed (for_range start stop body acc).
Proof.
  intros Hb. unfold for_range. generalize (Z.to_nat (stop - start)). intros k. revert start acc.
  induction k as [|k IH]; intros; cbn [for_loop]; [apply framed_ret|]. apply framed_bind; auto.
Qed.

Lemma framed_gets_fst {C} (k : Cpu -> Hart (Cpu * B) C) :
  (forall p n c, k (lag p n c) = k c) -> (forall c, framed (k c)) -> framed (bind (gets fst) k).
Proof. apply framed_hart. Qed.

Ltac framed_step :=
  lazymatch goal with
  | |- framed (bind (gets fst) _) => apply framed_gets_fst; [reflexivity|intros]
  | |- framed (bind _ _) => apply framed_bind; [|intros]
  | |- framed (if ?x then _ else _) => destruct x
  | |- framed (match ?x with _ => _ end) => destruct x
  | |- framed (illegal _) => apply framed_throw
  | |- framed (on_fst _) => apply framed_on_fst; frames_tac
  | |- framed (attempt _) => apply framed_attempt
  | |- framed (for_range _ _ _ _) => apply framed_for_range; intros
  | |- framed (ok_or _ _) => apply framed_ok_or
  | |- framed (unwrap _) => apply framed_unwrap
  | |- framed (ld _ _) => apply framed_ld
  | |- framed (st _ _ _) => apply framed_st
  | |- framed _ => solve [auto with vec_framed]
  end.
Ltac framed_tac := cbv zeta; repeat (framed_step; cbv zeta).

Lemma framed_transfer_element load r i e a : framed (B := B) (transfer_element load r i e a).
Proof. unfold transfer_element, vector_load_element, vector_store_element. framed_tac. Qed.

Lemma framed_restart_at {A} i (m : Hart (Cpu * B) A) : framed m -> framed (restart_at i m).
Proof. intros. unfold restart_at. framed_tac. Qed.

Lemma framed_vector_direct_span a n store : framed (B := B) (vector_direct_span a n store).
Proof. unfold vector_direct_span. framed_tac. by intros ?? []. Qed.

Lemma framed_copy_direct load p o n : framed (B := B) (copy_direct load p o n).
Proof. unfold copy_direct. framed_tac; by intros ?? []. Qed.

#[local] Hint Resolve framed_transfer_element framed_restart_at framed_vector_direct_span
  framed_copy_direct : vec_framed.

Lemma framed_unit_stride_runs fuel load base r vl n i :
  framed (B := B) (unit_stride_runs fuel load base r vl n i).
Proof.
  revert i. induction fuel as [|fuel IH]; intros; cbn [unit_stride_runs]; framed_tac.
Qed.

Lemma framed_exec_unit_stride_direct load base r s vl n :
  framed (B := B) (exec_unit_stride_direct load base r s vl n).
Proof. unfold exec_unit_stride_direct. framed_tac. apply framed_unit_stride_runs. Qed.

Lemma framed_exec_strided_direct load base r s vl n k :
  framed (B := B) (exec_strided_direct load base r s vl n k).
Proof. unfold exec_strided_direct. framed_tac. Qed.

#[local] Hint Resolve framed_exec_unit_stride_direct framed_exec_strided_direct : vec_framed.

Lemma framed_emul_register_span cfg e : framed (B := B) (emul_register_span cfg e).
Proof. unfold emul_register_span. framed_tac. Qed.

Lemma framed_emul_or_illegal insn cfg e : framed (B := B) (emul_or_illegal insn cfg e).
Proof. unfold emul_or_illegal, emul. framed_tac. Qed.

Lemma framed_transfer_mask_byte load r i a : framed (B := B) (transfer_mask_byte load r i a).
Proof. unfold transfer_mask_byte, vector_load_element, vector_store_element. framed_tac. Qed.

#[local] Hint Resolve framed_emul_register_span framed_emul_or_illegal framed_transfer_mask_byte : vec_framed.
#[local] Hint Resolve frames_vector_check : vec_frames.

Lemma framed_exec_unit_stride_memory load insn e base r cfg :
  framed (B := B) (exec_unit_stride_memory load insn e base r cfg).
Proof. unfold exec_unit_stride_memory. framed_tac. Qed.

Lemma framed_transfer_elements insn load f mop aux e de nf r sp base str s vl :
  framed (B := B) (transfer_elements insn load f mop aux e de nf r sp base str s vl).
Proof. unfold transfer_elements, transfer_fields. framed_tac. Qed.

#[local] Hint Resolve framed_exec_unit_stride_memory framed_transfer_elements : vec_framed.

Lemma framed_exec_unit_stride_memory_insn insn load :
  framed (B := B) (Memory.exec_unit_stride_memory_insn insn load).
Proof. unfold Memory.exec_unit_stride_memory_insn. framed_tac. Qed.

Lemma framed_exec_vector_memory insn load : framed (B := B) (Memory.exec_vector_memory insn load).
Proof.
  unfold Memory.exec_vector_memory, exec_whole_register_memory, exec_mask_memory. framed_tac.
Qed.
End Memory.

#[global] Instance rvv_unit_frame {B} `{Bus B} : VectorUnitFrame B.
Proof.
  constructor.
  - apply frames_exec_vector_float.
  - apply frames_exec_vector_integer.
  - intros insn load p n c b. cbn [exec_unit_stride_memory_insn rvv_unit].
    exact (framed_exec_unit_stride_memory_insn insn load p n (c, b)).
  - intros insn load p n c b. cbn [exec_vector_memory rvv_unit].
    exact (framed_exec_vector_memory insn load p n (c, b)).
Qed.
