(* ===== verification/SafeMem.v ===== *)
(** * Safety of translation, memory and traps

    [inv m]: the hart is well-formed, it is ([m = true]) or is not a full-system
    hart, and the bus satisfies its own invariant.  Each operation keeps it and
    never panics. *)

From S2P Require Import Prelude Exception Decode Csr State Bus Mmu Trap CsrOps Vector SoftFp.
From S2P Require Import Exec Wf.

Definition cinv (m : bool) (c : Cpu) : Prop := wf_cpu c /\ is_sys c = m.

(** ** Updates of the hart alone *)

Lemma cinv_sys m c s : cinv m c -> c.(sys) = Some s -> wf_sys s /\ m = true.
Proof.
  intros [Hc <-] Hs. pose proof (wf_csrs _ Hc) as H. unfold is_sys. by rewrite Hs in *.
Qed.

Lemma flush_tlb_wf c : wf_cpu c -> wf_cpu (flush_tlb c).
Proof. unfold flush_tlb. wf_tac. Qed.

Lemma clear_store_jtlb_wf c : wf_cpu c -> wf_cpu (clear_store_jtlb c).
Proof.
  unfold clear_store_jtlb. wf_tac.
  apply bank_set; auto with rv.
Qed.

Lemma uint_mode_bits w md : 2 <= w -> uint w (mode_bits md).
Proof.
  intros. unfold uint. pose proof (Z.pow_le_mono_r 2 2 w). destruct md; simpl; lia.
Qed.

Lemma data_tlb_context_range c : uint 64 (data_tlb_context c).
Proof.
  unfold data_tlb_context, TLB_CTX_MXR, TLB_CTX_SUM.
  repeat case_match; uint_tac; by apply uint_mode_bits.
Qed.

Lemma translation_context_range c a : uint 12 (translation_context c a).
Proof.
  unfold translation_context, TLB_CTX_MXR, TLB_CTX_SUM.
  repeat case_match; uint_tac; by apply uint_mode_bits.
Qed.

Lemma page_mask_range va : uint 64 (va .& TLB_PAGE_MASK).
Proof. apply uint_land_r; [lia|uint_lit]. Qed.

Lemma translation_tag_range c va a : uint 64 (translation_tag c va a).
Proof.
  apply uint_lor; [lia|apply page_mask_range|].
  apply (uint_mono 12); [lia|apply translation_context_range].
Qed.

Lemma sync_jit_tlb_context_wf c : wf_cpu c -> wf_cpu (sync_jit_tlb_context c).
Proof.
  pose proof (data_tlb_context_range c). unfold sync_jit_tlb_context. wf_tac.
Qed.

Lemma privilege_changed_wf c : wf_cpu c -> wf_cpu (privilege_changed c).
Proof.
  intros. apply sync_jit_tlb_context_wf. case_match; auto using flush_tlb_wf.
Qed.

Lemma publish_jtlb_wf store idx tag off c :
  wf_cpu c -> uint 64 tag -> wf_cpu (publish_jtlb store idx tag off c).
Proof.
  unfold publish_jtlb. wf_tac. apply bank_row_set; [done| |done]. by destruct store.
Qed.

Lemma invalidate_page_arr page idx row :
  arr (Z.to_nat TLB_SIZE) 64 row -> arr (Z.to_nat TLB_SIZE) 64 (invalidate_page page idx row).
Proof. intros. unfold invalidate_page. case_match; [|done]. apply arr_set; auto with rv. Qed.

Lemma bank_map n f t :
  (forall row, arr (Z.to_nat TLB_SIZE) 64 row -> arr (Z.to_nat TLB_SIZE) 64 (f row)) ->
  bank n t -> bank n (map f t).
Proof.
  intros Hf [Hl Ht]. split; [by rewrite length_map|].
  rewrite Forall_map. by apply (List.Forall_impl _ Hf Ht).
Qed.

Lemma sfence_vma_wf va asid c : wf_cpu c -> wf_cpu (sfence_vma va asid c).
Proof.
  intros Hc. unfold sfence_vma. cbv zeta.
  set (own := match asid with Some t => _ | None => _ end).
  destruct own; [revert Hc; wf_tac|].
  destruct va as [va|]; cbn [jtlb_hashed].
  - destruct Hc. constructor; simpl; auto with rv; apply bank_map;
      auto using invalidate_page_arr.
  - apply flush_tlb_wf. revert Hc. wf_tac.
Qed.

Lemma wf_set_mstatus_bits s mask :
  wf_sys s -> uint 64 mask -> mask .& (MSTATUS_UXL .| MSTATUS_SXL) = 0 ->
  wf_sys (set_mstatus (s.(mstatus) .| mask) s).
Proof.
  intros Hs Hm H0. destruct Hs. constructor; simpl; auto.
  - by apply uint_lor.
  - by rewrite Z.land_lor_distr_l, H0, Z.lor_0_r.
Qed.

Lemma fp_dirty_wf c : wf_cpu c -> wf_cpu (fp_dirty c).
Proof.
  intros Hc. unfold fp_dirty. destruct (sys c) as [s|] eqn:E; [|done].
  apply wf_set_sys; [done|]. simpl. pose proof (wf_csrs _ Hc) as Hs. rewrite E in Hs.
  apply wf_set_mstatus_bits; [done|uint_lit|reflexivity].
Qed.

Lemma vector_dirty_wf c : wf_cpu c -> wf_cpu (vector_dirty c).
Proof.
  intros Hc. unfold vector_dirty. destruct (sys c) as [s|] eqn:E; [|done].
  apply wf_set_sys; [done|]. simpl. pose proof (wf_csrs _ Hc) as Hs. rewrite E in Hs.
  apply wf_set_mstatus_bits; [done|uint_lit|reflexivity].
Qed.

(** Which updates leave the kind of hart alone. *)
Lemma is_sys_fp_dirty c : is_sys (fp_dirty c) = is_sys c.
Proof. unfold fp_dirty, is_sys. by destruct (sys c) eqn:E; simpl; rewrite ?E. Qed.
Lemma is_sys_vector_dirty c : is_sys (vector_dirty c) = is_sys c.
Proof. unfold vector_dirty, is_sys. by destruct (sys c) eqn:E; simpl; rewrite ?E. Qed.
Lemma is_sys_flush_tlb c : is_sys (flush_tlb c) = is_sys c.
Proof. done. Qed.
Lemma is_sys_privilege_changed c : is_sys (privilege_changed c) = is_sys c.
Proof. unfold privilege_changed. by destruct (negb _). Qed.
Lemma is_sys_sfence_vma va asid c : is_sys (sfence_vma va asid c) = is_sys c.
Proof. unfold sfence_vma. cbv zeta. by repeat case_match. Qed.
Lemma is_sys_wr i v c : is_sys (wr i v c) = is_sys c.
Proof. unfold wr. by destruct (negb _). Qed.

#[export] Hint Resolve flush_tlb_wf sync_jit_tlb_context_wf privilege_changed_wf sfence_vma_wf
  fp_dirty_wf vector_dirty_wf publish_jtlb_wf : rv.
Create Rewrite HintDb rv_sys.
#[export] Hint Rewrite is_sys_fp_dirty is_sys_vector_dirty is_sys_flush_tlb
  is_sys_privilege_changed is_sys_sfence_vma is_sys_wr : rv_sys.

(** ** Hoare rules for the paired state *)

Section Inv.
Context {B : Type} `{BusOk B}.

Definition inv (m : bool) (st : Cpu * B) : Prop := cinv m (fst st) /\ bus_wf (snd st).

Lemma inv_fst {A} m (f : Hart Cpu A) Q : hoare (cinv m) f Q -> hoare (inv m) (on_fst f) Q.
Proof. apply hoare_on_fst. Qed.

Lemma inv_snd {A} m (f : Hart B A) Q : hoare bus_wf f Q -> hoare (inv m) (on_snd f) Q.
Proof. apply hoare_on_snd. Qed.

Lemma inv_hart m : hoare (inv m) (gets fst) (cinv m).
Proof. intros s [Hs Hb]. by split. Qed.

Lemma inv_modify_cpu m f :
  (forall c b, cinv m c -> bus_wf b -> cinv m (f c b)) ->
  hoare (inv m) (modify (fun '(c, b) => (f c b, b))) (fun _ => True).
Proof. intros Hf [c b] [Hc Hb]. split; [|done]. split; [by apply Hf|done]. Qed.

Lemma cinv_modify m f :
  (forall c, cinv m c -> wf_cpu (f c)) -> (forall c, is_sys (f c) = is_sys c) ->
  hoare (cinv m) (modify f) (fun _ => True).
Proof.
  intros Hf Hs c Hc. split; [|done]. split; [by apply Hf|]. rewrite Hs. apply Hc.
Qed.

(** ** The page walk *)

Lemma fault_ok a va : uint 64 va -> exc_ok (fault a va).
Proof. by destruct a. Qed.

Lemma leaf_pa_range lv ppn va : uint 64 va -> 0 <= lv -> uint 64 (leaf_pa lv ppn va).
Proof.
  intros Hva Hlv. unfold leaf_pa. apply uint_lor; [lia| |].
  - apply uint_ldiff; [lia|apply uint_shl64].
  - apply uint_land_l; [lia|done|]. rewrite Z.shiftl_mul_pow2 by lia. lia.
Qed.

Lemma pte_ad_range a pte : uint 64 pte -> uint 64 (pte_ad a pte).
Proof. intros. unfold pte_ad. cbv zeta. uint_tac. Qed.

Lemma access_index_range a : 0 <= access_index a < Z.of_nat 3.
Proof. destruct a; simpl; lia. Qed.

Lemma walk_ok m level md sum mxr tag table va access :
  uint 64 va -> uint 64 tag ->
  hoare (inv m) (walk level md sum mxr tag table va access) (uint 64).
Proof.
  intros Hva Htag. revert table. induction level as [|level IH]; intros table.
  all: cbn [walk]; cbv zeta.
  all: eapply hoare_bind;
    [apply hoare_map_err; [intros; by apply fault_ok|apply inv_snd, read64_ok, uint_add64]|].
  all: intros pte Hpte; cbv beta.
  all: apply hoare_if; [intros _; by apply hoare_throw, fault_ok|intros _].
  all: apply hoare_if; intros _; [first [by apply hoare_throw, fault_ok|apply IH]|].
  all: apply hoare_if; [intros _; by apply hoare_throw, fault_ok|intros _].
  all: apply hoare_if; [intros _; by apply hoare_throw, fault_ok|intros _].
  all: eapply (hoare_bind _ _ _ (fun _ => True));
    [apply hoare_if; intros _; [|by apply hoare_ret];
     apply hoare_map_err; [intros; by apply fault_ok|];
     apply inv_snd, write64_ok; [apply uint_add64|by apply pte_ad_range]|].
  all: intros _ _; eapply hoare_bind; [|intros _ _; apply hoare_ret, leaf_pa_range; [done|lia]].
  all: apply (inv_modify_cpu m (fun c _ => _)); intros c b [Hc Hm] _; split; [|done].
  all: apply wf_set_tlb_diff; [apply wf_set_tlb_tag; [done|]|];
    apply bank_row_set; auto using access_index_range with rv; by apply Hc.
Qed.

Lemma translate_slow_ok va access :
  uint 64 va -> hoare (inv true) (translate_slow va access) (uint 64).
Proof.
  intros Hva [c b] Hi. pose proof Hi as [[Hc Hm] Hb]. unfold translate_slow. simpl in Hm.
  unfold is_sys in Hm. destruct (sys c) as [s|] eqn:E; [|done].
  destruct (_ || _); [by split|].
  destruct (if s.(satp) .>> 60 =? 8 then _ else _) as [levels|];
    [|split; [done|by apply fault_ok]].
  cbv zeta. destruct (_ && _); [split; [done|by apply fault_ok]|].
  by apply (walk_ok true); [|apply translation_tag_range|].
Qed.

Lemma translate_ok m va access :
  uint 64 va -> hoare (inv m) (translate va access) (uint 64).
Proof.
  intros Hva [c b] Hi. pose proof Hi as [[Hc Hm] Hb]. unfold translate. simpl in Hm.
  unfold is_sys in Hm. destruct (sys c) as [s|] eqn:E; [|by split].
  cbv zeta. destruct (_ =? _); [split; [done|apply uint_add64]|].
  subst m. by apply translate_slow_ok.
Qed.

Lemma fill_jtlb_cinv m b va pa store c : cinv m c -> cinv m (fill_jtlb b va pa store c).
Proof.
  intros [Hc Hm]. unfold fill_jtlb, jit_fill_publish. case_match; [|done].
  split; [|done]. apply publish_jtlb_wf; [done|].
  apply uint_lor; [lia|apply page_mask_range|apply data_tlb_context_range].
Qed.

Lemma jit_fill_tlb_ok m va store :
  uint 64 va -> hoare (inv m) (jit_fill_tlb va store) (fun _ => True).
Proof.
  intros Hva s Hs. unfold jit_fill_tlb.
  pose proof (translate_ok m va (if store then Store else Load) Hva s Hs) as Ht.
  destruct (translate _ _ s) as [[pa|e|] [c b]]; [|by destruct Ht|done].
  destruct Ht as [[Hc Hb] _].
  destruct (jit_fast_off b va pa store) as [off|] eqn:E; [|done].
  split; [|done]. split; [|done].
  pose proof (fill_jtlb_cinv m b va pa store c Hc) as Hf. unfold fill_jtlb in Hf.
  by rewrite E in Hf.
Qed.

Lemma jit_probe_fetch_ok m va :
  uint 64 va -> hoare (inv m) (jit_probe_fetch va) (fun o => forall pa, o = Some pa -> uint 64 pa).
Proof.
  intros Hva s Hs. unfold jit_probe_fetch.
  pose proof (translate_ok m va Fetch Hva s Hs) as Ht.
  destruct (translate _ _ s) as [[pa|e|] s']; [|by destruct Ht|done].
  destruct Ht. split; [done|]. by intros ? [= <-].
Qed.

(** ** Loads and stores *)

Definition access_size (N : Z) : Prop := N = 1 \/ N = 2 \/ N = 4 \/ N = 8.

Lemma bus_read_ok N pa :
  access_size N -> uint 64 pa -> hoare bus_wf (bus_read N pa) (uint 64).
Proof.
  intros HN Hpa. eapply (hoare_weaken _ _ (uint (8 * N))).
  - destruct HN as [-> | [-> | [-> | ->]]].
    + by apply read8_ok.
    + by apply read16_ok.
    + by apply read32_ok.
    + by apply read64_ok.
  - intros a. apply uint_mono. unfold access_size in HN. lia.
Qed.

Lemma bus_write_ok N pa v :
  access_size N -> uint 64 pa -> uint 64 v -> hoare bus_wf (bus_write N pa v) (fun _ => True).
Proof.
  intros HN Hpa Hv. destruct HN as [-> | [-> | [-> | ->]]].
  - apply write8_ok; auto with rv.
  - apply write16_ok; auto with rv.
  - apply write32_ok; auto with rv.
  - by apply write64_ok.
Qed.

Lemma ld_bytes_ok m k i v va :
  0 <= i -> uint 64 v -> hoare (inv m) (ld_bytes k i v va) (uint 64).
Proof.
  revert i v. induction k as [|k IH]; intros i v Hi Hv; cbn [ld_bytes];
    [by apply hoare_ret|].
  eapply hoare_bind; [apply translate_ok, uint_add64|]. intros pa Hpa.
  eapply hoare_bind; [by apply inv_snd, read8_ok|]. intros byte Hbyte.
  apply IH; [lia|]. apply uint_lor; [lia|done|apply uint_shl64].
Qed.

Lemma st_bytes_ok m k i va v : hoare (inv m) (st_bytes k i va v) (fun _ => True).
Proof.
  revert i. induction k as [|k IH]; intros i; cbn [st_bytes]; [by apply hoare_ret|].
  eapply hoare_bind; [apply translate_ok, uint_add64|]. intros pa Hpa.
  eapply hoare_bind; [apply inv_snd, write8_ok; auto with rv|]. intros _ _. apply IH.
Qed.

Lemma ld_slow_ok m N va :
  access_size N -> uint 64 va -> hoare (inv m) (ld_slow N va) (uint 64).
Proof.
  intros HN Hva s Hs. unfold ld_slow.
  destruct (crosses_page _ _ _); [by apply ld_bytes_ok; [|uint_lit|]|].
  revert s Hs. apply (hoare_bind _ _ _ (uint 64)); [by apply translate_ok|]. intros pa Hpa.
  eapply hoare_bind;
    [apply (inv_modify_cpu m (fun c b => fill_jtlb b va pa false c));
     auto using fill_jtlb_cinv|].
  intros _ _. by apply inv_snd, bus_read_ok.
Qed.

Lemma st_slow_ok m N va v :
  access_size N -> uint 64 va -> uint 64 v ->
  hoare (inv m) (st_slow N va v) (fun _ => True).
Proof.
  intros HN Hva Hv s Hs. unfold st_slow.
  destruct (crosses_page _ _ _); [by apply st_bytes_ok|].
  revert s Hs. apply (hoare_bind _ _ _ (uint 64)); [by apply translate_ok|]. intros pa Hpa.
  eapply hoare_bind;
    [apply (inv_modify_cpu m (fun c b => fill_jtlb b va pa true c));
     auto using fill_jtlb_cinv|].
  intros _ _. by apply inv_snd, bus_write_ok.
Qed.

Lemma direct_load_ok m N a :
  access_size N -> hoare (inv m) (interpreter_direct_load N a) (uint 64).
Proof.
  intros HN. unfold interpreter_direct_load.
  replace (_ || _) with true by (destruct HN as [-> | [-> | [-> | ->]]]; done).
  apply hoare_gets. intros [c b] [_ Hb]. apply (uint_mono (8 * N)).
  - unfold access_size in HN. lia.
  - apply host_load_ok; [done|]. unfold access_size in HN. lia.
Qed.

Lemma direct_store_ok m N a v :
  access_size N -> hoare (inv m) (interpreter_direct_store N a v) (fun _ => True).
Proof.
  intros HN. unfold interpreter_direct_store.
  replace (_ || _) with true by (destruct HN as [-> | [-> | [-> | ->]]]; done).
  apply hoare_modify. intros [c b] [Hc Hb]. split; [done|]. by apply host_store_ok.
Qed.

Lemma ld_ok m N va : access_size N -> uint 64 va -> hoare (inv m) (ld N va) (uint 64).
Proof.
  intros HN Hva s Hs. unfold ld. destruct (crosses_page _ _ _); [by apply ld_slow_ok|].
  destruct (interpreter_fused_ptr _ _ _); [by apply direct_load_ok|by apply ld_slow_ok].
Qed.

Lemma st_ok m N va v :
  access_size N -> uint 64 va -> uint 64 v -> hoare (inv m) (st N va v) (fun _ => True).
Proof.
  intros HN Hva Hv s Hs. unfold st. destruct (crosses_page _ _ _); [by apply st_slow_ok|].
  destruct (interpreter_fused_ptr _ _ _); [by apply direct_store_ok|by apply st_slow_ok].
Qed.
End Inv.

(** ** Trap entry and return *)

Definition XL : Z := MSTATUS_UXL .| MSTATUS_SXL.

(** A masked update of mstatus that stays away from the XL fields. *)
Lemma wf_mstatus_update s mask v :
  wf_sys s -> uint 64 v -> v .& XL = 0 -> mask .& XL = 0 ->
  wf_sys (set_mstatus ((s.(mstatus) .&~ mask) .| v) s).
Proof.
  intros Hs Hv Hv0 Hm0. destruct Hs. constructor; simpl; auto.
  - apply uint_lor; [lia|by apply uint_ldiff|done].
  - fold XL in *. rewrite Z.land_lor_distr_l, Hv0, Z.lor_0_r, <- wf_xl.
    apply Z.bits_inj'. intros i Hi. rewrite !Z.land_spec, Z.ldiff_spec.
    apply (f_equal (fun x => Z.testbit x i)) in Hm0. rewrite Z.land_spec, Z.bits_0 in Hm0.
    destruct (Z.testbit mask i), (Z.testbit XL i); simpl in *; try done;
      by rewrite ?andb_false_r, ?andb_true_r.
Qed.

Lemma bit_cases x n : (x .>> n) .& 1 = 0 \/ (x .>> n) .& 1 = 1.
Proof.
  rewrite (land_ones_lit _ _ 1) by done. pose proof (Z.mod_pos_bound (x .>> n) (2 ^ 1)). zlia.
Qed.

Lemma trap_vector_range tvec cause i : uint 64 tvec -> uint 64 (trap_vector tvec cause i).
Proof. intros. unfold trap_vector. cbv zeta. uint_tac. Qed.

Lemma enter_trap_ok s pc cause tval i :
  wf_sys s -> uint 64 pc -> uint 64 cause -> uint 64 tval ->
  let '(s', pc') := enter_trap s pc cause tval i in wf_sys s' /\ uint 64 pc'.
Proof.
  intros Hs Hpc Hcause Htval. unfold enter_trap. cbv zeta.
  assert (uint 64 (if i then (1 .<< 63) .| cause else cause)) as Hcv by uint_tac.
  destruct (trap_to_s s cause i); (split; [|apply trap_vector_range; by apply Hs]).
  - set (s0 := set_sepc _ _).
    assert (wf_sys s0) as Hs0 by (unfold s0; revert Hs; wfs_tac).
    change (wf_sys (set_mode Supervisor
      (set_mstatus ((mstatus s0 .&~ (MSTATUS_SPIE .| MSTATUS_SPP .| MSTATUS_SIE))
        .| (((mstatus s0 .>> 1) .& 1) .<< 5)
        .| (if mode_eqb (mode s0) Supervisor then MSTATUS_SPP else 0)) s0))).
    rewrite <- Z.lor_assoc.
    assert (forall z, wf_sys z -> wf_sys (set_mode Supervisor z)) as Hmode by wfs_tac.
    apply Hmode, wf_mstatus_update; [done| | |reflexivity];
      destruct (bit_cases (mstatus s0) 1) as [-> | ->]; destruct (mode_eqb _ _);
      first [reflexivity|uint_lit].
  - set (s0 := set_mepc _ _).
    assert (wf_sys s0) as Hs0 by (unfold s0; revert Hs; wfs_tac).
    change (wf_sys (set_mode Machine
      (set_mstatus ((mstatus s0 .&~ (MSTATUS_MPIE .| MSTATUS_MPP .| MSTATUS_MIE))
        .| (((mstatus s0 .>> 3) .& 1) .<< 7)
        .| (mode_bits (mode s0) .<< 11)) s0))).
    rewrite <- Z.lor_assoc.
    assert (forall z, wf_sys z -> wf_sys (set_mode Machine z)) as Hmode by wfs_tac.
    apply Hmode, wf_mstatus_update; [done| | |reflexivity];
      destruct (bit_cases (mstatus s0) 3) as [-> | ->]; destruct (mode s0);
      first [reflexivity|uint_lit].
Qed.

Lemma mret_sys_ok s : wf_sys s -> wf_sys (mret_sys s).
Proof.
  intros Hs. unfold mret_sys. cbv zeta.
  assert (forall md z, wf_sys z -> wf_sys (set_mode md z)) as Hmode by wfs_tac.
  assert (wf_sys (set_mstatus ((mstatus s .&~ (MSTATUS_MIE .| MSTATUS_MPIE .| MSTATUS_MPP))
       .| (((mstatus s .>> 7) .& 1) .<< 3) .| MSTATUS_MPIE) s)) as H1.
  { rewrite <- Z.lor_assoc. apply wf_mstatus_update; [done| | |reflexivity];
      destruct (bit_cases (mstatus s) 7) as [-> | ->]; first [reflexivity|uint_lit]. }
  apply Hmode. destruct (negb _); [|done].
  rewrite <- Z.lor_0_r at 1. by apply wf_mstatus_update.
Qed.

Lemma sret_sys_ok s : wf_sys s -> wf_sys (sret_sys s).
Proof.
  intros Hs. unfold sret_sys. cbv zeta.
  assert (forall md z, wf_sys z -> wf_sys (set_mode md z)) as Hmode by wfs_tac.
  assert (wf_sys (set_mstatus ((mstatus s .&~ (MSTATUS_SIE .| MSTATUS_SPIE .| MSTATUS_SPP))
       .| (((mstatus s .>> 5) .& 1) .<< 1) .| MSTATUS_SPIE) s)) as H1.
  { rewrite <- Z.lor_assoc. apply wf_mstatus_update; [done| | |reflexivity];
      destruct (bit_cases (mstatus s) 5) as [-> | ->]; first [reflexivity|uint_lit]. }
  apply Hmode. destruct (negb _); [|done].
  rewrite <- Z.lor_0_r at 1. by apply wf_mstatus_update.
Qed.

Lemma log_syscall_wf cause i c : wf_cpu c -> wf_cpu (log_syscall cause i c).
Proof.
  unfold log_syscall. destruct (_ && _); [|done]. wf_tac.
  - unfold aset. by rewrite length_insert.
  - apply Z.mod_pos_bound. lia.
Qed.

Lemma count_trap_wf cause i c : wf_cpu c -> wf_cpu (count_trap cause i c).
Proof. unfold count_trap. cbv zeta. destruct i; wf_tac; apply arr_set; auto with rv. Qed.

Lemma rdtime_range n s : wf_sys s -> uint 64 (rdtime n s).
Proof. intros Hs. unfold rdtime. case_match; [by apply Hs|apply uint_add64]. Qed.

Lemma record_timer_trap_wf cause i c : wf_cpu c -> wf_cpu (record_timer_trap cause i c).
Proof.
  intros Hc. unfold record_timer_trap. destruct (sys c) as [s|] eqn:E; [|done].
  destruct (_ && _); [|done]. cbv zeta.
  pose proof (wf_csrs _ Hc) as Hs. rewrite E in Hs. simpl in Hs.
  pose proof (rdtime_range c.(insn_count) s Hs) as Hnow.
  assert (forall k, 0 <= k < 13 -> uint 64 (aget c.(last_timer_trap) k)) as Hl.
  { intros. eapply arr_get; [by apply wf_last_timer_trap|lia]. }
  assert (uint 64 (Z.max 0 (rdtime (insn_count c) s - aget (last_timer_trap c) 6))) as Hd.
  { pose proof (Hl 6 ltac:(lia)). unfold uint in *. lia. }
  assert (uint 64 (aget c.(xregs) 4)) as Hx.
  { eapply arr_get; [by apply wf_xregs|lia]. }
  assert (forall l, arr 13 64 l -> wf_cpu (set_last_timer_trap l c)) as Hset
    by (revert Hc; wf_tac).
  apply Hset. split; [done|].
  pose proof (Hl 10 ltac:(lia)). pose proof (Hl 11 ltac:(lia)).
  destruct Hs, Hc.
  repeat (apply List.Forall_cons); auto with rv;
    [by destruct wf_satp|by apply uint_mode_bits|..].
  - repeat case_match; [by apply uint_0|done|unfold uint in *; lia].
  - unfold uint in *; lia.
Qed.

Lemma is_sys_diag cause i c :
  sys (record_timer_trap cause i (count_trap cause i (log_syscall cause i
         (set_reservation None (set_irq_poll_cd 0 c))))) = sys c.
Proof.
  unfold record_timer_trap.
  assert (sys (count_trap cause i (log_syscall cause i
    (set_reservation None (set_irq_poll_cd 0 c)))) = sys c) as Hs.
  { unfold count_trap, log_syscall. cbv zeta. destruct (_ && _), i; done. }
  rewrite Hs. destruct (sys c) as [s|] eqn:E; [|by rewrite Hs].
  destruct (_ && _); simpl; by rewrite Hs.
Qed.

Lemma take_trap_ok cause tval i :
  uint 64 cause -> uint 64 tval -> hoare (cinv true) (take_trap cause tval i) (fun _ => True).
Proof.
  intros Hk Hv c [Hc Hm]. unfold take_trap. cbv zeta. rewrite is_sys_diag.
  unfold is_sys in Hm. destruct (sys c) as [s|] eqn:E; [|done].
  set (c1 := record_timer_trap _ _ _).
  assert (wf_cpu c1) as Hc1.
  { apply record_timer_trap_wf, count_trap_wf, log_syscall_wf.
    apply wf_set_reservation; [|done]. apply wf_set_irq_poll_cd; [done|by apply uint_0]. }
  pose proof (wf_csrs _ Hc) as Hs. rewrite E in Hs. simpl in Hs.
  pose proof (enter_trap_ok s c1.(pc) cause tval i Hs (wf_pc _ Hc1) Hk Hv) as He.
  destruct (enter_trap s (pc c1) cause tval i) as [s' pc'], He as [Hs' Hpc'].
  split; [|done]. split.
  - apply privilege_changed_wf, wf_set_pc; [|done]. by apply wf_set_sys.
  - by rewrite is_sys_privilege_changed.
Qed.

Lemma exception_cause_tval_ok pc e :
  uint 64 pc -> exc_ok e ->
  uint 64 (fst (exception_cause_tval pc e)) /\ uint 64 (snd (exception_cause_tval pc e)).
Proof.
  intros Hpc He.
  destruct e; cbn [exception_cause_tval fst snd exc_ok] in *; split;
    first [assumption|uint_const|by apply (uint_mono 32)].
Qed.

Lemma exception_to_trap_ok e :
  exc_ok e -> hoare (cinv true) (exception_to_trap e) (fun _ => True).
Proof.
  intros He c Hc. unfold exception_to_trap.
  pose proof (exception_cause_tval_ok c.(pc) e (wf_pc _ (proj1 Hc)) He) as [H1 H2].
  destruct (exception_cause_tval (pc c) e) as [k v]. by apply take_trap_ok.
Qed.

Lemma select_irq_in s p irqs irq : select_irq s p irqs = Some irq -> In irq irqs.
Proof.
  induction irqs as [|x irqs IH]; simpl; [done|].
  repeat case_match; intros; simplify_eq; auto.
Qed.

Section InvIrq.
Context {B : Type} `{BusOk B}.

Lemma check_interrupts_ok m : hoare (inv m) check_interrupts (fun _ => True).
Proof.
  intros [c b] [Hc Hb]. unfold check_interrupts. cbn [fst snd] in *.
  destruct (sys c) as [s|] eqn:E; [|done].
  pose proof (irq_lines_ok b Hb) as [Hl Hb']. destruct (irq_lines b) as [lines b'].
  cbv zeta. simpl in Hl, Hb'. destruct (cinv_sys _ _ _ Hc E) as [Hs ->].
  set (s1 := set_mip _ s).
  assert (wf_sys s1) as Hs1.
  { unfold s1. pose proof (wf_mip _ Hs). revert Hs. wfs_tac.
    apply uint_lor; [lia|by apply uint_ldiff|].
    apply uint_land_r; [lia|uint_lit]. }
  assert (cinv true (set_sys (Some s1) c)) as Hc1.
  { split; [apply wf_set_sys; [apply Hc|done]|done]. }
  destruct (_ =? 0); [done|].
  destruct (select_irq s1 _ irq_priority) as [irq|] eqn:Hirq; [|done].
  apply select_irq_in in Hirq.
  assert (uint 64 irq) as Hu
    by (destruct Hirq as [<-|[<-|[<-|[<-|[<-|[<-|[]]]]]]]; uint_lit).
  apply (hoare_bind (inv true) _ _ (fun _ => True)); [|intros; by apply hoare_ret|done].
  apply inv_fst, take_trap_ok; [done|by apply uint_0].
Qed.
End InvIrq.
