(* ===== verification/SafeCsr.v ===== *)
(** * Safety of the CSR file *)

From S2P Require Import Prelude Exception Decode Csr State Bus Mmu Trap CsrOps Vector SoftFp.
From S2P Require Import Exec Wf SafeMem.

(** Walk down a chain of tests that returns an option. *)
Ltac chain :=
  repeat match goal with
  | |- (if ?b then _ else _) = Some _ -> _ => let E := fresh "E" in destruct b eqn:E
  | |- None = Some _ -> _ => discriminate
  end.

Lemma mstatus_read_range s : wf_sys s -> uint 64 (mstatus_read s).
Proof. intros Hs. pose proof (wf_mstatus _ Hs). unfold mstatus_read. uint_tac. Qed.

Lemma uint_3_64 x : uint 3 x -> uint 64 x.
Proof. apply uint_mono. lia. Qed.

Lemma sys_csr_read_range s csr v : wf_sys s -> sys_csr_read s csr = Some v -> uint 64 v.
Proof.
  intros Hs. pose proof (mstatus_read_range s Hs). destruct Hs.
  destruct wf_mideleg as [Hd _], wf_satp as [Ha _].
  assert (forall a b, uint 64 a -> uint 64 b -> uint 64 (a .& b)) as Hand.
  { intros a b Ha' Hb. by apply uint_land_r. }
  unfold sys_csr_read. chain; intros [= <-]; auto using uint_3_64;
    first [uint_const|apply uint_land_r; [lia|uint_lit]].
Qed.

Lemma csr_read_range c csr v : wf_cpu c -> uint 12 csr -> csr_read c csr = Some v -> uint 64 v.
Proof.
  intros Hc Hcsr. pose proof (wf_csrs _ Hc) as Hs. pose proof (wf_vector _ Hc) as Hv.
  pose proof (wf_fcsr _ Hc) as Hf. pose proof (wf_insn_count _ Hc) as Hi.
  assert (uint 64 (fcsr c)) as Hf64 by (revert Hf; apply uint_mono; lia).
  destruct Hv.
  assert (uint 64 (vxrm (vector c))) as Hx by (revert wf_vxrm; apply uint_mono; lia).
  unfold csr_read. chain; try (intros [= <-]; auto;
    first [ apply uint_land_r; [lia|uint_lit] | uint_const | by apply uint_b2z
          | apply uint_add64 ]; fail).
  - intros [= <-]. apply uint_lor; [lia| |by apply uint_b2z].
    unfold uint in *. rewrite Z.shiftl_mul_pow2 by lia. lia.
  - intros [= <-]. destruct (sys c); [by apply rdtime_range|done].
  - destruct (sys c) as [s|]; [|discriminate]. intros [= <-].
    eapply arr_get; [by apply wf_pmpcfg|]. zlia.
  - destruct (sys c) as [s|]; [|discriminate]. intros [= <-].
    eapply arr_get; [by apply wf_pmpaddr|]. lia.
  - destruct (sys c) as [s|]; [|discriminate]. by apply sys_csr_read_range.
Qed.

(** ** Writes *)

Lemma merge_range mask old v : uint 64 mask -> uint 64 old -> uint 64 (merge mask old v).
Proof.
  intros. apply uint_lor; [lia|by apply uint_ldiff|]. by apply uint_land_r.
Qed.

Lemma write_status_wf mask v s c :
  wf_cpu c -> wf_sys s -> uint 64 mask -> mask .& XL = 0 -> wf_cpu (write_status mask v s c).
Proof.
  intros Hc Hs Hm Hx. unfold write_status. cbv zeta. apply sync_jit_tlb_context_wf.
  assert (wf_cpu (set_sys (Some (set_mstatus (merge mask (mstatus s) v) s)) c)) as Hc'.
  { apply wf_set_sys; [done|]. apply wf_mstatus_update; [done| | |done].
    - by apply uint_land_r.
    - by rewrite <- Z.land_assoc, Hx, Z.land_0_r. }
  case_match; [by apply flush_tlb_wf|done].
Qed.

Lemma write_satp_wf v s c c' :
  wf_cpu c -> wf_sys s -> uint 64 v -> write_satp v s c = Some c' -> wf_cpu c'.
Proof.
  intros Hc Hs Hv. unfold write_satp. chain; intros [= <-]; [|done].
  assert (wf_cpu (set_sys (Some (set_satp v s)) c)) as Hc'.
  { apply wf_set_sys; [done|]. destruct Hs. constructor; simpl; auto.
    split; [done|]. unfold satp_legal. lia. }
  assert (forall g z, uint 64 g -> wf_cpu z -> wf_cpu (set_jit_flush_gen g z)) as Hg by wf_tac.
  cbv zeta. case_match; [|by apply flush_tlb_wf].
  apply wf_set_map_gen; [|apply uint_add64]. apply Hg; [apply uint_add64|]. by apply flush_tlb_wf.
Qed.

Lemma sys_csr_write_wf s csr v s' :
  wf_sys s -> uint 64 v -> sys_csr_write s csr v = Some s' -> wf_sys s'.
Proof.
  intros Hs Hv. pose proof Hs as Hs0. destruct Hs0. destruct wf_mideleg as [Hd Hd'].
  assert (forall m, uint 64 (v .&~ m)) as Hand by (intros; by apply uint_ldiff).
  unfold sys_csr_write. chain; intros [= <-]; constructor; simpl; auto using merge_range;
    try (apply uint_land_r; [lia|uint_lit]; fail).
  - apply merge_range; [|done]. apply uint_land_r; [lia|done].
  - split; [apply uint_land_r; [lia|uint_lit]|].
    apply Z.bits_inj'. intros i Hi. rewrite Z.ldiff_spec, Z.land_spec, Z.bits_0.
    by rewrite <- andb_assoc, andb_negb_r, andb_false_r.
  - apply merge_range; [uint_lit|done].
Qed.

(** The result of [csr_write] keeps the invariant and the kind of hart. *)
Lemma csr_write_ok m csr v c :
  cinv m c -> uint 64 v -> cinv m (snd (csr_write csr v c)).
Proof.
  intros [Hc <-] Hv. unfold csr_write. cbv zeta.
  set (c0 := set_irq_poll_cd 0 c).
  assert (wf_cpu c0) as Hc0 by (apply wf_set_irq_poll_cd; [done|by apply uint_0]).
  change (is_sys c) with (is_sys c0). clearbody c0. clear Hc c. rename c0 into c.
  pose proof (wf_vector _ Hc0) as Hvec. pose proof (wf_csrs _ Hc0) as Hcsrs.
  pose proof (wf_fcsr _ Hc0) as Hf.
  assert (forall vs, wf_vec vs -> cinv (is_sys c) (vector_dirty (set_vector vs c))) as Hvd.
  { intros vs Hvs. split; [by apply vector_dirty_wf, wf_set_vector|].
    by rewrite is_sys_vector_dirty. }
  assert (forall x, uint 8 x -> cinv (is_sys c) (set_fcsr x c)) as Hfc.
  { intros x Hx. split; [by apply wf_set_fcsr|done]. }
  assert (cinv (is_sys c) c) as Hid by done.
  assert (forall s s', sys c = Some s -> wf_sys s' -> cinv (is_sys c) (set_sys (Some s') c)) as Hss.
  { intros s s' Hs Hs'. split; [by apply wf_set_sys|]. unfold is_sys. by rewrite Hs. }
  repeat match goal with |- cinv _ (snd (if ?b then _ else _)) => destruct b eqn:? end;
    cbn [snd]; try exact Hid.
  - apply Hfc. apply uint_lor; [lia|by apply uint_ldiff|apply uint_land_r; [lia|uint_lit]].
  - apply Hfc. apply uint_lor; [lia|by apply uint_ldiff|].
    pose proof (uint_land_r 3 (u32 v) 7 ltac:(lia) ltac:(uint_lit)).
    rewrite Z.shiftl_mul_pow2 by lia. unfold uint in *. lia.
  - apply Hfc. apply uint_land_r; [lia|uint_lit].
  - apply Hvd. destruct Hvec. constructor; simpl; auto.
    apply uint_land_r; [lia|uint_lit].
  - apply Hvd. destruct Hvec. by constructor.
  - apply Hvd. destruct Hvec. constructor; simpl; auto. apply uint_land_r; [lia|uint_lit].
  - apply Hvd. destruct Hvec. constructor; simpl; auto. apply uint_land_r; [lia|uint_lit].
  - destruct (sys c) as [s|] eqn:E; [|done]. apply (Hss s); [done|].
    simpl in Hcsrs. revert Hcsrs. wfs_tac.
  - destruct (sys c) as [s|] eqn:E; [|done]. apply (Hss s); [done|].
    simpl in Hcsrs. revert Hcsrs. wfs_tac. by apply arr_set.
  - destruct (sys c) as [s|] eqn:E; [|done]. apply (Hss s); [done|].
    simpl in Hcsrs. revert Hcsrs. wfs_tac. apply arr_set; [done|].
    apply uint_land_r; [lia|uint_lit].
  - destruct (sys c) as [s|] eqn:E; [|done]. cbn [snd]. split.
    + apply write_status_wf; [done|done|uint_lit|reflexivity].
    + unfold write_status. cbv zeta. unfold is_sys. rewrite E. by destruct (negb _).
  - destruct (sys c) as [s|] eqn:E; [|done]. destruct (write_satp v s c) as [c'|] eqn:Es; [|done].
    cbn [snd]. split; [by eapply write_satp_wf|]. revert Es. unfold write_satp. chain;
      intros [= <-]; unfold is_sys; cbv zeta; rewrite ?E; [by destruct (negb (s.(satp) =? v))|done].
  - destruct (sys c) as [s|] eqn:E; [|done]. cbn [snd]. split.
    + apply write_status_wf; [done|done|uint_lit|reflexivity].
    + unfold write_status. cbv zeta. unfold is_sys. rewrite E. by destruct (negb _).
  - destruct (sys c) as [s|] eqn:E; [|done]. destruct (sys_csr_write s csr v) as [s'|] eqn:Es;
      [|done]. apply (Hss s); [done|]. by eapply sys_csr_write_wf.
Qed.
