(* ===== verification/SafeExec.v ===== *)
(** * Safety of instruction execution

    [VectorUnitOk] is what the decoder relies on from the vector bodies.  The
    integer, floating-point and vector-configuration groups keep the invariant
    and never panic. *)

From S2P Require Import Prelude Exception Decode Compressed Csr State Bus Mmu Trap CsrOps.
From S2P Require Import Vector SoftFp Exec Step Wf SoftFpSpec RvcEquiv SafeMem SafeCsr.

(** The invariant while an instruction runs under the configuration [cfg]. *)
Definition vinv (m : bool) (cfg : VectorConfig) (c : Cpu) : Prop :=
  cinv m c /\ config c.(vector) = Some cfg.

Class VectorUnitOk (B : Type) `{BusOk B} `{VectorUnit B} : Type := {
  exec_vector_float_ok m insn cfg :
    uint 32 insn -> hoare (vinv m cfg) (exec_vector_float insn cfg) (fun _ => True);
  exec_vector_integer_ok m insn cfg :
    uint 32 insn -> hoare (vinv m cfg) (exec_vector_integer insn cfg) (fun _ => True);
  exec_unit_stride_ok m insn load :
    uint 32 insn -> hoare (inv m) (exec_unit_stride_memory_insn insn load) (fun _ => True);
  exec_vector_memory_ok m insn load :
    uint 32 insn -> hoare (inv m) (exec_vector_memory insn load) (fun _ => True)
}.

(** ** Results of the integer groups *)

Ltac clear_tests :=
  repeat match goal with E : (_ && _) = _ |- _ => clear E end.

Lemma uint_land_64 a b : uint 64 a -> 0 <= b -> uint 64 (a .& b).
Proof. intros. by apply uint_land_l. Qed.

Lemma op_imm_val_range insn a : uint 64 a -> uint 64 (op_imm_val insn a).
Proof.
  intros Ha. unfold op_imm_val. cbv zeta.
  assert (0 <= u64 (imm_i insn) .& 0x3f) by (apply Z.land_nonneg; lia).
  uint_tac. apply uint_land_64; [done|]. apply (uint_u64 (imm_i insn)).
Qed.

Lemma uint_div w a b : uint w a -> 0 < b -> uint w (a / b).
Proof.
  intros [Ha Hw] Hb. split; [by apply Z.div_pos|].
  apply Z.le_lt_trans with a; [|done]. apply Z.div_le_upper_bound; nia.
Qed.

Lemma uint_mod w a b : uint w b -> 0 < b -> uint w (a mod b).
Proof. intros [? ?] Hb. pose proof (Z.mod_pos_bound a b Hb). unfold uint. lia. Qed.

Lemma op_val_range f7 f3 a b v :
  uint 64 a -> uint 64 b -> op_val f7 f3 a b = Some v -> uint 64 v.
Proof.
  intros Ha Hb. assert (0 <= b .& 0x3f) by (apply Z.land_nonneg; lia).
  unfold op_val. cbv zeta. chain; intros [= <-]; clear_tests; uint_tac.
  - apply uint_land_64; [done|apply Hb].
  - unfold uint in *. split; [apply Z.div_pos; lia|].
    apply Z.le_lt_trans with a; [|lia]. apply Z.div_le_upper_bound; nia.
  - unfold uint in *. pose proof (Z.mod_pos_bound a b). lia.
Qed.

Lemma amo_val_range is64 f5 old src v :
  uint 64 old -> uint 64 src -> amo_val is64 f5 old src = Some v -> uint 64 v.
Proof.
  intros Ho Hs. unfold amo_val. destruct (if is64 then (old, src) else _) as [co cs].
  cbv zeta. chain; intros [= <-]; uint_tac. apply uint_land_64; [done|apply Hs].
Qed.

(** ** Vector configuration *)

Definition vlmax_check (raw : Z) : bool :=
  match decode_vtype raw with
  | Some cfg => (1 <=? cfg.(vlmax)) && (cfg.(vlmax) <=? VLEN_BITS)
                && (cfg.(vlmax) * cfg.(sew) * cfg.(lmul_den) =? VLEN_BITS * cfg.(lmul_num))
  | None => true
  end.

Lemma vlmax_check_all : all_bits 8 0 vlmax_check = true.
Proof. vm_compute. reflexivity. Qed.

Lemma decode_vtype_8 raw : 0 <= raw -> decode_vtype raw <> None -> uint 8 raw.
Proof.
  intros H0. unfold decode_vtype.
  destruct (Z.eqb_spec (raw .>> 8) 0) as [E|]; [|by rewrite orb_true_r].
  intros _. rewrite Z.shiftr_div_pow2 in E by lia. unfold uint. zlia.
Qed.

(** VLMAX is LMUL * VLEN / SEW, between 1 and VLEN. *)
Lemma decode_vtype_vlmax raw cfg :
  0 <= raw -> decode_vtype raw = Some cfg ->
  1 <= cfg.(vlmax) <= VLEN_BITS
  /\ cfg.(vlmax) * cfg.(sew) * cfg.(lmul_den) = VLEN_BITS * cfg.(lmul_num).
Proof.
  intros H0 E. pose proof (decode_vtype_8 raw H0 ltac:(by rewrite E)) as H8.
  pose proof (all_uint 8 _ vlmax_check_all raw H8) as Hc. unfold vlmax_check in Hc.
  rewrite E in Hc. rewrite !andb_true_iff in Hc. lia.
Qed.

Lemma decode_vtype_low raw cfg :
  0 <= raw -> decode_vtype raw = Some cfg -> raw .& 0xff = raw.
Proof.
  intros H0. unfold decode_vtype. destruct (_ || _) eqn:E; [done|]. intros _.
  apply orb_false_iff in E as [_ E%negb_false_iff%Z.eqb_eq].
  rewrite (shiftr_lit _ 8 256) in E by done. rewrite (land_ones_lit _ _ 8) by done.
  apply Z.mod_small. zlia.
Qed.

Lemma install_config_wf raw d z avl imm v :
  wf_vec v -> uint 64 raw -> uint 64 avl -> let '(nvl, v') := install_config raw d z avl imm v in
  wf_vec v' /\ uint 64 nvl.
Proof.
  intros Hv Hraw Havl. unfold install_config. cbv zeta.
  set (keep := negb imm && (d =? 0) && z).
  set (legal := match decode_vtype raw with Some new => _ | None => _ end).
  assert (forall cfg, legal = Some cfg -> decode_vtype raw = Some cfg
    /\ (keep = true -> v.(vl) <= cfg.(vlmax))) as Hl.
  { unfold legal. intros cfg. destruct (decode_vtype raw) as [new|]; [|done].
    destruct (negb keep) eqn:Ek; cbn [orb]; [intros [= ->]; split; [done|by destruct keep]|].
    pose proof (proj2 (wf_vl_bounded _ Hv)) as Hb. destruct (config v) as [old|]; [|done].
    destruct (Z.eqb_spec (vlmax old) (vlmax new)); [|done]. intros [= ->]. split; [done|lia]. }
  clearbody legal. destruct legal as [cfg|].
  - destruct (Hl cfg eq_refl) as [Hd Hk].
    pose proof (decode_vtype_vlmax raw cfg (proj1 Hraw) Hd) as [Hm _].
    change VLEN_BITS with 128 in Hm. cbn [vl set_vtype].
    match goal with |- context [set_vl ?x _] => set (n := x) end.
    assert (0 <= n <= vlmax cfg) as Hn.
    { pose proof (wf_vl _ Hv). unfold n. unfold uint in *. destruct imm; [lia|].
      destruct keep; [specialize (Hk eq_refl); lia|]. destruct z; lia. }
    assert (uint 64 n) as Hu by (unfold uint; lia).
    destruct Hv. split; [|done]. constructor; cbn [set_vstart set_vl set_vtype vregs vl vtype vstart vxrm]; auto.
    + split; [cbn; lia|]. unfold config. cbn [set_vstart set_vl set_vtype vtype vl].
      rewrite (decode_vtype_low raw cfg), Hd by (done || apply Hraw). lia.
    + apply uint_land_r; [lia|uint_lit].
    + by apply uint_0.
  - destruct Hv. split; [|by apply uint_0].
    constructor; simpl; auto; first [by apply uint_0|uint_lit|done].
Qed.

Lemma exec_vector_config_ok m insn :
  uint 32 insn -> hoare (cinv m) (exec_vector_config insn) (fun _ => True).
Proof.
  intros Hi. unfold exec_vector_config.
  apply (hoare_bind _ _ _ (fun _ => True)).
  { intros c Hc. unfold vector_check. by destruct (vector_enabled c). }
  intros _ _. apply hoare_if; intros _; [by apply hoare_throw|].
  apply (hoare_bind _ _ _ (cinv m)); [by apply hoare_gets|]. intros c [Hc Hm].
  set (args := if insn .>> 30 =? 3 then _ else _). cbv zeta. fold args.
  assert (forall raw avl imm z, args = Some (raw, avl, imm, z) -> uint 64 raw /\ uint 64 avl) as Ha.
  { intros raw avl imm z. pose proof (wf_xr c (rs1 insn) Hc (uint_rs1 insn)) as H1.
    pose proof (wf_xr c (rs2 insn) Hc (uint_rs2 insn)) as H2. unfold xr in *.
    assert (uint 64 (rs1 insn)) as H3 by (apply (uint_mono 5); [lia|apply uint_rs1]).
    unfold args. chain; intros [= <- <- <- <-]; split; auto;
      apply uint_land_r; try lia; uint_lit. }
  destruct args as [[[[raw avl] imm] z]|]; [|by apply hoare_throw].
  destruct (Ha raw avl imm z eq_refl) as [Hraw Havl].
  apply hoare_modify. intros c' [Hc' Hm'].
  pose proof (install_config_wf raw (rd insn) z avl imm (vector c') (wf_vector _ Hc') Hraw Havl)
    as Hin.
  destruct (install_config _ _ _ _ _ _) as [nvl v'], Hin as [Hv' Hn].
  split.
  - apply wf_wr; [|apply uint_rd|done]. by apply vector_dirty_wf, wf_set_vector.
  - by rewrite is_sys_wr, is_sys_vector_dirty.
Qed.

(** ** Floating point *)

Lemma ub32_range r : uint 32 (ub32 r).
Proof. unfold ub32. uint_tac. Qed.

Lemma bx32_range v : uint 32 v -> uint 64 (bx32 v).
Proof. intros. apply uint_lor; [lia|uint_lit|by apply (uint_mono 32)]. Qed.

Lemma get_rm_range c f rm : get_rm c f = Some rm -> rm <= 4.
Proof. unfold get_rm. cbv zeta. chain. intros [= <-]. lia. Qed.

Lemma fp_fast64_range op a b v : fp_fast64 op a b = Some v -> uint 64 v.
Proof.
  unfold fp_fast64. cbv zeta. chain. intros [= <-].
  change 64 with (52 + 11 + 1). by apply uint_wrap.
Qed.

Lemma fp_fast32_range op a b v : fp_fast32 op a b = Some v -> uint 32 v.
Proof.
  unfold fp_fast32. cbv zeta. chain. intros [= <-].
  change 32 with (23 + 8 + 1). by apply uint_wrap.
Qed.

(** The generic range lemmas at the two formats. *)
Ltac at32 L := apply (L 32 23 8); try lia.
Ltac at64 L := apply (L 64 52 11); try lia.

Lemma cvt_sf32_sf64_range a fl : uint 32 a -> uint 64 (fst (cvt_sf32_sf64 a fl)).
Proof.
  intros Ha. unfold cvt_sf32_sf64. cbv zeta.
  assert (uint 64 ((a .>> 31) .<< 63)) as Hs.
  { unfold uint in *. arith_bits. zlia. }
  repeat (case_match; cbn [fst]); uint_tac.
Qed.

Lemma round_pack_sf32_range s e m rm fl : uint 32 (fst (round_pack_sf32 s e m rm fl)).
Proof.
  unfold round_pack_sf32. cbv zeta. repeat case_match; at32 pack_range.
Qed.

Lemma cvt_sf64_sf32_range a rm fl : uint 32 (fst (cvt_sf64_sf32 a rm fl)).
Proof.
  unfold cvt_sf64_sf32. cbv zeta. repeat (case_match; cbn [fst]);
    first [uint_const | at32 pack_range | apply round_pack_sf32_range].
Qed.

Section FpSafety.
Context (m : bool) (insn : Z) (Hinsn : uint 32 insn).

Lemma put_f_ok d r :
  (forall v, r = Some v -> uint 64 (fst v)) -> hoare (cinv m) (put_f insn d r) (fun _ => True).
Proof using Hinsn.
  intros Hr. unfold put_f. eapply hoare_bind; [by apply hoare_ok_or; [|apply Hr]|].
  intros v Hv. apply hoare_modify. intros c [Hc Hm]. split; [|done].
  by apply wf_or_fflags, wf_set_fr.
Qed.

Lemma put_x_ok d r :
  0 <= d -> (forall v, r = Some v -> uint 64 (fst v)) ->
  hoare (cinv m) (put_x insn d r) (fun _ => True).
Proof using Hinsn.
  intros Hd Hr. unfold put_x. eapply hoare_bind; [by apply hoare_ok_or; [|apply Hr]|].
  intros v Hv. apply hoare_modify. intros c [Hc Hm]. split.
  - by apply wf_or_fflags, wf_wr.
  - transitivity (is_sys (wr d (fst v) c)); [done|]. by rewrite is_sys_wr.
Qed.

Lemma get_rm_ok c f : hoare (cinv m) (ok_or (get_rm c f) (IllegalInstruction insn)) (fun _ => True).
Proof using Hinsn. by apply hoare_ok_or. Qed.

Lemma set_fr_ok (f : Cpu -> Cpu) d v :
  uint 64 v -> (forall c, cinv m c -> cinv m (f c)) ->
  hoare (cinv m) (modify (fun c => f (set_fr d v c))) (fun _ => True).
Proof using Type.
  intros Hv Hf. apply hoare_modify. intros c [Hc Hm]. apply Hf. split; [|done].
  by apply wf_set_fr.
Qed.

Lemma or_fflags_cinv fl c : cinv m c -> cinv m (or_fflags fl c).
Proof using Type. intros [Hc Hm]. split; [by apply wf_or_fflags|done]. Qed.

Lemma fp_arith32_ok op d s1 s2 f3 : hoare (cinv m) (fp_arith32 insn op d s1 s2 f3) (fun _ => True).
Proof using Hinsn.
  unfold fp_arith32. apply (hoare_bind _ _ _ (cinv m)); [by apply hoare_gets|]. intros c _.
  eapply hoare_bind; [apply get_rm_ok|]. intros rm _. cbv zeta.
  set (a := ub32 _). set (b := ub32 (fr c s2)).
  destruct (if _ && _ then _ else None) as [r|] eqn:E.
  - apply (set_fr_ok id); [|done]. apply bx32_range.
    destruct (_ && _) in E; [by eapply fp_fast32_range|done].
  - assert (uint 32 (fst (if op =? 0 then sf32.add a b rm 0
        else if op =? 1 then sf32.sub a b rm 0 else if op =? 2 then sf32.mul a b rm 0
        else sf32.div a b rm 0))) as Hr.
    { repeat case_match; first
        [at32 add_range; apply ub32_range | at32 sub_range; apply ub32_range
        | at32 mul_range | at32 div_range]. }
    destruct (if op =? 0 then _ else _) as [r fl].
    apply (set_fr_ok (or_fflags fl)); [by apply bx32_range|apply or_fflags_cinv].
Qed.

Lemma fp_arith64_ok op d s1 s2 f3 :
  uint 5 s1 -> uint 5 s2 -> hoare (cinv m) (fp_arith64 insn op d s1 s2 f3) (fun _ => True).
Proof using Hinsn.
  intros Hs1 Hs2. unfold fp_arith64.
  apply (hoare_bind _ _ _ (cinv m)); [by apply hoare_gets|]. intros c [Hc _].
  eapply hoare_bind; [apply get_rm_ok|]. intros rm _. cbv zeta.
  pose proof (wf_fr c s1 Hc Hs1) as Ha. pose proof (wf_fr c s2 Hc Hs2) as Hb.
  destruct (if _ && _ then _ else None) as [r|] eqn:E.
  - apply (set_fr_ok id); [|done].
    destruct (_ && _) in E; [by eapply fp_fast64_range|done].
  - assert (uint 64 (fst (if op =? 0 then sf64.add (fr c s1) (fr c s2) rm 0
        else if op =? 1 then sf64.sub (fr c s1) (fr c s2) rm 0
        else if op =? 2 then sf64.mul (fr c s1) (fr c s2) rm 0
        else sf64.div (fr c s1) (fr c s2) rm 0))) as Hr.
    { repeat case_match; first
        [by at64 add_range | by at64 sub_range | at64 mul_range | at64 div_range]. }
    destruct (if op =? 0 then _ else _) as [r fl].
    apply (set_fr_ok (or_fflags fl)); [done|apply or_fflags_cinv].
Qed.

Lemma box_fst_range r :
  (forall v, r = Some v -> uint 32 (fst v)) -> forall v, box_fst r = Some v -> uint 64 (fst v).
Proof using Type.
  intros Hr v. unfold box_fst. destruct r as [[x fl]|]; [|discriminate]. intros [= <-].
  apply bx32_range. by apply (Hr (x, fl)).
Qed.

Lemma sgnj32_range f3 a b v : uint 32 a -> sgnj32 f3 a b = Some v -> uint 32 v.
Proof using Type.
  intros Ha. unfold sgnj32. chain; intros [= <-]; uint_tac;
    first [apply uint_land_l; [lia|done|lia] | apply uint_land_r; [lia|uint_lit]].
Qed.

Lemma sgnj64_range f3 a b v : uint 64 a -> sgnj64 f3 a b = Some v -> uint 64 v.
Proof using Type.
  intros Ha. unfold sgnj64. cbv zeta. chain; intros [= <-]; uint_tac;
    apply uint_land_r; try lia; uint_lit.
Qed.

Lemma cvt_to_int32_range s2 a rm v : uint 32 a -> cvt_to_int32 s2 a rm = Some v -> uint 64 (fst v).
Proof using Type.
  intros Ha. unfold cvt_to_int32. chain.
  1-2: match goal with |- context [sf32.cvt_to_i32 ?a ?b ?c ?d] =>
    destruct (sf32.cvt_to_i32 a b c d) end; intros [= <-]; apply uint_sext32.
  all: intros [= <-]; at32 cvt_f_to_i_range; done.
Qed.

Lemma cvt_to_int64_range s2 a rm v : uint 64 a -> cvt_to_int64 s2 a rm = Some v -> uint 64 (fst v).
Proof using Type.
  intros Ha. unfold cvt_to_int64. chain.
  1-2: match goal with |- context [sf64.cvt_to_i32 ?a ?b ?c ?d] =>
    destruct (sf64.cvt_to_i32 a b c d) end; intros [= <-]; apply uint_sext32.
  all: intros [= <-]; at64 cvt_f_to_i_range; done.
Qed.

Lemma cvt_from_int32_range s2 x rm v : cvt_from_int32 s2 x rm = Some v -> uint 32 (fst v).
Proof using Type. unfold cvt_from_int32. chain; intros [= <-]; at32 cvt_i_to_f_range. Qed.

Lemma cvt_from_int64_range s2 x rm v : cvt_from_int64 s2 x rm = Some v -> uint 64 (fst v).
Proof using Type. unfold cvt_from_int64. chain; intros [= <-]; at64 cvt_i_to_f_range. Qed.

Lemma b2z_fst_range r v : b2z_fst r = Some v -> uint 64 (fst v).
Proof using Type.
  unfold b2z_fst. destruct r as [[]|]; [|discriminate]. intros [= <-]. by apply uint_b2z.
Qed.

Lemma with_flags_range (P : Z -> Prop) fl o :
  (forall x, o = Some x -> P x) -> forall v, with_flags fl o = Some v -> P (fst v).
Proof using Type.
  intros Ho v. unfold with_flags. destruct o; [|discriminate]. intros [= <-]. by apply Ho.
Qed.

(** The square root always produces a result. *)
Lemma sqrt_ok {A} (o : option (Z * Z)) (k : Z * Z -> Hart Cpu A) Q :
  (exists r fl, o = Some (r, fl) /\ hoare (cinv m) (k (r, fl)) Q) ->
  hoare (cinv m) (r <- unwrap o ;; k r) Q.
Proof using Type. intros (r & fl & -> & Hk) c Hc. by apply Hk. Qed.

Lemma sqrt32_step c d s1 rm :
  hoare (cinv m) (r <- unwrap (sf32.sqrt (ub32 (fr c s1)) rm 0) ;;
                  put_f insn d (Some (bx32 (fst r), snd r))) (fun _ => True).
Proof using Hinsn.
  apply sqrt_ok. destruct (sqrt_total 32 23 8 ltac:(lia) ltac:(lia) ltac:(lia) ltac:(lia)
    (ub32 (fr c s1)) rm 0 (ub32_range _)) as (r & fl & E & Hr).
  exists r, fl. split; [exact E|]. apply put_f_ok. intros v [= <-]. by apply bx32_range.
Qed.

Lemma sqrt64_step c d s1 rm :
  uint 64 (fr c s1) ->
  hoare (cinv m) (r <- unwrap (sf64.sqrt (fr c s1) rm 0) ;; put_f insn d (Some r))
    (fun _ => True).
Proof using Hinsn.
  intros Hf. apply sqrt_ok.
  destruct (sqrt_total 64 52 11 ltac:(lia) ltac:(lia) ltac:(lia) ltac:(lia)
    (fr c s1) rm 0 Hf) as (r & fl & E & Hr).
  exists r, fl. split; [exact E|]. apply put_f_ok. by intros v [= <-].
Qed.

Lemma op_fp_ok : hoare (cinv m) (op_fp insn) (fun _ => True).
Proof using Hinsn.
  unfold op_fp. cbv zeta.
  apply (hoare_bind _ _ _ (cinv m)); [by apply hoare_gets|]. intros c [Hc _].
  pose proof (wf_fr c _ Hc (uint_rs1 insn)) as Hf1.
  pose proof (wf_fr c _ Hc (uint_rs2 insn)) as Hf2.
  pose proof (wf_xr c _ Hc (uint_rs1 insn)) as Hx1.
  pose proof (ub32_range (fr c (rs1 insn))) as Hu1.
  pose proof (ub32_range (fr c (rs2 insn))) as Hu2.
  pose proof (proj1 (uint_rd insn)) as Hd.
  repeat (apply hoare_if; intros _);
    try (eapply hoare_bind; [apply get_rm_ok|]; intros rm _).
  - apply fp_arith32_ok.
  - apply fp_arith64_ok; auto with rv.
  - apply sqrt32_step.
  - by apply sqrt64_step.
  - apply put_f_ok, box_fst_range, with_flags_range. intros x. by apply sgnj32_range.
  - apply put_f_ok, with_flags_range. intros x. by apply sgnj64_range.
  - apply put_f_ok, box_fst_range. intros v. chain; intros [= <-];
      [by at32 min_range|by at32 max_range].
  - apply put_f_ok. intros v. chain; intros [= <-]; [by at64 min_range|by at64 max_range].
  - apply put_f_ok, box_fst_range. intros v [= <-]. apply cvt_sf64_sf32_range.
  - apply put_f_ok. intros v [= <-]. by apply cvt_sf32_sf64_range.
  - apply put_x_ok; [done|]. intros v. apply b2z_fst_range.
  - apply put_x_ok; [done|]. intros v. apply b2z_fst_range.
  - apply put_x_ok; [done|]. intros v. by apply cvt_to_int32_range.
  - apply put_x_ok; [done|]. intros v. by apply cvt_to_int64_range.
  - apply put_f_ok, box_fst_range. intros v. apply cvt_from_int32_range.
  - apply put_f_ok. intros v. apply cvt_from_int64_range.
  - apply put_x_ok; [done|]. intros v [= <-]. apply uint_sext32.
  - apply put_x_ok; [done|]. intros v [= <-]. apply (uint_mono 10); [lia|]. at32 fclass_range.
  - apply put_x_ok; [done|]. by intros v [= <-].
  - apply put_x_ok; [done|]. intros v [= <-]. apply (uint_mono 10); [lia|]. at64 fclass_range.
  - apply put_f_ok. intros v [= <-]. apply bx32_range, uint_u32.
  - apply put_f_ok. by intros v [= <-].
  - by apply hoare_throw.
Qed.

Lemma fp_check_ok : hoare (cinv m) (fp_check insn) (fun _ => True).
Proof using Hinsn.
  intros c Hc. unfold fp_check. by destruct (sys c) as [s|]; [destruct (_ =? 0)|].
Qed.

Lemma fp_dirty_ok : hoare (cinv m) (modify fp_dirty) (fun _ => True).
Proof using Type.
  apply cinv_modify; [intros c [Hc _]; by apply fp_dirty_wf|apply is_sys_fp_dirty].
Qed.

Lemma op_fma_ok : hoare (cinv m) (op_fma insn) (fun _ => True).
Proof using Hinsn.
  unfold op_fma. eapply hoare_bind; [apply fp_check_ok|]. intros _ _.
  eapply hoare_bind; [apply fp_dirty_ok|]. intros _ _. cbv zeta.
  apply (hoare_bind _ _ _ (cinv m)); [by apply hoare_gets|]. intros c [Hc _].
  eapply hoare_bind; [apply get_rm_ok|]. intros rm _.
  assert (uint 5 (insn .>> 27)) as H3.
  { unfold uint in *. arith_bits. zlia. }
  pose proof (ub32_range (fr c (insn .>> 27))) as Hu.
  pose proof (wf_fr c _ Hc H3) as Hf.
  set (nc := (opcode insn =? 0x47) || _).
  apply hoare_if; intros _; [|apply hoare_if; intros _; [|by apply hoare_throw]].
  - match goal with |- context [sf32.fma ?a ?b ?cc rm 0] =>
      assert (uint 32 (fst (sf32.fma a b cc rm 0))) as Hr;
        [at32 fma_range; destruct nc; [apply uint_lxor; [lia|done|uint_lit]|done]
        |destruct (sf32.fma a b cc rm 0) as [r fl]] end.
    apply (set_fr_ok (or_fflags fl)); [by apply bx32_range|apply or_fflags_cinv].
  - match goal with |- context [sf64.fma ?a ?b ?cc rm 0] =>
      assert (uint 64 (fst (sf64.fma a b cc rm 0))) as Hr;
        [at64 fma_range; destruct nc; [apply uint_lxor; [lia|done|uint_lit]|done]
        |destruct (sf64.fma a b cc rm 0) as [r fl]] end.
    apply (set_fr_ok (or_fflags fl)); [done|apply or_fflags_cinv].
Qed.
End FpSafety.
