(* ===== verification/VecSafe.v ===== *)
(** * Safety of the vector unit

    Every vector instruction keeps the hart invariant and touches no byte
    outside the register file: the legality tests bound the register groups,
    the configuration bounds the elements, and so every raw access the source
    makes is inside its array. *)

From S2P Require Import Prelude Exception Decode Compressed Csr State Bus Mmu Trap CsrOps.
From S2P Require Import Vector SoftFp Exec Step VecBase VecInt VecFloat VecMem.
From S2P Require Import Wf SoftFpSpec RvcEquiv SafeMem SafeCsr SafeExec.

(** ** The register file *)

Definition regs_wf (regs : list (list Z)) : Prop :=
  length regs = Z.to_nat VREG_COUNT /\ Forall (arr (Z.to_nat VLEN_BYTES) 8) regs.

Lemma length_concat_rows n regs :
  Forall (arr n 8) regs -> length (concat regs) = (length regs * n)%nat.
Proof.
  induction 1 as [|row regs [Hl _] _ IH]; simpl; [done|]. rewrite length_app, Hl, IH. lia.
Qed.

Lemma length_flat v : regs_wf v.(vregs) -> length (flat v) = 512%nat.
Proof. intros [Hl Hf]. unfold flat. rewrite (length_concat_rows _ _ Hf), Hl. reflexivity. Qed.

Lemma flat_bytes v : regs_wf v.(vregs) -> Forall (uint 8) (flat v).
Proof.
  intros [_ Hf]. unfold flat. apply Forall_concat.
  apply (List.Forall_impl (Forall (uint 8)) (fun row Hrow => proj2 Hrow) Hf).
Qed.

Lemma chunks_wf n k l :
  length l = (n * k)%nat -> Forall (uint 8) l ->
  length (chunks n k l) = k /\ Forall (arr n 8) (chunks n k l).
Proof.
  revert l. induction k as [|k IH]; intros l Hl Hf; simpl; [by split|].
  destruct (IH (drop n l)) as [H1 H2]; [rewrite length_drop; lia|by apply Forall_drop|].
  split; [by rewrite H1|]. constructor; [|done].
  split; [rewrite length_take; lia|by apply Forall_take].
Qed.

Lemma concat_chunks n k l : length l = (n * k)%nat -> concat (chunks n k l) = l.
Proof.
  revert l. induction k as [|k IH]; intros l Hl; simpl.
  - symmetry. apply length_zero_iff_nil. lia.
  - rewrite IH by (rewrite length_drop; lia). apply take_drop.
Qed.

Lemma with_flat_regs l v :
  length l = 512%nat -> Forall (uint 8) l -> regs_wf (with_flat l v).(vregs).
Proof. intros Hl Hf. by apply chunks_wf. Qed.

Lemma flat_with_flat l v : length l = 512%nat -> flat (with_flat l v) = l.
Proof. intros. by apply concat_chunks. Qed.

Lemma register_wf v reg :
  regs_wf v.(vregs) -> 0 <= reg < VREG_COUNT ->
  exists row, register v reg = Some row /\ arr (Z.to_nat VLEN_BYTES) 8 row.
Proof.
  intros [Hl Hf] Hr. unfold register.
  destruct (lookup_lt_is_Some_2 v.(vregs) (Z.to_nat reg)) as [row E];
    [rewrite Hl; unfold VREG_COUNT in *; lia|].
  exists row. split; [done|]. by apply (Forall_lookup_1 _ _ _ _ Hf) in E.
Qed.

Lemma register_byte_wf v reg index :
  regs_wf v.(vregs) -> 0 <= reg < VREG_COUNT -> 0 <= index < VLEN_BYTES ->
  exists byte, register_byte v reg index = Some byte /\ uint 8 byte.
Proof.
  intros Hv Hr Hi. destruct (register_wf v reg Hv Hr) as (row & E & [Hl Hf]).
  unfold register_byte. rewrite E. simpl.
  destruct (lookup_lt_is_Some_2 row (Z.to_nat index)) as [byte Eb];
    [rewrite Hl; change VLEN_BYTES with 16 in *; lia|].
  exists byte. split; [done|]. by apply (Forall_lookup_1 _ _ _ _ Hf) in Eb.
Qed.

Lemma set_register_byte_wf v reg index value :
  regs_wf v.(vregs) -> uint 8 value -> regs_wf (set_register_byte reg index value v).(vregs).
Proof.
  intros [Hl Hf] Hb. split; [by unfold set_register_byte; simpl; rewrite length_alter|].
  apply Forall_alter; [done|]. intros row _ [Hr Hs]. split; [by rewrite length_insert|].
  by apply Forall_insert.
Qed.

Lemma set_register_wf v reg row :
  regs_wf v.(vregs) -> arr (Z.to_nat VLEN_BYTES) 8 row -> regs_wf (set_register reg row v).(vregs).
Proof.
  intros [Hl Hf] Hr. split; [by unfold set_register; simpl; rewrite length_insert|].
  by apply Forall_insert.
Qed.

(** ** Elements *)

(** Element [index] of the group at [reg] lies inside the register file. *)
Definition element_ok (reg index eew : Z) : Prop :=
  is_width eew = true /\ 0 <= reg /\ 0 <= index /\ reg * 16 + (index + 1) * (eew / 8) <= 512.

Lemma is_width_cases eew : is_width eew = true -> eew = 8 \/ eew = 16 \/ eew = 32 \/ eew = 64.
Proof.
  unfold is_width, width_log.
  destruct (Z.eqb_spec eew 8), (Z.eqb_spec eew 16), (Z.eqb_spec eew 32), (Z.eqb_spec eew 64); auto. done.
Qed.

Lemma ptr_read_ok v offset n :
  regs_wf v.(vregs) -> 0 <= offset -> 0 <= n -> offset + n <= 512 ->
  ptr_read v offset n = Some (take (Z.to_nat n) (drop (Z.to_nat offset) (flat v))).
Proof.
  intros Hv Ho Hn Hl. unfold ptr_read, slice. rewrite length_flat by done.
  destruct (Z.leb_spec offset (offset + n)); [|lia].
  destruct (Z.leb_spec (offset + n) (Z.of_nat 512)); [|lia]. simpl. do 3 f_equal. lia.
Qed.

Lemma ptr_write_ok v offset bytes :
  regs_wf v.(vregs) -> 0 <= offset -> offset + Z.of_nat (length bytes) <= 512 ->
  ptr_write v offset bytes
  = Some (with_flat (take (Z.to_nat offset) (flat v) ++ bytes
                     ++ drop (Z.to_nat offset + length bytes) (flat v)) v).
Proof.
  intros Hv Ho Hl. unfold ptr_write, copy_from_slice. rewrite length_flat by done.
  destruct (Z.leb_spec offset (offset + Z.of_nat (length bytes))); [|lia].
  destruct (Z.leb_spec (offset + Z.of_nat (length bytes)) (Z.of_nat 512)); [|lia].
  destruct (Z.eqb_spec (Z.of_nat (length bytes)) (offset + Z.of_nat (length bytes) - offset)); [|lia].
  simpl. do 5 f_equal. lia.
Qed.

Lemma ptr_write_wf v offset bytes v' :
  regs_wf v.(vregs) -> 0 <= offset -> offset + Z.of_nat (length bytes) <= 512 ->
  Forall (uint 8) bytes -> ptr_write v offset bytes = Some v' ->
  regs_wf v'.(vregs)
  /\ flat v' = take (Z.to_nat offset) (flat v) ++ bytes
               ++ drop (Z.to_nat offset + length bytes) (flat v)
  /\ v' = set_vregs v'.(vregs) v.
Proof.
  intros Hv Ho Hl Hb. rewrite (ptr_write_ok v offset bytes Hv Ho Hl). intros [= <-].
  pose proof (length_flat v Hv) as Hf.
  assert (length (take (Z.to_nat offset) (flat v) ++ bytes
           ++ drop (Z.to_nat offset + length bytes) (flat v)) = 512%nat) as Hlen.
  { rewrite (length_flat_update _ _ _ (length bytes)); [done|lia|done]. }
  split_and!; [|by apply flat_with_flat|done].
  apply with_flat_regs; [done|]. pose proof (flat_bytes v Hv).
  apply Forall_app_2; [by apply Forall_take|]. apply Forall_app_2; [done|by apply Forall_drop].
Qed.

Lemma read_element_ok v reg index eew :
  regs_wf v.(vregs) -> element_ok reg index eew ->
  exists x, read_element v reg index eew = Some x /\ uint eew x.
Proof.
  intros Hv (Hw & Hr & Hi & Hb). unfold read_element. rewrite Hw.
  assert (0 < eew / 8 /\ 8 * (eew / 8) = eew) as [Hp He]
    by (destruct (is_width_cases _ Hw) as [->|[->|[->| ->]]]; done).
  change VLEN_BYTES with 16. rewrite ptr_read_ok by (done || nia). simpl.
  eexists. split; [done|]. rewrite <- He at 1.
  match goal with |- uint _ (from_le_bytes ?l) => set (bs := l) end.
  assert (8 * (eew / 8) = 8 * Z.of_nat (length bs)) as ->.
  { unfold bs. rewrite length_take, length_drop, (length_flat v Hv). nia. }
  apply from_le_bytes_range. by apply Forall_take, Forall_drop, flat_bytes.
Qed.

Lemma write_element_ok v reg index eew value :
  regs_wf v.(vregs) -> element_ok reg index eew ->
  exists v', write_element reg index eew value v = Some v'
    /\ regs_wf v'.(vregs) /\ v' = set_vregs v'.(vregs) v.
Proof.
  intros Hv (Hw & Hr & Hi & Hb). unfold write_element. rewrite Hw.
  assert (0 < eew / 8) as Hp by (destruct (is_width_cases _ Hw) as [->|[->|[->| ->]]]; done).
  change VLEN_BYTES with 16.
  set (o := reg * 16 + index * (eew / 8)). set (bs := to_le_bytes _ value).
  assert (length bs = Z.to_nat (eew / 8)) as Hl by apply length_to_le_bytes.
  assert (0 <= o) as Ho by (unfold o; nia).
  assert (o + Z.of_nat (length bs) <= 512) as Hob by (rewrite Hl; unfold o; nia).
  destruct (ptr_write v o bs) as [v'|] eqn:E.
  - exists v'. destruct (ptr_write_wf v o bs v' Hv Ho Hob (to_le_bytes_bytes _ _) E) as (? & _ & ?).
    by split_and!.
  - by rewrite ptr_write_ok in E by done.
Qed.

(** ** Register groups *)

(** A group of [r] registers holds every element of width [eew]. *)
Definition fits (cfg : VectorConfig) (eew : Z) (r : GroupRatio) : Prop :=
  is_width eew = true /\ 1 <= register_span r /\ cfg.(vlmax) * (eew / 8) <= 16 * register_span r.

Definition decoded (cfg : VectorConfig) : Prop :=
  exists raw, uint 8 raw /\ decode_vtype raw = Some cfg.

(** The facts about a configuration, decided over all of them. *)
Definition ratio_of (exponent : Z) : GroupRatio :=
  if 0 <=? exponent then mkRatio (1 .<< exponent) 1 else mkRatio 1 (1 .<< (- exponent)).

Definition fits_check (cfg : VectorConfig) (eew : Z) (r : GroupRatio) : bool :=
  is_width eew && (1 <=? register_span r) && (cfg.(vlmax) * (eew / 8) <=? 16 * register_span r).

Definition emul_check (cfg : VectorConfig) (eew : Z) : bool :=
  match emul_exponent cfg eew with
  | Some (Some e) => fits_check cfg eew (ratio_of e)
                     && (register_span (ratio_of e) =? (if 0 <? e then 1 .<< e else 1))
  | Some None => true
  | None => false
  end.

Definition cfg_check (raw : Z) : bool :=
  match decode_vtype raw with
  | Some cfg => fits_check cfg cfg.(sew) (lmul cfg) && (1 <=? cfg.(vlmax)) && (cfg.(vlmax) <=? 128)
                && forallb (emul_check cfg) [8; 16; 32; 64]
  | None => true
  end.

Lemma cfg_check_all : all_bits 8 0 cfg_check = true.
Proof. vm_compute. reflexivity. Qed.

Lemma fits_check_fits cfg eew r : fits_check cfg eew r = true -> fits cfg eew r.
Proof. unfold fits_check. rewrite !andb_true_iff, !Z.leb_le. by intros [[? ?] ?]. Qed.

Lemma decoded_facts cfg :
  decoded cfg ->
  fits cfg cfg.(sew) (lmul cfg) /\ 1 <= cfg.(vlmax) <= 128
  /\ forall eew, is_width eew = true -> emul_check cfg eew = true.
Proof.
  intros (raw & Hraw & E). pose proof (all_uint 8 _ cfg_check_all raw Hraw) as Hc.
  unfold cfg_check in Hc. rewrite E in Hc.
  apply andb_true_iff in Hc as [[[Hf H1]%andb_true_iff H2]%andb_true_iff Hall].
  split_and!; [by apply fits_check_fits|lia|lia|]. intros eew Hw.
  rewrite forallb_forall in Hall. apply Hall.
  destruct (is_width_cases _ Hw) as [->|[->|[->| ->]]]; simpl; auto.
Qed.

Lemma fits_lmul cfg : decoded cfg -> fits cfg cfg.(sew) (lmul cfg).
Proof. intros H. apply (decoded_facts cfg H). Qed.

Lemma decoded_vlmax cfg : decoded cfg -> 1 <= cfg.(vlmax) <= 128.
Proof. intros H. apply (decoded_facts cfg H). Qed.

Lemma vinv_decoded m cfg c : vinv m cfg c -> decoded cfg.
Proof.
  intros [[Hc _] E]. pose proof (wf_vtype _ (wf_vector _ Hc)) as Ht. unfold config in E.
  eexists. split; [|done]. apply decode_vtype_8; [apply Ht|by rewrite E].
Qed.

Lemma group_end reg r fields field :
  validate_group reg r fields = true -> 1 <= register_span r -> 0 <= field < fields ->
  reg + (field + 1) * register_span r <= 32.
Proof.
  unfold validate_group. rewrite !andb_true_iff, !Z.leb_le. intros [[[_ _] _] H] Hs Hf.
  unfold VREG_COUNT in H. nia.
Qed.

Lemma group_element cfg eew r reg index :
  fits cfg eew r -> validate_group reg r 1 = true -> 0 <= reg -> 0 <= index < cfg.(vlmax) ->
  element_ok reg index eew.
Proof.
  intros (Hw & Hs & Hb) Hg Hr Hi. pose proof (group_end reg r 1 0 Hg Hs ltac:(lia)) as He.
  split_and!; [done|done|lia|].
  assert (0 <= eew / 8) by (destruct (is_width_cases _ Hw) as [->|[->|[->| ->]]]; done). nia.
Qed.

Lemma field_element cfg eew r reg fields field index :
  fits cfg eew r -> validate_group reg r fields = true -> 0 <= reg -> 0 <= field < fields ->
  0 <= index < cfg.(vlmax) -> element_ok (reg + field * register_span r) index eew.
Proof.
  intros (Hw & Hs & Hb) Hg Hr Hf Hi. pose proof (group_end reg r fields field Hg Hs Hf) as He.
  split_and!; [done|nia|lia|].
  assert (0 <= eew / 8) by (destruct (is_width_cases _ Hw) as [->|[->|[->| ->]]]; done). nia.
Qed.

(** The first element of any register. *)
Lemma first_element reg eew : is_width eew = true -> uint 5 reg -> element_ok reg 0 eew.
Proof.
  intros Hw Hr. unfold uint in Hr. split_and!; [done|lia|lia|].
  destruct (is_width_cases _ Hw) as [->|[->|[->| ->]]]; zlia.
Qed.

Lemma emul_cases {S} (P : S -> Prop) cfg eew :
  decoded cfg -> hoare P (emul cfg eew) (fun o => forall r, o = Some r -> fits cfg eew r).
Proof.
  intros Hd. unfold emul. destruct (is_width eew) eqn:Hw.
  - pose proof (proj2 (proj2 (decoded_facts cfg Hd)) eew Hw) as Hc. unfold emul_check in Hc.
    destruct (emul_exponent cfg eew) as [[e|]|]; [|by apply hoare_ret|done].
    apply hoare_ret. intros r [= <-]. apply fits_check_fits. apply andb_true_iff in Hc. apply Hc.
  - unfold emul_exponent, is_width in *. destruct (width_log eew); [done|]. by apply hoare_ret.
Qed.

Lemma emul_or_illegal_ok {S} (P : S -> Prop) insn cfg eew :
  decoded cfg -> uint 32 insn -> hoare P (emul_or_illegal insn cfg eew) (fits cfg eew).
Proof.
  intros Hd Hi. eapply hoare_bind; [by apply emul_cases|]. intros o Ho.
  apply hoare_ok_or; [simpl; by apply (uint_mono 32)|exact Ho].
Qed.

(** ** Rules for the shared operations *)

Lemma hoare_unwrap {S A} (P : S -> Prop) (o : option A) (Q : A -> Prop) :
  (exists a, o = Some a /\ Q a) -> hoare P (unwrap o) Q.
Proof. intros (a & -> & HQ). by apply hoare_ret. Qed.

Lemma hoare_for_loop {S A} (P : S -> Prop) (I : Z -> A -> Prop) n i body acc :
  (forall j acc, i <= j < i + Z.of_nat n -> I j acc -> hoare P (body j acc) (I (j + 1))) ->
  I i acc -> hoare P (for_loop n i body acc) (I (i + Z.of_nat n)).
Proof.
  revert i acc. induction n as [|n IH]; intros i acc Hb Hi; cbn [for_loop].
  - apply hoare_ret. by rewrite Z.add_0_r.
  - eapply hoare_bind; [apply Hb; [lia|done]|]. intros acc' Hacc.
    replace (i + Z.of_nat (Datatypes.S n)) with (i + 1 + Z.of_nat n) by lia.
    apply IH; [|done]. intros j acc'' Hj. apply Hb. lia.
Qed.

Lemma hoare_for_range {S A} (P : S -> Prop) (I : Z -> A -> Prop) start stop body acc :
  (forall j acc, start <= j < stop -> I j acc -> hoare P (body j acc) (I (j + 1))) ->
  I start acc -> hoare P (for_range start stop body acc) (I (Z.max start stop)).
Proof.
  intros Hb Hi. unfold for_range. replace (Z.max start stop) with (start + Z.of_nat (Z.to_nat (stop - start))) by lia.
  apply hoare_for_loop; [|done]. intros j acc' Hj. apply Hb. lia.
Qed.

(** Loops whose locals need no invariant. *)
Lemma hoare_for_range_any {S A} (P : S -> Prop) start stop body (acc : A) :
  (forall j acc, start <= j < stop -> hoare P (body j acc) (fun _ => True)) ->
  hoare P (for_range start stop body acc) (fun _ => True).
Proof. intros Hb. apply (hoare_for_range P (fun _ _ => True)); [intros; by apply Hb|done]. Qed.

(** The rules that need no particular configuration. *)
Section AnyConfig.
Context (m : bool) (o : option VectorConfig).
Abbreviation P := (fun c => cinv m c /\ config c.(vector) = o).

Lemma vregs_any c : P c -> regs_wf c.(vector).(vregs).
Proof. intros [[Hc _] _]. apply (wf_vregs _ (wf_vector _ Hc)). Qed.

Lemma set_vregs_any c regs : P c -> regs_wf regs -> P (set_vector (set_vregs regs c.(vector)) c).
Proof.
  intros [[Hc Hm] E] Hr. split; [split; [|done]|done]. apply wf_set_vector; [done|].
  destruct (wf_vector _ Hc). by constructor.
Qed.

Lemma get_element_any reg index eew :
  element_ok reg index eew -> hoare P (get_element reg index eew) (uint eew).
Proof.
  intros He. apply (hoare_bind _ _ _ (fun v => regs_wf v.(vregs))); [apply hoare_gets, vregs_any|]. intros v Hv.
  apply hoare_unwrap. by apply read_element_ok.
Qed.

Lemma put_element_any reg index eew value :
  element_ok reg index eew -> hoare P (put_element reg index eew value) (fun _ => True).
Proof.
  intros He c Hc. unfold put_element, bind, vec, gets.
  destruct (write_element_ok c.(vector) reg index eew value (vregs_any c Hc) He) as (v' & -> & Hr & Hv).
  simpl. split; [|done]. rewrite Hv. by apply set_vregs_any.
Qed.

Lemma set_vstart_any index : uint 64 index -> hoare P (update_vec (set_vstart index)) (fun _ => True).
Proof.
  intros Hi. apply hoare_modify. intros c [[Hc Hm] E]. split; [split; [|done]|done].
  apply wf_set_vector; [done|]. destruct (wf_vector _ Hc). by constructor.
Qed.

(** Updates of the hart that do not touch the vector state. *)
Lemma modify_any f :
  (forall c, cinv m c -> wf_cpu (f c)) -> (forall c, is_sys (f c) = is_sys c) ->
  (forall c, vector (f c) = vector c) -> hoare P (modify f) (fun _ => True).
Proof.
  intros Hf Hs Hv. apply hoare_modify. intros c [[Hc Hm] E].
  split; [split; [by apply Hf|by rewrite Hs]|by rewrite Hv].
Qed.

Lemma mark_dirty_any : hoare P mark_dirty (fun _ => True).
Proof.
  apply modify_any; [intros c [Hc _]; by apply vector_dirty_wf|apply is_sys_vector_dirty|].
  intros c. unfold vector_dirty. by destruct (sys c).
Qed.

Lemma vstart_now_any : hoare P vstart_now (uint 64).
Proof. apply hoare_gets. intros c [[Hc _] _]. apply (wf_vstart _ (wf_vector _ Hc)). Qed.

Lemma x_reg_any i : uint 5 i -> hoare P (x_reg i) (uint 64).
Proof. intros Hi. apply hoare_gets. intros c [[Hc _] _]. by apply wf_xr. Qed.
End AnyConfig.

Section Rules.
Context (m : bool) (cfg : VectorConfig).
Abbreviation P := (vinv m cfg).

Lemma vinv_regs c : P c -> regs_wf c.(vector).(vregs).
Proof. apply vregs_any. Qed.

Lemma vinv_set_vregs c regs :
  P c -> regs_wf regs -> P (set_vector (set_vregs regs c.(vector)) c).
Proof. apply set_vregs_any. Qed.

Lemma vec_ok : hoare P vec (fun v => regs_wf v.(vregs)).
Proof. apply hoare_gets. apply vinv_regs. Qed.

Lemma update_regs_ok v' :
  regs_wf v'.(vregs) ->
  (forall c, P c -> v' = set_vregs v'.(vregs) c.(vector)) ->
  hoare P (update_vec (fun _ => v')) (fun _ => True).
Proof.
  intros Hr Hv. apply hoare_modify. intros c Hc. rewrite (Hv c Hc). by apply vinv_set_vregs.
Qed.

Lemma get_element_ok reg index eew :
  element_ok reg index eew -> hoare P (get_element reg index eew) (uint eew).
Proof. apply get_element_any. Qed.

Lemma put_element_ok reg index eew value :
  element_ok reg index eew -> hoare P (put_element reg index eew value) (fun _ => True).
Proof. apply put_element_any. Qed.

Lemma bit_byte reg index :
  0 <= reg < 32 -> 0 <= index < 128 ->
  0 <= reg < VREG_COUNT /\ 0 <= index .>> 3 < VLEN_BYTES.
Proof.
  intros Hr Hi. rewrite (shiftr_lit _ 3 8) by done. change VLEN_BYTES with 16.
  unfold VREG_COUNT. split; [lia|zlia].
Qed.

Lemma get_bit_ok reg index :
  0 <= reg < 32 -> 0 <= index < 128 -> hoare P (get_bit reg index) (fun _ => True).
Proof.
  intros Hr Hi. destruct (bit_byte reg index Hr Hi) as [Hr' Hi'].
  eapply hoare_bind; [apply vec_ok|]. intros v Hv. apply hoare_unwrap.
  unfold register_bit. destruct (register_byte_wf v reg _ Hv Hr' Hi') as (b & -> & _). by eexists.
Qed.

Lemma mask_bit_ok index : 0 <= index < 128 -> hoare P (mask_bit index) (fun _ => True).
Proof. intros. by apply get_bit_ok. Qed.

Lemma set_byte_ok reg index value :
  uint 8 value -> hoare P (update_vec (set_register_byte reg index value)) (fun _ => True).
Proof.
  intros Hb. apply hoare_modify. intros c Hc. apply (vinv_set_vregs c); [done|].
  apply (set_register_byte_wf c.(vector)); [by apply vinv_regs|done].
Qed.

Lemma write_mask_element_ok reg index value :
  0 <= reg < 32 -> 0 <= index < 128 -> hoare P (write_mask_element reg index value) (fun _ => True).
Proof.
  intros Hr Hi. destruct (bit_byte reg index Hr Hi) as [Hr' Hi'].
  eapply hoare_bind; [apply vec_ok|]. intros v Hv.
  eapply hoare_bind; [apply hoare_unwrap; by apply register_byte_wf|]. intros byte Hb.
  apply set_byte_ok. destruct value; [|apply uint_ldiff; [lia|done]].
  apply uint_lor; [lia|done|]. rewrite (land_ones_lit _ 7 3) by done.
  pose proof (Z.mod_pos_bound index (2 ^ 3) ltac:(lia)) as Hm. rewrite Z.shiftl_1_l.
  split; [lia|]. apply Z.pow_lt_mono_r; lia.
Qed.

Lemma set_flat_byte_ok offset value :
  0 <= offset < 512 -> uint 8 value -> hoare P (set_flat_byte offset value) (fun _ => True).
Proof.
  intros Ho Hb. eapply hoare_bind; [apply vec_ok|]. intros v Hv.
  eapply hoare_bind; [apply hoare_unwrap, register_byte_wf; [done|..];
    change VLEN_BYTES with 16; unfold VREG_COUNT; zlia|].
  intros _ _. by apply set_byte_ok.
Qed.

Lemma finish_vector_ok : hoare P finish_vector (fun _ => True).
Proof. by apply set_vstart_any, uint_0. Qed.

Lemma saturate_ok b : hoare P (saturate b) (fun _ => True).
Proof.
  apply hoare_modify. intros c [[Hc Hm] E]. split; [split; [|done]|done].
  apply wf_set_vector; [done|]. destruct (wf_vector _ Hc). by constructor.
Qed.

Lemma set_vxsat_ok : hoare P (update_vec (set_vxsat true)) (fun _ => True).
Proof.
  apply hoare_modify. intros c [[Hc Hm] E]. split; [split; [|done]|done].
  apply wf_set_vector; [done|]. destruct (wf_vector _ Hc). by constructor.
Qed.

(** Updates of the hart that do not touch the vector state. *)
Lemma vinv_modify f :
  (forall c, cinv m c -> wf_cpu (f c)) -> (forall c, is_sys (f c) = is_sys c) ->
  (forall c, vector (f c) = vector c) -> hoare P (modify f) (fun _ => True).
Proof. apply modify_any. Qed.

Lemma mark_dirty_ok : hoare P mark_dirty (fun _ => True).
Proof. apply mark_dirty_any. Qed.

Lemma mark_fp_dirty_ok : hoare P mark_fp_dirty (fun _ => True).
Proof.
  apply vinv_modify; [intros c [Hc _]; by apply fp_dirty_wf|apply is_sys_fp_dirty|].
  intros c. unfold fp_dirty. by destruct (sys c).
Qed.

Lemma wr_vec_ok d v : 0 <= d -> uint 64 v -> hoare P (modify (wr d v)) (fun _ => True).
Proof.
  intros Hd Hv. apply vinv_modify; [intros c [Hc _]; by apply wf_wr|apply is_sys_wr|].
  intros c. unfold wr. by destruct (negb _).
Qed.

Lemma accrue_ok fl : hoare P (accrue fl) (fun _ => True).
Proof. apply vinv_modify; [intros c [Hc _]; by apply wf_or_fflags|done..]. Qed.

Lemma x_reg_ok i : uint 5 i -> hoare P (x_reg i) (uint 64).
Proof. apply x_reg_any. Qed.

Lemma vstart_now_ok : hoare P vstart_now (fun s => 0 <= s).
Proof. apply hoare_gets. intros c [[Hc _] _]. apply (wf_vstart _ (wf_vector _ Hc)). Qed.

Lemma vxrm_now_ok : hoare P vxrm_now (fun _ => True).
Proof. by apply hoare_gets. Qed.

Lemma active_length_ok : hoare P (active_length cfg) (fun n => 0 <= n <= cfg.(vlmax)).
Proof.
  apply hoare_gets. intros c Hc. pose proof (decoded_vlmax cfg (vinv_decoded m cfg c Hc)).
  destruct Hc as [[Hc _] _]. pose proof (wf_vl _ (wf_vector _ Hc)) as [? _]. lia.
Qed.

Context (insn : Z) (Hinsn : uint 32 insn) (Hd : decoded cfg).

Lemma illegal_ok {A} (Q : A -> Prop) : hoare P (illegal insn) Q.
Proof using Hinsn. by apply hoare_throw. Qed.

Lemma rounding_mode_ok : hoare P (rounding_mode insn) (fun _ => True).
Proof using Hinsn.
  eapply (hoare_bind _ _ _ (fun _ => True)); [by apply hoare_gets|]. intros o _. by apply hoare_ok_or.
Qed.

Lemma scalar_float_bits_ok reg e : hoare P (scalar_float_bits reg e) (fun _ => True).
Proof.
  eapply (hoare_bind _ _ _ (fun _ => True)); [by apply hoare_gets|]. intros v _. by apply hoare_ret.
Qed.

Lemma for_elements_ok {A} (I : Z -> A -> Prop) pred start stop body acc :
  0 <= start -> stop <= cfg.(vlmax) ->
  (forall j acc, 0 <= j < cfg.(vlmax) -> start <= j < stop -> I j acc -> hoare P (body j acc) (I (j + 1))) ->
  (forall j acc, I j acc -> I (j + 1) acc) ->
  I start acc -> hoare P (for_elements pred start stop body acc) (I (Z.max start stop)).
Proof using Hd.
  intros Hs Hv Hb Hskip Hi. pose proof (decoded_vlmax cfg Hd).
  apply hoare_for_range; [|done]. intros j acc' Hj Hacc. apply hoare_if; intros _.
  - eapply hoare_bind; [apply mask_bit_ok; lia|]. intros b _. apply hoare_if; intros _.
    + apply Hb; [lia|lia|done].
    + apply hoare_ret. auto.
  - apply Hb; [lia|lia|done].
Qed.

Lemma for_elements_any {A} pred start stop body (acc : A) :
  0 <= start -> stop <= cfg.(vlmax) ->
  (forall j acc, 0 <= j < cfg.(vlmax) -> hoare P (body j acc) (fun _ => True)) ->
  hoare P (for_elements pred start stop body acc) (fun _ => True).
Proof using Hd. intros. apply (for_elements_ok (fun _ _ => True)); auto. Qed.
End Rules.
