(* ===== verification/VecOk.v ===== *)
(** * The vector unit keeps the hart invariant

    Instruction by instruction, with the rules of [VecSafe]: the guards give
    the bounds of the groups, the loops the bounds of the elements. *)

From S2P Require Import Prelude Exception Decode Compressed Csr State Bus Mmu Trap CsrOps.
From S2P Require Import Vector SoftFp Exec Step VecBase VecInt VecFloat VecMem.
From S2P Require Import Wf SoftFpSpec RvcEquiv SafeMem SafeCsr SafeExec VecSafe.

(** What a refuted guard says. *)
Ltac guards G :=
  lazymatch type of G with
  | (_ || _) = false =>
      let G1 := fresh "G" in let G2 := fresh "G" in
      apply orb_false_iff in G as [G1 G2]; guards G1; guards G2
  | negb _ = false => apply negb_false_iff in G
  | _ => idtac
  end.

Ltac reg_tac :=
  first [apply uint_rd | apply uint_rs1 | apply uint_rs2 | assumption
        | match goal with H : uint 5 ?r |- 0 <= ?r => apply H end].
Ltac reg_range :=
  match goal with |- 0 <= ?r < 32 =>
    assert (uint 5 r) as [? ?] by reg_tac; change (2 ^ 5) with 32 in *; lia
  end.

(** An element inside its validated group, or the first of a register. *)
Ltac elem :=
  match goal with
  | F : fits ?cfg ?eew ?r, V : validate_group ?reg ?r 1 = true |- element_ok ?reg ?i ?eew =>
      apply (group_element cfg eew r reg i F V); [reg_tac | unfold uint in *; lia]
  | F : fits _ ?eew _ |- element_ok _ 0 ?eew => apply first_element; [apply F | reg_tac]
  end.

Ltac hv_prim :=
  lazymatch goal with
  | |- hoare _ (get_element _ _ _) (fun _ => True) =>
      eapply hoare_weaken; [apply get_element_ok; elem | done]
  | |- hoare _ (get_element _ _ _) _ => apply get_element_ok; elem
  | |- hoare _ (put_element _ _ _ _) _ => apply put_element_ok; elem
  | |- hoare _ (mask_bit _) _ => apply mask_bit_ok; lia
  | |- hoare _ (get_bit _ _) _ => apply get_bit_ok; [reg_range | lia]
  | |- hoare _ (write_mask_element _ _ _) _ => apply write_mask_element_ok; [reg_range | lia]
  | |- hoare _ vec _ => apply vec_ok
  | |- hoare _ vstart_now _ => apply vstart_now_ok
  | |- hoare _ vxrm_now _ => apply vxrm_now_ok
  | |- hoare _ (active_length _) _ => apply active_length_ok
  | |- hoare _ mark_dirty _ => apply mark_dirty_ok
  | |- hoare _ mark_fp_dirty _ => apply mark_fp_dirty_ok
  | |- hoare _ finish_vector _ => apply finish_vector_ok
  | |- hoare _ (saturate _) _ => apply saturate_ok
  | |- hoare _ (update_vec (set_vxsat true)) _ => apply set_vxsat_ok
  | |- hoare _ (accrue _) _ => apply accrue_ok
  | |- hoare _ (x_reg _) (fun _ => True) => eapply hoare_weaken; [apply x_reg_ok; reg_tac | done]
  | |- hoare _ (x_reg _) _ => apply x_reg_ok; reg_tac
  | |- hoare _ (illegal _) _ => by apply illegal_ok
  | |- hoare _ (rounding_mode _) _ => by apply rounding_mode_ok
  | |- hoare _ (scalar_float_bits _ _) _ => apply scalar_float_bits_ok
  | |- hoare _ (emul_or_illegal _ _ _) _ => by apply emul_or_illegal_ok
  | |- hoare _ (ret _) _ => apply hoare_ret; exact I
  | |- hoare _ (unwrap _) _ => apply hoare_unwrap
  | |- hoare _ (ok_or _ _) _ => apply hoare_ok_or; [assumption | done]
  end.

(** The computations whose result the rest of an instruction relies on. *)
Ltac informative m :=
  lazymatch m with
  | vec => idtac | vstart_now => idtac | active_length _ => idtac
  | get_element _ _ _ => idtac | x_reg _ => idtac | emul_or_illegal _ _ _ => idtac
  end.

Ltac hv_step :=
  lazymatch goal with
  | |- hoare _ (bind ?m _) _ =>
      first [ informative m; eapply hoare_bind; [hv_prim | intros ? ?; cbv beta in *]
            | eapply (hoare_bind _ _ _ (fun _ => True)); [| intros ? _] ]
  | |- hoare _ (if _ then _ else _) _ =>
      let G := fresh "G" in apply hoare_if; intros G; guards G
  | |- hoare _ (match ?x with _ => _ end) _ => destruct x
  | |- hoare _ (for_elements _ _ _ _ _) _ =>
      apply for_elements_any; [assumption | lia | lia | intros]
  | |- hoare _ (for_range _ _ _ _) _ => apply hoare_for_range_any; intros
  | |- _ => hv_prim
  end.
Ltac hv := cbv zeta; repeat (hv_step; cbv zeta).

(** The operation tables cover what the decoder sends to them. *)
Ltac total_tac :=
  unfold between, one_of; simpl; intros H; repeat (case_match; [by eexists|]);
  repeat match goal with E : (_ =? _) = false |- _ => apply Z.eqb_neq in E end; lia.

Lemma mask_logic_total funct6 a b :
  between 0x18 0x1f funct6 = true -> exists v, mask_logic funct6 a b = Some v.
Proof. unfold mask_logic. total_tac. Qed.
Lemma reduce_val_total sew funct6 a b :
  between 0x00 0x07 funct6 = true -> exists v, reduce_val sew funct6 a b = Some v.
Proof. unfold reduce_val. total_tac. Qed.
Lemma multiply_divide_val_total sew funct6 a b :
  between 0x20 0x27 funct6 = true -> exists v, multiply_divide_val sew funct6 a b = Some v.
Proof. unfold multiply_divide_val. cbv zeta. total_tac. Qed.
Lemma madd_val_total funct6 a b c :
  one_of funct6 [0x29; 0x2b; 0x2d; 0x2f] = true -> exists v, madd_val funct6 a b c = Some v.
Proof. unfold madd_val. cbv zeta. total_tac. Qed.
Lemma widen_product_total sew funct6 a b :
  one_of funct6 [0x38; 0x3a; 0x3b] = true -> exists v, widen_product sew funct6 a b = Some v.
Proof. unfold widen_product. total_tac. Qed.
Lemma widen_madd_product_total sew funct6 a b :
  between 0x3c 0x3f funct6 = true -> exists v, widen_madd_product sew funct6 a b = Some v.
Proof. unfold widen_madd_product. total_tac. Qed.
Lemma compare_val_total sew funct6 a b :
  between 0x18 0x1f funct6 = true -> exists v, compare_val sew funct6 a b = Some v.
Proof. unfold compare_val. total_tac. Qed.
Lemma binary_val_total sew funct6 format a b :
  supported_binary funct6 format = true -> between 0x18 0x1f funct6 = false ->
  exists v, binary_val sew funct6 a b = Some v.
Proof.
  intros Hs Hb. unfold supported_binary, one_of in Hs. cbn [existsb orb] in Hs.
  repeat match type of Hs with context [funct6 =? ?k] =>
    destruct (Z.eqb_spec funct6 k) as [->|?];
    [first [by vm_compute in Hb | by (unfold binary_val; simpl; eexists)] | cbn [orb] in Hs] end.
  done.
Qed.

Lemma supported_format funct6 format :
  supported_binary funct6 format = true -> one_of format [0; 3; 4] = true.
Proof.
  unfold supported_binary. generalize (one_of funct6). intros g. unfold one_of. cbn [existsb].
  rewrite !orb_false_r. repeat case_match; try done.
  all: destruct (format =? 0), (format =? 3), (format =? 4); done.
Qed.

Create HintDb vec_total.
#[local] Hint Resolve mask_logic_total reduce_val_total multiply_divide_val_total madd_val_total
  widen_product_total widen_madd_product_total compare_val_total : vec_total.

Ltac total :=
  match goal with |- exists v, ?o = Some v /\ True =>
    let E := fresh in assert (exists v, o = Some v) as [? E] by auto with vec_total;
    rewrite E; by eexists
  end.

Lemma guarded a b : a && negb b = false -> a = true -> b = true.
Proof. by intros H ->; apply negb_false_iff. Qed.

Lemma no_format f :
  one_of f [0; 3; 4] = true -> (f =? 0) = false -> (f =? 3) = false -> (f =? 4) = false -> False.
Proof. unfold one_of. cbn [existsb orb]. by intros H E0 E3 E4; rewrite E0, E3, E4 in H. Qed.

Section Ops.
Context (m : bool) (cfg : VectorConfig) (insn : Z) (Hinsn : uint 32 insn) (Hd : decoded cfg).
Abbreviation P := (vinv m cfg).

(** What every proof below starts from. *)
Lemma base_facts : fits cfg cfg.(sew) (lmul cfg) /\ 1 <= cfg.(vlmax) <= 128.
Proof using Hd. split; [by apply fits_lmul | by apply decoded_vlmax]. Qed.

Ltac start := pose proof base_facts as [Hl Hmax].

Lemma integer_groups_ok a b d :
  hoare P (integer_groups insn cfg a b d) (fun _ =>
    (a = false -> validate_group (rd insn) (lmul cfg) 1 = true)
    /\ (b = true -> validate_group (rs2 insn) (lmul cfg) 1 = true)
    /\ (d = true -> validate_group (rs1 insn) (lmul cfg) 1 = true)).
Proof using Hinsn.
  unfold integer_groups. cbv zeta. apply hoare_if; [intros _; by apply illegal_ok|]. intros G. guards G.
  apply hoare_ret. split_and!; intros ->; cbn [andb] in *.
  - match goal with H : _ && _ = true |- _ => by apply andb_true_iff in H as [? _] end.
  - by apply negb_false_iff.
  - by apply negb_false_iff.
Qed.

Lemma exec_vector_extension_ok : hoare P (exec_vector_extension insn cfg) (fun _ => True).
Proof using Hinsn Hd. start. unfold exec_vector_extension. hv. Qed.

Lemma exec_vector_gather_ei16_ok : hoare P (exec_vector_gather_ei16 insn cfg) (fun _ => True).
Proof using Hinsn Hd.
  start. unfold exec_vector_gather_ei16. hv.
Qed.

Lemma exec_vector_id_ok : hoare P (exec_vector_id insn cfg) (fun _ => True).
Proof using Hinsn Hd.
  start. unfold exec_vector_id. eapply hoare_bind; [apply integer_groups_ok|]. intros _ (Hr & _ & _).
  specialize (Hr eq_refl). hv.
Qed.

Lemma move_to_element_ok v : hoare P (move_to_element insn cfg v) (fun _ => True).
Proof using Hinsn Hd. start. unfold move_to_element. hv. Qed.

Lemma exec_vector_mask_logic_ok funct6 :
  between 0x18 0x1f funct6 = true -> hoare P (exec_vector_mask_logic insn cfg funct6) (fun _ => True).
Proof using Hinsn Hd.
  start. intros Hf. unfold exec_vector_mask_logic. hv.
  total.
Qed.

Lemma exec_vector_mask_prefix_ok : hoare P (exec_vector_mask_prefix insn cfg) (fun _ => True).
Proof using Hinsn Hd. start. unfold exec_vector_mask_prefix. hv. Qed.

Lemma exec_vector_iota_ok : hoare P (exec_vector_iota insn cfg) (fun _ => True).
Proof using Hinsn Hd. start. unfold exec_vector_iota. hv. Qed.

Lemma vector_or_scalar_ok rhs index eew k r :
  fits cfg eew r -> (rhs = true -> validate_group (rs1 insn) r 1 = true) -> 0 <= index < cfg.(vlmax) ->
  hoare P (vector_or_scalar rhs insn index eew k) (fun _ => True).
Proof using.
  intros Hf Hg Hi. unfold vector_or_scalar. hv. specialize (Hg G). hv_prim.
Qed.

Lemma shift_operand_ok format index o :
  ((format =? 0) = true -> validate_group (rs1 insn) (lmul cfg) 1 = true) ->
  one_of format [0; 3; 4] = true -> 0 <= index < cfg.(vlmax) ->
  hoare P (shift_operand format insn index cfg.(sew) o) (fun _ => True).
Proof using Hd.
  start. intros Hg Hf Hi. unfold shift_operand. hv.
  - specialize (Hg G). hv_prim.
  - by destruct (no_format format).
Qed.

Ltac operand :=
  lazymatch goal with
  | |- hoare _ (vector_or_scalar _ _ _ _ _) _ =>
      match goal with
      | F : fits _ ?e ?r |- hoare _ (vector_or_scalar _ _ _ ?e _) _ =>
          apply (vector_or_scalar_ok _ _ _ _ r F); [|lia]
      end; first [assumption | apply guarded; assumption]
  | |- hoare _ (shift_operand _ _ _ _ _) _ =>
      apply shift_operand_ok; [first [assumption | apply guarded; assumption]|assumption|lia]
  | |- exists v, _ = Some v /\ True => total
  end.
Ltac hvo := hv; try operand.

Lemma exec_vector_multiply_divide_ok funct6 rhs :
  between 0x20 0x27 funct6 = true ->
  hoare P (exec_vector_multiply_divide insn cfg funct6 rhs) (fun _ => True).
Proof using Hinsn Hd.
  start. intros Hf. unfold exec_vector_multiply_divide.
  eapply hoare_bind; [apply integer_groups_ok|]. intros _ (Hr & H2 & H1).
  specialize (Hr eq_refl). specialize (H2 eq_refl). hvo.
Qed.

Lemma exec_vector_integer_madd_ok funct6 :
  hoare P (exec_vector_integer_madd insn cfg funct6) (fun _ => True).
Proof using Hinsn Hd.
  start. unfold exec_vector_integer_madd. cbv zeta. hv_step; [by apply illegal_ok|].
  eapply hoare_bind; [apply integer_groups_ok|]. intros _ (Hr & H2 & H1).
  specialize (Hr eq_refl). specialize (H2 eq_refl). hvo.
Qed.

Lemma exec_vector_average_ok funct6 :
  hoare P (exec_vector_average insn cfg funct6) (fun _ => True).
Proof using Hinsn Hd.
  start. unfold exec_vector_average. cbv zeta. hv_step; [by apply illegal_ok|].
  eapply hoare_bind; [apply integer_groups_ok|]. intros _ (Hr & H2 & H1).
  specialize (Hr eq_refl). specialize (H2 eq_refl). hvo.
Qed.

Lemma exec_vector_fractional_multiply_ok :
  hoare P (exec_vector_fractional_multiply insn cfg) (fun _ => True).
Proof using Hinsn Hd.
  start. unfold exec_vector_fractional_multiply. cbv zeta. hv_step; [by apply illegal_ok|].
  eapply hoare_bind; [apply integer_groups_ok|]. intros _ (Hr & H2 & H1).
  specialize (Hr eq_refl). specialize (H2 eq_refl). hvo.
Qed.

Lemma exec_vector_scaling_shift_ok arithmetic :
  hoare P (exec_vector_scaling_shift insn cfg arithmetic) (fun _ => True).
Proof using Hinsn Hd.
  start. unfold exec_vector_scaling_shift. cbv zeta. hv_step; [by apply illegal_ok|].
  eapply hoare_bind; [apply integer_groups_ok|]. intros _ (Hr & H2 & H1).
  specialize (Hr eq_refl). specialize (H2 eq_refl). hvo.
Qed.

Lemma exec_vector_reduction_ok funct6 :
  between 0x00 0x07 funct6 = true -> hoare P (exec_vector_reduction insn cfg funct6) (fun _ => True).
Proof using Hinsn Hd. start. intros Hf. unfold exec_vector_reduction. hvo. Qed.

Lemma wide_width : (64 <? cfg.(sew) * 2) = false -> is_width (cfg.(sew) * 2) = true.
Proof using Hd.
  start. intros H%Z.ltb_ge. destruct Hl as [Hw _].
  by destruct (is_width_cases _ Hw) as [E|[E|[E|E]]]; rewrite E in *.
Qed.

Lemma exec_vector_widen_reduction_ok sgn :
  hoare P (exec_vector_widen_reduction insn cfg sgn) (fun _ => True).
Proof using Hinsn Hd.
  start. unfold exec_vector_widen_reduction. hv_step. cbv zeta.
  hv_step; [by apply illegal_ok|]. pose proof (wide_width ltac:(assumption)) as Hw.
  eapply hoare_bind; [apply get_element_ok, first_element; [done|reg_tac]|]. intros acc _. hvo.
  all: by apply put_element_ok, first_element; [|reg_tac].
Qed.

Lemma exec_vector_carry_ok funct6 : hoare P (exec_vector_carry insn cfg funct6) (fun _ => True).
Proof using Hinsn Hd.
  start. unfold exec_vector_carry. cbv zeta. hv_step; [by apply illegal_ok|].
  hv_step; [by apply illegal_ok|]. apply hoare_if; [intros _; by apply illegal_ok|]. intros Gd.
  assert ((funct3 insn =? 0) = true -> validate_group (rs1 insn) (lmul cfg) 1 = true) as H1
    by (apply guarded; assumption).
  hv.
  all: try (specialize (H1 ltac:(assumption)); hv_prim).
  - by destruct (no_format (funct3 insn)).
  - match goal with E : one_of funct6 [0x11; 0x13] = false |- _ => rewrite E in Gd end.
    apply put_element_ok. apply orb_false_iff in Gd as [[_ V%negb_false_iff]%orb_false_iff _]. elem.
Qed.

Lemma widen_facts wide left_ratio left_eew rhs :
  widen_illegal insn cfg wide left_ratio left_eew rhs = false ->
  validate_group (rd insn) wide 1 = true /\ validate_group (rs2 insn) left_ratio 1 = true
  /\ (rhs = true -> validate_group (rs1 insn) (lmul cfg) 1 = true).
Proof using.
  unfold widen_illegal. cbv zeta. intros G. guards G. split_and!; [done..|]. by apply guarded.
Qed.

Lemma exec_vector_widen_add_sub_ok funct6 :
  hoare P (exec_vector_widen_add_sub insn cfg funct6) (fun _ => True).
Proof using Hinsn Hd.
  start. unfold exec_vector_widen_add_sub. cbv zeta. hv_step; [by apply illegal_ok|]. hv_step.
  cbv beta zeta. hv_step; [by apply illegal_ok|].
  destruct (0x34 <=? funct6); hv_step; try (by apply illegal_ok);
    match goal with G : widen_illegal _ _ _ _ _ _ = false |- _ =>
      destruct (widen_facts _ _ _ _ G) as (? & ? & ?) end; hvo.
Qed.

Lemma exec_vector_widen_multiply_ok funct6 :
  hoare P (exec_vector_widen_multiply insn cfg funct6) (fun _ => True).
Proof using Hinsn Hd.
  start. unfold exec_vector_widen_multiply. cbv zeta. hv_step; [by apply illegal_ok|].
  hv_step; [by apply illegal_ok|]. hv_step. cbv beta zeta. hv_step; [by apply illegal_ok|].
  match goal with G : widen_illegal _ _ _ _ _ _ = false |- _ =>
    destruct (widen_facts _ _ _ _ G) as (? & ? & ?) end. hvo.
Qed.

Lemma exec_vector_widen_madd_ok funct6 :
  hoare P (exec_vector_widen_madd insn cfg funct6) (fun _ => True).
Proof using Hinsn Hd.
  start. unfold exec_vector_widen_madd. cbv zeta. hv_step; [by apply illegal_ok|].
  hv_step. cbv beta zeta. hv_step; [by apply illegal_ok|].
  match goal with G : widen_illegal _ _ _ _ _ _ = false |- _ =>
    destruct (widen_facts _ _ _ _ G) as (? & ? & ?) end. hvo.
Qed.

Lemma narrow_facts source format :
  narrow_illegal insn cfg source format = false ->
  one_of format [0; 3; 4] = true /\ validate_group (rd insn) (lmul cfg) 1 = true
  /\ validate_group (rs2 insn) source 1 = true
  /\ ((format =? 0) = true -> validate_group (rs1 insn) (lmul cfg) 1 = true).
Proof using.
  unfold narrow_illegal. cbv zeta. intros G. guards G. split_and!; [done..|]. by apply guarded.
Qed.

Lemma exec_vector_narrow_shift_ok arithmetic :
  hoare P (exec_vector_narrow_shift insn cfg arithmetic) (fun _ => True).
Proof using Hinsn Hd.
  start. unfold exec_vector_narrow_shift. cbv zeta. hv_step; [by apply illegal_ok|].
  hv_step. cbv beta zeta. hv_step; [by apply illegal_ok|].
  match goal with G : narrow_illegal _ _ _ _ = false |- _ =>
    destruct (narrow_facts _ _ G) as (? & ? & ? & ?) end. hvo.
Qed.

Lemma exec_vector_clip_ok sgn : hoare P (exec_vector_clip insn cfg sgn) (fun _ => True).
Proof using Hinsn Hd.
  start. unfold exec_vector_clip. cbv zeta. hv_step; [by apply illegal_ok|].
  hv_step. cbv beta zeta. hv_step; [by apply illegal_ok|].
  match goal with G : narrow_illegal _ _ _ _ = false |- _ =>
    destruct (narrow_facts _ _ G) as (? & ? & ? & ?) end. hvo.
Qed.

Lemma exec_vector_compress_ok : hoare P (exec_vector_compress insn cfg) (fun _ => True).
Proof using Hinsn Hd.
  start. unfold exec_vector_compress. cbv zeta. hv_step. hv_step; [by apply illegal_ok|].
  hv_step. cbv beta. hv_step; [hv_prim|]. eapply (hoare_bind _ _ _ (fun _ => True)); [|intros; hv_prim].
  eapply hoare_weaken; [apply (hoare_for_range _ (fun j output => 0 <= output <= j)); [|lia]|done].
  intros j output Hj Ho. hv_step; [hv_prim|]. hv_step.
  - hv_step. hv_step; [hv_prim|]. apply hoare_ret. lia.
  - apply hoare_ret. lia.
Qed.

Lemma active_bit_ok vm reg index :
  0 <= reg < 32 -> 0 <= index < 128 -> hoare P (active_bit vm reg index) (fun _ => True).
Proof using. intros. unfold active_bit. hv. Qed.

Lemma exec_vector_mask_query_ok : hoare P (exec_vector_mask_query insn cfg) (fun _ => True).
Proof using Hinsn Hd.
  start. unfold exec_vector_mask_query. cbv zeta. hv_step. hv_step; [by apply illegal_ok|].
  hv_step; [by apply illegal_ok|]. hv_step. cbv beta.
  eapply hoare_bind.
  - apply (hoare_for_range _ (fun j '(count, first) => 0 <= count <= j
      /\ match first with Some i => 0 <= i < 128 | None => True end)); [|by split].
    intros j [count first] Hj [Hc Hfi]. eapply hoare_bind; [apply active_bit_ok; [reg_range|lia]|].
    intros bit _. apply hoare_ret. destruct bit; [|by split; [lia|]].
    split; [lia|]. destruct first; [done|lia].
  - intros [count first] [Hc Hfi]. apply wr_vec_ok; [apply uint_rd|].
    destruct (rs1 insn =? 16); [unfold uint; zlia|]. destruct first; [unfold uint; zlia|uint_lit].
Qed.

Lemma sew_bytes : 1 <= cfg.(sew) / 8 /\ cfg.(sew) = 8 * (cfg.(sew) / 8).
Proof using Hd.
  start. destruct Hl as [Hw _].
  by destruct (is_width_cases _ Hw) as [E|[E|[E|E]]]; rewrite E.
Qed.

Lemma exec_vector_whole_move_ok : hoare P (exec_vector_whole_move insn cfg) (fun _ => True).
Proof using Hinsn Hd.
  start. unfold exec_vector_whole_move. cbv zeta. hv_step. hv_step; [by apply illegal_ok|].
  pose proof (proj1 (uint_rd insn)). pose proof (proj1 (uint_rs2 insn)). pose proof sew_bytes as [? ?].
  assert (0 <= rs1 insn) by apply uint_rs1. unfold VREG_COUNT in *.
  repeat match goal with E : (_ <? _) = false |- _ => apply Z.ltb_ge in E end.
  hv_step; [|hv]. hv_step; [|hv_prim]. hv_step. cbv beta. hv_step.
  match goal with H : context [j] |- _ => idtac end.
  match goal with H : ?s <= j < ?e |- _ => assert (0 <= j < (rs1 insn + 1) * 16) as Hj
    by (change VLEN_BYTES with 16 in H; nia) end.
  change VLEN_BYTES with 16.
  eapply hoare_bind; [apply hoare_unwrap, register_byte_wf; [done|unfold VREG_COUNT; zlia|change VLEN_BYTES with 16; zlia]|].
  intros byte Hb. apply set_flat_byte_ok; [lia|done].
Qed.

Lemma register_read_ok v reg (Q : list Z -> Prop) :
  regs_wf v.(vregs) -> uint 5 reg -> (forall row, arr 16 8 row -> Q row) ->
  hoare P (unwrap (register v reg)) Q.
Proof using.
  intros Hv Hr HQ. apply hoare_unwrap. unfold uint in Hr.
  destruct (register_wf v reg Hv) as (row & E & Ha); [unfold VREG_COUNT; lia|]. exists row. auto.
Qed.

Lemma set_register_ok reg row :
  arr 16 8 row -> hoare P (update_vec (set_register reg row)) (fun _ => True).
Proof using.
  intros Hr. apply hoare_modify. intros c Hc. apply (vinv_set_vregs m cfg c); [done|].
  apply (set_register_wf c.(vector)); [by eapply vinv_regs|done].
Qed.

Lemma row_slice_ok row s e :
  arr 16 8 row -> 0 <= s <= e -> e <= 16 ->
  exists bytes, slice row s e = Some bytes /\ arr (Z.to_nat (e - s)) 8 bytes.
Proof using.
  intros [Hl Hf] Hs He. unfold slice. rewrite Hl.
  destruct (Z.leb_spec s e); [|lia]. destruct (Z.leb_spec e (Z.of_nat 16)); [|lia]. simpl.
  eexists. split; [done|]. split; [rewrite length_take, length_drop; lia|].
  by apply Forall_take, Forall_drop.
Qed.

Lemma row_copy_ok row s e bytes :
  arr 16 8 row -> 0 <= s <= e -> e <= 16 -> arr (Z.to_nat (e - s)) 8 bytes ->
  exists row', copy_from_slice row s e bytes = Some row' /\ arr 16 8 row'.
Proof using.
  intros [Hl Hf] Hs He [Hb Hfb]. unfold copy_from_slice. rewrite Hl, Hb.
  destruct (Z.leb_spec s e); [|lia]. destruct (Z.leb_spec e (Z.of_nat 16)); [|lia].
  destruct (Z.eqb_spec (Z.of_nat (Z.to_nat (e - s))) (e - s)); [|lia]. simpl.
  eexists. split; [done|]. split; [rewrite !length_app, length_take, length_drop; lia|].
  apply Forall_app_2; [by apply Forall_take|]. apply Forall_app_2; [done|by apply Forall_drop].
Qed.

(** A single-register group: its elements fill at most one register. *)
Lemma single_group : (register_span (lmul cfg) =? 1) = true -> cfg.(vlmax) * (cfg.(sew) / 8) <= 16.
Proof using Hd. start. destruct Hl as (_ & _ & Hb). intros E%Z.eqb_eq. rewrite E in Hb. lia. Qed.

Lemma slide_bytes_ok funct6 selected vl row :
  cfg.(vlmax) * (cfg.(sew) / 8) <= 16 -> 0 <= vl <= cfg.(vlmax) -> 0 <= selected -> arr 16 8 row ->
  hoare P (slide_bytes insn cfg funct6 selected vl row) (fun _ => True).
Proof using Hinsn Hd.
  intros Hs Hvl Hsel Hrow. pose proof sew_bytes as [Hw _]. unfold slide_bytes. cbv zeta.
  hv_step. eapply hoare_bind; [by apply (register_read_ok _ _ (arr 16 8)); [|apply uint_rd|]|].
  intros dest Hdest. eapply (hoare_bind _ _ _ (arr 16 8)); [|intros ? ?; by apply set_register_ok].
  apply hoare_if; intros _.
  - apply hoare_if; intros Hc; [|by apply hoare_ret].
    eapply hoare_bind; [apply hoare_unwrap, row_slice_ok; [done|nia|nia]|]. intros bytes Hb.
    apply hoare_unwrap, row_copy_ok; [done|nia|nia|].
    replace (Z.to_nat (vl * (sew cfg / 8) - Z.min selected vl * (sew cfg / 8)))
      with (Z.to_nat ((vl - Z.min selected vl) * (sew cfg / 8) - 0)) by nia. done.
  - set (count := Z.min vl (Z.max 0 (vlmax cfg - selected))).
    eapply (hoare_bind _ _ _ (arr 16 8)).
    + apply hoare_if; intros Hc; [|by apply hoare_ret].
      assert (0 < count) by (apply negb_true_iff, Z.eqb_neq in Hc; lia).
      eapply hoare_bind; [apply hoare_unwrap, row_slice_ok; [done|nia|nia]|]. intros bytes Hb.
      apply hoare_unwrap, row_copy_ok; [done|nia|nia|].
      replace (Z.to_nat (count * (sew cfg / 8) - 0))
        with (Z.to_nat ((selected + count) * (sew cfg / 8) - selected * (sew cfg / 8))) by nia. done.
    + intros dest' Hd'. apply hoare_unwrap, row_copy_ok; [done|nia|nia|].
      apply arr_replicate. by apply uint_0.
Qed.

Lemma slide1_bytes_ok up vl scalar row :
  cfg.(vlmax) * (cfg.(sew) / 8) <= 16 -> 0 < vl <= cfg.(vlmax) -> arr 16 8 row ->
  hoare P (slide1_bytes insn cfg up vl scalar row) (fun _ => True).
Proof using Hinsn Hd.
  start. intros Hs Hvl Hrow. pose proof sew_bytes as [Hw He]. unfold slide1_bytes. cbv zeta.
  assert (sew cfg / 8 <= 8) as Hw8.
  { destruct Hl as [Hc _]. by destruct (is_width_cases _ Hc) as [E|[E|[E|E]]]; rewrite E. }
  hv_step. eapply hoare_bind; [by apply (register_read_ok _ _ (arr 16 8)); [|apply uint_rd|]|].
  intros dest Hdest. eapply (hoare_bind _ _ _ (arr (Z.to_nat (sew cfg / 8)) 8)).
  { apply hoare_unwrap. unfold slice. rewrite length_to_le_bytes.
    destruct (Z.leb_spec 0 (sew cfg / 8)); [|lia]. destruct (Z.leb_spec (sew cfg / 8) (Z.of_nat 8)); [|lia].
    eexists. split; [done|]. split; [rewrite length_take, length_drop, length_to_le_bytes; lia|].
    apply Forall_take, Forall_drop, to_le_bytes_bytes. }
  intros inserted Hi. eapply (hoare_bind _ _ _ (arr 16 8)); [|intros ? ?; by apply set_register_ok].
  apply hoare_if; intros _.
  - eapply hoare_bind; [apply hoare_unwrap, row_slice_ok; [done|nia|nia]|]. intros bytes Hb.
    eapply hoare_bind; [apply hoare_unwrap, row_copy_ok; [done|nia|nia|by rewrite Z.sub_0_r in Hb]|].
    intros dest' Hd'. apply hoare_unwrap, row_copy_ok; [done|lia|nia|by rewrite Z.sub_0_r].
  - eapply hoare_bind; [apply hoare_unwrap, row_slice_ok; [done|nia|nia]|]. intros bytes Hb.
    eapply hoare_bind; [apply hoare_unwrap, row_copy_ok; [done|nia|nia|by rewrite Z.sub_0_r]|].
    intros dest' Hd'. apply hoare_unwrap, row_copy_ok; [done|nia|nia|].
    by replace (_ - _) with (sew cfg / 8) by lia.
Qed.

Lemma snapshot_element_ok row v reg index :
  arr 16 8 row -> regs_wf v.(vregs) -> validate_group reg (lmul cfg) 1 = true -> uint 5 reg ->
  0 <= index < cfg.(vlmax) ->
  hoare P (snapshot_element (register_span (lmul cfg) =? 1) row v reg index cfg.(sew)) (uint cfg.(sew)).
Proof using Hd.
  start. intros Hrow Hv Hg Hr Hi. pose proof sew_bytes as [Hw He]. unfold snapshot_element.
  apply hoare_if; intros Hs; apply hoare_unwrap.
  - pose proof (single_group Hs). unfold read_single_register_element. rewrite (proj1 Hl).
    destruct (row_slice_ok row (index * (sew cfg / 8)) (index * (sew cfg / 8) + sew cfg / 8) Hrow)
      as (bytes & -> & Hb & Hf); [nia|nia|].
    eexists. split; [done|]. rewrite He at 1.
    replace (8 * (sew cfg / 8)) with (8 * Z.of_nat (length bytes)) by (rewrite Hb; lia).
    by apply from_le_bytes_range.
  - apply read_element_ok; [done|elem].
Qed.

Lemma exec_vector_slide_or_gather_ok funct6 format :
  one_of funct6 [0x0c; 0x0e; 0x0f] = true ->
  hoare P (exec_vector_slide_or_gather insn cfg funct6 format) (fun _ => True).
Proof using Hinsn Hd.
  start. intros Hf6. unfold exec_vector_slide_or_gather. cbv zeta.
  do 5 (apply hoare_if; [intros _; by apply illegal_ok|]; let G := fresh "G" in intros G; guards G).
  eapply (hoare_bind _ _ _ (fun x => 0 <= x)).
  { apply hoare_if; intros _; [apply hoare_ret, uint_rs1|].
    apply hoare_if; intros _; [|by apply hoare_ret].
    eapply hoare_weaken; [apply x_reg_ok, uint_rs1|]. by intros ? []. }
  intros scalar Hscalar. hv_step.
  eapply hoare_bind; [apply (register_read_ok _ _ (arr 16 8)); [done|apply uint_rs2|done]|]. intros row Hrow.
  eapply hoare_bind; [apply (register_read_ok _ _ (arr 16 8)); [done|apply uint_rs1|done]|]. intros irow Hirow.
  hv_step. hv_step. hv_step; [hv_prim|].
  apply hoare_if; intros Gs.
  { eapply (hoare_bind _ _ _ (fun _ => True)); [|intros; hv_prim].
    apply slide_bytes_ok; [|done..]. apply single_group. by repeat apply andb_true_iff in Gs as [Gs _]. }
  eapply (hoare_bind _ _ _ (fun _ => True)); [|intros; hv_prim].
  apply for_elements_any; [done|done|lia|]. intros j _ Hj.
  eapply (hoare_bind _ _ _ (fun x => 0 <= x)).
  { apply hoare_if; intros Gi; [|by apply hoare_ret].
    eapply hoare_weaken; [apply snapshot_element_ok; try done; [|apply uint_rs1]|by intros ? []].
    rewrite andb_comm in Gi. match goal with G : _ && negb _ = false |- _ => by apply (guarded _ _ G) end. }
  intros selected Hsel. eapply (hoare_bind _ _ _ (fun _ => True)).
  { repeat (apply hoare_if; intros ?; [by apply hoare_ret|]). exfalso.
    unfold one_of in Hf6. cbn [existsb orb] in Hf6.
    repeat match goal with E : (funct6 =? _) = false |- _ => rewrite E in Hf6 end. done. }
  intros si _. apply hoare_if; intros _; [by apply hoare_ret|].
  eapply (hoare_bind _ _ _ (fun _ => True)); [|intros; hv_prim].
  apply hoare_if; intros Gb; [|by apply hoare_ret].
  eapply hoare_weaken; [apply snapshot_element_ok; try done; [apply uint_rs2|]|done].
  apply andb_true_iff in Gb as [? ?]. lia.
Qed.

Lemma exec_vector_slide1_ok up : hoare P (exec_vector_slide1 insn cfg up) (fun _ => True).
Proof using Hinsn Hd.
  start. unfold exec_vector_slide1. cbv zeta. hv_step; [by apply illegal_ok|]. hv_step.
  eapply hoare_bind; [apply (register_read_ok _ _ (arr 16 8)); [done|apply uint_rs2|done]|]. intros row Hrow.
  hv_step. hv_step. hv_step. hv_step; [hv_prim|]. cbv beta in *.
  apply hoare_if; intros Gs.
  { apply andb_true_iff in Gs as [[[Gs _]%andb_true_iff _]%andb_true_iff Hn%negb_true_iff%Z.eqb_neq].
    eapply (hoare_bind _ _ _ (fun _ => True)); [|intros; hv_prim].
    apply slide1_bytes_ok; [by apply single_group|lia|done]. }
  eapply (hoare_bind _ _ _ (fun _ => True)); [|intros; hv_prim].
  apply (for_elements_ok m cfg Hd (fun _ _ => True)); try done; [lia|]. intros j _ Hj Hj' _.
  eapply (hoare_bind _ _ _ (fun _ => True)); [|intros; hv_prim].
  hv; (eapply hoare_weaken; [apply snapshot_element_ok; try done; [apply uint_rs2|]|done]).
  - match goal with E : (j =? 0) = false |- _ => apply Z.eqb_neq in E end. lia.
  - match goal with E : (j + 1 =? _) = false |- _ => apply Z.eqb_neq in E end. lia.
Qed.

Lemma bitwise_chunk_ok funct6 n offset :
  0 <= n -> 0 <= offset -> rd insn * 16 + offset + n <= 512 -> rs2 insn * 16 + offset + n <= 512 ->
  rs1 insn * 16 + offset + n <= 512 ->
  hoare P (bitwise_chunk funct6 (rd insn) (rs2 insn) (rs1 insn) n offset) (fun _ => True).
Proof using.
  intros Hn Ho Hb1 Hb2 Hb3 c Hc. pose proof (vinv_regs m cfg c Hc) as Hv.
  pose proof (proj1 (uint_rd insn)). pose proof (proj1 (uint_rs1 insn)). pose proof (proj1 (uint_rs2 insn)).
  unfold bitwise_chunk, bind, vec, gets. change VLEN_BYTES with 16.
  rewrite !ptr_read_ok by (done || lia). cbn [unwrap ret].
  match goal with |- context [ptr_write _ ?o ?b] => set (bs := b); set (off := o) end.
  assert (length bs = Z.to_nat n) as Hl by apply length_to_le_bytes.
  destruct (ptr_write c.(vector) off bs) as [v'|] eqn:E.
  - destruct (ptr_write_wf c.(vector) off bs v' Hv) as (Hr & _ & Hs);
      [unfold off; lia|rewrite Hl; unfold off; lia|apply to_le_bytes_bytes|done|].
    cbn [unwrap ret]. split; [|done]. rewrite Hs. by apply vinv_set_vregs.
  - rewrite ptr_write_ok in E; [done|done|unfold off; lia|rewrite Hl; unfold off; lia].
Qed.

Lemma exec_vector_integer_binary_ok funct6 format :
  hoare P (exec_vector_integer_binary insn cfg funct6 format) (fun _ => True).
Proof using Hinsn Hd.
  start. unfold exec_vector_integer_binary. cbv zeta.
  apply hoare_if; [intros _; by apply illegal_ok|]. intros Gsup.
  apply hoare_if; [intros _; by apply illegal_ok|]. intros Gz.
  eapply hoare_bind; [apply integer_groups_ok|]. intros _ (Hr & H2 & H1).
  hv_step. hv_step. hv_step; [hv_prim|]. cbv beta in *. pose proof sew_bytes as [Hw _].
  apply hoare_if; intros Gb.
  { apply andb_true_iff in Gb as [[[Hvm _]%andb_true_iff Hf0]%andb_true_iff Hf6].
    specialize (H1 Hf0). unfold between in *.
    assert (validate_group (rd insn) (lmul cfg) 1 = true) as Hrd by (apply Hr; lia).
    assert (validate_group (rs2 insn) (lmul cfg) 1 = true) as Hr2.
    { apply H2. apply orb_true_iff. left. apply negb_true_iff, andb_false_iff. left. lia. }
    destruct Hl as (_ & Hsp & Hb).
    pose proof (group_end _ _ 1 0 Hrd Hsp ltac:(lia)). pose proof (group_end _ _ 1 0 Hr2 Hsp ltac:(lia)).
    pose proof (group_end _ _ 1 0 H1 Hsp ltac:(lia)).
    assert (a0 * (sew cfg / 8) <= 16 * register_span (lmul cfg)) by nia.
    set (n := a0 * (sew cfg / 8)) in *. assert (0 <= n) by (unfold n; nia). clearbody n.
    eapply (hoare_bind _ _ _ (fun _ => True)); [|intros; hv_prim].
    eapply (hoare_bind _ _ _ (fun _ => True)); [|intros ? _];
      apply hoare_for_range_any; intros j _ Hj; apply bitwise_chunk_ok; zlia. }
  assert (one_of format [0; 3; 4] = true) as Hfmt.
  { destruct (supported_binary funct6 format) eqn:Es; [by apply supported_format in Es|].
    destruct (funct6 =? 23), (one_of format [0; 3; 4]); done. }
  set (mm := (funct6 =? 23) && one_of format [0; 3; 4]) in *.
  assert (mm = false -> supported_binary funct6 format = true) as Hsup.
  { intros ->. by destruct (supported_binary funct6 format). }
  clearbody mm. hv; try (unfold binary_operand; hv); try total.
  - rewrite G in *. specialize (H2 ltac:(by destruct mm, (masked insn))). hv_prim.
  - specialize (H1 ltac:(assumption)). hv_prim.
  - by destruct (no_format format).
  - destruct (binary_val_total (sew cfg) funct6 format a2 (a3 .& element_mask (sew cfg))) as [v ->]; [auto..|].
    by exists v.
  - specialize (Hr ltac:(assumption)). hv_prim.
Qed.

Lemma exec_vector_integer_ok' : hoare P (Integer.exec_vector_integer insn cfg) (fun _ => True).
Proof using Hinsn Hd.
  start. unfold Integer.exec_vector_integer. cbv zeta.
  repeat lazymatch goal with
    | |- hoare _ (if _ then _ else _) _ => apply hoare_if; intros ?
    | |- hoare _ (illegal _) _ => by apply illegal_ok
    end.
  all: repeat match goal with E : _ && _ = true |- _ => apply andb_true_iff in E as [? ?] end.
  all: lazymatch goal with
    | |- hoare _ (exec_vector_whole_move _ _) _ => by apply exec_vector_whole_move_ok
    | |- hoare _ (exec_vector_integer_binary _ _ _ _) _ => by apply exec_vector_integer_binary_ok
    | |- hoare _ (exec_vector_slide1 _ _ _) _ => by apply exec_vector_slide1_ok
    | |- hoare _ (exec_vector_gather_ei16 _ _) _ => by apply exec_vector_gather_ei16_ok
    | |- hoare _ (exec_vector_slide_or_gather _ _ _ _) _ => by apply exec_vector_slide_or_gather_ok
    | |- hoare _ (exec_vector_extension _ _) _ => by apply exec_vector_extension_ok
    | |- hoare _ (exec_vector_id _ _) _ => by apply exec_vector_id_ok
    | |- hoare _ (exec_vector_mask_query _ _) _ => by apply exec_vector_mask_query_ok
    | |- hoare _ (exec_vector_mask_prefix _ _) _ => by apply exec_vector_mask_prefix_ok
    | |- hoare _ (exec_vector_iota _ _) _ => by apply exec_vector_iota_ok
    | |- hoare _ (exec_vector_compress _ _) _ => by apply exec_vector_compress_ok
    | |- hoare _ (exec_vector_mask_logic _ _ _) _ => by apply exec_vector_mask_logic_ok
    | |- hoare _ (exec_vector_reduction _ _ _) _ => by apply exec_vector_reduction_ok
    | |- hoare _ (exec_vector_widen_reduction _ _ _) _ => by apply exec_vector_widen_reduction_ok
    | |- hoare _ (exec_vector_carry _ _ _) _ => by apply exec_vector_carry_ok
    | |- hoare _ (exec_vector_multiply_divide _ _ _ _) _ => by apply exec_vector_multiply_divide_ok
    | |- hoare _ (exec_vector_widen_add_sub _ _ _) _ => by apply exec_vector_widen_add_sub_ok
    | |- hoare _ (exec_vector_widen_multiply _ _ _) _ => by apply exec_vector_widen_multiply_ok
    | |- hoare _ (exec_vector_widen_madd _ _ _) _ => by apply exec_vector_widen_madd_ok
    | |- hoare _ (exec_vector_integer_madd _ _ _) _ => by apply exec_vector_integer_madd_ok
    | |- hoare _ (exec_vector_average _ _ _) _ => by apply exec_vector_average_ok
    | |- hoare _ (exec_vector_fractional_multiply _ _) _ => by apply exec_vector_fractional_multiply_ok
    | |- hoare _ (exec_vector_scaling_shift _ _ _) _ => by apply exec_vector_scaling_shift_ok
    | |- hoare _ (exec_vector_narrow_shift _ _ _) _ => by apply exec_vector_narrow_shift_ok
    | |- hoare _ (exec_vector_clip _ _ _) _ => by apply exec_vector_clip_ok
    | |- _ => idtac
    end.
  - hv_step. apply move_to_element_ok.
  - hv_step. hv_step; [|hv_prim]. apply wr_vec_ok; [apply uint_rd|apply uint_u64].
Qed.
End Ops.

(** ** Reciprocal estimates

    Normalizing a subnormal ends, and the table index is seven bits wide. *)

Section Estimates.
Context (E F : Z) (HF : 8 <= F <= 52) (HE : 2 <= E <= 11).

Lemma estimate_normalize_total fuel exponent fraction :
  0 < fraction -> 2 ^ (F - 1) <= fraction * 2 ^ Z.of_nat fuel -> fraction < 2 ^ F ->
  exists e f, estimate_normalize F fuel exponent fraction = Some (e, f) /\ 0 <= f < 2 ^ F.
Proof using HF.
  revert exponent fraction. induction fuel as [|fuel IH]; intros exponent fraction Hp Hb Hlt.
  - cbn [estimate_normalize]. change (Z.of_nat 0) with 0 in Hb. rewrite Z.mul_1_r in Hb.
    rewrite Z.shiftr_div_pow2 by lia.
    destruct (Z.eqb_spec (fraction / 2 ^ (F - 1)) 0) as [E0|_]; [|exists exponent, fraction; split; [done|lia]].
    apply Z.div_small_iff in E0; lia.
  - cbn [estimate_normalize]. rewrite Z.shiftr_div_pow2 by lia.
    destruct (Z.eqb_spec (fraction / 2 ^ (F - 1)) 0) as [E0|_]; [|exists exponent, fraction; split; [done|lia]].
    apply Z.div_small_iff in E0; [|lia]. assert (fraction < 2 ^ (F - 1)) as Hl by lia.
    assert (2 ^ F = 2 * 2 ^ (F - 1)) as HF2 by (rewrite <- Z.pow_succ_r by lia; f_equal; lia).
    assert (2 ^ F <= 2 ^ 52) by (apply Z.pow_le_mono_r; lia).
    assert (shl64 fraction 1 = 2 * fraction) as ->.
    { unfold shl64, u64, wrap. rewrite Z.shiftl_mul_pow2 by lia. rewrite Z.mod_small; zlia. }
    apply IH; [lia| |lia]. rewrite Nat2Z.inj_succ, Z.pow_succ_r in Hb by lia. lia.
Qed.

Lemma estimate_subnormal_total exponent fraction :
  0 <= fraction < 2 ^ F -> exponent <> 0 \/ fraction <> 0 ->
  exists e f, estimate_subnormal F exponent fraction = Some (e, f) /\ 0 <= f < 2 ^ F.
Proof using HF.
  intros Hf Hz. unfold estimate_subnormal. destruct (Z.eqb_spec exponent 0); [|by eexists _, _].
  destruct (estimate_normalize_total (Z.to_nat F) exponent fraction) as (e' & f' & -> & _); [lia| |lia|].
  - rewrite Z2Nat.id by lia. assert (2 ^ (F - 1) <= 2 ^ F) by (apply Z.pow_le_mono_r; lia). nia.
  - simpl. eexists _, _. split; [done|]. rewrite Z.shiftl_1_l, Z.sub_1_r, <- Z.ones_equiv, Z.land_ones by lia.
    apply Z.mod_pos_bound. lia.
Qed.

(** The top [k] bits of a fraction. *)
Lemma fraction_top f k : 0 <= f < 2 ^ F -> 0 <= k <= F -> 0 <= f .>> (F - k) < 2 ^ k.
Proof using HF.
  intros Hf Hk. rewrite Z.shiftr_div_pow2 by lia. split; [apply Z.div_pos; lia|].
  apply Z.div_lt_upper_bound; [lia|]. rewrite <- Z.pow_add_r by lia.
  replace (F - k + k) with F by lia. lia.
Qed.

Lemma fp_parts value :
  let '(s, e, f) := fp_estimate_parts E F value in 0 <= e /\ 0 <= f < 2 ^ F.
Proof using HF HE.
  unfold fp_estimate_parts. cbv zeta. rewrite !Z.shiftl_1_l, !Z.sub_1_r, <- !Z.ones_equiv, !Z.land_ones by lia.
  split; apply Z.mod_pos_bound; lia.
Qed.

Lemma rvv_frsqrt7_total value flags : exists r, rvv_frsqrt7 E F value flags = Some r.
Proof using HF HE.
  unfold rvv_frsqrt7. pose proof (fp_parts value) as Hp.
  destruct (fp_estimate_parts E F value) as [[s e] f], Hp as [He Hf]. cbv zeta.
  destruct (_ && _); [by eexists|]. destruct (_ && _); [by eexists|].
  destruct ((e =? 0) && (f =? 0)) eqn:Ez; [by eexists|]. destruct (e =? (1 .<< E) - 1); [by eexists|].
  destruct (estimate_subnormal_total e f Hf) as (e' & f' & -> & Hf'); [lia|]. simpl.
  pose proof (fraction_top f' 6 Hf' ltac:(lia)) as Ht.
  destruct (lookup_lt_is_Some_2 FRSQRT7_TABLE (Z.to_nat (((e' .& 1) .<< 6) .| (f' .>> (F - 6))))) as [x ->];
    [|by eexists].
  assert (uint 7 (((e' .& 1) .<< 6) .| (f' .>> (F - 6)))) as Hu.
  { apply uint_lor; [lia| |apply (uint_mono 6); [lia|exact Ht]].
    rewrite (land_ones_lit e' 1 1) by done. pose proof (Z.mod_pos_bound e' (2 ^ 1) ltac:(lia)).
    rewrite Z.shiftl_mul_pow2 by lia. unfold uint. zlia. }
  unfold uint in Hu. change (length FRSQRT7_TABLE) with 128%nat. zlia.
Qed.

Lemma rvv_frec7_total value rm flags : exists r, rvv_frec7 E F value rm flags = Some r.
Proof using HF HE.
  unfold rvv_frec7. pose proof (fp_parts value) as Hp.
  destruct (fp_estimate_parts E F value) as [[s e] f], Hp as [He Hf]. cbv zeta.
  destruct (_ && _); [by eexists|].
  destruct ((e =? 0) && (f =? 0)) eqn:Ez; [by eexists|]. destruct (e =? (1 .<< E) - 1); [by eexists|].
  destruct (estimate_subnormal_total e f Hf) as (e' & f' & -> & Hf'); [lia|]. simpl.
  destruct ((e =? 0) && negb (e' =? 0) && negb (e' =? U64_MAX)); [by eexists|].
  pose proof (fraction_top f' 7 Hf' ltac:(lia)) as Ht.
  destruct (lookup_lt_is_Some_2 FREC7_TABLE (Z.to_nat (f' .>> (F - 7)))) as [x ->].
  - change (length FREC7_TABLE) with 128%nat. zlia.
  - simpl. destruct (if _ || _ then _ else _) as [? ?]. by eexists.
Qed.
End Estimates.

(** ** Floating point *)

Lemma float_unary_total sew selector source rm flags :
  one_of selector [0; 4; 5; 0x10] = true -> uint 64 source ->
  exists r, float_unary_val sew selector source rm flags = Some r.
Proof.
  intros Hs Hsrc. unfold float_unary_val. cbv zeta. destruct (sew =? 32).
  - destruct (selector =? 0) eqn:E0.
    { destruct (sqrt_total 32 23 8 ltac:(lia) ltac:(lia) ltac:(lia) ltac:(lia)
        (u32 source) rm flags (uint_u32 _)) as (r & fl & E & _). by exists (r, fl). }
    destruct (selector =? 4) eqn:E4; [apply rvv_frsqrt7_total; lia|].
    destruct (selector =? 5) eqn:E5; [apply rvv_frec7_total; lia|].
    destruct (selector =? 16) eqn:E16; [by eexists|].
    unfold one_of in Hs. cbn [existsb orb] in Hs. by rewrite E0, E4, E5, E16 in Hs.
  - destruct (selector =? 0) eqn:E0.
    { destruct (sqrt_total 64 52 11 ltac:(lia) ltac:(lia) ltac:(lia) ltac:(lia)
        source rm flags Hsrc) as (r & fl & E & _). by exists (r, fl). }
    destruct (selector =? 4) eqn:E4; [apply rvv_frsqrt7_total; lia|].
    destruct (selector =? 5) eqn:E5; [apply rvv_frec7_total; lia|].
    destruct (selector =? 16) eqn:E16; [by eexists|].
    unfold one_of in Hs. cbn [existsb orb] in Hs. by rewrite E0, E4, E5, E16 in Hs.
Qed.

Lemma float_widen_val_total funct6 a b rm flags :
  one_of funct6 [0x30; 0x32; 0x34; 0x36; 0x38] = true ->
  exists r, float_widen_val funct6 a b rm flags = Some r.
Proof.
  unfold float_widen_val, one_of. cbn [existsb orb].
  destruct (funct6 =? 0x30), (funct6 =? 0x32), (funct6 =? 0x34), (funct6 =? 0x36), (funct6 =? 0x38);
    simpl; intros; try done; by eexists.
Qed.

Lemma vector_fp_binary_reduce sew k a b rm flags :
  one_of sew [32; 64] = true -> k = 0x04 \/ k = 0x06 \/ k = 0x00 ->
  exists r, vector_fp_binary sew k a b rm flags = Some r.
Proof.
  unfold vector_fp_binary, one_of. cbn [existsb orb]. cbv zeta.
  destruct (sew =? 32); [|destruct (sew =? 64); [|done]];
    intros _ [->|[->| ->]]; simpl; by eexists.
Qed.

Section FloatOps.
Context (m : bool) (cfg : VectorConfig) (insn : Z) (Hinsn : uint 32 insn) (Hd : decoded cfg).
Abbreviation P := (vinv m cfg).
Ltac start := pose proof (base_facts cfg Hd) as [Hl Hmax].

Lemma sew_uint x : uint cfg.(sew) x -> uint 64 x.
Proof using Hd.
  start. apply uint_mono. destruct Hl as [Hw _].
  destruct (is_width_cases _ Hw) as [E|[E|[E|E]]]; rewrite E; lia.
Qed.

Lemma exec_vector_float_unary_ok selector :
  hoare P (exec_vector_float_unary insn cfg selector) (fun _ => True).
Proof using Hinsn Hd.
  start. unfold exec_vector_float_unary. hv.
  match goal with |- exists a, ?o = Some a /\ True => assert (exists r, o = Some r) as [r ->]; [|by exists r] end.
  apply float_unary_total; [done|by apply sew_uint].
Qed.

Lemma exec_vector_float_convert_ok selector :
  hoare P (exec_vector_float_convert insn cfg selector) (fun _ => True).
Proof using Hinsn Hd. start. unfold exec_vector_float_convert. hv. Qed.

Lemma scalar_or_element_ok s reg index eew :
  (s = None -> element_ok reg index eew) -> hoare P (scalar_or_element s reg index eew) (fun _ => True).
Proof using. intros He. unfold scalar_or_element. hv. eapply hoare_weaken; [by apply get_element_ok, He|done]. Qed.

(** A scalar operand is absent exactly for the vector form. *)
Lemma float_scalar_ok rhs reg :
  hoare P (float_scalar rhs reg cfg.(sew)) (fun s => s = None -> rhs = true).
Proof using.
  unfold float_scalar. apply hoare_if; intros G; [by apply hoare_ret|].
  eapply hoare_bind; [apply scalar_float_bits_ok|]. intros s _. by apply hoare_ret.
Qed.

Lemma exec_vector_float_widen_binary_ok funct6 :
  hoare P (exec_vector_float_widen_binary insn cfg funct6) (fun _ => True).
Proof using Hinsn Hd.
  start. unfold exec_vector_float_widen_binary. cbv zeta. hv_step; [by apply illegal_ok|].
  hv_step; [by apply illegal_ok|]. hv_step. cbv beta.
  destruct (one_of funct6 [0x34; 0x36]); hv_step; try (by apply illegal_ok);
    match goal with G : widen_illegal _ _ _ _ _ _ = false |- _ =>
      destruct (widen_facts _ _ _ _ _ _ G) as (? & ? & ?) end;
    (hv_step; [hv_prim|]); (eapply hoare_bind; [apply float_scalar_ok|]); intros s Hs; hv;
    try (apply scalar_or_element_ok; intros E; specialize (Hs E); specialize (H2 Hs); elem);
    (match goal with |- exists a, ?o = Some a /\ True => assert (exists r, o = Some r) as [r ->]; [|by exists r] end);
    by apply float_widen_val_total.
Qed.

Lemma exec_vector_float_widen_fma_ok funct6 :
  hoare P (exec_vector_float_widen_fma insn cfg funct6) (fun _ => True).
Proof using Hinsn Hd.
  start. unfold exec_vector_float_widen_fma. cbv zeta. hv_step; [by apply illegal_ok|].
  hv_step; [by apply illegal_ok|]. hv_step. cbv beta. hv_step; [by apply illegal_ok|].
  match goal with G : widen_illegal _ _ _ _ _ _ = false |- _ =>
    destruct (widen_facts _ _ _ _ _ _ G) as (? & ? & ?) end.
  hv_step; [hv_prim|]. eapply hoare_bind; [apply float_scalar_ok|]. intros s Hs. hv.
  apply scalar_or_element_ok. intros E. specialize (Hs E). specialize (H2 Hs). elem.
Qed.

Lemma exec_vector_float_widen_reduction_ok :
  hoare P (exec_vector_float_widen_reduction insn cfg) (fun _ => True).
Proof using Hinsn Hd.
  start. unfold exec_vector_float_widen_reduction. cbv zeta. hv_step. hv_step; [by apply illegal_ok|].
  assert (is_width (sew cfg * 2) = true) as Hw.
  { match goal with E : _ && _ = true |- _ => apply andb_true_iff, proj1, Z.eqb_eq in E; by rewrite E end. }
  hv_step; [hv_prim|]. eapply hoare_bind; [apply get_element_ok, first_element; [done|reg_tac]|].
  intros acc _. hv. by apply put_element_ok, first_element; [|reg_tac].
Qed.

Lemma move_from_element_ok : hoare P (move_from_element insn cfg) (fun _ => True).
Proof using Hd.
  start. unfold move_from_element. hv_step. hv_step; [|hv].
  apply vinv_modify; [|done..]. intros c [Hc _]. apply wf_set_fr; [done|].
  destruct (_ =? 32); [|by apply sew_uint].
  apply uint_lor; [lia|uint_lit|]. apply (uint_mono 32); [lia|apply uint_u32].
Qed.

Lemma exec_vector_float_merge_ok : hoare P (exec_vector_float_merge insn cfg) (fun _ => True).
Proof using Hinsn Hd.
  start. unfold exec_vector_float_merge. cbv zeta. hv_step; [by apply illegal_ok|].
  destruct (masked insn) eqn:Em; cbn [negb andb] in *;
    repeat match goal with E : negb _ = false |- _ => apply negb_false_iff in E end; hv.
  eapply hoare_weaken; [apply get_element_ok|done]. rewrite (proj1 (Z.eqb_eq _ _) G3).
  pose proof (sew_bytes cfg Hd) as [Hw _]. destruct Hl as (Hi & Hs & Hb).
  pose proof (group_end _ _ 1 0 G Hs ltac:(lia)). pose proof (proj1 (uint_rd insn)).
  split_and!; [done|lia|lia|nia].
Qed.

Lemma exec_vector_float_slide1_ok funct6 : hoare P (exec_vector_float_slide1 insn cfg funct6) (fun _ => True).
Proof using Hinsn Hd.
  start. unfold exec_vector_float_slide1. cbv zeta. hv_step; [by apply illegal_ok|]. hv_step.
  hv_step; [hv_prim|]. hv_step. hv_step. cbv beta in *. hv_step; [hv_prim|]. hv_step; [|hv].
  hv_step. hv_step.
  - hv. unfold register_bit. unfold masked in *.
    destruct (bit_byte 0 j ltac:(lia) ltac:(lia)) as [Hr' Hi'].
    destruct (register_byte_wf a 0 (j .>> 3)) as (b & -> & _); [done..|]. by eexists.
  - hv.
    all: match goal with |- exists x, read_element ?v ?r ?i ?e = Some x /\ True =>
      assert (element_ok r i e) as He; [|destruct (read_element_ok v r i e ltac:(done) He) as (? & -> & _); by eexists] end.
    all: repeat match goal with E : (_ =? _) = false |- _ => apply Z.eqb_neq in E end; elem.
Qed.

Lemma exec_vector_float_reduction_ok funct6 :
  one_of cfg.(sew) [32; 64] = true -> hoare P (exec_vector_float_reduction insn cfg funct6) (fun _ => True).
Proof using Hinsn Hd.
  start. intros Hw. unfold exec_vector_float_reduction. hv.
  match goal with |- exists a, ?o = Some a /\ True => assert (exists r, o = Some r) as [r ->]; [|by exists r] end.
  apply vector_fp_binary_reduce; [done|]. destruct (funct6 =? 5), (funct6 =? 7); auto.
Qed.

Lemma exec_vector_float_arith_ok format funct6 :
  hoare P (exec_vector_float_arith insn cfg format funct6) (fun _ => True).
Proof using Hinsn Hd.
  start. unfold exec_vector_float_arith. cbv zeta. hv_step; [by apply illegal_ok|].
  assert (one_of funct6 [24; 25; 27; 28; 29; 31] = false -> validate_group (rd insn) (lmul cfg) 1 = true) as Hrd.
  { intros E. rewrite E in *. match goal with G : _ && negb (masked_overlap _ _ _) = true |- _ =>
      by apply andb_true_iff in G as [? _] end. }
  hv_step; [hv|]. eapply hoare_bind; [apply float_scalar_ok|]. intros s Hs. hv.
  - apply scalar_or_element_ok. intros E. apply Hs in E.
    match goal with G : one_of format _ = true |- _ => unfold one_of in G; cbn [existsb] in G end.
    destruct (format =? 1), (format =? 5); cbn [negb orb andb] in *; try done.
    match goal with G : negb _ = false |- _ => apply negb_false_iff in G end. elem.
  - specialize (Hrd ltac:(assumption)). hv_prim.
  - specialize (Hrd ltac:(assumption)). hv_prim.
Qed.

Lemma fp_check_vok : hoare P (fp_check insn) (fun _ => True).
Proof using Hinsn.
  intros c Hc. unfold fp_check. by destruct (sys c) as [s|]; [destruct (_ =? 0)|].
Qed.

Lemma exec_vector_float_ok' : hoare P (Float.exec_vector_float insn cfg) (fun _ => True).
Proof using Hinsn Hd.
  start. unfold Float.exec_vector_float. cbv zeta.
  eapply (hoare_bind _ _ _ (fun _ => True)); [apply fp_check_vok|]. intros _ _.
  repeat lazymatch goal with
    | |- hoare _ (if _ then _ else _) _ => apply hoare_if; intros ?
    | |- hoare _ (illegal _) _ => by apply illegal_ok
    end.
  all: repeat match goal with
    | E : _ && _ = true |- _ => apply andb_true_iff in E as [? ?]
    | E : negb (one_of (sew _) _) = false |- _ => apply negb_false_iff in E
    end.
  all: lazymatch goal with
    | |- hoare _ (exec_vector_float_convert _ _ _) _ => by apply exec_vector_float_convert_ok
    | |- hoare _ (exec_vector_float_unary _ _ _) _ => by apply exec_vector_float_unary_ok
    | |- hoare _ (exec_vector_float_widen_binary _ _ _) _ => by apply exec_vector_float_widen_binary_ok
    | |- hoare _ (exec_vector_float_widen_fma _ _ _) _ => by apply exec_vector_float_widen_fma_ok
    | |- hoare _ (exec_vector_float_widen_reduction _ _) _ => by apply exec_vector_float_widen_reduction_ok
    | |- hoare _ (move_from_element _ _) _ => by apply move_from_element_ok
    | |- hoare _ (exec_vector_float_merge _ _) _ => by apply exec_vector_float_merge_ok
    | |- hoare _ (exec_vector_float_slide1 _ _ _) _ => by apply exec_vector_float_slide1_ok
    | |- hoare _ (exec_vector_float_reduction _ _ _) _ => by apply exec_vector_float_reduction_ok
    | |- hoare _ (exec_vector_float_arith _ _ _ _) _ => by apply exec_vector_float_arith_ok
    | |- _ => idtac
    end.
  hv_step; [hv_prim|]. by apply move_to_element_ok.
Qed.
End FloatOps.
