(* ===== verification/VecMemOk.v ===== *)
(** * Vector loads and stores keep the hart invariant

    A memory instruction touches the register file element by element or, on
    the direct paths, run by run; it may stop at any element with a fault, with
    vstart at that element, or shorten vl.  In every case the invariant holds,
    the register file is never left, and the page loop ends. *)

From S2P Require Import Prelude Exception Decode Compressed Csr State Bus Mmu Trap CsrOps.
From S2P Require Import Vector SoftFp Exec Step VecBase VecInt VecFloat VecMem.
From S2P Require Import Wf SoftFpSpec RvcEquiv SafeMem SafeCsr SafeExec VecSafe VecOk.

(** ** Memory does not touch the vector state *)

Section KeepsVector.
Context {B : Type} `{Bus B}.
Abbreviation keeps := (steady (fun s : Cpu * B => vector (fst s))).

Lemma keeps_on_snd {A} (f : Hart B A) : keeps (on_snd f).
Proof. intros [c b]. unfold on_snd. cbn [fst snd]. by destruct (f b). Qed.

Lemma keeps_map_err {A} g (f : Hart (Cpu * B) A) : keeps f -> keeps (map_err g f).
Proof. intros Hf s. specialize (Hf s). unfold map_err. by destruct (f s) as [[]]. Qed.

Lemma keeps_fill va pa store : keeps (modify (fun '(c, b) => (fill_jtlb b va pa store c, b))).
Proof.
  apply steady_modify. intros [c b]. unfold fill_jtlb, jit_fill_publish, publish_jtlb. cbn [fst].
  by destruct (jit_fast_off _ _ _ _).
Qed.

Lemma keeps_walk level md sum mxr tag table va access :
  keeps (walk level md sum mxr tag table va access).
Proof.
  revert table. induction level as [|level IH]; intros table; cbn [walk]; cbv zeta.
  all: apply steady_bind; [apply keeps_map_err, keeps_on_snd|intros pte]; cbv beta.
  all: destruct (_ || _); [apply steady_throw|]; destruct (_ && _); [first [apply steady_throw|apply IH]|].
  all: destruct (_ && _); [apply steady_throw|]; destruct (negb _); [apply steady_throw|].
  all: apply steady_bind; [destruct (negb _); [apply keeps_map_err, keeps_on_snd|apply steady_ret]|].
  all: intros _; apply steady_bind; [apply steady_modify; by intros [c b]|intros; apply steady_ret].
Qed.

Lemma keeps_translate va access : keeps (translate va access).
Proof.
  intros [c b]. unfold translate. destruct (sys c) as [s|] eqn:E; [|done]. cbv zeta.
  destruct (_ =? _); [done|]. unfold translate_slow. rewrite E.
  destruct (_ || _); [done|]. destruct (if satp s .>> 60 =? 8 then _ else _) as [levels|]; [|done].
  cbv zeta. destruct (_ && _); [done|]. apply keeps_walk.
Qed.

Lemma keeps_ld_bytes k i v va : keeps (ld_bytes k i v va).
Proof.
  revert i v. induction k as [|k IH]; intros; cbn [ld_bytes]; [apply steady_ret|].
  apply steady_bind; [apply keeps_translate|intros]. apply steady_bind; [apply keeps_on_snd|auto].
Qed.

Lemma keeps_st_bytes k i va v : keeps (st_bytes k i va v).
Proof.
  revert i. induction k as [|k IH]; intros; cbn [st_bytes]; [apply steady_ret|].
  apply steady_bind; [apply keeps_translate|intros]. apply steady_bind; [apply keeps_on_snd|auto].
Qed.

Lemma keeps_ld_slow N va : keeps (ld_slow N va).
Proof.
  intros s. unfold ld_slow. destruct (crosses_page _ _ _); [apply keeps_ld_bytes|].
  refine (steady_bind _ _ _ _ _ s); [apply keeps_translate|intros pa]. apply steady_bind; [apply keeps_fill|].
  intros. apply keeps_on_snd.
Qed.

Lemma keeps_st_slow N va v : keeps (st_slow N va v).
Proof.
  intros s. unfold st_slow. destruct (crosses_page _ _ _); [apply keeps_st_bytes|].
  refine (steady_bind _ _ _ _ _ s); [apply keeps_translate|intros pa]. apply steady_bind; [apply keeps_fill|].
  intros. apply keeps_on_snd.
Qed.

Lemma keeps_ld N va : keeps (ld N va).
Proof.
  intros s. unfold ld. destruct (crosses_page _ _ _); [apply keeps_ld_slow|].
  destruct (interpreter_fused_ptr _ _ _); [|apply keeps_ld_slow].
  unfold interpreter_direct_load. by destruct (_ || _).
Qed.

Lemma keeps_st N va v : keeps (st N va v).
Proof.
  intros s. unfold st. destruct (crosses_page _ _ _); [apply keeps_st_slow|].
  destruct (interpreter_fused_ptr _ _ _); [|apply keeps_st_slow].
  unfold interpreter_direct_store. destruct s. by destruct (_ || _).
Qed.
End KeepsVector.

(** ** Rules *)

Lemma hoare_attempt {S A} (P : S -> Prop) (f : Hart S A) Q :
  hoare P f Q -> hoare P (attempt f) (fun r => match r with inl a => Q a | inr e => exc_ok e end).
Proof. intros Hf s Hs. specialize (Hf s Hs). unfold attempt. by destruct (f s) as [[]]. Qed.

Section MemoryRules.
Context {B : Type} `{BusOk B} (m : bool) (o : option VectorConfig).
Abbreviation P := (fun s : Cpu * B => inv m s /\ config (vector (fst s)) = o).
Abbreviation PC := (fun c => cinv m c /\ config (vector c) = o).

Lemma mem_fst {A} (f : Hart Cpu A) Q : hoare PC f Q -> hoare P (on_fst f) Q.
Proof.
  intros Hf [c b] [[Hc Hb] E]. specialize (Hf c (conj Hc E)). unfold on_fst. cbn [fst snd] in *.
  destruct (f c) as [[a|e|] c']; [destruct Hf as [[? ?] ?]..|done]; by split_and!.
Qed.

Lemma mem_bus {A} (f : Hart (Cpu * B) A) Q :
  hoare (inv m) f Q -> steady (fun s => vector (fst s)) f -> hoare P f Q.
Proof. apply (hoare_steady (fun s => vector (fst s)) (inv m) (fun v => config v = o)). Qed.

Lemma vector_load_ok address eew :
  is_width eew = true -> uint 64 address -> hoare P (vector_load_element address eew) (uint 64).
Proof.
  intros Hw Ha. unfold vector_load_element.
  destruct (is_width_cases _ Hw) as [->|[->|[->| ->]]]; cbn [Z.eqb Pos.eqb];
    (apply mem_bus; [apply ld_ok; [red; lia|done]|apply keeps_ld]).
Qed.

Lemma vector_store_ok address eew value :
  is_width eew = true -> uint 64 address -> uint 64 value ->
  hoare P (vector_store_element address eew value) (fun _ => True).
Proof.
  intros Hw Ha Hv. unfold vector_store_element.
  destruct (is_width_cases _ Hw) as [->|[->|[->| ->]]]; cbn [Z.eqb Pos.eqb];
    (apply mem_bus; [apply st_ok; [red; lia|done..]|apply keeps_st]).
Qed.

Lemma transfer_element_ok load reg index eew address :
  element_ok reg index eew -> uint 64 address ->
  hoare P (transfer_element load reg index eew address) (fun _ => True).
Proof.
  intros He Ha. pose proof (proj1 He) as Hw. destruct load.
  - eapply hoare_bind; [by apply vector_load_ok|]. intros v _. by apply mem_fst, put_element_any.
  - eapply hoare_bind; [by apply mem_fst, get_element_any|]. intros v Hv. apply vector_store_ok; [done..|].
    apply (uint_mono eew); [|done]. destruct (is_width_cases _ Hw) as [->|[->|[->| ->]]]; lia.
Qed.

Lemma restart_at_ok {A} index (f : Hart (Cpu * B) A) Q :
  uint 64 index -> hoare P f Q -> hoare P (restart_at index f) Q.
Proof.
  intros Hi Hf. eapply hoare_bind; [by apply hoare_attempt|]. intros [a|e] Ha; [by apply hoare_ret|].
  eapply (hoare_bind _ _ _ (fun _ => True)); [by apply mem_fst, set_vstart_any|]. intros _ _.
  by apply hoare_throw.
Qed.

Lemma mem_finish : hoare P (on_fst finish_vector) (fun _ => True).
Proof. by apply mem_fst, set_vstart_any, uint_0. Qed.

(** ** The direct paths *)

Lemma vector_direct_span_ok address byte_count store :
  uint 64 address -> hoare P (vector_direct_span address byte_count store) (fun _ => True).
Proof.
  intros Ha. unfold vector_direct_span.
  eapply (hoare_bind _ _ _ (fun _ => True)); [by apply hoare_gets|]. intros c _. cbv zeta.
  apply hoare_if; intros _; [by apply hoare_ret|]. apply hoare_if; intros _; [by apply hoare_ret|].
  apply hoare_if; intros _; [by apply hoare_ret|].
  destruct (interpreter_fused_ptr c address store); [by apply hoare_ret|].
  eapply (hoare_bind _ _ _ (uint 64)); [apply mem_bus; [by apply translate_ok|apply keeps_translate]|].
  intros pa Hpa. eapply (hoare_bind _ _ _ (fun _ => True)); [|intros; by apply hoare_gets].
  apply mem_bus; [|apply keeps_fill].
  apply (inv_modify_cpu m (fun c b => fill_jtlb b address pa store c)). auto using fill_jtlb_cinv.
Qed.

Lemma host_bytes_ok n pointer b :
  bus_wf b -> length (host_bytes n pointer b) = n /\ Forall (uint 8) (host_bytes n pointer b).
Proof.
  intros Hb. revert pointer. induction n as [|n IH]; intros pointer; cbn [host_bytes length]; [by split|].
  destruct (IH (pointer + 1)) as [Hl Hf]. split; [by rewrite Hl|]. constructor; [|done].
  by apply (host_load_ok 1).
Qed.

Lemma host_put_bytes_ok pointer bytes b : bus_wf b -> bus_wf (host_put_bytes pointer bytes b).
Proof.
  revert pointer b. induction bytes as [|byte bytes IH]; intros pointer b Hb; cbn [host_put_bytes]; [done|].
  by apply IH, host_store_ok.
Qed.

Lemma copy_direct_ok load pointer offset n :
  0 <= offset -> 0 <= n -> offset + n <= 512 -> hoare P (copy_direct load pointer offset n) (fun _ => True).
Proof.
  intros Ho Hn Hl [c b] [[Hc Hb] E]. cbn [fst snd] in *. pose proof (vregs_any m o c (conj Hc E)) as Hv.
  unfold copy_direct, bind, on_fst, vec, gets. cbn [fst snd]. destruct load.
  - destruct (host_bytes_ok (Z.to_nat n) pointer b Hb) as [Hlen Hf].
    set (bs := host_bytes _ _ _) in *. assert (offset + Z.of_nat (length bs) <= 512) as Hle by lia.
    destruct (ptr_write c.(vector) offset bs) as [v'|] eqn:Ew; [|by rewrite ptr_write_ok in Ew by done].
    destruct (ptr_write_wf c.(vector) offset bs v' Hv Ho Hle Hf Ew) as (Hr & _ & Hs).
    cbn. split; [|done]. pose proof (set_vregs_any m o c _ (conj Hc E) Hr) as [Hc' E'].
    rewrite <- Hs in Hc', E'. by split.
  - rewrite ptr_read_ok by done. cbn. split; [|done]. split; [|done]. split; [done|].
    by apply host_put_bytes_ok.
Qed.

(** The elements of a group that is inside the register file. *)
Definition run_fits (first_reg vl element_bytes : Z) : Prop :=
  0 <= first_reg /\ 0 < element_bytes /\ first_reg * 16 + vl * element_bytes <= 512.

(** Every run moves at least one element, so the page loop ends. *)
Lemma unit_stride_runs_ok fuel load base first_reg vl eb index :
  run_fits first_reg vl eb -> 0 <= index <= vl -> vl <= 128 -> vl - index <= Z.of_nat fuel ->
  hoare P (unit_stride_runs fuel load base first_reg vl eb index) (fun i => index <= i <= vl).
Proof.
  intros (Hr & He & Hb). revert index. induction fuel as [|fuel IH]; intros index Hi Hvl Hf;
    cbn [unit_stride_runs]; cbv zeta; apply hoare_if; intros Hle; try (apply hoare_ret; lia); [lia|].
  apply hoare_if; intros Hz; [apply hoare_ret; lia|]. apply Z.eqb_neq in Hz.
  set (run := Z.min _ _) in *.
  assert (1 <= run <= vl - index) as Hrun.
  { unfold run. set (t := 4096 - _) in *. assert (0 <= t / eb); [|lia]. apply Z.div_pos; [|lia].
    unfold t. rewrite (land_ones_lit _ _ 12) by done.
    pose proof (Z.mod_pos_bound (add64 base (index * eb)) (2 ^ 12) ltac:(lia)). zlia. }
  clearbody run.
  eapply (hoare_bind _ _ _ (fun _ => True));
    [apply restart_at_ok; [unfold uint; zlia|apply vector_direct_span_ok, uint_add64]|].
  intros [pointer|] _; [|apply hoare_ret; lia].
  eapply (hoare_bind _ _ _ (fun _ => True)); [apply copy_direct_ok; change VLEN_BYTES with 16; nia|].
  intros _ _. eapply hoare_weaken; [apply IH; lia|]. intros i Hi'. cbv beta in *. lia.
Qed.

Lemma exec_unit_stride_direct_ok load base first_reg start vl eb :
  run_fits first_reg vl eb -> 0 <= start -> 0 <= vl <= 128 ->
  hoare P (exec_unit_stride_direct load base first_reg start vl eb) (fun i => 0 <= i <= vl).
Proof.
  intros Hr Hs Hv. unfold exec_unit_stride_direct. apply hoare_if; intros Hle.
  { eapply (hoare_bind _ _ _ (fun _ => True)); [apply mem_finish|]. intros _ _. apply hoare_ret. lia. }
  eapply hoare_bind; [apply unit_stride_runs_ok; [done|lia..]|]. intros i Hi. cbv beta in *.
  eapply (hoare_bind _ _ _ (fun _ => True)); [|intros _ _; apply hoare_ret; lia].
  apply hoare_if; intros _; [apply mem_finish|by apply hoare_ret].
Qed.

Lemma exec_strided_direct_ok load base first_reg start vl eb stride :
  run_fits first_reg vl eb -> 0 <= start -> vl <= 128 ->
  hoare P (exec_strided_direct load base first_reg start vl eb stride) (fun _ => True).
Proof.
  intros (Hr & He & Hb) Hs Hv. unfold exec_strided_direct. apply hoare_if; intros Hle.
  { eapply (hoare_bind _ _ _ (fun _ => True)); [apply mem_finish|]. intros _ _. by apply hoare_ret. }
  eapply (hoare_bind _ _ _ (fun _ => True)); [by apply hoare_gets|]. intros c _. cbv zeta.
  apply hoare_if; intros _; [by apply hoare_ret|].
  apply hoare_if; intros Hr1; [by apply hoare_ret|]. apply hoare_if; intros _; [by apply hoare_ret|].
  assert (uint 64 (base + i64 stride * start)) as Hu.
  { apply orb_false_iff in Hr1 as [Hr1 _]. apply negb_false_iff in Hr1. unfold between in Hr1.
    unfold uint. change U64_MAX with (2 ^ 64 - 1) in Hr1. lia. }
  eapply (hoare_bind _ _ _ (fun _ => True));
    [apply restart_at_ok; [unfold uint; zlia|by apply vector_direct_span_ok]|].
  intros [pointer|] _; [|by apply hoare_ret].
  eapply (hoare_bind _ _ _ (fun _ => True)).
  { apply hoare_for_range_any. intros j _ Hj. apply copy_direct_ok; change VLEN_BYTES with 16; nia. }
  intros _ _. eapply (hoare_bind _ _ _ (fun _ => True)); [apply mem_finish|]. intros. by apply hoare_ret.
Qed.

(** The loop of elements that faults precisely. *)
Lemma transfer_range_ok load reg eew base start stop :
  0 <= start -> stop < 2 ^ 64 -> (forall i, 0 <= i < stop -> element_ok reg i eew) ->
  hoare P (for_range start stop (fun index _ =>
    restart_at index (transfer_element load reg index eew (add64 base (index * (eew / 8))))) tt)
    (fun _ => True).
Proof.
  intros Hs Hb He. apply hoare_for_range_any. intros j _ Hj. apply restart_at_ok; [unfold uint; lia|].
  apply transfer_element_ok; [apply He; lia|apply uint_add64].
Qed.

Lemma exec_whole_register_memory_ok insn load eew base first_reg count :
  uint 32 insn -> is_width eew = true -> 0 <= first_reg ->
  hoare P (exec_whole_register_memory insn load eew base first_reg count) (fun _ => True).
Proof.
  intros Hi Hw Hr. unfold exec_whole_register_memory. cbv zeta.
  eapply hoare_bind; [apply mem_fst, vstart_now_any|]. intros vs Hvs.
  apply hoare_if; intros G; [by apply hoare_throw|].
  apply orb_false_iff in G as [[[[Hc%negb_false_iff _]%orb_false_iff Hb]%orb_false_iff _]%orb_false_iff _].
  assert (count = 1 \/ count = 2 \/ count = 4 \/ count = 8) as Hcount.
  { unfold one_of in Hc. cbn [existsb] in Hc. lia. }
  unfold VREG_COUNT in Hb.
  eapply (hoare_bind _ _ _ (fun _ => True)); [apply mem_fst, mark_dirty_any|]. intros _ _.
  eapply (hoare_bind _ _ _ (fun _ => True)); [|intros; apply mem_finish].
  change VLEN_BYTES with 16.
  assert (0 < eew / 8) as Hp by (destruct (is_width_cases _ Hw) as [->|[->|[->| ->]]]; done).
  pose proof (Z.mul_div_le (count * 16) (eew / 8) Hp) as Hq.
  apply transfer_range_ok; [apply Hvs|nia|]. intros i Hi'. split_and!; [done|done|lia|nia].
Qed.
End MemoryRules.

(** ** Under a configuration *)

Section Configured.
Context {B : Type} `{BusOk B} (m : bool) (cfg : VectorConfig) (insn : Z).
Context (Hinsn : uint 32 insn) (Hd : decoded cfg).
Abbreviation P := (fun s : Cpu * B => inv m s /\ config (vector (fst s)) = Some cfg).

Lemma group_run eew r reg n :
  fits cfg eew r -> validate_group reg r 1 = true -> 0 <= reg -> n <= cfg.(vlmax) ->
  run_fits reg n (eew / 8).
Proof using Type.
  intros (Hw & Hs & Hb) Hg Hr Hn. pose proof (group_end reg r 1 0 Hg Hs ltac:(lia)).
  assert (0 < eew / 8) by (destruct (is_width_cases _ Hw) as [->|[->|[->| ->]]]; done).
  split_and!; [done|done|nia].
Qed.

(** The span of the fast unit-stride form agrees with EMUL's. *)
Lemma emul_register_span_ok {S} (R : S -> Prop) eew :
  is_width eew = true ->
  hoare R (emul_register_span cfg eew)
    (fun o => forall span, o = Some span -> 1 <= span /\ cfg.(vlmax) * (eew / 8) <= 16 * span).
Proof using Hd.
  intros Hw. pose proof (proj2 (proj2 (decoded_facts cfg Hd)) eew Hw) as Hc. unfold emul_check in Hc.
  unfold emul_register_span. destruct (emul_exponent cfg eew) as [[e|]|]; [|by apply hoare_ret|done].
  apply andb_true_iff in Hc as [Hf Hs%Z.eqb_eq]. apply fits_check_fits in Hf as (_ & H1 & H2).
  apply hoare_ret. intros span [= <-]. by rewrite <- Hs.
Qed.

Lemma exec_unit_stride_memory_ok load eew base first_reg :
  is_width eew = true -> uint 64 base -> 0 <= first_reg ->
  hoare P (exec_unit_stride_memory load insn eew base first_reg cfg) (fun _ => True).
Proof using Hinsn Hd.
  intros Hw Hbase Hr. unfold exec_unit_stride_memory. pose proof (decoded_vlmax cfg Hd) as Hmax.
  eapply (hoare_bind _ _ _ (fun span => 1 <= span /\ cfg.(vlmax) * (eew / 8) <= 16 * span)).
  { apply hoare_if; intros E.
    - apply Z.eqb_eq in E as ->. destruct (fits_lmul cfg Hd) as (_ & H1 & H2). by apply hoare_ret.
    - eapply hoare_bind; [by apply emul_register_span_ok|]. intros span Hs. by apply hoare_ok_or. }
  intros span [Hs Hb]. cbv zeta. apply hoare_if; intros G; [by apply hoare_throw|].
  apply orb_false_iff in G as [_ G]. unfold VREG_COUNT in G.
  assert (0 < eew / 8) as Hp by (destruct (is_width_cases _ Hw) as [->|[->|[->| ->]]]; done).
  eapply hoare_bind; [apply mem_fst, vstart_now_any|]. intros start Hst.
  eapply hoare_bind; [apply mem_fst, (active_length_ok m cfg)|]. intros vl Hvl. cbv beta in *.
  eapply (hoare_bind _ _ _ (fun _ => True)); [apply mem_fst, mark_dirty_any|]. intros _ _.
  eapply hoare_bind.
  { apply exec_unit_stride_direct_ok; [|apply Hst|lia]. split_and!; [done|done|nia]. }
  intros i Hi. cbv beta in *. apply hoare_if; intros _; [by apply hoare_ret|].
  eapply (hoare_bind _ _ _ (fun _ => True)); [|intros; apply mem_finish].
  apply transfer_range_ok; [lia|zlia|]. intros j Hj. split_and!; [done|done|lia|nia].
Qed.

Lemma transfer_mask_byte_ok load reg index address :
  uint 5 reg -> 0 <= index < 16 -> uint 64 address ->
  hoare P (transfer_mask_byte load reg index address) (fun _ => True).
Proof using Type.
  intros Hr Hi Ha. assert (0 <= reg < VREG_COUNT) as Hr' by (unfold uint, VREG_COUNT in *; lia).
  destruct load; cbn [transfer_mask_byte].
  - eapply hoare_bind; [by apply vector_load_ok|]. intros value _.
    eapply hoare_bind; [apply mem_fst, (vec_ok m cfg)|]. intros v Hv.
    eapply (hoare_bind _ _ _ (fun _ => True)); [apply hoare_unwrap|].
    { destruct (register_byte_wf v reg index Hv Hr' Hi) as (b & -> & _). by eexists. }
    intros _ _. apply mem_fst, (set_byte_ok m cfg). apply uint_u8.
  - eapply hoare_bind; [apply mem_fst, (vec_ok m cfg)|]. intros v Hv.
    eapply (hoare_bind _ _ _ (uint 8)); [by apply hoare_unwrap, register_byte_wf|].
    intros b Hb. apply vector_store_ok; [done..|]. by apply (uint_mono 8).
Qed.

Lemma exec_mask_memory_ok load base reg :
  uint 5 reg -> hoare P (exec_mask_memory load base reg) (fun _ => True).
Proof using Hd.
  intros Hr. unfold exec_mask_memory. cbv zeta. pose proof (decoded_vlmax cfg Hd).
  eapply (hoare_bind _ _ _ (fun v => 0 <= v.(vl) <= 128 /\ 0 <= v.(vstart))).
  { apply mem_fst, hoare_gets. intros c [[Hc _] E]. pose proof (wf_vector _ Hc) as Hv.
    pose proof (wf_vl_bounded _ Hv) as [Hl Hbd]. rewrite E in Hbd. pose proof (wf_vstart _ Hv) as [? _].
    split; [lia|done]. }
  intros v [Hvl Hvs]. eapply (hoare_bind _ _ _ (fun _ => True)); [apply mem_fst, mark_dirty_any|]. intros _ _.
  eapply (hoare_bind _ _ _ (fun _ => True)); [|intros; apply mem_finish].
  apply hoare_for_range_any. intros j _ Hj. apply restart_at_ok; [unfold uint; zlia|].
  apply transfer_mask_byte_ok; [done|zlia|apply uint_add64].
Qed.

(** ** The general form *)

(** Shortening vl to a smaller element keeps it legal. *)
Lemma shorten_vl_ok index :
  0 <= index <= cfg.(vlmax) ->
  hoare P (on_fst (update_vec (fun v => set_vstart 0 (set_vl index v)))) (fun _ => True).
Proof using Hd.
  intros Hi. apply mem_fst, hoare_modify. intros c [[Hc Hm] E]. split; [split; [|done]|done].
  pose proof (decoded_vlmax cfg Hd).
  apply wf_set_vector; [done|]. destruct (wf_vector _ Hc).
  constructor; cbn [set_vstart set_vl vregs vl vtype vstart vxrm]; auto; [unfold uint; zlia| |by apply uint_0].
  split; [apply Hi|]. change (config (set_vstart 0 (set_vl index (vector c)))) with (config (vector c)).
  rewrite E. apply Hi.
Qed.

Lemma transfer_fields_ok load fof first_reg span fields index eew address :
  0 <= index < cfg.(vlmax) ->
  (forall field, 0 <= field < fields -> element_ok (first_reg + field * span) index eew) ->
  hoare P (transfer_fields load fof first_reg span fields index eew address) (fun _ => True).
Proof using Hd.
  intros Hi He. unfold transfer_fields. pose proof (decoded_vlmax cfg Hd).
  apply hoare_for_range_any. intros field stopped Hf. destruct stopped; [by apply hoare_ret|]. cbv zeta.
  eapply hoare_bind; [apply hoare_attempt, transfer_element_ok; [by apply He|apply uint_add64]|].
  intros [a|e] Ha; [by apply hoare_ret|]. apply hoare_if; intros _.
  - eapply (hoare_bind _ _ _ (fun _ => True)); [apply shorten_vl_ok; lia|]. intros. by apply hoare_ret.
  - eapply (hoare_bind _ _ _ (fun _ => True));
      [apply mem_fst, set_vstart_any; unfold uint; zlia|]. intros. by apply hoare_throw.
Qed.

Lemma transfer_elements_ok load fof mop aux eew data_eew fields first_reg span base stride start vl :
  0 <= start -> vl <= cfg.(vlmax) ->
  (forall field index, 0 <= field < fields -> 0 <= index < cfg.(vlmax) ->
    element_ok (first_reg + field * span) index data_eew) ->
  (forall index, 0 <= index < cfg.(vlmax) -> (mop =? 0) = false -> (mop =? 2) = false -> element_ok aux index eew) ->
  hoare P (transfer_elements insn load fof mop aux eew data_eew fields first_reg span base stride start vl)
    (fun _ => True).
Proof using Hd.
  intros Hs Hv He Hx. unfold transfer_elements. pose proof (decoded_vlmax cfg Hd).
  apply hoare_for_range_any. intros j stopped Hj. destruct stopped; [by apply hoare_ret|].
  eapply (hoare_bind _ _ _ (fun _ => True)).
  { apply hoare_if; intros _; [apply mem_fst, (mask_bit_ok m cfg); lia|by apply hoare_ret]. }
  intros active _. apply hoare_if; intros _; [by apply hoare_ret|].
  eapply (hoare_bind _ _ _ (fun _ => True)).
  { apply hoare_if; intros E0; [by apply hoare_ret|]. apply hoare_if; intros E2; [by apply hoare_ret|].
    apply mem_fst. eapply hoare_weaken; [apply get_element_any, Hx; [lia|done..]|done]. }
  intros offset _. apply transfer_fields_ok; [lia|]. intros. apply He; [done|lia].
Qed.
End Configured.

(** ** The instructions *)

Section Instructions.
Context {B : Type} `{BusOk B} (m : bool) (insn : Z) (Hinsn : uint 32 insn).

(** A property of every configuration a hart may be in is one of the hart. *)
Lemma hoare_any_config {A} (f : Hart (Cpu * B) A) Q :
  (forall o, hoare (fun s => inv m s /\ config (vector (fst s)) = o) f Q) -> hoare (inv m) f Q.
Proof using Type.
  intros Hf s Hs. specialize (Hf _ s (conj Hs eq_refl)).
  destruct (f s) as [[a|e|] s']; [destruct Hf as [[? ?] ?]..|done]; by split.
Qed.

Lemma vector_check_any o :
  hoare (fun c => cinv m c /\ config c.(vector) = o) (vector_check insn) (fun _ => True).
Proof using Hinsn. intros c Hc. unfold vector_check. by destruct (vector_enabled c). Qed.

Lemma vector_width_ok f eew : vector_width f = Some eew -> is_width eew = true.
Proof using Type. unfold vector_width. repeat case_match; by intros [= <-]. Qed.

(** Reading the state and its configuration. *)
Lemma config_now {A} o (k : VectorState -> VectorConfig -> Hart (Cpu * B) A) Q :
  (forall v cfg, o = Some cfg -> decoded cfg ->
     hoare (fun s => inv m s /\ config (vector (fst s)) = o) (k v cfg) Q) ->
  hoare (fun s => inv m s /\ config (vector (fst s)) = o)
    (v <- on_fst vec ;; cfg <- ok_or (config v) (IllegalInstruction insn) ;; k v cfg) Q.
Proof using Hinsn.
  intros Hk [c b] [[Hc Hb] E]. cbn [fst snd] in *. unfold bind, on_fst, vec, gets. cbn [fst snd].
  rewrite E. destruct o as [cfg|]; [|exact (conj (conj (conj Hc Hb) E) Hinsn)].
  apply (Hk c.(vector) cfg eq_refl); [|exact (conj (conj Hc Hb) E)]. by apply (vinv_decoded m cfg c).
Qed.

Lemma exec_unit_stride_memory_insn_ok load :
  hoare (inv m) (Memory.exec_unit_stride_memory_insn (B := B) insn load) (fun _ => True).
Proof using Hinsn.
  apply hoare_any_config. intros o. unfold Memory.exec_unit_stride_memory_insn.
  eapply (hoare_bind _ _ _ (fun _ => True)); [apply mem_fst, vector_check_any|]. intros _ _.
  eapply (hoare_bind _ _ _ (fun eew => is_width eew = true));
    [apply hoare_ok_or; [done|apply vector_width_ok]|]. intros eew Hw.
  apply config_now. intros v cfg -> Hd. apply hoare_if; intros _; [by apply hoare_throw|].
  eapply hoare_bind; [apply mem_fst, x_reg_any, uint_rs1|]. intros base Hb.
  apply exec_unit_stride_memory_ok; [done..|apply uint_rd].
Qed.

Lemma hoare_ratio cfg eew aux (indexed : bool) :
  decoded cfg ->
  hoare (fun s : Cpu * B => inv m s /\ config (vector (fst s)) = Some cfg)
    (if indexed then
       ratio <- emul_or_illegal insn cfg eew ;;
       if negb (validate_group aux ratio 1) then illegal insn else ret (Some ratio)
     else ret None)
    (fun r => match r with
              | Some ratio => fits cfg eew ratio /\ validate_group aux ratio 1 = true
              | None => indexed = false
              end).
Proof using Hinsn.
  intros Hd. destruct indexed; [|by apply hoare_ret].
  eapply hoare_bind; [by apply emul_or_illegal_ok|]. intros ratio Hr. apply hoare_if; intros G;
    [by apply hoare_throw|]. apply negb_false_iff in G. by apply hoare_ret.
Qed.

Lemma exec_vector_memory_ok' load :
  hoare (inv m) (Memory.exec_vector_memory (B := B) insn load) (fun _ => True).
Proof using Hinsn.
  apply hoare_any_config. intros o. unfold Memory.exec_vector_memory.
  eapply (hoare_bind _ _ _ (fun _ => True)); [apply mem_fst, vector_check_any|]. intros _ _.
  eapply (hoare_bind _ _ _ (fun eew => is_width eew = true));
    [apply hoare_ok_or; [done|apply vector_width_ok]|]. intros eew Hw. cbv zeta.
  assert (uint 5 ((insn .>> 20) .& 31)) as Haux by apply uint_rs2.
  set (aux := (insn .>> 20) .& 31) in *. set (mop := (insn .>> 26) .& 3) in *.
  set (fields := ((insn .>> 29) .& 7) + 1) in *.
  eapply hoare_bind; [apply mem_fst, x_reg_any, uint_rs1|]. intros base Hb.
  apply hoare_if; intros _; [by apply hoare_throw|].
  apply hoare_if; intros _; [by apply exec_whole_register_memory_ok; [..|apply uint_rd]|].
  apply config_now. intros v cfg -> Hd. pose proof (decoded_vlmax cfg Hd) as Hmax.
  apply hoare_if; intros _; [by apply hoare_throw|].
  apply hoare_if; intros _; [by apply exec_unit_stride_memory_ok; [..|apply uint_rd]|].
  apply hoare_if; intros _; [by apply exec_mask_memory_ok; [|apply uint_rd]|].
  apply hoare_if; intros _; [by apply hoare_throw|]. apply hoare_if; intros _; [by apply hoare_throw|].
  set (fof := load && _ && _). set (indexed := (mop =? 1) || (mop =? 3)).
  set (data_eew := if indexed then _ else _).
  eapply hoare_bind; [by apply emul_or_illegal_ok|]. intros data_ratio Hfit.
  apply hoare_if; intros Gv; [by apply hoare_throw|]. apply negb_false_iff in Gv.
  eapply hoare_bind; [by apply hoare_ratio|]. intros index_ratio Hx.
  do 3 (apply hoare_if; intros _; [by apply hoare_throw|]).
  eapply (hoare_bind _ _ _ (fun _ => True)).
  { apply hoare_if; intros _; [|by apply hoare_ret].
    apply mem_fst. eapply hoare_weaken; [by apply x_reg_any|done]. }
  intros stride _. eapply hoare_bind; [apply mem_fst, vstart_now_any|]. intros start Hst.
  eapply hoare_bind; [apply mem_fst, (active_length_ok m cfg)|]. intros vl Hvl. cbv beta in *.
  eapply (hoare_bind _ _ _ (fun _ => True)); [apply mem_fst, mark_dirty_any|]. intros _ _.
  pose proof (proj1 (uint_rd insn)) as Hrd.
  eapply (hoare_bind _ _ _ (fun _ => True)).
  { apply hoare_if; intros G; [|by apply hoare_ret].
    apply andb_true_iff in G as [_ Hf%Z.eqb_eq]. rewrite Hf in Gv.
    apply exec_strided_direct_ok; [eapply group_run; [done|done|done|lia]|apply Hst|lia]. }
  intros direct _. apply hoare_if; intros _; [by apply hoare_ret|].
  eapply (hoare_bind _ _ _ (fun _ => True)).
  { apply (transfer_elements_ok m cfg insn Hd); [apply Hst|lia| |].
    - intros field index Hf Hi. by eapply field_element.
    - intros index Hi E0 E2. destruct index_ratio as [ratio|].
      + destruct Hx as [Hx Hg]. eapply group_element; [done..|apply Haux|lia].
      + exfalso. unfold indexed in Hx. apply orb_false_iff in Hx as [H1 H3].
        apply Z.eqb_neq in E0, E2, H1, H3. pose proof (Z.mod_pos_bound (insn .>> 26) (2 ^ 2) ltac:(lia)) as Hm.
        unfold mop in *. rewrite (land_ones_lit _ _ 2) in * by done. zlia. }
  intros stopped _. apply hoare_if; intros _; [by apply hoare_ret|apply mem_finish].
Qed.
End Instructions.

(** The vector unit keeps the hart invariant and never panics. *)
#[global] Instance rvv_unit_ok {B} `{BusOk B} : VectorUnitOk B.
Proof.
  split.
  - intros m insn cfg Hi c Hc. by apply exec_vector_float_ok'; [|eapply vinv_decoded|].
  - intros m insn cfg Hi c Hc. by apply exec_vector_integer_ok'; [|eapply vinv_decoded|].
  - intros m insn load Hi. by apply exec_unit_stride_memory_insn_ok.
  - intros m insn load Hi. by apply exec_vector_memory_ok'.
Defined.
