(* ===== verification/SafeStep.v ===== *)
(** * Safety of the decoder and [step]

    Every instruction, 16- or 32-bit, keeps the invariant and never panics. *)

From S2P Require Import Prelude Exception Decode Compressed Csr State Bus Mmu Trap CsrOps.
From S2P Require Import Vector SoftFp Exec Step T0 Run Wf SoftFpSpec RvcEquiv SafeMem SafeCsr.
From S2P Require Import SafeExec.

(** [step] itself never stops with [Trap] (an exception is its error value) nor with
    [Budget] (the drivers' own reason). *)
Definition stop_ok (stop : option StopReason) : Prop :=
  match stop with Some (Trap _) | Some Budget => False | _ => True end.

Definition flow_ok (f : flow) : Prop :=
  match f with Next npc stop => uint 64 npc /\ stop_ok stop | Return stop => stop_ok stop end.

(** ** SYSTEM *)

Section SystemSafety.
Context (m : bool) (insn npc : Z) (Hinsn : uint 32 insn) (Hnpc : uint 64 npc).

Lemma get_ok : hoare (cinv m) (gets id) (cinv m).
Proof using Type. by apply hoare_gets. Qed.

Lemma exec_ecall_ok : hoare (cinv m) (exec_ecall npc) flow_ok.
Proof using Hnpc.
  unfold exec_ecall. eapply hoare_bind; [apply get_ok|]. intros c Hc.
  destruct (sys c) as [s|] eqn:E; [|by apply hoare_ret].
  destruct (cinv_sys _ _ _ Hc E) as [_ ->].
  apply hoare_if; intros _; [by apply hoare_ret|]. cbv zeta.
  eapply hoare_bind; [apply take_trap_ok; [destruct (mode s); uint_lit|by apply uint_0]|].
  intros _ _. eapply hoare_bind.
  { apply cinv_modify; [|done]. intros c' [Hc' _]. apply wf_set_insn_count; auto with rv. }
  intros _ _. by apply hoare_ret.
Qed.

Lemma exec_ebreak_ok : hoare (cinv m) (exec_ebreak npc) flow_ok.
Proof using Hnpc.
  unfold exec_ebreak. eapply hoare_bind; [apply get_ok|]. intros c Hc.
  destruct (sys c); [by apply hoare_throw|by apply hoare_ret].
Qed.

(** The common shape of MRET and SRET. *)
Lemma xret_ok (f : SysCsrs -> SysCsrs) (epc : SysCsrs -> Z) (bad : SysCsrs -> bool) :
  (forall s, wf_sys s -> wf_sys (f s)) -> (forall s, wf_sys s -> uint 64 (epc s)) ->
  hoare (cinv m)
    (modify (set_irq_poll_cd 0) ;;;
     c <- gets id ;;
     s <- ok_or c.(sys) (IllegalInstruction insn) ;;
     if bad s then illegal insn else
     modify (fun c => privilege_changed (set_sys (Some (f s)) c)) ;;;
     ret (Next (epc s) None)) flow_ok.
Proof using Hinsn.
  intros Hf He. eapply hoare_bind.
  { apply cinv_modify; [|done]. intros c [Hc _]. apply wf_set_irq_poll_cd; [done|by apply uint_0]. }
  intros _ _. eapply hoare_bind; [apply get_ok|]. intros c Hc.
  apply (hoare_bind _ _ _ (fun s => wf_sys s /\ m = true)).
  { apply hoare_ok_or; [done|]. intros s Es. by apply (cinv_sys m c). }
  intros s [Hs ->]. apply hoare_if; intros _; [by apply hoare_throw|].
  eapply hoare_bind; [|intros _ _; apply hoare_ret; split; [by apply He|done]].
  apply hoare_modify. intros c' [Hc' Hm']. split.
  - apply privilege_changed_wf, wf_set_sys; [done|by apply Hf].
  - by rewrite is_sys_privilege_changed.
Qed.

Lemma exec_mret_ok : hoare (cinv m) (exec_mret insn) flow_ok.
Proof using Hinsn.
  apply (xret_ok mret_sys mepc (fun s => negb (mode_eqb s.(mode) Machine)));
    [apply mret_sys_ok|apply wf_mepc].
Qed.

Lemma exec_sret_ok : hoare (cinv m) (exec_sret insn) flow_ok.
Proof using Hinsn.
  apply (xret_ok sret_sys sepc); [apply sret_sys_ok|apply wf_sepc].
Qed.

Lemma exec_wfi_ok : hoare (cinv m) (exec_wfi insn npc) flow_ok.
Proof using All.
  unfold exec_wfi. eapply hoare_bind; [apply get_ok|]. intros c Hc.
  destruct (sys c); [|by apply hoare_ret].
  apply hoare_if; intros _; [by apply hoare_throw|].
  apply hoare_ret. split; [done|by destruct (_ =? 0)].
Qed.

Lemma exec_sfence_vma_ok : hoare (cinv m) (exec_sfence_vma insn npc) flow_ok.
Proof using All.
  unfold exec_sfence_vma. eapply hoare_bind; [apply get_ok|]. intros c Hc.
  apply (hoare_bind _ _ _ (fun _ => True)).
  { destruct (sys c); [|by apply hoare_ret].
    apply hoare_if; intros _; [by apply hoare_throw|by apply hoare_ret]. }
  intros _ _. cbv zeta. eapply hoare_bind; [|intros _ _; by apply hoare_ret].
  apply cinv_modify; [intros c' [Hc' _]; by apply sfence_vma_wf|apply is_sys_sfence_vma].
Qed.

Lemma exec_zicsr_ok : hoare (cinv m) (exec_zicsr insn npc) flow_ok.
Proof using All.
  unfold exec_zicsr. cbv zeta.
  assert (uint 12 (insn .>> 20)) as Hcsr by (unfold uint in *; arith_bits; zlia).
  apply (hoare_bind _ _ _ (fun _ => True)).
  { apply hoare_if; intros _; [|by apply hoare_ret].
    eapply hoare_bind; [by apply fp_check_ok|]. intros _ _. apply fp_dirty_ok. }
  intros _ _. eapply hoare_bind; [apply get_ok|]. intros c [Hc _].
  assert (uint 64 (if 5 <=? funct3 insn then rs1 insn else xr c (rs1 insn))) as Hsrc.
  { case_match; [|by apply wf_xr, uint_rs1]. apply (uint_mono 5); [lia|apply uint_rs1]. }
  apply (hoare_bind _ _ _ (uint 64)).
  { apply hoare_ok_or; [done|]. intros v Hv. by apply (csr_read_range c (insn .>> 20)). }
  intros old Hold.
  apply (hoare_bind _ _ _ (fun _ => True)).
  { destruct (csr_new_value _ _ _ _) as [v|] eqn:Ev; [|by apply hoare_ret].
    assert (uint 64 v) as Hv.
    { revert Ev. unfold csr_new_value. chain; intros [= <-]; uint_tac. }
    intros c' Hc'. pose proof (csr_write_ok m (insn .>> 20) v c' Hc' Hv) as Hw.
    destruct (csr_write _ _ _) as [[] c'']; by split. }
  intros _ _. eapply hoare_bind; [|intros _ _; by apply hoare_ret].
  apply cinv_modify; [|intros; apply is_sys_wr].
  intros c' [Hc' _]. apply wf_wr; [done|apply uint_rd|done].
Qed.

Lemma exec_system_ok : hoare (cinv m) (exec_system insn npc) flow_ok.
Proof using All.
  unfold exec_system. cbv zeta. repeat (apply hoare_if; intros _);
    auto using exec_ecall_ok, exec_ebreak_ok, exec_mret_ok, exec_sret_ok, exec_wfi_ok,
      exec_sfence_vma_ok, exec_zicsr_ok.
  by apply hoare_throw.
Qed.
End SystemSafety.

(** ** The decoder *)

Section DecoderSafety.
Context {B : Type} `{HV : VectorUnitOk B}.
Context (m : bool).

Lemma wr_ok d v :
  0 <= d -> uint 64 v -> hoare (inv m) (on_fst (modify (wr d v))) (fun _ => True).
Proof using Type.
  intros Hd Hv. apply inv_fst, cinv_modify; [|intros; apply is_sys_wr].
  intros c [Hc _]. by apply wf_wr.
Qed.

Lemma hart_ok : hoare (inv m) (gets hart) (cinv m).
Proof using Type. apply inv_hart. Qed.

Ltac size_tac := unfold access_size; lia.

Section Insn.
Context (insn : Z) (Hinsn : uint 32 insn).

Lemma exec_load_ok : hoare (inv m) (exec_load insn) (fun _ => True).
Proof using Hinsn HV.
  unfold exec_load. eapply hoare_bind; [apply hart_ok|]. intros c [Hc _]. cbv zeta.
  assert (forall N f, access_size N -> (forall v, uint 64 v -> uint 64 (f v)) ->
    hoare (inv m) (v <- ld N (add64 (xr c (rs1 insn)) (u64 (imm_i insn))) ;; ret (f v))
      (uint 64)) as Hld.
  { intros N f HN Hf. eapply hoare_bind; [apply ld_ok; auto with rv|].
    intros v Hv. by apply hoare_ret, Hf. }
  apply (hoare_bind _ _ _ (uint 64)); [|intros v Hv; apply wr_ok; [apply uint_rd|done]].
  repeat (apply hoare_if; intros _);
    first [by apply hoare_throw | apply ld_ok; [size_tac|auto with rv]
          | apply Hld; [size_tac|auto with rv]].
Qed.

Lemma exec_store_ok : hoare (inv m) (exec_store insn) (fun _ => True).
Proof using Hinsn HV.
  unfold exec_store. eapply hoare_bind; [apply hart_ok|]. intros c [Hc _]. cbv zeta.
  repeat (apply hoare_if; intros _);
    first [by apply hoare_throw | apply st_ok; [size_tac|auto with rv|auto with rv]].
Qed.

Lemma aload_ok is64 a : uint 64 a -> hoare (inv m) (aload is64 a) (uint 64).
Proof using Type.
  intros Ha. unfold aload. destruct is64; [apply ld_ok; [size_tac|done]|].
  eapply hoare_bind; [apply ld_ok; [size_tac|done]|].
  intros v _. apply hoare_ret, uint_sext32.
Qed.

Lemma astore_ok is64 a v :
  uint 64 a -> uint 64 v -> hoare (inv m) (astore is64 a v) (fun _ => True).
Proof using Type.
  intros Ha Hv. unfold astore. destruct is64; (apply st_ok; [size_tac|done|done]).
Qed.

Lemma reservation_ok r :
  opt_wf (uint 64) r ->
  hoare (inv m) (on_fst (modify (set_reservation r))) (fun _ => True).
Proof using Type.
  intros Hr. apply inv_fst, cinv_modify; [|done]. intros c [Hc _].
  by apply wf_set_reservation.
Qed.

Lemma exec_amo_ok : hoare (inv m) (exec_amo insn) (fun _ => True).
Proof using Hinsn HV.
  unfold exec_amo. eapply hoare_bind; [apply hart_ok|]. intros c [Hc _]. cbv zeta.
  pose proof (wf_xr c _ Hc (uint_rs1 insn)) as Ha.
  pose proof (wf_xr c _ Hc (uint_rs2 insn)) as Hs.
  pose proof (proj1 (uint_rd insn)) as Hd.
  apply (hoare_bind _ _ _ (fun _ => True)).
  { repeat (apply hoare_if; intros _); first [by apply hoare_throw|by apply hoare_ret]. }
  intros is64 _. apply hoare_if; intros _; [|apply hoare_if; intros _].
  - eapply hoare_bind; [by apply aload_ok|]. intros v Hv.
    apply inv_fst, cinv_modify.
    + intros c' [Hc' _]. apply wf_wr; [|done|done]. by apply wf_set_reservation.
    + intros c'. by rewrite is_sys_wr.
  - apply (hoare_bind _ _ _ (fun _ => True)); [|intros _ _; by apply reservation_ok].
    apply hoare_if; intros _; [|apply wr_ok; [done|uint_lit]].
    eapply hoare_bind; [by apply astore_ok|]. intros _ _. apply wr_ok; [done|by apply uint_0].
  - eapply hoare_bind; [by apply aload_ok|]. intros old Hold.
    apply (hoare_bind _ _ _ (uint 64)).
    { apply hoare_ok_or; [done|]. intros v. by apply amo_val_range. }
    intros new Hnew. eapply hoare_bind; [by apply astore_ok|]. intros _ _. by apply wr_ok.
Qed.

Lemma vector_memory_ok load : hoare (inv m) (vector_memory insn load) (fun _ => True).
Proof using Hinsn HV.
  unfold vector_memory. apply hoare_if; intros _;
    [by apply exec_unit_stride_ok|by apply exec_vector_memory_ok].
Qed.

Lemma exec_load_fp_ok : hoare (inv m) (exec_load_fp insn) (fun _ => True).
Proof using Hinsn HV.
  unfold exec_load_fp. apply hoare_if; intros _; [apply vector_memory_ok|].
  eapply hoare_bind; [by apply inv_fst, fp_check_ok|]. intros _ _.
  eapply hoare_bind; [apply inv_fst, fp_dirty_ok|]. intros _ _.
  eapply hoare_bind; [apply hart_ok|]. intros c [Hc _]. cbv zeta.
  apply (hoare_bind _ _ _ (uint 64)).
  - repeat (apply hoare_if; intros _);
      [|apply ld_ok; [size_tac|auto with rv]|by apply hoare_throw].
    eapply hoare_bind; [apply ld_ok; [size_tac|auto with rv]|]. intros v _.
    apply hoare_ret, bx32_range, uint_u32.
  - intros v Hv. apply inv_fst, (set_fr_ok m id); [done|done].
Qed.

Lemma exec_store_fp_ok : hoare (inv m) (exec_store_fp insn) (fun _ => True).
Proof using Hinsn HV.
  unfold exec_store_fp. apply hoare_if; intros _; [apply vector_memory_ok|].
  eapply hoare_bind; [by apply inv_fst, fp_check_ok|]. intros _ _.
  eapply hoare_bind; [apply hart_ok|]. intros c [Hc _]. cbv zeta.
  repeat (apply hoare_if; intros _);
    first [by apply hoare_throw | apply st_ok; [size_tac|auto with rv|auto with rv]].
Qed.

Lemma exec_vector_op_ok : hoare (cinv m) (exec_vector_op (B := B) insn) (fun _ => True).
Proof using Hinsn HV.
  unfold exec_vector_op. apply hoare_if; intros _; [by apply exec_vector_config_ok|].
  apply (hoare_bind _ _ _ (fun _ => True)).
  { intros c Hc. unfold vector_check. by destruct (vector_enabled c). }
  intros _ _ c Hc. unfold bind, gets, id. destruct (config (vector c)) as [cfg|] eqn:E;
    cbn [ok_or ret throw]; [|by split].
  assert (vinv m cfg c) as Hv by done.
  assert (forall f : Hart Cpu unit, hoare (vinv m cfg) f (fun _ => True) ->
    match f c with
    | (Ok _, c') => cinv m c' /\ True | (Err e, c') => cinv m c' /\ exc_ok e | (Panic, _) => False
    end) as Hcall.
  { intros f Hf. specialize (Hf c Hv). destruct (f c) as [[a|e|] c']; [by destruct Hf as [[]]..|done]. }
  destruct (_ && _); [by split|].
  destruct (_ || _); apply Hcall; [by apply exec_vector_float_ok|by apply exec_vector_integer_ok].
Qed.

Lemma exec_body_ok npc : uint 64 npc -> hoare (inv m) (exec_body insn npc) flow_ok.
Proof using Hinsn HV.
  intros Hnpc. unfold exec_body. eapply hoare_bind; [apply hart_ok|]. intros c [Hc _].
  cbv zeta. pose proof (proj1 (uint_rd insn)) as Hd.
  pose proof (wf_xr c _ Hc (uint_rs1 insn)) as Hx1.
  pose proof (wf_xr c _ Hc (uint_rs2 insn)) as Hx2.
  assert (forall M : Hart (Cpu * B) unit, hoare (inv m) M (fun _ => True) ->
    hoare (inv m) (M ;;; ret (Next npc None)) flow_ok) as Hnext.
  { intros M HM. eapply hoare_bind; [exact HM|]. intros _ _. by apply hoare_ret. }
  assert (forall v, uint 64 v ->
    hoare (inv m) (on_fst (modify (wr (rd insn) v)) ;;; ret (Next npc None)) flow_ok) as Hwr.
  { intros v Hv. by apply Hnext, wr_ok. }
  repeat (apply hoare_if; intros _).
  - apply Hwr. auto with rv.
  - apply Hwr. auto with rv.
  - eapply hoare_bind; [by apply wr_ok|]. intros _ _. apply hoare_ret. split; [apply uint_add64|done].
  - eapply hoare_bind; [by apply wr_ok|]. intros _ _. apply hoare_ret.
    split; [apply uint_ldiff; [lia|apply uint_add64]|done].
  - apply (hoare_bind _ _ _ (fun _ => True)); [by apply hoare_ok_or|]. intros t _.
    apply hoare_ret. split; [destruct t; [apply uint_add64|done]|done].
  - apply Hnext, exec_load_ok.
  - apply Hnext, exec_store_ok.
  - apply Hwr. by apply op_imm_val_range.
  - apply (hoare_bind _ _ _ (fun _ => True)); [by apply hoare_ok_or|]. intros v _.
    apply Hwr, uint_sext32.
  - apply (hoare_bind _ _ _ (uint 64)).
    { apply hoare_ok_or; [done|]. intros v. by apply op_val_range. }
    intros v Hv. by apply Hwr.
  - apply (hoare_bind _ _ _ (fun _ => True)); [by apply hoare_ok_or|]. intros v _.
    apply Hwr, uint_sext32.
  - apply Hnext, exec_amo_ok.
  - apply Hnext, exec_load_fp_ok.
  - apply Hnext, exec_store_fp_ok.
  - apply Hnext, hoare_if; intros _; apply inv_fst;
      [by apply exec_vector_config_ok|apply exec_vector_op_ok].
  - by apply Hnext, inv_fst, op_fma_ok.
  - eapply hoare_bind; [by apply inv_fst, fp_check_ok|]. intros _ _.
    eapply hoare_bind; [apply inv_fst, fp_dirty_ok|]. intros _ _.
    by apply Hnext, inv_fst, op_fp_ok.
  - by apply hoare_ret.
  - by apply inv_fst, exec_system_ok.
  - by apply hoare_throw.
Qed.

Lemma finish_ok f : flow_ok f -> hoare (cinv m) (finish f) stop_ok.
Proof using Type.
  intros Hf. destruct f as [npc stop|stop]; [|by apply hoare_ret]. destruct Hf as [Hf Hst].
  unfold finish. eapply hoare_bind; [|intros _ _; by apply hoare_ret].
  apply cinv_modify; [|done]. intros c [Hc _].
  apply wf_set_insn_count; [|auto with rv]. by apply wf_set_pc.
Qed.

Lemma execute_ok npc : uint 64 npc -> hoare (inv m) (execute insn npc) stop_ok.
Proof using Hinsn HV.
  intros Hnpc. unfold execute. eapply hoare_bind; [by apply exec_body_ok|].
  intros f Hf. by apply inv_fst, finish_ok.
Qed.
End Insn.

(** ** RVC and [step] *)

Lemma step_compressed_ok c :
  uint 16 c -> c .& 3 <> 3 -> hoare (inv m) (step_compressed c) stop_ok.
Proof using All.
  intros Hc Hq [h b] Hi. pose proof Hi as [[Hh _] _].
  rewrite (step_compressed_as_execute (H0 := H1) c h b Hc Hq Hh).
  assert (uint 32 c) by (apply (uint_mono 16); [lia|done]).
  destruct (expand c) as [[e|]|] eqn:E; [|by split..].
  destruct (expand_expansion c e E) as [He _].
  by apply (execute_ok e He (add64 (pc h) 2) (uint_add64 _ _)).
Qed.

Lemma insn_word_range lo hi : uint 16 lo -> uint 32 (lo .| shl32 hi 16).
Proof using Type. intros. apply uint_lor; [lia|by apply (uint_mono 16)|apply uint_shl32]. Qed.

Lemma step_ok : hoare (inv m) step stop_ok.
Proof using All.
  unfold step. eapply hoare_bind; [apply hart_ok|]. intros h [Hh _].
  eapply hoare_bind; [apply translate_ok; by apply wf_pc|]. intros pa Hpa.
  eapply hoare_bind; [by apply inv_snd, fetch16_ok|]. intros lo Hlo.
  apply hoare_if; intros Ht.
  - assert (u16 lo = lo) as -> by (by apply wrap_small).
    apply step_compressed_ok; [done|]. apply negb_true_iff in Ht. by apply Z.eqb_neq.
  - apply (hoare_bind _ _ _ (uint 64)).
    { apply hoare_if; intros _; [apply translate_ok, uint_add64|apply hoare_ret, uint_add64]. }
    intros pa2 Hpa2. eapply hoare_bind; [by apply inv_snd, fetch16_ok|]. intros hi Hhi.
    apply execute_ok; [by apply insn_word_range|apply uint_add64].
Qed.
End DecoderSafety.
