(* ===== verification/T0Run.v ===== *)
(** * The drivers: safety, and [run_integrated_scalar] against [run] *)

From S2P Require Import Prelude Exception Decode Compressed Csr State Bus Mmu Trap CsrOps.
From S2P Require Import Vector SoftFp Exec Step T0 Run Wf RvcEquiv T0Equiv SafeMem SafeCsr.
From S2P Require Import SafeExec SafeStep.

(** ** [run] keeps the invariant *)

Section RunSafety.
Context {B : Type} `{HV : VectorUnitOk B}.

Lemma poll_ok m : hoare (inv m) (poll m) (fun _ => True).
Proof using Type.
  intros s Hs. unfold poll. destruct m; [|by split].
  destruct (_ =? 0) eqn:E; revert s Hs E.
  - intros s Hs _. revert s Hs.
    apply (hoare_bind (inv true) _ _ (fun _ => True)).
    { apply inv_fst, cinv_modify; [|done]. intros c [Hc _].
      apply wf_set_irq_poll_cd; [done|uint_lit]. }
    intros _ _. eapply hoare_bind; [apply check_interrupts_ok|]. intros _ _. by apply hoare_ret.
  - intros [c b] [[Hc Hm] Hb] E%Z.eqb_neq. cbn [fst snd] in *. split; [|done].
    split; [|done]. split; [|done].
    apply wf_set_irq_poll_cd; [done|]. pose proof (wf_irq_poll_cd _ Hc).
    unfold uint in *. simpl. lia.
Qed.

(** Computations that raise nothing. *)
Definition quiet {S A} (m : Hart S A) : Prop := forall s e s', m s <> (Err e, s').

Lemma quiet_bind {S A C} (m : Hart S A) (k : A -> Hart S C) :
  quiet m -> (forall a, quiet (k a)) -> quiet (bind m k).
Proof using Type.
  intros Hm Hk s e s'. unfold bind. specialize (Hm s).
  destruct (m s) as [[a|e'|] s1]; [apply Hk|by destruct (Hm e' s1)|done].
Qed.

Lemma quiet_on_fst {S T A} (m : Hart S A) : quiet m -> quiet (on_fst (T := T) m).
Proof using Type.
  intros Hm s e s'. unfold on_fst. specialize (Hm (fst s)).
  destruct (m (fst s)) as [o s1]. intros [= -> _]. by destruct (Hm e s1).
Qed.

Lemma quiet_take_trap k v i : quiet (take_trap k v i).
Proof using Type.
  intros c e c'. unfold take_trap. cbv zeta.
  match goal with |- context [sys ?x] => destruct (sys x); [|done] end.
  by destruct (enter_trap _ _ _ _ _).
Qed.

Lemma quiet_exception_to_trap e : quiet (exception_to_trap e).
Proof using Type.
  intros c. unfold exception_to_trap. destruct (exception_cause_tval _ _).
  apply quiet_take_trap.
Qed.

Lemma quiet_poll m : quiet (poll (B := B) m).
Proof using Type.
  intros s. unfold poll. destruct m; [|done]. destruct (_ =? 0); [|done].
  apply quiet_bind; [done|]. intros _. apply quiet_bind; [|done].
  intros [c b] e s'. unfold check_interrupts. destruct (sys c); [|done].
  destruct (irq_lines b). cbv zeta. destruct (_ =? 0); [done|].
  destruct (select_irq _ _ _); [|done].
  by apply quiet_bind; [apply quiet_on_fst, quiet_take_trap|].
Qed.

Definition run_stop_ok (m : bool) (stop : StopReason) : Prop :=
  m = true -> forall e, stop <> Trap e.

Lemma step_or_trap_ok m :
  hoare (inv m) (step_or_trap m)
    (fun o => match o with Some stop => run_stop_ok m stop | None => True end).
Proof using All.
  unfold step_or_trap.
  apply (hoare_bind _ _ _ (fun r => match r with inr e => exc_ok e | inl o => stop_ok o end)).
  - intros s Hs. pose proof (step_ok m s Hs) as Hst. unfold attempt.
    destruct (step s) as [[o|e|] s']; done.
  - intros [stop|e] He.
    + apply hoare_ret. destruct stop as [[]|]; by simpl in *.
    + destruct m; [|by apply hoare_ret].
      eapply hoare_bind; [by apply inv_fst, exception_to_trap_ok|]. intros _ _. by apply hoare_ret.
Qed.

Lemma quiet_step_or_trap m : quiet (step_or_trap m).
Proof using Type.
  unfold step_or_trap. apply quiet_bind.
  - intros s e s'. unfold attempt. by destruct (step s) as [[]].
  - intros [stop|e]; [done|]. destruct m; [|done].
    by apply quiet_bind; [apply quiet_on_fst, quiet_exception_to_trap|].
Qed.

Lemma run_loop_ok m n : hoare (inv m) (run_loop m n) (run_stop_ok m).
Proof using All.
  induction n as [|n IH]; cbn [run_loop]; [by apply hoare_ret|].
  eapply hoare_bind; [apply poll_ok|]. intros _ _.
  eapply hoare_bind; [apply step_or_trap_ok|].
  intros [stop|] Hs; [by apply hoare_ret|apply IH].
Qed.

Lemma quiet_run_loop m n : quiet (run_loop m n).
Proof using Type.
  induction n as [|n IH]; cbn [run_loop]; [done|].
  apply quiet_bind; [apply quiet_poll|]. intros _.
  apply quiet_bind; [apply quiet_step_or_trap|]. by intros [stop|].
Qed.
End RunSafety.

(** ** The simulation *)

(** The hart without the interpreter's fetch cache. *)
Definition erase (c : Cpu) : Cpu :=
  publish_scalar_fetch_capability cap_invalid c.

Lemma erase_publish cap c : erase (publish_scalar_fetch_capability cap c) = erase c.
Proof. done. Qed.

Section Simulation.
Context {B : Type} `{HV : VectorUnitOk B} `{HP : !PlainBus B} `{HF : !VectorUnitFrame B}.

Lemma lag_id c : lag c.(pc) c.(insn_count) c = c.
Proof using Type. by destruct c. Qed.

Lemma framed_keeps {A} (m : Hart (Cpu * B) A) s :
  framed m -> insn_count (fst (snd (m s))) = insn_count (fst s).
Proof using Type.
  intros Hm. pose proof (Hm (pc (fst s)) (insn_count (fst s)) s) as E.
  assert (lags (pc (fst s)) (insn_count (fst s)) s = s) as Hid.
  { destruct s as [c b]. unfold lags. simpl. by rewrite lag_id. }
  rewrite Hid in E. apply (f_equal snd) in E. simpl in E. rewrite E at 1. done.
Qed.

(** [step] in user mode. *)
Lemma user_step h (b : B) :
  h.(sys) = None ->
  step (h, b)
  = match fst (fetch16 h.(pc) b) with
    | Ok lo =>
        if negb ((lo .& 3) =? 3) then step_compressed (u16 lo) (h, b) else
        match fst (fetch16 (add64 h.(pc) 2) b) with
        | Ok hi => execute (lo .| shl32 hi 16) (add64 h.(pc) 4) (h, b)
        | Err e => (Err e, (h, b))
        | Panic => (Panic, (h, b))
        end
    | Err e => (Err e, (h, b))
    | Panic => (Panic, (h, b))
    end.
Proof using HP.
  intros Hs.
  assert (forall va, on_snd (S := Cpu) (fetch16 va) (h, b) = (fst (fetch16 va b), (h, b))) as Hf.
  { intros va. unfold on_snd. cbn [fst snd]. pose proof (plain_fetch va b) as E.
    destruct (fetch16 va b) as [o b']. simpl in E. by subst b'. }
  assert (forall va, translate va Fetch (h, b) = (Ok va, (h, b))) as Ht.
  { intros va. unfold translate. by rewrite Hs. }
  unfold step, bind, gets, hart. cbn [fst]. rewrite Ht, Hf.
  destruct (fst (fetch16 (pc h) b)) as [lo|e|]; [|done..].
  destruct (negb _); [done|]. cbv zeta.
  destruct (add64 (pc h) 2 .& 0xfff =? 0); [rewrite Ht|unfold ret at 1]; rewrite Hf;
    by destruct (fst (fetch16 (add64 (pc h) 2) b)).
Qed.

(** A decoder's result paired with the unchanged capability. *)
Definition tagged (cap : ScalarFetchCapability)
    (r : outcome Exception ScalarT0Step * (Cpu * B)) :
    outcome (Exception * ScalarFetchCapability) (ScalarT0Step * ScalarFetchCapability)
    * (Cpu * B) :=
  (match fst r with
   | Ok s => Ok (s, cap)
   | Err e => Err (e, cap)
   | Panic => Panic
   end, snd r).

(** [scalar_t0_step] in user mode, without a capability. *)
Lemma user_t0_step p cap c (b : B) :
  c.(sys) = None -> cap.(cap_tag) = TLB_INVALID ->
  scalar_t0_step p 0 cap (c, b)
  = tagged cap
      match fst (fetch16 p b) with
      | Ok lo =>
          if negb ((lo .& 3) =? 3) then scalar_t0_compressed (u16 lo) p (c, b) else
          match fst (fetch16 (add64 p 2) b) with
          | Ok hi => scalar_t0_body (lo .| shl32 hi 16) p (c, b)
          | Err e => (Err e, (c, b))
          | Panic => (Panic, (c, b))
          end
      | Err e => (Err e, (c, b))
      | Panic => (Panic, (c, b))
      end.
Proof using HP.
  intros Hs Ht. unfold scalar_t0_step, with_cap, bind at 1, map_err at 1.
  rewrite user_fetch by done.
  destruct (fst (fetch16 p b)) as [lo|e|]; [|done..].
  destruct (negb _).
  { unfold bind, map_err, tagged.
    by destruct (scalar_t0_compressed (u16 lo) p (c, b)) as [[]]. }
  cbv zeta. unfold bind at 1, map_err at 1.
  assert (forall va, on_snd (S := Cpu) (fetch16 va) (c, b) = (fst (fetch16 va b), (c, b))) as Hf.
  { intros va. unfold on_snd. cbn [fst snd]. pose proof (plain_fetch va b) as E.
    destruct (fetch16 va b) as [o b']. simpl in E. by subst b'. }
  destruct (add64 p 2 .& 0xfff =? 0); unfold bind at 1; [rewrite user_fetch by done|rewrite Hf];
    destruct (fst (fetch16 (add64 p 2) b)) as [hi|e|]; try done; cbv beta iota;
    unfold bind, map_err, tagged, ret; cbv beta iota;
    by destruct (scalar_t0_body (lo .| shl32 hi 16) p (c, b)) as [[]].
Qed.

(** One Tier-0 step against one [step] of the architectural hart. *)
Definition t0_sim (p k : Z) (s : Cpu * B)
    (t : outcome Exception ScalarT0Step * (Cpu * B))
    (r : outcome Exception (option StopReason) * (Cpu * B)) : Prop :=
  match fst t with
  | Ok (Retired n) => r = (Ok None, lags n (add64 k 1) (snd t))
  | Ok (Stop n stop) => r = (Ok (Some stop), lags n (add64 k 1) (snd t))
  | Ok Slow => snd t = s
  | Err e => r = (Err e, lags p k (snd t))
  | Panic => r = (Panic, lags p k (snd t))
  end.

(** From a body that the Tier-0 decoder lifts. *)
Lemma t0_sim_lift p k (s : Cpu * B) (t : Hart (Cpu * B) ScalarT0Step)
    (f : Hart (Cpu * B) flow) :
  framed t -> t (lags p k s) = lift (f (lags p k s)) \/ t (lags p k s) = (Ok Slow, lags p k s)
    /\ t s = (Ok Slow, s) ->
  (forall st s', f (lags p k s) <> (Ok (Return st), s')) ->
  t0_sim p k s (t s) ((x <- f ;; on_fst (finish x)) (lags p k s)).
Proof using Type.
  intros Hfr [Hl|[_ Hslow]] Hret; [|by rewrite Hslow].
  rewrite (Hfr p k s) in Hl. unfold t0_sim, bind.
  destruct (f (lags p k s)) as [[[n [r|]|st]|e|] sf] eqn:Ef; unfold lift in Hl; simpl in Hl;
    injection Hl as Ho Hst; rewrite Ho; subst sf.
  - by destruct (snd (t s)).
  - by destruct (snd (t s)).
  - by destruct (Hret st (lags p k (snd (t s)))).
  - done.
  - done.
Qed.

(** Bodies that end in the common epilogue. *)
Definition falls (f : Hart (Cpu * B) flow) : Prop :=
  forall s st s', f s <> (Ok (Return st), s').

Lemma falls_bind {A} (m : Hart (Cpu * B) A) k : (forall a, falls (k a)) -> falls (bind m k).
Proof using Type.
  intros Hk s st s'. unfold bind. destruct (m s) as [[a|e|] s1]; [apply Hk|done|done].
Qed.

Ltac falls_tac :=
  repeat match goal with
  | |- falls (bind _ _) => apply falls_bind; intros
  | |- falls (if ?x then _ else _) => destruct x
  | |- falls (match ?x with _ => _ end) => destruct x
  end; try done.

Lemma rvc_falls c : falls (rvc_body c).
Proof using Type.
  assert (forall f3 npc, falls (step_compressed_q0 c f3 npc)) as H0'.
  { intros. unfold step_compressed_q0. cbv zeta. falls_tac. }
  assert (forall f3 npc, falls (step_compressed_q1 c f3 npc)) as H1'.
  { intros. unfold step_compressed_q1. cbv zeta. falls_tac. }
  assert (forall f3 npc, falls (step_compressed_q2 c f3 npc)) as H2'.
  { intros. unfold step_compressed_q2. cbv zeta. falls_tac. }
  intros s st s'. unfold rvc_body. cbv zeta. destruct (c =? 0); [done|].
  destruct (c .& 3 =? 0); [apply H0'|]. destruct (c .& 3 =? 1); [apply H1'|].
  destruct (c .& 3 =? 2); [apply H2'|done].
Qed.

Lemma exec_falls insn npc : opcode insn <> 0x73 -> falls (exec_body (B := B) insn npc).
Proof using Type.
  intros Hop. unfold exec_body. cbv zeta. rewrite (proj2 (Z.eqb_neq _ _) Hop). falls_tac.
Qed.

Lemma t0_family_not_system insn : t0_family insn = true -> opcode insn <> 0x73.
Proof using Type. intros Hf E. unfold t0_family in Hf. by rewrite E in Hf. Qed.

Lemma user_sim p k cap c (b : B) :
  c.(sys) = None -> cap.(cap_tag) = TLB_INVALID ->
  exists t, scalar_t0_step p 0 cap (c, b) = tagged cap t
    /\ t0_sim p k (c, b) t (step (lag p k c, b)).
Proof using HP HF.
  intros Hs Ht. rewrite user_t0_step by done. eexists. split; [reflexivity|].
  rewrite user_step by done. change (pc (lag p k c)) with p.
  destruct (fst (fetch16 p b)) as [lo|e|]; [|done..].
  destruct (negb _).
  - rewrite step_compressed_body. apply (t0_sim_lift p k (c, b)).
    + apply framed_t0_compressed.
    + pose proof (t0_compressed_exec (u16 lo) (lags p k (c, b))) as E1.
      pose proof (t0_compressed_exec (u16 lo) (lags p k (c, b))) as E2.
      change (pc (fst (lags p k (c, b)))) with p in *.
      destruct (_ || _) eqn:Ef; [by left|right]. split; [done|].
      pose proof (framed_t0_compressed (u16 lo) p (pc c) (insn_count c) (lags p k (c, b))) as E3.
      rewrite E1 in E3. unfold lags in E3. cbn [fst snd] in E3.
      assert (lag (pc c) (insn_count c) (lag p k c) = c) as Hid by (by destruct c).
      by rewrite Hid in E3.
    + intros. apply rvc_falls.
  - destruct (fst (fetch16 (add64 p 2) b)) as [hi|e|]; [|done..].
    set (insn := lo .| shl32 hi 16).
    pose proof (t0_body_exec insn (lag p k c) b) as E1. change (pc (lag p k c)) with p in E1.
    destruct (t0_family insn) eqn:Ef.
    + apply (t0_sim_lift p k (c, b)); [apply framed_t0_body|by left|].
      intros. apply exec_falls. by apply t0_family_not_system.
    + assert (scalar_t0_body insn p (c, b) = (Ok Slow, (c, b))) as ->; [|done].
      pose proof (framed_t0_body insn p (pc c) (insn_count c) (lags p k (c, b))) as E3.
      unfold lags in E3. cbn [fst snd] in E3. rewrite E1 in E3. cbn [fst snd] in E3.
      assert (lag (pc c) (insn_count c) (lag p k c) = c) as Hid by (by destruct c).
      by rewrite Hid in E3.
Qed.

(** The insn count never moves during a Tier-0 step. *)
Lemma user_t0_keeps p cap c (b : B) t :
  c.(sys) = None -> cap.(cap_tag) = TLB_INVALID ->
  scalar_t0_step p 0 cap (c, b) = tagged cap t ->
  insn_count (fst (snd t)) = insn_count c.
Proof using HP HF.
  intros Hs Ht E. rewrite user_t0_step in E by done.
  apply (f_equal snd) in E. unfold tagged in E. simpl in E. rewrite <- E. clear E.
  destruct (fst (fetch16 p b)); [|done..].
  destruct (negb _); [apply (framed_keeps _ (c, b)), framed_t0_compressed|].
  destruct (fst (fetch16 (add64 p 2) b)); [|done..].
  apply (framed_keeps _ (c, b)), framed_t0_body.
Qed.

Lemma add64_assoc1 a r : add64 (add64 a r) 1 = add64 a (add64 r 1).
Proof using Type.
  unfold add64, u64, wrap. rewrite Zplus_mod_idemp_l, Zplus_mod_idemp_r. f_equal. lia.
Qed.

Lemma run_loop_user n s :
  run_loop (B := B) false (S n) s
  = match step s with
    | (Ok None, s') => run_loop false n s'
    | (Ok (Some stop), s') => (Ok stop, s')
    | (Err e, s') => (Ok (Trap e), s')
    | (Panic, s') => (Panic, s')
    end.
Proof using Type.
  cbn [run_loop]. unfold bind, poll, ret, step_or_trap, bind, attempt.
  by destruct (step s) as [[[]| |] s'].
Qed.

Lemma t0_loop_user {U} stop_at obs n seen (u : U) l s :
  t0_loop (B := B) stop_at obs false false false (S n) seen u l s
  = match t0_dispatch false l s with
    | (Ok (inl l'), s') => t0_loop stop_at obs false false false n seen u l' s'
    | (Ok (inr stop), s') => (Ok (stop, u), s')
    | (Err e, s') => (Err e, s')
    | (Panic, s') => (Panic, s')
    end.
Proof using Type.
  cbn [t0_loop]. unfold bind, t0_poll, ret, t0_observe.
  by destruct (t0_dispatch false l s) as [[[]| |] s'].
Qed.

(** Where an architectural state is fully committed. *)
Lemma committed c : wf_cpu c -> lag c.(pc) (add64 c.(insn_count) 0) c = c.
Proof using Type.
  intros Hc. rewrite (add64_0_r _ (wf_insn_count _ Hc)). apply lag_id.
Qed.

(** The simulation loop.  [k] is the architectural retirement count. *)
Lemma t0_loop_sim {U} stop_at obs n seen (u : U) p r cap c (b : B) :
  let k := add64 c.(insn_count) r in
  inv false (lag p k c, b) -> cap.(cap_tag) = TLB_INVALID ->
  exists stop s1 s2,
    t0_loop stop_at obs false false false n seen u (mkLocals p r 0 cap) (c, b)
      = (Ok (stop, u), s1)
    /\ run_loop false n (lag p k c, b) = (Ok stop, s2)
    /\ erase (fst s1) = erase (fst s2) /\ snd s1 = snd s2.
Proof using HV HP HF.
  revert seen p r cap c b. induction n as [|n IH]; intros seen p r cap c b k Hinv Hcap.
  { by eexists _, _, _. }
  assert (c.(sys) = None) as Hs.
  { destruct Hinv as [[_ Hm] _]. unfold is_sys in Hm. simpl in Hm. by destruct (sys c). }
  destruct (user_sim p k cap c b Hs Hcap) as (t & Et & Hsim).
  pose proof (user_t0_keeps p cap c b t Hs Hcap Et) as Hk.
  pose proof (step_ok false _ Hinv) as Hst.
  rewrite t0_loop_user, run_loop_user. unfold t0_dispatch. cbn [l_pc fetch_context fetch].
  rewrite Et. unfold tagged, t0_sim in *.
  destruct t as [[[np|np stop|]|e|] [c' b']]; cbn [fst snd] in *.
  - rewrite Hsim in Hst |- *. destruct Hst as [Hinv' _]. unfold lags in *. cbn [fst snd] in *.
    unfold k in Hinv' |- *. rewrite add64_assoc1, <- Hk in Hinv' |- *. by apply IH.
  - rewrite Hsim. unfold bind, on_fst, modify, ret, lags. cbn [fst snd].
    eexists _, _, _. split; [reflexivity|]. split; [reflexivity|].
    split; [|done]. cbn [fst]. rewrite erase_publish. unfold commit_scalar_t0_state.
    rewrite Hk, <- add64_assoc1. done.
  - injection Hsim as -> ->. unfold bind, commit, on_fst, modify, ret.
    cbn [fst snd l_pc retired fetch_context fetch].
    change (commit_scalar_t0_state p r c) with (lag p k c).
    unfold step_or_trap, bind, attempt, ret, gets, hart.
    destruct (step (lag p k c, b)) as [[[stop|]|e|] [c2 b2]]; cbn [fst].
    + by eexists _, _, _.
    + destruct Hst as [[[Hc2 Hm2] Hb2] _]. cbn [fst snd] in *.
      assert (fetch_mode c2 = 0) as ->.
      { unfold fetch_mode. unfold is_sys in Hm2. by destruct (sys c2). }
      pose proof (IH seen (pc c2) 0 (cap_drop cap) c2 b2) as IH'. cbv zeta in IH'.
      rewrite committed in IH' by done. by apply IH'.
    + by eexists _, _, _.
    + done.
  - rewrite Hsim. unfold bind, commit, on_fst, modify, ret, lags.
    cbn [fst snd l_pc retired].
    eexists _, _, _. split; [reflexivity|]. split; [reflexivity|]. split; [|done].
    cbn [fst]. unfold commit_scalar_t0_state, lag, k. by rewrite Hk.
  - rewrite Hsim in Hst. done.
Qed.
End Simulation.

(** C1: The integrated Tier-0 driver refines the reference loop in user mode: on a bus
    like flat guest memory, from any well-formed hart without a cached fetch
    capability, [run_integrated_scalar] and [run] with the same budget return
    the same stop reason, leave the bus in the same state, and leave harts that
    differ at most in the interpreter's private fetch cache (so the same
    registers, program counter, retirement count and CSRs). *)
Theorem run_integrated_scalar_refines_run
    {B} `{VectorUnitOk B} `{!PlainBus B} `{!VectorUnitFrame B} budget c (b : B) :
  inv false (c, b) -> c.(interpreter_fetch_tag) = TLB_INVALID ->
  let t := run_integrated_scalar budget (c, b) in
  let r := run budget (c, b) in
  fst t = fst r /\ erase (fst (snd t)) = erase (fst (snd r)) /\ snd (snd t) = snd (snd r).
Proof.
  intros Hinv Htag t r. unfold t, r, run_integrated_scalar, run_integrated_scalar_t0, run.
  destruct Hinv as [[Hc Hm] Hb]. cbn [fst snd] in *. rewrite Hm.
  assert (fetch_mode c = 0) as Hfm.
  { unfold fetch_mode. unfold is_sys in Hm. by destruct (sys c). }
  assert (cap_tag (initial_capability c) = TLB_INVALID) as Hcap.
  { unfold initial_capability. by destruct (_ =? _). }
  pose proof (t0_loop_sim (fun _ u => (false, u)) (fun _ _ _ _ u => u) (Z.to_nat budget) false
    tt (pc c) 0 (initial_capability c) c b) as Hsim.
  cbv zeta in Hsim. rewrite committed in Hsim by done.
  destruct (Hsim) as (stop & s1 & s2 & E1 & E2 & E3 & E4); [by split|done|].
  unfold bind. cbv zeta. cbn [fst]. rewrite Hm, Hfm, E1, E2. by split_and!.
Qed.

(** ** The invariant of the whole hart *)

(** C3: Executing one instruction is safe: from a well-formed hart on a bus that keeps
    its promise ([BusOk]: an access at any address returns or faults, and the
    memory stays bytes; flat memory not based below 8 does so, and the board
    without virtio devices), [step] never reaches a panic (an unwrap of [None], a slice out
    of range, an [unreachable!] arm), whatever the instruction bytes are, and it
    ends, whether it retires, stops or raises, in a well-formed hart of the same
    kind (x0 zero, every register and CSR in its range, every table of its
    length, WARL fields legal); a raised exception carries machine-width
    values. *)
Theorem step_safe {B} `{VectorUnitOk B} m : hoare (inv (B := B) m) step stop_ok.
Proof. apply step_ok. Qed.

Lemma run_total {B} `{VectorUnitOk B} m budget (s : Cpu * B) :
  inv m s ->
  exists stop s', run budget s = (Ok stop, s') /\ inv m s'
    /\ (m = true -> forall e, stop <> Trap e).
Proof.
  intros Hs. unfold run. destruct (proj1 Hs) as [_ Hm]. rewrite Hm.
  pose proof (run_loop_ok m (Z.to_nat budget) s Hs) as Hr.
  pose proof (quiet_run_loop (B := B) m (Z.to_nat budget) s) as Hq.
  destruct (run_loop m (Z.to_nat budget) s) as [[stop|e|] s']; [|by destruct (Hq e s')|done].
  destruct Hr. by exists stop, s'.
Qed.

(** C24: [run] is total and safe on a bus that keeps its promise ([BusOk]: an
    access at any address returns or faults, and the memory stays bytes): for every
    budget, from a well-formed hart, in user or full-system mode, it returns a stop reason without a panic and keeps the
    invariant; in full-system mode every exception has become a guest trap. *)
Theorem run_safe {B} `{VectorUnitOk B} m budget (s : Cpu * B) :
  inv m s ->
  exists stop s', run budget s = (Ok stop, s') /\ inv m s'
    /\ (m = true -> forall e, stop <> Trap e).
Proof. apply run_total. Qed.

(** ** A concrete machine for the witnesses

    A hart on flat memory holding [li a0, 5; ecall], with the vector unit that
    traps on everything. *)

#[local] Instance unit_FlatMemory : VectorUnit FlatMemory := trapping_unit.

#[local] Instance unit_FlatMemory_frame : VectorUnitFrame FlatMemory.
Proof. by constructor. Qed.

#[local] Instance unit_FlatMemory_ok : VectorUnitOk FlatMemory.
Proof.
  split; intros; simpl; apply hoare_throw; simpl;
    (eapply uint_mono; [|eassumption]; lia).
Qed.

Definition demo_memory : FlatMemory :=
  mkFlat 0x1000 [0x15; 0x45; 0x73; 0x00; 0x00; 0x00; 0x00; 0x00].

Definition demo_hart : Cpu := set_pc 0x1000 Cpu_new.

Lemma demo_inv : inv false (demo_hart, demo_memory).
Proof.
  split; [split; [|done]|].
  - apply wf_set_pc; [apply wf_Cpu_new|unfold uint; lia].
  - split; [cbn; lia|]. split; [cbn; lia|]. repeat constructor; unfold uint; lia.
Qed.

Lemma run_integrated_scalar_refines_run_witness :
  fst (run_integrated_scalar 10 (demo_hart, demo_memory)) = Ok Ecall
  /\ fst (run 10 (demo_hart, demo_memory)) = Ok Ecall
  /\ erase (fst (snd (run_integrated_scalar 10 (demo_hart, demo_memory))))
     = erase (fst (snd (run 10 (demo_hart, demo_memory)))).
Proof.
  destruct (run_integrated_scalar_refines_run 10 demo_hart demo_memory demo_inv eq_refl)
    as (E1 & E2 & _).
  split; [vm_compute; reflexivity|]. split; [|exact E2].
  rewrite <- E1. vm_compute. reflexivity.
Defined.

Lemma step_safe_witness :
  inv false (snd (step (demo_hart, demo_memory))).
Proof.
  pose proof (step_safe (B := FlatMemory) false (demo_hart, demo_memory) demo_inv) as H.
  destruct (step (demo_hart, demo_memory)) as [[o|e|] s]; [apply H|apply H|destruct H].
Defined.

Lemma run_safe_witness :
  exists stop s', run 10 (demo_hart, demo_memory) = (Ok stop, s') /\ inv false s'.
Proof.
  destruct (run_safe false 10 (demo_hart, demo_memory) demo_inv) as (stop & s' & E & H & _).
  by exists stop, s'.
Defined.
