(* ===== verification/MmuSpec.v ===== *)
(** * What address translation promises

    The Sv39/Sv48 page table as an inductive relation on memory, independent of
    the walker; the walk of [translate_slow] implements it, the TLB answers as
    the walk did, tags separate permission contexts, and fences forget. *)

From S2P Require Import Prelude Exception Decode Csr State Bus Mmu Trap CsrOps Wf SafeMem.

(** ** Bits, pages and tags *)

Lemma bit_land x n : 0 <= n -> (x .>> n) .& 1 = Z.b2z (Z.testbit x n).
Proof.
  intros. rewrite Z.testbit_spec', Z.shiftr_div_pow2 by done.
  change 1 with (Z.ones 1). by rewrite Z.land_ones.
Qed.

Lemma land_1 x : x .& 1 = Z.b2z (Z.testbit x 0).
Proof. rewrite <- bit_land by lia. by rewrite Z.shiftr_0_r. Qed.

Lemma b2z_0 b : (Z.b2z b =? 0) = negb b.
Proof. by destruct b. Qed.

Lemma b2z_1 b : (Z.b2z b =? 1) = b.
Proof. by destruct b. Qed.

Lemma page_split va : uint 64 va -> va .& TLB_PAGE_MASK = va / 4096 * 4096.
Proof.
  intros Hva. unfold TLB_PAGE_MASK. arith_bits. f_equal. apply Z.mod_small.
  revert Hva. unfold uint. zlia.
Qed.

Lemma context_range c a : uint 4 (translation_context c a).
Proof.
  unfold translation_context. destruct (sys c) as [s|]; [|by apply uint_0].
  assert (uint 4 (mode_bits (eff_mode s a))) by (apply uint_mode_bits; lia).
  cbv zeta. repeat case_match; uint_tac.
Qed.

Lemma data_context_range c : uint 4 (data_tlb_context c).
Proof.
  unfold data_tlb_context. destruct (sys c) as [s|]; [|by apply uint_0].
  assert (uint 4 (mode_bits (eff_mode s Load))) by (apply uint_mode_bits; lia).
  cbv zeta. repeat case_match; uint_tac.
Qed.

(** A tag is a page number and a 4-bit context side by side. *)
Lemma tag_sum va ctx : uint 64 va -> uint 4 ctx ->
  (va .& TLB_PAGE_MASK) .| ctx = va / 4096 * 4096 + ctx.
Proof.
  intros Hva Hctx. rewrite page_split by done. apply (lor_add_hi 12); [lia| |].
  - revert Hctx. apply uint_mono. lia.
  - apply Z.mod_mul. lia.
Qed.

Lemma tag_not_invalid va ctx : uint 64 va -> uint 4 ctx ->
  (va .& TLB_PAGE_MASK) .| ctx <> TLB_INVALID.
Proof.
  intros Hva Hctx. rewrite tag_sum by done. unfold TLB_INVALID.
  revert Hva Hctx. unfold uint. zlia.
Qed.

Lemma tag_inj va ctx va' ctx' :
  uint 64 va -> uint 64 va' -> uint 4 ctx -> uint 4 ctx' ->
  (va .& TLB_PAGE_MASK) .| ctx = (va' .& TLB_PAGE_MASK) .| ctx' ->
  va / 4096 = va' / 4096 /\ ctx = ctx'.
Proof.
  intros ? ? H H'. rewrite !tag_sum by done. revert H H'. unfold uint. zlia.
Qed.

(** The page a tag names. *)
Lemma tag_page va ctx : uint 64 va -> uint 4 ctx ->
  ((va .& TLB_PAGE_MASK) .| ctx) .& TLB_PAGE_MASK = va / 4096 * 4096.
Proof.
  intros Hva Hctx. rewrite tag_sum by done.
  rewrite page_split; revert Hva Hctx; unfold uint; zlia.
Qed.

(** ** Rows *)

Lemma row_get_set_same n t r i v :
  bank n t -> 0 <= r < Z.of_nat n -> 0 <= i < TLB_SIZE -> row_get (row_set t r i v) r i = v.
Proof.
  intros Ht Hr Hi. unfold row_get, row_set. pose proof (bank_row n t r Ht Hr) as [Hl _].
  rewrite aget_aset_same by (destruct Ht; lia).
  apply aget_aset_same. rewrite Hl. lia.
Qed.

Lemma same_page_shift va va' : va / 4096 = va' / 4096 -> va .>> 12 = va' .>> 12.
Proof. intros E. rewrite !(shiftr_lit _ 12 4096) by done. done. Qed.

Lemma aget_replicate n v i : 0 <= i < Z.of_nat n -> aget (replicate n v) i = v :> Z.
Proof. intros. unfold aget. apply lookup_total_replicate_2. lia. Qed.

Lemma row_get_fresh n v r i :
  0 <= r < Z.of_nat n -> 0 <= i < TLB_SIZE -> row_get (tlb_bank n v) r i = v.
Proof.
  intros Hr Hi. unfold row_get, tlb_bank.
  unfold aget at 2. rewrite lookup_total_replicate_2 by lia.
  apply aget_replicate. lia.
Qed.

(** ** The page table *)

(** A page-table entry is valid when V is set and it is not writable without
    being readable; R or X makes it a leaf. *)
Definition pte_valid (pte : Z) : bool :=
  Z.testbit pte 0 && (Z.testbit pte 1 || negb (Z.testbit pte 2)).
Definition pte_leaf (pte : Z) : bool := Z.testbit pte 1 || Z.testbit pte 3.
Definition pte_ppn (pte : Z) : Z := pte / 1024.
Definition vpn (level : nat) (va : Z) : Z := va / 2 ^ (12 + 9 * Z.of_nat level) mod 512.
Definition pte_slot (level : nat) (table va : Z) : Z := u64 (table + 8 * vpn level va).

(** What a leaf grants: U against the mode and SUM, R/W/X (with MXR) against the
    access. *)
Definition permitted (md : Mode) (sum mxr : bool) (access : Access) (pte : Z) : Prop :=
  match md with
  | User => Z.testbit pte 4 = true
  | Supervisor => Z.testbit pte 4 = false \/ (sum = true /\ access <> Fetch)
  | Machine => True
  end
  /\ match access with
     | Fetch => Z.testbit pte 3 = true
     | Load => Z.testbit pte 1 = true \/ (mxr = true /\ Z.testbit pte 3 = true)
     | Store => Z.testbit pte 2 = true
     end.

(** A superpage leaf at [level] is aligned to its size. *)
Definition leaf_aligned (level : nat) (pte : Z) : bool :=
  pte_ppn pte mod 2 ^ (9 * Z.of_nat level) =? 0.

(** The physical address of [va] under a leaf at [level]. *)
Definition leaf_address (level : nat) (pte va : Z) : Z :=
  u64 (pte_ppn pte * 4096) + va mod 2 ^ (12 + 9 * Z.of_nat level).

(** A leaf with A set, and D for a store. *)
Definition marked_pte (access : Access) (pte : Z) : Z :=
  match access with
  | Store => Z.setbit (Z.setbit pte 6) 7
  | Fetch | Load => Z.setbit pte 6
  end.

Lemma pte_ad_marked access pte : pte_ad access pte = marked_pte access pte.
Proof. by destruct access. Qed.

Section PageTable.
Context {B : Type} `{Bus B}.

Definition pte_at (b : B) (a : Z) : option Z :=
  match fst (read64 a b) with Ok v => Some v | _ => None end.

(** [maps b va level table lv slot pte]: from [table] at [level], the entry for
    [va] is the leaf [pte], stored at [slot], of level [lv]. *)
Inductive maps (b : B) (va : Z) : nat -> Z -> nat -> Z -> Z -> Prop :=
| maps_leaf level table pte :
    pte_at b (pte_slot level table va) = Some pte ->
    pte_valid pte = true -> pte_leaf pte = true -> leaf_aligned level pte = true ->
    maps b va level table level (pte_slot level table va) pte
| maps_pointer level table pte lv slot leaf :
    pte_at b (pte_slot (S level) table va) = Some pte ->
    pte_valid pte = true -> pte_leaf pte = false ->
    maps b va level (u64 (pte_ppn pte * 4096)) lv slot leaf ->
    maps b va (S level) table lv slot leaf.

(** The accessed/dirty update of a leaf. *)
Definition leaf_marked (access : Access) (slot pte : Z) (b b' : B) : Prop :=
  if marked_pte access pte =? pte then b' = b
  else write64 slot (marked_pte access pte) b = (Ok tt, b').

Definition tlb_fill (access : Access) (tag va pa : Z) (c : Cpu) : Cpu :=
  let idx := (va .>> 12) .& (TLB_SIZE - 1) in
  set_tlb_diff (row_set c.(tlb_diff) (access_index access) idx (sub64 pa va))
    (set_tlb_tag (row_set c.(tlb_tag) (access_index access) idx tag) c).
End PageTable.

(** A bus whose 64-bit reads have no side effect (as page-table memory). *)
Class PureReads (B : Type) `{Bus B} : Prop :=
  read64_pure a b : snd (read64 a b) = b.

#[global] Instance FlatMemory_PureReads : PureReads FlatMemory.
Proof.
  intros a f. simpl. unfold flat_read. destruct (offset f a 8); [|done].
  by destruct (slice _ _ _).
Qed.

(** ** The code's tests are the specification's *)

Lemma walk_vpn level va table :
  add64 table (((va .>> (12 + 9 * Z.of_nat level)) .& 0x1ff) * 8) = pte_slot level table va.
Proof.
  unfold pte_slot, vpn, add64. rewrite Z.shiftr_div_pow2 by lia.
  rewrite (land_ones_lit _ _ 9) by done. change (2 ^ 9) with 512. f_equal. lia.
Qed.

Lemma walk_invalid pte :
  ((pte .& 1 =? 0) || (((pte .>> 1) .& 1 =? 0) && ((pte .>> 2) .& 1 =? 1)))
  = negb (pte_valid pte).
Proof.
  rewrite land_1, !bit_land, !b2z_0, b2z_1 by lia. unfold pte_valid.
  by repeat destruct (Z.testbit _ _).
Qed.

Lemma walk_pointer pte :
  (((pte .>> 1) .& 1 =? 0) && ((pte .>> 3) .& 1 =? 0)) = negb (pte_leaf pte).
Proof.
  rewrite !bit_land, !b2z_0 by lia. unfold pte_leaf. by repeat destruct (Z.testbit _ _).
Qed.

Lemma walk_ppn pte : pte .>> 10 = pte_ppn pte.
Proof. by rewrite (shiftr_lit _ 10 1024). Qed.

Lemma walk_misaligned level pte :
  ((0 <? Z.of_nat level) && negb ((pte_ppn pte .& ((1 .<< (9 * Z.of_nat level)) - 1)) =? 0))
  = negb (leaf_aligned level pte).
Proof.
  unfold leaf_aligned.
  rewrite Z.shiftl_1_l, (land_ones_lit _ _ (9 * Z.of_nat level))
    by (rewrite ?Z.ones_equiv; lia).
  destruct level; [|by destruct (_ =? 0)]. change (2 ^ (9 * Z.of_nat 0)) with 1.
  by rewrite Z.mod_1_r.
Qed.

Lemma leaf_allows_permitted md sum mxr access pte :
  leaf_allows md sum mxr access pte = true <-> permitted md sum mxr access pte.
Proof.
  unfold leaf_allows, permitted. rewrite !bit_land, !b2z_0, !b2z_1, negb_involutive by lia.
  rewrite andb_true_iff.
  destruct md, access; cbn [access_eqb access_index Z.eqb Pos.eqb negb];
    rewrite ?andb_true_r, ?andb_false_r; destruct sum, mxr, (Z.testbit pte 4),
      (Z.testbit pte 1), (Z.testbit pte 2), (Z.testbit pte 3); cbn; intuition congruence.
Qed.

Lemma leaf_pa_address level pte va :
  (level <= 4)%nat -> leaf_aligned level pte = true ->
  leaf_pa (Z.of_nat level) (pte_ppn pte) va = leaf_address level pte va.
Proof.
  intros Hl Ha. unfold leaf_pa, leaf_address, leaf_aligned in *. apply Z.eqb_eq in Ha.
  set (k := Z.of_nat level) in *. cbv zeta.
  assert ((1 .<< (12 + 9 * k)) - 1 = Z.ones (12 + 9 * k)) as ->
    by (rewrite Z.ones_equiv, Z.shiftl_1_l; lia).
  rewrite Z.land_ones by lia. unfold shl64. rewrite (shiftl_lit _ 12 4096) by done.
  assert (u64 (pte_ppn pte * 4096) mod 2 ^ (12 + 9 * k) = 0) as Hm.
  { unfold u64, wrap. apply Z.mod_divide in Ha; [|lia]. destruct Ha as [q ->].
    replace (2 ^ 64) with (2 ^ (52 - 9 * k) * 2 ^ (12 + 9 * k))
      by (rewrite <- Z.pow_add_r by lia; f_equal; lia).
    replace (q * 2 ^ (9 * k) * 4096) with (q * 2 ^ (12 + 9 * k))
      by (rewrite Z.pow_add_r by lia; change (2 ^ 12) with 4096; ring).
    rewrite Z.mul_mod_distr_r by lia. apply Z.mod_mul. lia. }
  rewrite Z.ldiff_ones_r, Z.shiftl_mul_pow2, Z.shiftr_div_pow2 by lia.
  apply Z.mod_divide in Hm as [q ->]; [|lia]. rewrite Z.div_mul by lia.
  apply (lor_add_hi (12 + 9 * k)); [lia| |apply Z.mod_mul; lia]. apply Z.mod_pos_bound. lia.
Qed.

(** ** The walk implements the page table *)

Section Walk.
Context {B : Type} `{HB : Bus B} `{!PureReads B}.

(** What the walker does once it stands on the leaf. *)
Definition walk_leaf (md : Mode) (sum mxr : bool) (tag va : Z) (access : Access)
    (lv : nat) (slot pte : Z) : Hart (Cpu * B) Z :=
  if leaf_allows md sum mxr access pte then
    (if pte_ad access pte =? pte then ret tt
     else map_err (fun _ => fault access va) (on_snd (write64 slot (pte_ad access pte)))) ;;;
    modify (fun '(c, b) =>
      (tlb_fill access tag va (leaf_pa (Z.of_nat lv) (pte_ppn pte) va) c, b)) ;;;
    ret (leaf_pa (Z.of_nat lv) (pte_ppn pte) va)
  else throw (fault access va).

(** One level of the walk, in the specification's terms. *)
Lemma walk_unfold level md sum mxr tag table va access c (b : B) :
  walk level md sum mxr tag table va access (c, b)
  = let slot := pte_slot level table va in
    match fst (read64 slot b) with
    | Ok pte =>
        if negb (pte_valid pte) then (Err (fault access va), (c, b))
        else if negb (pte_leaf pte) then
          match level with
          | O => (Err (fault access va), (c, b))
          | S level' => walk level' md sum mxr tag (u64 (pte_ppn pte * 4096)) va access (c, b)
          end
        else if negb (leaf_aligned level pte) then (Err (fault access va), (c, b))
        else walk_leaf md sum mxr tag va access level slot pte (c, b)
    | Err _ => (Err (fault access va), (c, b))
    | Panic => (Panic, (c, b))
    end.
Proof.
  destruct level as [|level]; cbn [walk]; rewrite walk_vpn; cbv zeta;
    unfold bind at 1, map_err at 1, on_snd at 1; cbn [fst snd];
    lazymatch goal with |- context [read64 ?a b] => pose proof (read64_pure a b) as Hp end;
    (destruct (read64 _ b) as [[pte| |] b'] eqn:E; cbn [fst snd] in *; subst b'; [|done..]).
  all: rewrite walk_invalid; destruct (pte_valid pte); cbn [negb]; [|done].
  all: rewrite walk_pointer; destruct (pte_leaf pte); cbn [negb].
  - rewrite !walk_ppn, walk_misaligned.
    destruct (leaf_aligned _ pte); [|done]. cbn [negb]. unfold walk_leaf.
    destruct (leaf_allows _ _ _ _ _); [|done]. cbn [negb].
    by destruct (_ =? pte).
  - done.
  - rewrite !walk_ppn, walk_misaligned.
    destruct (leaf_aligned _ pte); [|done]. cbn [negb]. unfold walk_leaf.
    destruct (leaf_allows _ _ _ _ _); [|done]. cbn [negb].
    by destruct (_ =? pte).
  - unfold shl64. rewrite walk_ppn, (shiftl_lit _ 12 4096) by done. done.
Qed.

(** The walk ends on the leaf the page table maps, or does not succeed. *)
Lemma walk_maps level md sum mxr tag table va access c (b : B) :
  (exists lv slot pte, maps b va level table lv slot pte /\ (lv <= level)%nat
     /\ walk level md sum mxr tag table va access (c, b)
        = walk_leaf md sum mxr tag va access lv slot pte (c, b))
  \/ ((forall lv slot pte, ~ maps b va level table lv slot pte)
      /\ (walk level md sum mxr tag table va access (c, b) = (Err (fault access va), (c, b))
          \/ walk level md sum mxr tag table va access (c, b) = (Panic, (c, b)))).
Proof.
  revert table. induction level as [|level IH]; intros table; rewrite walk_unfold; cbv zeta;
    destruct (fst (read64 (pte_slot _ table va) b)) as [pte| |] eqn:E.
  all: try (right; split; [|by auto]; intros lv slot pte' Hm; inversion Hm; subst;
            unfold pte_at in *; by rewrite E in * ).
  all: assert (forall l, fst (read64 (pte_slot l table va) b) = Ok pte ->
         pte_at b (pte_slot l table va) = Some pte) as Hat
         by (intros l El; unfold pte_at; by rewrite El).
  all: destruct (pte_valid pte) eqn:Hv; cbn [negb];
    [|right; split; [|by left]; intros lv slot pte' Hm; inversion Hm; subst;
      rewrite (Hat _ E) in *; simplify_eq; congruence].
  all: destruct (pte_leaf pte) eqn:Hl; cbn [negb].
  1, 3: destruct (leaf_aligned _ pte) eqn:Ha; cbn [negb];
    [left; eexists _, _, _; split; [apply maps_leaf; eauto|by auto]
    |right; split; [|by left]; intros lv slot pte' Hm; inversion Hm; subst;
      rewrite (Hat _ E) in *; simplify_eq; congruence].
  - right. split; [|by left]. intros lv slot pte' Hm. inversion Hm; subst.
    rewrite (Hat _ E) in *. simplify_eq. congruence.
  - destruct (IH (u64 (pte_ppn pte * 4096))) as [(lv & slot & leaf & Hm & Hle & Hw)|[Hn Hw]].
    + left. exists lv, slot, leaf. split; [|split; [lia|done]].
      by eapply maps_pointer; eauto.
    + right. split; [|done]. intros lv slot pte' Hm. inversion Hm; subst;
        rewrite (Hat _ E) in *; simplify_eq; [congruence|]. by eapply Hn.
Qed.
End Walk.

Lemma maps_det {B} `{Bus B} (b : B) va level table lv slot pte lv' slot' pte' :
  maps b va level table lv slot pte -> maps b va level table lv' slot' pte' ->
  lv = lv' /\ slot = slot' /\ pte = pte'.
Proof.
  intros Hm. revert lv' slot' pte'.
  induction Hm; intros lv' slot' pte' Hm'; inversion Hm'; subst; simplify_eq; try congruence.
  - done.
  - by apply IHHm.
Qed.

Lemma maps_aligned {B} `{Bus B} (b : B) va level table lv slot pte :
  maps b va level table lv slot pte -> leaf_aligned lv pte = true /\ (lv <= level)%nat.
Proof. induction 1; [done|]. destruct IHmaps. split; [done|lia]. Qed.

(** The hart as the page table sees it: top level of the satp mode (Sv39, Sv48),
    root table, SUM and MXR. *)
Definition top_level (s : SysCsrs) : option nat :=
  if (s.(satp) .>> 60) =? 8 then Some 2%nat
  else if (s.(satp) .>> 60) =? 9 then Some 3%nat else None.
Definition root_table (s : SysCsrs) : Z := s.(satp) mod 2 ^ 44 * 4096.
Definition sum_bit (s : SysCsrs) : bool := Z.testbit s.(mstatus) 18.
Definition mxr_bit (s : SysCsrs) : bool := Z.testbit s.(mstatus) 19.

(** [va] is the sign extension of a [9 * levels + 12]-bit address. *)
Definition canonical (top : nat) (va : Z) : Prop :=
  let bits := 12 + 9 * (Z.of_nat top + 1) in - 2 ^ (bits - 1) <= i64 va < 2 ^ (bits - 1).

Lemma mask_bit x n m : 0 <= n -> m = 2 ^ n -> negb ((x .& m) =? 0) = Z.testbit x n.
Proof.
  intros Hn ->. destruct (Z.testbit x n) eqn:E.
  - apply negb_true_iff, Z.eqb_neq. intros Hz.
    apply (f_equal (fun y => Z.testbit y n)) in Hz.
    rewrite Z.land_spec, E, Z.pow2_bits_true, Z.bits_0 in Hz by done. done.
  - apply negb_false_iff, Z.eqb_eq, Z.bits_inj'. intros i Hi.
    rewrite Z.land_spec, Z.pow2_bits_eqb, Z.bits_0 by done.
    destruct (Z.eqb_spec n i) as [->|]; [by rewrite E|apply andb_false_r].
Qed.

Lemma shiftr_sign x k : 0 <= k ->
  negb (x .>> k =? 0) && negb (x .>> k =? -1) = false <-> - 2 ^ k <= x < 2 ^ k.
Proof.
  intros Hk. rewrite Z.shiftr_div_pow2 by done. pose proof (Z.pow_pos_nonneg 2 k).
  rewrite andb_false_iff, !negb_false_iff, !Z.eqb_eq.
  pose proof (Z.div_mod x (2 ^ k)). pose proof (Z.mod_pos_bound x (2 ^ k)).
  split; [nia|]. intros Hx. destruct (decide (0 <= x)).
  - left. apply Z.div_small. lia.
  - right. assert (x / 2 ^ k = -1) as ->; [|done].
    symmetry. apply Z.div_unique with (x + 2 ^ k); lia.
Qed.

Section Translation.
Context {B : Type} `{HB : Bus B} `{!PureReads B}.

(** With paging on and a canonical address the slow path is the walk from the
    root. *)
Lemma translate_slow_walk c s top va access (b : B) :
  c.(sys) = Some s -> eff_mode s access <> Machine -> top_level s = Some top ->
  canonical top va ->
  translate_slow va access (c, b)
  = walk top (eff_mode s access) (sum_bit s) (mxr_bit s) (translation_tag c va access)
      (root_table s) va access (c, b).
Proof.
  intros Hs Hm Ht Hc. unfold translate_slow. rewrite Hs. cbv zeta.
  unfold sum_bit, mxr_bit, root_table, shl64.
  rewrite (mask_bit _ 18), (mask_bit _ 19), (land_ones_lit _ _ 44), (shiftl_lit _ 12 4096)
    by done.
  replace (u64 (satp s mod 2 ^ 44 * 4096)) with (satp s mod 2 ^ 44 * 4096)
    by (symmetry; apply wrap_small; unfold uint; zlia).
  assert (mode_eqb (eff_mode s access) Machine = false) as -> by by destruct (eff_mode s access).
  revert Ht. unfold top_level. unfold canonical in Hc. cbv zeta in Hc.
  destruct (Z.eqb_spec (satp s .>> 60) 8) as [E|].
  - rewrite E. intros [= <-]. cbn [orb Z.eqb Pos.eqb]. change (9 * 3 + 12 - 1) with 38.
    rewrite (proj2 (shiftr_sign (i64 va) 38 ltac:(lia))) by exact Hc. done.
  - destruct (Z.eqb_spec (satp s .>> 60) 9) as [E|]; [|done].
    rewrite E. intros [= <-]. cbn [orb Z.eqb Pos.eqb]. change (9 * 4 + 12 - 1) with 47.
    rewrite (proj2 (shiftr_sign (i64 va) 47 ltac:(lia))) by exact Hc. done.
Qed.

(** The leaf action succeeds exactly when the leaf grants the access and its
    A/D update is written. *)
Lemma walk_leaf_ok md sum mxr tag va access lv slot pte c (b : B) pa c' b' :
  walk_leaf md sum mxr tag va access lv slot pte (c, b) = (Ok pa, (c', b'))
  <-> permitted md sum mxr access pte /\ leaf_marked access slot pte b b'
      /\ pa = leaf_pa (Z.of_nat lv) (pte_ppn pte) va /\ c' = tlb_fill access tag va pa c.
Proof using Type.
  rewrite <- leaf_allows_permitted. unfold walk_leaf, leaf_marked. rewrite !pte_ad_marked.
  destruct (leaf_allows md sum mxr access pte); [|split; [done|by intros []]].
  unfold bind, ret, modify, map_err, on_snd. cbn [fst snd].
  destruct (_ =? pte); cbn [fst snd].
  - split; [intros [= <- <- <-]; auto|]. by intros (_ & -> & -> & ->).
  - destruct (write64 _ _ b) as [[[]| |] b2]; cbn [fst snd].
    + split; [intros [= <- <- <-]; auto|]. by intros (_ & [= ->] & -> & ->).
    + split; [done|]. by intros (_ & ? & _).
    + split; [done|]. by intros (_ & ? & _).
Qed.
End Translation.

(** C4: The Sv39/Sv48 walk implements the page table: with paging on and a canonical
    address, [translate_slow] returns [pa] exactly when the page table maps the
    address to an aligned leaf that grants the access under the effective mode,
    SUM and MXR, [pa] is the leaf's frame plus the page (or superpage) offset,
    the accessed and dirty bits have been set in memory, and the TLB row of the
    access holds the translation; nothing else of the hart changes. *)
Theorem translate_slow_refines {B} `{PureReads B} c s top va access (b : B) pa c' b' :
  c.(sys) = Some s -> eff_mode s access <> Machine -> top_level s = Some top ->
  canonical top va ->
  translate_slow va access (c, b) = (Ok pa, (c', b'))
  <-> exists lv slot pte,
        maps b va top (root_table s) lv slot pte
        /\ permitted (eff_mode s access) (sum_bit s) (mxr_bit s) access pte
        /\ leaf_marked access slot pte b b'
        /\ pa = leaf_address lv pte va
        /\ c' = tlb_fill access (translation_tag c va access) va pa c.
Proof.
  intros Hs Hm Ht Hc. rewrite (translate_slow_walk c s top) by done.
  assert (top <= 4)%nat as Htop.
  { revert Ht. unfold top_level. repeat case_match; intros [= <-]; lia. }
  destruct (walk_maps top (eff_mode s access) (sum_bit s) (mxr_bit s)
    (translation_tag c va access) (root_table s) va access c b)
    as [(lv & slot & pte & Hmap & _ & ->)|[Hn Hw]].
  - rewrite walk_leaf_ok. destruct (maps_aligned _ _ _ _ _ _ _ Hmap) as [Ha Hle].
    rewrite leaf_pa_address by (done || lia). split;
      [intros (? & ? & ? & ?); by exists lv, slot, pte|].
    intros (lv' & slot' & pte' & Hmap' & Hrest).
    by destruct (maps_det _ _ _ _ _ _ _ _ _ _ Hmap Hmap') as (-> & -> & ->).
  - split.
    + destruct Hw as [-> | ->]; done.
    + intros (lv & slot & pte & Hmap & _). by destruct (Hn lv slot pte).
Qed.

(** ** The TLB answers as the walk did *)

Section Cached.
Context {B : Type} `{HB : Bus B}.

(** A lookup either answers from the row or is the slow path. *)
Lemma translate_unfold c s va access (b : B) :
  c.(sys) = Some s ->
  translate va access (c, b)
  = if row_get c.(tlb_tag) (access_index access) ((va .>> 12) .& (TLB_SIZE - 1))
         =? translation_tag c va access
    then (Ok (add64 va (row_get c.(tlb_diff) (access_index access)
                          ((va .>> 12) .& (TLB_SIZE - 1)))), (c, b))
    else translate_slow va access (c, b).
Proof. intros Hs. unfold translate. by rewrite Hs. Qed.

Lemma translate_miss c s va access (b : B) :
  c.(sys) = Some s ->
  row_get c.(tlb_tag) (access_index access) ((va .>> 12) .& (TLB_SIZE - 1))
    <> translation_tag c va access ->
  translate va access (c, b) = translate_slow va access (c, b).
Proof.
  intros Hs Hne. rewrite (translate_unfold c s) by done.
  by rewrite (proj2 (Z.eqb_neq _ _) Hne).
Qed.

Lemma vpn_page level va va' : va / 4096 = va' / 4096 -> vpn level va = vpn level va'.
Proof.
  intros E. unfold vpn. f_equal. rewrite !Z.pow_add_r by lia.
  rewrite <- !Z.div_div by lia. change (2 ^ 12) with 4096. by rewrite E.
Qed.

Lemma maps_page (b : B) va va' level table lv slot pte :
  va / 4096 = va' / 4096 ->
  maps b va level table lv slot pte -> maps b va' level table lv slot pte.
Proof.
  intros E Hm.
  assert (forall l t, pte_slot l t va = pte_slot l t va') as Hs.
  { intros l t. unfold pte_slot. by rewrite (vpn_page l va va' E). }
  induction Hm.
  - rewrite Hs in *. by apply maps_leaf.
  - rewrite Hs in *. by eapply maps_pointer.
Qed.

(** A frame and an offset inside it never carry past 64 bits. *)
Lemma leaf_address_range lv pte va :
  (lv <= 4)%nat -> leaf_aligned lv pte = true -> uint 64 va -> uint 64 (leaf_address lv pte va).
Proof.
  intros. rewrite <- leaf_pa_address by done. apply leaf_pa_range; [done|lia].
Qed.

Lemma leaf_address_page lv pte va va' :
  va / 4096 = va' / 4096 ->
  leaf_address lv pte va' = leaf_address lv pte va + (va' - va).
Proof.
  intros E. unfold leaf_address.
  assert (va' mod 2 ^ (12 + 9 * Z.of_nat lv)
          = va mod 2 ^ (12 + 9 * Z.of_nat lv) + (va' - va)) as ->; [|lia].
  rewrite !Z.mod_eq by lia. rewrite !Z.pow_add_r, <- !Z.div_div by lia.
  change (2 ^ 12) with 4096. rewrite E. lia.
Qed.

Lemma tlb_fill_hit c s access va va' pa (b : B) :
  wf_cpu c -> c.(sys) = Some s -> uint 64 va -> uint 64 va' -> va / 4096 = va' / 4096 ->
  let c' := tlb_fill access (translation_tag c va access) va pa c in
  translate va' access (c', b) = (Ok (u64 (pa + (va' - va))), (c', b)).
Proof.
  intros Hc Hs Hva Hva' Hp. cbv zeta.
  rewrite (translate_unfold _ s) by done. unfold tlb_fill. cbv zeta.
  cbn [tlb_tag tlb_diff set_tlb_diff set_tlb_tag].
  rewrite <- (same_page_shift va va' Hp).
  pose proof (access_index_range access).
  rewrite !(row_get_set_same 3) by (apply Hc || done || apply uint_tlb_index).
  assert (translation_tag (set_tlb_diff (row_set (tlb_diff c) (access_index access)
    ((va .>> 12) .& (TLB_SIZE - 1)) (sub64 pa va)) (set_tlb_tag (row_set (tlb_tag c)
    (access_index access) ((va .>> 12) .& (TLB_SIZE - 1)) (translation_tag c va access)) c))
    va' access = translation_tag c va access) as ->.
  { unfold translation_tag. rewrite !page_split, Hp by done. reflexivity. }
  rewrite Z.eqb_refl. unfold add64, sub64, u64, wrap.
  rewrite Zplus_mod_idemp_r. do 3 f_equal. lia.
Qed.
End Cached.

(** C15: The TLB answers as the page table does: after the walk has translated an
    address, a translation of any address on the same page for the same access
    hits, touches neither the bus nor the hart, and returns the physical address
    that the page table mapped at the walk assigns to that address. *)
Theorem tlb_hit_agrees {B} `{PureReads B} c s top va va' access (b : B) pa st' :
  wf_cpu c -> c.(sys) = Some s -> eff_mode s access <> Machine -> top_level s = Some top ->
  canonical top va -> uint 64 va -> uint 64 va' -> va / 4096 = va' / 4096 ->
  translate_slow va access (c, b) = (Ok pa, st') ->
  exists lv slot pte,
    maps b va' top (root_table s) lv slot pte
    /\ translate va' access st' = (Ok (leaf_address lv pte va'), st').
Proof.
  intros Hc Hs Hm Ht Hca Hva Hva' Hp Hw.
  rewrite (translate_slow_walk c s top) in Hw by done.
  destruct (walk_maps top (eff_mode s access) (sum_bit s) (mxr_bit s)
    (translation_tag c va access) (root_table s) va access c b)
    as [(lv & slot & pte & Hmap & Hle & Ew)|[_ [E|E]]]; [|by rewrite E in Hw..].
  rewrite Ew in Hw. destruct st' as [c' b'].
  apply walk_leaf_ok in Hw as (_ & _ & -> & ->).
  assert (lv <= 4)%nat as Hlv.
  { revert Ht. unfold top_level. repeat case_match; intros [= <-]; lia. }
  destruct (maps_aligned _ _ _ _ _ _ _ Hmap) as [Ha _].
  exists lv, slot, pte. split; [by apply (maps_page b va)|].
  rewrite leaf_pa_address by done. rewrite (tlb_fill_hit c s) by done.
  rewrite (leaf_address_page lv pte va va') by done. do 2 f_equal.
  apply wrap_small. rewrite <- leaf_address_page by done. by apply leaf_address_range.
Qed.

(** A translation fails only with the page fault of its access kind at the
    address asked for, and leaves the hart (the TLB included) as it was. *)
Theorem translate_fault_precise {B} `{PureReads B} va access c (b : B) e c' b' :
  translate va access (c, b) = (Err e, (c', b')) -> e = fault access va /\ c' = c.
Proof.
  assert (forall md sum mxr tag lv slot pte, walk_leaf md sum mxr tag va access lv slot pte (c, b)
    = (Err e, (c', b')) -> e = fault access va /\ c' = c) as Hleaf.
  { intros *. unfold walk_leaf. destruct (leaf_allows _ _ _ _ _); [|by intros [= <- <-]].
    unfold bind, ret, modify, map_err, on_snd. destruct (_ =? pte); cbn [fst snd]; [done|].
    destruct (write64 _ _ b) as [[[]| |] b2]; [done| |done]. by intros [= <- <-]. }
  unfold translate. destruct (sys c) as [s|] eqn:Hs; [|done]. cbv zeta.
  destruct (_ =? _); [done|]. unfold translate_slow. rewrite Hs. cbv zeta.
  destruct (_ || _); [done|]. destruct (if _ =? 8 then _ else _) as [lv|]; [|by intros [= <- <-]].
  destruct (_ && _); [by intros [= <- <-]|]. intros E.
  match type of E with walk ?level ?md ?sum ?mxr ?tag ?table _ _ _ = _ =>
    destruct (walk_maps level md sum mxr tag table va access c b)
      as [(l & slot & pte & _ & _ & Ew)|[_ [Ew|Ew]]] end; rewrite Ew in E.
  - by eapply Hleaf.
  - by injection E.
  - done.
Qed.

(** ** Tags and permissions *)

Lemma context_bits c s access :
  c.(sys) = Some s ->
  translation_context c access
  = mode_bits (eff_mode s access)
    + 4 * Z.b2z (negb (access_eqb access Fetch) && sum_bit s)
    + 8 * Z.b2z (access_eqb access Load && mxr_bit s).
Proof.
  intros Hs. unfold translation_context. rewrite Hs. cbv zeta.
  unfold sum_bit, mxr_bit. rewrite <- (mask_bit _ 18 MSTATUS_SUM), <- (mask_bit _ 19 MSTATUS_MXR) by done.
  destruct (eff_mode s access), access, (negb (mstatus s .& MSTATUS_SUM =? 0)),
    (negb (mstatus s .& MSTATUS_MXR =? 0)); reflexivity.
Qed.

Lemma data_context_bits c s :
  c.(sys) = Some s ->
  data_tlb_context c
  = mode_bits (eff_mode s Load) + 4 * Z.b2z (sum_bit s) + 8 * Z.b2z (mxr_bit s).
Proof.
  intros Hs. unfold data_tlb_context. rewrite Hs. cbv zeta.
  unfold sum_bit, mxr_bit. rewrite <- (mask_bit _ 18 MSTATUS_SUM), <- (mask_bit _ 19 MSTATUS_MXR) by done.
  destruct (eff_mode s Load), (negb (mstatus s .& MSTATUS_SUM =? 0)),
    (negb (mstatus s .& MSTATUS_MXR =? 0)); reflexivity.
Qed.

Lemma eff_mode_data s : eff_mode s Store = eff_mode s Load.
Proof. reflexivity. Qed.

(** What a leaf grants to an access of the hart. *)
Definition grants (s : SysCsrs) (access : Access) (pte : Z) : bool :=
  leaf_allows (eff_mode s access) (sum_bit s) (mxr_bit s) access pte.

(** A TLB entry is only reused where its permission check still holds: if the tag
    under which a translation was cached matches the tag of a lookup, possibly
    after privilege or status changes without a flush, then both are of the same
    page and every leaf grants the access in the one state exactly when it does
    in the other; the context shared by the fused rows does the same for loads
    and stores at once. *)
Theorem tlb_tag_permissions c s c' s' va va' :
  c.(sys) = Some s -> c'.(sys) = Some s' -> uint 64 va -> uint 64 va' ->
  (forall access,
     translation_tag c va access = translation_tag c' va' access ->
     va / 4096 = va' / 4096 /\ forall pte, grants s access pte = grants s' access pte)
  /\ ((va .& TLB_PAGE_MASK) .| data_tlb_context c
        = (va' .& TLB_PAGE_MASK) .| data_tlb_context c' ->
      va / 4096 = va' / 4096
      /\ forall pte, grants s Load pte = grants s' Load pte
                     /\ grants s Store pte = grants s' Store pte).
Proof.
  intros Hs Hs' Hva Hva'. split.
  - intros access [Hp E]%tag_inj; [|done..|apply context_range|apply context_range].
    split; [done|]. intros pte. rewrite (context_bits c s), (context_bits c' s') in E by done.
    unfold grants. revert E.
    destruct access, (eff_mode s _), (eff_mode s' _), (sum_bit s), (sum_bit s'),
      (mxr_bit s), (mxr_bit s'); (reflexivity || discriminate).
  - intros [Hp E]%tag_inj; [|done..|apply data_context_range|apply data_context_range].
    split; [done|]. intros pte. rewrite (data_context_bits c s), (data_context_bits c' s') in E by done.
    unfold grants. rewrite !eff_mode_data. revert E.
    destruct (eff_mode s _), (eff_mode s' _), (sum_bit s), (sum_bit s'),
      (mxr_bit s), (mxr_bit s'); (split; reflexivity) || discriminate.
Qed.

(** ** Fences *)

Lemma jit_tlb_index_range c va : 0 <= jit_tlb_index c va < TLB_SIZE.
Proof.
  unfold jit_tlb_index, jit_tlb_hash_index. cbv zeta.
  destruct (jtlb_hashed c); [|apply uint_tlb_index].
  rewrite (land_ones_lit _ _ 12) by (vm_compute; congruence). by apply Z.mod_pos_bound.
Qed.

Lemma jit_tlb_index_page c va va' :
  va / 4096 = va' / 4096 -> jit_tlb_index c va = jit_tlb_index c va'.
Proof.
  intros E. unfold jit_tlb_index, jit_tlb_hash_index. by rewrite (same_page_shift va va' E).
Qed.

(** A row looked at through [invalidate_page] at its own slot never names the
    page. *)
Lemma invalidate_page_misses n t page idx r va ctx :
  bank n t -> 0 <= r < Z.of_nat n -> 0 <= idx < TLB_SIZE ->
  uint 64 va -> uint 4 ctx -> page = va / 4096 * 4096 ->
  row_get (map (invalidate_page page idx) t) r idx <> (va .& TLB_PAGE_MASK) .| ctx.
Proof.
  intros Ht Hr Hi Hva Hctx ->. pose proof (bank_row n t r Ht Hr) as [Hl _].
  unfold row_get. assert (aget (map (invalidate_page (va / 4096 * 4096) idx) t) r
    = invalidate_page (va / 4096 * 4096) idx (aget t r)) as ->.
  { unfold aget. destruct Ht as [Hlen _].
    destruct (lookup_lt_is_Some_2 t (Z.to_nat r)) as [row Hrow]; [lia|].
    rewrite (list_lookup_total_correct t _ _ Hrow). apply list_lookup_total_correct.
    change (map ?f t) with (f <$> t). by rewrite list_lookup_fmap, Hrow. }
  unfold invalidate_page. destruct (Z.eqb_spec (aget (aget t r) idx .& TLB_PAGE_MASK)
    (va / 4096 * 4096)) as [E|E].
  - rewrite aget_aset_same by lia. intros Heq. symmetry in Heq. by apply tag_not_invalid in Heq.
  - intros Heq. rewrite Heq, tag_page in E by done. done.
Qed.

(** With every row empty nothing hits. *)
Lemma flushed_misses {B} `{Bus B} c s va (b : B) :
  c.(sys) = Some s -> uint 64 va ->
  tlb_tag c = tlb_bank 3 TLB_INVALID -> jtlb_tag c = tlb_bank 2 TLB_INVALID ->
  (forall access, translate va access (c, b) = translate_slow va access (c, b))
  /\ (forall store, jit_probe_tlb c va store = None).
Proof.
  intros Hs Hva E1 E2. split.
  - intros access. apply (translate_miss _ s); [done|]. rewrite E1.
    rewrite (row_get_fresh 3) by (apply access_index_range || apply uint_tlb_index).
    intros E. symmetry in E. revert E. apply tag_not_invalid; [done|apply context_range].
  - intros store. unfold jit_probe_tlb, jtlb_entry. rewrite E2. cbv zeta.
    rewrite (row_get_fresh 2) by (apply jit_tlb_index_range || (destruct store; cbn; lia)).
    match goal with |- (if ?t then _ else _) = _ => destruct t eqn:E; [|done] end.
    apply Z.eqb_eq in E. symmetry in E. exfalso. revert E.
    apply tag_not_invalid; [done|apply data_context_range].
Qed.

(** The address space an SFENCE.VMA names covers the current one. *)
Definition fence_applies (asid : option Z) (s : SysCsrs) : Prop :=
  match asid with None => True | Some a => a = u16 ((s.(satp) .>> 44) .& 0xffff) end.

(** The addresses it names. *)
Definition fence_covers (va : option Z) (va' : Z) : Prop :=
  match va with None => True | Some va => uint 64 va /\ va / 4096 = va' / 4096 end.

(** SFENCE.VMA forgets what it names: after a fence of the current address space
    (by ASID or for all), global or for one page, every translation of a covered
    address, for every access kind, walks the page table again, and neither
    fused row of compiled code answers for it. *)
Theorem sfence_vma_forgets {B} `{Bus B} c s va asid va' (b : B) :
  wf_cpu c -> c.(sys) = Some s -> uint 64 va' ->
  fence_applies asid s -> fence_covers va va' ->
  let c' := sfence_vma va asid c in
  (forall access, translate va' access (c', b) = translate_slow va' access (c', b))
  /\ (forall store, jit_probe_tlb c' va' store = None).
Proof.
  intros Hc Hs Hva' Ha Hv. cbv zeta.
  assert (forall a, 0 <= access_index a < Z.of_nat 3) as Hai by apply access_index_range.
  assert (forall st, 0 <= Z.b2z st < Z.of_nat 2) as Hst by (intros []; simpl; lia).
  unfold sfence_vma. rewrite Hs.
  assert ((match asid with
    | Some target => negb (target =? u16 ((satp s .>> 44) .& 0xffff)) | None => false end)
    = false) as ->.
  { destruct asid as [a|]; [|done]. simpl in Ha. rewrite Ha, Z.eqb_refl. done. }
  destruct va as [va|]; cbv zeta.
  - destruct Hv as [Hva Hp]. split.
    + intros access. apply (translate_miss _ s); [done|]. unfold translation_tag.
      cbn [tlb_tag set_jtlb_tag set_tlb_tag set_sfence_page set_map_gen].
      rewrite (same_page_shift va va' Hp).
      apply (invalidate_page_misses 3); try done; [apply Hc|apply uint_tlb_index
        |apply context_range|]. by rewrite page_split, Hp.
    + intros store. unfold jit_probe_tlb, jtlb_entry. cbv zeta.
      cbn [jtlb_tag set_jtlb_tag].
      rewrite <- (jit_tlb_index_page _ va va' Hp).
      match goal with |- (if ?t then _ else _) = _ => destruct t eqn:E; [|done] end.
      apply Z.eqb_eq in E. exfalso. revert E.
      apply (invalidate_page_misses 2); try done; [apply Hc|apply jit_tlb_index_range
        |apply data_context_range|]. by rewrite page_split, Hp.
  - by apply (flushed_misses _ s).
Qed.

(** ** A concrete address space

    One 1 GiB leaf at the root of an Sv39 table, V R W X A D set, frame
    0x80000000. *)

Definition demo_sys : SysCsrs :=
  set_satp ((8 .<< 60) .| 1) (set_mode Supervisor SysCsrs_new).

Definition demo_paged : Cpu := set_sys (Some demo_sys) Cpu_new.

(** The table in memory at 0x1000, with the frame number as its argument. *)
Definition demo_table (frame : Z) : FlatMemory :=
  mkFlat 0x1000 [0xcf; 0; 0; frame; 0; 0; 0; 0].

Lemma demo_paged_wf : wf_cpu demo_paged.
Proof.
  apply wf_set_sys; [apply wf_Cpu_new|]. unfold demo_sys.
  pose proof wf_SysCsrs_new as Hs. wfs_tac.
  split; [uint_lit|]. right. left. reflexivity.
Qed.

Lemma translate_slow_refines_witness :
  exists lv slot pte,
    maps (demo_table 0x20) 0x2345 2 (root_table demo_sys) lv slot pte
    /\ leaf_address lv pte 0x2345 = 0x80002345.
Proof.
  destruct (translate_slow 0x2345 Load (demo_paged, demo_table 0x20))
    as [o [c' b']] eqn:E.
  assert (o = Ok 0x80002345) as ->.
  { change o with (fst (o, (c', b'))). rewrite <- E. vm_compute. reflexivity. }
  apply (translate_slow_refines demo_paged demo_sys 2) in E
    as (lv & slot & pte & Hm & _ & _ & Hpa & _);
    [by exists lv, slot, pte|reflexivity|discriminate|reflexivity|].
  unfold canonical. vm_compute. split; congruence.
Defined.

Lemma tlb_hit_agrees_witness :
  exists lv slot pte st',
    maps (demo_table 0x20) 0x2678 2 (root_table demo_sys) lv slot pte
    /\ translate 0x2678 Load st' = (Ok (leaf_address lv pte 0x2678), st').
Proof.
  destruct (translate_slow 0x2345 Load (demo_paged, demo_table 0x20)) as [o st'] eqn:E.
  assert (o = Ok 0x80002345) as ->.
  { change o with (fst (o, st')). rewrite <- E. vm_compute. reflexivity. }
  destruct (tlb_hit_agrees demo_paged demo_sys 2 0x2345 0x2678 Load (demo_table 0x20)
    0x80002345 st') as (lv & slot & pte & H);
    [apply demo_paged_wf|reflexivity|discriminate|reflexivity
    |unfold canonical; vm_compute; split; congruence|uint_lit|uint_lit|reflexivity|exact E|].
  exists lv, slot, pte, st'. exact H.
Defined.

Lemma translate_fault_precise_witness :
  exists st', translate 0x40000000 Store (demo_paged, demo_table 0x20)
              = (Err (StorePageFault 0x40000000), st') /\ fst st' = demo_paged.
Proof.
  destruct (translate 0x40000000 Store (demo_paged, demo_table 0x20)) as [o [c' b']] eqn:E.
  assert (o = Err (StorePageFault 0x40000000)) as ->.
  { change o with (fst (o, (c', b'))). rewrite <- E. vm_compute. reflexivity. }
  apply translate_fault_precise in E as [_ E]. by exists (c', b').
Defined.

Lemma tlb_tag_permissions_witness :
  let s' := set_mstatus (mstatus demo_sys .| MSTATUS_FS) demo_sys in
  0x2345 / 4096 = 0x2678 / 4096 /\ grants demo_sys Load 0xcf = grants s' Load 0xcf.
Proof.
  set (s' := set_mstatus _ _).
  destruct (tlb_tag_permissions demo_paged demo_sys (set_sys (Some s') demo_paged) s'
    0x2345 0x2678) as [H _]; [reflexivity|reflexivity|uint_lit|uint_lit|].
  destruct (H Load) as [Hp Hg]; [reflexivity|]. split; [exact Hp|apply Hg].
Defined.

Lemma sfence_vma_forgets_witness :
  translate 0x2678 Store (sfence_vma (Some 0x2345) None demo_paged, demo_table 0x20)
  = translate_slow 0x2678 Store (sfence_vma (Some 0x2345) None demo_paged, demo_table 0x20).
Proof.
  apply (sfence_vma_forgets demo_paged demo_sys (Some 0x2345) None 0x2678);
    [apply demo_paged_wf|reflexivity|uint_lit|exact I|split; [uint_lit|reflexivity]].
Defined.

(** A page fence does not reach the rest of a superpage: a 1 GiB leaf is used at
    one of its pages, the leaf is then moved to another frame and a fence is
    executed for another address of the same leaf; the next load from the first
    page still gets the old frame, although the page table now maps it to the
    new one and SFENCE.VMA with an address orders all uses of the leaf that maps
    it. *)
Theorem sfence_superpage_stale :
  let '(first, (c, _)) := translate 0x3000 Load (demo_paged, demo_table 0x20) in
  let fenced := sfence_vma (Some 0x2000) None c in
  first = Ok 0x80003000
  /\ fst (translate 0x3000 Load (fenced, demo_table 0x30)) = Ok 0x80003000
  /\ fst (translate_slow 0x3000 Load (fenced, demo_table 0x30)) = Ok 0xc0003000.
Proof. vm_compute. repeat split. Qed.
