(* ===== verification/TrapSpec.v ===== *)
(** * What trap entry, trap return and interrupt sampling promise

    mstatus as the bits the privileged architecture names, rather than as the
    masks the code combines. *)

From S2P Require Import Prelude Exception Decode Csr State Bus Mmu Trap CsrOps Exec Wf SafeMem.
From S2P Require Import MmuSpec.

(** ** Bits of masked updates *)

Lemma testbit_pow n i : 0 <= n -> Z.testbit (1 .<< n) i = (n =? i).
Proof. intros. rewrite Z.shiftl_1_l. by rewrite Z.pow2_bits_eqb. Qed.

Lemma testbit_moved x a b i : 0 <= a -> 0 <= b -> 0 <= i ->
  Z.testbit (((x .>> a) .& 1) .<< b) i = (b =? i) && Z.testbit x a.
Proof.
  intros. rewrite bit_land by done. destruct (Z.testbit x a); simpl.
  - by rewrite testbit_pow, andb_true_r.
  - by rewrite Z.shiftl_0_l, Z.bits_0, andb_false_r.
Qed.

Lemma three_shl n : 0 <= n -> 3 .<< n = (1 .<< n) .| (1 .<< (n + 1)).
Proof.
  intros. change 3 with (1 .| (1 .<< 1)). rewrite Z.shiftl_lor, Z.shiftl_shiftl by lia.
  do 2 f_equal. lia.
Qed.

Lemma MPP_bits : MSTATUS_MPP = (1 .<< 11) .| (1 .<< 12).
Proof. reflexivity. Qed.

(** mode_bits << 11, bit by bit. *)
Lemma mode_field md i : 0 <= i ->
  Z.testbit (mode_bits md .<< 11) i
  = ((i =? 11) && negb (mode_eqb md User)) || ((i =? 12) && mode_eqb md Machine).
Proof.
  intros. rewrite (Z.eqb_sym i 11), (Z.eqb_sym i 12).
  destruct md; cbn [mode_bits mode_eqb Z.eqb Pos.eqb negb].
  - by rewrite Z.shiftl_0_l, Z.bits_0, !andb_false_r.
  - by rewrite testbit_pow, andb_true_r, andb_false_r, orb_false_r.
  - by rewrite three_shl, Z.lor_spec, !testbit_pow, !andb_true_r.
Qed.

(** Rewrite the bits of an mstatus update into comparisons of positions. *)
Ltac mstatus_bits :=
  unfold MSTATUS_SIE, MSTATUS_MIE, MSTATUS_SPIE, MSTATUS_MPIE, MSTATUS_SPP, MSTATUS_MPRV in *;
  rewrite ?MPP_bits;
  repeat first
    [ rewrite Z.lor_spec | rewrite Z.ldiff_spec | rewrite testbit_moved by lia
    | rewrite testbit_pow by lia | rewrite mode_field by lia | rewrite Z.bits_0 ].

(** Split on every comparison of bit positions. *)
Ltac position_cases :=
  repeat match goal with
  | |- context [?a =? ?b] => destruct (Z.eqb_spec a b); [subst; try lia|]
  end; cbn [orb andb negb]; rewrite ?andb_false_r, ?andb_true_r, ?orb_false_r, ?orb_true_r.

(** ** Trap entry *)

(** Everything take_trap does before the privileged state is touched. *)
Definition trap_prologue (cause : Z) (is_interrupt : bool) (c : Cpu) : Cpu :=
  record_timer_trap cause is_interrupt (count_trap cause is_interrupt
    (log_syscall cause is_interrupt (set_reservation None (set_irq_poll_cd 0 c)))).

Lemma trap_prologue_keeps cause i c :
  let c' := trap_prologue cause i c in
  c'.(sys) = c.(sys) /\ c'.(pc) = c.(pc) /\ c'.(xregs) = c.(xregs) /\ c'.(fregs) = c.(fregs)
  /\ c'.(reservation) = None.
Proof.
  cbv zeta. split; [apply is_sys_diag|]. unfold trap_prologue.
  set (c0 := set_reservation _ _).
  assert (forall c1, pc (record_timer_trap cause i c1) = pc c1
    /\ xregs (record_timer_trap cause i c1) = xregs c1
    /\ fregs (record_timer_trap cause i c1) = fregs c1
    /\ reservation (record_timer_trap cause i c1) = reservation c1) as Hr.
  { intros c1. unfold record_timer_trap. destruct (sys c1); [|done]. by destruct (_ && _). }
  destruct (Hr (count_trap cause i (log_syscall cause i c0))) as (-> & -> & -> & ->).
  unfold count_trap, log_syscall. cbv zeta. by destruct (_ && _), i.
Qed.

Lemma privilege_changed_keeps c :
  let c' := privilege_changed c in
  c'.(sys) = c.(sys) /\ c'.(pc) = c.(pc) /\ c'.(xregs) = c.(xregs) /\ c'.(fregs) = c.(fregs)
  /\ c'.(reservation) = c.(reservation).
Proof. cbv zeta. unfold privilege_changed. by destruct (negb _). Qed.

(** The hart after a trap, up to caches and diagnostics. *)
Lemma take_trap_arch cause tval i c s :
  c.(sys) = Some s ->
  exists c', take_trap cause tval i c = (Ok tt, c')
    /\ c'.(sys) = Some (fst (enter_trap s c.(pc) cause tval i))
    /\ c'.(pc) = snd (enter_trap s c.(pc) cause tval i)
    /\ c'.(xregs) = c.(xregs) /\ c'.(fregs) = c.(fregs) /\ c'.(reservation) = None.
Proof.
  intros Hs. unfold take_trap. cbv zeta. fold (trap_prologue cause i c).
  destruct (trap_prologue_keeps cause i c) as (Es & Ep & Ex & Ef & Er).
  rewrite Es, Hs, Ep. destruct (enter_trap s (pc c) cause tval i) as [s' pc'].
  eexists. split; [reflexivity|].
  match goal with |- context [privilege_changed ?x] =>
    destruct (privilege_changed_keeps x) as (-> & -> & -> & -> & ->) end.
  by split_and!.
Qed.

(** mstatus after entry into S-mode: SPIE holds the old SIE, SPP the mode the
    trap came from, SIE is clear, nothing else changes. *)
Definition s_entry_bit (s : SysCsrs) (i : Z) : bool :=
  if i =? 5 then Z.testbit s.(mstatus) 1
  else if i =? 8 then mode_eqb s.(mode) Supervisor
  else if i =? 1 then false
  else Z.testbit s.(mstatus) i.

(** mstatus after entry into M-mode: MPIE the old MIE, MPP (bits 11 and 12) the
    mode, MIE clear. *)
Definition m_entry_bit (s : SysCsrs) (i : Z) : bool :=
  if i =? 7 then Z.testbit s.(mstatus) 3
  else if i =? 11 then negb (mode_eqb s.(mode) User)
  else if i =? 12 then mode_eqb s.(mode) Machine
  else if i =? 3 then false
  else Z.testbit s.(mstatus) i.

Lemma enter_trap_s_bits s pc cause tval i n :
  trap_to_s s cause i = true -> 0 <= n ->
  Z.testbit (mstatus (fst (enter_trap s pc cause tval i))) n = s_entry_bit s n.
Proof.
  intros Ht Hn. unfold enter_trap. rewrite Ht. cbv zeta.
  cbn [fst mstatus set_mode set_mstatus set_sepc set_stval set_scause mode].
  unfold s_entry_bit. destruct (mode_eqb (mode s) Supervisor); mstatus_bits; position_cases; done.
Qed.

Lemma enter_trap_m_bits s pc cause tval i n :
  trap_to_s s cause i = false -> 0 <= n ->
  Z.testbit (mstatus (fst (enter_trap s pc cause tval i))) n = m_entry_bit s n.
Proof.
  intros Ht Hn. unfold enter_trap. rewrite Ht. cbv zeta.
  cbn [fst mstatus set_mode set_mstatus set_mepc set_mtval set_mcause mode].
  unfold m_entry_bit. mstatus_bits. position_cases; done.
Qed.

(** Delegation: traps from below M-mode whose bit is set in medeleg (mideleg for
    interrupts). *)
Definition delegated (s : SysCsrs) (cause : Z) (is_interrupt : bool) : bool :=
  negb (mode_eqb s.(mode) Machine)
  && Z.testbit (if is_interrupt then s.(mideleg) else s.(medeleg)) cause.

(** The handler address: BASE, plus 4 * cause for interrupts in vectored mode. *)
Definition handler (tvec cause : Z) (is_interrupt : bool) : Z :=
  let base := tvec - tvec mod 4 in
  if (tvec mod 4 =? 1) && is_interrupt then u64 (base + 4 * cause) else base.

Definition cause_code (cause : Z) (is_interrupt : bool) : Z :=
  if is_interrupt then 2 ^ 63 + cause else cause.

Lemma trap_to_s_delegated s cause i :
  0 <= cause < 64 -> trap_to_s s cause i = delegated s cause i.
Proof.
  intros Hc. unfold trap_to_s, delegated. cbv zeta. f_equal.
  rewrite (land_ones_lit _ 63 6), Z.mod_small by (done || lia).
  apply mask_bit; [lia|]. apply Z.shiftl_1_l.
Qed.

Lemma trap_vector_handler tvec cause i :
  0 <= tvec -> trap_vector tvec cause i = handler tvec cause i.
Proof.
  intros Ht. unfold trap_vector, handler, add64. cbv zeta.
  rewrite (land_ones_lit _ _ 2) by done. change (2 ^ 2) with 4.
  assert (tvec .&~ 3 = tvec - tvec mod 4) as ->; [|done].
  change 3 with (Z.ones 2). rewrite Z.ldiff_ones_r, (shiftl_lit _ 2 4), (shiftr_lit _ 2 4) by done.
  zlia.
Qed.

Lemma cause_code_lor cause (i : bool) :
  0 <= cause < 64 -> (if i then (1 .<< 63) .| cause else cause) = cause_code cause i.
Proof.
  intros Hc. unfold cause_code. destruct i; [|done].
  apply (lor_add_hi 63); [lia|unfold uint; lia|reflexivity].
Qed.

(** C11: Trap entry is the architecture's: from a hart in system mode, [take_trap]
    never fails and never lowers the privilege; a trap taken below M-mode whose
    cause is delegated enters S-mode, any other enters M-mode; the target's
    epc/cause/tval hold the interrupted pc, the cause with the interrupt bit and
    the value; the interrupt-enable and mode stack of mstatus is pushed bit by
    bit with every other bit kept; the pc is the (possibly vectored) handler; the
    LR/SC reservation is dropped; integer and FP registers are kept. *)
Theorem trap_entry c s cause tval i :
  wf_cpu c -> c.(sys) = Some s -> 0 <= cause < 64 ->
  exists c' s',
    take_trap cause tval i c = (Ok tt, c') /\ c'.(sys) = Some s'
    /\ c'.(xregs) = c.(xregs) /\ c'.(fregs) = c.(fregs) /\ c'.(reservation) = None
    /\ mode_bits s.(mode) <= mode_bits s'.(mode)
    /\ if delegated s cause i then
         s'.(mode) = Supervisor /\ c'.(pc) = handler s.(stvec) cause i
         /\ s'.(sepc) = c.(pc) /\ s'.(scause) = cause_code cause i /\ s'.(stval) = tval
         /\ (s'.(mepc), s'.(mcause), s'.(mtval)) = (s.(mepc), s.(mcause), s.(mtval))
         /\ forall n, 0 <= n -> Z.testbit s'.(mstatus) n = s_entry_bit s n
       else
         s'.(mode) = Machine /\ c'.(pc) = handler s.(mtvec) cause i
         /\ s'.(mepc) = c.(pc) /\ s'.(mcause) = cause_code cause i /\ s'.(mtval) = tval
         /\ (s'.(sepc), s'.(scause), s'.(stval)) = (s.(sepc), s.(scause), s.(stval))
         /\ forall n, 0 <= n -> Z.testbit s'.(mstatus) n = m_entry_bit s n.
Proof.
  intros Hc Hs Hk. destruct (take_trap_arch cause tval i c s Hs) as (c' & E & Es & Ep & Ex & Ef & Er).
  exists c', (fst (enter_trap s (pc c) cause tval i)). rewrite Ep. split_and!; try done.
  all: pose proof (wf_csrs _ Hc) as Hw; rewrite Hs in Hw; simpl in Hw.
  - unfold enter_trap. destruct (trap_to_s s cause i) eqn:Ht; simpl; [|by destruct (mode s)].
    unfold trap_to_s in Ht. by destruct (mode s).
  - rewrite <- trap_to_s_delegated by done. destruct (trap_to_s s cause i) eqn:Ht;
      (split_and!; [..|intros n Hn; (by apply enter_trap_s_bits) || by apply enter_trap_m_bits]);
      unfold enter_trap; rewrite Ht; cbv zeta; cbn -[Z.land Z.lor Z.shiftl Z.shiftr Z.ldiff];
      try done; try (by apply cause_code_lor); apply trap_vector_handler; apply Hw.
Qed.

(** ** Trap return *)

(** The mode a two-bit field at position [k] names. *)
Definition field_mode (b0 b1 : bool) : Mode :=
  if b1 then Machine else if b0 then Supervisor else User.

Lemma from_bits_mpp x :
  from_bits ((x .& MSTATUS_MPP) .>> 11) = field_mode (Z.testbit x 11) (Z.testbit x 12).
Proof.
  unfold from_bits, MSTATUS_MPP. cbv zeta.
  rewrite Z.shiftr_land, Z.shiftr_shiftl_l by lia. change (3 .<< (11 - 11)) with 3.
  rewrite <- Z.land_assoc. change (3 .& 3) with 3.
  assert ((x .>> 11) .& 3 = Z.b2z (Z.testbit x 11) + 2 * Z.b2z (Z.testbit x 12)) as ->.
  { rewrite (land_ones_lit _ 3 2) by done.
    pose proof (Z.testbit_spec' x 11 ltac:(lia)) as H0.
    pose proof (Z.testbit_spec' x 12 ltac:(lia)) as H1.
    rewrite (shiftr_lit _ 11 (2 ^ 11)), H0, H1 by done. zlia. }
  by destruct (Z.testbit x 11), (Z.testbit x 12).
Qed.

(** mstatus after MRET and SRET: the stack popped. *)
Definition mret_bit (s : SysCsrs) (n : Z) : bool :=
  if n =? 3 then Z.testbit s.(mstatus) 7
  else if n =? 7 then true
  else if (n =? 11) || (n =? 12) then false
  else if n =? 17 then Z.testbit s.(mstatus) 12 && Z.testbit s.(mstatus) 17
  else Z.testbit s.(mstatus) n.

Definition sret_bit (s : SysCsrs) (n : Z) : bool :=
  if n =? 1 then Z.testbit s.(mstatus) 5
  else if n =? 5 then true
  else if (n =? 8) || (n =? 17) then false
  else Z.testbit s.(mstatus) n.

Lemma mret_sys_bits s n : 0 <= n -> Z.testbit (mstatus (mret_sys s)) n = mret_bit s n.
Proof.
  intros Hn. unfold mret_sys, mret_bit. cbv zeta. rewrite from_bits_mpp. unfold field_mode.
  destruct (Z.testbit (mstatus s) 12) eqn:E12; [|destruct (Z.testbit (mstatus s) 11)];
    cbn [mode_eqb mode_bits Z.eqb Pos.eqb negb set_mode set_mstatus mstatus];
    mstatus_bits; position_cases; done.
Qed.

Lemma sret_sys_bits s n : 0 <= n -> Z.testbit (mstatus (sret_sys s)) n = sret_bit s n.
Proof.
  intros Hn. unfold sret_sys, sret_bit. cbv zeta.
  destruct (negb (mstatus s .& MSTATUS_SPP =? 0));
    cbn [mode_eqb mode_bits Z.eqb Pos.eqb negb set_mode set_mstatus mstatus];
    mstatus_bits; position_cases; done.
Qed.

Lemma mret_sys_mode s :
  mode (mret_sys s) = field_mode (Z.testbit s.(mstatus) 11) (Z.testbit s.(mstatus) 12).
Proof. unfold mret_sys. cbv zeta. cbn [mode set_mode]. apply from_bits_mpp. Qed.

Lemma sret_sys_mode s :
  mode (sret_sys s) = field_mode (Z.testbit s.(mstatus) 8) false.
Proof.
  unfold sret_sys. cbv zeta. cbn [mode set_mode].
  by rewrite (mask_bit _ 8 MSTATUS_SPP) by done.
Qed.

Lemma exec_mret_arch insn c s :
  c.(sys) = Some s -> s.(mode) = Machine ->
  exists c', exec_mret insn c = (Ok (Next s.(mepc) None), c')
    /\ c'.(sys) = Some (mret_sys s) /\ c'.(xregs) = c.(xregs) /\ c'.(fregs) = c.(fregs).
Proof.
  intros Hs Hm. unfold exec_mret, bind, modify, gets, id, ok_or. cbn [sys set_irq_poll_cd].
  rewrite Hs. unfold ret. rewrite Hm. cbn [mode_eqb mode_bits Z.eqb Pos.eqb negb].
  eexists. split; [reflexivity|].
  match goal with |- context [privilege_changed ?x] =>
    destruct (privilege_changed_keeps x) as (-> & _ & -> & -> & _) end. done.
Qed.

Lemma exec_sret_arch insn c s :
  c.(sys) = Some s -> s.(mode) = Supervisor -> Z.testbit s.(mstatus) 22 = false ->
  exists c', exec_sret insn c = (Ok (Next s.(sepc) None), c')
    /\ c'.(sys) = Some (sret_sys s) /\ c'.(xregs) = c.(xregs) /\ c'.(fregs) = c.(fregs).
Proof.
  intros Hs Hm Ht. unfold exec_sret, bind, modify, gets, id, ok_or. cbn [sys set_irq_poll_cd].
  rewrite Hs. unfold ret. rewrite Hm, (mask_bit _ 22 MSTATUS_TSR), Ht by done.
  cbn [mode_eqb mode_bits Z.eqb Pos.eqb negb andb orb].
  eexists. split; [reflexivity|].
  match goal with |- context [privilege_changed ?x] =>
    destruct (privilege_changed_keeps x) as (-> & _ & -> & -> & _) end. done.
Qed.

(** C9: Trap entry and trap return are inverse: after a trap, the return instruction of
    the mode it entered (SRET for a delegated trap, TSR permitting, MRET
    otherwise) resumes at the interrupted pc in the interrupted mode with the
    registers and the interrupt enables it had; of mstatus only the stacked
    fields (xPIE, xPP) and MPRV may differ. *)
Theorem trap_return c s cause tval i :
  c.(sys) = Some s -> 0 <= cause < 64 ->
  (delegated s cause i = true -> Z.testbit s.(mstatus) 22 = false) ->
  exists c1 c2 s2,
    take_trap cause tval i c = (Ok tt, c1)
    /\ (if delegated s cause i then exec_sret 0x10200073 else exec_mret 0x30200073) c1
       = (Ok (Next c.(pc) None), c2)
    /\ c2.(sys) = Some s2 /\ s2.(mode) = s.(mode)
    /\ c2.(xregs) = c.(xregs) /\ c2.(fregs) = c.(fregs)
    /\ forall n, 0 <= n -> n <> 17 ->
       (if delegated s cause i then n <> 5 /\ n <> 8 else n <> 7 /\ n <> 11 /\ n <> 12) ->
       Z.testbit s2.(mstatus) n = Z.testbit s.(mstatus) n.
Proof.
  intros Hs Hk Htsr.
  destruct (take_trap_arch cause tval i c s Hs) as (c1 & E1 & Es1 & _ & Ex1 & Ef1 & _).
  set (s1 := fst (enter_trap s (pc c) cause tval i)) in *.
  rewrite <- trap_to_s_delegated in * by done. destruct (trap_to_s s cause i) eqn:Ht.
  - assert (s1.(mode) = Supervisor /\ s1.(sepc) = c.(pc)) as [Hm1 Hp1]
      by (unfold s1, enter_trap; by rewrite Ht).
    pose proof (enter_trap_s_bits s (pc c) cause tval i) as Hb.
    destruct (exec_sret_arch 0x10200073 c1 s1) as (c2 & E2 & Es2 & Ex2 & Ef2); [done|done| |].
    { unfold s1. rewrite Hb by (done || lia). by apply Htsr. }
    exists c1, c2, (sret_sys s1). rewrite E2, Hp1, Ex2, Ef2. split_and!; try done.
    + rewrite sret_sys_mode. unfold s1. rewrite Hb by (done || lia).
      unfold trap_to_s in Ht. cbn. by destruct (mode s).
    + intros n Hn ? [? ?]. rewrite sret_sys_bits by done. unfold sret_bit, s1.
      rewrite !Hb by (done || lia). unfold s_entry_bit. position_cases; done.
  - assert (s1.(mode) = Machine /\ s1.(mepc) = c.(pc)) as [Hm1 Hp1]
      by (unfold s1, enter_trap; by rewrite Ht).
    pose proof (enter_trap_m_bits s (pc c) cause tval i) as Hb.
    destruct (exec_mret_arch 0x30200073 c1 s1) as (c2 & E2 & Es2 & Ex2 & Ef2); [done|done|].
    exists c1, c2, (mret_sys s1). rewrite E2, Hp1, Ex2, Ef2. split_and!; try done.
    + rewrite mret_sys_mode. unfold s1. rewrite !Hb by (done || lia). cbn. by destruct (mode s).
    + intros n Hn ? (? & ? & ?). rewrite mret_sys_bits by done. unfold mret_bit, s1.
      rewrite !Hb by (done || lia). unfold m_entry_bit. position_cases; done.
Qed.

(** ** Interrupts *)

(** mip as sampled: the hardware lines replace MSIP, MTIP, SEIP and MEIP. *)
Definition sampled_bit (s : SysCsrs) (lines n : Z) : bool :=
  if (n =? 3) || (n =? 7) || (n =? 9) || (n =? 11) then Z.testbit lines n
  else Z.testbit s.(mip) n.

(** Interrupt [irq] may interrupt the current mode: a delegated one is taken below
    S-mode, or in S-mode with SIE; any other below M-mode, or in M-mode with
    MIE. *)
Definition may_interrupt (s : SysCsrs) (irq : Z) : Prop :=
  if Z.testbit s.(mideleg) irq
  then s.(mode) = User \/ (s.(mode) = Supervisor /\ Z.testbit s.(mstatus) 1 = true)
  else s.(mode) <> Machine \/ Z.testbit s.(mstatus) 3 = true.

(** ... and it is pending and enabled. *)
Definition takeable (s : SysCsrs) (lines irq : Z) : Prop :=
  sampled_bit s lines irq = true /\ Z.testbit s.(mie) irq = true /\ may_interrupt s irq.

Lemma sampled_mip s lines n : 0 <= n ->
  Z.testbit ((s.(mip) .&~ HW_LINES) .| (lines .& HW_LINES)) n = sampled_bit s lines n.
Proof.
  intros Hn. unfold HW_LINES, IRQ_MTIP, IRQ_MSIP, IRQ_MEIP, IRQ_SEIP, sampled_bit.
  rewrite Z.lor_spec, Z.ldiff_spec, Z.land_spec, !Z.lor_spec, !testbit_pow by lia.
  position_cases; done.
Qed.

Lemma deliverable_spec s irq :
  0 <= irq -> deliverable s irq = true <-> may_interrupt s irq.
Proof.
  intros Hi. unfold deliverable, may_interrupt. cbv zeta.
  rewrite (mask_bit _ irq), (mask_bit _ 1 MSTATUS_SIE), (mask_bit _ 3 MSTATUS_MIE)
    by (done || apply Z.shiftl_1_l).
  destruct (Z.testbit (mideleg s) irq), (mode s), (Z.testbit (mstatus s) 1),
    (Z.testbit (mstatus s) 3); cbn; intuition congruence.
Qed.

(** The selection loop finds the first takeable interrupt of its list. *)
Lemma select_irq_spec s0 s lines irqs :
  s = set_mip ((s0.(mip) .&~ HW_LINES) .| (lines .& HW_LINES)) s0 ->
  Forall (fun n => 0 <= n) irqs ->
  match select_irq s (s.(mip) .& s.(mie)) irqs with
  | Some irq => exists before after, irqs = before ++ irq :: after
      /\ takeable s0 lines irq /\ Forall (fun n => ~ takeable s0 lines n) before
  | None => Forall (fun n => ~ takeable s0 lines n) irqs
  end.
Proof.
  intros -> Hn. induction Hn as [|irq irqs Hi _ IH]; [constructor|].
  cbn [select_irq mip mie set_mip] in *.
  set (m := (mip s0 .&~ HW_LINES) .| (lines .& HW_LINES)) in *. set (s1 := set_mip m s0) in *.
  assert (takeable s0 lines irq
    <-> Z.testbit (m .& mie s0) irq = true /\ deliverable s1 irq = true) as Ht.
  { rewrite deliverable_spec, Z.land_spec, andb_true_iff by done. unfold m.
    rewrite sampled_mip by done. unfold takeable, may_interrupt, s1. cbn. tauto. }
  pose proof (mask_bit (m .& mie s0) irq (1 .<< irq) Hi (Z.shiftl_1_l irq)) as Hb.
  destruct (_ =? 0) eqn:Ep in Hb |- *; cbn [negb] in Hb; rewrite <- Hb in Ht.
  - destruct (select_irq _ _ irqs); [|constructor; [by intros [? _]%Ht|done]].
    destruct IH as (before & after & -> & ? & ?). exists (irq :: before), after.
    split; [done|]. split; [done|]. constructor; [by intros [? _]%Ht|done].
  - destruct (deliverable s1 irq).
    + exists [], irqs. split; [done|]. split; [by apply Ht|constructor].
    + destruct (select_irq _ _ irqs); [|constructor; [by intros [_ ?]%Ht|done]].
      destruct IH as (before & after & -> & ? & ?). exists (irq :: before), after.
      split; [done|]. split; [done|]. constructor; [by intros [_ ?]%Ht|done].
Qed.

(** C23: Interrupt sampling takes the right interrupt: the hardware lines replace their
    bits of mip; if some interrupt is pending, enabled and allowed to interrupt
    the current mode (delegation, SIE and MIE considered), the first such one in
    the order MEI, MSI, MTI, SEI, SSI, STI is taken as a trap, and the hart is
    otherwise not touched. *)
Theorem check_interrupts_priority {B} `{Bus B} c s (b : B) :
  c.(sys) = Some s ->
  let lines := fst (irq_lines b) in
  let c0 := set_sys (Some (set_mip ((s.(mip) .&~ HW_LINES) .| (lines .& HW_LINES)) s)) c in
  (exists irq before after c1,
     [11; 3; 7; 9; 1; 5] = before ++ irq :: after
     /\ takeable s lines irq /\ Forall (fun n => ~ takeable s lines n) before
     /\ take_trap irq 0 true c0 = (Ok tt, c1)
     /\ check_interrupts (c, b) = (Ok true, (c1, snd (irq_lines b))))
  \/ (Forall (fun n => ~ takeable s lines n) [11; 3; 7; 9; 1; 5]
      /\ check_interrupts (c, b) = (Ok false, (c0, snd (irq_lines b)))).
Proof.
  intros Hs lines c0. unfold check_interrupts. rewrite Hs. subst lines c0.
  destruct (irq_lines b) as [lines b']; cbn [fst snd]. cbv zeta.
  set (s1 := set_mip _ s).
  pose proof (select_irq_spec s s1 lines irq_priority eq_refl) as Hsel.
  assert (Forall (fun n => 0 <= n) irq_priority) as Hp by (repeat constructor; lia).
  specialize (Hsel Hp).
  destruct (Z.eqb_spec (mip s1 .& mie s1) 0) as [E0|E0].
  - right. split; [|done]. apply Forall_forall. intros n Hn [Hm [He _]].
    assert (0 <= n) as Hn0 by (rewrite Forall_forall in Hp; by apply Hp).
    apply (f_equal (fun x => Z.testbit x n)) in E0. cbn [mip mie set_mip s1] in E0.
    rewrite Z.land_spec, Z.bits_0, sampled_mip, Hm, He in E0 by done. done.
  - destruct (select_irq s1 (mip s1 .& mie s1) irq_priority) as [irq|]; [left|by right].
    destruct Hsel as (before & after & El & Ht & Hb).
    destruct (take_trap_arch irq 0 true (set_sys (Some s1) c) s1 eq_refl) as (c1 & E1 & _).
    exists irq, before, after, c1. split_and!; try done.
    unfold bind, on_fst. cbn [fst snd]. by rewrite E1.
Qed.

(** ** Witnesses *)

Lemma trap_entry_witness :
  exists c' s', take_trap 13 0x2345 false demo_paged = (Ok tt, c') /\ c'.(sys) = Some s'
    /\ s'.(mode) = Machine /\ s'.(mtval) = 0x2345.
Proof.
  destruct (trap_entry demo_paged demo_sys 13 0x2345 false)
    as (c' & s' & E & Es & _ & _ & _ & _ & Hm);
    [apply demo_paged_wf|reflexivity|split; [discriminate|reflexivity]|].
  exists c', s'. destruct Hm as (Hm & _ & _ & _ & Ht & _).
  split; [exact E|]. split; [exact Es|]. split; [exact Hm|exact Ht].
Defined.

Lemma trap_return_witness :
  exists c1 c2, take_trap 13 0x2345 false demo_paged = (Ok tt, c1)
    /\ exec_mret 0x30200073 c1 = (Ok (Next 0 None), c2) /\ c2.(xregs) = demo_paged.(xregs).
Proof.
  destruct (trap_return demo_paged demo_sys 13 0x2345 false)
    as (c1 & c2 & s2 & E1 & E2 & _ & _ & Ex & _);
    [reflexivity|split; [discriminate|reflexivity]|discriminate|].
  exists c1, c2. split; [exact E1|]. split; [exact E2|exact Ex].
Defined.

(** User mode with a software interrupt pending, enabled and delegated. *)
Definition demo_pending : SysCsrs :=
  set_mode User (set_mip IRQ_SSIP (set_mie IRQ_SSIP (set_mideleg IRQ_SSIP SysCsrs_new))).

Lemma check_interrupts_priority_witness :
  fst (check_interrupts (B := FlatMemory)
         (set_sys (Some demo_pending) Cpu_new, mkFlat 8 [])) = Ok true.
Proof.
  destruct (check_interrupts_priority (B := FlatMemory)
    (set_sys (Some demo_pending) Cpu_new) demo_pending (mkFlat 8 []) eq_refl)
    as [(irq & before & after & c1 & _ & _ & _ & _ & E)|[Hn _]].
  - rewrite E. reflexivity.
  - exfalso. rewrite Forall_forall in Hn. apply (Hn 1).
    + apply list_elem_of_In. do 4 right. left.
    + split; [reflexivity|]. split; [reflexivity|]. left. reflexivity.
Defined.
