(* ===== verification/CsrSpec.v ===== *)
(** * What the CSR file promises

    Privilege and read-only checks, read-after-write with the WARL rules, the
    isolation of machine state from supervisor writes, and satp. *)

From S2P Require Import Prelude Exception Decode Csr State Bus Mmu Trap CsrOps Wf SafeMem.
From S2P Require Import MmuSpec TrapSpec.

(** The lowest mode that may access a CSR and whether it is writable are encoded in
    its address. *)
Definition csr_min_mode (csr : Z) : Z := (csr / 256) mod 4.
Definition csr_read_only (csr : Z) : bool := csr / 1024 =? 3.

Lemma csr_privileged_spec c s csr :
  c.(sys) = Some s -> csr_privileged c csr = (mode_bits s.(mode) <? csr_min_mode csr).
Proof.
  intros Hs. unfold csr_privileged, csr_min_mode. rewrite Hs.
  by rewrite (land_ones_lit _ 3 2), (shiftr_lit _ 8 256) by done.
Qed.

Lemma csr_read_only_spec csr : ((csr .>> 10) =? 3) = csr_read_only csr.
Proof. unfold csr_read_only. by rewrite (shiftr_lit _ 10 1024) by done. Qed.

(** [csr_write] past its two address checks. *)
Ltac csr_arms :=
  repeat match goal with
  | |- context [if ?b then _ else _] => destruct b
  | |- context [match sys ?c with _ => _ end] => destruct (sys c)
  | |- context [match write_satp ?v ?s ?c with _ => _ end] => destruct (write_satp v s c)
  | |- context [match sys_csr_write ?s ?k ?v with _ => _ end] => destruct (sys_csr_write s k v)
  end.

(** CSR accesses are checked and refusals are harmless: a read succeeds only in a
    mode the address admits, a write only in such a mode and to a writable
    address; a refused write changes nothing but the interrupt-poll countdown. *)
Theorem csr_access_checked c s csr v :
  c.(sys) = Some s ->
  (forall w, csr_read c csr = Some w -> csr_min_mode csr <= mode_bits s.(mode))
  /\ match csr_write csr v c with
     | (true, _) => csr_min_mode csr <= mode_bits s.(mode) /\ csr_read_only csr = false
     | (false, c') => c' = set_irq_poll_cd 0 c
     end.
Proof.
  intros Hs. split.
  - intros w. unfold csr_read. rewrite (csr_privileged_spec c s) by done.
    destruct (Z.ltb_spec (mode_bits (mode s)) (csr_min_mode csr)); [done|lia].
  - unfold csr_write. cbv zeta. rewrite csr_read_only_spec.
    rewrite (csr_privileged_spec _ s) by done.
    destruct (csr_read_only csr); [done|].
    destruct (Z.ltb_spec (mode_bits (mode s)) (csr_min_mode csr)) as [|Hle]; [done|].
    csr_arms; done || (split; [exact Hle|done]).
Qed.

(** ** Read after write *)

(** The value a writable CSR holds after [v] was written to it (its WARL rule). *)
Definition csr_warl_sys (csr v : Z) : option Z :=
  if existsb (Z.eqb csr) [SSCRATCH; SCAUSE; STVAL; MEDELEG; MIE; MSCRATCH; MCAUSE; MTVAL]
  then Some v
  else if existsb (Z.eqb csr) [SEPC; MEPC] then Some (v - v mod 2)
  else if existsb (Z.eqb csr) [STVEC; MTVEC] then Some (Z.clearbit v 1)
  else if existsb (Z.eqb csr) [SCOUNTEREN; MCOUNTEREN] then Some (v mod 8)
  else if csr =? MIDELEG then Some (v .& 0x222)
  else None.

Definition csr_warl_fp (csr v : Z) : option Z :=
  if csr =? FFLAGS then Some (v mod 32)
  else if csr =? FRM then Some (v mod 8)
  else if csr =? FCSR then Some (v mod 256)
  else None.

(** The vector CSRs exist while the vector unit is enabled. *)
Definition csr_warl_vector (c : Cpu) (csr v : Z) : option Z :=
  if negb (vector_enabled c) then None
  else if csr =? VSTART then Some (v mod 128)
  else if csr =? VXSAT then Some (v mod 2)
  else if csr =? VXRM then Some (v mod 4)
  else if csr =? VCSR then Some (v mod 8)
  else None.

Definition csr_warl (c : Cpu) (csr v w : Z) : Prop :=
  csr_warl_sys csr v = Some w \/ csr_warl_fp csr v = Some w
  \/ csr_warl_vector c csr v = Some w.

(** Decide the closed tests of a chain. *)
Ltac closed_tests :=
  repeat match goal with
  | |- context [if ?b then _ else _] =>
      let b' := eval vm_compute in b in
      lazymatch b' with true => idtac | false => idtac end;
      change b with b'; cbv iota
  end.

Lemma vector_enabled_dirty c : vector_enabled (vector_dirty c) = true \/ sys c = None.
Proof.
  unfold vector_enabled, vector_dirty. destruct (sys c) as [s|] eqn:E; [left|by right].
  cbn [sys set_sys mstatus set_mstatus]. apply negb_true_iff, Z.eqb_neq. intros Hz.
  apply (f_equal (fun x => Z.testbit x 9)) in Hz.
  rewrite Z.land_spec, Z.lor_spec, Z.bits_0 in Hz.
  change (Z.testbit MSTATUS_VS 9) with true in Hz. by rewrite orb_true_r in Hz.
Qed.

Lemma low_fcsr x v : uint 8 x -> uint 5 v -> ((x .&~ 0x1f) .| v) .& 0x1f = v.
Proof.
  intros Hx Hv. rewrite (lor_add_hi 5); [|lia|done|].
  - arith_bits. change 31 with (Z.ones 5). rewrite Z.ldiff_ones_r, (shiftl_lit _ 5 32),
      (shiftr_lit _ 5 32) by done. revert Hv. unfold uint. zlia.
  - change 31 with (Z.ones 5). rewrite Z.ldiff_ones_r, Z.shiftl_mul_pow2 by done.
    by apply Z.mod_mul.
Qed.

Lemma high_fcsr x v : uint 8 x -> uint 3 v ->
  ((((x .&~ 0xe0) .| (v .<< 5)) .>> 5) .& 7) = v.
Proof.
  intros Hx Hv. apply Z.bits_inj'. intros i Hi.
  rewrite Z.land_spec, Z.shiftr_spec, Z.lor_spec, Z.ldiff_spec, Z.shiftl_spec by lia.
  replace (i + 5 - 5) with i by lia. change 7 with (Z.ones 3).
  destruct (decide (i < 3)).
  - rewrite Z.ones_spec_low by lia. rewrite andb_true_r.
    assert (Z.testbit 224 (i + 5) = true) as ->; [|by rewrite andb_false_r].
    assert (i = 0 \/ i = 1 \/ i = 2) as [-> | [-> | ->]] by lia; reflexivity.
  - rewrite Z.ones_spec_high by lia. rewrite andb_false_r. symmetry.
    destruct Hv. apply (uint_testbit 3); [lia|lia|done|lia].
Qed.

(** The two checks in front of every access, discharged. *)
Lemma csr_write_open c s csr :
  c.(sys) = Some s -> csr_min_mode csr <= mode_bits s.(mode) ->
  csr_privileged (set_irq_poll_cd 0 c) csr = false.
Proof.
  intros Hs Hle. rewrite (csr_privileged_spec _ s) by done. by apply Z.ltb_ge.
Qed.

Lemma csr_read_open c s csr :
  c.(sys) = Some s -> csr_min_mode csr <= mode_bits s.(mode) -> csr_privileged c csr = false.
Proof. intros Hs Hle. rewrite (csr_privileged_spec _ s) by done. by apply Z.ltb_ge. Qed.

Ltac open_access :=
  unfold csr_write; cbv zeta; closed_tests; erewrite csr_write_open by eassumption;
  cbv iota; closed_tests.

(** A CSR of [SysCsrs] alone. *)
Lemma sys_csr_write_read c s csr v s' w :
  c.(sys) = Some s -> csr_min_mode csr <= mode_bits s.(mode) ->
  In csr [SSCRATCH; SCAUSE; STVAL; MEDELEG; MIE; MSCRATCH; MCAUSE; MTVAL; SEPC; MEPC; STVEC;
          MTVEC; SCOUNTEREN; MCOUNTEREN; MIDELEG] ->
  sys_csr_write s csr v = Some s' -> sys_csr_read s' csr = Some w ->
  mode s' = mode s ->
  exists c', csr_write csr v c = (true, c') /\ csr_read c' csr = Some w.
Proof.
  intros Hs Hle Hin Hw Hr Hm. exists (set_sys (Some s') (set_irq_poll_cd 0 c)). split.
  - repeat (destruct Hin as [<-|Hin]; [open_access; cbn [sys set_irq_poll_cd]; by rewrite Hs, Hw|]).
    destruct Hin.
  - repeat (destruct Hin as [<-|Hin];
      [unfold csr_read; rewrite (csr_read_open _ s') by (done || by rewrite Hm);
       closed_tests; cbn [sys set_sys]; by rewrite Hr|]).
    destruct Hin.
Qed.

Lemma u32_mod v n : 0 <= n <= 32 -> u32 v mod 2 ^ n = v mod 2 ^ n.
Proof.
  intros Hn. unfold u32, wrap. apply Z.mod_mod_divide.
  exists (2 ^ (32 - n)). rewrite <- Z.pow_add_r by lia. f_equal. lia.
Qed.

Lemma clearbit_ldiff v : v .&~ 2 = Z.clearbit v 1.
Proof. reflexivity. Qed.

Lemma ldiff_1 v : v .&~ 1 = v - v mod 2.
Proof.
  change 1 with (Z.ones 1). rewrite Z.ldiff_ones_r, (shiftl_lit _ 1 2), (shiftr_lit _ 1 2) by done.
  zlia.
Qed.

Lemma land_7 v : v .& 7 = v mod 8.
Proof. by rewrite (land_ones_lit v 7 3). Qed.

Ltac sys_csr_cases E :=
  apply existsb_exists in E as (k & Hin & <-%Z.eqb_eq); intros [= <-];
  rewrite <- ?ldiff_1; rewrite <- ?land_7;
  repeat (destruct Hin as [<-|Hin];
    [by eapply sys_csr_write_read; [eassumption|eassumption|cbn; tauto|reflexivity..]|]);
  destruct Hin.

(** A floating-point CSR. *)
Lemma fp_csr_write_read c s csr v f w :
  c.(sys) = Some s -> csr_min_mode csr <= mode_bits s.(mode) ->
  csr_write csr v c = (true, set_fcsr f (set_irq_poll_cd 0 c)) ->
  (csr = FFLAGS /\ f .& 0x1f = w) \/ (csr = FRM /\ (f .>> 5) .& 7 = w)
    \/ (csr = FCSR /\ f = w) ->
  exists c', csr_write csr v c = (true, c') /\ csr_read c' csr = Some w.
Proof.
  intros Hs Hle Hw Hcase. eexists. split; [exact Hw|]. unfold csr_read.
  rewrite (csr_read_open _ s) by done.
  destruct Hcase as [[-> <-]|[[-> <-]|[-> <-]]]; by closed_tests.
Qed.

(** A vector CSR: the write also marks the unit dirty, which keeps it enabled. *)
Lemma vector_csr_write_read c s csr v r w :
  c.(sys) = Some s -> csr_min_mode csr <= mode_bits s.(mode) ->
  csr_write csr v c = (true, vector_dirty (set_vector r (set_irq_poll_cd 0 c))) ->
  (csr = VSTART /\ r.(vstart) = w) \/ (csr = VXSAT /\ Z.b2z r.(vxsat) = w)
    \/ (csr = VXRM /\ r.(vxrm) = w)
    \/ (csr = VCSR /\ (r.(vxrm) .<< 1) .| Z.b2z r.(vxsat) = w) ->
  exists c', csr_write csr v c = (true, c') /\ csr_read c' csr = Some w.
Proof.
  intros Hs Hle Hw Hcase. eexists. split; [exact Hw|]. unfold csr_read.
  set (c' := vector_dirty _).
  assert (vector_enabled c' = true) as Hve.
  { destruct (vector_enabled_dirty (set_vector r (set_irq_poll_cd 0 c))) as [|E]; [done|].
    cbn [sys set_vector set_irq_poll_cd] in E. congruence. }
  assert (vector c' = r) as Hr.
  { unfold c', vector_dirty. cbn [sys set_vector set_irq_poll_cd]. by rewrite Hs. }
  assert (exists s', sys c' = Some s' /\ mode s' = mode s) as (s' & Hs' & Hm).
  { unfold c', vector_dirty. cbn [sys set_vector set_irq_poll_cd]. rewrite Hs. by eexists. }
  rewrite (csr_read_open _ s'), Hve, Hr by (done || by rewrite Hm).
  destruct Hcase as [[-> <-]|[[-> <-]|[[-> <-]|[-> <-]]]]; by closed_tests.
Qed.

Lemma vcsr_bits v : ((((v .>> 1) .& 3) .<< 1) .| Z.b2z (negb (v .& 1 =? 0))) = v mod 8.
Proof.
  rewrite land_1, b2z_0, negb_involutive, <- land_7.
  apply Z.bits_inj'. intros i Hi. rewrite Z.lor_spec, Z.land_spec.
  change 7 with (Z.ones 3). change 3 with (Z.ones 2) at 1.
  destruct (decide (i = 0)) as [->|].
  - rewrite Z.shiftl_spec_low, Z.ones_spec_low by lia. by rewrite Z.b2z_bit0, andb_true_r.
  - rewrite Z.shiftl_spec, Z.land_spec, Z.shiftr_spec by lia.
    replace (i - 1 + 1) with i by lia.
    assert (Z.testbit (Z.b2z (Z.testbit v 0)) i = false) as ->.
    { apply (uint_testbit 1); [lia|..|lia]; destruct (Z.testbit v 0); cbn; unfold uint; lia. }
    rewrite orb_false_r. f_equal. destruct (decide (i < 3)).
    + by rewrite !Z.ones_spec_low by lia.
    + by rewrite !Z.ones_spec_high by lia.
Qed.

Section ReadAfterWrite.
Context (c : Cpu) (s : SysCsrs) (csr v : Z).
Hypothesis (Hc : wf_cpu c) (Hs : c.(sys) = Some s) (Hv : uint 64 v)
  (Hle : csr_min_mode csr <= mode_bits s.(mode)).

(** [w] is read back after [v] was written. *)
Definition reads_back (w : Z) : Prop :=
  exists c', csr_write csr v c = (true, c') /\ csr_read c' csr = Some w.

Lemma sys_reads_back w : csr_warl_sys csr v = Some w -> reads_back w.
Proof using Hs Hle.
  unfold csr_warl_sys, reads_back.
  destruct (existsb _ [SSCRATCH; _; _; _; _; _; _; _]) eqn:E; [sys_csr_cases E|clear E].
  destruct (existsb _ [SEPC; _]) eqn:E; [sys_csr_cases E|clear E].
  destruct (existsb _ [STVEC; _]) eqn:E; [sys_csr_cases E|clear E].
  destruct (existsb _ [SCOUNTEREN; _]) eqn:E; [sys_csr_cases E|clear E].
  destruct (Z.eqb_spec csr MIDELEG) as [Ek|_]; [|done]. rewrite Ek in *.
  intros [= <-]. by eapply sys_csr_write_read; [done|done|cbn; tauto|reflexivity..].
Qed.

Lemma fp_reads_back w : csr_warl_fp csr v = Some w -> reads_back w.
Proof using Hs Hle Hc.
  pose proof (wf_fcsr _ Hc) as Hf. unfold csr_warl_fp, reads_back.
  destruct (Z.eqb_spec csr FFLAGS) as [Ek|_]; [|destruct (Z.eqb_spec csr FRM) as [Ek|_];
    [|destruct (Z.eqb_spec csr FCSR) as [Ek|_]; [|done]]];
    rewrite Ek in *; intros [= <-]; (eapply (fp_csr_write_read c s); [done|done|by open_access|]).
  - left. split; [done|].
    rewrite low_fcsr, (land_ones_lit _ 31 5); [by apply u32_mod|done|done|done|by apply uint_land_r].
  - right. left. split; [done|].
    rewrite high_fcsr, (land_ones_lit _ 7 3); [by apply u32_mod|done|done|done|by apply uint_land_r].
  - right. right. split; [done|]. rewrite (land_ones_lit _ 255 8) by done. by apply u32_mod.
Qed.

Lemma vector_reads_back w : csr_warl_vector c csr v = Some w -> reads_back w.
Proof using Hs Hle.
  unfold csr_warl_vector, reads_back.
  destruct (vector_enabled c) eqn:Hve; cbn [negb]; [|done].
  assert (vector_enabled (set_irq_poll_cd 0 c) = true) as Hve' by exact Hve.
  destruct (Z.eqb_spec csr VSTART) as [Ek|_]; [|destruct (Z.eqb_spec csr VXSAT) as [Ek|_];
    [|destruct (Z.eqb_spec csr VXRM) as [Ek|_]; [|destruct (Z.eqb_spec csr VCSR) as [Ek|_];
    [|done]]]]; rewrite Ek in *; intros [= <-];
    (eapply (vector_csr_write_read c s); [done|done|open_access; rewrite Hve'; by closed_tests|]).
  - left. split; [done|]. cbn [vstart set_vstart]. by rewrite (land_ones_lit _ _ 7).
  - right. left. split; [done|]. cbn [vxsat set_vxsat].
    rewrite land_1, b2z_0, negb_involutive. apply Z.bit0_mod.
  - right. right. left. split; [done|]. cbn [vxrm set_vxrm]. by rewrite (land_ones_lit _ 3 2).
  - right. right. right. split; [done|]. cbn [vxrm vxsat set_vxrm set_vxsat]. apply vcsr_bits.
Qed.

Lemma counter_reads_back :
  csr = MCYCLE \/ csr = MINSTRET ->
  exists c', csr_write csr v c = (true, c')
    /\ csr_read (set_insn_count (add64 c.(insn_count) 1) c') csr = Some v.
Proof using Hs Hle Hv.
  assert (sub64 v (add64 (insn_count c) 1) = u64 (v - (insn_count c + 1))) as Hoff.
  { unfold sub64, add64, u64, wrap. by rewrite Zminus_mod_idemp_r. }
  intros Hk. eexists. split.
  - destruct Hk as [Ek|Ek]; rewrite Ek in *; open_access; cbn [sys set_irq_poll_cd];
      rewrite Hs; reflexivity.
  - unfold csr_read. erewrite csr_read_open; [|reflexivity|exact Hle].
    destruct Hk as [Ek|Ek]; rewrite Ek in *; closed_tests;
      cbn [sys set_insn_count set_sys insn_count minstret_off set_minstret_off set_irq_poll_cd];
      rewrite Hoff; unfold add64, u64, wrap;
      rewrite Zplus_mod_idemp_l, Zplus_mod_idemp_r; f_equal;
      (rewrite <- (wrap_small 64 v Hv) at 2); unfold wrap; f_equal; lia.
Qed.
End ReadAfterWrite.

(** A CSR reads back what was written, up to its WARL rule: for every trap
    set-up, trap handling, FP and vector CSR, a write in a mode that may access
    it succeeds and the next read returns the legalised value; and a value written
    to mcycle/minstret is what the following instruction reads. *)
Theorem csr_read_after_write c s csr v :
  wf_cpu c -> c.(sys) = Some s -> uint 64 v -> csr_min_mode csr <= mode_bits s.(mode) ->
  (forall w, csr_warl c csr v w ->
     exists c', csr_write csr v c = (true, c') /\ csr_read c' csr = Some w)
  /\ (csr = MCYCLE \/ csr = MINSTRET ->
      exists c', csr_write csr v c = (true, c')
        /\ csr_read (set_insn_count (add64 c.(insn_count) 1) c') csr = Some v).
Proof.
  intros Hc Hs Hv Hle. split; [|by apply (counter_reads_back c s)].
  intros w [H|[H|H]].
  - by apply (sys_reads_back c s).
  - by apply (fp_reads_back c s).
  - by apply (vector_reads_back c s).
Qed.

(** ** Isolation of machine state *)

(** The bits of mstatus a supervisor may write: SIE, SPIE, SPP, VS, FS, SUM, MXR. *)
Definition supervisor_bit (n : Z) : bool :=
  existsb (Z.eqb n) [1; 5; 8; 9; 10; 13; 14; 18; 19].

(** The state only M-mode may change: the machine CSRs, and the bits of mstatus,
    mie and mip that no supervisor view shows. *)
Record m_isolated (s s' : SysCsrs) : Prop := {
  iso_mode : s'.(mode) = s.(mode);
  iso_deleg : (s'.(medeleg), s'.(mideleg)) = (s.(medeleg), s.(mideleg));
  iso_trap : (s'.(mtvec), s'.(mepc), s'.(mcause), s'.(mtval), s'.(mscratch))
             = (s.(mtvec), s.(mepc), s.(mcause), s.(mtval), s.(mscratch));
  iso_misc : (s'.(mcounteren), s'.(mhartid), s'.(minstret_off))
             = (s.(mcounteren), s.(mhartid), s.(minstret_off));
  iso_pmp : (s'.(pmpcfg), s'.(pmpaddr)) = (s.(pmpcfg), s.(pmpaddr));
  iso_mstatus n : 0 <= n -> supervisor_bit n = false ->
    Z.testbit s'.(mstatus) n = Z.testbit s.(mstatus) n;
  iso_mie n : 0 <= n -> Z.testbit s.(mideleg) n = false ->
    Z.testbit s'.(mie) n = Z.testbit s.(mie) n;
  iso_mip n : 0 <= n -> Z.testbit s.(mideleg) n = false ->
    Z.testbit s'.(mip) n = Z.testbit s.(mip) n
}.

Lemma m_isolated_refl s : m_isolated s s.
Proof. by constructor. Qed.

Lemma supervisor_bit_mask n : 0 <= n -> Z.testbit SSTATUS_W n = supervisor_bit n.
Proof.
  intros Hn. unfold SSTATUS_W, MSTATUS_SIE, MSTATUS_SPIE, MSTATUS_SPP, MSTATUS_VS, MSTATUS_FS,
    MSTATUS_SUM, MSTATUS_MXR. rewrite !three_shl, !Z.lor_spec, !testbit_pow by lia.
  cbn [supervisor_bit existsb]. rewrite !(Z.eqb_sym n). position_cases; done.
Qed.

Lemma merge_outside mask old v n :
  Z.testbit mask n = false -> Z.testbit (merge mask old v) n = Z.testbit old n.
Proof.
  intros H. unfold merge. rewrite Z.lor_spec, Z.ldiff_spec, Z.land_spec, H.
  by rewrite andb_true_r, andb_false_r, orb_false_r.
Qed.

Lemma sys_csr_write_isolated s csr v s' :
  csr_min_mode csr <= 1 -> sys_csr_write s csr v = Some s' -> m_isolated s s'.
Proof.
  intros Hm. unfold sys_csr_write.
  repeat match goal with
  | |- (if csr =? ?k then _ else _) = Some _ -> _ =>
      destruct (Z.eqb_spec csr k) as [->|_];
      [first [by (exfalso; apply Hm; vm_compute; congruence) | intros [= <-]]|]
  end; [..|done].
  all: constructor; cbn; try done; intros n Hn Hd; apply merge_outside;
    first [exact Hd | by rewrite Z.land_spec, Hd, andb_false_r].
Qed.

Lemma flush_keeps_sys (b : bool) c : sys (if b then flush_tlb c else c) = sys c.
Proof. by destruct b. Qed.

(** C12: Supervisor software cannot reach machine state through CSRs: a write to any CSR
    address below machine level, whether accepted or refused, keeps the
    privilege mode, every machine CSR (delegation, trap vector and state, PMP,
    counters), the machine bits of mstatus (MIE, MPIE, MPP, MPRV, TVM, TW, TSR)
    and the non-delegated bits of mie and mip. *)
Theorem supervisor_csr_isolation c s csr v :
  c.(sys) = Some s -> 0 <= csr -> csr_min_mode csr <= 1 ->
  exists s', sys (snd (csr_write csr v c)) = Some s' /\ m_isolated s s'.
Proof.
  intros Hs H0 Hm. unfold csr_write. cbv zeta.
  set (c0 := set_irq_poll_cd 0 c). assert (sys c0 = Some s) as Hs0 by exact Hs. clearbody c0.
  assert (exists s', sys c0 = Some s' /\ m_isolated s s') as Hsame
    by (exists s; split; [done|apply m_isolated_refl]).
  assert (forall r, exists s', sys (vector_dirty (set_vector r c0)) = Some s'
    /\ m_isolated s s') as Hvec.
  { intros r. unfold vector_dirty. cbn [sys set_vector]. rewrite Hs0. eexists. split; [done|].
    constructor; try done. intros n Hn Hb. cbn [mstatus set_mstatus].
    rewrite Z.lor_spec. replace (Z.testbit MSTATUS_VS n) with false; [apply orb_false_r|].
    symmetry. apply not_true_is_false. intros Hvs. rewrite <- supervisor_bit_mask in Hb by done.
    unfold SSTATUS_W in Hb.
    rewrite !Z.lor_spec, Hvs, !orb_true_r in Hb. by cbn in Hb. }
  destruct (csr .>> 10 =? 3); [done|]. destruct (csr_privileged c0 csr); [done|].
  repeat match goal with
  | |- context [if (?a =? ?b) && vector_enabled c0 then _ else _] =>
      destruct ((a =? b) && vector_enabled c0); [apply Hvec|]
  | |- context [if csr =? ?k then (true, set_fcsr _ _) else _] =>
      destruct (csr =? k); [done|]
  end.
  destruct (Z.eqb_spec csr MCYCLE) as [->|_]; [by vm_compute in Hm|].
  destruct (Z.eqb_spec csr MINSTRET) as [->|_]; [by vm_compute in Hm|]. cbn [orb].
  destruct (_ && (csr .& 1 =? 0)) eqn:Ep.
  { exfalso. unfold csr_min_mode in Hm. rewrite !andb_true_iff, !Z.leb_le in Ep. zlia. }
  destruct ((0x3b0 <=? csr) && _) eqn:Eq.
  { exfalso. unfold csr_min_mode in Hm. rewrite !andb_true_iff, !Z.leb_le in Eq. zlia. }
  clear Ep Eq. rewrite !Hs0. destruct (csr =? SSTATUS).
  { unfold write_status. cbv zeta. cbn [snd sys sync_jit_tlb_context set_jit_tlb_context].
    rewrite flush_keeps_sys. eexists. split; [done|]. constructor; try done.
    intros n Hn Hb. apply merge_outside. by rewrite supervisor_bit_mask. }
  destruct (csr =? SATP).
  { unfold write_satp. cbv zeta. destruct (_ && _); [done|]. destruct (_ || _); [|done].
    destruct (negb _); (eexists; split; [done|]); by constructor. }
  destruct (_ || (csr =? 0x7a5)); [done|].
  destruct (Z.eqb_spec csr MSTATUS) as [->|_]; [by vm_compute in Hm|].
  destruct (csr =? MISA); [done|].
  destruct (sys_csr_write s csr v) as [s'|] eqn:Ew; [|done].
  exists s'. split; [done|]. by apply (sys_csr_write_isolated s csr v).
Qed.

(** ** satp *)

(** Satp writes switch address spaces safely: a write of a legal mode (bare, Sv39,
    Sv48) installs the value and every later translation walks the new table,
    for every access kind and in both fused rows; a write of any other mode
    succeeds and is ignored; under TVM a supervisor's write is refused. *)
Theorem satp_write_switches {B} `{Bus B} c s v va (b : B) :
  wf_cpu c -> c.(sys) = Some s -> s.(mode) <> User -> uint 64 va ->
  let trapped := s.(mode) = Supervisor /\ Z.testbit s.(mstatus) 20 = true in
  let '(ok, c') := csr_write SATP v c in
  (trapped -> ok = false)
  /\ (~ trapped -> ok = true)
  /\ (~ trapped -> satp_legal v ->
      sys c' = Some (set_satp v s)
      /\ (forall access, translate va access (c', b) = translate_slow va access (c', b))
      /\ (forall store, jit_probe_tlb c' va store = None))
  /\ (~ satp_legal v -> c' = set_irq_poll_cd 0 c).
Proof.
  intros Hc Hs Hm Hva trapped.
  assert (csr_min_mode SATP <= mode_bits (mode s)) as Hle.
  { unfold csr_min_mode, SATP. destruct (mode s); [done|vm_compute; congruence..]. }
  open_access. cbn [sys set_irq_poll_cd]. rewrite Hs. unfold write_satp. cbv zeta.
  rewrite (mask_bit _ 20 MSTATUS_TVM) by done.
  assert (mode_eqb (mode s) Supervisor && Z.testbit (mstatus s) 20 = true <-> trapped) as Ht.
  { unfold trapped. by destruct (mode s), (Z.testbit (mstatus s) 20); cbn; intuition congruence. }
  destruct (mode_eqb (mode s) Supervisor && Z.testbit (mstatus s) 20) eqn:Et.
  { split_and!; tauto. }
  assert (~ trapped) as Hnt by (intros ?%Ht; done).
  assert ((v .>> 60 =? 0) || (v .>> 60 =? 8) || (v .>> 60 =? 9) = true <-> satp_legal v) as Hl.
  { unfold satp_legal. rewrite !orb_true_iff, !Z.eqb_eq. tauto. }
  destruct (_ || _) eqn:El; [|split_and!; try tauto; by intros _ ?%Hl].
  split_and!; try tauto. intros _ _.
  set (c1 := set_sys _ _).
  assert (forall c2, tlb_tag c2 = tlb_bank 3 TLB_INVALID -> jtlb_tag c2 = tlb_bank 2 TLB_INVALID ->
    sys c2 = Some (set_satp v s) ->
    sys c2 = Some (set_satp v s)
    /\ (forall access, translate va access (c2, b) = translate_slow va access (c2, b))
    /\ (forall store, jit_probe_tlb c2 va store = None)) as Hfl; [|by destruct (negb _); apply Hfl].
  intros c2 E1 E2 E3. split; [done|]. by apply (flushed_misses c2 (set_satp v s)).
Qed.

(** ** Witnesses, on the supervisor hart of [MmuSpec] *)

Lemma csr_access_checked_witness :
  csr_write MSCRATCH 7 demo_paged = (false, set_irq_poll_cd 0 demo_paged).
Proof.
  pose proof (csr_access_checked demo_paged demo_sys MSCRATCH 7 eq_refl) as [_ H].
  destruct (csr_write MSCRATCH 7 demo_paged) as [[] c'].
  - destruct H as [H _]. exfalso. apply H. reflexivity.
  - rewrite H. reflexivity.
Defined.

Lemma csr_read_after_write_witness :
  exists c', csr_write SEPC 0x1235 demo_paged = (true, c') /\ csr_read c' SEPC = Some 0x1234.
Proof.
  apply (csr_read_after_write demo_paged demo_sys SEPC 0x1235);
    [apply demo_paged_wf|reflexivity|uint_lit|vm_compute; congruence|].
  left. reflexivity.
Defined.

Lemma supervisor_csr_isolation_witness :
  exists s', sys (snd (csr_write SSTATUS U64_MAX demo_paged)) = Some s'
    /\ s'.(mode) = Supervisor.
Proof.
  destruct (supervisor_csr_isolation demo_paged demo_sys SSTATUS U64_MAX) as (s' & E & Hi);
    [reflexivity|vm_compute; congruence|vm_compute; congruence|].
  exists s'. split; [exact E|]. rewrite (iso_mode _ _ Hi). reflexivity.
Defined.

Lemma satp_write_switches_witness :
  fst (csr_write SATP 0 demo_paged) = true
  /\ sys (snd (csr_write SATP 0 demo_paged)) = Some (set_satp 0 demo_sys).
Proof.
  pose proof (satp_write_switches demo_paged demo_sys 0 0x2345 (demo_table 0x20)) as H.
  destruct (csr_write SATP 0 demo_paged) as [ok c'] in *.
  destruct H as (_ & Hok & Hl & _);
    [apply demo_paged_wf|reflexivity|discriminate|uint_lit|].
  assert (~ (mode demo_sys = Supervisor /\ Z.testbit (mstatus demo_sys) 20 = true)) as Hnt
    by (intros [_ Hb]; vm_compute in Hb; discriminate).
  split; [exact (Hok Hnt)|]. apply Hl; [exact Hnt|]. left. reflexivity.
Defined.
