(* ===== verification/ExecSpec.v ===== *)
(** * What the integer, atomic and vector-configuration instructions compute

    Multiplication and division against exact integer arithmetic, the LR/SC
    pair, 32-bit AMOs against 32-bit operations, and vset{i}vl{i}. *)

From S2P Require Import Prelude Exception Decode Csr State Bus Mmu Trap CsrOps Vector SoftFp.
From S2P Require Import Exec Wf SafeMem SafeExec MmuSpec TrapSpec.

(** ** Signed readings *)

Lemma signed_range w x : 0 < w -> - 2 ^ (w - 1) <= signed w x < 2 ^ (w - 1).
Proof.
  intros Hw. unfold signed. pose proof (Z.mod_pos_bound (x + 2 ^ (w - 1)) (2 ^ w)).
  pose proof (Z.pow_succ_r 2 (w - 1)). replace (Z.succ (w - 1)) with w in * by lia.
  assert (0 < 2 ^ (w - 1)) by lia. lia.
Qed.

Lemma signed_mod w x : 0 <= w -> signed w x mod 2 ^ w = x mod 2 ^ w.
Proof.
  intros Hw. unfold signed. rewrite Zminus_mod_idemp_l. f_equal. lia.
Qed.

Lemma signed_wrap w x : 0 < w -> - 2 ^ (w - 1) <= x < 2 ^ (w - 1) -> signed w (wrap w x) = x.
Proof.
  intros Hw Hx. unfold signed, wrap. rewrite Zplus_mod_idemp_l.
  pose proof (Z.pow_succ_r 2 (w - 1)). replace (Z.succ (w - 1)) with w in * by lia.
  rewrite Z.mod_small by lia. lia.
Qed.

Lemma signed_cases w x : 0 < w -> uint w x ->
  signed w x = if x <? 2 ^ (w - 1) then x else x - 2 ^ w.
Proof.
  intros Hw [H0 H1]. unfold signed.
  pose proof (Z.pow_succ_r 2 (w - 1)). replace (Z.succ (w - 1)) with w in * by lia.
  destruct (Z.ltb_spec x (2 ^ (w - 1))); [rewrite Z.mod_small; lia|].
  replace (x + 2 ^ (w - 1)) with (x - 2 ^ (w - 1) + 1 * 2 ^ w) by lia.
  rewrite Z.mod_add, Z.mod_small by lia. lia.
Qed.

(** The two halves of a product that fits twice the width. *)
Lemma product_halves p x w :
  0 < w -> p mod 2 ^ w = x mod 2 ^ w -> - 2 ^ (w - 1 + w) <= p < 2 ^ (w - 1 + w) ->
  signed w (wrap w (p .>> w)) * 2 ^ w + wrap w x = p.
Proof.
  intros Hw Hx Hp. rewrite Z.shiftr_div_pow2 by lia.
  rewrite Z.pow_add_r in Hp by lia.
  rewrite signed_wrap; [unfold wrap; rewrite <- Hx; pose proof (Z.div_mod p (2 ^ w)); lia|done|].
  split; [apply Z.div_le_lower_bound|apply Z.div_lt_upper_bound]; lia.
Qed.

Lemma i64_range x : - 2 ^ 63 <= i64 x < 2 ^ 63.
Proof. by apply (signed_range 64). Qed.

Lemma mul_bound a b m n : - m <= a <= m -> - n <= b <= n -> - (m * n) <= a * b <= m * n.
Proof. intros. nia. Qed.

(** The multiplication instructions compute the exact product: MULH, MULHSU and
    MULHU are the upper half, and MUL the lower half, of the product of the
    signed, mixed and unsigned readings of the operands, for all of them. *)
Theorem mul_exact a b :
  uint 64 a -> uint 64 b ->
  exists lo hss hsu huu,
    op_val 1 0 a b = Some lo /\ op_val 1 1 a b = Some hss
    /\ op_val 1 2 a b = Some hsu /\ op_val 1 3 a b = Some huu
    /\ i64 hss * 2 ^ 64 + lo = i64 a * i64 b
    /\ i64 hsu * 2 ^ 64 + lo = i64 a * b
    /\ huu * 2 ^ 64 + lo = a * b.
Proof.
  intros Ha Hb. eexists _, _, _, _. split_and!; try reflexivity.
  all: pose proof (i64_range a); pose proof (i64_range b); pose proof Ha as [? ?]; pose proof Hb as [? ?].
  - assert (- 2 ^ 127 <= i64 a * i64 b < 2 ^ 127) as Hp
      by (pose proof (mul_bound (i64 a) (i64 b) (2 ^ 63) (2 ^ 63)); lia).
    assert (i128 (i64 a * i64 b) = i64 a * i64 b) as ->.
    { unfold i128, signed. rewrite Z.mod_small; [lia|]. lia. }
    apply (product_halves _ _ 64); [done| |done].
    rewrite Z.mul_mod, !(signed_mod 64), <- Z.mul_mod by done. done.
  - assert (- 2 ^ 127 <= i64 a * b < 2 ^ 127) as Hp by nia.
    assert (i128 (i64 a * b) = i64 a * b) as ->.
    { unfold i128, signed. rewrite Z.mod_small; [lia|]. lia. }
    apply (product_halves _ _ 64); [done| |done].
    rewrite Z.mul_mod, (signed_mod 64), <- Z.mul_mod by done. done.
  - assert (0 <= a * b < 2 ^ 128) as Hp by nia.
    unfold u128, mul64, u64, wrap. rewrite Z.shiftr_div_pow2, (Z.mod_small (a * b)) by done.
    rewrite Z.mod_small; [pose proof (Z.div_mod (a * b) (2 ^ 64)); lia|].
    split; [apply Z.div_pos; lia|apply Z.div_lt_upper_bound; lia].
Qed.

(** ** Division *)

(** Signed division of [w]-bit readings: by zero, the quotient is all ones and the
    remainder the dividend; the one overflow wraps; otherwise quotient and
    remainder are exact, with the remainder smaller than the divisor and of the
    dividend's sign (rounding towards zero). *)
Definition sdiv_spec (w a b q r : Z) : Prop :=
  if b =? 0 then q = 2 ^ w - 1 /\ r = a
  else if (signed w a =? - 2 ^ (w - 1)) && (signed w b =? -1) then q = 2 ^ (w - 1) /\ r = 0
  else signed w q * signed w b + signed w r = signed w a
       /\ Z.abs (signed w r) < Z.abs (signed w b) /\ 0 <= signed w r * signed w a.

Definition udiv_spec (w a b q r : Z) : Prop :=
  if b =? 0 then q = 2 ^ w - 1 /\ r = a else q * b + r = a /\ 0 <= r < b.

Lemma signed_zero w x : 0 < w -> uint w x -> signed w x = 0 <-> x = 0.
Proof.
  intros Hw Hx. rewrite signed_cases by done. destruct Hx. pose proof (Z.pow_pos_nonneg 2 (w - 1)).
  destruct (Z.ltb_spec x (2 ^ (w - 1))); lia.
Qed.

Lemma wrap_signed w x : 0 < w -> uint w x -> wrap w (signed w x) = x.
Proof.
  intros Hw Hx. unfold wrap. rewrite signed_mod by lia. by apply Z.mod_small.
Qed.

Lemma quot_bound x y m : y <> 0 -> - m <= x < m -> ~ (x = - m /\ y = -1) ->
  - m <= Z.quot x y < m.
Proof.
  intros Hy Hx Hn. pose proof (Z.quot_rem x y Hy) as E.
  pose proof (Z.rem_bound_abs x y Hy) as Hb.
  destruct (decide (Z.abs y = 1)) as [|Hy1].
  - assert (y = 1 \/ y = -1) as [-> | ->] by lia; [rewrite Z.quot_1_r; lia|].
    change (-1) with (- (1)). rewrite Z.quot_opp_r, Z.quot_1_r by lia. lia.
  - assert (Z.abs (Z.quot x y) <= Z.abs x / 2).
    { rewrite <- Z.quot_abs by done. rewrite Z.quot_div_nonneg by lia.
      apply Z.div_le_compat_l; lia. }
    assert (Z.abs x / 2 * 2 <= Z.abs x) by (pose proof (Z.mul_div_le (Z.abs x) 2); lia). lia.
Qed.

Lemma sdiv_exact w a b :
  0 < w -> uint w a -> uint w b ->
  sdiv_spec w a b
    (if signed w b =? 0 then 2 ^ w - 1 else wrap w (Z.quot (signed w a) (signed w b)))
    (if signed w b =? 0 then wrap w (signed w a) else wrap w (Z.rem (signed w a) (signed w b))).
Proof.
  intros Hw Ha Hb. unfold sdiv_spec. pose proof (signed_zero w b Hw Hb) as Hz.
  pose proof (signed_range w a Hw) as Ra. pose proof (signed_range w b Hw) as Rb.
  destruct (Z.eqb_spec b 0) as [->|Hb0].
  { rewrite (proj2 Hz eq_refl). cbn. split; [done|]. by apply wrap_signed. }
  destruct (Z.eqb_spec (signed w b) 0) as [|Hs0]; [tauto|]. clear Hz.
  destruct (_ && _) eqn:E.
  - apply andb_true_iff in E as [Ea%Z.eqb_eq Eb%Z.eqb_eq]. rewrite Ea, Eb.
    change (-1) with (- (1)). rewrite Z.quot_opp_r, Z.quot_1_r, Z.rem_opp_r, Z.rem_1_r by lia.
    split; [|by apply Z.mod_0_l; lia]. rewrite Z.opp_involutive. apply wrap_small.
    pose proof (Z.pow_succ_r 2 (w - 1)). replace (Z.succ (w - 1)) with w in * by lia.
    unfold uint. lia.
  - assert (~ (signed w a = - 2 ^ (w - 1) /\ signed w b = -1)) as Hn.
    { intros [Ea Eb]. rewrite Ea, Eb, !Z.eqb_refl in E. done. }
    pose proof (quot_bound _ _ _ Hs0 Ra Hn). pose proof (Z.rem_bound_abs (signed w a) _ Hs0).
    rewrite !signed_wrap by lia. pose proof (Z.quot_rem (signed w a) _ Hs0).
    split; [lia|]. split; [done|]. by apply Z.rem_sign_mul.
Qed.

Lemma udiv_exact w a b :
  0 <= w -> uint w a -> uint w b ->
  udiv_spec w a b (if b =? 0 then 2 ^ w - 1 else a / b) (if b =? 0 then a else a mod b).
Proof.
  intros Hw Ha Hb. unfold udiv_spec. destruct (Z.eqb_spec b 0); [done|].
  destruct Hb. pose proof (Z.mod_pos_bound a b). pose proof (Z.div_mod a b). lia.
Qed.

(** The division instructions are total and exact: DIV/REM and DIVU/REMU, in their
    64-bit and 32-bit forms, give the quotient rounded towards zero and the
    remainder of the signed and unsigned readings; division by zero gives all
    ones and the dividend, and the signed overflow gives the dividend and zero,
    as the architecture fixes them. *)
Theorem div_exact a b a' b' :
  uint 64 a -> uint 64 b -> uint 32 a' -> uint 32 b' ->
  (exists q r uq ur,
     op_val 1 4 a b = Some q /\ op_val 1 6 a b = Some r
     /\ op_val 1 5 a b = Some uq /\ op_val 1 7 a b = Some ur
     /\ sdiv_spec 64 a b q r /\ udiv_spec 64 a b uq ur)
  /\ exists q r uq ur,
     op_32_val 1 4 a' b' = Some q /\ op_32_val 1 6 a' b' = Some r
     /\ op_32_val 1 5 a' b' = Some uq /\ op_32_val 1 7 a' b' = Some ur
     /\ sdiv_spec 32 a' b' q r /\ udiv_spec 32 a' b' uq ur.
Proof.
  intros Ha Hb Ha' Hb'. split; eexists _, _, _, _; split_and!; try reflexivity.
  - by apply (sdiv_exact 64).
  - by apply (udiv_exact 64).
  - by apply (sdiv_exact 32).
  - by apply (udiv_exact 32).
Qed.

(** ** LR/SC *)

(** The A-extension words: opcode 0x2f with funct3 2 or 3. *)
Definition amo_word (insn funct5 : Z) : Prop :=
  (funct3 insn = 2 \/ funct3 insn = 3) /\ funct7 insn .>> 2 = funct5.

Section Reservation.
Context {B : Type} `{Bus B}.

Lemma exec_lr insn c (b : B) :
  amo_word insn 2 ->
  exec_amo insn (c, b)
  = match aload (funct3 insn =? 3) (xr c (rs1 insn)) (c, b) with
    | (Ok v, (c', b')) =>
        (Ok tt, (wr (rd insn) v (set_reservation (Some (xr c (rs1 insn))) c'), b'))
    | (Err e, s') => (Err e, s')
    | (Panic, s') => (Panic, s')
    end.
Proof.
  intros [Hf3 Hf5]. unfold exec_amo, bind, gets, hart. rewrite Hf5. cbv zeta.
  destruct Hf3 as [-> | ->]; cbn [fst Z.eqb Pos.eqb ret];
    by destruct (aload _ _ (c, b)) as [[] [c' b']].
Qed.

Lemma exec_sc insn c (b : B) :
  amo_word insn 3 ->
  exec_amo insn (c, b)
  = if bool_decide (c.(reservation) = Some (xr c (rs1 insn))) then
      match astore (funct3 insn =? 3) (xr c (rs1 insn)) (xr c (rs2 insn)) (c, b) with
      | (Ok _, (c', b')) => (Ok tt, (set_reservation None (wr (rd insn) 0 c'), b'))
      | (Err e, s') => (Err e, s')
      | (Panic, s') => (Panic, s')
      end
    else (Ok tt, (set_reservation None (wr (rd insn) 1 c), b)).
Proof.
  intros [Hf3 Hf5]. unfold exec_amo, bind, gets, hart. rewrite Hf5. cbv zeta.
  destruct Hf3 as [-> | ->]; cbn [fst Z.eqb Pos.eqb ret]; destruct (bool_decide _); try done;
    by destruct (astore _ _ _ (c, b)) as [[] [c' b']].
Qed.
End Reservation.

(** SC stores exactly under a live reservation: a completed LR reserves its address;
    an SC to the reserved address performs the store and writes 0; an SC to any
    other address, or after a trap was taken in between, writes 1 and touches
    neither memory nor any other register; every completed SC consumes the
    reservation. *)
Theorem lr_sc {B} `{Bus B} lr sc c (b : B) :
  amo_word lr 2 -> amo_word sc 3 ->
  (forall c' b', exec_amo lr (c, b) = (Ok tt, (c', b')) ->
     c'.(reservation) = Some (xr c (rs1 lr)))
  /\ (c.(reservation) <> Some (xr c (rs1 sc)) ->
      exec_amo sc (c, b) = (Ok tt, (set_reservation None (wr (rd sc) 1 c), b)))
  /\ (forall c' b', c.(reservation) = Some (xr c (rs1 sc)) ->
      exec_amo sc (c, b) = (Ok tt, (c', b')) ->
      exists c1, astore (funct3 sc =? 3) (xr c (rs1 sc)) (xr c (rs2 sc)) (c, b)
                 = (Ok tt, (c1, b'))
        /\ c' = set_reservation None (wr (rd sc) 0 c1))
  /\ (forall cause tval i s c', c.(sys) = Some s -> take_trap cause tval i c = (Ok tt, c') ->
      exec_amo sc (c', b) = (Ok tt, (set_reservation None (wr (rd sc) 1 c'), b))).
Proof.
  intros Hlr Hsc. split_and!.
  - intros c' b'. rewrite exec_lr by done. destruct (aload _ _ _) as [[] [c1 b1]]; [|done..].
    intros [= <- _]. unfold wr. by destruct (negb _).
  - intros Hne. rewrite exec_sc by done. by rewrite bool_decide_false.
  - intros c' b' Hr. rewrite exec_sc, bool_decide_true by done.
    destruct (astore _ _ _ _) as [[[]| |] [c1 b1]]; [|done..]. intros [= <- <-]. by exists c1.
  - intros cause tval i s c' Hs Ht.
    destruct (take_trap_arch cause tval i c s Hs) as (c1 & E1 & _ & _ & _ & _ & Hr).
    rewrite E1 in Ht. injection Ht as <-. rewrite exec_sc, Hr by done.
    by rewrite bool_decide_false.
Qed.

(** ** 32-bit AMOs *)

(** The operation of an AMO on [w]-bit operands. *)
Definition amo_op (w funct5 x y : Z) : option Z :=
  if funct5 =? 0x01 then Some y
  else if funct5 =? 0x00 then Some ((x + y) mod 2 ^ w)
  else if funct5 =? 0x04 then Some (x .^ y)
  else if funct5 =? 0x0c then Some (x .& y)
  else if funct5 =? 0x08 then Some (x .| y)
  else if funct5 =? 0x10 then Some (if signed w x <=? signed w y then x else y)
  else if funct5 =? 0x14 then Some (if signed w x <=? signed w y then y else x)
  else if funct5 =? 0x18 then Some (Z.min x y)
  else if funct5 =? 0x1c then Some (Z.max x y)
  else None.

Lemma u32_lxor x y : u32 (x .^ y) = u32 x .^ u32 y.
Proof.
  unfold u32, wrap. rewrite <- !Z.land_ones by lia.
  apply Z.bits_inj'. intros i Hi. rewrite ?Z.lxor_spec, ?Z.land_spec, ?Z.lxor_spec.
  by destruct (Z.testbit x i), (Z.testbit y i), (Z.testbit (Z.ones 32) i).
Qed.

Lemma u32_land x y : u32 (x .& y) = u32 x .& u32 y.
Proof.
  unfold u32, wrap. rewrite <- !Z.land_ones by lia.
  apply Z.bits_inj'. intros i Hi. rewrite ?Z.land_spec.
  by destruct (Z.testbit x i), (Z.testbit y i), (Z.testbit (Z.ones 32) i).
Qed.

Lemma u32_lor x y : u32 (x .| y) = u32 x .| u32 y.
Proof.
  unfold u32, wrap. rewrite <- !Z.land_ones by lia.
  apply Z.bits_inj'. intros i Hi. rewrite ?Z.lor_spec, ?Z.land_spec, ?Z.lor_spec.
  by destruct (Z.testbit x i), (Z.testbit y i), (Z.testbit (Z.ones 32) i).
Qed.

Lemma u32_add64 x y : u32 (add64 x y) = (u32 x + u32 y) mod 2 ^ 32.
Proof.
  unfold add64, u64, u32, wrap. rewrite <- Zplus_mod. apply Z.mod_mod_divide.
  by exists (2 ^ 32).
Qed.

Lemma u32_sext32 x : uint 32 x -> u32 (sext32 x) = x.
Proof.
  intros Hx. unfold sext32, u64, u32, wrap. rewrite Z.mod_mod_divide by (by exists (2 ^ 32)).
  unfold i32. rewrite signed_mod by lia. by apply Z.mod_small.
Qed.

Lemma signed_inj w x y : 0 < w -> uint w x -> uint w y -> signed w x = signed w y -> x = y.
Proof.
  intros Hw Hx Hy E. rewrite <- (wrap_signed w x), <- (wrap_signed w y) by done. by rewrite E.
Qed.

(** The two shapes of a comparison in the code. *)
Lemma min_shape w x y : 0 < w -> uint w x -> uint w y ->
  (if signed w x <? signed w y then x else y) = (if signed w x <=? signed w y then x else y).
Proof.
  intros. destruct (Z.ltb_spec (signed w x) (signed w y)), (Z.leb_spec (signed w x) (signed w y));
    try done; try lia. symmetry. apply (signed_inj w); try done. lia.
Qed.

Lemma max_shape w x y : 0 < w -> uint w x -> uint w y ->
  (if negb (signed w x <? signed w y) && negb (x =? y) then x else y)
  = (if signed w x <=? signed w y then y else x).
Proof.
  intros. destruct (Z.ltb_spec (signed w x) (signed w y)), (Z.leb_spec (signed w x) (signed w y)),
    (Z.eqb_spec x y); cbn; try done; try lia; try (apply (signed_inj w); try done; lia).
Qed.

(** AMOs compute on their own width: the value a 64-bit AMO stores is the 64-bit
    operation of memory and register; the low half that a 32-bit AMO stores is
    the 32-bit operation of the memory word and the register's low half (the
    signed and unsigned minimum and maximum included), whatever the register's
    upper half holds; reserved operations have none. *)
Theorem amo_width funct5 old src word :
  uint 64 old -> uint 64 src -> uint 32 word ->
  amo_val true funct5 old src = amo_op 64 funct5 old src
  /\ option_map u32 (amo_val false funct5 (sext32 word) src) = amo_op 32 funct5 word (u32 src).
Proof.
  intros Ho Hs Hw. pose proof (u32_sext32 word Hw) as Hx. pose proof (uint_u32 src) as Hy.
  unfold amo_val, amo_op. cbv zeta. split.
  - repeat match goal with |- context [funct5 =? ?k] => destruct (funct5 =? k); [f_equal|] end;
      try done; unfold i64.
    + by rewrite min_shape.
    + by rewrite max_shape.
    + zcase; lia.
    + zcase; lia.
  - rewrite Hx. rewrite !(wrap_small 32) by done.
    repeat match goal with |- context [funct5 =? ?k] =>
      destruct (funct5 =? k); [cbn [option_map]; f_equal|] end; try done; unfold i32.
    + by rewrite u32_add64, Hx.
    + by rewrite u32_lxor, Hx.
    + by rewrite u32_land, Hx.
    + by rewrite u32_lor, Hx.
    + rewrite <- min_shape by done. by destruct (_ <? _).
    + rewrite <- max_shape by done. by destruct (_ && _).
    + zcase; lia.
    + zcase; lia.
Qed.

(** ** Vector configuration *)

Lemma decode_vtype_vill : decode_vtype VILL = None.
Proof. reflexivity. Qed.

(** Vset{i}vl{i} follows the architecture: VLMAX is LMUL * VLEN / SEW; with a legal
    type, vl becomes the AVL capped by VLMAX (VLMAX itself for rs1 = x0, the old
    vl when rd = rs1 = x0 and VLMAX is unchanged), otherwise vtype becomes vill
    and vl zero; vstart is reset; and vl stays within VLMAX. *)
Theorem vset_config raw d rs1_is_zero avl imm v :
  uint 64 raw -> 0 <= avl -> vl_bounded v ->
  let '(n, v') := install_config raw d rs1_is_zero avl imm v in
  let keep := negb imm && (d =? 0) && rs1_is_zero in
  n = v'.(vl) /\ v'.(vstart) = 0 /\ v'.(vregs) = v.(vregs) /\ vl_bounded v'
  /\ match decode_vtype raw with
     | Some cfg =>
         cfg.(vlmax) * cfg.(sew) * cfg.(lmul_den) = VLEN_BITS * cfg.(lmul_num)
         /\ (keep = false ->
             v'.(vtype) = raw /\ config v' = Some cfg
             /\ v'.(vl) = if negb imm && rs1_is_zero then cfg.(vlmax) else Z.min avl cfg.(vlmax))
         /\ (keep = true ->
             match config v with
             | Some old => old.(vlmax) = cfg.(vlmax)
             | None => False
             end -> v'.(vtype) = raw /\ v'.(vl) = v.(vl))
     | None => v'.(vtype) = VILL /\ v'.(vl) = 0
     end.
Proof.
  intros Hraw Havl Hb. unfold install_config. cbv zeta.
  destruct (decode_vtype raw) as [cfg|] eqn:Ed.
  2: { cbn. split_and!; try done. }
  pose proof (decode_vtype_low raw cfg (proj1 Hraw) Ed) as Hlow.
  pose proof (decode_vtype_vlmax raw cfg (proj1 Hraw) Ed) as [Hm Hv].
  set (keep := negb imm && (d =? 0) && rs1_is_zero).
  destruct Hb as [Hb0 Hb].
  assert (forall n, 0 <= n <= vlmax cfg ->
    vl_bounded (set_vstart 0 (set_vl n (set_vtype (raw .& 0xff) v)))) as Hok.
  { intros n Hn. split; [cbn; lia|]. unfold config. cbn [vtype vl set_vstart set_vl set_vtype].
    rewrite Hlow, Ed. lia. }
  assert (forall n, config (set_vstart 0 (set_vl n (set_vtype (raw .& 0xff) v))) = Some cfg) as Hcfg.
  { intros n. unfold config. cbn [vtype set_vstart set_vl set_vtype]. by rewrite Hlow, Ed. }
  destruct keep eqn:Ek; cbn [negb orb].
  - apply andb_true_iff in Ek as [[Ei Ed0]%andb_true_iff Ez]. apply negb_true_iff in Ei as ->.
    destruct (config v) as [old|].
    + destruct (Z.eqb_spec (vlmax old) (vlmax cfg)) as [E|E].
      * cbn [vl set_vtype]. split_and!; try done. apply Hok. lia.
      * cbn. split_and!; try done.
    + cbn. split_and!; try done.
  - destruct imm; cbn [negb andb];
      [|destruct rs1_is_zero]; cbn [fst snd vl vstart vregs set_vstart set_vl]; split_and!;
      try done; try (apply Hok; lia).
Qed.

(** ** Witnesses *)

Lemma mul_exact_witness :
  exists lo hi, op_val 1 0 U64_MAX U64_MAX = Some lo /\ op_val 1 3 U64_MAX U64_MAX = Some hi
    /\ hi * 2 ^ 64 + lo = U64_MAX * U64_MAX.
Proof.
  destruct (mul_exact U64_MAX U64_MAX) as (lo & hss & hsu & huu & E1 & _ & _ & E4 & _ & _ & E);
    [uint_lit|uint_lit|].
  exists lo, huu. split; [exact E1|]. split; [exact E4|exact E].
Defined.

Lemma div_exact_witness :
  exists q r uq ur,
    op_val 1 4 (2 ^ 63) U64_MAX = Some q /\ op_val 1 6 (2 ^ 63) U64_MAX = Some r
    /\ op_val 1 5 (2 ^ 63) U64_MAX = Some uq /\ op_val 1 7 (2 ^ 63) U64_MAX = Some ur
    /\ sdiv_spec 64 (2 ^ 63) U64_MAX q r /\ udiv_spec 64 (2 ^ 63) U64_MAX uq ur.
Proof. apply (div_exact (2 ^ 63) U64_MAX 1 0); uint_lit. Defined.

(** lr.d a0, (a1) and sc.d a0, a2, (a1). *)
Lemma lr_sc_witness :
  exec_amo (B := FlatMemory) 0x18c5b52f (Cpu_new, mkFlat 8 [])
  = (Ok tt, (set_reservation None (wr 10 1 Cpu_new), mkFlat 8 [])).
Proof.
  apply (lr_sc (B := FlatMemory) 0x1005b52f 0x18c5b52f Cpu_new (mkFlat 8 []));
    [split; [right; reflexivity|reflexivity]|split; [right; reflexivity|reflexivity]|discriminate].
Defined.

Lemma amo_width_witness :
  option_map u32 (amo_val false 0x10 (sext32 0xffffffff) 0x500000001) = Some 0xffffffff.
Proof.
  rewrite (proj2 (amo_width 0x10 0 0x500000001 0xffffffff ltac:(uint_lit) ltac:(uint_lit)
                    ltac:(uint_lit))).
  reflexivity.
Defined.

Lemma vset_config_witness :
  fst (install_config 0xd8 1 false 100 false VectorState_default) = 2
  /\ vl_bounded (snd (install_config 0xd8 1 false 100 false VectorState_default)).
Proof.
  pose proof (vset_config 0xd8 1 false 100 false VectorState_default) as H.
  destruct (install_config 0xd8 1 false 100 false VectorState_default) as [n v'] eqn:E.
  destruct H as (_ & _ & _ & Hb & _); [uint_lit|lia|split; [cbn; lia|reflexivity]|].
  split; [|exact Hb]. vm_compute in E. injection E as <- _. reflexivity.
Defined.
