(* ===== verification/RunSpec.v ===== *)
(** * What the drivers promise

    Budget slices compose, the driver variants agree, and the generated-code
    entry map probes the slot the compiler filled. *)

From S2P Require Import Prelude Exception Csr State Bus Mmu Trap CsrOps Vector Exec Step T0.
From S2P Require Import Run Wf SafeMem SafeExec SafeStep T0Run.

(** ** Slicing the budget *)

Section Slices.
Context {B : Type} `{HV : VectorUnitOk B}.

(** A step, with its trap delivered, never claims that the budget ran out. *)
Lemma step_or_trap_not_budget m s s' :
  inv m s -> step_or_trap m s <> (Ok (Some Budget), s').
Proof using All.
  intros Hs. unfold step_or_trap, bind, attempt. pose proof (step_ok m s Hs) as Hst.
  destruct (step s) as [[o|e|] s1]; [|..].
  - unfold ret. intros [= -> _]. by destruct Hst.
  - destruct m; [|done]. unfold bind, ret. by destruct (on_fst _ _) as [[]].
  - done.
Qed.

Lemma run_loop_slice m n k s :
  inv m s ->
  run_loop m (n + k) s
  = match run_loop m n s with (Ok Budget, s') => run_loop m k s' | r => r end.
Proof using All.
  revert s. induction n as [|n IH]; intros s Hs; [done|].
  cbn [Nat.add run_loop]. unfold bind. pose proof (poll_ok m s Hs) as Hp.
  destruct (poll m s) as [[[]|e|] s1]; [|done..]. destruct Hp as [Hs1 _].
  pose proof (step_or_trap_ok m s1 Hs1) as Hst.
  pose proof (fun s' => step_or_trap_not_budget m s1 s' Hs1) as Hnb.
  destruct (step_or_trap m s1) as [[[stop|]|e|] s2]; [|by apply IH; destruct Hst|done..].
  unfold ret. destruct stop; try done. by destruct (Hnb s2).
Qed.
End Slices.

(** Slicing the budget is invisible to the guest: running [n + k] instructions is
    running [n] and, if that exhausted its budget, running [k] more from there;
    the interrupt-poll phase is part of the hart, so the split points do not
    matter. *)
Theorem run_slices {B} `{VectorUnitOk B} m n k (s : Cpu * B) :
  inv m s -> 0 <= n -> 0 <= k ->
  run (n + k) s = match run n s with (Ok Budget, s') => run k s' | r => r end.
Proof.
  intros Hs Hn Hk. unfold run. pose proof (proj2 (proj1 Hs)) as Hm. rewrite Hm.
  rewrite Z2Nat.inj_add, run_loop_slice by done.
  pose proof (run_loop_ok m (Z.to_nat n) s Hs) as Hr.
  destruct (run_loop m (Z.to_nat n) s) as [[[]|e|] s']; try done.
  destruct Hr as [[[_ Hm'] _] _]. by rewrite Hm'.
Qed.

(** ** The variants with callbacks *)

Section Variants.
Context {B : Type} `{HB : Bus B} `{HU : !VectorUnit B} {U : Type}.

Lemma run_until_loop_never stop_at m n (u : U) (s : Cpu * B) :
  (forall p u, stop_at p u = (false, u)) ->
  run_until_loop stop_at m n u s
  = match run_loop m n s with
    | (Ok stop, s') => (Ok (stop, u), s')
    | (Err e, s') => (Err e, s')
    | (Panic, s') => (Panic, s')
    end.
Proof.
  intros Hstop. revert s. induction n as [|n IH]; intros s; [done|].
  cbn [run_until_loop run_loop]. unfold bind.
  destruct (poll m s) as [[[]|e|] s1]; [|done..].
  destruct (step_or_trap m s1) as [[[stop|]|e|] s2]; [done| |done..].
  unfold gets. rewrite Hstop. apply IH.
Qed.
End Variants.

(** The stop predicate only ever stops: with a predicate that never holds,
    [run_until] is [run] with the same budget (same stop reason, hart and bus),
    and its callback environment is untouched. *)
Theorem run_until_never {B U} `{Bus B} `{!VectorUnit B} stop_at budget (u : U) (s : Cpu * B) :
  (forall p u, stop_at p u = (false, u)) ->
  run_until stop_at budget u s
  = match run budget s with
    | (Ok stop, s') => (Ok (stop, u), s')
    | (Err e, s') => (Err e, s')
    | (Panic, s') => (Panic, s')
    end.
Proof. intros Hstop. by apply run_until_loop_never. Qed.

(** ** The entry map *)

Definition count_ones_check (k : nat) : bool :=
  (count_ones (2 ^ Z.of_nat k - 1) =? Z.of_nat k)
  && (trailing_zeros (2 ^ Z.of_nat k) =? Z.of_nat k).

Lemma count_ones_check_all : forallb count_ones_check (seq 0 64) = true.
Proof. reflexivity. Qed.

Lemma pow2_counts k : 0 <= k < 64 ->
  count_ones (2 ^ k - 1) = k /\ trailing_zeros (2 ^ k) = k.
Proof.
  intros Hk. pose proof count_ones_check_all as Hall. rewrite forallb_forall in Hall.
  specialize (Hall (Z.to_nat k)). rewrite in_seq in Hall. specialize (Hall ltac:(lia)).
  unfold count_ones_check in Hall. rewrite Z2Nat.id, andb_true_iff, !Z.eqb_eq in Hall by lia. done.
Qed.

(** The compiler's table after it filled the slot of [pc] (first word of a line of
    [stride] words: the pc; second: the function index). *)
Definition fill_line (tags : list Z) (k stride pc index : Z) : list Z :=
  let line := compiled_entry_slot pc (2 ^ k - 1) * stride in
  aset (aset tags line pc) (line + 1) index.

(** The interpreter probes the compiler's slot: for a table of [2^k] lines the slot
    is in bounds and is the one [compiled_entry_slot] assigns; the map answers
    true only if that line holds this very pc (no aliasing) with a non-negative
    function index, and does answer true after the line was filled with one. *)
Theorem entry_map_probe tags k stride pc index :
  0 <= k < 64 -> 2 <= stride -> uint 64 pc ->
  Z.of_nat (length tags) = 2 ^ k * stride ->
  let slot := compiled_entry_slot pc (2 ^ k - 1) in
  0 <= slot < 2 ^ k
  /\ (contains (from_strided_dispatch_lines tags (2 ^ k) stride) pc = true
      <-> aget tags (slot * stride) = pc /\ 0 <= i32 (u32 (aget tags (slot * stride + 1))))
  /\ contains (from_strided_dispatch_lines (fill_line tags k stride pc index) (2 ^ k) stride) pc
     = (0 <=? i32 (u32 index)).
Proof.
  intros Hk Hst Hpc Hlen. cbv zeta. destruct (pow2_counts k Hk) as [Hc Ht].
  assert (forall t, contains (from_strided_dispatch_lines t (2 ^ k) stride) pc
    = (aget t (compiled_entry_slot pc (2 ^ k - 1) * stride) =? pc)
      && (0 <=? i32 (u32 (aget t (compiled_entry_slot pc (2 ^ k - 1) * stride + 1))))) as Hcon.
  { intros t. unfold contains, from_strided_dispatch_lines, from_strided_pc_tags,
      compiled_entry_slot. cbn [fold_shift slot_mask stride_words Run.tags
        require_nonnegative_index negb orb]. by rewrite Hc, Ht. }
  assert (0 <= compiled_entry_slot pc (2 ^ k - 1) < 2 ^ k) as Hslot.
  { unfold compiled_entry_slot. cbv zeta. rewrite (land_ones_lit _ _ k);
      [apply Z.mod_pos_bound; lia|lia|rewrite Z.ones_equiv; lia]. }
  split; [done|]. set (slot := compiled_entry_slot pc (2 ^ k - 1)) in *. split.
  - rewrite Hcon, andb_true_iff, Z.eqb_eq, Z.leb_le. done.
  - rewrite Hcon. unfold fill_line. cbv zeta. fold slot.
    assert (slot * stride + 1 < 2 ^ k * stride) as Hlt by nia.
    rewrite aget_aset_other, aget_aset_same by (unfold aset; rewrite ?length_insert; nia).
    rewrite aget_aset_same by (unfold aset; rewrite ?length_insert; nia).
    by rewrite Z.eqb_refl.
Qed.

(** ** Witnesses *)

Lemma entry_map_probe_witness :
  contains (from_strided_dispatch_lines (fill_line (replicate 8 0) 2 2 0x80001234 5) (2 ^ 2) 2)
    0x80001234 = true.
Proof.
  destruct (entry_map_probe (replicate 8 0) 2 2 0x80001234 5) as (_ & _ & E);
    [lia|lia|uint_lit|reflexivity|].
  rewrite E. reflexivity.
Defined.

#[local] Existing Instance unit_FlatMemory.
#[local] Existing Instance unit_FlatMemory_ok.

Lemma run_slices_witness :
  run (1 + 9) (demo_hart, demo_memory)
  = match run 1 (demo_hart, demo_memory) with (Ok Budget, s') => run 9 s' | r => r end.
Proof. apply (run_slices false 1 9 (demo_hart, demo_memory) demo_inv); lia. Defined.

Lemma run_until_never_witness :
  fst (run_until (fun _ u => (false, u)) 10 7 (demo_hart, demo_memory)) = Ok (Ecall, 7).
Proof.
  rewrite (run_until_never (fun _ (u : Z) => (false, u)) 10 7 (demo_hart, demo_memory)
             (fun _ _ => eq_refl)).
  vm_compute. reflexivity.
Defined.
