(* ===== verification/Retire.v ===== *)
(** * Retirement accounting (cpu.rs: [step], [run])

    [insn_count] is the clock the machine's timers and budgets are built on.
    An instruction that completes advances it by exactly one, wherever it ends,
    and one that raises leaves it alone; so a run never advances it by more
    than its budget. *)

From S2P Require Import Prelude Exception Decode Compressed Csr State Bus Mmu Trap CsrOps.
From S2P Require Import Vector SoftFp Exec Step T0 Run T0Equiv T0Run.

(** ** Computations that leave the count alone *)

Ltac steady_step := match goal with
  | |- steady _ (bind _ _) => apply steady_bind; [|intros]
  | |- steady _ (if ?x then _ else _) => destruct x
  | |- steady _ (illegal _) => apply steady_throw
  | |- steady _ (match ?x with _ => _ end) => destruct x
  | |- steady _ (let '(_, _) := ?x in _) => destruct x
  | |- steady _ (modify _) => apply steady_modify; intros
  end.
Ltac steady_tac := repeat (auto with steady; steady_step).

(** ** The hart's own operations *)

Abbreviation keeps_count := (steady insn_count).

Ltac count_tac := cbv zeta; repeat (case_match; cbv zeta); reflexivity.

Lemma count_fp_dirty c : insn_count (fp_dirty c) = insn_count c.
Proof. unfold fp_dirty. count_tac. Qed.

Lemma count_wr d v c : insn_count (wr d v c) = insn_count c.
Proof. unfold wr. count_tac. Qed.

Lemma count_privilege_changed c : insn_count (privilege_changed c) = insn_count c.
Proof. unfold privilege_changed, sync_jit_tlb_context. count_tac. Qed.

Lemma count_sfence va asid c : insn_count (sfence_vma va asid c) = insn_count c.
Proof. unfold sfence_vma. count_tac. Qed.

Lemma count_write_status mask v s c : insn_count (write_status mask v s c) = insn_count c.
Proof. unfold write_status, sync_jit_tlb_context. count_tac. Qed.

Lemma count_write_satp v s c c' : write_satp v s c = Some c' -> insn_count c' = insn_count c.
Proof. unfold write_satp. cbv zeta. intros E. repeat case_match; simplify_eq; reflexivity. Qed.

Lemma count_vector_dirty c : insn_count (vector_dirty c) = insn_count c.
Proof. unfold vector_dirty. count_tac. Qed.

Create Rewrite HintDb count.
#[export] Hint Rewrite count_fp_dirty count_wr count_privilege_changed count_sfence count_write_status
  count_vector_dirty : count.

Lemma count_csr_write csr v c : insn_count (snd (csr_write csr v c)) = insn_count c.
Proof.
  unfold csr_write. cbv zeta.
  repeat (case_match; cbn [snd]; autorewrite with count; try reflexivity).
  match goal with E : write_satp _ _ _ = Some _ |- _ => by rewrite (count_write_satp _ _ _ _ E) end.
Qed.

Lemma steady_fp_check insn : keeps_count (fp_check insn).
Proof. intros c. unfold fp_check. count_tac. Qed.

Lemma steady_take_trap cause tval i : keeps_count (take_trap cause tval i).
Proof.
  intros c. unfold take_trap. cbv zeta.
  assert (forall c, insn_count (record_timer_trap cause i c) = insn_count c) as H1
    by (intros; unfold record_timer_trap; count_tac).
  assert (forall c, insn_count (count_trap cause i c) = insn_count c) as H2
    by (intros; unfold count_trap; count_tac).
  assert (forall c, insn_count (log_syscall cause i c) = insn_count c) as H3
    by (intros; unfold log_syscall; count_tac).
  set (x := record_timer_trap _ _ _).
  assert (insn_count x = insn_count c) as Hx by (unfold x; by rewrite H1, H2, H3).
  destruct (sys x); [|done]. destruct (enter_trap _ _ _ _ _) as [s' pc']. cbn [snd].
  by rewrite count_privilege_changed.
Qed.

Lemma steady_exception_to_trap e : keeps_count (exception_to_trap e).
Proof.
  intros c. unfold exception_to_trap. destruct (exception_cause_tval _ _). apply steady_take_trap.
Qed.

Lemma steady_vector_check insn : keeps_count (vector_check insn).
Proof. intros c. unfold vector_check. count_tac. Qed.
#[export] Hint Resolve steady_fp_check steady_take_trap steady_vector_check : steady.
#[export] Hint Extern 3 (insn_count _ = insn_count _) => (autorewrite with count; reflexivity) : steady.

Lemma steady_put_f insn d r : keeps_count (put_f insn d r).
Proof. unfold put_f. steady_tac. Qed.
Lemma steady_put_x insn d r : keeps_count (put_x insn d r).
Proof. unfold put_x. steady_tac. unfold or_fflags. cbn [insn_count set_fcsr]. apply count_wr. Qed.
Lemma steady_fp_arith32 insn op d s1 s2 f3 : keeps_count (fp_arith32 insn op d s1 s2 f3).
Proof. unfold fp_arith32. cbv zeta. steady_tac. Qed.
Lemma steady_fp_arith64 insn op d s1 s2 f3 : keeps_count (fp_arith64 insn op d s1 s2 f3).
Proof. unfold fp_arith64. cbv zeta. steady_tac. Qed.
#[export] Hint Resolve steady_put_f steady_put_x steady_fp_arith32 steady_fp_arith64 : steady.

Lemma steady_op_fp insn : keeps_count (op_fp insn).
Proof. unfold op_fp. cbv zeta. apply steady_bind; [done|]. intros c. steady_tac. Qed.
Lemma steady_op_fma insn : keeps_count (op_fma insn).
Proof. unfold op_fma. cbv zeta. steady_tac. Qed.
#[export] Hint Resolve steady_op_fp steady_op_fma : steady.

(** ** Bodies of instructions *)

(** A body ends with the address of the next instruction and has not counted
    yet, or it returns early and has counted. *)
Definition flows {S} (f : S -> Z) (m : Hart S flow) : Prop := forall s,
  match m s with
  | (Ok (Return _), s') => f s' = add64 (f s) 1
  | (_, s') => f s' = f s
  end.

Section Flows.
Context {S : Type} (f : S -> Z).

Lemma flows_bind {A} (m : Hart S A) k : steady f m -> (forall a, flows f (k a)) -> flows f (bind m k).
Proof.
  intros Hm Hk s. specialize (Hm s). unfold bind. destruct (m s) as [[a|e|] s']; cbn [snd] in *; [|done..].
  rewrite <- Hm. apply Hk.
Qed.

Lemma flows_next p stop : flows f (ret (Next p stop)).
Proof. done. Qed.
Lemma flows_throw e : flows f (throw e).
Proof. done. Qed.
Lemma flows_panic : flows f panic.
Proof. done. Qed.
End Flows.
#[export] Hint Resolve flows_next flows_throw flows_panic : steady.

Ltac flow_step := match goal with
  | |- flows _ (bind _ _) => apply flows_bind; [|intros]
  | |- flows _ (if ?x then _ else _) => destruct x
  | |- flows _ (illegal _) => apply flows_throw
  | |- flows _ (match ?x with _ => _ end) => destruct x
  | |- _ => steady_step
  end.
Ltac flow_tac := repeat (auto with steady; flow_step).

Lemma flows_ecall next : flows insn_count (exec_ecall next).
Proof.
  intros c. unfold exec_ecall, bind, gets, id. destruct (sys c) as [s|]; [|done].
  destruct (_ && _); [done|]. match goal with |- context [take_trap ?k 0 false c] =>
    pose proof (steady_take_trap k 0 false c) as Ht; destruct (take_trap k 0 false c) as [[[]|e|] c'] end;
    cbn [snd] in Ht; cbn; by rewrite ?Ht.
Qed.

Lemma steady_csr_write insn csr v :
  keeps_count (fun c => let '(ok, c') := csr_write csr v c in
                        if ok then (Ok tt, c') else (Err (IllegalInstruction insn), c')).
Proof.
  intros c. pose proof (count_csr_write csr v c) as E. destruct (csr_write csr v c) as [[] c']; exact E.
Qed.
#[export] Hint Resolve flows_ecall steady_csr_write : steady.

Lemma flows_system insn next : flows insn_count (exec_system insn next).
Proof.
  unfold exec_system, exec_ebreak, exec_mret, exec_sret, exec_wfi, exec_sfence_vma, exec_zicsr. cbv zeta.
  flow_tac.
Qed.

Lemma flows_finish {S} f (m : Hart S flow) (k : flow -> Hart S (option StopReason)) s :
  flows f m ->
  (forall p stop s', f (snd (k (Next p stop) s')) = add64 (f s') 1 /\ exists o, fst (k (Next p stop) s') = Ok o) ->
  (forall stop s', k (Return stop) s' = (Ok stop, s')) ->
  match (bind m k) s with
  | (Ok _, s') => f s' = add64 (f s) 1
  | (_, s') => f s' = f s
  end.
Proof.
  intros Hm Hk Hr. specialize (Hm s). unfold bind. destruct (m s) as [[[p stop|stop]|e|] s']; [|by rewrite Hr|done..].
  destruct (Hk p stop s') as [Hc [o Ho]]. destruct (k _ s') as [o' s'']. cbn [fst snd] in *. subst o'. congruence.
Qed.

(** ** The decoder *)

Section Decoder.
Context {B : Type} `{Bus B} `{HF : VectorUnitFrame B}.
Abbreviation count := (fun s : Cpu * B => insn_count (fst s)).

Lemma steady_on_fst {A} (m : Hart Cpu A) : keeps_count m -> steady count (on_fst m).
Proof using Type.
  intros Hm [c b]. unfold on_fst. cbn [fst snd]. specialize (Hm c). by destruct (m c).
Qed.

Lemma steady_framed {A} (m : Hart (Cpu * B) A) : framed m -> steady count m.
Proof using Type. intros Hm s. by apply framed_keeps. Qed.

Lemma steady_vector_config insn : keeps_count (exec_vector_config insn).
Proof using Type.
  unfold exec_vector_config. apply steady_bind; [apply steady_vector_check|]. intros _.
  destruct (negb _); [done|]. apply steady_bind; [done|]. intros c. cbv zeta.
  destruct (if insn .>> 30 =? 3 then _ else _) as [[[[? ?] ?] ?]|]; [|done]. apply steady_modify. intros c'.
  destruct (install_config _ _ _ _ _ _). by rewrite count_wr, count_vector_dirty.
Qed.

Lemma frames_count {A} (m : Hart Cpu A) : frames m -> keeps_count m.
Proof using Type.
  intros Hm c. pose proof (Hm (pc c) (insn_count c) c) as E.
  assert (lag (pc c) (insn_count c) c = c) as Hid by (by destruct c).
  rewrite Hid in E. apply (f_equal snd) in E. simpl in E. rewrite E at 1. done.
Qed.

Lemma steady_vector_op insn : keeps_count (exec_vector_op (B := B) insn).
Proof using HF. apply frames_count, frames_exec_vector_op. Qed.

Lemma steady_vector_memory insn load : steady count (vector_memory insn load).
Proof using HF. apply steady_framed, framed_vector_memory. Qed.

Lemma steady_ld N va : steady count (ld N va).
Proof using Type. apply steady_framed, framed_ld. Qed.
Lemma steady_st N va v : steady count (st N va v).
Proof using Type. apply steady_framed, framed_st. Qed.
Lemma steady_translate va a : steady count (translate va a).
Proof using Type. apply steady_framed, framed_translate. Qed.
Lemma steady_on_snd {A} (m : Hart B A) : steady count (on_snd m).
Proof using Type. apply steady_framed, framed_on_snd. Qed.

Lemma steady_modify_fst g : (forall c, insn_count (g c) = insn_count c) -> steady count (on_fst (modify g)).
Proof using Type. intros Hg. apply steady_on_fst. by apply steady_modify. Qed.

#[local] Hint Resolve steady_on_fst steady_vector_config steady_vector_op steady_vector_memory steady_ld
  steady_st steady_translate steady_on_snd steady_modify_fst : steady.

Lemma steady_expand_expect c : steady count (expand_expect c).
Proof using Type. unfold expand_expect. steady_tac. Qed.
#[local] Hint Resolve steady_expand_expect : steady.

Lemma flows_on_fst (m : Hart Cpu flow) : flows insn_count m -> flows count (on_fst m).
Proof using Type.
  intros Hm [c b]. specialize (Hm c). unfold on_fst. cbn [fst snd].
  by destruct (m c) as [[[]|e|] c'].
Qed.
#[local] Hint Resolve flows_on_fst flows_system : steady.

Lemma flows_exec_body insn next : flows count (exec_body insn next).
Proof using HF.
  unfold exec_body, exec_load, exec_store, exec_amo, aload, astore, exec_load_fp, exec_store_fp. cbv zeta.
  flow_tac.
Qed.

(** What an instruction does to the count. *)
Definition retires (m : Hart (Cpu * B) (option StopReason)) : Prop := forall s,
  match m s with
  | (Ok _, s') => count s' = add64 (count s) 1
  | (_, s') => count s' = count s
  end.

Lemma retires_finish m : flows count m -> retires (f <- m ;; on_fst (finish f)).
Proof using Type.
  intros Hm s. apply (flows_finish count m (fun f => on_fst (finish f)) s); [done| |by intros stop [c b]].
  intros p stop [c b]. split; [done|by eexists].
Qed.

Lemma retires_bind {A} (m : Hart (Cpu * B) A) k : steady count m -> (forall a, retires (k a)) -> retires (bind m k).
Proof using Type.
  intros Hm Hk s. specialize (Hm s). unfold bind. destruct (m s) as [[a|e|] s']; cbn [snd] in *; [|done..].
  rewrite <- Hm. apply Hk.
Qed.

Lemma retires_execute insn next : retires (execute insn next).
Proof using HF. apply retires_finish, flows_exec_body. Qed.

Lemma retires_compressed c : retires (step_compressed c).
Proof using HF.
  unfold step_compressed. destruct (_ =? 0); [done|]. cbv zeta.
  apply retires_bind; [done|]. intros h. apply retires_finish.
  unfold step_compressed_q0, step_compressed_q1, step_compressed_q2. cbv zeta. flow_tac.
Qed.

Lemma retires_step : retires step.
Proof using HF.
  unfold step. apply retires_bind; [done|]. intros h.
  apply retires_bind; [apply steady_translate|]. intros pa.
  apply retires_bind; [apply steady_on_snd|]. intros lo.
  destruct (negb _); [apply retires_compressed|]. cbv zeta.
  apply retires_bind; [destruct (_ =? 0); auto with steady|]. intros pa2.
  apply retires_bind; [apply steady_on_snd|]. intros hi. apply retires_execute.
Qed.

Lemma steady_poll m : steady count (poll m).
Proof using Type.
  intros [c b]. unfold poll. destruct m; [|done]. destruct (_ =? 0); [|done].
  unfold bind, on_fst, modify. cbn [fst snd]. unfold check_interrupts.
  change (sys (set_irq_poll_cd IRQ_POLL_INTERVAL c)) with (sys c).
  destruct (sys c) as [s|]; [|done]. destruct (irq_lines b) as [l b']. cbv zeta.
  destruct (_ =? 0); [done|]. destruct (select_irq _ _ _) as [irq|]; [|done].
  unfold bind, on_fst. cbn [fst snd]. match goal with |- context [take_trap irq 0 true ?c0] =>
    pose proof (steady_take_trap irq 0 true c0) as Ht; destruct (take_trap irq 0 true c0) as [[[]|e|] c'] end;
    exact Ht.
Qed.

(** The retirements [k] between two counts. *)
Definition advanced (s s' : Cpu * B) (k : Z) : Prop := count s' = u64 (count s + k).

Lemma step_or_trap_count m s :
  uint 64 (count s) ->
  match step_or_trap m s with
  | (Ok None, s') => exists k, 0 <= k <= 1 /\ advanced s s' k
  | (Ok (Some (Trap _)), s') => exists k, 0 <= k <= 1 /\ advanced s s' k
  | (Ok (Some _), s') => advanced s s' 1
  | _ => True
  end.
Proof using HF.
  intros Hu. pose proof (retires_step s) as Hs. unfold advanced.
  assert (forall k, k = 0 -> count s = u64 (count s + k)) as Hzero.
  { intros k ->. rewrite Z.add_0_r. symmetry. by apply wrap_small. }
  unfold step_or_trap, bind, attempt. destruct (step s) as [[[[]|]|e|] s'].
  all: try exact Hs; try (exists 1; split; [lia|exact Hs]); try done.
  destruct m.
  - pose proof (steady_on_fst _ (steady_exception_to_trap e) s') as Ht.
    destruct (on_fst (exception_to_trap e) s') as [[[]|e'|] s'']; [|done..]. cbn [snd] in Ht.
    exists 0. split; [lia|]. rewrite Ht, Hs. by apply Hzero.
  - exists 0. split; [lia|]. rewrite Hs. by apply Hzero.
Qed.

Lemma advanced_trans s1 s2 s3 j k : advanced s1 s2 j -> advanced s2 s3 k -> advanced s1 s3 (j + k).
Proof using Type.
  unfold advanced. intros -> ->. unfold u64, wrap. rewrite Zplus_mod_idemp_l. f_equal. lia.
Qed.

Lemma run_loop_count m n s :
  uint 64 (count s) ->
  match run_loop m n s with
  | (Ok stop, s') =>
      exists k, 0 <= k <= Z.of_nat n /\ advanced s s' k /\
        (stop = Budget \/ (exists e, stop = Trap e) \/ 1 <= k)
  | _ => True
  end.
Proof using HF.
  revert s. induction n as [|n IH]; intros s Hu; cbn [run_loop].
  { exists 0. split; [lia|]. split; [|by left]. unfold advanced. rewrite Z.add_0_r. symmetry. by apply wrap_small. }
  unfold bind. pose proof (steady_poll m s) as Hp. destruct (poll m s) as [[[]|e|] s1]; [|done..]. cbn [snd] in Hp.
  rewrite <- Hp in Hu. pose proof (step_or_trap_count m s1 Hu) as Hs.
  assert (forall s2 k, advanced s1 s2 k -> advanced s s2 k) as Hadv by (intros s2 k; unfold advanced; by rewrite Hp).
  destruct (step_or_trap m s1) as [[[stop|]|e|] s2]; [| |done..].
  - assert (exists k, 0 <= k <= 1 /\ advanced s1 s2 k /\ ((exists e, stop = Trap e) \/ k = 1)) as (k & Hk & Ha & Hr).
    { destruct stop; try (exists 1; split; [lia|split; [exact Hs|by right]]).
      destruct Hs as (k & Hk & Ha). exists k. split; [lia|]. split; [done|]. left. by eexists. }
    exists k. split; [lia|]. split; [by apply Hadv|]. right. destruct Hr as [?| ->]; [by left|right; lia].
  - destruct Hs as (j & Hj & Ha).
    assert (uint 64 (count s2)) as Hu2 by (rewrite Ha; apply uint_wrap; lia).
    specialize (IH s2 Hu2). destruct (run_loop m n s2) as [[stop|e|] s3]; [|done..].
    destruct IH as (k & Hk & Ha' & Hr). exists (j + k). split; [lia|].
    split; [by apply Hadv, (advanced_trans _ s2)|].
    destruct Hr as [?|[?|?]]; [by left|by right; left|right; right; lia].
Qed.
End Decoder.

(** ** Properties *)

(** C22: An instruction counts exactly once: when [step] completes, however it
    ends (the next instruction, a trap taken by ECALL, a stop), the retirement
    counter has advanced by one; when it raises, the counter is unchanged. *)
Theorem step_retires_once {B} `{Bus B} `{VectorUnitFrame B} (s : Cpu * B) :
  match step s with
  | (Ok _, s') => insn_count (fst s') = add64 (insn_count (fst s)) 1
  | (Err _, s') => insn_count (fst s') = insn_count (fst s)
  | (Panic, _) => True
  end.
Proof. pose proof (retires_step s) as Hs. by destruct (step s) as [[o|e|] s']. Qed.

Lemma run_charges {B} `{Bus B} `{VectorUnitFrame B} budget (s s' : Cpu * B) stop :
  0 <= budget -> uint 64 (insn_count (fst s)) -> run budget s = (Ok stop, s') ->
  exists k, 0 <= k <= budget /\ insn_count (fst s') = u64 (insn_count (fst s) + k) /\
    (stop = Ecall \/ stop = Break \/ stop = Wfi -> 1 <= k).
Proof.
  intros Hb Hu E. unfold run in E. pose proof (run_loop_count (is_sys (fst s)) (Z.to_nat budget) s Hu) as Hr.
  rewrite E in Hr. destruct Hr as (k & Hk & Ha & Hs). exists k. split; [lia|]. split; [done|].
  intros Hstop. destruct Hs as [-> |[[e -> ]|?]]; [by destruct Hstop as [|[]]..|done].
Qed.

(** C34: A run charges at most its budget: the counter advances by [k]
    instructions with [0 <= k <= budget], and a run that stops for an
    environment call, a breakpoint or a halt has retired that instruction. *)
Theorem run_within_budget {B} `{Bus B} `{VectorUnitFrame B} budget (s s' : Cpu * B) stop :
  0 <= budget -> uint 64 (insn_count (fst s)) -> run budget s = (Ok stop, s') ->
  exists k, 0 <= k <= budget /\ insn_count (fst s') = u64 (insn_count (fst s) + k) /\
    (stop = Ecall \/ stop = Break \/ stop = Wfi -> 1 <= k).
Proof. apply run_charges. Qed.

(** *** Witnesses *)

#[local] Instance plain_unit : VectorUnit FlatMemory := trapping_unit.
#[local] Instance plain_unit_frame : VectorUnitFrame FlatMemory.
Proof. by constructor. Qed.

Lemma step_retires_once_witness :
  match step (demo_hart, demo_memory) with
  | (Ok _, s') => insn_count (fst s') = add64 (insn_count demo_hart) 1
  | _ => False
  end.
Proof.
  pose proof (step_retires_once (demo_hart, demo_memory)) as Hs.
  assert (match step (demo_hart, demo_memory) with (Ok _, _) => True | _ => False end) as Ho by (vm_compute; exact I).
  destruct (step (demo_hart, demo_memory)) as [[o|e|] s']; [exact Hs|destruct Ho|destruct Ho].
Defined.

Lemma run_within_budget_witness :
  exists k s', run 10 (demo_hart, demo_memory) = (Ok Ecall, s') /\ 1 <= k <= 10 /\
    insn_count (fst s') = u64 (insn_count demo_hart + k).
Proof.
  destruct (run 10 (demo_hart, demo_memory)) as [o s'] eqn:E.
  assert (o = Ok Ecall) as -> by (apply (f_equal fst) in E; vm_compute in E; by symmetry).
  destruct (run_within_budget 10 (demo_hart, demo_memory) s' Ecall ltac:(lia) ltac:(vm_compute; split; congruence) E)
    as (k & Hk & Ha & Hs).
  exists k, s'. split; [done|]. split; [|exact Ha]. split; [apply Hs; by left|lia].
Defined.
