(* ===== verification/VecElem.v ===== *)
(** * Element-wise execution

    [elementwise v0 reg eew start stop act f v]: [v] is [v0] after writing
    [f i] to every active element of the group at [reg]; nothing else has
    changed.  The loops of the vector unit run in place and in increasing
    order; a source group that [trails] the destination is read as it was
    before the instruction, and the legality tests guarantee exactly that. *)

From S2P Require Import Prelude Exception Decode Compressed Csr State Bus Mmu Trap CsrOps.
From S2P Require Import Vector SoftFp Exec Step VecBase VecInt VecFloat VecMem.
From S2P Require Import Wf SoftFpSpec RvcEquiv SafeMem SafeCsr SafeExec VecSafe.

(** ** The register file byte by byte *)

Definition byte_at (v : VectorState) (o : Z) : option Z := flat v !! Z.to_nat o.

(** Element [i] of the group at [reg], zero outside the register file. *)
Definition elem (v : VectorState) (reg i eew : Z) : Z := default 0 (read_element v reg i eew).

Definition first_byte (reg i eew : Z) : Z := reg * 16 + i * (eew / 8).

Lemma width_bytes eew : is_width eew = true -> 0 < eew / 8 /\ 8 * (eew / 8) = eew.
Proof. intros Hw. by destruct (is_width_cases _ Hw) as [->|[->|[->| ->]]]. Qed.

Lemma read_element_bytes v reg i eew :
  regs_wf v.(vregs) -> element_ok reg i eew ->
  read_element v reg i eew
  = Some (from_le_bytes (take (Z.to_nat (eew / 8)) (drop (Z.to_nat (first_byte reg i eew)) (flat v)))).
Proof.
  intros Hv (Hw & Hr & Hi & Hb). destruct (width_bytes eew Hw) as [Hp _].
  unfold read_element, first_byte. rewrite Hw. change VLEN_BYTES with 16.
  by rewrite ptr_read_ok by (done || nia).
Qed.

Lemma elem_read v reg i eew :
  regs_wf v.(vregs) -> element_ok reg i eew -> read_element v reg i eew = Some (elem v reg i eew).
Proof. intros Hv He. unfold elem. by rewrite read_element_bytes. Qed.

Lemma elem_uint v reg i eew :
  regs_wf v.(vregs) -> element_ok reg i eew -> uint eew (elem v reg i eew).
Proof.
  intros Hv He. destruct (read_element_ok v reg i eew Hv He) as (x & E & Hx).
  unfold elem. by rewrite E.
Qed.

(** Elements with the same bytes are equal. *)
Lemma elem_ext v w reg i eew :
  regs_wf v.(vregs) -> regs_wf w.(vregs) -> element_ok reg i eew ->
  (forall o, first_byte reg i eew <= o < first_byte reg i eew + eew / 8 -> byte_at v o = byte_at w o) ->
  read_element v reg i eew = read_element w reg i eew.
Proof.
  intros Hv Hw He Hb. rewrite !read_element_bytes by done. do 2 f_equal. apply list_eq. intros k.
  destruct (decide (k < Z.to_nat (eew / 8))%nat); [|by rewrite !lookup_take_ge by lia].
  rewrite !lookup_take_lt, !lookup_drop by done. destruct He as (He & Hr & Hi & _).
  destruct (width_bytes eew He) as [Hp _]. unfold first_byte in *.
  specialize (Hb (reg * 16 + i * (eew / 8) + Z.of_nat k) ltac:(lia)). unfold byte_at in Hb.
  by rewrite Z2Nat.inj_add, Nat2Z.id in Hb by nia.
Qed.

Lemma write_element_spec v reg i eew x :
  regs_wf v.(vregs) -> element_ok reg i eew ->
  exists w, write_element reg i eew x v = Some w /\ regs_wf w.(vregs) /\ w = set_vregs w.(vregs) v
    /\ (forall o, 0 <= o -> ~ first_byte reg i eew <= o < first_byte reg i eew + eew / 8 ->
        byte_at w o = byte_at v o)
    /\ read_element w reg i eew = Some (wrap eew x).
Proof.
  intros Hv He. destruct (write_element_ok v reg i eew x Hv He) as (w & E & Hw & Hs).
  exists w. do 3 (split; [done|]). destruct He as (Hwd & Hr & Hi & Hb) eqn:HE. clear HE.
  destruct (width_bytes eew Hwd) as [Hp He8]. pose proof E as E'.
  unfold write_element in E. rewrite Hwd in E. change VLEN_BYTES with 16 in E. fold (first_byte reg i eew) in E.
  set (bs := to_le_bytes (Z.to_nat (eew / 8)) x) in *.
  assert (length bs = Z.to_nat (eew / 8)) as Hl by apply length_to_le_bytes.
  assert (0 <= first_byte reg i eew) as Ho by (unfold first_byte; nia).
  assert (first_byte reg i eew + Z.of_nat (length bs) <= 512) as Hob by (rewrite Hl; unfold first_byte; nia).
  destruct (ptr_write_wf v _ bs w Hv Ho Hob (to_le_bytes_bytes _ _) E) as (_ & Hf & _).
  pose proof (length_flat v Hv) as Hlen. rewrite Hl in Hf. split.
  - intros o Ho' Hout. unfold byte_at. rewrite Hf, lookup_flat_update by (done || lia).
    case_decide; [lia|done].
  - rewrite read_element_bytes by done. rewrite Hf, drop_app_length' by (rewrite length_take; lia).
    rewrite take_app_length' by done. f_equal. unfold bs. rewrite from_to_le_bytes, Z2Nat.id, He8 by lia. done.
Qed.

Lemma lookup_concat_rows n (regs : list (list Z)) r k :
  Forall (fun row => length row = n) regs -> (k < n)%nat ->
  concat regs !! (r * n + k)%nat = (regs !! r) ≫= fun row => row !! k.
Proof.
  intros Hf Hk. revert r. induction Hf as [|row regs Hl _ IH]; intros r; [done|]. simpl.
  destruct r as [|r]; simpl.
  - by rewrite lookup_app_l by lia.
  - rewrite lookup_app_r by lia. rewrite <- IH. f_equal. lia.
Qed.

Lemma register_byte_at v reg k :
  regs_wf v.(vregs) -> 0 <= reg -> 0 <= k < 16 -> register_byte v reg k = byte_at v (reg * 16 + k).
Proof.
  intros [Hl Hf] Hr Hk. unfold byte_at, flat, register_byte, register.
  replace (Z.to_nat (reg * 16 + k)) with (Z.to_nat reg * 16 + Z.to_nat k)%nat by lia.
  symmetry. apply lookup_concat_rows; [|lia]. by apply (List.Forall_impl _ (fun row H => proj1 H) Hf).
Qed.

(** The predicate: bit [i] of v0, for a masked instruction. *)
Definition mask_of (v : VectorState) (i : Z) : bool := default false (register_bit v 0 i).
Definition active (predicated : bool) (v : VectorState) (i : Z) : bool := negb predicated || mask_of v i.

Lemma mask_read v i :
  regs_wf v.(vregs) -> 0 <= i < 128 -> register_bit v 0 i = Some (mask_of v i).
Proof.
  intros Hv Hi. destruct (bit_byte 0 i ltac:(lia) Hi) as [Hr Hk]. unfold mask_of, register_bit.
  by destruct (register_byte_wf v 0 (i .>> 3) Hv Hr Hk) as (b & -> & _).
Qed.

Lemma mask_ext v w i :
  regs_wf v.(vregs) -> regs_wf w.(vregs) -> 0 <= i < 128 ->
  (forall o, 0 <= o < 16 -> byte_at v o = byte_at w o) -> mask_of v i = mask_of w i.
Proof.
  intros Hv Hw Hi Hb. destruct (bit_byte 0 i ltac:(lia) Hi) as [_ Hk]. change VLEN_BYTES with 16 in Hk.
  unfold mask_of, register_bit. rewrite !register_byte_at by (done || lia). by rewrite (Hb (0 * 16 + (i .>> 3)) ltac:(lia)).
Qed.

(** ** Element-wise results *)

Record elementwise (v0 : VectorState) (reg eew start stop : Z) (act : Z -> bool) (f : Z -> Z)
    (v : VectorState) : Prop := {
  ew_regs : regs_wf v.(vregs);
  ew_rest : v = set_vregs v.(vregs) v0;
  ew_bytes : forall o, 0 <= o -> ~ first_byte reg start eew <= o < first_byte reg stop eew ->
    byte_at v o = byte_at v0 o;
  ew_elements : forall i, start <= i < stop ->
    read_element v reg i eew
    = if act i then Some (wrap eew (f i)) else read_element v0 reg i eew
}.

Section Elementwise.
Context (v0 : VectorState) (reg eew start : Z) (act : Z -> bool) (f : Z -> Z).
Context (Hv0 : regs_wf v0.(vregs)) (Hw : is_width eew = true) (Hs : 0 <= start).

Lemma elementwise_nil stop : stop <= start -> elementwise v0 reg eew start stop act f v0.
Proof using Hv0. intros Hle. split; [done|by destruct v0|done|lia]. Qed.

(** What the loop has not reached is as it was. *)
Lemma elementwise_read v stop sreg i seew :
  elementwise v0 reg eew start stop act f v -> element_ok sreg i seew ->
  first_byte sreg i seew + seew / 8 <= first_byte reg start eew \/ first_byte reg stop eew <= first_byte sreg i seew ->
  read_element v sreg i seew = read_element v0 sreg i seew.
Proof using Hv0.
  intros He Hok Hd. apply elem_ext; [apply He|done|done|]. intros o Ho. apply (ew_bytes _ _ _ _ _ _ _ _ He); [|lia].
  destruct Hok as (Hk & Hr & Hi & _). pose proof (proj1 (width_bytes _ Hk)). unfold first_byte in *. nia.
Qed.

Lemma elementwise_off v j :
  start <= j -> act j = false -> element_ok reg j eew -> elementwise v0 reg eew start j act f v ->
  elementwise v0 reg eew start (j + 1) act f v.
Proof using Hv0 Hw.
  intros Hj Ha Hok He. pose proof (proj1 (width_bytes _ Hw)) as Hp. split; [apply He..| |].
  - intros o Ho Hout. apply He; [done|]. unfold first_byte in *. nia.
  - intros i Hi. destruct (decide (i = j)) as [->|]; [|apply He; lia]. rewrite Ha.
    apply (elementwise_read v j); [done..|]. right. done.
Qed.

Lemma elementwise_on v j :
  start <= j -> act j = true -> element_ok reg j eew -> elementwise v0 reg eew start j act f v ->
  exists w, write_element reg j eew (f j) v = Some w /\ elementwise v0 reg eew start (j + 1) act f w.
Proof using Hv0 Hw Hs.
  intros Hj Ha Hok He. pose proof (proj1 (width_bytes _ Hw)) as Hp.
  destruct (write_element_spec v reg j eew (f j) (ew_regs _ _ _ _ _ _ _ _ He) Hok) as (w & E & Hwf & Hrest & Hout & Hin).
  exists w. split; [done|]. split; [done| | |].
  - rewrite Hrest. rewrite (ew_rest _ _ _ _ _ _ _ _ He) at 1. done.
  - intros o Ho Hb. rewrite Hout; [|done|unfold first_byte in *; nia]. apply He; [done|]. unfold first_byte in *; nia.
  - intros i Hi. destruct (decide (i = j)) as [->|]; [by rewrite Ha|].
    rewrite <- (ew_elements _ _ _ _ _ _ _ _ He i) by lia.
    destruct Hok as (Hok1 & Hok2 & Hok3 & Hok4). assert (0 <= i) by lia.
    apply elem_ext; [done|apply He|split_and!; [done|done|done|nia]|]. intros o Ho.
    apply Hout; unfold first_byte in *; nia.
Qed.
End Elementwise.

(** Elements the instruction does not write keep their value. *)
Lemma elementwise_outside v0 reg eew start stop act f v i :
  regs_wf v0.(vregs) -> elementwise v0 reg eew start stop act f v -> element_ok reg i eew ->
  ~ start <= i < stop -> read_element v reg i eew = read_element v0 reg i eew.
Proof.
  intros Hv0 He Hok Hi. pose proof (proj1 (width_bytes _ (proj1 Hok))) as Hp.
  apply (elementwise_read v0 reg eew start act f Hv0 v stop); [done..|]. unfold first_byte. nia.
Qed.

(** ** Sources that trail the destination *)

(** No element of the source is overwritten before it is read. *)
Definition trails (reg eew sreg seew stop : Z) : Prop :=
  forall j, 0 <= j < stop ->
    first_byte sreg (j + 1) seew <= reg * 16 \/ first_byte reg j eew <= first_byte sreg j seew.

(** A group of [eew]-bit elements takes exactly the registers its elements need. *)
Definition sized (cfg : VectorConfig) (eew : Z) (r : GroupRatio) : Prop :=
  register_span r = Z.max 1 (cfg.(vlmax) * (eew / 8) / 16)
  /\ (r.(den) <= r.(num) -> cfg.(vlmax) * (eew / 8) = 16 * register_span r).

Definition sized_check (cfg : VectorConfig) (eew : Z) (r : GroupRatio) : bool :=
  (register_span r =? Z.max 1 (cfg.(vlmax) * (eew / 8) / 16))
  && ((r.(num) <? r.(den)) || (cfg.(vlmax) * (eew / 8) =? 16 * register_span r)).

Definition sized_cfg_check (raw : Z) : bool :=
  match decode_vtype raw with
  | Some cfg =>
      sized_check cfg cfg.(sew) (lmul cfg)
      && forallb (fun eew => match emul_exponent cfg eew with
                             | Some (Some e) => sized_check cfg eew (ratio_of e)
                             | _ => true
                             end) [8; 16; 32; 64]
  | None => true
  end.

Lemma sized_cfg_check_all : all_bits 8 0 sized_cfg_check = true.
Proof. vm_compute. reflexivity. Qed.

Lemma sized_check_sized cfg eew r : sized_check cfg eew r = true -> sized cfg eew r.
Proof.
  unfold sized_check. intros [H1 H2]%andb_true_iff. split; [lia|]. intros Hle.
  apply orb_true_iff in H2 as [H2|H2]; lia.
Qed.

Lemma sized_facts cfg :
  decoded cfg ->
  sized cfg cfg.(sew) (lmul cfg)
  /\ forall eew e, is_width eew = true -> emul_exponent cfg eew = Some (Some e) -> sized cfg eew (ratio_of e).
Proof.
  intros (raw & Hraw & E). pose proof (all_uint 8 _ sized_cfg_check_all raw Hraw) as Hc.
  unfold sized_cfg_check in Hc. rewrite E in Hc. apply andb_true_iff in Hc as [H1 H2].
  split; [by apply sized_check_sized|]. intros eew e Hw He. apply sized_check_sized.
  rewrite forallb_forall in H2. specialize (H2 eew). rewrite He in H2. apply H2.
  destruct (is_width_cases _ Hw) as [->|[->|[->| ->]]]; simpl; auto.
Qed.

Lemma aligned reg r : validate_group reg r 1 = true -> 1 <= register_span r -> (register_span r | reg).
Proof.
  unfold validate_group. intros H Hs. apply andb_true_iff in H as [[_ H]%andb_true_iff _].
  apply orb_true_iff in H as [H|H]; apply Z.eqb_eq in H; [rewrite H; apply Z.divide_1_l|].
  apply Z.mod_divide; [lia|done].
Qed.

Lemma groups_overlap_false a ar b br :
  groups_overlap a ar 1 b br = false -> b + register_span br <= a \/ a + register_span ar <= b.
Proof. unfold groups_overlap. rewrite andb_false_iff, !Z.ltb_ge. lia. Qed.

(** The legality rule makes every source trail the destination. *)
Lemma legal_trails cfg reg r eew sreg sr seew :
  fits cfg eew r -> sized cfg eew r -> fits cfg seew sr -> sized cfg seew sr ->
  validate_group reg r 1 = true -> validate_group sreg sr 1 = true -> 1 <= cfg.(vlmax) ->
  destination_source_overlap_legal reg r eew sreg sr seew = true ->
  trails reg eew sreg seew cfg.(vlmax).
Proof.
  intros (Hw & H1 & Hb) [Hz Hx] (Hsw & Hs1 & Hsb) [Hsz Hsx] Hg Hsg Hv Hl j Hj.
  destruct (width_bytes _ Hw) as [Hp He8], (width_bytes _ Hsw) as [Hsp Hs8]. unfold first_byte.
  unfold destination_source_overlap_legal in Hl.
  destruct (groups_overlap reg r 1 sreg sr) eqn:Ho; cbn [negb] in Hl.
  2: { apply groups_overlap_false in Ho as [Ho|Ho]; [left|right]; nia. }
  destruct (Z.eqb_spec eew seew) as [<-|Hne].
  { assert (register_span sr = register_span r) as Er by congruence.
    destruct (aligned reg r Hg H1) as [k Hk]. destruct (aligned sreg sr Hsg Hs1) as [k' Hk'].
    rewrite Er in Hk'. unfold groups_overlap in Ho. rewrite Er in Ho.
    assert (k = k') by nia. subst k'. right. nia. }
  destruct (Z.ltb_spec eew seew) as [Hlt|Hge].
  { apply Z.eqb_eq in Hl as ->. right. nia. }
  apply andb_true_iff in Hl as [Hd%Z.leb_le He%Z.eqb_eq]. specialize (Hsx Hd).
  assert (seew / 8 < eew / 8) as Hlt by lia. right.
  assert (register_span r * 16 = cfg.(vlmax) * (eew / 8)) as Hr.
  { rewrite Hz. assert (16 * register_span sr <= cfg.(vlmax) * (eew / 8)) by nia.
    destruct (is_width_cases _ Hw) as [E|[E|[E|E]]], (is_width_cases _ Hsw) as [E'|[E'|[E'|E']]];
      subst eew seew; try lia; zlia. }
  nia.
Qed.

Lemma trails_le reg eew sreg seew stop stop' : stop' <= stop -> trails reg eew sreg seew stop -> trails reg eew sreg seew stop'.
Proof. intros Hle Ht j Hj. apply Ht. lia. Qed.

(** ** The loop *)

(** The accumulator over the active elements. *)
Fixpoint fold_active {A} (n : nat) (j : Z) (act : Z -> bool) (g : Z -> A -> A) (acc : A) : A :=
  match n with
  | O => acc
  | S n => fold_active n (j + 1) act g (if act j then g j acc else acc)
  end.

Lemma fold_active_bool n j act (g : Z -> bool) acc :
  fold_active n j act (fun i acc => acc || g i) acc
  = acc || existsb (fun i => act i && g i) (seqZ j (Z.of_nat n)).
Proof.
  revert j acc. induction n as [|n IH]; intros j acc; [by rewrite orb_false_r|].
  cbn [fold_active]. rewrite IH, (seqZ_cons j) by lia. cbn [existsb].
  rewrite Nat2Z.inj_succ, Z.pred_succ, <- Z.add_1_r, orb_assoc. f_equal.
  destruct (act j); [done|by rewrite orb_false_r].
Qed.

Section Loop.
Context (c : Cpu) (v0 : VectorState) (reg eew start stop : Z) (f : Z -> Z) (predicated : bool).
Context (Hv0 : regs_wf v0.(vregs)) (Hs : 0 <= start).
Context (Hok : forall j, 0 <= j < stop -> element_ok reg j eew) (Hm : predicated = true -> 1 <= reg).

Abbreviation state v := (set_vector v c).
Abbreviation upto j v := (elementwise v0 reg eew start j (active predicated v0) f v).

Lemma get_trailing sreg seew v j :
  trails reg eew sreg seew stop -> 0 <= j < stop -> start <= j -> element_ok sreg j seew -> upto j v ->
  get_element sreg j seew (state v) = (Ok (elem v0 sreg j seew), state v).
Proof using Hv0 Hok Hs.
  intros Ht Hj Hsj Hsok He. unfold get_element, bind, vec, gets. cbn [vector set_vector].
  pose proof (proj1 (width_bytes _ (proj1 (Hok j Hj)))) as Hp.
  assert (0 <= start * (eew / 8)) by nia.
  rewrite (elementwise_read v0 reg eew start (active predicated v0) f Hv0 v j); [by rewrite elem_read|done..|].
  unfold first_byte in *. destruct (Ht j Hj) as [Hd|Hd]; [left|right; exact Hd]. unfold first_byte in Hd. lia.
Qed.

Lemma get_old v j :
  0 <= j < stop -> start <= j -> upto j v ->
  get_element reg j eew (state v) = (Ok (elem v0 reg j eew), state v).
Proof using Hv0 Hok Hs.
  intros Hj Hsj He. apply (get_trailing reg eew); [|done..|by apply Hok|done].
  intros i Hi. by right.
Qed.

Lemma mask_upto v j i :
  predicated = true -> 0 <= i < 128 -> 0 <= j < stop -> upto j v -> mask_of v i = mask_of v0 i.
Proof using Hv0 Hs Hok Hm.
  intros Hp Hi Hj He. apply mask_ext; [apply He|done|done|]. intros o Ho. apply He; [lia|].
  specialize (Hm Hp). pose proof (proj1 (width_bytes _ (proj1 (Hok j Hj)))). unfold first_byte. nia.
Qed.

Lemma put_upto v j :
  0 <= j < stop -> start <= j -> active predicated v0 j = true -> upto j v ->
  exists w, put_element reg j eew (f j) (state v) = (Ok tt, state w) /\ upto (j + 1) w.
Proof using Hv0 Hs Hok.
  intros Hj Hsj Ha He. destruct (elementwise_on v0 reg eew start (active predicated v0) f Hv0
    (proj1 (Hok j Hj)) Hs v j Hsj Ha (Hok j Hj) He) as (w & E & Hu).
  exists w. split; [|done]. unfold put_element, bind, vec, gets. cbn [vector set_vector]. by rewrite E.
Qed.

(** A body that writes [f j] whatever the earlier elements have become. *)
Lemma for_elements_elementwise {A} (body : Z -> A -> Hart Cpu A) g acc :
  stop <= 128 ->
  (forall j acc v, 0 <= j < stop -> start <= j -> active predicated v0 j = true -> upto j v ->
     body j acc (state v) = (put_element reg j eew (f j) ;;; ret (g j acc)) (state v)) ->
  exists v, for_elements predicated start stop body acc (state v0)
            = (Ok (fold_active (Z.to_nat (stop - start)) start (active predicated v0) g acc), state v)
         /\ upto stop v.
Proof using Hv0 Hs Hok Hm.
  intros Hstop Hb. unfold for_elements, for_range. destruct (decide (stop <= start)) as [Hle|Hlt].
  { replace (Z.to_nat (stop - start)) with 0%nat by lia. exists v0. split; [done|]. by apply elementwise_nil. }
  assert (upto start v0) as He by (by apply elementwise_nil).
  set (step := fun index acc => if predicated then active <- mask_bit index ;;
                 if (active : bool) then body index acc else ret acc else body index acc).
  assert (forall n j v acc, n = Z.to_nat (stop - j) -> start <= j <= stop -> upto j v ->
    exists w, for_loop n j step acc (state v)
      = (Ok (fold_active n j (active predicated v0) g acc), state w) /\ upto stop w) as Hloop;
    [|apply Hloop; [done|lia|done]].
  clear He acc. induction n as [|n IH]; intros j v acc' Hn Hj He.
  { exists v. split; [done|]. by replace stop with j by lia. }
  cbn [for_loop fold_active].
  assert (exists w, step j acc' (state v)
          = (Ok (if active predicated v0 j then g j acc' else acc'), state w) /\ upto (j + 1) w) as (w & Hw & Hu).
  2: { destruct (IH (j + 1) w (if active predicated v0 j then g j acc' else acc') ltac:(lia) ltac:(lia) Hu)
         as (w' & Hw' & Hu'). exists w'. split; [|done]. unfold bind at 1. rewrite Hw. exact Hw'. }
  assert (predicated = true -> mask_of v j = mask_of v0 j) as Hmk
    by (intros Hp; apply (mask_upto v j j Hp); [lia|lia|done]).
  assert (forall k : bool -> Hart Cpu A, (if predicated then active <- mask_bit j ;; k active else k true) (state v)
                    = k (active predicated v0 j) (state v)) as Hmask.
  { clear Hm. intros k. unfold active. destruct predicated; [|done]. cbn [negb orb].
    unfold mask_bit, bind, vec, gets. cbn [vector set_vector].
    rewrite mask_read by (apply He || lia). cbn [unwrap ret]. by rewrite Hmk. }
  specialize (Hmask (fun active => if active then body j acc' else ret acc')). cbv beta in Hmask.
  assert (step j acc' (state v) = (if active predicated v0 j then body j acc' else ret acc') (state v)) as ->
    by exact Hmask.
  clear Hmask.
  destruct (active predicated v0 j) eqn:Ha.
  - destruct (put_upto v j) as (w & Hw & Hu); [lia..|done|done|]. exists w. split; [|done].
    rewrite Hb by (done || lia). unfold bind. by rewrite Hw.
  - exists v. split; [done|]. apply elementwise_off; [done|exact (proj1 (Hok j ltac:(lia)))|lia|done|apply Hok; lia|done].
Qed.
End Loop.
