(* ===== verification/VecArch.v ===== *)
(** * The architecture's integer operations

    What the V extension's integer and fixed-point operations mean on elements
    of [sew] bits, stated on mathematical integers: [signed sew a] is the signed
    value of the element [a].  The element functions of [VecInt] compute these,
    up to the truncation that writing an element performs. *)

From S2P Require Import Prelude Exception Decode Compressed Csr State Bus Mmu Trap CsrOps.
From S2P Require Import Vector SoftFp Exec VecBase VecInt VecMem Wf SoftFpSpec VecSafe ExecSpec.

Module Arch.
Definition saturate (sew x : Z) : Z * bool :=
  (Z.max (- 2 ^ (sew - 1)) (Z.min x (2 ^ (sew - 1) - 1)),
   negb ((- 2 ^ (sew - 1) <=? x) && (x <=? 2 ^ (sew - 1) - 1))).

(** The value of an element, signed or unsigned. *)
Definition value (sgn : bool) (sew x : Z) : Z := if sgn then signed sew x else x.

Definition binary (sew funct6 a b : Z) : option (Z * bool) :=
  let sa := signed sew a in
  let sb := signed sew b in
  if funct6 =? 0x00 then Some (a + b, false)
  else if funct6 =? 0x02 then Some (a - b, false)
  else if funct6 =? 0x03 then Some (b - a, false)
  else if funct6 =? 0x04 then Some (Z.min a b, false)
  else if funct6 =? 0x05 then Some (Z.min sa sb, false)
  else if funct6 =? 0x06 then Some (Z.max a b, false)
  else if funct6 =? 0x07 then Some (Z.max sa sb, false)
  else if funct6 =? 0x09 then Some (a .& b, false)
  else if funct6 =? 0x0a then Some (a .| b, false)
  else if funct6 =? 0x0b then Some (a .^ b, false)
  else if funct6 =? 0x20 then Some (Z.min (a + b) (2 ^ sew - 1), 2 ^ sew - 1 <? a + b)
  else if funct6 =? 0x21 then Some (saturate sew (sa + sb))
  else if funct6 =? 0x22 then Some (Z.max 0 (a - b), a <? b)
  else if funct6 =? 0x23 then Some (saturate sew (sa - sb))
  else if funct6 =? 0x25 then Some (a * 2 ^ (b mod sew), false)
  else if funct6 =? 0x28 then Some (a / 2 ^ (b mod sew), false)
  else if funct6 =? 0x29 then Some (sa / 2 ^ (b mod sew), false)
  else None.

Definition compare (sew funct6 a b : Z) : option bool :=
  let sa := signed sew a in
  let sb := signed sew b in
  if funct6 =? 0x18 then Some (a =? b) else if funct6 =? 0x19 then Some (negb (a =? b))
  else if funct6 =? 0x1a then Some (a <? b) else if funct6 =? 0x1b then Some (sa <? sb)
  else if funct6 =? 0x1c then Some (a <=? b) else if funct6 =? 0x1d then Some (sa <=? sb)
  else if funct6 =? 0x1e then Some (b <? a) else if funct6 =? 0x1f then Some (sb <? sa)
  else None.

Definition multiply_divide (sew funct6 a b : Z) : option Z :=
  let sa := signed sew a in
  let sb := signed sew b in
  if funct6 =? 0x20 then Some (if b =? 0 then -1 else a / b)
  else if funct6 =? 0x21 then Some (if b =? 0 then -1 else Z.quot sa sb)
  else if funct6 =? 0x22 then Some (if b =? 0 then a else a mod b)
  else if funct6 =? 0x23 then Some (if b =? 0 then a else Z.rem sa sb)
  else if funct6 =? 0x24 then Some (a * b / 2 ^ sew)
  else if funct6 =? 0x25 then Some (a * b)
  else if funct6 =? 0x26 then Some (sa * b / 2 ^ sew)
  else if funct6 =? 0x27 then Some (sa * sb / 2 ^ sew)
  else None.

Definition multiply_add (funct6 vs2 operand vd : Z) : option Z :=
  if funct6 =? 0x29 then Some (vd * operand + vs2)
  else if funct6 =? 0x2b then Some (vs2 - vd * operand)
  else if funct6 =? 0x2d then Some (vs2 * operand + vd)
  else if funct6 =? 0x2f then Some (vd - vs2 * operand)
  else None.

(** [x / 2^s] rounded by vxrm: to nearest up, to nearest even, down, to odd. *)
Definition round (vxrm x s : Z) : Z :=
  let q := x / 2 ^ s in
  let r := x mod 2 ^ s in
  if vxrm =? 0 then if 2 ^ s <=? 2 * r then q + 1 else q
  else if vxrm =? 1 then
    if 2 * r <? 2 ^ s then q else if 2 ^ s <? 2 * r then q + 1 else if Z.even q then q else q + 1
  else if vxrm =? 2 then q
  else if (r =? 0) || Z.odd q then q else q + 1.
End Arch.

(** ** Truncation *)

Lemma width_range w : is_width w = true -> 8 <= w <= 64.
Proof. intros Hw. destruct (is_width_cases _ Hw) as [->|[->|[->| ->]]]; lia. Qed.

Lemma element_mask_ones w : is_width w = true -> element_mask w = Z.ones w.
Proof. intros Hw. by destruct (is_width_cases _ Hw) as [->|[->|[->| ->]]]. Qed.

Lemma land_mask w x : is_width w = true -> x .& element_mask w = wrap w x.
Proof.
  intros Hw. rewrite element_mask_ones by done. pose proof (width_range w Hw).
  by rewrite Z.land_ones by lia.
Qed.

Lemma wrap_narrow w k x : 0 <= w <= k -> wrap w (wrap k x) = wrap w x.
Proof.
  intros Hw. unfold wrap. apply Z.mod_mod_divide. exists (2 ^ (k - w)).
  rewrite <- Z.pow_add_r by lia. f_equal. lia.
Qed.

Lemma wrap_mask w x : is_width w = true -> wrap w (x .& element_mask w) = wrap w x.
Proof. intros Hw. pose proof (width_range w Hw). by rewrite land_mask, wrap_narrow by (done || lia). Qed.

Lemma wrap_u64 w x : is_width w = true -> wrap w (u64 x) = wrap w x.
Proof. intros Hw. pose proof (width_range w Hw). apply wrap_narrow. lia. Qed.

Lemma wrap_uint w x : uint w x -> wrap w x = x.
Proof. intros [? ?]. by apply Z.mod_small. Qed.

Lemma signed_element_signed w a : is_width w = true -> uint w a -> signed_element a w = signed w a.
Proof.
  intros Hw [Ha Hb]. unfold signed_element, i64, shl64, u64, wrap, signed.
  destruct (is_width_cases _ Hw) as [->|[->|[->| ->]]]; cbn [Z.eqb Pos.eqb Z.sub Z.opp Z.add Z.pos_sub Pos.pred_double Pos.add Pos.sub];
    [..|done]; rewrite Z.shiftl_mul_pow2, Z.shiftr_div_pow2 by lia; zlia.
Qed.

Lemma element_wrap w a : is_width w = true -> wrap w (signed w a) = wrap w a.
Proof. intros Hw. pose proof (width_range w Hw). apply signed_mod. lia. Qed.

Lemma element_range w a : is_width w = true -> - 2 ^ (w - 1) <= signed w a < 2 ^ (w - 1).
Proof.
  intros Hw. pose proof (width_range w Hw). unfold signed.
  pose proof (Z.mod_pos_bound (a + 2 ^ (w - 1)) (2 ^ w) ltac:(apply Z.pow_pos_nonneg; lia)).
  assert (2 ^ w = 2 * 2 ^ (w - 1)) by (rewrite <- Z.pow_succ_r by lia; f_equal; lia). lia.
Qed.

Lemma element_zero w b : is_width w = true -> uint w b -> (signed w b =? 0) = (b =? 0).
Proof.
  intros Hw Hb. rewrite <- (wrap_uint w b Hb) at 2. rewrite <- (element_wrap w b Hw).
  pose proof (element_range w b Hw) as Hr. pose proof (width_range w Hw). unfold wrap.
  assert (2 ^ w = 2 * 2 ^ (w - 1)) as H2 by (rewrite <- Z.pow_succ_r by lia; f_equal; lia).
  assert (0 < 2 ^ (w - 1)) by (apply Z.pow_pos_nonneg; lia). set (x := signed w b) in *.
  destruct (Z.eqb_spec x 0) as [->|Hne]; [by rewrite Z.mod_0_l by lia|]. symmetry. apply Z.eqb_neq. intros E.
  apply Z.mod_divide in E as [k Hk]; [|lia]. assert (k = 0) by nia. nia.
Qed.

(** ** The element functions *)

Definition agrees {A} (sew : Z) (o : option A) (o' : option A) (R : A -> A -> Prop) : Prop :=
  match o, o' with Some x, Some y => R x y | None, None => True | _, _ => False end.

Lemma shift_amount sew b : is_width sew = true -> b .& (sew - 1) = b mod sew.
Proof.
  intros Hw. destruct (is_width_cases _ Hw) as [->|[->|[->| ->]]].
  - apply (land_ones_lit b 7 3); done.
  - apply (land_ones_lit b 15 4); done.
  - apply (land_ones_lit b 31 5); done.
  - apply (land_ones_lit b 63 6); done.
Qed.

Lemma wrap_minus_one w : is_width w = true -> wrap w (-1) = element_mask w.
Proof. intros Hw. by destruct (is_width_cases _ Hw) as [->|[->|[->| ->]]]. Qed.

Lemma wrap_clamp w x :
  is_width w = true ->
  wrap w (u64 (clamp (- (1 .<< (w - 1))) ((1 .<< (w - 1)) - 1) x)) = wrap w (fst (Arch.saturate w x)).
Proof.
  intros Hw. rewrite wrap_u64 by done. rewrite Z.shiftl_1_l. f_equal. unfold clamp, Arch.saturate. cbn [fst].
  pose proof (width_range w Hw). assert (0 < 2 ^ (w - 1)) by (apply Z.pow_pos_nonneg; lia).
  repeat case_match; lia.
Qed.

(** The operations of one element width compute the architecture's results. *)
Lemma binary_val_arch sew funct6 a b :
  is_width sew = true -> uint sew a -> uint sew b ->
  agrees sew (binary_val sew funct6 a b) (Arch.binary sew funct6 a b)
    (fun x y => wrap sew (fst x) = wrap sew (fst y) /\ snd x = snd y).
Proof.
  intros Hw Ha Hb. pose proof (width_range sew Hw) as Hr.
  pose proof (element_wrap sew a Hw) as Wa. pose proof (element_wrap sew b Hw) as Wb.
  assert (element_mask sew = 2 ^ sew - 1) as Em by (rewrite element_mask_ones, Z.ones_equiv by done; lia).
  unfold binary_val, Arch.binary, agrees. cbv zeta. rewrite !signed_element_signed, shift_amount by done.
  pose proof (Z.mod_pos_bound b sew ltac:(lia)) as Hm.
  repeat (case_match; simplify_eq; try done); cbn [fst snd]; rewrite ?wrap_u64 by done; try done.
  all: match goal with
    | |- context [saturate_signed] =>
        unfold saturate_signed; cbn [fst snd]; split; [by apply wrap_clamp|];
        rewrite Z.shiftl_1_l; unfold Arch.saturate; cbn [snd];
        assert (0 < 2 ^ (sew - 1)) by (apply Z.pow_pos_nonneg; lia); lia
    | |- _ => idtac
    end.
  all: split; [|lia].
  all: first
    [ by apply wrap_u64
    | rewrite Z.min_l by lia; congruence | rewrite Z.min_r by lia; congruence
    | rewrite Z.max_l by lia; congruence | rewrite Z.max_r by lia; congruence
    | rewrite Em; f_equal; lia | f_equal; lia
    | unfold shl64; rewrite wrap_u64 by done; by rewrite Z.shiftl_mul_pow2 by lia
    | by rewrite Z.shiftr_div_pow2 by lia ].
Qed.

Lemma compare_val_arch sew funct6 a b :
  is_width sew = true -> uint sew a -> uint sew b ->
  compare_val sew funct6 a b = Arch.compare sew funct6 a b.
Proof.
  intros Hw Ha Hb. unfold compare_val, Arch.compare. by rewrite !signed_element_signed by done.
Qed.

Lemma multiply_divide_val_arch sew funct6 a b :
  is_width sew = true -> uint sew a -> uint sew b ->
  agrees sew (multiply_divide_val sew funct6 a b) (Arch.multiply_divide sew funct6 a b)
    (fun x y => wrap sew x = wrap sew y).
Proof.
  intros Hw Ha Hb. pose proof (width_range sew Hw) as Hr.
  unfold multiply_divide_val, Arch.multiply_divide, agrees. cbv zeta. rewrite !signed_element_signed by done.
  rewrite element_zero by done.
  repeat (case_match; simplify_eq; try done); rewrite ?wrap_minus_one, ?wrap_u64, ?Z.shiftr_div_pow2 by (done || lia); try done.
  - rewrite wrap_uint; [done|]. rewrite <- wrap_minus_one by done. apply Z.mod_pos_bound, Z.pow_pos_nonneg; lia.
  - change U64_MAX with (u64 (-1)). rewrite wrap_u64, wrap_minus_one by done. done.
  - by apply wrap_u64.
Qed.

Lemma madd_val_arch sew funct6 source operand old :
  is_width sew = true ->
  agrees sew (madd_val funct6 source operand old) (Arch.multiply_add funct6 source operand old)
    (fun x y => wrap sew x = wrap sew y).
Proof.
  intros Hw. unfold madd_val, Arch.multiply_add, agrees, add64, sub64, mul64. cbv zeta.
  assert (forall x y, u64 (u64 x + y) = u64 (x + y)) as Hadd by (intros; apply Zplus_mod_idemp_l).
  assert (forall x y, u64 (x - u64 y) = u64 (x - y)) as Hsub by (intros; apply Zminus_mod_idemp_r).
  repeat (case_match; simplify_eq; try done); rewrite ?Hadd, ?Hsub; by apply wrap_u64.
Qed.

(** ** Fixed-point rounding *)

Lemma bit_mod x n : 0 <= n -> (x .>> n) .& 1 = (x / 2 ^ n) mod 2.
Proof. intros Hn. rewrite (land_ones_lit _ _ 1) by done. by rewrite Z.shiftr_div_pow2. Qed.

(** The increment the source adds to the truncated quotient is the rounding. *)
Lemma round_increment x s vxrm :
  0 <= s -> uint 2 vxrm -> x / 2 ^ s + fixed_round_increment x s vxrm = Arch.round vxrm x s.
Proof.
  intros Hs Hv. unfold fixed_round_increment, Arch.round. cbv zeta.
  assert (vxrm .& 3 = vxrm) as -> by (rewrite (land_ones_lit _ _ 2) by done; by apply Z.mod_small).
  destruct (Z.eqb_spec s 0) as [->|Hne].
  { change (2 ^ 0) with 1. rewrite Z.mod_1_r, Z.div_1_r. repeat case_match; lia. }
  rewrite !bit_mod by lia. replace ((1 .<< s) - 1) with (Z.ones s) by (rewrite Z.ones_equiv, Z.shiftl_1_l; lia).
  rewrite <- Z.div2_spec, Z.div2_div.
  assert (2 ^ s = 2 * 2 ^ (s - 1)) as H2 by (rewrite <- Z.pow_succ_r by lia; f_equal; lia).
  assert (0 < 2 ^ (s - 1)) as Hp by (apply Z.pow_pos_nonneg; lia).
  assert (Z.ones s / 2 = Z.ones (s - 1)) as -> by (rewrite !Z.ones_equiv, H2; zlia).
  rewrite !Z.land_ones by lia. set (h := 2 ^ (s - 1)) in *. rewrite H2.
  pose proof (Z.div_mod x (2 * h) ltac:(lia)) as Hx. pose proof (Z.mod_pos_bound x (2 * h) ltac:(lia)) as Hr.
  set (q := x / (2 * h)) in *. set (r := x mod (2 * h)) in *.
  assert ((x / h) mod 2 = if h <=? r then 1 else 0) as Hbit.
  { assert (x / h = 2 * q + (if h <=? r then 1 else 0)) as ->.
    { symmetry. apply (Z.div_unique x h _ (if h <=? r then r - h else r)); destruct (Z.leb_spec h r); lia. }
    destruct (h <=? r); zlia. }
  assert (r mod h = if h <=? r then r - h else r) as Hlow.
  { destruct (Z.leb_spec h r); [|apply Z.mod_small; lia].
    rewrite <- (Z.mod_small (r - h) h) by lia. by rewrite <- (Z_mod_plus_full (r - h) 1), Z.mul_1_l, Z.sub_add. }
  rewrite Hbit, Hlow, Zmod_even, <- Z.negb_even. clearbody q r h. clear Hx Hbit Hlow H2.
  destruct (vxrm =? 0); [destruct (Z.leb_spec h r), (Z.leb_spec (2 * h) (2 * r)); lia|].
  destruct (vxrm =? 1).
  - destruct (Z.leb_spec h r); [|rewrite (proj2 (Z.ltb_lt (2 * r) (2 * h))) by lia; apply Z.add_0_r].
    rewrite (proj2 (Z.ltb_ge (2 * r) (2 * h))) by lia.
    destruct (Z.eqb_spec (r - h) 0), (Z.ltb_spec (2 * h) (2 * r)); try lia; destruct (Z.even q);
      lazymatch goal with |- _ + ?e = _ => let v := eval vm_compute in e in change e with v end; lia.
  - destruct (vxrm =? 2); [lia|]. destruct (Z.eqb_spec r 0), (Z.even q); cbn; lia.
Qed.

(** [x] is small enough that the rounded value is not truncated. *)
Lemma round_bound x s vxrm :
  0 <= s -> uint 2 vxrm -> x / 2 ^ s <= Arch.round vxrm x s <= x / 2 ^ s + 1.
Proof. intros Hs Hv. unfold Arch.round. cbv zeta. repeat case_match; lia. Qed.

Lemma quotient_bound x s : 0 <= s -> - Z.abs x <= x / 2 ^ s <= Z.abs x.
Proof.
  intros Hs. assert (1 <= 2 ^ s) by (change 1 with (2 ^ 0); apply Z.pow_le_mono_r; lia).
  pose proof (Z.div_mod x (2 ^ s) ltac:(lia)). pose proof (Z.mod_pos_bound x (2 ^ s) ltac:(lia)). nia.
Qed.

Lemma increment_u128 x s vxrm :
  0 <= s < 128 -> fixed_round_increment (u128 x) s vxrm = fixed_round_increment x s vxrm.
Proof.
  intros Hs. unfold fixed_round_increment. cbv zeta. destruct (Z.eqb_spec s 0) as [->|Hne]; [done|].
  assert (forall n, 0 <= n < 128 -> (u128 x .>> n) .& 1 = (x .>> n) .& 1) as Hb.
  { intros n Hn. apply Z.bits_inj'. intros k Hk. rewrite !Z.land_spec, !Z.shiftr_spec by done.
    change 1 with (Z.ones 1). destruct (decide (k < 1)).
    - unfold u128, wrap. by rewrite Z.mod_pow2_bits_low by lia.
    - by rewrite Z.ones_spec_high, !andb_false_r by lia. }
  rewrite !Hb by lia.
  assert (u128 x .& ((1 .<< s) - 1) = x .& ((1 .<< s) - 1)) as ->; [|done].
  replace ((1 .<< s) - 1) with (Z.ones s) by (rewrite Z.ones_equiv, Z.shiftl_1_l; lia).
  rewrite !Z.land_ones by lia. apply wrap_narrow. lia.
Qed.

Lemma fixed_round_signed_round x s vxrm :
  0 <= s < 128 -> uint 2 vxrm -> Z.abs x <= 2 ^ 126 -> fixed_round_signed x s vxrm = Arch.round vxrm x s.
Proof.
  intros Hs Hv Hx. unfold fixed_round_signed. rewrite increment_u128 by done.
  rewrite Z.shiftr_div_pow2 by lia. rewrite round_increment by (done || lia).
  pose proof (round_bound x s vxrm ltac:(lia) Hv). pose proof (quotient_bound x s ltac:(lia)).
  unfold i128, signed. change (2 ^ (128 - 1)) with (2 * 2 ^ 126). change (2 ^ 128) with (4 * 2 ^ 126).
  assert (1 < 2 ^ 126) by done. rewrite Z.mod_small; lia.
Qed.

Lemma fixed_round_unsigned_round x s vxrm :
  0 <= s -> uint 2 vxrm -> 0 <= x < 2 ^ 127 -> fixed_round_unsigned x s vxrm = Arch.round vxrm x s.
Proof.
  intros Hs Hv Hx. unfold fixed_round_unsigned. rewrite Z.shiftr_div_pow2 by lia.
  rewrite round_increment by done.
  pose proof (round_bound x s vxrm Hs Hv). pose proof (quotient_bound x s Hs).
  assert (0 <= x / 2 ^ s) by (apply Z.div_pos; [lia|apply Z.pow_pos_nonneg; lia]).
  unfold u128. apply wrap_uint. unfold uint. change (2 ^ 128) with (2 * 2 ^ 127). lia.
Qed.

(** The fixed-point instructions: averages, scaling shifts, clips. *)
Lemma average_val_arch sew vxrm sgn subtract a b :
  is_width sew = true -> uint sew a -> uint sew b -> uint 2 vxrm ->
  wrap sew (average_val sew vxrm sgn subtract a b)
  = wrap sew (Arch.round vxrm (if subtract then Arch.value sgn sew a - Arch.value sgn sew b
                                else Arch.value sgn sew a + Arch.value sgn sew b) 1).
Proof.
  intros Hw Ha Hb Hv. pose proof (width_range sew Hw) as Hr. unfold average_val, signed_narrow, Arch.value.
  rewrite !signed_element_signed by done. pose proof (element_range sew a Hw). pose proof (element_range sew b Hw).
  assert (2 ^ (sew - 1) <= 2 ^ 63) by (apply Z.pow_le_mono_r; lia).
  assert (2 ^ sew <= 2 ^ 64) by (apply Z.pow_le_mono_r; lia). unfold uint in Ha, Hb.
  assert (2 ^ 66 <= 2 ^ 126) by (apply Z.pow_le_mono_r; lia). change (2 ^ 66) with (8 * 2 ^ 63) in *.
  change (2 ^ 64) with (2 * 2 ^ 63) in *.
  destruct sgn, subtract; rewrite wrap_u64 by done;
    first [rewrite fixed_round_signed_round by (done || lia); done
          |rewrite fixed_round_unsigned_round; [done|lia|done|change (2 ^ 127) with (2 * 2 ^ 126); lia]].
Qed.
