(* ===== verification/VecIntSpec.v ===== *)
(** * What the vector integer instructions compute

    Every instruction of the single-width, widening and narrowing families
    computes, for each active element, a function of the operands as they were
    before the instruction, and changes nothing else.  The single-width
    arithmetic is the architecture's, stated on signed and unsigned values. *)

From S2P Require Import Prelude Exception Decode Compressed Csr State Bus Mmu Trap CsrOps.
From S2P Require Import Vector SoftFp Exec Step VecBase VecInt VecFloat VecMem.
From S2P Require Import Wf SoftFpSpec RvcEquiv SafeMem SafeCsr SafeExec VecSafe VecOk VecMemOk VecElem ExecSpec VecArch.

(** ** The byte paths

    Unmasked bitwise operations run over the register bytes eight at a time.
    Bit by bit, that is what the element loop would have done, at any element
    width. *)

(** ** Bits of the register file *)

Definition bit_at (v : VectorState) (p : Z) : bool :=
  Z.testbit (default 0 (byte_at v (p / 8))) (p mod 8).

Lemma from_le_bytes_testbit l k :
  Forall (uint 8) l -> 0 <= k ->
  Z.testbit (from_le_bytes l) k = Z.testbit (default 0 (l !! Z.to_nat (k / 8))) (k mod 8).
Proof.
  intros Hl. revert k. induction Hl as [|b l Hb _ IH]; intros k Hk; cbn [from_le_bytes].
  - by rewrite lookup_nil, !Z.bits_0.
  - destruct (decide (k < 8)) as [Hlt|Hge].
    + rewrite Z.div_small, Z.mod_small by lia.
      rewrite <- (Z.mod_pow2_bits_low _ 8) by lia. f_equal.
      change (default 0 ((b :: l) !! Z.to_nat 0)) with b. unfold uint in Hb. zlia.
    + replace (Z.to_nat (k / 8)) with (S (Z.to_nat ((k - 8) / 8))) by zlia.
      change ((b :: l) !! S (Z.to_nat ((k - 8) / 8))) with (l !! Z.to_nat ((k - 8) / 8)).
      replace (k mod 8) with ((k - 8) mod 8) by zlia. rewrite <- IH by lia.
      replace (from_le_bytes l) with ((b + 2 ^ 8 * from_le_bytes l) .>> 8) at 2
        by (rewrite Z.shiftr_div_pow2 by lia; unfold uint in Hb; zlia).
      rewrite Z.shiftr_spec by lia. f_equal. lia.
Qed.

Lemma elem_testbit v reg i eew k :
  regs_wf v.(vregs) -> element_ok reg i eew -> 0 <= k < eew ->
  Z.testbit (elem v reg i eew) k = bit_at v (8 * first_byte reg i eew + k).
Proof.
  intros Hv He Hk. unfold elem. rewrite read_element_bytes by done. cbn [from_option id].
  pose proof (flat_bytes v Hv) as Hf. rewrite from_le_bytes_testbit by (lia || by apply Forall_take, Forall_drop).
  destruct He as (Hw & Hr & Hi & _). destruct (width_bytes eew Hw) as [Hp He8].
  assert (0 <= first_byte reg i eew) by (unfold first_byte; nia).
  rewrite lookup_take_lt by zlia. rewrite lookup_drop. unfold bit_at, byte_at.
  replace ((8 * first_byte reg i eew + k) / 8) with (first_byte reg i eew + k / 8) by zlia.
  replace ((8 * first_byte reg i eew + k) mod 8) with (k mod 8) by zlia. rewrite Z2Nat.inj_add by zlia. done.
Qed.

Lemma uint_bits_eq w x y :
  0 <= w -> uint w x -> uint w y -> (forall k, 0 <= k < w -> Z.testbit x k = Z.testbit y k) -> x = y.
Proof.
  intros Hw Hx Hy Hb. rewrite <- (wrap_uint w x Hx), <- (wrap_uint w y Hy). unfold wrap.
  apply Z.bits_inj'. intros k Hk. destruct (decide (k < w)).
  - rewrite !Z.mod_pow2_bits_low by lia. apply Hb. lia.
  - by rewrite !Z.mod_pow2_bits_high by lia.
Qed.

Lemma first_byte_8 r i : first_byte r i 8 = r * 16 + i.
Proof. unfold first_byte. change (8 / 8) with 1. lia. Qed.

Lemma first_byte_64 r i : first_byte r i 64 = r * 16 + 8 * i.
Proof. unfold first_byte. change (64 / 8) with 8. lia. Qed.

Lemma bit_position r p : (8 * (r * 16) + p) / 8 = r * 16 + p / 8.
Proof. zlia. Qed.

(** ** Bitwise operations *)

Definition bit_op (funct6 : Z) (a b : bool) : bool :=
  if funct6 =? 0x09 then a && b else if funct6 =? 0x0a then a || b else xorb a b.

Lemma bitwise_testbit funct6 a b k :
  Z.testbit (bitwise_val funct6 a b) k = bit_op funct6 (Z.testbit a k) (Z.testbit b k).
Proof.
  unfold bitwise_val, bit_op. destruct (funct6 =? 9); [apply Z.land_spec|].
  destruct (funct6 =? 10); [apply Z.lor_spec|apply Z.lxor_spec].
Qed.

Lemma bitwise_uint funct6 w a b : 0 <= w -> uint w a -> uint w b -> uint w (bitwise_val funct6 a b).
Proof.
  intros Hw Ha Hb. unfold bitwise_val. destruct (funct6 =? 9); [apply uint_land_l; [done|done|apply Hb]|].
  destruct (funct6 =? 10); [by apply uint_lor|by apply uint_lxor].
Qed.

(** A chunk is an element of its width. *)
Lemma bitwise_chunk_element funct6 d s2 s1 w i s :
  is_width w = true ->
  bitwise_chunk funct6 d s2 s1 (w / 8) (w / 8 * i) s
  = (a <- get_element s2 i w ;; b <- get_element s1 i w ;; put_element d i w (bitwise_val funct6 a b)) s.
Proof.
  intros Hw. unfold bitwise_chunk, get_element, put_element, read_element, write_element, bind, vec, gets.
  rewrite Hw, (Z.mul_comm (w / 8) i). change VLEN_BYTES with 16.
  destruct (ptr_read (vector s) (s2 * 16 + i * (w / 8)) (w / 8)); [|done]. cbn [unwrap ret fmap option_fmap option_map].
  by destruct (ptr_read (vector s) (s1 * 16 + i * (w / 8)) (w / 8)).
Qed.

Section Bitwise.
Context (c : Cpu) (v0 : VectorState) (funct6 d s2 s1 n span : Z).
Context (Hv0 : regs_wf v0.(vregs)) (Hn : 0 <= n <= 16 * span) (Hn128 : n <= 128) (Hspan : 1 <= span).
Context (Hd : 0 <= d /\ d + span <= 32) (H2 : 0 <= s2 /\ s2 + span <= 32) (H1 : 0 <= s1 /\ s1 + span <= 32).
Context (Ha2 : d = s2 \/ d + span <= s2 \/ s2 + span <= d) (Ha1 : d = s1 \/ d + span <= s1 \/ s1 + span <= d).

Abbreviation all := (fun _ : Z => true).

(** One of the two loops. *)
Lemma bitwise_loop v w start stop bytes offset :
  is_width w = true -> bytes = w / 8 -> (forall i, offset i = w / 8 * i) -> regs_wf v.(vregs) -> 0 <= start -> stop * (w / 8) <= n ->
  exists v', for_range start stop (fun i _ => bitwise_chunk funct6 d s2 s1 bytes (offset i)) tt (set_vector v c)
             = (Ok tt, set_vector v' c)
    /\ elementwise v d w start stop all (fun i => bitwise_val funct6 (elem v s2 i w) (elem v s1 i w)) v'.
Proof using Hn Hd H2 H1 Ha2 Ha1 Hspan Hn128.
  intros Hw -> Ho Hv Hs Hb. destruct (width_bytes w Hw) as [Hp _].
  assert (forall r, 0 <= r /\ r + span <= 32 -> forall j, 0 <= j < stop -> element_ok r j w) as Hok.
  { intros r Hr j Hj. split_and!; [done|lia|lia|nia]. }
  assert (forall r, d = r \/ d + span <= r \/ r + span <= d -> trails d w r w stop) as Ht.
  { intros r Hr j Hj. unfold first_byte. destruct Hr as [->|[Hr|Hr]]; [right; lia|right; nia|left; nia]. }
  destruct (for_elements_elementwise c v d w start stop
    (fun i => bitwise_val funct6 (elem v s2 i w) (elem v s1 i w)) false Hv Hs (Hok d Hd) ltac:(done)
    (fun i _ => bitwise_chunk funct6 d s2 s1 (w / 8) (offset i)) (fun _ _ => tt) tt) as (v' & E & He).
  - nia.
  - intros j [] u Hj Hsj _ Hu. rewrite Ho, bitwise_chunk_element by done.
    pose proof (get_trailing c v d w start stop (fun i => bitwise_val funct6 (elem v s2 i w) (elem v s1 i w)) false
      Hv Hs (Hok d Hd) s2 w u j (Ht s2 Ha2) Hj Hsj (Hok s2 H2 j Hj) Hu) as E2.
    pose proof (get_trailing c v d w start stop (fun i => bitwise_val funct6 (elem v s2 i w) (elem v s1 i w)) false
      Hv Hs (Hok d Hd) s1 w u j (Ht s1 Ha1) Hj Hsj (Hok s1 H1 j Hj) Hu) as E1.
    unfold bind. rewrite E2, E1. by destruct (put_element _ _ _ _ (set_vector u c)) as [[[]| |] ?].
  - exists v'. split; [|done]. destruct (fold_active _ _ _ _ tt). exact E.
Qed.

(** The bits of the elements a loop wrote. *)
Lemma element_bits v v' w start stop p :
  is_width w = true -> regs_wf v.(vregs) -> 0 <= start -> stop * (w / 8) <= n ->
  elementwise v d w start stop all (fun i => bitwise_val funct6 (elem v s2 i w) (elem v s1 i w)) v' ->
  w * start <= p < w * stop ->
  bit_at v' (8 * (d * 16) + p)
  = bit_op funct6 (bit_at v (8 * (s2 * 16) + p)) (bit_at v (8 * (s1 * 16) + p)).
Proof using Hn Hd H2 H1 Hspan Hn128.
  intros Hw Hv Hs Hb He Hp. destruct (width_bytes w Hw) as [Hp0 Hw8].
  pose proof (Z.div_mod p w ltac:(lia)) as Hdm. pose proof (Z.mod_pos_bound p w ltac:(lia)) as Hm.
  set (i := p / w) in *. set (k := p mod w) in *. assert (start <= i < stop) as Hi by nia.
  assert (forall r, 0 <= r /\ r + span <= 32 -> element_ok r i w) as Hok.
  { intros r Hr. split_and!; [done|lia|lia|nia]. }
  assert (forall r, 8 * (r * 16) + p = 8 * first_byte r i w + k) as Hpos by (intros; unfold first_byte; nia).
  rewrite !Hpos. rewrite <- !elem_testbit by (done || apply He || auto).
  rewrite <- bitwise_testbit. f_equal. unfold elem at 1. rewrite (ew_elements _ _ _ _ _ _ _ _ He i Hi). cbn [from_option id].
  apply wrap_uint, bitwise_uint; [lia|apply elem_uint; auto|apply elem_uint; auto].
Qed.

(** The first loop leaves the later bits of the source groups. *)
Lemma source_bits v1 r p :
  (d = r \/ d + span <= r \/ r + span <= d) -> 0 <= r /\ r + span <= 32 ->
  elementwise v0 d 64 0 (n / 8) all (fun i => bitwise_val funct6 (elem v0 s2 i 64) (elem v0 s1 i 64)) v1 ->
  64 * (n / 8) <= p < 8 * n -> bit_at v1 (8 * (r * 16) + p) = bit_at v0 (8 * (r * 16) + p).
Proof using Hn Hd Hspan H1 H2 Ha1 Ha2.
  intros Ha Hr He Hp. unfold bit_at. rewrite (ew_bytes _ _ _ _ _ _ _ _ He); [done|zlia|].
  rewrite bit_position, !first_byte_64.
  pose proof (Z.div_le_lower_bound p 8 (8 * (n / 8)) ltac:(lia) ltac:(lia)).
  pose proof (Z.div_lt_upper_bound p 8 n ltac:(lia) ltac:(lia)).
  destruct Ha as [->|[|]]; lia.
Qed.

(** Both loops: every bit below the byte count is the operation on the bits. *)
Lemma bitwise_bytes_bits :
  exists v, bitwise_bytes funct6 d s2 s1 n (set_vector v0 c) = (Ok tt, set_vector v c)
    /\ regs_wf v.(vregs) /\ v = set_vregs v.(vregs) v0
    /\ (forall o, 0 <= o -> ~ d * 16 <= o < d * 16 + n -> byte_at v o = byte_at v0 o)
    /\ (forall p, 0 <= p < 8 * n ->
        bit_at v (8 * (d * 16) + p)
        = bit_op funct6 (bit_at v0 (8 * (s2 * 16) + p)) (bit_at v0 (8 * (s1 * 16) + p))).
Proof using Hn Hd H2 H1 Ha2 Ha1 Hspan Hn128 Hv0.
  pose proof (Z.div_pos n 8 ltac:(lia) ltac:(lia)) as Hq. pose proof (Z.mul_div_le n 8 ltac:(lia)) as Hq8.
  pose proof (Z.mul_succ_div_gt n 8 ltac:(lia)) as Hq9.
  destruct (bitwise_loop v0 64 0 (n / 8) 8 (fun i => 8 * i)) as (v1 & E1 & He1); [done..|lia|change (64 / 8) with 8; lia|].
  destruct (bitwise_loop v1 8 (8 * (n / 8)) n 1 (fun i => i)) as (v2 & E2 & He2);
    [done|done|intros; change (8 / 8) with 1; lia|apply He1|lia|change (8 / 8) with 1; lia|].
  exists v2. split_and!.
  - unfold bitwise_bytes. unfold bind at 1. by rewrite E1.
  - apply He2.
  - rewrite (ew_rest _ _ _ _ _ _ _ _ He2). by rewrite (ew_rest _ _ _ _ _ _ _ _ He1).
  - intros o Ho Hout. rewrite (ew_bytes _ _ _ _ _ _ _ _ He2); [|done|rewrite !first_byte_8; lia].
    apply He1; [done|rewrite !first_byte_64; lia].
  - intros p Hp. destruct (decide (p < 64 * (n / 8))) as [Hlo|Hhi].
    + assert (bit_at v2 (8 * (d * 16) + p) = bit_at v1 (8 * (d * 16) + p)) as ->.
      { pose proof (Z.div_lt_upper_bound p 8 (8 * (n / 8)) ltac:(lia) ltac:(lia)).
        pose proof (Z.div_pos p 8 ltac:(lia) ltac:(lia)).
        unfold bit_at. rewrite bit_position.
        rewrite (ew_bytes _ _ _ _ _ _ _ _ He2); [done|lia|rewrite !first_byte_8; lia]. }
      apply (element_bits v0 v1 64 0 (n / 8)); [done|done|done|change (64 / 8) with 8; lia|done|lia].
    + assert (8 * (n / 8) <= p / 8) by (apply Z.div_le_lower_bound; lia).
      rewrite (element_bits v1 v2 8 (8 * (n / 8)) n p); [|done|apply He1|lia|change (8 / 8) with 1; lia|done|lia].
      by rewrite !(source_bits v1) by (done || lia).
Qed.

(** At an element width: the elements are the operation on the elements. *)
Lemma bitwise_bytes_elementwise w stop :
  is_width w = true -> n = stop * (w / 8) ->
  exists v, bitwise_bytes funct6 d s2 s1 n (set_vector v0 c) = (Ok tt, set_vector v c)
    /\ elementwise v0 d w 0 stop all (fun i => bitwise_val funct6 (elem v0 s2 i w) (elem v0 s1 i w)) v.
Proof using Hn Hd H2 H1 Ha2 Ha1 Hspan Hn128 Hv0.
  intros Hw Hnw. destruct (width_bytes w Hw) as [Hp Hw8].
  destruct bitwise_bytes_bits as (v & E & Hv & Hrest & Hout & Hbits).
  exists v. split; [done|]. split; [done|done| |].
  - intros o Ho Ho'. apply Hout; [done|]. unfold first_byte in Ho'. lia.
  - intros i Hi. assert (forall r, 0 <= r /\ r + span <= 32 -> element_ok r i w) as Hok.
    { intros r Hr. split_and!; [done|lia|lia|nia]. }
    rewrite elem_read by auto. f_equal. pose proof (wrap_uint w) as Hwr.
    apply (uint_bits_eq w); [lia|by apply elem_uint; auto|apply Z.mod_pos_bound; lia|].
    intros k Hk. unfold wrap. rewrite Z.mod_pow2_bits_low by lia. rewrite bitwise_testbit, !elem_testbit by auto.
    assert (forall r, 8 * first_byte r i w + k = 8 * (r * 16) + (w * i + k)) as Hpos by (intros; unfold first_byte; nia).
    rewrite !Hpos. apply Hbits. nia.
Qed.
End Bitwise.

(** ** Operands and results *)

(** The number of elements an instruction processes. *)
Definition body_length (cfg : VectorConfig) (c : Cpu) : Z := Z.min c.(vector).(vl) cfg.(vlmax).

(** The hart after an instruction that wrote the elements [f]. *)
Definition writes (cfg : VectorConfig) (predicated : bool) (reg eew : Z) (f : Z -> Z) (c : Cpu)
    (saturated : bool) (c' : Cpu) : Prop :=
  exists v, elementwise c.(vector) reg eew c.(vector).(vstart) (body_length cfg c)
              (active predicated c.(vector)) f v
    /\ c' = set_vector (set_vstart 0 (set_vxsat (c.(vector).(vxsat) || saturated) v)) (vector_dirty c).

(** The elements that take part, and whether one of them saturates. *)
Definition some_active (cfg : VectorConfig) (predicated : bool) (c : Cpu) (p : Z -> bool) : bool :=
  existsb (fun i => active predicated c.(vector) i && p i)
    (seqZ c.(vector).(vstart) (body_length cfg c - c.(vector).(vstart))).

Definition source (c : Cpu) (reg i eew : Z) : Z := elem c.(vector) reg i eew.

(** vs1 or rs1. *)
Definition right_operand (vector_rhs : bool) (c : Cpu) (reg i eew : Z) : Z :=
  if vector_rhs then source c reg i eew else xr c reg.

(** A step of the loop reads every operand as it was before the instruction. *)
Record reads (c : Cpu) (j : Z) (srcs : list (Z * Z)) (s : Cpu) : Prop := {
  reads_src reg eew : In (reg, eew) srcs -> get_element reg j eew s = (Ok (source c reg j eew), s);
  reads_x i : x_reg i s = (Ok (xr c i), s);
  reads_vxrm : vxrm_now s = (Ok c.(vector).(vxrm), s)
}.

Lemma set_vector_dirty c : set_vector c.(vector) (vector_dirty c) = vector_dirty c.
Proof.
  assert (vector (vector_dirty c) = vector c) as <- by (unfold vector_dirty; by destruct (sys c)).
  by destruct (vector_dirty c).
Qed.

Lemma xregs_dirty c : xregs (vector_dirty c) = xregs c.
Proof. unfold vector_dirty. by destruct (sys c). Qed.

Section Elements.
Context (m : bool) (cfg : VectorConfig) (c : Cpu) (Hc : vinv m cfg c).
Context (insn : Z) (reg eew : Z) (f : Z -> Z) (srcs : list (Z * Z)).
Context (Hok : forall j, 0 <= j < cfg.(vlmax) -> element_ok reg j eew).
Context (Hm : masked insn = true -> 1 <= reg).
Context (Hsrc : forall r e, In (r, e) srcs ->
  trails reg eew r e cfg.(vlmax) /\ forall j, 0 <= j < cfg.(vlmax) -> element_ok r j e).

Lemma body_bounds : 0 <= c.(vector).(vstart) /\ 0 <= body_length cfg c <= cfg.(vlmax) /\ cfg.(vlmax) <= 128.
Proof using Hc.
  pose proof (decoded_vlmax cfg (vinv_decoded m cfg c Hc)). destruct Hc as [[Hwf _] _].
  pose proof (wf_vl _ (wf_vector _ Hwf)) as [? _]. pose proof (wf_vstart _ (wf_vector _ Hwf)) as [? _].
  unfold body_length. lia.
Qed.

(** The loop and what follows it. *)
Lemma run_elements {A} (body : Z -> A -> Hart Cpu A) g acc (k : A -> Hart Cpu unit) :
  (forall j acc s, 0 <= j < body_length cfg c -> reads c j srcs s ->
     body j acc s = (put_element reg j eew (f j) ;;; ret (g j acc)) s) ->
  exists v, (start <- vstart_now ;; vl <- active_length cfg ;; mark_dirty ;;;
             acc <- for_elements (masked insn) start vl body acc ;; k acc) c
    = k (fold_active (Z.to_nat (body_length cfg c - c.(vector).(vstart))) c.(vector).(vstart)
           (active (masked insn) c.(vector)) g acc) (set_vector v (vector_dirty c))
    /\ elementwise c.(vector) reg eew c.(vector).(vstart) (body_length cfg c)
         (active (masked insn) c.(vector)) f v.
Proof using Hc Hok Hm Hsrc.
  intros Hb. destruct body_bounds as (Hs & Hl & Hx). pose proof (vregs_any m (Some cfg) c Hc) as Hv.
  destruct (for_elements_elementwise (vector_dirty c) c.(vector) reg eew c.(vector).(vstart) (body_length cfg c)
    f (masked insn) Hv Hs ltac:(intros; apply Hok; lia) Hm body g acc) as (v & E & He); [lia| |].
  - intros j acc' v Hj Hsj Ha Hu. apply Hb; [done|]. split.
    + intros r e Hin. destruct (Hsrc r e Hin) as [Ht Hro].
      apply (get_trailing (vector_dirty c) c.(vector) reg eew c.(vector).(vstart) (body_length cfg c) f (masked insn)
        Hv Hs ltac:(intros; apply Hok; lia)); [by eapply trails_le; [|apply Ht]; lia|lia|done|apply Hro; lia|done].
    + intros i. unfold x_reg, gets, xr. do 2 f_equal. cbn [xregs set_vector]. by rewrite xregs_dirty.
    + unfold vxrm_now, gets. cbn [vector set_vector]. by rewrite (ew_rest _ _ _ _ _ _ _ _ Hu).
  - exists v. split; [|done].
    unfold bind at 1, vstart_now, gets. unfold bind at 1, active_length, gets.
    unfold bind at 1, mark_dirty, modify. unfold bind at 1. fold (body_length cfg c).
    rewrite set_vector_dirty in E. by rewrite E.
Qed.

Lemma finish_run v c1 : finish_vector (set_vector v c1) = (Ok tt, set_vector (set_vstart 0 v) c1).
Proof using Type. done. Qed.

(** Instructions without saturation. *)
Lemma run_writes (body : Z -> unit -> Hart Cpu unit) :
  (forall j s, 0 <= j < body_length cfg c -> reads c j srcs s ->
     body j tt s = put_element reg j eew (f j) s) ->
  exists c', (start <- vstart_now ;; vl <- active_length cfg ;; mark_dirty ;;;
              for_elements (masked insn) start vl body tt ;;; finish_vector) c = (Ok tt, c')
    /\ writes cfg (masked insn) reg eew f c false c'.
Proof using Hc Hok Hm Hsrc.
  intros Hb. destruct (run_elements body (fun _ _ => tt) tt (fun _ => finish_vector)) as (v & E & He).
  - intros j [] s Hj Hr. rewrite Hb by done. unfold bind, ret. by destruct (put_element _ _ _ _ s) as [[[]| |] ?].
  - eexists. split; [exact E|]. exists v. split; [done|]. rewrite orb_false_r.
    assert (set_vxsat c.(vector).(vxsat) v = v) as ->; [|done].
    rewrite (ew_rest _ _ _ _ _ _ _ _ He). by destruct (vector c).
Qed.

(** Instructions that accumulate saturation. *)
Lemma run_saturates (body : Z -> bool -> Hart Cpu bool) (clip : Z -> bool) (k : bool -> Hart Cpu unit) :
  (forall acc s, k acc s = (saturate acc ;;; finish_vector) s) ->
  (forall j acc s, 0 <= j < body_length cfg c -> reads c j srcs s ->
     body j acc s = (put_element reg j eew (f j) ;;; ret (acc || clip j)) s) ->
  exists c', (start <- vstart_now ;; vl <- active_length cfg ;; mark_dirty ;;;
              acc <- for_elements (masked insn) start vl body false ;; k acc) c = (Ok tt, c')
    /\ writes cfg (masked insn) reg eew f c (some_active cfg (masked insn) c clip) c'.
Proof using Hc Hok Hm Hsrc.
  intros Hk Hb. destruct (run_elements body (fun j acc => acc || clip j) false k) as (v & E & He); [done|].
  rewrite Hk in E.
  eexists. split; [exact E|]. exists v. split; [done|]. rewrite fold_active_bool. cbn [orb].
  assert (vxsat v = vxsat c.(vector)) as <- by (by rewrite (ew_rest _ _ _ _ _ _ _ _ He)).
  assert (some_active cfg (masked insn) c clip
    = existsb (fun i => active (masked insn) c.(vector) i && clip i) (seqZ c.(vector).(vstart)
        (Z.of_nat (Z.to_nat (body_length cfg c - c.(vector).(vstart)))))) as ->; [|done].
  unfold some_active. destruct (decide (c.(vector).(vstart) <= body_length cfg c)) as [Hle|Hgt].
  - by rewrite Z2Nat.id by lia.
  - replace (Z.to_nat _) with 0%nat by lia. by rewrite !seqZ_nil by lia.
Qed.
End Elements.

Lemma writes_ext cfg pred reg eew f g c sat c' :
  (forall i, 0 <= i < body_length cfg c -> wrap eew (f i) = wrap eew (g i)) -> 0 <= c.(vector).(vstart) ->
  writes cfg pred reg eew f c sat c' -> writes cfg pred reg eew g c sat c'.
Proof.
  intros Hfg Hs (v & He & ->). exists v. split; [|done]. destruct He as [H1 H2 H3 H4]. split; [done..|].
  intros i Hi. rewrite H4 by done. destruct (active _ _ i); [|done]. by rewrite Hfg by lia.
Qed.

(** ** Legality *)

(** A register group of one-width operands: aligned to LMUL, and not v0 when
    the instruction is predicated by it. *)
Definition group_legal (cfg : VectorConfig) (insn reg : Z) : bool :=
  (reg mod register_span (lmul cfg) =? 0) && negb (masked insn && (reg =? 0)).

Definition single_legal (cfg : VectorConfig) (insn : Z) (vs2 vs1 : bool) : bool :=
  group_legal cfg insn (rd insn) && (negb vs2 || group_legal cfg insn (rs2 insn))
  && (negb vs1 || group_legal cfg insn (rs1 insn)).

Definition span_check (raw : Z) : bool :=
  match decode_vtype raw with
  | Some cfg => one_of (register_span (lmul cfg)) [1; 2; 4; 8] && ((lmul cfg).(num) <=? 8 * (lmul cfg).(den))
  | None => true
  end.

Lemma span_check_all : all_bits 8 0 span_check = true.
Proof. vm_compute. reflexivity. Qed.

Lemma span_facts cfg :
  decoded cfg ->
  (register_span (lmul cfg) = 1 \/ register_span (lmul cfg) = 2
   \/ register_span (lmul cfg) = 4 \/ register_span (lmul cfg) = 8)
  /\ (lmul cfg).(num) <= 8 * (lmul cfg).(den).
Proof.
  intros (raw & Hraw & E). pose proof (all_uint 8 _ span_check_all raw Hraw) as Hc. unfold span_check in Hc.
  rewrite E in Hc. unfold one_of in Hc. cbn [existsb] in Hc. lia.
Qed.

(** The bytes of a body fit its register group. *)
Definition bytes_check (raw : Z) : bool :=
  match decode_vtype raw with
  | Some cfg => (cfg.(vlmax) * (cfg.(sew) / 8) <=? 16 * register_span (lmul cfg))
                && (cfg.(vlmax) * (cfg.(sew) / 8) <=? 128)
  | None => true
  end.

Lemma bytes_check_all : all_bits 8 0 bytes_check = true.
Proof. vm_compute. reflexivity. Qed.

Lemma body_bytes cfg n :
  decoded cfg -> 0 <= n <= cfg.(vlmax) ->
  0 <= n * (cfg.(sew) / 8) <= 16 * register_span (lmul cfg) /\ n * (cfg.(sew) / 8) <= 128.
Proof.
  intros Hd Hn. destruct (width_bytes cfg.(sew)) as [Hp Hw]; [by apply fits_lmul|].
  destruct Hd as (raw & Hraw & E). pose proof (all_uint 8 _ bytes_check_all raw Hraw) as Hc.
  unfold bytes_check in Hc. rewrite E in Hc. nia.
Qed.

Lemma validate_aligned cfg reg :
  decoded cfg -> uint 5 reg ->
  validate_group reg (lmul cfg) 1 = (reg mod register_span (lmul cfg) =? 0).
Proof.
  intros Hd Hr. destruct (span_facts cfg Hd) as [Hs Hn]. unfold validate_group. cbv zeta. unfold uint in Hr.
  rewrite !Z.mul_1_l, Z.mul_1_r. rewrite (proj2 (Z.leb_le _ _) Hn). unfold VREG_COUNT.
  assert ((reg mod register_span (lmul cfg) =? 0) = true -> reg + register_span (lmul cfg) <= 32) as He
    by (intros Hm%Z.eqb_eq; destruct Hs as [E|[E|[E|E]]]; rewrite E in *; zlia).
  destruct (Z.eqb_spec (register_span (lmul cfg)) 1) as [E|_].
  - rewrite E, Z.mod_1_r in *. cbn. lia.
  - cbn [negb andb orb Z.eqb]. destruct (_ mod _ =? 0); [|done]. specialize (He eq_refl). cbn [andb]. lia.
Qed.

Lemma overlap_v0 cfg reg :
  decoded cfg -> uint 5 reg -> groups_overlap reg (lmul cfg) 1 0 MASK_REGISTER_RATIO = (reg =? 0).
Proof.
  intros Hd Hr. destruct (span_facts cfg Hd) as [Hs _]. unfold groups_overlap, uint in *.
  change (register_span MASK_REGISTER_RATIO) with 1. lia.
Qed.

Lemma illegal_group cfg insn reg :
  decoded cfg -> uint 5 reg ->
  group_legal cfg insn reg
  = validate_group reg (lmul cfg) 1 && negb (masked_overlap insn reg (lmul cfg)).
Proof. intros Hd Hr. unfold group_legal, masked_overlap. by rewrite validate_aligned, overlap_v0. Qed.

Lemma masked_source_overlap cfg insn reg :
  decoded cfg -> masked_source insn reg (lmul cfg) cfg.(sew) = masked_overlap insn reg (lmul cfg).
Proof.
  intros Hd. unfold masked_source, masked_overlap, mixed_width_sources_overlap.
  destruct (fits_lmul cfg Hd) as [Hw _]. pose proof (width_range _ Hw).
  rewrite (proj2 (Z.eqb_neq cfg.(sew) 1)) by lia. done.
Qed.

Section SingleWidth.
Context (m : bool) (cfg : VectorConfig) (c : Cpu) (Hc : vinv m cfg c) (insn : Z) (Hinsn : uint 32 insn).

Lemma cfg_decoded : decoded cfg.
Proof using Hc. by apply (vinv_decoded m cfg c). Qed.

Lemma integer_groups_run vs2 vs1 :
  integer_groups insn cfg false vs2 vs1 c
  = (if single_legal cfg insn vs2 vs1 then Ok tt else Err (IllegalInstruction insn), c).
Proof using Hc.
  pose proof cfg_decoded as Hd. unfold integer_groups, single_legal. cbv zeta.
  rewrite !masked_source_overlap, !illegal_group by auto with rv.
  destruct (validate_group (rd insn) _ 1), (masked_overlap insn (rd insn) _),
    (validate_group (rs2 insn) _ 1), (masked_overlap insn (rs2 insn) _),
    (validate_group (rs1 insn) _ 1), (masked_overlap insn (rs1 insn) _), vs2, vs1; reflexivity.
Qed.

(** The group operands of a legal instruction. *)
Lemma legal_elements reg :
  uint 5 reg -> group_legal cfg insn reg = true ->
  (forall j, 0 <= j < cfg.(vlmax) -> element_ok reg j cfg.(sew)) /\ (masked insn = true -> 1 <= reg).
Proof using Hc.
  intros Hr Hg. pose proof cfg_decoded as Hd. pose proof Hg as Hg'. rewrite illegal_group in Hg by done.
  apply andb_true_iff in Hg as [Hv _]. split.
  - intros j Hj. by apply (group_element cfg cfg.(sew) (lmul cfg)); [apply fits_lmul|..|apply Hr|].
  - intros Hm. unfold group_legal in Hg'. rewrite Hm in Hg'. unfold uint in Hr. lia.
Qed.

Lemma legal_trailing d reg :
  uint 5 d -> uint 5 reg -> group_legal cfg insn d = true -> group_legal cfg insn reg = true ->
  trails d cfg.(sew) reg cfg.(sew) cfg.(vlmax).
Proof using Hc.
  intros Hd5 Hr Hgd Hg. pose proof cfg_decoded as Hd. rewrite illegal_group in Hgd, Hg by done.
  apply andb_true_iff in Hgd as [Hvd _], Hg as [Hv _].
  apply (legal_trails cfg d (lmul cfg) _ reg (lmul cfg) _); auto using fits_lmul.
  - apply sized_facts, Hd.
  - apply sized_facts, Hd.
  - apply (decoded_vlmax cfg Hd).
  - unfold destination_source_overlap_legal. rewrite Z.eqb_refl. by destruct (negb _).
Qed.

Definition single_sources (vs2 vs1 : bool) : list (Z * Z) :=
  [(rd insn, cfg.(sew))] ++ (if vs2 then [(rs2 insn, cfg.(sew))] else [])
  ++ (if vs1 then [(rs1 insn, cfg.(sew))] else []).

Lemma single_sources_ok vs2 vs1 r e :
  single_legal cfg insn vs2 vs1 = true -> In (r, e) (single_sources vs2 vs1) ->
  trails (rd insn) cfg.(sew) r e cfg.(vlmax) /\ forall j, 0 <= j < cfg.(vlmax) -> element_ok r j e.
Proof using Hc.
  intros [[Hgd Hg2]%andb_true_iff Hg1]%andb_true_iff. unfold single_sources.
  rewrite !in_app_iff. intros [[[= <- <-]|[]]|[Hin|Hin]].
  - split; [apply legal_trailing; auto with rv|by apply legal_elements; auto with rv].
  - destruct vs2; [|done]. destruct Hin as [[= <- <-]|[]].
    split; [apply legal_trailing; auto with rv|by apply legal_elements; auto with rv].
  - destruct vs1; [|done]. destruct Hin as [[= <- <-]|[]].
    split; [apply legal_trailing; auto with rv|by apply legal_elements; auto with rv].
Qed.

(** What an instruction of the family does: refuse, or write its elements. *)
Definition outcome_is (legal : bool) (reg eew : Z) (f : Z -> Z) (saturated : bool)
    (r : outcome Exception unit * Cpu) : Prop :=
  if legal then exists c', r = (Ok tt, c') /\ writes cfg (masked insn) reg eew f c saturated c'
  else r = (Err (IllegalInstruction insn), c).

Lemma single_width vs2 vs1 body f :
  (forall j s, 0 <= j < body_length cfg c -> single_legal cfg insn vs2 vs1 = true ->
     reads c j (single_sources vs2 vs1) s -> body j tt s = put_element (rd insn) j cfg.(sew) (f j) s) ->
  outcome_is (single_legal cfg insn vs2 vs1) (rd insn) cfg.(sew) f false
    ((integer_groups insn cfg false vs2 vs1 ;;;
      start <- vstart_now ;; vl <- active_length cfg ;; mark_dirty ;;;
      for_elements (masked insn) start vl body tt ;;; finish_vector) c).
Proof using Hc.
  intros Hb. unfold outcome_is. pose proof (integer_groups_run vs2 vs1) as E.
  destruct (single_legal cfg insn vs2 vs1) eqn:Hl; unfold bind at 1; rewrite E; [|done]. clear E.
  pose proof Hl as [[Hgd _]%andb_true_iff _]%andb_true_iff.
  destruct (legal_elements (rd insn) ltac:(auto with rv) Hgd) as [Hok Hm].
  apply (run_writes m cfg c Hc insn (rd insn) cfg.(sew) f (single_sources vs2 vs1)); [done..| |].
  - intros r e. by apply single_sources_ok.
  - intros j s Hj. by apply Hb.
Qed.

Lemma single_width_saturates vs2 vs1 body f clip k :
  (forall acc s, k acc s = (saturate acc ;;; finish_vector) s) ->
  (forall j acc s, 0 <= j < body_length cfg c -> single_legal cfg insn vs2 vs1 = true ->
     reads c j (single_sources vs2 vs1) s ->
     body j acc s = (put_element (rd insn) j cfg.(sew) (f j) ;;; ret (acc || clip j)) s) ->
  outcome_is (single_legal cfg insn vs2 vs1) (rd insn) cfg.(sew) f (some_active cfg (masked insn) c clip)
    ((integer_groups insn cfg false vs2 vs1 ;;;
      start <- vstart_now ;; vl <- active_length cfg ;; mark_dirty ;;;
      acc <- for_elements (masked insn) start vl body false ;; k acc) c).
Proof using Hc.
  intros Hk Hb. unfold outcome_is. pose proof (integer_groups_run vs2 vs1) as E.
  destruct (single_legal cfg insn vs2 vs1) eqn:Hl; unfold bind at 1; rewrite E; [|done]. clear E.
  pose proof Hl as [[Hgd _]%andb_true_iff _]%andb_true_iff.
  destruct (legal_elements (rd insn) ltac:(auto with rv) Hgd) as [Hok Hm].
  apply (run_saturates m cfg c Hc insn (rd insn) cfg.(sew) f (single_sources vs2 vs1)); [done..| |done|].
  - intros r e. by apply single_sources_ok.
  - intros j acc s Hj. by apply Hb.
Qed.
End SingleWidth.

Lemma bind_run {S A B} (f : Hart S A) (k : A -> Hart S B) s a s' :
  f s = (Ok a, s') -> bind f k s = k a s'.
Proof. intros E. unfold bind. by rewrite E. Qed.

Lemma outcome_ext cfg c insn legal reg eew f g sat sat' r :
  (legal = true -> forall i, 0 <= i < body_length cfg c -> wrap eew (f i) = wrap eew (g i)) ->
  (legal = true -> sat = sat') -> 0 <= c.(vector).(vstart) ->
  outcome_is cfg c insn legal reg eew f sat r -> outcome_is cfg c insn legal reg eew g sat' r.
Proof.
  intros Hfg Hsat Hs. unfold outcome_is. destruct legal; [|done]. rewrite <- Hsat by done. intros (c' & -> & Hw). exists c'. split; [done|].
  by apply (writes_ext _ _ _ _ f); [by apply Hfg|done|].
Qed.

Lemma some_active_ext cfg pred c p q :
  0 <= c.(vector).(vstart) -> (forall i, 0 <= i < body_length cfg c -> p i = q i) ->
  some_active cfg pred c p = some_active cfg pred c q.
Proof.
  intros Hs Hpq. unfold some_active. assert (forall l, (forall i, In i l -> 0 <= i < body_length cfg c) ->
    existsb (fun i => active pred c.(vector) i && p i) l = existsb (fun i => active pred c.(vector) i && q i) l) as H.
  { induction l as [|x l IH]; intros Hl; [done|]. cbn [existsb]. rewrite IH by (intros; apply Hl; by right).
    by rewrite Hpq by (apply Hl; by left). }
  apply H. intros i Hi. apply list_elem_of_In, elem_of_seqZ in Hi. lia.
Qed.

(** ** The single-width instructions *)

Section Theorems.
Context (m : bool) (cfg : VectorConfig) (c : Cpu) (Hc : vinv m cfg c) (insn : Z) (Hinsn : uint 32 insn).

Lemma vstart_nonneg : 0 <= c.(vector).(vstart).
Proof using Hc. apply (body_bounds m cfg c Hc). Qed.

Lemma sew_width : is_width cfg.(sew) = true.
Proof using Hc. apply (fits_lmul cfg (cfg_decoded m cfg c Hc)). Qed.

Lemma vxrm_range : uint 2 c.(vector).(vxrm).
Proof using Hc. apply (wf_vxrm _ (wf_vector _ (proj1 (proj1 Hc)))). Qed.

(** Operands are element-sized. *)
Lemma source_uint reg i :
  uint 5 reg -> group_legal cfg insn reg = true -> 0 <= i < body_length cfg c ->
  uint cfg.(sew) (source c reg i cfg.(sew)).
Proof using Hc.
  intros Hr Hg Hi. destruct (body_bounds m cfg c Hc) as (_ & Hb & _).
  apply elem_uint; [apply (vregs_any m (Some cfg) c Hc)|].
  apply (legal_elements m cfg c Hc insn reg Hr Hg). lia.
Qed.

Lemma vs2_uint vs1 i :
  single_legal cfg insn true vs1 = true -> 0 <= i < body_length cfg c ->
  uint cfg.(sew) (source c (rs2 insn) i cfg.(sew)).
Proof using Hc.
  intros [[_ Hg]%andb_true_iff _]%andb_true_iff Hi. apply source_uint; [apply uint_rs2|exact Hg|done].
Qed.

Lemma wrap_range w x : is_width w = true -> uint w (wrap w x).
Proof using Type. intros Hw. pose proof (width_range w Hw). apply Z.mod_pos_bound, Z.pow_pos_nonneg; lia. Qed.

(** The second operand of the OPM forms, as the body reads it. *)
Lemma vector_or_scalar_run rhs vs2 j s :
  reads c j (single_sources cfg insn vs2 rhs) s ->
  vector_or_scalar rhs insn j cfg.(sew) (element_mask cfg.(sew)) s
  = (Ok (wrap cfg.(sew) (right_operand rhs c (rs1 insn) j cfg.(sew))), s).
Proof using Hc.
  intros Hr. unfold vector_or_scalar. rewrite <- land_mask by apply sew_width. destruct rhs.
  - rewrite (bind_run _ _ _ _ _ (reads_src _ _ _ _ Hr (rs1 insn) cfg.(sew) ltac:(unfold single_sources; rewrite !in_app_iff; simpl; auto))).
    done.
  - by rewrite (bind_run _ _ _ _ _ (reads_x _ _ _ _ Hr (rs1 insn))).
Qed.

Lemma vs2_run rhs j s :
  reads c j (single_sources cfg insn true rhs) s ->
  get_element (rs2 insn) j cfg.(sew) s = (Ok (source c (rs2 insn) j cfg.(sew)), s).
Proof using Type.
  intros Hr. apply (reads_src _ _ _ _ Hr). unfold single_sources. rewrite !in_app_iff. simpl. auto.
Qed.

Lemma vd_run vs2 vs1 j s :
  reads c j (single_sources cfg insn vs2 vs1) s ->
  get_element (rd insn) j cfg.(sew) s = (Ok (source c (rd insn) j cfg.(sew)), s).
Proof using Type.
  intros Hr. apply (reads_src _ _ _ _ Hr). unfold single_sources. rewrite !in_app_iff. simpl. auto.
Qed.

(** The second operand of the OPI forms. *)
Definition opi_operand (format i : Z) : Z :=
  if format =? 0 then source c (rs1 insn) i cfg.(sew)
  else if format =? 3 then rs1 insn else xr c (rs1 insn).

Lemma shift_operand_run format vs2 j s o :
  one_of format [0; 3; 4] = true -> reads c j (single_sources cfg insn vs2 (format =? 0)) s ->
  shift_operand format insn j cfg.(sew) o s = (Ok (opi_operand format j), s).
Proof using Type.
  intros Hf Hr. unfold shift_operand, opi_operand. destruct (format =? 0) eqn:E0.
  - apply (reads_src _ _ _ _ Hr). unfold single_sources. rewrite !in_app_iff. simpl. auto.
  - destruct (format =? 3) eqn:E3; [done|]. destruct (format =? 4) eqn:E4; [apply (reads_x _ _ _ _ Hr)|].
    by destruct (no_format format).
Qed.

(** Running the reads of a body. *)
Ltac run Hr :=
  repeat first
    [ rewrite (bind_run _ _ _ _ _ (vs2_run _ _ _ Hr))
    | rewrite (bind_run _ _ _ _ _ (vd_run _ _ _ _ Hr))
    | rewrite (bind_run _ _ _ _ _ (vector_or_scalar_run _ _ _ _ Hr))
    | rewrite (bind_run _ _ _ _ _ (reads_vxrm _ _ _ _ Hr))
    | match goal with H : one_of _ [0; 3; 4] = true |- _ =>
        rewrite (bind_run _ _ _ _ _ (shift_operand_run _ _ _ _ _ H Hr)) end ];
  cbv zeta.

(** An operation that cannot fail, in an [unwrap]. *)
Lemma unwrap_default {S A} (o : option A) (d : A) (s : S) :
  (exists v, o = Some v) -> unwrap (E := Exception) o s = (Ok (default d o), s).
Proof using Type. by intros [v ->]. Qed.

(** Division, remainder and the high and low products. *)
Theorem exec_vector_multiply_divide_spec funct6 rhs :
  between 0x20 0x27 funct6 = true ->
  outcome_is cfg c insn (single_legal cfg insn true rhs) (rd insn) cfg.(sew)
    (fun i => default 0 (Arch.multiply_divide cfg.(sew) funct6 (source c (rs2 insn) i cfg.(sew))
                           (wrap cfg.(sew) (right_operand rhs c (rs1 insn) i cfg.(sew))))) false
    (exec_vector_multiply_divide insn cfg funct6 rhs c).
Proof using Hc.
  intros Hf. eapply outcome_ext; [|done|apply vstart_nonneg|apply (single_width m cfg c Hc insn)
    with (f := fun j => default 0 (multiply_divide_val cfg.(sew) funct6 (source c (rs2 insn) j cfg.(sew))
           (wrap cfg.(sew) (right_operand rhs c (rs1 insn) j cfg.(sew)))) .& element_mask cfg.(sew))].
  2: { intros j s Hj Hl Hr. run Hr.
       by rewrite (bind_run _ _ _ _ _ (unwrap_default _ 0 s (multiply_divide_val_total _ _ _ _ Hf))). }
  intros Hl i Hi. cbv beta. rewrite wrap_mask by apply sew_width.
  pose proof (multiply_divide_val_arch cfg.(sew) funct6 (source c (rs2 insn) i cfg.(sew))
    (wrap cfg.(sew) (right_operand rhs c (rs1 insn) i cfg.(sew))) sew_width ltac:(by eapply vs2_uint)
    ltac:(by apply wrap_range, sew_width)) as Ha.
  unfold agrees in Ha. destruct (multiply_divide_val _ _ _ _), (Arch.multiply_divide _ _ _ _); done.
Qed.

(** Multiply-add over the old destination. *)
Theorem exec_vector_integer_madd_spec funct6 :
  one_of (funct3 insn) [2; 6] = true -> one_of funct6 [0x29; 0x2b; 0x2d; 0x2f] = true ->
  let rhs := funct3 insn =? 2 in
  outcome_is cfg c insn (single_legal cfg insn true rhs) (rd insn) cfg.(sew)
    (fun i => default 0 (Arch.multiply_add funct6 (source c (rs2 insn) i cfg.(sew))
                           (wrap cfg.(sew) (right_operand rhs c (rs1 insn) i cfg.(sew)))
                           (source c (rd insn) i cfg.(sew)))) false
    (exec_vector_integer_madd insn cfg funct6 c).
Proof using Hc.
  intros H3 H6. cbv zeta. unfold exec_vector_integer_madd. rewrite H3, H6. cbn [negb orb].
  eapply outcome_ext; [|done|apply vstart_nonneg|apply (single_width m cfg c Hc insn)
    with (f := fun j => default 0 (madd_val funct6 (source c (rs2 insn) j cfg.(sew))
           (wrap cfg.(sew) (right_operand (funct3 insn =? 2) c (rs1 insn) j cfg.(sew)))
           (source c (rd insn) j cfg.(sew))) .& element_mask cfg.(sew))].
  2: { intros j s Hj Hl Hr. run Hr.
       by rewrite (bind_run _ _ _ _ _ (unwrap_default _ 0 s (madd_val_total _ _ _ _ H6))). }
  intros Hl i Hi. cbv beta. rewrite wrap_mask by apply sew_width.
  pose proof (madd_val_arch cfg.(sew) funct6 (source c (rs2 insn) i cfg.(sew))
    (wrap cfg.(sew) (right_operand (funct3 insn =? 2) c (rs1 insn) i cfg.(sew)))
    (source c (rd insn) i cfg.(sew)) sew_width) as Ha.
  unfold agrees in Ha. destruct (madd_val _ _ _ _), (Arch.multiply_add _ _ _ _); done.
Qed.

(** Averaging addition and subtraction, rounded by vxrm. *)
Theorem exec_vector_average_spec funct6 :
  one_of (funct3 insn) [2; 6] = true -> between 0x08 0x0b funct6 = true ->
  let rhs := funct3 insn =? 2 in
  let sgn := Z.odd funct6 in
  outcome_is cfg c insn (single_legal cfg insn true rhs) (rd insn) cfg.(sew)
    (fun i =>
       let a := Arch.value sgn cfg.(sew) (source c (rs2 insn) i cfg.(sew)) in
       let b := Arch.value sgn cfg.(sew) (wrap cfg.(sew) (right_operand rhs c (rs1 insn) i cfg.(sew))) in
       Arch.round c.(vector).(vxrm) (if 0x0a <=? funct6 then a - b else a + b) 1) false
    (exec_vector_average insn cfg funct6 c).
Proof using Hc.
  intros H3 H6. cbv zeta. unfold exec_vector_average. rewrite H3, H6. cbn [negb orb].
  eapply outcome_ext; [|done|apply vstart_nonneg|apply (single_width m cfg c Hc insn)
    with (f := fun j => average_val cfg.(sew) c.(vector).(vxrm) (negb ((funct6 .& 1) =? 0))
                          (negb ((funct6 .& 2) =? 0)) (source c (rs2 insn) j cfg.(sew))
           (wrap cfg.(sew) (right_operand (funct3 insn =? 2) c (rs1 insn) j cfg.(sew))) .& element_mask cfg.(sew))].
  2: { intros j s Hj Hl Hr. by run Hr. }
  intros Hl i Hi. cbv beta. rewrite wrap_mask by apply sew_width.
  rewrite average_val_arch; [|apply sew_width|by eapply vs2_uint|by apply wrap_range, sew_width|apply vxrm_range].
  unfold between in H6. assert (funct6 = 8 \/ funct6 = 9 \/ funct6 = 10 \/ funct6 = 11) as Hf by lia.
  by destruct Hf as [->|[->|[->| ->]]].
Qed.

(** Scaling shifts, rounded by vxrm. *)
Theorem exec_vector_scaling_shift_spec arithmetic :
  one_of (funct3 insn) [0; 3; 4] = true ->
  outcome_is cfg c insn (single_legal cfg insn true (funct3 insn =? 0)) (rd insn) cfg.(sew)
    (fun i => Arch.round c.(vector).(vxrm) (Arch.value arithmetic cfg.(sew) (source c (rs2 insn) i cfg.(sew)))
                (opi_operand (funct3 insn) i mod cfg.(sew))) false
    (exec_vector_scaling_shift insn cfg arithmetic c).
Proof using Hc.
  intros H3. unfold exec_vector_scaling_shift. rewrite H3. cbn [negb]. cbv zeta.
  eapply outcome_ext; [|done|apply vstart_nonneg|apply (single_width m cfg c Hc insn)
    with (f := fun j => (let source := source c (rs2 insn) j cfg.(sew) in
           let shift := opi_operand (funct3 insn) j .& (cfg.(sew) - 1) in
           if arithmetic then u64 (fixed_round_signed (signed_narrow source cfg.(sew)) shift c.(vector).(vxrm))
           else u64 (fixed_round_unsigned source shift c.(vector).(vxrm))) .& element_mask cfg.(sew))].
  2: { intros j s Hj Hl Hr. by run Hr. }
  intros Hl i Hi. cbv beta zeta. rewrite wrap_mask by apply sew_width. rewrite shift_amount by apply sew_width.
  pose proof (vs2_uint _ i Hl Hi) as Hs. pose proof sew_width as Hw. pose proof (width_range _ Hw) as Hr.
  pose proof (Z.mod_pos_bound (opi_operand (funct3 insn) i) cfg.(sew) ltac:(lia)) as Hm.
  assert (2 ^ cfg.(sew) <= 2 ^ 64) by (apply Z.pow_le_mono_r; lia).
  assert (2 ^ (cfg.(sew) - 1) <= 2 ^ 64) by (apply Z.pow_le_mono_r; lia).
  pose proof (element_range cfg.(sew) (source c (rs2 insn) i cfg.(sew)) Hw).
  assert (2 ^ 64 < 2 ^ 126) by (by apply Z.pow_lt_mono_r). assert (2 ^ 126 < 2 ^ 127) by (by apply Z.pow_lt_mono_r).
  unfold Arch.value, signed_narrow. rewrite signed_element_signed by done. pose proof vxrm_range.
  destruct arithmetic; rewrite wrap_u64 by done.
  - by rewrite fixed_round_signed_round by (done || lia).
  - unfold uint in Hs. by rewrite fixed_round_unsigned_round by (done || lia).
Qed.
(** vsmul: the fractional product, rounded and saturated. *)
Theorem exec_vector_fractional_multiply_spec :
  one_of (funct3 insn) [0; 4] = true ->
  let rhs := funct3 insn =? 0 in
  let product i := Arch.saturate cfg.(sew) (Arch.round c.(vector).(vxrm)
    (signed cfg.(sew) (source c (rs2 insn) i cfg.(sew))
     * signed cfg.(sew) (wrap cfg.(sew) (right_operand rhs c (rs1 insn) i cfg.(sew)))) (cfg.(sew) - 1)) in
  outcome_is cfg c insn (single_legal cfg insn true rhs) (rd insn) cfg.(sew)
    (fun i => fst (product i)) (some_active cfg (masked insn) c (fun i => snd (product i)))
    (exec_vector_fractional_multiply insn cfg c).
Proof using Hc.
  intros H3. cbv zeta. unfold exec_vector_fractional_multiply. rewrite H3. cbn [negb]. cbv zeta.
  set (rounded j := fixed_round_signed (signed_narrow (source c (rs2 insn) j cfg.(sew)) cfg.(sew)
    * signed_narrow (wrap cfg.(sew) (right_operand (funct3 insn =? 0) c (rs1 insn) j cfg.(sew))) cfg.(sew))
    (cfg.(sew) - 1) c.(vector).(vxrm)).
  set (clamped j := clamp (- (1 .<< (cfg.(sew) - 1))) ((1 .<< (cfg.(sew) - 1)) - 1) (rounded j)).
  pose proof sew_width as Hw. pose proof (width_range _ Hw) as Hr. pose proof vxrm_range as Hv.
  assert (single_legal cfg insn true (funct3 insn =? 0) = true -> forall i, 0 <= i < body_length cfg c ->
    rounded i = Arch.round c.(vector).(vxrm) (signed cfg.(sew) (source c (rs2 insn) i cfg.(sew))
     * signed cfg.(sew) (wrap cfg.(sew) (right_operand (funct3 insn =? 0) c (rs1 insn) i cfg.(sew)))) (cfg.(sew) - 1)) as Hround.
  { intros Hl i Hi. pose proof (vs2_uint _ i Hl Hi) as Hs. unfold rounded, signed_narrow.
    set (b := wrap _ _). assert (uint cfg.(sew) b) as Hb by (by apply wrap_range).
    rewrite !signed_element_signed by done. apply fixed_round_signed_round; [lia|done|].
    pose proof (element_range cfg.(sew) (source c (rs2 insn) i cfg.(sew)) Hw). pose proof (element_range cfg.(sew) b Hw).
    assert (2 ^ (cfg.(sew) - 1) <= 2 ^ 63) by (apply Z.pow_le_mono_r; lia). change (2 ^ 126) with (2 ^ 63 * 2 ^ 63). nia. }
  eapply outcome_ext; [| |apply vstart_nonneg|apply (single_width_saturates m cfg c Hc insn)
    with (f := fun j => u64 (clamped j) .& element_mask cfg.(sew)) (clip := fun j => negb (clamped j =? rounded j))];
    [..|done|intros j acc s Hj _ Hrd; by run Hrd].
  - intros Hl i Hi. cbv beta. rewrite wrap_mask by done. unfold clamped. rewrite wrap_clamp, Hround by done. done.
  - intros Hl. apply some_active_ext; [apply vstart_nonneg|]. intros i Hi. unfold clamped. rewrite Hround by done.
    rewrite Z.shiftl_1_l. unfold clamp, Arch.saturate. cbn [snd].
    assert (0 < 2 ^ (cfg.(sew) - 1)) by (apply Z.pow_pos_nonneg; lia). repeat case_match; lia.
Qed.

(** vid.v: every active element is its index. *)
Theorem exec_vector_id_spec :
  outcome_is cfg c insn (single_legal cfg insn false false) (rd insn) cfg.(sew) (fun i => i) false
    (exec_vector_id insn cfg c).
Proof using Hc. by apply (single_width m cfg c Hc insn). Qed.

(** *** Integer arithmetic, logic, shifts, minima and saturating sums *)

(** The second operand: an element of vs1, the sign-extended immediate (not
    extended for a shift), or rs1, truncated to an element. *)
Definition binary_right (format funct6 i : Z) : Z :=
  wrap cfg.(sew)
    (if format =? 0 then source c (rs1 insn) i cfg.(sew)
     else if format =? 3 then (if one_of funct6 [0x25; 0x28; 0x29] then rs1 insn else simm5 (rs1 insn))
     else xr c (rs1 insn)).

Lemma binary_operand_run funct6 format vs2 j s :
  one_of format [0; 3; 4] = true -> reads c j (single_sources cfg insn vs2 (format =? 0)) s ->
  exists b, binary_operand funct6 format (rs1 insn) j cfg.(sew) s = (Ok b, s)
    /\ b .& element_mask cfg.(sew) = binary_right format funct6 j.
Proof using Hc.
  intros Hf Hr. unfold binary_operand, binary_right. rewrite <- land_mask by apply sew_width.
  destruct (format =? 0) eqn:E0.
  - eexists. split; [|done]. apply (reads_src _ _ _ _ Hr). unfold single_sources. rewrite !in_app_iff. simpl. auto.
  - destruct (format =? 3) eqn:E3; cbn [andb].
    + destruct (one_of funct6 [37; 40; 41]); by eexists.
    + destruct (format =? 4) eqn:E4; [|by destruct (no_format format)].
      eexists. split; [apply (reads_x _ _ _ _ Hr)|done].
Qed.

Lemma supported_binary_format funct6 format : supported_binary funct6 format = true -> one_of format [0; 3; 4] = true.
Proof using Type.
  unfold supported_binary, one_of. cbn [existsb]. repeat case_match; lia.
Qed.

Lemma supported_not_move funct6 format : supported_binary funct6 format = true -> (funct6 =? 0x17) = false.
Proof using Type.
  intros Hs. destruct (Z.eqb_spec funct6 0x17) as [->|]; [|done]. done.
Qed.

Lemma binary_val_supported funct6 format a b :
  supported_binary funct6 format = true -> between 0x18 0x1f funct6 = false ->
  exists r, binary_val cfg.(sew) funct6 a b = Some r.
Proof using Type.
  unfold supported_binary, one_of, between, binary_val. cbn [existsb]. intros Hs Hf. cbv zeta.
  repeat match goal with
    | |- exists r, (if ?b then _ else _) = Some r => let E := fresh "E" in destruct b eqn:E; [by eexists|]
    end.
  exfalso. repeat case_match; lia.
Qed.

(** Two reads of the state do not separate the tests from the loop. *)
Lemma late_test (b : Z -> bool) (pre : Hart Cpu unit) (fast slow : Z -> Z -> Hart Cpu unit) :
  snd (pre c) = c ->
  (pre ;;; start <- vstart_now ;; vl <- active_length cfg ;; mark_dirty ;;;
   if b start then fast start vl else slow start vl) c
  = if b c.(vector).(vstart)
    then (pre ;;; start <- vstart_now ;; vl <- active_length cfg ;; mark_dirty ;;; fast start vl) c
    else (pre ;;; start <- vstart_now ;; vl <- active_length cfg ;; mark_dirty ;;; slow start vl) c.
Proof using Type.
  intros Hp. unfold bind at 1. destruct (pre c) as [[u|e|] s] eqn:E; cbn in Hp; subst s.
  - unfold bind at 5 7, vstart_now, gets, bind. rewrite E. by destruct (b c.(vector).(vstart)).
  - unfold bind. rewrite E. by destruct (b _).
  - unfold bind. rewrite E. by destruct (b _).
Qed.

(** The result at an element, in the architecture's terms and in the code's. *)
Definition binary_result (format funct6 i : Z) : Z * bool :=
  default (0, false) (Arch.binary cfg.(sew) funct6 (source c (rs2 insn) i cfg.(sew)) (binary_right format funct6 i)).

Definition binary_code (format funct6 i : Z) : Z * bool :=
  default (0, false) (binary_val cfg.(sew) funct6 (source c (rs2 insn) i cfg.(sew)) (binary_right format funct6 i)).

Lemma binary_code_result format funct6 i :
  single_legal cfg insn true (format =? 0) = true -> 0 <= i < body_length cfg c ->
  wrap cfg.(sew) (fst (binary_code format funct6 i)) = wrap cfg.(sew) (fst (binary_result format funct6 i))
  /\ snd (binary_code format funct6 i) = snd (binary_result format funct6 i).
Proof using Hc.
  intros Hl Hi. unfold binary_code, binary_result.
  pose proof (binary_val_arch cfg.(sew) funct6 (source c (rs2 insn) i cfg.(sew)) (binary_right format funct6 i)
    sew_width ltac:(by eapply vs2_uint) ltac:(by apply wrap_range, sew_width)) as Ha.
  unfold agrees in Ha. destruct (binary_val _ _ _ _), (Arch.binary _ _ _ _); done.
Qed.

(** The element loop. *)
Definition binary_body (format funct6 : Z) (index : Z) (saturated : bool) : Hart Cpu bool :=
  a <- get_element (rs2 insn) index cfg.(sew) ;;
  b <- binary_operand funct6 format (rs1 insn) index cfg.(sew) ;;
  r <- unwrap (binary_val cfg.(sew) funct6 a (b .& element_mask cfg.(sew))) ;;
  let '(value, clipped) := r in
  put_element (rd insn) index cfg.(sew) (value .& element_mask cfg.(sew)) ;;;
  ret (saturated || clipped).

Lemma binary_elements funct6 format k :
  supported_binary funct6 format = true -> between 0x18 0x1f funct6 = false ->
  (forall acc s, k acc s = (saturate acc ;;; finish_vector) s) ->
  outcome_is cfg c insn (single_legal cfg insn true (format =? 0)) (rd insn) cfg.(sew)
    (fun i => fst (binary_result format funct6 i))
    (some_active cfg (masked insn) c (fun i => snd (binary_result format funct6 i)))
    ((integer_groups insn cfg false true (format =? 0) ;;;
      start <- vstart_now ;; vl <- active_length cfg ;; mark_dirty ;;;
      acc <- for_elements (masked insn) start vl (binary_body format funct6) false ;; k acc) c).
Proof using Hc.
  intros Hs Hcmp Hk. eapply outcome_ext; [| |apply vstart_nonneg|
    apply (single_width_saturates m cfg c Hc insn true (format =? 0) (binary_body format funct6)
      (fun i => fst (binary_code format funct6 i) .& element_mask cfg.(sew))
      (fun i => snd (binary_code format funct6 i)) k Hk)].
  - intros Hl i Hi. cbv beta. rewrite wrap_mask by apply sew_width. by apply binary_code_result.
  - intros Hl. apply some_active_ext; [apply vstart_nonneg|]. intros i Hi. by apply binary_code_result.
  - intros j acc s Hj Hl Hr. unfold binary_body. rewrite (bind_run _ _ _ _ _ (vs2_run _ _ _ Hr)).
    destruct (binary_operand_run funct6 format true j s (supported_binary_format _ _ Hs) Hr) as (b & E & Eb).
    rewrite (bind_run _ _ _ _ _ E), Eb. unfold binary_code.
    destruct (binary_val_supported funct6 format (source c (rs2 insn) j cfg.(sew)) (binary_right format funct6 j) Hs Hcmp)
      as ([v clip] & Ev). rewrite Ev. done.
Qed.

(** The groups of a legal instruction, as register ranges. *)
Lemma legal_range reg :
  uint 5 reg -> group_legal cfg insn reg = true -> 0 <= reg /\ reg + register_span (lmul cfg) <= 32.
Proof using Hc.
  intros Hr Hg. unfold group_legal in Hg. unfold uint in Hr.
  destruct (span_facts cfg (cfg_decoded m cfg c Hc)) as [[E|[E|[E|E]]] _]; rewrite E in *; zlia.
Qed.

Lemma legal_apart d reg :
  group_legal cfg insn d = true -> group_legal cfg insn reg = true ->
  d = reg \/ d + register_span (lmul cfg) <= reg \/ reg + register_span (lmul cfg) <= d.
Proof using Hc.
  intros Hd Hr. unfold group_legal in *.
  destruct (span_facts cfg (cfg_decoded m cfg c Hc)) as [[E|[E|[E|E]]] _]; rewrite E in *; zlia.
Qed.

(** The byte loop of the unmasked bitwise instructions. *)
Lemma binary_bytes funct6 :
  masked insn = false -> c.(vector).(vstart) = 0 ->
  outcome_is cfg c insn (single_legal cfg insn true true) (rd insn) cfg.(sew)
    (fun i => bitwise_val funct6 (source c (rs2 insn) i cfg.(sew)) (source c (rs1 insn) i cfg.(sew))) false
    ((integer_groups insn cfg false true true ;;;
      start <- vstart_now ;; vl <- active_length cfg ;; mark_dirty ;;;
      bitwise_bytes funct6 (rd insn) (rs2 insn) (rs1 insn) (vl * (cfg.(sew) / 8)) ;;; finish_vector) c).
Proof using Hc.
  intros Hm Hstart. unfold outcome_is. pose proof (integer_groups_run m cfg c Hc insn true true) as E.
  destruct (single_legal cfg insn true true) eqn:Hl; unfold bind at 1; rewrite E; [|done]. clear E.
  pose proof Hl as [[Hgd Hg2]%andb_true_iff Hg1]%andb_true_iff. cbn [negb orb] in Hg2, Hg1.
  destruct (body_bounds m cfg c Hc) as (_ & Hb & _).
  destruct (body_bytes cfg (body_length cfg c) (cfg_decoded m cfg c Hc) Hb) as [Hn Hn128].
  destruct (bitwise_bytes_elementwise (vector_dirty c) c.(vector) funct6 (rd insn) (rs2 insn) (rs1 insn)
    (body_length cfg c * (cfg.(sew) / 8)) (register_span (lmul cfg)) (vregs_any m (Some cfg) c Hc) Hn Hn128)
    with (w := cfg.(sew)) (stop := body_length cfg c) as (v & E & He); [..|by apply sew_width|done|].
  - destruct (span_facts cfg (cfg_decoded m cfg c Hc)) as [? _]. lia.
  - apply legal_range; [apply uint_rd|done].
  - apply legal_range; [apply uint_rs2|done].
  - apply legal_range; [apply uint_rs1|done].
  - by apply legal_apart.
  - by apply legal_apart.
  - rewrite set_vector_dirty in E. eexists. split.
    + unfold bind at 1, vstart_now, gets. unfold bind at 1, active_length, gets.
      unfold bind at 1, mark_dirty, modify. fold (body_length cfg c). unfold bind at 1. rewrite E. reflexivity.
    + exists v. rewrite Hstart. unfold active. rewrite Hm. split; [done|]. rewrite orb_false_r.
      assert (set_vxsat c.(vector).(vxsat) v = v) as ->; [|done].
      rewrite (ew_rest _ _ _ _ _ _ _ _ He). by destruct (vector c).
Qed.

Lemma some_active_none pred p : (forall i, p i = false) -> some_active cfg pred c p = false.
Proof using Type.
  intros Hp. unfold some_active. induction (seqZ _ _) as [|i l IH]; [done|]. cbn [existsb]. by rewrite Hp, andb_false_r.
Qed.

Lemma binary_result_bitwise funct6 i :
  between 0x09 0x0b funct6 = true -> single_legal cfg insn true true = true -> 0 <= i < body_length cfg c ->
  binary_result 0 funct6 i
  = (bitwise_val funct6 (source c (rs2 insn) i cfg.(sew)) (source c (rs1 insn) i cfg.(sew)), false).
Proof using Hc.
  intros Hf [[_ _]%andb_true_iff Hg1]%andb_true_iff Hi. cbn [negb orb] in Hg1.
  unfold binary_result, binary_right. change (0 =? 0) with true. cbv iota.
  rewrite wrap_uint by (by apply source_uint; [apply uint_rs1|..]).
  unfold between in Hf. assert (funct6 = 9 \/ funct6 = 10 \/ funct6 = 11) as [->|[->| ->]] by lia; done.
Qed.

Lemma saturate_when acc s :
  ((if acc : bool then update_vec (set_vxsat true) else ret tt) ;;; finish_vector) s
  = (saturate acc ;;; finish_vector) s.
Proof using Type.
  destruct s as [????????[]], acc; cbn; unfold bind, saturate, update_vec, finish_vector, modify, ret; cbn;
  by rewrite ?orb_true_r, ?orb_false_r.
Qed.

(** C39: an integer instruction of the single-width families (addition,
    subtraction, minima and maxima, logic, shifts, saturating sums) writes the
    architecture's result to each active element, sets vxsat exactly when one
    of them saturates, and refuses illegal register groups; the unmasked
    bitwise instructions, which run over the register bytes eight at a time,
    included. *)
Theorem exec_vector_integer_binary_spec funct6 format :
  supported_binary funct6 format = true -> between 0x18 0x1f funct6 = false ->
  outcome_is cfg c insn (single_legal cfg insn true (format =? 0)) (rd insn) cfg.(sew)
    (fun i => fst (binary_result format funct6 i))
    (some_active cfg (masked insn) c (fun i => snd (binary_result format funct6 i)))
    (exec_vector_integer_binary insn cfg funct6 format c).
Proof using Hc.
  intros Hs Hcmp. unfold exec_vector_integer_binary. cbv zeta.
  rewrite Hs, Hcmp, (supported_not_move _ _ Hs). cbn [negb andb orb].
  rewrite (late_test (fun start => negb (masked insn) && (start =? 0) && (format =? 0) && between 9 11 funct6));
    [|by rewrite (integer_groups_run m cfg c Hc)].
  destruct (negb (masked insn) && _ && _ && _) eqn:Hfast.
  - repeat (apply andb_true_iff in Hfast as [Hfast ?]). assert (format = 0) as -> by lia.
    eapply outcome_ext; [| |apply vstart_nonneg|apply (binary_bytes funct6); lia || by destruct (masked insn)].
    + intros Hl i Hi. by rewrite binary_result_bitwise.
    + intros Hl. symmetry. rewrite (some_active_ext _ _ _ _ (fun _ => false)); [by apply some_active_none|apply vstart_nonneg|].
      intros i Hi. by rewrite binary_result_bitwise.
  - rewrite negb_involutive. apply (binary_elements funct6 format); [done..|]. apply saturate_when.
Qed.

End Theorems.

(** ** A hart for the witnesses *)

(** e8, m1: v1 holds 0 .. 15, v2 holds 250 throughout. *)
Definition demo_vector : VectorState :=
  let regs := <[2%nat := replicate 16 250]> (<[1%nat := seqZ 0 16]> (replicate 32 (replicate 16 0))) in
  set_vl 16 (set_vtype 0 (set_vregs regs VectorState_default)).
Definition demo_hart : Cpu := set_vector demo_vector Cpu_new.
Definition demo_cfg : VectorConfig := default (mkVectorConfig 0 0 1 0 0) (decode_vtype 0).

Definition row_check (row : list Z) : bool :=
  (length row =? 16)%nat && forallb (fun b => (0 <=? b) && (b <? 2 ^ 8)) row.

Lemma row_check_arr row : row_check row = true -> arr 16 8 row.
Proof.
  intros [Hl%Nat.eqb_eq Hb]%andb_true_iff. split; [done|]. apply Forall_forall. intros b Hin.
  rewrite forallb_forall in Hb. specialize (Hb b Hin). unfold uint. lia.
Qed.

Lemma demo_vinv : vinv false demo_cfg demo_hart.
Proof.
  split; [|reflexivity]. split; [|reflexivity]. apply wf_set_vector; [apply wf_Cpu_new|]. constructor.
  - split; [reflexivity|]. apply Forall_forall. intros row Hin. apply row_check_arr.
    assert (forallb row_check demo_vector.(vregs) = true) as Hc by (vm_compute; reflexivity).
    rewrite forallb_forall in Hc. by apply Hc.
  - vm_compute. split; congruence.
  - vm_compute. split; congruence.
  - vm_compute. split; congruence.
  - vm_compute. split; congruence.
  - vm_compute. split; congruence.
Qed.

(** vsaddu.vv v3, v2, v1: 250 + i saturates at 255 from i = 6 on. *)
Lemma exec_vector_integer_binary_spec_witness :
  exists c', exec_vector_integer_binary 0x822081d7 demo_cfg 0x20 0 demo_hart = (Ok tt, c')
    /\ c'.(vector).(vxsat) = true
    /\ read_element c'.(vector) 3 4 8 = Some 254 /\ read_element c'.(vector) 3 15 8 = Some 255.
Proof.
  pose proof (exec_vector_integer_binary_spec false demo_cfg demo_hart demo_vinv 0x822081d7 0x20 0 eq_refl eq_refl) as H.
  unfold outcome_is in H.
  assert (single_legal demo_cfg 0x822081d7 true (0 =? 0) = true) as Hl by (vm_compute; reflexivity). rewrite Hl in H.
  destruct H as (c' & E & v & He & ->). eexists. split; [exact E|]. split; [vm_compute; reflexivity|].
  pose proof (ew_elements _ _ _ _ _ _ _ _ He) as Hel.
  split.
  - etransitivity; [exact (Hel 4 ltac:(vm_compute; split; congruence))|vm_compute; reflexivity].
  - etransitivity; [exact (Hel 15 ltac:(vm_compute; split; congruence))|vm_compute; reflexivity].
Defined.

(** vdivu.vv v3, v2, v1: division by the zero in element 0 is all ones. *)
Lemma exec_vector_multiply_divide_spec_witness :
  exists c', exec_vector_multiply_divide 0x8220a1d7 demo_cfg 0x20 true demo_hart = (Ok tt, c')
    /\ read_element c'.(vector) 3 0 8 = Some 255 /\ read_element c'.(vector) 3 7 8 = Some 35.
Proof.
  pose proof (exec_vector_multiply_divide_spec false demo_cfg demo_hart demo_vinv 0x8220a1d7 0x20 true eq_refl) as H.
  unfold outcome_is in H.
  assert (single_legal demo_cfg 0x8220a1d7 true true = true) as Hl by (vm_compute; reflexivity). rewrite Hl in H.
  destruct H as (c' & E & v & He & ->). eexists. split; [exact E|].
  pose proof (ew_elements _ _ _ _ _ _ _ _ He) as Hel. split.
  - etransitivity; [exact (Hel 0 ltac:(vm_compute; split; congruence))|vm_compute; reflexivity].
  - etransitivity; [exact (Hel 7 ltac:(vm_compute; split; congruence))|vm_compute; reflexivity].
Defined.
