(* ===== verification/VecWideSpec.v ===== *)
(** * What the widening and narrowing instructions compute

    The widening sums and products are exact: the element of twice the width
    holds the architecture's result without overflow.  The narrowing shifts and
    clips take an element of twice the width to one of SEW bits; clips round by
    vxrm and saturate.  Each instruction refuses exactly the operand groups its
    overlap rules exclude, and otherwise reads every source as it was before the
    instruction, although source and destination registers may overlap. *)

From S2P Require Import Prelude Exception Decode Compressed Csr State Bus Mmu Trap CsrOps.
From S2P Require Import Vector SoftFp Exec Step VecBase VecInt VecFloat VecMem.
From S2P Require Import Wf SoftFpSpec RvcEquiv SafeMem SafeCsr SafeExec VecSafe VecOk VecMemOk VecElem ExecSpec VecArch.
From S2P Require Import VecIntSpec.

(** A register group that can hold the elements of a width. *)
Definition grouped (cfg : VectorConfig) (reg eew : Z) (r : GroupRatio) : Prop :=
  fits cfg eew r /\ sized cfg eew r /\ validate_group reg r 1 = true /\ uint 5 reg.

Lemma grouped_elements cfg reg eew r :
  grouped cfg reg eew r -> forall j, 0 <= j < cfg.(vlmax) -> element_ok reg j eew.
Proof. intros (Hf & _ & Hv & Hr) j Hj. apply (group_element cfg eew r); try done. apply Hr. Qed.

Lemma grouped_trails cfg d deew dr s seew sr :
  1 <= cfg.(vlmax) -> grouped cfg d deew dr -> grouped cfg s seew sr ->
  destination_source_overlap_legal d dr deew s sr seew = true -> trails d deew s seew cfg.(vlmax).
Proof. intros Hl (? & ? & ? & _) (? & ? & ? & _) Ho. by apply (legal_trails cfg d dr deew s sr seew). Qed.

Lemma overlap_zero d r : uint 5 d -> 1 <= register_span r -> groups_overlap d r 1 0 MASK_REGISTER_RATIO = false -> 1 <= d.
Proof.
  unfold groups_overlap, uint. change (register_span MASK_REGISTER_RATIO) with 1. lia.
Qed.

(** *** Twice the element width *)

Definition wide_ratio (cfg : VectorConfig) : GroupRatio := ratio_of (cfg.(lmul_exp) + 1).

(** Elements of twice the width exist up to SEW = 32 and LMUL = 4. *)
Definition has_wide (cfg : VectorConfig) : bool := (cfg.(sew) <=? 32) && (cfg.(lmul_exp) <=? 2).

Definition wide_check (raw : Z) : bool :=
  match decode_vtype raw with
  | Some cfg =>
      (32 <? cfg.(sew))
      || (is_width (cfg.(sew) * 2)
          && match emul_exponent cfg (cfg.(sew) * 2) with
             | Some o => bool_decide (o = if cfg.(lmul_exp) <=? 2 then Some (cfg.(lmul_exp) + 1) else None)
             | None => false
             end)
  | None => true
  end.

Lemma wide_check_all : all_bits 8 0 wide_check = true.
Proof. vm_compute. reflexivity. Qed.

Lemma wide_exponent cfg :
  decoded cfg -> cfg.(sew) <= 32 ->
  is_width (cfg.(sew) * 2) = true
  /\ emul_exponent cfg (cfg.(sew) * 2) = Some (if cfg.(lmul_exp) <=? 2 then Some (cfg.(lmul_exp) + 1) else None).
Proof.
  intros (raw & Hraw & E) Hs. pose proof (all_uint 8 _ wide_check_all raw Hraw) as Hc. unfold wide_check in Hc.
  rewrite E in Hc. apply orb_true_iff in Hc as [Hc|[Hw Hc]%andb_true_iff]; [lia|]. split; [done|].
  destruct (emul_exponent _ _) as [o|]; [|done]. by apply bool_decide_eq_true_1 in Hc as ->.
Qed.

Lemma wide_fits cfg : decoded cfg -> has_wide cfg = true -> fits cfg (cfg.(sew) * 2) (wide_ratio cfg) /\ sized cfg (cfg.(sew) * 2) (wide_ratio cfg).
Proof.
  intros Hd [Hs Hl]%andb_true_iff. destruct (wide_exponent cfg Hd ltac:(lia)) as [Hw E]. rewrite Hl in E.
  destruct (decoded_facts cfg Hd) as (_ & _ & He). specialize (He _ Hw). unfold emul_check in He. rewrite E in He.
  apply andb_true_iff in He as [He _]. split; [by apply fits_check_fits|].
  by apply (proj2 (sized_facts cfg Hd) _ _ Hw).
Qed.

Lemma emul_wide_run {S} insn cfg (s : S) :
  decoded cfg -> cfg.(sew) <= 32 ->
  emul_or_illegal insn cfg (cfg.(sew) * 2) s
  = (if cfg.(lmul_exp) <=? 2 then Ok (wide_ratio cfg) else Err (IllegalInstruction insn), s).
Proof.
  intros Hd Hs. destruct (wide_exponent cfg Hd Hs) as [_ E]. unfold emul_or_illegal, emul. rewrite E.
  by destruct (_ <=? 2).
Qed.

Section Wide.
Context (m : bool) (cfg : VectorConfig) (c : Cpu) (Hc : vinv m cfg c) (insn : Z) (Hinsn : uint 32 insn).

Abbreviation wide := (cfg.(sew) * 2).

(** The operands of an instruction with groups of several widths. *)
Definition operands (deew : Z) (srcs : list (Z * Z)) : Prop :=
  (forall j, 0 <= j < cfg.(vlmax) -> element_ok (rd insn) j deew)
  /\ (masked insn = true -> 1 <= rd insn)
  /\ forall r e, In (r, e) srcs ->
     trails (rd insn) deew r e cfg.(vlmax) /\ forall j, 0 <= j < cfg.(vlmax) -> element_ok r j e.

Lemma operand_uint deew srcs r e i :
  operands deew srcs -> In (r, e) srcs -> 0 <= i < body_length cfg c -> uint e (source c r i e).
Proof using Hc.
  intros (_ & _ & Hs) Hin Hi. destruct (body_bounds m cfg c Hc) as (_ & Hb & _).
  apply elem_uint; [apply (vregs_any m (Some cfg) c Hc)|]. apply (Hs r e Hin). lia.
Qed.

Lemma refuse_or_write legal deew f srcs (body : Z -> unit -> Hart Cpu unit) :
  (legal = true -> operands deew srcs) ->
  (forall j s, legal = true -> 0 <= j < body_length cfg c -> reads c j srcs s ->
     body j tt s = put_element (rd insn) j deew (f j) s) ->
  outcome_is cfg c insn legal (rd insn) deew f false
    ((if negb legal then illegal insn else
      start <- vstart_now ;; vl <- active_length cfg ;; mark_dirty ;;;
      for_elements (masked insn) start vl body tt ;;; finish_vector) c).
Proof using Hc.
  intros Ho Hb. destruct legal; [|done]. destruct (Ho eq_refl) as (H1 & H2 & H3).
  apply (run_writes m cfg c Hc insn (rd insn) deew f srcs); [done..|]. intros j s Hj Hr. by apply Hb.
Qed.

Lemma refuse_or_saturate legal deew f srcs clip (body : Z -> bool -> Hart Cpu bool) :
  (legal = true -> operands deew srcs) ->
  (forall j acc s, legal = true -> 0 <= j < body_length cfg c -> reads c j srcs s ->
     body j acc s = (put_element (rd insn) j deew (f j) ;;; ret (acc || clip j)) s) ->
  outcome_is cfg c insn legal (rd insn) deew f (some_active cfg (masked insn) c clip)
    ((if negb legal then illegal insn else
      start <- vstart_now ;; vl <- active_length cfg ;; mark_dirty ;;;
      acc <- for_elements (masked insn) start vl body false ;; saturate acc ;;; finish_vector) c).
Proof using Hc.
  intros Ho Hb. destruct legal; [|done]. destruct (Ho eq_refl) as (H1 & H2 & H3).
  apply (run_saturates m cfg c Hc insn (rd insn) deew f srcs); [done..|]. intros j acc s Hj Hr. by apply Hb.
Qed.

(** The reads of a loop body. *)
Lemma right_run srcs rhs j s :
  (rhs = true -> In (rs1 insn, cfg.(sew)) srcs) -> reads c j srcs s ->
  vector_or_scalar rhs insn j cfg.(sew) (element_mask cfg.(sew)) s
  = (Ok (wrap cfg.(sew) (right_operand rhs c (rs1 insn) j cfg.(sew))), s).
Proof using Hc.
  intros Hi Hr. unfold vector_or_scalar. rewrite <- land_mask by apply (sew_width m cfg c Hc). destruct rhs.
  - by rewrite (bind_run _ _ _ _ _ (reads_src _ _ _ _ Hr (rs1 insn) cfg.(sew) (Hi eq_refl))).
  - by rewrite (bind_run _ _ _ _ _ (reads_x _ _ _ _ Hr (rs1 insn))).
Qed.

Lemma shift_run srcs format j s o :
  one_of format [0; 3; 4] = true -> (format = 0 -> In (rs1 insn, cfg.(sew)) srcs) -> reads c j srcs s ->
  shift_operand format insn j cfg.(sew) o s = (Ok (opi_operand cfg c insn format j), s).
Proof using Type.
  intros Hf Hi Hr. unfold shift_operand, opi_operand. destruct (format =? 0) eqn:E0.
  - by apply (reads_src _ _ _ _ Hr), Hi, Z.eqb_eq.
  - destruct (format =? 3) eqn:E3; [done|]. destruct (format =? 4) eqn:E4; [apply (reads_x _ _ _ _ Hr)|].
    by destruct (no_format format).
Qed.
(** *** Widening *)

Definition widen_sources (left_eew : Z) (rhs : bool) : list (Z * Z) :=
  (rd insn, wide) :: (rs2 insn, left_eew) :: (if rhs then [(rs1 insn, cfg.(sew))] else []).

Lemma widen_left le rhs : In (rs2 insn, le) (widen_sources le rhs).
Proof using Type. unfold widen_sources. simpl. auto. Qed.

Lemma widen_right le rhs : rhs = true -> In (rs1 insn, cfg.(sew)) (widen_sources le rhs).
Proof using Type. intros ->. unfold widen_sources. simpl. auto. Qed.

Lemma widen_old le rhs : In (rd insn, wide) (widen_sources le rhs).
Proof using Type. unfold widen_sources. simpl. auto. Qed.

Lemma widen_operands left_ratio left_eew rhs :
  has_wide cfg = true -> fits cfg left_eew left_ratio -> sized cfg left_eew left_ratio ->
  widen_illegal insn cfg (wide_ratio cfg) left_ratio left_eew rhs = false ->
  operands wide (widen_sources left_eew rhs).
Proof using Hc.
  intros Hwide Hlf Hls Hill. pose proof (cfg_decoded m cfg c Hc) as Hd. destruct (wide_fits cfg Hd Hwide) as [Hwf Hws].
  pose proof (proj1 (decoded_vlmax cfg Hd)) as Hl. unfold widen_illegal in Hill. cbv zeta in Hill.
  rewrite !orb_false_iff, !negb_false_iff in Hill.
  destruct Hill as (((((((Hvd & Hv2) & Hv1) & Ho2) & Ho1) & Hmd) & Hm2) & Hm1).
  assert (grouped cfg (rd insn) wide (wide_ratio cfg)) as Gd by (split_and!; auto with rv).
  assert (grouped cfg (rs2 insn) left_eew left_ratio) as G2 by (split_and!; auto with rv).
  split_and!.
  - by eapply grouped_elements.
  - intros Hm. unfold masked_overlap in Hmd. rewrite Hm in Hmd. eapply overlap_zero; [apply uint_rd|apply Hwf|done].
  - unfold widen_sources. intros r e [[= <- <-]|[[= <- <-]|Hin]].
    + split; [|by eapply grouped_elements]. eapply grouped_trails; [done..|]. unfold destination_source_overlap_legal.
      rewrite Z.eqb_refl. by destruct (groups_overlap _ _ _ _ _).
    + split; [by eapply grouped_trails|by eapply grouped_elements].
    + destruct rhs; [|done]. destruct Hin as [[= <- <-]|[]]. cbn [andb] in Hv1, Ho1.
      rewrite negb_false_iff in Hv1, Ho1.
      assert (grouped cfg (rs1 insn) cfg.(sew) (lmul cfg)) as G1
        by (split_and!; [by apply fits_lmul|by apply sized_facts|done|apply uint_rs1]).
      split; [by eapply grouped_trails|by eapply grouped_elements].
Qed.

(** The left operand of a widening sum is narrow (.vv) or wide (.wv). *)
Definition left_eew (wide_left : bool) : Z := if wide_left then wide else cfg.(sew).
Definition left_ratio (wide_left : bool) : GroupRatio := if wide_left then wide_ratio cfg else lmul cfg.

Definition widen_legal (wide_left rhs : bool) : bool :=
  has_wide cfg
  && negb (widen_illegal insn cfg (wide_ratio cfg) (left_ratio wide_left) (left_eew wide_left) rhs).

Lemma widen_legal_operands wide_left rhs :
  widen_legal wide_left rhs = true -> operands wide (widen_sources (left_eew wide_left) rhs).
Proof using Hc.
  intros [Hw Hn%negb_true_iff]%andb_true_iff. pose proof (cfg_decoded m cfg c Hc) as Hd.
  apply (widen_operands (left_ratio wide_left)); [done|..|done]; destruct wide_left.
  - by apply wide_fits.
  - by apply fits_lmul.
  - by apply wide_fits.
  - by apply sized_facts.
Qed.

(** The tests before the element loop. *)
Lemma widen_prefix (k : GroupRatio -> Hart Cpu unit) :
  (if 64 <? wide then illegal insn else r <- emul_or_illegal insn cfg wide ;; k r) c
  = (if has_wide cfg then k (wide_ratio cfg) else illegal insn) c.
Proof using Hc.
  unfold has_wide. destruct (Z.ltb_spec 64 wide), (Z.leb_spec cfg.(sew) 32); try lia; [done|]. cbn [andb].
  unfold bind. rewrite emul_wide_run; [|by apply (cfg_decoded m cfg c Hc)|done]. by destruct (_ <=? 2).
Qed.

Lemma narrow_width : is_width cfg.(sew) = true.
Proof using Hc. apply (sew_width m cfg c Hc). Qed.

Lemma wide_eew_width : has_wide cfg = true -> is_width wide = true.
Proof using Hc. intros [Hs _]%andb_true_iff. apply wide_exponent; [apply (cfg_decoded m cfg c Hc)|lia]. Qed.

Lemma widen_add_sub_wrap wide_left sgn subtract a b :
  has_wide cfg = true -> uint (left_eew wide_left) a -> uint cfg.(sew) b ->
  wrap wide (widen_add_sub_val cfg.(sew) wide_left sgn subtract a b)
  = wrap wide (let a := Arch.value sgn (left_eew wide_left) a in
               let b := Arch.value sgn cfg.(sew) b in if subtract then a - b else a + b).
Proof using Hc.
  intros Hw Ha Hb. pose proof (wide_eew_width Hw) as Hww. pose proof narrow_width as Hn.
  unfold widen_add_sub_val, Arch.value, left_eew, signed_narrow in *. cbv zeta.
  rewrite wrap_mask by done.
  destruct sgn, wide_left; rewrite ?signed_element_signed by done; destruct subtract; unfold add64, sub64;
    by rewrite ?wrap_u64.
Qed.

(** The widening sums and differences are exact: for the .vv and .vx forms
    the element of twice the width is the sum or difference of the signed or
    unsigned values (the wide left operand of the .wv and .wx forms wraps). *)
Theorem exec_vector_widen_add_sub_spec funct6 :
  one_of (funct3 insn) [2; 6] = true -> between 0x30 0x37 funct6 = true ->
  let rhs := funct3 insn =? 2 in
  let wide_left := 0x34 <=? funct6 in
  let sgn := Z.odd funct6 in
  outcome_is cfg c insn
    (widen_legal wide_left rhs
     && negb (wide_left && rhs
              && mixed_width_sources_overlap (rs2 insn) (wide_ratio cfg) wide (rs1 insn) (lmul cfg) cfg.(sew)))
    (rd insn) wide
    (fun i =>
       let a := Arch.value sgn (left_eew wide_left) (source c (rs2 insn) i (left_eew wide_left)) in
       let b := Arch.value sgn cfg.(sew) (wrap cfg.(sew) (right_operand rhs c (rs1 insn) i cfg.(sew))) in
       if one_of funct6 [0x32; 0x33; 0x36; 0x37] then a - b else a + b) false
    (exec_vector_widen_add_sub insn cfg funct6 c).
Proof using Hc.
  intros H3 H6. cbv zeta. unfold exec_vector_widen_add_sub. rewrite widen_prefix, H3, H6. cbn [negb orb].
  set (rhs := funct3 insn =? 2). set (wl := 0x34 <=? funct6). set (sgn := negb ((funct6 .& 1) =? 0)).
  set (sub := negb ((funct6 .& 2) =? 0)).
  assert (sgn = Z.odd funct6 /\ sub = one_of funct6 [0x32; 0x33; 0x36; 0x37]) as [Es Eb].
  { unfold between in H6. assert (funct6 = 48 \/ funct6 = 49 \/ funct6 = 50 \/ funct6 = 51 \/ funct6 = 52
      \/ funct6 = 53 \/ funct6 = 54 \/ funct6 = 55) as Hf by lia.
    by destruct Hf as [->|[->|[->|[->|[->|[->|[->| ->]]]]]]]. }
  rewrite <- Es, <- Eb. set (legal := widen_legal wl rhs && _).
  set (f i := widen_add_sub_val cfg.(sew) wl sgn sub (source c (rs2 insn) i (left_eew wl))
                (wrap cfg.(sew) (right_operand rhs c (rs1 insn) i cfg.(sew)))).
  eapply (outcome_ext cfg c insn legal (rd insn) wide f _ false); [|done|by eapply vstart_nonneg|].
  - intros [Hl _]%andb_true_iff i Hi. pose proof Hl as [Hw _]%andb_true_iff.
    apply widen_add_sub_wrap; [done| |by apply wrap_range, narrow_width].
    by eapply operand_uint; [by apply widen_legal_operands|apply widen_left|].
  - eapply eq_ind; [apply (refuse_or_write legal wide f (widen_sources (left_eew wl) rhs) (fun index _ =>
      a <- get_element (rs2 insn) index (left_eew wl) ;;
      b <- vector_or_scalar rhs insn index cfg.(sew) (element_mask cfg.(sew)) ;;
      put_element (rd insn) index wide (widen_add_sub_val cfg.(sew) wl sgn sub a b)))|].
    + intros [Hl _]%andb_true_iff. by apply widen_legal_operands.
    + intros j s Hl Hj Hr. rewrite (bind_run _ _ _ _ _ (reads_src _ _ _ _ Hr _ _ (widen_left _ _))).
      by rewrite (bind_run _ _ _ _ _ (right_run _ rhs _ _ (widen_right _ _) Hr)).
    + unfold legal, widen_legal. destruct (has_wide cfg); [|done]. cbn [andb].
      rewrite negb_andb, !negb_involutive. done.
Qed.
(** Widening products: which operands are signed. *)
Definition left_signed (funct6 : Z) : bool := one_of funct6 [0x3a; 0x3b; 0x3d; 0x3e].
Definition right_signed (funct6 : Z) : bool := one_of funct6 [0x3b; 0x3d; 0x3f].

Definition product (funct6 a b : Z) : Z :=
  Arch.value (left_signed funct6) cfg.(sew) a * Arch.value (right_signed funct6) cfg.(sew) b.

Lemma widen_product_run funct6 a b :
  one_of funct6 [0x38; 0x3a; 0x3b] = true -> uint cfg.(sew) a -> uint cfg.(sew) b ->
  widen_product cfg.(sew) funct6 a b = Some (product funct6 a b).
Proof using Hc.
  intros Hf Ha Hb. pose proof narrow_width as Hn. unfold widen_product, signed_narrow, product.
  rewrite !signed_element_signed by done. unfold one_of in Hf. cbn [existsb] in Hf.
  assert (funct6 = 56 \/ funct6 = 58 \/ funct6 = 59) as [->|[->| ->]] by lia; done.
Qed.

Lemma widen_madd_run funct6 a b :
  between 0x3c 0x3f funct6 = true -> uint cfg.(sew) a -> uint cfg.(sew) b ->
  widen_madd_product cfg.(sew) funct6 a b = Some (product funct6 a b).
Proof using Hc.
  intros Hf Ha Hb. pose proof narrow_width as Hn. unfold widen_madd_product, signed_narrow, product.
  rewrite !signed_element_signed by done. unfold between in Hf.
  assert (funct6 = 60 \/ funct6 = 61 \/ funct6 = 62 \/ funct6 = 63) as [->|[->|[->| ->]]] by lia; done.
Qed.

Definition product_at (funct6 : Z) (rhs : bool) (i : Z) : Z :=
  product funct6 (source c (rs2 insn) i cfg.(sew)) (wrap cfg.(sew) (right_operand rhs c (rs1 insn) i cfg.(sew))).

(** The widening products write the exact product of the signed or
    unsigned operand values to the element of twice the width. *)
Theorem exec_vector_widen_multiply_spec funct6 :
  one_of (funct3 insn) [2; 6] = true -> one_of funct6 [0x38; 0x3a; 0x3b] = true ->
  let rhs := funct3 insn =? 2 in
  outcome_is cfg c insn (widen_legal false rhs) (rd insn) wide (product_at funct6 rhs) false
    (exec_vector_widen_multiply insn cfg funct6 c).
Proof using Hc.
  intros H3 H6. cbv zeta. unfold exec_vector_widen_multiply. rewrite H3, H6. cbn [negb]. rewrite orb_false_r.
  rewrite widen_prefix. set (rhs := funct3 insn =? 2). set (legal := widen_legal false rhs).
  eapply (outcome_ext cfg c insn legal (rd insn) wide (fun i => u64 (product_at funct6 rhs i) .& element_mask wide) _ false);
    [|done|by eapply vstart_nonneg|].
  - intros [Hw _]%andb_true_iff i Hi. cbv beta. by rewrite wrap_mask, wrap_u64 by auto using wide_eew_width.
  - eapply eq_ind; [apply (refuse_or_write legal wide _ (widen_sources cfg.(sew) rhs) (fun index _ =>
      a <- get_element (rs2 insn) index cfg.(sew) ;;
      b <- vector_or_scalar rhs insn index cfg.(sew) (element_mask cfg.(sew)) ;;
      product <- unwrap (widen_product cfg.(sew) funct6 a b) ;;
      put_element (rd insn) index wide (u64 product .& element_mask wide)))|].
    + apply (widen_legal_operands false).
    + intros j s Hl Hj Hr. rewrite (bind_run _ _ _ _ _ (reads_src _ _ _ _ Hr _ _ (widen_left _ _))).
      rewrite (bind_run _ _ _ _ _ (right_run _ rhs _ _ (widen_right _ _) Hr)).
      rewrite widen_product_run; [done|done| |by apply wrap_range, narrow_width].
      by eapply operand_uint; [by apply (widen_legal_operands false)|apply widen_left|].
    + unfold legal, widen_legal. destruct (has_wide cfg); [|done]. cbn [andb left_ratio left_eew].
      by rewrite negb_involutive.
Qed.

(** The sources of a multiply-add may not overlap the wide accumulator at all. *)
Definition widen_madd_legal (rhs : bool) : bool :=
  widen_legal false rhs
  && negb (mixed_width_sources_overlap (rd insn) (wide_ratio cfg) wide (rs2 insn) (lmul cfg) cfg.(sew))
  && negb (rhs && mixed_width_sources_overlap (rd insn) (wide_ratio cfg) wide (rs1 insn) (lmul cfg) cfg.(sew)).

(** The widening multiply-adds accumulate the exact product. *)
Theorem exec_vector_widen_madd_spec funct6 :
  one_of (funct3 insn) [2; 6] = true -> between 0x3c 0x3f funct6 = true ->
  let rhs := funct3 insn =? 2 in
  (funct6 =? 0x3e) && rhs = false ->
  outcome_is cfg c insn (widen_madd_legal rhs) (rd insn) wide
    (fun i => source c (rd insn) i wide + product_at funct6 rhs i) false
    (exec_vector_widen_madd insn cfg funct6 c).
Proof using Hc.
  intros H3 H6. cbv zeta. intros Hx. unfold exec_vector_widen_madd. rewrite H3, H6, Hx. cbn [negb]. rewrite !orb_false_r.
  rewrite widen_prefix. set (rhs := funct3 insn =? 2). set (legal := widen_madd_legal rhs).
  assert (legal = true -> widen_legal false rhs = true) as Hlegal by (by intros [[? _]%andb_true_iff _]%andb_true_iff).
  eapply (outcome_ext cfg c insn legal (rd insn) wide
    (fun i => add64 (source c (rd insn) i wide) (u64 (product_at funct6 rhs i)) .& element_mask wide) _ false);
    [|done|by eapply vstart_nonneg|].
  - intros [Hw _]%Hlegal%andb_true_iff i Hi. cbv beta. rewrite wrap_mask by auto using wide_eew_width.
    unfold add64. assert (forall x y, u64 (x + u64 y) = u64 (x + y)) as -> by (intros; apply Zplus_mod_idemp_r).
    by apply wrap_u64, wide_eew_width.
  - eapply eq_ind; [apply (refuse_or_write legal wide _ (widen_sources cfg.(sew) rhs) (fun index _ =>
      a <- get_element (rs2 insn) index cfg.(sew) ;;
      b <- vector_or_scalar rhs insn index cfg.(sew) (element_mask cfg.(sew)) ;;
      product <- unwrap (widen_madd_product cfg.(sew) funct6 a b) ;;
      old <- get_element (rd insn) index wide ;;
      put_element (rd insn) index wide (add64 old (u64 product) .& element_mask wide)))|].
    + intros Hl. by apply (widen_legal_operands false), Hlegal.
    + intros j s Hl%Hlegal Hj Hr. rewrite (bind_run _ _ _ _ _ (reads_src _ _ _ _ Hr _ _ (widen_left _ _))).
      rewrite (bind_run _ _ _ _ _ (right_run _ rhs _ _ (widen_right _ _) Hr)).
      rewrite widen_madd_run; [|done| |by apply wrap_range, narrow_width].
      2: { by eapply operand_uint; [by apply (widen_legal_operands false)|apply widen_left|]. }
      change (unwrap (Some ?x)) with (ret (E := Exception) (S := Cpu) x). unfold bind at 1, ret at 1.
      by rewrite (bind_run _ _ _ _ _ (reads_src _ _ _ _ Hr _ _ (widen_old _ _))).
    + unfold legal, widen_madd_legal, widen_legal. destruct (has_wide cfg); [|done]. cbn [andb left_ratio left_eew].
      by rewrite <- !negb_orb, negb_involutive.
Qed.
(** *** Narrowing *)

Definition narrow_sources (vector_shift : bool) : list (Z * Z) :=
  (rs2 insn, wide) :: (if vector_shift then [(rs1 insn, cfg.(sew))] else []).

Definition narrow_legal : bool :=
  has_wide cfg && negb (narrow_illegal insn cfg (wide_ratio cfg) (funct3 insn)).

Lemma narrow_wide vs : In (rs2 insn, wide) (narrow_sources vs).
Proof using Type. unfold narrow_sources. simpl. auto. Qed.

Lemma narrow_shift_in : funct3 insn = 0 -> In (rs1 insn, cfg.(sew)) (narrow_sources (funct3 insn =? 0)).
Proof using Type. intros ->. unfold narrow_sources. simpl. auto. Qed.

Lemma narrow_format : narrow_legal = true -> one_of (funct3 insn) [0; 3; 4] = true.
Proof using Type.
  intros [_ Hn%negb_true_iff]%andb_true_iff. unfold narrow_illegal in Hn. cbv zeta in Hn.
  rewrite !orb_false_iff, !negb_false_iff in Hn. apply Hn.
Qed.

(** A vector shift amount trails the destination: they have one width. *)
Lemma narrow_operands : narrow_legal = true -> operands cfg.(sew) (narrow_sources (funct3 insn =? 0)).
Proof using Hc.
  intros [Hwide Hill%negb_true_iff]%andb_true_iff. pose proof (cfg_decoded m cfg c Hc) as Hd.
  destruct (wide_fits cfg Hd Hwide) as [Hwf Hws]. pose proof (proj1 (decoded_vlmax cfg Hd)) as Hl.
  unfold narrow_illegal in Hill. cbv zeta in Hill. rewrite !orb_false_iff, !negb_false_iff in Hill.
  destruct Hill as ((((((((_ & Hvd) & Hv2) & Hv1) & Ho2) & _) & Hmd) & _) & _).
  assert (grouped cfg (rd insn) cfg.(sew) (lmul cfg)) as Gd
    by (split_and!; [by apply fits_lmul|by apply sized_facts|done|apply uint_rd]).
  assert (grouped cfg (rs2 insn) wide (wide_ratio cfg)) as G2 by (split_and!; auto with rv).
  split_and!.
  - by eapply grouped_elements.
  - intros Hm. unfold masked_overlap in Hmd. rewrite Hm in Hmd.
    eapply overlap_zero; [apply uint_rd|apply (fits_lmul cfg Hd)|done].
  - unfold narrow_sources. intros r e [[= <- <-]|Hin].
    + split; [by eapply grouped_trails|by eapply grouped_elements].
    + destruct (funct3 insn =? 0); [|done]. destruct Hin as [[= <- <-]|[]]. cbn [andb] in Hv1.
      rewrite negb_false_iff in Hv1.
      assert (grouped cfg (rs1 insn) cfg.(sew) (lmul cfg)) as G1
        by (split_and!; [by apply fits_lmul|by apply sized_facts|done|apply uint_rs1]).
      split; [|by eapply grouped_elements]. eapply grouped_trails; [done..|].
      unfold destination_source_overlap_legal. rewrite Z.eqb_refl. by destruct (groups_overlap _ _ _ _ _).
Qed.

(** The shift amount, modulo twice the element width. *)
Definition narrow_shift (i : Z) : Z := opi_operand cfg c insn (funct3 insn) i mod wide.

Lemma narrow_shift_land i : has_wide cfg = true -> opi_operand cfg c insn (funct3 insn) i .& (wide - 1) = narrow_shift i.
Proof using Hc. intros Hw. by apply shift_amount, wide_eew_width. Qed.

(** The double-width source. *)
Lemma narrow_uint i : narrow_legal = true -> 0 <= i < body_length cfg c -> uint wide (source c (rs2 insn) i wide).
Proof using Hc. intros Hl Hi. by eapply operand_uint; [by apply narrow_operands|apply narrow_wide|]. Qed.

(** The narrowing shifts write the low half of the shifted double-width
    element. *)
Theorem exec_vector_narrow_shift_spec arithmetic :
  outcome_is cfg c insn narrow_legal (rd insn) cfg.(sew)
    (fun i => Arch.value arithmetic wide (source c (rs2 insn) i wide) / 2 ^ narrow_shift i) false
    (exec_vector_narrow_shift insn cfg arithmetic c).
Proof using Hc.
  unfold exec_vector_narrow_shift. cbv zeta. rewrite widen_prefix.
  eapply (outcome_ext cfg c insn narrow_legal (rd insn) cfg.(sew) (fun i =>
    if arithmetic then u64 (signed_element (source c (rs2 insn) i wide) wide .>> narrow_shift i)
    else source c (rs2 insn) i wide .>> narrow_shift i) _ false); [|done|by eapply vstart_nonneg|].
  - intros Hl i Hi. pose proof Hl as [Hw _]%andb_true_iff. pose proof (wide_eew_width Hw) as Hww.
    pose proof (width_range _ Hww). pose proof (narrow_uint i Hl Hi). unfold Arch.value, narrow_shift.
    pose proof (Z.mod_pos_bound (opi_operand cfg c insn (funct3 insn) i) wide ltac:(lia)).
    destruct arithmetic; rewrite Z.shiftr_div_pow2 by lia; [|done].
    by rewrite signed_element_signed, wrap_u64 by (done || apply narrow_width).
  - eapply eq_ind; [apply (refuse_or_write narrow_legal cfg.(sew) _ (narrow_sources (funct3 insn =? 0)) (fun index _ =>
      shift <- shift_operand (funct3 insn) insn index cfg.(sew) (illegal insn) ;;
      let shift := shift .& (wide - 1) in
      source <- get_element (rs2 insn) index wide ;;
      put_element (rd insn) index cfg.(sew)
        (if arithmetic then u64 (signed_element source wide .>> shift) else source .>> shift)))|].
    + apply narrow_operands.
    + intros j s Hl Hj Hr. pose proof Hl as [Hw _]%andb_true_iff.
      rewrite (bind_run _ _ _ _ _ (shift_run _ _ _ _ _ (narrow_format Hl) narrow_shift_in Hr)). cbv zeta.
      rewrite (bind_run _ _ _ _ _ (reads_src _ _ _ _ Hr _ _ (narrow_wide _))). by rewrite narrow_shift_land.
    + unfold narrow_legal. destruct (has_wide cfg); [|done]. cbn [andb]. by rewrite negb_involutive.
Qed.
(** A clip: the source, rounded after its shift, saturated to an element. *)
Definition clip_result (sgn : bool) (i : Z) : Z * bool :=
  let x := Arch.round c.(vector).(vxrm) (Arch.value sgn wide (source c (rs2 insn) i wide)) (narrow_shift i) in
  if sgn then Arch.saturate cfg.(sew) x else (Z.min x (2 ^ cfg.(sew) - 1), 2 ^ cfg.(sew) - 1 <? x).

Definition clip_code (sgn : bool) (i : Z) : Z * bool :=
  clip_val cfg.(sew) c.(vector).(vxrm) sgn (source c (rs2 insn) i wide) (narrow_shift i).

Lemma clip_code_result sgn i :
  narrow_legal = true -> 0 <= i < body_length cfg c ->
  wrap cfg.(sew) (fst (clip_code sgn i)) = wrap cfg.(sew) (fst (clip_result sgn i))
  /\ snd (clip_code sgn i) = snd (clip_result sgn i).
Proof using Hc.
  intros Hl Hi. pose proof Hl as [Hw _]%andb_true_iff. pose proof (wide_eew_width Hw) as Hww.
  pose proof narrow_width as Hn. pose proof (width_range _ Hww) as Hr. pose proof (width_range _ Hn) as Hrn.
  pose proof (narrow_uint i Hl Hi) as Hs. pose proof (vxrm_range m cfg c Hc) as Hv.
  pose proof (Z.mod_pos_bound (opi_operand cfg c insn (funct3 insn) i) wide ltac:(lia)) as Hm.
  pose proof (element_range wide (source c (rs2 insn) i wide) Hww).
  assert (2 ^ wide <= 2 ^ 64) by (apply Z.pow_le_mono_r; lia).
  assert (2 ^ (wide - 1) <= 2 ^ 64) by (apply Z.pow_le_mono_r; lia).
  assert (2 ^ 64 < 2 ^ 126) by (by apply Z.pow_lt_mono_r). assert (2 ^ 126 < 2 ^ 127) by (by apply Z.pow_lt_mono_r).
  assert (0 < 2 ^ (cfg.(sew) - 1)) by (apply Z.pow_pos_nonneg; lia).
  unfold clip_code, clip_val, clip_result, signed_narrow, Arch.value, uint in *. fold (narrow_shift i) in Hm. cbv zeta.
  destruct sgn.
  - rewrite signed_element_signed, fixed_round_signed_round by (done || lia). cbn [fst snd]. split; [by apply wrap_clamp|].
    rewrite Z.shiftl_1_l. unfold clamp, Arch.saturate. cbn [snd]. repeat case_match; lia.
  - rewrite fixed_round_unsigned_round by (done || lia). cbn [fst snd].
    rewrite element_mask_ones, Z.ones_equiv, <- Z.sub_1_r by done. split; [by apply wrap_u64|lia].
Qed.

(** C19: the clips round the shifted double-width element by vxrm, saturate it to
    an element, and set vxsat exactly when an active element saturates. *)
Theorem exec_vector_clip_spec sgn :
  outcome_is cfg c insn narrow_legal (rd insn) cfg.(sew) (fun i => fst (clip_result sgn i))
    (some_active cfg (masked insn) c (fun i => snd (clip_result sgn i)))
    (exec_vector_clip insn cfg sgn c).
Proof using Hc.
  unfold exec_vector_clip. cbv zeta. rewrite widen_prefix.
  eapply (outcome_ext cfg c insn narrow_legal (rd insn) cfg.(sew)
    (fun i => fst (clip_code sgn i) .& element_mask cfg.(sew)) _
    (some_active cfg (masked insn) c (fun i => snd (clip_code sgn i)))); [..|by eapply vstart_nonneg|].
  - intros Hl i Hi. cbv beta. rewrite wrap_mask by apply narrow_width. by apply clip_code_result.
  - intros Hl. apply some_active_ext; [by eapply vstart_nonneg|]. intros i Hi. by apply clip_code_result.
  - eapply eq_ind; [apply (refuse_or_saturate narrow_legal cfg.(sew) _ (narrow_sources (funct3 insn =? 0)) _
      (fun index saturated =>
      shift <- shift_operand (funct3 insn) insn index cfg.(sew) panic ;;
      let shift := shift .& (wide - 1) in
      source <- get_element (rs2 insn) index wide ;;
      vxrm <- vxrm_now ;;
      let '(value, clipped) := clip_val cfg.(sew) vxrm sgn source shift in
      put_element (rd insn) index cfg.(sew) (value .& element_mask cfg.(sew)) ;;;
      ret (saturated || clipped)))|].
    + apply narrow_operands.
    + intros j acc s Hl Hj Hr. pose proof Hl as [Hw _]%andb_true_iff.
      rewrite (bind_run _ _ _ _ _ (shift_run _ _ _ _ _ (narrow_format Hl) narrow_shift_in Hr)). cbv zeta.
      rewrite (bind_run _ _ _ _ _ (reads_src _ _ _ _ Hr _ _ (narrow_wide _))), narrow_shift_land by done.
      rewrite (bind_run _ _ _ _ _ (reads_vxrm _ _ _ _ Hr)). fold (clip_code sgn j). by destruct (clip_code sgn j).
    + unfold narrow_legal. destruct (has_wide cfg); [|done]. cbn [andb]. by rewrite negb_involutive.
Qed.
End Wide.

(** vwaddu.vv v4, v2, v1: 250 + 15 needs the ninth bit. *)
Lemma exec_vector_widen_add_sub_spec_witness :
  exists c', exec_vector_widen_add_sub 0xc220a257 demo_cfg 0x30 demo_hart = (Ok tt, c')
    /\ read_element c'.(vector) 4 15 16 = Some 265.
Proof.
  pose proof (exec_vector_widen_add_sub_spec false demo_cfg demo_hart demo_vinv 0xc220a257 0x30 eq_refl eq_refl) as H.
  unfold outcome_is in H. cbv zeta in H.
  match type of H with if ?l then _ else _ => assert (l = true) as Hl by (vm_compute; reflexivity); rewrite Hl in H end.
  destruct H as (c' & E & v & He & ->). eexists. split; [exact E|].
  etransitivity; [exact (ew_elements _ _ _ _ _ _ _ _ He 15 ltac:(vm_compute; split; congruence))|vm_compute; reflexivity].
Defined.

(** vnclipu.wi v8, v2, 4: the 16-bit elements of v2 are 0xfafa, and saturate. *)
Lemma exec_vector_clip_spec_witness :
  exists c', exec_vector_clip 0xba223457 demo_cfg false demo_hart = (Ok tt, c')
    /\ c'.(vector).(vxsat) = true /\ read_element c'.(vector) 8 0 8 = Some 255.
Proof.
  pose proof (exec_vector_clip_spec false demo_cfg demo_hart demo_vinv 0xba223457 false) as H.
  unfold outcome_is in H.
  assert (narrow_legal demo_cfg 0xba223457 = true) as Hl by (vm_compute; reflexivity). rewrite Hl in H.
  destruct H as (c' & E & v & He & ->). eexists. split; [exact E|]. split; [vm_compute; reflexivity|].
  etransitivity; [exact (ew_elements _ _ _ _ _ _ _ _ He 0 ltac:(vm_compute; split; congruence))|vm_compute; reflexivity].
Defined.
