(* ===== verification/DbtVector.v ===== *)
(** * Direct vector candidates of the compiler (rv64-dbt, ir.rs)

    The compiler classifies a vector instruction from its encoding alone:
    [VectorDirect.decode] names the SIMD lowering the emitter may try, or gives
    [None] and leaves the instruction to the typed helper.  Immediate vector
    configurations are resolved completely at compile time; [config_immediate]
    shows that what they resolve to is what the hart installs. *)

From S2P Require Import Prelude Exception Decode Csr State Bus Mmu Trap CsrOps Vector.

Inductive VectorLaneOp : Type :=
| LAdd | LSub | LReverseSub | LMinUnsigned | LMinSigned | LMaxUnsigned | LMaxSigned
| LAnd | LOr | LXor | LShiftLeft | LShiftRightUnsigned | LShiftRightSigned
| LMultiply | LMove.

#[global] Instance VectorLaneOp_dec : EqDecision VectorLaneOp.
Proof. solve_decision. Defined.

Inductive VectorFloatSignOp : Type := FCopy | FNegate | FXor.

Inductive VectorCompareOp : Type :=
| CEqual | CNotEqual | CLessUnsigned | CLessSigned | CLessEqualUnsigned
| CLessEqualSigned | CGreaterUnsigned | CGreaterSigned.

Inductive VectorReductionOp : Type := RAnd | ROr | RXor.

Inductive VectorMaskOp : Type :=
| MAndNot | MAnd | MOr | MXor | MOrNot | MNand | MNor | MXnor.

Inductive VectorOperand : Type :=
| VOVector (v : Z)
| VOScalarX (x : Z)
| VOImmediate (i : Z).

Module VectorDirect.

Inductive t : Type :=
| ConfigImmediate (destination vtype vl : Z)
| ConfigRetainFull (vtype vlmax : Z)
| Lane (op : VectorLaneOp) (masked : bool) (destination : Z) (source2 : option Z)
    (operand : VectorOperand)
| UnitStride (load masked : bool) (width register base : Z)
| Strided (load masked : bool) (width register base stride : Z)
| WholeRegisterMemory (load : bool) (register base registers : Z)
| WholeRegisterMove (destination source registers : Z)
| ScalarExtract (destination source : Z)
| ScalarInsert (destination source : Z)
| SlideImmediate (up : bool) (destination source offset : Z)
| SlideOne (up : bool) (destination source scalar : Z)
| GatherImmediate (destination source index : Z)
| GatherVector (destination source indices : Z)
| Index (destination : Z)
| Reduction (op : VectorReductionOp) (destination source seed : Z)
| MaskLogic (op : VectorMaskOp) (destination source2 source1 : Z)
| WidenAddSub (signed subtract wide_left : bool) (destination source2 : Z)
    (operand : VectorOperand)
| WidenMultiplyAccumulate (source2_signed operand_signed : bool) (destination source2 : Z)
    (operand : VectorOperand)
| FloatSign (op : VectorFloatSignOp) (destination source2 source1 : Z)
| FloatBroadcast (destination source : Z)
| FloatScalarInsert (destination source : Z)
| FloatScalarExtract (destination source : Z)
| FloatSlideOne (up : bool) (destination source scalar : Z)
| Compare (op : VectorCompareOp) (destination source2 : Z) (operand : VectorOperand).

(** Resolve a vtype immediate and an AVL: the new vtype and vl. *)
Definition decode_immediate_vector_config (raw_type avl : Z) : Z * Z :=
  let VILL := 1 .<< 63 in
  if negb ((raw_type .>> 8) =? 0) then (VILL, 0) else
  let m := raw_type .& 7 in
  let lmul_exp :=
    if m =? 0 then Some 0 else if m =? 1 then Some 1 else if m =? 2 then Some 2
    else if m =? 3 then Some 3 else if m =? 5 then Some (-3) else if m =? 6 then Some (-2)
    else if m =? 7 then Some (-1) else None in
  match lmul_exp with
  | None => (VILL, 0)
  | Some lmul_exp =>
      let vsew := (raw_type .>> 3) .& 7 in
      if 3 <? vsew then (VILL, 0) else
      let sew_log := 3 + vsew in
      if 6 + lmul_exp <? sew_log then (VILL, 0) else
      let vlmax_log := 7 + lmul_exp - sew_log in
      if vlmax_log <? 0 then (VILL, 0) else
      let vlmax := 1 .<< vlmax_log in
      (raw_type .& 0xff, Z.min avl vlmax)
  end.

(** [n.is_power_of_two()] for the register counts, which are at most 32. *)
Definition is_power_of_two (n : Z) : bool :=
  (n =? 1) || (n =? 2) || (n =? 4) || (n =? 8) || (n =? 16) || (n =? 32).

(** [((source << 3) as i8) >> 3]: a 5-bit immediate, sign-extended. *)
Definition simm5 (source : Z) : Z := i8 (u8 (source .<< 3)) .>> 3.

(** The lane operation of a funct6 and the formats it exists in, a bit set. *)
Definition lane_op (funct6 format source2 : Z) (masked : bool)
    : option (VectorLaneOp * Z) :=
  if funct6 =? 0x00 then Some (LAdd, 0x19)
  else if funct6 =? 0x02 then Some (LSub, 0x11)
  else if funct6 =? 0x03 then Some (LReverseSub, 0x18)
  else if funct6 =? 0x04 then Some (LMinUnsigned, 0x11)
  else if funct6 =? 0x05 then Some (LMinSigned, 0x11)
  else if funct6 =? 0x06 then Some (LMaxUnsigned, 0x11)
  else if funct6 =? 0x07 then Some (LMaxSigned, 0x11)
  else if funct6 =? 0x09 then Some (LAnd, 0x19)
  else if funct6 =? 0x0a then Some (LOr, 0x19)
  else if funct6 =? 0x0b then Some (LXor, 0x19)
  else if (funct6 =? 0x25) && ((format =? 2) || (format =? 6)) then Some (LMultiply, 0x44)
  else if funct6 =? 0x25 then Some (LShiftLeft, 0x18)
  else if funct6 =? 0x28 then Some (LShiftRightUnsigned, 0x18)
  else if funct6 =? 0x29 then Some (LShiftRightSigned, 0x18)
  else if (funct6 =? 0x17) && negb masked && (source2 =? 0) then Some (LMove, 0x19)
  else None.

Definition decode_vector_lane (funct6 destination format source source2 : Z)
    (masked : bool) : option t :=
  match lane_op funct6 format source2 masked with
  | None => None
  | Some (op, allowed_formats) =>
      if (allowed_formats .& (1 .<< format)) =? 0 then None else
      let operand :=
        if (format =? 0) || (format =? 2) then Some (VOVector source)
        else if (format =? 3)
                && bool_decide (op = LShiftLeft \/ op = LShiftRightUnsigned
                                \/ op = LShiftRightSigned)
        then Some (VOImmediate (i8 source))
        else if format =? 3 then Some (VOImmediate (simm5 source))
        else if (format =? 4) || (format =? 6) then Some (VOScalarX source)
        else None in
      match operand with
      | None => None
      | Some operand =>
          Some (Lane op masked destination
                  (if bool_decide (op = LMove) then None else Some source2) operand)
      end
  end.

(** LOAD-FP/STORE-FP encodings. *)
Definition decode_memory (opcode insn destination format source : Z) (unmasked : bool)
    : option t :=
  let width :=
    if format =? 0 then Some 8 else if format =? 5 then Some 16
    else if format =? 6 then Some 32 else if format =? 7 then Some 64 else None in
  match width with
  | None => None
  | Some width =>
      let fields := ((insn .>> 29) .& 7) + 1 in
      let mew := (insn .>> 28) .& 1 in
      let mop := (insn .>> 26) .& 3 in
      let aux := (insn .>> 20) .& 0x1f in
      let load := opcode =? 0x07 in
      if (mew =? 0) && (mop =? 0) && (aux =? 0) && (fields =? 1) then
        Some (UnitStride load (negb unmasked) width destination source)
      else if (mew =? 0) && (mop =? 2) && (fields =? 1) then
        Some (Strided load (negb unmasked) width destination source aux)
      else if unmasked && (mew =? 0) && (mop =? 0) && (aux =? 8)
              && is_power_of_two fields && (load || (width =? 8)) then
        Some (WholeRegisterMemory load destination source fields)
      else None
  end.

Definition mask_op (funct6 : Z) : option VectorMaskOp :=
  if funct6 =? 0x18 then Some MAndNot else if funct6 =? 0x19 then Some MAnd
  else if funct6 =? 0x1a then Some MOr else if funct6 =? 0x1b then Some MXor
  else if funct6 =? 0x1c then Some MOrNot else if funct6 =? 0x1d then Some MNand
  else if funct6 =? 0x1e then Some MNor else if funct6 =? 0x1f then Some MXnor
  else None.

Definition reduction_op (funct6 : Z) : option VectorReductionOp :=
  if funct6 =? 0x01 then Some RAnd else if funct6 =? 0x02 then Some ROr
  else if funct6 =? 0x03 then Some RXor else None.

Definition compare_op (funct6 : Z) : option (VectorCompareOp * Z) :=
  if funct6 =? 0x18 then Some (CEqual, 0x19)
  else if funct6 =? 0x19 then Some (CNotEqual, 0x19)
  else if funct6 =? 0x1a then Some (CLessUnsigned, 0x11)
  else if funct6 =? 0x1b then Some (CLessSigned, 0x11)
  else if funct6 =? 0x1c then Some (CLessEqualUnsigned, 0x19)
  else if funct6 =? 0x1d then Some (CLessEqualSigned, 0x19)
  else if funct6 =? 0x1e then Some (CGreaterUnsigned, 0x18)
  else if funct6 =? 0x1f then Some (CGreaterSigned, 0x18)
  else None.

(** The formats 1 and 5: floating-point vectors. *)
Definition decode_float (funct6 destination format source source2 : Z) : option t :=
  if format =? 1 then
    if (funct6 =? 0x10) && (source =? 0) then Some (FloatScalarExtract destination source2)
    else
      let sign op := Some (FloatSign op destination source2 source) in
      if funct6 =? 0x08 then sign FCopy
      else if funct6 =? 0x09 then sign FNegate
      else if funct6 =? 0x0a then sign FXor
      else None
  else
    if (funct6 =? 0x10) && (source2 =? 0) then Some (FloatScalarInsert destination source)
    else if (funct6 =? 0x17) && (source2 =? 0) then Some (FloatBroadcast destination source)
    else if (funct6 =? 0x0e) || (funct6 =? 0x0f) then
      Some (FloatSlideOne (funct6 =? 0x0e) destination source2 source)
    else None.

(** The tail of [decode]: widening, comparisons and lanes of the unmasked
    integer formats. *)
Definition decode_wide (funct6 destination format source source2 : Z) : option t :=
  let reg := if format =? 2 then VOVector source else VOScalarX source in
  let mv := (format =? 2) || (format =? 6) in
  if mv && (0x30 <=? funct6) && (funct6 <=? 0x37) then
    Some (WidenAddSub (negb ((funct6 .& 1) =? 0)) (negb ((funct6 .& 2) =? 0))
            (0x34 <=? funct6) destination source2 reg)
  else if mv && (0x3c <=? funct6) && (funct6 <=? 0x3f)
          && negb ((funct6 =? 0x3e) && (format =? 2)) then
    let '(s2, so) :=
      if funct6 =? 0x3c then (false, false)
      else if funct6 =? 0x3d then (true, true)
      else if funct6 =? 0x3e then (true, false)
      else (false, true) in
    Some (WidenMultiplyAccumulate s2 so destination source2 reg)
  else
    match compare_op funct6 with
    | Some (op, allowed_formats) =>
        if (allowed_formats .& (1 .<< format)) =? 0 then None
        else if format =? 0 then Some (Compare op destination source2 (VOVector source))
        else if format =? 3 then
          Some (Compare op destination source2 (VOImmediate (simm5 source)))
        else if format =? 4 then Some (Compare op destination source2 (VOScalarX source))
        else None
    | None => decode_vector_lane funct6 destination format source source2 false
    end.

(** The unmasked integer formats. *)
Definition decode_integer (funct6 destination format source source2 : Z) : option t :=
  if (funct6 =? 0x10) && (format =? 6) && (source2 =? 0) then
    Some (ScalarInsert destination source)
  else if (funct6 =? 0x10) && (format =? 2) && (source =? 0) then
    Some (ScalarExtract destination source2)
  else if (funct6 =? 0x27) && (format =? 3) then
    let registers := source + 1 in
    if is_power_of_two registers then
      Some (WholeRegisterMove destination source2 registers) else None
  else if ((funct6 =? 0x0e) || (funct6 =? 0x0f)) && (format =? 3) then
    Some (SlideImmediate (funct6 =? 0x0e) destination source2 source)
  else if ((funct6 =? 0x0e) || (funct6 =? 0x0f)) && (format =? 6) then
    Some (SlideOne (funct6 =? 0x0e) destination source2 source)
  else if (funct6 =? 0x0c) && (format =? 3) then
    Some (GatherImmediate destination source2 source)
  else if (funct6 =? 0x0c) && (format =? 0) then
    Some (GatherVector destination source2 source)
  else if (funct6 =? 0x14) && (format =? 2) && (source2 =? 0) && (source =? 0x11) then
    Some (Index destination)
  else
    match (if format =? 2 then mask_op funct6 else None) with
    | Some op => Some (MaskLogic op destination source2 source)
    | None =>
        match (if format =? 2 then reduction_op funct6 else None) with
        | Some op => Some (Reduction op destination source2 source)
        | None => decode_wide funct6 destination format source source2
        end
    end.

Definition decode (insn : Z) : option t :=
  let opcode := insn .& 0x7f in
  let destination := (insn .>> 7) .& 0x1f in
  let format := (insn .>> 12) .& 7 in
  let source := (insn .>> 15) .& 0x1f in
  let source2 := (insn .>> 20) .& 0x1f in
  let unmasked := negb ((insn .& (1 .<< 25)) =? 0) in
  let immediate_avl := (insn .>> 30) =? 3 in
  let retain :=
    if (opcode =? 0x57) && (format =? 7) && ((insn .>> 31) =? 0) && (source =? 0)
       && (destination =? 0)
    then
      let '(vtype, vlmax) :=
        decode_immediate_vector_config ((insn .>> 20) .& 0x7ff) U64_MAX in
      if (vtype .>> 63) =? 0 then Some (ConfigRetainFull vtype vlmax) else None
    else None in
  if (opcode =? 0x57) && (format =? 7)
     && (immediate_avl
         || (((insn .>> 31) =? 0) && (source =? 0) && negb (destination =? 0)))
  then
    let raw_type := (insn .>> 20) .& (if immediate_avl then 0x3ff else 0x7ff) in
    let avl := if immediate_avl then source else U64_MAX in
    let '(vtype, vl) := decode_immediate_vector_config raw_type avl in
    Some (ConfigImmediate destination vtype vl)
  else match retain with Some c => Some c | None =>
  if (opcode =? 0x07) || (opcode =? 0x27) then
    decode_memory opcode insn destination format source unmasked
  else if negb (opcode =? 0x57) || (format =? 7) then None
  else
    let funct6 := insn .>> 26 in
    if negb unmasked then decode_vector_lane funct6 destination format source source2 true
    else if (format =? 1) || (format =? 5) then
      decode_float funct6 destination format source source2
    else decode_integer funct6 destination format source source2
  end.

Definition uses_memory (d : t) : bool :=
  match d with
  | UnitStride _ _ _ _ _ | Strided _ _ _ _ _ _ | WholeRegisterMemory _ _ _ _ => true
  | _ => false
  end.

(** ** The configuration arms of the emitter (wasm.rs) *)

(** [KnownVectorConfig::decode(vtype, 0)], its VLMAX. *)
Definition known_vlmax (vtype : Z) : option Z :=
  if negb ((vtype .>> 8) =? 0) then None else
  let m := vtype .& 7 in
  let lmul_exp :=
    if m =? 0 then Some 0 else if m =? 1 then Some 1 else if m =? 2 then Some 2
    else if m =? 3 then Some 3 else if m =? 5 then Some (-3) else if m =? 6 then Some (-2)
    else if m =? 7 then Some (-1) else None in
  match lmul_exp with
  | None => None
  | Some lmul_exp =>
      let vsew := (vtype .>> 3) .& 7 in
      if (3 <? vsew) || (6 + lmul_exp <? 3 + vsew) then None else
      let vlmax_log := 4 + lmul_exp - vsew in
      if vlmax_log <? 0 then None else Some (1 .<< vlmax_log)
  end.

(** The guard of the retain-full arm: the vector unit is on, the current vtype
    is legal with this VLMAX (one test per encoding of the fixed ISA table),
    and the current vl is the full VLMAX. *)
Definition retain_full_guard (vlmax : Z) (c : Cpu) : bool :=
  let vtype := c.(vector).(vtype) in
  vector_enabled c
  && ((vtype .& not64 0xff) =? 0)
  && existsb (fun raw => match known_vlmax (Z.of_nat raw) with
                         | Some m => (m =? vlmax) && ((vtype .& 0x3f) =? Z.of_nat raw)
                         | None => false
                         end) (seq 0 64)
  && (c.(vector).(vl) =? vlmax).

(** Store vtype, vl and vstart, the destination register unless it is x0, and
    mark the vector state dirty. *)
Definition config_immediate_body (destination vtype vl : Z) (c : Cpu) : Cpu :=
  vector_dirty (wr destination vl
    (set_vector (set_vstart 0 (set_vl vl (set_vtype vtype c.(vector)))) c)).

(** The direct arm of a configuration candidate, [None] where the emitted code
    takes the helper instead. *)
Definition config_direct (d : t) (c : Cpu) : option Cpu :=
  match d with
  | ConfigImmediate destination vtype vl =>
      if vector_enabled c then Some (config_immediate_body destination vtype vl c) else None
  | ConfigRetainFull vtype vlmax =>
      if retain_full_guard vlmax c then Some (config_immediate_body 0 vtype vlmax c) else None
  | _ => None
  end.

(** ** The direct configuration arms are the hart's *)

Lemma decode_config_spec raw avl :
  uint 11 raw ->
  decode_immediate_vector_config raw avl
  = match decode_vtype raw with
    | Some cfg => (raw .& 0xff, Z.min avl cfg.(Vector.vlmax))
    | None => (VILL, 0)
    end.
Proof.
  intros Hr. unfold decode_immediate_vector_config, decode_vtype.
  assert (raw .& VILL = 0) as ->.
  { unfold VILL. apply Z.bits_inj'. intros i Hi. rewrite Z.land_spec, Z.bits_0.
    rewrite Z.shiftl_1_l, Z.pow2_bits_eqb by lia.
    destruct (Z.eqb_spec 63 i) as [<-|]; [|apply andb_false_r].
    by rewrite (proj1 (uint_testbit 11 raw ltac:(lia) (proj1 Hr)) Hr) by lia. }
  cbn [negb orb Z.eqb]. destruct (negb _); [done|]. cbv zeta.
  repeat match goal with
  | |- context [if raw .& 7 =? ?k then _ else _] => destruct (raw .& 7 =? k)
  end; try reflexivity.
  all: destruct (3 <? _); [done|]; destruct (_ <? 3 + _); [done|];
    destruct (_ <? 0); [done|]; reflexivity.
Qed.

Lemma decode_vtype_known raw :
  uint 8 raw ->
  match decode_vtype raw with Some cfg => Some cfg.(Vector.vlmax) | None => None end
  = known_vlmax (raw .& 0x3f).
Proof.
  intros Hr. apply (bool_decide_eq_true_1 _).
  refine (all_uint 8 (fun raw => bool_decide
    (match decode_vtype raw with Some cfg => Some cfg.(Vector.vlmax) | None => None end
     = known_vlmax (raw .& 0x3f))) _ raw Hr).
  vm_compute. reflexivity.
Qed.

Lemma vlmax_small raw cfg : uint 11 raw -> decode_vtype raw = Some cfg ->
  0 <= cfg.(Vector.vlmax) <= U64_MAX.
Proof.
  intros Hr Hd.
  assert (match decode_vtype raw with
          | Some cfg => (0 <=? cfg.(Vector.vlmax)) && (cfg.(Vector.vlmax) <=? U64_MAX)
          | None => true end = true) as H.
  { refine (all_uint 11 (fun raw => match decode_vtype raw with
      | Some cfg => (0 <=? cfg.(Vector.vlmax)) && (cfg.(Vector.vlmax) <=? U64_MAX)
      | None => true end) _ raw Hr).
    vm_compute. reflexivity. }
  rewrite Hd in H. lia.
Qed.

Lemma retain_full_config m c :
  uint 64 c.(vector).(vtype) -> retain_full_guard m c = true ->
  vector_enabled c = true /\ c.(vector).(vl) = m
  /\ exists cfg, config c.(vector) = Some cfg /\ cfg.(Vector.vlmax) = m.
Proof.
  intros Hw. unfold retain_full_guard. rewrite !andb_true_iff.
  intros [[[He Hlow%Z.eqb_eq] (raw & Hin & Hraw)%existsb_exists] Hvl%Z.eqb_eq].
  split_and!; [done..|].
  assert (uint 8 c.(vector).(vtype)) as H8.
  { destruct Hw as [H0 H64]. apply uint_testbit; [lia..|]. intros i Hi.
    destruct (decide (64 <= i)).
    { by apply (proj1 (uint_testbit 64 _ ltac:(lia) H0) (conj H0 H64)). }
    apply (f_equal (fun z => Z.testbit z i)) in Hlow.
    rewrite Z.land_spec, Z.bits_0 in Hlow. unfold not64 in Hlow.
    rewrite Z.ldiff_spec in Hlow. change U64_MAX with (Z.ones 64) in Hlow.
    change 0xff with (Z.ones 8) in Hlow.
    rewrite Z.ones_spec_low, Z.ones_spec_high in Hlow by lia.
    by rewrite andb_true_r in Hlow. }
  pose proof (decode_vtype_known _ H8) as Hk. unfold config.
  destruct (known_vlmax (Z.of_nat raw)) as [m'|] eqn:Ek; [|done].
  apply andb_true_iff in Hraw as [->%Z.eqb_eq Hv%Z.eqb_eq]. rewrite Hv, Ek in Hk.
  destruct (decode_vtype _) as [cfg|]; simplify_eq. eauto.
Qed.

(** The candidates of the other decoders have no configuration arm. *)
Definition is_config (o : option t) : bool :=
  match o with
  | Some (ConfigImmediate _ _ _) | Some (ConfigRetainFull _ _) => true
  | _ => false
  end.

Ltac no_config := repeat (case_match; try reflexivity).

Lemma lane_no_config f6 d fmt s s2 m : is_config (decode_vector_lane f6 d fmt s s2 m) = false.
Proof. unfold decode_vector_lane. no_config. Qed.

Lemma memory_no_config op insn d fmt s u : is_config (decode_memory op insn d fmt s u) = false.
Proof. unfold decode_memory. cbv zeta. no_config. Qed.

Lemma float_no_config f6 d fmt s s2 : is_config (decode_float f6 d fmt s s2) = false.
Proof. unfold decode_float. cbv zeta. no_config. Qed.

Lemma wide_no_config f6 d fmt s s2 : is_config (decode_wide f6 d fmt s s2) = false.
Proof. unfold decode_wide. cbv zeta. no_config; apply lane_no_config. Qed.

Lemma integer_no_config f6 d fmt s s2 : is_config (decode_integer f6 d fmt s s2) = false.
Proof. unfold decode_integer. cbv zeta. no_config; apply wide_no_config. Qed.

(** A configuration candidate comes from vsetivli, from vsetvli rd, x0 or from
    vsetvli x0, x0. *)
Inductive config_source (insn : Z) : t -> Prop :=
| from_vsetivli vtype vl :
    insn .>> 30 = 3 ->
    decode_immediate_vector_config ((insn .>> 20) .& 0x3ff) (rs1 insn) = (vtype, vl) ->
    config_source insn (ConfigImmediate (rd insn) vtype vl)
| from_vsetvli_max vtype vl :
    insn .>> 30 <> 3 -> insn .>> 31 = 0 -> rs1 insn = 0 -> rd insn <> 0 ->
    decode_immediate_vector_config ((insn .>> 20) .& 0x7ff) U64_MAX = (vtype, vl) ->
    config_source insn (ConfigImmediate (rd insn) vtype vl)
| from_vsetvli_keep vtype vlmax :
    insn .>> 30 <> 3 -> insn .>> 31 = 0 -> rs1 insn = 0 -> rd insn = 0 ->
    decode_immediate_vector_config ((insn .>> 20) .& 0x7ff) U64_MAX = (vtype, vlmax) ->
    vtype .>> 63 = 0 ->
    config_source insn (ConfigRetainFull vtype vlmax).

Lemma decode_config insn d :
  decode insn = Some d -> is_config (Some d) = true ->
  funct3 insn = 7 /\ config_source insn d.
Proof.
  intros Hd Hc. rewrite <- Hd in Hc. revert Hd Hc. unfold decode, funct3. fold (rs1 insn) (rd insn).
  destruct ((insn .& 0x7f =? 0x57)) eqn:E5, ((insn .>> 12) .& 7 =? 7) eqn:E7; cbn [andb negb orb].
  2-4: intros _; repeat case_match; try done;
    rewrite ?lane_no_config, ?memory_no_config, ?float_no_config, ?integer_no_config; done.
  apply Z.eqb_eq in E7. intros Hd Hc. split; [done|]. revert Hd Hc.
  destruct (Z.eqb_spec (insn .>> 30) 3) as [E3|E3]; cbn [orb andb].
  { destruct (decode_immediate_vector_config _ _) eqn:Ed. intros [= <-] _. by constructor. }
  assert (((insn .& 0x7f =? 0x07) || (insn .& 0x7f =? 0x27)) = false) as H27.
  { apply Z.eqb_eq in E5. by rewrite E5. }
  rewrite H27. clear H27.
  destruct (Z.eqb_spec (insn .>> 31) 0), (Z.eqb_spec (rs1 insn) 0), (Z.eqb_spec (rd insn) 0);
    cbn [orb andb negb]; try (intros; discriminate).
  - destruct (decode_immediate_vector_config _ _) as [vt m] eqn:Ed.
    destruct (Z.eqb_spec (vt .>> 63) 0); [|discriminate]. intros [= <-] _. by constructor.
  - destruct (decode_immediate_vector_config _ _) eqn:Ed. intros [= <-] _. by constructor.
Qed.

(** The order of the two updates does not matter. *)
Lemma wr_vector_dirty d v c : wr d v (vector_dirty c) = vector_dirty (wr d v c).
Proof. unfold wr, vector_dirty. destruct c. cbn. destruct (negb _); by destruct sys. Qed.

(** C20: the configuration the compiler resolves from the instruction encoding
    is the one the hart installs: whenever the direct arm of a vset{i}vli runs
    (its guard included), it leaves exactly the state the interpreter's
    configuration instruction leaves. *)
Theorem direct_config_sound insn d c c' :
  uint 64 c.(vector).(vtype) ->
  decode insn = Some d -> config_direct d c = Some c' ->
  exec_vector_config insn c = (Ok tt, c').
Proof.
  intros Hw Hd Hc.
  destruct (decode_config insn d Hd) as [H7 Hs]; [by destruct d|].
  assert (vector_enabled c = true) as He.
  { destruct d; try done; cbn in Hc; destruct (vector_enabled c) eqn:?; try done.
    unfold retain_full_guard in Hc. by rewrite Heqb in Hc. }
  unfold exec_vector_config, vector_check, bind, gets, modify, id. rewrite He, H7. cbn [Z.eqb negb].
  assert (uint 11 ((insn .>> 20) .& 0x3ff) /\ uint 11 ((insn .>> 20) .& 0x7ff)) as [Hr3 Hr7].
  { split; apply uint_land_r; unfold uint; lia. }
  destruct Hs as [vt n E3 Ed|vt n E3 E31 E1 E0 Ed|vt n E3 E31 E1 E0 Ed Ev]; cbn in Hc.
  - rewrite E3. cbn [Z.eqb Pos.eqb]. rewrite He in Hc. injection Hc as <-.
    rewrite (decode_config_spec _ _ Hr3) in Ed. unfold install_config, config_immediate_body.
    cbn [negb andb orb].
    destruct (decode_vtype _); injection Ed as <- <-; rewrite <- wr_vector_dirty; reflexivity.
  - apply Z.eqb_neq in E3. rewrite E3, E31, E1, He in *. injection Hc as <-.
    rewrite (decode_config_spec _ _ Hr7) in Ed. unfold install_config, config_immediate_body.
    apply Z.eqb_neq in E0. cbn [Z.eqb negb andb orb]. rewrite E0, <- wr_vector_dirty.
    destruct (decode_vtype _) as [cfg|] eqn:Ec; injection Ed as <- <-; [|reflexivity].
    pose proof (vlmax_small _ _ Hr7 Ec). rewrite Z.min_r by lia. reflexivity.
  - destruct (retain_full_guard n c) eqn:Hg; [|done]. injection Hc as <-.
    destruct (retain_full_config n c Hw Hg) as (_ & Hvl & old & Hold & Hmax).
    apply Z.eqb_neq in E3. rewrite E3, E31, E1, E0.
    rewrite (decode_config_spec _ _ Hr7) in Ed. unfold install_config, config_immediate_body.
    cbn [Z.eqb Pos.eqb negb andb orb]. rewrite Hold, <- wr_vector_dirty.
    destruct (decode_vtype _) as [cfg|] eqn:Ec; injection Ed as <- <-; [|done].
    pose proof (vlmax_small _ _ Hr7 Ec) as Hm. rewrite Z.min_r in Hmax, Hvl |- * by lia.
    rewrite Hmax, Z.eqb_refl. cbn [vl set_vtype set_vl set_vstart]. by rewrite <- Hvl.
Qed.

(** vsetivli x5, 3, e32, m1: the compiler resolves vl = 3. *)
Lemma direct_config_sound_witness :
  exec_vector_config 0xcd01f2d7 Cpu_new
  = (Ok tt, config_immediate_body 5 0xd0 3 Cpu_new).
Proof.
  apply (direct_config_sound _ (ConfigImmediate 5 0xd0 3)).
  - unfold uint. vm_compute. split; congruence.
  - vm_compute. reflexivity.
  - reflexivity.
Defined.
End VectorDirect.
