(* ===== verification/DbtIr.v ===== *)
(** * The compiler's intermediate representation (rv64-dbt, ir.rs)

    A region is a list of typed SSA values and a list of ordered effects, each
    placed before the value at its position.  Architectural registers live in
    the builder while a region is lifted: a read becomes one value and later
    reads see the latest definition.  This file has the data, the builder with
    its constant folding, the validator and the dead-value pass. *)

From S2P Require Import Prelude DbtVector.

(** ** Data *)

(** Index of a value in its region. *)
Abbreviation ValueId := nat (only parsing).

Inductive ValueType : Type := I32 | I64.

#[global] Instance ValueType_dec : EqDecision ValueType.
Proof. solve_decision. Defined.

Inductive BinaryOp : Type :=
| I64Add | I64Sub | I64Mul | I64And | I64Or | I64Xor | I64Shl | I64ShrU | I64ShrS
| I32Add | I32Sub | I32Mul | I32And | I32Or | I32Xor | I32Shl | I32ShrU | I32ShrS
| I64Eq | I64Ne | I64LtS | I64LtU | I64GeS | I64GeU.

#[global] Instance BinaryOp_dec : EqDecision BinaryOp.
Proof. solve_decision. Defined.

Definition input_type (op : BinaryOp) : ValueType :=
  match op with
  | I32Add | I32Sub | I32Mul | I32And | I32Or | I32Xor | I32Shl | I32ShrU | I32ShrS => I32
  | _ => I64
  end.

Definition result_type (op : BinaryOp) : ValueType :=
  match op with
  | I64Eq | I64Ne | I64LtS | I64LtU | I64GeS | I64GeU => I32
  | op => input_type op
  end.

Inductive DivideOp : Type :=
| I64DivS | I64DivU | I64RemS | I64RemU | I32DivS | I32DivU | I32RemS | I32RemU.

Definition value_type (op : DivideOp) : ValueType :=
  match op with
  | I64DivS | I64DivU | I64RemS | I64RemU => I64
  | I32DivS | I32DivU | I32RemS | I32RemU => I32
  end.

Definition is_signed (op : DivideOp) : bool :=
  match op with I64DivS | I64RemS | I32DivS | I32RemS => true | _ => false end.

Definition is_remainder (op : DivideOp) : bool :=
  match op with I64RemS | I64RemU | I32RemS | I32RemU => true | _ => false end.

Inductive MulHighKind : Type := SignedSigned | SignedUnsigned | UnsignedUnsigned.

Inductive ExactFpOp : Type :=
| Add32 | Sub32 | Mul32 | Div32 | Add64 | Sub64 | Mul64 | Div64
| Eq32 | Lt32 | Le32 | Eq64 | Lt64 | Le64 | Sqrt32 | Sqrt64
| Min32 | Max32 | Min64 | Max64 | Cvt32From64 | Cvt64From32
| CvtI32From32 | CvtU32From32 | CvtI64From32 | CvtU64From32
| CvtI32From64 | CvtU32From64 | CvtI64From64 | CvtU64From64
| Cvt32FromI32 | Cvt32FromU32 | Cvt32FromI64 | Cvt32FromU64
| Cvt64FromI32 | Cvt64FromU32 | Cvt64FromI64 | Cvt64FromU64
| Class32 | Class64 | Fma32 | Fma64.

(** [self as i32]: the discriminants count from zero in declaration order. *)
Definition helper_code (op : ExactFpOp) : Z :=
  match op with
  | Add32 => 0 | Sub32 => 1 | Mul32 => 2 | Div32 => 3
  | Add64 => 4 | Sub64 => 5 | Mul64 => 6 | Div64 => 7
  | Eq32 => 8 | Lt32 => 9 | Le32 => 10 | Eq64 => 11 | Lt64 => 12 | Le64 => 13
  | Sqrt32 => 14 | Sqrt64 => 15 | Min32 => 16 | Max32 => 17 | Min64 => 18 | Max64 => 19
  | Cvt32From64 => 20 | Cvt64From32 => 21
  | CvtI32From32 => 22 | CvtU32From32 => 23 | CvtI64From32 => 24 | CvtU64From32 => 25
  | CvtI32From64 => 26 | CvtU32From64 => 27 | CvtI64From64 => 28 | CvtU64From64 => 29
  | Cvt32FromI32 => 30 | Cvt32FromU32 => 31 | Cvt32FromI64 => 32 | Cvt32FromU64 => 33
  | Cvt64FromI32 => 34 | Cvt64FromU32 => 35 | Cvt64FromI64 => 36 | Cvt64FromU64 => 37
  | Class32 => 38 | Class64 => 39 | Fma32 => 40 | Fma64 => 41
  end.

Module LoadKind.

Inductive t : Type := I8S | I16S | I32S | I64 | I8U | I16U | I32U.

Definition bytes (k : t) : Z :=
  match k with I8S | I8U => 1 | I16S | I16U => 2 | I32S | I32U => 4 | I64 => 8 end.
End LoadKind.

Module StoreKind.

Inductive t : Type := I8 | I16 | I32 | I64.

Definition bytes (k : t) : Z := match k with I8 => 1 | I16 => 2 | I32 => 4 | I64 => 8 end.
End StoreKind.

Inductive ReservationOp : Type := LoadReserved | StoreConditional.

Record SideExit : Type := mkSideExit {
  se_guest_pc : Z;
  se_retired : Z;
  se_outputs : list (Z * ValueId);
  se_f_outputs : list (Z * ValueId);
  se_fcsr_output : option ValueId
}.

Module Op.

Inductive t : Type :=
| ConstI32 (v : Z)
| ConstI64 (v : Z)
| GuestPc (pc : Z)
| ReadX (reg : Z)
| ReadF (reg : Z)
| ReadFcsr
| Binary (op : BinaryOp) (lhs rhs : ValueId)
| Divide (op : DivideOp) (lhs rhs : ValueId)
| WrapI64ToI32 (v : ValueId)
| ExtendI32S (v : ValueId)
| ExtendI32U (v : ValueId)
| SelectI64 (condition if_true if_false : ValueId)
| Load (address : ValueId) (kind : LoadKind.t) (exit : SideExit)
| ExactFp (op : ExactFpOp) (lhs rhs third rm fcsr : ValueId) (exit : SideExit)
| Reservation (op : ReservationOp) (address : ValueId)
| ReloadFcsr (v : ValueId).

End Op.

Module Effect.

Inductive t : Type :=
| Store (position : nat) (address value : ValueId) (kind : StoreKind.t)
    (condition : option ValueId) (exit : SideExit)
| Guard (position : nat) (condition : ValueId) (exit : SideExit)
| GuardTarget (position : nat) (target : ValueId) (expected : Z) (exit : SideExit)
| FpState (position : nat) (dirty : bool) (exit : SideExit)
| VectorState (position : nat) (exit : SideExit)
| Vector (position : nat) (insn : Z) (direct : option VectorDirect.t) (fallthrough : Z)
    (exit : SideExit).

Definition position (e : t) : nat :=
  match e with
  | Store p _ _ _ _ _ | Guard p _ _ | GuardTarget p _ _ _ | FpState p _ _
  | VectorState p _ | Vector p _ _ _ _ => p
  end.
End Effect.

Record ValueData : Type := mkValue { vd_ty : ValueType; vd_op : Op.t; vd_guest_pc : Z }.

Inductive ExitKind : Type := Dispatch | Unsupported | RegionLimit.

Record Region : Type := mkRegion {
  r_entry_pc : Z;
  r_end_pc : Z;
  r_values : list ValueData;
  r_outputs : list (Z * ValueId);
  r_f_outputs : list (Z * ValueId);
  r_fcsr_output : option ValueId;
  r_next_pc : ValueId;
  r_retired : Z;
  r_exit : ExitKind;
  r_trace_mix : list Z;
  r_trace_stack_memory : Z;
  r_writes_x2 : bool;
  r_effects : list Effect.t
}.

(** ** Operands and renaming *)

(** The values a side exit commits, in the order [for_each_value] visits them. *)
Definition exit_values (e : SideExit) : list ValueId :=
  map snd e.(se_outputs) ++ map snd e.(se_f_outputs) ++ option_list e.(se_fcsr_output).

(** The operands of an operation, in the order [for_each_operand] visits them. *)
Definition operands (op : Op.t) : list ValueId :=
  match op with
  | Op.ConstI32 _ | Op.ConstI64 _ | Op.GuestPc _ | Op.ReadX _ | Op.ReadF _ | Op.ReadFcsr => []
  | Op.Binary _ lhs rhs | Op.Divide _ lhs rhs => [lhs; rhs]
  | Op.WrapI64ToI32 v | Op.ExtendI32S v | Op.ExtendI32U v => [v]
  | Op.SelectI64 c t f => [c; t; f]
  | Op.Load address _ exit => address :: exit_values exit
  | Op.ExactFp _ lhs rhs third rm fcsr exit => lhs :: rhs :: third :: rm :: fcsr :: exit_values exit
  | Op.Reservation _ address => [address]
  | Op.ReloadFcsr v => [v]
  end.

(** [map[id.0].expect(..)]: [None] is the panic. *)
Definition remap_id (m : list (option ValueId)) (id : ValueId) : option ValueId :=
  mjoin (m !! id).

Definition remap_outputs (m : list (option ValueId)) (l : list (Z * ValueId))
    : option (list (Z * ValueId)) :=
  mapM (fun '(reg, v) => v' ← remap_id m v; Some (reg, v')) l.

Definition remap_opt (m : list (option ValueId)) (o : option ValueId)
    : option (option ValueId) :=
  match o with
  | Some v => v' ← remap_id m v; Some (Some v')
  | None => Some None
  end.

Definition remap_exit (m : list (option ValueId)) (e : SideExit) : option SideExit :=
  outputs ← remap_outputs m e.(se_outputs);
  f_outputs ← remap_outputs m e.(se_f_outputs);
  fcsr_output ← remap_opt m e.(se_fcsr_output);
  Some (mkSideExit e.(se_guest_pc) e.(se_retired) outputs f_outputs fcsr_output).

Definition remap_op (m : list (option ValueId)) (op : Op.t) : option Op.t :=
  let get := remap_id m in
  match op with
  | Op.ConstI32 v => Some (Op.ConstI32 v)
  | Op.ConstI64 v => Some (Op.ConstI64 v)
  | Op.GuestPc v => Some (Op.GuestPc v)
  | Op.ReadX reg => Some (Op.ReadX reg)
  | Op.ReadF reg => Some (Op.ReadF reg)
  | Op.ReadFcsr => Some Op.ReadFcsr
  | Op.Binary op lhs rhs => l ← get lhs; r ← get rhs; Some (Op.Binary op l r)
  | Op.Divide op lhs rhs => l ← get lhs; r ← get rhs; Some (Op.Divide op l r)
  | Op.WrapI64ToI32 v => v ← get v; Some (Op.WrapI64ToI32 v)
  | Op.ExtendI32S v => v ← get v; Some (Op.ExtendI32S v)
  | Op.ExtendI32U v => v ← get v; Some (Op.ExtendI32U v)
  | Op.SelectI64 c t f => c ← get c; t ← get t; f ← get f; Some (Op.SelectI64 c t f)
  | Op.Load address kind exit =>
      a ← get address; e ← remap_exit m exit; Some (Op.Load a kind e)
  | Op.ExactFp op lhs rhs third rm fcsr exit =>
      l ← get lhs; r ← get rhs; t ← get third; rm ← get rm; fc ← get fcsr;
      e ← remap_exit m exit; Some (Op.ExactFp op l r t rm fc e)
  | Op.Reservation op address => a ← get address; Some (Op.Reservation op a)
  | Op.ReloadFcsr v => v ← get v; Some (Op.ReloadFcsr v)
  end.

(** ** Validation *)

Inductive ValidationError : Type :=
| NonPriorOperand (index operand : nat)
| MissingOperand (index operand : nat)
| InvalidBinaryType (index : nat)
| InvalidDivideType (index : nat)
| InvalidPairing (index : nat)
| NextPcNotI64
| InvalidOutput (reg : Z)
| InvalidFpOutput (reg : Z)
| InvalidFcsrOutput
| InvalidStore
| UnpairedStore
| InvalidGuard
| InvalidTargetGuard
| InvalidFpState
| InvalidVector
| InvalidExitOutput (reg : Z)
| InvalidExitFpOutput (reg : Z)
| InvalidExitFcsr.

(** [Result<A, ValidationError>]. *)
Definition Checked (A : Type) : Type := M ValidationError unit A.

(** [for x in l { check(x)? }]. *)
Fixpoint for_each {E S A} (check : A -> M E S unit) (l : list A) : M E S unit :=
  match l with
  | [] => ret tt
  | x :: l => check x ;;; for_each check l
  end.

Section Validate.
Context (values : list ValueData).

Definition ty_of (id : ValueId) : option ValueType := vd_ty <$> values !! id.

Definition has_ty (id : ValueId) (t : ValueType) : bool := bool_decide (ty_of id = Some t).

Definition validate_side_exit (exit : SideExit) (available_before : nat) : Checked unit :=
  for_each (fun '(reg, value) =>
    if (reg =? 0) || (32 <=? reg) || bool_decide (available_before <= value)%nat
       || negb (has_ty value I64)
    then throw (InvalidExitOutput reg) else ret tt) exit.(se_outputs) ;;;
  for_each (fun '(reg, value) =>
    if (32 <=? reg) || bool_decide (available_before <= value)%nat || negb (has_ty value I64)
    then throw (InvalidExitFpOutput reg) else ret tt) exit.(se_f_outputs) ;;;
  match exit.(se_fcsr_output) with
  | Some value =>
      if bool_decide (available_before <= value)%nat || negb (has_ty value I32)
      then throw InvalidExitFcsr else ret tt
  | None => ret tt
  end.

Definition check_prior (index : nat) (operand : ValueId) : Checked ValueType :=
  if bool_decide (index <= operand)%nat then throw (NonPriorOperand index operand) else
  ok_or (ty_of operand) (MissingOperand index operand).

(** [check_prior(v)? == t]. *)
Definition prior_is (index : nat) (operand : ValueId) (t : ValueType) : Checked bool :=
  t' <- check_prior index operand ;; ret (bool_decide (t' = t)).

(** Short-circuiting [&&] of fallible tests. *)
Fixpoint all_prior (index : nat) (l : list (ValueId * ValueType)) : Checked bool :=
  match l with
  | [] => ret true
  | (v, t) :: l => ok <- prior_is index v t ;; if ok : bool then all_prior index l else ret false
  end.

Definition validate_value (index : nat) (value : ValueData) : Checked unit :=
  let ty := value.(vd_ty) in
  let typed t := bool_decide (ty = t) in
  let require (bad : ValidationError) (ok : bool) : Checked unit :=
    if ok then ret tt else throw bad in
  let pairing := require (InvalidPairing index) in
  match value.(vd_op) with
  | Op.ConstI32 _ => pairing (typed I32)
  | Op.ConstI64 _ | Op.GuestPc _ | Op.ReadX _ | Op.ReadF _ => pairing (typed I64)
  | Op.ReadFcsr => pairing (typed I32)
  | Op.Binary op lhs rhs =>
      ok <- all_prior index [(lhs, input_type op); (rhs, input_type op)] ;;
      require (InvalidBinaryType index) (ok && typed (result_type op))
  | Op.Divide op lhs rhs =>
      ok <- all_prior index [(lhs, value_type op); (rhs, value_type op)] ;;
      require (InvalidDivideType index) (ok && typed (value_type op))
  | Op.WrapI64ToI32 v => ok <- all_prior index [(v, I64)] ;; pairing (ok && typed I32)
  | Op.ExtendI32S v | Op.ExtendI32U v =>
      ok <- all_prior index [(v, I32)] ;; pairing (ok && typed I64)
  | Op.SelectI64 c t f =>
      ok <- all_prior index [(c, I32); (t, I64); (f, I64)] ;; pairing (ok && typed I64)
  | Op.Load address _ exit =>
      ok <- all_prior index [(address, I64)] ;;
      if ok && typed I64 then validate_side_exit exit index else throw (InvalidPairing index)
  | Op.ExactFp _ lhs rhs third rm fcsr exit =>
      ok <- all_prior index [(lhs, I64); (rhs, I64); (third, I64); (rm, I32); (fcsr, I32)] ;;
      if ok && typed I64 then validate_side_exit exit index else throw (InvalidPairing index)
  | Op.Reservation _ address => ok <- all_prior index [(address, I64)] ;; pairing (ok && typed I32)
  | Op.ReloadFcsr helper => ok <- all_prior index [(helper, I64)] ;; pairing (ok && typed I32)
  end.

(** A conditional store's condition is the SC probe of the same address. *)
Definition paired (condition address : ValueId) : bool :=
  match values !! condition with
  | Some d => match d.(vd_op) with
              | Op.Reservation StoreConditional a => bool_decide (a = address)
              | _ => false
              end
  | None => false
  end.

Definition validate_effect (e : Effect.t) : Checked unit :=
  let len := length values in
  let prior (v : ValueId) position := bool_decide (v < position)%nat in
  match e with
  | Effect.Store position address value _ condition exit =>
      if bool_decide (len < position)%nat
         || negb (prior address position) || negb (prior value position)
         || negb (has_ty address I64) || negb (has_ty value I64)
         || match condition with
            | Some c => negb (prior c position) || negb (has_ty c I32)
            | None => false
            end
      then throw InvalidStore else
      match condition with
      | Some c => if paired c address then ret tt else throw UnpairedStore
      | None => ret tt
      end ;;;
      validate_side_exit exit position
  | Effect.Guard position condition exit =>
      if bool_decide (len < position)%nat || negb (prior condition position)
         || negb (has_ty condition I32)
      then throw InvalidGuard else validate_side_exit exit position
  | Effect.GuardTarget position target _ exit =>
      if bool_decide (len < position)%nat || negb (prior target position)
         || negb (has_ty target I64)
      then throw InvalidTargetGuard else validate_side_exit exit position
  | Effect.FpState position _ exit | Effect.VectorState position exit =>
      if bool_decide (len < position)%nat then throw InvalidFpState
      else validate_side_exit exit position
  | Effect.Vector position _ _ _ exit =>
      if bool_decide (len < position)%nat then throw InvalidVector
      else validate_side_exit exit position
  end.
End Validate.

(** [values.iter().enumerate()]. *)
Definition enumerate {A} (l : list A) : list (nat * A) := imap pair l.

Definition validate_region (r : Region) : Checked unit :=
  let values := r.(r_values) in
  for_each (fun '(index, value) => validate_value values index value) (enumerate values) ;;;
  (if has_ty values r.(r_next_pc) I64 then ret tt else throw NextPcNotI64) ;;;
  for_each (fun '(reg, value) =>
    if (reg =? 0) || (32 <=? reg) || negb (has_ty values value I64)
    then throw (InvalidOutput reg) else ret tt) r.(r_outputs) ;;;
  for_each (fun '(reg, value) =>
    if (32 <=? reg) || negb (has_ty values value I64)
    then throw (InvalidFpOutput reg) else ret tt) r.(r_f_outputs) ;;;
  match r.(r_fcsr_output) with
  | Some value => if has_ty values value I32 then ret tt else throw InvalidFcsrOutput
  | None => ret tt
  end ;;;
  for_each (validate_effect values) r.(r_effects).

(** [Region::validate]. *)
Definition validate (r : Region) : outcome ValidationError unit := fst (validate_region r tt).

(** ** Dead-value elimination *)

(** The values an effect uses, in the order the pass pushes them. *)
Definition effect_values (e : Effect.t) : list ValueId :=
  match e with
  | Effect.Store _ address value _ condition exit =>
      [address; value] ++ option_list condition ++ exit_values exit
  | Effect.Guard _ condition exit => condition :: exit_values exit
  | Effect.GuardTarget _ target _ exit => target :: exit_values exit
  | Effect.FpState _ _ exit | Effect.VectorState _ exit | Effect.Vector _ _ _ _ exit =>
      exit_values exit
  end.

(** Loads, FP helpers and reservation helpers are kept whatever uses them. *)
Definition is_effectful (op : Op.t) : bool :=
  match op with
  | Op.Load _ _ _ | Op.ExactFp _ _ _ _ _ _ _ | Op.Reservation _ _ => true
  | _ => false
  end.

(** The initial work list, in push order. *)
Definition dce_roots (r : Region) : list ValueId :=
  r.(r_next_pc) :: map snd r.(r_outputs) ++ map snd r.(r_f_outputs)
    ++ option_list r.(r_fcsr_output)
    ++ map fst (filter (fun '(_, v) => is_effectful v.(vd_op) = true) (enumerate r.(r_values)))
    ++ concat (map effect_values r.(r_effects)).

(** [while let Some(id) = work.pop()]: the stack's top is the head.  [None] is
    an index out of range, or a fuel too small. *)
Fixpoint mark (fuel : nat) (values : list ValueData) (live : list bool)
    (work : list ValueId) : option (list bool) :=
  match work with
  | [] => Some live
  | id :: work =>
      match fuel with
      | O => None
      | S fuel =>
          match live !! id, values !! id with
          | Some true, _ => mark fuel values live work
          | Some false, Some v =>
              mark fuel values (<[id := true]> live) (rev (operands v.(vd_op)) ++ work)
          | _, _ => None
          end
      end
  end.

(** Every pop either drops an entry or expands a value not yet live. *)
Definition mark_fuel (values : list ValueData) (work : list ValueId) : nat :=
  (length work + sum_list_with (fun v => length (operands v.(vd_op))) values)%nat.

(** Renumber the live values; [m] maps the old indices seen so far. *)
Fixpoint compact (live : list bool) (vals : list ValueData) (m : list (option ValueId))
    (out : list ValueData) : option (list (option ValueId) * list ValueData) :=
  match live, vals with
  | true :: live, v :: vals =>
      op ← remap_op (m ++ [Some (length out)]) v.(vd_op);
      compact live vals (m ++ [Some (length out)])
        (out ++ [mkValue v.(vd_ty) op v.(vd_guest_pc)])
  | false :: live, _ :: vals => compact live vals (m ++ [None]) out
  | [], [] => Some (m, out)
  | _, _ => None
  end.

(** [live_prefix[position]]: how many live values precede a position. *)
Definition live_prefix (live : list bool) (position : nat) : option nat :=
  if bool_decide (position <= length live)%nat
  then Some (length (filter (fun b => b = true) (take position live))) else None.

Definition remap_effect (live : list bool) (m : list (option ValueId)) (e : Effect.t)
    : option Effect.t :=
  match e with
  | Effect.Store position address value kind condition exit =>
      p ← live_prefix live position;
      a ← remap_id m address;
      v ← remap_id m value;
      c ← remap_opt m condition;
      x ← remap_exit m exit;
      Some (Effect.Store p a v kind c x)
  | Effect.Guard position condition exit =>
      p ← live_prefix live position;
      c ← remap_id m condition;
      x ← remap_exit m exit;
      Some (Effect.Guard p c x)
  | Effect.GuardTarget position target expected exit =>
      p ← live_prefix live position;
      t ← remap_id m target;
      x ← remap_exit m exit;
      Some (Effect.GuardTarget p t expected x)
  | Effect.FpState position dirty exit =>
      p ← live_prefix live position; x ← remap_exit m exit; Some (Effect.FpState p dirty x)
  | Effect.VectorState position exit =>
      p ← live_prefix live position; x ← remap_exit m exit; Some (Effect.VectorState p x)
  | Effect.Vector position insn direct fallthrough exit =>
      p ← live_prefix live position;
      x ← remap_exit m exit;
      Some (Effect.Vector p insn direct fallthrough x)
  end.

Definition eliminate_dead_values (r : Region) : option Region :=
  let work := rev (dce_roots r) in
  live ← mark (mark_fuel r.(r_values) work) r.(r_values)
           (replicate (length r.(r_values)) false) work;
  '(m, values) ← compact live r.(r_values) [] [];
  effects ← mapM (remap_effect live m) r.(r_effects);
  next_pc ← remap_id m r.(r_next_pc);
  outputs ← remap_outputs m r.(r_outputs);
  f_outputs ← remap_outputs m r.(r_f_outputs);
  fcsr_output ← remap_opt m r.(r_fcsr_output);
  Some (mkRegion r.(r_entry_pc) r.(r_end_pc) values outputs f_outputs fcsr_output next_pc
          r.(r_retired) r.(r_exit) r.(r_trace_mix) r.(r_trace_stack_memory) r.(r_writes_x2)
          effects).

Definition has_effects (r : Region) : bool :=
  match r.(r_effects) with [] => false | _ => true end
  || existsb (fun v => is_effectful v.(vd_op)) r.(r_values).

Definition has_fp_helper (r : Region) : bool :=
  existsb (fun v => match v.(vd_op) with Op.ExactFp _ _ _ _ _ _ _ => true | _ => false end)
    r.(r_values).

Definition has_reservation_helper (r : Region) : bool :=
  existsb (fun v => match v.(vd_op) with Op.Reservation _ _ => true | _ => false end)
    r.(r_values).

Definition has_vector_helper (r : Region) : bool :=
  existsb (fun e => match e with Effect.Vector _ _ _ _ _ => true | _ => false end)
    r.(r_effects).
