(* ===== verification/DbtBuilder.v ===== *)
(** * SSA construction with local constant folding (rv64-dbt, ir.rs [Builder]) *)

From S2P Require Import Prelude DbtVector DbtIr.

Record Builder : Type := mkBuilder {
  b_entry_pc : Z;
  b_values : list ValueData;
  b_regs : list (option ValueId);
  b_dirty : Z;
  b_fregs : list (option ValueId);
  b_dirty_f : Z;
  b_fcsr : option ValueId;
  b_dirty_fcsr : bool;
  b_effects : list Effect.t
}.

(** A builder operation: it may panic (an index out of range, an [expect] on
    [None]), never fail. *)
Definition Build (A : Type) : Type := M Empty_set Builder A.

Definition Builder_new (entry_pc : Z) : Builder :=
  mkBuilder entry_pc [] (replicate 32 None) 0 (replicate 32 None) 0 None false [].

Definition push (ty : ValueType) (op : Op.t) (guest_pc : Z) : Build ValueId := fun b =>
  (Ok (length b.(b_values)),
   mkBuilder b.(b_entry_pc) (b.(b_values) ++ [mkValue ty op guest_pc]) b.(b_regs) b.(b_dirty)
     b.(b_fregs) b.(b_dirty_f) b.(b_fcsr) b.(b_dirty_fcsr) b.(b_effects)).

Definition const_i32 (value pc : Z) : Build ValueId := push I32 (Op.ConstI32 value) pc.
Definition const_i64 (value pc : Z) : Build ValueId := push I64 (Op.ConstI64 value) pc.
Definition guest_pc (value pc : Z) : Build ValueId := push I64 (Op.GuestPc value) pc.

(** [self.values[value.0].op]. *)
Definition value_op (value : ValueId) : Build Op.t :=
  b <- gets id ;; d <- unwrap (b.(b_values) !! value) ;; ret d.(vd_op).

Definition as_const_i32 (op : Op.t) : option Z :=
  match op with Op.ConstI32 v => Some v | _ => None end.
Definition as_const_i64 (op : Op.t) : option Z :=
  match op with Op.ConstI64 v => Some v | _ => None end.
Definition as_guest_pc (op : Op.t) : option Z :=
  match op with Op.GuestPc v => Some v | _ => None end.

(** ** Architectural registers *)

Definition set_b_regs (r : list (option ValueId)) (d : Z) (b : Builder) : Builder :=
  mkBuilder b.(b_entry_pc) b.(b_values) r d b.(b_fregs) b.(b_dirty_f) b.(b_fcsr)
    b.(b_dirty_fcsr) b.(b_effects).

Definition set_b_fregs (r : list (option ValueId)) (d : Z) (b : Builder) : Builder :=
  mkBuilder b.(b_entry_pc) b.(b_values) b.(b_regs) b.(b_dirty) r d b.(b_fcsr)
    b.(b_dirty_fcsr) b.(b_effects).

Definition set_b_fcsr (f : option ValueId) (d : bool) (b : Builder) : Builder :=
  mkBuilder b.(b_entry_pc) b.(b_values) b.(b_regs) b.(b_dirty) b.(b_fregs) b.(b_dirty_f) f d
    b.(b_effects).

Definition read_x (reg pc : Z) : Build ValueId :=
  if reg =? 0 then const_i64 0 pc else
  b <- gets id ;;
  match aget b.(b_regs) reg with
  | Some value => ret value
  | None =>
      value <- push I64 (Op.ReadX reg) pc ;;
      modify (fun b => set_b_regs (aset b.(b_regs) reg (Some value)) b.(b_dirty) b) ;;;
      ret value
  end.

Definition write_x (reg : Z) (value : ValueId) : Build unit :=
  if negb (reg =? 0) then
    modify (fun b => set_b_regs (aset b.(b_regs) reg (Some value)) (b.(b_dirty) .| (1 .<< reg)) b)
  else ret tt.

Definition read_f (reg pc : Z) : Build ValueId :=
  b <- gets id ;;
  match aget b.(b_fregs) reg with
  | Some value => ret value
  | None =>
      value <- push I64 (Op.ReadF reg) pc ;;
      modify (fun b => set_b_fregs (aset b.(b_fregs) reg (Some value)) b.(b_dirty_f) b) ;;;
      ret value
  end.

Definition write_f (reg : Z) (value : ValueId) : Build unit :=
  modify (fun b => set_b_fregs (aset b.(b_fregs) reg (Some value))
                     (b.(b_dirty_f) .| (1 .<< reg)) b).

Definition read_fcsr (pc : Z) : Build ValueId :=
  b <- gets id ;;
  match b.(b_fcsr) with
  | Some value => ret value
  | None =>
      value <- push I32 Op.ReadFcsr pc ;;
      modify (fun b => set_b_fcsr (Some value) b.(b_dirty_fcsr) b) ;;;
      ret value
  end.

Definition write_fcsr (value : ValueId) : Build unit := modify (set_b_fcsr (Some value) true).

(** ** Constant folding *)

(** What a pure operation becomes without emitting it: a constant, an address
    constant, or one of its operands. *)
Inductive Folded : Type :=
| FConstI32 (v : Z)
| FConstI64 (v : Z)
| FGuestPc (pc : Z)
| FValue (v : ValueId).

(** Provenance of PC-derived values: [GuestPc +/- const], the difference of two
    [GuestPc], and the alignment mask of JALR. *)
Definition fold_guest_pc (op : BinaryOp) (lhs rhs : ValueId) (l r : Op.t) : option Folded :=
  match op with
  | I64Add =>
      match l, r with
      | Op.GuestPc base, Op.ConstI64 offset => Some (FGuestPc (add64 base (u64 offset)))
      | Op.ConstI64 offset, Op.GuestPc base => Some (FGuestPc (add64 base (u64 offset)))
      | _, _ => None
      end
  | I64Sub =>
      match l, r with
      | Op.GuestPc base, Op.ConstI64 offset => Some (FGuestPc (sub64 base (u64 offset)))
      | Op.GuestPc a, Op.GuestPc b => Some (FConstI64 (i64 (sub64 a b)))
      | _, _ => None
      end
  | I64And =>
      match l, r with
      | Op.GuestPc address, Op.ConstI64 m =>
          if ((address .& 1) =? 0) && (m =? -2) then Some (FValue lhs) else None
      | Op.ConstI64 m, Op.GuestPc address =>
          if ((address .& 1) =? 0) && (m =? -2) then Some (FValue rhs) else None
      | _, _ => None
      end
  | _ => None
  end.

(** Both operands are 64-bit constants; [None] is [unreachable!]. *)
Definition fold_const_i64 (op : BinaryOp) (a b : Z) : option Folded :=
  let amount := u64 b .& 63 in
  match op with
  | I64Add => Some (FConstI64 (i64 (a + b)))
  | I64Sub => Some (FConstI64 (i64 (a - b)))
  | I64Mul => Some (FConstI64 (i64 (a * b)))
  | I64And => Some (FConstI64 (a .& b))
  | I64Or => Some (FConstI64 (a .| b))
  | I64Xor => Some (FConstI64 (a .^ b))
  | I64Shl => Some (FConstI64 (i64 (a .<< amount)))
  | I64ShrU => Some (FConstI64 (i64 (u64 a .>> amount)))
  | I64ShrS => Some (FConstI64 (a .>> amount))
  | I64Eq => Some (FConstI32 (Z.b2z (a =? b)))
  | I64Ne => Some (FConstI32 (Z.b2z (negb (a =? b))))
  | I64LtS => Some (FConstI32 (Z.b2z (a <? b)))
  | I64LtU => Some (FConstI32 (Z.b2z (u64 a <? u64 b)))
  | I64GeS => Some (FConstI32 (Z.b2z (b <=? a)))
  | I64GeU => Some (FConstI32 (Z.b2z (u64 b <=? u64 a)))
  | _ => None
  end.

(** Identities with a constant right operand. *)
Definition fold_identity (op : BinaryOp) (lhs rhs : ValueId) (r : Op.t) : option Folded :=
  match as_const_i64 r with
  | None => None
  | Some c =>
      if c =? 0 then
        match op with
        | I64Add | I64Sub | I64Or | I64Xor | I64Shl | I64ShrU | I64ShrS => Some (FValue lhs)
        | I64Mul | I64And => Some (FValue rhs)
        | _ => None
        end
      else if (c =? 1) && bool_decide (op = I64Mul) then Some (FValue lhs)
      else if (c =? -1) && bool_decide (op = I64And) then Some (FValue lhs)
      else None
  end.

(** Both operands are 32-bit constants; [None] is [unreachable!]. *)
Definition fold_const_i32 (op : BinaryOp) (a b : Z) : option Folded :=
  let amount := u32 b .& 31 in
  match op with
  | I32Add => Some (FConstI32 (i32 (a + b)))
  | I32Sub => Some (FConstI32 (i32 (a - b)))
  | I32Mul => Some (FConstI32 (i32 (a * b)))
  | I32And => Some (FConstI32 (a .& b))
  | I32Or => Some (FConstI32 (a .| b))
  | I32Xor => Some (FConstI32 (a .^ b))
  | I32Shl => Some (FConstI32 (i32 (a .<< amount)))
  | I32ShrU => Some (FConstI32 (i32 (u32 a .>> amount)))
  | I32ShrS => Some (FConstI32 (a .>> amount))
  | _ => None
  end.

(** Emit what folding found. *)
Definition emit_folded (f : Folded) (pc : Z) : Build ValueId :=
  match f with
  | FConstI32 v => const_i32 v pc
  | FConstI64 v => const_i64 v pc
  | FGuestPc v => guest_pc v pc
  | FValue v => ret v
  end.

Definition binary (op : BinaryOp) (lhs rhs : ValueId) (pc : Z) : Build ValueId :=
  l <- value_op lhs ;;
  r <- value_op rhs ;;
  let emit := push (result_type op) (Op.Binary op lhs rhs) pc in
  match input_type op with
  | I64 =>
      match fold_guest_pc op lhs rhs l r with
      | Some f => emit_folded f pc
      | None =>
          match as_const_i64 l, as_const_i64 r with
          | Some a, Some b => f <- unwrap (fold_const_i64 op a b) ;; emit_folded f pc
          | _, _ =>
              match fold_identity op lhs rhs r with
              | Some f => emit_folded f pc
              | None => emit
              end
          end
      end
  | I32 =>
      match as_const_i32 l, as_const_i32 r with
      | Some a, Some b => f <- unwrap (fold_const_i32 op a b) ;; emit_folded f pc
      | _, _ => emit
      end
  end.

(** RISC-V division of constants; [None] is [unreachable!]. *)
Definition fold_divide_i64 (op : DivideOp) (lhs rhs : Z) : option Z :=
  let min := - 2 ^ 63 in
  match op with
  | I64DivS => Some (if rhs =? 0 then -1
                     else if (lhs =? min) && (rhs =? -1) then lhs else Z.quot lhs rhs)
  | I64DivU => Some (if rhs =? 0 then -1 else i64 (u64 lhs / u64 rhs))
  | I64RemS => Some (if rhs =? 0 then lhs
                     else if (lhs =? min) && (rhs =? -1) then 0 else Z.rem lhs rhs)
  | I64RemU => Some (if rhs =? 0 then lhs else i64 (u64 lhs mod u64 rhs))
  | _ => None
  end.

Definition fold_divide_i32 (op : DivideOp) (lhs rhs : Z) : option Z :=
  let min := - 2 ^ 31 in
  match op with
  | I32DivS => Some (if rhs =? 0 then -1
                     else if (lhs =? min) && (rhs =? -1) then lhs else Z.quot lhs rhs)
  | I32DivU => Some (if rhs =? 0 then -1 else i32 (u32 lhs / u32 rhs))
  | I32RemS => Some (if rhs =? 0 then lhs
                     else if (lhs =? min) && (rhs =? -1) then 0 else Z.rem lhs rhs)
  | I32RemU => Some (if rhs =? 0 then lhs else i32 (u32 lhs mod u32 rhs))
  | _ => None
  end.

Definition divide (op : DivideOp) (lhs rhs : ValueId) (pc : Z) : Build ValueId :=
  l <- value_op lhs ;;
  r <- value_op rhs ;;
  match value_type op with
  | I64 =>
      match as_const_i64 l, as_const_i64 r with
      | Some a, Some b => v <- unwrap (fold_divide_i64 op a b) ;; const_i64 v pc
      | _, _ => push I64 (Op.Divide op lhs rhs) pc
      end
  | I32 =>
      match as_const_i32 l, as_const_i32 r with
      | Some a, Some b => v <- unwrap (fold_divide_i32 op a b) ;; const_i32 v pc
      | _, _ => push I32 (Op.Divide op lhs rhs) pc
      end
  end.

Definition wrap_i32 (value : ValueId) (pc : Z) : Build ValueId :=
  op <- value_op value ;;
  match as_const_i64 op with
  | Some v => const_i32 (i32 v) pc
  | None => push I32 (Op.WrapI64ToI32 value) pc
  end.

Definition extend_i32_s (value : ValueId) (pc : Z) : Build ValueId :=
  op <- value_op value ;;
  match as_const_i32 op with
  | Some v => const_i64 v pc
  | None => push I64 (Op.ExtendI32S value) pc
  end.

Definition extend_i32_u (value : ValueId) (pc : Z) : Build ValueId :=
  op <- value_op value ;;
  match as_const_i32 op with
  | Some v => const_i64 (u32 v) pc
  | None => push I64 (Op.ExtendI32U value) pc
  end.

Definition select_i64 (condition if_true if_false : ValueId) (pc : Z) : Build ValueId :=
  if bool_decide (if_true = if_false) then ret if_true else
  op <- value_op condition ;;
  match as_const_i32 op with
  | Some c => ret (if negb (c =? 0) then if_true else if_false)
  | None => push I64 (Op.SelectI64 condition if_true if_false) pc
  end.

(** The high 64 bits of a 64x64 product, from 32-bit limbs. *)
Definition mul_high (kind : MulHighKind) (lhs rhs : ValueId) (pc : Z) : Build ValueId :=
  mask <- const_i64 0xffffffff pc ;;
  shift <- const_i64 32 pc ;;
  lhs_lo <- binary I64And lhs mask pc ;;
  lhs_hi <- binary I64ShrU lhs shift pc ;;
  rhs_lo <- binary I64And rhs mask pc ;;
  rhs_hi <- binary I64ShrU rhs shift pc ;;
  low_product <- binary I64Mul lhs_lo rhs_lo pc ;;
  low_carry <- binary I64ShrU low_product shift pc ;;
  left_cross <- binary I64Mul lhs_hi rhs_lo pc ;;
  cross_with_carry <- binary I64Add left_cross low_carry pc ;;
  cross_low <- binary I64And cross_with_carry mask pc ;;
  cross_high <- binary I64ShrU cross_with_carry shift pc ;;
  right_cross <- binary I64Mul lhs_lo rhs_hi pc ;;
  right_with_cross <- binary I64Add cross_low right_cross pc ;;
  right_carry <- binary I64ShrU right_with_cross shift pc ;;
  high_product <- binary I64Mul lhs_hi rhs_hi pc ;;
  high <- binary I64Add high_product cross_high pc ;;
  high <- binary I64Add high right_carry pc ;;
  high <- (match kind with
           | SignedSigned | SignedUnsigned =>
               zero <- const_i64 0 pc ;;
               negative <- binary I64LtS lhs zero pc ;;
               correction <- select_i64 negative rhs zero pc ;;
               binary I64Sub high correction pc
           | UnsignedUnsigned => ret high
           end) ;;
  match kind with
  | SignedSigned =>
      zero <- const_i64 0 pc ;;
      negative <- binary I64LtS rhs zero pc ;;
      correction <- select_i64 negative lhs zero pc ;;
      binary I64Sub high correction pc
  | _ => ret high
  end.

(** ** Ordered operations *)

(** The dirty registers among [first, first + n) with their values; [None] is
    the [expect] on a dirty register without one. *)
Fixpoint dirty_outputs (n : nat) (first dirty : Z) (regs : list (option ValueId))
    : option (list (Z * ValueId)) :=
  match n with
  | O => Some []
  | S n =>
      rest ← dirty_outputs n (first + 1) dirty regs;
      if negb ((dirty .& (1 .<< first)) =? 0)
      then v ← aget regs first; Some ((first, v) :: rest)
      else Some rest
  end.

(** [dirty_fcsr.then(|| fcsr.expect(..))]. *)
Definition dirty_fcsr_output (b : Builder) : option (option ValueId) :=
  if b.(b_dirty_fcsr) then v ← b.(b_fcsr); Some (Some v) else Some None.

Definition side_exit (guest_pc retired : Z) : Build SideExit :=
  b <- gets id ;;
  unwrap (outputs ← dirty_outputs 31 1 b.(b_dirty) b.(b_regs);
          f_outputs ← dirty_outputs 32 0 b.(b_dirty_f) b.(b_fregs);
          fcsr_output ← dirty_fcsr_output b;
          Some (mkSideExit guest_pc retired outputs f_outputs fcsr_output)).

(** [self.effects.push(..)] at the current position. *)
Definition push_effect (e : nat -> Effect.t) : Build unit :=
  modify (fun b =>
    mkBuilder b.(b_entry_pc) b.(b_values) b.(b_regs) b.(b_dirty) b.(b_fregs) b.(b_dirty_f)
      b.(b_fcsr) b.(b_dirty_fcsr) (b.(b_effects) ++ [e (length b.(b_values))])).

Definition load (address : ValueId) (kind : LoadKind.t) (guest_pc retired : Z) : Build ValueId :=
  exit <- side_exit guest_pc retired ;;
  push I64 (Op.Load address kind exit) guest_pc.

Definition store (address value : ValueId) (kind : StoreKind.t) (guest_pc retired : Z)
    : Build unit :=
  exit <- side_exit guest_pc retired ;;
  push_effect (fun p => Effect.Store p address value kind None exit).

Definition store_conditional (condition address value : ValueId) (kind : StoreKind.t)
    (guest_pc retired : Z) : Build unit :=
  exit <- side_exit guest_pc retired ;;
  push_effect (fun p => Effect.Store p address value kind (Some condition) exit).

Definition reservation (op : ReservationOp) (address : ValueId) (pc : Z) : Build ValueId :=
  push I32 (Op.Reservation op address) pc.

Definition exact_fp (op : ExactFpOp) (lhs rhs third rm : ValueId) (guest_pc retired : Z)
    : Build ValueId :=
  fcsr <- read_fcsr guest_pc ;;
  exit <- side_exit guest_pc retired ;;
  result <- push I64 (Op.ExactFp op lhs rhs third rm fcsr exit) guest_pc ;;
  updated_fcsr <- push I32 (Op.ReloadFcsr result) guest_pc ;;
  write_fcsr updated_fcsr ;;;
  ret result.

Definition fp_state (dirty : bool) (guest_pc retired : Z) : Build unit :=
  exit <- side_exit guest_pc retired ;;
  push_effect (fun p => Effect.FpState p dirty exit).

Definition vector_state (guest_pc retired : Z) : Build unit :=
  exit <- side_exit guest_pc retired ;;
  push_effect (fun p => Effect.VectorState p exit).

(** A complete vector instruction: no forwarded register survives it. *)
Definition vector (insn guest_pc fallthrough retired : Z) : Build unit :=
  exit <- side_exit guest_pc retired ;;
  push_effect (fun p => Effect.Vector p insn (VectorDirect.decode insn) fallthrough exit) ;;;
  modify (fun b => mkBuilder b.(b_entry_pc) b.(b_values) (replicate 32 None) 0
                     (replicate 32 None) 0 None false b.(b_effects)).

Definition guard (condition : ValueId) (target_pc retired : Z) : Build unit :=
  exit <- side_exit target_pc retired ;;
  push_effect (fun p => Effect.Guard p condition exit).

Definition guard_target (target : ValueId) (expected retired : Z) : Build unit :=
  exit <- side_exit expected retired ;;
  push_effect (fun p => Effect.GuardTarget p target expected exit).

(** The region before [eliminate_dead_values]. *)
Definition finish_raw (b : Builder) (end_pc : Z) (next_pc : ValueId) (retired : Z)
    (exit : ExitKind) : option Region :=
  outputs ← dirty_outputs 31 1 b.(b_dirty) b.(b_regs);
  f_outputs ← dirty_outputs 32 0 b.(b_dirty_f) b.(b_fregs);
  fcsr_output ← dirty_fcsr_output b;
  Some (mkRegion b.(b_entry_pc) end_pc b.(b_values) outputs f_outputs fcsr_output next_pc
          retired exit (replicate 5 0) 0 false b.(b_effects)).

Definition finish (b : Builder) (end_pc : Z) (next_pc : ValueId) (retired : Z)
    (exit : ExitKind) : option Region :=
  region ← finish_raw b end_pc next_pc retired exit;
  eliminate_dead_values region.
