(* ===== verification/DbtLift.v ===== *)
(** * Lifting RV64 code into regions (rv64-dbt, lift.rs)

    [lift_one] turns one decoded instruction into values and effects;
    [lift_t1_profiled_targets_mode] follows a trace of instructions from an
    entry point until an exit, an unsupported instruction or the region limit.
    The statistics the lifter keeps beside the region are the record [Metrics];
    [lift_insn] is the part of [lift_one] that works on the builder, [record]
    the part that counts. *)

From S2P Require Import Prelude Decode Compressed State Bus DbtVector DbtIr DbtBuilder.

Definition T1_MAX_INSNS : Z := 128.

Inductive FpMode : Type := FpDisabled | FpUser | FpSystem.

#[global] Instance FpMode_dec : EqDecision FpMode.
Proof. solve_decision. Defined.

Record Metrics : Type := mkMetrics {
  uses_fp : bool;
  trace_mix : list Z;
  trace_stack_memory : Z;
  trace_mem : list Z;
  trace_control : list Z;
  trace_alu : list Z
}.

Definition Metrics_default : Metrics :=
  mkMetrics false (replicate 5 0) 0 (replicate 10 0) (replicate 3 0) (replicate 5 0).

Record LoopBackedge : Type := mkBackedge { lb_condition : option ValueId; lb_exit_pc : Z }.

Record LiftedRegion : Type := mkLifted {
  lr_ir : Region;
  lr_metrics : Metrics;
  lr_byte_len : Z;
  lr_span : Z * Z;
  lr_seeds : list Z;
  lr_loop_backedge : option LoopBackedge
}.

Record Decoded : Type := mkDecoded { d_insn : Z; d_len : Z }.

Inductive StepOutcome : Type :=
| Continue
| ContinueAt (target : Z)
| Exit (target : ValueId)
| IndirectExit (target : ValueId)
| NotSupported.

(** ** Fetch from a code snapshot *)

(** [u16::from_le_bytes([*code.get(offset)?, *code.get(offset + 1)?])]. *)
Definition code16 (code : list Z) (offset : Z) : option Z :=
  lo ← code !! Z.to_nat offset;
  hi ← code !! Z.to_nat (offset + 1);
  Some (from_le_bytes [lo; hi]).

(** The expander never sees a word with both low bits set here. *)
Definition decode_at (code : list Z) (base pc : Z) : option Decoded :=
  if (pc <? base) || negb ((pc .& 1) =? 0) then None else
  let offset := pc - base in
  lo ← code16 code offset;
  if negb ((lo .& 3) =? 3) then
    match expand lo with
    | Some (Some insn) => Some (mkDecoded insn 2)
    | _ => None
    end
  else
    hi ← code16 code (offset + 2);
    Some (mkDecoded (lo .| (hi .<< 16)) 4).

(** ** One instruction *)

(** RV64 NaN boxing of a single-precision source. *)
Definition unbox_f32 (value : ValueId) (pc : Z) : Build ValueId :=
  shift <- const_i64 32 pc ;;
  upper <- binary I64ShrU value shift pc ;;
  ones <- const_i64 0xffffffff pc ;;
  valid <- binary I64Eq upper ones pc ;;
  canonical <- const_i64 (i64 0xffffffff7fc00000) pc ;;
  select_i64 valid value canonical pc.

Definition BOX_MASK : Z := i64 0xffffffff00000000.

Definition lift_amo (insn pc retired : Z) (allow_reservation : bool) : Build bool :=
  let funct5 := funct7 insn .>> 2 in
  let kinds :=
    if funct3 insn =? 2 then Some (LoadKind.I32S, StoreKind.I32)
    else if funct3 insn =? 3 then Some (LoadKind.I64, StoreKind.I64)
    else None in
  match kinds with
  | None => ret false
  | Some (load_kind, store_kind) =>
  if funct5 =? 0x02 then
    if negb allow_reservation then ret false else
    address <- read_x (rs1 insn) pc ;;
    old <- load address load_kind pc retired ;;
    reservation LoadReserved address pc ;;;
    write_x (rd insn) old ;;;
    ret true
  else if funct5 =? 0x03 then
    if negb allow_reservation then ret false else
    address <- read_x (rs1 insn) pc ;;
    source <- read_x (rs2 insn) pc ;;
    success <- reservation StoreConditional address pc ;;
    store_conditional success address source store_kind pc retired ;;;
    one <- const_i32 1 pc ;;
    failed <- binary I32Xor success one pc ;;
    result <- extend_i32_u failed pc ;;
    write_x (rd insn) result ;;;
    ret true
  else if negb ((funct5 =? 0x00) || (funct5 =? 0x01) || (funct5 =? 0x04) || (funct5 =? 0x08)
                || (funct5 =? 0x0c) || (funct5 =? 0x10) || (funct5 =? 0x14)
                || (funct5 =? 0x18) || (funct5 =? 0x1c))
  then ret false
  else
    address <- read_x (rs1 insn) pc ;;
    source <- read_x (rs2 insn) pc ;;
    old <- load address load_kind pc retired ;;
    compare <- (if funct3 insn =? 2 then
                  old32 <- wrap_i32 old pc ;;
                  source32 <- wrap_i32 source pc ;;
                  if (funct5 =? 0x18) || (funct5 =? 0x1c) then
                    a <- extend_i32_u old32 pc ;; b <- extend_i32_u source32 pc ;; ret (a, b)
                  else
                    a <- extend_i32_s old32 pc ;; b <- extend_i32_s source32 pc ;; ret (a, b)
                else ret (old, source)) ;;
    let min_max (lt : BinaryOp) (is_min : bool) : Build ValueId :=
      old_lt_source <- binary lt (fst compare) (snd compare) pc ;;
      choose_old <- (if is_min then ret old_lt_source else
                       one <- const_i32 1 pc ;; binary I32Xor old_lt_source one pc) ;;
      select_i64 choose_old old source pc in
    new <- (if funct5 =? 0x01 then ret source
            else if funct5 =? 0x00 then binary I64Add old source pc
            else if funct5 =? 0x04 then binary I64Xor old source pc
            else if funct5 =? 0x0c then binary I64And old source pc
            else if funct5 =? 0x08 then binary I64Or old source pc
            else if (funct5 =? 0x10) || (funct5 =? 0x14) then min_max I64LtS (funct5 =? 0x10)
            else if (funct5 =? 0x18) || (funct5 =? 0x1c) then min_max I64LtU (funct5 =? 0x18)
            else panic) ;;
    store address new store_kind pc retired ;;;
    write_x (rd insn) old ;;;
    ret true
  end.

(** [if system_fp { b.fp_state(dirty, pc, retired) }]. *)
Definition fp_state_if (system_fp dirty : bool) (pc retired : Z) : Build unit :=
  if system_fp then fp_state dirty pc retired else ret tt.

Definition lift_fp_bits (insn pc retired : Z) (system_fp : bool) : Build bool :=
  let destination := rd insn in
  let source1 := rs1 insn in
  let source2 := rs2 insn in
  let f7 := funct7 insn in
  let f3 := funct3 insn in
  if ((f7 =? 0x10) || (f7 =? 0x11)) && (f3 <=? 2) then
    fp_state_if system_fp true pc retired ;;;
    let single := f7 =? 0x10 in
    lhs <- read_f source1 pc ;;
    rhs <- read_f source2 pc ;;
    lhs <- (if single then unbox_f32 lhs pc else ret lhs) ;;
    rhs <- (if single then unbox_f32 rhs pc else ret rhs) ;;
    let sign := if single then 0x80000000 else - 2 ^ 63 in
    sign_mask <- const_i64 sign pc ;;
    rhs_sign <- binary I64And rhs sign_mask pc ;;
    value <- (if f3 =? 2 then binary I64Xor lhs rhs_sign pc
              else
                magnitude_mask <- const_i64 (Z.lnot sign) pc ;;
                magnitude <- binary I64And lhs magnitude_mask pc ;;
                selected_sign <- (if f3 =? 1 then binary I64Xor rhs_sign sign_mask pc
                                  else ret rhs_sign) ;;
                binary I64Or magnitude selected_sign pc) ;;
    write_f destination value ;;;
    ret true
  else if (f7 =? 0x70) && (f3 =? 0) && (source2 =? 0) then
    fp_state_if system_fp true pc retired ;;;
    bits <- read_f source1 pc ;;
    low <- wrap_i32 bits pc ;;
    value <- extend_i32_s low pc ;;
    write_x destination value ;;;
    ret true
  else if (f7 =? 0x71) && (f3 =? 0) && (source2 =? 0) then
    fp_state_if system_fp true pc retired ;;;
    bits <- read_f source1 pc ;;
    write_x destination bits ;;;
    ret true
  else if (f7 =? 0x78) && (f3 =? 0) && (source2 =? 0) then
    fp_state_if system_fp true pc retired ;;;
    bits <- read_x source1 pc ;;
    low <- wrap_i32 bits pc ;;
    low <- extend_i32_u low pc ;;
    box_mask <- const_i64 BOX_MASK pc ;;
    boxed <- binary I64Or low box_mask pc ;;
    write_f destination boxed ;;;
    ret true
  else if (f7 =? 0x79) && (f3 =? 0) && (source2 =? 0) then
    fp_state_if system_fp true pc retired ;;;
    bits <- read_x source1 pc ;;
    write_f destination bits ;;;
    ret true
  else ret false.

(** A static mode, or the dynamic one read from fcsr; [None] is reserved. *)
Definition lift_rounding_mode (field pc : Z) : Build (option ValueId) :=
  if field <=? 4 then v <- const_i32 field pc ;; ret (Some v)
  else if field =? 7 then
    fcsr <- read_fcsr pc ;;
    shift <- const_i32 5 pc ;;
    frm <- binary I32ShrU fcsr shift pc ;;
    mask <- const_i32 7 pc ;;
    v <- binary I32And frm mask pc ;;
    ret (Some v)
  else ret None.

Record FpShape : Type := mkShape {
  fs_op : ExactFpOp; fs_uses_rm : bool; fs_writes_x : bool; fs_lhs_is_x : bool;
  fs_has_rhs : bool
}.

(** (operation, consumes rm, writes an X register, lhs comes from X, has a
    second floating-point operand). *)
Definition exact_fp_shape (f7 f3 s2 : Z) : option FpShape :=
  let arith op := Some (mkShape op true false false true) in
  let unary op := Some (mkShape op true false false false) in
  let minmax op := Some (mkShape op false false false true) in
  let compare op := Some (mkShape op false true false true) in
  let to_int op := Some (mkShape op true true false false) in
  let from_int op := Some (mkShape op true false true false) in
  let classify op := Some (mkShape op false true false false) in
  if f7 =? 0x00 then arith Add32
  else if f7 =? 0x04 then arith Sub32
  else if f7 =? 0x08 then arith Mul32
  else if f7 =? 0x0c then arith Div32
  else if f7 =? 0x01 then arith Add64
  else if f7 =? 0x05 then arith Sub64
  else if f7 =? 0x09 then arith Mul64
  else if f7 =? 0x0d then arith Div64
  else if (f7 =? 0x2c) && (s2 =? 0) then unary Sqrt32
  else if (f7 =? 0x2d) && (s2 =? 0) then unary Sqrt64
  else if (f7 =? 0x14) && (f3 =? 0) then minmax Min32
  else if (f7 =? 0x14) && (f3 =? 1) then minmax Max32
  else if (f7 =? 0x15) && (f3 =? 0) then minmax Min64
  else if (f7 =? 0x15) && (f3 =? 1) then minmax Max64
  else if (f7 =? 0x50) && (f3 =? 2) then compare Eq32
  else if (f7 =? 0x50) && (f3 =? 1) then compare Lt32
  else if (f7 =? 0x50) && (f3 =? 0) then compare Le32
  else if (f7 =? 0x51) && (f3 =? 2) then compare Eq64
  else if (f7 =? 0x51) && (f3 =? 1) then compare Lt64
  else if (f7 =? 0x51) && (f3 =? 0) then compare Le64
  else if (f7 =? 0x20) && (s2 =? 1) then unary Cvt32From64
  else if (f7 =? 0x21) && (s2 =? 0) then Some (mkShape Cvt64From32 false false false false)
  else if (f7 =? 0x60) && (s2 =? 0) then to_int CvtI32From32
  else if (f7 =? 0x60) && (s2 =? 1) then to_int CvtU32From32
  else if (f7 =? 0x60) && (s2 =? 2) then to_int CvtI64From32
  else if (f7 =? 0x60) && (s2 =? 3) then to_int CvtU64From32
  else if (f7 =? 0x61) && (s2 =? 0) then to_int CvtI32From64
  else if (f7 =? 0x61) && (s2 =? 1) then to_int CvtU32From64
  else if (f7 =? 0x61) && (s2 =? 2) then to_int CvtI64From64
  else if (f7 =? 0x61) && (s2 =? 3) then to_int CvtU64From64
  else if (f7 =? 0x68) && (s2 =? 0) then from_int Cvt32FromI32
  else if (f7 =? 0x68) && (s2 =? 1) then from_int Cvt32FromU32
  else if (f7 =? 0x68) && (s2 =? 2) then from_int Cvt32FromI64
  else if (f7 =? 0x68) && (s2 =? 3) then from_int Cvt32FromU64
  else if (f7 =? 0x69) && (s2 =? 0) then from_int Cvt64FromI32
  else if (f7 =? 0x69) && (s2 =? 1) then from_int Cvt64FromU32
  else if (f7 =? 0x69) && (s2 =? 2) then from_int Cvt64FromI64
  else if (f7 =? 0x69) && (s2 =? 3) then from_int Cvt64FromU64
  else if (f7 =? 0x70) && (f3 =? 1) && (s2 =? 0) then classify Class32
  else if (f7 =? 0x71) && (f3 =? 1) && (s2 =? 0) then classify Class64
  else None.

Definition lift_exact_fp (insn pc retired : Z) (system_fp : bool) : Build bool :=
  let f3 := funct3 insn in
  let s2 := rs2 insn in
  match exact_fp_shape (funct7 insn) f3 s2 with
  | None => ret false
  | Some sh =>
      rm <- (if sh.(fs_uses_rm) then lift_rounding_mode f3 pc
             else v <- const_i32 0 pc ;; ret (Some v)) ;;
      match rm with
      | None => ret false
      | Some rm =>
          fp_state_if system_fp true pc retired ;;;
          lhs <- (if sh.(fs_lhs_is_x) then read_x (rs1 insn) pc else read_f (rs1 insn) pc) ;;
          rhs <- (if sh.(fs_has_rhs) then read_f s2 pc else const_i64 0 pc) ;;
          third <- const_i64 0 pc ;;
          result <- exact_fp sh.(fs_op) lhs rhs third rm pc retired ;;
          (if sh.(fs_writes_x) then write_x (rd insn) result else write_f (rd insn) result) ;;;
          ret true
      end
  end.

Definition lift_fp_fma (insn pc retired : Z) (system_fp : bool) : Build bool :=
  let fmt := (insn .>> 25) .& 3 in
  let shape := if fmt =? 0 then Some (Fma32, 0x80000000)
               else if fmt =? 1 then Some (Fma64, - 2 ^ 63) else None in
  match shape with
  | None => ret false
  | Some (op, sign_mask) =>
      rm <- lift_rounding_mode (funct3 insn) pc ;;
      match rm with
      | None => ret false
      | Some rm =>
          fp_state_if system_fp true pc retired ;;;
          lhs <- read_f (rs1 insn) pc ;;
          rhs <- read_f (rs2 insn) pc ;;
          third <- read_f (insn .>> 27) pc ;;
          mask <- const_i64 sign_mask pc ;;
          let o := opcode insn in
          lhs <- (if (o =? 0x4b) || (o =? 0x4f) then binary I64Xor lhs mask pc else ret lhs) ;;
          third <- (if (o =? 0x47) || (o =? 0x4f) then binary I64Xor third mask pc
                    else ret third) ;;
          result <- exact_fp op lhs rhs third rm pc retired ;;
          write_f (rd insn) result ;;;
          ret true
      end
  end.

Definition lift_fp_csr (insn pc retired : Z) (system_fp : bool) : Build bool :=
  let f3 := funct3 insn in
  let csr := insn .>> 20 in
  if negb ((1 <=? csr) && (csr <=? 3))
     || negb (((1 <=? f3) && (f3 <=? 3)) || ((5 <=? f3) && (f3 <=? 7)))
  then ret false else
  fp_state_if system_fp true pc retired ;;;
  let '(shift_bits, value_mask, field_mask) :=
    if csr =? 1 then (0, 0x1f, 0x1f) else if csr =? 2 then (5, 0x07, 0xe0)
    else (0, 0xff, 0xff) in
  old_fcsr <- read_fcsr pc ;;
  shift <- const_i32 shift_bits pc ;;
  old_value <- (if shift_bits =? 0 then ret old_fcsr
                else binary I32ShrU old_fcsr shift pc) ;;
  value_mask_node <- const_i32 value_mask pc ;;
  old_value <- binary I32And old_value value_mask_node pc ;;
  source <- (if 5 <=? f3 then const_i32 (rs1 insn) pc
             else source <- read_x (rs1 insn) pc ;; wrap_i32 source pc) ;;
  source <- binary I32And source value_mask_node pc ;;
  positioned <- (if shift_bits =? 0 then ret source else binary I32Shl source shift pc) ;;
  let source_is_statically_zero := rs1 insn =? 0 in
  write <- (if (f3 .& 3) =? 1 then ret (Some positioned)
            else if ((f3 .& 3) =? 2) && negb source_is_statically_zero then
              v <- binary I32Or old_fcsr positioned pc ;; ret (Some v)
            else if ((f3 .& 3) =? 3) && negb source_is_statically_zero then
              all_ones <- const_i32 (-1) pc ;;
              inverse <- binary I32Xor positioned all_ones pc ;;
              v <- binary I32And old_fcsr inverse pc ;;
              ret (Some v)
            else ret None) ;;
  (if (f3 .& 3) =? 1 then
     preserve_mask <- const_i32 (Z.lnot field_mask) pc ;;
     preserved <- binary I32And old_fcsr preserve_mask pc ;;
     w <- unwrap write ;;
     new_fcsr <- binary I32Or preserved w pc ;;
     write_fcsr new_fcsr
   else match write with
        | Some new_fcsr => write_fcsr new_fcsr
        | None => ret tt
        end) ;;;
  old_value <- extend_i32_u old_value pc ;;
  write_x (rd insn) old_value ;;;
  ret true.

Definition lift_vector_csr_read (insn pc retired : Z) : Build bool :=
  let f3 := funct3 insn in
  let read_only :=
    ((f3 =? 2) || (f3 =? 3) || (f3 =? 6) || (f3 =? 7)) && (rs1 insn =? 0) in
  if negb ((insn .>> 20) =? 0xc22) || negb read_only then ret false else
  vector_state pc retired ;;;
  value <- const_i64 VLEN_BYTES pc ;;
  write_x (rd insn) value ;;;
  ret true.

(** The capabilities a region is compiled with. *)
Record Caps : Type := mkCaps {
  allow_memory : bool;
  fp_mode : FpMode;
  allow_reservation : bool;
  allow_vector : bool;
  trace_forward : bool
}.

Definition allow_fp (k : Caps) : bool := negb (bool_decide (k.(fp_mode) = FpDisabled)).
Definition system_fp (k : Caps) : bool := bool_decide (k.(fp_mode) = FpSystem).

(** [if guard { Continue } else { Unsupported }], for arms guarded by a lifter. *)
Definition supported (m : Build bool) : Build StepOutcome :=
  ok <- m ;; ret (if ok : bool then Continue else NotSupported).

(** Short-circuiting [||] of two lifters. *)
Definition or_else (m1 m2 : Build bool) : Build bool :=
  ok <- m1 ;; if ok : bool then ret true else m2.

Definition branch_compare (f3 : Z) : option BinaryOp :=
  if f3 =? 0 then Some I64Eq else if f3 =? 1 then Some I64Ne
  else if f3 =? 4 then Some I64LtS else if f3 =? 5 then Some I64GeS
  else if f3 =? 6 then Some I64LtU else if f3 =? 7 then Some I64GeU
  else None.

Definition load_kind (f3 : Z) : option LoadKind.t :=
  if f3 =? 0 then Some LoadKind.I8S else if f3 =? 1 then Some LoadKind.I16S
  else if f3 =? 2 then Some LoadKind.I32S else if f3 =? 3 then Some LoadKind.I64
  else if f3 =? 4 then Some LoadKind.I8U else if f3 =? 5 then Some LoadKind.I16U
  else if f3 =? 6 then Some LoadKind.I32U else None.

Definition store_kind (f3 : Z) : option StoreKind.t :=
  if f3 =? 0 then Some StoreKind.I8 else if f3 =? 1 then Some StoreKind.I16
  else if f3 =? 2 then Some StoreKind.I32 else if f3 =? 3 then Some StoreKind.I64
  else None.

Definition lift_branch (k : Caps) (insn pc fallthrough retired : Z) : Build StepOutcome :=
  lhs <- read_x (rs1 insn) pc ;;
  rhs <- read_x (rs2 insn) pc ;;
  match branch_compare (funct3 insn) with
  | None => ret NotSupported
  | Some cmp =>
      condition <- binary cmp lhs rhs pc ;;
      let taken_pc := add64 pc (u64 (imm_b insn)) in
      if k.(trace_forward) && (pc <? taken_pc) && negb (taken_pc =? fallthrough) then
        guard condition taken_pc (retired + 1) ;;;
        ret Continue
      else
        taken <- guest_pc taken_pc pc ;;
        not_taken <- guest_pc fallthrough pc ;;
        target <- select_i64 condition taken not_taken pc ;;
        ret (Exit target)
  end.

Definition lift_load (insn pc retired : Z) : Build StepOutcome :=
  base <- read_x (rs1 insn) pc ;;
  immediate <- const_i64 (imm_i insn) pc ;;
  address <- binary I64Add base immediate pc ;;
  match load_kind (funct3 insn) with
  | None => ret NotSupported
  | Some kind =>
      value <- load address kind pc retired ;;
      write_x (rd insn) value ;;;
      ret Continue
  end.

Definition lift_store (insn pc retired : Z) : Build StepOutcome :=
  base <- read_x (rs1 insn) pc ;;
  immediate <- const_i64 (imm_s insn) pc ;;
  address <- binary I64Add base immediate pc ;;
  value <- read_x (rs2 insn) pc ;;
  match store_kind (funct3 insn) with
  | None => ret NotSupported
  | Some kind => store address value kind pc retired ;;; ret Continue
  end.

Definition lift_load_fp (k : Caps) (insn pc retired : Z) : Build StepOutcome :=
  base <- read_x (rs1 insn) pc ;;
  immediate <- const_i64 (imm_i insn) pc ;;
  address <- binary I64Add base immediate pc ;;
  let f3 := funct3 insn in
  if negb ((f3 =? 2) || (f3 =? 3)) then ret NotSupported else
  fp_state_if (system_fp k) true pc retired ;;;
  value <- load address (if f3 =? 2 then LoadKind.I32U else LoadKind.I64) pc retired ;;
  value <- (if f3 =? 2 then
              box_mask <- const_i64 BOX_MASK pc ;; binary I64Or value box_mask pc
            else ret value) ;;
  write_f (rd insn) value ;;;
  ret Continue.

Definition lift_store_fp (k : Caps) (insn pc retired : Z) : Build StepOutcome :=
  base <- read_x (rs1 insn) pc ;;
  immediate <- const_i64 (imm_s insn) pc ;;
  address <- binary I64Add base immediate pc ;;
  value <- read_f (rs2 insn) pc ;;
  let f3 := funct3 insn in
  if negb ((f3 =? 2) || (f3 =? 3)) then ret NotSupported else
  fp_state_if (system_fp k) false pc retired ;;;
  store address value (if f3 =? 2 then StoreKind.I32 else StoreKind.I64) pc retired ;;;
  ret Continue.

Definition lift_op_imm (insn pc : Z) : Build StepOutcome :=
  lhs <- read_x (rs1 insn) pc ;;
  immediate <- const_i64 (imm_i insn) pc ;;
  let f3 := funct3 insn in
  value <- (if f3 =? 0 then binary I64Add lhs immediate pc
            else if f3 =? 1 then binary I64Shl lhs immediate pc
            else if f3 =? 2 then cmp <- binary I64LtS lhs immediate pc ;; extend_i32_u cmp pc
            else if f3 =? 3 then cmp <- binary I64LtU lhs immediate pc ;; extend_i32_u cmp pc
            else if f3 =? 4 then binary I64Xor lhs immediate pc
            else if (f3 =? 5) && ((insn .>> 26) =? 0x10) then binary I64ShrS lhs immediate pc
            else if f3 =? 5 then binary I64ShrU lhs immediate pc
            else if f3 =? 6 then binary I64Or lhs immediate pc
            else if f3 =? 7 then binary I64And lhs immediate pc
            else panic) ;;
  write_x (rd insn) value ;;;
  ret Continue.

Definition lift_op_imm_32 (insn pc : Z) : Build StepOutcome :=
  lhs64 <- read_x (rs1 insn) pc ;;
  lhs <- wrap_i32 lhs64 pc ;;
  shamt <- const_i32 (imm_i insn .& 0x1f) pc ;;
  let f3 := funct3 insn in
  value32 <- (if f3 =? 0 then
                immediate <- const_i32 (i32 (imm_i insn)) pc ;;
                v <- binary I32Add lhs immediate pc ;; ret (Some v)
              else if f3 =? 1 then v <- binary I32Shl lhs shamt pc ;; ret (Some v)
              else if (f3 =? 5) && (funct7 insn =? 0x20) then
                v <- binary I32ShrS lhs shamt pc ;; ret (Some v)
              else if f3 =? 5 then v <- binary I32ShrU lhs shamt pc ;; ret (Some v)
              else ret None) ;;
  match value32 with
  | None => ret NotSupported
  | Some value32 =>
      value <- extend_i32_s value32 pc ;;
      write_x (rd insn) value ;;;
      ret Continue
  end.

(** The value of an OP instruction; [None] is an unsupported encoding. *)
Definition lift_op_value (f7 f3 : Z) (lhs rhs : ValueId) (pc : Z) : option (Build ValueId) :=
  let bin op := Some (binary op lhs rhs pc) in
  let set op := Some (cmp <- binary op lhs rhs pc ;; extend_i32_u cmp pc) in
  if (f7 =? 0x00) && (f3 =? 0) then bin I64Add
  else if (f7 =? 0x20) && (f3 =? 0) then bin I64Sub
  else if (f7 =? 0x00) && (f3 =? 1) then bin I64Shl
  else if (f7 =? 0x00) && (f3 =? 2) then set I64LtS
  else if (f7 =? 0x00) && (f3 =? 3) then set I64LtU
  else if (f7 =? 0x00) && (f3 =? 4) then bin I64Xor
  else if (f7 =? 0x00) && (f3 =? 5) then bin I64ShrU
  else if (f7 =? 0x20) && (f3 =? 5) then bin I64ShrS
  else if (f7 =? 0x00) && (f3 =? 6) then bin I64Or
  else if (f7 =? 0x00) && (f3 =? 7) then bin I64And
  else if (f7 =? 0x01) && (f3 =? 0) then bin I64Mul
  else if (f7 =? 0x01) && (f3 =? 1) then Some (mul_high SignedSigned lhs rhs pc)
  else if (f7 =? 0x01) && (f3 =? 2) then Some (mul_high SignedUnsigned lhs rhs pc)
  else if (f7 =? 0x01) && (f3 =? 3) then Some (mul_high UnsignedUnsigned lhs rhs pc)
  else if (f7 =? 0x01) && (f3 =? 4) then Some (divide I64DivS lhs rhs pc)
  else if (f7 =? 0x01) && (f3 =? 5) then Some (divide I64DivU lhs rhs pc)
  else if (f7 =? 0x01) && (f3 =? 6) then Some (divide I64RemS lhs rhs pc)
  else if (f7 =? 0x01) && (f3 =? 7) then Some (divide I64RemU lhs rhs pc)
  else None.

Definition lift_op (insn pc : Z) : Build StepOutcome :=
  lhs <- read_x (rs1 insn) pc ;;
  rhs <- read_x (rs2 insn) pc ;;
  match lift_op_value (funct7 insn) (funct3 insn) lhs rhs pc with
  | None => ret NotSupported
  | Some m => value <- m ;; write_x (rd insn) value ;;; ret Continue
  end.

Definition lift_op_32_value (f7 f3 : Z) (lhs rhs : ValueId) (pc : Z) : option (Build ValueId) :=
  if (f7 =? 0x00) && (f3 =? 0) then Some (binary I32Add lhs rhs pc)
  else if (f7 =? 0x20) && (f3 =? 0) then Some (binary I32Sub lhs rhs pc)
  else if (f7 =? 0x00) && (f3 =? 1) then Some (binary I32Shl lhs rhs pc)
  else if (f7 =? 0x00) && (f3 =? 5) then Some (binary I32ShrU lhs rhs pc)
  else if (f7 =? 0x20) && (f3 =? 5) then Some (binary I32ShrS lhs rhs pc)
  else if (f7 =? 0x01) && (f3 =? 0) then Some (binary I32Mul lhs rhs pc)
  else if (f7 =? 0x01) && (f3 =? 4) then Some (divide I32DivS lhs rhs pc)
  else if (f7 =? 0x01) && (f3 =? 5) then Some (divide I32DivU lhs rhs pc)
  else if (f7 =? 0x01) && (f3 =? 6) then Some (divide I32RemS lhs rhs pc)
  else if (f7 =? 0x01) && (f3 =? 7) then Some (divide I32RemU lhs rhs pc)
  else None.

Definition lift_op_32 (insn pc : Z) : Build StepOutcome :=
  lhs64 <- read_x (rs1 insn) pc ;;
  rhs64 <- read_x (rs2 insn) pc ;;
  lhs <- wrap_i32 lhs64 pc ;;
  rhs <- wrap_i32 rhs64 pc ;;
  match lift_op_32_value (funct7 insn) (funct3 insn) lhs rhs pc with
  | None => ret NotSupported
  | Some m =>
      value32 <- m ;;
      value <- extend_i32_s value32 pc ;;
      write_x (rd insn) value ;;;
      ret Continue
  end.

Definition is_vector_format (f3 : Z) : bool := (f3 =? 0) || (f3 =? 5) || (f3 =? 6) || (f3 =? 7).

Definition lift_insn (k : Caps) (insn pc fallthrough retired : Z) : Build StepOutcome :=
  let op := opcode insn in
  if op =? 0x37 then
    value <- const_i64 (imm_u insn) pc ;; write_x (rd insn) value ;;; ret Continue
  else if op =? 0x17 then
    value <- guest_pc (add64 pc (u64 (imm_u insn))) pc ;; write_x (rd insn) value ;;; ret Continue
  else if op =? 0x6f then
    link <- guest_pc fallthrough pc ;;
    write_x (rd insn) link ;;;
    let target_pc := add64 pc (u64 (imm_j insn)) in
    if k.(trace_forward) && (pc <? target_pc) then ret (ContinueAt target_pc)
    else target <- guest_pc target_pc pc ;; ret (Exit target)
  else if (op =? 0x67) && (funct3 insn =? 0) then
    base <- read_x (rs1 insn) pc ;;
    immediate <- const_i64 (imm_i insn) pc ;;
    sum <- binary I64Add base immediate pc ;;
    mask <- const_i64 (-2) pc ;;
    target <- binary I64And sum mask pc ;;
    link <- guest_pc fallthrough pc ;;
    write_x (rd insn) link ;;;
    ret (IndirectExit target)
  else if op =? 0x63 then lift_branch k insn pc fallthrough retired
  else if (op =? 0x03) && k.(allow_memory) then lift_load insn pc retired
  else if (op =? 0x23) && k.(allow_memory) then lift_store insn pc retired
  else if (op =? 0x07) && k.(allow_memory) && k.(allow_vector) && is_vector_format (funct3 insn)
  then vector insn pc fallthrough retired ;;; ret Continue
  else if (op =? 0x27) && k.(allow_memory) && k.(allow_vector) && is_vector_format (funct3 insn)
  then vector insn pc fallthrough retired ;;; ret Continue
  else if (op =? 0x57) && k.(allow_vector) then vector insn pc fallthrough retired ;;; ret Continue
  else if (op =? 0x07) && k.(allow_memory) && allow_fp k then lift_load_fp k insn pc retired
  else if (op =? 0x27) && k.(allow_memory) && allow_fp k then lift_store_fp k insn pc retired
  else if ((op =? 0x43) || (op =? 0x47) || (op =? 0x4b) || (op =? 0x4f)) && allow_fp k then
    supported (lift_fp_fma insn pc retired (system_fp k))
  else if (op =? 0x53) && allow_fp k then
    supported (or_else (lift_fp_bits insn pc retired (system_fp k))
                 (lift_exact_fp insn pc retired (system_fp k)))
  else if op =? 0x73 then
    supported (or_else (if k.(allow_vector) then lift_vector_csr_read insn pc retired else ret false)
                 (if allow_fp k then lift_fp_csr insn pc retired (system_fp k) else ret false))
  else if op =? 0x0f then ret Continue
  else if op =? 0x13 then lift_op_imm insn pc
  else if op =? 0x1b then lift_op_imm_32 insn pc
  else if op =? 0x33 then lift_op insn pc
  else if op =? 0x3b then lift_op_32 insn pc
  else if (op =? 0x2f) && k.(allow_memory) then
    supported (lift_amo insn pc retired k.(allow_reservation))
  else ret NotSupported.

(** ** Statistics *)

(** [*cell = cell.saturating_add(1)] on a [u16] array. *)
Definition bump (l : list Z) (i : Z) : list Z := aset l i (Z.min (aget l i + 1) 0xffff).

Definition bump_mem (i : Z) (m : Metrics) : Metrics :=
  mkMetrics m.(uses_fp) m.(trace_mix) m.(trace_stack_memory) (bump m.(trace_mem) i)
    m.(trace_control) m.(trace_alu).
Definition bump_control (i : Z) (m : Metrics) : Metrics :=
  mkMetrics m.(uses_fp) m.(trace_mix) m.(trace_stack_memory) m.(trace_mem)
    (bump m.(trace_control) i) m.(trace_alu).
Definition bump_mix (i : Z) (m : Metrics) : Metrics :=
  mkMetrics m.(uses_fp) (bump m.(trace_mix) i) m.(trace_stack_memory) m.(trace_mem)
    m.(trace_control) m.(trace_alu).
Definition bump_alu (i : Z) (m : Metrics) : Metrics :=
  mkMetrics m.(uses_fp) m.(trace_mix) m.(trace_stack_memory) m.(trace_mem)
    m.(trace_control) (bump m.(trace_alu) i).
Definition bump_stack (m : Metrics) : Metrics :=
  mkMetrics m.(uses_fp) m.(trace_mix) (Z.min (m.(trace_stack_memory) + 1) 0xffff) m.(trace_mem)
    m.(trace_control) m.(trace_alu).
Definition mark_fp (m : Metrics) : Metrics :=
  mkMetrics true m.(trace_mix) m.(trace_stack_memory) m.(trace_mem) m.(trace_control)
    m.(trace_alu).

(** What the arm of a supported instruction counts. *)
Definition record_arm (k : Caps) (insn : Z) (m : Metrics) : Metrics :=
  let op := opcode insn in
  let f3 := funct3 insn in
  let load_width := if 4 <=? f3 then f3 - 4 else f3 in
  let stack i m := if rs1 insn =? 2 then bump_mem i m else m in
  let vector_format := k.(allow_vector) && is_vector_format f3 in
  if op =? 0x6f then bump_control 1 m
  else if op =? 0x67 then bump_control 2 m
  else if op =? 0x63 then bump_control 0 m
  else if op =? 0x03 then stack 8 (bump_mem load_width m)
  else if op =? 0x23 then stack 9 (bump_mem (4 + f3) m)
  else if (op =? 0x07) && negb vector_format then stack 8 (bump_mem f3 (mark_fp m))
  else if (op =? 0x27) && negb vector_format then stack 9 (bump_mem (4 + f3) (mark_fp m))
  else if (op =? 0x43) || (op =? 0x47) || (op =? 0x4b) || (op =? 0x4f) || (op =? 0x53)
  then mark_fp m
  else if (op =? 0x73) && negb ((insn .>> 20) =? 0xc22) then mark_fp m
  else if op =? 0x2f then
    let funct5 := funct7 insn .>> 2 in
    if funct5 =? 0x02 then bump_mem f3 m
    else if funct5 =? 0x03 then bump_mem (f3 + 4) m
    else bump_mem (f3 + 4) (bump_mem f3 m)
  else m.

(** The common tail of [lift_one]. *)
Definition record_tail (insn : Z) (m : Metrics) : Metrics :=
  let op := opcode insn in
  let memory := (op =? 0x03) || (op =? 0x07) || (op =? 0x23) || (op =? 0x27) || (op =? 0x2f) in
  let m := if memory && (rs1 insn =? 2) then bump_stack m else m in
  if (op =? 0x03) || (op =? 0x07) then bump_mix 1 m
  else if (op =? 0x23) || (op =? 0x27) || (op =? 0x2f) then bump_mix 2 m
  else if ((op =? 0x43) || (op =? 0x47) || (op =? 0x4b) || (op =? 0x4f) || (op =? 0x53)
           || (op =? 0x73)) && m.(uses_fp) then bump_mix 4 m
  else if (op =? 0x6f) || (op =? 0x67) || (op =? 0x63) then bump_mix 3 m
  else if ((op =? 0x33) || (op =? 0x3b)) && (funct7 insn =? 0x01) && (funct3 insn <=? 3) then
    bump_alu 3 (bump_mix 0 m)
  else if ((op =? 0x33) || (op =? 0x3b)) && (funct7 insn =? 0x01) then bump_alu 4 (bump_mix 0 m)
  else bump_alu 0 (bump_mix 0 m).

Definition record (k : Caps) (insn : Z) (outcome : StepOutcome) (m : Metrics) : Metrics :=
  match outcome with
  | NotSupported => m
  | _ => record_tail insn (record_arm k insn m)
  end.

Definition lift_one (k : Caps) (insn pc fallthrough retired : Z) (m : Metrics)
    : Build (StepOutcome * Metrics) :=
  outcome <- lift_insn k insn pc fallthrough retired ;;
  ret (outcome, record k insn outcome m).

(** ** A trace *)

(** The loop's locals beside the builder. *)
Record Trace : Type := mkTrace {
  tr_metrics : Metrics;
  tr_pc : Z;
  tr_source_lo : Z;
  tr_source_hi : Z;
  tr_seeds : list Z;
  tr_profiled_index : nat
}.

Definition at_pc (pc : Z) (t : Trace) : Trace :=
  mkTrace t.(tr_metrics) pc t.(tr_source_lo) t.(tr_source_hi) t.(tr_seeds) t.(tr_profiled_index).

(** How the loop ends: the last pc, the next pc value, the retired count and
    the reason. *)
Record TraceEnd : Type := mkTraceEnd {
  te_trace : Trace;
  te_next_pc : ValueId;
  te_retired : Z;
  te_exit : ExitKind
}.

Section Trace.
Context (code : list Z) (base entry_pc : Z) (k : Caps) (targets : list Z).

(** One pass of the loop either ends the trace ([None] when nothing was
    lifted) or goes on. *)
Inductive Pass : Type :=
| Done (e : option TraceEnd)
| Again (t : Trace).

Definition lift_pass (retired : Z) (t : Trace) : Build Pass :=
  let pc := t.(tr_pc) in
  match decode_at code base pc with
  | None =>
      if retired =? 0 then ret (Done None)
      else next_pc <- guest_pc pc pc ;; ret (Done (Some (mkTraceEnd t next_pc retired RegionLimit)))
  | Some decoded =>
      let fallthrough := add64 pc decoded.(d_len) in
      om <- lift_one k decoded.(d_insn) pc fallthrough retired t.(tr_metrics) ;;
      let '(outcome, metrics) := om in
      let t :=
        match outcome with
        | NotSupported => mkTrace metrics pc t.(tr_source_lo) t.(tr_source_hi) t.(tr_seeds)
                            t.(tr_profiled_index)
        | _ => mkTrace metrics pc (Z.min t.(tr_source_lo) pc) (Z.max t.(tr_source_hi) fallthrough)
                 t.(tr_seeds) t.(tr_profiled_index)
        end in
      match outcome with
      | Continue => ret (Again (at_pc fallthrough t))
      | ContinueAt target =>
          if (pc <? target) && bool_decide (is_Some (decode_at code base target)) then
            ret (Again (at_pc target t))
          else
            next_pc <- guest_pc target pc ;;
            ret (Done (Some (mkTraceEnd (at_pc fallthrough t) next_pc (retired + 1) Dispatch)))
      | Exit target =>
          ret (Done (Some (mkTraceEnd (at_pc fallthrough t) target (retired + 1) Dispatch)))
      | IndirectExit target =>
          let stop :=
            ret (Done (Some (mkTraceEnd (at_pc fallthrough t) target (retired + 1) Dispatch))) in
          match targets !! t.(tr_profiled_index) with
          | Some observed =>
              if bool_decide (is_Some (decode_at code base observed)) then
                guard_target target observed (retired + 1) ;;;
                let seeds := if bool_decide (observed ∈ t.(tr_seeds)) then t.(tr_seeds)
                             else t.(tr_seeds) ++ [observed] in
                let t := mkTrace t.(tr_metrics) pc t.(tr_source_lo) t.(tr_source_hi) seeds
                           (S t.(tr_profiled_index)) in
                if observed =? entry_pc then
                  next_pc <- guest_pc entry_pc fallthrough ;;
                  ret (Done (Some (mkTraceEnd (at_pc fallthrough t) next_pc (retired + 1) Dispatch)))
                else ret (Again (at_pc observed t))
              else stop
          | None => stop
          end
      | NotSupported =>
          if retired =? 0 then ret (Done None)
          else
            next_pc <- guest_pc pc pc ;;
            ret (Done (Some (mkTraceEnd t next_pc retired DbtIr.Unsupported)))
      end
  end.

(** The loop, by the instructions left until the region limit: every pass
    that goes on retires one. *)
Fixpoint lift_loop (room : nat) (t : Trace) : Build (option TraceEnd) :=
  let retired := T1_MAX_INSNS - Z.of_nat room in
  match room with
  | O => next_pc <- guest_pc t.(tr_pc) t.(tr_pc) ;;
         ret (Some (mkTraceEnd t next_pc retired RegionLimit))
  | S room =>
      p <- lift_pass retired t ;;
      match p with
      | Done e => ret e
      | Again t => lift_loop room t
      end
  end.
End Trace.

(** ** Loops back to the entry *)

Definition static_guest_pc (r : Region) (value : ValueId) : option Z :=
  d ← r.(r_values) !! value;
  match d.(vd_op) with
  | Op.GuestPc pc => Some pc
  | Op.ConstI64 pc => Some (u64 pc)
  | _ => None
  end.

Definition detect_single_latch_loop (r : Region) : option LoopBackedge :=
  if (negb (bool_decide (r.(r_f_outputs) = [])) || bool_decide (is_Some r.(r_fcsr_output)))
     && negb (has_effects r)
  then None else
  match static_guest_pc r r.(r_next_pc) with
  | Some target =>
      if target =? r.(r_entry_pc) then Some (mkBackedge None r.(r_entry_pc)) else None
  | None =>
      d ← r.(r_values) !! r.(r_next_pc);
      match d.(vd_op) with
      | Op.SelectI64 condition if_true if_false =>
          taken ← static_guest_pc r if_true;
          not_taken ← static_guest_pc r if_false;
          if (taken =? r.(r_entry_pc)) && (not_taken =? r.(r_end_pc))
          then Some (mkBackedge (Some condition) not_taken) else None
      | _ => None
      end
  end.

(** [saturating_sub] on [u64]. *)
Definition saturating_sub (a b : Z) : Z := if a <? b then 0 else a - b.

(** Lift a trace; [Panic] is a failed [expect], [Ok None] a refusal. *)
Definition lift_t1_profiled_targets_mode (code : list Z) (base entry_pc : Z) (k : Caps)
    (targets : list Z) : outcome Empty_set (option LiftedRegion) :=
  if (entry_pc <? base) || negb ((entry_pc .& 1) =? 0) then Ok None else
  let t := mkTrace Metrics_default entry_pc entry_pc entry_pc [entry_pc] 0 in
  match lift_loop code base entry_pc k targets (Z.to_nat T1_MAX_INSNS) t (Builder_new entry_pc) with
  | (Ok None, _) => Ok None
  | (Ok (Some e), b) =>
      let t := e.(te_trace) in
      match finish b t.(tr_pc) e.(te_next_pc) e.(te_retired) e.(te_exit) with
      | None => Panic
      | Some ir =>
          let metrics := t.(tr_metrics) in
          let ir := mkRegion ir.(r_entry_pc) ir.(r_end_pc) ir.(r_values) ir.(r_outputs)
                      ir.(r_f_outputs) ir.(r_fcsr_output) ir.(r_next_pc) ir.(r_retired)
                      ir.(r_exit) metrics.(trace_mix) metrics.(trace_stack_memory)
                      (existsb (fun '(reg, _) => reg =? 2) ir.(r_outputs)) ir.(r_effects) in
          Ok (Some (mkLifted ir metrics (saturating_sub t.(tr_source_hi) t.(tr_source_lo))
                      (t.(tr_source_lo), t.(tr_source_hi)) t.(tr_seeds)
                      (if has_vector_helper ir then None else detect_single_latch_loop ir)))
      end
  | (Err _, _) | (Panic, _) => Panic
  end.

Definition lift_t1_profiled_with_vector (code : list Z) (base entry_pc : Z) (memory : bool)
    (fp : FpMode) (reservation vector : bool) (target : option Z)
    : outcome Empty_set (option LiftedRegion) :=
  lift_t1_profiled_targets_mode code base entry_pc (mkCaps memory fp reservation vector true)
    (option_list target).

Definition lift_basic_block_with_vector (code : list Z) (base entry_pc : Z) (memory : bool)
    (fp : FpMode) (reservation vector : bool) : outcome Empty_set (option LiftedRegion) :=
  lift_t1_profiled_targets_mode code base entry_pc (mkCaps memory fp reservation vector false) [].
