(* ===== verification/DbtExec.v ===== *)
(** * Executing a region (rv64-dbt wasm.rs, rv64-wasm lib.rs)

    What the code emitted for a region does, instruction group by instruction
    group: the values become WebAssembly locals, effects run at their
    positions, and a side exit commits the registers that are dirty at its
    instruction and returns.  The layout is the flat user-mode one (no TLB
    probes, no position-independent code, no direct SIMD arm); the imported
    helpers are those of rv64-wasm. *)

From Stdlib Require Import Floats.SpecFloat.
From S2P Require Import Prelude Exception Decode Csr State Bus Mmu Trap CsrOps Vector SoftFp Exec.
From S2P Require Import DbtVector DbtIr.

(** ** WebAssembly operators

    A local of type i32 (i64) is a 32-bit (64-bit) unsigned value. *)

Definition binary_value (op : BinaryOp) (a b : Z) : Z :=
  match op with
  | I64Add => add64 a b
  | I64Sub => sub64 a b
  | I64Mul => mul64 a b
  | I64And => a .& b
  | I64Or => a .| b
  | I64Xor => a .^ b
  | I64Shl => shl64 a (b .& 63)
  | I64ShrU => a .>> (b .& 63)
  | I64ShrS => u64 (i64 a .>> (b .& 63))
  | I32Add => add32 a b
  | I32Sub => sub32 a b
  | I32Mul => mul32 a b
  | I32And => a .& b
  | I32Or => a .| b
  | I32Xor => a .^ b
  | I32Shl => shl32 a (b .& 31)
  | I32ShrU => a .>> (b .& 31)
  | I32ShrS => u32 (i32 a .>> (b .& 31))
  | I64Eq => Z.b2z (a =? b)
  | I64Ne => Z.b2z (negb (a =? b))
  | I64LtS => Z.b2z (i64 a <? i64 b)
  | I64LtU => Z.b2z (a <? b)
  | I64GeS => Z.b2z (i64 b <=? i64 a)
  | I64GeU => Z.b2z (b <=? a)
  end.

(** [emit_raw_divide]: the operators that trap on a zero divisor and on
    MIN / -1; [None] is the trap. *)
Definition raw_divide (op : DivideOp) (a b : Z) : option Z :=
  if b =? 0 then None else
  match op with
  | I64DivS => if (a =? 2 ^ 63) && (b =? U64_MAX) then None
               else Some (u64 (Z.quot (i64 a) (i64 b)))
  | I64DivU => Some (a / b)
  | I64RemS => Some (u64 (Z.rem (i64 a) (i64 b)))
  | I64RemU => Some (a mod b)
  | I32DivS => if (a =? 2 ^ 31) && (b =? U32_MAX) then None
               else Some (u32 (Z.quot (i32 a) (i32 b)))
  | I32DivU => Some (a / b)
  | I32RemS => Some (u32 (Z.rem (i32 a) (i32 b)))
  | I32RemU => Some (a mod b)
  end.

(** [emit_guarded_divide]. *)
Definition guarded_divide (op : DivideOp) (a b : Z) : option Z :=
  let '(min, minus_one) :=
    match value_type op with I32 => (2 ^ 31, U32_MAX) | I64 => (2 ^ 63, U64_MAX) end in
  if b =? 0 then Some (if is_remainder op then a else minus_one)
  else if is_signed op && ((a =? min) && (b =? minus_one)) then
    Some (if is_remainder op then 0 else a)
  else raw_divide op a b.

(** ** The floating-point helper *)

Definition unbox32 (value : Z) : Z :=
  if (value .>> 32) =? 0xffffffff then u32 value else 0x7fc00000.

(** Native arithmetic, where it provably raises nothing but inexact. *)
Definition fast32 (op a b : Z) : option Z :=
  let ea := (a .>> 23) .& 0xff in
  let eb := (b .>> 23) .& 0xff in
  if (ea =? 0xff) || (eb =? 0xff) || ((op =? 3) && (shl32 b 1 =? 0)) then None else
  let result := host_arith 23 8 op a b in
  let exp := (result .>> 23) .& 0xff in
  let safe :=
    if (op =? 0) || (op =? 1) then negb (exp =? 0xff)
    else if op =? 2 then
      ((1 <=? exp) && (exp <=? 0xfe))
      || ((shl32 result 1 =? 0) && ((shl32 a 1 =? 0) || (shl32 b 1 =? 0)))
    else ((1 <=? exp) && (exp <=? 0xfe)) || ((shl32 result 1 =? 0) && (shl32 a 1 =? 0)) in
  if safe then Some result else None.

Definition fast64 (op a b : Z) : option Z :=
  let ea := (a .>> 52) .& 0x7ff in
  let eb := (b .>> 52) .& 0x7ff in
  if (ea =? 0x7ff) || (eb =? 0x7ff) || ((op =? 3) && (shl64 b 1 =? 0)) then None else
  let result := host_arith 52 11 op a b in
  let exp := (result .>> 52) .& 0x7ff in
  let safe :=
    if (op =? 0) || (op =? 1) then negb (exp =? 0x7ff)
    else if op =? 2 then
      ((1 <=? exp) && (exp <=? 0x7fe))
      || ((shl64 result 1 =? 0) && ((shl64 a 1 =? 0) || (shl64 b 1 =? 0)))
    else ((1 <=? exp) && (exp <=? 0x7fe)) || ((shl64 result 1 =? 0) && (shl64 a 1 =? 0)) in
  if safe then Some result else None.

Definition of_bool (r : bool * Z) : Z * Z := (Z.b2z (fst r), snd r).

(** The soft-float operation of a helper code: the result and the new flags;
    [None] is a panic of the square root. *)
Definition fp_helper (op lhs rhs third rm : Z) : option (Z * Z) :=
  let a := unbox32 lhs in
  let b := unbox32 rhs in
  if op =? 0 then Some (sf32.add a b rm 0)
  else if op =? 1 then Some (sf32.sub a b rm 0)
  else if op =? 2 then Some (sf32.mul a b rm 0)
  else if op =? 3 then Some (sf32.div a b rm 0)
  else if op =? 4 then Some (sf64.add lhs rhs rm 0)
  else if op =? 5 then Some (sf64.sub lhs rhs rm 0)
  else if op =? 6 then Some (sf64.mul lhs rhs rm 0)
  else if op =? 7 then Some (sf64.div lhs rhs rm 0)
  else if op =? 8 then Some (of_bool (sf32.eq_quiet a b 0))
  else if op =? 9 then Some (of_bool (sf32.lt a b 0))
  else if op =? 10 then Some (of_bool (sf32.le a b 0))
  else if op =? 11 then Some (of_bool (sf64.eq_quiet lhs rhs 0))
  else if op =? 12 then Some (of_bool (sf64.lt lhs rhs 0))
  else if op =? 13 then Some (of_bool (sf64.le lhs rhs 0))
  else if op =? 14 then sf32.sqrt a rm 0
  else if op =? 15 then sf64.sqrt lhs rm 0
  else if op =? 16 then Some (sf32.min a b 0)
  else if op =? 17 then Some (sf32.max a b 0)
  else if op =? 18 then Some (sf64.min lhs rhs 0)
  else if op =? 19 then Some (sf64.max lhs rhs 0)
  else if op =? 20 then Some (cvt_sf64_sf32 lhs rm 0)
  else if op =? 21 then Some (cvt_sf32_sf64 a 0)
  else if op =? 22 then let '(r, fl) := sf32.cvt_to_i32 a rm 0 false in Some (sext32 r, fl)
  else if op =? 23 then let '(r, fl) := sf32.cvt_to_i32 a rm 0 true in Some (sext32 r, fl)
  else if op =? 24 then Some (sf32.cvt_to_i64 a rm 0 false)
  else if op =? 25 then Some (sf32.cvt_to_i64 a rm 0 true)
  else if op =? 26 then let '(r, fl) := sf64.cvt_to_i32 lhs rm 0 false in Some (sext32 r, fl)
  else if op =? 27 then let '(r, fl) := sf64.cvt_to_i32 lhs rm 0 true in Some (sext32 r, fl)
  else if op =? 28 then Some (sf64.cvt_to_i64 lhs rm 0 false)
  else if op =? 29 then Some (sf64.cvt_to_i64 lhs rm 0 true)
  else if op =? 30 then Some (sf32.cvt_from_i32 (u32 lhs) rm 0 false)
  else if op =? 31 then Some (sf32.cvt_from_i32 (u32 lhs) rm 0 true)
  else if op =? 32 then Some (sf32.cvt_from_i64 lhs rm 0 false)
  else if op =? 33 then Some (sf32.cvt_from_i64 lhs rm 0 true)
  else if op =? 34 then Some (sf64.cvt_from_i32 (u32 lhs) rm 0 false)
  else if op =? 35 then Some (sf64.cvt_from_i32 (u32 lhs) rm 0 true)
  else if op =? 36 then Some (sf64.cvt_from_i64 lhs rm 0 false)
  else if op =? 37 then Some (sf64.cvt_from_i64 lhs rm 0 true)
  else if op =? 38 then Some (sf32.fclass a, 0)
  else if op =? 39 then Some (sf64.fclass lhs, 0)
  else if op =? 40 then Some (sf32.fma a b (unbox32 third) rm 0)
  else if op =? 41 then Some (sf64.fma lhs rhs third rm 0)
  else Some (0x7ff8000000000000, FFLAG_INVALID_OP).

(** The helper codes whose result is a boxed single. *)
Definition boxes (op : Z) : bool :=
  ((0 <=? op) && (op <=? 3)) || (op =? 14) || (op =? 16) || (op =? 17) || (op =? 20)
  || ((30 <=? op) && (op <=? 33)) || (op =? 40).

(** [jit_fp_exec]: the result and the new contents of the fcsr cell. *)
Definition jit_fp_exec (op lhs rhs third rm fcsr : Z) : option (Z * Z) :=
  let fast :=
    if (rm =? RM_RNE) && negb ((fcsr .& FFLAG_INEXACT) =? 0) then
      if op <? 4 then
        match fast32 op (unbox32 lhs) (unbox32 rhs) with
        | Some r => Some (0xffffffff00000000 .| r)
        | None => None
        end
      else if op <? 8 then fast64 (op - 4) lhs rhs
      else None
    else None in
  match fast with
  | Some r => Some (r, fcsr)
  | None =>
      match fp_helper op lhs rhs third rm with
      | Some (r, flags) =>
          Some (if boxes op then 0xffffffff00000000 .| r else r, fcsr .| (flags .& 0x1f))
      | None => None
      end
  end.

Definition f64_finite (v : Z) : bool := negb ((v .>> 52) .& 0x7ff =? 0x7ff).
Definition f64_zero (v : Z) : bool := shl64 v 1 =? 0.
Definition f64_normal (v : Z) : bool :=
  let e := (v .>> 52) .& 0x7ff in (0 <? e) && (e <? 0x7ff).

(** F64Eq/F64Lt/F64Le on bit patterns. *)
Definition host_compare (op : ExactFpOp) (a b : Z) : bool :=
  match SFcompare (fp_from_bits 52 11 a) (fp_from_bits 52 11 b) with
  | Some c =>
      match op with
      | Eq64 => match c with Eq => true | _ => false end
      | Lt64 => match c with Lt => true | _ => false end
      | _ => match c with Gt => false | _ => true end
      end
  | None => false
  end.

(** [emit_exact_fp_value], without the hardware-FMA option: the inline arms for
    finite doubles, the helper for the rest. *)
Definition exact_fp_value (op : ExactFpOp) (lhs rhs third rm fcsr : Z) : option (Z * Z) :=
  let helper := jit_fp_exec (helper_code op) lhs rhs third rm fcsr in
  let inline native (safe : Z -> bool) :=
    if (rm =? 0) && negb ((fcsr .& 1) =? 0) && f64_finite lhs && f64_finite rhs then
      let r := host_arith 52 11 native lhs rhs in
      if safe r then Some (r, fcsr) else helper
    else helper in
  match op with
  | Eq64 | Lt64 | Le64 =>
      if f64_finite lhs && f64_finite rhs
      then Some (Z.b2z (host_compare op lhs rhs), fcsr) else helper
  | Add64 => inline 0 f64_finite
  | Sub64 => inline 1 f64_finite
  | Mul64 => inline 2 (fun r => f64_normal r || (f64_zero r && (f64_zero lhs || f64_zero rhs)))
  | Div64 => inline 3 (fun r => f64_normal r || (f64_zero r && f64_zero lhs))
  | _ => helper
  end.

(** ** Guest memory

    The accesses of generated code to guest memory: [None] where the address
    check fails and the code leaves through its side exit. *)
Class GuestMemory (B : Type) : Type := {
  jit_load : Z -> Z -> B -> option Z;
  jit_store : Z -> Z -> Z -> B -> option B
}.

(** [emit_memory_address] on flat memory: the access lies below the length. *)
Definition flat_in_bounds (memory_len address bytes : Z) : bool :=
  if memory_len <? bytes then false else negb (memory_len - bytes <? address).

#[global] Instance FlatMemory_GuestMemory : GuestMemory FlatMemory := {
  jit_load := fun bytes address f =>
    if flat_in_bounds (Z.of_nat (length f.(mem))) address bytes
    then Some (from_le_bytes (take (Z.to_nat bytes) (drop (Z.to_nat address) f.(mem))))
    else None;
  jit_store := fun bytes address value f =>
    if flat_in_bounds (Z.of_nat (length f.(mem))) address bytes
    then Some (set_mem (take (Z.to_nat address) f.(mem) ++ to_le_bytes (Z.to_nat bytes) value
                        ++ drop (Z.to_nat (address + bytes)) f.(mem)) f)
    else None
}.

(** The extension of a load. *)
Definition extend_load (kind : LoadKind.t) (v : Z) : Z :=
  match kind with
  | LoadKind.I8S => u64 (i8 v)
  | LoadKind.I16S => u64 (i16 v)
  | LoadKind.I32S => sext32 v
  | _ => v
  end.

(** ** Regions

    [Err n] is a return through a side exit with [n] instructions retired. *)
Definition Wasm (S A : Type) : Type := M Z S A.

(** Locals are zero until they are set. *)
Definition local (rho : list Z) (v : ValueId) : Z := default 0 (rho !! v).

Definition commit_outputs (outputs : list (Z * ValueId)) (rho : list Z) (c : Cpu) : Cpu :=
  foldl (fun c '(reg, v) => set_xr reg (local rho v) c) c outputs.

Definition commit_f_outputs (outputs : list (Z * ValueId)) (rho : list Z) (c : Cpu) : Cpu :=
  foldl (fun c '(reg, v) => set_fr reg (local rho v) c) c outputs.

Definition commit_fcsr (o : option ValueId) (rho : list Z) (c : Cpu) : Cpu :=
  match o with Some v => set_fcsr (local rho v) c | None => c end.

(** [emit_side_exit_state]: publish the dirty registers and the pc. *)
Definition side_exit_state (e : SideExit) (rho : list Z) (c : Cpu) : Cpu :=
  set_pc e.(se_guest_pc)
    (commit_fcsr e.(se_fcsr_output) rho
       (commit_f_outputs e.(se_f_outputs) rho (commit_outputs e.(se_outputs) rho c))).

Section Region.
Context {B : Type} `{Bus B} `{VectorUnit B} `{GuestMemory B}.

(** [emit_side_exit] and the return after it. *)
Definition leave {A} (e : SideExit) (rho : list Z) : Wasm (Cpu * B) A :=
  on_fst (modify (side_exit_state e rho)) ;;; throw e.(se_retired).

Definition exec_load_value (address : Z) (kind : LoadKind.t) (e : SideExit) (rho : list Z)
    : Wasm (Cpu * B) Z :=
  s <- gets id ;;
  match jit_load (LoadKind.bytes kind) address (snd s) with
  | Some v => ret (extend_load kind v)
  | None => leave e rho
  end.

Definition exec_store_value (address value : Z) (kind : StoreKind.t) (e : SideExit)
    (rho : list Z) : Wasm (Cpu * B) unit :=
  s <- gets id ;;
  match jit_store (StoreKind.bytes kind) address value (snd s) with
  | Some m => modify (fun '(c, _) => (c, m))
  | None => leave e rho
  end.

(** The value at a position: [emit_value_body] and the effectful operations. *)
Definition exec_value (op : Op.t) (rho : list Z) : Wasm (Cpu * B) Z :=
  let l := local rho in
  s <- gets id ;;
  let c := fst s in
  match op with
  | Op.ConstI32 v => ret (u32 v)
  | Op.ConstI64 v => ret (u64 v)
  | Op.GuestPc pc => ret pc
  | Op.ReadX reg => ret (xr c reg)
  | Op.ReadF reg => ret (fr c reg)
  | Op.ReadFcsr => ret c.(fcsr)
  | Op.Binary op lhs rhs => ret (binary_value op (l lhs) (l rhs))
  | Op.Divide op lhs rhs => unwrap (guarded_divide op (l lhs) (l rhs))
  | Op.WrapI64ToI32 v => ret (u32 (l v))
  | Op.ExtendI32S v => ret (sext32 (l v))
  | Op.ExtendI32U v => ret (l v)
  | Op.SelectI64 c t f => ret (if negb (l c =? 0) then l t else l f)
  | Op.Load address kind exit => exec_load_value (l address) kind exit rho
  | Op.ExactFp op lhs rhs third rm fcsr exit =>
      if 4 <? l rm then leave exit rho else
      v <- unwrap (exact_fp_value op (l lhs) (l rhs) (l third) (l rm) (l fcsr)) ;;
      on_fst (modify (set_fcsr (snd v))) ;;;
      ret (fst v)
  | Op.Reservation LoadReserved address =>
      on_fst (modify (set_reservation (Some (l address)))) ;;; ret 1
  | Op.Reservation StoreConditional address =>
      ret (Z.b2z (bool_decide (c.(reservation) = Some (l address))))
  | Op.ReloadFcsr _ => ret c.(fcsr)
  end.

(** [emit_fp_state]: needs the full-system mstatus capability. *)
Definition exec_fp_state (dirty : bool) (exit : SideExit) (rho : list Z) : Wasm (Cpu * B) unit :=
  s <- gets id ;;
  match (fst s).(sys) with
  | None => panic
  | Some y =>
      if (y.(mstatus) .& MSTATUS_FS) =? 0 then leave exit rho
      else if dirty then
        on_fst (modify (set_sys (Some (set_mstatus (y.(mstatus) .| MSTATUS_FS) y))))
      else ret tt
  end.

(** [emit_vector_state]: nothing to check in user mode. *)
Definition exec_vector_state (exit : SideExit) (rho : list Z) : Wasm (Cpu * B) unit :=
  s <- gets id ;;
  match (fst s).(sys) with
  | None => ret tt
  | Some y => if (y.(mstatus) .& MSTATUS_VS) =? 0 then leave exit rho else ret tt
  end.

(** A whole vector instruction: publish the state, call the helper, and leave
    at the instruction itself when it does not complete. *)
Definition exec_vector_effect (insn : Z) (exit : SideExit) (rho : list Z)
    : Wasm (Cpu * B) unit :=
  on_fst (modify (side_exit_state exit rho)) ;;;
  fun s =>
    match jit_exec_vector insn s with
    | (Ok _, s') => (Ok tt, s')
    | (Err _, s') => (Err exit.(se_retired), s')
    | (Panic, s') => (Panic, s')
    end.

Definition exec_effect (e : Effect.t) (rho : list Z) : Wasm (Cpu * B) unit :=
  let l := local rho in
  match e with
  | Effect.Store _ address value kind None exit =>
      exec_store_value (l address) (l value) kind exit rho
  | Effect.Store _ address value kind (Some condition) exit =>
      (if negb (l condition =? 0)
       then exec_store_value (l address) (l value) kind exit rho else ret tt) ;;;
      on_fst (modify (set_reservation None))
  | Effect.Guard _ condition exit => if negb (l condition =? 0) then leave exit rho else ret tt
  | Effect.GuardTarget _ target expected exit =>
      if negb (l target =? expected) then
        on_fst (modify (fun c => set_pc (l target) (side_exit_state exit rho c))) ;;;
        throw exit.(se_retired)
      else ret tt
  | Effect.FpState _ dirty exit => exec_fp_state dirty exit rho
  | Effect.VectorState _ exit => exec_vector_state exit rho
  | Effect.Vector _ insn _ _ exit => exec_vector_effect insn exit rho
  end.

(** The effects at a position, in list order. *)
Fixpoint exec_effects (position : nat) (effects : list Effect.t) (rho : list Z)
    : Wasm (Cpu * B) unit :=
  match effects with
  | [] => ret tt
  | e :: effects =>
      (if bool_decide (Effect.position e = position) then exec_effect e rho else ret tt) ;;;
      exec_effects position effects rho
  end.

(** The positions of [emit_effectful], from [length rho] on; the result is the
    locals at the end. *)
Fixpoint exec_values (values : list ValueData) (effects : list Effect.t) (rho : list Z)
    : Wasm (Cpu * B) (list Z) :=
  exec_effects (length rho) effects rho ;;;
  match values with
  | [] => ret rho
  | d :: values =>
      v <- exec_value d.(vd_op) rho ;;
      exec_values values effects (rho ++ [v])
  end.

(** A whole region: the number of retired instructions. *)
Definition exec_region (r : Region) : Wasm (Cpu * B) Z :=
  rho <- exec_values r.(r_values) r.(r_effects) [] ;;
  on_fst (modify (fun c =>
    set_pc (local rho r.(r_next_pc))
      (commit_fcsr r.(r_fcsr_output) rho
         (commit_f_outputs r.(r_f_outputs) rho (commit_outputs r.(r_outputs) rho c))))) ;;;
  ret r.(r_retired).
End Region.
