(* ===== verification/DbtDce.v ===== *)
(** * Region streams and dead-value elimination

    A region's values and effects interleave into one stream of items; the
    positions of [emit_effectful] execute that stream.  Dead-value elimination
    keeps what it computes. *)

From Stdlib Require Import Sorting.Sorted.
From S2P Require Import Prelude Exception Decode Csr State Bus Mmu Vector Exec.
From S2P Require Import DbtVector DbtIr DbtExec.

(** ** Streams *)

Definition item : Type := (Effect.t + ValueData)%type.

(** [interleave n vs es items]: the items of a region whose first [n] values
    have been executed. *)
Inductive interleave : nat -> list ValueData -> list Effect.t -> list item -> Prop :=
| inter_nil n : interleave n [] [] []
| inter_effect n vs e es items :
    Effect.position e = n -> interleave n vs es items ->
    interleave n vs (e :: es) (inl e :: items)
| inter_value n d vs es items :
    interleave (S n) vs es items -> interleave n (d :: vs) es (inr d :: items).

Section Stream.
Context {B : Type} `{Bus B} `{VectorUnit B} `{GuestMemory B}.

Fixpoint exec_items (items : list item) (rho : list Z) : Wasm (Cpu * B) (list Z) :=
  match items with
  | [] => ret rho
  | inl e :: items => exec_effect e rho ;;; exec_items items rho
  | inr d :: items => v <- exec_value d.(vd_op) rho ;; exec_items items (rho ++ [v])
  end.

Lemma exec_items_app a b rho s :
  exec_items (a ++ b) rho s = (rho' <- exec_items a rho ;; exec_items b rho') s.
Proof.
  revert rho s. induction a as [|[e|d] a IH]; intros rho s; cbn [app exec_items]; unfold bind, ret.
  - done.
  - destruct (exec_effect e rho s) as [[] s']; [apply IH|done..].
  - destruct (exec_value (vd_op d) rho s) as [[] s']; [apply IH|done..].
Qed.

Lemma interleave_positions n vs es items :
  interleave n vs es items -> Forall (fun e => n <= Effect.position e)%nat es.
Proof.
  induction 1; [constructor|constructor; [lia|done]|].
  eapply Forall_impl; [|eassumption]. simpl. lia.
Qed.

Lemma exec_effects_skip n es rho s :
  Forall (fun e => n < Effect.position e)%nat es -> exec_effects n es rho s = (Ok tt, s).
Proof.
  induction 1 as [|e es He _ IH]; [done|]. cbn [exec_effects]. unfold bind.
  rewrite bool_decide_eq_false_2 by lia. apply IH.
Qed.

(** An effect before the current position never runs again. *)
Lemma exec_values_skip vs e es rho s :
  (Effect.position e < length rho)%nat ->
  exec_values vs (e :: es) rho s = exec_values vs es rho s.
Proof.
  revert rho s. induction vs as [|d vs IH]; intros rho s Hp;
    cbn [exec_values exec_effects]; unfold bind, ret; rewrite bool_decide_eq_false_2 by lia.
  - done.
  - destruct (exec_effects _ es rho s) as [[] s']; try done.
    destruct (exec_value _ rho s') as [[] s'']; try done.
    apply IH. rewrite length_app. simpl. lia.
Qed.

(** The positions of the emitter execute the stream. *)
Lemma exec_values_items n vs es items :
  interleave n vs es items ->
  forall rho s, length rho = n -> exec_values vs es rho s = exec_items items rho s.
Proof.
  induction 1 as [|n vs e es items Hp _ IH|n d vs es items Hi IH]; intros rho s Hl.
  - done.
  - cbn [exec_items]. unfold bind.
    destruct vs as [|d vs]; cbn [exec_values exec_effects]; unfold bind;
      rewrite bool_decide_eq_true_2 by congruence;
      destruct (exec_effect e rho s) as [[] s']; try done; rewrite <- IH by done;
      cbn [exec_values]; unfold bind; [done|].
    destruct (exec_effects _ es rho s') as [[] s'']; try done.
    destruct (exec_value _ rho s'') as [[] s3]; try done.
    apply exec_values_skip. rewrite length_app. simpl. lia.
  - cbn [exec_values exec_items]. unfold bind.
    rewrite exec_effects_skip.
    2: { rewrite Hl. eapply Forall_impl; [|by eapply interleave_positions]. simpl. lia. }
    destruct (exec_value _ rho s) as [[] s']; try done.
    apply IH. rewrite length_app. simpl. lia.
Qed.
End Stream.

Lemma interleave_snoc_value n vs es items d :
  interleave n vs es items -> interleave n (vs ++ [d]) es (items ++ [inr d]).
Proof. induction 1; simpl; by repeat constructor. Qed.

Lemma interleave_snoc_effect n vs es items e :
  interleave n vs es items -> Effect.position e = (n + length vs)%nat ->
  interleave n vs (es ++ [e]) (items ++ [inl e]).
Proof.
  induction 1; simpl; intros Hp.
  - constructor; [lia|constructor].
  - constructor; [done|]. auto.
  - constructor. apply IHinterleave. lia.
Qed.

(** Effects in position order have a stream. *)
Definition ordered (effects : list Effect.t) : Prop :=
  StronglySorted (fun a b => Effect.position a <= Effect.position b)%nat effects.

Lemma interleave_exists n vs es :
  ordered es -> Forall (fun e => n <= Effect.position e <= n + length vs)%nat es ->
  exists items, interleave n vs es items.
Proof.
  intros Ho. unfold ordered in Ho.
  revert n es Ho. induction vs as [|d vs IH]; intros n es Ho Hr.
  - induction es as [|e es IHe]; [eexists; constructor|].
    apply StronglySorted_inv in Ho as [Ho _]. apply Forall_cons_1 in Hr as [He Hr].
    destruct (IHe Ho Hr) as [items Hi]. exists (inl e :: items).
    constructor; [simpl in He; lia|done].
  - induction es as [|e es IHe].
    + destruct (IH (S n) []) as [items Hi]; [constructor..|]. exists (inr d :: items).
      by constructor.
    + apply StronglySorted_inv in Ho as [Ho Hge]. apply Forall_cons_1 in Hr as [He Hr].
      destruct (decide (Effect.position e = n)) as [Heq|Hne].
      * destruct (IHe Ho Hr) as [items Hi]. exists (inl e :: items). by constructor.
      * destruct (IH (S n) (e :: es)) as [items Hi].
        { by constructor. }
        { constructor; [simpl in He; lia|].
          apply Forall_forall. intros x Hx. rewrite Forall_forall in Hge, Hr.
          specialize (Hge x Hx). specialize (Hr x Hx). simpl in *. lia. }
        exists (inr d :: items). by constructor.
Qed.

(** ** Well-formed regions

    What [validate] checks about order: operands are prior values, and the
    effects are in position order. *)
Definition below (n : nat) (l : list ValueId) : Prop := Forall (fun v => v < n)%nat l.

Record wf_region (r : Region) : Prop := {
  wr_values i d : r.(r_values) !! i = Some d -> below i (operands d.(vd_op));
  wr_effects : Forall (fun e => Effect.position e <= length r.(r_values)
    /\ below (Effect.position e) (effect_values e))%nat r.(r_effects);
  wr_ordered : ordered r.(r_effects);
  wr_next_pc : below (length r.(r_values)) [r.(r_next_pc)];
  wr_outputs : below (length r.(r_values)) (map snd r.(r_outputs));
  wr_f_outputs : below (length r.(r_values)) (map snd r.(r_f_outputs));
  wr_fcsr_output : below (length r.(r_values)) (option_list r.(r_fcsr_output))
}.

Lemma below_mono n m l : (n <= m)%nat -> below n l -> below m l.
Proof. intros ?. apply Forall_impl. lia. Qed.

(** ** Marking *)

(** Operands of the values not yet live. *)
Definition pending (live : list bool) (values : list ValueData) : nat :=
  sum_list_with (fun '(b, d) => if b : bool then 0%nat else length (operands (vd_op d)))
    (zip live values).

Lemma pending_mark live values id d :
  live !! id = Some false -> values !! id = Some d ->
  (pending (<[id := true]> live) values + length (operands d.(vd_op)) = pending live values)%nat.
Proof.
  unfold pending. revert values id. induction live as [|b live IH]; intros values id; [done|].
  destruct values as [|d' values]; [done|]. destruct id as [|id]; simpl.
  - intros [= ->] [= ->]. lia.
  - intros Hl Hv. specialize (IH values id Hl Hv). lia.
Qed.

Lemma pending_start values :
  pending (replicate (length values) false) values
  = sum_list_with (fun v => length (operands v.(vd_op))) values.
Proof. unfold pending. induction values; simpl; [done|]. lia. Qed.

(** Everything live has its operands live or waiting. *)
Definition closed_upto (values : list ValueData) (live : list bool) (work : list ValueId) : Prop :=
  forall i d o, live !! i = Some true -> values !! i = Some d -> In o (operands d.(vd_op)) ->
    live !! o = Some true \/ In o work.

Lemma mark_spec fuel values live work :
  (forall i d, values !! i = Some d -> below (length values) (operands d.(vd_op))) ->
  below (length values) work -> length live = length values ->
  closed_upto values live work ->
  (length work + pending live values <= fuel)%nat ->
  exists live', mark fuel values live work = Some live'
    /\ length live' = length values
    /\ (forall i, live !! i = Some true -> live' !! i = Some true)
    /\ (forall o, In o work -> live' !! o = Some true)
    /\ closed_upto values live' [].
Proof.
  intros Hv. revert live work. induction fuel as [|fuel IH]; intros live work Hw Hl Hc Hf.
  - destruct work; [|simpl in Hf; lia]. exists live. split_and!; done.
  - destruct work as [|id work]; [exists live; split_and!; done|].
    apply Forall_cons_1 in Hw as [Hid Hw]. simpl in Hf. cbn [mark].
    destruct (lookup_lt_is_Some_2 live id) as [b Hb]; [lia|].
    destruct (lookup_lt_is_Some_2 values id) as [d Hd]; [lia|]. rewrite Hb, Hd.
    destruct b.
    + destruct (IH live work) as (live' & Hm & Hl' & Hmono & Hwork & Hcl); try done; [|lia|].
      { intros i d' o Hi Hd' Ho. destruct (Hc i d' o Hi Hd' Ho) as [?|Hin]; [by left|].
        destruct Hin as [->|?]; [by left|by right]. }
      exists live'. split_and!; try done.
      intros o [->|Ho]; eauto.
    + destruct (IH (<[id := true]> live) (rev (operands (vd_op d)) ++ work))
        as (live' & Hm & Hl' & Hmono & Hwork & Hcl).
      * apply Forall_app. split; [|done]. apply Forall_rev. by eapply Hv.
      * by rewrite length_insert.
      * intros i d' o Hi Hd' Ho. destruct (decide (i = id)) as [->|Hne].
        { simplify_eq. right. apply in_app_iff. left. by apply in_rev in Ho. }
        { rewrite list_lookup_insert_ne in Hi by done.
          destruct (Hc i d' o Hi Hd' Ho) as [Hlo|Hin].
          - left. destruct (decide (o = id)) as [->|]; [congruence|].
            by rewrite list_lookup_insert_ne.
          - destruct Hin as [->|Hin].
            + left. rewrite list_lookup_insert_eq; [done|lia].
            + right. apply in_app_iff. by right. }
      * rewrite length_app, length_rev. pose proof (pending_mark live values id d Hb Hd). lia.
      * exists live'. split_and!; try done.
        { intros i Hi. apply Hmono. destruct (decide (i = id)) as [->|];
            [rewrite list_lookup_insert_eq; [done|lia]|by rewrite list_lookup_insert_ne]. }
        { intros o [->|Ho].
          - apply Hmono. rewrite list_lookup_insert_eq; [done|lia].
          - apply Hwork. apply in_app_iff. by right. }
Qed.

(** ** Renamed streams *)

(** The locals of the renamed region hold the live locals of the original. *)
Definition agree (m : list (option ValueId)) (rho rho' : list Z) : Prop :=
  forall v v', (v < length rho)%nat -> m !! v = Some (Some v') ->
    (v' < length rho')%nat /\ rho' !! v' = rho !! v.

Lemma agree_local m rho rho' v v' :
  agree m rho rho' -> (v < length rho)%nat -> remap_id m v = Some v' ->
  local rho' v' = local rho v.
Proof.
  unfold remap_id. intros Ha Hv Hm. destruct (m !! v) as [[w|]|] eqn:E; simplify_eq/=.
  unfold local. by destruct (Ha v v' Hv E) as [_ ->].
Qed.

Lemma agree_live m rho rho' x :
  agree m rho rho' -> m !! length rho = Some (Some (length rho')) ->
  agree m (rho ++ [x]) (rho' ++ [x]).
Proof.
  intros Ha Hn v v' Hv Hm. rewrite length_app in *. simpl in *.
  destruct (decide (v = length rho)) as [->|].
  - simplify_eq. split; [lia|]. rewrite !lookup_app_r by lia. by rewrite !Nat.sub_diag.
  - destruct (Ha v v') as [Hlt He]; [lia|done|]. split; [lia|].
    by rewrite !lookup_app_l by lia.
Qed.

Lemma agree_dead m rho rho' x :
  agree m rho rho' -> m !! length rho = Some None -> agree m (rho ++ [x]) rho'.
Proof.
  intros Ha Hn v v' Hv Hm. rewrite length_app in *. simpl in *.
  destruct (decide (v = length rho)) as [->|]; [congruence|].
  destruct (Ha v v') as [Hlt He]; [lia|done|]. split; [lia|].
  by rewrite lookup_app_l by lia.
Qed.

Lemma commit_outputs_remap m rho rho' l l' c :
  agree m rho rho' -> below (length rho) (map snd l) -> remap_outputs m l = Some l' ->
  commit_outputs l' rho' c = commit_outputs l rho c.
Proof.
  unfold remap_outputs. intros Ha Hb Hm%mapM_Some. revert c Hb.
  induction Hm as [|[reg v] [reg' v'] l l' Hv _ IH]; intros c Hb; [done|].
  apply Forall_cons_1 in Hb as [Hlt Hb]. apply bind_Some in Hv as (w & Hw & [= -> ->]).
  cbn [commit_outputs foldl]. rewrite (agree_local _ _ _ _ _ Ha Hlt Hw). by apply IH.
Qed.

Lemma commit_f_outputs_remap m rho rho' l l' c :
  agree m rho rho' -> below (length rho) (map snd l) -> remap_outputs m l = Some l' ->
  commit_f_outputs l' rho' c = commit_f_outputs l rho c.
Proof.
  unfold remap_outputs. intros Ha Hb Hm%mapM_Some. revert c Hb.
  induction Hm as [|[reg v] [reg' v'] l l' Hv _ IH]; intros c Hb; [done|].
  apply Forall_cons_1 in Hb as [Hlt Hb]. apply bind_Some in Hv as (w & Hw & [= -> ->]).
  cbn [commit_f_outputs foldl]. rewrite (agree_local _ _ _ _ _ Ha Hlt Hw). by apply IH.
Qed.

Lemma commit_fcsr_remap m rho rho' o o' c :
  agree m rho rho' -> below (length rho) (option_list o) -> remap_opt m o = Some o' ->
  commit_fcsr o' rho' c = commit_fcsr o rho c.
Proof.
  intros Ha Hb Hm. destruct o as [v|]; simpl in *; [|by simplify_eq].
  apply bind_Some in Hm as (w & Hw & [= <-]). apply Forall_cons_1 in Hb as [Hlt _].
  simpl. by rewrite (agree_local _ _ _ _ _ Ha Hlt Hw).
Qed.

Lemma side_exit_remap m rho rho' e e' c :
  agree m rho rho' -> below (length rho) (exit_values e) -> remap_exit m e = Some e' ->
  side_exit_state e' rho' c = side_exit_state e rho c /\ e'.(se_retired) = e.(se_retired).
Proof.
  intros Ha Hb Hm. apply bind_Some in Hm as (o1 & H1 & Hm). apply bind_Some in Hm as (o2 & H2 & Hm).
  apply bind_Some in Hm as (o3 & H3 & [= <-]). unfold exit_values, below in Hb.
  rewrite !Forall_app in Hb. destruct Hb as (Hb1 & Hb2 & Hb3).
  unfold side_exit_state. simpl.
  by rewrite (commit_outputs_remap m rho rho' _ _ c Ha Hb1 H1),
    (commit_f_outputs_remap m rho rho' _ _ _ Ha Hb2 H2),
    (commit_fcsr_remap m rho rho' _ _ _ Ha Hb3 H3).
Qed.

(** Unfold a renaming into the renamings of its operands. *)
Ltac renamed :=
  repeat match goal with
  | H : mbind _ _ = Some _ |- _ => apply bind_Some in H as (? & ? & H)
  | H : Some _ = Some _ |- _ => injection H as <-
  | H : context [option_list (Some ?v) ++ ?l] |- _ => change (option_list (Some v) ++ l) with (v :: l) in H
  | H : context [option_list None ++ ?l] |- _ => change (option_list None ++ l) with l in H
  | H : below _ (_ :: _) |- _ => apply Forall_cons_1 in H as [? H]
  | H : Forall _ (_ :: _) |- _ => apply Forall_cons_1 in H as [? H]
  end.

Section Rename.
Context {B : Type} `{Bus B} `{VectorUnit B} `{GuestMemory B}.

Lemma leave_remap {A} m rho rho' e e' (s : Cpu * B) :
  agree m rho rho' -> below (length rho) (exit_values e) -> remap_exit m e = Some e' ->
  leave (A := A) e' rho' s = leave e rho s.
Proof.
  intros Ha Hb Hm. unfold leave, bind, on_fst, modify, throw.
  destruct (side_exit_remap _ _ _ _ _ (fst s) Ha Hb Hm) as [-> ->]. done.
Qed.

Lemma exec_value_remap m op op' rho rho' (s : Cpu * B) :
  below (length rho) (operands op) -> remap_op m op = Some op' -> agree m rho rho' ->
  exec_value op' rho' s = exec_value op rho s.
Proof.
  intros Hb Hm Ha. pose proof (fun v v' => agree_local m rho rho' v v' Ha) as Hl.
  destruct op; cbn [remap_op operands] in *; renamed;
    repeat match goal with
    | Hr : remap_id m ?v = Some _, Hlt : (?v < length rho)%nat |- _ =>
        pose proof (Hl _ _ Hlt Hr); clear Hr
    end;
    unfold exec_value, exec_load_value, bind, gets, id; cbn [fst snd];
    repeat match goal with He : local rho' _ = _ |- _ => rewrite He; clear He end; try done.
  - destruct (jit_load _ _ _); [done|]. by eapply leave_remap.
  - destruct (4 <? _); [by eapply leave_remap|done].
Qed.

Lemma exec_store_remap m a v kind e e' rho rho' (s : Cpu * B) :
  below (length rho) (exit_values e) -> remap_exit m e = Some e' -> agree m rho rho' ->
  exec_store_value a v kind e' rho' s = exec_store_value a v kind e rho s.
Proof.
  intros Hb Hm Ha. unfold exec_store_value, bind, gets, id. destruct (jit_store _ _ _ _); [done|].
  by eapply leave_remap.
Qed.

Lemma exec_effect_remap m live e e' rho rho' (s : Cpu * B) :
  below (length rho) (effect_values e) -> remap_effect live m e = Some e' ->
  agree m rho rho' -> exec_effect e' rho' s = exec_effect e rho s.
Proof.
  intros Hb Hm Ha. pose proof (fun v v' => agree_local m rho rho' v v' Ha) as Hl.
  destruct e as [p a v kind [cd|] x|p cd x|p t ex x|p d x|p x|p i d f x];
    cbn [remap_effect remap_opt effect_values app] in *; renamed;
    repeat match goal with
    | Hr : remap_id m ?v = Some _, Hlt : (?v < length rho)%nat |- _ =>
        pose proof (Hl _ _ Hlt Hr); clear Hr
    | Hr : remap_exit m ?x = Some ?y |- _ =>
        lazymatch goal with
        | _ : forall c, side_exit_state _ _ c = _ /\ _ |- _ => fail
        | _ => pose proof (fun c => side_exit_remap _ _ _ _ _ c Ha Hb Hr) as Hse
        end
    end; unfold exec_effect;
    repeat match goal with He : local rho' _ = _ |- _ => rewrite He; clear He end.
  - unfold bind. destruct (negb _); [|done]. by erewrite exec_store_remap by done.
  - by eapply exec_store_remap.
  - destruct (negb _); [|done]. by eapply leave_remap.
  - destruct (negb _); [|done]. unfold bind, on_fst, modify, throw.
    by destruct (Hse (fst s)) as [-> ->].
  - unfold exec_fp_state, bind, gets, id. destruct (sys _); [|done].
    destruct (_ =? 0); [by eapply leave_remap|done].
  - unfold exec_vector_state, bind, gets, id. destruct (sys _); [|done].
    destruct (_ =? 0); [by eapply leave_remap|done].
  - unfold exec_vector_effect, bind, on_fst, modify. by destruct (Hse (fst s)) as [-> ->].
Qed.

(** A value that is not kept for its effect has none. *)
Lemma guarded_divide_total op a b : exists v, guarded_divide op a b = Some v.
Proof.
  unfold guarded_divide, raw_divide.
  destruct op; cbn [value_type is_remainder is_signed andb]; destruct (b =? 0); eauto;
    destruct (_ && _); eauto.
Qed.

Lemma exec_value_pure op rho (s : Cpu * B) :
  is_effectful op = false -> exists v, exec_value op rho s = (Ok v, s).
Proof.
  intros Hp. destruct op; try done; unfold exec_value, bind, gets, id; try (by eexists).
  destruct (guarded_divide_total op (local rho lhs) (local rho rhs)) as [v ->]. by exists v.
Qed.

(** The items of a region and those of its renamed region, from [n] (resp.
    [n']) executed values on. *)
Inductive remapped (m : list (option ValueId)) : nat -> nat -> list item -> list item -> Prop :=
| rm_nil n n' : remapped m n n' [] []
| rm_effect n n' e e' live items items' :
    below n (effect_values e) -> remap_effect live m e = Some e' ->
    remapped m n n' items items' -> remapped m n n' (inl e :: items) (inl e' :: items')
| rm_live n n' d d' items items' :
    below n (operands d.(vd_op)) -> remap_op m d.(vd_op) = Some d'.(vd_op) ->
    m !! n = Some (Some n') ->
    remapped m (S n) (S n') items items' -> remapped m n n' (inr d :: items) (inr d' :: items')
| rm_dead n n' d items items' :
    is_effectful d.(vd_op) = false -> m !! n = Some None ->
    remapped m (S n) n' items items' -> remapped m n n' (inr d :: items) items'.

Fixpoint value_count (items : list item) : nat :=
  match items with
  | [] => 0
  | inl _ :: items => value_count items
  | inr _ :: items => S (value_count items)
  end.

(** Two executions end alike: the same state, exit and count, and agreeing
    locals. *)
Definition same_end (m : list (option ValueId)) (x y : outcome Z (list Z) * (Cpu * B)) : Prop :=
  snd x = snd y
  /\ match fst x, fst y with
     | Ok rho, Ok rho' => agree m rho rho'
     | Err a, Err b => a = b
     | Panic, Panic => True
     | _, _ => False
     end.

Lemma remapped_exec m n n' items items' :
  remapped m n n' items items' ->
  forall rho rho' s, length rho = n -> length rho' = n' -> agree m rho rho' ->
    same_end m (exec_items items rho s) (exec_items items' rho' s)
    /\ match exec_items items rho s with
       | (Ok rho2, _) => length rho2 = (n + value_count items)%nat
       | _ => True
       end.
Proof.
  induction 1 as [n n'|n n' e e' live items items' Hb Hm _ IH|n n' d d' items items' Hb Hm Hn _ IH
    |n n' d items items' Hp Hn _ IH]; intros rho rho' s Hl Hl' Ha; cbn [exec_items value_count].
  - split; [by split|]. simpl. lia.
  - rewrite <- Hl in Hb. unfold bind. rewrite (exec_effect_remap m live e e' rho rho' s Hb Hm Ha).
    destruct (exec_effect e rho s) as [[] s']; [by apply IH|by split..].
  - rewrite <- Hl in Hb. unfold bind. rewrite (exec_value_remap m _ _ rho rho' s Hb Hm Ha).
    destruct (exec_value _ rho s) as [[v| |] s']; [|by split..].
    rewrite Nat.add_succ_r, <- Nat.add_succ_l.
    apply IH; [rewrite length_app; simpl; lia..|]. apply agree_live; [done|congruence].
  - unfold bind. destruct (exec_value_pure _ rho s Hp) as [v ->].
    rewrite Nat.add_succ_r, <- Nat.add_succ_l.
    apply IH; [rewrite length_app; simpl; lia|done|]. apply agree_dead; [done|congruence].
Qed.
End Rename.

(** ** Compaction produces a renamed stream *)

(** How many values of a prefix are live. *)
Definition live_count (live : list bool) : nat := length (filter (fun b => b = true) live).

Lemma remap_id_mono m t v v' : remap_id m v = Some v' -> remap_id (m ++ t) v = Some v'.
Proof.
  unfold remap_id. destruct (m !! v) as [o|] eqn:E; [|done].
  by rewrite (lookup_app_l_Some _ _ _ _ E).
Qed.

Lemma remap_outputs_mono m t l l' :
  remap_outputs m l = Some l' -> remap_outputs (m ++ t) l = Some l'.
Proof.
  unfold remap_outputs. rewrite !mapM_Some. apply Forall2_impl. intros [r v] p Hp.
  apply bind_Some in Hp as (w & Hw & [= <-]). by rewrite (remap_id_mono m t v w Hw).
Qed.

Lemma remap_opt_mono m t o o' : remap_opt m o = Some o' -> remap_opt (m ++ t) o = Some o'.
Proof.
  destruct o as [v|]; simpl; [|done]. intros Hm. apply bind_Some in Hm as (w & Hw & [= <-]).
  by rewrite (remap_id_mono m t v w Hw).
Qed.

Lemma remap_exit_mono m t e e' : remap_exit m e = Some e' -> remap_exit (m ++ t) e = Some e'.
Proof.
  intros Hm. apply bind_Some in Hm as (o1 & H1 & Hm). apply bind_Some in Hm as (o2 & H2 & Hm).
  apply bind_Some in Hm as (o3 & H3 & [= <-]). unfold remap_exit.
  by rewrite (remap_outputs_mono _ t _ _ H1), (remap_outputs_mono _ t _ _ H2),
    (remap_opt_mono _ t _ _ H3).
Qed.

Lemma remap_op_mono m t op op' : remap_op m op = Some op' -> remap_op (m ++ t) op = Some op'.
Proof.
  destruct op; cbn [remap_op]; intros Hm; renamed; try done;
    repeat match goal with
    | Hr : remap_id m _ = Some _ |- _ => rewrite (remap_id_mono _ t _ _ Hr); simpl; clear Hr
    | Hr : remap_exit m _ = Some _ |- _ => rewrite (remap_exit_mono _ t _ _ Hr); simpl; clear Hr
    end; done.
Qed.

(** The map so far is a prefix of the final one, the values so far of the
    final ones. *)
Lemma compact_extends live vals m out m' out' :
  compact live vals m out = Some (m', out') ->
  exists tm tv, m' = m ++ tm /\ out' = out ++ tv.
Proof.
  revert vals m out. induction live as [|b live IH]; intros [|v vals] m out; simpl; try done.
  - intros [= <- <-]. exists [], []. by rewrite !app_nil_r.
  - by destruct b.
  - destruct b.
    + intros Hc. apply bind_Some in Hc as (op & Hop & Hc).
      destruct (IH _ _ _ Hc) as (tm & tv & -> & ->). rewrite <- !app_assoc. eauto.
    + intros Hc. destruct (IH _ _ _ Hc) as (tm & tv & -> & ->). rewrite <- app_assoc. eauto.
Qed.

Lemma remap_effect_position live m e e' :
  remap_effect live m e = Some e' -> live_prefix live (Effect.position e) = Some (Effect.position e').
Proof. destruct e; cbn [remap_effect Effect.position]; intros Hm; renamed; done. Qed.

Lemma live_prefix_app pre live : live_prefix (pre ++ live) (length pre) = Some (live_count pre).
Proof.
  unfold live_prefix. rewrite bool_decide_eq_true_2 by (rewrite length_app; lia).
  by rewrite take_app_length.
Qed.

Lemma live_count_snoc pre b :
  live_count (pre ++ [b]) = (live_count pre + if b : bool then 1 else 0)%nat.
Proof.
  unfold live_count. rewrite list.filter_app, length_app. by destruct b.
Qed.

Lemma compact_interleave n vs es items :
  interleave n vs es items ->
  forall pre live m out m' out' es',
    length pre = n -> length m = n -> length out = live_count pre ->
    compact live vs m out = Some (m', out') ->
    mapM (remap_effect (pre ++ live) m') es = Some es' ->
    (forall i d, vs !! i = Some d -> below (n + i) (operands d.(vd_op))) ->
    (forall i d, vs !! i = Some d -> is_effectful d.(vd_op) = true -> live !! i = Some true) ->
    Forall (fun e => below (Effect.position e) (effect_values e)) es ->
    exists vs' items', out' = out ++ vs' /\ interleave (length out) vs' es' items'
      /\ remapped m' n (length out) items items'.
Proof.
  induction 1 as [n|n vs e es items Hp Hi IH|n d vs es items Hi IH];
    intros pre live m out m' out' es' Hpre Hm Hout Hc He Hv Hl Hb.
  - destruct live as [|[] live]; try done. simpl in Hc. injection Hc as <- <-.
    injection He as <-. exists [], []. rewrite app_nil_r. split_and!; constructor.
  - apply Forall_cons_1 in Hb as [Hbe Hb]. cbn [mapM] in He.
    apply bind_Some in He as (e' & He' & He). apply bind_Some in He as (es2 & He & [= <-]).
    destruct (IH pre live m out m' out' es2) as (vs' & items' & -> & Hi' & Hr); try done.
    exists vs', (inl e' :: items'). split_and!; [done| |].
    + constructor; [|done]. apply remap_effect_position in He'.
      rewrite Hp, <- Hpre, live_prefix_app in He'. congruence.
    + econstructor; [by rewrite <- Hp|done|done].
  - destruct live as [|b live]; [done|]. pose proof Hc as Hext. simpl in Hc.
    assert (forall i x, vs !! i = Some x -> below (S n + i) (operands x.(vd_op))) as Hv'.
    { intros i x Hx. specialize (Hv (S i) x Hx). by replace (S n + i)%nat with (n + S i)%nat by lia. }
    assert (forall i x, vs !! i = Some x -> is_effectful x.(vd_op) = true -> live !! i = Some true) as Hl'.
    { intros i x Hx. by apply (Hl (S i)). }
    assert (pre ++ b :: live = (pre ++ [b]) ++ live) as Happ by by rewrite <- app_assoc.
    rewrite Happ in He.
    destruct b.
    + apply bind_Some in Hc as (op & Hop & Hc).
      pose proof (compact_extends _ _ _ _ _ _ Hc) as (tm & _ & -> & _).
      destruct (IH (pre ++ [true]) live (m ++ [Some (length out)])
                  (out ++ [mkValue (vd_ty d) op (vd_guest_pc d)])
                  ((m ++ [Some (length out)]) ++ tm) out' es')
        as (vs' & items' & -> & Hi' & Hr); try done.
      1-2: rewrite length_app; simpl; lia.
      { rewrite length_app, live_count_snoc. simpl. lia. }
      rewrite length_app in Hi', Hr. simpl in Hi', Hr. rewrite Nat.add_1_r in Hi', Hr.
      exists (mkValue (vd_ty d) op (vd_guest_pc d) :: vs'), (inr (mkValue (vd_ty d) op (vd_guest_pc d)) :: items').
      split_and!; [by rewrite <- app_assoc|by constructor|].
      constructor; [|by apply remap_op_mono| |done].
      * specialize (Hv 0%nat d eq_refl). by rewrite Nat.add_0_r in Hv.
      * rewrite <- app_assoc, <- Hm. by rewrite lookup_app_r, Nat.sub_diag by lia.
    + pose proof (compact_extends _ _ _ _ _ _ Hc) as (tm & _ & -> & _).
      destruct (IH (pre ++ [false]) live (m ++ [None]) out ((m ++ [None]) ++ tm) out' es')
        as (vs' & items' & -> & Hi' & Hr); try done.
      1-2: rewrite length_app; simpl; lia.
      { rewrite live_count_snoc. lia. }
      exists vs', items'. split_and!; [done..|].
      constructor; [| |done].
      * destruct (is_effectful (vd_op d)) eqn:E; [|done]. by specialize (Hl 0%nat d eq_refl E).
      * rewrite <- app_assoc, <- Hm. by rewrite lookup_app_r, Nat.sub_diag by lia.
Qed.

(** ** Compaction succeeds on a closed set of live values *)

Definition mapped (m : list (option ValueId)) (l : list ValueId) : Prop :=
  Forall (fun v => is_Some (remap_id m v)) l.

Lemma remap_outputs_total m l : mapped m (map snd l) -> is_Some (remap_outputs m l).
Proof.
  unfold remap_outputs, mapped. rewrite mapM_is_Some, Forall_map. apply Forall_impl.
  intros [r v] [v' Hv]. simpl in Hv |- *. rewrite Hv. by eexists.
Qed.

Lemma remap_opt_total m o : mapped m (option_list o) -> is_Some (remap_opt m o).
Proof.
  destruct o as [v|]; simpl; [|by eexists]. intros [[v' Hv] _]%Forall_cons_1.
  rewrite Hv. by eexists.
Qed.

Lemma remap_exit_total m e : mapped m (exit_values e) -> is_Some (remap_exit m e).
Proof.
  unfold mapped, exit_values, remap_exit. rewrite !Forall_app. intros (H1 & H2 & H3).
  destruct (remap_outputs_total m _ H1) as [? ->]. destruct (remap_outputs_total m _ H2) as [? ->].
  destruct (remap_opt_total m _ H3) as [? ->]. by eexists.
Qed.

(** Rename every operand of the goal with the hypothesis that it is mapped. *)
Ltac remap_all :=
  unfold mapped in *;
  repeat match goal with
  | H : context [option_list (Some ?v) ++ ?l] |- _ => change (option_list (Some v) ++ l) with (v :: l) in H
  | H : context [option_list None ++ ?l] |- _ => change (option_list None ++ l) with l in H
  | H : Forall _ (_ :: _) |- _ => apply Forall_cons_1 in H as [[? ->] H]; cbn [mbind option_bind]
  | H : Forall _ (exit_values ?e) |- context [remap_exit ?m ?e] =>
      destruct (remap_exit_total m e H) as [? ->]; cbn [mbind option_bind]
  end; by eexists.

Lemma remap_op_total m op : mapped m (operands op) -> is_Some (remap_op m op).
Proof. intros Hm. destruct op; cbn [remap_op operands] in *; remap_all. Qed.

Lemma remap_effect_total live m e :
  (Effect.position e <= length live)%nat -> mapped m (effect_values e) ->
  is_Some (remap_effect live m e).
Proof.
  intros Hp Hm.
  assert (exists p, live_prefix live (Effect.position e) = Some p) as [p He].
  { unfold live_prefix. rewrite bool_decide_eq_true_2 by done. by eexists. }
  destruct e as [q a v kind [cd|] x|q cd x|q t ex x|q d x|q x|q i d f x];
    cbn [remap_effect remap_opt effect_values Effect.position option_list app] in *;
    rewrite He; cbn [mbind option_bind]; remap_all.
Qed.

Lemma mapped_snoc m x l : mapped m l -> mapped (m ++ [x]) l.
Proof. apply Forall_impl. intros v [v' Hv]. exists v'. by apply remap_id_mono. Qed.

Lemma compact_total live : forall vals pre m out,
  length vals = length live -> length m = length pre ->
  (forall v, pre !! v = Some true -> is_Some (remap_id m v)) ->
  (forall i d, vals !! i = Some d -> live !! i = Some true ->
    Forall (fun v => v < length pre + i /\ (pre ++ live) !! v = Some true)%nat (operands d.(vd_op))) ->
  exists m' out', compact live vals m out = Some (m', out')
    /\ forall v, (pre ++ live) !! v = Some true -> is_Some (remap_id m' v).
Proof.
  induction live as [|b live IH]; intros [|d vals] pre m out Hlen Hm Hpre Hop; simplify_eq/=.
  - exists m, out. split; [done|]. intros v. rewrite app_nil_r. apply Hpre.
  - assert (forall x, b = bool_decide (is_Some x) ->
      forall v, (pre ++ [b]) !! v = Some true -> is_Some (remap_id (m ++ [x]) v)) as Hext.
    { intros x Hx v Hv. destruct (decide (v < length pre)%nat) as [Hlt|Hge].
      - rewrite lookup_app_l in Hv by done. destruct (Hpre v Hv) as [v' Hv'].
        exists v'. by apply remap_id_mono.
      - rewrite lookup_app_r in Hv by lia. apply list_lookup_singleton_Some in Hv as [Hv ->].
        unfold remap_id. rewrite lookup_app_r, Hm, Hv by lia. simpl.
        symmetry in Hx. by apply bool_decide_eq_true_1 in Hx. }
    assert (pre ++ b :: live = (pre ++ [b]) ++ live) as Happ by by rewrite <- app_assoc.
    assert (forall i d', vals !! i = Some d' -> live !! i = Some true ->
      Forall (fun v => v < length (pre ++ [b]) + i /\ ((pre ++ [b]) ++ live) !! v = Some true)%nat
        (operands d'.(vd_op))) as Hop'.
    { intros i d' Hd Hl. rewrite length_app, <- Happ. simpl.
      replace (length pre + 1 + i)%nat with (length pre + S i)%nat by lia. by apply (Hop (S i)). }
    rewrite Happ. destruct b.
    + destruct (remap_op_total (m ++ [Some (length out)]) (vd_op d)) as [op ->].
      { apply mapped_snoc. eapply Forall_impl; [|by apply (Hop 0%nat)].
        intros v [Hv Hl]. apply Hpre. rewrite lookup_app_l in Hl by lia. done. }
      simpl. apply IH; try done; [rewrite !length_app; simpl; lia|]. by apply Hext.
    + apply IH; try done; [rewrite !length_app; simpl; lia|]. by apply Hext.
Qed.

(** ** Correctness of the pass *)

Lemma enumerate_lookup {A} (l : list A) i x : l !! i = Some x -> In (i, x) (enumerate l).
Proof.
  intros Hl. apply list_elem_of_In, list_elem_of_lookup. exists i. unfold enumerate.
  by rewrite list_lookup_imap, Hl.
Qed.

Lemma dce_roots_below r : wf_region r -> below (length r.(r_values)) (dce_roots r).
Proof.
  intros [Hv He _ Hn Ho Hf Hc]. unfold dce_roots. apply Forall_cons.
  { by apply Forall_cons_1 in Hn as [? _]. }
  unfold below. rewrite !Forall_app. split_and!; try done.
  - apply Forall_map, Forall_forall. intros [i d] Hin. apply list_elem_of_In, list_elem_of_filter in Hin as [_ Hin].
    apply list_elem_of_lookup in Hin as [j Hj]. unfold enumerate in Hj.
    rewrite list_lookup_imap in Hj. apply fmap_Some in Hj as (x & Hx & [= -> ->]).
    apply lookup_lt_Some in Hx. done.
  - apply Forall_concat, Forall_map. eapply Forall_impl; [|exact He]. simpl. intros e [Hp Hb].
    eapply below_mono; [|exact Hb]. done.
Qed.

Lemma live_filter_lookup {A} (P : A -> Prop) `{forall x, Decision (P x)} (l : list A) i x :
  l !! i = Some x -> P x -> In i (map fst (filter (fun '(_, v) => P v) (enumerate l))).
Proof.
  intros Hl Hx. apply in_map_iff. exists (i, x). split; [done|].
  apply list_elem_of_In, list_elem_of_filter. split; [done|].
  apply list_elem_of_In. by apply enumerate_lookup.
Qed.

(** Membership in one part of the work list. *)
Ltac solve_in := simpl; rewrite !in_app_iff; tauto.

(** What marking a well-formed region gives. *)
Lemma mark_region r :
  wf_region r ->
  let work := rev (dce_roots r) in
  exists live,
    mark (mark_fuel r.(r_values) work) r.(r_values)
      (replicate (length r.(r_values)) false) work = Some live
    /\ length live = length r.(r_values)
    /\ (forall o, In o (dce_roots r) -> live !! o = Some true)
    /\ closed_upto r.(r_values) live [].
Proof.
  intros Hw. cbv zeta.
  destruct (mark_spec (mark_fuel (r_values r) (rev (dce_roots r))) (r_values r)
    (replicate (length (r_values r)) false) (rev (dce_roots r)))
    as (live & Hm & Hl & _ & Hwork & Hc).
  - intros i d Hd. eapply below_mono; [|by eapply wr_values].
    apply lookup_lt_Some in Hd. lia.
  - apply Forall_rev. by apply dce_roots_below.
  - by rewrite length_replicate.
  - intros i d o Hi. apply lookup_replicate in Hi as [? _]. done.
  - by rewrite pending_start.
  - exists live. split_and!; try done. intros o Ho. apply Hwork. by apply in_rev in Ho.
Qed.

Lemma interleave_count n vs es items : interleave n vs es items -> value_count items = length vs.
Proof. induction 1; simpl; congruence. Qed.

Section Correct.
Context {B : Type} `{Bus B} `{VectorUnit B} `{GuestMemory B}.

(** What a region commits when its values agree with the renamed ones. *)
Lemma exec_region_remap m r r' items items' (s : Cpu * B) :
  wf_region r ->
  interleave 0 r.(r_values) r.(r_effects) items ->
  interleave 0 r'.(r_values) r'.(r_effects) items' ->
  remapped m 0 0 items items' ->
  remap_id m r.(r_next_pc) = Some r'.(r_next_pc) ->
  remap_outputs m r.(r_outputs) = Some r'.(r_outputs) ->
  remap_outputs m r.(r_f_outputs) = Some r'.(r_f_outputs) ->
  remap_opt m r.(r_fcsr_output) = Some r'.(r_fcsr_output) ->
  r'.(r_retired) = r.(r_retired) ->
  exec_region r' s = exec_region r s.
Proof.
  intros Hw Hi Hi' Hr Hpc Ho Hf Hc Hn. unfold exec_region, bind.
  rewrite (exec_values_items _ _ _ _ Hi [] s eq_refl), (exec_values_items _ _ _ _ Hi' [] s eq_refl).
  destruct (remapped_exec m 0 0 items items' Hr [] [] s eq_refl eq_refl) as [[Hs He] Hl].
  { intros v v' Hv. simpl in Hv. lia. }
  rewrite (interleave_count _ _ _ _ Hi) in Hl. simpl in Hl.
  destruct (exec_items items [] s) as [[rho|a|] s1], (exec_items items' [] s) as [[rho'|b|] s2];
    simpl in Hs, He; subst; try done.
  unfold on_fst, modify, ret. rewrite Hn. f_equal. f_equal.
  rewrite (agree_local m rho rho' _ _ He (proj1 (Forall_cons_1 _ _ _ (eq_ind_r (fun n => below n _) (wr_next_pc r Hw) Hl))) Hpc).
  destruct Hw as [_ _ _ _ Hwo Hwf Hwc]. rewrite <- Hl in Hwo, Hwf, Hwc.
  by rewrite (commit_outputs_remap m rho rho' _ _ _ He Hwo Ho),
    (commit_f_outputs_remap m rho rho' _ _ _ He Hwf Hf), (commit_fcsr_remap m rho rho' _ _ _ He Hwc Hc).
Qed.

(** The pass on a well-formed region. *)
Lemma eliminate_dead_values_wf r :
  wf_region r ->
  exists r', eliminate_dead_values r = Some r'
    /\ forall s : Cpu * B, exec_region r' s = exec_region r s.
Proof.
  intros Hw. unfold eliminate_dead_values.
  destruct (mark_region r Hw) as (live & -> & Hlen & Hroots & Hclosed). cbn [mbind option_bind].
  destruct (compact_total live (r_values r) [] [] []) as (m & out & Hc & Hmap); try done.
  { intros i d Hd Hl. apply Forall_forall. intros o Hin. simpl. split.
    - pose proof (wr_values r Hw i d Hd) as Hb. unfold below in Hb. rewrite Forall_forall in Hb. by apply Hb.
    - by destruct (Hclosed i d o Hl Hd Hin). }
  rewrite Hc. cbn [mbind option_bind].
  assert (forall l, (forall o, In o l -> In o (dce_roots r)) -> mapped m l) as Hm.
  { intros l Hsub. apply Forall_forall. intros o Hin. apply Hmap. simpl. auto. }
  unfold dce_roots in Hm.
  assert (is_Some (mapM (remap_effect live m) (r_effects r))) as [es Hes].
  { apply mapM_is_Some, Forall_forall. intros e Hin.
    pose proof (wr_effects r Hw) as He. rewrite Forall_forall in He. destruct (He e Hin) as [Hp _].
    apply remap_effect_total; [lia|]. apply Hm. intros o Ho. simpl.
    rewrite !in_app_iff. do 5 right. apply in_concat. exists (effect_values e).
    split; [by apply in_map|done]. }
  rewrite Hes. cbn [mbind option_bind].
  assert (is_Some (remap_id m (r_next_pc r))) as [pc Hpc] by (apply Hmap, Hroots; by left).
  destruct (remap_outputs_total m (r_outputs r)) as [o Ho]; [apply Hm; intros x Hx; solve_in|].
  destruct (remap_outputs_total m (r_f_outputs r)) as [f Hf]; [apply Hm; intros x Hx; solve_in|].
  destruct (remap_opt_total m (r_fcsr_output r)) as [c Hfc]; [apply Hm; intros x Hx; solve_in|].
  rewrite Hpc, Ho, Hf, Hfc. cbn [mbind option_bind]. eexists. split; [done|]. intros s.
  destruct (interleave_exists 0 (r_values r) (r_effects r) (wr_ordered r Hw)) as [items Hi].
  { eapply Forall_impl; [|exact (wr_effects r Hw)]. simpl. lia. }
  destruct (compact_interleave 0 _ _ _ Hi [] live [] [] m out es) as (vs' & items' & -> & Hi' & Hr);
    try done.
  { by apply wr_values. }
  { intros i d Hd He. apply Hroots. unfold dce_roots. simpl. rewrite !in_app_iff.
    do 4 right. left. by apply (live_filter_lookup (fun v => is_effectful (vd_op v) = true) _ i d). }
  { eapply Forall_impl; [|exact (wr_effects r Hw)]. simpl. tauto. }
  by apply (exec_region_remap m r _ items items').
Qed.
End Correct.

(** ** What the validator accepts is well formed *)

(** A check that accepts, with the unit state. *)
Definition accepts (check : Checked unit) : Prop := fst (check tt) = Ok tt.

Lemma accepts_seq (a b : Checked unit) : accepts (a ;;; b) -> accepts a /\ accepts b.
Proof.
  unfold accepts, bind. destruct (a tt) as [[[]| |] []] eqn:E; simpl; try done.
Qed.

Lemma accepts_for_each {A} (check : A -> Checked unit) l :
  accepts (for_each check l) -> Forall (fun x => accepts (check x)) l.
Proof.
  induction l as [|x l IH]; [constructor|]. intros [Hx Hl]%accepts_seq. constructor; auto.
Qed.

Lemma accepts_if (b : bool) e : accepts (if b then throw e else ret tt) -> b = false.
Proof. by destruct b. Qed.

Lemma accepts_guard (b : bool) e k : accepts (if b then throw e else k) -> b = false /\ accepts k.
Proof. by destruct b. Qed.

Lemma accepts_require (b : bool) e k : accepts (if b then k else throw e) -> b = true /\ accepts k.
Proof. by destruct b. Qed.

Section Accepted.
Context (values : list ValueData).

Lemma accepts_exit exit n : accepts (validate_side_exit values exit n) -> below n (exit_values exit).
Proof.
  unfold validate_side_exit. intros [H1 H2]%accepts_seq. apply accepts_seq in H2 as [H2 H3].
  apply accepts_for_each in H1, H2. unfold below, exit_values. rewrite !Forall_app, !Forall_map.
  split_and!.
  - eapply Forall_impl; [|exact H1]. intros [r v] Hv. apply accepts_if in Hv.
    rewrite !orb_false_iff, bool_decide_eq_false in Hv. simpl. lia.
  - eapply Forall_impl; [|exact H2]. intros [r v] Hv. apply accepts_if in Hv.
    rewrite !orb_false_iff, bool_decide_eq_false in Hv. simpl. lia.
  - destruct (se_fcsr_output exit) as [v|]; simpl; [|constructor]. constructor; [|constructor].
    apply accepts_if in H3. rewrite !orb_false_iff, bool_decide_eq_false in H3. lia.
Qed.

Lemma all_prior_below index l (k : bool -> Checked unit) :
  accepts (ok <- all_prior values index l ;; k ok) ->
  (below index (map fst l) /\ accepts (k true)) \/ accepts (k false).
Proof.
  induction l as [|[v t] l IH]; cbn [all_prior map fst]; intros Ha.
  { left. split; [constructor|exact Ha]. }
  unfold accepts, bind, prior_is, check_prior in Ha.
  destruct (bool_decide (index <= v)%nat) eqn:Hb; [done|]. apply bool_decide_eq_false in Hb.
  unfold bind in Ha. destruct (ty_of values v) as [t'|]; simpl in Ha; [|done].
  destruct (bool_decide (t' = t)); simpl in Ha.
  - destruct (IH Ha) as [[Hl Hk]|Hk]; [left|by right]. split; [|done]. constructor; [lia|done].
  - by right.
Qed.

Lemma accepts_operands index d :
  accepts (validate_value values index d) -> below index (operands d.(vd_op)).
Proof.
  unfold validate_value. destruct (vd_op d); cbn [operands]; intros Ha; try by constructor.
  all: apply all_prior_below in Ha as [[Hb Hk]|?]; [exact Hb || idtac|done].
  all: apply accepts_require in Hk as [_ Hx]; apply accepts_exit in Hx.
  all: apply (Forall_app_2 _ _ _ Hb Hx).
Qed.

Lemma accepts_effect e :
  accepts (validate_effect values e) ->
  (Effect.position e <= length values)%nat /\ below (Effect.position e) (effect_values e).
Proof.
  destruct e; cbn [validate_effect Effect.position effect_values]; intros Ha.
  all: apply accepts_guard in Ha as [Ha Hx].
  1: apply accepts_seq in Hx as [_ Hx].
  all: apply accepts_exit in Hx; rewrite ?orb_false_iff, ?negb_false_iff in Ha;
    repeat match goal with H : _ /\ _ |- _ => destruct H end;
    repeat match goal with
    | H : bool_decide _ = false |- _ => apply bool_decide_eq_false in H
    | H : bool_decide _ = true |- _ => apply bool_decide_eq_true in H
    end; (split; [lia|]); try done; try by constructor.
  constructor; [done|]. constructor; [done|]. apply Forall_app_2; [|done].
  destruct condition as [c|]; simpl; [|constructor]. constructor; [|constructor].
  match goal with H : _ || _ = false |- _ => apply orb_false_iff in H as [H _]; apply negb_false_iff, bool_decide_eq_true in H; done end.
Qed.
End Accepted.

Lemma has_ty_below values v t : negb (has_ty values v t) = false -> (v < length values)%nat.
Proof.
  rewrite negb_false_iff. unfold has_ty, ty_of. rewrite bool_decide_eq_true. intros Hv.
  apply fmap_Some in Hv as (d & Hd & _). by apply lookup_lt_Some in Hd.
Qed.

Lemma validate_wf r : validate r = Ok tt -> ordered r.(r_effects) -> wf_region r.
Proof.
  unfold validate, validate_region. intros Hv Hord.
  apply accepts_seq in Hv as [Hval Hv]. apply accepts_seq in Hv as [Hpc Hv].
  apply accepts_seq in Hv as [Ho Hv]. apply accepts_seq in Hv as [Hf Hv].
  apply accepts_seq in Hv as [Hc He]. apply accepts_for_each in Hval, Ho, Hf, He.
  split.
  - intros i d Hd. rewrite Forall_forall in Hval. apply (accepts_operands (r_values r)).
    apply (Hval (i, d)). by apply enumerate_lookup.
  - eapply Forall_impl; [|exact He]. apply accepts_effect.
  - done.
  - constructor; [|constructor]. apply accepts_require in Hpc as [Hpc _].
    apply (has_ty_below _ _ I64). by rewrite Hpc.
  - apply Forall_map. eapply Forall_impl; [|exact Ho]. intros [reg v] Ha. apply accepts_if in Ha.
    rewrite !orb_false_iff in Ha. apply (has_ty_below _ _ I64). tauto.
  - apply Forall_map. eapply Forall_impl; [|exact Hf]. intros [reg v] Ha. apply accepts_if in Ha.
    rewrite !orb_false_iff in Ha. apply (has_ty_below _ _ I64). tauto.
  - destruct (r_fcsr_output r) as [v|]; simpl; [|constructor]. constructor; [|constructor].
    apply accepts_require in Hc as [Hc _]. apply (has_ty_below _ _ I32). by rewrite Hc.
Qed.

(** C13: on every region the validator accepts and whose effects are in
    position order, dead-value elimination succeeds (no index or [expect]
    panic, within the work-list bound), and the region it returns acts on every
    state as the original: the same exit, retired count, registers and memory. *)
Theorem eliminate_dead_values_correct {B} `{Bus B} `{VectorUnit B} `{GuestMemory B} (r : Region) :
  validate r = Ok tt -> ordered r.(r_effects) ->
  exists r', eliminate_dead_values r = Some r'
    /\ forall s : Cpu * B, exec_region r' s = exec_region r s.
Proof. intros Hv Ho. by apply eliminate_dead_values_wf, validate_wf. Qed.

(** A region with a dead constant between a read and the next pc. *)
Definition dead_constant : Region :=
  mkRegion 0 4
    [mkValue I64 (Op.ReadX 10) 0; mkValue I64 (Op.ConstI64 7) 0; mkValue I64 (Op.GuestPc 4) 0]
    [(11, 0%nat)] [] None 2%nat 1 Dispatch (replicate 5 0) 0 false [].

Lemma eliminate_dead_values_correct_witness :
  exists r', eliminate_dead_values dead_constant = Some r' /\ length r'.(r_values) = 2%nat
    /\ forall s : Cpu * FlatMemory,
         exec_region (H0 := trapping_unit) r' s = exec_region (H0 := trapping_unit) dead_constant s.
Proof.
  destruct (eliminate_dead_values_correct (B := FlatMemory) (H0 := trapping_unit) dead_constant) as (r' & Hr & He);
    [vm_compute; reflexivity|constructor|].
  exists r'. split; [done|]. split; [|exact He].
  vm_compute in Hr. by injection Hr as <-.
Defined.
