(* ===== verification/DbtInv.v ===== *)
(** * What holds of a builder while a region is lifted

    [Builder] accumulates values and effects; at any moment they form a region
    that could be executed.  [status b] is that execution from a fixed start
    state.  The invariant [inv] says that the builder is well typed, that the
    locals the execution computes hold what the builder believes about them
    (constants, clean register copies), and that an execution which has already
    left went to a good state.  [wp] is the weakest-precondition style triple
    for builder operations over that invariant. *)

From S2P Require Import Prelude Exception Decode Csr State Bus Mmu Vector Exec Wf.
From S2P Require Import DbtVector DbtIr DbtBuilder DbtExec DbtDce.

Definition sint (w x : Z) : Prop := - 2 ^ (w - 1) <= x < 2 ^ (w - 1).

Definition width (t : ValueType) : Z := match t with I32 => 32 | I64 => 64 end.

(** ** Typing *)

Definition exit_sig (e : SideExit) : list (ValueId * ValueType) :=
  map (fun '(_, v) => (v, I64)) e.(se_outputs)
  ++ map (fun '(_, v) => (v, I64)) e.(se_f_outputs)
  ++ map (fun v => (v, I32)) (option_list e.(se_fcsr_output)).

(** The registers a side exit commits are in range, x0 excluded. *)
Definition exit_regs (e : SideExit) : Prop :=
  Forall (fun '(r, _) => 0 < r < 32) e.(se_outputs)
  /\ Forall (fun '(r, _) => 0 <= r < 32) e.(se_f_outputs).

(** The types of an operation's operands, and of its result. *)
Definition op_sig (op : Op.t) : list (ValueId * ValueType) :=
  match op with
  | Op.ConstI32 _ | Op.ConstI64 _ | Op.GuestPc _ | Op.ReadX _ | Op.ReadF _ | Op.ReadFcsr => []
  | Op.Binary op lhs rhs => [(lhs, input_type op); (rhs, input_type op)]
  | Op.Divide op lhs rhs => [(lhs, value_type op); (rhs, value_type op)]
  | Op.WrapI64ToI32 v | Op.ReloadFcsr v => [(v, I64)]
  | Op.ExtendI32S v | Op.ExtendI32U v => [(v, I32)]
  | Op.SelectI64 c t f => [(c, I32); (t, I64); (f, I64)]
  | Op.Load a _ e => (a, I64) :: exit_sig e
  | Op.ExactFp _ lhs rhs third rm fcsr e =>
      [(lhs, I64); (rhs, I64); (third, I64); (rm, I32); (fcsr, I32)] ++ exit_sig e
  | Op.Reservation _ a => [(a, I64)]
  end.

Definition op_type (op : Op.t) : ValueType :=
  match op with
  | Op.ConstI32 _ | Op.ReadFcsr | Op.WrapI64ToI32 _ | Op.Reservation _ _ | Op.ReloadFcsr _ => I32
  | Op.Binary op _ _ => result_type op
  | Op.Divide op _ _ => value_type op
  | _ => I64
  end.

(** Immediates are in the range of their Rust types, exits name registers. *)
Definition op_lit (op : Op.t) : Prop :=
  match op with
  | Op.ConstI32 v => sint 32 v
  | Op.ConstI64 v => sint 64 v
  | Op.GuestPc pc => uint 64 pc
  | Op.Load _ _ e | Op.ExactFp _ _ _ _ _ _ e => exit_regs e
  | _ => True
  end.

Definition typed (values : list ValueData) (l : list (ValueId * ValueType)) : Prop :=
  Forall (fun '(v, t) => ty_of values v = Some t) l.

Definition value_ok (prior : list ValueData) (d : ValueData) : Prop :=
  d.(vd_ty) = op_type d.(vd_op) /\ typed prior (op_sig d.(vd_op)) /\ op_lit d.(vd_op).

Definition effect_sig (e : Effect.t) : list (ValueId * ValueType) :=
  match e with
  | Effect.Store _ a v _ c x =>
      [(a, I64); (v, I64)] ++ map (fun v => (v, I32)) (option_list c) ++ exit_sig x
  | Effect.Guard _ c x => (c, I32) :: exit_sig x
  | Effect.GuardTarget _ t _ x => (t, I64) :: exit_sig x
  | Effect.FpState _ _ x | Effect.VectorState _ x | Effect.Vector _ _ _ _ x => exit_sig x
  end.

Definition effect_exit (e : Effect.t) : SideExit :=
  match e with
  | Effect.Store _ _ _ _ _ x | Effect.Guard _ _ x | Effect.GuardTarget _ _ _ x
  | Effect.FpState _ _ x | Effect.VectorState _ x | Effect.Vector _ _ _ _ x => x
  end.

(** A conditional store is paired with the SC probe of its address. *)
Definition effect_paired (prior : list ValueData) (e : Effect.t) : Prop :=
  match e with
  | Effect.Store _ a _ _ (Some c) _ => paired prior c a = true
  | _ => True
  end.

Definition effect_ok (prior : list ValueData) (e : Effect.t) : Prop :=
  typed prior (effect_sig e) /\ exit_regs (effect_exit e) /\ effect_paired prior e.

Lemma map_fst_exit_sig e : map fst (exit_sig e) = exit_values e.
Proof.
  unfold exit_sig, exit_values. rewrite !map_app, !map_map. f_equal; [|f_equal].
  1-2: apply map_ext; by intros [].
  apply map_id.
Qed.

Lemma map_fst_op_sig op : map fst (op_sig op) = operands op.
Proof. destruct op; simpl; by rewrite ?map_fst_exit_sig. Qed.

Lemma map_fst_effect_sig e : map fst (effect_sig e) = effect_values e.
Proof.
  destruct e as [p a v kind [c|] x|p c x|p t ex x|p d x|p x|p i d f x];
    simpl; by rewrite ?map_fst_exit_sig.
Qed.

Lemma ty_of_lt values v t : ty_of values v = Some t -> (v < length values)%nat.
Proof. unfold ty_of. intros (d & Hd & _)%fmap_Some. by apply lookup_lt_Some in Hd. Qed.

Lemma ty_of_app values vs v t : ty_of values v = Some t -> ty_of (values ++ vs) v = Some t.
Proof.
  intros Ht. unfold ty_of. rewrite lookup_app_l; [done|]. by eapply ty_of_lt.
Qed.

Lemma typed_below values l : typed values l -> below (length values) (map fst l).
Proof.
  intros Ht. apply Forall_map. eapply Forall_impl; [|exact Ht]. intros [v t]. apply ty_of_lt.
Qed.

Lemma typed_app values vs l : typed values l -> typed (values ++ vs) l.
Proof. apply Forall_impl. intros [v t]. apply ty_of_app. Qed.

(** ** Register views *)

(** The registers [l] with the dirty ones replaced by their values. *)
Definition view (dirty : Z) (regs : list (option ValueId)) (rho : list Z) (l : list Z) : list Z :=
  imap (fun i old =>
    if Z.testbit dirty (Z.of_nat i)
    then match regs !! i with Some (Some v) => local rho v | _ => old end else old) l.

Definition fcsr_view (b : Builder) (rho : list Z) (old : Z) : Z :=
  if b.(b_dirty_fcsr) then match b.(b_fcsr) with Some v => local rho v | None => old end else old.

(** The architectural state when the locals are [rho] and the cells [c]. *)
Definition commits (b : Builder) (rho : list Z) (c : Cpu) : Cpu :=
  set_fcsr (fcsr_view b rho c.(fcsr))
    (set_fregs (view b.(b_dirty_f) b.(b_fregs) rho c.(fregs))
       (set_xregs (view b.(b_dirty) b.(b_regs) rho c.(xregs)) c)).

Lemma view_lookup dirty regs rho l i :
  view dirty regs rho l !! i
  = (fun old => if Z.testbit dirty (Z.of_nat i)
                then match regs !! i with Some (Some v) => local rho v | _ => old end else old)
    <$> l !! i.
Proof. unfold view. by rewrite list_lookup_imap. Qed.

Lemma length_view dirty regs rho l : length (view dirty regs rho l) = length l.
Proof. apply length_imap. Qed.

Lemma testbit_set_bit d r i :
  0 <= r -> 0 <= i -> Z.testbit (d .| (1 .<< r)) i = Z.testbit d i || (i =? r).
Proof.
  intros Hr Hi. rewrite Z.lor_spec, Z.shiftl_spec by done. f_equal.
  destruct (Z.eqb_spec i r) as [->|Hne]; [by rewrite Z.sub_diag|].
  destruct (decide (i < r)); [by rewrite Z.testbit_neg_r by lia|].
  destruct (decide (i - r = 0)); [lia|]. apply Z.bits_above_log2; simpl; lia.
Qed.

Lemma land_bit_testbit d r : 0 <= r -> negb ((d .& (1 .<< r)) =? 0) = Z.testbit d r.
Proof.
  intros Hr. destruct (Z.testbit d r) eqn:E.
  - apply negb_true_iff, Z.eqb_neq. intros H0.
    assert (Z.testbit (d .& (1 .<< r)) r = true) as Hb.
    { by rewrite Z.land_spec, E, Z.shiftl_spec, Z.sub_diag by done. }
    by rewrite H0, Z.bits_0 in Hb.
  - apply negb_false_iff, Z.eqb_eq, Z.bits_inj'. intros i Hi.
    rewrite Z.land_spec, Z.bits_0, Z.shiftl_spec by done.
    destruct (decide (i = r)) as [->|Hne]; [by rewrite E|].
    destruct (decide (i < r)); [by rewrite (Z.testbit_neg_r 1 (i - r)), andb_false_r by lia|].
    rewrite (Z.bits_above_log2 1 (i - r)) by (simpl; lia). by rewrite andb_false_r.
Qed.

Lemma view_write dirty regs rho l r v :
  0 <= r -> length regs = length l ->
  view (dirty .| (1 .<< r)) (aset regs r (Some v)) rho l
  = aset (view dirty regs rho l) r (local rho v).
Proof.
  intros Hr Hlen. apply list_eq. intros i. unfold aset. rewrite view_lookup.
  destruct (l !! i) as [old|] eqn:E.
  - pose proof (lookup_lt_Some _ _ _ E) as Hi. simpl. rewrite testbit_set_bit by lia.
    destruct (decide (i = Z.to_nat r)) as [->|Hne].
    + rewrite !list_lookup_insert_eq by (rewrite ?length_view; lia).
      rewrite Z2Nat.id, Z.eqb_refl, orb_true_r by done. done.
    + rewrite !list_lookup_insert_ne by done. rewrite view_lookup, E. simpl.
      destruct (Z.eqb_spec (Z.of_nat i) r); [lia|]. by rewrite orb_false_r.
  - apply lookup_ge_None in E. simpl. symmetry. apply lookup_ge_None.
    by rewrite length_insert, length_view.
Qed.

(** A register that is not dirty keeps its cell whatever copy is cached. *)
Lemma view_cache dirty regs rho l r v :
  0 <= r -> Z.testbit dirty r = false ->
  view dirty (aset regs r (Some v)) rho l = view dirty regs rho l.
Proof.
  intros Hr Hd. apply list_eq. intros i. rewrite !view_lookup. destruct (l !! i); [|done]. simpl.
  destruct (Z.testbit dirty (Z.of_nat i)) eqn:E; [|done]. unfold aset.
  rewrite list_lookup_insert_ne; [done|]. intros <-. rewrite Z2Nat.id in E by done. congruence.
Qed.

Lemma local_app rho t v : (v < length rho)%nat -> local (rho ++ t) v = local rho v.
Proof. intros Hv. unfold local. by rewrite lookup_app_l. Qed.

Lemma local_end rho x : local (rho ++ [x]) (length rho) = x.
Proof. unfold local. by rewrite lookup_app_r, Nat.sub_diag by lia. Qed.

Definition below_regs (n : nat) (regs : list (option ValueId)) : Prop :=
  forall i v, regs !! i = Some (Some v) -> (v < n)%nat.

Lemma view_app dirty regs rho t l :
  below_regs (length rho) regs -> view dirty regs (rho ++ t) l = view dirty regs rho l.
Proof.
  intros Hb. apply list_eq. intros i. rewrite !view_lookup. destruct (l !! i); [|done]. simpl.
  destruct (Z.testbit _ _); [|done]. destruct (regs !! i) as [[v|]|] eqn:E; try done.
  by rewrite local_app by (by eapply Hb).
Qed.

(** ** What the dirty registers commit *)

Definition update (rho : list Z) (l : list Z) (outputs : list (Z * ValueId)) : list Z :=
  foldl (fun l '(reg, v) => aset l reg (local rho v)) l outputs.

Lemma commit_outputs_update outputs rho c :
  commit_outputs outputs rho c = set_xregs (update rho c.(xregs) outputs) c.
Proof.
  unfold commit_outputs, update. revert c. induction outputs as [|[r v] o IH]; intros c; simpl.
  - by destruct c.
  - rewrite IH. by destruct c.
Qed.

Lemma commit_f_outputs_update outputs rho c :
  commit_f_outputs outputs rho c = set_fregs (update rho c.(fregs) outputs) c.
Proof.
  unfold commit_f_outputs, update. revert c. induction outputs as [|[r v] o IH]; intros c; simpl.
  - by destruct c.
  - rewrite IH. by destruct c.
Qed.

(** Every dirty register has a value. *)
Definition dirty_has (dirty : Z) (regs : list (option ValueId)) : Prop :=
  forall i, 0 <= i -> Z.testbit dirty i = true -> exists v, regs !! Z.to_nat i = Some (Some v).

Lemma dirty_outputs_spec n first dirty regs rho l :
  dirty_has dirty regs -> 0 <= first ->
  exists outs, dirty_outputs n first dirty regs = Some outs
    /\ (forall i, update rho l outs !! i
        = (fun old => if bool_decide (first <= Z.of_nat i < first + Z.of_nat n)
                         && Z.testbit dirty (Z.of_nat i)
                      then match regs !! i with Some (Some v) => local rho v | _ => old end
                      else old) <$> l !! i)
    /\ Forall (fun '(r, v) => first <= r < first + Z.of_nat n
                 /\ regs !! Z.to_nat r = Some (Some v)) outs.
Proof.
  intros Hd. revert first l. induction n as [|n IH]; intros first l Hf.
  - exists []. split_and!; [done| |constructor]. intros i. simpl.
    rewrite bool_decide_eq_false_2 by lia. by destruct (l !! i).
  - cbn [dirty_outputs]. rewrite land_bit_testbit by done.
    destruct (Z.testbit dirty first) eqn:E.
    + destruct (Hd first Hf E) as [v Hv].
      destruct (IH (first + 1) (aset l first (local rho v))) as (outs & -> & Ho & Hr); [lia|].
      exists ((first, v) :: outs). split_and!.
      * simpl. unfold aget. by rewrite (list_lookup_total_correct _ _ _ Hv).
      * intros i. change (update rho l ((first, v) :: outs))
          with (update rho (aset l first (local rho v)) outs).
        rewrite Ho. unfold aset. destruct (l !! i) as [old|] eqn:El.
        { pose proof (lookup_lt_Some _ _ _ El).
          destruct (decide (i = Z.to_nat first)) as [->|Hne].
          - rewrite list_lookup_insert_eq by done. simpl. rewrite Z2Nat.id by done.
            rewrite bool_decide_eq_false_2, bool_decide_eq_true_2 by lia. simpl. by rewrite E, Hv.
          - rewrite list_lookup_insert_ne, El by done. simpl. f_equal.
            rewrite (bool_decide_ext (first + 1 <= Z.of_nat i < first + 1 + Z.of_nat n)
                      (first <= Z.of_nat i < first + Z.of_nat (S n))); [done|lia]. }
        { rewrite fmap_None. apply lookup_ge_None. apply lookup_ge_None in El.
          by rewrite length_insert. }
      * constructor; [split; [lia|done]|]. eapply Forall_impl; [|exact Hr]. intros [r w] [? ?]. split; [lia|done].
    + destruct (IH (first + 1) l) as (outs & -> & Ho & Hr); [lia|].
      exists outs. split_and!; [done| |].
      * intros i. rewrite Ho. destruct (l !! i); [|done]. simpl. f_equal.
        destruct (decide (Z.of_nat i = first)) as [->|].
        { by rewrite E, !andb_false_r. }
        rewrite (bool_decide_ext (first + 1 <= Z.of_nat i < first + 1 + Z.of_nat n)
                  (first <= Z.of_nat i < first + Z.of_nat (S n))); [done|lia].
      * eapply Forall_impl; [|exact Hr]. intros [r w] [? ?]. split; [lia|done].
Qed.

(** ** The static invariant *)

Record sinv (b : Builder) : Prop := {
  si_items : exists items, interleave 0 b.(b_values) b.(b_effects) items;
  si_values i d : b.(b_values) !! i = Some d -> value_ok (take i b.(b_values)) d;
  si_effects : Forall (fun e => effect_ok (take (Effect.position e) b.(b_values)) e) b.(b_effects);
  si_regs : length b.(b_regs) = 32%nat;
  si_fregs : length b.(b_fregs) = 32%nat;
  si_reg i v : b.(b_regs) !! i = Some (Some v) -> (0 < i)%nat /\ ty_of b.(b_values) v = Some I64;
  si_freg i v : b.(b_fregs) !! i = Some (Some v) -> ty_of b.(b_values) v = Some I64;
  si_fcsr v : b.(b_fcsr) = Some v -> ty_of b.(b_values) v = Some I32;
  si_dirty : dirty_has b.(b_dirty) b.(b_regs);
  si_dirty_f : dirty_has b.(b_dirty_f) b.(b_fregs);
  si_dirty_fcsr : b.(b_dirty_fcsr) = true -> is_Some b.(b_fcsr)
}.

Lemma sinv_below b : sinv b -> below_regs (length b.(b_values)) b.(b_regs).
Proof. intros Hs i v Hv. apply si_reg in Hv as [_ Ht]; [|done]. by eapply ty_of_lt. Qed.

Lemma sinv_below_f b : sinv b -> below_regs (length b.(b_values)) b.(b_fregs).
Proof. intros Hs i v Hv. apply si_freg in Hv; [|done]. by eapply ty_of_lt. Qed.

Lemma commits_app b rho t c :
  sinv b -> length rho = length b.(b_values) -> commits b (rho ++ t) c = commits b rho c.
Proof.
  intros Hs Hl. unfold commits. rewrite !view_app by (rewrite Hl; auto using sinv_below, sinv_below_f).
  f_equal. unfold fcsr_view. destruct (b_dirty_fcsr b); [|done].
  destruct (b_fcsr b) as [v|] eqn:E; [|done]. apply local_app. rewrite Hl.
  eapply ty_of_lt. by eapply si_fcsr.
Qed.

(** A side exit commits exactly the architectural state. *)
Lemma side_exit_spec b pc retired :
  sinv b ->
  exists e, side_exit pc retired b = (Ok e, b) /\ e.(se_guest_pc) = pc /\ e.(se_retired) = retired
    /\ typed b.(b_values) (exit_sig e) /\ exit_regs e
    /\ forall rho c, length c.(xregs) = 32%nat -> length c.(fregs) = 32%nat ->
         side_exit_state e rho c = set_pc pc (commits b rho c).
Proof.
  intros Hs. unfold side_exit, bind, gets, id.
  destruct (dirty_outputs_spec 31 1 (b_dirty b) (b_regs b) [] [] (si_dirty b Hs)) as (o & Ho & _ & Hor); [lia|].
  destruct (dirty_outputs_spec 32 0 (b_dirty_f b) (b_fregs b) [] [] (si_dirty_f b Hs)) as (f & Hf & _ & Hfr); [lia|].
  assert (exists fc, dirty_fcsr_output b = Some fc
    /\ (forall rho c, commit_fcsr fc rho c = set_fcsr (fcsr_view b rho c.(fcsr)) c)
    /\ typed b.(b_values) (map (fun v => (v, I32)) (option_list fc))) as (fc & Hfc & Hc & Ht).
  { unfold dirty_fcsr_output, fcsr_view. destruct (b_dirty_fcsr b) eqn:E.
    - destruct (si_dirty_fcsr b Hs E) as [v Hv]. rewrite Hv. exists (Some v). split_and!; [done..|].
      simpl. constructor; [|constructor]. by eapply si_fcsr.
    - exists None. split_and!; [done| |constructor]. intros rho c. by destruct c. }
  rewrite Ho, Hf, Hfc. cbn [mbind option_bind unwrap].
  eexists. split_and!; [done..| | |].
  - unfold exit_sig, typed. simpl. rewrite !Forall_app. split_and!; [apply Forall_map..|exact Ht].
    + eapply Forall_impl; [|exact Hor]. intros [r v] [_ Hv]. by eapply si_reg.
    + eapply Forall_impl; [|exact Hfr]. intros [r v] [_ Hv]. by eapply si_freg.
  - split; cbn [se_outputs se_f_outputs]; (eapply Forall_impl; [|eassumption]); intros [r v] [? _]; lia.
  - intros rho c Hx Hfl. unfold side_exit_state. cbn [se_guest_pc se_outputs se_f_outputs se_fcsr_output]. f_equal. rewrite Hc.
    rewrite commit_f_outputs_update, commit_outputs_update. unfold commits.
    cbn [fregs xregs fcsr set_xregs set_fregs].
    assert (update rho (xregs c) o = view (b_dirty b) (b_regs b) rho (xregs c)) as ->.
    { apply list_eq. intros i.
      destruct (dirty_outputs_spec 31 1 (b_dirty b) (b_regs b) rho (xregs c) (si_dirty b Hs)) as (o' & Ho' & Hu & _); [lia|].
      simplify_eq. rewrite Hu, view_lookup. destruct (xregs c !! i) as [old|] eqn:El; [|done]. simpl. f_equal.
      apply lookup_lt_Some in El. case_bool_decide; [done|]. simpl.
      assert (i = 0)%nat as -> by lia. destruct (Z.testbit _ _) eqn:Eb; [|done].
      destruct (si_dirty b Hs (Z.of_nat 0)) as [v Hv]; [lia|done|]. apply si_reg in Hv as [? _]; [lia|done]. }
    assert (update rho (fregs c) f = view (b_dirty_f b) (b_fregs b) rho (fregs c)) as ->.
    { apply list_eq. intros i.
      destruct (dirty_outputs_spec 32 0 (b_dirty_f b) (b_fregs b) rho (fregs c) (si_dirty_f b Hs)) as (f' & Hf' & Hu & _); [lia|].
      simplify_eq. rewrite Hu, view_lookup. destruct (fregs c !! i) as [old|] eqn:El; [|done]. simpl. f_equal.
      apply lookup_lt_Some in El. case_bool_decide; [done|]. lia. }
    done.
Qed.

(** ** The hart a region runs on *)

(** A user-mode hart, with registers of their widths. *)
Record user_hart (c : Cpu) : Prop := {
  uh_xregs : arr 32 64 c.(xregs);
  uh_x0 : xr c 0 = 0;
  uh_fregs : arr 32 64 c.(fregs);
  uh_fcsr : uint 8 c.(fcsr);
  uh_sys : c.(sys) = None;
  uh_fused : c.(interpreter_fused_memory) = false
}.

(** What a constant's local holds. *)
Definition const_val (op : Op.t) (x : Z) : Prop :=
  match op with
  | Op.ConstI32 v => x = u32 v
  | Op.ConstI64 v => x = u64 v
  | Op.GuestPc pc => x = pc
  | _ => True
  end.

Section Invariant.
Context {B : Type} `{Bus B} `{VectorUnit B} `{GuestMemory B}.
Context (s0 : Cpu * B) (left_ok : Z -> Cpu * B -> Prop).

Record dinv (b : Builder) (rho : list Z) (c : Cpu) : Prop := {
  di_len : length rho = length b.(b_values);
  di_vals i d : b.(b_values) !! i = Some d ->
    uint (width d.(vd_ty)) (local rho i) /\ const_val d.(vd_op) (local rho i);
  di_clean i v : b.(b_regs) !! i = Some (Some v) -> Z.testbit b.(b_dirty) (Z.of_nat i) = false ->
    c.(xregs) !! i = Some (local rho v);
  di_clean_f i v : b.(b_fregs) !! i = Some (Some v) ->
    Z.testbit b.(b_dirty_f) (Z.of_nat i) = false -> c.(fregs) !! i = Some (local rho v);
  di_clean_fcsr v : b.(b_fcsr) = Some v -> b.(b_dirty_fcsr) = false -> c.(fcsr) = local rho v;
  di_user : user_hart c;
  di_count : c.(insn_count) = (fst s0).(insn_count)
}.

(** The region built so far, executed from [s0]. *)
Definition status (b : Builder) : outcome Z (list Z) * (Cpu * B) :=
  exec_values b.(b_values) b.(b_effects) [] s0.

Record inv (b : Builder) : Prop := {
  inv_static : sinv b;
  inv_status : match status b with
               | (Ok rho, (c, _)) => dinv b rho c
               | (Err k, s) => left_ok k s
               | (Panic, _) => False
               end
}.

Lemma inv_live b rho c m : inv b -> status b = (Ok rho, (c, m)) -> dinv b rho c.
Proof. intros [_ Hs] E. by rewrite E in Hs. Qed.

(** [b'] continues [b]: the same locals, and more. *)
Definition le (b b' : Builder) : Prop :=
  (exists vs, b'.(b_values) = b.(b_values) ++ vs)
  /\ b'.(b_entry_pc) = b.(b_entry_pc)
  /\ forall rho' s', status b' = (Ok rho', s') ->
       exists rho s t, status b = (Ok rho, s) /\ rho' = rho ++ t /\ length rho = length b.(b_values).

(** Execution has not left before the end of [b]. *)
Definition live (b : Builder) : Prop := exists rho s, status b = (Ok rho, s).

(** [val b v t x]: the value [v] has type [t], and its local holds [x]. *)
Definition val (b : Builder) (v : ValueId) (t : ValueType) (x : Z) : Prop :=
  ty_of b.(b_values) v = Some t
  /\ forall rho s, status b = (Ok rho, s) -> local rho v = x.

(** The architectural state at [b], up to the pc and the retired count. *)
Definition arch_is (b : Builder) (c1 : Cpu) (m1 : B) : Prop :=
  forall rho c m, status b = (Ok rho, (c, m)) ->
    m = m1 /\ c1 = set_insn_count c1.(insn_count) (set_pc c1.(pc) (commits b rho c)).

(** A fact about live executions. *)
Definition when (b : Builder) (P : Prop) : Prop := live b -> P.

Definition wp {A} (m : Build A) (b : Builder) (Q : A -> Builder -> Prop) : Prop :=
  exists a b', m b = (Ok a, b') /\ inv b' /\ le b b' /\ Q a b'.

Lemma le_refl b : inv b -> le b b.
Proof.
  intros Hi. split_and!; [exists []; by rewrite app_nil_r|done|].
  intros rho [c m] Hs. exists rho, (c, m), []. rewrite app_nil_r. split_and!; [done..|].
  by eapply di_len, inv_live.
Qed.

Lemma le_trans b1 b2 b3 : le b1 b2 -> le b2 b3 -> le b1 b3.
Proof.
  intros ([v1 Hv1] & E1 & S1) ([v2 Hv2] & E2 & S2). split_and!; [|congruence|].
  - exists (v1 ++ v2). by rewrite Hv2, Hv1, app_assoc.
  - intros rho s Hs. destruct (S2 _ _ Hs) as (r2 & s2 & t2 & Hs2 & -> & _).
    destruct (S1 _ _ Hs2) as (r1 & s1 & t1 & Hs1 & -> & Hl).
    exists r1, s1, (t1 ++ t2). by rewrite app_assoc.
Qed.

Lemma val_le b b' v t x : le b b' -> val b v t x -> val b' v t x.
Proof.
  intros ([vs Hv] & _ & Hs) [Ht Hx]. split; [rewrite Hv; by apply ty_of_app|].
  intros rho' s' Hs'. destruct (Hs _ _ Hs') as (rho & s & u & Hst & -> & Hl).
  rewrite local_app; [by eapply Hx|]. rewrite Hl. by eapply ty_of_lt.
Qed.

Lemma live_le b b' : le b b' -> live b' -> live b.
Proof. intros (_ & _ & Hs) (rho & s & E). destruct (Hs _ _ E) as (r & s1 & _ & Hr & _). by exists r, s1. Qed.

Lemma when_le b b' P : le b b' -> when b P -> when b' P.
Proof. intros Hle Hw Hl. apply Hw. by eapply live_le. Qed.

Lemma when_intro b P : (forall rho c m, status b = (Ok rho, (c, m)) -> P) -> when b P.
Proof. intros Hp (rho & [c m] & E). by eapply Hp. Qed.

Lemma when_mono b (P Q : Prop) : (P -> Q) -> when b P -> when b Q.
Proof. intros Hpq Hw Hl. auto. Qed.

(** A value's local has the width of its type. *)
Lemma val_uint b v t x : inv b -> val b v t x -> when b (uint (width t) x).
Proof.
  intros Hi [Ht Hx]. apply when_intro. intros rho c m Hs.
  unfold ty_of in Ht. apply fmap_Some in Ht as (d & Hd & ->).
  rewrite <- (Hx rho (c, m) Hs). by apply (di_vals b rho c (inv_live _ _ _ _ Hi Hs) v d).
Qed.

(** ** Triples *)

Lemma wp_ret {A} (a : A) b (Q : A -> Builder -> Prop) : inv b -> Q a b -> wp (ret a) b Q.
Proof. intros Hi Hq. exists a, b. split_and!; [done|done|by apply le_refl|done]. Qed.

Lemma wp_bind {A C} (m : Build A) (k : A -> Build C) b P Q :
  wp m b P -> (forall a b', inv b' -> le b b' -> P a b' -> wp (k a) b' Q) -> wp (bind m k) b Q.
Proof.
  intros (a & b1 & Hm & Hi & Hle & Hp) Hk.
  destruct (Hk a b1 Hi Hle Hp) as (c & b2 & Hc & Hi2 & Hle2 & Hq).
  exists c, b2. unfold bind. rewrite Hm. split_and!; [done|done|by eapply le_trans|done].
Qed.

Lemma wp_mono {A} (m : Build A) b (P Q : A -> Builder -> Prop) :
  wp m b P -> (forall a b', inv b' -> le b b' -> P a b' -> Q a b') -> wp m b Q.
Proof. intros (a & b1 & Hm & Hi & Hle & Hp) Hk. exists a, b1. split_and!; auto. Qed.
End Invariant.
