(* ===== verification/DbtFold.v ===== *)
(** * Constant folding is exact

    What [Builder::binary] and [Builder::divide] compute at lift time is what
    the WebAssembly operators would compute at run time, and every identity
    they drop is one. *)

From S2P Require Import Prelude Exception Exec Wf ExecSpec.
From S2P Require Import DbtVector DbtIr DbtBuilder DbtExec DbtInv.

(** ** Two's complement *)

Lemma wrap_bits (f : bool -> bool -> bool) (g : Z -> Z -> Z) w x y :
  (forall a b i, Z.testbit (g a b) i = f (Z.testbit a i) (Z.testbit b i)) ->
  f false false = false -> 0 <= w ->
  wrap w (g x y) = g (wrap w x) (wrap w y).
Proof.
  intros Hg Hf Hw. unfold wrap. rewrite <- !Z.land_ones by done.
  apply Z.bits_inj'. intros i Hi. rewrite Hg, !Z.land_spec, Hg.
  by destruct (Z.testbit (Z.ones w) i); rewrite ?andb_true_r, ?andb_false_r.
Qed.

Lemma wrap_land w x y : 0 <= w -> wrap w (x .& y) = wrap w x .& wrap w y.
Proof. apply (wrap_bits andb Z.land); [apply Z.land_spec|done]. Qed.
Lemma wrap_lor w x y : 0 <= w -> wrap w (x .| y) = wrap w x .| wrap w y.
Proof. apply (wrap_bits orb Z.lor); [apply Z.lor_spec|done]. Qed.
Lemma wrap_lxor w x y : 0 <= w -> wrap w (x .^ y) = wrap w x .^ wrap w y.
Proof. apply (wrap_bits xorb Z.lxor); [apply Z.lxor_spec|done]. Qed.

Lemma wrap_of_signed w x : 0 <= w -> wrap w (signed w x) = wrap w x.
Proof. apply signed_mod. Qed.

Lemma signed_of_wrap w x : 0 < w -> sint w x -> signed w (wrap w x) = x.
Proof. apply signed_wrap. Qed.

Lemma sint_signed w x : 0 < w -> sint w (signed w x).
Proof. apply signed_range. Qed.

Lemma sint_shiftr_iff w x : 0 < w -> sint w x <-> x .>> (w - 1) = 0 \/ x .>> (w - 1) = -1.
Proof.
  intros Hw. rewrite Z.shiftr_div_pow2 by lia. unfold sint.
  pose proof (Z.pow_pos_nonneg 2 (w - 1)). pose proof (Z.div_mod x (2 ^ (w - 1))).
  pose proof (Z.mod_pos_bound x (2 ^ (w - 1))). split.
  - intros Hx. destruct (decide (0 <= x)).
    + left. apply Z.div_small. lia.
    + right. symmetry. apply (Z.div_unique x (2 ^ (w - 1)) (-1) (x + 2 ^ (w - 1))); lia.
  - intros [E|E]; rewrite E in *; lia.
Qed.

Lemma sint_land w x y : 0 < w -> sint w x -> sint w y -> sint w (x .& y).
Proof.
  intros Hw. rewrite !sint_shiftr_iff, Z.shiftr_land by done.
  intros [-> | ->] [-> | ->]; vm_compute; tauto.
Qed.
Lemma sint_lor w x y : 0 < w -> sint w x -> sint w y -> sint w (x .| y).
Proof.
  intros Hw. rewrite !sint_shiftr_iff, Z.shiftr_lor by done.
  intros [-> | ->] [-> | ->]; vm_compute; tauto.
Qed.
Lemma sint_lxor w x y : 0 < w -> sint w x -> sint w y -> sint w (x .^ y).
Proof.
  intros Hw. rewrite !sint_shiftr_iff, Z.shiftr_lxor by done.
  intros [-> | ->] [-> | ->]; vm_compute; tauto.
Qed.

Lemma sint_shiftr w x n : 0 < w -> 0 <= n -> sint w x -> sint w (x .>> n).
Proof.
  intros Hw Hn. rewrite !sint_shiftr_iff by done. rewrite Z.shiftr_shiftr by lia.
  rewrite Z.add_comm, <- Z.shiftr_shiftr by lia.
  intros [-> | ->]; [left; apply Z.shiftr_0_l|right]. rewrite Z.shiftr_div_pow2 by done.
  pose proof (Z.pow_pos_nonneg 2 n).
  symmetry. apply (Z.div_unique _ _ (-1) (2 ^ n - 1)); lia.
Qed.

Lemma sint_b2z w b : 1 < w -> sint w (Z.b2z b).
Proof.
  intros Hw. unfold sint. pose proof (Z.pow_le_mono_r 2 1 (w - 1)). destruct b; simpl; lia.
Qed.

Lemma wrap_add_l w x y : wrap w (wrap w x + y) = wrap w (x + y).
Proof. apply Zplus_mod_idemp_l. Qed.
Lemma wrap_add_wrap w x y : wrap w (wrap w x + wrap w y) = wrap w (x + y).
Proof. symmetry. apply Zplus_mod. Qed.
Lemma wrap_sub_wrap w x y : wrap w (wrap w x - wrap w y) = wrap w (x - y).
Proof. symmetry. apply Zminus_mod. Qed.
Lemma wrap_mul_wrap w x y : wrap w (wrap w x * wrap w y) = wrap w (x * y).
Proof. symmetry. apply Zmult_mod. Qed.
Lemma wrap_shl_wrap w x n : 0 <= n -> wrap w (wrap w x .<< n) = wrap w (x .<< n).
Proof. intros Hn. rewrite !Z.shiftl_mul_pow2 by done. apply Zmult_mod_idemp_l. Qed.

(** Comparisons of the two readings. *)
Lemma wrap_eqb w x y : 0 < w -> sint w x -> sint w y -> (wrap w x =? wrap w y) = (x =? y).
Proof.
  intros Hw Hx Hy. destruct (Z.eqb_spec x y) as [->|Hne]; [by apply Z.eqb_refl|].
  apply Z.eqb_neq. intros E. apply Hne.
  by rewrite <- (signed_of_wrap w x), <- (signed_of_wrap w y), E.
Qed.

(** ** Folding of constants *)

(** [f] is a constant of type [t] whose local holds [x]. *)
Definition folded_is (f : Folded) (t : ValueType) (x : Z) : Prop :=
  match f with
  | FConstI32 v => t = I32 /\ sint 32 v /\ u32 v = x
  | FConstI64 v => t = I64 /\ sint 64 v /\ u64 v = x
  | FGuestPc pc => t = I64 /\ uint 64 pc /\ pc = x
  | FValue _ => False
  end.

Lemma land_mask_range x n m : 0 <= n -> m = Z.ones n -> 0 <= x .& m.
Proof. intros Hn ->. rewrite Z.land_ones by done. apply Z.mod_pos_bound. lia. Qed.

(** The shift amounts of the folder and of the operators. *)
Lemma amount64 b : 0 <= u64 b .& 63.
Proof. by apply (land_mask_range _ 6). Qed.
Lemma amount32 b : 0 <= u32 b .& 31.
Proof. by apply (land_mask_range _ 5). Qed.

Lemma fold_const_i64_ok op a b :
  input_type op = I64 -> sint 64 a -> sint 64 b ->
  exists f, fold_const_i64 op a b = Some f
    /\ folded_is f (result_type op) (binary_value op (u64 a) (u64 b)).
Proof.
  intros Ht Ha Hb. pose proof (amount64 b) as Hn.
  assert (i64 (u64 a) = a) as Ea by (by apply signed_of_wrap).
  assert (i64 (u64 b) = b) as Eb by (by apply signed_of_wrap).
  destruct op; try done; (eexists; split; [reflexivity|]); cbn [folded_is result_type input_type binary_value];
    (split_and!; [done| |]);
    try (by apply (sint_b2z 32)); try (by apply (sint_signed 64)).
  - unfold add64, u64, i64. by rewrite wrap_of_signed, wrap_add_wrap.
  - unfold sub64, u64, i64. by rewrite wrap_of_signed, wrap_sub_wrap.
  - unfold mul64, u64, i64. by rewrite wrap_of_signed, wrap_mul_wrap.
  - by apply sint_land.
  - by apply wrap_land.
  - by apply sint_lor.
  - by apply wrap_lor.
  - by apply sint_lxor.
  - by apply wrap_lxor.
  - unfold shl64, u64, i64. by rewrite wrap_of_signed, wrap_shl_wrap.
  - unfold i64. rewrite (wrap_of_signed 64) by done. apply wrap_small, uint_shiftr; [done|apply uint_u64].
  - by apply sint_shiftr.
  - by rewrite Ea.
  - rewrite (wrap_eqb 64) by done. by destruct (a =? b).
  - rewrite (wrap_eqb 64) by done. by destruct (a =? b).
  - rewrite Ea, Eb. by destruct (a <? b).
  - by destruct (u64 a <? u64 b).
  - rewrite Ea, Eb. by destruct (b <=? a).
  - by destruct (u64 b <=? u64 a).
Qed.

Lemma fold_const_i32_ok op a b :
  input_type op = I32 -> sint 32 a -> sint 32 b ->
  exists f, fold_const_i32 op a b = Some f
    /\ folded_is f (result_type op) (binary_value op (u32 a) (u32 b)).
Proof.
  intros Ht Ha Hb. pose proof (amount32 b) as Hn.
  assert (i32 (u32 a) = a) as Ea by (by apply signed_of_wrap).
  destruct op; try done; (eexists; split; [reflexivity|]); cbn [folded_is result_type input_type binary_value];
    (split_and!; [done| |]); try (by apply (sint_signed 32)).
  - unfold add32, u32, i32. by rewrite wrap_of_signed, wrap_add_wrap.
  - unfold sub32, u32, i32. by rewrite wrap_of_signed, wrap_sub_wrap.
  - unfold mul32, u32, i32. by rewrite wrap_of_signed, wrap_mul_wrap.
  - by apply sint_land.
  - by apply wrap_land.
  - by apply sint_lor.
  - by apply wrap_lor.
  - by apply sint_lxor.
  - by apply wrap_lxor.
  - unfold shl32, u32, i32. by rewrite wrap_of_signed, wrap_shl_wrap.
  - unfold i32. rewrite (wrap_of_signed 32) by done. apply wrap_small, uint_shiftr; [done|apply uint_u32].
  - by apply sint_shiftr.
  - by rewrite Ea.
Qed.

(** ** Identities *)

(** Folding found the result [z] of an operation on the locals [x] and [y]. *)
Definition folds_to (f : Folded) (t : ValueType) (lhs rhs : ValueId) (x y z : Z) : Prop :=
  match f with
  | FValue v => t = I64 /\ ((v = lhs /\ x = z) \/ (v = rhs /\ y = z))
  | _ => folded_is f t z
  end.

Lemma folded_folds f t lhs rhs x y z : folded_is f t z -> folds_to f t lhs rhs x y z.
Proof. by destruct f. Qed.

Lemma land_ones_id w x : 0 <= w -> uint w x -> x .& (2 ^ w - 1) = x.
Proof.
  intros Hw Hx. rewrite Z.sub_1_r, <- Z.ones_equiv, Z.land_ones by done. by apply Z.mod_small.
Qed.

Lemma land_minus_two x : uint 64 x -> x .& 1 = 0 -> x .& u64 (-2) = x.
Proof.
  intros Hx He. change (u64 (-2)) with (2 ^ 64 - 1 - 1).
  rewrite <- (land_ones_id 64 x) at 2 by done.
  apply Z.bits_inj'. intros i Hi. rewrite !Z.land_spec.
  destruct (decide (i = 0)) as [->|Hne].
  - assert (Z.testbit x 0 = false) as ->; [|done].
    assert (Z.testbit (x .& 1) 0 = false) as Hb by (by rewrite He).
    by rewrite Z.land_spec, andb_true_r in Hb.
  - f_equal. change (2 ^ 64 - 1 - 1) with (Z.shiftl (Z.ones 63) 1).
    change (2 ^ 64 - 1) with (Z.ones 64). rewrite Z.shiftl_spec by done.
    rewrite !Z.testbit_ones_nonneg by lia. destruct (Z.ltb_spec (i - 1) 63), (Z.ltb_spec i 64); lia.
Qed.

Lemma fold_guest_pc_ok op lhs rhs l r f x y :
  fold_guest_pc op lhs rhs l r = Some f ->
  op_lit l -> op_lit r -> const_val l x -> const_val r y -> uint 64 x -> uint 64 y ->
  folds_to f (result_type op) lhs rhs x y (binary_value op x y).
Proof.
  intros Hf Hl Hr Hx Hy Hux Huy.
  destruct op; try done; destruct l, r; try done; simpl in Hf, Hl, Hr, Hx, Hy;
    try (case_match eqn:Hg; [|done]; apply andb_true_iff in Hg as [He Hm];
         apply Z.eqb_eq in He, Hm); simplify_eq;
    cbn [folds_to folded_is result_type input_type binary_value].
  - split_and!; [done|apply uint_add64|]. unfold add64, u64. by rewrite Z.add_comm.
  - split_and!; [done|apply uint_add64|done].
  - split_and!; [done|apply uint_sub64|done].
  - split_and!; [done|by apply (sint_signed 64)|]. unfold i64. rewrite (wrap_of_signed 64) by done.
    apply wrap_wrap.
  - split; [done|]. right. split; [done|]. rewrite Z.land_comm. symmetry. by apply land_minus_two.
  - split; [done|]. left. split; [done|]. symmetry. by apply land_minus_two.
Qed.

Lemma fold_identity_ok op lhs rhs r f x y :
  fold_identity op lhs rhs r = Some f -> input_type op = I64 ->
  const_val r y -> uint 64 x ->
  folds_to f (result_type op) lhs rhs x y (binary_value op x y).
Proof.
  intros Hf Ht Hy Hx. unfold fold_identity in Hf. destruct r; try done. simpl in Hf, Hy. subst y.
  assert (forall n, add64 x 0 = x /\ sub64 x 0 = x /\ shl64 x (0 .& n) = x /\ mul64 x 1 = x
          /\ mul64 x 0 = 0 /\ u64 (i64 x .>> (0 .& n)) = x) as Hid.
  { intros n. unfold add64, sub64, mul64, shl64. rewrite Z.add_0_r, Z.sub_0_r, Z.mul_1_r, Z.mul_0_r.
    rewrite Z.land_0_l, Z.shiftl_0_r, Z.shiftr_0_r. unfold u64, i64. rewrite (wrap_of_signed 64) by done.
    by rewrite !wrap_small. }
  destruct (Z.eqb_spec v 0) as [->|]; [|destruct (Z.eqb_spec v 1) as [->|];
    [|destruct (Z.eqb_spec v (-1)) as [->|]; [|done]]]; destruct op; try done;
    simpl in Hf; simplify_eq; cbn [folds_to folded_is result_type input_type binary_value];
    change (u64 0) with 0; change (u64 1) with 1; (split; [done|]).
  all: try (left; split; [done|]; symmetry; by apply (Hid 63)).
  - right. split; [done|]. symmetry. by apply (Hid 63).
  - right. split; [done|]. by rewrite Z.land_0_r.
  - left. split; [done|]. by rewrite Z.lor_0_r.
  - left. split; [done|]. by rewrite Z.lxor_0_r.
  - left. split; [done|]. by rewrite Z.land_0_l, Z.shiftr_0_r.
  - left. split; [done|]. symmetry. by apply (land_ones_id 64).
Qed.

(** ** Division *)

Lemma quot_sint w a b : 0 < w -> sint w a -> sint w b -> b <> 0 ->
  ~ (a = - 2 ^ (w - 1) /\ b = -1) -> sint w (Z.quot a b).
Proof. intros Hw Ha Hb Hz Hn. apply quot_bound; done. Qed.

Lemma rem_sint w a b : 0 < w -> sint w a -> sint w b -> b <> 0 -> sint w (Z.rem a b).
Proof.
  intros Hw Ha Hb Hz. unfold sint in *. pose proof (Z.rem_bound_abs a b Hz). lia.
Qed.

Lemma wrap_zero w b : 0 < w -> sint w b -> (wrap w b =? 0) = (b =? 0).
Proof.
  intros Hw Hb. rewrite <- (wrap_eqb w b 0); [|done|done|]. { unfold wrap. by rewrite Z.mod_0_l by lia. }
  unfold sint in *. lia.
Qed.

Lemma wrap_lit w x v y :
  0 < w -> sint w x -> sint w y -> wrap w y = v -> (wrap w x =? v) = (x =? y).
Proof. intros Hw Hx Hy <-. by apply wrap_eqb. Qed.

(** The guarded operators on wrapped constants, at either width. *)
Lemma signed_divide_fold w a b min minus_one :
  1 < w -> sint w a -> sint w b -> min = 2 ^ (w - 1) -> minus_one = 2 ^ w - 1 ->
  let wa := wrap w a in let wb := wrap w b in
  (wb =? 0) = (b =? 0)
  /\ (wa =? min) && (wb =? minus_one) = (a =? - 2 ^ (w - 1)) && (b =? -1)
  /\ signed w wa = a /\ signed w wb = b.
Proof.
  intros Hw Ha Hb -> -> wa wb. subst wa wb.
  pose proof (Z.pow_succ_r 2 (w - 1)). replace (Z.succ (w - 1)) with w in * by lia.
  assert (0 < 2 ^ (w - 1)) by lia.
  split_and!; [by apply wrap_zero; [lia|]| |apply signed_of_wrap; [lia|done]..].
  f_equal.
  - apply wrap_lit; [lia|done|unfold sint; lia|]. unfold wrap.
    symmetry. apply (Z.mod_unique_pos _ _ (-1)); lia.
  - apply wrap_lit; [lia|done|unfold sint; lia|]. unfold wrap.
    symmetry. apply (Z.mod_unique_pos _ _ (-1)); lia.
Qed.

Lemma udiv_bounds w x y : uint w x -> uint w y -> y <> 0 -> uint w (x / y) /\ uint w (x mod y).
Proof.
  intros [Hx0 Hx] [Hy0 Hy] Hz. split; split.
  - apply Z.div_pos; lia.
  - apply Z.le_lt_trans with x; [|done]. apply Z.div_le_upper_bound; nia.
  - apply Z.mod_pos_bound. lia.
  - pose proof (Z.mod_pos_bound x y). lia.
Qed.

Lemma fold_divide_i64_ok op a b :
  value_type op = I64 -> sint 64 a -> sint 64 b ->
  exists v, fold_divide_i64 op a b = Some v /\ sint 64 v
    /\ guarded_divide op (u64 a) (u64 b) = Some (u64 v).
Proof.
  intros Ht Ha Hb.
  destruct (signed_divide_fold 64 a b (2 ^ 63) U64_MAX) as (Hz & Hm & Ea & Eb); try done.
  change (wrap 64) with u64 in *. change (signed 64) with i64 in *. change (- 2 ^ (64 - 1)) with (- 2 ^ 63) in *.
  unfold guarded_divide, raw_divide.
  destruct op; try done; (eexists; split; [reflexivity|]); cbn [value_type is_remainder is_signed andb];
    rewrite Hz, ?Hm, ?Ea, ?Eb; (destruct (Z.eqb_spec b 0) as [->|Hbz]; [split; [done || uint_lit || (unfold sint; lia)|done]|]).
  - clear Hm. destruct (_ && _) eqn:Hc; [by split|]. split; [|done]. apply (quot_sint 64); try done.
    intros [-> ->]. by rewrite !Z.eqb_refl in Hc.
  - destruct (udiv_bounds 64 (u64 a) (u64 b)) as [Hd _]; [apply uint_u64..|lia|].
    split; [by apply (sint_signed 64)|]. f_equal. symmetry. by apply (wrap_signed 64).
  - clear Hm. destruct (_ && _) eqn:Hc; [by split|]. split; [|done]. by apply (rem_sint 64).
  - destruct (udiv_bounds 64 (u64 a) (u64 b)) as [_ Hd]; [apply uint_u64..|lia|].
    split; [by apply (sint_signed 64)|]. f_equal. symmetry. by apply (wrap_signed 64).
Qed.

Lemma fold_divide_i32_ok op a b :
  value_type op = I32 -> sint 32 a -> sint 32 b ->
  exists v, fold_divide_i32 op a b = Some v /\ sint 32 v
    /\ guarded_divide op (u32 a) (u32 b) = Some (u32 v).
Proof.
  intros Ht Ha Hb.
  destruct (signed_divide_fold 32 a b (2 ^ 31) U32_MAX) as (Hz & Hm & Ea & Eb); try done.
  change (wrap 32) with u32 in *. change (signed 32) with i32 in *. change (- 2 ^ (32 - 1)) with (- 2 ^ 31) in *.
  unfold guarded_divide, raw_divide.
  destruct op; try done; (eexists; split; [reflexivity|]); cbn [value_type is_remainder is_signed andb];
    rewrite Hz, ?Hm, ?Ea, ?Eb; (destruct (Z.eqb_spec b 0) as [->|Hbz]; [split; [done || uint_lit || (unfold sint; lia)|done]|]).
  - clear Hm. destruct (_ && _) eqn:Hc; [by split|]. split; [|done]. apply (quot_sint 32); try done.
    intros [-> ->]. by rewrite !Z.eqb_refl in Hc.
  - destruct (udiv_bounds 32 (u32 a) (u32 b)) as [Hd _]; [apply uint_u32..|lia|].
    split; [by apply (sint_signed 32)|]. f_equal. symmetry. by apply (wrap_signed 32).
  - clear Hm. destruct (_ && _) eqn:Hc; [by split|]. split; [|done]. by apply (rem_sint 32).
  - destruct (udiv_bounds 32 (u32 a) (u32 b)) as [_ Hd]; [apply uint_u32..|lia|].
    split; [by apply (sint_signed 32)|]. f_equal. symmetry. by apply (wrap_signed 32).
Qed.

(** The operators keep the widths of their results. *)
Lemma binary_value_uint op x y :
  uint (width (input_type op)) x -> uint (width (input_type op)) y ->
  uint (width (result_type op)) (binary_value op x y).
Proof.
  pose proof (land_mask_range y 6 63 ltac:(done) eq_refl).
  pose proof (land_mask_range y 5 31 ltac:(done) eq_refl).
  destruct op; cbn [input_type result_type binary_value width]; intros Hx Hy;
    auto with rv; try (by apply uint_b2z);
    try (by apply uint_lor); try (by apply uint_lxor);
    try (apply uint_shiftr; done); try (apply uint_land_l; [done|done|apply Hy]).
Qed.

Lemma guarded_divide_uint op x y z :
  uint (width (value_type op)) x -> uint (width (value_type op)) y ->
  guarded_divide op x y = Some z -> uint (width (value_type op)) z.
Proof.
  intros Hx Hy Hz.
  assert (uint 64 U64_MAX /\ uint 32 U32_MAX) as [Hm64 Hm32] by (split; uint_lit).
  assert (z = (if is_remainder op then x else match value_type op with I32 => U32_MAX | I64 => U64_MAX end)
    \/ z = (if is_remainder op then 0 else x) \/ raw_divide op x y = Some z) as Hc.
  { unfold guarded_divide in Hz. destruct (value_type op), (y =? 0); simplify_eq; auto;
      destruct (is_signed op && _); simplify_eq; auto. }
  destruct Hc as [->|[->|Hr]].
  - destruct op; done.
  - destruct op; cbn [is_remainder]; try done; apply uint_0; done.
  - unfold raw_divide in Hr. destruct (Z.eqb_spec y 0) as [|Hyz]; [done|].
    destruct op; cbn [value_type width] in *; try case_match; try done; injection Hr as <-;
      first [apply uint_u64|apply uint_u32|by apply udiv_bounds].
Qed.

(** ** The high half of a product, from 32-bit limbs *)

Definition mul_high_value (kind : MulHighKind) (x y : Z) : Z :=
  match kind with
  | SignedSigned => u64 (i128 (i64 x * i64 y) .>> 64)
  | SignedUnsigned => u64 (i128 (i64 x * y) .>> 64)
  | UnsignedUnsigned => u64 (u128 (x * y) .>> 64)
  end.

Lemma signed_small w x : 0 < w -> sint w x -> signed w x = x.
Proof.
  intros Hw Hx. unfold signed, sint in *.
  pose proof (Z.pow_succ_r 2 (w - 1)). replace (Z.succ (w - 1)) with w in * by lia.
  rewrite Z.mod_small; lia.
Qed.

(** The additions and shifts the builder emits, on the limb products. *)
Lemma limbs_carry a b c d :
  0 <= a -> 0 <= b -> 0 <= c ->
  let cross := b + a / 2 ^ 32 in
  (a + 2 ^ 32 * (b + c) + 2 ^ 64 * d) / 2 ^ 64
  = d + cross / 2 ^ 32 + (cross mod 2 ^ 32 + c) / 2 ^ 32.
Proof.
  intros Ha Hb Hc cross. symmetry. subst cross.
  apply (Z.div_unique_pos _ _ _ (2 ^ 32 * (((b + a / 2 ^ 32) mod 2 ^ 32 + c) mod 2 ^ 32) + a mod 2 ^ 32)).
  - pose proof (Z.mod_pos_bound a (2 ^ 32)).
    pose proof (Z.mod_pos_bound ((b + a / 2 ^ 32) mod 2 ^ 32 + c) (2 ^ 32)). lia.
  - pose proof (Z.div_mod a (2 ^ 32)). pose proof (Z.div_mod (b + a / 2 ^ 32) (2 ^ 32)).
    pose proof (Z.div_mod ((b + a / 2 ^ 32) mod 2 ^ 32 + c) (2 ^ 32)). lia.
Qed.

(** Each step of the chain stays below 2^64. *)
Lemma limbs_bound xl xh yl yh :
  uint 32 xl -> uint 32 xh -> uint 32 yl -> uint 32 yh ->
  let cross := xh * yl + xl * yl / 2 ^ 32 in
  uint 64 (xl * yl) /\ uint 64 (xh * yl) /\ uint 64 (xl * yh) /\ uint 64 (xh * yh)
  /\ uint 64 cross /\ uint 64 (cross mod 2 ^ 32 + xl * yh)
  /\ uint 64 (xh * yh + cross / 2 ^ 32)
  /\ uint 64 (xh * yh + cross / 2 ^ 32 + (cross mod 2 ^ 32 + xl * yh) / 2 ^ 32).
Proof.
  intros Hxl Hxh Hyl Hyh cross. unfold uint in Hxl, Hxh, Hyl, Hyh.
  assert (forall a b, 0 <= a < 2 ^ 32 -> 0 <= b < 2 ^ 32 -> 0 <= a * b <= (2 ^ 32 - 1) * (2 ^ 32 - 1)) as Hp
    by (intros; nia).
  pose proof (Hp xl yl Hxl Hyl). pose proof (Hp xh yl Hxh Hyl). pose proof (Hp xl yh Hxl Hyh).
  pose proof (Hp xh yh Hxh Hyh).
  assert (0 <= xl * yl / 2 ^ 32 <= 2 ^ 32 - 1) by (Z.to_euclidean_division_equations; lia).
  assert (0 <= cross <= (2 ^ 32 - 1) * (2 ^ 32 - 1) + 2 ^ 32 - 1) as Hc by (subst cross; lia).
  pose proof (Z.mod_pos_bound cross (2 ^ 32)).
  assert (0 <= cross / 2 ^ 32 <= 2 ^ 32 - 1) by (clear -Hc; Z.to_euclidean_division_equations; lia).
  assert (0 <= (cross mod 2 ^ 32 + xl * yh) / 2 ^ 32 <= 2 ^ 32 - 1).
  { split; [apply Z.div_pos; lia|]. assert ((cross mod 2 ^ 32 + xl * yh) / 2 ^ 32 < 2 ^ 32); [|lia].
    apply Z.div_lt_upper_bound; lia. }
  clearbody cross. unfold uint. lia.
Qed.

(** The unsigned chain. *)
Definition limb_chain (x y : Z) : Z :=
  let mask := 0xffffffff in
  let xl := x .& mask in
  let xh := x .>> 32 in
  let yl := y .& mask in
  let yh := y .>> 32 in
  let low_carry := mul64 xl yl .>> 32 in
  let cross := add64 (mul64 xh yl) low_carry in
  let right := add64 (cross .& mask) (mul64 xl yh) in
  add64 (add64 (mul64 xh yh) (cross .>> 32)) (right .>> 32).

Lemma limb_chain_exact x y : uint 64 x -> uint 64 y -> limb_chain x y = x * y / 2 ^ 64.
Proof.
  intros Hx Hy. unfold limb_chain. rewrite !(land_ones_lit _ _ 32), !(shiftr_lit _ _ (2 ^ 32)) by done.
  set (xl := x mod 2 ^ 32). set (xh := x / 2 ^ 32). set (yl := y mod 2 ^ 32). set (yh := y / 2 ^ 32).
  assert (x = xl + 2 ^ 32 * xh) as Ex by (unfold xl, xh; pose proof (Z.div_mod x (2 ^ 32)); lia).
  assert (y = yl + 2 ^ 32 * yh) as Ey by (unfold yl, yh; pose proof (Z.div_mod y (2 ^ 32)); lia).
  assert (uint 32 xl) as H1 by (apply Z.mod_pos_bound; lia).
  assert (uint 32 yl) as H2 by (apply Z.mod_pos_bound; lia).
  assert (uint 32 xh) as H3 by (unfold uint in *; unfold xh; split; [apply Z.div_pos; lia|apply Z.div_lt_upper_bound; lia]).
  assert (uint 32 yh) as H4 by (unfold uint in *; unfold yh; split; [apply Z.div_pos; lia|apply Z.div_lt_upper_bound; lia]).
  destruct (limbs_bound xl xh yl yh H1 H3 H2 H4) as (B1 & B2 & B3 & B4 & B5 & B6 & B7 & B8).
  clearbody xl xh yl yh. unfold add64, mul64, u64.
  rewrite (wrap_small 64 (xl * yl)), (wrap_small 64 (xh * yl)), (wrap_small 64 (xl * yh)),
    (wrap_small 64 (xh * yh)) by done.
  rewrite (wrap_small 64 (xh * yl + xl * yl / 2 ^ 32)) by done.
  rewrite (wrap_small 64 (_ + xl * yh)) by done. rewrite (wrap_small 64 (xh * yh + _)) by done.
  rewrite wrap_small by done. subst x y.
  replace ((xl + 2 ^ 32 * xh) * (yl + 2 ^ 32 * yh))
    with (xl * yl + 2 ^ 32 * (xh * yl + xl * yh) + 2 ^ 64 * (xh * yh)) by ring.
  rewrite limbs_carry; [done|apply B1|apply B2|apply B3].
Qed.

(** The sign corrections. *)
Lemma sign_correction x y : uint 64 x ->
  (i64 x * y) .>> 64 = x * y / 2 ^ 64 - (if i64 x <? 0 then y else 0).
Proof.
  intros Hx. rewrite Z.shiftr_div_pow2 by done. unfold i64. rewrite signed_cases by done.
  change (2 ^ (64 - 1)) with (2 ^ 63). destruct Hx.
  destruct (Z.ltb_spec x (2 ^ 63)).
  - destruct (Z.ltb_spec x 0); [lia|]. by rewrite Z.sub_0_r.
  - destruct (Z.ltb_spec (x - 2 ^ 64) 0); [|lia].
    replace ((x - 2 ^ 64) * y) with (x * y + (- y) * 2 ^ 64) by ring. rewrite Z.div_add by done. lia.
Qed.

Lemma mul_high_chain kind x y :
  uint 64 x -> uint 64 y ->
  mul_high_value kind x y
  = let high := limb_chain x y in
    let high := match kind with
                | UnsignedUnsigned => high
                | _ => sub64 high (if i64 x <? 0 then y else 0)
                end in
    match kind with
    | SignedSigned => sub64 high (if i64 y <? 0 then x else 0)
    | _ => high
    end.
Proof.
  intros Hx Hy. rewrite (limb_chain_exact x y Hx Hy).
  pose proof (i64_range x) as Rx. pose proof (i64_range y) as Ry. destruct Hx as [Hx0 Hx1], Hy as [Hy0 Hy1].
  destruct kind; cbn [mul_high_value].
  - unfold i128. rewrite signed_small by (done || unfold sint; simpl; nia).
    rewrite sign_correction, (Z.mul_comm x (i64 y)), <- Z.shiftr_div_pow2, sign_correction, (Z.mul_comm y x) by done.
    assert (exists k, (if i64 x <? 0 then i64 y else 0) = (if i64 x <? 0 then y else 0) + k * 2 ^ 64) as [k ->].
    { destruct (i64 x <? 0); [|by exists 0]. unfold i64. rewrite signed_cases by done.
      destruct (y <? _); [exists 0|exists (-1)]; lia. }
    unfold sub64, u64, wrap. rewrite Zminus_mod_idemp_l.
    rewrite <- (Z_mod_plus_full _ k). f_equal. lia.
  - unfold i128. rewrite signed_small by (done || unfold sint; simpl; nia).
    by rewrite sign_correction.
  - unfold u128. rewrite wrap_small by (unfold uint; simpl; nia). rewrite Z.shiftr_div_pow2 by done.
    apply wrap_small. split; [apply Z.div_pos; nia|]. apply Z.div_lt_upper_bound; [done|]. nia.
Qed.

(** ** The guarded operators are the RISC-V divisions *)

Lemma overflow_quot w x y :
  1 < w -> uint w x -> uint w y ->
  (x =? 2 ^ (w - 1)) && (y =? 2 ^ w - 1) = true ->
  wrap w (Z.quot (signed w x) (signed w y)) = x /\ wrap w (Z.rem (signed w x) (signed w y)) = 0.
Proof.
  intros Hw Hx Hy [Ex Ey]%andb_true_iff. apply Z.eqb_eq in Ex, Ey.
  pose proof (Z.pow_succ_r 2 (w - 1)). replace (Z.succ (w - 1)) with w in * by lia.
  assert (0 < 2 ^ (w - 1)) by lia.
  rewrite !signed_cases by (done || lia). destruct (Z.ltb_spec x (2 ^ (w - 1))); [lia|].
  destruct (Z.ltb_spec y (2 ^ (w - 1))); [lia|].
  replace (y - 2 ^ w) with (-1) by lia.
  change (-1) with (- (1)). rewrite Z.quot_opp_r, Z.rem_opp_r, Z.quot_1_r, Z.rem_1_r by done.
  unfold wrap. split; [|by rewrite Z.mod_0_l by lia]. rewrite Z.mod_small; lia.
Qed.

Lemma signed_eqb_zero w y : 0 < w -> uint w y -> (signed w y =? 0) = (y =? 0).
Proof.
  intros Hw Hy. pose proof (signed_zero w y Hw Hy).
  destruct (Z.eqb_spec (signed w y) 0), (Z.eqb_spec y 0); tauto.
Qed.

Lemma guarded_divide_spec op x y :
  uint (width (value_type op)) x -> uint (width (value_type op)) y ->
  guarded_divide op x y
  = Some (match op with
          | I64DivS => if i64 y =? 0 then U64_MAX else u64 (Z.quot (i64 x) (i64 y))
          | I64DivU => if y =? 0 then U64_MAX else x / y
          | I64RemS => if i64 y =? 0 then u64 (i64 x) else u64 (Z.rem (i64 x) (i64 y))
          | I64RemU => if y =? 0 then x else x mod y
          | I32DivS => if i32 y =? 0 then U32_MAX else u32 (Z.quot (i32 x) (i32 y))
          | I32DivU => if y =? 0 then U32_MAX else x / y
          | I32RemS => if i32 y =? 0 then u32 (i32 x) else u32 (Z.rem (i32 x) (i32 y))
          | I32RemU => if y =? 0 then x else x mod y
          end).
Proof.
  destruct op; cbn [value_type width]; intros Hx Hy; unfold guarded_divide, raw_divide, i64, i32, u64, u32;
    cbn [value_type is_remainder is_signed andb]; rewrite ?signed_eqb_zero by done;
    destruct (Z.eqb_spec y 0) as [->|Hyz]; try done.
  - destruct (_ && _) eqn:E; [|done]. by destruct (overflow_quot 64 x y) as [-> _].
  - f_equal. symmetry. by apply (wrap_signed 64).
  - destruct (_ && _) eqn:E; [|done]. by destruct (overflow_quot 64 x y) as [_ ->].
  - destruct (_ && _) eqn:E; [|done]. by destruct (overflow_quot 32 x y) as [-> _].
  - f_equal. symmetry. by apply (wrap_signed 32).
  - destruct (_ && _) eqn:E; [|done]. by destruct (overflow_quot 32 x y) as [_ ->].
Qed.
