(* ===== verification/DbtBuildSpec.v ===== *)
(** * Specifications of the builder's operations

    Each operation keeps the invariant of [DbtInv], and says which local its
    result is in and what that local holds: constant folding and the
    identities are invisible, a register read returns the architectural
    register, a write updates it, and a side exit commits it. *)

From S2P Require Import Prelude Exception Decode Csr State Bus Mmu Vector Exec Wf.
From S2P Require Import DbtVector DbtIr DbtBuilder DbtExec DbtDce DbtInv DbtFold.

Lemma interleave_bound n vs es items :
  interleave n vs es items -> Forall (fun e => Effect.position e <= n + length vs)%nat es.
Proof.
  induction 1; simpl.
  - constructor.
  - constructor; [lia|done].
  - eapply Forall_impl; [|eassumption]. simpl. lia.
Qed.

Lemma take_snoc_le {A} (l : list A) x i : (i <= length l)%nat -> take i (l ++ [x]) = take i l.
Proof. intros. by rewrite take_app_le. Qed.

Definition pushed (b : Builder) (d : ValueData) : Builder :=
  mkBuilder b.(b_entry_pc) (b.(b_values) ++ [d]) b.(b_regs) b.(b_dirty)
    b.(b_fregs) b.(b_dirty_f) b.(b_fcsr) b.(b_dirty_fcsr) b.(b_effects).

Definition effected (b : Builder) (e : Effect.t) : Builder :=
  mkBuilder b.(b_entry_pc) b.(b_values) b.(b_regs) b.(b_dirty) b.(b_fregs) b.(b_dirty_f)
    b.(b_fcsr) b.(b_dirty_fcsr) (b.(b_effects) ++ [e]).

Lemma sinv_pushed b d : sinv b -> value_ok b.(b_values) d -> sinv (pushed b d).
Proof.
  intros [[items Hi] Hv He Hr Hf Hrg Hfg Hfc Hd Hdf Hdc] Hok.
  split; cbn [pushed b_values b_effects b_regs b_fregs b_fcsr b_dirty b_dirty_f b_dirty_fcsr];
    try done.
  - eexists. by apply interleave_snoc_value.
  - intros i x Hx. destruct (decide (i < length (b_values b))%nat) as [Hlt|Hge].
    + rewrite lookup_app_l in Hx by done. rewrite take_snoc_le by lia. by apply Hv.
    + rewrite lookup_app_r in Hx by lia. apply list_lookup_singleton_Some in Hx as [Hi0 ->].
      by replace i with (length (b_values b)) by lia; rewrite take_app_length.
  - apply interleave_bound in Hi. rewrite Forall_forall in *. intros e Hin.
    rewrite take_snoc_le; [by apply He|]. specialize (Hi e Hin). simpl in Hi. lia.
  - intros i v Hx. destruct (Hrg i v Hx). split; [done|]. by apply ty_of_app.
  - intros i v Hx. apply ty_of_app. by eapply Hfg.
  - intros v Hx. apply ty_of_app. by eapply Hfc.
Qed.

Lemma sinv_effected b e :
  sinv b -> Effect.position e = length b.(b_values) -> effect_ok b.(b_values) e ->
  sinv (effected b e).
Proof.
  intros [[items Hi] Hv He Hr Hf Hrg Hfg Hfc Hd Hdf Hdc] Hp Hok.
  split; cbn [effected b_values b_effects b_regs b_fregs b_fcsr b_dirty b_dirty_f b_dirty_fcsr];
    try done.
  - eexists. by apply interleave_snoc_effect.
  - apply Forall_app_2; [done|]. constructor; [|constructor]. by rewrite Hp, firstn_all.
Qed.

(** Carry what is known of a builder over to its continuation. *)
Ltac advance Hle :=
  lazymatch type of Hle with
  | DbtInv.le ?s ?b ?b' =>
      repeat match goal with
      | H : DbtInv.val s b _ _ _ |- _ => apply (val_le s _ _ _ _ _ Hle) in H
      | H : DbtInv.when s b _ |- _ => apply (when_le s _ _ _ Hle) in H
      | H : DbtInv.inv s _ b |- _ => clear H
      | H : DbtInv.arch_is s b _ _ |- _ => clear H
      end; clear Hle; try clear b
  end.

(** One operation of the builder, by its specification. *)
Tactic Notation "wp_step" uconstr(lem) "as" ident(v) ident(Hv) :=
  eapply wp_bind;
  [eapply lem; try eassumption; try done
  |let b' := fresh "b" in let Hi' := fresh "Hi" in let Hle := fresh "Hle" in
   let Ha' := fresh "Ha" in
   intros v b' Hi' Hle [Ha' Hv]; advance Hle].

(** ** The promise of guest memory

    An access of generated code that does not leave is the interpreter's
    access on the bus. *)
Definition access_width (n : Z) : Prop := n = 1 \/ n = 2 \/ n = 4 \/ n = 8.

Lemma load_width kind : access_width (LoadKind.bytes kind).
Proof. unfold access_width. destruct kind; simpl; tauto. Qed.
Lemma store_width kind : access_width (StoreKind.bytes kind).
Proof. unfold access_width. destruct kind; simpl; tauto. Qed.

Lemma extend_load_uint kind v : uint (8 * LoadKind.bytes kind) v -> uint 64 (extend_load kind v).
Proof.
  intros Hv. destruct kind; cbn [extend_load LoadKind.bytes] in *; auto with rv;
    (eapply uint_mono; [|exact Hv]); lia.
Qed.

Class GuestMemoryOk (B : Type) `{Bus B} `{GuestMemory B} : Type := {
  guest_wf : B -> Prop;
  jit_load_ok n a m v :
    access_width n -> guest_wf m -> uint 64 a -> jit_load n a m = Some v ->
    bus_read n a m = (Ok v, m) /\ uint (8 * n) v;
  jit_store_ok n a v m m' :
    access_width n -> guest_wf m -> uint 64 a -> uint 64 v -> jit_store n a v m = Some m' ->
    bus_write n a v m = (Ok tt, m') /\ guest_wf m';
  guest_not_fast m va pa store : jit_fast_off m va pa store = None
}.

Section BuildSpec.
Context {B : Type} `{Bus B} `{VectorUnit B} `{GuestMemory B}.
Context (s0 : Cpu * B) (left_ok : Z -> Cpu * B -> Prop).

Local Abbreviation status := (status s0).
Local Abbreviation inv := (inv s0 left_ok).
Local Abbreviation dinv := (dinv s0).
Local Abbreviation le := (le s0).
Local Abbreviation val := (val s0).
Local Abbreviation live := (live s0).
Local Abbreviation when := (when s0).
Local Abbreviation arch_is := (arch_is s0).
Local Abbreviation wp := (wp s0 left_ok).

Lemma status_pushed b d :
  sinv b ->
  status (pushed b d)
  = match status b with
    | (Ok rho, s) =>
        match exec_value d.(vd_op) rho s with
        | (Ok x, s') => (Ok (rho ++ [x]), s')
        | (Err k, s') => (Err k, s')
        | (Panic, s') => (Panic, s')
        end
    | r => r
    end.
Proof.
  intros Hs. destruct (si_items b Hs) as [items Hi]. unfold DbtInv.status, pushed.
  cbn [b_values b_effects].
  rewrite (exec_values_items _ _ _ _ (interleave_snoc_value _ _ _ _ d Hi) [] s0 eq_refl).
  rewrite (exec_values_items _ _ _ _ Hi [] s0 eq_refl), exec_items_app. unfold bind at 1.
  by destruct (exec_items items [] s0) as [[rho|k|] s].
Qed.

Lemma status_effected b e :
  sinv b -> Effect.position e = length b.(b_values) ->
  status (effected b e)
  = match status b with
    | (Ok rho, s) =>
        match exec_effect e rho s with
        | (Ok _, s') => (Ok rho, s')
        | (Err k, s') => (Err k, s')
        | (Panic, s') => (Panic, s')
        end
    | r => r
    end.
Proof.
  intros Hs Hp. destruct (si_items b Hs) as [items Hi]. unfold DbtInv.status, effected.
  cbn [b_values b_effects].
  rewrite (exec_values_items _ _ _ _ (interleave_snoc_effect _ _ _ _ e Hi Hp) [] s0 eq_refl).
  rewrite (exec_values_items _ _ _ _ Hi [] s0 eq_refl), exec_items_app. unfold bind at 1.
  by destruct (exec_items items [] s0) as [[rho|k|] s].
Qed.

(** The locals' half of the dynamic invariant after a push. *)
Lemma dinv_pushed b d rho c x :
  sinv b -> dinv b rho c -> uint (width d.(vd_ty)) x -> const_val d.(vd_op) x ->
  dinv (pushed b d) (rho ++ [x]) c.
Proof.
  intros Hs [Hl Hv Hc Hcf Hcc Hu Hn] Hx Hk.
  assert (forall v t, ty_of (b_values b) v = Some t -> local (rho ++ [x]) v = local rho v) as Hloc.
  { intros v t Ht. apply local_app. rewrite Hl. by eapply ty_of_lt. }
  split; cbn [pushed b_values b_regs b_fregs b_fcsr b_dirty b_dirty_f b_dirty_fcsr]; try done.
  - rewrite !length_app. simpl. lia.
  - intros i y Hy. destruct (decide (i < length (b_values b))%nat) as [Hlt|Hge].
    + rewrite lookup_app_l in Hy by done. rewrite local_app by lia. by apply Hv.
    + rewrite lookup_app_r in Hy by lia. apply list_lookup_singleton_Some in Hy as [Hi0 ->].
      replace i with (length rho) by lia. by rewrite local_end.
  - intros i v Hr Hd. rewrite (Hloc v I64) by (by eapply si_reg). by eapply Hc.
  - intros i v Hr Hd. rewrite (Hloc v I64) by (by eapply si_freg). by eapply Hcf.
  - intros v Hr Hd. rewrite (Hloc v I32) by (by eapply si_fcsr). by eapply Hcc.
Qed.

(** What executing a pushed value must give: the local [x], the state [c2],
    [m2] and the fact [P], or a good exit. *)
Definition value_good (b : Builder) (d : ValueData) (x : Z) (c2 : Cpu) (m2 : B) (P : Prop) : Prop :=
  forall rho c m, status b = (Ok rho, (c, m)) -> dinv b rho c ->
    match exec_value d.(vd_op) rho (c, m) with
    | (Ok x', (c', m')) =>
        x' = x /\ m' = m2
        /\ c2 = set_insn_count c2.(insn_count) (set_pc c2.(pc) (commits b rho c'))
        /\ dinv b rho c' /\ uint (width d.(vd_ty)) x /\ const_val d.(vd_op) x /\ P
    | (Err k, s') => left_ok k s'
    | (Panic, _) => False
    end.

(** Nothing is left to say of a builder whose execution has left. *)
Lemma left_facts b k s v ty x c2 m2 P :
  status b = (Err k, s) -> ty_of b.(b_values) v = Some ty ->
  arch_is b c2 m2 /\ val b v ty x /\ when b P.
Proof.
  intros E Ht. split_and!.
  - intros rho c m. by rewrite E.
  - split; [done|by rewrite E].
  - intros (? & ? & Hl). by rewrite E in Hl.
Qed.

Lemma wp_value b ty op gpc x c2 m2 P :
  let d := mkValue ty op gpc in
  inv b -> value_ok b.(b_values) d -> value_good b d x c2 m2 P ->
  wp (push ty op gpc) b (fun v b' =>
    b' = pushed b d /\ v = length b.(b_values) /\ arch_is b' c2 m2 /\ val b' v ty x /\ when b' P).
Proof.
  intros d [Hs Hst] Hok Hg. pose proof (status_pushed b d Hs) as Heq. unfold value_good in Hg.
  assert (ty_of (b_values (pushed b d)) (length (b_values b)) = Some ty) as Hty.
  { unfold ty_of. cbn [pushed b_values]. by rewrite lookup_app_r, Nat.sub_diag by lia. }
  pose proof (sinv_pushed b d Hs Hok) as Hs'.
  assert (forall k s, status (pushed b d) = (Err k, s) -> left_ok k s ->
    inv (pushed b d) /\ le b (pushed b d)) as Hleft.
  { intros k s E Hl. split; [split; [done|by rewrite E]|]. split_and!; [by eexists|done|by rewrite E]. }
  exists (length (b_values b)), (pushed b d).
  destruct (status b) as [[rho|k|] [c m]] eqn:E; [| |done].
  2: { destruct (Hleft _ _ Heq Hst). do 5 (split; [done|]). by eapply left_facts. }
  specialize (Hg rho c m eq_refl Hst). pose proof (di_len _ _ _ _ Hst) as Hlen.
  destruct (exec_value (vd_op d) rho (c, m)) as [[x'|k|] [c' m']] eqn:Ex; [| |done].
  2: { destruct (Hleft _ _ Heq Hg). do 5 (split; [done|]). by eapply left_facts. }
  destruct Hg as (-> & -> & Hc2 & Hd & Hu & Hk & HP). split_and!; [done|..].
  - split; [done|]. rewrite Heq. by apply dinv_pushed.
  - split_and!; [by eexists|done|]. intros rho' s'. rewrite Heq. intros [= <- <-].
    by exists rho, (c, m), [x].
  - done.
  - done.
  - intros rho' c1 m1. rewrite Heq. intros [= <- <- <-]. split; [done|].
    change (commits (pushed b d)) with (commits b). by rewrite commits_app.
  - split; [done|]. intros rho' s'. rewrite Heq. intros [= <- <-]. rewrite <- Hlen. apply local_end.
  - by intros _.
Qed.

(** A value without effects. *)
Lemma wp_pure b ty op gpc c1 m1 x :
  inv b -> arch_is b c1 m1 -> value_ok b.(b_values) (mkValue ty op gpc) ->
  (forall rho c m, status b = (Ok rho, (c, m)) -> dinv b rho c ->
     exec_value op rho (c, m) = (Ok x, (c, m)) /\ uint (width ty) x /\ const_val op x) ->
  wp (push ty op gpc) b (fun v b' =>
    b' = pushed b (mkValue ty op gpc) /\ v = length b.(b_values)
    /\ arch_is b' c1 m1 /\ val b' v ty x).
Proof.
  intros Hi Ha Hok Hx. eapply wp_mono; [apply (wp_value b ty op gpc x c1 m1 True Hi Hok)|].
  - intros rho c m E Hd. cbn [vd_op]. destruct (Hx rho c m E Hd) as (-> & Hu & Hc).
    destruct (Ha rho c m E) as [-> Hc1]. by split_and!.
  - by intros ? ? _ _ (? & ? & ? & ? & _).
Qed.

(** Constants. *)
Lemma wp_const_i64 b v gpc c1 m1 :
  inv b -> arch_is b c1 m1 -> sint 64 v ->
  wp (const_i64 v gpc) b (fun r b' => arch_is b' c1 m1 /\ val b' r I64 (u64 v)).
Proof.
  intros Hi Ha Hv. eapply wp_mono; [apply (wp_pure b I64 (Op.ConstI64 v) gpc c1 m1 (u64 v))|]; try done.
  - split_and!; [done|constructor|done].
  - intros. split_and!; [done|apply uint_u64|done].
  - by intros ? ? _ _ (_ & _ & ? & ?).
Qed.

Lemma wp_const_i32 b v gpc c1 m1 :
  inv b -> arch_is b c1 m1 -> sint 32 v ->
  wp (const_i32 v gpc) b (fun r b' => arch_is b' c1 m1 /\ val b' r I32 (u32 v)).
Proof.
  intros Hi Ha Hv. eapply wp_mono; [apply (wp_pure b I32 (Op.ConstI32 v) gpc c1 m1 (u32 v))|]; try done.
  - split_and!; [done|constructor|done].
  - intros. split_and!; [done|apply uint_u32|done].
  - by intros ? ? _ _ (_ & _ & ? & ?).
Qed.

Lemma wp_guest_pc b v gpc c1 m1 :
  inv b -> arch_is b c1 m1 -> uint 64 v ->
  wp (guest_pc v gpc) b (fun r b' => arch_is b' c1 m1 /\ val b' r I64 v).
Proof.
  intros Hi Ha Hv. eapply wp_mono; [apply (wp_pure b I64 (Op.GuestPc v) gpc c1 m1 v)|]; try done.
  - split_and!; [done|constructor|done].
  - by intros ? ? _ _ (_ & _ & ? & ?).
Qed.

(** ** Registers *)

Lemma le_regs b b' :
  inv b -> b'.(b_values) = b.(b_values) -> b'.(b_effects) = b.(b_effects) ->
  b'.(b_entry_pc) = b.(b_entry_pc) -> le b b' /\ status b' = status b.
Proof.
  intros Hi Hv He Hp. assert (status b' = status b) as Hs by (unfold DbtInv.status; by rewrite Hv, He).
  split; [|done]. split_and!; [exists []; by rewrite app_nil_r|done|].
  intros rho s. rewrite Hs. intros E. exists rho, s, []. destruct s as [c m]. rewrite app_nil_r.
  split_and!; [done..|]. by eapply di_len, inv_live.
Qed.

Lemma view_get dirty regs rho l i :
  0 <= i < Z.of_nat (length l) ->
  aget (view dirty regs rho l) i
  = if Z.testbit dirty i
    then match regs !! Z.to_nat i with Some (Some v) => local rho v | _ => aget l i end
    else aget l i.
Proof.
  intros Hi. unfold aget. destruct (lookup_lt_is_Some_2 l (Z.to_nat i)) as [x Hx]; [lia|].
  assert (view dirty regs rho l !! Z.to_nat i
    = Some (if Z.testbit dirty i
            then match regs !! Z.to_nat i with Some (Some v) => local rho v | _ => x end else x)) as Hv.
  { rewrite view_lookup, Hx. simpl. by rewrite Z2Nat.id by lia. }
  rewrite (list_lookup_total_correct _ _ _ Hv), (list_lookup_total_correct _ _ _ Hx). done.
Qed.

(** A cached copy holds the architectural register. *)
Lemma cached_x b rho c i v :
  sinv b -> dinv b rho c -> 0 <= i < 32 -> aget b.(b_regs) i = Some v ->
  local rho v = xr (commits b rho c) i.
Proof.
  intros Hs Hd Hi Hv. destruct (uh_xregs c (di_user _ _ _ _ Hd)) as [Hl _].
  unfold xr, commits. cbn [xregs set_fcsr set_fregs set_xregs]. rewrite view_get by lia.
  unfold aget in Hv.
  destruct (lookup_lt_is_Some_2 (b_regs b) (Z.to_nat i)) as [o Ho]; [rewrite (si_regs b Hs); lia|].
  rewrite (list_lookup_total_correct _ _ _ Ho) in Hv. subst o. rewrite Ho.
  destruct (Z.testbit (b_dirty b) i) eqn:E; [done|].
  pose proof (di_clean _ _ _ _ Hd (Z.to_nat i) v Ho) as Hc. rewrite Z2Nat.id in Hc by lia.
  unfold aget. by rewrite (list_lookup_total_correct _ _ _ (Hc E)).
Qed.

Lemma cached_f b rho c i v :
  sinv b -> dinv b rho c -> 0 <= i < 32 -> aget b.(b_fregs) i = Some v ->
  local rho v = fr (commits b rho c) i.
Proof.
  intros Hs Hd Hi Hv. destruct (uh_fregs c (di_user _ _ _ _ Hd)) as [Hl _].
  unfold fr, commits. cbn [fregs set_fcsr set_fregs]. rewrite view_get by (simpl; lia).
  unfold aget in Hv.
  destruct (lookup_lt_is_Some_2 (b_fregs b) (Z.to_nat i)) as [o Ho]; [rewrite (si_fregs b Hs); lia|].
  rewrite (list_lookup_total_correct _ _ _ Ho) in Hv. subst o. rewrite Ho.
  destruct (Z.testbit (b_dirty_f b) i) eqn:E; [done|].
  pose proof (di_clean_f _ _ _ _ Hd (Z.to_nat i) v Ho) as Hc. rewrite Z2Nat.id in Hc by lia.
  unfold aget. simpl. by rewrite (list_lookup_total_correct _ _ _ (Hc E)).
Qed.

(** The architectural registers of a live execution. *)
Lemma arch_xr b c1 m1 rho c m i :
  arch_is b c1 m1 -> status b = (Ok rho, (c, m)) -> xr c1 i = xr (commits b rho c) i.
Proof. intros Ha Hs. destruct (Ha rho c m Hs) as [_ ->]. done. Qed.

Lemma arch_fr b c1 m1 rho c m i :
  arch_is b c1 m1 -> status b = (Ok rho, (c, m)) -> fr c1 i = fr (commits b rho c) i.
Proof. intros Ha Hs. destruct (Ha rho c m Hs) as [_ ->]. done. Qed.

Lemma val_eq b v t x y : val b v t x -> when b (x = y) -> val b v t y.
Proof.
  intros [Ht Hx] Hw. split; [done|]. intros rho s Hs. rewrite (Hx rho s Hs). apply Hw. by exists rho, s.
Qed.

Lemma val_intro b v t x :
  ty_of b.(b_values) v = Some t -> (forall rho c m, status b = (Ok rho, (c, m)) -> local rho v = x) ->
  val b v t x.
Proof. intros Ht Hx. split; [done|]. intros rho [c m] Hs. by eapply Hx. Qed.

(** Caching a clean copy of a register keeps the invariant. *)
Lemma clean_without_copy regs dirty r :
  dirty_has dirty regs -> 0 <= r -> aget regs r = None -> Z.testbit dirty r = false.
Proof.
  intros Hd Hr Hn. destruct (Z.testbit dirty r) eqn:E; [|done].
  destruct (Hd r) as [w Hw]; [lia|done|]. unfold aget in Hn.
  rewrite (list_lookup_total_correct _ _ _ Hw) in Hn. congruence.
Qed.

Lemma sinv_cache_x b r v :
  sinv b -> 0 < r < 32 -> aget b.(b_regs) r = None -> ty_of b.(b_values) v = Some I64 ->
  sinv (set_b_regs (aset b.(b_regs) r (Some v)) b.(b_dirty) b).
Proof.
  intros Hs Hr Hn Ht.
  pose proof (clean_without_copy _ _ r (si_dirty b Hs) ltac:(lia) Hn) as Hd.
  destruct Hs as [Hit Hv He Hrl Hf Hrg Hfg Hfc Hdd Hdf Hdc].
  split; cbn [set_b_regs b_values b_effects b_regs b_fregs b_fcsr b_dirty b_dirty_f b_dirty_fcsr]; try done.
  - unfold aset. by rewrite length_insert.
  - intros i w. unfold aset. rewrite list_lookup_insert_Some. intros [(<- & [= <-] & _)|[_ Hw]]; [|by apply Hrg].
    split; [lia|done].
  - intros i Hi Hti. unfold aset. rewrite list_lookup_insert_ne; [by apply Hdd|].
    intros Heq. apply Z2Nat.inj in Heq; [|lia|lia]. congruence.
Qed.

Lemma cache_x b r v c1 m1 :
  inv b -> arch_is b c1 m1 -> 0 < r < 32 -> aget b.(b_regs) r = None -> val b v I64 (xr c1 r) ->
  let b' := set_b_regs (aset b.(b_regs) r (Some v)) b.(b_dirty) b in
  inv b' /\ le b b' /\ arch_is b' c1 m1 /\ val b' v I64 (xr c1 r).
Proof.
  intros Hi Ha Hr Hn Hval b'. pose proof (inv_static _ _ _ Hi) as Hs.
  pose proof (clean_without_copy _ _ r (si_dirty b Hs) ltac:(lia) Hn) as Hd.
  destruct (le_regs b b' Hi eq_refl eq_refl eq_refl) as [Hle Hst]. split_and!; [|done| |].
  - split; [apply (sinv_cache_x b r v Hs Hr Hn (proj1 Hval))|]. rewrite Hst.
    pose proof (inv_status _ _ _ Hi) as Hst1.
    destruct (DbtInv.status s0 b) as [[rho|k|] [c m]] eqn:E1; [|done..].
    destruct Hst1 as [Hl Hvv Hc Hcf Hcc Huu Hcnt].
    split; cbn [set_b_regs b' b_values b_regs b_fregs b_fcsr b_dirty b_dirty_f b_dirty_fcsr]; try done.
    intros i w. unfold aset. rewrite list_lookup_insert_Some.
    intros [(<- & [= <-] & _)|[_ Hx]] Hti; [|by apply Hc].
    rewrite (proj2 Hval rho (c, m)), (arch_xr _ _ _ _ _ _ _ Ha E1) by done. unfold xr, commits.
    cbn [xregs set_fcsr set_fregs set_xregs].
    destruct (uh_xregs c Huu) as [Hxl _]. rewrite view_get by lia. rewrite Hd. unfold aget.
    destruct (lookup_lt_is_Some_2 (xregs c) (Z.to_nat r)) as [x Hx]; [lia|].
    by rewrite (list_lookup_total_correct _ _ _ Hx).
  - intros rho c m. rewrite Hst. intros E. destruct (Ha rho c m E) as [-> Hc1]. split; [done|].
    rewrite Hc1 at 1. unfold commits. cbn [b' set_b_regs b_regs b_dirty b_fregs b_dirty_f].
    by rewrite view_cache by (done || lia).
  - split; [exact (proj1 Hval)|]. intros rho s. rewrite Hst. apply Hval.
Qed.

Lemma sinv_cache_f b r v :
  sinv b -> 0 <= r < 32 -> aget b.(b_fregs) r = None -> ty_of b.(b_values) v = Some I64 ->
  sinv (set_b_fregs (aset b.(b_fregs) r (Some v)) b.(b_dirty_f) b).
Proof.
  intros Hs Hr Hn Ht.
  pose proof (clean_without_copy _ _ r (si_dirty_f b Hs) ltac:(lia) Hn) as Hd.
  destruct Hs as [Hit Hv He Hrl Hf Hrg Hfg Hfc Hdd Hdf Hdc].
  split; cbn [set_b_fregs b_values b_effects b_regs b_fregs b_fcsr b_dirty b_dirty_f b_dirty_fcsr]; try done.
  - unfold aset. by rewrite length_insert.
  - intros i w. unfold aset. rewrite list_lookup_insert_Some. intros [(<- & [= <-] & _)|[_ Hw]]; [done|by eapply Hfg].
  - intros i Hi Hti. unfold aset. rewrite list_lookup_insert_ne; [by apply Hdf|].
    intros Heq. apply Z2Nat.inj in Heq; [|lia|lia]. congruence.
Qed.

Lemma cache_f b r v c1 m1 :
  inv b -> arch_is b c1 m1 -> 0 <= r < 32 -> aget b.(b_fregs) r = None -> val b v I64 (fr c1 r) ->
  let b' := set_b_fregs (aset b.(b_fregs) r (Some v)) b.(b_dirty_f) b in
  inv b' /\ le b b' /\ arch_is b' c1 m1 /\ val b' v I64 (fr c1 r).
Proof.
  intros Hi Ha Hr Hn Hval b'. pose proof (inv_static _ _ _ Hi) as Hs.
  pose proof (clean_without_copy _ _ r (si_dirty_f b Hs) ltac:(lia) Hn) as Hd.
  destruct (le_regs b b' Hi eq_refl eq_refl eq_refl) as [Hle Hst]. split_and!; [|done| |].
  - split; [apply (sinv_cache_f b r v Hs Hr Hn (proj1 Hval))|]. rewrite Hst.
    pose proof (inv_status _ _ _ Hi) as Hst1.
    destruct (DbtInv.status s0 b) as [[rho|k|] [c m]] eqn:E1; [|done..].
    destruct Hst1 as [Hl Hvv Hc Hcf Hcc Huu Hcnt].
    split; cbn [set_b_fregs b' b_values b_regs b_fregs b_fcsr b_dirty b_dirty_f b_dirty_fcsr]; try done.
    intros i w. unfold aset. rewrite list_lookup_insert_Some.
    intros [(<- & [= <-] & _)|[_ Hx]] Hti; [|by apply Hcf].
    rewrite (proj2 Hval rho (c, m)), (arch_fr _ _ _ _ _ _ _ Ha E1) by done. unfold fr, commits.
    cbn [fregs set_fcsr set_fregs].
    destruct (uh_fregs c Huu) as [Hxl _]. rewrite view_get by (simpl; lia). rewrite Hd. unfold aget.
    destruct (lookup_lt_is_Some_2 (fregs c) (Z.to_nat r)) as [x Hx]; [lia|].
    simpl. by rewrite (list_lookup_total_correct _ _ _ Hx).
  - intros rho c m. rewrite Hst. intros E. destruct (Ha rho c m E) as [-> Hc1]. split; [done|].
    rewrite Hc1 at 1. unfold commits. cbn [b' set_b_fregs b_regs b_dirty b_fregs b_dirty_f].
    by rewrite view_cache by (done || lia).
  - split; [exact (proj1 Hval)|]. intros rho s. rewrite Hst. apply Hval.
Qed.

(** A read through the cache of the builder. *)
Lemma reg_typed (values : list ValueData) regs (P : nat -> ValueId -> Prop) r w :
  (forall i v, regs !! i = Some (Some v) -> P i v) -> 0 <= r < Z.of_nat (length regs) ->
  aget regs r = Some w -> P (Z.to_nat r) w.
Proof.
  intros Hp Hr Hw. unfold aget in Hw.
  destruct (lookup_lt_is_Some_2 regs (Z.to_nat r)) as [o Ho]; [lia|].
  rewrite (list_lookup_total_correct _ _ _ Ho) in Hw. subst o. by apply Hp.
Qed.

Lemma wp_read_x b r gpc c1 m1 :
  inv b -> arch_is b c1 m1 -> when b (user_hart c1) -> 0 <= r < 32 ->
  wp (read_x r gpc) b (fun v b' => arch_is b' c1 m1 /\ val b' v I64 (xr c1 r)).
Proof.
  intros Hi Ha Hu Hr. pose proof (inv_static _ _ _ Hi) as Hs. unfold read_x.
  destruct (Z.eqb_spec r 0) as [->|Hne].
  { eapply wp_mono; [by apply wp_const_i64|]. intros v b' _ Hle [Ha' Hv]. split; [done|].
    eapply val_eq; [exact Hv|]. eapply when_mono; [|by eapply when_le]. intros Hc1.
    by rewrite (uh_x0 c1 Hc1). }
  unfold DbtInv.wp. unfold bind at 1, gets, id. destruct (aget (b_regs b) r) as [w|] eqn:Hw.
  - exists w, b. split_and!; [done|done|by eapply le_refl|done|]. apply val_intro.
    + apply (reg_typed (b_values b) _ _ r w (si_reg b Hs)); [rewrite si_regs by done; lia|done].
    + intros rho c m E. rewrite (arch_xr _ _ _ _ _ _ _ Ha E).
      apply cached_x; [done|by eapply inv_live|lia|done].
  - destruct (wp_pure b I64 (Op.ReadX r) gpc c1 m1 (xr c1 r) Hi Ha) as (v & b1 & Hp & Hi1 & Hle1 & Hb1 & Hv & Ha1 & Hval).
    { split_and!; [done|constructor|done]. }
    { intros rho c m E Hd. pose proof (uh_xregs c (di_user _ _ _ _ Hd)) as Harr.
      assert (xr c1 r = xr c r) as ->.
      { rewrite (arch_xr _ _ _ _ _ _ _ Ha E). unfold xr, commits.
        cbn [xregs set_fcsr set_fregs set_xregs]. destruct Harr as [Hl _]. rewrite view_get by lia.
        by rewrite (clean_without_copy _ _ r (si_dirty b Hs) ltac:(lia) Hw). }
      split_and!; [done| |done]. eapply arr_get; [exact Harr|]. lia. }
    destruct (cache_x b1 r v c1 m1 Hi1 Ha1) as (Hi2 & Hle2 & Ha2 & Hval2); [lia|by rewrite Hb1|done|].
    eexists v, _. unfold bind, modify, ret. rewrite Hp.
    split_and!; [done|exact Hi2|by eapply le_trans|done|done].
Qed.

Lemma wp_read_f b r gpc c1 m1 :
  inv b -> arch_is b c1 m1 -> 0 <= r < 32 ->
  wp (read_f r gpc) b (fun v b' => arch_is b' c1 m1 /\ val b' v I64 (fr c1 r)).
Proof.
  intros Hi Ha Hr. pose proof (inv_static _ _ _ Hi) as Hs. unfold read_f, DbtInv.wp.
  unfold bind at 1, gets, id. destruct (aget (b_fregs b) r) as [w|] eqn:Hw.
  - exists w, b. split_and!; [done|done|by eapply le_refl|done|]. apply val_intro.
    + apply (reg_typed (b_values b) _ (fun _ v => ty_of (b_values b) v = Some I64) r w (si_freg b Hs));
        [rewrite si_fregs by done; lia|done].
    + intros rho c m E. rewrite (arch_fr _ _ _ _ _ _ _ Ha E).
      apply cached_f; [done|by eapply inv_live|lia|done].
  - destruct (wp_pure b I64 (Op.ReadF r) gpc c1 m1 (fr c1 r) Hi Ha) as (v & b1 & Hp & Hi1 & Hle1 & Hb1 & Hv & Ha1 & Hval).
    { split_and!; [done|constructor|done]. }
    { intros rho c m E Hd. pose proof (uh_fregs c (di_user _ _ _ _ Hd)) as Harr.
      assert (fr c1 r = fr c r) as ->.
      { rewrite (arch_fr _ _ _ _ _ _ _ Ha E). unfold fr, commits.
        cbn [fregs set_fcsr set_fregs]. destruct Harr as [Hl _]. rewrite view_get by (simpl; lia).
        by rewrite (clean_without_copy _ _ r (si_dirty_f b Hs) ltac:(lia) Hw). }
      split_and!; [done| |done]. eapply arr_get; [exact Harr|]. lia. }
    destruct (cache_f b1 r v c1 m1 Hi1 Ha1) as (Hi2 & Hle2 & Ha2 & Hval2); [lia|by rewrite Hb1|done|].
    eexists v, _. unfold bind, modify, ret. rewrite Hp.
    split_and!; [done|exact Hi2|by eapply le_trans|done|done].
Qed.

(** A written register is dirty and has a value. *)
Lemma dirty_has_write dirty regs r v :
  dirty_has dirty regs -> 0 <= r < Z.of_nat (length regs) ->
  dirty_has (dirty .| (1 .<< r)) (aset regs r (Some v)).
Proof.
  intros Hd Hr i Hi Ht. rewrite testbit_set_bit in Ht by lia. unfold aset.
  destruct (decide (i = r)) as [->|Hne].
  - exists v. rewrite list_lookup_insert_eq; [done|lia].
  - rewrite list_lookup_insert_ne by lia. apply orb_true_iff in Ht as [Ht|Ht]; [by apply Hd|].
    apply Z.eqb_eq in Ht. lia.
Qed.

(** A clean copy that survives a write is one of another register. *)
Lemma clean_after_write dirty (regs : list (option ValueId)) r v i w :
  0 <= r -> aset regs r (Some v) !! i = Some (Some w) ->
  Z.testbit (dirty .| (1 .<< r)) (Z.of_nat i) = false ->
  regs !! i = Some (Some w) /\ Z.testbit dirty (Z.of_nat i) = false.
Proof.
  intros Hr Hw Ht. rewrite testbit_set_bit in Ht by lia. apply orb_false_iff in Ht as [Ht Hne].
  apply Z.eqb_neq in Hne. unfold aset in Hw. rewrite list_lookup_insert_ne in Hw by lia. done.
Qed.

Lemma wp_write_x b r v x c1 m1 :
  inv b -> arch_is b c1 m1 -> 0 <= r < 32 -> val b v I64 x ->
  wp (write_x r v) b (fun _ b' => arch_is b' (wr r x c1) m1).
Proof.
  intros Hi Ha Hr Hv. pose proof (inv_static _ _ _ Hi) as Hs. unfold write_x, wr.
  destruct (Z.eqb_spec r 0) as [->|Hne]; simpl; [by apply wp_ret|].
  set (b' := set_b_regs (aset b.(b_regs) r (Some v)) (b.(b_dirty) .| (1 .<< r)) b).
  destruct (le_regs b b' Hi eq_refl eq_refl eq_refl) as [Hle Hst].
  exists tt, b'. split_and!; [done| |done|].
  - split.
    + destruct Hs as [Hit Hvv He Hrl Hf Hrg Hfg Hfc Hdd Hdf Hdc].
      split; cbn [set_b_regs b' b_values b_effects b_regs b_fregs b_fcsr b_dirty b_dirty_f b_dirty_fcsr]; try done.
      * unfold aset. by rewrite length_insert.
      * intros i w. unfold aset. rewrite list_lookup_insert_Some.
        intros [(<- & [= <-] & _)|[_ Hw]]; [|by apply Hrg]. split; [lia|apply Hv].
      * apply dirty_has_write; [done|]. rewrite Hrl. lia.
    + rewrite Hst. pose proof (inv_status _ _ _ Hi) as Hst1.
      destruct (DbtInv.status s0 b) as [[rho|k|] [c m]] eqn:E1; [|done..].
      destruct Hst1 as [Hl Hvv Hc Hcf Hcc Huu Hcnt].
      split; cbn [set_b_regs b' b_values b_regs b_fregs b_fcsr b_dirty b_dirty_f b_dirty_fcsr]; try done.
      intros i w Hw Ht. destruct (clean_after_write _ _ r v i w ltac:(lia) Hw Ht). by apply Hc.
  - intros rho c m. rewrite Hst. intros E. destruct (Ha rho c m E) as [-> Hc1]. split; [done|].
    pose proof (inv_live _ _ _ _ _ _ Hi E) as Hd. rewrite Hc1 at 2.
    unfold commits. cbn [b' set_b_regs b_regs b_dirty b_fregs b_dirty_f set_xregs xregs set_fcsr set_fregs
      set_pc set_insn_count insn_count pc fcsr fregs].
    rewrite view_write by (try lia; rewrite (si_regs b Hs); symmetry; apply (uh_xregs c (di_user _ _ _ _ Hd))).
    rewrite (proj2 Hv rho _ E). by rewrite Hc1 at 1.
Qed.

Lemma wp_write_f b r v x c1 m1 :
  inv b -> arch_is b c1 m1 -> 0 <= r < 32 -> val b v I64 x ->
  wp (write_f r v) b (fun _ b' => arch_is b' (set_fr r x c1) m1).
Proof.
  intros Hi Ha Hr Hv. pose proof (inv_static _ _ _ Hi) as Hs. unfold write_f.
  set (b' := set_b_fregs (aset b.(b_fregs) r (Some v)) (b.(b_dirty_f) .| (1 .<< r)) b).
  destruct (le_regs b b' Hi eq_refl eq_refl eq_refl) as [Hle Hst].
  exists tt, b'. split_and!; [done| |done|].
  - split.
    + destruct Hs as [Hit Hvv He Hrl Hf Hrg Hfg Hfc Hdd Hdf Hdc].
      split; cbn [set_b_fregs b' b_values b_effects b_regs b_fregs b_fcsr b_dirty b_dirty_f b_dirty_fcsr]; try done.
      * unfold aset. by rewrite length_insert.
      * intros i w. unfold aset. rewrite list_lookup_insert_Some.
        intros [(<- & [= <-] & _)|[_ Hw]]; [apply Hv|by eapply Hfg].
      * apply dirty_has_write; [done|]. rewrite Hf. lia.
    + rewrite Hst. pose proof (inv_status _ _ _ Hi) as Hst1.
      destruct (DbtInv.status s0 b) as [[rho|k|] [c m]] eqn:E1; [|done..].
      destruct Hst1 as [Hl Hvv Hc Hcf Hcc Huu Hcnt].
      split; cbn [set_b_fregs b' b_values b_regs b_fregs b_fcsr b_dirty b_dirty_f b_dirty_fcsr]; try done.
      intros i w Hw Ht. destruct (clean_after_write _ _ r v i w ltac:(lia) Hw Ht). by apply Hcf.
  - intros rho c m. rewrite Hst. intros E. destruct (Ha rho c m E) as [-> Hc1]. split; [done|].
    pose proof (inv_live _ _ _ _ _ _ Hi E) as Hd. unfold set_fr. rewrite Hc1 at 2.
    unfold commits. cbn [b' set_b_fregs b_regs b_dirty b_fregs b_dirty_f set_xregs xregs set_fcsr set_fregs
      set_pc set_insn_count insn_count pc fcsr fregs].
    rewrite view_write by (try lia; rewrite (si_fregs b Hs); symmetry; apply (uh_fregs c (di_user _ _ _ _ Hd))).
    rewrite (proj2 Hv rho _ E). by rewrite Hc1 at 1.
Qed.

Lemma wp_write_fcsr b v x c1 m1 :
  inv b -> arch_is b c1 m1 -> val b v I32 x ->
  wp (write_fcsr v) b (fun _ b' => arch_is b' (set_fcsr x c1) m1).
Proof.
  intros Hi Ha Hv. pose proof (inv_static _ _ _ Hi) as Hs. unfold write_fcsr.
  set (b' := set_b_fcsr (Some v) true b).
  destruct (le_regs b b' Hi eq_refl eq_refl eq_refl) as [Hle Hst].
  exists tt, b'. split_and!; [done| |done|].
  - split.
    + destruct Hs as [Hit Hvv He Hrl Hf Hrg Hfg Hfc Hdd Hdf Hdc].
      split; cbn [set_b_fcsr b' b_values b_effects b_regs b_fregs b_fcsr b_dirty b_dirty_f b_dirty_fcsr]; try done.
      intros w [= <-]. apply Hv.
    + rewrite Hst. pose proof (inv_status _ _ _ Hi) as Hst1.
      destruct (DbtInv.status s0 b) as [[rho|k|] [c m]] eqn:E1; [|done..].
      destruct Hst1 as [Hl Hvv Hc Hcf Hcc Huu Hcnt]. split; done.
  - intros rho c m. rewrite Hst. intros E. destruct (Ha rho c m E) as [-> Hc1]. split; [done|].
    rewrite Hc1 at 1. unfold commits, fcsr_view. cbn [b' set_b_fcsr b_dirty_fcsr b_fcsr].
    by rewrite (proj2 Hv rho _ E).
Qed.

Lemma wp_read_fcsr b gpc c1 m1 :
  inv b -> arch_is b c1 m1 ->
  wp (read_fcsr gpc) b (fun v b' => arch_is b' c1 m1 /\ val b' v I32 c1.(fcsr)).
Proof.
  intros Hi Ha. pose proof (inv_static _ _ _ Hi) as Hs. unfold read_fcsr, DbtInv.wp.
  unfold bind at 1, gets, id. destruct (b_fcsr b) as [w|] eqn:Hw.
  - exists w, b. split_and!; [done|done|by eapply le_refl|done|]. apply val_intro; [by eapply si_fcsr|].
    intros rho c m E. destruct (Ha rho c m E) as [_ ->]. unfold commits. cbn [set_insn_count set_pc set_fcsr fcsr].
    unfold fcsr_view. rewrite Hw. destruct (b_dirty_fcsr b) eqn:Ed; [done|].
    symmetry. by eapply di_clean_fcsr; [by eapply inv_live|..].
  - assert (b_dirty_fcsr b = false) as Hd.
    { destruct (b_dirty_fcsr b) eqn:E; [|done]. by destruct (si_dirty_fcsr b Hs E) as [? ?]; simplify_eq. }
    destruct (wp_pure b I32 Op.ReadFcsr gpc c1 m1 (fcsr c1) Hi Ha)
      as (v & b1 & Hp & Hi1 & Hle1 & Hb1 & Hv & Ha1 & Hval).
    { split_and!; [done|constructor|done]. }
    { intros rho c m E Hdi. destruct (Ha rho c m E) as [_ ->]. unfold commits, fcsr_view. rewrite Hd.
      cbn [set_insn_count set_pc set_fcsr fcsr]. split_and!; [done| |done].
      eapply uint_mono; [|apply uh_fcsr, (di_user _ _ _ _ Hdi)]. simpl. lia. }
    set (b2 := set_b_fcsr (Some v) (b_dirty_fcsr b1) b1).
    destruct (le_regs b1 b2 Hi1 eq_refl eq_refl eq_refl) as [Hle2 Hst2].
    assert (b_dirty_fcsr b1 = false) as Hd1 by (by rewrite Hb1).
    exists v, b2. unfold bind, modify, ret. rewrite Hp. split_and!; [done| |by eapply le_trans| |].
    + destruct Hi1 as [Hs1 Hst1]. split.
      * destruct Hs1 as [Hit Hvv He Hrl Hf Hrg Hfg Hfc Hdd Hdf Hdc].
        split; cbn [set_b_fcsr b2 b_values b_effects b_regs b_fregs b_fcsr b_dirty b_dirty_f b_dirty_fcsr]; try done.
        intros w [= <-]. apply Hval.
      * rewrite Hst2. destruct (DbtInv.status s0 b1) as [[rho|k|] [c m]] eqn:E1; [|done..].
        destruct Hst1 as [Hl Hvv Hc Hcf Hcc Huu Hcnt]. split; try done.
        intros w [= <-] _. rewrite (proj2 Hval rho _ E1). destruct (Ha1 rho c m E1) as [_ ->].
        unfold commits, fcsr_view. by rewrite Hd1.
    + intros rho c m. rewrite Hst2. intros E. destruct (Ha1 rho c m E) as [-> Hc1]. split; [done|].
      rewrite Hc1 at 1. unfold commits, fcsr_view. cbn [b2 set_b_fcsr b_dirty_fcsr b_fcsr b_regs b_fregs b_dirty b_dirty_f].
      by rewrite Hd1.
    + split; [exact (proj1 Hval)|]. intros rho s. rewrite Hst2. apply Hval.
Qed.

(** ** Pure operations *)

Lemma live_dec b : live b \/ ~ live b.
Proof.
  unfold DbtInv.live. destruct (status b) as [[rho|k|] s].
  - left. by eexists _, _.
  - right. intros (? & ? & ?). done.
  - right. intros (? & ? & ?). done.
Qed.

Lemma val_dead b v t x y : ~ live b -> val b v t x -> val b v t y.
Proof. intros Hd [Ht _]. split; [done|]. intros rho s Hs. destruct Hd. by exists rho, s. Qed.

(** The operation behind a value, and a reading of its local that agrees with
    it even where execution does not get there. *)
Lemma value_op_spec b v t x :
  inv b -> val b v t x ->
  exists op x', value_op v b = (Ok op, b) /\ op_type op = t /\ op_lit op /\ const_val op x'
    /\ uint (width t) x' /\ val b v t x' /\ when b (x' = x).
Proof.
  intros Hi Hv. pose proof (proj1 Hv) as Ht. unfold ty_of in Ht.
  apply fmap_Some in Ht as (d & Hd & ->).
  destruct (si_values b (inv_static _ _ _ Hi) v d Hd) as (Hty & _ & Hlit).
  assert (exists x', const_val (vd_op d) x' /\ uint (width (vd_ty d)) x' /\ val b v (vd_ty d) x' /\ when b (x' = x)) as (x' & Hc & Hu & Hv' & Hw).
  { destruct (live_dec b) as [Hl|Hl].
    - exists x. destruct Hl as (rho & [c m] & E).
      destruct (di_vals _ _ _ _ (inv_live _ _ _ _ _ _ Hi E) v d Hd) as [Hu Hc].
      rewrite (proj2 Hv rho _ E) in Hu, Hc. by split_and!.
    - assert (exists x', const_val (vd_op d) x' /\ uint (width (vd_ty d)) x') as (x' & Hc & Hu).
      { rewrite Hty. clear -Hlit.
        destruct (vd_op d) as [v| v| p| | | | o| o| | | | | | | |];
          try (exists 0; split; [done|]; apply uint_0; done).
        - exists (u32 v). split; [done|]. apply uint_u32.
        - exists (u64 v). split; [done|]. apply uint_u64.
        - by exists p.
        - exists 0. split; [done|]. apply uint_0. by destruct o.
        - exists 0. split; [done|]. apply uint_0. by destruct o. }
      exists x'. split_and!; try done; [by eapply val_dead|]. intros Hl'. by destruct Hl. }
  exists (vd_op d), x'. split_and!; try done. unfold value_op, bind, gets, id. by rewrite Hd.
Qed.

Lemma wp_emit_folded b f t lhs rhs x y z gpc c1 m1 :
  inv b -> arch_is b c1 m1 -> folds_to f t lhs rhs x y z -> val b lhs I64 x -> val b rhs I64 y ->
  wp (emit_folded f gpc) b (fun v b' => arch_is b' c1 m1 /\ val b' v t z).
Proof.
  intros Hi Ha Hf Hx Hy. destruct f as [v|v|p|v]; cbn [folds_to folded_is emit_folded] in *.
  - destruct Hf as (-> & Hs & <-). by apply wp_const_i32.
  - destruct Hf as (-> & Hs & <-). by apply wp_const_i64.
  - destruct Hf as (-> & Hs & <-). by apply wp_guest_pc.
  - destruct Hf as (-> & [[-> ->]|[-> ->]]); by apply wp_ret.
Qed.

(** A fold of 32-bit constants never names an operand. *)
Lemma wp_emit_const b f t z gpc c1 m1 :
  inv b -> arch_is b c1 m1 -> folded_is f t z ->
  wp (emit_folded f gpc) b (fun v b' => arch_is b' c1 m1 /\ val b' v t z).
Proof.
  intros Hi Ha Hf. destruct f as [v|v|p|v]; cbn [folded_is emit_folded] in *; [..|done].
  - destruct Hf as (-> & Hs & <-). by apply wp_const_i32.
  - destruct Hf as (-> & Hs & <-). by apply wp_const_i64.
  - destruct Hf as (-> & Hs & <-). by apply wp_guest_pc.
Qed.

Lemma wp_push_binary b op lhs rhs x y gpc c1 m1 :
  inv b -> arch_is b c1 m1 -> val b lhs (input_type op) x -> val b rhs (input_type op) y ->
  wp (push (result_type op) (Op.Binary op lhs rhs) gpc) b
    (fun v b' => arch_is b' c1 m1 /\ val b' v (result_type op) (binary_value op x y)).
Proof.
  intros Hi Ha Hx Hy.
  eapply wp_mono; [apply (wp_pure b (result_type op) (Op.Binary op lhs rhs) gpc c1 m1 (binary_value op x y) Hi Ha)|].
  - split_and!; [done| |done]. constructor; [apply Hx|]. constructor; [apply Hy|constructor].
  - intros rho c m E Hd. unfold exec_value, bind, gets, ret, id. cbv zeta.
    rewrite (proj2 Hx rho _ E), (proj2 Hy rho _ E). split_and!; [done| |done].
    assert (live b) as Hl by (by eexists _, _).
    apply binary_value_uint; [apply (val_uint _ _ _ _ _ _ Hi Hx Hl)|apply (val_uint _ _ _ _ _ _ Hi Hy Hl)].
  - by intros ? ? _ _ (_ & _ & ? & ?).
Qed.

Lemma wp_binary_eq b (m : Build ValueId) t x y x' y' (f : Z -> Z -> Z) c1 m1 :
  wp m b (fun v b' => arch_is b' c1 m1 /\ val b' v t (f x' y')) ->
  when b (x' = x) -> when b (y' = y) ->
  wp m b (fun v b' => arch_is b' c1 m1 /\ val b' v t (f x y)).
Proof.
  intros Hw Hx Hy. eapply wp_mono; [exact Hw|]. intros v b' _ Hle [Ha Hv]. split; [done|].
  eapply val_eq; [exact Hv|]. intros Hl. pose proof (live_le _ _ _ Hle Hl) as Hl'.
  by rewrite (Hx Hl'), (Hy Hl').
Qed.

(** A step that only looks at the builder. *)
Lemma wp_look {A C} (m : Build A) (k : A -> Build C) b a Q :
  m b = (Ok a, b) -> wp (k a) b Q -> wp (bind m k) b Q.
Proof.
  intros Hm (c & b' & Hc & Hr). exists c, b'. unfold bind. by rewrite Hm.
Qed.

Lemma as_const_i64_Some op v : as_const_i64 op = Some v -> op = Op.ConstI64 v.
Proof. destruct op; try done. by intros [= ->]. Qed.
Lemma as_const_i32_Some op v : as_const_i32 op = Some v -> op = Op.ConstI32 v.
Proof. destruct op; try done. by intros [= ->]. Qed.

Lemma wp_binary b op lhs rhs x y gpc c1 m1 :
  inv b -> arch_is b c1 m1 -> val b lhs (input_type op) x -> val b rhs (input_type op) y ->
  wp (binary op lhs rhs gpc) b
    (fun v b' => arch_is b' c1 m1 /\ val b' v (result_type op) (binary_value op x y)).
Proof.
  intros Hi Ha Hx Hy.
  destruct (value_op_spec b lhs _ x Hi Hx) as (l & x' & El & _ & Ll & Cl & Ul & Hx' & Wx).
  destruct (value_op_spec b rhs _ y Hi Hy) as (r & y' & Er & _ & Lr & Cr & Ur & Hy' & Wy).
  apply (wp_binary_eq b _ _ x y x' y' (binary_value op) c1 m1); [|done|done].
  unfold binary. eapply wp_look; [exact El|]. eapply wp_look; [exact Er|]. cbv zeta.
  pose proof (wp_push_binary b op lhs rhs x' y' gpc c1 m1 Hi Ha Hx' Hy') as Hemit.
  destruct (input_type op) eqn:Ht.
  - destruct (as_const_i32 l) as [a|] eqn:Ea; [|exact Hemit].
    destruct (as_const_i32 r) as [c|] eqn:Ec; [|exact Hemit].
    apply as_const_i32_Some in Ea, Ec. subst l r. simpl in Ll, Lr, Cl, Cr. subst x' y'.
    destruct (fold_const_i32_ok op a c Ht Ll Lr) as (f & -> & Hf).
    eapply wp_look; [done|]. by apply wp_emit_const.
  - destruct (fold_guest_pc op lhs rhs l r) as [f|] eqn:Ef.
    { eapply wp_emit_folded; [done|done|by eapply fold_guest_pc_ok|done|done]. }
    assert (wp match fold_identity op lhs rhs r with
      | Some f => emit_folded f gpc
      | None => push (result_type op) (Op.Binary op lhs rhs) gpc end b
      (fun v b' => arch_is b' c1 m1 /\ val b' v (result_type op) (binary_value op x' y'))) as Hid.
    { destruct (fold_identity op lhs rhs r) as [f|] eqn:Ei; [|exact Hemit].
      eapply wp_emit_folded; [done|done|by eapply fold_identity_ok|done|done]. }
    destruct (as_const_i64 l) as [a|] eqn:Ea; [|exact Hid].
    destruct (as_const_i64 r) as [c|] eqn:Ec; [|exact Hid].
    apply as_const_i64_Some in Ea, Ec. subst l r. simpl in Ll, Lr, Cl, Cr. subst x' y'.
    destruct (fold_const_i64_ok op a c Ht Ll Lr) as (f & -> & Hf).
    eapply wp_look; [done|]. by apply wp_emit_const.
Qed.

Lemma wp_divide b op lhs rhs x y gpc c1 m1 :
  inv b -> arch_is b c1 m1 -> val b lhs (value_type op) x -> val b rhs (value_type op) y ->
  wp (divide op lhs rhs gpc) b
    (fun v b' => arch_is b' c1 m1 /\ val b' v (value_type op) (default 0 (guarded_divide op x y))).
Proof.
  intros Hi Ha Hx Hy.
  destruct (value_op_spec b lhs _ x Hi Hx) as (l & x' & El & _ & Ll & Cl & Ul & Hx' & Wx).
  destruct (value_op_spec b rhs _ y Hi Hy) as (r & y' & Er & _ & Lr & Cr & Ur & Hy' & Wy).
  apply (wp_binary_eq b _ _ x y x' y' (fun x y => default 0 (guarded_divide op x y)) c1 m1); [|done|done].
  unfold divide. eapply wp_look; [exact El|]. eapply wp_look; [exact Er|].
  assert (wp (push (value_type op) (Op.Divide op lhs rhs) gpc) b (fun v b' => arch_is b' c1 m1
    /\ val b' v (value_type op) (default 0 (guarded_divide op x' y')))) as Hemit.
  { eapply wp_mono; [apply (wp_pure b _ (Op.Divide op lhs rhs) gpc c1 m1
      (default 0 (guarded_divide op x' y')) Hi Ha)|].
    - split_and!; [done| |done]. constructor; [apply Hx|]. constructor; [apply Hy|constructor].
    - intros rho c m E Hd. unfold exec_value, bind, gets, id. cbv zeta.
      rewrite (proj2 Hx' rho _ E), (proj2 Hy' rho _ E).
      destruct (guarded_divide_total op x' y') as [z Hz]. rewrite Hz.
      split_and!; [done| |done]. exact (guarded_divide_uint _ _ _ _ Ul Ur Hz).
    - by intros ? ? _ _ (_ & _ & ? & ?). }
  destruct (value_type op) eqn:Ht.
  - destruct (as_const_i32 l) as [a|] eqn:Ea; [|exact Hemit].
    destruct (as_const_i32 r) as [c|] eqn:Ec; [|exact Hemit].
    apply as_const_i32_Some in Ea, Ec. subst l r. simpl in Ll, Lr, Cl, Cr. subst x' y'.
    destruct (fold_divide_i32_ok op a c Ht Ll Lr) as (f & -> & Hf & ->).
    eapply wp_look; [done|]. by apply wp_const_i32.
  - destruct (as_const_i64 l) as [a|] eqn:Ea; [|exact Hemit].
    destruct (as_const_i64 r) as [c|] eqn:Ec; [|exact Hemit].
    apply as_const_i64_Some in Ea, Ec. subst l r. simpl in Ll, Lr, Cl, Cr. subst x' y'.
    destruct (fold_divide_i64_ok op a c Ht Ll Lr) as (f & -> & Hf & ->).
    eapply wp_look; [done|]. by apply wp_const_i64.
Qed.

Lemma wp_wrap_i32 b v x gpc c1 m1 :
  inv b -> arch_is b c1 m1 -> val b v I64 x ->
  wp (wrap_i32 v gpc) b (fun r b' => arch_is b' c1 m1 /\ val b' r I32 (u32 x)).
Proof.
  intros Hi Ha Hx.
  destruct (value_op_spec b v _ x Hi Hx) as (l & x' & El & _ & Ll & Cl & Ul & Hx' & Wx).
  apply (wp_binary_eq b _ _ x 0 x' 0 (fun x _ => u32 x) c1 m1); [|done|by intros _].
  unfold wrap_i32. eapply wp_look; [exact El|]. destruct (as_const_i64 l) as [a|] eqn:Ea.
  - apply as_const_i64_Some in Ea. subst l. simpl in Ll, Cl. subst x'.
    eapply wp_mono; [apply wp_const_i32; try done; by apply (sint_signed 32)|].
    intros r b' _ _ [? Hv]. split; [done|].
    assert (u32 (i32 a) = u32 (u64 a)) as <-; [|done].
    unfold u32, i32. rewrite wrap_of_signed by done. unfold u64, wrap. symmetry.
    apply Z.mod_mod_divide. by exists (2 ^ 32).
  - eapply wp_mono; [apply (wp_pure b I32 (Op.WrapI64ToI32 v) gpc c1 m1 (u32 x') Hi Ha)|].
    + split_and!; [done| |done]. constructor; [apply Hx|constructor].
    + intros rho c m E Hd. unfold exec_value, bind, gets, id, ret. cbv zeta.
      rewrite (proj2 Hx' rho _ E). split_and!; [done|apply uint_u32|done].
    + by intros ? ? _ _ (_ & _ & ? & ?).
Qed.

Lemma wp_extend_i32_s b v x gpc c1 m1 :
  inv b -> arch_is b c1 m1 -> val b v I32 x ->
  wp (extend_i32_s v gpc) b (fun r b' => arch_is b' c1 m1 /\ val b' r I64 (sext32 x)).
Proof.
  intros Hi Ha Hx.
  destruct (value_op_spec b v _ x Hi Hx) as (l & x' & El & _ & Ll & Cl & Ul & Hx' & Wx).
  apply (wp_binary_eq b _ _ x 0 x' 0 (fun x _ => sext32 x) c1 m1); [|done|by intros _].
  unfold extend_i32_s. eapply wp_look; [exact El|]. destruct (as_const_i32 l) as [a|] eqn:Ea.
  - apply as_const_i32_Some in Ea. subst l. simpl in Ll, Cl. subst x'.
    eapply wp_mono; [apply wp_const_i64; try done; unfold sint in *; lia|].
    intros r b' _ _ [? Hv]. split; [done|]. unfold sext32, i32, u32. by rewrite signed_of_wrap.
  - eapply wp_mono; [apply (wp_pure b I64 (Op.ExtendI32S v) gpc c1 m1 (sext32 x') Hi Ha)|].
    + split_and!; [done| |done]. constructor; [apply Hx|constructor].
    + intros rho c m E Hd. unfold exec_value, bind, gets, id, ret. cbv zeta.
      rewrite (proj2 Hx' rho _ E). split_and!; [done|apply uint_sext32|done].
    + by intros ? ? _ _ (_ & _ & ? & ?).
Qed.

Lemma wp_extend_i32_u b v x gpc c1 m1 :
  inv b -> arch_is b c1 m1 -> val b v I32 x ->
  wp (extend_i32_u v gpc) b (fun r b' => arch_is b' c1 m1 /\ val b' r I64 x).
Proof.
  intros Hi Ha Hx.
  destruct (value_op_spec b v _ x Hi Hx) as (l & x' & El & _ & Ll & Cl & Ul & Hx' & Wx).
  apply (wp_binary_eq b _ _ x 0 x' 0 (fun x _ => x) c1 m1); [|done|by intros _].
  unfold extend_i32_u. eapply wp_look; [exact El|].
  assert (uint 64 x') as Hu by (eapply uint_mono; [|exact Ul]; simpl; lia).
  destruct (as_const_i32 l) as [a|] eqn:Ea.
  - apply as_const_i32_Some in Ea. subst l. simpl in Ll, Cl. subst x'.
    eapply wp_mono; [apply wp_const_i64; try done|].
    { destruct (uint_u32 a). unfold sint. simpl. lia. }
    intros r b' _ _ [? Hv]. split; [done|]. unfold u64 in Hv. by rewrite wrap_small in Hv.
  - eapply wp_mono; [apply (wp_pure b I64 (Op.ExtendI32U v) gpc c1 m1 x' Hi Ha)|].
    + split_and!; [done| |done]. constructor; [apply Hx|constructor].
    + intros rho c m E Hd. unfold exec_value, bind, gets, id, ret. cbv zeta.
      by rewrite (proj2 Hx' rho _ E).
    + by intros ? ? _ _ (_ & _ & ? & ?).
Qed.

Lemma wp_select_i64 b cond t f x y z gpc c1 m1 :
  inv b -> arch_is b c1 m1 -> val b cond I32 x -> val b t I64 y -> val b f I64 z ->
  wp (select_i64 cond t f gpc) b
    (fun r b' => arch_is b' c1 m1 /\ val b' r I64 (if negb (x =? 0) then y else z)).
Proof.
  intros Hi Ha Hx Hy Hz. unfold select_i64. case_bool_decide as Htf.
  { subst f. apply wp_ret; [done|]. split; [done|]. eapply val_eq; [exact Hy|].
    intros (rho & s & E). rewrite <- (proj2 Hy rho s E), <- (proj2 Hz rho s E). by destruct (negb _). }
  destruct (value_op_spec b cond _ x Hi Hx) as (l & x' & El & _ & Ll & Cl & Ul & Hx' & Wx).
  apply (wp_binary_eq b _ _ x 0 x' 0 (fun x _ => if negb (x =? 0) then y else z) c1 m1); [|done|by intros _].
  eapply wp_look; [exact El|]. destruct (as_const_i32 l) as [a|] eqn:Ea.
  - apply as_const_i32_Some in Ea. subst l. simpl in Ll, Cl. subst x'. apply wp_ret; [done|].
    split; [done|]. rewrite (wrap_zero 32) by done. by destruct (negb _).
  - eapply wp_mono; [apply (wp_pure b I64 (Op.SelectI64 cond t f) gpc c1 m1 (if negb (x' =? 0) then y else z) Hi Ha)|].
    + split_and!; [done| |done]. constructor; [apply Hx|]. constructor; [apply Hy|]. constructor; [apply Hz|constructor].
    + intros rho c m E Hd. unfold exec_value, bind, gets, id, ret. cbv zeta.
      rewrite (proj2 Hx' rho _ E), (proj2 Hy rho _ E), (proj2 Hz rho _ E). split_and!; [done| |done].
      assert (live b) as Hl by (by eexists _, _). pose proof (val_uint _ _ _ _ _ _ Hi Hy Hl).
      pose proof (val_uint _ _ _ _ _ _ Hi Hz Hl). by destruct (negb _).
    + by intros ? ? _ _ (_ & _ & ? & ?).
Qed.

Lemma wp_mul_high b kind lhs rhs x y gpc c1 m1 :
  inv b -> arch_is b c1 m1 -> val b lhs I64 x -> val b rhs I64 y ->
  wp (mul_high kind lhs rhs gpc) b
    (fun r b' => arch_is b' c1 m1 /\ val b' r I64 (mul_high_value kind x y)).
Proof.
  intros Hi Ha Hx Hy.
  eapply (wp_mono _ _ _ _ (fun r b' => arch_is b' c1 m1 /\ val b' r I64
    (let high := limb_chain x y in
     let high := match kind with
                 | UnsignedUnsigned => high
                 | _ => sub64 high (if negb (Z.b2z (i64 x <? 0) =? 0) then y else 0)
                 end in
     match kind with
     | SignedSigned => sub64 high (if negb (Z.b2z (i64 y <? 0) =? 0) then x else 0)
     | _ => high
     end))).
  2: { intros r b' Hi' Hle [Ha' Hv]. split; [done|]. eapply val_eq; [exact Hv|]. intros Hl.
       pose proof (live_le _ _ _ Hle Hl) as Hl'.
       rewrite mul_high_chain by (apply (val_uint _ _ _ _ _ _ Hi Hx Hl') || apply (val_uint _ _ _ _ _ _ Hi Hy Hl')).
       by destruct kind, (i64 x <? 0), (i64 y <? 0). }
  unfold mul_high. wp_step wp_const_i64 as mask Hmask. wp_step wp_const_i64 as shift Hshift.
  wp_step (wp_binary _ I64And) as xl Hxl. wp_step (wp_binary _ I64ShrU) as xh Hxh.
  wp_step (wp_binary _ I64And) as yl Hyl. wp_step (wp_binary _ I64ShrU) as yh Hyh.
  wp_step (wp_binary _ I64Mul) as lp Hlp.
  wp_step (wp_binary _ I64ShrU) as lc Hlc. wp_step (wp_binary _ I64Mul) as cr Hcr.
  wp_step (wp_binary _ I64Add) as cwc Hcwc. wp_step (wp_binary _ I64And) as cl Hcl.
  wp_step (wp_binary _ I64ShrU) as ch Hch. wp_step (wp_binary _ I64Mul) as rc Hrc.
  wp_step (wp_binary _ I64Add) as rwc Hrwc. wp_step (wp_binary _ I64ShrU) as rca Hrca.
  wp_step (wp_binary _ I64Mul) as hp Hhp. wp_step (wp_binary _ I64Add) as h1 Hh1.
  wp_step (wp_binary _ I64Add) as h2 Hh2.
  match type of Hh2 with DbtInv.val _ _ _ _ ?z => change z with (limb_chain x y) in Hh2 end.
  assert (forall b2 hi z w u v0, inv b2 -> arch_is b2 c1 m1 -> val b2 hi I64 z -> val b2 w I64 v0 ->
    forall o, val b2 o I64 u ->
    wp (zero <- const_i64 0 gpc ;; negative <- binary I64LtS w zero gpc ;;
        correction <- select_i64 negative o zero gpc ;; binary I64Sub hi correction gpc) b2
      (fun r b' => arch_is b' c1 m1
         /\ val b' r I64 (sub64 z (if negb (Z.b2z (i64 v0 <? 0) =? 0) then u else 0)))) as Hcorr.
  { intros b2 hi z w u v0 Hi2 Ha2 Hz Hw o Ho. wp_step wp_const_i64 as zero Hzero.
    wp_step (wp_binary _ I64LtS) as neg Hneg. wp_step wp_select_i64 as corr Hcorr.
    by apply (wp_binary _ I64Sub). }
  destruct kind; cbv zeta.
  - eapply wp_bind; [by eapply Hcorr|]. intros h3 b3 Hi3 Hle [Ha3 Hh3]. advance Hle. by eapply Hcorr.
  - eapply wp_bind; [by eapply Hcorr|]. intros h3 b3 Hi3 Hle [Ha3 Hh3]. by apply wp_ret.
  - eapply wp_look; [done|]. by apply wp_ret.
Qed.

(** ** Operations that may leave *)

(** The state published at a side exit to [target]. *)
Definition exit_state (target : Z) (c1 : Cpu) : Cpu :=
  set_insn_count (fst s0).(insn_count) (set_pc target c1).

Lemma exit_commits b rho c m target c1 m1 e retired :
  inv b -> arch_is b c1 m1 -> status b = (Ok rho, (c, m)) ->
  side_exit target retired b = (Ok e, b) ->
  side_exit_state e rho c = exit_state target c1.
Proof.
  intros Hi Ha E He. pose proof (inv_live _ _ _ _ _ _ Hi E) as Hd.
  destruct (side_exit_spec b target retired (inv_static _ _ _ Hi)) as (e' & He' & _ & _ & _ & _ & Hst).
  rewrite He in He'. injection He' as <-. pose proof (di_user _ _ _ _ Hd) as Hu.
  rewrite Hst by (apply (uh_xregs c Hu) || apply (uh_fregs c Hu)).
  destruct (Ha rho c m E) as [_ ->]. unfold exit_state. rewrite <- (di_count _ _ _ _ Hd).
  reflexivity.
Qed.

(** What executing a pushed effect must give, towards the state [c2], [m2]. *)
Definition effect_good (b : Builder) (e : Effect.t) (c2 : Cpu) (m2 : B) : Prop :=
  forall rho c m, status b = (Ok rho, (c, m)) -> dinv b rho c ->
    match exec_effect e rho (c, m) with
    | (Ok _, (c', m')) =>
        dinv b rho c' /\ m' = m2
        /\ c2 = set_insn_count c2.(insn_count) (set_pc c2.(pc) (commits b rho c'))
    | (Err k, s') => left_ok k s'
    | (Panic, _) => False
    end.

(** A fact that holds where the effect is passed. *)
Definition effect_passes (b : Builder) (e : Effect.t) (P : Prop) : Prop :=
  forall rho c m s', status b = (Ok rho, (c, m)) -> exec_effect e rho (c, m) = (Ok tt, s') -> P.

Lemma wp_effect b (e : nat -> Effect.t) c2 m2 P :
  inv b -> Effect.position (e (length b.(b_values))) = length b.(b_values) ->
  effect_ok b.(b_values) (e (length b.(b_values))) ->
  effect_good b (e (length b.(b_values))) c2 m2 ->
  effect_passes b (e (length b.(b_values))) P ->
  wp (push_effect e) b (fun _ b' => arch_is b' c2 m2 /\ when b' P).
Proof.
  intros [Hs Hst] Hp Hok Hg Hpass. unfold push_effect, modify. set (e' := e (length (b_values b))) in *.
  pose proof (status_effected b e' Hs Hp) as Heq.
  exists tt, (effected b e'). unfold effect_good, effect_passes in *.
  destruct (status b) as [[rho|k|] [c m]] eqn:E; [| |done].
  - specialize (Hg rho c m eq_refl Hst).
    assert (forall rho' s', status (effected b e') = (Ok rho', s') -> rho' = rho
      /\ exec_effect e' rho (c, m) = (Ok tt, s')) as Hlive.
    { intros rho' s'. rewrite Heq. destruct (exec_effect e' rho (c, m)) as [[[]|k|] s2]; try done.
      by intros [= <- <-]. }
    split_and!; [done| | | |].
    + split; [by apply sinv_effected|]. rewrite Heq.
      destruct (exec_effect e' rho (c, m)) as [[[]|k|] [c' m']]; [|done..].
      destruct Hg as (Hd & _). destruct Hd; by split.
    + split_and!; [exists []; by rewrite app_nil_r|done|]. intros rho' s' Hl.
      destruct (Hlive _ _ Hl) as [-> _]. exists rho, (c, m), []. rewrite app_nil_r.
      split_and!; [done..|]. by apply (di_len _ _ _ _ Hst).
    + intros rho' c' m' Hl. destruct (Hlive _ _ Hl) as [-> Hx]. rewrite Hx in Hg. tauto.
    + intros (rho' & s' & Hl). destruct (Hlive _ _ Hl) as [-> Hx]. by eapply Hpass.
  - split_and!; [done| | | |].
    + split; [by apply sinv_effected|]. by rewrite Heq.
    + split_and!; [exists []; by rewrite app_nil_r|done|]. by rewrite Heq.
    + intros rho' c' m'. by rewrite Heq.
    + intros (rho' & s' & Hl). by rewrite Heq in Hl.
Qed.

Lemma wp_guard b cond x target retired c1 m1 :
  inv b -> arch_is b c1 m1 -> val b cond I32 x ->
  when b (x <> 0 -> left_ok retired (exit_state target c1, m1)) ->
  wp (guard cond target retired) b (fun _ b' => arch_is b' c1 m1 /\ when b' (x = 0)).
Proof.
  intros Hi Ha Hx Hl. unfold guard.
  destruct (side_exit_spec b target retired (inv_static _ _ _ Hi)) as (e & He & _ & Hr & Ht & Hregs & _).
  eapply wp_look; [exact He|]. apply wp_effect; [done|done| | |].
  - split_and!; [|done|done]. constructor; [apply Hx|done].
  - intros rho c m E Hd. cbn [exec_effect]. rewrite (proj2 Hx rho _ E).
    destruct (Ha rho c m E) as [Em Ec]. destruct (Z.eqb_spec x 0) as [->|Hne]; simpl.
    { done. }
    unfold leave, bind, on_fst, modify, throw. simpl.
    rewrite (exit_commits _ _ _ _ _ _ _ _ _ Hi Ha E He), Hr, Em. apply Hl; [by eexists _, _|done].
  - intros rho c m s' E. cbn [exec_effect]. rewrite (proj2 Hx rho _ E).
    destruct (Z.eqb_spec x 0) as [->|Hne]; simpl; done.
Qed.

Lemma wp_guard_target b t x expected retired c1 m1 :
  inv b -> arch_is b c1 m1 -> val b t I64 x ->
  when b (x <> expected -> left_ok retired (exit_state x c1, m1)) ->
  wp (guard_target t expected retired) b (fun _ b' => arch_is b' c1 m1 /\ when b' (x = expected)).
Proof.
  intros Hi Ha Hx Hl. unfold guard_target.
  destruct (side_exit_spec b expected retired (inv_static _ _ _ Hi)) as (e & He & _ & Hr & Ht & Hregs & _).
  eapply wp_look; [exact He|]. apply wp_effect; [done|done| | |].
  - split_and!; [|done|done]. constructor; [apply Hx|done].
  - intros rho c m E Hd. cbn [exec_effect]. rewrite (proj2 Hx rho _ E).
    destruct (Ha rho c m E) as [Em Ec]. destruct (Z.eqb_spec x expected) as [->|Hne]; simpl.
    { done. }
    unfold bind, on_fst, modify, throw. simpl.
    rewrite (exit_commits _ _ _ _ _ _ _ _ _ Hi Ha E He), Hr, Em. apply Hl; [by eexists _, _|done].
  - intros rho c m s' E. cbn [exec_effect]. rewrite (proj2 Hx rho _ E).
    destruct (Z.eqb_spec x expected) as [->|Hne]; simpl; done.
Qed.

(** ** Memory *)

Context `{!GuestMemoryOk B}.

Lemma wp_load b a kind x gpc retired c1 m1 :
  inv b -> arch_is b c1 m1 -> when b (guest_wf m1) -> val b a I64 x ->
  when b (left_ok retired (exit_state gpc c1, m1)) ->
  wp (load a kind gpc retired) b (fun v b' =>
    arch_is b' c1 m1
    /\ val b' v I64 (extend_load kind (default 0 (jit_load (LoadKind.bytes kind) x m1)))
    /\ when b' (is_Some (jit_load (LoadKind.bytes kind) x m1))).
Proof.
  intros Hi Ha Hm Hx Hl. unfold load.
  destruct (side_exit_spec b gpc retired (inv_static _ _ _ Hi)) as (e & He & _ & Hr & Ht & Hregs & _).
  eapply wp_look; [exact He|]. eapply wp_mono; [apply (wp_value b I64 (Op.Load a kind e) gpc
    (extend_load kind (default 0 (jit_load (LoadKind.bytes kind) x m1))) c1 m1
    (is_Some (jit_load (LoadKind.bytes kind) x m1)) Hi)|].
  - split_and!; [done| |done]. constructor; [apply Hx|done].
  - intros rho c m E Hd. destruct (Ha rho c m E) as [Em Hc1]. assert (live b) as Hlv by (by eexists _, _).
    cbn [vd_op vd_ty]. unfold exec_value, exec_load_value, bind, gets, id. cbn [fst snd].
    rewrite (proj2 Hx rho _ E), Em. destruct (jit_load _ x m1) as [w|] eqn:Ej.
    + unfold ret. split_and!; try done. apply extend_load_uint.
      eapply jit_load_ok; [apply load_width|by apply Hm| |exact Ej]. apply (val_uint _ _ _ _ _ _ Hi Hx Hlv).
    + unfold leave, bind, on_fst, modify, throw. simpl.
      rewrite (exit_commits _ _ _ _ _ _ _ _ _ Hi Ha E He), Hr. by apply Hl.
  - by intros ? ? _ _ (_ & _ & ? & ? & ?).
Qed.

(** What a store does when it is reached. *)
Lemma exec_store_spec b a v kind x y gpc retired e rho c m c1 m1 :
  inv b -> arch_is b c1 m1 -> val b a I64 x -> val b v I64 y -> status b = (Ok rho, (c, m)) ->
  side_exit gpc retired b = (Ok e, b) -> e.(se_retired) = retired ->
  m = m1
  /\ exec_store_value (local rho a) (local rho v) kind e rho (c, m)
     = match jit_store (StoreKind.bytes kind) x y m1 with
       | Some m' => (Ok tt, (c, m'))
       | None => (Err retired, (exit_state gpc c1, m1))
       end.
Proof.
  intros Hi Ha Hx Hy E He Hr. destruct (Ha rho c m E) as [<- _]. split; [done|].
  unfold exec_store_value, bind, gets, id. cbn [fst snd].
  rewrite (proj2 Hx rho _ E), (proj2 Hy rho _ E). destruct (jit_store _ x y m); [done|].
  unfold leave, bind, on_fst, modify, throw. simpl.
  by rewrite (exit_commits _ _ _ _ _ _ _ _ _ Hi Ha E He), Hr.
Qed.

Lemma wp_store b a v kind x y gpc retired c1 m1 :
  inv b -> arch_is b c1 m1 -> val b a I64 x -> val b v I64 y ->
  when b (left_ok retired (exit_state gpc c1, m1)) ->
  wp (store a v kind gpc retired) b (fun _ b' =>
    arch_is b' c1 (default m1 (jit_store (StoreKind.bytes kind) x y m1))
    /\ when b' (is_Some (jit_store (StoreKind.bytes kind) x y m1))).
Proof.
  intros Hi Ha Hx Hy Hl. unfold store.
  destruct (side_exit_spec b gpc retired (inv_static _ _ _ Hi)) as (e & He & _ & Hr & Ht & Hregs & _).
  eapply wp_look; [exact He|]. apply wp_effect; [done|done| | |].
  - split_and!; [|done|done]. constructor; [apply Hx|]. constructor; [apply Hy|done].
  - intros rho c m E Hd. cbn [exec_effect].
    destruct (exec_store_spec b a v kind x y gpc retired e rho c m c1 m1) as [Em ->]; try done.
    destruct (jit_store _ x y m1); simpl; [|apply Hl; by eexists _, _].
    split_and!; [done|done|]. apply (Ha rho c m E).
  - intros rho c m s' E. cbn [exec_effect].
    destruct (exec_store_spec b a v kind x y gpc retired e rho c m c1 m1) as [Em ->]; try done.
    by destruct (jit_store _ x y m1).
Qed.

(** The reservation is not a register of the builder. *)
Lemma dinv_reservation b rho c r : dinv b rho c -> dinv b rho (set_reservation r c).
Proof. intros [Hl Hv Hc Hcf Hcc Hu Hn]. split; try done. destruct Hu; by split. Qed.

Lemma arch_reservation b rho c m c1 m1 r :
  arch_is b c1 m1 -> status b = (Ok rho, (c, m)) ->
  set_reservation r c1
  = set_insn_count (set_reservation r c1).(insn_count)
      (set_pc (set_reservation r c1).(pc) (commits b rho (set_reservation r c))).
Proof. intros Ha E. destruct (Ha rho c m E) as [_ Hc1]. rewrite Hc1 at 1. reflexivity. Qed.

Lemma wp_store_conditional b cond a v kind w x y gpc retired c1 m1 :
  inv b -> arch_is b c1 m1 -> val b cond I32 w -> val b a I64 x -> val b v I64 y ->
  paired b.(b_values) cond a = true ->
  when b (left_ok retired (exit_state gpc c1, m1)) ->
  wp (store_conditional cond a v kind gpc retired) b (fun _ b' =>
    arch_is b' (set_reservation None c1)
      (if w =? 0 then m1 else default m1 (jit_store (StoreKind.bytes kind) x y m1))
    /\ when b' (w <> 0 -> is_Some (jit_store (StoreKind.bytes kind) x y m1))).
Proof.
  intros Hi Ha Hw Hx Hy Hp Hl. unfold store_conditional.
  destruct (side_exit_spec b gpc retired (inv_static _ _ _ Hi)) as (e & He & _ & Hr & Ht & Hregs & _).
  eapply wp_look; [exact He|]. apply wp_effect; [done|done| | |].
  - split_and!; [|done|done].
    constructor; [apply Hx|]. constructor; [apply Hy|]. constructor; [apply Hw|done].
  - intros rho c m E Hd. cbn [exec_effect]. rewrite (proj2 Hw rho _ E). unfold bind at 1.
    destruct (exec_store_spec b a v kind x y gpc retired e rho c m c1 m1) as [Em Hst]; try done.
    destruct (Z.eqb_spec w 0) as [->|Hne]; cbn [negb].
    + unfold ret, on_fst, modify. simpl. split_and!; [by apply dinv_reservation|done|].
      by eapply arch_reservation.
    + rewrite Hst. destruct (jit_store _ x y m1); simpl; [|apply Hl; by eexists _, _].
      split_and!; [by apply dinv_reservation|done|]. by eapply arch_reservation.
  - intros rho c m s' E. cbn [exec_effect]. rewrite (proj2 Hw rho _ E). unfold bind at 1.
    destruct (exec_store_spec b a v kind x y gpc retired e rho c m c1 m1) as [Em Hst]; try done.
    destruct (Z.eqb_spec w 0) as [->|Hne]; [done|]. cbn [negb]. rewrite Hst. by destruct (jit_store _ x y m1).
Qed.

Lemma wp_load_reserved b a x gpc c1 m1 :
  inv b -> arch_is b c1 m1 -> val b a I64 x ->
  wp (reservation LoadReserved a gpc) b (fun v b' => arch_is b' (set_reservation (Some x) c1) m1).
Proof.
  intros Hi Ha Hx. eapply wp_mono; [apply (wp_value b I32 (Op.Reservation LoadReserved a) gpc 1
    (set_reservation (Some x) c1) m1 True Hi)|].
  - split_and!; [done| |done]. constructor; [apply Hx|constructor].
  - intros rho c m E Hd. cbn [vd_op vd_ty]. unfold exec_value, bind, gets, id. cbv zeta.
    rewrite (proj2 Hx rho _ E). unfold on_fst, modify, ret. cbn [fst snd].
    destruct (Ha rho c m E) as [Em _].
    split_and!; [done|done|by eapply arch_reservation|by apply dinv_reservation|uint_lit|done|done].
  - by intros ? ? _ _ (_ & _ & ? & _).
Qed.

Lemma wp_store_reserved b a x gpc c1 m1 :
  inv b -> arch_is b c1 m1 -> val b a I64 x ->
  wp (reservation StoreConditional a gpc) b (fun v b' =>
    (arch_is b' c1 m1 /\ val b' v I32 (Z.b2z (bool_decide (State.reservation c1 = Some x))))
    /\ paired b'.(b_values) v a = true).
Proof.
  intros Hi Ha Hx. eapply wp_mono; [apply (wp_pure b I32 (Op.Reservation StoreConditional a) gpc c1 m1
    (Z.b2z (bool_decide (State.reservation c1 = Some x))) Hi Ha)|].
  - split_and!; [done| |done]. constructor; [apply Hx|constructor].
  - intros rho c m E Hd. unfold exec_value, bind, gets, id, ret. cbv zeta. cbn [fst].
    rewrite (proj2 Hx rho _ E). destruct (Ha rho c m E) as [_ Hc1].
    assert (State.reservation c1 = State.reservation c) as -> by (by rewrite Hc1).
    split_and!; [done|by apply uint_b2z|done].
  - intros v b' _ _ (-> & -> & Ha' & Hv). split_and!; [done..|].
    unfold paired. cbn [pushed b_values]. rewrite lookup_app_r, Nat.sub_diag by lia.
    cbn. by apply bool_decide_eq_true_2.
Qed.
End BuildSpec.
