(* ===== verification/DbtSim.v ===== *)
(** * Lifted instructions simulate the interpreter

    [snapshot_step] is one instruction of the interpreter fetched from the code
    snapshot a region is lifted from; it is defined where the instruction
    retires without a trap or a stop.  [lift_insn_sim]: an instruction the
    lifter accepts extends the region by code that, where it does not leave,
    moves the architectural state by one [snapshot_step], and that leaves only
    at an instruction boundary. *)

From S2P Require Import Prelude Exception Decode Compressed Csr State Bus Mmu Trap CsrOps Vector SoftFp Exec Wf.
From S2P Require Import ExecSpec DbtVector DbtIr DbtBuilder DbtLift DbtExec DbtDce DbtInv DbtFold DbtBuildSpec.

Section Snapshot.
Context {B : Type} `{Bus B} `{VectorUnit B}.

Definition snapshot_step (code : list Z) (base : Z) (s : Cpu * B) : option (Cpu * B) :=
  let pc := (fst s).(pc) in
  d ← decode_at code base pc;
  match execute d.(d_insn) (add64 pc d.(d_len)) s with
  | (Ok None, s') => Some s'
  | _ => None
  end.

Fixpoint snapshot_steps (code : list Z) (base : Z) (n : nat) (s : Cpu * B) : option (Cpu * B) :=
  match n with
  | O => Some s
  | S n => s' ← snapshot_steps code base n s; snapshot_step code base s'
  end.

(** The caller of a region adds its retired instructions to the counter. *)
Definition retire (n : Z) (s : Cpu * B) : Cpu * B :=
  (set_insn_count (add64 (fst s).(insn_count) n) (fst s), snd s).
End Snapshot.

(** ** Field ranges *)

Lemma reg_range i : uint 5 i -> 0 <= i < 32.
Proof. unfold uint. lia. Qed.

Lemma rd_range insn : 0 <= rd insn < 32.
Proof. apply reg_range, uint_rd. Qed.
Lemma rs1_range insn : 0 <= rs1 insn < 32.
Proof. apply reg_range, uint_rs1. Qed.
Lemma rs2_range insn : 0 <= rs2 insn < 32.
Proof. apply reg_range, uint_rs2. Qed.

Lemma sint_imm_i insn : uint 32 insn -> sint 64 (imm_i insn).
Proof. intros Hu. pose proof (imm_i_range insn Hu). unfold sint. lia. Qed.
Lemma sint_imm_s insn : uint 32 insn -> sint 64 (imm_s insn).
Proof. intros Hu. pose proof (imm_s_range insn Hu). unfold sint. lia. Qed.
Lemma sint_imm_u insn : sint 64 (imm_u insn).
Proof. unfold imm_u, i32. pose proof (signed_range 32 (insn .& 0xfffff000)). unfold sint. lia. Qed.

#[export] Hint Resolve rd_range rs1_range rs2_range sint_imm_i sint_imm_s sint_imm_u : rv.

(** ** User harts *)

Lemma user_wr r x c : user_hart c -> 0 <= r -> uint 64 x -> user_hart (wr r x c).
Proof.
  intros [Hx H0 Hf Hc Hs Hm] Hr Hu. unfold wr. destruct (Z.eqb_spec r 0) as [|Hne]; simpl; [by split|].
  split; try done; cbn [set_xregs xregs]; [by apply arr_set|].
  unfold xr. cbn [set_xregs xregs]. by rewrite aget_aset_other by lia.
Qed.

Lemma user_set_fr r x c : user_hart c -> uint 64 x -> user_hart (set_fr r x c).
Proof. intros [Hx H0 Hf Hc Hs Hm] Hu. split; try done. by apply arr_set. Qed.

Lemma user_set_fcsr x c : user_hart c -> uint 8 x -> user_hart (set_fcsr x c).
Proof. intros [Hx H0 Hf Hc Hs Hm] Hu. by split. Qed.

Lemma user_reservation r c : user_hart c -> user_hart (set_reservation r c).
Proof. intros [Hx H0 Hf Hc Hs Hm]. by split. Qed.

Lemma user_next n p c : user_hart c -> user_hart (set_insn_count n (set_pc p c)).
Proof. intros [Hx H0 Hf Hc Hs Hm]. by split. Qed.

Lemma user_xr c i : user_hart c -> 0 <= i < 32 -> uint 64 (xr c i).
Proof. intros Hu Hi. eapply arr_get; [apply (uh_xregs c Hu)|]. lia. Qed.

Lemma user_fr c i : user_hart c -> 0 <= i < 32 -> uint 64 (fr c i).
Proof. intros Hu Hi. eapply arr_get; [apply (uh_fregs c Hu)|]. lia. Qed.

#[export] Hint Resolve user_wr user_set_fr user_set_fcsr user_reservation user_next user_xr user_fr : rv.

Lemma wr_count r x c : insn_count (wr r x c) = insn_count c.
Proof. unfold wr. by destruct (r =? 0). Qed.

Section UserMemory.
Context {B : Type} `{Bus B} `{GuestMemory B} `{!GuestMemoryOk B}.

(** On a user hart a load that generated code performs is the bus read. *)
Lemma user_ld n a c (m : B) v :
  user_hart c -> guest_wf m -> access_width n -> uint 64 a -> jit_load n a m = Some v ->
  ld n a (c, m) = (Ok v, (c, m)).
Proof.
  intros Hu Hm Hn Ha Hj. destruct (jit_load_ok n a m v Hn Hm Ha Hj) as [Hr _].
  unfold ld, crosses_page, interpreter_fused_ptr. cbn [fst]. rewrite (uh_sys c Hu), (uh_fused c Hu). simpl.
  unfold ld_slow, crosses_page, bind, translate, modify, fill_jtlb. cbn [fst]. rewrite (uh_sys c Hu).
  rewrite guest_not_fast. unfold on_snd. cbn [fst snd]. by rewrite Hr.
Qed.

Lemma user_st_bus n a v c (m : B) : user_hart c -> st n a v (c, m) = on_snd (bus_write n a v) (c, m).
Proof.
  intros Hu. unfold st, crosses_page, interpreter_fused_ptr. cbn [fst].
  rewrite (uh_sys c Hu), (uh_fused c Hu). simpl.
  unfold st_slow, crosses_page, bind, translate, modify, fill_jtlb. cbn [fst]. rewrite (uh_sys c Hu).
  rewrite guest_not_fast. done.
Qed.

(** A word store sees the low word of its value. *)
Lemma user_st_word a v v' c (m : B) : user_hart c -> u32 v = u32 v' -> st 4 a v (c, m) = st 4 a v' (c, m).
Proof. intros Hu Hv. rewrite !user_st_bus by done. unfold bus_write. simpl. by rewrite Hv. Qed.

Lemma user_st n a v c (m m' : B) :
  user_hart c -> guest_wf m -> access_width n -> uint 64 a -> uint 64 v -> jit_store n a v m = Some m' ->
  st n a v (c, m) = (Ok tt, (c, m')) /\ guest_wf m'.
Proof.
  intros Hu Hm Hn Ha Hv Hj. destruct (jit_store_ok n a v m m' Hn Hm Ha Hv Hj) as [Hr Hm'].
  split; [|done]. rewrite user_st_bus by done. unfold on_snd. cbn [fst snd]. by rewrite Hr.
Qed.
End UserMemory.

(** ** Atomic values *)

(** What the AMO stores: the whole value, or its low word. *)
Definition stored (is64 : bool) (x : Z) : Z := if is64 then x else u32 x.

Lemma i64_sext32 x : uint 32 x -> i64 (sext32 x) = i32 x.
Proof.
  intros Hx. unfold sext32. apply (signed_of_wrap 64); [done|].
  pose proof (signed_range 32 x ltac:(done)). unfold sint, i32. lia.
Qed.

(** The comparison operands of the four minimum and maximum operations. *)
Definition amo_operand (is64 unsigned : bool) (x : Z) : Z :=
  if is64 then x else if unsigned then u32 x else sext32 (u32 x).

Lemma amo_min_max is64 funct5 old src :
  uint 64 old -> uint 64 src ->
  In funct5 [0x10; 0x14; 0x18; 0x1c] ->
  let unsigned := (funct5 =? 0x18) || (funct5 =? 0x1c) in
  let is_min := (funct5 =? 0x10) || (funct5 =? 0x18) in
  let lt := binary_value (if unsigned then I64LtU else I64LtS)
              (amo_operand is64 unsigned old) (amo_operand is64 unsigned src) in
  let choose := if is_min then lt else lt .^ 1 in
  exists z, amo_val is64 funct5 old src = Some z
    /\ stored is64 z = stored is64 (if negb (choose =? 0) then old else src).
Proof.
  intros Ho Hs Hf. cbv zeta.
  assert (forall x, u32 (u32 x) = u32 x) as Huu by (intros; apply wrap_wrap).
  pose proof (uint_u32 old) as U1. pose proof (uint_u32 src) as U2.
  unfold amo_operand, amo_val, stored.
  destruct is64; simpl in Hf; destruct Hf as [<-|[<-|[<-|[<-|[]]]]]; cbn [Z.eqb Pos.eqb orb binary_value];
    eexists; (split; [reflexivity|]).
  - by destruct (i64 old <? i64 src).
  - destruct (i64 old <? i64 src); simpl; [done|]. by destruct (Z.eqb_spec old src) as [->|].
  - by destruct (old <? src).
  - destruct (Z.ltb_spec old src), (Z.ltb_spec src old); simpl; lia.
  - rewrite !i64_sext32, !Huu by done. by destruct (_ <? _).
  - rewrite !i64_sext32, !Huu by done. destruct (_ <? _); simpl; [done|].
    by destruct (Z.eqb_spec (u32 old) (u32 src)).
  - by destruct (u32 old <? u32 src).
  - destruct (Z.ltb_spec (u32 old) (u32 src)), (Z.ltb_spec (u32 src) (u32 old)); simpl; done || lia.
Qed.

(** ** One instruction *)

(** A value computed by one operation of the builder, or one comparison. *)
Ltac lift_val :=
  cbn [andb];
  first [ lazymatch goal with
          | |- DbtInv.wp _ _ (binary ?op ?l ?r ?p) ?b _ =>
              lazymatch goal with
              | _ : DbtInv.val _ b l _ ?x, _ : DbtInv.val _ b r _ ?y |- _ =>
                  exact (wp_binary _ _ b op l r x y p _ _ ltac:(eassumption) ltac:(eassumption)
                           ltac:(eassumption) ltac:(eassumption))
              end
          end
        | eapply wp_mul_high; eassumption
        | wp_step wp_binary as cmp Hcmp; eapply wp_extend_i32_u; eassumption ].

(** The same with the value of the interpreter in [op_val] form. *)
Ltac lift_some :=
  eapply wp_mono; [lift_val|];
  intros v b' Hi' Hle' [Ha' Hv]; split; [exact Ha'|]; eexists; split; [exact Hv|]; intros _; reflexivity.

Ltac lift_divide Ul Ur :=
  eapply wp_mono; [eapply wp_divide; eassumption|];
  intros v b' Hi' Hle' [Ha' Hv]; split; [exact Ha'|]; eexists; split; [exact Hv|]; intros Hlv;
  rewrite guarded_divide_spec by (apply Ul || apply Ur; by eapply live_le); reflexivity.

Ltac step_body Hop := split; [done|]; unfold exec_body; rewrite Hop; try done.


Section Instruction.
Context {B : Type} `{Bus B} `{VectorUnit B} `{GuestMemory B} `{!GuestMemoryOk B}.
Context (code : list Z) (base : Z) (s0 : Cpu * B).

(** An execution leaves at a state the interpreter reaches. *)
Definition left_ok (k : Z) (s : Cpu * B) : Prop :=
  0 <= k /\ snapshot_steps code base (Z.to_nat k) s0 = Some (retire k s).

Local Abbreviation inv := (inv s0 left_ok).
Local Abbreviation le := (le s0).
Local Abbreviation val := (val s0).
Local Abbreviation when := (when s0).
Local Abbreviation arch_is := (arch_is s0).
Local Abbreviation wp := (wp s0 left_ok).
Local Abbreviation exit_state := (exit_state s0).

(** The interpreter reaches [c1], [m1] after [n] instructions. *)
Record reached (n : Z) (c1 : Cpu) (m1 : B) : Prop := {
  re_pos : 0 <= n;
  re_steps : snapshot_steps code base (Z.to_nat n) s0 = Some (c1, m1);
  re_count : c1.(insn_count) = add64 (fst s0).(insn_count) n;
  re_user : user_hart c1;
  re_wf : guest_wf m1
}.

Lemma set_count_pc c : set_insn_count c.(insn_count) (set_pc c.(pc) c) = c.
Proof. by destruct c. Qed.

(** Leaving at an instruction that has not retired. *)
Lemma reached_left n c1 m1 pc0 :
  reached n c1 m1 -> c1.(pc) = pc0 -> left_ok n (exit_state pc0 c1, m1).
Proof.
  intros [Hp Hs Hc _ _] <-. split; [done|]. rewrite Hs. unfold retire, DbtBuildSpec.exit_state. simpl.
  f_equal. f_equal. rewrite <- Hc. by destruct c1.
Qed.

Lemma arch_is_next b c1 m1 n p :
  arch_is b c1 m1 -> arch_is b (set_insn_count n (set_pc p c1)) m1.
Proof. intros Ha rho c m E. destruct (Ha rho c m E) as [-> ->]. done. Qed.

Lemma reached_step n c1 m1 d c' m' next :
  reached n c1 m1 -> decode_at code base c1.(pc) = Some d ->
  exec_body d.(d_insn) (add64 c1.(pc) d.(d_len)) (c1, m1) = (Ok (Next next None), (c', m')) ->
  c'.(insn_count) = c1.(insn_count) -> user_hart c' -> guest_wf m' ->
  reached (n + 1) (set_insn_count (add64 c1.(insn_count) 1) (set_pc next c')) m'.
Proof.
  intros [Hp Hs Hc Hu Hw] Hd He Hn Hu' Hw'. split; [lia| | |by apply user_next|done].
  - replace (Z.to_nat (n + 1)) with (S (Z.to_nat n)) by lia. cbn [snapshot_steps]. rewrite Hs.
    cbn [mbind option_bind]. unfold snapshot_step. cbn [fst]. rewrite Hd. cbn [mbind option_bind].
    unfold execute, bind. rewrite He. unfold on_fst, Exec.finish, modify, ret, bind. cbn [fst snd]. by rewrite Hn.
  - cbn [insn_count set_insn_count]. rewrite Hc. unfold add64, u64, wrap. rewrite Zplus_mod_idemp_l. f_equal. lia.
Qed.

(** What a lifted instruction establishes. *)
Definition goes_to (b : Builder) (n : Z) (target : Z) : Prop :=
  exists c2 m2, arch_is b c2 m2 /\ c2.(pc) = target /\ when b (reached n c2 m2).

Context (k : Caps) (insn len : Z) (n : Z) (c1 : Cpu) (m1 : B).
Context (Hinsn : uint 32 insn) (Hdec : decode_at code base c1.(pc) = Some (mkDecoded insn len)).

Local Abbreviation fallthrough := (add64 c1.(pc) len).

Definition outcome_ok (o : StepOutcome) (b : Builder) : Prop :=
  match o with
  | Continue => goes_to b (n + 1) fallthrough
  | ContinueAt t => uint 64 t /\ goes_to b (n + 1) t
  | Exit v | IndirectExit v => exists x, val b v I64 x /\ goes_to b (n + 1) x
  | NotSupported => arch_is b c1 m1
  end.

(** The instruction retires at [next] with the state [c'], [m']. *)
Lemma goes_next b c' m' next :
  arch_is b c' m' -> c'.(insn_count) = c1.(insn_count) ->
  when b (reached n c1 m1) ->
  when b (exec_body insn fallthrough (c1, m1) = (Ok (Next next None), (c', m'))
          /\ user_hart c' /\ guest_wf m') ->
  goes_to b (n + 1) next.
Proof.
  intros Ha Hc Hr He. eexists _, m'. split_and!; [by apply arch_is_next| |].
  2: { intros Hl. destruct (He Hl) as (Hx & Hu & Hw).
       eapply (reached_step n c1 m1 (mkDecoded insn len)); [by apply Hr|done|exact Hx|done|done|done]. }
  done.
Qed.

(** The usual ending: write [rd] and fall through. *)
Lemma wp_write_rd b v x x' :
  inv b -> arch_is b c1 m1 -> when b (reached n c1 m1) -> val b v I64 x ->
  when b (x = x' /\ exec_body insn fallthrough (c1, m1)
            = (Ok (Next fallthrough None), (wr (rd insn) x' c1, m1))) ->
  wp (write_x (rd insn) v ;;; ret Continue) b outcome_ok.
Proof.
  intros Hi Ha Hr Hx He. eapply wp_bind; [apply wp_write_x; eauto with rv|].
  intros [] b' Hi' Hle Ha'. pose proof (val_uint _ _ _ _ _ _ Hi Hx) as Hu. advance Hle.
  apply wp_ret; [done|]. eapply goes_next; [done|apply wr_count|done|].
  intros Hl. destruct (He Hl) as [-> Hex]. split_and!; [done| |by apply Hr].
  apply user_wr; [by apply Hr|apply rd_range|by apply (Hu Hl)].
Qed.

(** The builder at the start of the instruction. *)
Definition at_start (b : Builder) : Prop :=
  inv b /\ arch_is b c1 m1 /\ when b (reached n c1 m1) /\ when b (user_hart c1) /\ when b (guest_wf m1).

Lemma at_start_intro b :
  inv b -> arch_is b c1 m1 -> when b (reached n c1 m1) -> at_start b.
Proof.
  intros Hi Ha Hr. split_and!; [done..| |]; (eapply when_mono; [|exact Hr]); by intros [].
Qed.

Lemma lift_lui_sim b :
  at_start b -> opcode insn = 0x37 ->
  wp (value <- const_i64 (imm_u insn) c1.(pc) ;; write_x (rd insn) value ;;; ret Continue) b outcome_ok.
Proof.
  intros (Hi & Ha & Hr & _) Hop. wp_step wp_const_i64 as v Hv; [apply sint_imm_u|].
  eapply wp_write_rd; [done..|]. intros _. split; [done|]. unfold exec_body. by rewrite Hop.
Qed.

Lemma lift_auipc_sim b :
  at_start b -> opcode insn = 0x17 ->
  wp (value <- guest_pc (add64 c1.(pc) (u64 (imm_u insn))) c1.(pc) ;;
      write_x (rd insn) value ;;; ret Continue) b outcome_ok.
Proof.
  intros (Hi & Ha & Hr & _) Hop. wp_step wp_guest_pc as v Hv; [apply uint_add64|].
  eapply wp_write_rd; [done..|]. intros _. split; [done|]. unfold exec_body. by rewrite Hop.
Qed.

Lemma lift_op_imm_sim b :
  at_start b -> opcode insn = 0x13 -> wp (lift_op_imm insn c1.(pc)) b outcome_ok.
Proof.
  intros (Hi & Ha & Hr & Hu & _) Hop. unfold lift_op_imm.
  wp_step wp_read_x as lhs Hl; [apply rs1_range|].
  wp_step wp_const_i64 as im Him; [by apply sint_imm_i|]. cbv zeta.
  eapply (wp_bind _ _ _ _ _ (fun v b' => arch_is b' c1 m1 /\ val b' v I64 (op_imm_val insn (xr c1 (rs1 insn))))).
  - unfold op_imm_val. cbv zeta. pose proof (uint_funct3 insn) as Hf3.
    repeat zcase; try lift_val. exfalso. unfold uint in Hf3. lia.
  - intros v b' Hi' Hle [Ha' Hv]. advance Hle. eapply wp_write_rd; [done..|]. intros _. by step_body Hop.
Qed.

Lemma shamt32 x : u32 (x .& 0x1f) .& 31 = x .& 0x1f.
Proof.
  rewrite !(land_ones_lit _ _ 5) by done. unfold u32, wrap.
  pose proof (Z.mod_pos_bound x (2 ^ 5)). rewrite (Z.mod_small (x mod 2 ^ 5) (2 ^ 32)) by lia.
  by rewrite Z.mod_mod.
Qed.

Lemma lift_op_imm_32_sim b :
  at_start b -> opcode insn = 0x1b -> wp (lift_op_imm_32 insn c1.(pc)) b outcome_ok.
Proof.
  intros (Hi & Ha & Hr & Hu & _) Hop. unfold lift_op_imm_32.
  wp_step wp_read_x as lhs64 Hl64; [apply rs1_range|]. wp_step wp_wrap_i32 as lhs Hl.
  wp_step wp_const_i32 as sh Hsh.
  { rewrite (land_ones_lit _ _ 5) by done. pose proof (Z.mod_pos_bound (imm_i insn) (2 ^ 5)). unfold sint. lia. }
  cbv zeta.
  eapply (wp_bind _ _ _ _ _ (fun o b' => arch_is b' c1 m1
    /\ match o with
       | Some v => exists x, val b' v I32 x /\ op_imm_32_val insn (u32 (xr c1 (rs1 insn))) = Some x
       | None => True
       end)).
  - unfold op_imm_32_val. cbv zeta. repeat zcase; cbn [andb].
    + wp_step wp_const_i32 as im Him; [by apply (sint_signed 32)|].
      wp_step wp_binary as v Hv. apply wp_ret; [done|]. split; [done|]. eexists. split; [exact Hv|].
      cbn [binary_value]. unfold u32, i32. by rewrite (wrap_of_signed 32 (imm_i insn)).
    + wp_step wp_binary as v Hv. apply wp_ret; [done|]. split; [done|]. eexists. split; [exact Hv|].
      cbn [binary_value]. by rewrite shamt32.
    + wp_step wp_binary as v Hv. apply wp_ret; [done|]. split; [done|]. eexists. split; [exact Hv|].
      cbn [binary_value]. by rewrite shamt32.
    + wp_step wp_binary as v Hv. apply wp_ret; [done|]. split; [done|]. eexists. split; [exact Hv|].
      cbn [binary_value]. by rewrite shamt32.
    + by apply wp_ret.
  - intros [v|] b' Hi' Hle [Ha' Hv]; advance Hle; [|by apply wp_ret]. destruct Hv as (x & Hv & Hx).
    wp_step wp_extend_i32_s as w Hw. eapply wp_write_rd; [done..|]. intros _. step_body Hop.
    unfold bind, gets, hart. cbn [fst]. by rewrite Hx.
Qed.

Lemma lift_op_sim b :
  at_start b -> opcode insn = 0x33 -> wp (lift_op insn c1.(pc)) b outcome_ok.
Proof.
  intros (Hi & Ha & Hr & Hu & _) Hop. unfold lift_op.
  wp_step wp_read_x as lhs Hl; [apply rs1_range|]. wp_step wp_read_x as rhs Hrh; [apply rs2_range|].
  pose proof (val_uint _ _ _ _ _ _ Hi Hl) as Ul. pose proof (val_uint _ _ _ _ _ _ Hi Hrh) as Ur.
  destruct (lift_op_value (funct7 insn) (funct3 insn) lhs rhs (pc c1)) as [mb|] eqn:Em;
    [|by apply wp_ret].
  eapply (wp_bind _ _ _ _ _ (fun v b' => arch_is b' c1 m1 /\ exists x, val b' v I64 x
    /\ when b' (op_val (funct7 insn) (funct3 insn) (xr c1 (rs1 insn)) (xr c1 (rs2 insn)) = Some x))).
  - revert Em. unfold lift_op_value, op_val. cbv zeta.
    repeat match goal with
    | |- context [if (?a =? ?u) && (?c =? ?v) then _ else _] => destruct ((a =? u) && (c =? v))
    end; try discriminate; intros [= <-].
    all: try lift_some.
    all: lift_divide Ul Ur.
  - intros v b' Hi' Hle (Ha' & x & Hv & Hx). advance Hle. eapply wp_write_rd; [done..|].
    intros Hlv. step_body Hop. unfold bind, gets, hart. cbn [fst]. by rewrite (Hx Hlv).
Qed.

Lemma lift_op_32_sim b :
  at_start b -> opcode insn = 0x3b -> wp (lift_op_32 insn c1.(pc)) b outcome_ok.
Proof.
  intros (Hi & Ha & Hr & Hu & _) Hop. unfold lift_op_32.
  wp_step wp_read_x as lhs64 Hl64; [apply rs1_range|]. wp_step wp_read_x as rhs64 Hr64; [apply rs2_range|].
  wp_step wp_wrap_i32 as lhs Hl. wp_step wp_wrap_i32 as rhs Hrh.
  pose proof (val_uint _ _ _ _ _ _ Hi Hl) as Ul. pose proof (val_uint _ _ _ _ _ _ Hi Hrh) as Ur.
  destruct (lift_op_32_value (funct7 insn) (funct3 insn) lhs rhs (pc c1)) as [mb|] eqn:Em;
    [|by apply wp_ret].
  eapply (wp_bind _ _ _ _ _ (fun v b' => arch_is b' c1 m1 /\ exists x, val b' v I32 x
    /\ when b' (op_32_val (funct7 insn) (funct3 insn) (u32 (xr c1 (rs1 insn)))
                  (u32 (xr c1 (rs2 insn))) = Some x))).
  - revert Em. unfold lift_op_32_value, op_32_val. cbv zeta.
    repeat match goal with
    | |- context [if (?a =? ?u) && (?c =? ?v) then _ else _] => destruct ((a =? u) && (c =? v))
    end; try discriminate; intros [= <-].
    all: try lift_some.
    all: lift_divide Ul Ur.
  - intros v b' Hi' Hle (Ha' & x & Hv & Hx). advance Hle. wp_step wp_extend_i32_s as w Hw.
    eapply wp_write_rd; [done..|].
    intros Hlv. step_body Hop. unfold bind, gets, hart. cbn [fst]. by rewrite (Hx Hlv).
Qed.

(** ** Control flow *)

(** Writing the link register before leaving. *)
Lemma wp_link b v :
  inv b -> arch_is b c1 m1 -> val b v I64 fallthrough ->
  wp (write_x (rd insn) v) b (fun _ b' => arch_is b' (wr (rd insn) fallthrough c1) m1).
Proof. intros Hi Ha Hv. apply wp_write_x; eauto with rv. Qed.

Lemma goes_link b next :
  arch_is b (wr (rd insn) fallthrough c1) m1 -> when b (reached n c1 m1) ->
  when b (exec_body insn fallthrough (c1, m1)
          = (Ok (Next next None), (wr (rd insn) fallthrough c1, m1))) ->
  goes_to b (n + 1) next.
Proof.
  intros Ha Hr He. eapply goes_next; [done|apply wr_count|done|]. intros Hl.
  split_and!; [by apply He| |by apply Hr]. apply user_wr; [by apply Hr|apply rd_range|apply uint_add64].
Qed.

Lemma lift_jal_sim b :
  at_start b -> opcode insn = 0x6f ->
  wp (link <- guest_pc fallthrough c1.(pc) ;;
      write_x (rd insn) link ;;;
      let target_pc := add64 c1.(pc) (u64 (imm_j insn)) in
      if k.(trace_forward) && (c1.(pc) <? target_pc) then ret (ContinueAt target_pc)
      else target <- guest_pc target_pc c1.(pc) ;; ret (Exit target)) b outcome_ok.
Proof.
  intros (Hi & Ha & Hr & Hu & _) Hop. wp_step wp_guest_pc as link Hlink; [apply uint_add64|].
  eapply wp_bind; [by apply wp_link|]. intros [] b' Hi' Hle Ha'. advance Hle. cbv zeta.
  assert (forall b2, arch_is b2 (wr (rd insn) fallthrough c1) m1 -> when b2 (reached n c1 m1) ->
    goes_to b2 (n + 1) (add64 (pc c1) (u64 (imm_j insn)))) as Hgo.
  { intros b2 Ha2 Hr2. apply goes_link; [done|done|]. intros _. unfold exec_body. by rewrite Hop. }
  destruct (_ && _); [apply wp_ret; [done|split; [apply uint_add64|by apply Hgo]]|].
  wp_step wp_guest_pc as t Ht; [apply uint_add64|]. apply wp_ret; [done|]. eexists. split; [exact Ht|].
  by apply Hgo.
Qed.

Lemma land_minus_two_clear x : uint 64 x -> x .& u64 (-2) = x .&~ 1.
Proof.
  intros Hx. apply Z.bits_inj'. intros i Hi. rewrite Z.land_spec, Z.ldiff_spec. 
  change (u64 (-2)) with (Z.shiftl (Z.ones 63) 1). rewrite Z.shiftl_spec by done.
  destruct (decide (i = 0)) as [->|Hne]; [done|].
  destruct (decide (i < 64)).
  - rewrite Z.testbit_ones_nonneg by lia. destruct (Z.ltb_spec (i - 1) 63); [|lia].
    rewrite (Z.bits_above_log2 1 i) by (simpl; lia). done.
  - rewrite (proj1 (uint_testbit 64 x ltac:(lia) (proj1 Hx)) Hx i) by lia. done.
Qed.

Lemma lift_jalr_sim b :
  at_start b -> opcode insn = 0x67 ->
  wp (base <- read_x (rs1 insn) c1.(pc) ;;
      immediate <- const_i64 (imm_i insn) c1.(pc) ;;
      sum <- binary I64Add base immediate c1.(pc) ;;
      mask <- const_i64 (-2) c1.(pc) ;;
      target <- binary I64And sum mask c1.(pc) ;;
      link <- guest_pc fallthrough c1.(pc) ;;
      write_x (rd insn) link ;;;
      ret (IndirectExit target)) b outcome_ok.
Proof.
  intros (Hi & Ha & Hr & Hu & _) Hop. wp_step wp_read_x as bs Hb; [apply rs1_range|].
  wp_step wp_const_i64 as im Him; [by apply sint_imm_i|]. wp_step wp_binary as sum Hsum.
  wp_step wp_const_i64 as mask Hmask. wp_step wp_binary as t Ht.
  wp_step wp_guest_pc as link Hlink; [apply uint_add64|].
  eapply wp_bind; [by apply wp_link|]. intros [] b' Hi' Hle Ha'. advance Hle.
  apply wp_ret; [done|]. eexists. split; [exact Ht|]. apply goes_link; [done|done|]. intros _.
  unfold exec_body. rewrite Hop. cbn [binary_value]. rewrite land_minus_two_clear by apply uint_add64. done.
Qed.

Lemma lift_branch_sim b :
  at_start b -> opcode insn = 0x63 ->
  wp (lift_branch k insn c1.(pc) fallthrough n) b outcome_ok.
Proof.
  intros (Hi & Ha & Hr & Hu & _) Hop. unfold lift_branch.
  wp_step wp_read_x as lhs Hl; [apply rs1_range|]. wp_step wp_read_x as rhs Hrh; [apply rs2_range|].
  destruct (branch_compare (funct3 insn)) as [cmp|] eqn:Hc; [|by apply wp_ret].
  assert (input_type cmp = I64 /\ result_type cmp = I32
    /\ branch_taken (funct3 insn) (xr c1 (rs1 insn)) (xr c1 (rs2 insn))
       = Some (negb (binary_value cmp (xr c1 (rs1 insn)) (xr c1 (rs2 insn)) =? 0))) as (Hin & Hrt & Htk).
  { revert Hc. unfold branch_compare, branch_taken. repeat zcase; intros [= <-]; split_and!; try done;
      cbn [binary_value]; f_equal; match goal with |- ?c = _ => by destruct c end. }
  set (x := binary_value cmp _ _) in *.
  eapply (wp_bind _ _ _ _ _ (fun v b' => arch_is b' c1 m1 /\ val b' v I32 x)).
  { rewrite <- Hrt. apply wp_binary; [done|done|by rewrite Hin..]. }
  intros cond b' Hi' Hle [Ha' Hcond]. advance Hle. cbv zeta.
  set (taken_pc := add64 (pc c1) (u64 (imm_b insn))).
  assert (exec_body insn fallthrough (c1, m1)
    = (Ok (Next (if negb (x =? 0) then taken_pc else fallthrough) None), (c1, m1))) as He.
  { unfold exec_body. rewrite Hop. unfold bind, gets, hart. cbn [fst]. by rewrite Htk. }
  destruct (_ && _).
  - eapply wp_bind; [eapply wp_guard; [done|done|exact Hcond|]|].
    + intros Hlv Hne. pose proof (Hr Hlv) as Hre.
      pose proof (reached_step n c1 m1 (mkDecoded insn len) c1 m1 taken_pc Hre Hdec) as Hst.
      assert (reached (n + 1) (set_insn_count (add64 (insn_count c1) 1) (set_pc taken_pc c1)) m1) as Hre'.
      { apply Hst; [|done|apply Hre|apply Hre]. cbn [d_insn d_len]. rewrite He.
        by destruct (Z.eqb_spec x 0). }
      exact (reached_left _ _ _ taken_pc Hre' eq_refl).
    + intros [] b2 Hi2 Hle [Ha2 Hx]. advance Hle. apply wp_ret; [done|].
      eapply goes_next; [done|done|done|]. intros Hlv. rewrite (Hx Hlv) in He. by split_and!; [|apply Hr..].
  - wp_step wp_guest_pc as t Ht; [apply uint_add64|]. wp_step wp_guest_pc as nt Hnt; [apply uint_add64|].
    wp_step wp_select_i64 as v Hv. apply wp_ret; [done|]. eexists. split; [exact Hv|].
    eapply goes_next; [done|done|done|]. intros Hlv. by split_and!; [|apply Hr..].
Qed.

(** The arms of the decoder. *)
Lemma exec_body_load np s : opcode insn = 0x03 ->
  exec_body (B := B) insn np s = (exec_load insn ;;; ret (Next np None)) s.
Proof. intros Hop. unfold exec_body. by rewrite Hop. Qed.
Lemma exec_body_store np s : opcode insn = 0x23 ->
  exec_body (B := B) insn np s = (exec_store insn ;;; ret (Next np None)) s.
Proof. intros Hop. unfold exec_body. by rewrite Hop. Qed.
Lemma exec_body_amo np s : opcode insn = 0x2f ->
  exec_body (B := B) insn np s = (exec_amo insn ;;; ret (Next np None)) s.
Proof. intros Hop. unfold exec_body. by rewrite Hop. Qed.

(** ** Memory *)

Lemma when_left b : when b (reached n c1 m1) -> when b (left_ok n (exit_state c1.(pc) c1, m1)).
Proof. intros Hr Hl. by apply reached_left; [apply Hr|]. Qed.

(** A load of the builder, in the interpreter's terms. *)
Lemma wp_load_at b a kind x :
  inv b -> arch_is b c1 m1 -> when b (reached n c1 m1) -> val b a I64 x ->
  wp (load a kind c1.(pc) n) b (fun v b' => arch_is b' c1 m1
    /\ exists w, val b' v I64 (extend_load kind w)
         /\ when b' (ld (LoadKind.bytes kind) x (c1, m1) = (Ok w, (c1, m1))
                     /\ uint (8 * LoadKind.bytes kind) w)).
Proof.
  intros Hi Ha Hr Hx. pose proof (val_uint _ _ _ _ _ _ Hi Hx) as Ux.
  eapply wp_mono; [eapply wp_load; try done|].
  - eapply when_mono; [|exact Hr]. by intros [].
  - by apply when_left.
  - intros v b' Hi' Hle (Ha' & Hv & Hs). split; [done|]. eexists. split; [exact Hv|].
    intros Hl. destruct (Hs Hl) as [w Hw]. rewrite Hw. cbn [default].
    pose proof (live_le _ _ _ Hle Hl) as Hl'. pose proof (Hr Hl') as Hre. split.
    + apply user_ld; [apply Hre|apply Hre|apply load_width|by apply Ux|done].
    + eapply jit_load_ok; [apply load_width|apply Hre|by apply Ux|exact Hw].
Qed.

(** A store of the builder, in the interpreter's terms. *)
Lemma wp_store_at b a v kind x y :
  inv b -> arch_is b c1 m1 -> when b (reached n c1 m1) -> val b a I64 x -> val b v I64 y ->
  wp (store a v kind c1.(pc) n) b (fun _ b' => exists m2, arch_is b' c1 m2
    /\ when b' (st (StoreKind.bytes kind) x y (c1, m1) = (Ok tt, (c1, m2)) /\ guest_wf m2)).
Proof.
  intros Hi Ha Hr Hx Hy.
  pose proof (val_uint _ _ _ _ _ _ Hi Hx) as Ux. pose proof (val_uint _ _ _ _ _ _ Hi Hy) as Uy.
  eapply wp_mono; [eapply wp_store; try done; by apply when_left|].
  intros [] b' Hi' Hle (Ha' & Hs). eexists. split; [exact Ha'|].
  intros Hl. destruct (Hs Hl) as [m2 Hm2]. rewrite Hm2. cbn [default].
  pose proof (live_le _ _ _ Hle Hl) as Hl'. pose proof (Hr Hl') as Hre.
  apply user_st; [apply Hre|apply Hre|apply store_width|by apply Ux|by apply Uy|done].
Qed.

Lemma lift_load_sim b :
  at_start b -> opcode insn = 0x03 -> wp (lift_load insn c1.(pc) n) b outcome_ok.
Proof.
  intros (Hi & Ha & Hr & Hu & Hm) Hop. unfold lift_load.
  wp_step wp_read_x as bs Hb; [apply rs1_range|].
  wp_step wp_const_i64 as im Him; [by apply sint_imm_i|]. wp_step wp_binary as ad Had.
  cbn [result_type input_type binary_value] in Had.
  destruct (load_kind (funct3 insn)) as [kind|] eqn:Hk; [|by apply wp_ret].
  eapply wp_bind; [by eapply wp_load_at|]. intros v b' Hi' Hle (Ha' & w & Hv & Hw). advance Hle.
  eapply wp_write_rd; [done..|]. intros Hl. destruct (Hw Hl) as [Hld _]. split; [done|].
  rewrite exec_body_load by done. unfold exec_load, bind, gets, hart. cbn [fst].
  revert Hk Hld. unfold load_kind. repeat zcase; intros [= <-]; cbn [LoadKind.bytes extend_load];
    intros ->; unfold ret, on_fst, modify; done.
Qed.

Lemma lift_store_sim b :
  at_start b -> opcode insn = 0x23 -> wp (lift_store insn c1.(pc) n) b outcome_ok.
Proof.
  intros (Hi & Ha & Hr & Hu & Hm) Hop. unfold lift_store.
  wp_step wp_read_x as bs Hb; [apply rs1_range|].
  wp_step wp_const_i64 as im Him; [by apply sint_imm_s|]. wp_step wp_binary as ad Had.
  cbn [result_type input_type binary_value] in Had. wp_step wp_read_x as v Hv; [apply rs2_range|].
  destruct (store_kind (funct3 insn)) as [kind|] eqn:Hk; [|by apply wp_ret].
  eapply wp_bind; [by eapply wp_store_at|]. intros [] b' Hi' Hle (m2 & Ha' & Hs). advance Hle.
  apply wp_ret; [done|]. eapply goes_next; [done|done|done|]. intros Hl.
  destruct (Hs Hl) as [Hst Hm2]. split_and!; [|by apply Hr|done].
  rewrite exec_body_store by done. unfold exec_store, bind, gets, hart. cbn [fst].
  revert Hk Hst. unfold store_kind. repeat zcase; intros [= <-]; cbn [StoreKind.bytes]; by intros ->.
Qed.

(** ** Atomics *)

Lemma wr_set_reservation r x o c : wr r x (set_reservation o c) = set_reservation o (wr r x c).
Proof. unfold wr. by destruct (r =? 0). Qed.


(** [supported] arms: the lifter's answer, with what it lifted. *)
Definition lifts (ok : bool) (b : Builder) : Prop :=
  if ok then goes_to b (n + 1) fallthrough else arch_is b c1 m1.

Lemma wp_supported (m : Build bool) b : wp m b lifts -> wp (supported m) b outcome_ok.
Proof.
  intros Hm. eapply wp_bind; [exact Hm|]. intros [] b' Hi' Hle Hl; by apply wp_ret.
Qed.

Definition amo_load_kind (is64 : bool) : LoadKind.t := if is64 then LoadKind.I64 else LoadKind.I32S.
Definition amo_store_kind (is64 : bool) : StoreKind.t := if is64 then StoreKind.I64 else StoreKind.I32.

Lemma aload_kind is64 a (s : Cpu * B) w :
  ld (LoadKind.bytes (amo_load_kind is64)) a s = (Ok w, s) ->
  aload is64 a s = (Ok (extend_load (amo_load_kind is64) w), s).
Proof. intros Hl. destruct is64; cbn in *; [done|]. unfold bind. by rewrite Hl. Qed.

Lemma astore_kind is64 a v v' (m m' : B) :
  user_hart c1 -> stored is64 v = stored is64 v' ->
  st (StoreKind.bytes (amo_store_kind is64)) a v (c1, m) = (Ok tt, (c1, m')) ->
  astore is64 a v' (c1, m) = (Ok tt, (c1, m')).
Proof.
  intros Hu Hv <-. destruct is64; cbn in *; [by rewrite Hv|]. by apply user_st_word.
Qed.

Lemma amo_is64 (is64 : bool) :
  funct3 insn = (if is64 then 3 else 2) ->
  forall s, (if funct3 insn =? 2 then ret false else if funct3 insn =? 3 then ret true
             else illegal (S := Cpu * B) insn) s = (Ok is64, s).
Proof. intros -> s. by destruct is64. Qed.

Lemma lift_lr_sim b (is64 : bool) :
  at_start b -> opcode insn = 0x2f -> funct7 insn .>> 2 = 0x02 ->
  funct3 insn = (if is64 then 3 else 2) ->
  wp (address <- read_x (rs1 insn) c1.(pc) ;;
      old <- load address (amo_load_kind is64) c1.(pc) n ;;
      DbtBuilder.reservation LoadReserved address c1.(pc) ;;;
      write_x (rd insn) old ;;;
      ret true) b lifts.
Proof.
  intros (Hi & Ha & Hr & Hu & Hm) Hop H5 Hf3.
  wp_step wp_read_x as ad Had; [apply rs1_range|].
  eapply wp_bind; [by eapply wp_load_at|]. intros old b1 Hi1 Hle (Ha1 & w & Hold & Hw). advance Hle.
  eapply wp_bind; [by eapply wp_load_reserved|]. intros ? b2 Hi2 Hle Ha2. advance Hle.
  pose proof (val_uint _ _ _ _ _ _ Hi2 Hold) as Uold.
  eapply wp_bind; [eapply wp_write_x; [done|exact Ha2|apply rd_range|exact Hold]|].
  intros [] b3 Hi3 Hle Ha3. advance Hle. apply wp_ret; [done|].
  eapply goes_next; [exact Ha3|by rewrite wr_count|done|]. intros Hl. destruct (Hw Hl) as [Hld _].
  split_and!; [| |by apply Hr].
  - rewrite exec_body_amo by done. unfold exec_amo. unfold bind at 1 2 3, gets, hart. cbn [fst]. cbv zeta.
    rewrite (amo_is64 is64) by done. rewrite H5. cbn [Z.eqb Pos.eqb]. unfold bind at 1.
    by rewrite (aload_kind _ _ _ _ Hld).
  - apply user_wr; [apply user_reservation; by apply Hu|apply rd_range|by apply Uold].
Qed.

Lemma lift_sc_sim b (is64 : bool) :
  at_start b -> opcode insn = 0x2f -> funct7 insn .>> 2 = 0x03 ->
  funct3 insn = (if is64 then 3 else 2) ->
  wp (address <- read_x (rs1 insn) c1.(pc) ;;
      source <- read_x (rs2 insn) c1.(pc) ;;
      success <- DbtBuilder.reservation StoreConditional address c1.(pc) ;;
      store_conditional success address source (amo_store_kind is64) c1.(pc) n ;;;
      one <- const_i32 1 c1.(pc) ;;
      failed <- binary I32Xor success one c1.(pc) ;;
      result <- extend_i32_u failed c1.(pc) ;;
      write_x (rd insn) result ;;;
      ret true) b lifts.
Proof.
  intros (Hi & Ha & Hr & Hu & Hm) Hop H5 Hf3.
  wp_step wp_read_x as ad Had; [apply rs1_range|]. wp_step wp_read_x as src Hsrc; [apply rs2_range|].
  pose proof (val_uint _ _ _ _ _ _ Hi Had) as Uad. pose proof (val_uint _ _ _ _ _ _ Hi Hsrc) as Usrc.
  eapply wp_bind; [by eapply wp_store_reserved|]. intros ok b1 Hi1 Hle ((Ha1 & Hok) & Hp). advance Hle.
  set (held := bool_decide (State.reservation c1 = Some (xr c1 (rs1 insn)))) in *.
  eapply wp_bind; [eapply wp_store_conditional; try done; by apply when_left|].
  intros [] b2 Hi2 Hle (Ha2 & Hst). advance Hle.
  wp_step wp_const_i32 as one Hone. wp_step wp_binary as failed Hfailed. wp_step wp_extend_i32_u as res Hres.
  eapply wp_bind; [eapply wp_write_x; [done|eassumption|apply rd_range|exact Hres]|].
  intros [] b3 Hi3 Hle Ha3. advance Hle. apply wp_ret; [done|].
  assert (binary_value I32Xor (Z.b2z held) (u32 1) = Z.b2z (negb held)) as Hx by (by destruct held).
  rewrite Hx in Ha3. clear Hone Hfailed Hres Hx.
  eapply goes_next; [exact Ha3|by rewrite wr_count|done|]. intros Hl.
  pose proof (Hu Hl) as Hul. pose proof (Hm Hl) as Hml.
  rewrite exec_body_amo by done. unfold exec_amo, bind at 1 2 3, gets, hart. cbn [fst]. cbv zeta.
  rewrite (amo_is64 is64), H5 by done. cbn [Z.eqb Pos.eqb]. fold held.
  assert (uint 64 (Z.b2z (negb held))) as Uh by (by apply uint_b2z).
  destruct held; cbn [Z.b2z negb Z.eqb] in *.
  - destruct (Hst Hl ltac:(done)) as [m2 Hj]. rewrite Hj. cbn [default].
    destruct (user_st _ _ _ _ _ _ Hul Hml (store_width (amo_store_kind is64)) (Uad Hl) (Usrc Hl) Hj) as [Hst2 Hm2].
    split_and!; [|apply user_wr; [by apply user_reservation|apply rd_range|done]|done].
    unfold bind at 1 2. rewrite (astore_kind is64 _ _ _ _ _ Hul eq_refl Hst2).
    unfold on_fst, modify, bind, ret. cbn [fst snd]. by rewrite wr_set_reservation.
  - split_and!; [|apply user_wr; [by apply user_reservation|apply rd_range|done]|done].
    unfold on_fst, modify, bind, ret. cbn [fst snd]. by rewrite wr_set_reservation.
Qed.

(** The operands of the comparison. *)
Lemma wp_amo_compare b (is64 unsigned : bool) old src x y :
  inv b -> arch_is b c1 m1 -> val b old I64 x -> val b src I64 y ->
  funct3 insn = (if is64 then 3 else 2) ->
  wp (if funct3 insn =? 2 then
        old32 <- wrap_i32 old c1.(pc) ;;
        source32 <- wrap_i32 src c1.(pc) ;;
        if unsigned then
          a <- extend_i32_u old32 c1.(pc) ;; b <- extend_i32_u source32 c1.(pc) ;; ret (a, b)
        else
          a <- extend_i32_s old32 c1.(pc) ;; b <- extend_i32_s source32 c1.(pc) ;; ret (a, b)
      else ret (old, src)) b
    (fun p b' => arch_is b' c1 m1 /\ val b' (fst p) I64 (amo_operand is64 unsigned x)
       /\ val b' (snd p) I64 (amo_operand is64 unsigned y)).
Proof.
  intros Hi Ha Hx Hy Hf3. rewrite Hf3. destruct is64; cbn [Z.eqb Pos.eqb amo_operand].
  { by apply wp_ret. }
  wp_step wp_wrap_i32 as o Ho. wp_step wp_wrap_i32 as s Hs. destruct unsigned.
  - wp_step wp_extend_i32_u as p Hp. wp_step wp_extend_i32_u as q Hq. by apply wp_ret.
  - wp_step wp_extend_i32_s as p Hp. wp_step wp_extend_i32_s as q Hq. by apply wp_ret.
Qed.

Lemma wp_amo_min_max b (is64 : bool) funct5 lt (is_min : bool) old src co cs x y :
  let unsigned := (funct5 =? 0x18) || (funct5 =? 0x1c) in
  inv b -> arch_is b c1 m1 -> val b old I64 x -> val b src I64 y ->
  val b co I64 (amo_operand is64 unsigned x) -> val b cs I64 (amo_operand is64 unsigned y) ->
  In funct5 [0x10; 0x14; 0x18; 0x1c] ->
  lt = (if unsigned then I64LtU else I64LtS) -> is_min = (funct5 =? 0x10) || (funct5 =? 0x18) ->
  wp (old_lt_source <- binary lt co cs c1.(pc) ;;
      choose_old <- (if is_min then ret old_lt_source else
                       one <- const_i32 1 c1.(pc) ;; binary I32Xor old_lt_source one c1.(pc)) ;;
      select_i64 choose_old old src c1.(pc)) b
    (fun v b' => arch_is b' c1 m1 /\ exists z, val b' v I64 z
       /\ when b' (exists z', amo_val is64 funct5 x y = Some z' /\ stored is64 z = stored is64 z')).
Proof.
  intros unsigned Hi Ha Hx Hy Hco Hcs Hin -> ->.
  pose proof (val_uint _ _ _ _ _ _ Hi Hx) as Ux. pose proof (val_uint _ _ _ _ _ _ Hi Hy) as Uy.
  eapply (wp_bind _ _ _ _ _ (fun v b' => arch_is b' c1 m1 /\ val b' v I32
    (binary_value (if unsigned then I64LtU else I64LtS) (amo_operand is64 unsigned x) (amo_operand is64 unsigned y)))).
  { destruct unsigned; by apply wp_binary. }
  intros l b1 Hi1 Hle [Ha1 Hl]. advance Hle.
  set (lt := binary_value _ _ _) in *.
  eapply (wp_bind _ _ _ _ _ (fun v b' => arch_is b' c1 m1 /\ val b' v I32
    (if (funct5 =? 0x10) || (funct5 =? 0x18) then lt else lt .^ 1))).
  { destruct ((funct5 =? 0x10) || (funct5 =? 0x18)); [by apply wp_ret|].
    wp_step wp_const_i32 as one Hone. by lift_val. }
  intros ch b2 Hi2 Hle [Ha2 Hch]. advance Hle.
  eapply wp_mono; [by eapply wp_select_i64|]. intros v b3 _ Hle [Ha3 Hv]. split; [done|].
  eexists. split; [exact Hv|]. intros Hlv.
  apply (when_le _ _ _ _ Hle) in Ux, Uy.
  destruct (amo_min_max is64 funct5 x y (Ux Hlv) (Uy Hlv) Hin) as (z & Hz & He). exists z. by split.
Qed.

Lemma wp_amo_new b (is64 : bool) funct5 old src (cmp : ValueId * ValueId) x y :
  let unsigned := (funct5 =? 0x18) || (funct5 =? 0x1c) in
  let min_max (lt : BinaryOp) (is_min : bool) : Build ValueId :=
      old_lt_source <- binary lt (fst cmp) (snd cmp) c1.(pc) ;;
      choose_old <- (if is_min then ret old_lt_source else
                       one <- const_i32 1 c1.(pc) ;; binary I32Xor old_lt_source one c1.(pc)) ;;
      select_i64 choose_old old src c1.(pc) in
  inv b -> arch_is b c1 m1 -> val b old I64 x -> val b src I64 y ->
  val b (fst cmp) I64 (amo_operand is64 unsigned x) -> val b (snd cmp) I64 (amo_operand is64 unsigned y) ->
  In funct5 [0x00; 0x01; 0x04; 0x08; 0x0c; 0x10; 0x14; 0x18; 0x1c] ->
  wp (if funct5 =? 0x01 then ret src
      else if funct5 =? 0x00 then binary I64Add old src c1.(pc)
      else if funct5 =? 0x04 then binary I64Xor old src c1.(pc)
      else if funct5 =? 0x0c then binary I64And old src c1.(pc)
      else if funct5 =? 0x08 then binary I64Or old src c1.(pc)
      else if (funct5 =? 0x10) || (funct5 =? 0x14) then min_max I64LtS (funct5 =? 0x10)
      else if (funct5 =? 0x18) || (funct5 =? 0x1c) then min_max I64LtU (funct5 =? 0x18)
      else panic) b
    (fun v b' => arch_is b' c1 m1 /\ exists z, val b' v I64 z
       /\ when b' (exists z', amo_val is64 funct5 x y = Some z' /\ stored is64 z = stored is64 z')).
Proof.
  intros unsigned min_max Hi Ha Hx Hy Hco Hcs Hin.
  simpl in Hin. destruct Hin as [<-|[<-|[<-|[<-|[<-|[<-|[<-|[<-|[<-|[]]]]]]]]]];
    cbn [Z.eqb Pos.eqb orb].
  1,3-5: eapply wp_mono; [lift_val|]; intros v b' _ Hle [Ha' Hv]; split; [done|]; eexists;
    (split; [exact Hv|]); intros _; eexists; (split; [by destruct is64|]); reflexivity.
  1: { apply wp_ret; [done|]. split; [done|]. eexists. split; [exact Hy|]. intros _. eexists.
       split; [by destruct is64|]. reflexivity. }
  - apply (wp_amo_min_max b is64 0x10 I64LtS true old src (fst cmp) (snd cmp)); try done. simpl; tauto.
  - apply (wp_amo_min_max b is64 0x14 I64LtS false old src (fst cmp) (snd cmp)); try done. simpl; tauto.
  - apply (wp_amo_min_max b is64 0x18 I64LtU true old src (fst cmp) (snd cmp)); try done. simpl; tauto.
  - apply (wp_amo_min_max b is64 0x1c I64LtU false old src (fst cmp) (snd cmp)); try done. simpl; tauto.
Qed.

Lemma amo_funct5 f :
  (f =? 0x00) || (f =? 0x01) || (f =? 0x04) || (f =? 0x08) || (f =? 0x0c) || (f =? 0x10)
  || (f =? 0x14) || (f =? 0x18) || (f =? 0x1c) = true ->
  In f [0x00; 0x01; 0x04; 0x08; 0x0c; 0x10; 0x14; 0x18; 0x1c] /\ f <> 0x02 /\ f <> 0x03.
Proof. intros Hf. rewrite !orb_true_iff, !Z.eqb_eq in Hf. simpl. lia. Qed.

Lemma lift_amo_sim b allow :
  at_start b -> opcode insn = 0x2f -> wp (lift_amo insn c1.(pc) n allow) b lifts.
Proof.
  intros Hs Hop. pose proof Hs as (Hi & Ha & Hr & Hu & Hm). unfold lift_amo. cbv zeta.
  assert (forall is64 : bool, funct3 insn = (if is64 then 3 else 2) ->
    (if funct3 insn =? 2 then Some (LoadKind.I32S, StoreKind.I32)
     else if funct3 insn =? 3 then Some (LoadKind.I64, StoreKind.I64) else None)
    = Some (amo_load_kind is64, amo_store_kind is64)) as Hkinds.
  { intros is64 ->. by destruct is64. }
  assert ((exists is64 : bool, funct3 insn = (if is64 then 3 else 2)) \/ (funct3 insn <> 2 /\ funct3 insn <> 3)) as [[is64 Hf3]|[N2 N3]].
  { destruct (decide (funct3 insn = 3)); [left; by exists true|].
    destruct (decide (funct3 insn = 2)); [left; by exists false|]. by right. }
  2: { destruct (Z.eqb_spec (funct3 insn) 2); [done|]. destruct (Z.eqb_spec (funct3 insn) 3); [done|].
       by apply wp_ret. }
  rewrite (Hkinds is64 Hf3).
  destruct (Z.eqb_spec (funct7 insn .>> 2) 0x02) as [H5|N5].
  { destruct allow; cbn [negb]; [by apply lift_lr_sim|by apply wp_ret]. }
  destruct (Z.eqb_spec (funct7 insn .>> 2) 0x03) as [H5|N5'].
  { destruct allow; cbn [negb]; [by apply lift_sc_sim|by apply wp_ret]. }
  set (f5 := funct7 insn .>> 2) in *.
  destruct (_ || _) eqn:Hf5 at 1; cbn [negb]; [|by apply wp_ret].
  destruct (amo_funct5 f5 Hf5) as (Hin & _ & _).
  wp_step wp_read_x as ad Had; [apply rs1_range|]. wp_step wp_read_x as src Hsrc; [apply rs2_range|].
  eapply wp_bind; [by eapply wp_load_at|]. intros old b11 Hi11 Hle (Ha11 & w & Hold & Hw). advance Hle.
  eapply wp_bind; [by eapply wp_amo_compare|]. intros cmp b12 Hi12 Hle (Ha12 & Hco & Hcs). advance Hle.
  eapply wp_bind; [by eapply wp_amo_new|]. intros new b13 Hi13 Hle (Ha13 & z & Hz & Hnew). advance Hle.
  pose proof (val_uint _ _ _ _ _ _ Hi13 Hold) as Uold.
  eapply wp_bind; [by eapply wp_store_at|]. intros [] b14 Hi14 Hle (m2 & Ha14 & Hst). advance Hle.
  eapply wp_bind; [eapply wp_write_x; [done|exact Ha14|apply rd_range|exact Hold]|].
  intros [] b15 Hi15 Hle Ha15. advance Hle. apply wp_ret; [done|].
  eapply goes_next; [exact Ha15|by rewrite wr_count|done|]. intros Hl.
  destruct (Hw Hl) as [Hld _]. destruct (Hst Hl) as [Hst1 Hm2]. destruct (Hnew Hl) as (z' & Hz' & Hs').
  pose proof (Hu Hl) as Hul. split_and!; [| |done].
  - rewrite exec_body_amo by done. unfold exec_amo, bind at 1 2 3, gets, hart. cbn [fst]. cbv zeta.
    rewrite (amo_is64 is64) by done. fold f5.
    destruct (Z.eqb_spec f5 2); [done|]. destruct (Z.eqb_spec f5 3); [done|].
    unfold bind at 1. rewrite (aload_kind _ _ _ _ Hld). unfold bind at 1. rewrite Hz'. cbn [ok_or ret].
    unfold bind at 1. rewrite (astore_kind is64 _ _ _ _ _ Hul Hs' Hst1). done.
  - apply user_wr; [done|apply rd_range|by apply Uold].
Qed.

(** ** The decoder of the lifter *)

Lemma lift_fence_sim b :
  at_start b -> opcode insn = 0x0f -> wp (ret Continue) b outcome_ok.
Proof.
  intros (Hi & Ha & Hr & Hu & Hm) Hop. apply wp_ret; [done|].
  eapply goes_next; [exact Ha|done|done|]. intros Hl. split_and!; [|by apply Hu|by apply Hm].
  unfold exec_body. by rewrite Hop.
Qed.

(** The capabilities of a region for a user hart. *)
Record user_caps : Prop := {
  uc_fp : k.(fp_mode) = FpDisabled;
  uc_vector : k.(allow_vector) = false
}.

Lemma wp_if {A} (c : bool) (m m' : Build A) b Q :
  (c = true -> wp m b Q) -> (c = false -> wp m' b Q) -> wp (if c then m else m') b Q.
Proof. destruct c; auto. Qed.

(** One arm of the decoder: the guard's facts, then its lemma. *)
Ltac arm tac :=
  apply wp_if; [intros Hg; rewrite ?andb_true_iff, ?Z.eqb_eq in Hg; destruct_and?; tac|intros _].

Lemma lift_insn_sim b :
  user_caps -> at_start b -> wp (lift_insn k insn c1.(pc) fallthrough n) b outcome_ok.
Proof.
  intros [Hfp Hv] Hs. pose proof Hs as (Hi & Ha & Hr & Hu & Hm).
  assert (wp (ret NotSupported) b outcome_ok) as Hno by (by apply wp_ret).
  assert (allow_fp k = false) as Haf by (unfold allow_fp; by rewrite Hfp).
  unfold lift_insn. cbv zeta.
  arm ltac:(by eauto using lift_lui_sim).
  arm ltac:(by eauto using lift_auipc_sim).
  arm ltac:(by eauto using lift_jal_sim).
  arm ltac:(by eauto using lift_jalr_sim).
  arm ltac:(by eauto using lift_branch_sim).
  arm ltac:(by eauto using lift_load_sim).
  arm ltac:(by eauto using lift_store_sim).
  do 3 arm ltac:(congruence).
  do 4 arm ltac:(congruence).
  arm ltac:(idtac).
  { rewrite Hv, Haf. apply wp_supported. by apply wp_ret. }
  arm ltac:(by eauto using lift_fence_sim).
  arm ltac:(by eauto using lift_op_imm_sim).
  arm ltac:(by eauto using lift_op_imm_32_sim).
  arm ltac:(by eauto using lift_op_sim).
  arm ltac:(by eauto using lift_op_32_sim).
  arm ltac:(by eauto using wp_supported, lift_amo_sim).
  done.
Qed.
End Instruction.
