(* ===== verification/DbtLiftSpec.v ===== *)
(** * Lifted regions run the interpreter's instructions

    The loop of the lifter keeps the state of the interpreter after the
    instructions lifted so far; [finish] turns the builder into a region whose
    execution commits that state.  The result: on a user hart whose fetches see
    the code snapshot, a lifted region either returns through its end or leaves
    through a side exit, and in both cases the hart and the memory are the ones
    the interpreter reaches after as many instructions as the region reports. *)

From S2P Require Import Prelude Exception Decode Compressed Csr State Bus Mmu Trap CsrOps Vector SoftFp Exec Step Wf RvcEquiv.
From S2P Require Import ExecSpec DbtVector DbtIr DbtBuilder DbtLift DbtExec DbtDce DbtInv DbtFold DbtBuildSpec DbtSim.

(** ** Fetch *)

Lemma code16_range code offset x :
  Forall (uint 8) code -> code16 code offset = Some x -> uint 16 x.
Proof.
  intros Hc. unfold code16. destruct (code !! Z.to_nat offset) as [lo|] eqn:Hl; [|done].
  destruct (code !! Z.to_nat (offset + 1)) as [hi|] eqn:Hh; [|done]. cbn [mbind option_bind]. intros [= <-].
  apply (from_le_bytes_range [lo; hi]). constructor; [by eapply Forall_lookup_1|]. constructor; [by eapply Forall_lookup_1|constructor].
Qed.

Lemma code16_inside code offset x :
  0 <= offset -> code16 code offset = Some x -> offset + 2 <= Z.of_nat (length code).
Proof.
  intros Ho. unfold code16. destruct (code !! Z.to_nat offset); [|done].
  destruct (code !! Z.to_nat (offset + 1)) eqn:Hh; [|done]. intros _. apply lookup_lt_Some in Hh. lia.
Qed.

Lemma decode_at_insn code base pc d :
  Forall (uint 8) code -> decode_at code base pc = Some d -> uint 32 d.(d_insn).
Proof.
  intros Hc. unfold decode_at. destruct (_ || _); [done|]. cbv zeta.
  destruct (code16 code (pc - base)) as [lo|] eqn:Hl; [|done]. cbn [mbind option_bind].
  apply code16_range in Hl; [|done].
  destruct (negb _).
  - destruct (expand lo) as [[insn|]|] eqn:He; try done. intros [= <-]. by apply expand_expansion in He as [? _].
  - destruct (code16 code _) as [hi|] eqn:Hh; [|done]. cbn [mbind option_bind]. intros [= <-].
    apply code16_range in Hh; [|done]. apply uint_lor; [lia| |]; cbn [d_insn].
    + unfold uint in *. lia.
    + rewrite Z.shiftl_mul_pow2 by lia. unfold uint in *. lia.
Qed.

(** A decoded instruction lies in the snapshot. *)
Lemma decode_at_pc code base pc d :
  decode_at code base pc = Some d -> base <= pc < base + Z.of_nat (length code).
Proof.
  unfold decode_at. destruct (Z.ltb_spec pc base); [done|]. cbn [orb].
  destruct (negb _); [done|]. cbv zeta.
  destruct (code16 code (pc - base)) as [x|] eqn:Hx; [|done]. apply code16_inside in Hx; lia.
Qed.

(** ** From the builder to a region *)

Lemma interleave_ordered n vs es items : interleave n vs es items -> ordered es.
Proof.
  unfold ordered. induction 1; [constructor| |done]. constructor; [done|].
  apply interleave_positions in H0. eapply Forall_impl; [|exact H0]. simpl. lia.
Qed.

Lemma interleave_bounds n vs es items :
  interleave n vs es items -> Forall (fun e => Effect.position e <= n + length vs)%nat es.
Proof.
  induction 1; [constructor|constructor; [lia|done]|].
  eapply Forall_impl; [|eassumption]. simpl. lia.
Qed.

Section Finish.
Context {B : Type} `{Bus B} `{VectorUnit B} `{GuestMemory B} `{!GuestMemoryOk B}.
Context (code : list Z) (base : Z) (s0 : Cpu * B).

Local Abbreviation left_ok := (left_ok code base s0).
Local Abbreviation inv := (inv s0 left_ok).
Local Abbreviation val := (val s0).
Local Abbreviation goes_to := (goes_to code base s0).
Local Abbreviation wp := (wp s0 left_ok).

(** The region the builder would become. *)
Definition raw_region (b : Builder) (end_pc : Z) (next_pc : ValueId) (retired : Z) (exit : ExitKind)
    (e : SideExit) : Region :=
  mkRegion b.(b_entry_pc) end_pc b.(b_values) e.(se_outputs) e.(se_f_outputs) e.(se_fcsr_output)
    next_pc retired exit (replicate 5 0) 0 false b.(b_effects).

Lemma finish_raw_exit b end_pc next_pc retired exit pc e :
  side_exit pc retired b = (Ok e, b) ->
  finish_raw b end_pc next_pc retired exit = Some (raw_region b end_pc next_pc retired exit e).
Proof.
  unfold side_exit, bind, gets, id, finish_raw, raw_region.
  destruct (dirty_outputs 31 1 _ _) as [o|]; [|done]. destruct (dirty_outputs 32 0 _ _) as [f|]; [|done].
  destruct (dirty_fcsr_output b) as [fc|]; [|done]. cbn [mbind option_bind unwrap]. by intros [= <-].
Qed.

Lemma typed_map_snd values (l : list (Z * ValueId)) :
  typed values (map (fun '(_, v) => (v, I64)) l) -> below (length values) (map snd l).
Proof.
  intros Ht%typed_below. rewrite map_map in Ht.
  by rewrite (map_ext snd (fun x => fst (let '(_, v) := x in (v, I64)))) by (by intros []).
Qed.

Lemma raw_region_wf b end_pc next_pc retired exit e t :
  sinv b -> typed b.(b_values) (exit_sig e) -> ty_of b.(b_values) next_pc = Some t ->
  wf_region (raw_region b end_pc next_pc retired exit e).
Proof.
  intros Hs He Hn. destruct (si_items b Hs) as [items Hit].
  unfold exit_sig, typed in He. rewrite !Forall_app in He. destruct He as (Ho & Hf & Hc).
  split; cbn [raw_region r_values r_effects r_next_pc r_outputs r_f_outputs r_fcsr_output].
  - intros i d Hd. destruct (si_values b Hs i d Hd) as (_ & Ht & _). apply typed_below in Ht.
    rewrite map_fst_op_sig in Ht. eapply below_mono; [|exact Ht]. rewrite length_take. lia.
  - pose proof (interleave_bounds _ _ _ _ Hit) as Hb. rewrite Forall_forall. intros x Hx.
    rewrite Forall_forall in Hb. specialize (Hb x Hx). split; [lia|].
    pose proof (si_effects b Hs) as Hse. rewrite Forall_forall in Hse. destruct (Hse x Hx) as (Ht & _ & _).
    apply typed_below in Ht. rewrite map_fst_effect_sig, length_take in Ht.
    eapply below_mono; [|exact Ht]. lia.
  - by eapply interleave_ordered.
  - constructor; [by eapply ty_of_lt|constructor].
  - by apply typed_map_snd.
  - by apply typed_map_snd.
  - apply typed_below in Hc. by rewrite map_map, map_id in Hc.
Qed.

(** A region is right when every way out of it is at a state of the
    interpreter. *)
Definition region_ok (r : Region) : Prop :=
  match exec_region r s0 with
  | (Ok k, s) | (Err k, s) => left_ok k s
  | (Panic, _) => False
  end.

Lemma finish_region b end_pc next_pc retired exit x :
  inv b -> val b next_pc I64 x -> goes_to b retired x ->
  exists r, finish b end_pc next_pc retired exit = Some r /\ region_ok r.
Proof.
  intros Hi [Ht Hx] (c2 & m2 & Ha & Hpc & Hr).
  destruct (side_exit_spec b x retired (inv_static _ _ _ Hi)) as (e & He & _ & _ & Hte & _ & _).
  unfold finish. rewrite (finish_raw_exit _ end_pc next_pc _ exit _ _ He). cbn [mbind option_bind].
  destruct (eliminate_dead_values_wf (B := B) _ (raw_region_wf b end_pc next_pc retired exit e _ (inv_static _ _ _ Hi) Hte Ht))
    as (r & -> & Hex).
  exists r. split; [done|]. unfold region_ok. rewrite Hex. unfold exec_region, bind.
  cbn [raw_region r_values r_effects].
  change (exec_values (b_values b) (b_effects b) [] s0) with (status s0 b).
  pose proof (inv_status _ _ _ Hi) as Hst.
  destruct (status s0 b) as [[rho|k|] [c m]] eqn:E; [|done..].
  unfold on_fst, modify, ret, bind. cbn [fst snd raw_region r_retired r_next_pc r_outputs r_f_outputs r_fcsr_output].
  pose proof (exit_commits _ _ _ _ _ _ _ _ _ _ _ Hi Ha E He) as Hc. unfold side_exit_state in Hc.
  rewrite (Hx _ _ eq_refl). assert (se_guest_pc e = x) as Hgp.
  { destruct (side_exit_spec b x retired (inv_static _ _ _ Hi)) as (e' & He' & Hg & _). congruence. }
  rewrite Hgp in Hc. rewrite Hc. destruct (Ha _ _ _ E) as [-> _].
  apply reached_left; [|done]. apply Hr. by eexists _, _.
Qed.
End Finish.

(** ** The loop *)

Section Trace.
Context {B : Type} `{Bus B} `{VectorUnit B} `{GuestMemory B} `{!GuestMemoryOk B}.
Context (code : list Z) (base entry_pc : Z) (k : Caps) (targets : list Z) (s0 : Cpu * B).

(** The snapshot is a slice of bytes of the address space. *)
Definition snapshot_wf : Prop :=
  Forall (uint 8) code /\ 0 <= base /\ base + Z.of_nat (length code) <= 2 ^ 64.

Context (Hcode : snapshot_wf) (Hcaps : user_caps k).

Local Abbreviation left_ok := (left_ok code base s0).
Local Abbreviation inv := (inv s0 left_ok).
Local Abbreviation le := (le s0).
Local Abbreviation val := (val s0).
Local Abbreviation when := (when s0).
Local Abbreviation arch_is := (arch_is s0).
Local Abbreviation goes_to := (goes_to code base s0).
Local Abbreviation wp := (wp s0 left_ok).

Lemma decoded_pc pc : is_Some (decode_at code base pc) -> uint 64 pc.
Proof. destruct Hcode as (_ & ? & ?). intros [d Hd%decode_at_pc]. unfold uint. lia. Qed.

(** The end of a trace is at a state of the interpreter. *)
Definition end_ok (e : TraceEnd) (b : Builder) : Prop :=
  e.(te_retired) <= T1_MAX_INSNS /\ exists x, val b e.(te_next_pc) I64 x /\ goes_to b e.(te_retired) x.

Definition pass_ok (n : Z) (p : Pass) (b : Builder) : Prop :=
  match p with
  | Done None => True
  | Done (Some e) => end_ok e b
  | Again t => uint 64 t.(tr_pc) /\ goes_to b (n + 1) t.(tr_pc)
  end.

(** Ending a trace at a fixed pc. *)
Lemma wp_end b t n n' pc gpc exit :
  inv b -> goes_to b n pc -> uint 64 pc -> n <= T1_MAX_INSNS ->
  wp (next_pc <- guest_pc pc gpc ;; ret (Done (Some (mkTraceEnd t next_pc n exit)))) b (pass_ok n').
Proof.
  intros Hi (c2 & m2 & Ha & Hpc & Hr) Hu Hn. wp_step wp_guest_pc as v Hv. apply wp_ret; [done|].
  split; [done|]. exists pc. split; [done|]. by exists c2, m2.
Qed.

(** Following a profiled indirect jump. *)
Lemma wp_follow b v x observed n :
  inv b -> val b v I64 x -> goes_to b n x ->
  wp (guard_target v observed n) b (fun _ b' => goes_to b' n observed).
Proof.
  intros Hi Hx (c2 & m2 & Ha & Hpc & Hr).
  eapply wp_mono; [eapply wp_guard_target; [done|exact Ha|exact Hx|]|].
  - intros Hl _. apply reached_left; [by apply Hr|done].
  - intros _ b' Hi' Hle [Ha' He]. pose proof (when_le _ _ _ _ Hle Hr) as Hr'.
    exists (set_insn_count c2.(insn_count) (set_pc observed c2)), m2.
    split_and!; [by apply arch_is_next|done|]. intros Hl. rewrite <- (He Hl), <- Hpc, set_count_pc. by apply Hr'.
Qed.
(** One instruction of the trace. *)
Lemma wp_lift_one b n pc d metrics :
  inv b -> goes_to b n pc -> decode_at code base pc = Some d ->
  wp (lift_one k d.(d_insn) pc (add64 pc d.(d_len)) n metrics) b (fun om b' =>
    match fst om with
    | Continue => goes_to b' (n + 1) (add64 pc d.(d_len))
    | ContinueAt t => uint 64 t /\ goes_to b' (n + 1) t
    | Exit v | IndirectExit v => exists x, val b' v I64 x /\ goes_to b' (n + 1) x
    | NotSupported => goes_to b' n pc
    end).
Proof.
  intros Hi (c1 & m1 & Ha & <- & Hr) Hd. unfold lift_one.
  pose proof (decode_at_insn _ _ _ _ (proj1 Hcode) Hd) as Hu. destruct d as [insn len]. cbn [d_insn d_len] in *.
  eapply wp_bind.
  { apply (lift_insn_sim code base s0 k insn len n c1 m1 Hu Hd b Hcaps). by apply at_start_intro. }
  intros o b' Hi' Hle Ho. pose proof (when_le _ _ _ _ Hle Hr) as Hr'. apply wp_ret; [done|]. cbn [fst].
  destruct o; try exact Ho. by exists c1, m1.
Qed.

Lemma wp_pass b n t :
  inv b -> 0 <= n < T1_MAX_INSNS -> uint 64 t.(tr_pc) -> goes_to b n t.(tr_pc) ->
  wp (lift_pass code base entry_pc k targets n t) b (pass_ok n).
Proof.
  intros Hi Hn Hu Hg. unfold lift_pass. cbv zeta.
  destruct (decode_at code base (tr_pc t)) as [d|] eqn:Hd.
  2: { apply wp_if; intros _; [by apply wp_ret|]. apply wp_end; auto with lia. }
  eapply wp_bind; [by apply wp_lift_one|].
  intros [o metrics] b1 Hi1 Hle Ho. cbn [fst] in Ho.
  destruct o as [|target|v|v|]; cbn [tr_profiled_index tr_metrics tr_source_lo tr_source_hi tr_seeds].
  - apply wp_ret; [done|]. split; [apply uint_add64|exact Ho].
  - destruct Ho as [Ut Ho]. apply wp_if; intros _.
    + apply wp_ret; [done|]. by split.
    + apply wp_end; auto with lia.
  - apply wp_ret; [done|]. split; [cbn [te_retired]; lia|exact Ho].
  - destruct Ho as (x & Hx & Ho).
    assert (wp (ret (Done (Some (mkTraceEnd (at_pc (add64 (tr_pc t) (d_len d))
      (mkTrace metrics (tr_pc t) (Z.min (tr_source_lo t) (tr_pc t))
         (Z.max (tr_source_hi t) (add64 (tr_pc t) (d_len d))) (tr_seeds t) (tr_profiled_index t)))
      v (n + 1) Dispatch)))) b1 (pass_ok n)) as Hstop.
    { apply wp_ret; [done|]. split; [cbn [te_retired]; lia|]. by exists x. }
    destruct (targets !! _) as [observed|]; [|exact Hstop].
    case_bool_decide as Hob; [|exact Hstop]. apply decoded_pc in Hob.
    eapply wp_bind; [by eapply wp_follow|]. intros [] b2 Hi2 Hle2 Ho2. cbv zeta.
    destruct (Z.eqb_spec observed entry_pc) as [<-|].
    + apply wp_end; auto with lia.
    + apply wp_ret; [done|]. by split.
  - apply wp_if; intros _; [by apply wp_ret|]. apply wp_end; auto with lia.
Qed.

Lemma wp_loop room b t :
  inv b -> (Z.of_nat room <= T1_MAX_INSNS) -> uint 64 t.(tr_pc) ->
  goes_to b (T1_MAX_INSNS - Z.of_nat room) t.(tr_pc) ->
  wp (lift_loop code base entry_pc k targets room t) b (fun o b' =>
    match o with Some e => end_ok e b' | None => True end).
Proof.
  revert b t. induction room as [|room IH]; intros b t Hi Hn Hu Hg; cbn [lift_loop].
  - destruct Hg as (c2 & m2 & Ha & Hpc & Hr). wp_step wp_guest_pc as v Hv. apply wp_ret; [done|].
    split; [cbn [te_retired]; lia|]. exists (tr_pc t). split; [done|]. by exists c2, m2.
  - eapply wp_bind; [apply wp_pass; [done|unfold T1_MAX_INSNS in *; lia|done|done]|].
    intros [[e|]|t'] b' Hi' Hle Hp; [by apply wp_ret..|]. destruct Hp as [Hu' Hg'].
    apply IH; [done|lia|done|].
    by replace (T1_MAX_INSNS - Z.of_nat room) with (T1_MAX_INSNS - Z.of_nat (S room) + 1) by lia.
Qed.
End Trace.

(** ** The whole lifter *)

Section Lift.
Context {B : Type} `{Bus B} `{VectorUnit B} `{GuestMemory B} `{!GuestMemoryOk B}.

Lemma view_none rho (l : list Z) n : view 0 (replicate n None) rho l = l.
Proof.
  apply list_eq. intros i. rewrite view_lookup. destruct (l !! i); [|done]. simpl. by rewrite Z.bits_0.
Qed.

Lemma commits_new entry_pc rho c : commits (Builder_new entry_pc) rho c = c.
Proof.
  unfold commits, Builder_new, fcsr_view. cbn [b_dirty b_regs b_dirty_f b_fregs b_dirty_fcsr b_fcsr].
  rewrite !view_none. by destruct c.
Qed.

Lemma sinv_new entry_pc : sinv (Builder_new entry_pc).
Proof.
  split; unfold Builder_new; cbn [b_values b_effects b_regs b_fregs b_fcsr b_dirty b_dirty_f b_dirty_fcsr]; try done.
  - exists []. constructor.
  - intros i v Hv. by apply lookup_replicate in Hv as [? _].
  - intros i v Hv. by apply lookup_replicate in Hv as [? _].
  - intros i _ Hb. by rewrite Z.bits_0 in Hb.
  - intros i _ Hb. by rewrite Z.bits_0 in Hb.
Qed.

Lemma inv_new (left_ok : Z -> Cpu * B -> Prop) entry_pc (c0 : Cpu) (m0 : B) :
  user_hart c0 -> inv (c0, m0) left_ok (Builder_new entry_pc).
Proof.
  intros Hu. split; [apply sinv_new|]. unfold status, Builder_new.
  cbn [b_values b_effects exec_values exec_effects]. unfold bind, ret. cbn [length].
  split; cbn [b_values b_regs b_fregs b_fcsr length]; try done.
  - intros i v Hv. by apply lookup_replicate in Hv as [? _].
  - intros i v Hv. by apply lookup_replicate in Hv as [? _].
Qed.

(** The hart a region is entered with. *)
Definition enters (entry_pc : Z) (c : Cpu) : Prop :=
  user_hart c /\ c.(pc) = entry_pc /\ uint 64 entry_pc /\ uint 64 c.(insn_count).

(** C2: Lifting is sound on user harts (the flat guest layout, without floating
    point and vectors): from a snapshot of the code at the hart's pc the lifter
    never panics; it refuses, or it returns a region whose execution — dead
    values eliminated — never panics either and ends, at its end or at a side
    exit, with some number of retired instructions, at exactly the hart and
    memory the interpreter reaches after that many instructions of the
    snapshot. *)
Theorem lift_sound code base entry_pc k targets (c0 : Cpu) (m0 : B) :
  snapshot_wf code base -> user_caps k -> enters entry_pc c0 -> guest_wf m0 ->
  match lift_t1_profiled_targets_mode code base entry_pc k targets with
  | Ok None => True
  | Ok (Some l) =>
      match exec_region l.(lr_ir) (c0, m0) with
      | (Ok n, s) | (Err n, s) =>
          0 <= n /\ snapshot_steps code base (Z.to_nat n) (c0, m0) = Some (retire n s)
      | (Panic, _) => False
      end
  | _ => False
  end.
Proof.
  intros Hcode Hcaps (Hu & Hpc & Hup & Hcnt) Hm. unfold lift_t1_profiled_targets_mode.
  destruct (_ || _); [done|]. cbv zeta.
  destruct (wp_loop code base entry_pc k targets (c0, m0) Hcode Hcaps (Z.to_nat T1_MAX_INSNS) (Builder_new entry_pc)
              (mkTrace Metrics_default entry_pc entry_pc entry_pc [entry_pc] 0)) as (o & b & -> & Hi & _ & Ho).
  - by apply inv_new.
  - done.
  - done.
  - exists c0, m0. split_and!; [|done|].
    + intros rho c m [= <- <- <-]. rewrite commits_new. split; [done|]. by destruct c0.
    + intros _. split; try done. cbn [fst]. symmetry. change (wrap 64 (insn_count c0 + 0) = insn_count c0).
      rewrite Z.add_0_r. by apply wrap_small.
  - destruct o as [e|]; [|done]. destruct Ho as (_ & x & Hx & Hg).
    destruct (finish_region code base (c0, m0) b (tr_pc (te_trace e)) (te_next_pc e) (te_retired e) (te_exit e) x Hi Hx Hg)
      as (r & -> & Hr). exact Hr.
Qed.
End Lift.

(** ** Flat guest memory *)

(** A user image based at zero. *)
Definition flat_guest (f : FlatMemory) : Prop :=
  f.(Bus.base) = 0 /\ Z.of_nat (length f.(mem)) < 2 ^ 64 /\ Forall (uint 8) f.(mem).

Lemma flat_in_bounds_inside f n a :
  flat_guest f -> access_width n -> uint 64 a ->
  flat_in_bounds (Z.of_nat (length f.(mem))) a n = true -> flat_inside f a n.
Proof.
  intros (Hb & Hl & _) Hn [Ha _]. unfold flat_in_bounds, flat_inside. rewrite Hb.
  unfold access_width in Hn. destruct (Z.ltb_spec (Z.of_nat (length (mem f))) n); [done|].
  destruct (Z.ltb_spec (Z.of_nat (length (mem f)) - n) a); [done|]. lia.
Qed.

Lemma flat_jit_load n a f v :
  access_width n -> flat_guest f -> uint 64 a -> jit_load n a f = Some v ->
  bus_read n a f = (Ok v, f) /\ uint (8 * n) v.
Proof.
  intros Hn Hf Ha. simpl. destruct (flat_in_bounds _ _ _) eqn:Hb; [|done]. intros [= <-].
  pose proof (flat_in_bounds_inside f n a Hf Hn Ha Hb) as Hin. destruct Hf as (Hz & Hl & Hm).
  assert (bus_read n a f = flat_read n a f) as ->.
  { destruct Hn as [E|[E|[E|E]]]; rewrite E; reflexivity. }
  rewrite flat_read_inside by done. rewrite Hz, Z.sub_0_r. split; [done|].
  destruct Hin as (? & _ & ?). rewrite Hz in *.
  pose proof (from_le_bytes_range (take (Z.to_nat n) (drop (Z.to_nat a) (mem f)))) as Hr.
  rewrite length_take, length_drop, Nat.min_l, Z2Nat.id in Hr by (destruct Ha; lia).
  by apply Hr, Forall_take, Forall_drop.
Qed.

Lemma to_le_bytes_wrap n v : to_le_bytes n (wrap (8 * Z.of_nat n) v) = to_le_bytes n v.
Proof.
  revert v. induction n as [|n IH]; intros v; [done|]. cbn [to_le_bytes]. f_equal.
  - unfold u8, wrap. rewrite Nat2Z.inj_succ, Z.mul_succ_r, (Z.add_comm _ 8), Z.pow_add_r by lia.
    rewrite Z.rem_mul_r by lia. rewrite (Z.mul_comm (2 ^ 8)), Z.mod_add by lia. by rewrite Z.mod_mod.
  - rewrite <- (IH (v .>> 8)), <- (IH (wrap _ v .>> 8)). f_equal. unfold wrap. rewrite !Z.shiftr_div_pow2 by lia.
    rewrite Nat2Z.inj_succ, Z.mul_succ_r, (Z.add_comm _ 8), Z.pow_add_r by lia.
    rewrite Z.rem_mul_r by lia. rewrite (Z.mul_comm (2 ^ 8)), Z.div_add by lia.
    rewrite (Z.div_small (v mod 2 ^ 8)) by (apply Z.mod_pos_bound; lia). by rewrite Z.add_0_l, Zmod_mod.
Qed.

Lemma flat_jit_store n a v f f' :
  access_width n -> flat_guest f -> uint 64 a -> uint 64 v -> jit_store n a v f = Some f' ->
  bus_write n a v f = (Ok tt, f') /\ flat_guest f'.
Proof.
  intros Hn Hf Ha Hv. simpl. destruct (flat_in_bounds _ _ _) eqn:Hb; [|done]. intros [= <-].
  pose proof (flat_in_bounds_inside f n a Hf Hn Ha Hb) as Hin. destruct Hf as (Hz & Hl & Hm).
  assert (bus_write n a v f = flat_write n a (wrap (8 * n) v) f) as ->.
  { destruct Hn as [E|[E|[E|E]]]; rewrite E; try reflexivity.
    change (8 * 8) with 64. by rewrite (wrap_small 64 v Hv). }
  rewrite flat_write_inside by done. rewrite Hz, Z.sub_0_r.
  assert (8 * n = 8 * Z.of_nat (Z.to_nat n)) as E by (destruct Hin; lia). rewrite E at 1.
  rewrite to_le_bytes_wrap. split; [done|]. destruct Hin as (? & _ & ?). rewrite Hz in *. destruct Ha.
  split_and!; cbn [set_mem Bus.base mem]; [done| |].
  - replace (Z.to_nat (a + n)) with (Z.to_nat a + Z.to_nat n)%nat by lia.
    rewrite length_flat_update; [done|lia|apply length_to_le_bytes].
  - rewrite !Forall_app. split_and!; [by apply Forall_take|apply to_le_bytes_bytes|by apply Forall_drop].
Qed.

#[global, refine] Instance FlatMemory_GuestMemoryOk : GuestMemoryOk FlatMemory := { guest_wf := flat_guest }.
Proof.
  - intros. by apply flat_jit_load.
  - intros. by apply flat_jit_store.
  - done.
Defined.

(** ** One step of the snapshot is one step of the interpreter *)

Section Bridge.
Context {B : Type} `{Bus B} `{VectorUnit B}.

(** Fetches see the snapshot. *)
Definition sees (code : list Z) (base : Z) (m : B) : Prop :=
  forall a x, base <= a -> code16 code (a - base) = Some x -> fetch16 a m = (Ok x, m).

(** On a well-formed user hart whose fetches see the snapshot, an instruction
    of the snapshot that retires is what [step] executes, compressed or not:
    the reference of the lifter is the interpreter itself. *)
Theorem snapshot_step_is_step code base c (m : B) s' :
  snapshot_wf code base -> wf_cpu c -> c.(sys) = None -> sees code base m ->
  snapshot_step code base (c, m) = Some s' -> step (c, m) = (Ok None, s').
Proof.
  intros (Hc & Hb & Hl) Hw Hs Hv. unfold snapshot_step, decode_at. cbn [fst].
  destruct (Z.ltb_spec (pc c) base); [done|]. cbn [orb]. destruct (negb _); [done|]. cbv zeta.
  destruct (code16 code (pc c - base)) as [lo|] eqn:Hlo; [|done]. cbn [mbind option_bind].
  pose proof (code16_range _ _ _ Hc Hlo) as Ulo.
  assert (forall a s, translate a Fetch (c, s) = (Ok a, (c, s))) as Htr.
  { intros a s. unfold translate. cbn [fst]. by rewrite Hs. }
  unfold step, bind at 1, gets, hart. cbn [fst]. unfold bind at 1. rewrite Htr. unfold bind at 1, on_snd at 1.
  cbn [fst snd]. rewrite (Hv _ _ ltac:(done) Hlo). unfold bind.
  destruct (Z.eqb_spec (lo .& 3) 3) as [|H3]; cbn [negb].
  - destruct (code16 code (pc c - base + 2)) as [hi|] eqn:Hhi; [|done]. cbn [mbind option_bind d_insn d_len].
    pose proof (code16_range _ _ _ Hc Hhi) as Uhi. pose proof (code16_inside code (pc c - base + 2) hi ltac:(lia) Hhi) as Hin.
    assert (add64 (pc c) 2 = pc c + 2) as E2 by (apply (wrap_small 64); unfold uint; lia).
    assert (forall (g : bool), (if g then translate (pc c + 2) Fetch else ret (pc c + 2)) (c, m)
      = (Ok (pc c + 2), (c, m))) as Hpa by (intros []; [apply Htr|done]).
    rewrite E2, Hpa.
    unfold on_snd. cbn [fst snd]. replace (pc c - base + 2) with (pc c + 2 - base) in Hhi by lia. rewrite (Hv (pc c + 2) hi ltac:(lia) Hhi).
    assert (shl32 hi 16 = hi .<< 16) as ->.
    { apply (wrap_small 32). rewrite Z.shiftl_mul_pow2 by lia. unfold uint in *. lia. }
    destruct (execute _ _ _) as [[[]|?|] s1]; by intros [= ->].
  - rewrite (wrap_small 16 lo Ulo : u16 lo = lo), step_compressed_as_execute by done.
    destruct (expand lo) as [[insn|]|]; [|done..]. cbn [mbind option_bind d_insn d_len].
    destruct (execute _ _ _) as [[[]|?|] s1]; by intros [= ->].
Qed.
End Bridge.

(** ** A concrete region for the witnesses

    [addi a0, a0, 5; sd a0, 0(zero); ecall] on sixteen bytes of memory: the
    lifter stops before the [ecall]. *)

#[local] Instance unit_FlatMemory : VectorUnit FlatMemory := trapping_unit.

Definition demo_code : list Z :=
  [0x13; 0x05; 0x55; 0x00; 0x23; 0x30; 0xa0; 0x00; 0x73; 0x00; 0x00; 0x00].
Definition demo_caps : Caps := mkCaps true FpDisabled true false true.
Definition demo_guest : Cpu * FlatMemory := (Cpu_new, mkFlat 0 (demo_code ++ replicate 4 0)).

Lemma demo_snapshot : snapshot_wf demo_code 0.
Proof. split_and!; [|done..]. repeat constructor; unfold uint; lia. Qed.

Lemma demo_enters : enters 0 Cpu_new.
Proof.
  pose proof wf_Cpu_new as Hw. split_and!; [|done..]. by split; try apply Hw.
Qed.

Lemma lift_sound_witness :
  match lift_t1_profiled_targets_mode demo_code 0 0 demo_caps [] with
  | Ok (Some l) =>
      fst (exec_region l.(lr_ir) demo_guest) = Ok 2
      /\ snapshot_steps demo_code 0 2 demo_guest
         = Some (retire 2 (snd (exec_region l.(lr_ir) demo_guest)))
  | _ => False
  end.
Proof.
  assert (guest_wf (snd demo_guest)) as Hm by (split_and!; [done..|]; repeat constructor; unfold uint; lia).
  pose proof (lift_sound demo_code 0 0 demo_caps [] Cpu_new (snd demo_guest) demo_snapshot
                ltac:(by split) demo_enters Hm) as Hs.
  assert (match lift_t1_profiled_targets_mode demo_code 0 0 demo_caps [] with
          | Ok (Some l) => fst (exec_region l.(lr_ir) demo_guest) = Ok 2 | _ => False end) as Hr
    by (vm_compute; reflexivity).
  destruct (lift_t1_profiled_targets_mode _ _ _ _ _) as [[l|]| |]; try done.
  split; [done|]. change (Cpu_new, snd demo_guest) with demo_guest in Hs.
  destruct (exec_region (lr_ir l) demo_guest) as [[n|n|] s]; try done.
  cbn [fst] in Hr. injection Hr as ->. apply Hs.
Defined.

Lemma snapshot_step_is_step_witness :
  exists s', snapshot_step demo_code 0 demo_guest = Some s' /\ step demo_guest = (Ok None, s').
Proof.
  assert (is_Some (snapshot_step demo_code 0 demo_guest)) as [s' Hs'] by (vm_compute; eauto).
  exists s'. split; [done|]. apply (snapshot_step_is_step demo_code 0); [apply demo_snapshot|apply wf_Cpu_new|done| |done].
  intros a x Ha Hx. pose proof (code16_inside demo_code (a - 0) x ltac:(lia) Hx) as Hin. rewrite Z.sub_0_r in *.
  assert (a = 0 \/ a = 1 \/ a = 2 \/ a = 3 \/ a = 4 \/ a = 5 \/ a = 6 \/ a = 7 \/ a = 8 \/ a = 9 \/ a = 10) as Ho.
  { cbn [demo_code length] in Hin. lia. }
  repeat destruct Ho as [->|Ho]; [..|subst a]; injection Hx as <-; reflexivity.
Defined.
