(* ===== verification/Structure.v ===== *)
(** * Structured control reconstruction (rv64-dbt, structure.rs)

    WebAssembly has no arbitrary jump.  The compiler turns the control-flow
    graph of a compiled region's members into nested loops and blocks: strongly
    connected components become loops, forward edges become exits from blocks,
    and components with several entries get a dispatcher or one copy per entry.
    A [BTreeMap] is a finite map whose iteration is in ascending order of keys;
    a [BTreeSet] likewise. *)

From stdpp Require Import gmap fin_sets sorting.
From S2P Require Import Prelude.

(** ** Data *)

Abbreviation Node := Z (only parsing).
Definition ENTRY_NODE : Node := U64_MAX.

Abbreviation NodeSet := (gset Node) (only parsing).
Abbreviation Graph := (gmap Node NodeSet) (only parsing).

(** The iteration order of a [BTreeSet] and of the keys of a [BTreeMap]. *)
Definition ascending (s : NodeSet) : list Node := merge_sort Z.le (elements s).

Inductive Structure : Type :=
| Basic (node : Node)
| Dispatcher (entries : list Node)
| Loop (children : list Structure)
| Block (children : list Structure).

(** [Structure::head]: the members control enters the structure at. *)
Fixpoint head (s : Structure) : list Node :=
  match s with
  | Basic node => [node]
  | Dispatcher entries => entries
  | Loop children | Block children => match children with [] => [] | first :: _ => head first end
  end.

Definition successors_of (graph : Graph) (node : Node) : NodeSet := default ∅ (graph !! node).

(** [Structure::branches]. *)
Fixpoint branches (graph : Graph) (s : Structure) : NodeSet :=
  match s with
  | Basic node => successors_of graph node
  | Dispatcher entries => list_to_set entries
  | Loop children | Block children => ⋃ (branches graph <$> children)
  end.

(** ** Strongly connected components *)

Definition reverse (graph : Graph) : Graph :=
  fold_left (fun reversed source =>
      fold_left (fun reversed target => <[target := {[source]} ∪ successors_of reversed target]> reversed)
        (ascending (successors_of graph source)) reversed)
    (ascending (dom graph)) (gset_to_gmap ∅ (dom graph)).

(** Recursion depth is bounded by the nodes not seen yet; [None] is a search
    that was given too little. *)
Fixpoint visit (fuel : nat) (graph : Graph) (node : Node) (st : NodeSet * list Node)
    : option (NodeSet * list Node) :=
  match fuel with
  | O => None
  | S fuel =>
      let '(seen, finished) := st in
      if decide (node ∈ seen) then Some st else
      st ← fold_left (fun st successor => st ≫= visit fuel graph successor)
             (ascending (successors_of graph node)) (Some ({[node]} ∪ seen, finished));
      Some (fst st, snd st ++ [node])
  end.

Fixpoint assign (fuel : nat) (reversed : Graph) (node : Node) (st : NodeSet * list Node)
    : option (NodeSet * list Node) :=
  match fuel with
  | O => None
  | S fuel =>
      let '(assigned, group) := st in
      if decide (node ∈ assigned) then Some st else
      fold_left (fun st predecessor => st ≫= assign fuel reversed predecessor)
        (ascending (successors_of reversed node)) (Some ({[node]} ∪ assigned, group ++ [node]))
  end.

(** Every node of a graph: its keys and the targets of its edges. *)
Definition nodes (graph : Graph) : NodeSet :=
  dom graph ∪ ⋃ (successors_of graph <$> elements (dom graph)).

Definition search_fuel (graph : Graph) : nat := S (size (nodes graph)).

Definition strongly_connected_components (graph reversed : Graph) : option (list (list Node)) :=
  let fuel := search_fuel graph in
  '(_, finished) ← fold_left (fun st node => st ≫= visit fuel graph node) (ascending (dom graph)) (Some (∅, [])) ;
  '(_, groups) ← fold_left (fun st node =>
      '(assigned, groups) ← st ;
      '(assigned, group) ← assign fuel reversed node (assigned, []) ;
      Some (assigned, match group with [] => groups | _ => groups ++ [group] end))
    (rev finished) (Some (∅, [])) ;
  Some groups.

(** ** Loops *)

(** The subgraph of a component, less the edges into [cut]. *)
Definition subgroup (graph : Graph) (group : list Node) (cut : NodeSet) : option Graph :=
  let members := list_to_set group : NodeSet in
  fold_left (fun sub node =>
      sub ← sub ; successors ← graph !! node ;
      Some (<[node := filter (fun target => target ∈ members /\ target ∉ cut) successors]> sub))
    group (Some ∅).

(** The members with a predecessor outside the component. *)
Definition group_entries (reversed : Graph) (group : list Node) : list Node :=
  let members := list_to_set group : NodeSet in
  filter (fun node => ¬ (successors_of reversed node ⊆ members)) group.

Definition singleton_structure (graph : Graph) (node : Node) : Structure :=
  if node =? ENTRY_NODE then Dispatcher (ascending (successors_of graph ENTRY_NODE))
  else if decide (node ∈ successors_of graph node) then Loop [Basic node] else Basic node.

(** Products saturate at the largest machine word. *)
Definition saturating_mul (a b : nat) : Z := Z.min (Z.of_nat a * Z.of_nat b) U64_MAX.

(** The structures of one component; [inner] is the recursive call. *)
Definition loopify_group (inner : Graph -> option (list Structure)) (duplication_limit : Z)
    (graph reversed : Graph) (group : list Node) : option (list Structure) :=
  match group with
  | [node] => Some [singleton_structure graph node]
  | _ =>
      let entries := group_entries reversed group in
      if duplication_limit <? saturating_mul (length entries) (length group) then
        sub ← subgroup graph group (list_to_set entries) ;
        children ← inner sub ;
        Some [Loop (if (1 <? length entries)%nat then Dispatcher entries :: children else children)]
      else
        mapM (fun entry =>
            sub ← subgroup graph group {[entry]} ;
            children ← inner sub ;
            Some (Loop children)) entries
  end.

Fixpoint loopify (fuel : nat) (duplication_limit : Z) (graph : Graph) : option (list Structure) :=
  match fuel with
  | O => None
  | S fuel =>
      let reversed := reverse graph in
      groups ← strongly_connected_components graph reversed ;
      results ← mapM (loopify_group (loopify fuel duplication_limit) duplication_limit graph reversed) groups ;
      Some (concat results)
  end.

(** ** Blocks *)

Definition is_basic (s : Structure) : bool := match s with Basic _ => true | _ => false end.

(** The loop body of [blockify] for a structure whose children are done:
    [placed] is what precedes it. *)
Definition place (graph : Graph) (placed : list Structure) (s : Structure) : list Structure :=
  let heads := list_to_set (head s) : NodeSet in
  match list_find (fun candidate => ¬ (branches graph candidate ## heads)) placed with
  | None => placed ++ [s]
  | Some (source, candidate) =>
      if (source + 1 =? length placed)%nat && is_basic candidate then placed ++ [s]
      else take source placed ++ [Block (drop source placed); s]
  end.

Fixpoint blockify_children (graph : Graph) (s : Structure) : Structure :=
  match s with
  | Loop children => Loop (fold_left (place graph) (blockify_children graph <$> children) [])
  | Block children => Block (fold_left (place graph) (blockify_children graph <$> children) [])
  | s => s
  end.

Definition blockify (graph : Graph) (structures : list Structure) : list Structure :=
  fold_left (place graph) (blockify_children graph <$> structures) [].

(** ** Structuring a region *)

Definition cfg_graph (successors : list (list Node)) (entries : list Node) : Graph :=
  let known := filter (fun target => target < Z.of_nat (length successors)) in
  <[ENTRY_NODE := list_to_set (known entries)]>
    (list_to_map (imap (fun node outgoing => (Z.of_nat node, list_to_set (known outgoing) : NodeSet)) successors)).

Definition stackify (successors : list (list Node)) (entries : list Node) (duplication_limit : Z)
    : option (list Structure) :=
  let graph := cfg_graph successors entries in
  result ← loopify (search_fuel graph) duplication_limit graph ;
  Some (blockify graph result).
