(* ===== verification/StructureScc.v ===== *)
(** * Strongly connected components (structure.rs)

    The two depth-first searches compute exactly the strongly connected
    components, each once, in an order that every edge between components
    follows. *)

From Stdlib Require Import Classical.
From stdpp Require Import gmap fin_sets sorting relations.
From S2P Require Import Prelude Structure.

Definition edge (g : Graph) (x y : Node) : Prop := y ∈ successors_of g x.
Abbreviation reach g := (rtc (edge g)).

Lemma elem_of_ascending s x : x ∈ ascending s <-> x ∈ s.
Proof.
  unfold ascending. rewrite (merge_sort_Permutation Z.le (elements s)). apply elem_of_elements.
Qed.

Lemma NoDup_ascending s : NoDup (ascending s).
Proof. unfold ascending. rewrite (merge_sort_Permutation Z.le (elements s)). apply NoDup_elements. Qed.

Lemma dom_successors g x y : edge g x y -> x ∈ dom g.
Proof.
  unfold edge, successors_of. destruct (g !! x) eqn:E; [|set_solver].
  intros _. apply elem_of_dom. by eexists.
Qed.

Lemma edge_nodes g x y : edge g x y -> x ∈ nodes g /\ y ∈ nodes g.
Proof.
  intros He. pose proof (dom_successors _ _ _ He) as Hd. unfold nodes. split; [set_solver|].
  apply elem_of_union_r, elem_of_union_list. exists (successors_of g x). split; [|done].
  apply list_elem_of_fmap. exists x. split; [done|]. by apply elem_of_elements.
Qed.

Lemma reach_nodes g x y : x ∈ nodes g -> reach g x y -> y ∈ nodes g.
Proof. intros Hx H. induction H as [|x z y He _ IH]; [done|]. apply IH, (edge_nodes g x z He). Qed.

(** ** The first search *)

Section Visit.
Context (g : Graph).

(** The nodes whose visit has not ended are [open]; the others seen are the
    finished ones, latest last. *)
Record visiting (opened seen : NodeSet) (finished : list Node) : Prop := {
  vs_seen : seen = opened ∪ list_to_set finished;
  vs_disjoint : opened ## list_to_set finished;
  vs_nodup : NoDup finished;
  vs_nodes : seen ⊆ nodes g;
  vs_next x y : x ∈ finished -> edge g x y -> y ∈ seen;
  vs_open x : x ∈ finished -> (exists k, k ∈ opened /\ reach g x k) ->
    exists k, k ∈ opened /\ reach g x k /\ reach g k x;
  vs_last x : x ∈ finished -> (forall k, k ∈ opened -> ~ reach g x k) ->
    exists l y l', finished = l ++ y :: l' /\ reach g x y /\ reach g y x /\ forall z, z ∈ l' -> ~ reach g x z
}.

(** A path from a finished node to a new one leaves through an open node. *)
Lemma path_opened opened seen finished x n :
  visiting opened seen finished -> x ∈ finished -> n ∉ seen -> reach g x n ->
  exists k, k ∈ opened /\ reach g x k.
Proof using Type.
  intros Hv Hx Hn H. induction H as [x|x z n He H IH].
  - exfalso. apply Hn. rewrite (vs_seen _ _ _ Hv). set_solver.
  - pose proof (vs_next _ _ _ Hv _ _ Hx He) as Hz. rewrite (vs_seen _ _ _ Hv) in Hz.
    apply elem_of_union in Hz as [Hz|Hz%elem_of_list_to_set].
    + exists z. split; [done|by apply rtc_once].
    + destruct (IH Hz Hn) as (k & Hk & Hr). exists k. split; [done|by eapply rtc_l].
Qed.

Lemma visiting_open opened seen finished n :
  visiting opened seen finished -> n ∈ nodes g -> n ∉ seen -> visiting ({[n]} ∪ opened) ({[n]} ∪ seen) finished.
Proof using Type.
  intros Hv Hn Hs. pose proof (vs_seen _ _ _ Hv) as E. split.
  - rewrite E. set_solver.
  - pose proof (vs_disjoint _ _ _ Hv). set_solver.
  - apply Hv.
  - pose proof (vs_nodes _ _ _ Hv). set_solver.
  - intros x y Hx He. pose proof (vs_next _ _ _ Hv x y Hx He). set_solver.
  - intros x Hx (k & Hk & Hr). assert (exists k, k ∈ opened /\ reach g x k) as Ho.
    { apply elem_of_union in Hk as [->%elem_of_singleton|Hk]; [by eapply path_opened|by exists k]. }
    destruct (vs_open _ _ _ Hv x Hx Ho) as (k' & Hk' & ?). exists k'. set_solver.
  - intros x Hx Hno. apply (vs_last _ _ _ Hv x Hx). intros k Hk. apply Hno. set_solver.
Qed.

Lemma visiting_finish opened seen finished n :
  visiting ({[n]} ∪ opened) seen finished -> n ∉ opened ->
  (forall k, k ∈ opened -> reach g k n) -> (forall y, edge g n y -> y ∈ seen) ->
  visiting opened seen (finished ++ [n]).
Proof using Type.
  intros Hv Hn Hk Hnext. pose proof (vs_seen _ _ _ Hv) as E. pose proof (vs_disjoint _ _ _ Hv) as Hd. split.
  - rewrite E, list_to_set_app_L. set_solver.
  - rewrite list_to_set_app. set_solver.
  - apply list.NoDup_app. split_and!; [apply Hv|set_solver|apply NoDup_singleton].
  - apply Hv.
  - intros x y Hx He. apply elem_of_app in Hx as [Hx| ->%list_elem_of_singleton].
    + by apply (vs_next _ _ _ Hv x y).
    + by apply Hnext.
  - intros x Hx (k & Hko & Hr). apply elem_of_app in Hx as [Hx| ->%list_elem_of_singleton]; [|by exists k; auto].
    destruct (vs_open _ _ _ Hv x Hx) as (k' & Hk' & Hr1 & Hr2); [exists k; set_solver|].
    apply elem_of_union in Hk' as [->%elem_of_singleton|Hk']; [|by exists k'].
    exists k. split_and!; [done..|]. etrans; [by apply Hk|done].
  - intros x Hx Hno. destruct (decide (x = n)) as [->|Hne].
    { exists finished, n, []. split_and!; [done..|]. intros z Hz. by apply elem_of_nil in Hz. }
    apply elem_of_app in Hx as [Hx|Hx%list_elem_of_singleton]; [|done].
    destruct (classic (reach g x n)) as [Hr|Hr].
    + destruct (vs_open _ _ _ Hv x Hx) as (k' & Hk' & Hr1 & Hr2); [exists n; set_solver|].
      apply elem_of_union in Hk' as [->%elem_of_singleton|Hk']; [|by destruct (Hno k')].
      exists finished, n, []. split_and!; [done..|]. intros z Hz. by apply elem_of_nil in Hz.
    + destruct (vs_last _ _ _ Hv x Hx) as (l & y & l' & -> & H1 & H2 & H3).
      { intros k Hk'. apply elem_of_union in Hk' as [->%elem_of_singleton|Hk']; [done|by apply Hno]. }
      exists l, y, (l' ++ [n]). split_and!; [by rewrite <- app_assoc|done..|].
      intros z Hz. apply elem_of_app in Hz as [Hz| ->%list_elem_of_singleton]; [by apply H3|done].
Qed.

(** What a visit of [n] leaves. *)
Definition visited (opened seen : NodeSet) (targets : list Node) (r : option (NodeSet * list Node)) : Prop :=
  exists seen' finished', r = Some (seen', finished') /\ visiting opened seen' finished'
    /\ seen ⊆ seen' /\ forall n, n ∈ targets -> n ∈ seen'.

Lemma size_unseen (seen : NodeSet) n :
  n ∈ nodes g -> n ∉ seen -> (size (nodes g ∖ ({[n]} ∪ seen)) < size (nodes g ∖ seen))%nat.
Proof using Type. intros Hn Hs. apply subset_size. split; [set_solver|]. intros Hsub. specialize (Hsub n). set_solver. Qed.

Lemma visit_all fuel opened :
  (forall n seen finished, (size (nodes g ∖ seen) < fuel)%nat -> n ∈ nodes g -> visiting opened seen finished ->
     (forall k, k ∈ opened -> reach g k n) -> visited opened seen [n] (visit fuel g n (seen, finished))) ->
  forall targets seen finished, (size (nodes g ∖ seen) < fuel)%nat ->
  (forall n, n ∈ targets -> n ∈ nodes g /\ forall k, k ∈ opened -> reach g k n) -> visiting opened seen finished ->
  visited opened seen targets
    (fold_left (fun st n => st ≫= visit fuel g n) targets (Some (seen, finished))).
Proof using Type.
  intros Hvisit. induction targets as [|n targets IH]; intros seen finished Hf Ht Hv.
  - exists seen, finished. split_and!; [done..|]. intros n Hn. by apply elem_of_nil in Hn.
  - cbn [fold_left]. destruct (Ht n ltac:(set_solver)) as [Hn Hk].
    destruct (Hvisit n seen finished Hf Hn Hv Hk) as (seen1 & finished1 & E1 & Hv1 & Hs1 & Hn1).
    change (Some (seen, finished) ≫= visit fuel g n) with (visit fuel g n (seen, finished)). rewrite E1.
    destruct (IH seen1 finished1) as (seen2 & finished2 & E2 & Hv2 & Hs2 & Hn2).
    + eapply Nat.le_lt_trans; [|exact Hf]. apply subseteq_size. set_solver.
    + intros x Hx. apply Ht. set_solver.
    + done.
    + exists seen2, finished2. split_and!; [done..|set_solver|]. intros x Hx. apply elem_of_cons in Hx as [->|Hx]; [|by apply Hn2].
      apply Hs2, Hn1. set_solver.
Qed.

Lemma visit_ok fuel opened n seen finished :
  (size (nodes g ∖ seen) < fuel)%nat -> n ∈ nodes g -> visiting opened seen finished ->
  (forall k, k ∈ opened -> reach g k n) ->
  visited opened seen [n] (visit fuel g n (seen, finished)).
Proof using Type.
  revert opened n seen finished. induction fuel as [|fuel IH]; intros opened n seen finished Hf Hn Hv Hk; [lia|].
  cbn [visit]. destruct (decide (n ∈ seen)) as [Hs|Hs].
  { exists seen, finished. split_and!; [done..|]. intros x ->%list_elem_of_singleton. done. }
  assert (n ∉ opened) as Ho by (intros Ho; apply Hs; rewrite (vs_seen _ _ _ Hv); set_solver).
  pose proof (size_unseen seen n Hn Hs) as Hsize.
  destruct (visit_all fuel ({[n]} ∪ opened) (IH ({[n]} ∪ opened)) (ascending (successors_of g n)) ({[n]} ∪ seen) finished)
    as (seen' & finished' & E & Hv' & Hs' & Hn').
  - lia.
  - intros y Hy%elem_of_ascending. split; [by apply (edge_nodes g n y)|]. intros k Hk'.
    apply elem_of_union in Hk' as [->%elem_of_singleton|Hk']; [by apply rtc_once|]. eapply rtc_r; [by apply Hk|done].
  - by apply visiting_open.
  - rewrite E. exists seen', (finished' ++ [n]). split_and!; [done| |set_solver|].
    + apply visiting_finish; [done..|]. intros y Hy. by apply Hn', elem_of_ascending.
    + intros x ->%list_elem_of_singleton. set_solver.
Qed.

(** The finishing order of the whole graph. *)
Lemma finishing_order :
  exists seen finished,
    fold_left (fun st node => st ≫= visit (search_fuel g) g node) (ascending (dom g)) (Some (∅, [])) = Some (seen, finished)
    /\ NoDup finished /\ (forall x, x ∈ finished <-> x ∈ nodes g)
    /\ forall x, x ∈ nodes g -> exists l y l', finished = l ++ y :: l' /\ reach g x y /\ reach g y x
         /\ forall z, z ∈ l' -> ~ reach g x z.
Proof using Type.
  destruct (visit_all (search_fuel g) ∅) with (targets := ascending (dom g)) (seen := ∅ : NodeSet) (finished := @nil Z)
    as (seen & finished & E & Hv & _ & Hn).
  - intros. by apply visit_ok.
  - unfold search_fuel. rewrite difference_empty_L. lia.
  - intros n Hn%elem_of_ascending. split; [unfold nodes; set_solver|]. intros k Hk. set_solver.
  - split; try set_solver. apply NoDup_nil_2.
  - exists seen, finished. pose proof (vs_seen _ _ _ Hv) as Es. rewrite union_empty_l_L in Es.
    assert (forall x, x ∈ finished <-> x ∈ nodes g) as Hall.
    { intros x. split.
      - intros Hx. apply (vs_nodes _ _ _ Hv). rewrite Es. set_solver.
      - unfold nodes. intros [Hx|Hx]%elem_of_union.
        + apply (elem_of_list_to_set (C := NodeSet)). rewrite <- Es. by apply Hn, elem_of_ascending.
        + apply elem_of_union_list in Hx as (t & Ht & Hx). apply list_elem_of_fmap in Ht as (k & -> & Hk%elem_of_elements).
          assert (k ∈ finished) as Hkf by (apply (elem_of_list_to_set (C := NodeSet)); rewrite <- Es; by apply Hn, elem_of_ascending).
          apply (elem_of_list_to_set (C := NodeSet)). rewrite <- Es. by apply (vs_next _ _ _ Hv k x). }
    split_and!; [done|apply Hv|done|]. intros x Hx. apply (vs_last _ _ _ Hv); [by apply Hall|]. intros k Hk. set_solver.
Qed.
End Visit.

(** ** Reversed edges *)

Lemma successors_insert g k t x : successors_of (<[k := t]> g) x = if decide (x = k) then t else successors_of g x.
Proof. unfold successors_of. destruct (decide (x = k)) as [->|Hne]; by rewrite ?lookup_insert_eq, ?lookup_insert_ne. Qed.

Lemma reverse_targets source targets (r : Graph) x y :
  edge (fold_left (fun r target => <[target := {[source]} ∪ successors_of r target]> r) targets r) x y
  <-> edge r x y \/ (x ∈ targets /\ y = source).
Proof.
  revert r. induction targets as [|t targets IH]; intros r; cbn [fold_left]; [set_solver|].
  rewrite IH. unfold edge at 1. rewrite successors_insert. unfold edge. destruct (decide (x = t)) as [->|]; set_solver.
Qed.

Lemma reverse_sources g sources (r : Graph) x y :
  edge (fold_left (fun r source => fold_left (fun r target => <[target := {[source]} ∪ successors_of r target]> r)
          (ascending (successors_of g source)) r) sources r) x y
  <-> edge r x y \/ (y ∈ sources /\ edge g y x).
Proof.
  revert r. induction sources as [|s sources IH]; intros r; cbn [fold_left]; [set_solver|].
  rewrite IH, reverse_targets, elem_of_ascending. unfold edge. set_solver.
Qed.

Lemma edge_reverse g x y : edge (reverse g) x y <-> edge g y x.
Proof.
  unfold reverse. rewrite reverse_sources, elem_of_ascending. split; [|intros He; right; split; [|done]; by eapply dom_successors].
  intros [He|[_ He]]; [|done]. unfold edge, successors_of in He.
  destruct (gset_to_gmap ∅ (dom g) !! x) as [t|] eqn:E; [|set_solver].
  apply lookup_gset_to_gmap_Some in E as [_ <-]. set_solver.
Qed.

(** ** The second search *)

Section Assign.
Context (g : Graph).

(** A search from [n] assigns the nodes it adds to a group: they reach [n],
    and nothing unassigned has an edge to them. *)
Definition assigns (assigned : NodeSet) (group : list Node) (roots : list Node) (r : option (NodeSet * list Node)) : Prop :=
  exists added, r = Some (assigned ∪ list_to_set added, group ++ added)
    /\ NoDup added
    /\ (forall x, x ∈ added -> x ∉ assigned /\ x ∈ nodes g /\ exists n, n ∈ roots /\ reach g x n)
    /\ (forall x y, x ∈ added -> edge g y x -> y ∈ assigned ∪ list_to_set added)
    /\ (forall n, n ∈ roots -> n ∈ assigned ∪ list_to_set added).

Lemma assign_all fuel :
  (forall n assigned group, (size (nodes g ∖ assigned) < fuel)%nat -> n ∈ nodes g ->
     assigns assigned group [n] (assign fuel (reverse g) n (assigned, group))) ->
  forall roots assigned group, (size (nodes g ∖ assigned) < fuel)%nat -> (forall n, n ∈ roots -> n ∈ nodes g) ->
  assigns assigned group roots
    (fold_left (fun st n => st ≫= assign fuel (reverse g) n) roots (Some (assigned, group))).
Proof using Type.
  intros Hassign. induction roots as [|n roots IH]; intros assigned group Hf Hr.
  - exists []. rewrite app_nil_r, list_to_set_nil, union_empty_r_L. split_and!; [done|apply NoDup_nil_2|set_solver..].
  - cbn [fold_left]. destruct (Hassign n assigned group Hf ltac:(apply Hr; set_solver)) as (a1 & E1 & Hd1 & Ha1 & Hp1 & Hn1).
    change (Some (assigned, group) ≫= assign fuel (reverse g) n) with (assign fuel (reverse g) n (assigned, group)).
    rewrite E1. destruct (IH (assigned ∪ list_to_set a1) (group ++ a1)) as (a2 & E2 & Hd2 & Ha2 & Hp2 & Hn2).
    + eapply Nat.le_lt_trans; [|exact Hf]. apply subseteq_size. set_solver.
    + set_solver.
    + exists (a1 ++ a2). rewrite E2, list_to_set_app_L, !(assoc_L (∪)), <- app_assoc. split_and!; [done|..].
      * apply list.NoDup_app. split_and!; [done| |done]. intros x Hx Hx2. destruct (Ha2 x Hx2) as [Hnot _]. set_solver.
      * intros x [Hx|Hx]%elem_of_app.
        -- destruct (Ha1 x Hx) as (? & ? & m & Hm & ?). split_and!; [done..|]. exists m. set_solver.
        -- destruct (Ha2 x Hx) as (? & ? & m & Hm & ?). split_and!; [set_solver|done|]. exists m. set_solver.
      * intros x y [Hx|Hx]%elem_of_app He.
        -- specialize (Hp1 x y Hx He). set_solver.
        -- by apply (Hp2 x y).
      * intros m [->|Hm]%elem_of_cons; [|by apply Hn2]. specialize (Hn1 n ltac:(set_solver)). set_solver.
Qed.

Lemma assign_ok fuel n assigned group :
  (size (nodes g ∖ assigned) < fuel)%nat -> n ∈ nodes g ->
  assigns assigned group [n] (assign fuel (reverse g) n (assigned, group)).
Proof using Type.
  revert n assigned group. induction fuel as [|fuel IH]; intros n assigned group Hf Hn; [lia|].
  cbn [assign]. destruct (decide (n ∈ assigned)) as [Ha|Ha].
  { exists []. rewrite app_nil_r, list_to_set_nil, union_empty_r_L. split_and!; [done|apply NoDup_nil_2|set_solver..]. }
  pose proof (size_unseen g assigned n Hn Ha) as Hsize.
  destruct (assign_all fuel IH (ascending (successors_of (reverse g) n)) ({[n]} ∪ assigned) (group ++ [n]))
    as (added & E & Hd & Hadd & Hp & Hr).
  - lia.
  - intros y Hy%elem_of_ascending. apply (proj1 (edge_reverse g n y)) in Hy. by apply (edge_nodes g y n).
  - exists (n :: added). rewrite E. cbn [list_to_set]. rewrite <- app_assoc.
    assert ({[n]} ∪ assigned ∪ list_to_set added = assigned ∪ ({[n]} ∪ list_to_set added)) as Eu by set_solver.
    rewrite Eu in *. split_and!; [done|..].
    + apply list.NoDup_cons. split; [|done]. intros Hx. destruct (Hadd n Hx) as [Hx' _]. set_solver.
    + intros x [->|Hx]%elem_of_cons; [split_and!; [done..|]; exists n; set_solver|].
      destruct (Hadd x Hx) as (Hx1 & Hx2 & m & Hm%elem_of_ascending & Hr1). apply (proj1 (edge_reverse g n m)) in Hm.
      split_and!; [set_solver|done|]. exists n. split; [set_solver|]. by eapply rtc_r.
    + intros x y [->|Hx]%elem_of_cons He; [|by apply (Hp x y)].
      apply Hr, elem_of_ascending. by apply edge_reverse.
    + set_solver.
Qed.
End Assign.

(** ** The components *)

(** A list of groups that is the components of a graph, in an order that the
    edges between components follow. *)
Record components (g : Graph) (groups : list (list Node)) : Prop := {
  cp_cover x : x ∈ concat groups <-> x ∈ nodes g;
  cp_nodup : NoDup (concat groups);
  cp_nonempty : Forall (fun group => group <> []) groups;
  cp_scc group x : group ∈ groups -> x ∈ group -> forall y, y ∈ group <-> reach g x y /\ reach g y x;
  cp_order before group after x y : groups = before ++ group :: after -> x ∈ concat before -> y ∈ group -> ~ reach g y x
}.

Section Components.
Context (g : Graph).

(** The groups of the nodes assigned so far. *)
Record grouped_so_far (assigned : NodeSet) (groups : list (list Node)) : Prop := {
  gs_assigned : assigned = list_to_set (concat groups);
  gs_nodes : assigned ⊆ nodes g;
  gs_pred x y : x ∈ assigned -> edge g y x -> y ∈ assigned;
  gs_nodup : NoDup (concat groups);
  gs_nonempty : Forall (fun group => group <> []) groups;
  gs_scc group x : group ∈ groups -> x ∈ group -> forall y, y ∈ group <-> reach g x y /\ reach g y x;
  gs_order before group after x y : groups = before ++ group :: after -> x ∈ concat before -> y ∈ group -> ~ reach g y x
}.

Lemma closed_reach (assigned : NodeSet) x y :
  (forall x y, x ∈ assigned -> edge g y x -> y ∈ assigned) -> reach g y x -> x ∈ assigned -> y ∈ assigned.
Proof using Type. intros Hc H. induction H as [|y z x He _ IH]; [done|]. intros Hx. eapply Hc; [by apply IH|done]. Qed.

(** A root that is last to finish among the unassigned nodes collects its
    component. *)
Lemma collects_component (assigned : NodeSet) root added :
  (forall x y, x ∈ assigned -> edge g y x -> y ∈ assigned) -> root ∉ assigned ->
  (forall x, x ∈ nodes g -> x ∉ assigned -> reach g x root -> reach g root x) ->
  (forall x, x ∈ added -> x ∉ assigned /\ x ∈ nodes g /\ reach g x root) ->
  (forall x y, x ∈ added -> edge g y x -> y ∈ assigned ∪ list_to_set added) -> root ∈ added ->
  forall x, x ∈ added -> forall y, y ∈ added <-> reach g x y /\ reach g y x.
Proof using Type.
  intros Hc Hroot Hlast Hadd Hpred Hin.
  assert (forall x, x ∈ added -> reach g root x) as Hback.
  { intros x Hx. destruct (Hadd x Hx) as (? & ? & ?). by apply Hlast. }
  intros x Hx y. split.
  - intros Hy. destruct (Hadd x Hx) as (_ & _ & ?), (Hadd y Hy) as (_ & _ & ?).
    split; (etrans; [done|by apply Hback]).
  - intros [Hxy Hyx]. assert (y ∈ assigned ∪ list_to_set added) as Hy.
    { apply (closed_reach _ x y); [|done|set_solver]. intros a b Ha He.
      apply elem_of_union in Ha as [Ha|Ha%elem_of_list_to_set]; [|by apply (Hpred a)]. apply elem_of_union_l. by apply (Hc a). }
    apply elem_of_union in Hy as [Hy|Hy%elem_of_list_to_set]; [|done]. exfalso. apply Hroot.
    apply (closed_reach _ y root Hc); [|done]. etrans; [by apply Hback|done].
Qed.

Lemma group_added assigned groups root added :
  grouped_so_far assigned groups -> root ∉ assigned -> root ∈ added ->
  (forall x, x ∈ nodes g -> x ∉ assigned -> reach g x root -> reach g root x) ->
  NoDup added -> (forall x, x ∈ added -> x ∉ assigned /\ x ∈ nodes g /\ reach g x root) ->
  (forall x y, x ∈ added -> edge g y x -> y ∈ assigned ∪ list_to_set added) ->
  grouped_so_far (assigned ∪ list_to_set added) (groups ++ [added]).
Proof using Type.
  intros Hg Hroot Hin Hlast Hnd Hadd Hpred. pose proof (gs_assigned _ _ Hg) as E. split.
  - rewrite E, concat_app, list_to_set_app_L. f_equal. cbn [concat]. by rewrite app_nil_r.
  - pose proof (gs_nodes _ _ Hg). intros x [Hx|Hx%elem_of_list_to_set]%elem_of_union; [set_solver|by apply Hadd].
  - intros x y [Hx|Hx%elem_of_list_to_set]%elem_of_union He; [|by apply (Hpred x)].
    apply elem_of_union_l. by apply (gs_pred _ _ Hg x).
  - rewrite concat_app. cbn [concat]. rewrite app_nil_r. apply list.NoDup_app. split_and!; [apply Hg| |done].
    intros x Hx Hx'. destruct (Hadd x Hx') as [Hno _]. apply Hno. rewrite E. by apply elem_of_list_to_set.
  - apply Forall_app. split; [apply Hg|]. constructor; [|done]. by intros ->; apply elem_of_nil in Hin.
  - intros group x Hgr Hx y. apply elem_of_app in Hgr as [Hgr| ->%list_elem_of_singleton]; [by apply (gs_scc _ _ Hg)|].
    by apply (collects_component assigned root added (gs_pred _ _ Hg)).
  - intros before group after x y Eg Hx Hy. destruct after as [|g' after _] using rev_ind.
    + apply app_inj_tail in Eg as [<- <-]. intros Hr. destruct (Hadd y Hy) as [Hno _]. apply Hno.
      apply (closed_reach _ x y (gs_pred _ _ Hg)); [done|]. rewrite E. by apply elem_of_list_to_set.
    + rewrite app_comm_cons, app_assoc in Eg. apply app_inj_tail in Eg as [Eg _]. by apply (gs_order _ _ Hg before group after).
Qed.
End Components.

Lemma elem_of_rev {A} (x : A) l : x ∈ rev l <-> x ∈ l.
Proof. rewrite rev_alt. apply elem_of_reverse. Qed.

Lemma split_unique {A} (x : A) l1 r1 l2 r2 : NoDup (l1 ++ x :: r1) -> l1 ++ x :: r1 = l2 ++ x :: r2 -> r1 = r2.
Proof.
  revert l2. induction l1 as [|a l1 IH]; intros [|b l2] Hnd E; simplify_eq/=.
  - done.
  - apply list.NoDup_cons in Hnd as [Hno _]. set_solver.
  - apply list.NoDup_cons in Hnd as [Hno _]. set_solver.
  - apply list.NoDup_cons in Hnd as [_ Hnd]. by apply (IH l2).
Qed.

(** The first unassigned node of the reversed finishing order is the last to
    finish of its component. *)
Lemma last_unassigned g (assigned : NodeSet) finished done root todo x :
  NoDup finished -> rev finished = done ++ root :: todo -> list_to_set done ⊆ assigned ->
  (forall x y, x ∈ assigned -> edge g y x -> y ∈ assigned) ->
  (exists l y l', finished = l ++ y :: l' /\ reach g x y /\ reach g y x /\ forall z, z ∈ l' -> ~ reach g x z) ->
  x ∉ assigned -> reach g x root -> reach g root x.
Proof.
  intros Hnd Er Hd Hc (l & y & l' & El & Hxy & Hyx & Hno) Hx Hr.
  assert (y ∉ assigned) as Hy by (intros Hy; apply Hx; by apply (closed_reach g _ y x Hc)).
  assert (finished = rev todo ++ root :: rev done) as Ef.
  { rewrite <- (rev_involutive finished), Er, rev_app_distr. simpl. by rewrite <- app_assoc. }
  assert (root ∈ finished) as Hroot by (rewrite Ef; set_solver).
  rewrite El in Hroot. apply elem_of_app in Hroot as [Hl|Hl].
  - exfalso. apply list_elem_of_split in Hl as (l1 & l2 & ->). rewrite <- app_assoc in El. cbn in El.
    assert (l2 ++ y :: l' = rev done) as E.
    { apply (split_unique root l1 _ (rev todo)); [by rewrite <- El|congruence]. }
    apply Hy, Hd, elem_of_list_to_set, elem_of_rev. rewrite <- E. set_solver.
  - apply elem_of_cons in Hl as [->|Hl]; [done|]. by destruct (Hno root).
Qed.

(** The loop of the second search over the nodes in reversed finishing order. *)
Definition next_group (g : Graph) (st : option (NodeSet * list (list Node))) (node : Node)
    : option (NodeSet * list (list Node)) :=
  '(assigned, groups) ← st ;
  '(assigned, group) ← assign (search_fuel g) (reverse g) node (assigned, []) ;
  Some (assigned, match group with [] => groups | _ => groups ++ [group] end).

Lemma groups_found g finished :
  NoDup finished -> (forall x, x ∈ finished <-> x ∈ nodes g) ->
  (forall x, x ∈ nodes g -> exists l y l', finished = l ++ y :: l' /\ reach g x y /\ reach g y x
         /\ forall z, z ∈ l' -> ~ reach g x z) ->
  forall todo before assigned groups, rev finished = before ++ todo -> list_to_set before ⊆ assigned ->
  grouped_so_far g assigned groups ->
  exists assigned' groups', fold_left (next_group g) todo (Some (assigned, groups)) = Some (assigned', groups')
    /\ grouped_so_far g assigned' groups' /\ list_to_set (rev finished) ⊆ assigned'.
Proof.
  intros Hnd Hall Hlast. induction todo as [|root todo IH]; intros before assigned groups Er Hd Hg.
  { exists assigned, groups. rewrite app_nil_r in Er. by rewrite Er. }
  assert (root ∈ nodes g) as Hroot by (apply Hall, elem_of_rev; rewrite Er; set_solver).
  assert (rev finished = (before ++ [root]) ++ todo) as Er' by (by rewrite <- app_assoc).
  cbn [fold_left]. unfold next_group at 2. cbn [mbind option_bind].
  destruct (decide (root ∈ assigned)) as [Ha|Ha].
  { unfold search_fuel at 1. cbn [assign]. rewrite decide_True by done. cbn [mbind option_bind].
    apply (IH (before ++ [root])); [done| |done]. rewrite list_to_set_app_L. set_solver. }
  destruct (assign_ok g (search_fuel g) root assigned []) as (added & Ea & Hnda & Hadd & Hpred & Hin);
    [unfold search_fuel; apply Nat.lt_succ_r, subseteq_size; set_solver|done|].
  rewrite Ea. cbn [mbind option_bind app].
  assert (root ∈ added) as Hra by (specialize (Hin root ltac:(set_solver)); set_solver).
  assert (match added with [] => groups | _ => groups ++ [added] end = groups ++ [added]) as ->
    by (destruct added; [by apply elem_of_nil in Hra|done]).
  apply (IH (before ++ [root])); [done|rewrite list_to_set_app_L; set_solver|].
  apply (group_added g assigned groups root added); try done.
  - intros x Hx Hxa. 
    apply (last_unassigned g assigned finished before root todo); [done|done|done|apply (gs_pred g _ _ Hg)|by apply Hlast|done].
  - intros x Hx. destruct (Hadd x Hx) as (? & ? & n & ->%list_elem_of_singleton & ?). done.
Qed.

(** The two searches find the components. *)
Lemma components_found g :
  exists groups, strongly_connected_components g (reverse g) = Some groups /\ components g groups.
Proof.
  destruct (finishing_order g) as (seen & finished & E & Hnd & Hall & Hlast).
  unfold strongly_connected_components. rewrite E. cbn [mbind option_bind].
  destruct (groups_found g finished Hnd Hall Hlast (rev finished) [] ∅ []) as (assigned & groups & Eg & Hg & Hsub).
  - done.
  - set_solver.
  - split; [set_solver..|apply NoDup_nil_2|constructor|set_solver|].
    intros before group after x y E' Hx. by apply app_cons_not_nil in E'.
  - unfold next_group in Eg. rewrite Eg. exists groups. split; [done|].
    pose proof (gs_assigned _ _ _ Hg) as Ea. split; try apply Hg.
    + intros x. rewrite <- (elem_of_list_to_set (C := NodeSet)), <- Ea. split; [apply (gs_nodes _ _ _ Hg)|].
      intros Hx. apply Hsub, elem_of_list_to_set, elem_of_rev. by apply Hall.
Qed.

Lemma elem_of_groups (groups : list (list Node)) x : x ∈ concat groups <-> exists group, group ∈ groups /\ x ∈ group.
Proof.
  rewrite list_elem_of_In, in_concat. setoid_rewrite list_elem_of_In. done.
Qed.

(** C35: on every graph the two depth-first searches end and return the
    strongly connected components: every node occurs in exactly one group, two
    nodes share a group exactly when each reaches the other, and an edge
    between groups leads from an earlier group to a later one. *)
Theorem strong_components g :
  exists groups, strongly_connected_components g (reverse g) = Some groups
    /\ NoDup (concat groups)
    /\ (forall x, x ∈ concat groups <-> x ∈ nodes g)
    /\ (forall x y, x ∈ nodes g -> (exists group, group ∈ groups /\ x ∈ group /\ y ∈ group) <-> reach g x y /\ reach g y x)
    /\ (forall i j group group' x y, groups !! i = Some group -> groups !! j = Some group' ->
          x ∈ group -> y ∈ group' -> edge g x y -> (i <= j)%nat).
Proof.
  destruct (components_found g) as (groups & E & Hc). exists groups. split_and!.
  - done.
  - apply Hc.
  - apply Hc.
  - intros x y Hx%(cp_cover _ _ Hc). split.
    + intros (group & Hg & Hxg & Hyg). by apply (cp_scc _ _ Hc group x Hg Hxg).
    + intros Hxy. apply elem_of_groups in Hx as (group & Hg & Hxg). exists group. split_and!; [done..|].
      by apply (cp_scc _ _ Hc group x Hg Hxg).
  - intros i j group group' x y Hi Hj Hxg Hyg Hedge. destruct (decide (i <= j)%nat) as [|Hij]; [done|]. exfalso.
    apply (cp_order _ _ Hc (take i groups) group (drop (S i) groups) y x).
    + by rewrite take_drop_middle.
    + apply elem_of_groups. exists group'. split; [|done]. apply list_elem_of_lookup. exists j.
      by rewrite lookup_take_lt by lia.
    + done.
    + by apply rtc_once.
Qed.
