(* ===== verification/StructureLoop.v ===== *)
(** * Loops of a control-flow graph (structure.rs, loopify)

    For every graph whose nodes are reachable from roots without predecessors,
    loop reconstruction terminates; every node occurs in the result; and every
    branch can be resolved by a structured jump: it goes to the head of an
    enclosing loop or to the head of a later structure. *)

From stdpp Require Import gmap fin_sets sorting relations.
From S2P Require Import Prelude Structure StructureScc.

(** ** Structures *)

Section StructureInd.
Context (P : Structure -> Prop).
Context (HBasic : forall n, P (Basic n)) (HDispatcher : forall es, P (Dispatcher es)).
Context (HLoop : forall cs, Forall P cs -> P (Loop cs)) (HBlock : forall cs, Forall P cs -> P (Block cs)).

Fixpoint Structure_nested_ind (s : Structure) : P s :=
  let children := fix children (cs : list Structure) : Forall P cs :=
    match cs with
    | [] => Forall_nil P
    | c :: cs => Forall_cons P c cs (Structure_nested_ind c) (children cs)
    end in
  match s with
  | Basic n => HBasic n
  | Dispatcher es => HDispatcher es
  | Loop cs => HLoop cs (children cs)
  | Block cs => HBlock cs (children cs)
  end.
End StructureInd.

(** The heads of a list of structures. *)
Definition heads (ss : list Structure) : NodeSet := ⋃ ((fun s => list_to_set (head s)) <$> ss).

Lemma elem_of_heads t ss : t ∈ heads ss <-> exists s, s ∈ ss /\ t ∈ head s.
Proof.
  unfold heads. rewrite elem_of_union_list. split.
  - intros (X & HX & Ht). apply list_elem_of_fmap in HX as (s & -> & Hs). exists s. set_solver.
  - intros (s & Hs & Ht). exists (list_to_set (head s)). split; [|set_solver]. apply list_elem_of_fmap. by exists s.
Qed.

Lemma heads_cons s ss : heads (s :: ss) = list_to_set (head s) ∪ heads ss.
Proof. done. Qed.

Lemma heads_app ss ss' : heads (ss ++ ss') = heads ss ∪ heads ss'.
Proof. unfold heads. by rewrite fmap_app, union_list_app_L. Qed.

(** The members that occur: executed, or named by a dispatcher. *)
Fixpoint basics (s : Structure) : list Node :=
  match s with
  | Basic n => [n]
  | Dispatcher _ => []
  | Loop cs | Block cs => cs ≫= basics
  end.

Fixpoint mentioned (s : Structure) : list Node :=
  match s with
  | Basic n => [n]
  | Dispatcher es => es
  | Loop cs | Block cs => cs ≫= mentioned
  end.

Section Forward.
Context (graph : Graph).

(** Every branch of a block goes to a head of an enclosing loop, of a later
    structure at its own or an enclosing level, or to one of [outer]; a
    dispatcher only goes to later structures of its own loop, or to [near]. *)
Fixpoint forward (outer near : NodeSet) (s : Structure) : Prop :=
  let chain := fix chain (outer near : NodeSet) (cs : list Structure) : Prop :=
    match cs with
    | [] => True
    | c :: cs => forward (outer ∪ heads cs) (near ∪ heads cs) c /\ chain outer near cs
    end in
  match s with
  | Basic n => successors_of graph n ⊆ outer
  | Dispatcher es => list_to_set es ⊆ near
  | Loop cs => head (Loop cs) <> [] /\ chain (outer ∪ list_to_set (head (Loop cs))) ∅ cs
  | Block cs => chain outer near cs
  end.

Fixpoint forwards (outer near : NodeSet) (ss : list Structure) : Prop :=
  match ss with
  | [] => True
  | s :: ss => forward (outer ∪ heads ss) (near ∪ heads ss) s /\ forwards outer near ss
  end.
End Forward.

Lemma forward_loop graph outer near cs :
  forward graph outer near (Loop cs)
  <-> head (Loop cs) <> [] /\ forwards graph (outer ∪ list_to_set (head (Loop cs))) ∅ cs.
Proof. done. Qed.

Lemma forward_block graph outer near cs : forward graph outer near (Block cs) <-> forwards graph outer near cs.
Proof. done. Qed.

Definition forward_weakens (graph : Graph) (s : Structure) : Prop :=
  forall outer outer' near near', outer ⊆ outer' -> near ⊆ near' -> forward graph outer near s -> forward graph outer' near' s.

Lemma forwards_mono_from graph ss :
  Forall (forward_weakens graph) ss ->
  forall outer outer' near near', outer ⊆ outer' -> near ⊆ near' ->
  forwards graph outer near ss -> forwards graph outer' near' ss.
Proof.
  induction 1 as [|s ss Hs _ IH]; intros outer outer' near near' Ho Hn; cbn [forwards]; [done|].
  intros [Hf Hr]. split; [|by apply (IH outer _ near)]. eapply Hs; [| |exact Hf]; set_solver.
Qed.

Lemma forward_mono graph s : forward_weakens graph s.
Proof.
  induction s as [n|es|cs IH|cs IH] using Structure_nested_ind; intros outer outer' near near' Ho Hn.
  - cbn. set_solver.
  - cbn. set_solver.
  - rewrite !forward_loop. intros [Hh Hf]. split; [done|].
    eapply (forwards_mono_from graph cs IH); [| |exact Hf]; set_solver.
  - rewrite !forward_block. by apply forwards_mono_from.
Qed.

Lemma forwards_app graph outer near ss ss' :
  forwards graph outer near (ss ++ ss')
  <-> forwards graph (outer ∪ heads ss') (near ∪ heads ss') ss /\ forwards graph outer near ss'.
Proof.
  induction ss as [|s ss IH]; cbn [forwards app]; [tauto|]. rewrite IH, heads_app.
  assert (forall X : NodeSet, X ∪ (heads ss ∪ heads ss') = X ∪ heads ss' ∪ heads ss) as E by set_solver.
  rewrite !E. tauto.
Qed.

(** Each structure on its own is enough. *)
Lemma forwards_each graph outer near ss : Forall (forward graph outer near) ss -> forwards graph outer near ss.
Proof.
  induction 1 as [|s ss Hs _ IH]; [done|]. split; [|done]. eapply forward_mono; [| |exact Hs]; set_solver.
Qed.

(** Dispatchers have distinct entries, and several of them. *)
Fixpoint sized (s : Structure) : Prop :=
  let all := fix all (cs : list Structure) : Prop :=
    match cs with [] => True | c :: cs => sized c /\ all cs end in
  match s with
  | Basic _ => True
  | Dispatcher es => NoDup es /\ (2 <= length es)%nat
  | Loop cs | Block cs => all cs
  end.

Lemma sized_loop cs : sized (Loop cs) <-> Forall sized cs.
Proof. cbn. induction cs as [|c cs IH]; [done|]. rewrite list.Forall_cons. tauto. Qed.

Lemma sized_block cs : sized (Block cs) <-> Forall sized cs.
Proof. apply sized_loop. Qed.

(** ** Subgraphs *)

Definition kept (group : list Node) (cut : NodeSet) (t : Node) : Prop := t ∈ group /\ t ∉ cut.

Lemma subgroup_found g group cut :
  (forall n, n ∈ group -> n ∈ dom g) ->
  exists sub, subgroup g group cut = Some sub
    /\ dom sub = list_to_set group
    /\ forall x y, edge sub x y <-> x ∈ group /\ edge g x y /\ kept group cut y.
Proof.
  intros Hdom. unfold subgroup. set (members := list_to_set group : NodeSet).
  set (keep t := t ∈ members /\ t ∉ cut).
  assert (forall todo sub, (forall n, n ∈ todo -> n ∈ dom g) -> exists sub',
    fold_left (fun sub node => sub ← sub ; successors ← g !! node ; Some (<[node := filter keep successors]> sub))
      todo (Some sub) = Some sub'
    /\ dom sub' = dom sub ∪ list_to_set todo
    /\ forall x y, edge sub' x y <-> (x ∈ todo /\ edge g x y /\ keep y) \/ (x ∉ todo /\ edge sub x y)) as Hloop.
  { induction todo as [|n todo IH]; intros sub Hd.
    - exists sub. split_and!; [done|set_solver|]. set_solver.
    - cbn [fold_left mbind option_bind]. destruct (g !! n) as [t|] eqn:E.
      2: { apply not_elem_of_dom in E. destruct E. apply Hd. set_solver. }
      cbn [option_bind]. destruct (IH (<[n := filter keep t]> sub) ltac:(set_solver)) as (sub' & E' & Hdom' & He).
      exists sub'. split_and!; [done|rewrite Hdom', dom_insert_L; set_solver|]. intros x y. rewrite He.
      unfold edge at 2 3. rewrite successors_insert. assert (successors_of g n = t) as En by (unfold successors_of; by rewrite E).
      destruct (decide (x = n)) as [->|Hne]; [|set_solver]. unfold edge. rewrite En, elem_of_filter.
      destruct (decide (n ∈ todo)); set_solver. }
  destruct (Hloop group ∅ Hdom) as (sub & E & Hd & He). exists sub. split_and!; [done|rewrite Hd; set_solver|].
  intros x y. rewrite He. unfold keep, kept, members, edge at 2, successors_of at 1. rewrite lookup_empty. set_solver.
Qed.

(** ** Rooted graphs *)

Record rooted (g : Graph) (roots : NodeSet) : Prop := {
  rt_nodes : roots ⊆ nodes g;
  rt_first r x : r ∈ roots -> ~ edge g x r;
  rt_reach x : x ∈ nodes g -> exists r, r ∈ roots /\ reach g r x;
  rt_entry x : ~ edge g x ENTRY_NODE
}.

(** The size of the components. *)
Definition bounded (g : Graph) (k : nat) : Prop :=
  forall l, NoDup l -> (forall x, x ∈ l -> x ∈ nodes g) -> (forall x y, x ∈ l -> y ∈ l -> reach g x y) -> (length l <= k)%nat.

Lemma reach_last g x y : x <> y -> reach g x y -> exists z, edge g z y.
Proof. intros Hne H. apply rtc_inv_r in H as [?|(z & _ & He)]; [done|eauto]. Qed.

Lemma reach_first g x y : x <> y -> reach g x y -> exists z, edge g x z.
Proof. intros Hne H. destruct H as [|x z y He _]; [done|eauto]. Qed.

(** The entries of a component. *)
Lemma elem_of_entries g group t : t ∈ group_entries (reverse g) group <-> t ∈ group /\ exists x, edge g x t /\ x ∉ group.
Proof.
  unfold group_entries. rewrite list_elem_of_filter. split.
  - intros [Hs Ht]. split; [done|].
    destruct (set_choose_or_empty (successors_of (reverse g) t ∖ list_to_set group)) as [[x Hx]|He];
      [|by destruct Hs; apply empty_difference_subseteq].
    apply elem_of_difference in Hx as [Hx Hno]. exists x. split; [by apply edge_reverse|set_solver].
  - intros [Ht (x & He & Hno)]. split; [|done]. intros Hs. apply Hno.
    apply (elem_of_list_to_set (C := NodeSet)), Hs. by apply edge_reverse.
Qed.

Section Group.
Context (g : Graph) (roots : NodeSet) (groups before : list (list Node)) (group : list Node) (after : list (list Node)).
Context (Hr : rooted g roots) (Hc : components g groups) (Eg : groups = before ++ group :: after).

Lemma group_in : group ∈ groups.
Proof using Eg. rewrite Eg. apply elem_of_app. right. apply elem_of_cons. by left. Qed.

Lemma member_node x : x ∈ group -> x ∈ nodes g.
Proof using Eg Hc Hr. intros Hx. apply (cp_cover _ _ Hc). rewrite Eg, concat_app. cbn [concat]. set_solver. Qed.

Lemma group_nodup : NoDup group.
Proof using Eg Hc Hr.
  pose proof (cp_nodup _ _ Hc) as Hn. rewrite Eg, concat_app in Hn. cbn [concat] in Hn.
  apply list.NoDup_app in Hn as (_ & _ & Hn). by apply list.NoDup_app in Hn as (Hn & _ & _).
Qed.

Lemma member_reach x y : x ∈ group -> y ∈ group -> reach g x y.
Proof using Eg Hc Hr. intros Hx Hy. by apply (cp_scc _ _ Hc group x group_in Hx y). Qed.

Lemma between_member x y z : x ∈ group -> z ∈ group -> reach g x y -> reach g y z -> y ∈ group.
Proof using Eg Hc Hr.
  intros Hx Hz Hxy Hyz. apply (cp_scc _ _ Hc group x group_in Hx y). split; [done|].
  etrans; [done|by apply member_reach].
Qed.

(** Edges out of a group go to later groups. *)
Lemma edge_forward x y : x ∈ group -> edge g x y -> y ∈ group \/ y ∈ concat after.
Proof using Eg Hc Hr.
  intros Hx He. pose proof (proj2 (cp_cover _ _ Hc y) (proj2 (edge_nodes g x y He))) as Hy.
  rewrite Eg, concat_app in Hy. cbn [concat] in Hy. apply elem_of_app in Hy as [Hy|Hy%elem_of_app]; [|tauto].
  exfalso. apply (cp_order _ _ Hc before group after y x Eg Hy Hx). by apply rtc_once.
Qed.

Section Large.
Context (Hlarge : (2 <= length group)%nat).

Lemma other_member x : x ∈ group -> exists y, y ∈ group /\ x <> y.
Proof using Eg Hc Hr Hlarge.
  intros Hx. pose proof group_nodup as Hn. destruct group as [|a [|b l]]; [simpl in Hlarge; lia..|].
  apply list.NoDup_cons in Hn as [Hn _]. destruct (decide (x = a)) as [->|]; [exists b|exists a]; set_solver.
Qed.

Lemma member_pred x : x ∈ group -> exists z, edge g z x.
Proof using Eg Hc Hr Hlarge.
  intros Hx. destruct (other_member x Hx) as (y & Hy & Hne). apply (reach_last g y x); [done|by apply member_reach].
Qed.

Lemma member_dom x : x ∈ group -> x ∈ dom g.
Proof using Eg Hc Hr Hlarge.
  intros Hx. destruct (other_member x Hx) as (y & Hy & Hne).
  destruct (reach_first g x y Hne (member_reach x y Hx Hy)) as [z Hz]. by eapply dom_successors.
Qed.

Lemma member_not_entry : ENTRY_NODE ∉ group.
Proof using Eg Hc Hr Hlarge. intros Hx. destruct (member_pred _ Hx) as [z Hz]. by apply (rt_entry _ _ Hr z). Qed.

(** Control enters the component somewhere. *)
Lemma entry_exists : exists e, e ∈ group_entries (reverse g) group.
Proof using Eg Hc Hr Hlarge.
  assert (exists x, x ∈ group) as [x Hx] by (destruct group as [|a l]; [simpl in Hlarge; lia|exists a; set_solver]).
  destruct (rt_reach _ _ Hr x (member_node x Hx)) as (r & Hroot & H).
  assert (r ∉ group) as Hno by (intros Hin; destruct (member_pred r Hin) as [z Hz]; by apply (rt_first _ _ Hr r z)).
  clear Hroot. induction H as [|r z x He H IH]; [done|]. destruct (decide (z ∈ group)) as [Hz|Hz]; [|by apply IH].
  exists z. apply elem_of_entries. eauto.
Qed.

(** The component, with the edges into some of its nodes cut. *)
Context (cut : NodeSet) (sub : Graph).
Context (Hcut : forall x, x ∈ cut -> x ∈ group) (Hcut0 : exists e, e ∈ cut).
Context (Hdom : dom sub = list_to_set group).
Context (Hsub : forall x y, edge sub x y <-> x ∈ group /\ edge g x y /\ kept group cut y).

Lemma sub_nodes x : x ∈ nodes sub <-> x ∈ group.
Proof using All.
  split; [|unfold nodes; rewrite Hdom; set_solver]. unfold nodes. rewrite Hdom. intros [Hx|Hx]%elem_of_union; [set_solver|].
  apply elem_of_union_list in Hx as (t & Ht & Hx). apply list_elem_of_fmap in Ht as (k & -> & _).
  assert (edge sub k x) as He by done. apply Hsub in He. apply He.
Qed.

Lemma sub_reach x y : reach sub x y -> reach g x y.
Proof using All. apply rtc_subrel. intros a b He. apply Hsub in He. apply He. Qed.

Lemma sub_rooted : rooted sub cut.
Proof using All.
  split.
  - intros x Hx. by apply sub_nodes, Hcut.
  - intros r x Hx He. apply Hsub in He as (_ & _ & _ & Hno). done.
  - intros x Hx%sub_nodes. destruct Hcut0 as [e He]. pose proof (Hcut e He) as Heg.
    pose proof (member_reach e x Heg Hx) as H.
    refine (rtc_ind_r (fun x => x ∈ group -> exists r, r ∈ cut /\ reach sub r x) e _ _ x H Hx); clear x H Hx.
    + intros _. by exists e.
    + intros y x Hey Hyx IH Hx. destruct (decide (x ∈ cut)) as [Hxc|Hxc]; [by exists x|].
      assert (y ∈ group) as Hy by (apply (between_member e y x); [done|done|done|by apply rtc_once]).
      destruct (IH Hy) as (r & Hrc & Hry). exists r. split; [done|]. eapply rtc_r; [exact Hry|]. apply Hsub. by split_and!.
  - intros x He. apply Hsub in He as (_ & He & _). by apply (rt_entry _ _ Hr x).
Qed.

Lemma sub_bounded k : (length group <= S k)%nat -> bounded sub k.
Proof using All.
  intros Hk l Hl Hln Hlr. destruct Hcut0 as [e He].
  assert (length l <= 1 \/ (forall x, x ∈ l -> x <> e))%nat as [Hle|Hne].
  { destruct l as [|a [|b l]]; [simpl; lia..|]. right. intros x Hx ->.
    assert (exists y, y ∈ a :: b :: l /\ y <> e) as (y & Hy & Hye).
    { apply list.NoDup_cons in Hl as [Hl _]. destruct (decide (a = e)) as [->|]; [exists b|exists a]; set_solver. }
    destruct (reach_last sub y e Hye (Hlr y e Hy Hx)) as [z Hz]. apply Hsub in Hz as (_ & _ & _ & Hno). done. }
  - lia.
  - assert (length (e :: l) <= length group)%nat as Hlen.
    { apply submseteq_length, NoDup_submseteq; [apply list.NoDup_cons; split; [|done]|].
      - intros Hin. by apply (Hne e).
      - intros x [->|Hx]%elem_of_cons; [by apply Hcut|]. by apply sub_nodes, Hln. }
    cbn [length] in Hlen. lia.
Qed.
End Large.
End Group.

(** ** Loop reconstruction *)

(** What the reconstruction of a graph guarantees, for the branches of [full]:
    those not in [g] itself go to [outer]. *)
Record loopified (g full : Graph) (roots outer : NodeSet) (ss : list Structure) : Prop := {
  lf_forward : forwards full outer ∅ ss;
  lf_covers x : x ∈ nodes g -> x <> ENTRY_NODE -> x ∈ ss ≫= basics;
  lf_mentions x : x ∈ ss ≫= mentioned -> x ∈ nodes g /\ x <> ENTRY_NODE;
  lf_first r : roots = {[r]} -> r <> ENTRY_NODE -> exists s ss', ss = s :: ss' /\ head s = [r];
  lf_roots r : r ∈ roots -> r <> ENTRY_NODE -> r ∈ heads ss;
  lf_sized : ENTRY_NODE ∉ nodes g -> Forall sized ss;
  lf_top : roots = {[ENTRY_NODE]} -> exists es ss', ss = Dispatcher es :: ss' /\ NoDup es /\ Forall sized ss'
}.

(** The branches out of a component. *)
Definition exits (g : Graph) (group : list Node) : NodeSet :=
  ⋃ (successors_of g <$> group) ∖ list_to_set group.

Lemma elem_of_exits g group t : t ∈ exits g group <-> (exists n, n ∈ group /\ edge g n t) /\ t ∉ group.
Proof.
  unfold exits. rewrite elem_of_difference, elem_of_union_list, elem_of_list_to_set. split.
  - intros [(T & HT & Ht) Hno]. apply list_elem_of_fmap in HT as (n & -> & Hn). split; [by exists n|done].
  - intros [(n & Hn & He) Hno]. split; [|done]. exists (successors_of g n). split; [|done].
    apply list_elem_of_fmap. by exists n.
Qed.

Record group_done (g full : Graph) (outer : NodeSet) (group : list Node) (ss : list Structure) : Prop := {
  gd_forward : Forall (forward full (outer ∪ exits g group) (exits g group)) ss;
  gd_sized : ENTRY_NODE ∉ group -> Forall sized ss;
  gd_single n : group = [n] -> n <> ENTRY_NODE -> n ∈ heads ss;
  gd_heads t x : t ∈ group -> edge g x t -> x ∉ group -> t ∈ heads ss;
  gd_covers x : x ∈ group -> x <> ENTRY_NODE -> x ∈ ss ≫= basics;
  gd_mentions x : x ∈ ss ≫= mentioned -> x ∈ nodes g /\ x <> ENTRY_NODE
}.

Lemma elem_of_concat {A} (x : A) ls : x ∈ concat ls <-> exists l, x ∈ l /\ l ∈ ls.
Proof. induction ls as [|l ls IH]; cbn [concat]; [set_solver|]. rewrite elem_of_app, IH. set_solver. Qed.

Lemma bind_singleton {A B} (f : A -> list B) x : [x] ≫= f = f x.
Proof. apply app_nil_r. Qed.

Section Loopify.
Context (full : Graph) (limit : Z).

(** Branches of a node of [g] stay in [g] or go to [outer]. *)
Definition within (g : Graph) (outer : NodeSet) : Prop :=
  forall n, n ∈ nodes g -> n <> ENTRY_NODE -> successors_of full n ⊆ successors_of g n ∪ outer.

Lemma singleton_done g roots outer n :
  rooted g roots -> n ∈ nodes g -> within g outer -> group_done g full outer [n] [singleton_structure g n].
Proof.
  intros Hr Hn Hw. unfold singleton_structure. destruct (Z.eqb_spec n ENTRY_NODE) as [->|Hne].
  { split.
    - constructor; [|done]. cbn. intros t Ht%elem_of_list_to_set%elem_of_ascending. apply elem_of_exits.
      split; [exists ENTRY_NODE; set_solver|]. intros ->%list_elem_of_singleton. by apply (rt_entry _ _ Hr ENTRY_NODE).
    - intros Hno. destruct Hno. set_solver.
    - by intros n [= <-].
    - intros t x ->%list_elem_of_singleton He. by destruct (rt_entry _ _ Hr x).
    - intros x ->%list_elem_of_singleton. done.
    - intros x. rewrite bind_singleton. cbn. intros Hx%elem_of_ascending. split; [by apply (edge_nodes g ENTRY_NODE x)|].
      intros ->. by apply (rt_entry _ _ Hr ENTRY_NODE). }
  assert (forall s, head s = [n] -> basics s = [n] -> mentioned s = [n] ->
    sized s -> forward full (outer ∪ exits g [n]) (exits g [n]) s -> group_done g full outer [n] [s]) as Hdone.
  { intros s Eh Eb Em Hs Hf. split.
    - by constructor.
    - by constructor.
    - intros m [= <-] _. apply elem_of_heads. exists s. rewrite Eh. set_solver.
    - intros t x ->%list_elem_of_singleton _ _. apply elem_of_heads. exists s. rewrite Eh. set_solver.
    - intros x Hx _. by rewrite bind_singleton, Eb.
    - intros x. rewrite bind_singleton, Em. by intros ->%list_elem_of_singleton. }
  pose proof (Hw n Hn Hne) as Hout.
  destruct (decide (n ∈ successors_of g n)) as [Hself|Hself]; apply Hdone; try done.
  - rewrite forward_loop. split; [done|]. cbn. split; [|done]. intros t Ht%Hout.
    apply elem_of_union in Ht as [Ht|Ht]; [|set_solver]. destruct (decide (t = n)) as [->|]; [set_solver|].
    apply elem_of_union_l, elem_of_union_l, elem_of_union_r, elem_of_exits. split; [exists n; set_solver|set_solver].
  - cbn. intros t Ht%Hout. apply elem_of_union in Ht as [Ht|Ht]; [|set_solver].
    apply elem_of_union_r, elem_of_exits. split; [exists n; set_solver|]. by intros ->%list_elem_of_singleton.
Qed.

Lemma loopify_group_large inner g r group :
  (2 <= length group)%nat ->
  loopify_group inner limit g r group
  = if limit <? saturating_mul (length (group_entries r group)) (length group) then
      sub ← subgroup g group (list_to_set (group_entries r group)) ; children ← inner sub ;
      Some [Loop (if (1 <? length (group_entries r group))%nat
                  then Dispatcher (group_entries r group) :: children else children)]
    else mapM (fun entry => sub ← subgroup g group {[entry]} ; children ← inner sub ; Some (Loop children))
           (group_entries r group).
Proof. intros Hl. by destruct group as [|x [|y l]]; [simpl in Hl; lia..|]. Qed.

(** Cutting the edges into [cut] and reconstructing the rest. *)
Definition inner_ok (k : nat) (inner : Graph -> option (list Structure)) : Prop :=
  forall sub cut outer, rooted sub cut -> bounded sub k -> within sub outer ->
  exists ss, inner sub = Some ss /\ loopified sub full cut outer ss.

Section Component.
Context (g : Graph) (roots outer : NodeSet) (groups before : list (list Node)) (group : list Node) (after : list (list Node)).
Context (Hr : rooted g roots) (Hc : components g groups) (Eg : groups = before ++ group :: after).
Context (Hw : within g outer) (Hlarge : (2 <= length group)%nat).
Context (k : nat) (inner : Graph -> option (list Structure)) (Hk : (length group <= S k)%nat) (Hinner : inner_ok k inner).

Abbreviation entries := (group_entries (reverse g) group).

Lemma cut_children cut :
  (forall x, x ∈ cut -> x ∈ group) -> (exists e, e ∈ cut) ->
  exists sub children, subgroup g group cut = Some sub /\ inner sub = Some children
    /\ (forall x, x ∈ nodes sub <-> x ∈ group)
    /\ loopified sub full cut (outer ∪ exits g group ∪ cut) children.
Proof using All.
  intros Hcut Hcut0.
  destruct (subgroup_found g group cut) as (sub & Es & Hdom & Hsub).
  { intros n Hn. by eapply (member_dom g roots groups before group after). }
  pose proof (sub_nodes g roots groups before group after) as Hnodes.
  assert (forall x, x ∈ nodes sub <-> x ∈ group) as Hn by (intros x; by apply (Hnodes Hr Hc Eg Hlarge cut sub)).
  destruct (Hinner sub cut (outer ∪ exits g group ∪ cut)) as (children & Ei & Hi).
  - by apply (sub_rooted g roots groups before group after).
  - by apply (sub_bounded g roots groups before group after Hr Hc Eg Hlarge cut).
  - intros n Hng%Hn Hne t Ht. apply Hw in Ht; [|by eapply member_node|done].
    apply elem_of_union in Ht as [Ht|Ht]; [|set_solver].
    destruct (decide (t ∈ group)) as [Htg|Htg].
    + destruct (decide (t ∈ cut)) as [Htc|Htc]; [set_solver|]. apply elem_of_union_l. apply Hsub. by split_and!.
    + apply elem_of_union_r, elem_of_union_l, elem_of_union_r, elem_of_exits. split; [by exists n|done].
  - by exists sub, children.
Qed.

(** A loop around the children. *)
Lemma loop_forward cut children :
  forwards full (outer ∪ exits g group ∪ cut) ∅ children -> list_to_set (head (Loop children)) = cut ->
  head (Loop children) <> [] -> forward full (outer ∪ exits g group) (exits g group) (Loop children).
Proof using Type. intros Hf Hh Hne. apply forward_loop. by rewrite Hh. Qed.

Lemma children_first sub e out children :
  e ∈ group -> loopified sub full {[e]} out children -> head (Loop children) = [e].
Proof using All.
  intros He Hl. destruct (lf_first _ _ _ _ _ Hl e eq_refl) as (s & ss' & -> & Hh); [|done].
  intros ->. by apply (member_not_entry g roots groups before group after).
Qed.

Lemma children_sized sub cut out children :
  (forall x, x ∈ nodes sub <-> x ∈ group) -> loopified sub full cut out children -> Forall sized children.
Proof using All.
  intros Hn Hl. apply (lf_sized _ _ _ _ _ Hl). intros He%Hn. by apply (member_not_entry g roots groups before group after).
Qed.

(** One copy per entry. *)
Lemma copies_done : forall es, (forall e, e ∈ es -> e ∈ group) ->
  exists ss, mapM (fun entry => sub ← subgroup g group {[entry]} ; children ← inner sub ; Some (Loop children)) es = Some ss
    /\ Forall (forward full (outer ∪ exits g group) (exits g group)) ss
    /\ Forall sized ss
    /\ (forall e, e ∈ es -> e ∈ heads ss)
    /\ (forall x, x ∈ group -> es <> [] -> x ∈ ss ≫= basics)
    /\ (forall x, x ∈ ss ≫= mentioned -> x ∈ group).
Proof using All.
  induction es as [|e es IH]; intros Hes.
  { exists []. split_and!; [done|constructor|constructor|set_solver|done|set_solver]. }
  destruct IH as (ss & E & Hf & Hz & Hh & Hb & Hm); [set_solver|]. pose proof (Hes e ltac:(set_solver)) as Hge.
  destruct (cut_children {[e]}) as (sub & children & Es & Ei & Hn & Hl); [set_solver|exists e; set_solver|].
  pose proof (children_first sub e _ children Hge Hl) as Hfirst.
  exists (Loop children :: ss). cbn [mapM]. rewrite Es. cbn [mbind option_bind]. rewrite Ei. cbn [mbind option_bind].
  rewrite E. split_and!.
  - done.
  - constructor; [|done]. apply (loop_forward {[e]}); [apply Hl|rewrite Hfirst; set_solver|by rewrite Hfirst].
  - constructor; [|done]. by apply sized_loop, (children_sized sub {[e]} (outer ∪ exits g group ∪ {[e]})).
  - intros x [->|Hx]%elem_of_cons; rewrite heads_cons; [rewrite Hfirst; set_solver|]. apply elem_of_union_r. by apply Hh.
  - intros x Hx _. rewrite bind_cons. apply elem_of_app. left. cbn [basics]. apply (lf_covers _ _ _ _ _ Hl).
    + by apply Hn.
    + intros ->. by apply (member_not_entry g roots groups before group after).
  - intros x. rewrite bind_cons. intros [Hx|Hx]%elem_of_app; [|by apply Hm]. apply Hn. by apply (lf_mentions _ _ _ _ _ Hl).
Qed.

(** A dispatcher for all entries. *)
Lemma dispatched_done :
  exists ss, (sub ← subgroup g group (list_to_set entries) ; children ← inner sub ;
              Some [Loop (if (1 <? length entries)%nat then Dispatcher entries :: children else children)]) = Some ss
    /\ Forall (forward full (outer ∪ exits g group) (exits g group)) ss
    /\ Forall sized ss
    /\ (forall e, e ∈ entries -> e ∈ heads ss)
    /\ (forall x, x ∈ group -> x ∈ ss ≫= basics)
    /\ (forall x, x ∈ ss ≫= mentioned -> x ∈ group).
Proof using All.
  destruct (entry_exists g roots groups before group after Hr Hc Eg Hlarge) as [e0 He0].
  assert (forall e, e ∈ entries -> e ∈ group) as Hin by (by intros e [? _]%elem_of_entries).
  destruct (cut_children (list_to_set entries)) as (sub & children & Es & Ei & Hn & Hl).
  { intros x Hx%elem_of_list_to_set. by apply Hin. }
  { exists e0. by apply elem_of_list_to_set. }
  set (cs := if (1 <? length entries)%nat then Dispatcher entries :: children else children).
  pose proof (children_sized sub _ _ children Hn Hl) as Hz.
  assert (head (Loop cs) = entries /\ forwards full (outer ∪ exits g group ∪ list_to_set entries) ∅ cs
    /\ Forall sized cs
    /\ (forall x, x ∈ children ≫= basics -> x ∈ cs ≫= basics)
    /\ (forall x, x ∈ cs ≫= mentioned -> x ∈ entries \/ x ∈ children ≫= mentioned)) as (Hhead & Hcs & Hzs & Hb & Hm).
  { unfold cs. destruct (Nat.ltb_spec 1 (length entries)) as [Hlt|Hge].
    - split_and!; [done| |constructor; [|done]|done|].
      + cbn [forwards]. split; [|apply Hl]. cbn. intros e He. apply elem_of_union_r.
        apply (lf_roots _ _ _ _ _ Hl); [done|]. apply elem_of_list_to_set, Hin in He. intros ->.
        by apply (member_not_entry g roots groups before group after).
      + split; [|lia]. apply list.NoDup_filter. by eapply group_nodup.
      + intros x. rewrite bind_cons. intros [Hx|Hx]%elem_of_app; [by left|by right].
    - assert (entries = [e0]) as Ee.
      { destruct entries as [|a [|b l]]; [by apply elem_of_nil in He0| |simpl in Hge; lia]. by apply list_elem_of_singleton in He0 as ->. }
      rewrite Ee in *. assert (list_to_set [e0] = {[e0]} :> NodeSet) as Es0 by set_solver. rewrite Es0 in *.
      split_and!; [|apply Hl|done|done|by right]. apply (children_first sub e0 (outer ∪ exits g group ∪ {[e0]}) children); [apply Hin; set_solver|exact Hl]. }
  exists [Loop cs]. rewrite Es. cbn [mbind option_bind]. rewrite Ei. cbn [mbind option_bind].
  assert (entries <> []) as Hne by (intros E0; rewrite E0 in He0; by apply elem_of_nil in He0).
  split_and!.
  - done.
  - constructor; [|done]. apply (loop_forward (list_to_set entries)); [done|by rewrite Hhead|by rewrite Hhead].
  - constructor; [|done]. by apply sized_loop.
  - intros e He. rewrite heads_cons, Hhead. set_solver.
  - intros x Hx. rewrite bind_singleton. cbn [basics]. apply Hb, (lf_covers _ _ _ _ _ Hl); [by apply Hn|].
    intros ->. by apply (member_not_entry g roots groups before group after).
  - intros x. rewrite bind_singleton. cbn [mentioned]. intros [Hx|Hx]%Hm; [by apply Hin|].
    apply Hn. by apply (lf_mentions _ _ _ _ _ Hl).
Qed.

Lemma component_done :
  exists ss, loopify_group inner limit g (reverse g) group = Some ss /\ group_done g full outer group ss.
Proof using All.
  destruct (entry_exists g roots groups before group after Hr Hc Eg Hlarge) as [e0 He0].
  assert (forall ss, Forall (forward full (outer ∪ exits g group) (exits g group)) ss -> Forall sized ss ->
    (forall e, e ∈ entries -> e ∈ heads ss) ->
    (forall x, x ∈ group -> x ∈ ss ≫= basics) -> (forall x, x ∈ ss ≫= mentioned -> x ∈ group) ->
    group_done g full outer group ss) as Hdone.
  { intros ss Hf Hz Hh Hb Hm. split.
    - done.
    - done.
    - intros n En. rewrite En in Hlarge. simpl in Hlarge. lia.
    - intros t x Ht He Hx. apply Hh, elem_of_entries. eauto.
    - auto.
    - intros x Hx%Hm. split; [by eapply member_node|]. intros ->. by apply (member_not_entry g roots groups before group after). }
  rewrite loopify_group_large by done. destruct (limit <? _).
  - destruct dispatched_done as (ss & E & Hf & Hz & Hh & Hb & Hm). exists ss. split; [exact E|]. by apply Hdone.
  - destruct (copies_done entries) as (ss & E & Hf & Hz & Hh & Hb & Hm).
    + by intros e [? _]%elem_of_entries.
    + exists ss. split; [exact E|]. apply Hdone; [done..| |done]. intros z Hzg. apply Hb; [done|].
      intros E0. rewrite E0 in He0. by apply elem_of_nil in He0.
Qed.
End Component.

Lemma group_size g groups before group after fuel :
  components g groups -> groups = before ++ group :: after -> bounded g fuel -> (length group <= fuel)%nat.
Proof.
  intros Hc Eg Hb. assert (group ∈ groups) as Hin by (rewrite Eg; set_solver). apply Hb.
  - pose proof (cp_nodup _ _ Hc) as Hn. rewrite Eg, concat_app in Hn. cbn [concat] in Hn.
    apply list.NoDup_app in Hn as (_ & _ & Hn). by apply list.NoDup_app in Hn as (Hn & _ & _).
  - intros x Hx. apply (cp_cover _ _ Hc). rewrite Eg, concat_app. cbn [concat]. set_solver.
  - intros x y Hx Hy. by apply (cp_scc _ _ Hc group x Hin Hx y).
Qed.

Lemma groups_done g roots outer groups fuel inner :
  rooted g roots -> components g groups -> within g outer -> bounded g (S fuel) ->
  ((1 <= fuel)%nat -> inner_ok fuel inner) ->
  forall after before, groups = before ++ after ->
  exists results, mapM (loopify_group inner limit g (reverse g)) after = Some results
    /\ Forall2 (group_done g full outer) after results.
Proof.
  intros Hr Hc Hw Hb Hinner. induction after as [|group after IH]; intros before Eg.
  { exists []. by split; [|constructor]. }
  destruct (IH (before ++ [group])) as (results & E & Hdone); [by rewrite <- app_assoc|].
  assert (exists ss, loopify_group inner limit g (reverse g) group = Some ss /\ group_done g full outer group ss) as (ss & Es & Hs).
  { pose proof (group_size g groups before group after _ Hc Eg Hb) as Hsize.
    destruct (decide (2 <= length group)%nat) as [Hl|Hl].
    - apply (component_done g roots outer groups before group after Hr Hc Eg Hw Hl fuel inner Hsize). apply Hinner. lia.
    - pose proof (cp_nonempty _ _ Hc) as Hne. rewrite Eg in Hne. apply Forall_app in Hne as [_ Hne].
      apply list.Forall_cons in Hne as [Hne _]. destruct group as [|n [|? ?]]; [done| |simpl in Hl; lia].
      exists [singleton_structure g n]. split; [done|]. apply (singleton_done g roots outer n Hr); [|done].
      apply (cp_cover _ _ Hc). rewrite Eg, concat_app. cbn [concat]. set_solver. }
  exists (ss :: results). cbn [mapM]. rewrite Es. cbn [mbind option_bind]. rewrite E. by split; [|constructor].
Qed.

(** Every forward branch finds its head in a later group's structures. *)
Lemma chained g roots outer groups results :
  rooted g roots -> components g groups ->
  forall after before, groups = before ++ after -> Forall2 (group_done g full outer) after results ->
  forwards full outer ∅ (concat results).
Proof.
  intros Hr Hc. induction results as [|ss results IH]; intros after before Eg Hd; [done|].
  apply Forall2_cons_inv_r in Hd as (group & after' & Hs & Hrest & ->). cbn [concat].
  apply forwards_app. split; [|apply (IH after' (before ++ [group])); [by rewrite <- app_assoc|done]].
  apply forwards_each. eapply list.Forall_impl; [apply (gd_forward _ _ _ _ _ Hs)|]. intros s. 
  assert (exits g group ⊆ heads (concat results)); [|intros Hf; eapply forward_mono; [| |exact Hf]; set_solver]. intros t [(n & Hn & He) Hno]%elem_of_exits.
  destruct (edge_forward g roots groups before group after' Hr Hc Eg n t Hn He) as [Ht|Ht]; [done|].
  apply elem_of_concat in Ht as (group' & Htg & Hg'). apply list_elem_of_split in Hg' as (l1 & l2 & ->).
  apply Forall2_app_inv_l in Hrest as (r1 & r2' & _ & Hrest & ->).
  apply Forall2_cons_inv_l in Hrest as (ss' & r2 & Hs' & _ & ->).
  rewrite concat_app, heads_app. cbn [concat]. rewrite heads_app.
  apply elem_of_union_r, elem_of_union_l, (gd_heads _ _ _ _ _ Hs' t n Htg He).
  intros Hn'. pose proof (cp_nodup _ _ Hc) as Hnd. rewrite Eg, concat_app in Hnd. cbn [concat] in Hnd.
  rewrite concat_app in Hnd. cbn [concat] in Hnd. apply list.NoDup_app in Hnd as (_ & _ & Hnd).
  apply list.NoDup_app in Hnd as (_ & Hnd & _). apply (Hnd n Hn). set_solver.
Qed.

(** A root is a component of its own. *)
Lemma root_group g roots groups group r :
  components g groups -> rooted g roots -> r ∈ roots -> group ∈ groups -> r ∈ group -> group = [r].
Proof.
  intros Hc Hr Hroot Hg Hrg. assert (forall x, x ∈ group -> x = r) as Honly.
  { intros x Hx. destruct (decide (x = r)) as [|Hxr]; [done|]. exfalso.
    pose proof (proj1 (cp_scc _ _ Hc group x Hg Hx r) Hrg) as [Hr' _].
    destruct (reach_last g x r Hxr Hr') as [z Hz]. by apply (rt_first _ _ Hr r z). }
  apply list_elem_of_split in Hg as (l1 & l2 & Eg).
  pose proof (cp_nodup _ _ Hc) as Hnd. rewrite Eg, concat_app in Hnd. cbn [concat] in Hnd.
  apply list.NoDup_app in Hnd as (_ & _ & Hnd). apply list.NoDup_app in Hnd as (Hnd & _ & _).
  destruct group as [|x [|y l]]; [by apply elem_of_nil in Hrg|by rewrite (Honly x) by set_solver|].
  exfalso. apply list.NoDup_cons in Hnd as [Hnd _]. rewrite (Honly x), (Honly y) in Hnd by set_solver. set_solver.
Qed.

Lemma first_group g r groups :
  components g groups -> rooted g {[r]} -> exists groups', groups = [r] :: groups'.
Proof.
  intros Hc Hr. assert (r ∈ concat groups) as Hin by (apply (cp_cover _ _ Hc), (rt_nodes _ _ Hr); set_solver).
  destruct groups as [|group groups]; [by apply elem_of_nil in Hin|]. exists groups. f_equal.
  assert (forall x, x ∈ concat (group :: groups) -> reach g r x) as Hall.
  { intros x Hx%(cp_cover _ _ Hc). destruct (rt_reach _ _ Hr x Hx) as (r' & ->%elem_of_singleton & ?). done. }
  pose proof (cp_nonempty _ _ Hc) as [Hne _]%list.Forall_cons.
  apply (root_group g {[r]} (group :: groups)); [done|done|set_solver|set_solver|].
  cbn [concat] in Hin. apply elem_of_app in Hin as [Hin|Hin]; [done|]. exfalso.
  apply elem_of_concat in Hin as (group' & Hr' & Hg'). apply list_elem_of_split in Hg' as (l1 & l2 & ->).
  destruct group as [|x group]; [done|].
  apply (cp_order _ _ Hc ((x :: group) :: l1) group' l2 x r); [done|cbn; set_solver|done|].
  apply Hall. cbn. set_solver.
Qed.

(** The structures of the group of a node. *)
Lemma results_of g outer groups results x :
  Forall2 (group_done g full outer) groups results -> x ∈ concat groups ->
  exists group ss, x ∈ group /\ group ∈ groups /\ ss ∈ results /\ group_done g full outer group ss.
Proof.
  intros Hd (group & Hx & Hg)%elem_of_concat. apply list_elem_of_lookup in Hg as [i Hi].
  destruct (Forall2_lookup_l _ _ _ _ _ Hd Hi) as (ss & Hss & Hgd). exists group, ss.
  split_and!; [done| | |done]; apply list_elem_of_lookup; by exists i.
Qed.

Lemma concat_sub {A B} (f : A -> list B) (ss : list A) results x : ss ∈ results -> x ∈ ss ≫= f -> x ∈ concat results ≫= f.
Proof.
  intros Hss Hx. apply list_elem_of_bind in Hx as (s & Hx & Hs). apply list_elem_of_bind. exists s. split; [done|].
  apply elem_of_concat. by exists ss.
Qed.

Lemma sized_results g outer groups results :
  Forall2 (group_done g full outer) groups results -> ENTRY_NODE ∉ concat groups -> Forall sized (concat results).
Proof.
  induction 1 as [|group ss groups results Hd _ IH]; cbn [concat]; intros Hno; [constructor|].
  apply Forall_app. split; [apply (gd_sized _ _ _ _ _ Hd); set_solver|apply IH; set_solver].
Qed.

Lemma loopify_ok fuel : forall g roots outer,
  rooted g roots -> bounded g fuel -> (1 <= fuel)%nat -> within g outer ->
  exists ss, loopify fuel limit g = Some ss /\ loopified g full roots outer ss.
Proof.
  induction fuel as [|fuel IH]; intros g roots outer Hr Hb Hf Hw; [lia|]. cbn [loopify].
  destruct (components_found g) as (groups & Eg & Hc). rewrite Eg. cbn [mbind option_bind].
  destruct (groups_done g roots outer groups fuel (loopify fuel limit) Hr Hc Hw Hb) with (after := groups) (before := @nil (list Z))
    as (results & E & Hd); [|done|].
  { intros H1 sub cut outer' Hr' Hb' Hw'. by apply IH. }
  rewrite E. cbn [mbind option_bind]. exists (concat results). split; [done|]. split.
  - by apply (chained g roots outer groups results Hr Hc groups []).
  - intros x Hx%(cp_cover _ _ Hc) Hne. destruct (results_of g outer groups results x Hd Hx) as (group & ss & Hxg & _ & Hss & Hgd).
    eapply concat_sub; [done|]. by apply (gd_covers _ _ _ _ _ Hgd).
  - intros x Hx. apply list_elem_of_bind in Hx as (s & Hx & Hs). apply elem_of_concat in Hs as (ss & Hs & Hss).
    apply list_elem_of_lookup in Hss as [i Hi]. destruct (Forall2_lookup_r _ _ _ _ _ Hd Hi) as (group & _ & Hgd).
    apply (gd_mentions _ _ _ _ _ Hgd). apply list_elem_of_bind. by exists s.
  - intros r -> Hne. destruct (first_group g r groups Hc Hr) as (groups' & ->).
    cbn [mapM loopify_group] in E. cbn [mbind option_bind] in E. destruct (mapM _ groups') as [results'|]; [|done].
    injection E as <-. cbn [concat app]. eexists _, _. split; [done|]. unfold singleton_structure.
    rewrite (proj2 (Z.eqb_neq _ _) Hne). by destruct (decide _).
  - intros r Hroot Hne. pose proof (proj2 (cp_cover _ _ Hc r) (rt_nodes _ _ Hr r Hroot)) as Hx.
    destruct (results_of g outer groups results r Hd Hx) as (group & ss & Hxg & Hg & Hss & Hgd).
    pose proof (root_group g roots groups group r Hc Hr Hroot Hg Hxg) as ->.
    pose proof (gd_single _ _ _ _ _ Hgd r eq_refl Hne) as Hh. apply elem_of_heads in Hh as (s & Hs & Hh).
    apply elem_of_heads. exists s. split; [|done]. apply elem_of_concat. by exists ss.
  - intros Hno. apply (sized_results g outer groups results Hd). by intros ?%(cp_cover _ _ Hc).
  - intros ->. destruct (first_group g ENTRY_NODE groups Hc Hr) as (groups' & ->).
    cbn [mapM loopify_group] in E. cbn [mbind option_bind] in E. destruct (mapM _ groups') as [results'|]; [|done].
    injection E as <-. cbn [concat app]. apply Forall2_cons_1 in Hd as [_ Hd].
    eexists _, _. split; [reflexivity|]. split; [apply NoDup_ascending|].
    apply (sized_results g outer groups' results' Hd). pose proof (cp_nodup _ _ Hc) as Hnd. cbn in Hnd.
    by apply list.NoDup_cons in Hnd as [Hnd _].
Qed.
End Loopify.
