(* ===== verification/StructureSpec.v ===== *)
(** * Structuring a control-flow graph (structure.rs)

    Block insertion gives every remaining forward branch an enclosing block
    that ends where the branch goes, or leaves it to fall through.  Together:
    for every control-flow graph in which every node is reachable from an
    entry, structuring succeeds, every basic block occurs, and every branch of
    the result has a label in scope or falls through to its target. *)

From stdpp Require Import gmap fin_sets sorting relations.
From S2P Require Import Prelude Structure StructureScc StructureLoop.

(** ** Branches that resolve *)

(** What follows a structure in its list. *)
Definition next_heads (rest : list Structure) (next : list Node) : list Node :=
  match rest with [] => next | s :: _ => head s end.

Section Resolves.
Context (graph : Graph).

(** With labels in scope for [labels], those of [fresh] from blocks inside the
    innermost loop, and [next] the heads of what follows: every branch is a
    jump to a label or a fall through, and a dispatcher's entries are reached
    without starting its loop again.  A block labels what follows it, a loop
    its head. *)
Fixpoint resolves (labels fresh : NodeSet) (next : list Node) (s : Structure) : Prop :=
  let chain := fix chain (labels fresh : NodeSet) (next : list Node) (cs : list Structure) : Prop :=
    match cs with
    | [] => True
    | c :: cs => resolves labels fresh (next_heads cs next) c /\ chain labels fresh next cs
    end in
  match s with
  | Basic n => successors_of graph n ⊆ labels ∪ list_to_set next
  | Dispatcher es => list_to_set es ⊆ fresh ∪ list_to_set next
  | Loop cs => head (Loop cs) <> [] /\ chain (labels ∪ list_to_set (head (Loop cs))) ∅ next cs
  | Block cs => chain (labels ∪ list_to_set next) (fresh ∪ list_to_set next) next cs
  end.

Fixpoint resolved (labels fresh : NodeSet) (next : list Node) (ss : list Structure) : Prop :=
  match ss with
  | [] => True
  | s :: ss => resolves labels fresh (next_heads ss next) s /\ resolved labels fresh next ss
  end.

Lemma resolves_loop labels fresh next cs :
  resolves labels fresh next (Loop cs)
  <-> head (Loop cs) <> [] /\ resolved (labels ∪ list_to_set (head (Loop cs))) ∅ next cs.
Proof. done. Qed.

Lemma resolves_block labels fresh next cs :
  resolves labels fresh next (Block cs)
  <-> resolved (labels ∪ list_to_set next) (fresh ∪ list_to_set next) next cs.
Proof. done. Qed.

Lemma resolved_app labels fresh next ss ss' :
  resolved labels fresh next (ss ++ ss')
  <-> resolved labels fresh (next_heads ss' next) ss /\ resolved labels fresh next ss'.
Proof.
  induction ss as [|s ss IH]; cbn [resolved app]; [tauto|]. rewrite IH.
  destruct ss as [|s2 ss]; cbn [next_heads app]; tauto.
Qed.

(** Labels no branch uses can be dropped. *)
Definition drops (s : Structure) : Prop :=
  forall labels fresh unused next, branches graph s ## unused ->
  resolves (labels ∪ unused) (fresh ∪ unused) next s -> resolves labels fresh next s.

(** A loop's own labels are fresh nowhere inside it. *)
Definition drops_labels (s : Structure) : Prop :=
  forall labels fresh unused next, branches graph s ## unused ->
  resolves (labels ∪ unused) fresh next s -> resolves labels fresh next s.

Lemma resolved_drop_labels_from ss :
  Forall drops_labels ss -> forall labels fresh unused next, Forall (fun s => branches graph s ## unused) ss ->
  resolved (labels ∪ unused) fresh next ss -> resolved labels fresh next ss.
Proof.
  induction 1 as [|s ss Hs _ IH]; intros labels fresh unused next Hb; [done|].
  apply list.Forall_cons in Hb as [Hb1 Hb2]. cbn [resolved]. intros [H1 H2].
  split; [by apply (Hs _ _ unused)|by apply (IH _ _ unused)].
Qed.

Lemma resolved_drop_from ss :
  Forall drops ss -> forall labels fresh unused next, Forall (fun s => branches graph s ## unused) ss ->
  resolved (labels ∪ unused) (fresh ∪ unused) next ss -> resolved labels fresh next ss.
Proof.
  induction 1 as [|s ss Hs _ IH]; intros labels fresh unused next Hb; [done|].
  apply list.Forall_cons in Hb as [Hb1 Hb2]. cbn [resolved]. intros [H1 H2].
  split; [by apply (Hs _ _ unused)|by apply (IH _ _ unused)].
Qed.

Lemma branches_children c cs :
  c ∈ cs -> branches graph c ⊆ ⋃ (branches graph <$> cs).
Proof.
  intros Hc t Ht. apply elem_of_union_list. exists (branches graph c). split; [|done].
  apply list_elem_of_fmap. by exists c.
Qed.

Lemma disjoint_children cs unused :
  ⋃ (branches graph <$> cs) ## unused -> Forall (fun s => branches graph s ## unused) cs.
Proof. intros Hd. apply list.Forall_forall. intros c Hc. pose proof (branches_children c cs Hc). set_solver. Qed.

Lemma resolves_drop_labels s : drops_labels s.
Proof.
  induction s as [n|es|cs IH|cs IH] using Structure_nested_ind; intros labels fresh unused next Hb.
  - cbn in *. set_solver.
  - done.
  - rewrite !resolves_loop. intros [Hh Hr]. split; [done|].
    apply (resolved_drop_labels_from cs IH _ _ unused); [by apply disjoint_children|].
    by replace (labels ∪ list_to_set (head (Loop cs)) ∪ unused) with (labels ∪ unused ∪ list_to_set (head (Loop cs)))
      by set_solver.
  - rewrite !resolves_block. intros Hr.
    apply (resolved_drop_labels_from cs IH _ _ unused); [by apply disjoint_children|].
    by replace (labels ∪ list_to_set next ∪ unused) with (labels ∪ unused ∪ list_to_set next) by set_solver.
Qed.

Lemma resolves_drop s : drops s.
Proof.
  induction s as [n|es|cs IH|cs IH] using Structure_nested_ind; intros labels fresh unused next Hb.
  - cbn in *. set_solver.
  - cbn in *. set_solver.
  - rewrite !resolves_loop. intros [Hh Hr]. split; [done|].
    apply (resolved_drop_labels_from cs (Forall_true _ cs resolves_drop_labels) _ _ unused); [by apply disjoint_children|].
    by replace (labels ∪ list_to_set (head (Loop cs)) ∪ unused) with (labels ∪ unused ∪ list_to_set (head (Loop cs)))
      by set_solver.
  - rewrite !resolves_block. intros Hr. apply (resolved_drop_from cs IH _ _ unused); [by apply disjoint_children|].
    assert (forall X : NodeSet, X ∪ list_to_set next ∪ unused = X ∪ unused ∪ list_to_set next) as E by set_solver.
    by rewrite !E.
Qed.

Lemma resolved_drop ss labels fresh unused next :
  Forall (fun s => branches graph s ## unused) ss ->
  resolved (labels ∪ unused) (fresh ∪ unused) next ss -> resolved labels fresh next ss.
Proof. apply resolved_drop_from, Forall_true, resolves_drop. Qed.

(** ** Placing one structure *)

Lemma place_resolved placed s rest labels fresh next :
  resolved (labels ∪ heads (s :: rest)) (fresh ∪ heads (s :: rest)) (head s) placed ->
  resolves (labels ∪ heads rest) (fresh ∪ heads rest) (next_heads rest next) s ->
  resolved (labels ∪ heads rest) (fresh ∪ heads rest) (next_heads rest next) (place graph placed s).
Proof.
  intros Hp Hs. rewrite heads_cons in Hp. set (H := list_to_set (head s) : NodeSet) in *.
  assert (forall X : NodeSet, X ∪ (H ∪ heads rest) = X ∪ heads rest ∪ H) as E by set_solver. rewrite !E in Hp. clear E.
  set (outer := labels ∪ heads rest) in *. set (near := fresh ∪ heads rest) in *.
  unfold place. fold H. destruct (list_find _ placed) as [[source c]|] eqn:Ef.
  - apply list_find_Some in Ef as (Hc & Hbad & Hbefore).
    assert (Forall (fun s => branches graph s ## H) (take source placed)) as Hpre.
    { apply list.Forall_forall. intros x Hx. apply elem_of_take in Hx as (j & Hj & Hlt).
      apply dec_stable. by apply (Hbefore j x). }
    assert (placed = take source placed ++ c :: drop (S source) placed) as Esplit by (by symmetry; apply take_drop_middle).
    destruct ((source + 1 =? length placed)%nat && is_basic c) eqn:Elast.
    + apply andb_true_iff in Elast as [Elen%Nat.eqb_eq Ebasic]. destruct c as [n| | |]; try done.
      rewrite drop_ge in Esplit by lia. rewrite Esplit in Hp |- *. set (pre := take source placed) in *.
      apply resolved_app in Hp as [Hp1 Hp2]. rewrite <- app_assoc. apply resolved_app. split.
      * by apply (resolved_drop pre outer near H).
      * cbn [app resolved next_heads] in *. destruct Hp2 as [Hp2 _]. split_and!; [|done|done].
        cbn [resolves] in *. fold H in Hp2 |- *. set_solver.
    + rewrite Esplit in Hp. rewrite (drop_S _ _ _ Hc). set (mid := drop (S source) placed) in *. set (pre := take source placed) in *.
      apply resolved_app in Hp as [Hp1 Hp2]. apply resolved_app. split; [by apply (resolved_drop pre outer near H)|].
      cbn [resolved]. split_and!; [|done|done]. apply resolves_block. exact Hp2.
  - apply list_find_None in Ef. apply resolved_app. split; [|done]. apply (resolved_drop placed outer near H); [|done].
    eapply list.Forall_impl; [exact Ef|]. cbn. intros x Hx. by apply dec_stable.
Qed.

Lemma places_resolved rest : forall placed labels fresh next,
  resolved (labels ∪ heads rest) (fresh ∪ heads rest) (next_heads rest next) placed ->
  (forall before s after, rest = before ++ s :: after ->
    resolves (labels ∪ heads after) (fresh ∪ heads after) (next_heads after next) s) ->
  resolved labels fresh next (fold_left (place graph) rest placed).
Proof.
  induction rest as [|s rest IH]; intros placed labels fresh next Hp Hs; cbn [fold_left].
  - cbn in Hp. by rewrite !union_empty_r_L in Hp.
  - apply IH.
    + apply place_resolved; [done|]. apply (Hs [] s rest). done.
    + intros before s' after ->. by apply (Hs (s :: before)).
Qed.
End Resolves.

(** ** Block insertion *)

Section Blockify.
Context (graph : Graph).

(** Placing neither reorders nor drops: it only adds scopes. *)
Lemma place_basics placed s : place graph placed s ≫= basics = (placed ≫= basics) ++ basics s.
Proof.
  unfold place. destruct (list_find _ placed) as [[source c]|]; [destruct (_ && _)|];
    rewrite ?bind_app, ?bind_cons; cbn [basics]; rewrite ?app_nil_r; try done.
  rewrite app_assoc, <- bind_app. by rewrite take_drop.
Qed.

Lemma place_mentioned placed s : place graph placed s ≫= mentioned = (placed ≫= mentioned) ++ mentioned s.
Proof.
  unfold place. destruct (list_find _ placed) as [[source c]|]; [destruct (_ && _)|];
    rewrite ?bind_app, ?bind_cons; cbn [mentioned]; rewrite ?app_nil_r; try done.
  rewrite app_assoc, <- bind_app. by rewrite take_drop.
Qed.

Lemma places_basics ss placed : fold_left (place graph) ss placed ≫= basics = (placed ≫= basics) ++ (ss ≫= basics).
Proof.
  revert placed. induction ss as [|s ss IH]; intros placed; cbn [fold_left]; [by rewrite app_nil_r|].
  by rewrite IH, place_basics, bind_cons, app_assoc.
Qed.

Lemma places_mentioned ss placed :
  fold_left (place graph) ss placed ≫= mentioned = (placed ≫= mentioned) ++ (ss ≫= mentioned).
Proof.
  revert placed. induction ss as [|s ss IH]; intros placed; cbn [fold_left]; [by rewrite app_nil_r|].
  by rewrite IH, place_mentioned, bind_cons, app_assoc.
Qed.

(** The first head stays first. *)
Lemma place_first placed s : placed <> [] -> next_heads (place graph placed s) [] = next_heads placed [].
Proof.
  intros Hne. unfold place. destruct placed as [|p placed]; [done|].
  destruct (list_find _ _) as [[source c]|] eqn:E; [destruct (_ && _)|]; cbn [app]; try done.
  by destruct source.
Qed.

Lemma place_nonempty placed s : place graph placed s <> [].
Proof.
  unfold place. destruct (list_find _ _) as [[source c]|]; [destruct (_ && _)|]; by destruct (take _ _) || by destruct placed.
Qed.

Lemma places_first ss placed :
  placed <> [] -> next_heads (fold_left (place graph) ss placed) [] = next_heads placed [].
Proof.
  revert placed. induction ss as [|s ss IH]; intros placed Hne; cbn [fold_left]; [done|].
  rewrite IH by apply place_nonempty. by apply place_first.
Qed.

Lemma blockified_first ss :
  next_heads (fold_left (place graph) ss []) [] = next_heads ss [].
Proof. destruct ss as [|s ss]; [done|]. cbn [fold_left]. by rewrite places_first. Qed.

Lemma head_loop cs : head (Loop cs) = next_heads cs [].
Proof. by destruct cs. Qed.

Lemma blockify_children_head s : head (blockify_children graph s) = head s.
Proof.
  induction s as [n|es|cs IH|cs IH] using Structure_nested_ind; try done; cbn [blockify_children].
  all: change (head (Block ?cs)) with (head (Loop cs)); rewrite !head_loop, blockified_first; destruct cs as [|c cs]; [done|];
    by apply list.Forall_cons in IH as [IH _].
Qed.

Lemma blockify_children_basics s : basics (blockify_children graph s) = basics s.
Proof.
  induction s as [n|es|cs IH|cs IH] using Structure_nested_ind; try done; cbn [blockify_children basics];
    rewrite places_basics; cbn [mbind list_bind app]; induction IH as [|c cs Hc _ IHcs]; [done| |done|];
    cbn [fmap list_fmap]; rewrite !bind_cons, Hc; by f_equal.
Qed.

Lemma blockify_children_mentioned s : mentioned (blockify_children graph s) = mentioned s.
Proof.
  induction s as [n|es|cs IH|cs IH] using Structure_nested_ind; try done; cbn [blockify_children mentioned];
    rewrite places_mentioned; cbn [mbind list_bind app]; induction IH as [|c cs Hc _ IHcs]; [done| |done|];
    cbn [fmap list_fmap]; rewrite !bind_cons, Hc; by f_equal.
Qed.

Lemma blockified_heads ss : heads (blockify_children graph <$> ss) = heads ss.
Proof.
  induction ss as [|s ss IH]; [done|]. cbn [fmap list_fmap]. by rewrite !heads_cons, IH, blockify_children_head.
Qed.

Lemma blockified_next ss next : next_heads (blockify_children graph <$> ss) next = next_heads ss next.
Proof. destruct ss as [|s ss]; [done|]. apply blockify_children_head. Qed.

Definition blockifies (s : Structure) : Prop :=
  forall labels fresh next, forward graph labels fresh s -> resolves graph labels fresh next (blockify_children graph s).

Lemma blockify_resolved_from ss :
  Forall blockifies ss ->
  forall labels fresh next, forwards graph labels fresh ss -> resolved graph labels fresh next (blockify graph ss).
Proof.
  intros Hall labels fresh next Hf. unfold blockify. apply places_resolved; [done|].
  intros before s' after E. apply fmap_app_inv in E as (b & r & -> & Er & ->).
  symmetry in Er. apply fmap_cons_inv in Er as (s & a & -> & -> & ->).
  apply forwards_app in Hf as [_ [Hs _]]. apply list.Forall_app in Hall as [_ [Hall _]%list.Forall_cons].
  rewrite blockified_heads, blockified_next. by apply Hall.
Qed.

Lemma blockify_children_resolves s : blockifies s.
Proof.
  induction s as [n|es|cs IH|cs IH] using Structure_nested_ind; intros labels fresh next; cbn [blockify_children].
  - cbn. set_solver.
  - cbn. set_solver.
  - rewrite forward_loop, resolves_loop, !head_loop, blockified_first.
    rewrite blockified_next. intros [Hh Hf]. split; [done|]. by apply blockify_resolved_from.
  - rewrite forward_block, resolves_block. intros Hf. apply blockify_resolved_from; [done|].
    eapply forwards_mono_from; [apply Forall_true, forward_mono| | |exact Hf]; set_solver.
Qed.

Lemma blockify_resolved ss labels fresh next :
  forwards graph labels fresh ss -> resolved graph labels fresh next (blockify graph ss).
Proof. apply blockify_resolved_from, Forall_true, blockify_children_resolves. Qed.

(** ** Dispatchers *)

(** Control reaches the dispatcher a list starts with only from the outside
    when [exempt]; the others select among several distinct entries. *)
Fixpoint selective (exempt : bool) (s : Structure) : Prop :=
  let chain := fix chain (exempt : bool) (cs : list Structure) : Prop :=
    match cs with
    | [] => True
    | c :: cs => selective exempt c /\ chain false cs
    end in
  match s with
  | Basic _ => True
  | Dispatcher es => NoDup es /\ (exempt = true \/ (2 <= length es)%nat)
  | Loop cs => chain false cs
  | Block cs => chain exempt cs
  end.

Fixpoint selectives (exempt : bool) (ss : list Structure) : Prop :=
  match ss with
  | [] => True
  | s :: ss => selective exempt s /\ selectives false ss
  end.

Lemma selective_exempt s : selective false s -> selective true s.
Proof.
  induction s as [n|es|cs IH|cs IH] using Structure_nested_ind; cbn; [done|tauto|done|].
  destruct cs as [|c cs]; [done|]. apply list.Forall_cons in IH as [IH _]. intros [Hc Hcs]. split; [by apply IH|done].
Qed.

Lemma selectives_app exempt ss ss' :
  selectives exempt (ss ++ ss') <-> selectives exempt ss /\ selectives (if decide (ss = []) then exempt else false) ss'.
Proof.
  revert exempt. induction ss as [|s ss IH]; intros exempt; cbn [app selectives].
  - rewrite decide_True by done. tauto.
  - rewrite decide_False by done. rewrite IH. destruct (decide (ss = [])); tauto.
Qed.

Lemma selectives_false exempt ss : selectives false ss -> selectives exempt ss.
Proof. destruct exempt; [|done]. destruct ss as [|s ss]; [done|]. intros [Hs Hss]. split; [by apply selective_exempt|done]. Qed.

Lemma place_selective exempt placed s :
  selectives exempt placed -> selective (if decide (placed = []) then exempt else false) s ->
  selectives exempt (place graph placed s).
Proof.
  intros Hp Hs. unfold place. destruct (list_find _ placed) as [[source c]|] eqn:E.
  2: { apply selectives_app. by split. }
  apply list_find_Some in E as (Hc & _ & _). assert (placed <> []) as Hne by (by intros ->).
  rewrite decide_False in Hs by done. destruct (_ && _).
  { apply selectives_app. rewrite decide_False by done. by split. }
  rewrite <- (take_drop source placed) in Hp. apply selectives_app in Hp as [Hp1 Hp2].
  apply selectives_app. split; [done|]. cbn [selectives]. split_and!; [|done|done].
  change (selectives (if decide (take source placed = []) then exempt else false) (drop source placed)). done.
Qed.

Lemma places_selective exempt ss placed :
  selectives exempt placed -> selectives (if decide (placed = []) then exempt else false) ss ->
  selectives exempt (fold_left (place graph) ss placed).
Proof.
  revert placed. induction ss as [|s ss IH]; intros placed Hp Hs; [done|]. cbn [fold_left]. destruct Hs as [Hs Hss].
  apply IH; [by apply place_selective|]. rewrite decide_False by apply place_nonempty. done.
Qed.

Lemma blockify_children_selective s : sized s -> selective false (blockify_children graph s).
Proof.
  assert (forall cs, Forall (fun s => sized s -> selective false (blockify_children graph s)) cs -> Forall sized cs ->
    selectives false (fold_left (place graph) (blockify_children graph <$> cs) [])) as Hcs.
  { intros cs IH Hz. apply places_selective; [done|]. rewrite decide_True by done.
    induction IH as [|c cs Hc _ IHcs]; [done|]. apply list.Forall_cons in Hz as [Hzc Hzs].
    cbn [fmap list_fmap selectives]. split; [by apply Hc|by apply IHcs]. }
  induction s as [n|es|cs IH|cs IH] using Structure_nested_ind.
  - done.
  - cbn. tauto.
  - rewrite sized_loop. by apply Hcs.
  - rewrite sized_block. by apply Hcs.
Qed.

Lemma blockify_selective es ss :
  NoDup es -> Forall sized ss -> selectives true (blockify graph (Dispatcher es :: ss)).
Proof.
  intros Hes Hss. unfold blockify. apply places_selective; [done|]. rewrite decide_True by done.
  cbn [fmap list_fmap selectives blockify_children]. split; [split; [done|by left]|].
  induction Hss as [|s ss Hs _ IH]; [done|]. cbn [fmap list_fmap selectives].
  split; [by apply blockify_children_selective|done].
Qed.

Lemma blockify_basics ss : blockify graph ss ≫= basics = ss ≫= basics.
Proof.
  unfold blockify. rewrite places_basics. cbn [mbind list_bind app]. induction ss as [|s ss IH]; [done|].
  cbn [fmap list_fmap]. by rewrite !bind_cons, IH, blockify_children_basics.
Qed.

Lemma blockify_mentioned ss : blockify graph ss ≫= mentioned = ss ≫= mentioned.
Proof.
  unfold blockify. rewrite places_mentioned. cbn [mbind list_bind app]. induction ss as [|s ss IH]; [done|].
  cbn [fmap list_fmap]. by rewrite !bind_cons, IH, blockify_children_mentioned.
Qed.
End Blockify.

(** ** Structuring a region *)

Section Stackify.
Context (successors : list (list Node)) (entries : list Node) (limit : Z).
Context (Hlen : Z.of_nat (length successors) <= ENTRY_NODE).

Abbreviation graph := (cfg_graph successors entries).
Abbreviation count := (Z.of_nat (length successors)).

(** The edges of the graph: those of the table, to nodes of the table. *)
Definition outgoing (n : Node) : list Node :=
  if decide (n = ENTRY_NODE) then entries
  else if decide (0 <= n) then default [] (successors !! Z.to_nat n) else [].

Lemma cfg_lookup n :
  graph !! n
  = if decide (n = ENTRY_NODE) then Some (list_to_set (filter (fun t => t < count) entries))
    else if decide (0 <= n) then
      (fun outgoing => list_to_set (filter (fun t => t < count) outgoing)) <$> successors !! Z.to_nat n
    else None.
Proof using Hlen.
  unfold cfg_graph. cbv zeta. destruct (decide (n = ENTRY_NODE)) as [->|Hne]; [by rewrite lookup_insert_eq|].
  rewrite lookup_insert_ne by done. set (f := fun (node : nat) (outgoing : list Z) =>
    (Z.of_nat node, list_to_set (filter (fun t => t < count) outgoing) : NodeSet)).
  assert (forall l k, (list_to_map (imap (fun i => f (k + i)%nat) l) : Graph) !! n
    = if decide (Z.of_nat k <= n) then (fun outgoing => list_to_set (filter (fun t => t < count) outgoing)) <$> l !! (Z.to_nat n - k)%nat
      else None) as H.
  { induction l as [|x l IH]; intros k.
    - cbn. rewrite lookup_empty. by destruct (decide _).
    - rewrite imap_cons. cbv beta. unfold f at 1. rewrite list_to_map_cons.
      rewrite (imap_ext _ (fun i => f (S k + i)%nat)) by (intros; cbn; f_equal; lia).
      destruct (decide (n = Z.of_nat (k + 0))) as [->|Hnk].
      + rewrite lookup_insert_eq. rewrite decide_True by lia. replace (Z.to_nat (Z.of_nat (k + 0)) - k)%nat with 0%nat by lia. done.
      + rewrite lookup_insert_ne by done. rewrite IH. destruct (decide (Z.of_nat k <= n)).
        * rewrite decide_True by lia. replace (Z.to_nat n - k)%nat with (S (Z.to_nat n - S k)) by lia. done.
        * by rewrite decide_False by lia. }
  specialize (H successors 0%nat). rewrite Nat.sub_0_r in H. exact H.
Qed.

Lemma cfg_edge x t : edge graph x t <-> t ∈ outgoing x /\ t < count.
Proof using Hlen.
  unfold edge, successors_of, outgoing. rewrite cfg_lookup. destruct (decide (x = ENTRY_NODE)).
  { cbn. rewrite elem_of_list_to_set, list_elem_of_filter. tauto. }
  destruct (decide (0 <= x)); [|cbn; set_solver]. destruct (successors !! Z.to_nat x) as [o|]; cbn; [|set_solver].
  rewrite elem_of_list_to_set, list_elem_of_filter. tauto.
Qed.

Lemma cfg_dom x : x ∈ dom graph <-> x = ENTRY_NODE \/ 0 <= x < count.
Proof using Hlen.
  rewrite elem_of_dom, cfg_lookup. destruct (decide (x = ENTRY_NODE)) as [->|Hne]; [split; [by left|by eexists]|].
  destruct (decide (0 <= x)) as [Hx|Hx]; [|split; [by intros []|lia]]. rewrite fmap_is_Some, lookup_lt_is_Some. lia.
Qed.

(** The table holds indices of machine words. *)
Context (Hnat : Forall (Forall (fun t => 0 <= t)) successors) (Hentries : Forall (fun t => 0 <= t) entries).

Lemma outgoing_nonneg x t : t ∈ outgoing x -> 0 <= t.
Proof using Hnat Hentries Hlen.
  unfold outgoing. destruct (decide (x = ENTRY_NODE)); [by rewrite list.Forall_forall in Hentries; apply Hentries|].
  destruct (decide (0 <= x)); [|set_solver]. destruct (successors !! Z.to_nat x) as [o|] eqn:E; cbn; [|set_solver].
  pose proof (Forall_lookup_1 _ _ _ _ Hnat E) as Ho. by rewrite list.Forall_forall in Ho; apply Ho.
Qed.

Lemma cfg_nodes x : x ∈ nodes graph <-> x = ENTRY_NODE \/ 0 <= x < count.
Proof using Hnat Hentries Hlen.
  rewrite <- cfg_dom. split; [|unfold nodes; set_solver]. unfold nodes. intros [Hx|Hx]%elem_of_union; [done|].
  apply elem_of_union_list in Hx as (t & Ht & Hx). apply list_elem_of_fmap in Ht as (k & -> & _).
  apply cfg_edge in Hx as [Ho Hlt]. apply cfg_dom. right. pose proof (outgoing_nonneg k x Ho). lia.
Qed.

Context (Hreach : forall n, 0 <= n < count -> reach graph ENTRY_NODE n).

Lemma cfg_rooted : rooted graph {[ENTRY_NODE]}.
Proof using Hreach Hnat Hentries Hlen.
  split.
  - intros x ->%elem_of_singleton. apply cfg_nodes. by left.
  - intros r x ->%elem_of_singleton [_ Ht]%cfg_edge. lia.
  - intros x Hx%cfg_nodes. exists ENTRY_NODE. split; [set_solver|]. destruct Hx as [->|Hx]; [done|by apply Hreach].
  - intros x [_ Ht]%cfg_edge. lia.
Qed.

Lemma graph_bounded g : bounded g (search_fuel g).
Proof using Type.
  intros l Hl Hn _. unfold search_fuel. rewrite <- (size_list_to_set (C := NodeSet) l Hl).
  apply Nat.le_le_succ_r, subseteq_size. intros x Hx%elem_of_list_to_set. by apply Hn.
Qed.

(** C38: structuring succeeds for every control-flow graph whose nodes are all
    reachable from an entry, at any duplication limit: every basic block
    occurs, only nodes of the graph do, and every branch resolves. *)
Theorem stackify_resolves :
  exists ss, stackify successors entries limit = Some ss
    /\ resolved graph ∅ ∅ [] ss
    /\ selectives true ss
    /\ (forall n, 0 <= n < count -> n ∈ ss ≫= basics)
    /\ (forall n, n ∈ ss ≫= mentioned -> 0 <= n < count).
Proof using Hreach Hnat Hentries Hlen.
  destruct (loopify_ok graph limit (search_fuel graph) graph {[ENTRY_NODE]} ∅) as (ss & E & Hl).
  - apply cfg_rooted.
  - apply graph_bounded.
  - unfold search_fuel. lia.
  - intros n _ _. set_solver.
  - exists (blockify graph ss). unfold stackify. cbv zeta. rewrite E. split_and!.
    + done.
    + apply blockify_resolved, Hl.
    + destruct (lf_top _ _ _ _ _ Hl eq_refl) as (es & ss' & -> & Hes & Hz). by apply blockify_selective.
    + intros n Hn. rewrite blockify_basics. apply (lf_covers _ _ _ _ _ Hl); [apply cfg_nodes; by right|lia].
    + intros n. rewrite blockify_mentioned. intros [Hn%cfg_nodes Hne]%(lf_mentions _ _ _ _ _ Hl). by destruct Hn.
Qed.
End Stackify.

(** A loop entered in the middle, and a block after it. *)
Lemma stackify_resolves_witness :
  exists ss, stackify [[1]; [0; 2]; []] [0; 1] 0 = Some ss
    /\ resolved (cfg_graph [[1]; [0; 2]; []] [0; 1]) ∅ ∅ [] ss
    /\ selectives true ss
    /\ (forall n, 0 <= n < 3 -> n ∈ ss ≫= basics)
    /\ (forall n, n ∈ ss ≫= mentioned -> 0 <= n < 3).
Proof.
  assert (Z.of_nat (length [[1]; [0; 2]; []]) <= ENTRY_NODE) as Hlen by (vm_compute; discriminate).
  apply (stackify_resolves [[1]; [0; 2]; []] [0; 1] 0 Hlen).
  - repeat constructor; lia.
  - repeat constructor; lia.
  - assert (forall x t, t ∈ outgoing [[1]; [0; 2]; []] [0; 1] x -> t < 3 ->
      edge (cfg_graph [[1]; [0; 2]; []] [0; 1]) x t) as He by (intros; by apply cfg_edge).
    assert (reach (cfg_graph [[1]; [0; 2]; []] [0; 1]) ENTRY_NODE 1) as H1.
    { apply rtc_once, He; [by right; left|lia]. }
    intros n Hn. assert (n = 0 \/ n = 1 \/ n = 2) as [->|[->| ->]] by (cbn in Hn; lia).
    + apply rtc_once, He; [by left|lia].
    + done.
    + eapply rtc_r; [exact H1|]. apply He; [by right; left|lia].
Defined.
