(* ===== verification/Slices.v ===== *)
(** * Byte ranges of a guest memory

    Writing a slice of a byte vector, and the two facts that describe such
    writes: the bytes a memory holds at an address, and the range two memories
    may differ in. *)

From S2P Require Import Prelude Bus.

(** [mem[s..e].copy_from_slice(bytes)]. *)
Definition put_slice {E} (s e : Z) (bytes : list Z) : M E (list Z) unit := fun mem =>
  match copy_from_slice mem s e bytes with
  | Some mem => (Ok tt, mem)
  | None => (Panic, mem)
  end.

(** The bytes [bs] are at address [a]. *)
Definition holds (mem : list Z) (a : Z) (bs : list Z) : Prop :=
  0 <= a /\ a + Z.of_nat (length bs) <= Z.of_nat (length mem)
  /\ forall i x, bs !! i = Some x -> mem !! (Z.to_nat a + i)%nat = Some x.

(** The memories differ at most in [s, e). *)
Definition outside (s e : Z) (mem mem' : list Z) : Prop :=
  length mem = length mem'
  /\ forall i, ~ (s <= Z.of_nat i < e) -> mem !! i = mem' !! i.

Lemma outside_refl s e mem : outside s e mem mem.
Proof. by split. Qed.

Lemma outside_mono s e s' e' mem mem' :
  outside s e mem mem' -> s' <= s -> e <= e' -> outside s' e' mem mem'.
Proof. intros [Hl Ho] Hs He. split; [done|]. intros i Hi. apply Ho. lia. Qed.

Lemma outside_trans s e m1 m2 m3 : outside s e m1 m2 -> outside s e m2 m3 -> outside s e m1 m3.
Proof.
  intros [L1 O1] [L2 O2]. split; [congruence|]. intros i Hi. rewrite O1, O2 by done. done.
Qed.

Lemma holds_outside mem mem' a bs s e :
  holds mem a bs -> outside s e mem mem' ->
  a + Z.of_nat (length bs) <= s \/ e <= a -> holds mem' a bs.
Proof.
  intros (Ha & Hb & Hx) [Hl Ho] Hd. split_and!; [done|by rewrite <- Hl|].
  intros i x Hi. rewrite <- Ho; [by apply Hx|]. apply lookup_lt_Some in Hi. lia.
Qed.

Lemma holds_app mem a b1 b2 :
  holds mem a (b1 ++ b2) <-> holds mem a b1 /\ holds mem (a + Z.of_nat (length b1)) b2.
Proof.
  split.
  - intros (Ha & Hb & Hx). rewrite length_app in Hb. split; split_and!; try lia.
    + intros i x Hi. apply Hx. by apply lookup_app_l_Some.
    + intros i x Hi. replace (Z.to_nat (a + Z.of_nat (length b1)) + i)%nat
        with (Z.to_nat a + (length b1 + i))%nat by lia.
      apply Hx. rewrite lookup_app_r by lia. by replace (length b1 + i - length b1)%nat with i by lia.
  - intros [(Ha & Hb & Hx) (Ha' & Hb' & Hx')]. split_and!; [done|rewrite length_app; lia|].
    intros i x Hi. apply lookup_app_Some in Hi as [Hi|[Hge Hi]]; [by apply Hx|].
    apply Hx' in Hi. rewrite <- Hi. f_equal. lia.
Qed.

(** Writing a slice in range. *)
Lemma put_slice_ok {E} s e bs mem :
  0 <= s -> e = s + Z.of_nat (length bs) -> e <= Z.of_nat (length mem) ->
  exists mem', put_slice (E := E) s e bs mem = (Ok tt, mem') /\ holds mem' s bs /\ outside s e mem mem'.
Proof.
  intros Hs -> He. unfold put_slice, copy_from_slice.
  rewrite (proj2 (Z.leb_le s _)), (proj2 (Z.leb_le _ (Z.of_nat (length mem)))), (proj2 (Z.eqb_eq _ _)) by lia.
  cbn [andb]. eexists. split; [done|].
  replace (Z.to_nat (s + Z.of_nat (length bs))) with (Z.to_nat s + length bs)%nat by lia.
  assert (Z.to_nat s + length bs <= length mem)%nat as Hle by lia.
  split; split_and!; rewrite ?(length_flat_update mem bs (Z.to_nat s) (length bs) Hle eq_refl); try lia.
  - intros i x Hi. rewrite (lookup_flat_update mem bs (Z.to_nat s) (length bs) _ Hle eq_refl).
    pose proof (lookup_lt_Some _ _ _ Hi). rewrite decide_True by lia. rewrite <- Hi. f_equal. lia.
  - intros i Hi. rewrite (lookup_flat_update mem bs (Z.to_nat s) (length bs) _ Hle eq_refl).
    rewrite decide_False by lia. done.
Qed.

Lemma slice_ok l s e :
  0 <= s <= e -> e <= Z.of_nat (length l) ->
  slice l s e = Some (take (Z.to_nat (e - s)) (drop (Z.to_nat s) l)).
Proof.
  intros Hs He. unfold slice. by rewrite (proj2 (Z.leb_le s e)), (proj2 (Z.leb_le e _)) by lia.
Qed.

Lemma u64_id x : 0 <= x < 2 ^ 64 -> u64 x = x.
Proof. intros Hx. by apply (wrap_small 64). Qed.

(** A little-endian word of a byte vector. *)
Definition word (n : nat) (b : list Z) (o : Z) : Z := from_le_bytes (take n (drop (Z.to_nat o) b)).

Lemma word_range n b o :
  Forall (uint 8) b -> 0 <= o -> o + Z.of_nat n <= Z.of_nat (length b) -> uint (8 * Z.of_nat n) (word n b o).
Proof.
  intros Hb Ho Hl. unfold word.
  pose proof (from_le_bytes_range (take n (drop (Z.to_nat o) b))) as Hr.
  rewrite length_take, length_drop, Nat.min_l in Hr by lia. by apply Hr, Forall_take, Forall_drop.
Qed.

(** The memories agree but for the positions of [P]. *)
Definition only (P : Z -> Prop) (m m' : list Z) : Prop :=
  length m = length m' /\ forall i, ~ P (Z.of_nat i) -> m !! i = m' !! i.

Lemma only_refl P m : only P m m.
Proof. by split. Qed.

Lemma only_trans P m1 m2 m3 : only P m1 m2 -> only P m2 m3 -> only P m1 m3.
Proof. intros [L1 O1] [L2 O2]. split; [congruence|]. intros i Hi. by rewrite O1, O2. Qed.

Lemma only_mono (P Q : Z -> Prop) m m' : only P m m' -> (forall i, P i -> Q i) -> only Q m m'.
Proof. intros [L O] HQ. split; [done|]. intros i Hi. apply O. auto. Qed.

Lemma outside_only s e m m' : outside s e m m' <-> only (fun i => s <= i < e) m m'.
Proof. done. Qed.

Lemma holds_nil m a : 0 <= a <= Z.of_nat (length m) -> holds m a [].
Proof. intros. split; [lia|]. split; [simpl; lia|]. intros i x Hx. by rewrite lookup_nil in Hx. Qed.

Lemma copy_from_slice_ok l s bs :
  0 <= s -> s + Z.of_nat (length bs) <= Z.of_nat (length l) ->
  exists l', copy_from_slice l s (s + Z.of_nat (length bs)) bs = Some l' /\
    holds l' s bs /\ outside s (s + Z.of_nat (length bs)) l l'.
Proof.
  intros Hs Hl.
  destruct (put_slice_ok (E := Empty_set) s (s + Z.of_nat (length bs)) bs l) as (l' & E & ?); try done.
  exists l'. split; [|done]. unfold put_slice in E. destruct (copy_from_slice _ _ _ _); congruence.
Qed.

Lemma slice_holds l s bs : holds l s bs -> slice l s (s + Z.of_nat (length bs)) = Some bs.
Proof.
  intros (H0 & H1 & H2). rewrite slice_ok by lia. f_equal.
  replace (s + Z.of_nat (length bs) - s) with (Z.of_nat (length bs)) by lia. rewrite Nat2Z.id.
  apply list_eq. intros i. destruct (decide (i < length bs)%nat) as [Hi|Hi].
  - rewrite lookup_take_lt, lookup_drop by done. apply lookup_lt_is_Some in Hi as [x Hx].
    rewrite Hx. by apply H2.
  - rewrite (lookup_ge_None_2 bs i) by lia. apply lookup_take_ge. lia.
Qed.

Lemma holds_slice l s e bs :
  0 <= s -> slice l s e = Some bs -> holds l s bs /\ Z.of_nat (length bs) = e - s.
Proof.
  intros Hs. unfold slice. destruct (Z.leb_spec s e); [|done].
  destruct (Z.leb_spec e (Z.of_nat (length l))); [|done]. intros [= <-].
  rewrite length_take, length_drop. split; [|lia].
  split; [done|]. rewrite length_take, length_drop. split; [lia|].
  intros i x Hx. rewrite lookup_take in Hx. case_decide; [|done]. by rewrite lookup_drop in Hx.
Qed.

Lemma holds_only P m m' a bs :
  holds m a bs -> only P m m' -> (forall i, a <= i < a + Z.of_nat (length bs) -> ~ P i) ->
  holds m' a bs.
Proof.
  intros (H0 & H1 & H2) [L O] HP. split; [done|]. split; [by rewrite <- L|].
  intros i x Hx. rewrite <- O; [by apply H2|]. apply HP. apply lookup_lt_Some in Hx. lia.
Qed.

Lemma word_holds m a bs : holds m a bs -> word (length bs) m a = from_le_bytes bs.
Proof.
  intros Hh. pose proof (slice_holds _ _ _ Hh) as E. destruct Hh as (H0 & H1 & _).
  rewrite slice_ok in E by lia. unfold word. injection E as E.
  replace (a + Z.of_nat (length bs) - a) with (Z.of_nat (length bs)) in E by lia.
  rewrite Nat2Z.id in E. by rewrite E.
Qed.

(** A word away from the changed positions is unchanged. *)
Lemma word_only P m m' n a :
  only P m m' -> 0 <= a -> a + Z.of_nat n <= Z.of_nat (length m) ->
  (forall i, a <= i < a + Z.of_nat n -> ~ P i) -> word n m' a = word n m a.
Proof.
  intros [L O] Ha Hl HP. unfold word. f_equal. apply list_eq. intros i.
  destruct (decide (i < n)%nat); [|by rewrite !lookup_take_ge by lia].
  rewrite !lookup_take_lt, !lookup_drop by lia. symmetry. apply O, HP. lia.
Qed.

(** Writing bytes keeps a memory of bytes. *)
Lemma only_bytes P m m' bs a :
  Forall (uint 8) m -> only P m m' -> holds m' a bs -> Forall (uint 8) bs ->
  (forall i, P i -> a <= i < a + Z.of_nat (length bs)) -> Forall (uint 8) m'.
Proof.
  intros Hm [L O] (H0 & H1 & H2) Hbs HP. apply Forall_lookup_2. intros i x Hx.
  destruct (decide (a <= Z.of_nat i < a + Z.of_nat (length bs))) as [Hi|Hi].
  - destruct (lookup_lt_is_Some_2 bs (i - Z.to_nat a)) as [y Hy]; [lia|].
    pose proof (H2 _ _ Hy) as E. replace (Z.to_nat a + (i - Z.to_nat a))%nat with i in E by lia.
    rewrite Hx in E. simplify_eq. by apply (Forall_lookup_1 _ bs (i - Z.to_nat a)).
  - rewrite <- O in Hx; [by apply (Forall_lookup_1 _ m i)|]. by intros Hp%HP.
Qed.
