(* ===== verification/Linux.v ===== *)
(** * User-mode Linux (rv64-linux: elf.rs, lib.rs, syscall.rs)

    The ELF loader, the initial process stack, the system calls and the run
    loop of a machine that executes static Linux binaries on flat memory.
    [usize] has 64 bits, and additions wrap as they do in the release profile. *)

From S2P Require Import Prelude Exception Csr State Bus Slices Mmu Vector Exec Step Run.

(** ** The ELF loader *)

Inductive ElfError : Type :=
| NotElf
| Not64Bit
| NotRiscv
| NotExecutable
| Truncated
| SegmentOutOfRange (vaddr size : Z).

Record LoadedElf : Type := mkLoadedElf {
  entry : Z;
  phdr_addr : Z;
  phent : Z;
  phnum : Z;
  brk_start : Z;
  bias : Z
}.

Definition ET_EXEC : Z := 2.
Definition ET_DYN : Z := 3.
Definition PT_LOAD : Z := 1.
Definition EM_RISCV : Z := 243.
Definition PIE_BASE : Z := 0x400000.

(** The loader threads the guest memory. *)
Definition Loader (A : Type) : Type := M ElfError (list Z) A.

(** [r16], [r32], [r64]: little-endian words of the image. *)
Definition read_le (n : Z) (b : list Z) (o : Z) : Loader Z :=
  bytes <- unwrap (slice b o (u64 (o + n))) ;; ret (from_le_bytes bytes).

Definition r16 : list Z -> Z -> Loader Z := read_le 2.
Definition r32 : list Z -> Z -> Loader Z := read_le 4.
Definition r64 : list Z -> Z -> Loader Z := read_le 8.

(** What the loop accumulates. *)
Record Segments : Type := mkSegments { sg_brk_start : Z; sg_phdr_addr : Z }.

Definition page_up (x : Z) : Z := u64 (x + 0xfff) .&~ 0xfff.

(** One program header. *)
Definition load_segment (elf : list Z) (bias e_phoff off : Z) (g : Segments) : Loader Segments :=
  if Z.of_nat (length elf) <? u64 (off + 56) then throw Truncated else
  p_type <- r32 elf off ;;
  p_offset <- r64 elf (u64 (off + 8)) ;;
  vaddr <- r64 elf (u64 (off + 16)) ;;
  let p_vaddr := add64 vaddr bias in
  p_filesz <- r64 elf (u64 (off + 32)) ;;
  p_memsz <- r64 elf (u64 (off + 40)) ;;
  if negb (p_type =? PT_LOAD) then ret g else
  mem <- gets id ;;
  let end_ := p_vaddr + p_memsz in
  if (2 ^ 64 <=? end_) || (Z.of_nat (length mem) <? end_)
  then throw (SegmentOutOfRange p_vaddr p_memsz) else
  let src_end := add64 p_offset p_filesz in
  if Z.of_nat (length elf) <? src_end then throw Truncated else
  src <- unwrap (slice elf p_offset src_end) ;;
  put_slice p_vaddr (add64 p_vaddr p_filesz) src ;;;
  ret (mkSegments (Z.max g.(sg_brk_start) end_)
         (if (p_offset <=? e_phoff) && (e_phoff <? src_end)
          then add64 p_vaddr (e_phoff - p_offset) else g.(sg_phdr_addr))).

(** [for i in first..first + n]. *)
Fixpoint load_segments (elf : list Z) (bias e_phoff e_phentsize first : Z) (n : nat)
    (g : Segments) : Loader Segments :=
  match n with
  | O => ret g
  | S n =>
      g <- load_segment elf bias e_phoff (u64 (e_phoff + first * e_phentsize)) g ;;
      load_segments elf bias e_phoff e_phentsize (first + 1) n g
  end.

(** Program headers no segment covers are copied to the break. *)
Definition place_phdrs (elf : list Z) (e_phoff e_phentsize e_phnum : Z) (g : Segments)
    : Loader Segments :=
  if g.(sg_phdr_addr) =? 0 then
    let sz := e_phentsize * e_phnum in
    let dst := g.(sg_brk_start) in
    src <- unwrap (slice elf e_phoff (u64 (e_phoff + sz))) ;;
    put_slice dst (u64 (dst + sz)) src ;;;
    ret (mkSegments (u64 (dst + sz)) dst)
  else ret g.

Definition ELF_MAGIC : list Z := [0x7f; 0x45; 0x4c; 0x46].

(** Map [elf] into the guest memory. *)
Definition elf_load (elf : list Z) : Loader LoadedElf :=
  if Z.of_nat (length elf) <? 64 then throw Truncated else
  if negb (bool_decide (take 4 elf = ELF_MAGIC)) then throw NotElf else
  if negb (aget elf 4 =? 2) then throw Not64Bit else
  e_type <- r16 elf 16 ;;
  machine <- r16 elf 18 ;;
  if negb (machine =? EM_RISCV) then throw NotRiscv else
  if negb (e_type =? ET_EXEC) && negb (e_type =? ET_DYN) then throw NotExecutable else
  let bias := if e_type =? ET_DYN then PIE_BASE else 0 in
  e_entry <- r64 elf 24 ;;
  e_phoff <- r64 elf 32 ;;
  e_phentsize <- r16 elf 54 ;;
  e_phnum <- r16 elf 56 ;;
  g <- load_segments elf bias e_phoff e_phentsize 0 (Z.to_nat e_phnum) (mkSegments 0 0) ;;
  g <- place_phdrs elf e_phoff e_phentsize e_phnum g ;;
  ret (mkLoadedElf (add64 e_entry bias) g.(sg_phdr_addr) e_phentsize e_phnum
         (page_up g.(sg_brk_start)) bias).

(** ** The host and the machine *)

(** Host-side effects of the program. *)
Class Host (H : Type) : Type := {
  write_out : Z -> list Z -> H -> H;
  clock_ns : H -> Z * H;
  random : nat -> H -> list Z * H
}.

(** The trait's provided methods. *)
Definition default_clock_ns {H} (h : H) : Z * H := (0, h).
Definition default_random {H} (n : nat) (h : H) : list Z * H := (replicate n 0x5a, h).

Record Machine : Type := mkMachine {
  cpu : Cpu;
  m_mem : list Z;
  m_brk : Z;
  m_brk_start : Z;
  mmap_top : Z;
  exit_code : option Z;
  icache_flush_pending : bool
}.

Definition set_cpu (c : Cpu) (m : Machine) : Machine :=
  mkMachine c m.(m_mem) m.(m_brk) m.(m_brk_start) m.(mmap_top) m.(exit_code) m.(icache_flush_pending).
Definition set_m_mem (l : list Z) (m : Machine) : Machine :=
  mkMachine m.(cpu) l m.(m_brk) m.(m_brk_start) m.(mmap_top) m.(exit_code) m.(icache_flush_pending).
Definition set_brk (b : Z) (m : Machine) : Machine :=
  mkMachine m.(cpu) m.(m_mem) b m.(m_brk_start) m.(mmap_top) m.(exit_code) m.(icache_flush_pending).
Definition set_mmap_top (t : Z) (m : Machine) : Machine :=
  mkMachine m.(cpu) m.(m_mem) m.(m_brk) m.(m_brk_start) t m.(exit_code) m.(icache_flush_pending).
Definition set_exit_code (o : option Z) (m : Machine) : Machine :=
  mkMachine m.(cpu) m.(m_mem) m.(m_brk) m.(m_brk_start) m.(mmap_top) o m.(icache_flush_pending).
Definition set_icache_flush_pending (f : bool) (m : Machine) : Machine :=
  mkMachine m.(cpu) m.(m_mem) m.(m_brk) m.(m_brk_start) m.(mmap_top) m.(exit_code) f.

Definition DEFAULT_MEM : Z := 256 .<< 20.
Definition STACK_SIZE : Z := 8 .<< 20.

Inductive RunResult : Type :=
| Exited (code : Z)
| BudgetExhausted
| Trapped (e : Exception).

(** ** The initial stack *)

(** The closure [push_bytes]: a NUL-terminated string below [pos]. *)
Definition push_bytes (bytes : list Z) (pos : Z) : Loader Z :=
  let n := Z.of_nat (length bytes) in
  let pos := sub64 pos (n + 1) in
  put_slice pos (u64 (pos + n)) bytes ;;;
  put_slice (u64 (pos + n)) (u64 (pos + n) + 1) [0] ;;;
  ret pos.

(** The pointers of a list of strings, pushed in order. *)
Fixpoint push_strings (l : list (list Z)) (pos : Z) : Loader (list Z * Z) :=
  match l with
  | [] => ret ([], pos)
  | s :: l =>
      p <- push_bytes s pos ;;
      r <- push_strings l p ;;
      ret (p :: fst r, snd r)
  end.

Definition AT_PHDR : Z := 3.
Definition AT_PHENT : Z := 4.
Definition AT_PHNUM : Z := 5.
Definition AT_PAGESZ : Z := 6.
Definition AT_BASE : Z := 7.
Definition AT_FLAGS : Z := 8.
Definition AT_ENTRY : Z := 9.
Definition AT_UID : Z := 11.
Definition AT_EUID : Z := 12.
Definition AT_GID : Z := 13.
Definition AT_EGID : Z := 14.
Definition AT_HWCAP : Z := 16.
Definition AT_CLKTCK : Z := 17.
Definition AT_SECURE : Z := 23.
Definition AT_RANDOM : Z := 25.

Definition auxv (e : LoadedElf) (at_random : Z) : list (Z * Z) :=
  [(AT_PHDR, e.(phdr_addr)); (AT_PHENT, e.(phent)); (AT_PHNUM, e.(phnum)); (AT_PAGESZ, 4096);
   (AT_BASE, 0); (AT_FLAGS, 0); (AT_ENTRY, e.(entry)); (AT_UID, 1000); (AT_EUID, 1000);
   (AT_GID, 1000); (AT_EGID, 1000); (AT_HWCAP, 0x20112d); (AT_CLKTCK, 100); (AT_SECURE, 0);
   (AT_RANDOM, at_random); (0, 0)].

(** The closure [put], over the words of the block. *)
Fixpoint put_words (w : Z) (words : list Z) : Loader unit :=
  match words with
  | [] => ret tt
  | v :: words => put_slice w (u64 (w + 8)) (to_le_bytes 8 v) ;;; put_words (u64 (w + 8)) words
  end.

(** argc, argv, NULL, envp, NULL, auxv. *)
Definition stack_words (argv_ptrs envp_ptrs : list Z) (e : LoadedElf) (at_random : Z) : list Z :=
  [Z.of_nat (length argv_ptrs)] ++ argv_ptrs ++ [0] ++ envp_ptrs ++ [0]
  ++ concat (map (fun '(k, v) => [k; v]) (auxv e at_random)).

(** The stack pointer; the memory is the state. *)
Definition setup_stack (stack_top : Z) (argv envp : list (list Z)) (e : LoadedElf) (rnd : list Z)
    : Loader Z :=
  a <- push_strings argv stack_top ;;
  v <- push_strings envp (snd a) ;;
  let at_random := sub64 (snd v) 16 in
  put_slice at_random (u64 (at_random + 16)) rnd ;;;
  let words := stack_words (fst a) (fst v) e at_random in
  let pos := at_random .&~ 15 in
  let sp := sub64 pos (Z.of_nat (length words) * 8) .&~ 15 in
  put_words sp words ;;;
  ret sp.

(** ** System calls *)

Definition SYS_GETCWD : Z := 17.
Definition SYS_FCNTL : Z := 25.
Definition SYS_IOCTL : Z := 29.
Definition SYS_UNLINKAT : Z := 35.
Definition SYS_FACCESSAT : Z := 48.
Definition SYS_OPENAT : Z := 56.
Definition SYS_CLOSE : Z := 57.
Definition SYS_LSEEK : Z := 62.
Definition SYS_READ : Z := 63.
Definition SYS_WRITE : Z := 64.
Definition SYS_READV : Z := 65.
Definition SYS_WRITEV : Z := 66.
Definition SYS_PPOLL : Z := 73.
Definition SYS_READLINKAT : Z := 78.
Definition SYS_NEWFSTATAT : Z := 79.
Definition SYS_FSTAT : Z := 80.
Definition SYS_EXIT : Z := 93.
Definition SYS_EXIT_GROUP : Z := 94.
Definition SYS_SET_TID_ADDRESS : Z := 96.
Definition SYS_FUTEX : Z := 98.
Definition SYS_SET_ROBUST_LIST : Z := 99.
Definition SYS_CLOCK_GETTIME : Z := 113.
Definition SYS_SCHED_GETAFFINITY : Z := 123.
Definition SYS_SIGALTSTACK : Z := 132.
Definition SYS_RT_SIGACTION : Z := 134.
Definition SYS_RT_SIGPROCMASK : Z := 135.
Definition SYS_UNAME : Z := 160.
Definition SYS_GETRUSAGE : Z := 165.
Definition SYS_GETTIMEOFDAY : Z := 169.
Definition SYS_GETPID : Z := 172.
Definition SYS_GETPPID : Z := 173.
Definition SYS_GETUID : Z := 174.
Definition SYS_GETEUID : Z := 175.
Definition SYS_GETGID : Z := 176.
Definition SYS_GETEGID : Z := 177.
Definition SYS_GETTID : Z := 178.
Definition SYS_BRK : Z := 214.
Definition SYS_MUNMAP : Z := 215.
Definition SYS_MREMAP : Z := 216.
Definition SYS_MMAP : Z := 222.
Definition SYS_MPROTECT : Z := 226.
Definition SYS_MADVISE : Z := 233.
Definition SYS_PRLIMIT64 : Z := 261.
Definition SYS_GETRANDOM : Z := 278.
Definition SYS_RSEQ : Z := 293.
Definition SYS_RISCV_FLUSH_ICACHE : Z := 259.
Definition ENOSYS : Z := -38.
Definition EBADF : Z := -9.
Definition EINVAL : Z := -22.
Definition ENOENT : Z := -2.
Definition ENOMEM : Z := -12.
Definition PAGE : Z := 4096.

Section Machine.
Context {H : Type} `{Host H}.

(** [Machine::load]. *)
Definition load_machine (elf : list Z) (argv envp : list (list Z)) (mem_size : Z) (h : H)
    : outcome ElfError Machine * H :=
  match elf_load elf (replicate (Z.to_nat mem_size) 0) with
  | (Err e, _) => (Err e, h)
  | (Panic, _) => (Panic, h)
  | (Ok loaded, mem) =>
      let stack_top := sub64 mem_size 16 in
      let stack_bottom := sub64 mem_size STACK_SIZE in
      let '(rnd, h) := random 16 h in
      match setup_stack stack_top argv envp loaded rnd mem with
      | (Err e, _) => (Err e, h)
      | (Panic, _) => (Panic, h)
      | (Ok sp, mem) =>
          let c := set_xr 2 sp (set_pc loaded.(entry) Cpu_new) in
          (Ok (mkMachine c mem loaded.(brk_start) loaded.(brk_start) stack_bottom None false), h)
      end
  end.

(** Computations on the machine and its host. *)
Definition Sys (A : Type) : Type := M Empty_set (Machine * H) A.

Definition machine : Sys Machine := gets fst.
Definition update (f : Machine -> Machine) : Sys unit := on_fst (modify f).

(** An operation on the guest memory. *)
Definition on_mem {A} (op : M Empty_set (list Z) A) : Sys A := on_fst (fun m =>
  match op m.(m_mem) with (o, l) => (o, set_m_mem l m) end).

(** A call of the host. *)
Definition on_host {A} (f : H -> A * H) : Sys A := on_snd (fun h => let '(a, h) := f h in (Ok a, h)).

Definition sys_write (fd buf len : Z) : Sys Z :=
  if negb ((1 <=? fd) && (fd <=? 2)) then ret EBADF else
  m <- machine ;;
  let e := add64 buf len in
  if Z.of_nat (length m.(m_mem)) <? e then ret EINVAL else
  bytes <- unwrap (slice m.(m_mem) buf e) ;;
  on_host (fun h => (tt, write_out fd bytes h)) ;;;
  ret (i64 len).

Definition read_u64 (addr : Z) : Sys Z :=
  m <- machine ;;
  bytes <- unwrap (slice m.(m_mem) addr (u64 (addr + 8))) ;;
  ret (from_le_bytes bytes).

Definition write_u64 (addr v : Z) : Sys unit :=
  on_mem (put_slice addr (u64 (addr + 8)) (to_le_bytes 8 v)).

(** The loop of SYS_WRITEV, [n] vectors to go from index [i]. *)
Fixpoint writev (fd iov : Z) (n : nat) (i total : Z) : Sys Z :=
  match n with
  | O => ret total
  | S n =>
      base <- read_u64 (u64 (iov + i * 16)) ;;
      len <- read_u64 (u64 (u64 (iov + i * 16) + 8)) ;;
      k <- sys_write fd base len ;;
      if k <? 0 then ret k else
      let total := i64 (u64 (total + k)) in
      if u64 k <? len then ret total else writev fd iov n (i + 1) total
  end.

Definition sys_brk (req : Z) : Sys Z :=
  m <- machine ;;
  (if (m.(m_brk_start) <=? req) && (req <? m.(mmap_top)) then update (set_brk req) else ret tt) ;;;
  m <- machine ;;
  ret (i64 m.(m_brk)).

Definition sys_mmap (addr length_ : Z) : Sys Z :=
  m <- machine ;;
  let len := u64 (length_ + PAGE - 1) .&~ (PAGE - 1) in
  if len =? 0 then ret EINVAL
  else if negb (addr =? 0) then ret (i64 addr)
  else if sub64 m.(mmap_top) len <=? m.(m_brk) then ret ENOMEM
  else
    update (set_mmap_top (sub64 m.(mmap_top) len)) ;;;
    m <- machine ;;
    let s := m.(mmap_top) in
    let e := add64 m.(mmap_top) len in
    on_mem (put_slice s e (replicate (Z.to_nat (e - s)) 0)) ;;;
    ret (i64 m.(mmap_top)).

Definition NS : Z := 1000000000.

Definition uname_fields : list (Z * list Z) :=
  [(0, [0x4c; 0x69; 0x6e; 0x75; 0x78]);
   (1, [0x72; 0x76; 0x36; 0x34; 0x6a; 0x73]);
   (2, [0x36; 0x2e; 0x31; 0x2e; 0x30]);
   (3, [0x23; 0x31; 0x20; 0x72; 0x76; 0x36; 0x34; 0x2e; 0x6a; 0x73]);
   (4, [0x72; 0x69; 0x73; 0x63; 0x76; 0x36; 0x34])].

(** [mem[base..base + n].fill(0)]. *)
Definition zero_fill (base n : Z) : Sys unit :=
  on_mem (put_slice base (u64 (base + n)) (replicate (Z.to_nat n) 0)).

Definition sys_uname (base : Z) : Sys Z :=
  zero_fill base (65 * 6) ;;;
  (fix go (l : list (Z * list Z)) : Sys unit :=
     match l with
     | [] => ret tt
     | (i, s) :: l =>
         let p := u64 (base + i * 65) in
         on_mem (put_slice p (u64 (p + Z.of_nat (length s))) s) ;;; go l
     end) uname_fields ;;;
  ret 0.

Definition sys_fstat (statbuf : Z) : Sys Z :=
  zero_fill statbuf 128 ;;;
  on_mem (put_slice (u64 (statbuf + 16)) (u64 (statbuf + 20)) (to_le_bytes 4 0x2190)) ;;;
  ret 0.

Definition sys_getcwd (buf size : Z) : Sys Z :=
  if size <? 2 then ret EINVAL
  else on_mem (put_slice buf (u64 (buf + 2)) [0x2f; 0]) ;;; ret (i64 buf).

Definition sys_getrandom (buf size : Z) : Sys Z :=
  let len := Z.min size 256 in
  tmp <- on_host (random (Z.to_nat len)) ;;
  on_mem (put_slice buf (u64 (buf + len)) tmp) ;;;
  ret len.

(** Seconds and a scaled fraction at [addr]. *)
Definition write_time (addr scale : Z) : Sys Z :=
  ns <- on_host clock_ns ;;
  write_u64 addr (ns / NS) ;;;
  write_u64 (u64 (addr + 8)) ((ns mod NS) / scale) ;;;
  ret 0.

(** The system calls that return a value; [None] is a number not in the table. *)
Definition dispatch (nr : Z) (a : Z -> Z) : option (Sys Z) :=
  let among l := existsb (Z.eqb nr) l in
  if nr =? SYS_WRITE then Some (sys_write (i32 (u32 (a 0))) (a 1) (a 2))
  else if nr =? SYS_WRITEV then
    Some (writev (i32 (u32 (a 0))) (a 1) (Z.to_nat (Z.min (a 2) 64)) 0 0)
  else if among [SYS_READ; SYS_READV; SYS_PPOLL] then Some (ret 0)
  else if nr =? SYS_BRK then Some (sys_brk (a 0))
  else if nr =? SYS_MMAP then Some (sys_mmap (a 0) (a 1))
  else if nr =? SYS_RISCV_FLUSH_ICACHE then
    Some (update (set_icache_flush_pending true) ;;; ret 0)
  else if among [SYS_MUNMAP; SYS_MPROTECT; SYS_MADVISE] then Some (ret 0)
  else if nr =? SYS_MREMAP then Some (ret ENOMEM)
  else if nr =? SYS_CLOCK_GETTIME then Some (write_time (a 1) 1)
  else if nr =? SYS_GETTIMEOFDAY then Some (write_time (a 0) 1000)
  else if nr =? SYS_GETRANDOM then Some (sys_getrandom (a 0) (a 1))
  else if nr =? SYS_UNAME then Some (sys_uname (a 0))
  else if nr =? SYS_GETCWD then Some (sys_getcwd (a 0) (a 1))
  else if among [SYS_FSTAT; SYS_NEWFSTATAT] then
    Some (sys_fstat (if nr =? SYS_FSTAT then a 1 else a 2))
  else if among [SYS_IOCTL; SYS_FCNTL] then Some (ret 0)
  else if among [SYS_OPENAT; SYS_FACCESSAT; SYS_UNLINKAT; SYS_READLINKAT] then Some (ret ENOENT)
  else if among [SYS_CLOSE; SYS_LSEEK] then Some (ret (if i32 (u32 (a 0)) <=? 2 then 0 else EBADF))
  else if among [SYS_SET_TID_ADDRESS; SYS_GETTID; SYS_GETPID] then Some (ret 42)
  else if nr =? SYS_GETPPID then Some (ret 1)
  else if among [SYS_GETUID; SYS_GETEUID; SYS_GETGID; SYS_GETEGID] then Some (ret 1000)
  else if among [SYS_SET_ROBUST_LIST; SYS_RT_SIGACTION; SYS_RT_SIGPROCMASK; SYS_SIGALTSTACK;
              SYS_PRLIMIT64; SYS_GETRUSAGE; SYS_RSEQ] then Some (ret 0)
  else if nr =? SYS_FUTEX then Some (ret 0)
  else if nr =? SYS_SCHED_GETAFFINITY then
    Some (if 8 <=? a 1 then write_u64 (a 2) 1 ;;; ret 8 else ret EINVAL)
  else None.

(** Service the system call; [Some] code when the program terminated. *)
Definition handle : Sys (option Z) :=
  m <- machine ;;
  let nr := xr m.(cpu) 17 in
  let a i := xr m.(cpu) (10 + i) in
  if (nr =? SYS_EXIT) || (nr =? SYS_EXIT_GROUP) then ret (Some (i32 (u32 (a 0)))) else
  r <- (match dispatch nr a with Some call => call | None => ret ENOSYS end) ;;
  update (fun m => set_cpu (set_xr 10 (u64 r) m.(cpu)) m) ;;;
  ret None.

(** ** The run loop *)

Context `{VectorUnit FlatMemory}.

(** A slice of the interpreter on the machine's memory. *)
Definition run_cpu (slice : Z) : Sys StopReason := fun '(m, h) =>
  match run slice (m.(cpu), mkFlat 0 m.(m_mem)) with
  | (Ok stop, (c, f)) => (Ok stop, (set_m_mem f.(mem) (set_cpu c m), h))
  | (Err _, (c, f)) | (Panic, (c, f)) => (Panic, (set_m_mem f.(mem) (set_cpu c m), h))
  end.

(** The loop, by the passes left; [None] when they are used up. *)
Fixpoint run_machine_loop (fuel : nat) (remaining : Z) : Sys (option RunResult) :=
  match fuel with
  | O => ret None
  | S fuel =>
      let slice := Z.min remaining 1000000 in
      stop <- run_cpu slice ;;
      match stop with
      | Budget =>
          let remaining := remaining - slice in
          if remaining =? 0 then ret (Some BudgetExhausted) else run_machine_loop fuel remaining
      | Ecall =>
          o <- handle ;;
          match o with
          | Some code => update (set_exit_code (Some code)) ;;; ret (Some (Exited code))
          | None => run_machine_loop fuel remaining
          end
      | Break => ret (Some (Exited 133))
      | Trap e => ret (Some (Trapped e))
      | Wfi => panic
      end
  end.
End Machine.
