(* ===== verification/LinuxSpec.v ===== *)
(** * What user-mode Linux promises

    The loader maps every segment and leaves the rest of memory alone, the
    initial stack has the layout of the ABI, the system calls keep the machine's
    invariant, anonymous mappings are disjoint from the heap and from each
    other, and slicing the budget is invisible. *)

From S2P Require Import Prelude Exception Csr State Bus Slices Mmu Trap CsrOps Vector Exec Step T0 Run Wf.
From S2P Require Import SafeMem SafeExec SafeStep T0Run RunSpec Linux.

(** ** The initial stack *)

Definition string_bytes (l : list (list Z)) : Z :=
  foldr (fun s n => Z.of_nat (length s) + 1 + n) 0 l.

Lemma string_bytes_nonneg l : 0 <= string_bytes l.
Proof. induction l; simpl; lia. Qed.

Lemma i64_small x : 0 <= x < 2 ^ 63 -> i64 x = x.
Proof. intros Hx. unfold i64, signed. rewrite Z.mod_small; lia. Qed.

Lemma sub64_id x y : 0 <= y <= x -> x < 2 ^ 64 -> sub64 x y = x - y.
Proof. intros. apply u64_id. lia. Qed.

Lemma push_bytes_ok s pos mem :
  Z.of_nat (length s) + 1 <= pos -> pos <= Z.of_nat (length mem) < 2 ^ 64 ->
  let p := pos - (Z.of_nat (length s) + 1) in
  exists mem', push_bytes s pos mem = (Ok p, mem') /\ holds mem' p (s ++ [0]) /\ outside p pos mem mem'.
Proof.
  intros Hp Hl p. unfold push_bytes. rewrite sub64_id by lia. fold p. unfold bind.
  rewrite !(u64_id (p + _)) by lia.
  destruct (put_slice_ok (E := ElfError) p (p + Z.of_nat (length s)) s mem) as (m1 & -> & H1 & O1); [lia..|].
  pose proof (proj1 O1) as L1.
  destruct (put_slice_ok (E := ElfError) (p + Z.of_nat (length s)) (p + Z.of_nat (length s) + 1) [0] m1)
    as (m2 & -> & H2 & O2); [simpl; lia..|].
  exists m2. split; [done|]. split.
  - apply holds_app. split; [|done]. eapply holds_outside; [exact H1|exact O2|]. lia.
  - eapply outside_trans; (eapply outside_mono; [eassumption|lia..]).
Qed.

Lemma push_strings_ok l pos mem :
  string_bytes l <= pos -> pos <= Z.of_nat (length mem) < 2 ^ 64 ->
  exists ps mem', push_strings l pos mem = (Ok (ps, pos - string_bytes l), mem')
    /\ Forall2 (fun p s => pos - string_bytes l <= p /\ holds mem' p (s ++ [0])
                  /\ p + Z.of_nat (length s) < pos) ps l
    /\ outside (pos - string_bytes l) pos mem mem'.
Proof.
  revert pos mem. induction l as [|s l IH]; intros pos mem Hp Hl.
  - exists [], mem. cbn [push_strings string_bytes foldr]. rewrite Z.sub_0_r.
    split_and!; [done|constructor|apply outside_refl].
  - cbn [push_strings string_bytes foldr] in *. fold (string_bytes l) in *.
    pose proof (string_bytes_nonneg l).
    destruct (push_bytes_ok s pos mem) as (m1 & E1 & H1 & O1); [lia..|].
    unfold bind. rewrite E1. pose proof (proj1 O1) as L1.
    destruct (IH (pos - (Z.of_nat (length s) + 1)) m1) as (ps & m2 & E2 & F2 & O2); [lia..|].
    rewrite E2. cbn [fst snd]. unfold ret.
    replace (pos - (Z.of_nat (length s) + 1) - string_bytes l)
      with (pos - (Z.of_nat (length s) + 1 + string_bytes l)) in * by lia.
    eexists _, m2. split; [done|]. split.
    + constructor.
      * split_and!; [lia| |lia]. eapply holds_outside; [exact H1|exact O2|]. rewrite length_app; simpl. lia.
      * eapply Forall2_impl; [|exact F2]. intros p s' (? & ? & ?). split_and!; [lia|done|lia].
    + eapply outside_trans; (eapply outside_mono; [eassumption|lia..]).
Qed.

(** The bytes of a block of words. *)
Definition word_bytes (words : list Z) : list Z := concat (map (to_le_bytes 8) words).

Lemma length_word_bytes words : length (word_bytes words) = (8 * length words)%nat.
Proof.
  unfold word_bytes. induction words as [|w words IH]; [done|]. cbn [map concat length].
  rewrite length_app, length_to_le_bytes. unfold word_bytes in IH. lia.
Qed.

Lemma put_words_ok words w mem :
  0 <= w -> w + 8 * Z.of_nat (length words) <= Z.of_nat (length mem) < 2 ^ 64 ->
  exists mem', put_words w words mem = (Ok tt, mem') /\ holds mem' w (word_bytes words)
    /\ outside w (w + 8 * Z.of_nat (length words)) mem mem'.
Proof.
  revert w mem. induction words as [|v words IH]; intros w mem Hw Hl.
  - exists mem. split_and!; [done|split_and!; [done|simpl; lia|done]|apply outside_refl].
  - cbn [put_words length] in *. unfold bind. rewrite u64_id by lia.
    destruct (put_slice_ok (E := ElfError) w (w + 8) (to_le_bytes 8 v) mem) as (m1 & -> & H1 & O1);
      [lia|rewrite length_to_le_bytes; lia|lia|].
    pose proof (proj1 O1) as L1. destruct (IH (w + 8) m1) as (m2 & -> & H2 & O2); [lia..|].
    exists m2. split; [done|]. split.
    + change (word_bytes (v :: words)) with (to_le_bytes 8 v ++ word_bytes words). apply holds_app.
      rewrite length_to_le_bytes. split; [|exact H2]. eapply holds_outside; [exact H1|exact O2|].
      rewrite length_to_le_bytes. lia.
    + eapply outside_trans; (eapply outside_mono; [eassumption|lia..]).
Qed.

Lemma clear_low4 x : 0 <= x -> x .&~ 15 = x - x mod 16.
Proof.
  intros Hx. change 15 with (Z.ones 4). rewrite Z.ldiff_ones_r, Z.shiftl_mul_pow2, Z.shiftr_div_pow2 by lia.
  change (2 ^ 4) with 16. pose proof (Z.div_mod x 16). lia.
Qed.

Lemma length_stack_words a v e r : length (stack_words a v e r) = (35 + length a + length v)%nat.
Proof. unfold stack_words. rewrite !length_app. simpl. lia. Qed.

(** The words the Linux ABI puts at the stack pointer of a new process: argc,
    the argv pointers and a NULL, the envp pointers and a NULL, and the
    auxiliary vector, whose keys are spelled as numbers: 3 to 9 for the program
    headers (address, entry size, count), the page size, the interpreter base,
    the flags and the entry point, 11 to 14 for the user and group ids, 16 for
    the hardware capabilities, 17 for the clock ticks, 23 for secure mode, 25 for
    the entropy, and 0 to end it. *)
Definition abi_words (argc : Z) (argv envp : list Z) (phdr phent phnum entry random : Z) : list Z :=
  argc :: argv ++ 0 :: envp ++ 0 ::
  [3; phdr; 4; phent; 5; phnum; 6; 4096; 7; 0; 8; 0; 9; entry; 11; 1000; 12; 1000; 13; 1000; 14; 1000;
   16; 0x20112d; 17; 100; 23; 0; 25; random; 0; 0].

Lemma stack_words_abi a v e r :
  stack_words a v e r = abi_words (Z.of_nat (length a)) a v e.(phdr_addr) e.(phent) e.(phnum) e.(entry) r.
Proof. reflexivity. Qed.

(** C30: The initial process stack has the layout of the Linux ABI: the returned
    stack pointer is 16-byte aligned and points at argc, the argv pointers, a
    NULL, the envp pointers, a NULL and the auxiliary vector; every pointer is
    to its NUL-terminated string, AT_RANDOM to the entropy; and no byte outside
    the stack area is changed. *)
Theorem setup_stack_abi top argv envp e rnd mem :
  length rnd = 16%nat ->
  string_bytes argv + string_bytes envp + 46
    + 8 * (35 + Z.of_nat (length argv) + Z.of_nat (length envp)) <= top ->
  top <= Z.of_nat (length mem) < 2 ^ 64 ->
  exists sp mem' argv_ptrs envp_ptrs at_random,
    setup_stack top argv envp e rnd mem = (Ok sp, mem')
    /\ sp mod 16 = 0
    /\ holds mem' sp (word_bytes (abi_words (Z.of_nat (length argv)) argv_ptrs envp_ptrs
                          e.(phdr_addr) e.(phent) e.(phnum) e.(entry) at_random))
    /\ Forall2 (fun p s => holds mem' p (s ++ [0])) argv_ptrs argv
    /\ Forall2 (fun p s => holds mem' p (s ++ [0])) envp_ptrs envp
    /\ holds mem' at_random rnd
    /\ 0 <= sp /\ outside sp top mem mem'.
Proof.
  intros Hr Hn Hl. unfold setup_stack, bind.
  pose proof (string_bytes_nonneg argv). pose proof (string_bytes_nonneg envp).
  destruct (push_strings_ok argv top mem) as (pa & m1 & -> & Fa & O1); [lia..|].
  pose proof (proj1 O1) as L1. cbn [fst snd].
  destruct (push_strings_ok envp (top - string_bytes argv) m1) as (pe & m2 & -> & Fe & O2); [lia..|].
  pose proof (proj1 O2) as L2. cbn [fst snd].
  set (ar := top - string_bytes argv - string_bytes envp - 16) in *.
  rewrite (sub64_id _ 16) by lia. fold ar. rewrite (u64_id (ar + 16)) by lia.
  destruct (put_slice_ok (E := ElfError) ar (ar + 16) rnd m2) as (m3 & -> & H3 & O3); [lia..|].
  pose proof (proj1 O3) as L3. rewrite (clear_low4 ar) by lia.
  pose proof (Forall2_length Fa). pose proof (Forall2_length Fe).
  pose proof (Z.mod_pos_bound ar 16 ltac:(lia)).
  rewrite length_stack_words. rewrite sub64_id by lia.
  set (q := ar - ar mod 16 - Z.of_nat (35 + length pa + length pe) * 8) in *. rewrite (clear_low4 q) by lia.
  pose proof (Z.mod_pos_bound q 16 ltac:(lia)).
  destruct (put_words_ok (stack_words pa pe e ar) (q - q mod 16) m3) as (m4 & -> & Hw4 & O4);
    [lia|rewrite length_stack_words; lia|].
  rewrite length_stack_words in O4.
  exists (q - q mod 16), m4, pa, pe, ar. unfold ret.
  assert (forall p s, ar + 16 <= p -> holds m2 p (s ++ [0]) -> holds m4 p (s ++ [0])) as Hkeep.
  { intros p s Hp Hs. eapply holds_outside; [eapply holds_outside; [exact Hs|exact O3|lia]|exact O4|lia]. }
  split_and!; [done| |by rewrite <- (Forall2_length Fa), <- stack_words_abi| | | |lia|].
  - pose proof (Z.div_mod q 16). replace (q - q mod 16) with (q / 16 * 16) by lia. apply Z.mod_mul. lia.
  - eapply Forall2_impl; [|exact Fa]. intros p s (Hp & Hs & Hb). apply Hkeep; [lia|].
    eapply holds_outside; [exact Hs|exact O2|lia].
  - eapply Forall2_impl; [|exact Fe]. intros p s (Hp & Hs & Hb). apply Hkeep; [lia|done].
  - eapply holds_outside; [exact H3|exact O4|lia].
  - eapply outside_trans; [eapply outside_mono; [exact O1|lia..]|].
    eapply outside_trans; [eapply outside_mono; [exact O2|lia..]|].
    eapply outside_trans; (eapply outside_mono; [eassumption|lia..]).
Qed.

(** ** The loader *)

Lemma read_le_word n b o mem :
  0 <= o -> 0 <= n -> o + n <= Z.of_nat (length b) < 2 ^ 64 ->
  read_le n b o mem = (Ok (word (Z.to_nat n) b o), mem).
Proof.
  intros Ho Hn Hl. unfold read_le, bind. rewrite u64_id by lia. rewrite slice_ok by lia.
  unfold word. by replace (o + n - o) with n by lia.
Qed.

Record Phdr : Type := mkPhdr {
  p_type : Z; p_offset : Z; p_vaddr : Z; p_filesz : Z; p_memsz : Z
}.

Definition phdr_at (elf : list Z) (bias off : Z) : Phdr :=
  mkPhdr (word 4 elf off) (word 8 elf (off + 8)) (add64 (word 8 elf (off + 16)) bias)
    (word 8 elf (off + 32)) (word 8 elf (off + 40)).

Definition loads (p : Phdr) : bool := p.(p_type) =? PT_LOAD.
Definition p_end (p : Phdr) : Z := p.(p_vaddr) + p.(p_memsz).
Definition file_bytes (elf : list Z) (p : Phdr) : list Z :=
  take (Z.to_nat p.(p_filesz)) (drop (Z.to_nat p.(p_offset)) elf).

(** A segment that fits: its file bytes are in the image and its memory in the
    guest's, and the file part is no longer than the memory part. *)
Record segment_ok (elf : list Z) (size : Z) (p : Phdr) : Prop := {
  so_vaddr : 0 <= p.(p_vaddr);
  so_offset : 0 <= p.(p_offset);
  so_filesz : 0 <= p.(p_filesz) <= p.(p_memsz);
  so_memory : p_end p <= size;
  so_image : p.(p_offset) + p.(p_filesz) <= Z.of_nat (length elf)
}.

Lemma length_file_bytes elf size p :
  segment_ok elf size p -> Z.of_nat (length (file_bytes elf p)) = p.(p_filesz).
Proof. intros [? ? ? ? ?]. unfold file_bytes. rewrite length_take, length_drop. lia. Qed.

(** What a header adds to the accumulator. *)
Definition add_segment (e_phoff : Z) (p : Phdr) (g : Segments) : Segments :=
  if loads p then
    mkSegments (Z.max g.(sg_brk_start) (p_end p))
      (if (p.(p_offset) <=? e_phoff) && (e_phoff <? p.(p_offset) + p.(p_filesz))
       then p.(p_vaddr) + (e_phoff - p.(p_offset)) else g.(sg_phdr_addr))
  else g.

Lemma load_segment_ok elf bias e_phoff off g mem :
  Forall (uint 8) elf -> 0 <= off -> off + 56 <= Z.of_nat (length elf) < 2 ^ 64 ->
  Z.of_nat (length mem) < 2 ^ 64 ->
  let p := phdr_at elf bias off in
  (loads p = true -> segment_ok elf (Z.of_nat (length mem)) p) ->
  exists mem', load_segment elf bias e_phoff off g mem = (Ok (add_segment e_phoff p g), mem')
    /\ (if loads p then holds mem' p.(p_vaddr) (file_bytes elf p)
          /\ outside p.(p_vaddr) (p.(p_vaddr) + p.(p_filesz)) mem mem'
        else mem' = mem).
Proof.
  intros Hb Ho Hl Hm p Hok. unfold load_segment, add_segment. rewrite u64_id by lia.
  rewrite (proj2 (Z.ltb_ge _ _)) by lia. unfold r32, r64, bind.
  rewrite !(u64_id (off + _)) by lia. rewrite !read_le_word by lia.
  change (Z.to_nat 4) with 4%nat. change (Z.to_nat 8) with 8%nat.
  change (word 4 elf off =? PT_LOAD) with (loads p).
  change (add64 (word 8 elf (off + 16)) bias) with p.(p_vaddr).
  change (word 8 elf (off + 8)) with p.(p_offset). change (word 8 elf (off + 32)) with p.(p_filesz).
  change (word 8 elf (off + 40)) with p.(p_memsz).
  destruct (loads p) eqn:Hld; cbn [negb]; [|by exists mem].
  destruct (Hok eq_refl) as [Hv Hof Hfs Hmem Him]. unfold gets, id.
  fold (p_end p). rewrite (proj2 (Z.leb_gt _ _)), (proj2 (Z.ltb_ge _ (p_end p))) by lia. cbn [orb].
  unfold p_end in *. assert (add64 (p_offset p) (p_filesz p) = p_offset p + p_filesz p) as -> by (apply u64_id; lia).
  assert (add64 (p_vaddr p) (p_filesz p) = p_vaddr p + p_filesz p) as -> by (apply u64_id; lia).
  rewrite (proj2 (Z.ltb_ge _ _)) by lia. rewrite slice_ok by lia.
  replace (p_offset p + p_filesz p - p_offset p) with (p_filesz p) by lia. cbn [unwrap]. unfold ret at 1.
  fold (file_bytes elf p). pose proof (length_file_bytes elf _ p (Hok eq_refl)) as Hlen.
  destruct (put_slice_ok (E := ElfError) (p_vaddr p) (p_vaddr p + p_filesz p) (file_bytes elf p) mem)
    as (m1 & -> & H1 & O1); [lia..|].
  exists m1. split; [|by split]. unfold ret. do 3 f_equal.
  destruct (Z.leb_spec (p_offset p) e_phoff), (Z.ltb_spec e_phoff (p_offset p + p_filesz p)); cbn [andb]; try done.
  apply u64_id. lia.
Qed.

(** The program headers from index [first] on. *)
Fixpoint phdrs (elf : list Z) (bias e_phoff e_phentsize first : Z) (n : nat) : list Phdr :=
  match n with
  | O => []
  | S n => phdr_at elf bias (e_phoff + first * e_phentsize)
           :: phdrs elf bias e_phoff e_phentsize (first + 1) n
  end.

Definition apart (p q : Phdr) : Prop :=
  p.(p_vaddr) + p.(p_filesz) <= q.(p_vaddr) \/ q.(p_vaddr) + q.(p_filesz) <= p.(p_vaddr).

(** [mem'] is [mem] with the file bytes of the segments. *)
Definition mapped (elf : list Z) (ps : list Phdr) (mem mem' : list Z) : Prop :=
  length mem = length mem'
  /\ (forall i, (forall p, In p ps -> loads p = true ->
                   ~ (p.(p_vaddr) <= Z.of_nat i < p.(p_vaddr) + p.(p_filesz))) ->
        mem !! i = mem' !! i)
  /\ (forall l1 p l2, ps = l1 ++ p :: l2 -> loads p = true ->
        (forall q, In q l2 -> loads q = true -> apart p q) ->
        holds mem' p.(p_vaddr) (file_bytes elf p)).

Lemma mapped_keeps elf ps mem mem' a bs :
  mapped elf ps mem mem' -> holds mem a bs ->
  (forall q, In q ps -> loads q = true ->
     a + Z.of_nat (length bs) <= q.(p_vaddr) \/ q.(p_vaddr) + q.(p_filesz) <= a) ->
  holds mem' a bs.
Proof.
  intros (Hl & Ho & _) (Ha & Hb & Hx) Hd. split_and!; [done|by rewrite <- Hl|].
  intros i x Hi. rewrite <- Ho; [by apply Hx|]. apply lookup_lt_Some in Hi.
  intros p Hp Hld. specialize (Hd p Hp Hld). lia.
Qed.

Lemma load_segments_ok elf bias e_phoff e_phentsize n first g mem :
  Forall (uint 8) elf -> Z.of_nat (length elf) < 2 ^ 64 -> Z.of_nat (length mem) < 2 ^ 64 ->
  0 <= e_phoff -> 0 <= e_phentsize -> 0 <= first ->
  (forall i, first <= i < first + Z.of_nat n ->
     e_phoff + i * e_phentsize + 56 <= Z.of_nat (length elf)) ->
  let ps := phdrs elf bias e_phoff e_phentsize first n in
  Forall (fun p => loads p = true -> segment_ok elf (Z.of_nat (length mem)) p) ps ->
  exists mem', load_segments elf bias e_phoff e_phentsize first n g mem
      = (Ok (foldl (fun g p => add_segment e_phoff p g) g ps), mem')
    /\ mapped elf ps mem mem'.
Proof.
  intros Hb Hl Hm Hpo Hpe. revert first g mem Hm. induction n as [|n IH]; intros first g mem Hm Hf Hin ps Hok.
  - exists mem. split; [done|]. split_and!; [done..|]. intros l1 p l2 E. by destruct l1.
  - subst ps. cbn [phdrs load_segments foldl] in *. apply Forall_cons_1 in Hok as [Hp Hok].
    pose proof (Hin first ltac:(lia)) as H0. assert (0 <= first * e_phentsize) by nia.
    unfold bind. rewrite (u64_id (e_phoff + _)) by lia.
    destruct (load_segment_ok elf bias e_phoff (e_phoff + first * e_phentsize) g mem Hb) as (m1 & -> & H1); [lia..|done|].
    set (p := phdr_at elf bias (e_phoff + first * e_phentsize)) in *.
    assert (length mem = length m1) as L1.
    { destruct (loads p); [apply H1|by subst m1]. }
    rewrite L1 in Hok. destruct (IH (first + 1) (add_segment e_phoff p g) m1) as (m2 & -> & H2); [lia|lia| |done|].
    { intros i Hi. apply Hin. lia. }
    exists m2. split; [done|]. pose proof H2 as (L2 & O2 & S2). split_and!; [congruence| |].
    + intros i Hi. rewrite <- O2 by (intros q Hq; apply Hi; by right).
      destruct (loads p) eqn:Hld; [|by subst m1]. apply H1. apply (Hi p); [by left|done].
    + intros [|p' l1] q l2 [= <- El] Hld Hd; [|by eapply S2].
      rewrite Hld in H1. eapply mapped_keeps; [exact H2|apply H1|]. rewrite (length_file_bytes _ _ _ (Hp Hld)).
      intros q Hq Hlq. rewrite El in Hq. by apply Hd.
Qed.

Definition covers (e_phoff : Z) (p : Phdr) : bool :=
  loads p && (p.(p_offset) <=? e_phoff) && (e_phoff <? p.(p_offset) + p.(p_filesz)).

Lemma fold_segments e_phoff ps g :
  let g' := foldl (fun g p => add_segment e_phoff p g) g ps in
  g.(sg_brk_start) <= g'.(sg_brk_start)
  /\ (forall p, In p ps -> loads p = true -> p_end p <= g'.(sg_brk_start))
  /\ (g'.(sg_brk_start) = g.(sg_brk_start) \/ exists p, In p ps /\ loads p = true /\ g'.(sg_brk_start) = p_end p)
  /\ (g'.(sg_phdr_addr) = g.(sg_phdr_addr) /\ (forall p, In p ps -> covers e_phoff p = false)
      \/ exists p, In p ps /\ covers e_phoff p = true
           /\ g'.(sg_phdr_addr) = p.(p_vaddr) + (e_phoff - p.(p_offset))).
Proof.
  revert g. induction ps as [|p ps IH]; intros g; cbn [foldl].
  { split_and!; [done|by intros p []|by left|left; split; [done|by intros p []]]. }
  destruct (IH (add_segment e_phoff p g)) as (H1 & H2 & H3 & H4).
  set (g' := foldl _ _ ps) in *.
  assert (sg_brk_start g <= sg_brk_start (add_segment e_phoff p g)
          /\ (loads p = true -> p_end p <= sg_brk_start (add_segment e_phoff p g))
          /\ (sg_brk_start (add_segment e_phoff p g) = sg_brk_start g
              \/ loads p = true /\ sg_brk_start (add_segment e_phoff p g) = p_end p)) as (A1 & A2 & A3).
  { unfold add_segment. destruct (loads p); simpl; [|by split_and!; [lia| |left]]. split_and!; [lia|lia|]. lia. }
  split_and!; [lia| | |].
  - intros q [<-|Hq] Hld; [specialize (A2 Hld); lia|by apply H2].
  - destruct H3 as [->|(q & Hq & Hld & ->)]; [|right; exists q; split_and!; [by right|done..]].
    destruct A3 as [->|[Hld ->]]; [by left|]. right. exists p. split_and!; [by left|done..].
  - destruct H4 as [[-> Hn]|(q & Hq & Hc & ->)]; [|right; exists q; split_and!; [by right|done..]].
    unfold add_segment, covers in *. destruct (loads p) eqn:Hld.
    + cbn [sg_phdr_addr]. destruct ((p_offset p <=? e_phoff) && (e_phoff <? p_offset p + p_filesz p)) eqn:Hc.
      * right. exists p. rewrite Hld. split_and!; [by left|exact Hc|done].
      * left. split; [done|]. intros q [<-|Hq]; [rewrite Hld; exact Hc|by apply Hn].
    + left. split; [done|]. intros q [<-|Hq]; [by rewrite Hld|by apply Hn].
Qed.

Definition elf_bias (elf : list Z) : Z := if word 2 elf 16 =? ET_DYN then PIE_BASE else 0.
Definition elf_phdrs (elf : list Z) : list Phdr :=
  phdrs elf (elf_bias elf) (word 8 elf 32) (word 2 elf 54) 0 (Z.to_nat (word 2 elf 56)).

(** A RISC-V executable whose headers and segments are in range, with a segment
    that covers the header table. *)
Record elf_wf (elf : list Z) (size : Z) : Prop := {
  ew_bytes : Forall (uint 8) elf;
  ew_len : 64 <= Z.of_nat (length elf) < 2 ^ 63;
  ew_magic : take 4 elf = ELF_MAGIC;
  ew_class : aget elf 4 = 2;
  ew_machine : word 2 elf 18 = EM_RISCV;
  ew_type : word 2 elf 16 = ET_EXEC \/ word 2 elf 16 = ET_DYN;
  ew_headers i : 0 <= i < word 2 elf 56 ->
    word 8 elf 32 + i * word 2 elf 54 + 56 <= Z.of_nat (length elf);
  ew_segments : Forall (fun p => loads p = true -> segment_ok elf size p) (elf_phdrs elf);
  ew_covered : exists p, In p (elf_phdrs elf) /\ covers (word 8 elf 32) p = true;
  ew_nonzero p : In p (elf_phdrs elf) -> covers (word 8 elf 32) p = true ->
    p.(p_vaddr) + (word 8 elf 32 - p.(p_offset)) <> 0
}.

Lemma page_up_bounds x : 0 <= x < 2 ^ 63 -> x <= page_up x < x + 4096 /\ page_up x mod 4096 = 0.
Proof.
  intros Hx. unfold page_up. rewrite u64_id by lia.
  assert ((x + 0xfff) .&~ 0xfff = (x + 4095) / 4096 * 4096) as ->.
  { change (x + 0xfff) with (x + 4095). change 0xfff with (Z.ones 12).
    by rewrite Z.ldiff_ones_r, Z.shiftl_mul_pow2, Z.shiftr_div_pow2 by lia. }
  pose proof (Z.div_mod (x + 4095) 4096). pose proof (Z.mod_pos_bound (x + 4095) 4096).
  split; [lia|]. apply Z.mod_mul. lia.
Qed.

(** C31: Loading is complete and exact: a well-formed executable loads without
    error; entry point and headers are the file's, biased for a PIE; every
    loadable segment that no later one overlaps has its file bytes at its
    address; every other byte of memory keeps its value, so zero-initialised
    data is zero; the table address lies in a segment that covers it; and the
    program break is the first page boundary at or above every segment. *)
Theorem elf_load_maps elf mem :
  elf_wf elf (Z.of_nat (length mem)) -> Z.of_nat (length mem) < 2 ^ 63 ->
  exists l mem', elf_load elf mem = (Ok l, mem')
    /\ l.(bias) = elf_bias elf /\ l.(entry) = add64 (word 8 elf 24) l.(bias)
    /\ l.(phent) = word 2 elf 54 /\ l.(phnum) = word 2 elf 56
    /\ mapped elf (elf_phdrs elf) mem mem'
    /\ (exists p, In p (elf_phdrs elf) /\ covers (word 8 elf 32) p = true
          /\ l.(phdr_addr) = p.(p_vaddr) + (word 8 elf 32 - p.(p_offset)))
    /\ l.(brk_start) mod 4096 = 0
    /\ (forall p, In p (elf_phdrs elf) -> loads p = true -> p_end p <= l.(brk_start))
    /\ exists p, In p (elf_phdrs elf) /\ loads p = true /\ l.(brk_start) < p_end p + 4096.
Proof.
  intros Hw Hm. destruct Hw as [Hb Hl Hmg Hcl Hma Hty Hh Hs Hc Hnz].
  assert (forall n o, 0 <= o -> 0 <= n <= 8 -> o + n <= 64 ->
    read_le n elf o mem = (Ok (word (Z.to_nat n) elf o), mem)) as Hrd.
  { intros n o ? ? ?. apply read_le_word; lia. }
  pose proof (word_range 8 elf 32 Hb ltac:(lia) ltac:(lia)) as [Hpo _].
  pose proof (word_range 2 elf 54 Hb ltac:(lia) ltac:(lia)) as [Hpe _].
  pose proof (word_range 2 elf 56 Hb ltac:(lia) ltac:(lia)) as [Hpn _].
  unfold elf_load. rewrite (proj2 (Z.ltb_ge _ 64)) by lia.
  rewrite bool_decide_eq_true_2, Hcl by done. cbn [negb Z.eqb Pos.eqb]. unfold r16, r64, bind.
  rewrite !Hrd by lia. change (Z.to_nat 2) with 2%nat. rewrite Hma. cbn [negb Z.eqb Pos.eqb EM_RISCV].
  assert (negb (word 2 elf 16 =? ET_EXEC) && negb (word 2 elf 16 =? ET_DYN) = false) as ->.
  { destruct Hty as [->|Hty]; [done|]. rewrite Hty. done. }
  fold (elf_bias elf). rewrite !Hrd by lia. change (Z.to_nat 2) with 2%nat. change (Z.to_nat 8) with 8%nat.
  destruct (load_segments_ok elf (elf_bias elf) (word 8 elf 32) (word 2 elf 54) (Z.to_nat (word 2 elf 56)) 0
              (mkSegments 0 0) mem) as (m1 & -> & H1); try done; try lia.
  { intros i Hi. apply Hh. lia. }
  fold (elf_phdrs elf) in *.
  destruct (fold_segments (word 8 elf 32) (elf_phdrs elf) (mkSegments 0 0)) as (B1 & B2 & B3 & B4).
  set (g := foldl _ _ (elf_phdrs elf)) in *. cbn [sg_brk_start sg_phdr_addr] in *.
  destruct B4 as [[_ Hno]|(p & Hp & Hcp & Ha)].
  { destruct Hc as (p & Hp & Hcp). by rewrite (Hno p Hp) in Hcp. }
  unfold place_phdrs. rewrite Ha, (proj2 (Z.eqb_neq _ 0)) by (by apply Hnz). unfold ret.
  eexists _, m1. split; [reflexivity|]. cbn [bias entry phent phnum phdr_addr brk_start].
  rewrite Forall_forall in Hs.
  assert (exists q, In q (elf_phdrs elf) /\ loads q = true /\ sg_brk_start g = p_end q) as (q & Hq & Hlq & Eq).
  { destruct B3 as [Hz|Hq]; [|done]. exists p. unfold covers in Hcp. destruct (loads p) eqn:Hld; [|done].
    split_and!; [done..|]. specialize (B2 p Hp Hld). destruct (Hs p Hp Hld). unfold p_end in *. lia. }
  destruct (Hs q Hq Hlq) as [Q1 Q2 Q3 Q4 Q5].
  assert (0 <= p_end q) by (unfold p_end; lia).
  destruct (page_up_bounds (sg_brk_start g)) as [P1 P2]; [lia|].
  split_and!; try done.
  - exists p. done.
  - intros x Hx Hlx. specialize (B2 x Hx Hlx). lia.
  - exists q. split_and!; [done..|]. lia.
Qed.

(** ** System calls *)

(** What the host's answers are: entropy of the length asked for, a 64-bit time. *)
Class HostOk (H : Type) `{Host H} : Prop := {
  random_ok n h : length (fst (random n h)) = n /\ Forall (uint 8) (fst (random n h));
  clock_ok h : uint 64 (fst (clock_ns h))
}.

Record machine_wf (m : Machine) : Prop := {
  mw_cpu : wf_cpu m.(cpu);
  mw_bytes : Forall (uint 8) m.(m_mem);
  mw_size : Z.of_nat (length m.(m_mem)) < 2 ^ 63;
  mw_brk : 0 <= m.(m_brk_start) <= m.(m_brk);
  mw_top : 0 <= m.(mmap_top) <= Z.of_nat (length m.(m_mem));
  mw_gap : m.(m_brk) < m.(mmap_top) \/ m.(m_brk) = m.(m_brk_start)
}.

(** A system call keeps the memory size and the start of the heap, moves the
    mapping area only down, and leaves the registers to [handle]. *)
Record serves (m m' : Machine) : Prop := {
  sv_wf : machine_wf m';
  sv_size : length m'.(m_mem) = length m.(m_mem);
  sv_start : m'.(m_brk_start) = m.(m_brk_start);
  sv_top : m'.(mmap_top) <= m.(mmap_top);
  sv_cpu : m'.(cpu) = m.(cpu)
}.

Lemma serves_refl m : machine_wf m -> serves m m.
Proof. by split. Qed.

Lemma serves_trans m1 m2 m3 : serves m1 m2 -> serves m2 m3 -> serves m1 m3.
Proof. intros [? ? ? ? ?] [? ? ? ? ?]. split; [done|congruence|congruence|lia|congruence]. Qed.

Lemma copy_from_slice_Some mem s e bs mem' :
  0 <= s -> Forall (uint 8) mem -> Forall (uint 8) bs -> copy_from_slice mem s e bs = Some mem' ->
  length mem' = length mem /\ Forall (uint 8) mem'.
Proof.
  intros Hs Hm Hb. unfold copy_from_slice.
  destruct (Z.leb_spec s e), (Z.leb_spec e (Z.of_nat (length mem))), (Z.eqb_spec (Z.of_nat (length bs)) (e - s));
    try done. intros [= <-]. split.
  - rewrite !length_app, length_take, length_drop. lia.
  - rewrite !Forall_app. split_and!; [by apply Forall_take|done|by apply Forall_drop].
Qed.

Section Syscalls.
Context {H : Type} `{HostOk H}.

Local Abbreviation Sys := (Sys (H := H)).

Definition served {A} (op : Sys A) : Prop := forall m h, machine_wf m ->
  match op (m, h) with (Ok _, (m', _)) => serves m m' | (Err _, _) => False | (Panic, _) => True end.

Lemma served_ret {A} (a : A) : served (ret a).
Proof. intros m h Hm. by apply serves_refl. Qed.

Lemma served_unwrap {A} (o : option A) : served (unwrap o).
Proof. destruct o; [apply served_ret|done]. Qed.

Lemma served_bind {A C} (op : Sys A) (k : A -> Sys C) :
  served op -> (forall a, served (k a)) -> served (bind op k).
Proof.
  intros Hop Hk m h Hm. unfold bind. specialize (Hop m h Hm). destruct (op (m, h)) as [[a|[]|] [m1 h1]]; [|done].
  specialize (Hk a m1 h1 (sv_wf _ _ Hop)). destruct (k a (m1, h1)) as [[c|[]|] [m2 h2]]; [|done].
  by eapply serves_trans.
Qed.

(** Reading the machine, with what is known of it. *)
Lemma served_machine {A} (k : Machine -> Sys A) :
  (forall m0, machine_wf m0 -> forall h, match k m0 (m0, h) with
     (Ok _, (m', _)) => serves m0 m' | (Err _, _) => False | (Panic, _) => True end) ->
  served (bind machine k).
Proof. intros Hk m h Hm. unfold bind, machine, gets. cbn [fst]. by apply Hk. Qed.

Lemma served_host {A} (f : H -> A * H) : served (on_host f).
Proof.
  intros m h Hm. unfold on_host, on_snd. cbn [fst snd]. destruct (f h). by apply serves_refl.
Qed.

Lemma served_put s e bs : 0 <= s -> Forall (uint 8) bs -> served (on_mem (put_slice s e bs)).
Proof.
  intros Hs Hb m h Hm. unfold on_mem, on_fst, put_slice. cbn [fst snd].
  destruct (copy_from_slice (m_mem m) s e bs) as [mem'|] eqn:Hc; [|done].
  destruct Hm as [Hc0 Hby Hsz Hbr Ht Hg].
  destruct (copy_from_slice_Some _ _ _ _ _ Hs Hby Hb Hc) as [Hl Hf].
  split; [split|..]; cbn [set_m_mem m_mem cpu m_brk_start m_brk mmap_top]; rewrite ?Hl; done.
Qed.

Lemma served_if {A} (c : bool) (op op' : Sys A) : served op -> served op' -> served (if c then op else op').
Proof. by destruct c. Qed.

Lemma served_write fd buf len : served (sys_write fd buf len).
Proof.
  unfold sys_write. apply served_if; [apply served_ret|]. apply served_machine. intros m Hm h.
  destruct (_ <? _); [by apply serves_refl|].
  apply (served_bind _ _ (served_unwrap _)); [|done]. intros bytes.
  apply served_bind; [apply served_host|]. intros _. apply served_ret.
Qed.

Lemma served_read_u64 a : served (read_u64 a).
Proof.
  unfold read_u64. apply served_machine. intros m Hm h.
  apply (served_bind _ _ (served_unwrap _)); [|done]. intros bytes. apply served_ret.
Qed.

Lemma served_write_u64 a v : 0 <= a -> served (write_u64 a v).
Proof. intros Ha. apply served_put; [done|apply to_le_bytes_bytes]. Qed.

Lemma served_writev fd iov n i total : served (writev fd iov n i total).
Proof.
  revert i total. induction n as [|n IH]; intros i total; [apply served_ret|]. cbn [writev].
  apply served_bind; [apply served_read_u64|]. intros b. apply served_bind; [apply served_read_u64|]. intros len.
  apply served_bind; [apply served_write|]. intros k. apply served_if; [apply served_ret|]. cbv zeta.
  apply served_if; [apply served_ret|apply IH].
Qed.

(** The break moves only inside the gap below the mappings. *)
Lemma served_brk req : served (sys_brk req).
Proof.
  unfold sys_brk. apply served_machine. intros m Hm h.
  destruct (Z.leb_spec (m_brk_start m) req), (Z.ltb_spec req (mmap_top m)); cbn [andb];
    unfold bind, machine, update, on_fst, modify, gets, ret; cbn [fst snd]; try by apply serves_refl.
  destruct Hm as [Hc Hb Hs Hbr Ht Hg]. split; [split|..]; cbn [set_brk m_brk m_brk_start mmap_top m_mem cpu]; try done.
  - lia.
  - by left.
Qed.

Lemma served_zero_fill b n : 0 <= b -> served (zero_fill b n).
Proof. intros Hb. apply served_put; [done|]. apply Forall_replicate. by apply uint_0. Qed.

Lemma served_uname b : 0 <= b -> served (sys_uname b).
Proof.
  intros Hb. unfold sys_uname. apply served_bind; [by apply served_zero_fill|]. intros _.
  apply served_bind; [|intros _; apply served_ret].
  assert (Forall (fun '(_, s) => Forall (uint 8) s) uname_fields) as Hf.
  { repeat constructor; unfold uint; lia. }
  induction uname_fields as [|[i s] l IH]; [apply served_ret|]. apply Forall_cons_1 in Hf as [Hs Hf]. cbv zeta.
  apply served_bind; [|intros _; by apply IH]. apply served_put; [apply uint_u64|done].
Qed.

Lemma served_fstat b : 0 <= b -> served (sys_fstat b).
Proof.
  intros Hb. unfold sys_fstat. apply served_bind; [by apply served_zero_fill|]. intros _.
  apply served_bind; [|intros _; apply served_ret]. apply served_put; [apply uint_u64|apply to_le_bytes_bytes].
Qed.

Lemma served_getcwd b n : 0 <= b -> served (sys_getcwd b n).
Proof.
  intros Hb. unfold sys_getcwd. apply served_if; [apply served_ret|].
  apply served_bind; [|intros _; apply served_ret]. apply served_put; [done|].
  repeat constructor; unfold uint; lia.
Qed.

Lemma served_getrandom b n : 0 <= b -> served (sys_getrandom b n).
Proof.
  intros Hb m h Hm. unfold sys_getrandom. cbv zeta. unfold bind at 1, on_host, on_snd. cbn [fst snd].
  destruct (random _ h) as [tmp h1] eqn:Hr.
  pose proof (proj2 (random_ok (Z.to_nat (Z.min n 256)) h)) as Hf. rewrite Hr in Hf.
  apply (served_bind _ _ (served_put b _ tmp Hb Hf) (fun _ => served_ret _) m h1 Hm).
Qed.

Lemma served_time a scale : 0 <= a -> served (write_time a scale).
Proof.
  intros Ha. unfold write_time. apply served_bind; [apply served_host|]. intros ns.
  apply served_bind; [by apply served_write_u64|]. intros _.
  apply served_bind; [apply served_write_u64, uint_u64|]. intros _. apply served_ret.
Qed.

(** The length of a mapping, in whole pages. *)
Definition mapping_len (length_ : Z) : Z := u64 (length_ + PAGE - 1) .&~ (PAGE - 1).

Lemma mapping_len_range n : 0 <= mapping_len n < 2 ^ 64.
Proof. apply (uint_ldiff 64); [lia|apply uint_u64]. Qed.

(** A fresh anonymous mapping. *)
Lemma mmap_fresh m (h : H) n :
  machine_wf m -> 0 < mapping_len n <= m.(mmap_top) ->
  let top := m.(mmap_top) - mapping_len n in
  if top <=? m.(m_brk) then sys_mmap 0 n (m, h) = (Ok ENOMEM, (m, h))
  else exists mem', sys_mmap 0 n (m, h) = (Ok top, (set_m_mem mem' (set_mmap_top top m), h))
    /\ holds mem' top (replicate (Z.to_nat (mapping_len n)) 0)
    /\ outside top m.(mmap_top) m.(m_mem) mem'
    /\ machine_wf (set_m_mem mem' (set_mmap_top top m)).
Proof.
  intros Hm Hn top. pose proof Hm as [Hc Hb Hs Hbr Ht Hg]. unfold sys_mmap. cbv zeta. fold (mapping_len n).
  assert (sub64 (mmap_top m) (mapping_len n) = top) as Et by (apply sub64_id; lia).
  destruct (Z.leb_spec top (m_brk m)) as [Hle|Hgt]; unfold bind at 1, machine at 1, gets; cbn [fst];
    rewrite (proj2 (Z.eqb_neq (mapping_len n) 0)) by lia; cbn [negb Z.eqb]; rewrite Et.
  { by rewrite (proj2 (Z.leb_le _ _)). }
  rewrite (proj2 (Z.leb_gt _ _)) by done.
  unfold bind, machine, update, on_mem, on_fst, modify, gets. cbn [fst snd set_mmap_top mmap_top m_mem].
  assert (add64 top (mapping_len n) = mmap_top m) as -> by (unfold add64; rewrite u64_id; lia).
  destruct (put_slice_ok (E := Empty_set) top (mmap_top m) (replicate (Z.to_nat (mmap_top m - top)) 0) (m_mem m))
    as (mem' & E & Hh & Ho); [lia|rewrite length_replicate; lia|lia|].
  rewrite E. exists mem'. replace (mmap_top m - top) with (mapping_len n) in * by lia.
  rewrite (i64_small top) by lia.
  split_and!; [done|done|done|]. destruct Ho as [Hl Ho].
  split; cbn [set_m_mem set_mmap_top m_mem cpu m_brk m_brk_start mmap_top]; try done; try (rewrite <- Hl; lia).
  - apply Forall_lookup_2. intros i x Hi. destruct (decide (top <= Z.of_nat i < mmap_top m)) as [Hin|Hout].
    + destruct Hh as (_ & _ & Hh).
      assert (replicate (Z.to_nat (mapping_len n)) 0 !! (i - Z.to_nat top)%nat = Some 0) as Hr.
      { apply lookup_replicate. split; [done|]. lia. }
      apply Hh in Hr. replace (Z.to_nat top + (i - Z.to_nat top))%nat with i in Hr by lia.
      simplify_eq. by apply uint_0.
    + rewrite <- Ho in Hi by done. by eapply Forall_lookup_1.
  - by left.
Qed.

(** A length beyond the mapping area wraps around the bound. *)
Lemma mmap_wraps m (h : H) n :
  machine_wf m -> m.(mmap_top) < mapping_len n ->
  fst (sys_mmap 0 n (m, h)) = Panic
  \/ sys_mmap 0 n (m, h) = (Ok ENOMEM, (m, h)) /\ m.(mmap_top) <= m.(m_brk).
Proof.
  intros Hm Hn. pose proof (mapping_len_range n) as Hr. destruct Hm as [Hc Hb Hs Hbr Ht Hg].
  unfold sys_mmap. cbv zeta. fold (mapping_len n).
  assert (sub64 (mmap_top m) (mapping_len n) = mmap_top m - mapping_len n + 2 ^ 64) as Et.
  { unfold sub64, u64, wrap. rewrite <- (Z.mod_add _ 1) by lia. rewrite Z.mod_small; lia. }
  unfold bind, machine, gets. cbn [fst]. rewrite (proj2 (Z.eqb_neq (mapping_len n) 0)) by lia.
  cbn [negb Z.eqb]. rewrite Et. destruct (Z.leb_spec (mmap_top m - mapping_len n + 2 ^ 64) (m_brk m)).
  - right. split; [done|lia].
  - left. unfold update, on_mem, on_fst, modify. cbn [fst snd set_mmap_top mmap_top m_mem].
    set (s := mmap_top m - mapping_len n + 2 ^ 64) in *.
    assert (add64 s (mapping_len n) = mmap_top m) as ->.
    { unfold add64, u64, wrap. replace (s + mapping_len n) with (mmap_top m + 1 * 2 ^ 64) by lia.
      rewrite Z.mod_add by lia. rewrite Z.mod_small; lia. }
    unfold put_slice, copy_from_slice. by rewrite (proj2 (Z.leb_gt s (mmap_top m))) by lia.
Qed.

Lemma served_mmap addr n : served (sys_mmap addr n).
Proof.
  intros m h Hm. destruct (Z.eqb_spec addr 0) as [->|Ha].
  - destruct (Z.eqb_spec (mapping_len n) 0) as [E|E].
    { unfold sys_mmap. cbv zeta. fold (mapping_len n). rewrite E. by apply serves_refl. }
    pose proof (mapping_len_range n). destruct (decide (mapping_len n <= mmap_top m)) as [Hle|Hgt].
    + pose proof (mmap_fresh m h n Hm ltac:(lia)) as Hf. cbv zeta in Hf.
      destruct (_ <=? _); [rewrite Hf; by apply serves_refl|].
      destruct Hf as (mem' & -> & _ & [Hl _] & Hw). split; [done|by rewrite Hl|done|simpl; lia|done].
    + destruct (mmap_wraps m h n Hm ltac:(lia)) as [Hp|[-> _]]; [|by apply serves_refl].
      destruct (sys_mmap 0 n (m, h)) as [o [m' h']]. cbn [fst] in Hp. by subst o.
  - unfold sys_mmap, bind, machine, gets. cbv zeta. fold (mapping_len n). cbn [fst].
    destruct (_ =? 0); [by apply serves_refl|]. rewrite (proj2 (Z.eqb_neq addr 0)) by done. by apply serves_refl.
Qed.

Lemma served_dispatch nr a call : (forall i, 0 <= a i) -> dispatch nr a = Some call -> served call.
Proof.
  intros Ha. unfold dispatch. cbv zeta.
  repeat (destruct (_ : bool);
    [intros [= <-];
     first [ apply served_ret | apply served_write | apply served_writev | apply served_brk
           | apply served_mmap | apply served_time, Ha | apply served_getrandom, Ha
           | apply served_uname, Ha | apply served_getcwd, Ha
           | apply served_fstat; destruct (_ =? _); apply Ha | idtac ]|]); try done.
  - intros m h Hm. destruct Hm. by split.
  - apply served_if; [|apply served_ret]. apply served_bind; [apply served_write_u64, Ha|].
    intros _. apply served_ret.
Qed.

Lemma wf_set_cpu c m : machine_wf m -> wf_cpu c -> machine_wf (set_cpu c m).
Proof. intros [Hc Hb Hs Hbr Ht Hg] Hw. by split. Qed.

(** Serving a system call keeps the machine: unless it panics on a pointer
    outside memory, it either ends the program with the code in a0 and changes
    nothing, or changes no register but a0, keeps the memory's size, the start
    of the heap and the well-formedness of the machine — the break stays at or
    above the start of the heap and below the mapping area, which only moves
    down. *)
Theorem handle_keeps m (h : H) :
  machine_wf m ->
  match handle (m, h) with
  | (Ok (Some code), s') => s' = (m, h) /\ code = i32 (u32 (xr m.(cpu) 10))
  | (Ok None, (m', _)) =>
      exists r m1, serves m m1 /\ m' = set_cpu (set_xr 10 (u64 r) m.(cpu)) m1 /\ machine_wf m'
  | (Err _, _) => False
  | (Panic, _) => True
  end.
Proof.
  intros Hm. unfold handle, bind at 1, machine, gets. cbn [fst]. cbv zeta.
  destruct (_ || _); [by unfold ret|].
  set (nr := xr (cpu m) 17). set (a := fun i => xr (cpu m) (10 + i)).
  assert (forall i, 0 <= a i) as Ha.
  { intros i. subst a. cbv beta.
    unfold xr, aget. destruct (xregs (cpu m) !! Z.to_nat (10 + i)) as [x|] eqn:El.
    - rewrite (list_lookup_total_correct _ _ _ El). destruct (wf_xregs _ (mw_cpu m Hm)) as [_ Hf].
      by apply (Forall_lookup_1 _ _ _ _ Hf) in El as [? _].
    - apply lookup_ge_None in El. by rewrite list_lookup_total_alt, (lookup_ge_None_2 _ _ El). }
  match goal with |- context [bind ?c] => set (call := c) end.
  assert (served call) as Hs.
  { unfold call. destruct (dispatch nr a) as [c|] eqn:E; [|apply served_ret]. by eapply served_dispatch. }
  unfold bind. specialize (Hs m h Hm). destruct (call (m, h)) as [[r|[]|] [m1 h1]]; [|done].
  unfold update, on_fst, modify, ret. cbn [fst snd].
  exists r, m1. rewrite (sv_cpu _ _ Hs). split_and!; [done..|]. apply wf_set_cpu; [apply Hs|].
  apply wf_set_xr; [apply Hm|lia|apply uint_u64].
Qed.

(** Anonymous mappings are bounded and fresh: a request of a positive number
    of pages that fits below the mapping area either fails with ENOMEM, exactly
    when it would reach the heap, changing nothing, or returns the pages just
    below all earlier mappings, zeroed, above the break, with every other byte
    of memory unchanged. *)
Theorem mmap_bounds m (h : H) n :
  machine_wf m -> 0 < mapping_len n <= m.(mmap_top) ->
  let top := m.(mmap_top) - mapping_len n in
  if top <=? m.(m_brk) then sys_mmap 0 n (m, h) = (Ok ENOMEM, (m, h))
  else exists mem', sys_mmap 0 n (m, h) = (Ok top, (set_m_mem mem' (set_mmap_top top m), h))
    /\ holds mem' top (replicate (Z.to_nat (mapping_len n)) 0)
    /\ outside top m.(mmap_top) m.(m_mem) mem'
    /\ machine_wf (set_m_mem mem' (set_mmap_top top m)).
Proof. apply mmap_fresh. Qed.

(** A length beyond the mapping area, which should be refused with ENOMEM,
    passes the wrapped comparison and panics. *)
Lemma mmap_length_panics m (h : H) n :
  machine_wf m -> m.(m_brk) < m.(mmap_top) < mapping_len n -> fst (sys_mmap 0 n (m, h)) = Panic.
Proof. intros Hm Hn. destruct (mmap_wraps m h n Hm) as [Hp|[_ Hle]]; [lia|done|lia]. Qed.

(** A buffer whose end wraps passes the bounds check of [sys_write] and panics. *)
Lemma write_end_wraps m (h : H) fd buf len :
  1 <= fd <= 2 -> uint 64 buf -> uint 64 len -> 2 ^ 64 <= buf + len ->
  buf + len - 2 ^ 64 <= Z.of_nat (length m.(m_mem)) ->
  fst (sys_write fd buf len (m, h)) = Panic.
Proof.
  intros Hfd Hb Hl Hw Hin. unfold sys_write, bind, machine, gets. cbn [fst].
  rewrite (proj2 (Z.leb_le 1 fd)), (proj2 (Z.leb_le fd 2)) by lia. cbn [andb negb].
  assert (add64 buf len = buf + len - 2 ^ 64) as ->.
  { unfold add64, u64, wrap, uint in *. rewrite <- (Z.mod_add _ (-1)) by lia. rewrite Z.mod_small; lia. }
  cbn [fst]. rewrite (proj2 (Z.ltb_ge (Z.of_nat (length (m_mem m))) (buf + len - 2 ^ 64))) by lia. unfold slice.
  by rewrite (proj2 (Z.leb_gt buf _)) by (unfold uint in *; lia).
Qed.
End Syscalls.

(** ** The run loop *)

Section Run.
Context {H : Type} `{Host H} `{VectorUnit FlatMemory}.

(** How many passes of a run are system calls. *)
Fixpoint ecall_passes (fuel : nat) (remaining : Z) (s : Machine * H) : nat :=
  match fuel with
  | O => 0%nat
  | S fuel =>
      let slice := Z.min remaining 1000000 in
      match run_cpu slice s with
      | (Ok Budget, s') => if remaining - slice =? 0 then 0%nat else ecall_passes fuel (remaining - slice) s'
      | (Ok Ecall, s') =>
          match handle s' with
          | (Ok None, s') => S (ecall_passes fuel remaining s')
          | _ => 1%nat
          end
      | _ => 0%nat
      end
  end.

(** Only system calls prolong a run: a run with budget [n] that has not
    returned after [n / 1000000 + k] passes of its loop has served at least [k]
    system calls, so a guest that makes finitely many of them exhausts its
    budget, exits or traps. *)
Theorem run_machine_terminates fuel remaining (s s' : Machine * H) :
  0 <= remaining ->
  run_machine_loop fuel remaining s = (Ok None, s') ->
  Z.of_nat fuel <= Z.of_nat (ecall_passes fuel remaining s) + remaining / 1000000.
Proof.
  revert remaining s. induction fuel as [|fuel IH]; intros remaining s Hr Hn.
  { pose proof (Z.div_pos remaining 1000000). lia. }
  cbn [run_machine_loop ecall_passes] in *. unfold bind in Hn.
  destruct (run_cpu (Z.min remaining 1000000) s) as [[[]|e|] s1]; try done.
  - revert Hn. destruct (Z.eqb_spec (remaining - Z.min remaining 1000000) 0); [done|]. intros Hn.
    assert (1000000 < remaining) by lia. rewrite Z.min_r in * by lia. specialize (IH (remaining - 1000000) s1 ltac:(lia) Hn).
    pose proof (Z.div_add (remaining - 1000000) 1 1000000 ltac:(lia)) as Hd.
    replace (remaining - 1000000 + 1 * 1000000) with remaining in Hd by lia. lia.
  - revert Hn. destruct (handle s1) as [[[code|]|e|] s2]; try done. intros Hn. specialize (IH _ _ Hr Hn). lia.
Qed.

(** [ecall; j .-4] with a7 = getpid, between the jump and the call. *)
Definition spin_code : list Z := [0x73; 0; 0; 0; 0x6f; 0xf0; 0xdf; 0xff].
Definition spin_cpu (n : Z) : Cpu :=
  set_insn_count n (set_xr 10 42 (set_xr 17 SYS_GETPID (set_pc 4 Cpu_new))).
Definition spin (n : Z) : Machine := mkMachine (spin_cpu n) spin_code 0 0 8 None false.

Lemma spin_jump n : step (spin_cpu n, mkFlat 0 spin_code)
  = (Ok None, (set_insn_count (add64 n 1) (set_pc 0 (spin_cpu n)), mkFlat 0 spin_code)).
Proof. reflexivity. Qed.

Lemma spin_ecall n : step (set_insn_count n (set_pc 0 (spin_cpu n)), mkFlat 0 spin_code)
  = (Ok (Some Ecall), (spin_cpu (add64 n 1), mkFlat 0 spin_code)).
Proof. reflexivity. Qed.

Lemma spin_pass n slice (h : H) : 2 <= slice ->
  run_cpu slice (spin n, h) = (Ok Ecall, (spin (add64 (add64 n 1) 1), h)).
Proof.
  intros Hs. unfold run_cpu, run. cbn [spin cpu m_mem fst]. change (is_sys (spin_cpu n)) with false.
  destruct (Z.to_nat slice) as [|[|k]] eqn:E; [lia..|]. rewrite run_loop_user, spin_jump, run_loop_user.
  change (set_insn_count (add64 n 1) (set_pc 0 (spin_cpu n)))
    with (set_insn_count (add64 n 1) (set_pc 0 (spin_cpu (add64 n 1)))).
  by rewrite spin_ecall.
Qed.

Lemma spin_handle n (h : H) : handle (spin n, h) = (Ok None, (spin n, h)).
Proof. reflexivity. Qed.

(** The budget bounds nothing for a guest that keeps making system calls: a
    program that calls getpid in a loop never returns from a run, whatever the
    budget of at least two instructions, because a pass that ends in a system
    call is not charged. *)
Theorem run_budget_not_charged fuel remaining n (h : H) :
  2 <= remaining -> fst (run_machine_loop fuel remaining (spin n, h)) = Ok None.
Proof.
  intros Hr. revert n. induction fuel as [|fuel IH]; intros n; [done|]. cbn [run_machine_loop].
  unfold bind. rewrite spin_pass by lia. rewrite spin_handle. apply IH.
Qed.
End Run.

(** ** Witnesses *)

#[local] Instance unit_Host : Host (list Z) := {
  write_out := fun _ bytes h => h ++ bytes;
  clock_ns := default_clock_ns;
  random := default_random
}.

#[local] Instance unit_HostOk : HostOk (list Z).
Proof.
  split.
  - intros n h. split; [apply length_replicate|]. apply Forall_replicate. unfold uint. lia.
  - intros h. unfold uint. simpl. lia.
Qed.

Definition demo_machine : Machine := mkMachine Cpu_new (replicate (Z.to_nat 8192) 7) 0 0 8192 None false.

Lemma demo_machine_wf : machine_wf demo_machine.
Proof.
  split; [apply wf_Cpu_new| |vm_compute; reflexivity|cbn; lia|vm_compute; split; congruence|cbn; lia].
  apply Forall_replicate. unfold uint. lia.
Qed.

(** One argument and one variable of the environment. *)
Lemma setup_stack_abi_witness :
  exists sp mem' a v r,
    setup_stack 1024 [[0x61; 0x62]] [[0x63]] (mkLoadedElf 0x10000 0x40 56 1 0x11000 0)
      (replicate 16 0x5a) (replicate 1024 0) = (Ok sp, mem')
    /\ sp mod 16 = 0 /\ holds mem' sp (word_bytes (abi_words 1 [a] [v] 0x40 56 1 0x10000 r))
    /\ holds mem' a [0x61; 0x62; 0] /\ holds mem' v [0x63; 0].
Proof.
  destruct (setup_stack_abi 1024 [[0x61; 0x62]] [[0x63]] (mkLoadedElf 0x10000 0x40 56 1 0x11000 0) (replicate 16 0x5a)
              (replicate 1024 0)) as (sp & mem' & pa & pe & ar & E & Ha & Hw & Fa & Fe & _);
    [reflexivity|vm_compute; congruence|vm_compute; split; congruence|].
  inversion Fa as [|a ? ? ? Hpa Fa' Ea]. inversion Fa'. subst. inversion Fe as [|v ? ? ? Hpe Fe' Ee]. inversion Fe'. subst.
  exists sp, mem', a, v, ar. split_and!; [exact E|exact Ha|exact Hw|exact Hpa|exact Hpe].
Defined.

Lemma handle_keeps_witness :
  match handle (demo_machine, [] : list Z) with (Ok None, (m', _)) => machine_wf m' | _ => False end.
Proof.
  pose proof (handle_keeps demo_machine ([] : list Z) demo_machine_wf) as Hk.
  assert (match handle (demo_machine, [] : list Z) with (Ok None, _) => True | _ => False end) as Hr
    by (vm_compute; exact I).
  destruct (handle (demo_machine, [] : list Z)) as [[[c|]|e|] [m' h']]; try done.
  destruct Hk as (r & m1 & _ & _ & Hw). exact Hw.
Defined.

Lemma mmap_bounds_witness :
  exists mem', sys_mmap 0 100 (demo_machine, [] : list Z)
    = (Ok 4096, (set_m_mem mem' (set_mmap_top 4096 demo_machine), [])).
Proof.
  pose proof (mmap_bounds demo_machine ([] : list Z) 100 demo_machine_wf ltac:(vm_compute; split; congruence)) as Hf.
  cbv zeta in Hf. change (mmap_top demo_machine - mapping_len 100) with 4096 in Hf.
  cbn [Z.leb Z.compare m_brk demo_machine] in Hf. destruct Hf as (mem' & E & _). by exists mem'.
Defined.

Lemma run_machine_terminates_witness :
  1 <= Z.of_nat (ecall_passes (H1 := trapping_unit) 1 10 (spin 0, [] : list Z)) + 10 / 1000000.
Proof.
  destruct (run_machine_loop (H1 := trapping_unit) 1 10 (spin 0, [] : list Z)) as [o s'] eqn:E.
  apply (run_machine_terminates (H1 := trapping_unit) 1 10 (spin 0, [] : list Z) s' ltac:(lia)).
  assert (fst (run_machine_loop (H1 := trapping_unit) 1 10 (spin 0, [] : list Z)) = Ok None) as Ho by (vm_compute; reflexivity).
  rewrite E in Ho |- *. cbn [fst] in Ho. by rewrite Ho.
Defined.

Lemma run_budget_not_charged_witness :
  fst (run_machine_loop (H1 := trapping_unit) 1000 1000000 (spin 0, [] : list Z)) = Ok None.
Proof. apply (run_budget_not_charged (H1 := trapping_unit)). lia. Defined.

(** An executable of one header and one segment: the file itself at 0x100. *)
Definition demo_elf : list Z :=
  [127; 69; 76; 70; 2; 1; 1; 0; 0; 0; 0; 0; 0; 0; 0; 0; 2; 0; 243; 0;
   1; 0; 0; 0; 64; 1; 0; 0; 0; 0; 0; 0; 64; 0; 0; 0; 0; 0; 0; 0;
   0; 0; 0; 0; 0; 0; 0; 0; 0; 0; 0; 0; 64; 0; 56; 0; 1; 0; 0; 0;
   0; 0; 0; 0; 1; 0; 0; 0; 5; 0; 0; 0; 0; 0; 0; 0; 0; 0; 0; 0;
   0; 1; 0; 0; 0; 0; 0; 0; 0; 1; 0; 0; 0; 0; 0; 0; 120; 0; 0; 0;
   0; 0; 0; 0; 130; 0; 0; 0; 0; 0; 0; 0; 0; 16; 0; 0; 0; 0; 0; 0].

Lemma demo_elf_wf : elf_wf demo_elf 1024.
Proof.
  assert (elf_phdrs demo_elf = [mkPhdr 1 0 0x100 120 130]) as Hp by (vm_compute; reflexivity).
  split; rewrite ?Hp; try (vm_compute; reflexivity).
  - repeat constructor; unfold uint; lia.
  - vm_compute. split; congruence.
  - left. vm_compute. reflexivity.
  - change (word 2 demo_elf 56) with 1. intros i Hi. assert (i = 0) as -> by lia. vm_compute. congruence.
  - constructor; [|constructor]. intros _. split; vm_compute; try split; congruence.
  - eexists. split; [by left|]. vm_compute. reflexivity.
  - intros p [<-|[]] _. vm_compute. congruence.
Qed.

Lemma elf_load_maps_witness :
  exists l mem', elf_load demo_elf (replicate 1024 0) = (Ok l, mem')
    /\ l.(brk_start) mod 4096 = 0 /\ holds mem' 0x100 (file_bytes demo_elf (mkPhdr 1 0 0x100 120 130)).
Proof.
  destruct (elf_load_maps demo_elf (replicate 1024 0) demo_elf_wf ltac:(vm_compute; reflexivity))
    as (l & mem' & E & _ & _ & _ & _ & (_ & _ & Hh) & _ & Hb & _).
  exists l, mem'. split; [exact E|]. split; [exact Hb|].
  apply (Hh [] (mkPhdr 1 0 0x100 120 130) []); [vm_compute; reflexivity|reflexivity|].
  intros q [].
Defined.

(** The same file with a memory size of ten bytes at address 80: the bounds
    check looks at the memory size, the copy at the file size. *)
Definition short_memsz : list Z :=
  take 80 demo_elf ++ to_le_bytes 8 80 ++ to_le_bytes 8 80 ++ to_le_bytes 8 120 ++ to_le_bytes 8 10
  ++ drop 112 demo_elf.

Lemma file_longer_than_memory_panics : fst (elf_load short_memsz (replicate 190 0)) = Panic.
Proof. vm_compute. reflexivity. Qed.

(** The same file with the header table at [2^64 - 8]: the end of the first
    header wraps past the bounds check. *)
Definition wrapped_phoff : list Z := take 32 demo_elf ++ to_le_bytes 8 (2 ^ 64 - 8) ++ drop 40 demo_elf.

Lemma header_offset_wraps_panics : fst (elf_load wrapped_phoff (replicate 190 0)) = Panic.
Proof. vm_compute. reflexivity. Qed.
