(* ===== verification/Devices.v ===== *)
(** * Devices of the virt machine (rv64-system: virt.rs, rtc.rs)

    The interrupt controller, the serial port and the real-time clock: each a
    record with its register reads and writes.  Reads return the value and the
    new state, because some of them acknowledge. *)

From S2P Require Import Prelude.

(** Half-open range test, [(lo..hi).contains(&x)]. *)
Definition in_range (lo hi x : Z) : bool := (lo <=? x) && (x <? hi).

(** ** PLIC *)

Module Plic.
Definition SOURCES : Z := 32.
Definition CONTEXTS : Z := 2.

Record t : Type := mk {
  priority : list Z;
  pending : Z;
  enable : list Z;
  threshold : list Z;
  claimed : Z
}.

Definition new : t := mk (replicate 32 0) 0 (replicate 2 0) (replicate 2 0) 0.

Definition set_priority (l : list Z) (p : t) : t := mk l p.(pending) p.(enable) p.(threshold) p.(claimed).
Definition set_pending (m : Z) (p : t) : t := mk p.(priority) m p.(enable) p.(threshold) p.(claimed).
Definition set_enable (l : list Z) (p : t) : t := mk p.(priority) p.(pending) l p.(threshold) p.(claimed).
Definition set_threshold (l : list Z) (p : t) : t := mk p.(priority) p.(pending) p.(enable) l p.(claimed).
Definition set_claimed (m : Z) (p : t) : t := mk p.(priority) p.(pending) p.(enable) p.(threshold) m.

(** The lowest set bit of a nonzero word. *)
Definition trailing_zeros (m : Z) : Z := Z.log2 (m .& (- m)).

(** The loop over the set bits of [m]; [fuel] is the number of bits. *)
Fixpoint best_loop (fuel : nat) (priority : list Z) (threshold m best_id best_pri : Z) : Z :=
  match fuel with
  | O => best_id
  | S fuel =>
      if m =? 0 then best_id else
      let i := trailing_zeros m in
      let m := m .& (m - 1) in
      let pri := aget priority i in
      if (threshold <? pri) && (best_pri <=? pri)
      then best_loop fuel priority threshold m i pri
      else best_loop fuel priority threshold m best_id best_pri
  end.

(** The sources a context may claim. *)
Definition eligible (p : t) (ctx : Z) : Z := (p.(pending) .& aget p.(enable) ctx) .&~ p.(claimed).

Definition best (p : t) (ctx : Z) : Z :=
  best_loop 32 p.(priority) (aget p.(threshold) ctx) (eligible p ctx) 0 0.

Definition pending_ctx (p : t) (ctx : Z) : bool := negb (best p ctx =? 0).

(** The claim register. *)
Definition claim (p : t) (ctx : Z) : Z * t :=
  let id := best p ctx in
  (id, if negb (id =? 0) then set_claimed (p.(claimed) .| (1 .<< id)) p else p).

Definition ENABLES_END : Z := 0x2000 + CONTEXTS * 0x80.

Definition read (p : t) (off : Z) : Z * t :=
  if off <=? 0xfff then (default 0 (p.(priority) !! Z.to_nat (off / 4)), p)
  else if off =? 0x1000 then (p.(pending), p)
  else if off =? 0x1004 then (0, p)
  else if in_range 0x2000 ENABLES_END off then
    let ctx := (off - 0x2000) / 0x80 in
    (if (off - 0x2000) mod 0x80 =? 0 then aget p.(enable) ctx else 0, p)
  else if 0x200000 <=? off then
    let ctx := (off - 0x200000) / 0x1000 in
    let reg := (off - 0x200000) mod 0x1000 in
    if CONTEXTS <=? ctx then (0, p)
    else if reg =? 0 then (aget p.(threshold) ctx, p)
    else if reg =? 4 then claim p ctx
    else (0, p)
  else (0, p).

Definition write (p : t) (off val : Z) : t :=
  if off <=? 0xfff then
    let id := off / 4 in
    if negb (id =? 0) then set_priority (aset p.(priority) id val) p else p
  else if in_range 0x2000 ENABLES_END off then
    let ctx := (off - 0x2000) / 0x80 in
    if (off - 0x2000) mod 0x80 =? 0 then set_enable (aset p.(enable) ctx (val .&~ 1)) p else p
  else if 0x200000 <=? off then
    let ctx := (off - 0x200000) / 0x1000 in
    let reg := (off - 0x200000) mod 0x1000 in
    if CONTEXTS <=? ctx then p
    else if reg =? 0 then set_threshold (aset p.(threshold) ctx val) p
    else if reg =? 4 then
      if val <? SOURCES then set_claimed (p.(claimed) .&~ (1 .<< val)) p else p
    else p
  else p.
End Plic.

(** ** UART *)

Module Uart.
Record t : Type := mk {
  ier : Z;
  lcr : Z;
  mcr : Z;
  scr : Z;
  rx : list Z;
  tx_out : list Z;
  thre_ip : bool
}.

Definition new : t := mk 0 0 0 0 [] [] false.

Definition set_rx (l : list Z) (u : t) : t := mk u.(ier) u.(lcr) u.(mcr) u.(scr) l u.(tx_out) u.(thre_ip).
Definition set_thre (b : bool) (u : t) : t := mk u.(ier) u.(lcr) u.(mcr) u.(scr) u.(rx) u.(tx_out) b.

Definition dlab (u : t) : bool := negb ((u.(lcr) .& 0x80) =? 0).
Definition has_rx (u : t) : bool := match u.(rx) with [] => false | _ => true end.

(** Registers: 0 RBR, 1 IER, 2 IIR, 3 LCR, 4 MCR, 5 LSR, 6 MSR, 7 SCR. *)
Definition read (u : t) (off : Z) : Z * t :=
  if off =? 0 then
    if dlab u then (0, u)
    else match u.(rx) with [] => (0, u) | b :: rx => (b, set_rx rx u) end
  else if off =? 1 then (if dlab u then 0 else u.(ier), u)
  else if off =? 2 then
    if negb ((u.(ier) .& 1) =? 0) && has_rx u then (0xc4, u)
    else if u.(thre_ip) then (0xc2, set_thre false u)
    else (0xc1, u)
  else if off =? 3 then (u.(lcr), u)
  else if off =? 4 then (u.(mcr), u)
  else if off =? 5 then (if has_rx u then 0x60 .| 0x01 else 0x60, u)
  else if off =? 6 then (0xb0, u)
  else if off =? 7 then (u.(scr), u)
  else (0, u).

Definition write (u : t) (off val : Z) : t :=
  if (off =? 0) && negb (dlab u) then
    mk u.(ier) u.(lcr) u.(mcr) u.(scr) u.(rx) (u.(tx_out) ++ [val])
      (if negb ((u.(ier) .& 2) =? 0) then true else u.(thre_ip))
  else if (off =? 1) && negb (dlab u) then
    mk val u.(lcr) u.(mcr) u.(scr) u.(rx) u.(tx_out)
      (if negb ((val .& 2) =? 0) && ((u.(ier) .& 2) =? 0) then true else u.(thre_ip))
  else if off =? 3 then mk u.(ier) val u.(mcr) u.(scr) u.(rx) u.(tx_out) u.(thre_ip)
  else if off =? 4 then mk u.(ier) u.(lcr) val u.(scr) u.(rx) u.(tx_out) u.(thre_ip)
  else if off =? 7 then mk u.(ier) u.(lcr) u.(mcr) val u.(rx) u.(tx_out) u.(thre_ip)
  else u.

Definition irq (u : t) : bool := (negb ((u.(ier) .& 1) =? 0) && has_rx u) || u.(thre_ip).

(** [uart_take], [uart_input]. *)
Definition take_output (u : t) : list Z * t :=
  (u.(tx_out), mk u.(ier) u.(lcr) u.(mcr) u.(scr) u.(rx) [] u.(thre_ip)).
Definition input (bytes : list Z) (u : t) : t := set_rx (u.(rx) ++ bytes) u.
End Uart.

(** ** Goldfish RTC *)

Module Rtc.
Definition TIME_LOW : Z := 0x00.
Definition TIME_HIGH : Z := 0x04.
Definition ALARM_LOW : Z := 0x08.
Definition ALARM_HIGH : Z := 0x0c.
Definition IRQ_ENABLED : Z := 0x10.
Definition CLEAR_ALARM : Z := 0x14.
Definition ALARM_STATUS : Z := 0x18.
Definition CLEAR_INTERRUPT : Z := 0x1c.

Record t : Type := mk {
  host_ns : Z;
  guest_offset_ns : Z;
  latched_time_high : Z;
  write_time_high : Z;
  alarm_high : Z;
  alarm_ns : Z;
  alarm_armed : bool;
  irq_enabled : bool;
  irq_pending : bool
}.

Definition new : t := mk 0 0 0 0 0 0 false false false.

(** [clamp(0, u64::MAX)]. *)
Definition time_ns (r : t) : Z := Z.max 0 (Z.min (r.(host_ns) + r.(guest_offset_ns)) U64_MAX).

Definition update_alarm (r : t) : t :=
  if r.(alarm_armed) && r.(irq_enabled) && (r.(alarm_ns) <=? time_ns r) then
    mk r.(host_ns) r.(guest_offset_ns) r.(latched_time_high) r.(write_time_high) r.(alarm_high)
      r.(alarm_ns) false r.(irq_enabled) true
  else r.

Definition set_host_time_ns (ns : Z) (r : t) : t :=
  update_alarm (mk ns r.(guest_offset_ns) r.(latched_time_high) r.(write_time_high) r.(alarm_high)
    r.(alarm_ns) r.(alarm_armed) r.(irq_enabled) r.(irq_pending)).

Definition read (r : t) (off : Z) : Z * t :=
  if off =? TIME_LOW then
    let now := time_ns r in
    (u32 now, mk r.(host_ns) r.(guest_offset_ns) (u32 (now .>> 32)) r.(write_time_high)
                r.(alarm_high) r.(alarm_ns) r.(alarm_armed) r.(irq_enabled) r.(irq_pending))
  else if off =? TIME_HIGH then (r.(latched_time_high), r)
  else if off =? ALARM_LOW then (u32 r.(alarm_ns), r)
  else if off =? ALARM_HIGH then (u32 (r.(alarm_ns) .>> 32), r)
  else if off =? IRQ_ENABLED then (Z.b2z r.(irq_enabled), r)
  else if off =? ALARM_STATUS then (Z.b2z r.(alarm_armed), r)
  else (0, r).

Definition write (r : t) (off val : Z) : t :=
  if off =? TIME_HIGH then
    mk r.(host_ns) r.(guest_offset_ns) r.(latched_time_high) val r.(alarm_high) r.(alarm_ns)
      r.(alarm_armed) r.(irq_enabled) r.(irq_pending)
  else if off =? TIME_LOW then
    let requested := (r.(write_time_high) .<< 32) .| val in
    update_alarm (mk r.(host_ns) (requested - r.(host_ns)) r.(latched_time_high)
      r.(write_time_high) r.(alarm_high) r.(alarm_ns) r.(alarm_armed) r.(irq_enabled)
      r.(irq_pending))
  else if off =? ALARM_HIGH then
    mk r.(host_ns) r.(guest_offset_ns) r.(latched_time_high) r.(write_time_high) val r.(alarm_ns)
      r.(alarm_armed) r.(irq_enabled) r.(irq_pending)
  else if off =? ALARM_LOW then
    update_alarm (mk r.(host_ns) r.(guest_offset_ns) r.(latched_time_high) r.(write_time_high)
      r.(alarm_high) ((r.(alarm_high) .<< 32) .| val) true r.(irq_enabled) r.(irq_pending))
  else if off =? IRQ_ENABLED then
    update_alarm (mk r.(host_ns) r.(guest_offset_ns) r.(latched_time_high) r.(write_time_high)
      r.(alarm_high) r.(alarm_ns) r.(alarm_armed) (negb (val =? 0)) r.(irq_pending))
  else if off =? CLEAR_ALARM then
    mk r.(host_ns) r.(guest_offset_ns) r.(latched_time_high) r.(write_time_high) r.(alarm_high)
      r.(alarm_ns) false r.(irq_enabled) false
  else if off =? CLEAR_INTERRUPT then
    mk r.(host_ns) r.(guest_offset_ns) r.(latched_time_high) r.(write_time_high) r.(alarm_high)
      r.(alarm_ns) r.(alarm_armed) r.(irq_enabled) false
  else r.

Definition irq (r : t) : bool := r.(irq_pending).
End Rtc.
