(* ===== verification/DevicesSpec.v ===== *)
(** * What the devices promise (Devices.v)

    The interrupt controller: the source a context is offered, the exclusive
    hold of a claimed source, and the drain of the pending sources by repeated
    claims.  The serial port: no byte is lost, duplicated or reordered in
    either direction.  The clock: a set time keeps running and the alarm fires
    once. *)

From Stdlib Require Import Sorted.
From S2P Require Import Prelude Devices.

(** ** The lowest set bit of a word *)

Section LowestBit.

Lemma odd_part m : 0 < m -> exists k q, 0 <= k /\ 0 <= q /\ m = 2 ^ k * (2 * q + 1).
Proof.
  intros Hm.
  induction (Z.lt_wf 0 m) as [m _ IH].
  destruct (Z.even m) eqn:He.
  - apply Z.even_spec in He as [h ->].
    destruct (IH h) as (k & q & Hk & Hq & ->); [lia..|].
    exists (k + 1), q. rewrite Z.pow_add_r by lia. lia.
  - assert (Z.odd m = true) as Ho by (rewrite <- Z.negb_even, He; done).
    apply Z.odd_spec in Ho as [h ->]. exists 0, h. lia.
Qed.

Lemma testbit_odd_part k q j :
  0 <= k -> 0 <= j ->
  Z.testbit (2 ^ k * (2 * q + 1)) j =
    if j <? k then false else if j =? k then true else Z.testbit q (j - k - 1).
Proof.
  intros Hk Hj. rewrite Z.mul_comm, <- Z.shiftl_mul_pow2, Z.shiftl_spec by done.
  destruct (Z.ltb_spec j k); [by rewrite Z.testbit_neg_r by lia|].
  destruct (Z.eqb_spec j k) as [->|]; [by rewrite Z.sub_diag, Z.testbit_odd_0|].
  rewrite <- (Z.testbit_odd_succ q (j - k - 1)) by lia. f_equal. lia.
Qed.

Lemma testbit_odd_part_pred k q j :
  0 <= k -> 0 <= q -> 0 <= j ->
  Z.testbit (2 ^ k * (2 * q + 1) - 1) j =
    if j <? k then true else if j =? k then false else Z.testbit q (j - k - 1).
Proof.
  intros Hk Hq Hj.
  replace (2 ^ k * (2 * q + 1) - 1) with (Z.ones k .| ((2 * q) .<< k)).
  2:{ rewrite lor_add with (n := k); try done.
      - rewrite Z.ones_equiv, Z.shiftl_mul_pow2 by done. lia.
      - unfold uint. rewrite Z.ones_equiv. pose proof (Z.pow_pos_nonneg 2 k). lia.
      - rewrite Z.shiftl_mul_pow2 by done. apply Z.mod_mul. lia. }
  rewrite Z.lor_spec, Z.testbit_ones_nonneg, Z.shiftl_spec by done.
  destruct (Z.ltb_spec j k); [done|]. simpl.
  destruct (Z.eqb_spec j k) as [->|]; [by rewrite Z.sub_diag, Z.testbit_even_0|].
  rewrite <- (Z.testbit_even_succ q (j - k - 1)) by lia. f_equal. lia.
Qed.

(** [trailing_zeros] is the lowest set bit and [m & (m - 1)] clears it. *)
Lemma lowest_bit m :
  0 < m ->
  let i := Plic.trailing_zeros m in
  0 <= i /\ Z.testbit m i = true /\
  (forall j, 0 <= j < i -> Z.testbit m j = false) /\
  (forall j, 0 <= j -> Z.testbit (m .& (m - 1)) j = Z.testbit m j && negb (j =? i)).
Proof.
  intros Hm. destruct (odd_part m Hm) as (k & q & Hk & Hq & ->).
  assert (Plic.trailing_zeros (2 ^ k * (2 * q + 1)) = k) as ->.
  { unfold Plic.trailing_zeros. transitivity (Z.log2 (2 ^ k)); [f_equal|by apply Z.log2_pow2].
    apply Z.bits_inj'. intros j Hj.
    rewrite Z.land_spec, Z.bits_opp, Z.pow2_bits_eqb by done.
    rewrite <- Z.sub_1_r, testbit_odd_part, testbit_odd_part_pred by done.
    destruct (Z.ltb_spec j k), (Z.eqb_spec j k), (Z.eqb_spec k j); try lia; try done.
    apply andb_negb_r. }
  repeat split; try done.
  - rewrite testbit_odd_part by done. rewrite Z.ltb_irrefl. by rewrite Z.eqb_refl.
  - intros j Hj. rewrite testbit_odd_part by lia. by destruct (Z.ltb_spec j k); [|lia].
  - intros j Hj. rewrite Z.land_spec, testbit_odd_part, testbit_odd_part_pred by done.
    destruct (Z.ltb_spec j k), (Z.eqb_spec j k); try lia; try done.
    by rewrite andb_true_r, andb_diag.
Qed.

End LowestBit.

(** ** PLIC *)

Module PlicSpec.
Import Plic.

(** The register file as the code keeps it: word widths, array lengths, and no
    context enables source 0. *)
Record wf (p : t) : Prop := {
  wf_prio_len : length p.(priority) = 32%nat;
  wf_prio : Forall (uint 32) p.(priority);
  wf_pending : uint 32 p.(pending);
  wf_en_len : length p.(enable) = 2%nat;
  wf_en : Forall (fun e => uint 32 e /\ Z.testbit e 0 = false) p.(enable);
  wf_th_len : length p.(threshold) = 2%nat;
  wf_th : Forall (uint 32) p.(threshold);
  wf_claimed : uint 32 p.(claimed)
}.

(** A source a context may be interrupted by: pending, enabled for the context,
    not in service, and of a priority above the context's threshold. *)
Definition deliverable (p : t) (ctx i : Z) : Prop :=
  0 <= i /\ Z.testbit p.(pending) i = true /\ Z.testbit (aget p.(enable) ctx) i = true /\
  Z.testbit p.(claimed) i = false /\ aget p.(threshold) ctx < aget p.(priority) i.

Lemma deliverable_eligible p ctx i :
  deliverable p ctx i <->
  0 <= i /\ Z.testbit (eligible p ctx) i = true /\ aget p.(threshold) ctx < aget p.(priority) i.
Proof.
  unfold deliverable, eligible. rewrite Z.ldiff_spec, Z.land_spec, !andb_true_iff, negb_true_iff. tauto.
Qed.

(** [i] goes before [j]: higher priority, and the higher number on a tie. *)
Definition outranks (p : t) (i j : Z) : Prop :=
  aget p.(priority) j < aget p.(priority) i \/
  aget p.(priority) j = aget p.(priority) i /\ j <= i.

(** The set bits of [m] are its lowest one and those of [m & (m - 1)], which
    all lie above it. *)
Definition bit (m j : Z) : Prop := 0 <= j /\ Z.testbit m j = true.

Lemma bit_split m n :
  0 <= m -> m <> 0 -> (forall j, bit m j -> n <= j < 32) ->
  let i := trailing_zeros m in let m' := m .& (m - 1) in
  0 <= m' /\ n <= i < 32 /\ bit m i /\
  (forall j, bit m' j -> bit m j /\ i + 1 <= j < 32) /\
  (forall j, bit m j -> j = i \/ bit m' j).
Proof.
  intros Hm Hnz Hb. destruct (lowest_bit m) as (Hi0 & Hi & Hlow & Hclr); [lia|]. cbv zeta in *.
  split; [apply Z.land_nonneg; lia|]. split; [by apply Hb|]. split; [done|]. split.
  - intros j [Hj Hj']. rewrite Hclr in Hj' by done.
    apply andb_true_iff in Hj' as [Hj1 Hj2%negb_true_iff%Z.eqb_neq].
    pose proof (Hb j (conj Hj Hj1)). split; [done|].
    destruct (decide (j < trailing_zeros m)); [by rewrite Hlow in Hj1|lia].
  - intros j [Hj Hj']. destruct (decide (j = trailing_zeros m)); [by left|right].
    split; [done|]. rewrite Hclr, Hj' by done. by destruct (Z.eqb_spec j (trailing_zeros m)).
Qed.

(** The loop returns the best candidate above the running best, or keeps it. *)
Definition cand (pr : list Z) (th m bp j : Z) : Prop :=
  bit m j /\ th < aget pr j /\ bp <= aget pr j.

Lemma best_loop_spec fuel n pr th m b bp :
  0 <= m -> 32 <= Z.of_nat fuel + n -> (forall j, bit m j -> n <= j < 32) ->
  let r := best_loop fuel pr th m b bp in
  (r = b /\ forall j, ~ cand pr th m bp j) \/
  (cand pr th m bp r /\ forall j, cand pr th m bp j ->
     aget pr j < aget pr r \/ aget pr j = aget pr r /\ j <= r).
Proof.
  unfold cand. revert n m b bp.
  induction fuel as [|fuel IH]; intros n m b bp Hm Hf Hb; cbn [best_loop].
  { left. split; [done|]. intros j [?%Hb _]. lia. }
  destruct (Z.eqb_spec m 0) as [->|Hnz].
  { left. split; [done|]. intros j [[_ Hj] _]. by rewrite Z.bits_0 in Hj. }
  destruct (bit_split m n) as (Hm' & Hi & Hbi & Hback & Hsplit); [done..|]. cbv zeta in *.
  set (i := trailing_zeros m) in *. set (m' := m .& (m - 1)) in *.
  destruct ((th <? aget pr i) && (bp <=? aget pr i)) eqn:Ht.
  - apply andb_true_iff in Ht as [?%Z.ltb_lt ?%Z.leb_le]. right.
    destruct (IH (i + 1) m' i (aget pr i)) as [[-> Hno]|[(Hr & Hr2 & Hr3) Hmax]];
      [lia..|by intros j []%Hback| |].
    + split; [done|]. intros j (Hj & ? & ?). destruct (Hsplit j Hj) as [->|?]; [lia|].
      destruct (decide (aget pr i <= aget pr j)); [by destruct (Hno j)|lia].
    + destruct (Hback _ Hr). split; [split; [done|lia]|].
      intros j (Hj & ? & ?). destruct (Hsplit j Hj) as [->|?]; [lia|].
      destruct (decide (aget pr i <= aget pr j)); [by apply Hmax|lia].
  - assert (~ (th < aget pr i /\ bp <= aget pr i)) as Hni.
    { apply andb_false_iff in Ht as [?%Z.ltb_ge|?%Z.leb_gt]; lia. }
    destruct (IH (i + 1) m' b bp) as [[-> Hno]|[(Hr & Hr2 & Hr3) Hmax]];
      [lia..|by intros j []%Hback| |].
    + left. split; [done|]. intros j (Hj & Hp).
      destruct (Hsplit j Hj) as [->|?]; [done|by destruct (Hno j)].
    + right. split; [by destruct (Hback _ Hr)|]. intros j (Hj & Hp).
      destruct (Hsplit j Hj) as [->|?]; [done|by apply Hmax].
Qed.

Section Context.
Context (p : t) (ctx : Z) (Hwf : wf p) (Hctx : 0 <= ctx < CONTEXTS).

Lemma aget_forall {A} `{Inhabited A} (P : A -> Prop) (l : list A) i n :
  Forall P l -> length l = n -> 0 <= i < Z.of_nat n -> P (aget l i).
Proof.
  intros HF Hl Hi. unfold aget.
  eapply Forall_lookup_1; [exact HF|]. apply list_lookup_lookup_total_lt. lia.
Qed.

Lemma eligible_range j : bit (eligible p ctx) j -> 1 <= j < 32.
Proof.
  intros [Hj Hb]. unfold eligible in Hb.
  rewrite Z.ldiff_spec, Z.land_spec in Hb.
  apply andb_true_iff in Hb as [[Hp He]%andb_true_iff _].
  destruct (aget_forall _ _ _ 2%nat (wf_en _ Hwf) (wf_en_len _ Hwf) Hctx) as [[He0 He1] Hz].
  split.
  - destruct (decide (j = 0)) as [->|]; [by rewrite Hz in He|lia].
  - destruct (decide (j < 32)); [done|].
    rewrite (proj1 (uint_testbit 32 _ ltac:(lia) (proj1 (wf_pending _ Hwf))) (wf_pending _ Hwf)) in Hp;
      [done|lia].
Qed.

Lemma threshold_nonneg : 0 <= aget p.(threshold) ctx.
Proof. by destruct (aget_forall _ _ _ 2%nat (wf_th _ Hwf) (wf_th_len _ Hwf) Hctx). Qed.

Lemma best_cases :
  (best p ctx = 0 /\ forall i, ~ deliverable p ctx i) \/
  (1 <= best p ctx < SOURCES /\ deliverable p ctx (best p ctx) /\
   forall j, deliverable p ctx j -> outranks p (best p ctx) j).
Proof.
  unfold best, outranks. setoid_rewrite deliverable_eligible.
  assert (0 <= eligible p ctx) as H0.
  { apply Z.ldiff_nonneg. left. apply Z.land_nonneg. left. apply (wf_pending _ Hwf). }
  destruct (best_loop_spec 32 0 (priority p) (aget (threshold p) ctx) (eligible p ctx) 0 0)
    as [[Hr Hno]|[((Hr0 & Hr1) & Hr2 & Hr3) Hmax]]; [done|lia|intros j ?%eligible_range; lia| |].
  all: pose proof threshold_nonneg.
  - left. split; [done|]. intros i (? & ? & ?). apply (Hno i). split; [done|]. lia.
  - right. split; [by apply eligible_range|]. split; [done|].
    intros j (? & ? & ?). apply Hmax. split; [done|]. lia.
Qed.

Lemma deliverable_claim i :
  best p ctx <> 0 ->
  deliverable (snd (claim p ctx)) ctx i <-> deliverable p ctx i /\ i <> best p ctx.
Proof.
  intros Hb. unfold claim. destruct (Z.eqb_spec (best p ctx) 0); [done|]. simpl.
  destruct best_cases as [[? _]|[Hr _]]; [done|].
  rewrite !deliverable_eligible. unfold eligible. simpl. rewrite !Z.ldiff_spec, Z.lor_spec.
  rewrite Z.shiftl_1_l, Z.pow2_bits_eqb, negb_orb by lia.
  destruct (Z.eqb_spec (best p ctx) i) as [<-|Hne].
  - rewrite !andb_false_r. split; [by intros (_ & ? & _)|by intros [_ ?]].
  - rewrite andb_true_r. split; [by intros|by intros []].
Qed.
End Context.

(** *** Sequences of accesses *)

(** What happens to the controller: a guest access, or the device lines. *)
Inductive op : Type :=
| ORead (off : Z)
| OWrite (off val : Z)
| OLines (m : Z).

Definition op_wf (o : op) : Prop :=
  match o with
  | ORead off => 0 <= off
  | OWrite off val => 0 <= off /\ uint 32 val
  | OLines m => uint 32 m
  end.

Definition step (p : t) (o : op) : t :=
  match o with
  | ORead off => snd (read p off)
  | OWrite off val => write p off val
  | OLines m => set_pending m p
  end.

Definition steps (ops : list op) (p : t) : t := foldl step p ops.

(** The write that completes source [id], on either context. *)
Definition completes (id : Z) (o : op) : Prop :=
  exists ctx, 0 <= ctx < CONTEXTS /\ o = OWrite (0x200000 + ctx * 0x1000 + 4) id.

Lemma wf_new : wf new.
Proof. split; try done; repeat constructor; done. Qed.

Lemma wf_set_claimed p m : wf p -> uint 32 m -> wf (set_claimed m p).
Proof. intros [] ?. by split. Qed.

Lemma wf_claim p ctx : wf p -> 0 <= ctx < CONTEXTS -> wf (snd (claim p ctx)).
Proof.
  intros Hwf Hctx. unfold claim. destruct (Z.eqb_spec (best p ctx) 0); [done|]. simpl.
  apply wf_set_claimed; [done|]. apply uint_lor; [lia|apply Hwf|].
  destruct (best_cases p ctx Hwf Hctx) as [[? _]|[[? ?] _]]; [done|].
  rewrite Z.shiftl_1_l. unfold uint, SOURCES in *. split; [lia|].
  apply Z.pow_lt_mono_r; lia.
Qed.

Lemma ctx_div off : 0x200000 <= off -> (CONTEXTS <=? (off - 0x200000) / 0x1000) = false ->
  0 <= (off - 0x200000) / 0x1000 < CONTEXTS.
Proof. intros ? ?%Z.leb_gt. split; [apply Z.div_pos; lia|done]. Qed.

Lemma forall_aset {A} (P : A -> Prop) (l : list A) i v :
  Forall P l -> P v -> Forall P (aset l i v).
Proof. intros. by apply Forall_insert. Qed.

(** Every access keeps the register file well formed. *)
Lemma wf_step p o : wf p -> op_wf o -> wf (step p o).
Proof.
  intros Hwf Ho. destruct o as [off|off val|m]; simpl in *.
  - unfold read. repeat case_match; simpl; try done. apply wf_claim; [done|].
    apply ctx_div; [by apply Z.leb_le|done].
  - destruct Ho as [Ho [Hv0 Hv1]], Hwf. unfold write, aset.
    repeat case_match; split; simpl; rewrite ?length_insert; try done;
      try (apply forall_aset; done).
    + apply forall_aset; [done|]. split; [by apply uint_ldiff|].
      rewrite <- Z.bit0_odd, Z.ldiff_spec. apply andb_false_r.
    + by apply uint_ldiff.
  - destruct Hwf. by split.
Qed.

Lemma wf_steps p ops : wf p -> Forall op_wf ops -> wf (steps ops p).
Proof.
  revert p. induction ops as [|o ops IH]; intros p Hwf HF; [done|].
  apply Forall_cons_1 in HF as [? ?]. apply IH; [by apply wf_step|done].
Qed.

(** A source in service stays in service until it is completed. *)
Lemma claimed_kept p o id :
  wf p -> op_wf o -> 0 <= id < SOURCES -> ~ completes id o ->
  Z.testbit p.(claimed) id = true -> Z.testbit (step p o).(claimed) id = true.
Proof.
  intros Hwf Ho Hid Hnc Hc. destruct o as [off|off val|m]; simpl in *; [| |done].
  - unfold read, claim. repeat case_match; simpl; try done.
    all: rewrite Z.lor_spec, Hc; done.
  - unfold write. repeat case_match; simpl; try done.
    rewrite Z.ldiff_spec, Hc. simpl.
    destruct Ho as [? [? ?]]. rewrite Z.shiftl_1_l, Z.pow2_bits_eqb by done.
    apply negb_true_iff, Z.eqb_neq. intros ->. destruct Hnc.
    assert (0 <= (off - 0x200000) / 0x1000 < CONTEXTS) by (apply ctx_div; [by apply Z.leb_le|done]).
    exists ((off - 0x200000) / 0x1000). split; [done|]. f_equal.
    repeat match goal with H : (_ =? _) = true |- _ => apply Z.eqb_eq in H end. zlia.
Qed.

Lemma claimed_kept_steps p ops id :
  wf p -> Forall op_wf ops -> 0 <= id < SOURCES -> Forall (fun o => ~ completes id o) ops ->
  Z.testbit p.(claimed) id = true -> Z.testbit (steps ops p).(claimed) id = true.
Proof.
  revert p. induction ops as [|o ops IH]; intros p Hwf HF Hid Hn Hc; [done|].
  apply Forall_cons_1 in HF as [? ?]. apply Forall_cons_1 in Hn as [? ?].
  apply IH; try done; [by apply wf_step|by apply claimed_kept].
Qed.

(** *** Draining by repeated claims *)

(** A handler that claims until the register reads zero. *)
Fixpoint drain (fuel : nat) (p : t) (ctx : Z) : list Z * t :=
  match fuel with
  | O => ([], p)
  | S fuel =>
      let '(id, p) := claim p ctx in
      if id =? 0 then ([], p)
      else let '(ids, p) := drain fuel p ctx in (id :: ids, p)
  end.

Lemma fst_claim p ctx : fst (claim p ctx) = best p ctx.
Proof. done. Qed.

Lemma outranks_claim p ctx : outranks (snd (claim p ctx)) = outranks p.
Proof. unfold claim, outranks. by destruct (negb _). Qed.

Lemma drain_spec fuel p ctx L :
  wf p -> 0 <= ctx < CONTEXTS -> (forall i, deliverable p ctx i -> i ∈ L) ->
  (length L <= fuel)%nat ->
  let '(ids, p') := drain fuel p ctx in
  best p' ctx = 0 /\ (forall i, i ∈ ids <-> deliverable p ctx i) /\
  StronglySorted (outranks p) ids /\ NoDup ids.
Proof.
  revert p L. induction fuel as [|fuel IH]; intros p L Hwf Hctx HL Hlen;
    destruct (best_cases p ctx Hwf Hctx) as [[Hb Hno]|(Hr & Hd & Hmax)]; cbn [drain].
  - split; [done|]. split; [|by split; constructor].
    intros i. split; [intros []%elem_of_nil|by intros ?%Hno].
  - apply HL in Hd. destruct L; [by apply elem_of_nil in Hd|simpl in Hlen; lia].
  - destruct (claim p ctx) as [id p1] eqn:E. unfold claim in E. rewrite Hb in E. simplify_eq/=.
    split; [done|]. split; [|by split; constructor].
    intros i. split; [intros []%elem_of_nil|by intros ?%Hno].
  - assert (best p ctx <> 0) as Hnz by lia.
    pose proof (wf_claim p ctx Hwf Hctx) as Hwf1.
    pose proof (fun i => deliverable_claim p ctx Hwf Hctx i Hnz) as Hdel.
    pose proof (outranks_claim p ctx) as Hout.
    pose proof (fst_claim p ctx) as Hid.
    destruct (claim p ctx) as [id p1]. simpl in *. subst id.
    destruct (Z.eqb_spec (best p ctx) 0); [done|].
    specialize (IH p1 (filter (.≠ best p ctx) L) Hwf1 Hctx).
    destruct (drain fuel p1 ctx) as [ids p2].
    destruct IH as (Hend & Hmem & Hsort & Hnd).
    { intros i [Hi Hne]%Hdel. by apply list_elem_of_filter; auto. }
    { pose proof (length_filter_lt (.≠ best p ctx) L (best p ctx) (HL _ Hd)). intuition lia. }
    split; [done|]. split; [|split].
    + intros i. rewrite elem_of_cons, Hmem, Hdel. split; [intros [->|[]]; done|].
      intros Hi. destruct (decide (i = best p ctx)); auto.
    + rewrite Hout in Hsort. constructor; [done|]. apply Forall_forall.
      intros i [Hi _]%list_elem_of_In%Hmem%Hdel. by apply Hmax.
    + constructor; [|done]. intros []%Hmem%Hdel. done.
Qed.

(** *** Properties *)

(** The source the controller offers a context is 0 exactly when no
    source is pending, enabled for it, out of service and above its threshold;
    otherwise it is such a source, of the highest priority, and of the highest
    number among those. *)
Theorem plic_best p ctx :
  wf p -> 0 <= ctx < CONTEXTS ->
  (best p ctx = 0 /\ pending_ctx p ctx = false /\ forall i, ~ deliverable p ctx i) \/
  (1 <= best p ctx < SOURCES /\ pending_ctx p ctx = true /\
   deliverable p ctx (best p ctx) /\
   forall j, deliverable p ctx j -> outranks p (best p ctx) j).
Proof.
  intros Hwf Hctx. unfold pending_ctx.
  destruct (best_cases p ctx Hwf Hctx) as [[-> ?]|(? & ? & ?)]; [by left|right].
  split; [done|]. split; [|done]. apply negb_true_iff, Z.eqb_neq. lia.
Qed.

(** From reset, after any sequence of accesses and line changes, a source
    that a context claims is offered to no context again until a completion
    write names it. *)
Theorem plic_claim_exclusive pre ctx post ctx' :
  Forall op_wf pre -> Forall op_wf post -> 0 <= ctx < CONTEXTS -> 0 <= ctx' < CONTEXTS ->
  let p := steps pre new in
  let id := fst (claim p ctx) in
  id <> 0 -> Forall (fun o => ~ completes id o) post ->
  fst (claim (steps post (snd (claim p ctx))) ctx') <> id.
Proof.
  intros Hpre Hpost Hc Hc' p id Hnz Hn Heq.
  assert (wf p) as Hwf by (apply wf_steps; [apply wf_new|done]).
  subst id. rewrite !fst_claim in *. clearbody p.
  pose proof (wf_claim p ctx Hwf Hc) as Hwf1.
  destruct (best_cases p ctx Hwf Hc) as [[? _]|(Hr & _ & _)]; [done|].
  assert (Z.testbit (claimed (steps post (snd (claim p ctx)))) (best p ctx) = true) as Hcl.
  { apply claimed_kept_steps; try done; [lia|].
    unfold claim. destruct (Z.eqb_spec (best p ctx) 0); [done|]. simpl.
    rewrite Z.lor_spec, Z.shiftl_1_l, Z.pow2_bits_eqb by lia.
    by rewrite Z.eqb_refl, orb_true_r. }
  assert (wf (steps post (snd (claim p ctx)))) as Hwf2 by by apply wf_steps.
  destruct (best_cases _ ctx' Hwf2 Hc') as [[Hz _]|(_ & (_ & _ & _ & Hel & _) & _)]; [congruence|].
  by rewrite Heq, Hcl in Hel.
Qed.

(** C27: A handler that claims until the register reads zero ends within 32
    claims, and the sources it is given are exactly the deliverable ones, each
    once, in order of decreasing rank. *)
Theorem plic_drain p ctx :
  wf p -> 0 <= ctx < CONTEXTS ->
  let '(ids, p') := drain 32 p ctx in
  pending_ctx p' ctx = false /\ (forall i, i ∈ ids <-> deliverable p ctx i) /\
  StronglySorted (outranks p) ids /\ NoDup ids.
Proof.
  intros Hwf Hctx. pose proof (drain_spec 32 p ctx (seqZ 0 32) Hwf Hctx) as H.
  destruct (drain 32 p ctx) as [ids p']. destruct H as (Hb & ? & ? & ?); [|done|].
  - intros i (Hi & Hel & _)%deliverable_eligible. apply elem_of_seqZ.
    pose proof (eligible_range p ctx Hwf Hctx i (conj Hi Hel)). lia.
  - split; [|done]. unfold pending_ctx. by rewrite Hb.
Qed.

(** Sources 1, 3 and 5 pending with priorities 2, 7 and 7, enabled for the
    supervisor context and out of service; of the same priority 2 is idle, 6
    pending but not enabled, and 7 in service. *)
Definition busy : t :=
  steps [OWrite 4 2; OWrite 8 7; OWrite 12 7; OWrite 20 7; OWrite 24 7; OWrite 28 7; OWrite 0x2080 0xffffffbf;
         OLines 0x80; ORead 0x201004; OLines 0xea] new.

Lemma busy_wf : wf busy.
Proof. apply wf_steps; [apply wf_new|]. repeat constructor; done. Qed.

Lemma plic_best_witness : best busy 1 = 5 /\ deliverable busy 1 5.
Proof.
  split; [reflexivity|].
  destruct (plic_best busy 1 busy_wf ltac:(done)) as [[H _]|(_ & _ & H & _)]; [|exact H].
  exfalso. vm_compute in H. discriminate.
Defined.

Lemma plic_claim_exclusive_witness :
  let pre := [OWrite 4 2; OWrite 12 7; OWrite 20 7; OWrite 0x2080 0xffffffff; OLines 0x2a] in
  let post := [OLines 0; OWrite 0x201004 3; OLines 0xff] in
  fst (claim (steps pre new) 1) = 5 /\
  fst (claim (steps post (snd (claim (steps pre new) 1))) 1) <> 5.
Proof.
  split; [reflexivity|].
  apply (plic_claim_exclusive
    [OWrite 4 2; OWrite 12 7; OWrite 20 7; OWrite 0x2080 0xffffffff; OLines 0x2a] 1
    [OLines 0; OWrite 0x201004 3; OLines 0xff] 1); try done;
    repeat constructor; try done; intros (ctx & _ & E); discriminate.
Defined.

Lemma plic_drain_witness :
  fst (drain 32 busy 1) = [5; 3; 1] /\
  let '(ids, p') := drain 32 busy 1 in
  pending_ctx p' 1 = false /\ (forall i, i ∈ ids <-> deliverable busy 1 i) /\
  StronglySorted (outranks busy) ids /\ NoDup ids.
Proof.
  split; [vm_compute; reflexivity|].
  exact (plic_drain busy 1 busy_wf (conj (Zle_0_pos 1) eq_refl)).
Defined.
End PlicSpec.

(** ** UART *)

Module UartSpec.
Import Uart.

(** What happens to the port: guest accesses on one side, the console on the
    other. *)
Inductive ev : Type :=
| ERead (off : Z)
| EWrite (off val : Z)
| EInput (bytes : list Z)
| ETake.

(** The bytes an event moves: into the receive queue, out of it to the guest,
    from the guest to the transmitter, out to the console. *)
Record moved : Type := mk_moved {
  fed : list Z;
  got : list Z;
  sent : list Z;
  taken : list Z
}.

Definition step (u : t) (e : ev) : moved * t :=
  match e with
  | ERead off =>
      let '(v, u') := read u off in
      (mk_moved [] (if (off =? 0) && negb (dlab u) && has_rx u then [v] else []) [] [], u')
  | EWrite off val =>
      (mk_moved [] [] (if (off =? 0) && negb (dlab u) then [val] else []) [], write u off val)
  | EInput bytes => (mk_moved bytes [] [] [], input bytes u)
  | ETake => let '(bytes, u') := take_output u in (mk_moved [] [] [] bytes, u')
  end.

Definition moved_app (a b : moved) : moved :=
  mk_moved (a.(fed) ++ b.(fed)) (a.(got) ++ b.(got)) (a.(sent) ++ b.(sent))
    (a.(taken) ++ b.(taken)).

Fixpoint trace (evs : list ev) (u : t) : moved * t :=
  match evs with
  | [] => (mk_moved [] [] [] [], u)
  | e :: evs =>
      let '(m, u) := step u e in
      let '(m', u) := trace evs u in (moved_app m m', u)
  end.

Lemma step_streams u e :
  let '(m, u') := step u e in
  u.(rx) ++ m.(fed) = m.(got) ++ u'.(rx) /\ u.(tx_out) ++ m.(sent) = m.(taken) ++ u'.(tx_out).
Proof.
  destruct e as [off|off val|bytes|]; simpl.
  - unfold read, has_rx, set_rx, set_thre. repeat case_match; simplify_eq/=;
      rewrite ?app_nil_r; try done; congruence.
  - unfold write. destruct ((off =? 0) && negb (dlab u)); simpl; [by rewrite app_nil_r|].
    repeat case_match; simpl; by rewrite ?app_nil_r.
  - by rewrite !app_nil_r.
  - by rewrite !app_nil_r.
Qed.

(** Over any sequence of guest accesses, console input and output drains,
    the bytes the guest reads followed by those still queued are the bytes fed
    to the port, and the bytes the console takes followed by those still
    buffered are the bytes the guest sent: none is lost, duplicated or
    reordered. *)
Theorem uart_streams evs u :
  let '(m, u') := trace evs u in
  u.(rx) ++ m.(fed) = m.(got) ++ u'.(rx) /\ u.(tx_out) ++ m.(sent) = m.(taken) ++ u'.(tx_out).
Proof.
  revert u. induction evs as [|e evs IH]; intros u; simpl; [by rewrite !app_nil_r|].
  pose proof (step_streams u e) as Hs. destruct (step u e) as [m u1]. specialize (IH u1).
  destruct (trace evs u1) as [m' u2]. destruct Hs as [H1 H2], IH as [H3 H4]. simpl.
  by rewrite !app_assoc, H1, H2, <- !app_assoc, H3, H4.
Qed.

(** The interrupt line is up exactly when the identification register reports
    a cause, and reading it drops the transmitter's. *)
Lemma uart_irq_identified u :
  irq u = negb (Z.testbit (fst (read u 2)) 0) /\
  irq (snd (read u 2)) =
    (negb ((u.(ier) .& 1) =? 0) && has_rx u) .
Proof.
  unfold irq, read, set_thre, has_rx. simpl.
  destruct (negb (u.(ier) .& 1 =? 0) && _) eqn:E; simpl; [by rewrite E|].
  destruct u.(thre_ip) eqn:Et; simpl; by rewrite ?E, ?Et.
Qed.

(** The line keeps the transmitter's interrupt after it is disabled: only the
    identification register drops it. *)
Lemma uart_irq_after_disable :
  irq (write (write new 1 2) 1 0) = true.
Proof. reflexivity. Qed.
End UartSpec.

(** ** Goldfish RTC *)

Module RtcSpec.
Import Rtc.

Definition refreshes (nss : list Z) (r : t) : t := foldl (fun r ns => set_host_time_ns ns r) r nss.

Lemma update_alarm_fields r :
  (update_alarm r).(host_ns) = r.(host_ns) /\
  (update_alarm r).(guest_offset_ns) = r.(guest_offset_ns) /\
  (update_alarm r).(latched_time_high) = r.(latched_time_high) /\
  (update_alarm r).(alarm_ns) = r.(alarm_ns) /\
  (update_alarm r).(irq_enabled) = r.(irq_enabled).
Proof. unfold update_alarm. by destruct (_ && _ && _). Qed.

Lemma refresh_fields ns r :
  (set_host_time_ns ns r).(host_ns) = ns /\
  (set_host_time_ns ns r).(guest_offset_ns) = r.(guest_offset_ns) /\
  (set_host_time_ns ns r).(latched_time_high) = r.(latched_time_high) /\
  (set_host_time_ns ns r).(alarm_ns) = r.(alarm_ns) /\
  (set_host_time_ns ns r).(irq_enabled) = r.(irq_enabled).
Proof. apply update_alarm_fields. Qed.

Lemma refreshes_latch nss r : (refreshes nss r).(latched_time_high) = r.(latched_time_high).
Proof.
  revert r. induction nss as [|ns nss IH]; intros r; [done|]. simpl. rewrite IH.
  apply refresh_fields.
Qed.

Lemma time_ns_range r : uint 64 (time_ns r).
Proof. unfold uint, time_ns, U64_MAX. change (2 ^ 64) with 18446744073709551616. lia. Qed.

Lemma read_low r : fst (read r TIME_LOW) = u32 (time_ns r) /\
  (snd (read r TIME_LOW)).(latched_time_high) = u32 (time_ns r .>> 32).
Proof. done. Qed.

Lemma read_high r : read r TIME_HIGH = (r.(latched_time_high), r).
Proof. done. Qed.

(** After the guest sets the clock to [h:l], the time it reads through
    the two registers is that time plus what the host's clock has advanced
    since, saturated to 64 bits, even when the host's clock is refreshed any
    number of times between the two register reads. *)
Theorem rtc_set_then_read r h l ns nss :
  uint 32 h -> uint 32 l ->
  let r1 := set_host_time_ns ns (write (write r TIME_HIGH h) TIME_LOW l) in
  let '(lo, r2) := read r1 TIME_LOW in
  let '(hi, _) := read (refreshes nss r2) TIME_HIGH in
  hi * 2 ^ 32 + lo = Z.max 0 (Z.min (h * 2 ^ 32 + l + (ns - r.(host_ns))) U64_MAX).
Proof.
  intros Hh Hl r1. destruct (read_low r1) as [Elo Ehi].
  destruct (read r1 TIME_LOW) as [lo r2]. cbn [fst snd] in Elo, Ehi.
  rewrite read_high, refreshes_latch, Elo, Ehi.
  assert (time_ns r1 = Z.max 0 (Z.min (h * 2 ^ 32 + l + (ns - r.(host_ns))) U64_MAX)) as <-.
  { unfold time_ns. subst r1. destruct (refresh_fields ns (write (write r TIME_HIGH h) TIME_LOW l))
      as (-> & -> & _).
    unfold write at 1. cbn [TIME_LOW TIME_HIGH Z.eqb]. rewrite (proj1 (proj2 (update_alarm_fields _))).
    cbn. rewrite Z.lor_comm, (lor_add 32), Z.shiftl_mul_pow2 by
      (try done; rewrite ?Z.shiftl_mul_pow2 by lia; by apply Z.mod_mul).
    do 2 f_equal. lia. }
  pose proof (time_ns_range r1) as [H0 H1]. unfold u32, wrap.
  generalize dependent (time_ns r1). clear r1 Hh Hl. intros now H0 H1.
  rewrite Z.shiftr_div_pow2 by lia. zlia.
Qed.

(** Whether a host time reaches the alarm. *)
Definition due (r : t) (ns : Z) : bool :=
  r.(alarm_ns) <=? Z.max 0 (Z.min (ns + r.(guest_offset_ns)) U64_MAX).

Lemma due_refresh ns r ns' : due (set_host_time_ns ns r) ns' = due r ns'.
Proof. unfold due. by destruct (refresh_fields ns r) as (_ & -> & _ & -> & _). Qed.

Lemma refresh_alarm ns r :
  let r' := set_host_time_ns ns r in
  let fires := r.(alarm_armed) && r.(irq_enabled) && due r ns in
  irq r' = irq r || fires /\ r'.(alarm_armed) = r.(alarm_armed) && negb fires.
Proof.
  unfold set_host_time_ns, update_alarm, due, time_ns, irq. simpl.
  destruct (r.(alarm_armed) && r.(irq_enabled) && _) eqn:E; simpl.
  - split; [by rewrite orb_true_r|by rewrite andb_false_r].
  - by rewrite orb_false_r, andb_true_r.
Qed.

Lemma refreshes_irq nss r :
  irq (refreshes nss r) = irq r || (r.(alarm_armed) && r.(irq_enabled) && existsb (due r) nss) /\
  (refreshes nss r).(alarm_armed) =
    r.(alarm_armed) && negb (r.(irq_enabled) && existsb (due r) nss).
Proof.
  revert r. induction nss as [|ns nss IH]; intros r; simpl.
  { by rewrite !andb_false_r, orb_false_r, andb_true_r. }
  destruct (IH (set_host_time_ns ns r)) as [-> ->], (refresh_alarm ns r) as [-> ->].
  assert (existsb (due (set_host_time_ns ns r)) nss = existsb (due r) nss) as ->.
  { clear IH. induction nss as [|n nss IHn]; simpl; [done|]. by rewrite IHn, due_refresh. }
  destruct (refresh_fields ns r) as (_ & _ & _ & _ & ->).
  by destruct (irq r), (alarm_armed r), (irq_enabled r), (due r ns), (existsb (due r) nss).
Qed.

(** An alarm armed with interrupts enabled raises the line at the first
    host refresh that reaches it and at no earlier one; it is one-shot: once
    acknowledged, no later refresh raises the line again. *)
Theorem rtc_alarm_once r nss nss' :
  r.(alarm_armed) = true -> r.(irq_enabled) = true -> irq r = false ->
  irq (refreshes nss r) = existsb (due r) nss /\
  (irq (refreshes nss r) = true ->
   irq (refreshes nss' (write (refreshes nss r) CLEAR_INTERRUPT 1)) = false).
Proof.
  intros Ha He Hi. destruct (refreshes_irq nss r) as [H1 H2].
  rewrite Hi, Ha, He in H1. rewrite Ha, He in H2. simpl in H1, H2. split; [done|]. intros Hf.
  rewrite (proj1 (refreshes_irq _ _)). unfold write. cbn -[refreshes].
  rewrite H2, <- H1, Hf. done.
Qed.

Lemma rtc_set_then_read_witness :
  let r1 := set_host_time_ns 0x2234567800000110
              (write (write (set_host_time_ns 0x2234567800000010 new) TIME_HIGH 3) TIME_LOW 7) in
  let '(lo, r2) := read r1 TIME_LOW in
  let '(hi, _) := read (refreshes [0x3000000000000000] r2) TIME_HIGH in
  hi * 2 ^ 32 + lo = 0x300000107.
Proof.
  exact (rtc_set_then_read (set_host_time_ns 0x2234567800000010 new) 3 7 0x2234567800000110
    [0x3000000000000000] ltac:(done) ltac:(done)).
Defined.

Lemma rtc_alarm_once_witness :
  let r := write (write (set_host_time_ns 100 new) ALARM_LOW 200) IRQ_ENABLED 1 in
  irq (refreshes [150] r) = false /\ irq (refreshes [150; 200] r) = true /\
  irq (refreshes [300] (write (refreshes [150; 200] r) CLEAR_INTERRUPT 1)) = false.
Proof.
  split; [reflexivity|]. split; [reflexivity|].
  apply (rtc_alarm_once (write (write (set_host_time_ns 100 new) ALARM_LOW 200) IRQ_ENABLED 1)
    [150; 200] [300]); reflexivity.
Defined.
End RtcSpec.
