(* ===== verification/Virtio.v ===== *)
(** * virtio-mmio devices (rv64-system: virtio.rs)

    The transport's registers, the split virtqueues and the console, block, 9P
    and network backends.  Guest memory is the state of the [Ram] monad; the
    device is passed explicitly.  The 9P server is an interface.  [usize] has
    64 bits, and additions wrap as they do in the release profile. *)

From stdpp Require Import gmap.
From S2P Require Import Prelude Bus Slices.

(** A descriptor: address, length, device-writable. *)
Definition Descriptor : Type := Z * Z * bool.

Definition VIRTQ_DESC_F_NEXT : Z := 1.
Definition VIRTQ_DESC_F_WRITE : Z := 2.
Definition VIRTQ_DESC_F_INDIRECT : Z := 4.
Definition DESCRIPTOR_BYTES : Z := 16.

(** Chain head and descriptors of a request an external server holds. *)
Record ExternalP9Pending : Type := mkPending { pending_head : Z; pending_chain : list Descriptor }.

(** What the transport asks of a 9P server; [None] when it panics. *)
Class P9Server (S : Type) : Type := {
  p9_mount_tag : S -> list Z;
  p9_handle : S -> list Z -> option (list Z * S)
}.

Inductive Backend (S : Type) : Type :=
| Console (rx_buf tx_out : list Z) (cols rows : Z)
| Block (disk : list Z)
| Fs (srv : S)
| FsExternal (tag : list Z) (requests : list (list Z)) (pending : gmap Z ExternalP9Pending)
| Net (mac : list Z) (inbox outbox : list (list Z)).
Arguments Console {S}.
Arguments Block {S}.
Arguments Fs {S}.
Arguments FsExternal {S}.
Arguments Net {S}.

Definition MAX_QUEUES : Z := 2.
Definition NET_HDR_LEN : Z := 12.
Definition NET_MAX_FRAME : Z := 1600.
Definition NET_QUEUE_LIMIT : Z := 256.

Record Queue : Type := mkQueue {
  ready : Z;
  num : Z;
  desc : Z;
  avail : Z;
  used : Z;
  last_avail_idx : Z
}.

Definition default_queue : Queue := mkQueue 0 0 0 0 0 0.
#[global] Instance Queue_inhabited : Inhabited Queue := populate default_queue.

Definition set_ready (v : Z) (q : Queue) : Queue := mkQueue v q.(num) q.(desc) q.(avail) q.(used) q.(last_avail_idx).
Definition set_num (v : Z) (q : Queue) : Queue := mkQueue q.(ready) v q.(desc) q.(avail) q.(used) q.(last_avail_idx).
Definition set_desc (v : Z) (q : Queue) : Queue := mkQueue q.(ready) q.(num) v q.(avail) q.(used) q.(last_avail_idx).
Definition set_avail (v : Z) (q : Queue) : Queue := mkQueue q.(ready) q.(num) q.(desc) v q.(used) q.(last_avail_idx).
Definition set_used (v : Z) (q : Queue) : Queue := mkQueue q.(ready) q.(num) q.(desc) q.(avail) v q.(last_avail_idx).
Definition set_last_avail (v : Z) (q : Queue) : Queue := mkQueue q.(ready) q.(num) q.(desc) q.(avail) q.(used) v.

Inductive ServiceResult : Type :=
| Complete (written : Z)
| Deferred
| Blocked.

Record VirtioDev (S : Type) : Type := mkVirtio {
  backend : Backend S;
  status : Z;
  device_features_sel : Z;
  driver_features_sel : Z;
  queue_sel : Z;
  queues : list Queue;
  config_generation : Z;
  int_status : Z
}.
Arguments mkVirtio {S}.
Arguments backend {S}.
Arguments status {S}.
Arguments device_features_sel {S}.
Arguments driver_features_sel {S}.
Arguments queue_sel {S}.
Arguments queues {S}.
Arguments config_generation {S}.
Arguments int_status {S}.

Definition VIRTIO_BLK_T_IN : Z := 0.
Definition VIRTIO_BLK_T_OUT : Z := 1.
Definition SECTOR : Z := 512.

(** ** Guest memory *)

Definition Ram (A : Type) : Type := M Empty_set (list Z) A.

(** [ram[s..e]]. *)
Definition get_slice (s e : Z) : Ram (list Z) := ram <- gets id ;; unwrap (slice ram s e).

(** [ram[o] = v]. *)
Definition put_byte (o v : Z) : Ram unit :=
  ram <- gets id ;;
  if Z.of_nat (length ram) <=? o then panic else modify (fun ram => aset ram o v).

(** The bytes of a descriptor, or [None] when it is not entirely in memory. *)
Definition guest_slice (ram : list Z) (ram_base addr len : Z) : option (list Z) :=
  if addr <? ram_base then None else
  let off := addr - ram_base in
  if 2 ^ 64 <=? off + len then None else slice ram off (off + len).

(** [guest_slice_mut(..)] followed by [copy_from_slice]: [false] when there is
    no such slice. *)
Definition guest_put (ram_base addr len : Z) (bytes : list Z) : Ram bool :=
  ram <- gets id ;;
  match guest_slice ram ram_base addr len with
  | None => ret false
  | Some _ => put_slice (addr - ram_base) (addr - ram_base + len) bytes ;;; ret true
  end.

Definition set_lo (v val : Z) : Z := (v .&~ 0xffffffff) .| val.
Definition set_hi (v val : Z) : Z := (v .& 0xffffffff) .| (val .<< 32).

Definition read16 (ram_base addr : Z) : Ram Z :=
  let o := sub64 addr ram_base in
  bytes <- get_slice o (u64 (o + 2)) ;; ret (from_le_bytes bytes).

Definition write16 (ram_base addr v : Z) : Ram unit :=
  let o := sub64 addr ram_base in put_slice o (u64 (o + 2)) (to_le_bytes 2 v).

Definition write32 (ram_base addr v : Z) : Ram unit :=
  let o := sub64 addr ram_base in put_slice o (u64 (o + 4)) (to_le_bytes 4 v).

(** [a % b], which panics when [b] is zero. *)
Definition checked_rem (a b : Z) : Ram Z := if b =? 0 then panic else ret (a mod b).

(** ** Descriptor chains *)

Record RawDesc : Type := mkRaw { d_addr : Z; d_len : Z; d_flags : Z; d_next : Z }.

Definition read_descriptor (ram : list Z) (ram_base table count index : Z) : option RawDesc :=
  if count <=? index then None else
  let address := table + index * DESCRIPTOR_BYTES in
  if 2 ^ 64 <=? address then None else
  bytes ← guest_slice ram ram_base address DESCRIPTOR_BYTES;
  Some (mkRaw (from_le_bytes (take 8 bytes)) (from_le_bytes (take 4 (drop 8 bytes)))
          (from_le_bytes (take 2 (drop 12 bytes))) (from_le_bytes (take 2 (drop 14 bytes)))).

(** [for _ in 0..count] of [walk_descriptor_table]. *)
Fixpoint walk (n : nat) (ram : list Z) (ram_base table count index : Z) : option (list Descriptor) :=
  match n with
  | O => None
  | S n =>
      d ← read_descriptor ram ram_base table count index;
      if negb ((d.(d_flags) .& VIRTQ_DESC_F_INDIRECT) =? 0) then None else
      let e := (d.(d_addr), d.(d_len), negb ((d.(d_flags) .& VIRTQ_DESC_F_WRITE) =? 0)) in
      if (d.(d_flags) .& VIRTQ_DESC_F_NEXT) =? 0 then Some [e]
      else rest ← walk n ram ram_base table count d.(d_next); Some (e :: rest)
  end.

Definition walk_descriptor_table (ram : list Z) (ram_base table count first : Z)
    : option (list Descriptor) :=
  if (count =? 0) || (count <=? first) then None
  else walk (Z.to_nat count) ram ram_base table count first.

Definition descriptor_chain (q : Queue) (head : Z) (ram : list Z) (ram_base : Z)
    : option (list Descriptor) :=
  d ← read_descriptor ram ram_base q.(desc) q.(num) head;
  if (d.(d_flags) .& VIRTQ_DESC_F_INDIRECT) =? 0
  then walk_descriptor_table ram ram_base q.(desc) q.(num) head
  else if negb ((d.(d_flags) .& VIRTQ_DESC_F_NEXT) =? 0) || (d.(d_len) =? 0)
          || negb (d.(d_len) mod DESCRIPTOR_BYTES =? 0) then None
  else walk_descriptor_table ram ram_base d.(d_addr) (d.(d_len) / DESCRIPTOR_BYTES) 0.

(** [u16::from_le_bytes([*message.get(5)?, *message.get(6)?])]. *)
Definition p9_tag (message : list Z) : option Z :=
  lo ← message !! 5%nat; hi ← message !! 6%nat; Some (from_le_bytes [lo; hi]).

Definition publish_used (q : Queue) (head written ram_base : Z) : Ram unit :=
  used_idx <- read16 ram_base (u64 (q.(used) + 2)) ;;
  slot <- checked_rem used_idx q.(num) ;;
  write32 ram_base (u64 (q.(used) + 4 + slot * 8)) head ;;;
  write32 ram_base (u64 (q.(used) + 4 + slot * 8 + 4)) written ;;;
  write16 ram_base (u64 (q.(used) + 2)) (u16 (used_idx + 1)).

Section Device.
Context {S : Type} `{P9Server S}.

Abbreviation dev := (VirtioDev S).

Definition set_backend (b : Backend S) (d : dev) : dev :=
  mkVirtio b d.(status) d.(device_features_sel) d.(driver_features_sel) d.(queue_sel) d.(queues)
    d.(config_generation) d.(int_status).
Definition set_queues (l : list Queue) (d : dev) : dev :=
  mkVirtio d.(backend) d.(status) d.(device_features_sel) d.(driver_features_sel) d.(queue_sel) l
    d.(config_generation) d.(int_status).
Definition set_int_status (v : Z) (d : dev) : dev :=
  mkVirtio d.(backend) d.(status) d.(device_features_sel) d.(driver_features_sel) d.(queue_sel)
    d.(queues) d.(config_generation) v.
Definition set_status (v : Z) (d : dev) : dev :=
  mkVirtio d.(backend) v d.(device_features_sel) d.(driver_features_sel) d.(queue_sel) d.(queues)
    d.(config_generation) d.(int_status).

(** [VirtioDev::new]. *)
Definition new (b : Backend S) : dev := mkVirtio b 0 0 0 0 [default_queue; default_queue] 0 0.

(** ** Registers *)

Definition device_id (d : dev) : Z :=
  match d.(backend) with
  | Console _ _ _ _ => 3
  | Block _ => 2
  | Fs _ | FsExternal _ _ _ => 9
  | Net _ _ _ => 1
  end.

Definition device_features (d : dev) (sel : Z) : Z :=
  if sel =? 1 then 1
  else if sel =? 0 then
    match d.(backend) with
    | Console _ _ _ _ => 1
    | Fs _ | FsExternal _ _ _ => 1 .| (1 .<< 28)
    | Net _ _ _ => 1 .<< 5
    | Block _ => 0
    end
  else 0.

Definition queue_num_max (d : dev) : Z :=
  match d.(backend) with
  | Fs _ | FsExternal _ _ _ => 128
  | Net _ _ _ => 256
  | Console _ _ _ _ => 128
  | Block _ => 16
  end.

Definition irq_pending (d : dev) : bool := negb (d.(int_status) =? 0).

(** The queue that [queue_sel] names, and its update. *)
Definition q (d : dev) : Queue := aget d.(queues) d.(queue_sel).
Definition qm (f : Queue -> Queue) (d : dev) : dev :=
  set_queues (aset d.(queues) d.(queue_sel) (f (q d))) d.

(** A little-endian field of the configuration space. *)
Definition byte_at (bytes : list Z) (off : Z) : Z := default 0 (bytes !! Z.to_nat off).

Definition tag_config (tag : list Z) (off : Z) : Z :=
  if off =? 0 then u8 (Z.of_nat (length tag))
  else if off =? 1 then u8 (Z.of_nat (length tag) .>> 8)
  else byte_at tag (off - 2).

Definition config_u8 (d : dev) (off : Z) : Z :=
  match d.(backend) with
  | Console _ _ cols rows => byte_at (to_le_bytes 2 cols ++ to_le_bytes 2 rows) off
  | Block disk => byte_at (to_le_bytes 8 (Z.of_nat (length disk) / SECTOR)) off
  | Fs srv => tag_config (p9_mount_tag srv) off
  | FsExternal tag _ _ => tag_config tag off
  | Net mac _ _ => byte_at mac off
  end.

Definition read (d : dev) (offset : Z) : Z :=
  if offset =? 0x000 then 0x74726976
  else if offset =? 0x004 then 2
  else if offset =? 0x008 then device_id d
  else if offset =? 0x00c then 0xffff
  else if offset =? 0x010 then device_features d d.(device_features_sel)
  else if offset =? 0x034 then queue_num_max d
  else if offset =? 0x044 then (q d).(ready)
  else if offset =? 0x060 then d.(int_status)
  else if offset =? 0x070 then d.(status)
  else if offset =? 0x0fc then d.(config_generation)
  else if 0x100 <=? offset then
    let o := offset - 0x100 in
    from_le_bytes [config_u8 d o; config_u8 d (o + 1); config_u8 d (o + 2); config_u8 d (o + 3)]
  else 0.

(** Reads of 1, 2 or 4 bytes. *)
Definition read_sized (d : dev) (offset size : Z) : Z :=
  if (0x100 <=? offset) && (size <? 4) then
    let o := offset - 0x100 in
    foldl (fun v i => v .| (config_u8 d (o + i) .<< (8 * i))) 0 (seqZ 0 size)
  else read d offset.

(** The [0x070] register: zero resets the device. *)
Definition write_status (d : dev) (val : Z) : dev :=
  let driver_ok := negb ((d.(status) .& 0x04) =? 0) in
  let d := set_status val d in
  if val =? 0 then
    let d := set_int_status 0 (set_queues [default_queue; default_queue] d) in
    match d.(backend) with
    | FsExternal tag _ _ => set_backend (FsExternal tag [] ∅) d
    | _ => d
    end
  else if negb driver_ok && negb ((val .& 0x04) =? 0) then
    match d.(backend) with
    | Console _ _ _ _ => set_int_status (d.(int_status) .| 2) d
    | _ => d
    end
  else d.

(** The new device, and the queue to process after a notification. *)
Definition write (d : dev) (offset val : Z) : option Z * dev :=
  if offset =? 0x014 then
    (None, mkVirtio d.(backend) d.(status) val d.(driver_features_sel) d.(queue_sel) d.(queues)
             d.(config_generation) d.(int_status))
  else if offset =? 0x024 then
    (None, mkVirtio d.(backend) d.(status) d.(device_features_sel) val d.(queue_sel) d.(queues)
             d.(config_generation) d.(int_status))
  else if offset =? 0x030 then
    (None, mkVirtio d.(backend) d.(status) d.(device_features_sel) d.(driver_features_sel)
             (Z.min val (MAX_QUEUES - 1)) d.(queues) d.(config_generation) d.(int_status))
  else if offset =? 0x038 then (None, qm (set_num (Z.min val (queue_num_max d))) d)
  else if offset =? 0x044 then (None, qm (set_ready (val .& 1)) d)
  else if offset =? 0x050 then (Some val, d)
  else if offset =? 0x064 then (None, set_int_status (d.(int_status) .&~ val) d)
  else if offset =? 0x070 then (None, write_status d val)
  else if offset =? 0x080 then (None, qm (fun q => set_desc (set_lo q.(desc) val) q) d)
  else if offset =? 0x084 then (None, qm (fun q => set_desc (set_hi q.(desc) val) q) d)
  else if offset =? 0x090 then (None, qm (fun q => set_avail (set_lo q.(avail) val) q) d)
  else if offset =? 0x094 then (None, qm (fun q => set_avail (set_hi q.(avail) val) q) d)
  else if offset =? 0x0a0 then (None, qm (fun q => set_used (set_lo q.(used) val) q) d)
  else if offset =? 0x0a4 then (None, qm (fun q => set_used (set_hi q.(used) val) q) d)
  else (None, d).

(** ** The host's side of a device *)

Definition console_input (bytes : list Z) (d : dev) : dev :=
  match d.(backend) with
  | Console rx tx cols rows => set_backend (Console (rx ++ bytes) tx cols rows) d
  | _ => d
  end.

Definition console_take_output (d : dev) : list Z * dev :=
  match d.(backend) with
  | Console rx tx cols rows => (tx, set_backend (Console rx [] cols rows) d)
  | _ => ([], d)
  end.

Definition console_resize (cols rows : Z) (d : dev) : dev :=
  match d.(backend) with
  | Console rx tx _ _ =>
      mkVirtio (Console rx tx cols rows) d.(status) d.(device_features_sel)
        d.(driver_features_sel) d.(queue_sel) d.(queues) (u32 (d.(config_generation) + 1))
        (d.(int_status) .| 2)
  | _ => d
  end.

Definition net_input (frame : list Z) (d : dev) : bool * dev :=
  match d.(backend) with
  | Net mac inbox outbox =>
      if (Z.of_nat (length frame) <=? NET_MAX_FRAME)
         && (Z.of_nat (length inbox) <? NET_QUEUE_LIMIT)
      then (true, set_backend (Net mac (inbox ++ [frame]) outbox) d)
      else (false, d)
  | _ => (false, d)
  end.

Definition net_input_capacity (d : dev) : Z :=
  match d.(backend) with
  | Net _ inbox _ => Z.max 0 (NET_QUEUE_LIMIT - Z.of_nat (length inbox))
  | _ => 0
  end.

Definition net_take_output (d : dev) : list (list Z) * dev :=
  match d.(backend) with
  | Net mac inbox outbox => (outbox, set_backend (Net mac inbox []) d)
  | _ => ([], d)
  end.

Definition net_rx_pending (d : dev) : bool :=
  match d.(backend) with
  | Net _ inbox _ => match inbox with [] => false | _ => true end
  | _ => false
  end.

Definition fs_external_take_request (d : dev) : option (list Z) * dev :=
  match d.(backend) with
  | FsExternal tag (r :: requests) pending =>
      (Some r, set_backend (FsExternal tag requests pending) d)
  | _ => (None, d)
  end.

(** Scattering [bytes] from [pos] over the writable descriptors; the position
    reached. *)
Fixpoint scatter (ram_base : Z) (bytes : list Z) (chain : list Descriptor) (pos : Z) : Ram Z :=
  match chain with
  | [] => ret pos
  | (addr, len, writable) :: chain =>
      if negb writable || (Z.of_nat (length bytes) <=? pos)
      then scatter ram_base bytes chain pos
      else
        let n := Z.min (Z.of_nat (length bytes) - pos) len in
        src <- unwrap (slice bytes pos (pos + n)) ;;
        done <- guest_put ram_base addr (u32 n) src ;;
        if (done : bool) then scatter ram_base bytes chain (pos + n) else ret pos
  end.

(** Gathering the readable descriptors; [None] when one is not in memory. *)
Fixpoint gather (ram : list Z) (ram_base : Z) (chain : list Descriptor) : option (list Z) :=
  match chain with
  | [] => Some []
  | (addr, len, writable) :: chain =>
      if (writable : bool) then gather ram ram_base chain
      else
        s ← guest_slice ram ram_base addr len;
        rest ← gather ram ram_base chain;
        Some (s ++ rest)
  end.

Definition fs_external_reply (bytes : list Z) (ram_base : Z) (d : dev) : Ram (bool * dev) :=
  match p9_tag bytes, d.(backend) with
  | Some t, FsExternal tag requests pending =>
      match pending !! t with
      | None => ret (false, d)
      | Some p =>
          pos <- scatter ram_base bytes p.(pending_chain) 0 ;;
          publish_used (aget d.(queues) 0) p.(pending_head) (u32 pos) ram_base ;;;
          ret (true, set_int_status (d.(int_status) .| 1)
                       (set_backend (FsExternal tag requests (delete t pending)) d))
      end
  | _, _ => ret (false, d)
  end.

(** ** Serving one chain *)

(** Console input into the writable descriptors: bytes written, bytes left. *)
Fixpoint console_rx (ram_base : Z) (chain : list Descriptor) (rx_buf : list Z) (written : Z)
    : Ram (Z * list Z) :=
  match chain with
  | [] => ret (written, rx_buf)
  | (addr, len, writable) :: chain =>
      if negb writable then console_rx ram_base chain rx_buf written
      else match rx_buf with
      | [] => ret (written, rx_buf)
      | _ =>
          let n := Z.min (Z.of_nat (length rx_buf)) len in
          let off := sub64 addr ram_base in
          put_slice off (u64 (off + n)) (take (Z.to_nat n) rx_buf) ;;;
          console_rx ram_base chain (drop (Z.to_nat n) rx_buf) (u32 (written + n))
      end
  end.

(** Console output from the readable descriptors. *)
Fixpoint console_tx (ram_base : Z) (chain : list Descriptor) (tx_out : list Z) : Ram (list Z) :=
  match chain with
  | [] => ret tx_out
  | (addr, len, writable) :: chain =>
      if (writable : bool) then console_tx ram_base chain tx_out
      else
        let off := sub64 addr ram_base in
        bytes <- get_slice off (u64 (off + len)) ;;
        console_tx ram_base chain (tx_out ++ bytes)
  end.

(** The data buffers of a block request. *)
Record BlockState : Type := mkBlock { b_disk : list Z; b_pos : Z; b_written : Z; b_ok : bool }.

Definition block_segment (ram_base req_type : Z) (d : Descriptor) (b : BlockState) : Ram BlockState :=
  let '(addr, len, writable) := d in
  let off := sub64 addr ram_base in
  let pos := b.(b_pos) in
  let fits := u64 (pos + len) <=? Z.of_nat (length b.(b_disk)) in
  let next := u64 (pos + len) in
  if (req_type =? VIRTIO_BLK_T_IN) && writable then
    (if fits then
       src <- unwrap (slice b.(b_disk) pos (u64 (pos + len))) ;;
       put_slice off (u64 (off + len)) src
     else ret tt) ;;;
    ret (mkBlock b.(b_disk) next (u32 (b.(b_written) + len)) (b.(b_ok) && fits))
  else if (req_type =? VIRTIO_BLK_T_OUT) && negb writable then
    if fits then
      src <- get_slice off (u64 (off + len)) ;;
      disk <- unwrap (copy_from_slice b.(b_disk) pos (u64 (pos + len)) src) ;;
      ret (mkBlock disk next b.(b_written) b.(b_ok))
    else ret (mkBlock b.(b_disk) next b.(b_written) false)
  else ret (mkBlock b.(b_disk) next b.(b_written) false).

Fixpoint block_segments (ram_base req_type : Z) (chain : list Descriptor) (b : BlockState)
    : Ram BlockState :=
  match chain with
  | [] => ret b
  | d :: chain => b <- block_segment ram_base req_type d b ;; block_segments ram_base req_type chain b
  end.

(** [&chain[1..chain.len() - 1]]: panics on a chain of one. *)
Definition middle (chain : list Descriptor) : Ram (list Descriptor) :=
  if (length chain <? 2)%nat then panic else ret (removelast (tail chain)).

Definition block_request (ram_base : Z) (chain : list Descriptor) (disk : list Z)
    : Ram (ServiceResult * list Z) :=
  match chain with
  | [] => ret (Complete 0, disk)
  | (hdr_addr, _, _) :: _ =>
      let hoff := sub64 hdr_addr ram_base in
      req_type <- get_slice hoff (u64 (hoff + 4)) ;;
      sector <- get_slice (u64 (hoff + 8)) (u64 (hoff + 16)) ;;
      let pos := u64 (from_le_bytes sector * SECTOR) in
      segments <- middle chain ;;
      b <- block_segments ram_base (from_le_bytes req_type) segments (mkBlock disk pos 0 true) ;;
      match list.last chain with
      | Some (saddr, _, _) =>
          put_byte (sub64 saddr ram_base) (if b.(b_ok) then 0 else 1) ;;;
          ret (Complete (u32 (b.(b_written) + 1)), b.(b_disk))
      | None => ret (Complete b.(b_written), b.(b_disk))
      end
  end.

(** The bytes the guest offers for a received frame. *)
Definition writable_capacity (chain : list Descriptor) : Z :=
  foldr (fun d n => let '(_, len, writable) := d in if (writable : bool) then len + n else n) 0 chain.

Definition net_rx (ram_base : Z) (chain : list Descriptor) (inbox : list (list Z))
    : Ram (ServiceResult * list (list Z)) :=
  match inbox with
  | [] => ret (Blocked, inbox)
  | frame :: rest =>
      let need := NET_HDR_LEN + Z.of_nat (length frame) in
      if writable_capacity chain <? need then ret (Blocked, rest)
      else
        let src := (replicate 10 0 ++ [1; 0]) ++ frame in
        written <- scatter ram_base src chain 0 ;;
        ret (Complete (u32 written), rest)
  end.

Definition net_tx (ram : list Z) (ram_base : Z) (chain : list Descriptor) (outbox : list (list Z))
    : list (list Z) :=
  match gather ram ram_base chain with
  | None => outbox
  | Some frame =>
      let n := Z.of_nat (length frame) in
      if (NET_HDR_LEN <? n) && (n - NET_HDR_LEN <=? NET_MAX_FRAME)
         && (Z.of_nat (length outbox) <? NET_QUEUE_LIMIT)
      then outbox ++ [drop (Z.to_nat NET_HDR_LEN) frame] else outbox
  end.

Definition service (qi head : Z) (chain : list Descriptor) (ram_base : Z) (b : Backend S)
    : Ram (ServiceResult * Backend S) :=
  match b with
  | Console rx_buf tx_out cols rows =>
      if qi =? 0 then
        match rx_buf with
        | [] => ret (Blocked, b)
        | _ =>
            r <- console_rx ram_base chain rx_buf 0 ;;
            ret (Complete (fst r), Console (snd r) tx_out cols rows)
        end
      else
        tx <- console_tx ram_base chain tx_out ;;
        ret (Complete 0, Console rx_buf tx cols rows)
  | Block disk =>
      r <- block_request ram_base chain disk ;; ret (fst r, Block (snd r))
  | Fs srv =>
      ram <- gets id ;;
      match gather ram ram_base chain with
      | None | Some [] => ret (Complete 0, b)
      | Some req =>
          r <- unwrap (p9_handle srv req) ;;
          let '(reply, srv) := r in
          pos <- scatter ram_base reply chain 0 ;;
          ret (Complete (u32 pos), Fs srv)
      end
  | FsExternal tag requests pending =>
      ram <- gets id ;;
      match gather ram ram_base chain with
      | None => ret (Complete 0, b)
      | Some bytes =>
          match p9_tag bytes with
          | None => ret (Complete 0, b)
          | Some t =>
              match pending !! t with
              | Some _ => ret (Complete 0, b)
              | None =>
                  ret (Deferred, FsExternal tag (requests ++ [bytes])
                                   (<[t := mkPending head chain]> pending))
              end
          end
      end
  | Net mac inbox outbox =>
      if qi =? 0 then
        r <- net_rx ram_base chain inbox ;; ret (fst r, Net mac (snd r) outbox)
      else
        ram <- gets id ;;
        ret (Complete 0, Net mac inbox (net_tx ram ram_base chain outbox))
  end.

(** ** Processing a queue *)

(** [queues[qi].last_avail_idx += 1], wrapping. *)
Definition advance (qi : Z) (d : dev) : dev :=
  let q := aget d.(queues) qi in
  set_queues (aset d.(queues) qi (set_last_avail (u16 (q.(last_avail_idx) + 1)) q)) d.

(** A chain enters the used ring. *)
Definition complete (qi head written ram_base : Z) (d : dev) : Ram dev :=
  publish_used (aget d.(queues) qi) head written ram_base ;;;
  let d := advance qi d in ret (set_int_status (d.(int_status) .| 1) d).

(** The loop of [process]; [None] when [fuel] does not reach its end. *)
Fixpoint process_loop (fuel : nat) (qi ram_base : Z) (d : dev) : Ram (option dev) :=
  match fuel with
  | O => ret None
  | Datatypes.S fuel =>
      let q := aget d.(queues) qi in
      avail_idx <- read16 ram_base (u64 (q.(avail) + 2)) ;;
      if q.(last_avail_idx) =? avail_idx then ret (Some d) else
      slot <- checked_rem q.(last_avail_idx) q.(num) ;;
      head <- read16 ram_base (u64 (q.(avail) + 4 + slot * 2)) ;;
      ram <- gets id ;;
      match descriptor_chain q head ram ram_base with
      | None => d <- complete qi head 0 ram_base d ;; process_loop fuel qi ram_base d
      | Some chain =>
          r <- service qi head chain ram_base d.(backend) ;;
          let d := set_backend (snd r) d in
          match fst r with
          | Complete written =>
              d <- complete qi head written ram_base d ;; process_loop fuel qi ram_base d
          | Deferred => process_loop fuel qi ram_base (advance qi d)
          | Blocked => ret (Some d)
          end
      end
  end.

Definition process (fuel : nat) (qi ram_base : Z) (d : dev) : Ram (option dev) :=
  if (MAX_QUEUES <=? qi) || ((aget d.(queues) qi).(ready) =? 0) then ret (Some d)
  else process_loop fuel qi ram_base d.
End Device.
