(* ===== verification/VirtioSpec.v ===== *)
(** * What the virtio devices promise (Virtio.v)

    A descriptor walk returns exactly the finite chains of the table, a device
    writes guest memory only inside the buffers the guest marked writable (and,
    for block requests, the status byte), a disk returns what was written to
    it, every chain on a transmit queue comes back on the used ring in order,
    and the network mailboxes stay bounded. *)

From stdpp Require Import gmap.
From S2P Require Import Prelude Bus Slices Virtio.

(** ** Descriptor walks *)

Section Walk.
Context (ram : list Z) (ram_base table count : Z).

(** The entry of an index, read off the memory: sixteen bytes, address, length,
    flags and next index, little endian; bit 0 of the flags says that the chain
    goes on, bit 1 that the device writes, bit 2 that the entry is indirect. *)
Definition entry_at (i : Z) : Z := table + 16 * i - ram_base.

Definition entry_in (i : Z) : Prop :=
  i < count /\ 0 <= entry_at i /\ entry_at i + 16 <= Z.of_nat (length ram).

Definition entry_flag (i b : Z) : bool := Z.testbit (word 2 ram (entry_at i + 12)) b.

Definition entry (i : Z) : Descriptor :=
  (word 8 ram (entry_at i), word 4 ram (entry_at i + 8), entry_flag i 1).

(** The chain that starts at an index: entries of the table, all in memory and
    direct, each naming the next, up to one that does not go on. *)
Inductive linked : Z -> list Descriptor -> Prop :=
| linked_last i :
    entry_in i -> entry_flag i 2 = false -> entry_flag i 0 = false -> linked i [entry i]
| linked_next i chain :
    entry_in i -> entry_flag i 2 = false -> entry_flag i 0 = true ->
    linked (word 2 ram (entry_at i + 14)) chain -> linked i (entry i :: chain).

Context (Hmem : 0 <= ram_base /\ ram_base + Z.of_nat (length ram) < 2 ^ 64).

Lemma read_descriptor_entry i d :
  read_descriptor ram ram_base table count i = Some d <->
  entry_in i /\ d = mkRaw (word 8 ram (entry_at i)) (word 4 ram (entry_at i + 8))
                         (word 2 ram (entry_at i + 12)) (word 2 ram (entry_at i + 14)).
Proof using Hmem.
  unfold read_descriptor, guest_slice, slice, entry_in, DESCRIPTOR_BYTES, word.
  assert (table + i * 16 - ram_base = entry_at i) as E by (unfold entry_at; lia).
  destruct (Z.leb_spec count i); [split; [done|lia]|]. cbv zeta.
  destruct (Z.leb_spec (2 ^ 64) (table + i * 16)); [split; [done|lia]|].
  destruct (Z.ltb_spec (table + i * 16) ram_base); [split; [done|lia]|]. rewrite E.
  destruct (Z.leb_spec (2 ^ 64) (entry_at i + 16)); [split; [done|lia]|].
  rewrite (proj2 (Z.leb_le _ _)) by lia. cbn [andb].
  destruct (Z.leb_spec (entry_at i + 16) (Z.of_nat (length ram))); [|split; [done|lia]]. simpl.
  replace (Z.to_nat (entry_at i + 16 - entry_at i)) with 16%nat by lia.
  rewrite !Z2Nat.inj_add by lia. rewrite !take_take, !skipn_firstn_comm, !take_take, !drop_drop. cbn.
  split; [intros [= <-]; split; [lia|done]|by intros (_ & ->)].
Qed.

Lemma flag_spec x b : 0 <= b -> (x .& 2 ^ b =? 0) = negb (Z.testbit x b).
Proof.
  intros Hb. destruct (Z.testbit x b) eqn:E; cbn.
  - apply Z.eqb_neq. intros H. apply (f_equal (fun y => Z.testbit y b)) in H.
    by rewrite Z.land_spec, E, Z.pow2_bits_true, Z.bits_0 in H.
  - apply Z.eqb_eq, Z.bits_inj'. intros n Hn. rewrite Z.land_spec, Z.pow2_bits_eqb, Z.bits_0 by done.
    destruct (Z.eqb_spec b n) as [->|]; [by rewrite E|apply andb_false_r].
Qed.

Lemma walk_step n i :
  walk (S n) ram ram_base table count i =
  match read_descriptor ram ram_base table count i with
  | None => None
  | Some _ =>
      if entry_flag i 2 then None
      else if entry_flag i 0
      then rest ← walk n ram ram_base table count (word 2 ram (entry_at i + 14)); Some (entry i :: rest)
      else Some [entry i]
  end.
Proof using Hmem.
  cbn [walk]. destruct (read_descriptor _ _ _ _ i) as [d|] eqn:E; [|done]. cbn [mbind option_bind].
  apply read_descriptor_entry in E as [_ ->]. cbn [d_addr d_len d_flags d_next].
  change VIRTQ_DESC_F_INDIRECT with (2 ^ 2). change VIRTQ_DESC_F_WRITE with (2 ^ 1). change VIRTQ_DESC_F_NEXT with (2 ^ 0).
  rewrite !flag_spec, !negb_involutive by done. unfold entry, entry_flag.
  set (f := word 2 ram _). by destruct (Z.testbit f 2), (Z.testbit f 0).
Qed.

Lemma walk_linked n i chain :
  walk n ram ram_base table count i = Some chain <->
  linked i chain /\ (length chain <= n)%nat.
Proof using Hmem.
  revert i chain. induction n as [|n IH]; intros i chain.
  { split; [done|]. intros [Hl Hn]. destruct Hl; simpl in Hn; lia. }
  rewrite walk_step. split.
  - destruct (read_descriptor _ _ _ _ i) as [d|] eqn:Ed; [|done]. apply read_descriptor_entry in Ed as [Hin _].
    destruct (entry_flag i 2) eqn:E2; [done|]. destruct (entry_flag i 0) eqn:E0.
    + destruct (walk n _ _ _ _ _) as [rest|] eqn:Ew; [|done]. intros [= <-].
      apply IH in Ew as [??]. split; [by constructor|simpl; lia].
    + intros [= <-]. split; [by constructor|simpl; lia].
  - intros [Hl Hn]. destruct Hl as [i Hin E2 E0|i chain Hin E2 E0 Hl].
    all: rewrite (proj2 (read_descriptor_entry i _) (conj Hin eq_refl)), E2, E0.
    { done. }
    simpl in Hn. by rewrite (proj2 (IH _ _) (conj Hl (le_S_n _ _ Hn))).
Qed.

Lemma linked_index i chain : linked i chain -> i < count /\ (0 < length chain)%nat.
Proof. destruct 1 as [i (? & _)|i ? (? & _)]; (split; [done|simpl; lia]). Qed.

(** C28: The table walk succeeds exactly on the finite chains of at most as
    many descriptors as the table has, every one an entry of the table that lies
    in guest memory and is direct, and returns them with the addresses, lengths
    and directions that are in memory there: a cyclic or escaping chain is
    refused, and a valid one is never truncated.  The guest memory lies below
    the end of the address space. *)
Theorem walk_descriptor_table_spec first chain :
  walk_descriptor_table ram ram_base table count first = Some chain <->
  linked first chain /\ Z.of_nat (length chain) <= count.
Proof using Hmem.
  unfold walk_descriptor_table. split.
  - destruct (Z.eqb_spec count 0); [done|]. destruct (Z.leb_spec count first); [done|].
    intros [Hl Hn]%walk_linked. destruct (linked_index _ _ Hl). split; [done|lia].
  - intros [Hl Hn]. destruct (linked_index _ _ Hl).
    destruct (Z.eqb_spec count 0); [lia|]. destruct (Z.leb_spec count first); [lia|].
    apply walk_linked. split; [done|lia].
Qed.
End Walk.

(** ** The bytes a device may write *)

(** A position inside a descriptor, and inside a writable one of a chain. *)
Definition covers (ram_base : Z) (d : Descriptor) (i : Z) : Prop :=
  let '(addr, len, _) := d in addr - ram_base <= i < addr - ram_base + len.

Definition writable_in (ram_base : Z) (chain : list Descriptor) (i : Z) : Prop :=
  exists d, d ∈ chain /\ d.2 = true /\ covers ram_base d i.

(** A memory operation that returns changes only the positions of [P]. *)
Definition writes {A} (P : Z -> Prop) (m : Ram A) : Prop :=
  forall ram a ram', Z.of_nat (length ram) < 2 ^ 63 ->
  m ram = (Ok a, ram') -> only P ram ram'.

Lemma writes_ret {A} P (a : A) : writes P (ret a).
Proof. intros ram ? ? _ [= _ <-]. apply only_refl. Qed.

Lemma writes_panic {A} P : writes P (panic (A := A)).
Proof. by intros ram ? ? _ [=]. Qed.

Lemma writes_gets {A} P (f : list Z -> A) : writes P (gets f).
Proof. intros ram ? ? _ [= _ <-]. apply only_refl. Qed.

Lemma writes_unwrap {A} P (o : option A) : writes P (unwrap o).
Proof. destruct o; [apply writes_ret|apply writes_panic]. Qed.

Lemma writes_bind_val {A B} P (m : Ram A) (k : A -> Ram B) :
  writes P m -> (forall ram a ram', m ram = (Ok a, ram') -> writes P (k a)) -> writes P (bind m k).
Proof.
  intros Hm Hk ram b ram' Hl E. unfold bind in E.
  destruct (m ram) as [[a|e|] r1] eqn:Em; try done.
  pose proof (Hm _ _ _ Hl Em) as H1. eapply only_trans; [exact H1|].
  eapply Hk; [exact Em| |exact E]. by rewrite <- (proj1 H1).
Qed.

Lemma writes_bind {A B} P (m : Ram A) (k : A -> Ram B) :
  writes P m -> (forall a, writes P (k a)) -> writes P (bind m k).
Proof. intros Hm Hk. by apply writes_bind_val. Qed.

Lemma writes_mono {A} (P Q : Z -> Prop) (m : Ram A) :
  writes P m -> (forall i, P i -> Q i) -> writes Q m.
Proof. intros Hm HQ ram a ram' Hl E. eapply only_mono; [by eapply Hm|done]. Qed.

Create HintDb vio.
#[export] Hint Resolve writes_ret writes_panic writes_gets writes_unwrap : vio.
#[export] Hint Extern 2 (writes _ (bind _ _)) => apply writes_bind; [|intros ?] : vio.

Lemma writes_put_slice P s e bs :
  0 <= s -> (forall i, s <= i < e -> P i) -> writes P (put_slice s e bs).
Proof.
  intros Hs HP ram [] ram' Hl E. unfold put_slice, copy_from_slice in E.
  destruct (Z.leb_spec s e); [|done]. destruct (Z.leb_spec e (Z.of_nat (length ram))); [|done].
  destruct (Z.eqb_spec (Z.of_nat (length bs)) (e - s)); [|done]. simpl in E.
  injection E as <-. split.
  - rewrite !length_app, length_take, length_drop. lia.
  - intros i Hi.
    assert (~ (s <= Z.of_nat i < e)) as Hni by (intros Hc; by apply Hi, HP).
    destruct (decide (Z.of_nat i < s)).
    + rewrite lookup_app_l, lookup_take_lt by (rewrite ?length_take; lia). done.
    + rewrite lookup_app_r, lookup_app_r, lookup_drop by (rewrite ?length_take; lia).
      f_equal. rewrite length_take. lia.
Qed.

(** Address and length of a descriptor are machine words. *)
Definition desc_wf (d : Descriptor) : Prop :=
  let '(addr, len, _) := d in uint 64 addr /\ uint 32 len.

Section Frame.
Context (ram_base : Z) (Hbase : 0 <= ram_base < 2 ^ 63).

Lemma sub64_low addr :
  uint 64 addr -> sub64 addr ram_base < 2 ^ 63 -> sub64 addr ram_base = addr - ram_base.
Proof.
  unfold sub64, u64, wrap, uint. intros Ha Hs.
  destruct (decide (ram_base <= addr)); [apply Z.mod_small; lia|].
  rewrite <- (Z.mod_add _ 1), Z.mod_small in Hs by lia. lia.
Qed.

Lemma sub64_nonneg a b : 0 <= sub64 a b.
Proof. unfold sub64, u64, wrap. apply Z.mod_pos_bound. lia. Qed.

(** A write through the unchecked offset of a descriptor. *)
Lemma writes_direct P addr len n bs :
  uint 64 addr -> 0 <= n <= len -> uint 32 len ->
  (forall i, covers ram_base (addr, len, true) i -> P i) ->
  let off := sub64 addr ram_base in
  writes P (put_slice off (u64 (off + n)) bs).
Proof.
  intros Ha Hn Hl HP off ram a ram' Hlen E.
  assert (off <= u64 (off + n) /\ u64 (off + n) <= Z.of_nat (length ram)) as [H1 H2].
  { unfold put_slice, copy_from_slice in E.
    destruct (Z.leb_spec off (u64 (off + n))); [|done].
    by destruct (Z.leb_spec (u64 (off + n)) (Z.of_nat (length ram))). }
  assert (off = addr - ram_base) as Hoff by (apply sub64_low; [done|]; fold off; lia).
  assert (u64 (off + n) = off + n) as Hn64.
  { pose proof (sub64_nonneg addr ram_base). fold off in H. unfold uint in *.
    apply Z.mod_small. lia. }
  eapply writes_put_slice; [apply sub64_nonneg| |exact Hlen|exact E].
  intros i Hi. fold off in Hi. apply HP. simpl. lia.
Qed.

Lemma writable_in_cons d chain i :
  writable_in ram_base chain i -> writable_in ram_base (d :: chain) i.
Proof. intros (e & He & ?). exists e. split; [by right|done]. Qed.

Lemma writable_in_head addr len chain i :
  covers ram_base (addr, len, true) i -> writable_in ram_base ((addr, len, true) :: chain) i.
Proof. intros Hc. exists (addr, len, true). by split_and!; [left|..]. Qed.

Lemma writes_tail {A} d chain (m : Ram A) :
  writes (writable_in ram_base chain) m -> writes (writable_in ram_base (d :: chain)) m.
Proof. intros Hm. eapply writes_mono; [exact Hm|]. apply writable_in_cons. Qed.

Lemma writes_guest_put P addr len n bs :
  0 <= n <= len -> (forall i, covers ram_base (addr, len, true) i -> P i) ->
  writes P (guest_put ram_base addr n bs).
Proof.
  intros Hn HP ram b ram' Hl. unfold guest_put, guest_slice, bind, gets, id.
  destruct (Z.ltb_spec addr ram_base); [intros [= _ <-]; apply only_refl|].
  destruct (2 ^ 64 <=? addr - ram_base + n); [intros [= _ <-]; apply only_refl|].
  destruct (slice _ _ _); [|intros [= _ <-]; apply only_refl].
  intros E. destruct (put_slice _ _ bs ram) as [[[]|?|] r1] eqn:Ep; try done.
  injection E as _ <-.
  eapply writes_put_slice; [| |exact Hl|exact Ep]; [lia|].
  intros i Hi. apply HP. simpl. lia.
Qed.

Lemma writes_scatter bytes chain pos :
  Forall desc_wf chain -> 0 <= pos ->
  writes (writable_in ram_base chain) (scatter ram_base bytes chain pos).
Proof.
  intros HF. revert pos.
  induction HF as [|[[addr len] w] chain [Ha Hl] HF IH]; intros pos Hp; cbn [scatter];
    [apply writes_ret|].
  destruct (negb w || (Z.of_nat (length bytes) <=? pos)) eqn:Ew; [by apply writes_tail, IH|].
  apply orb_false_iff in Ew as [Hw%negb_false_iff Hb%Z.leb_gt]. subst w.
  apply writes_bind; [apply writes_unwrap|intros src].
  assert (0 <= Z.min (Z.of_nat (length bytes) - pos) len) by (unfold uint in *; lia).
  apply writes_bind.
  - apply (writes_guest_put _ _ len); [|apply writable_in_head].
    unfold u32. rewrite wrap_small; [lia|]. unfold uint in *. lia.
  - intros []; [|apply writes_ret]. apply writes_tail, IH. lia.
Qed.

Lemma writes_console_rx chain rx w :
  Forall desc_wf chain -> writes (writable_in ram_base chain) (console_rx ram_base chain rx w).
Proof.
  intros HF. revert rx w.
  induction HF as [|[[addr len] w] chain [Ha Hl] HF IH]; intros rx wr; cbn [console_rx];
    [apply writes_ret|].
  destruct w; simpl; [|by apply writes_tail, IH].
  destruct rx as [|b rx]; [apply writes_ret|].
  apply writes_bind.
  - apply writes_direct with len; try done; [unfold uint in *; lia|apply writable_in_head].
  - intros _. by apply writes_tail, IH.
Qed.

Lemma writes_get_slice P s e : writes P (get_slice s e).
Proof. unfold get_slice. auto with vio. Qed.

Lemma writes_console_tx P chain tx : writes P (console_tx ram_base chain tx).
Proof.
  revert tx. induction chain as [|[[addr len] []] chain IH]; intros tx; cbn [console_tx];
    [apply writes_ret|apply IH|].
  apply writes_bind; [apply writes_get_slice|intros; apply IH].
Qed.

Lemma writes_block_segment P ty d b :
  desc_wf d -> (d.2 = true -> forall i, covers ram_base d i -> P i) ->
  writes P (block_segment ram_base ty d b).
Proof.
  destruct d as [[addr len] w]. intros [Ha Hl] HP. simpl in HP. unfold block_segment.
  destruct ((ty =? VIRTIO_BLK_T_IN) && w) eqn:E1.
  - apply andb_true_iff in E1 as [_ ->].
    apply writes_bind; [|intros; apply writes_ret].
    destruct (_ <=? _); [|apply writes_ret].
    apply writes_bind; [apply writes_unwrap|intros src].
    apply writes_direct with len; try done; [unfold uint in *; lia|]. by apply HP.
  - destruct ((ty =? VIRTIO_BLK_T_OUT) && negb w); [|apply writes_ret].
    destruct (_ <=? _); [|apply writes_ret].
    apply writes_bind; [apply writes_get_slice|intros src].
    apply writes_bind; [apply writes_unwrap|intros; apply writes_ret].
Qed.

Lemma writes_block_segments P ty chain b :
  Forall desc_wf chain -> (forall i, writable_in ram_base chain i -> P i) ->
  writes P (block_segments ram_base ty chain b).
Proof.
  intros HF. revert b. induction HF as [|d chain Hd HF IH]; intros b HP; cbn [block_segments];
    [apply writes_ret|].
  apply writes_bind.
  - apply writes_block_segment; [done|]. intros Hw i Hc. apply HP. exists d. by split_and!; [left|..].
  - intros b'. apply IH. intros i Hi. by apply HP, writable_in_cons.
Qed.

(** The position of a block request's status byte. *)
Definition status_byte (chain : list Descriptor) (i : Z) : Prop :=
  exists d, list.last chain = Some d /\ i = d.1.1 - ram_base.

Lemma elem_of_middle (chain mid : list Descriptor) r r' d :
  middle chain r = (Ok mid, r') -> d ∈ mid -> d ∈ chain.
Proof.
  unfold middle. destruct (Nat.ltb_spec (length chain) 2) as [|Hl]; [done|].
  intros [= <- _] Hd. destruct chain as [|c chain]; [simpl in Hl; lia|]. right. simpl in Hd, Hl.
  destruct chain as [|x chain]; [simpl in Hl; lia|].
  rewrite (app_removelast_last x (l := x :: chain)) by done. apply elem_of_app. by left.
Qed.

Lemma writes_middle P chain : writes P (middle chain).
Proof. unfold middle. destruct (_ <? _)%nat; auto with vio. Qed.

Lemma writes_status P saddr v :
  uint 64 saddr -> P (saddr - ram_base) ->
  writes P (put_byte (sub64 saddr ram_base) v).
Proof.
  intros Ha HP ram u ram' Hl. unfold put_byte, bind, gets, id.
  destruct (Z.leb_spec (Z.of_nat (length ram)) (sub64 saddr ram_base)); [done|].
  pose proof (sub64_nonneg saddr ram_base). rewrite sub64_low in * by (done || lia).
  intros [= _ <-]. unfold aset. split; [by rewrite length_insert|].
  intros i Hi. rewrite list_lookup_insert_ne; [done|]. intros Heq. apply Hi.
  rewrite <- Heq, Z2Nat.id by lia. done.
Qed.

Lemma writes_block_request chain disk :
  Forall desc_wf chain ->
  writes (fun i => writable_in ram_base chain i \/ status_byte chain i)
    (block_request ram_base chain disk).
Proof.
  intros HF. unfold block_request. destruct chain as [|[[haddr hlen] hw] chain'] eqn:Ec;
    [apply writes_ret|]. rewrite <- Ec in *.
  do 2 (apply writes_bind; [apply writes_get_slice|intros ?]).
  apply writes_bind_val; [apply writes_middle|intros r mid r' Hmid].
  apply writes_bind.
  - apply writes_block_segments.
    + apply Forall_forall. intros d Hd%list_elem_of_In.
      eapply Forall_forall; [exact HF|]. apply list_elem_of_In. by eapply elem_of_middle.
    + intros i (d & Hd & ?). left. exists d. split; [by eapply elem_of_middle|done].
  - intros b. destruct (list.last chain) as [[[saddr slen] sw]|] eqn:El; [|apply writes_ret].
    apply writes_bind; [|intros; apply writes_ret].
    apply writes_status.
    + apply last_Some_elem_of in El. eapply Forall_forall in HF; [|by apply list_elem_of_In].
      apply HF.
    + right. by exists (saddr, slen, sw).
Qed.

Lemma writes_net_rx chain inbox :
  Forall desc_wf chain -> writes (writable_in ram_base chain) (net_rx ram_base chain inbox).
Proof.
  intros HF. unfold net_rx. destruct inbox as [|frame rest]; [apply writes_ret|].
  destruct (_ <? _); [apply writes_ret|].
  apply writes_bind; [by apply writes_scatter|intros; apply writes_ret].
Qed.
End Frame.

Section Service.
Context {S : Type} `{P9Server S}.

(** The positions a backend may write when it serves a chain. *)
Definition may_write (b : Backend S) (ram_base : Z) (chain : list Descriptor) (i : Z) : Prop :=
  writable_in ram_base chain i \/
  match b with Block _ => status_byte ram_base chain i | _ => False end.

(** C8: Serving a chain writes guest memory only inside the chain's
    device-writable buffers; a block request also writes its status byte. *)
Theorem service_frame qi head chain ram_base b ram r ram' :
  0 <= ram_base < 2 ^ 63 -> Z.of_nat (length ram) < 2 ^ 63 -> Forall desc_wf chain ->
  service qi head chain ram_base b ram = (Ok r, ram') ->
  length ram' = length ram /\
  forall i, ~ may_write b ram_base chain (Z.of_nat i) -> ram' !! i = ram !! i.
Proof.
  intros Hb Hl HF E.
  enough (writes (may_write b ram_base chain) (service qi head chain ram_base b)) as Hw.
  { destruct (Hw _ _ _ Hl E) as [HL HO]. split; [done|]. intros i Hi. symmetry. by apply HO. }
  clear E. unfold service, may_write.
  assert (forall A (m : Ram A), writes (writable_in ram_base chain) m ->
    writes (fun i => writable_in ram_base chain i \/ False) m) as Hor.
  { intros A m Hm. eapply writes_mono; [exact Hm|]. by left. }
  destruct b as [rx tx cols rows|disk|srv|tag requests pending|mac inbox outbox].
  - apply Hor. destruct (qi =? 0).
    + destruct rx; [apply writes_ret|].
      apply writes_bind; [by apply writes_console_rx|intros; apply writes_ret].
    + apply writes_bind; [apply writes_console_tx|intros; apply writes_ret].
  - apply writes_bind; [by apply writes_block_request|intros; apply writes_ret].
  - apply Hor, writes_bind; [apply writes_gets|intros m].
    destruct (gather m ram_base chain) as [[|x req]|]; [apply writes_ret| |apply writes_ret].
    apply writes_bind; [apply writes_unwrap|intros [reply srv']].
    apply writes_bind; [by apply writes_scatter|intros; apply writes_ret].
  - apply Hor, writes_bind; [apply writes_gets|intros m]. repeat case_match; apply writes_ret.
  - apply Hor. destruct (qi =? 0).
    + apply writes_bind; [by apply writes_net_rx|intros; apply writes_ret].
    + apply writes_bind; [apply writes_gets|intros m; apply writes_ret].
Qed.
End Service.

(** ** Block requests *)

Section BlockSegments.
Context (ram_base : Z) (Hbase : 0 <= ram_base < 2 ^ 63).

Lemma sub64_ge addr : ram_base <= addr -> uint 64 addr -> sub64 addr ram_base = addr - ram_base.
Proof. intros ? [? ?]. unfold sub64, u64. apply wrap_small. unfold uint. lia. Qed.

(** Writing a request's buffers to the disk: their bytes land in order. *)
Lemma block_segments_out segs ram data disk pos w :
  Z.of_nat (length ram) < 2 ^ 63 -> Z.of_nat (length disk) < 2 ^ 63 ->
  Forall desc_wf segs -> Forall (fun d : Descriptor => d.2 = false) segs ->
  gather ram ram_base segs = Some data ->
  0 <= pos -> pos + Z.of_nat (length data) <= Z.of_nat (length disk) ->
  exists disk',
    block_segments ram_base VIRTIO_BLK_T_OUT segs (mkBlock disk pos w true) ram
    = (Ok (mkBlock disk' (pos + Z.of_nat (length data)) w true), ram) /\
    holds disk' pos data /\ outside pos (pos + Z.of_nat (length data)) disk disk'.
Proof.
  intros Hram. revert data disk pos.
  induction segs as [|[[addr len] wr] segs IH]; intros data disk pos Hdisk HF Hw Hg Hpos Hfit.
  { simpl in Hg. injection Hg as <-. exists disk. simpl. rewrite Z.add_0_r. split; [done|].
    split; [apply holds_nil; simpl in *; lia|apply outside_refl]. }
  apply Forall_cons_1 in HF as [[Ha Hl] HF]. apply Forall_cons_1 in Hw as [Hwr Hw].
  simpl in Hwr. subst wr. cbn [gather] in Hg.
  destruct (guest_slice ram ram_base addr len) as [src|] eqn:Es; [|done].
  destruct (gather ram ram_base segs) as [rest|] eqn:Eg; [|done]. simpl in Hg. injection Hg as <-.
  rewrite length_app, Nat2Z.inj_add in *.
  unfold guest_slice in Es. destruct (Z.ltb_spec addr ram_base); [done|].
  destruct (Z.leb_spec (2 ^ 64) (addr - ram_base + len)); [done|].
  apply holds_slice in Es as [Hsrc Hlen]; [|lia].
  assert (len = Z.of_nat (length src)) as -> by lia.
  destruct (copy_from_slice_ok disk pos src) as (d1 & E1 & Hh1 & Ho1); [lia..|].
  pose proof (proj1 Ho1).
  destruct (IH rest d1 (pos + Z.of_nat (length src))) as (d2 & E2 & Hh2 & Ho2); try done; try lia.
  exists d2. split; [|split].
  - cbn [block_segments]. unfold block_segment. cbn [andb VIRTIO_BLK_T_OUT VIRTIO_BLK_T_IN Z.eqb negb Pos.eqb b_pos b_disk b_written b_ok].
    rewrite !u64_id by lia. rewrite (proj2 (Z.leb_le _ _)) by lia.
    rewrite sub64_ge by done. rewrite !u64_id by lia.
    unfold bind, get_slice, bind, gets, id, unwrap. rewrite (slice_holds _ _ _ Hsrc).
    unfold ret at 1. rewrite E1. unfold ret at 1 2. rewrite E2. do 3 f_equal. lia.
  - apply holds_app. split; [|done].
    eapply holds_outside; [exact Hh1|exact Ho2|]. lia.
  - eapply outside_trans; eapply outside_mono; (exact Ho1 || exact Ho2 || lia).
Qed.

(** Buffers that lie in memory and do not overlap. *)
Definition in_ram (ram : list Z) (d : Descriptor) : Prop :=
  let '(addr, len, _) := d in ram_base <= addr /\ addr - ram_base + len <= Z.of_nat (length ram).

Definition apart (d e : Descriptor) : Prop := forall i, covers ram_base d i -> ~ covers ram_base e i.

Fixpoint disjoint_segs (segs : list Descriptor) : Prop :=
  match segs with
  | [] => True
  | d :: segs => Forall (apart d) segs /\ disjoint_segs segs
  end.

Fixpoint total (segs : list Descriptor) : Z :=
  match segs with [] => 0 | (_, len, _) :: segs => len + total segs end.

(** The buffers hold [data], split in order. *)
Fixpoint received (ram : list Z) (segs : list Descriptor) (data : list Z) : Prop :=
  match segs with
  | [] => data = []
  | (addr, len, _) :: segs =>
      exists d1 d2, data = d1 ++ d2 /\ Z.of_nat (length d1) = len /\
        holds ram (addr - ram_base) d1 /\ received ram segs d2
  end.

Lemma received_only P m m' segs data :
  received m segs data -> only P m m' ->
  (forall d i, d ∈ segs -> covers ram_base d i -> ~ P i) -> received m' segs data.
Proof.
  intros Hr Ho. revert data Hr. induction segs as [|[[addr len] w] segs IH]; intros data Hr HP; [done|].
  destruct Hr as (d1 & d2 & -> & Hl & Hh & Hr). exists d1, d2. split_and!; try done.
  - eapply holds_only; [exact Hh|exact Ho|]. intros i Hi. apply (HP (addr, len, w)); [by left|].
    simpl. lia.
  - apply IH; [done|]. intros d i Hd. apply HP. by right.
Qed.

Lemma total_nonneg segs : Forall desc_wf segs -> 0 <= total segs.
Proof. induction 1 as [|[[a l] w] segs [? [? ?]] _ IH]; simpl; lia. Qed.

Definition covered (segs : list Descriptor) (i : Z) : Prop := exists d, d ∈ segs /\ covers ram_base d i.

Lemma block_segment_in ram disk pos w ok addr len data :
  uint 64 addr -> uint 32 len -> in_ram ram (addr, len, true) -> Z.of_nat (length ram) < 2 ^ 63 ->
  Z.of_nat (length disk) < 2 ^ 63 -> holds disk pos data -> len = Z.of_nat (length data) ->
  exists ram',
    block_segment ram_base VIRTIO_BLK_T_IN (addr, len, true) (mkBlock disk pos w ok) ram
    = (Ok (mkBlock disk (pos + len) (u32 (w + len)) ok), ram') /\
    holds ram' (addr - ram_base) data /\
    only (covers ram_base (addr, len, true)) ram ram'.
Proof.
  intros Ha Hl [Hin1 Hin2] Hram Hdisk Hd ->. pose proof Hd as (Hp0 & Hp1 & _).
  destruct (put_slice_ok (E := Empty_set) (addr - ram_base) (addr - ram_base + Z.of_nat (length data)) data ram)
    as (ram' & E & Hh & Ho); [lia..|].
  exists ram'. split; [|split; [done|exact Ho]].
  unfold block_segment. cbn [andb VIRTIO_BLK_T_IN Z.eqb b_pos b_disk b_written b_ok].
  rewrite sub64_ge by done. rewrite !u64_id by lia. rewrite (proj2 (Z.leb_le _ _)) by lia.
  unfold bind, unwrap. rewrite (slice_holds _ _ _ Hd). unfold ret at 1. rewrite E.
  unfold ret. by rewrite andb_true_r.
Qed.

(** Reading the disk into a request's buffers fills them in order. *)
Lemma block_segments_in segs ram disk pos w data :
  Forall desc_wf segs -> Forall (fun d : Descriptor => d.2 = true) segs ->
  Forall (in_ram ram) segs -> disjoint_segs segs ->
  Z.of_nat (length ram) < 2 ^ 63 -> Z.of_nat (length disk) < 2 ^ 63 ->
  holds disk pos data -> Z.of_nat (length data) = total segs -> uint 32 w ->
  exists ram',
    block_segments ram_base VIRTIO_BLK_T_IN segs (mkBlock disk pos w true) ram
    = (Ok (mkBlock disk (pos + total segs) (u32 (w + total segs)) true), ram') /\
    received ram' segs data /\ only (covered segs) ram ram'.
Proof.
  intros HF. revert ram pos w data.
  induction HF as [|[[addr len] wr] segs [Ha Hl] HF IH];
    intros ram pos w data Hw Hin Hdis Hram Hdisk Hd Hlen Hw32; simpl in Hlen.
  { exists ram. destruct data; [|simpl in Hlen; lia]. cbn [block_segments total].
    rewrite !Z.add_0_r. unfold u32. rewrite wrap_small by done. repeat split. }
  apply Forall_cons_1 in Hw as [Hwr Hw]. simpl in Hwr. subst wr.
  apply Forall_cons_1 in Hin as [Hin1 Hin]. destruct Hdis as [Hap Hdis].
  pose proof (total_nonneg _ HF). destruct Hl as [Hl0 Hl1].
  set (d1 := take (Z.to_nat len) data). set (d2 := drop (Z.to_nat len) data).
  assert (data = d1 ++ d2) as Ed by (symmetry; apply take_drop).
  assert (Z.of_nat (length d1) = len) as El1 by (subst d1; rewrite length_take; lia).
  rewrite Ed in Hd. apply holds_app in Hd as [Hd1 Hd2]. rewrite El1 in Hd2.
  destruct (block_segment_in ram disk pos w true addr len d1) as (r1 & E1 & Hh1 & Ho1); try done.
  destruct (IH r1 (pos + len) (u32 (w + len)) d2) as (r2 & E2 & Hr2 & Ho2); try done.
  { pose proof (proj1 Ho1) as L1. unfold in_ram. by rewrite <- L1. }
  { by rewrite <- (proj1 Ho1). }
  { subst d2. rewrite length_drop. lia. }
  { by apply uint_wrap. }
  exists r2. split; [|split].
  - cbn [block_segments total]. unfold bind. rewrite E1, E2. do 3 f_equal; [lia|].
    unfold u32, wrap. rewrite Z.add_mod_idemp_l by lia. f_equal. lia.
  - exists d1, d2. split_and!; try done. eapply holds_only; [exact Hh1|exact Ho2|].
    intros i Hi (e & He & Hc). eapply Forall_forall in Hap; [|by apply list_elem_of_In].
    eapply Hap; [|exact Hc]. simpl. lia.
  - eapply only_trans; eapply only_mono; [exact Ho1| |exact Ho2|].
    + intros i Hi. by exists (addr, len, true); split; [left|].
    + intros i (e & He & Hc). exists e. by split; [right|].
Qed.

(** A request header in memory. *)
Definition request (ram : list Z) (hdr : Descriptor) (ty sector : Z) : Prop :=
  uint 64 hdr.1.1 /\ ram_base <= hdr.1.1 /\
  holds ram (hdr.1.1 - ram_base) (to_le_bytes 4 ty) /\
  holds ram (hdr.1.1 - ram_base + 8) (to_le_bytes 8 sector).

Lemma middle_app (hdr : Descriptor) segs (st : Descriptor) r : middle (hdr :: segs ++ [st]) r = (Ok segs, r).
Proof.
  unfold middle. rewrite (proj2 (Nat.ltb_ge _ _)) by (simpl; rewrite length_app; simpl; lia).
  simpl. by rewrite removelast_last.
Qed.

Lemma get_slice_holds ram s bs :
  holds ram s bs -> get_slice s (s + Z.of_nat (length bs)) ram = (Ok bs, ram).
Proof. intros Hh. unfold get_slice, bind, gets, id, unwrap. by rewrite (slice_holds _ _ _ Hh). Qed.

Lemma put_byte_ok ram saddr v :
  uint 64 saddr -> ram_base <= saddr -> saddr - ram_base < Z.of_nat (length ram) ->
  put_byte (sub64 saddr ram_base) v ram = (Ok tt, aset ram (saddr - ram_base) v).
Proof.
  intros Ha Hb Hl. unfold put_byte, bind, gets, id, modify. rewrite sub64_ge by done.
  by rewrite (proj2 (Z.leb_gt _ _)).
Qed.

Lemma block_request_ok (hdr : Descriptor) segs (st : Descriptor) ram ty sector disk b ram1 :
  Z.of_nat (length ram) < 2 ^ 63 -> request ram hdr ty sector -> uint 32 ty -> uint 64 sector ->
  uint 64 st.1.1 -> ram_base <= st.1.1 -> st.1.1 - ram_base < Z.of_nat (length ram1) ->
  block_segments ram_base ty segs (mkBlock disk (u64 (sector * SECTOR)) 0 true) ram = (Ok b, ram1) ->
  block_request ram_base (hdr :: segs ++ [st]) disk ram
  = (Ok (Complete (u32 (b.(b_written) + 1)), b.(b_disk)),
     aset ram1 (st.1.1 - ram_base) (if b.(b_ok) then 0 else 1)).
Proof.
  intros Hram (Hh & Hb & H4 & H8) Hty Hsec Hst Hst1 Hst2 Hseg.
  destruct hdr as [[haddr hlen] hw], st as [[saddr slen] sw]. cbn [fst] in *. unfold block_request.
  pose proof H4 as (? & Hle & _). pose proof H8 as (? & Hle8 & _). rewrite !length_to_le_bytes in *.
  rewrite sub64_ge by done. rewrite !u64_id by lia.
  unfold bind at 1. rewrite (get_slice_holds _ _ _ H4 : get_slice _ (_ + 4) _ = _).
  unfold bind at 1. replace (haddr - ram_base + 16) with (haddr - ram_base + 8 + 8) by lia.
  rewrite (get_slice_holds _ _ _ H8 : get_slice _ (_ + 8) _ = _).
  rewrite !from_to_le_bytes, (Z.mod_small ty), (Z.mod_small sector) by done.
  unfold bind at 1. rewrite middle_app. unfold bind at 1. rewrite Hseg.
  rewrite app_comm_cons, last_snoc. unfold bind. by rewrite put_byte_ok.
Qed.
End BlockSegments.

Section BlockRoundTrip.
Context {S : Type} `{P9Server S} (ram_base : Z) (Hbase : 0 <= ram_base < 2 ^ 63).

(** Buffers of one direction, all in memory and apart from the status byte. *)
Record io_segs (ram : list Z) (segs : list Descriptor) (st : Descriptor) (writable : bool) : Prop := {
  io_ram : Z.of_nat (length ram) < 2 ^ 63;
  io_wf : Forall desc_wf segs;
  io_dir : Forall (fun d : Descriptor => d.2 = writable) segs;
  io_in : Forall (in_ram ram_base ram) segs;
  io_apart : disjoint_segs ram_base segs;
  io_st : uint 64 st.1.1 /\ ram_base <= st.1.1 /\ st.1.1 - ram_base < Z.of_nat (length ram);
  io_st_apart : Forall (fun d => ~ covers ram_base d (st.1.1 - ram_base)) segs
}.

(** C16: A write request stores the bytes of its buffers on the disk, changes
    no other byte of it and reports success; a later read request of the same
    sectors, into buffers of any shape, returns exactly these bytes and reports
    success, whatever happened to guest memory in between. *)
Theorem block_round_trip qi qi' head head' hdr hdr' segs segs' st st' ram sector disk data :
  Z.of_nat (length disk) < 2 ^ 63 -> uint 64 sector ->
  sector * SECTOR + Z.of_nat (length data) <= Z.of_nat (length disk) ->
  request ram_base ram hdr VIRTIO_BLK_T_OUT sector -> io_segs ram segs st false ->
  gather ram ram_base segs = Some data ->
  exists disk' ram',
    service qi head (hdr :: segs ++ [st]) ram_base (Block disk) ram
    = (Ok (Complete 1, Block disk' : Backend S), ram') /\
    ram' !! Z.to_nat (st.1.1 - ram_base) = Some 0 /\
    outside (sector * SECTOR) (sector * SECTOR + Z.of_nat (length data)) disk disk' /\
    forall ram2,
      request ram_base ram2 hdr' VIRTIO_BLK_T_IN sector -> io_segs ram2 segs' st' true ->
      total segs' = Z.of_nat (length data) ->
      exists ram2',
        service qi' head' (hdr' :: segs' ++ [st']) ram_base (Block disk') ram2
        = (Ok (Complete (u32 (total segs' + 1)), Block disk' : Backend S), ram2') /\
        received ram_base ram2' segs' data /\
        ram2' !! Z.to_nat (st'.1.1 - ram_base) = Some 0.
Proof.
  intros Hdisk Hsec Hfit Hreq Hio Hg.
  assert (0 <= sector * SECTOR) by (unfold uint, SECTOR in *; lia).
  assert (u64 (sector * SECTOR) = sector * SECTOR) as Hpos by (apply u64_id; lia).
  destruct (block_segments_out ram_base Hbase segs ram data disk (sector * SECTOR) 0)
    as (disk' & E & Hh & Ho); try done; try apply Hio.
  destruct (io_st _ _ _ _ Hio) as (Hs1 & Hs2 & Hs3).
  exists disk', (aset ram (st.1.1 - ram_base) 0). split; [|split; [|split; [exact Ho|]]].
  - unfold service, bind. erewrite (block_request_ok ram_base Hbase); try done; [|apply Hio|by rewrite Hpos].
    done.
  - unfold aset. apply list_lookup_insert_eq. lia.
  - intros ram2 Hreq2 Hio2 Htot. pose proof (proj1 Ho) as Hlen.
    destruct (block_segments_in ram_base Hbase segs' ram2 disk' (sector * SECTOR) 0 data)
      as (r1 & E1 & Hr & Ho1); try done; try apply Hio2; [by rewrite <- Hlen|].
    destruct (io_st _ _ _ _ Hio2) as (Ht1 & Ht2 & Ht3). pose proof (proj1 Ho1) as Hlen1.
    exists (aset r1 (st'.1.1 - ram_base) 0). split; [|split].
    + pose proof (block_request_ok ram_base Hbase hdr' segs' st' ram2 VIRTIO_BLK_T_IN sector disk'
        (mkBlock disk' (sector * SECTOR + total segs') (u32 (0 + total segs')) true) r1
        (io_ram _ _ _ _ Hio2) Hreq2) as Q.
      rewrite Hpos, <- Hlen1 in Q. unfold service, bind. rewrite (Q ltac:(done) Hsec Ht1 Ht2 Ht3 E1).
      cbn [fst snd b_written b_disk b_ok]. unfold ret. do 4 f_equal.
      unfold u32, wrap. rewrite Z.add_0_l, Z.add_mod_idemp_l by lia. done.
    + eapply (received_only ram_base (fun i => i = st'.1.1 - ram_base)); [exact Hr| |].
      * unfold aset. split; [by rewrite length_insert|]. intros i Hi.
        rewrite list_lookup_insert_ne; [done|]. lia.
      * intros d i Hd Hc ->. pose proof (io_st_apart _ _ _ _ Hio2) as Hap.
        eapply Forall_forall in Hap; [|by apply list_elem_of_In]. done.
    + unfold aset. apply list_lookup_insert_eq. lia.
Qed.
End BlockRoundTrip.

(** ** Witnesses and failures *)

(** A server that answers nothing, for devices that have none. *)
#[global] Instance no_server : P9Server unit := {| p9_mount_tag _ := []; p9_handle u _ := Some ([], u) |}.

Section Witnesses.
Let base : Z := 0x80000000.

(** A table of two linked descriptors. *)
Definition two_descs : list Z :=
  to_le_bytes 8 (0x80000000 + 64) ++ to_le_bytes 4 0x10005 ++ to_le_bytes 2 1 ++ to_le_bytes 2 1 ++
  to_le_bytes 8 (0x80000000 + 96) ++ to_le_bytes 4 7 ++ to_le_bytes 2 2 ++ to_le_bytes 2 0.

Lemma walk_descriptor_table_spec_witness :
  linked two_descs base base 2 0 [(0x80000000 + 64, 0x10005, false); (0x80000000 + 96, 7, true)].
Proof.
  apply (walk_descriptor_table_spec two_descs base base 2
    ltac:(vm_compute; split; congruence) 0 [(0x80000000 + 64, 0x10005, false); (0x80000000 + 96, 7, true)]).
  reflexivity.
Defined.

(** Header at 0 (a read of sector 0), data at 16 and 20, status at 24. *)
Definition read_memory : list Z := to_le_bytes 4 0 ++ replicate 4 0 ++ to_le_bytes 8 0 ++ replicate 16 9.

Definition read_chain : list Descriptor :=
  [(0x80000000, 16, false)] ++ [(0x80000010, 2, true); (0x80000014, 2, true)] ++ [(0x80000018, 1, true)].

Lemma service_frame_witness :
  let ram' := snd (service 0 0 read_chain base (Block [1; 2; 3; 4] : Backend unit) read_memory) in
  fst (service 0 0 read_chain base (Block [1; 2; 3; 4] : Backend unit) read_memory)
    = Ok (Complete 5, Block [1; 2; 3; 4]) /\
  length ram' = length read_memory /\ ram' !! 16%nat = Some 1 /\ ram' !! 18%nat = read_memory !! 18%nat.
Proof.
  intros ram'. split; [reflexivity|].
  destruct (service_frame 0 0 read_chain base (Block [1; 2; 3; 4] : Backend unit) read_memory
    (Complete 5, Block [1; 2; 3; 4]) ram') as [Hl Ho];
    [done|done|by repeat constructor|reflexivity|].
  split; [exact Hl|]. split; [reflexivity|]. apply Ho.
  intros [(d & Hd & Hw & Hc)|(d & Hd & Hi)].
  - unfold read_chain in Hd. set_unfold in Hd.
    destruct_or! Hd; subst d; simpl in Hw, Hc; subst base; (done || lia).
  - simpl in Hd. injection Hd as <-. simpl in Hi. subst base. lia.
Defined.

(** A write request of four bytes: header at 0, data at 16, status at 24. *)
Definition write_memory : list Z := to_le_bytes 4 1 ++ replicate 4 0 ++ to_le_bytes 8 0 ++ [5; 6; 7; 8] ++ replicate 12 9.

Lemma block_round_trip_witness :
  exists disk' ram2',
    fst (service 0 0 ([(0x80000000, 16, false)] ++ [(0x80000010, 4, false)] ++ [(0x80000018, 1, true)])
      base (Block [0; 0; 0; 0; 1] : Backend unit) write_memory) = Ok (Complete 1, Block disk') /\
    service 0 0 read_chain base (Block disk' : Backend unit) read_memory
      = (Ok (Complete 5, Block disk'), ram2') /\
    received base ram2' [(0x80000010, 2, true); (0x80000014, 2, true)] [5; 6; 7; 8].
Proof.
  destruct (block_round_trip (S := unit) base ltac:(done) 0 0 0 0 (0x80000000, 16, false)
    (0x80000000, 16, false) [(0x80000010, 4, false)] [(0x80000010, 2, true); (0x80000014, 2, true)]
    (0x80000018, 1, true) (0x80000018, 1, true) write_memory 0 [0; 0; 0; 0; 1] [5; 6; 7; 8])
    as (disk' & ram' & E & _ & _ & Hread); try done.
  - split; [done|]. split; [done|]. split; (split; [done|]); (split; [done|]);
      intros [|[|[|[|[|[|[|[|i]]]]]]]] x; done.
  - split; try done; repeat constructor; try done; simpl; subst base; try lia; intros Hc; lia.
  - destruct (Hread read_memory) as (ram2' & E2 & Hr & _); [| |done|].
    + split; [done|]. split; [done|]. split; (split; [done|]); (split; [done|]);
        intros [|[|[|[|[|[|[|[|i]]]]]]]] x; done.
    + split; try done; repeat constructor; try done; simpl; subst base; try lia;
        try (intros Hc; lia); intros i; simpl; lia.
    + exists disk', ram2'. split; [|split; [exact E2|exact Hr]].
      exact (f_equal fst E).
Defined.

(** A block request of one descriptor panics: the data buffers are sliced from
    index 1 to 0. *)
Lemma block_single_descriptor_panics :
  fst (service 0 0 [(0x80000000, 16, false)] base (Block [] : Backend unit) read_memory) = Panic.
Proof. reflexivity. Qed.

(** A block header outside memory panics, where the 9P and network devices
    consume the chain. *)
Lemma block_header_outside_panics :
  fst (service 0 0 [(0, 16, false); (0x80000018, 1, true)] base (Block [] : Backend unit) read_memory)
  = Panic.
Proof. reflexivity. Qed.

(** A queue made ready before it has a size panics at the first chain. *)
Lemma unsized_queue_panics :
  let d := set_queues [mkQueue 1 0 base (base + 2) base 0; default_queue] (new (Net [] [] []) : VirtioDev unit) in
  fst (process 8 0 base d [0; 0; 0; 0; 1; 0; 0; 0]) = Panic.
Proof. reflexivity. Qed.
End Witnesses.
