(* ===== verification/VirtioRing.v ===== *)
(** * Virtqueue processing (Virtio.v)

    The used ring after a completion, the drain of a network transmit queue,
    and the bound on the network mailboxes. *)

From stdpp Require Import gmap.
From S2P Require Import Prelude Bus Slices Virtio VirtioSpec.

(** ** Ring accesses *)

Section Rings.
Context (ram_base : Z) (Hbase : 0 <= ram_base < 2 ^ 63).

(** The address [addr + n] is inside memory. *)
Definition in_mem (ram : list Z) (addr n : Z) : Prop :=
  ram_base <= addr /\ addr - ram_base + n <= Z.of_nat (length ram) < 2 ^ 63.

Lemma in_mem_offset ram addr n :
  in_mem ram addr n -> 0 <= n -> sub64 (u64 addr) ram_base = addr - ram_base.
Proof.
  intros [Hb Hl] Hn. rewrite u64_id by lia. apply sub64_ge; [done..|]. unfold uint. lia.
Qed.

Lemma read16_ok ram addr :
  in_mem ram addr 2 -> read16 ram_base (u64 addr) ram = (Ok (word 2 ram (addr - ram_base)), ram).
Proof.
  intros Hin. unfold read16. rewrite (in_mem_offset _ _ _ Hin) by lia. destruct Hin as [Hb Hl].
  rewrite u64_id by lia. unfold get_slice, bind, gets, id, unwrap. rewrite slice_ok by lia.
  unfold ret, word. do 4 f_equal. lia.
Qed.

Lemma put_word_ok ram addr n v :
  in_mem ram addr (Z.of_nat n) ->
  let o := sub64 (u64 addr) ram_base in
  exists ram', put_slice (E := Empty_set) o (u64 (o + Z.of_nat n)) (to_le_bytes n v) ram = (Ok tt, ram') /\
    holds ram' (addr - ram_base) (to_le_bytes n v) /\
    only (fun i => addr - ram_base <= i < addr - ram_base + Z.of_nat n) ram ram'.
Proof.
  intros Hin o. subst o. rewrite (in_mem_offset _ _ _ Hin) by lia. destruct Hin as [Hb Hl].
  rewrite u64_id by lia.
  apply put_slice_ok; rewrite ?length_to_le_bytes; lia.
Qed.

Lemma write32_ok ram addr v :
  in_mem ram addr 4 ->
  exists ram', write32 ram_base (u64 addr) v ram = (Ok tt, ram') /\
    holds ram' (addr - ram_base) (to_le_bytes 4 v) /\
    only (fun i => addr - ram_base <= i < addr - ram_base + 4) ram ram'.
Proof. apply (put_word_ok ram addr 4). Qed.

Lemma write16_ok ram addr v :
  in_mem ram addr 2 ->
  exists ram', write16 ram_base (u64 addr) v ram = (Ok tt, ram') /\
    holds ram' (addr - ram_base) (to_le_bytes 2 v) /\
    only (fun i => addr - ram_base <= i < addr - ram_base + 2) ram ram'.
Proof. apply (put_word_ok ram addr 2). Qed.

(** Both rings of a queue, in memory and apart; the size divides the index
    space, as the specification's powers of two do. *)
Record rings_ok (ram : list Z) (q : Queue) : Prop := {
  ro_num : 0 < q.(num);
  ro_pow : (q.(num) | 2 ^ 16);
  ro_avail : in_mem ram q.(avail) (4 + 2 * q.(num));
  ro_used : in_mem ram q.(used) (4 + 8 * q.(num));
  ro_apart : q.(used) + 4 + 8 * q.(num) <= q.(avail) \/ q.(avail) + 4 + 2 * q.(num) <= q.(used);
  ro_bytes : Forall (uint 8) ram
}.

(** The fields of the rings. *)
Definition avail_index (ram : list Z) (q : Queue) : Z := word 2 ram (q.(avail) - ram_base + 2).
Definition avail_head (ram : list Z) (q : Queue) (k : Z) : Z :=
  word 2 ram (q.(avail) - ram_base + 4 + 2 * (k mod q.(num))).
Definition used_index (ram : list Z) (q : Queue) : Z := word 2 ram (q.(used) - ram_base + 2).
Definition entry_at (q : Queue) (k : Z) : Z := q.(used) - ram_base + 4 + 8 * (k mod q.(num)).

(** The positions [n] completions from used index [k] may write. *)
Definition used_writes (q : Queue) (k : Z) (n : nat) (i : Z) : Prop :=
  q.(used) - ram_base + 2 <= i < q.(used) - ram_base + 4 \/
  exists j, 0 <= j < Z.of_nat n /\ entry_at q (k + j) <= i < entry_at q (k + j) + 8.

Lemma mod_pow k q ram : rings_ok ram q -> u16 k mod q.(num) = k mod q.(num).
Proof.
  intros Hr. destruct (ro_pow _ _ Hr) as [c Hc]. unfold u16, wrap. rewrite Hc, (Z.mul_comm c).
  pose proof (ro_num _ _ Hr). destruct (decide (c = 0)) as [->|]; [by rewrite Z.mul_0_r, Z.mod_0_r|].
  rewrite Z.rem_mul_r by lia. rewrite (Z.mul_comm (num q)), Z.mod_add by lia. by rewrite Z.mod_mod by lia.
Qed.

Lemma entry_range q k ram : rings_ok ram q ->
  q.(used) - ram_base + 4 <= entry_at q k /\ entry_at q k + 8 <= q.(used) - ram_base + 4 + 8 * q.(num).
Proof.
  intros Hr. unfold entry_at. pose proof (ro_num _ _ Hr).
  pose proof (Z.mod_pos_bound k (num q)). lia.
Qed.

Lemma used_writes_range q k n i ram : rings_ok ram q -> used_writes q k n i ->
  q.(used) - ram_base <= i < q.(used) - ram_base + 4 + 8 * q.(num).
Proof.
  intros Hr [Hi|(j & Hj & Hi)]; [pose proof (ro_num _ _ Hr); lia|].
  pose proof (entry_range q (k + j) ram Hr). lia.
Qed.

(** One completion: the entry, the index, and nothing else. *)
Lemma publish_used_ok ram q head written :
  rings_ok ram q ->
  let k := used_index ram q in
  exists ram', publish_used q head written ram_base ram = (Ok tt, ram') /\
    used_index ram' q = u16 (k + 1) /\
    holds ram' (entry_at q k) (to_le_bytes 4 head ++ to_le_bytes 4 written) /\
    only (used_writes q k 1) ram ram' /\ Forall (uint 8) ram'.
Proof.
  intros Hr k. pose proof (ro_num _ _ Hr) as Hn. destruct (ro_used _ _ Hr) as [Hu Hul].
  pose proof (entry_range q k ram Hr) as [He1 He2].
  unfold publish_used. unfold bind at 1. rewrite read16_ok by (split; lia).
  replace (used q + 2 - ram_base) with (used q - ram_base + 2) by lia. fold (used_index ram q). fold k.
  unfold bind at 1, checked_rem. destruct (Z.eqb_spec (num q) 0); [lia|]. unfold ret at 1.
  assert (used q + 4 + k mod num q * 8 - ram_base = entry_at q k) as Ha by (unfold entry_at; lia).
  destruct (write32_ok ram (used q + 4 + k mod num q * 8) head) as (r1 & E1 & H1 & O1);
    [split; lia|]. rewrite Ha in H1, O1.
  destruct (write32_ok r1 (used q + 4 + k mod num q * 8 + 4) written) as (r2 & E2 & H2 & O2);
    [split; rewrite <- ?(proj1 O1); lia|].
  replace (used q + 4 + k mod num q * 8 + 4 - ram_base) with (entry_at q k + 4) in H2, O2 by lia.
  destruct (write16_ok r2 (used q + 2) (u16 (k + 1))) as (r3 & E3 & H3 & O3);
    [split; rewrite <- ?(proj1 O2), <- ?(proj1 O1); lia|].
  replace (used q + 2 - ram_base) with (used q - ram_base + 2) in H3, O3 by lia.
  exists r3. split; [|split; [|split; [|split]]].
  - unfold bind at 1. rewrite E1. unfold bind at 1. rewrite E2. exact E3.
  - unfold used_index. rewrite (word_holds _ _ _ H3 : word 2 _ _ = _), from_to_le_bytes.
    unfold u16, wrap. by rewrite Z.mod_mod.
  - apply holds_app. split.
    + eapply holds_only; [eapply holds_only; [exact H1|exact O2|]|exact O3|];
        rewrite length_to_le_bytes; intros; lia.
    + rewrite length_to_le_bytes. eapply holds_only; [exact H2|exact O3|].
      rewrite length_to_le_bytes. intros; lia.
  - eapply only_trans; [|eapply only_trans]; (eapply only_mono; [exact O1 || exact O2 || exact O3|]).
    all: intros i Hi; cbv beta in Hi; unfold used_writes.
    1,2: right; exists 0; rewrite Z.add_0_r; lia.
    left. lia.
  - eapply only_bytes; [|exact O3|exact H3|apply to_le_bytes_bytes|];
      [eapply only_bytes; [|exact O2|exact H2|apply to_le_bytes_bytes|];
        [eapply only_bytes; [apply Hr|exact O1|exact H1|apply to_le_bytes_bytes|]|]|].
    all: rewrite length_to_le_bytes; intros; lia.
Qed.

(** Writes to the used ring leave the available ring, and the conditions, as
    they were. *)
Lemma rings_kept ram ram' q k n :
  rings_ok ram q -> only (used_writes q k n) ram ram' -> Forall (uint 8) ram' ->
  rings_ok ram' q /\ avail_index ram' q = avail_index ram q /\
  (forall j, avail_head ram' q j = avail_head ram q j).
Proof.
  intros Hr Ho Hb. pose proof (proj1 Ho) as Hl.
  pose proof (ro_num _ _ Hr). destruct (ro_avail _ _ Hr), (ro_used _ _ Hr).
  assert (forall a, q.(avail) - ram_base <= a -> a + 2 <= q.(avail) - ram_base + 4 + 2 * q.(num) ->
    word 2 ram' a = word 2 ram a) as Hw.
  { intros a Ha1 Ha2. eapply word_only; [exact Ho|lia..|]. intros i Hi Hu.
    apply (used_writes_range _ _ _ _ ram Hr) in Hu. destruct (ro_apart _ _ Hr); lia. }
  split; [|split].
  - destruct Hr. split; try done; unfold in_mem; by rewrite <- Hl.
  - apply Hw; lia.
  - intros j. apply Hw; pose proof (Z.mod_pos_bound j (num q)); lia.
Qed.

Lemma used_writes_sub q k n m i :
  used_writes q (k + Z.of_nat m) n i -> used_writes q k (m + n) i.
Proof.
  intros [?|(j & Hj & Hi)]; [by left|right]. exists (Z.of_nat m + j).
  rewrite Z.add_assoc. split; [lia|done].
Qed.

Lemma mod_u16_add ram q a b :
  rings_ok ram q -> (u16 a + b) mod q.(num) = (a + b) mod q.(num).
Proof.
  intros Hr. rewrite <- Z.add_mod_idemp_l, (mod_pow a q ram Hr), Z.add_mod_idemp_l; [done|..];
    pose proof (ro_num _ _ Hr); lia.
Qed.

Lemma entry_at_u16 ram q a b : rings_ok ram q -> entry_at q (u16 a + b) = entry_at q (a + b).
Proof. intros Hr. unfold entry_at. by rewrite (mod_u16_add ram). Qed.

Lemma avail_head_u16 ram q a b :
  rings_ok ram q -> avail_head ram q (u16 a + b) = avail_head ram q (a + b).
Proof. intros Hr. unfold avail_head. by rewrite (mod_u16_add ram). Qed.

Lemma used_writes_u16 ram q k n i :
  rings_ok ram q -> used_writes q (u16 k) n i <-> used_writes q k n i.
Proof.
  intros Hr. unfold used_writes, entry_at.
  by setoid_rewrite (mod_u16_add ram q k _ Hr).
Qed.

(** Distinct completions of one batch use distinct entries. *)
Lemma entry_apart ram q k n i :
  rings_ok ram q -> Z.of_nat (S n) <= q.(num) ->
  entry_at q k <= i < entry_at q k + 8 -> ~ used_writes q (k + 1) n i.
Proof.
  intros Hr Hn Hi [Hx|(j & Hj & Hx)]; [pose proof (entry_range q k ram Hr); lia|].
  unfold entry_at in *.
  assert (k mod num q = (k + 1 + j) mod num q) as He by lia.
  pose proof (ro_num _ _ Hr) as Hpos. assert (num q <> 0) as Hnz by lia.
  pose proof (Z.div_mod k (num q) Hnz). pose proof (Z.div_mod (k + 1 + j) (num q) Hnz).
  assert (1 + j = num q * ((k + 1 + j) / num q - k / num q)) as Hc by lia.
  generalize dependent ((k + 1 + j) / num q - k / num q). intros c Hc.
  destruct (decide (c <= 0)); nia.
Qed.
End Rings.

(** ** Draining a network transmit queue *)

Section NetTx.
Context {S : Type} `{P9Server S} (ram_base : Z) (Hbase : 0 <= ram_base < 2 ^ 63).
Implicit Types (d : VirtioDev S) (ram : list Z).

Definition tx (d : VirtioDev S) : Queue := aget d.(queues) 1.

(** A network device with a usable transmit queue. *)
Record tx_ready (ram : list Z) (d : VirtioDev S) : Prop := {
  tr_queues : length d.(queues) = 2%nat;
  tr_rings : rings_ok ram_base ram (tx d);
  tr_last : uint 16 (tx d).(last_avail_idx);
  tr_net : exists mac inbox outbox, d.(backend) = Net mac inbox outbox
}.

(** Same adapter, with frames added to the outbox. *)
Definition sent_more (d d' : VirtioDev S) : Prop :=
  forall mac inbox outbox, d.(backend) = Net mac inbox outbox ->
  exists frames, d'.(backend) = Net mac inbox (outbox ++ frames).

Lemma sent_more_trans d1 d2 d3 : sent_more d1 d2 -> sent_more d2 d3 -> sent_more d1 d3.
Proof.
  intros H12 H23 mac inbox outbox E. destruct (H12 _ _ _ E) as [f1 E1].
  destruct (H23 _ _ _ E1) as [f2 E2]. exists (f1 ++ f2). by rewrite app_assoc.
Qed.

(** The device after [n] completions. *)
Record consumed (d d' : VirtioDev S) (n : nat) : Prop := {
  cs_queues : length d'.(queues) = 2%nat;
  cs_tx : tx d' = set_last_avail (u16 ((tx d).(last_avail_idx) + Z.of_nat n)) (tx d);
  cs_int : d'.(int_status) = if (n =? 0)%nat then d.(int_status) else d.(int_status) .| 1;
  cs_sent : sent_more d d'
}.

Lemma net_tx_prefix ram chain outbox :
  exists frames, net_tx ram ram_base chain outbox = outbox ++ frames.
Proof.
  unfold net_tx. repeat case_match; try (exists []; by rewrite app_nil_r). by eexists.
Qed.

Lemma complete_ok ram d head :
  length d.(queues) = 2%nat -> rings_ok ram_base ram (tx d) ->
  let k := used_index ram_base ram (tx d) in
  exists d' ram', complete 1 head 0 ram_base d ram = (Ok d', ram') /\
    d'.(queues) = aset d.(queues) 1 (set_last_avail (u16 ((tx d).(last_avail_idx) + 1)) (tx d)) /\
    d'.(backend) = d.(backend) /\ d'.(int_status) = d.(int_status) .| 1 /\
    used_index ram_base ram' (tx d) = u16 (k + 1) /\
    holds ram' (entry_at ram_base (tx d) k) (to_le_bytes 4 head ++ to_le_bytes 4 0) /\
    only (used_writes ram_base (tx d) k 1) ram ram' /\ Forall (uint 8) ram'.
Proof.
  intros Hq Hr k. destruct (publish_used_ok ram_base Hbase ram (tx d) head 0 Hr) as (r1 & E & ?).
  eexists _, r1. split; [unfold complete, bind; fold (tx d); by rewrite E|]. done.
Qed.

(** One turn of the loop serves one chain. *)
Lemma tx_turn fuel ram d :
  tx_ready ram d -> (tx d).(last_avail_idx) <> avail_index ram_base ram (tx d) ->
  let q := tx d in let k := used_index ram_base ram q in
  exists d' ram',
    process_loop (Datatypes.S fuel) 1 ram_base d ram = process_loop fuel 1 ram_base d' ram' /\
    consumed d d' 1 /\ used_index ram_base ram' q = u16 (k + 1) /\
    holds ram' (entry_at ram_base q k)
      (to_le_bytes 4 (avail_head ram_base ram q q.(last_avail_idx)) ++ to_le_bytes 4 0) /\
    only (used_writes ram_base q k 1) ram ram' /\ Forall (uint 8) ram'.
Proof.
  intros [Hql Hr Hlast (mac & inbox & outbox & Eb)] Hne q k. change (tx d) with q in Hr, Hlast, Hne.
  pose proof (ro_num _ _ _ Hr) as Hnum. destruct (ro_avail _ _ _ Hr) as [Ha1 Ha2].
  pose proof (Z.mod_pos_bound (last_avail_idx q) (num q) Hnum) as Hslot.
  set (head := avail_head ram_base ram q q.(last_avail_idx)).
  assert (exists d0, d0.(queues) = d.(queues) /\ d0.(int_status) = d.(int_status) /\ sent_more d d0 /\
    process_loop (Datatypes.S fuel) 1 ram_base d ram
    = (d1 <- complete 1 head 0 ram_base d0 ;; process_loop fuel 1 ram_base d1) ram)
    as (d0 & Eq & Ei & Hs & E).
  { cbn [process_loop]. fold (tx d). fold q. unfold bind at 1.
    rewrite read16_ok by (try done; split; lia).
    replace (avail q + 2 - ram_base) with (avail q - ram_base + 2) by lia.
    fold (avail_index ram_base ram q). destruct (Z.eqb_spec (last_avail_idx q) (avail_index ram_base ram q)); [done|].
    unfold bind at 1, checked_rem. destruct (Z.eqb_spec (num q) 0); [lia|]. unfold ret at 1.
    unfold bind at 1. rewrite read16_ok by (try done; split; lia).
    replace (avail q + 4 + last_avail_idx q mod num q * 2 - ram_base)
      with (avail q - ram_base + 4 + 2 * (last_avail_idx q mod num q)) by lia.
    fold (avail_head ram_base ram q (last_avail_idx q)). fold head.
    unfold bind at 1, gets, id. destruct (descriptor_chain q head ram ram_base) as [chain|].
    - unfold bind at 1. rewrite Eb. cbn [service Z.eqb]. unfold bind at 1, gets, id, ret at 1.
      cbn [fst snd]. eexists. split; [|split; [|split; [|done]]]; [done..|].
      intros mac' inbox' outbox' E'. rewrite Eb in E'. simplify_eq. simpl.
      destruct (net_tx_prefix ram chain outbox') as [f ->]. by exists f.
    - exists d. split_and!; try done. intros m i o E'. exists []. by rewrite app_nil_r. }
  assert (tx d0 = q) as Etx by (unfold tx; by rewrite Eq).
  destruct (complete_ok ram d0 head) as (d1 & r1 & Ec & Eq1 & Eb1 & Ei1 & Hrest);
    [by rewrite Eq|by rewrite Etx|].
  exists d1, r1. split; [rewrite E; unfold bind; by rewrite Ec|].
  rewrite Etx in *. split; [|exact Hrest].
  split.
  - rewrite Eq1, Eq. unfold aset. by rewrite length_insert.
  - unfold tx at 1. rewrite Eq1, Eq. unfold aset, aget. apply list_lookup_total_insert_eq. rewrite Hql. lia.
  - simpl. by rewrite Ei1, Ei.
  - intros m i o Eo. destruct (Hs _ _ _ Eo) as [f Ef]. exists f. by rewrite Eb1.
Qed.

(** Chains the driver has offered and the device has not taken yet. *)
Definition outstanding (ram : list Z) (d : VirtioDev S) : nat :=
  Z.to_nat (u16 (avail_index ram_base ram (tx d) - (tx d).(last_avail_idx))).

Lemma avail_index_range ram q : rings_ok ram_base ram q -> uint 16 (avail_index ram_base ram q).
Proof.
  intros Hr. destruct (ro_avail _ _ _ Hr). pose proof (ro_num _ _ _ Hr).
  apply (word_range 2); [apply Hr|lia..].
Qed.

Lemma used_index_range ram q : rings_ok ram_base ram q -> uint 16 (used_index ram_base ram q).
Proof.
  intros Hr. destruct (ro_used _ _ _ Hr). pose proof (ro_num _ _ _ Hr).
  apply (word_range 2); [apply Hr|lia..].
Qed.

(** Batch of [n] used entries, in order of submission. *)
Definition returned (ram ram' : list Z) (q : Queue) (k : Z) (n : nat) : Prop :=
  forall j, 0 <= j < Z.of_nat n ->
  holds ram' (entry_at ram_base q (k + j))
    (to_le_bytes 4 (avail_head ram_base ram q (q.(last_avail_idx) + j)) ++ to_le_bytes 4 0).

Lemma rings_set_last ram q v : rings_ok ram_base ram q -> rings_ok ram_base ram (set_last_avail v q).
Proof. by intros []. Qed.

Lemma consumed_trans d0 d1 d2 n :
  consumed d0 d1 1 -> consumed d1 d2 n -> consumed d0 d2 (Datatypes.S n).
Proof.
  intros [Q1 T1 I1 S1] [Q2 T2 I2 S2]. split; [done| | |by eapply sent_more_trans].
  - rewrite T2, T1. unfold set_last_avail. simpl. f_equal. unfold u16, wrap.
    rewrite Z.add_mod_idemp_l by lia. f_equal. lia.
  - rewrite I2, I1. simpl. destruct (n =? 0)%nat; [done|]. by rewrite <- Z.lor_assoc.
Qed.

Lemma outstanding_step ram d ram' d' :
  tx_ready ram d -> consumed d d' 1 ->
  avail_index ram_base ram' (tx d') = avail_index ram_base ram (tx d) ->
  (tx d).(last_avail_idx) <> avail_index ram_base ram (tx d) ->
  outstanding ram d = Datatypes.S (outstanding ram' d').
Proof.
  intros Ht Hc Ha Hne. unfold outstanding. rewrite Ha, (cs_tx _ _ _ Hc). simpl.
  pose proof (avail_index_range ram _ (tr_rings _ _ Ht)). pose proof (tr_last _ _ Ht).
  unfold u16, wrap, uint in *. zlia.
Qed.

(** What [n] turns of the loop do. *)
Definition drained (ram ram' : list Z) (d d' : VirtioDev S) (n : nat) : Prop :=
  let q := tx d in let k := used_index ram_base ram q in
  consumed d d' n /\ used_index ram_base ram' q = u16 (k + Z.of_nat n) /\
  returned ram ram' q k n /\ only (used_writes ram_base q k n) ram ram'.

Lemma drain_done fuel ram d :
  tx_ready ram d -> outstanding ram d = 0%nat -> (0 < fuel)%nat ->
  process_loop fuel 1 ram_base d ram = (Ok (Some d), ram) /\ drained ram ram d d 0.
Proof.
  intros Ht Hn Hf. pose proof (tr_rings _ _ Ht) as Hr.
  assert ((tx d).(last_avail_idx) = avail_index ram_base ram (tx d)) as Heq.
  { pose proof (avail_index_range ram _ Hr). pose proof (tr_last _ _ Ht).
    unfold outstanding, u16, wrap, uint in *. zlia. }
  destruct fuel as [|fuel]; [lia|]. pose proof (ro_num _ _ _ Hr). destruct (ro_avail _ _ _ Hr).
  split; [|split; [|split; [|split]]].
  - cbn [process_loop]. fold (tx d). unfold bind at 1. rewrite read16_ok by (try done; split; lia).
    replace (avail (tx d) + 2 - ram_base) with (avail (tx d) - ram_base + 2) by lia.
    fold (avail_index ram_base ram (tx d)). rewrite <- Heq, Z.eqb_refl. done.
  - split; [apply Ht| |done|intros m i o E; exists []; by rewrite app_nil_r].
    rewrite Z.add_0_r. unfold u16. rewrite wrap_small by apply Ht. by destruct (tx d).
  - rewrite Z.add_0_r. unfold u16. rewrite wrap_small; [done|]. by apply used_index_range.
  - intros j Hj. lia.
  - apply only_refl.
Qed.

(** One turn, then [n] more. *)
Lemma drained_step ram r1 r2 d d1 d2 n :
  let q := tx d in let k := used_index ram_base ram q in
  rings_ok ram_base ram q -> Z.of_nat (Datatypes.S n) <= q.(num) ->
  consumed d d1 1 -> used_index ram_base r1 q = u16 (k + 1) ->
  holds r1 (entry_at ram_base q k)
    (to_le_bytes 4 (avail_head ram_base ram q q.(last_avail_idx)) ++ to_le_bytes 4 0) ->
  only (used_writes ram_base q k 1) ram r1 -> Forall (uint 8) r1 ->
  drained r1 r2 d1 d2 n -> drained ram r2 d d2 (Datatypes.S n).
Proof.
  intros q k Hr Hnum C1 U1 H1 O1 B1 (C2 & U2 & R2 & O2).
  destruct (rings_kept ram_base ram r1 q k 1 Hr O1 B1) as (Hr1 & Ha1 & Hh1).
  pose proof (cs_tx _ _ _ C1) as T1. fold q in T1.
  rewrite T1 in U2, R2, O2. unfold used_index in U2, R2, O2. simpl in U2, R2, O2.
  fold (used_index ram_base r1 q) (used_index ram_base r2 q) in U2.
  fold (used_index ram_base r1 q) in R2, O2. rewrite U1 in U2, R2, O2.
  pose proof (consumed_trans _ _ _ _ C1 C2) as C.
  assert (only (used_writes ram_base q (k + 1) n) r1 r2) as O2'.
  { eapply only_mono; [exact O2|]. intros i Hi. by apply (used_writes_u16 ram_base ram q (k + 1) n i Hr). }
  unfold drained. fold q. fold k. clearbody k q. clear O2.
  split; [done|]. split; [|split].
  - rewrite U2. unfold u16, wrap. rewrite Z.add_mod_idemp_l by lia. f_equal. lia.
  - intros j Hj. destruct (decide (j = 0)) as [->|].
    + rewrite !Z.add_0_r. eapply holds_only; [exact H1|exact O2'|].
      rewrite length_app, !length_to_le_bytes. intros i Hi.
      apply (entry_apart ram_base ram q k n i Hr Hnum). lia.
    + specialize (R2 (j - 1) ltac:(lia)). cbn [set_last_avail last_avail_idx] in R2.
      change (entry_at ram_base (set_last_avail ?v q) ?x) with (entry_at ram_base q x) in R2.
      change (avail_head ram_base r1 (set_last_avail ?v q) ?x) with (avail_head ram_base r1 q x) in R2.
      rewrite (entry_at_u16 _ ram), (avail_head_u16 _ r1), Hh1 in R2 by done.
      replace (k + j) with (k + 1 + (j - 1)) by lia.
      by replace (last_avail_idx q + j) with (last_avail_idx q + 1 + (j - 1)) by lia.
  - eapply only_trans; (eapply only_mono; [exact O1 || exact O2'|]).
    + intros i [?|(j & Hj & Hi)]; [by left|right]. exists j. split; [lia|done].
    + intros i Hi. by apply (used_writes_sub ram_base q k n 1).
Qed.

Lemma drain_loop n : forall fuel ram d,
  tx_ready ram d -> outstanding ram d = n -> (n < fuel)%nat -> Z.of_nat n <= (tx d).(num) ->
  exists d' ram',
    process_loop fuel 1 ram_base d ram = (Ok (Some d'), ram') /\ drained ram ram' d d' n.
Proof.
  induction n as [|n IH]; intros fuel ram d Ht Hn Hf Hnum; [by exists d, ram; apply drain_done|].
  assert ((tx d).(last_avail_idx) <> avail_index ram_base ram (tx d)) as Hne.
  { intros Heq. unfold outstanding in Hn. rewrite Heq, Z.sub_diag in Hn. done. }
  destruct fuel as [|fuel]; [lia|]. pose proof (tr_rings _ _ Ht) as Hr.
  destruct (tx_turn fuel ram d Ht Hne) as (d1 & r1 & E1 & C1 & U1 & H1 & O1 & B1).
  destruct (rings_kept ram_base ram r1 _ _ 1 Hr O1 B1) as (Hr1 & Ha1 & Hh1).
  pose proof (cs_tx _ _ _ C1) as T1.
  assert (avail_index ram_base r1 (tx d1) = avail_index ram_base ram (tx d)) as Ha by (by rewrite T1).
  assert (tx_ready r1 d1) as Ht1.
  { split; [apply C1|rewrite T1; by apply rings_set_last|rewrite T1; by apply uint_wrap|].
    destruct (tr_net _ _ Ht) as (m & i & o & Eb). destruct (cs_sent _ _ _ C1 _ _ _ Eb) as [f Ef]. eauto. }
  pose proof (outstanding_step ram d r1 d1 Ht C1 Ha Hne).
  destruct (IH fuel r1 d1 Ht1) as (d2 & r2 & E2 & D2); [lia..|rewrite T1; simpl; lia|].
  exists d2, r2. split; [by rewrite E1|]. by eapply drained_step.
Qed.

(** C17: Processing a network device's transmit queue terminates after as many
    turns as chains are outstanding: every chain comes back on the used ring,
    in the order offered, the used index counts them, the interrupt is raised,
    frames are only added to the outbox, and guest memory changes nowhere
    else. *)
Theorem net_tx_drains fuel ram d :
  tx_ready ram d -> (tx d).(ready) <> 0 ->
  (outstanding ram d < fuel)%nat -> Z.of_nat (outstanding ram d) <= (tx d).(num) ->
  exists d' ram', process fuel 1 ram_base d ram = (Ok (Some d'), ram') /\
    drained ram ram' d d' (outstanding ram d) /\
    (tx d').(last_avail_idx) = avail_index ram_base ram (tx d).
Proof.
  intros Ht Hrdy Hf Hn. destruct (drain_loop _ fuel ram d Ht eq_refl Hf Hn) as (d' & ram' & E & D).
  exists d', ram'. split; [|split; [done|]].
  - unfold process. fold (tx d). destruct (Z.eqb_spec (tx d).(ready) 0); [done|]. exact E.
  - destruct D as (C & _). rewrite (cs_tx _ _ _ C). simpl. unfold outstanding.
    pose proof (avail_index_range ram _ (tr_rings _ _ Ht)). pose proof (tr_last _ _ Ht).
    unfold u16, wrap, uint in *. zlia.
Qed.
End NetTx.

(** ** The network mailboxes *)

Section Mailboxes.
Context {S : Type} `{P9Server S} (ram_base : Z).
Implicit Types (d : VirtioDev S).

Definition mailbox_ok (frames : list (list Z)) : Prop :=
  Z.of_nat (length frames) <= NET_QUEUE_LIMIT /\
  Forall (fun f => Z.of_nat (length f) <= NET_MAX_FRAME) frames.

Definition net_bounded (b : Backend S) : Prop :=
  match b with Net _ inbox outbox => mailbox_ok inbox /\ mailbox_ok outbox | _ => True end.

(** What happens to a device: host calls and guest accesses.  [None] when the
    processing of a queue does not return. *)
Inductive event : Type :=
| EvNetInput (frame : list Z)
| EvNetTake
| EvWrite (off val : Z)
| EvProcess (fuel : nat) (qi : Z).

Definition react (e : event) (st : VirtioDev S * list Z) : option (VirtioDev S * list Z) :=
  let '(d, ram) := st in
  match e with
  | EvNetInput frame => Some (snd (net_input frame d), ram)
  | EvNetTake => Some (snd (net_take_output d), ram)
  | EvWrite off val => Some (snd (write d off val), ram)
  | EvProcess fuel qi =>
      match process fuel qi ram_base d ram with
      | (Ok (Some d), ram) => Some (d, ram)
      | _ => None
      end
  end.

Fixpoint reacts (es : list event) (st : VirtioDev S * list Z) : option (VirtioDev S * list Z) :=
  match es with
  | [] => Some st
  | e :: es => st ← react e st; reacts es st
  end.

Lemma mailbox_snoc l f :
  mailbox_ok l -> Z.of_nat (length l) < NET_QUEUE_LIMIT -> Z.of_nat (length f) <= NET_MAX_FRAME ->
  mailbox_ok (l ++ [f]).
Proof.
  intros [Hl HF] Hlt Hf. split; [rewrite length_app; simpl; lia|].
  apply Forall_app. split; [done|by constructor].
Qed.

Lemma mailbox_tail f l : mailbox_ok (f :: l) -> mailbox_ok l.
Proof. intros [Hl HF]. apply Forall_cons_1 in HF as [_ ?]. split; [simpl in Hl; lia|done]. Qed.

Lemma net_tx_bounded ram chain outbox :
  mailbox_ok outbox -> mailbox_ok (net_tx ram ram_base chain outbox).
Proof.
  intros Ho. unfold net_tx. destruct (gather ram ram_base chain) as [frame|]; [|done].
  destruct (_ && _) eqn:E; [|done].
  apply andb_true_iff in E as [[?%Z.ltb_lt ?%Z.leb_le]%andb_true_iff ?%Z.ltb_lt].
  apply mailbox_snoc; [done..|]. rewrite length_drop. unfold NET_HDR_LEN in *. lia.
Qed.

(** The fields a successful chain of binds went through. *)
Lemma bind_ok {E T A B} (m : M E T A) (k : A -> M E T B) s b s' :
  bind m k s = (Ok b, s') -> exists a s1, m s = (Ok a, s1) /\ k a s1 = (Ok b, s').
Proof. unfold bind. destruct (m s) as [[a|e|] s1] eqn:E1; try done. intros. by exists a, s1. Qed.

Lemma service_bounded qi head chain b ram r ram' :
  net_bounded b -> service qi head chain ram_base b ram = (Ok r, ram') -> net_bounded (snd r).
Proof.
  intros Hb E. destruct b as [rx tx cols rows|disk|srv|tag requests pending|mac inbox outbox];
    unfold service in E.
  - destruct (qi =? 0); [destruct rx|]; try (by injection E as <- _);
      apply bind_ok in E as (? & ? & _ & [= <- _]); done.
  - apply bind_ok in E as (? & ? & _ & [= <- _]); done.
  - apply bind_ok in E as (m & ? & _ & E). destruct (gather m ram_base chain) as [[|c req]|];
      try (by injection E as <- _). apply bind_ok in E as ([] & ? & _ & E).
    apply bind_ok in E as (? & ? & _ & [= <- _]); done.
  - apply bind_ok in E as (m & ? & _ & E). repeat case_match; by injection E as <- _.
  - destruct Hb as [Hi Ho]. destruct (qi =? 0).
    + apply bind_ok in E as (x & ? & Ex & [= <- _]). simpl. split; [|done].
      unfold net_rx in Ex. destruct inbox as [|f rest]; [by injection Ex as <- _|].
      apply mailbox_tail in Hi. destruct (_ <? _); [by injection Ex as <- _|].
      apply bind_ok in Ex as (? & ? & _ & [= <- _]). done.
    + apply bind_ok in E as (m & ? & _ & [= <- _]). simpl. split; [done|]. by apply net_tx_bounded.
Qed.

Lemma complete_backend qi head w (d : VirtioDev S) ram d' ram' :
  complete qi head w ram_base d ram = (Ok d', ram') -> d'.(backend) = d.(backend).
Proof. unfold complete. intros E. by apply bind_ok in E as ([] & ? & _ & [= <- _]). Qed.

Lemma process_loop_bounded fuel qi d ram d' ram' :
  net_bounded d.(backend) -> process_loop fuel qi ram_base d ram = (Ok (Some d'), ram') ->
  net_bounded d'.(backend).
Proof.
  revert d ram. induction fuel as [|fuel IH]; intros d ram Hb E; cbn [process_loop] in E; [done|].
  apply bind_ok in E as (ai & r1 & _ & E). destruct (_ =? ai); [by injection E as <- _|].
  apply bind_ok in E as (slot & r2 & _ & E). apply bind_ok in E as (head & r3 & _ & E).
  apply bind_ok in E as (m & r4 & _ & E). destruct (descriptor_chain _ head m ram_base) as [chain|].
  - apply bind_ok in E as (r & r5 & Es & E). pose proof (service_bounded _ _ _ _ _ _ _ Hb Es) as Hb'.
    destruct (fst r) as [w| |].
    + apply bind_ok in E as (d1 & r6 & Ec & E). eapply IH; [|exact E].
      by rewrite (complete_backend _ _ _ _ _ _ _ Ec).
    + by eapply IH; [|exact E].
    + by injection E as <- _.
  - apply bind_ok in E as (d1 & r6 & Ec & E). eapply IH; [|exact E].
    by rewrite (complete_backend _ _ _ _ _ _ _ Ec).
Qed.

Lemma write_bounded d off val : net_bounded d.(backend) -> net_bounded (snd (write d off val)).(backend).
Proof.
  intros Hb. unfold write, write_status. repeat case_match; simplify_eq/=; try done;
    by rewrite ?H1, ?H2 in *.
Qed.

Lemma react_bounded e d ram d' ram' :
  net_bounded d.(backend) -> react e (d, ram) = Some (d', ram') -> net_bounded d'.(backend).
Proof.
  intros Hb. destruct e as [frame| |off val|fuel qi]; simpl.
  - intros [= <- _]. unfold net_input. destruct d.(backend) as [| | | |mac inbox outbox] eqn:Eb;
      simpl; try by rewrite Eb. destruct (_ && _) eqn:E; simpl; [|by rewrite Eb].
    apply andb_true_iff in E as [?%Z.leb_le ?%Z.ltb_lt]. destruct Hb. split; [by apply mailbox_snoc|done].
  - intros [= <- _]. unfold net_take_output. destruct d.(backend) as [| | | |mac inbox outbox] eqn:Eb;
      simpl; try by rewrite Eb. destruct Hb. split; [done|]. split; [simpl; unfold NET_QUEUE_LIMIT; lia|constructor].
  - intros [= <- _]. by apply write_bounded.
  - unfold process. intros E. destruct (_ || _); [by simplify_eq/=|].
    destruct (process_loop fuel qi ram_base d ram) as [[[d1|]|e|] r1] eqn:Ep; simplify_eq.
    by eapply process_loop_bounded.
Qed.

Lemma reacts_bounded es d ram d' ram' :
  net_bounded d.(backend) -> reacts es (d, ram) = Some (d', ram') -> net_bounded d'.(backend).
Proof.
  revert d ram. induction es as [|e es IH]; intros d ram Hb E; cbn [reacts] in E; [by injection E as <- _|].
  destruct (react e (d, ram)) as [[d1 r1]|] eqn:Er; [|done]. eapply IH; [|exact E].
  by eapply react_bounded.
Qed.

(** Whatever the guest and the host do, the mailboxes of a network device
    hold at most 256 frames in each direction, none over 1600 bytes. *)
Theorem net_mailboxes_bounded es mac ram d ram' :
  reacts es (new (Net mac [] []), ram) = Some (d, ram') ->
  forall mac' inbox outbox, d.(backend) = Net mac' inbox outbox ->
  mailbox_ok inbox /\ mailbox_ok outbox.
Proof.
  intros E mac' inbox outbox Eb.
  enough (net_bounded d.(backend)) as Hb by (by rewrite Eb in Hb).
  eapply reacts_bounded; [|exact E]. split; (split; [simpl; unfold NET_QUEUE_LIMIT; lia|constructor]).
Qed.
End Mailboxes.

(** ** Witnesses *)

Section Witnesses.

(** Two chains on a ring of two: descriptors at 0, available ring at 64, used
    ring at 96, a 14-byte packet at 128. *)
Definition tx_memory : list Z :=
  to_le_bytes 8 (0x80000000 + 128) ++ to_le_bytes 4 14 ++ to_le_bytes 2 0 ++ to_le_bytes 2 0 ++
  to_le_bytes 8 (0x80000000 + 128) ++ to_le_bytes 4 13 ++ to_le_bytes 2 0 ++ to_le_bytes 2 0 ++
  replicate 32 0 ++
  to_le_bytes 2 0 ++ to_le_bytes 2 2 ++ to_le_bytes 2 1 ++ to_le_bytes 2 0 ++ replicate 24 0 ++
  replicate 32 0 ++ replicate 12 0 ++ [7; 9] ++ replicate 2 0.

Definition tx_device : VirtioDev unit :=
  set_queues [default_queue;
    mkQueue 1 2 0x80000000 (0x80000000 + 64) (0x80000000 + 96) 0] (new (Net [] [] [])).

Lemma tx_device_ready : tx_ready 0x80000000 tx_memory tx_device.
Proof.
  split; [done| |done|by exists [], [], []]. split; try done.
  - by exists 32768.
  - right. done.
  - apply (proj2 (Forall_forall _ _)). intros x Hx.
    assert (forallb (fun x => (0 <=? x) && (x <? 256)) tx_memory = true) as F by reflexivity.
    rewrite forallb_forall in F. apply F, andb_true_iff in Hx as [?%Z.leb_le ?%Z.ltb_lt]. done.
Qed.

Lemma net_tx_drains_witness :
  exists d' ram', process 3 1 0x80000000 tx_device tx_memory = (Ok (Some d'), ram') /\
    drained 0x80000000 tx_memory ram' tx_device d' 2 /\ (tx d').(last_avail_idx) = 2.
Proof.
  apply (net_tx_drains 0x80000000 ltac:(done) 3 tx_memory tx_device tx_device_ready);
    vm_compute; (discriminate || lia).
Defined.

Lemma net_mailboxes_bounded_witness :
  exists d, reacts 0x80000000 [EvNetInput [1; 2]; EvWrite 0x30 1; EvNetTake]
      (new (Net [] [] []) : VirtioDev unit, []) = Some (d, []) /\
    d.(backend) = Net [] [[1; 2]] [] /\ mailbox_ok [[1; 2]].
Proof.
  eexists. split; [reflexivity|]. split; [reflexivity|].
  exact (proj1 (net_mailboxes_bounded 0x80000000 [EvNetInput [1; 2]; EvWrite 0x30 1; EvNetTake]
    [] [] _ [] eq_refl [] [[1; 2]] [] eq_refl)).
Defined.
End Witnesses.
