(* ===== verification/Dtb.v ===== *)
(** * Flattened device trees (rv64-system: dtb.rs)

    The builder of the device-tree blob.  A [&str] is its list of UTF-8 bytes;
    [str] turns the literals of the source into one. *)

From Stdlib Require Import String Ascii.
From S2P Require Import Prelude Bus.

Fixpoint str (s : string) : list Z :=
  match s with
  | EmptyString => []
  | String c s => Z.of_N (N_of_ascii c) :: str s
  end.

(** [to_be_bytes]. *)
Definition to_be_bytes (n : nat) (v : Z) : list Z := rev (to_le_bytes n v).

Record Fdt : Type := mkFdt {
  struct_ : list Z;
  strings : list Z;
  names : list (list Z * Z)
}.

Definition FDT_BEGIN_NODE : Z := 1.
Definition FDT_END_NODE : Z := 2.
Definition FDT_PROP : Z := 3.
Definition FDT_END : Z := 9.

(** [Fdt::new]. *)
Definition Fdt_new : Fdt := mkFdt [] [] [].

Definition set_struct (l : list Z) (f : Fdt) : Fdt := mkFdt l f.(strings) f.(names).

(** [struct_.extend_from_slice(bytes)]. *)
Definition extend (bytes : list Z) (f : Fdt) : Fdt := set_struct (f.(struct_) ++ bytes) f.

(** [while !len.is_multiple_of(4) { push(0) }]. *)
Definition pad4 (l : list Z) : list Z := l ++ replicate (Z.to_nat ((- Z.of_nat (length l)) mod 4)) 0.

Definition fdt_u32 (v : Z) (f : Fdt) : Fdt := extend (to_be_bytes 4 v) f.

Definition name_offset (name : list Z) (f : Fdt) : Z * Fdt :=
  match find (fun n => bool_decide (fst n = name)) f.(names) with
  | Some (_, off) => (off, f)
  | None =>
      let off := u32 (Z.of_nat (length f.(strings))) in
      (off, mkFdt f.(struct_) (f.(strings) ++ name ++ [0]) (f.(names) ++ [(name, off)]))
  end.

Definition begin_node (name : list Z) (f : Fdt) : Fdt :=
  let f := extend [0] (extend name (fdt_u32 FDT_BEGIN_NODE f)) in
  set_struct (pad4 f.(struct_)) f.

Definition end_node (f : Fdt) : Fdt := fdt_u32 FDT_END_NODE f.

Definition prop (name data : list Z) (f : Fdt) : Fdt :=
  let '(off, f) := name_offset name f in
  let f := fdt_u32 FDT_PROP f in
  let f := fdt_u32 (u32 (Z.of_nat (length data))) f in
  let f := extend data (fdt_u32 off f) in
  set_struct (pad4 f.(struct_)) f.

Definition prop_u32 (name : list Z) (v : Z) : Fdt -> Fdt := prop name (to_be_bytes 4 v).
Definition prop_u32s (name : list Z) (vs : list Z) : Fdt -> Fdt :=
  prop name (concat (map (to_be_bytes 4) vs)).
Definition prop_u64_pair (name : list Z) (a b : Z) : Fdt -> Fdt :=
  prop name (to_be_bytes 8 a ++ to_be_bytes 8 b).
Definition prop_str (name s : list Z) : Fdt -> Fdt := prop name (s ++ [0]).
Definition prop_strs (name : list Z) (ss : list (list Z)) : Fdt -> Fdt :=
  prop name (concat (map (fun s => s ++ [0]) ss)).

Definition finish (f : Fdt) : list Z :=
  let f := fdt_u32 FDT_END f in
  let header_len := 40 in
  let rsvmap_len := 16 in
  let off_struct := header_len + rsvmap_len in
  let off_strings := off_struct + Z.of_nat (length f.(struct_)) in
  let total := off_strings + Z.of_nat (length f.(strings)) in
  concat (map (to_be_bytes 4)
    [0xd00dfeed; u32 total; u32 off_struct; u32 off_strings; header_len; 17; 16; 0;
     u32 (Z.of_nat (length f.(strings))); u32 (Z.of_nat (length f.(struct_)))])
  ++ replicate 16 0 ++ f.(struct_) ++ f.(strings).
