(* ===== verification/DtbSpec.v ===== *)
(** * The device-tree blob round trip (Dtb.v)

    An abstract tree, the calls that build it, a reference decoder of version
    17 blobs, and the proof that decoding what was built gives the tree. *)

From S2P Require Import Prelude Bus Slices Dtb.

(** ** Trees and their construction *)

(** A node with its properties, its children and its next siblings. *)
Inductive forest : Type :=
| Leaf
| Node (name : list Z) (props : list (list Z * list Z)) (children siblings : forest).

(** A name is a string without a terminator; a value has a 32-bit size. *)
Definition name_ok (name : list Z) : Prop := Forall (fun b => b <> 0) name.
Definition prop_ok (p : list Z * list Z) : Prop := name_ok p.1 /\ Z.of_nat (length p.2) < 2 ^ 32.

Fixpoint forest_ok (t : forest) : Prop :=
  match t with
  | Leaf => True
  | Node name props children siblings =>
      name_ok name /\ Forall prop_ok props /\ forest_ok children /\ forest_ok siblings
  end.

Definition emit_props (props : list (list Z * list Z)) (f : Fdt) : Fdt :=
  foldl (fun f p => prop p.1 p.2 f) f props.

Fixpoint emit (t : forest) (f : Fdt) : Fdt :=
  match t with
  | Leaf => f
  | Node name props children siblings =>
      emit siblings (end_node (emit children (emit_props props (begin_node name f))))
  end.

(** ** The reference decoder *)

Definition be32 (bytes : list Z) : Z := from_le_bytes (rev (take 4 bytes)).

(** A string up to its terminator, and what follows. *)
Fixpoint read_string (bytes : list Z) : option (list Z * list Z) :=
  match bytes with
  | [] => None
  | b :: bytes =>
      if b =? 0 then Some ([], bytes)
      else '(s, rest) ← read_string bytes; Some (b :: s, rest)
  end.

Definition padding (n : Z) : nat := Z.to_nat ((- n) mod 4).

(** Properties, until another token. *)
Fixpoint parse_props (fuel : nat) (strs bytes : list Z) : option (list (list Z * list Z) * list Z) :=
  match fuel with
  | O => None
  | S fuel =>
      if be32 bytes =? FDT_PROP then
        let len := be32 (drop 4 bytes) in
        let body := drop 12 bytes in
        name ← fst <$> read_string (drop (Z.to_nat (be32 (drop 8 bytes))) strs);
        '(props, rest) ← parse_props fuel strs (drop (Z.to_nat len + padding len) body);
        Some ((name, take (Z.to_nat len) body) :: props, rest)
      else Some ([], bytes)
  end.

(** The inside of a node after its begin token; [nodes] decodes children. *)
Definition parse_body (nodes : list Z -> option (forest * list Z)) (fuel : nat) (strs bytes : list Z)
    : option (list Z * list (list Z * list Z) * forest * list Z) :=
  '(name, rest) ← read_string (drop 4 bytes);
  '(props, rest) ← parse_props fuel strs (drop (padding (Z.of_nat (length name) + 1)) rest);
  '(children, rest) ← nodes rest;
  Some (name, props, children, rest).

(** Nodes, until the end of their parent. *)
Fixpoint parse_nodes (fuel : nat) (strs bytes : list Z) : option (forest * list Z) :=
  match fuel with
  | O => None
  | S fuel =>
      if be32 bytes =? FDT_BEGIN_NODE then
        '(name, props, children, rest) ← parse_body (parse_nodes fuel strs) fuel strs bytes;
        '(siblings, rest) ← parse_nodes fuel strs rest;
        Some (Node name props children siblings, rest)
      else if be32 bytes =? FDT_END_NODE then Some (Leaf, drop 4 bytes)
      else None
  end.

(** A blob: the header's magic, size and offsets, one root node, the end
    token. *)
Definition parse_dtb (fuel : nat) (blob : list Z) : option forest :=
  if negb (be32 blob =? 0xd00dfeed) || negb (be32 (drop 4 blob) =? Z.of_nat (length blob)) then None else
  let strs := drop (Z.to_nat (be32 (drop 12 blob))) blob in
  let body := take (Z.to_nat (be32 (drop 36 blob))) (drop (Z.to_nat (be32 (drop 8 blob))) blob) in
  if negb (be32 body =? FDT_BEGIN_NODE) then None else
  '(name, props, children, rest) ← parse_body (parse_nodes fuel strs) fuel strs body;
  if be32 rest =? FDT_END then Some (Node name props children Leaf) else None.

(** ** Words and strings *)

Lemma length_to_be n v : length (to_be_bytes n v) = n.
Proof. unfold to_be_bytes. by rewrite length_rev, length_to_le_bytes. Qed.

Lemma be32_app v rest : uint 32 v -> be32 (to_be_bytes 4 v ++ rest) = v.
Proof.
  intros Hv. unfold be32. rewrite take_app_length' by (by rewrite length_to_be).
  unfold to_be_bytes. rewrite rev_involutive, from_to_le_bytes. by apply wrap_small.
Qed.

Lemma drop_be v rest : drop 4 (to_be_bytes 4 v ++ rest) = rest.
Proof. apply drop_app_length'. by rewrite length_to_be. Qed.

Lemma drop_be2 a b rest : drop 8 (to_be_bytes 4 a ++ to_be_bytes 4 b ++ rest) = rest.
Proof. rewrite app_assoc. apply drop_app_length'. by rewrite length_app, !length_to_be. Qed.

Lemma drop_be3 a b c rest :
  drop 12 (to_be_bytes 4 a ++ to_be_bytes 4 b ++ to_be_bytes 4 c ++ rest) = rest.
Proof. rewrite !app_assoc. apply drop_app_length'. by rewrite !length_app, !length_to_be. Qed.

Lemma read_string_app name rest :
  name_ok name -> read_string (name ++ 0 :: rest) = Some (name, rest).
Proof.
  induction 1 as [|b name Hb _ IH]; simpl; [done|]. destruct (Z.eqb_spec b 0); [done|].
  by rewrite IH.
Qed.

Lemma read_string_holds strs off name :
  name_ok name -> holds strs off (name ++ [0]) ->
  fst <$> read_string (drop (Z.to_nat off) strs) = Some name.
Proof.
  intros Hn Hh. pose proof (slice_holds _ _ _ Hh) as E. destruct Hh as (H0 & H1 & _).
  rewrite slice_ok in E by lia. injection E as E.
  replace (off + Z.of_nat (length (name ++ [0])) - off) with (Z.of_nat (length (name ++ [0]))) in E by lia.
  rewrite Nat2Z.id in E.
  rewrite <- (take_drop (length (name ++ [0])) (drop (Z.to_nat off) strs)), E, <- app_assoc. simpl.
  by rewrite read_string_app.
Qed.

Lemma holds_prefix s t a bs : holds s a bs -> holds (s ++ t) a bs.
Proof.
  intros (H0 & H1 & H2). split; [done|]. split; [rewrite length_app; lia|].
  intros i x Hx. apply lookup_app_l_Some. by apply H2.
Qed.

Lemma holds_end s bs : holds (s ++ bs) (Z.of_nat (length s)) bs.
Proof.
  split; [lia|]. split; [rewrite length_app; lia|]. intros i x Hx. rewrite Nat2Z.id.
  rewrite lookup_app_r by lia. rewrite <- Hx. f_equal. lia.
Qed.

#[local] Opaque to_be_bytes.

(** ** What each call appends *)

Definition aligned (l : list Z) : Prop := Z.of_nat (length l) mod 4 = 0.

Lemma aligned_app l m : aligned l -> aligned m -> aligned (l ++ m).
Proof. unfold aligned. rewrite length_app, Nat2Z.inj_add. intros. zlia. Qed.

Lemma aligned_be v : aligned (to_be_bytes 4 v).
Proof. unfold aligned. by rewrite length_to_be. Qed.

Lemma aligned_pad l : aligned (l ++ replicate (padding (Z.of_nat (length l))) 0).
Proof. unfold aligned, padding. rewrite length_app, length_replicate. zlia. Qed.

(** Padding after an aligned part is that of the rest. *)
Lemma pad4_app l m : aligned l -> pad4 (l ++ m) = l ++ m ++ replicate (padding (Z.of_nat (length m))) 0.
Proof.
  unfold aligned, pad4, padding. intros Hl. rewrite length_app, Nat2Z.inj_add, <- app_assoc.
  do 4 f_equal. zlia.
Qed.

Ltac aligned :=
  repeat first [assumption | simple apply aligned_be | simple apply aligned_pad | simple apply aligned_app].

(** The name table: every entry is where its offset says. *)
Definition names_ok (f : Fdt) : Prop :=
  Forall (fun n => uint 32 n.2 /\ holds f.(strings) n.2 (n.1 ++ [0])) f.(names).

(** [f'] extends [f] by the aligned bytes [bs]. *)
Record extends (f f' : Fdt) (bs : list Z) : Prop := {
  ex_struct : f'.(struct_) = f.(struct_) ++ bs;
  ex_aligned : aligned bs;
  ex_strings : exists s, f'.(strings) = f.(strings) ++ s;
  ex_names : names_ok f -> Z.of_nat (length f'.(strings)) < 2 ^ 32 -> names_ok f'
}.

Lemma strings_grow f f' bs : extends f f' bs -> (length f.(strings) <= length f'.(strings))%nat.
Proof. intros He. destruct (ex_strings _ _ _ He) as [s ->]. rewrite length_app. lia. Qed.

Lemma extends_trans f1 f2 f3 b1 b2 : extends f1 f2 b1 -> extends f2 f3 b2 -> extends f1 f3 (b1 ++ b2).
Proof.
  intros H1 H2. pose proof (strings_grow _ _ _ H2) as Hg.
  destruct H1 as [E1 A1 [s1 S1] N1], H2 as [E2 A2 [s2 S2] N2]. split.
  - by rewrite E2, E1, app_assoc.
  - by apply aligned_app.
  - exists (s1 ++ s2). by rewrite S2, S1, app_assoc.
  - intros Hn Hl. apply N2; [|done]. apply N1; [done|lia].
Qed.

Lemma extends_u32 v f : extends f (fdt_u32 v f) (to_be_bytes 4 v).
Proof. split; [done|apply aligned_be|exists []; by rewrite app_nil_r|done]. Qed.

Lemma extends_begin name f :
  aligned f.(struct_) ->
  extends f (begin_node name f)
    (to_be_bytes 4 FDT_BEGIN_NODE ++ (name ++ [0]) ++ replicate (padding (Z.of_nat (length name) + 1)) 0).
Proof.
  intros Ha. pose proof (aligned_be FDT_BEGIN_NODE) as Hb. split.
  - unfold begin_node. cbn [extend set_struct struct_ fdt_u32].
    rewrite <- (app_assoc _ name [0]), pad4_app by (by apply aligned_app).
    rewrite (length_app name), Nat2Z.inj_add. by rewrite <- !app_assoc.
  - apply aligned_app; [done|].
    pose proof (aligned_pad (name ++ [0])) as Hp. by rewrite (length_app name), Nat2Z.inj_add in Hp.
  - exists []. by rewrite app_nil_r.
  - done.
Qed.

Lemma name_offset_ok name f :
  let '(off, f') := name_offset name f in
  extends f f' [] /\
  (names_ok f -> Z.of_nat (length f'.(strings)) < 2 ^ 32 ->
   uint 32 off /\ holds f'.(strings) off (name ++ [0])).
Proof.
  unfold name_offset. destruct (find _ (names f)) as [[n off]|] eqn:E.
  - apply find_some in E as [Hin Hn%bool_decide_eq_true]. simpl in Hn. subst n. split.
    + split; [by rewrite app_nil_r|done|exists []; by rewrite app_nil_r|done].
    + intros Hok _. eapply Forall_forall in Hok; [|exact Hin]. done.
  - set (off := Z.of_nat (length (strings f))).
    assert (forall s, Z.of_nat (length (strings f ++ s)) < 2 ^ 32 ->
      u32 off = off /\ uint 32 off) as Hoff.
    { intros s Hl. rewrite length_app in Hl. unfold off.
      assert (uint 32 (Z.of_nat (length (strings f)))) by (unfold uint; lia).
      split; [by apply (wrap_small 32)|done]. }
    split.
    + split; [by rewrite app_nil_r|done|by eexists|]. intros Hok Hl. simpl in Hl.
      destruct (Hoff _ Hl) as [-> Hu]. unfold names_ok. simpl. apply Forall_app. split.
      * eapply Forall_impl; [|exact Hok]. intros [n o] [? ?]. split; [done|by apply holds_prefix].
      * constructor; [|constructor]. split; [done|]. apply holds_end.
    + intros _ Hl. simpl in Hl. destruct (Hoff _ Hl) as [-> Hu]. split; [done|]. apply holds_end.
Qed.

(** The bytes of a property at a name offset. *)
Definition prop_bytes (off : Z) (data : list Z) : list Z :=
  to_be_bytes 4 FDT_PROP ++ to_be_bytes 4 (Z.of_nat (length data)) ++ to_be_bytes 4 off ++ data
  ++ replicate (padding (Z.of_nat (length data))) 0.

Lemma prop_emits name data f :
  aligned f.(struct_) -> Z.of_nat (length data) < 2 ^ 32 ->
  exists off, extends f (prop name data f) (prop_bytes off data) /\
    (names_ok f -> Z.of_nat (length (prop name data f).(strings)) < 2 ^ 32 ->
     uint 32 off /\ holds (prop name data f).(strings) off (name ++ [0])).
Proof.
  intros Ha Hd. unfold prop. pose proof (name_offset_ok name f) as Hn.
  destruct (name_offset name f) as [off f1]. destruct Hn as [[E1 _ S1 N1] Hoff].
  rewrite app_nil_r in E1. exists off. split; [|exact Hoff]. split; [| |exact S1|exact N1].
  - cbn [set_struct struct_ extend fdt_u32]. rewrite E1.
    unfold u32. rewrite (wrap_small 32 (Z.of_nat (length data))) by (unfold uint; lia).
    rewrite pad4_app by aligned.
    unfold prop_bytes. by rewrite <- !app_assoc.
  - unfold prop_bytes. aligned.
Qed.

(** ** Decoding what was appended *)

Lemma holds_extends f f' bs (P : list Z -> Prop) :
  extends f f' bs -> (forall s, P (f.(strings)) -> P (f.(strings) ++ s)) -> P f.(strings) -> P f'.(strings).
Proof. intros He HP. destruct (ex_strings _ _ _ He) as [s ->]. auto. Qed.

Lemma parse_prop fuel strs off name data rest :
  uint 32 off -> name_ok name -> holds strs off (name ++ [0]) -> Z.of_nat (length data) < 2 ^ 32 ->
  parse_props (S fuel) strs (prop_bytes off data ++ rest)
  = '(props, rest) ← parse_props fuel strs rest; Some ((name, data) :: props, rest).
Proof.
  intros Ho Hn Hh Hd. unfold prop_bytes. rewrite <- !app_assoc.
  set (tail := data ++ _). cbn [parse_props].
  rewrite be32_app by done. rewrite Z.eqb_refl. rewrite drop_be, be32_app by (unfold uint; lia).
  rewrite !drop_be3, drop_be2, be32_app by done.
  rewrite (read_string_holds _ _ _ Hn Hh). simpl. rewrite Nat2Z.id.
  subst tail. rewrite <- drop_drop, drop_app_length, drop_app_length' by (by rewrite length_replicate).
  by rewrite take_app_length.
Qed.

(** Properties of one node. *)
Lemma emit_props_ok props f :
  Forall prop_ok props -> aligned f.(struct_) ->
  exists bs, extends f (emit_props props f) bs /\
    (names_ok f -> Z.of_nat (length (emit_props props f).(strings)) < 2 ^ 32 ->
     forall s rest fuel, (length props < fuel)%nat -> be32 rest <> FDT_PROP ->
     parse_props fuel ((emit_props props f).(strings) ++ s) (bs ++ rest) = Some (props, rest)).
Proof.
  intros HF. revert f. induction HF as [|[name data] props [Hn Hd] HF IH]; intros f Ha.
  - exists []. split; [split; [by rewrite app_nil_r|done|exists []; by rewrite app_nil_r|done]|].
    intros _ _ s rest fuel Hf Hr. destruct fuel; [simpl in Hf; lia|]. simpl.
    by destruct (Z.eqb_spec (be32 rest) FDT_PROP).
  - simpl in Hn, Hd. destruct (prop_emits name data f Ha Hd) as (off & E1 & Hoff).
    destruct (IH (prop name data f)) as (bs & E2 & Hp).
    { rewrite (ex_struct _ _ _ E1). apply aligned_app; [done|apply E1]. }
    exists (prop_bytes off data ++ bs). split; [by eapply extends_trans|].
    intros Hok Hl s rest fuel Hf Hr. cbn [emit_props foldl fst snd] in *.
    change (foldl _ (prop name data f) props) with (emit_props props (prop name data f)) in *.
    pose proof (strings_grow _ _ _ E2). destruct Hoff as [Hu Hh]; [done|lia|].
    destruct fuel; [simpl in Hf; lia|]. rewrite <- app_assoc, (parse_prop fuel _ off name data); try done.
    + rewrite Hp; [done|apply E1; [done|lia]|done|simpl in Hf; lia|done].
    + apply holds_prefix. destruct (ex_strings _ _ _ E2) as [s2 ->]. by apply holds_prefix.
Qed.

Fixpoint size (t : forest) : nat :=
  match t with
  | Leaf => 1
  | Node _ props children siblings => S (length props + size children + size siblings)
  end.

Lemma size_pos t : (1 <= size t)%nat.
Proof. destruct t; simpl; lia. Qed.

(** The first token of a forest followed by the end of its parent. *)
Definition opens (t : forest) : Z := match t with Leaf => FDT_END_NODE | Node _ _ _ _ => FDT_BEGIN_NODE end.

(** What [emit] does for a forest: the statement proved by induction. *)
Definition emits (t : forest) (f : Fdt) (bs : list Z) : Prop :=
  extends f (emit t f) bs /\
  (forall rest, be32 (bs ++ to_be_bytes 4 FDT_END_NODE ++ rest) = opens t) /\
  (names_ok f -> Z.of_nat (length (emit t f).(strings)) < 2 ^ 32 ->
   forall s rest fuel, (size t <= fuel)%nat ->
   parse_nodes fuel ((emit t f).(strings) ++ s) (bs ++ to_be_bytes 4 FDT_END_NODE ++ rest)
   = Some (t, rest)).

Lemma extends_aligned f f' bs : aligned (struct_ f) -> extends f f' bs -> aligned (struct_ f').
Proof. intros Hg He. rewrite (ex_struct _ _ _ He). apply aligned_app; [done|apply He]. Qed.

(** One node, without its siblings. *)
Definition emit_node (name : list Z) (props : list (list Z * list Z)) (ch : forest) (f : Fdt) : Fdt :=
  end_node (emit ch (emit_props props (begin_node name f))).

Lemma emit_node_ok name props ch f :
  name_ok name -> Forall prop_ok props -> aligned f.(struct_) ->
  (forall f, aligned f.(struct_) -> exists bs, emits ch f bs) ->
  exists bs, extends f (emit_node name props ch f) bs /\
    (forall rest, be32 (bs ++ rest) = FDT_BEGIN_NODE) /\
    (names_ok f -> Z.of_nat (length (emit_node name props ch f).(strings)) < 2 ^ 32 ->
     forall s rest fuel, (length props + size ch <= fuel)%nat ->
     let strs := (emit_node name props ch f).(strings) ++ s in
     parse_body (parse_nodes fuel strs) fuel strs (bs ++ rest) = Some (name, props, ch, rest)).
Proof.
  intros Hn Hp Ha IHc. pose proof (extends_begin name f Ha) as E1. unfold emit_node.
  set (f1 := begin_node name f) in *. set (b1 := to_be_bytes 4 FDT_BEGIN_NODE ++ _) in E1.
  destruct (emit_props_ok props f1 Hp (extends_aligned _ _ _ Ha E1)) as (b2 & E2 & P2).
  set (f2 := emit_props props f1) in *.
  destruct (IHc f2 (extends_aligned _ _ _ (extends_aligned _ _ _ Ha E1) E2)) as (b3 & E3 & O3 & P3).
  set (f3 := emit ch f2) in *. pose proof (extends_u32 FDT_END_NODE f3) as E4. fold (end_node f3) in E4.
  pose proof (extends_trans _ _ _ _ _ E2 (extends_trans _ _ _ _ _ E3 E4)) as E234.
  exists (b1 ++ b2 ++ b3 ++ to_be_bytes 4 FDT_END_NODE). split; [by eapply extends_trans|]. split.
  { intros rest. subst b1. rewrite <- !app_assoc. by rewrite be32_app. }
  intros Hok Hl s rest fuel Hf. change (strings (end_node f3)) with (strings f3) in *.
  pose proof (strings_grow _ _ _ E3). pose proof (strings_grow _ _ _ E2).
  assert (names_ok f1) as N1 by (apply E1; [done|fold f1; lia]).
  assert (names_ok f2) as N2 by (apply E2; [done|lia]).
  destruct (ex_strings _ _ _ E3) as [s3 S3]. pose proof (size_pos ch).
  unfold parse_body. subst b1. rewrite <- !app_assoc. rewrite drop_be.
  change ([0] ++ ?x) with (0 :: x). rewrite read_string_app by done. simpl.
  rewrite drop_app_length' by (by rewrite length_replicate).
  rewrite S3 at 1. rewrite <- (app_assoc (strings f2)), P2; [|done|lia|lia|rewrite O3; by destruct ch].
  simpl. by rewrite P3 by (done || lia).
Qed.

Lemma emit_ok t : forall f, forest_ok t -> aligned f.(struct_) -> exists bs, emits t f bs.
Proof.
  induction t as [|name props ch IHc sib IHs]; intros f Hok Ha.
  - exists []. split; [split; [by rewrite app_nil_r|done|exists []; by rewrite app_nil_r|done]|].
    split; [intros; by rewrite app_nil_l, be32_app|]. intros _ _ s rest fuel Hf.
    destruct fuel; [simpl in Hf; lia|]. cbn [parse_nodes].
    by rewrite !app_nil_l, be32_app, drop_be.
  - destruct Hok as (Hn & Hp & Hc & Hs).
    destruct (emit_node_ok name props ch f Hn Hp Ha) as (b1 & E1 & O1 & P1); [by intros; apply IHc|].
    set (f1 := emit_node name props ch f) in *.
    destruct (IHs f1 Hs (extends_aligned _ _ _ Ha E1)) as (b2 & E2 & O2 & P2).
    exists (b1 ++ b2). split; [by eapply extends_trans|]. split.
    { intros rest. by rewrite <- app_assoc, O1. }
    cbn [emit]. change (end_node _) with f1. intros Hok Hl s rest fuel Hf.
    pose proof (strings_grow _ _ _ E2).
    assert (names_ok f1) as N1 by (apply E1; [done|fold f1; lia]).
    destruct (ex_strings _ _ _ E2) as [s2 S2]. pose proof (size_pos sib).
    destruct fuel as [|fuel]; [simpl in Hf; lia|]. simpl in Hf.
    rewrite <- app_assoc. cbn [parse_nodes]. rewrite O1, Z.eqb_refl.
    rewrite S2 at 1 2. rewrite <- (app_assoc (strings f1)), P1 by (done || lia). simpl.
    by rewrite P2 by (done || lia).
Qed.

(** ** The round trip *)

Lemma length_words l : length (concat (map (to_be_bytes 4) l)) = (4 * length l)%nat.
Proof. induction l; simpl; [done|]. rewrite length_app, length_to_be. lia. Qed.

(** Word [k] of a block of words. *)
Lemma be32_word k l v rest :
  l !! k = Some v -> uint 32 v ->
  be32 (drop (4 * k) (concat (map (to_be_bytes 4) l) ++ rest)) = v.
Proof.
  intros Hk Hv. rewrite <- (take_drop_middle l k v Hk), map_app, concat_app, <- app_assoc.
  rewrite drop_app_length' by (rewrite length_words, length_take; apply lookup_lt_Some in Hk; lia).
  cbn [map concat]. rewrite <- app_assoc. by apply be32_app.
Qed.

(** The blob built for a tree is a well-formed version-17 device tree that
    a reference decoder reads back as that tree: nesting, names, order and
    every byte of every property. *)
Theorem dtb_round_trip name props ch fuel :
  let t := Node name props ch Leaf in
  let blob := finish (emit t Fdt_new) in
  forest_ok t -> Z.of_nat (length blob) < 2 ^ 32 -> (size t <= fuel)%nat ->
  parse_dtb fuel blob = Some t.
Proof.
  intros t blob (Hn & Hp & Hc & _) Hlen Hf.
  destruct (emit_node_ok name props ch Fdt_new Hn Hp) as (bs & E & O & P);
    [done|by intros; apply emit_ok|].
  subst t. cbn [emit] in blob. change (end_node _) with (emit_node name props ch Fdt_new) in blob.
  set (f := emit_node name props ch Fdt_new) in *. pose proof (ex_struct _ _ _ E) as Es.
  change (struct_ Fdt_new ++ bs) with bs in Es.
  unfold finish in blob. cbn [fdt_u32 extend set_struct struct_ strings] in blob.
  set (body := struct_ f ++ to_be_bytes 4 FDT_END) in blob.
  set (words := [_; _; _; _; _; _; _; _; _; _]) in blob.
  assert (length words = 10%nat) as Hw by done.
  assert (Z.of_nat (length blob) = 56 + Z.of_nat (length body) + Z.of_nat (length (strings f))) as Hb.
  { unfold blob. rewrite !length_app, length_words, length_replicate, Hw. lia. }
  assert (forall x, 0 <= x <= Z.of_nat (length blob) -> u32 x = x /\ uint 32 x) as Hu.
  { intros x Hx. assert (uint 32 x) by (unfold uint; lia). split; [by apply (wrap_small 32)|done]. }
  assert (forall k v, words !! k = Some v -> uint 32 v -> be32 (drop (4 * k) blob) = v) as Hword
    by (intros; by apply be32_word).
  unfold parse_dtb.
  rewrite (Hword 0%nat 0xd00dfeed eq_refl ltac:(done) : be32 blob = _).
  destruct (Hu (56 + Z.of_nat (length body) + Z.of_nat (length (strings f)))) as [U1 V1]; [lia|].
  destruct (Hu (56 + Z.of_nat (length body))) as [U2 V2]; [lia|].
  destruct (Hu (Z.of_nat (length body))) as [U3 V3]; [lia|].
  rewrite (Hword 1%nat _ (f_equal Some U1) V1 : be32 (drop 4 blob) = _).
  rewrite (Hword 2%nat 56 eq_refl ltac:(done) : be32 (drop 8 blob) = _).
  rewrite (Hword 3%nat _ (f_equal Some U2) V2 : be32 (drop 12 blob) = _).
  rewrite (Hword 9%nat _ (f_equal Some U3) V3 : be32 (drop 36 blob) = _).
  rewrite <- Hb, !Z.eqb_refl. cbn [negb orb].
  assert (drop (Z.to_nat 56) blob = body ++ strings f) as ->.
  { unfold blob. rewrite app_assoc. apply drop_app_length'.
    by rewrite length_app, length_words, length_replicate, Hw. }
  assert (drop (Z.to_nat (56 + Z.of_nat (length body))) blob = strings f) as ->.
  { unfold blob. rewrite !app_assoc. apply drop_app_length'.
    rewrite !length_app, length_words, length_replicate, Hw. lia. }
  rewrite Nat2Z.id, take_app_length. subst body. rewrite Es, O, Z.eqb_refl.
  simpl in Hf. rewrite <- (app_nil_r (strings f)).
  rewrite P by (try done; lia || (unfold names_ok; constructor)). simpl.
  by rewrite <- (app_nil_r (to_be_bytes 4 FDT_END)), be32_app.
Qed.

Lemma dtb_round_trip_witness :
  let t := Node [] [([1], [2; 3]); ([4; 5], [])] (Node [6] [([1], [7])] Leaf (Node [8] [] Leaf Leaf)) Leaf in
  parse_dtb 20 (finish (emit t Fdt_new)) = Some t.
Proof.
  apply (dtb_round_trip [] [([1], [2; 3]); ([4; 5], [])] (Node [6] [([1], [7])] Leaf (Node [8] [] Leaf Leaf)) 20).
  - repeat constructor; done.
  - vm_compute. reflexivity.
  - simpl. lia.
Defined.
