(* ===== verification/Virt.v ===== *)
(** * The virt machine (rv64-system: virt.rs)

    The bus of the QEMU-like board (memory, CLINT, PLIC, UART, real-time clock,
    virtio devices, test finisher, and the pages generated code was compiled
    from) as an instance of the hart's memory interface; the board's device
    tree; and the machine: boot, the timer, the host's SBI and the execution
    slices.  The loops of the slices take fuel and return [None] when it does
    not reach their end; a queue that keeps a device busy for [PROCESS_FUEL]
    chains counts as a panic. *)

From Stdlib Require Import String.
From stdpp Require Import gmap.
From S2P Require Import Prelude Exception Csr State Bus Slices Mmu Trap CsrOps Vector Exec Step T0 Run.
From S2P Require Import Devices Virtio Dtb.

Definition RAM_BASE : Z := 0x80000000.
Definition TEST_BASE : Z := 0x00100000.
Definition CLINT_BASE : Z := 0x02000000.
Definition CLINT_SIZE : Z := 0x10000.
Definition PLIC_BASE : Z := 0x0c000000.
Definition PLIC_SIZE : Z := 0x04000000.
Definition UART_BASE : Z := 0x10000000.
Definition UART_SIZE : Z := 0x100.
Definition GOLDFISH_RTC_BASE : Z := 0x00101000.
Definition GOLDFISH_RTC_SIZE : Z := 0x1000.
Definition VIRTIO_BASE : Z := 0x10001000.
Definition VIRTIO_SIZE : Z := 0x1000.
Definition VIRTIO_COUNT : Z := 8.
Definition RTC_FREQ : Z := 10000000.
Definition KERNEL_OFFSET : Z := 0x200000.
Definition UART_IRQ : Z := 10.
Definition GOLDFISH_RTC_IRQ : Z := 11.
Definition VIRTIO_IRQ_BASE : Z := 1.

Definition PROCESS_FUEL : nat := Z.to_nat 65536.

(** ** The bus *)

Module VirtBus.
Section VirtBus.
Context {S : Type} `{P9Server S}.

(** [ram_ptr] is the host address of the memory's allocation. *)
Record t : Type := mk {
  ram : list Z;
  ram_ptr : Z;
  mtime : Z;
  mtimecmp : Z;
  msip : bool;
  rtc : Rtc.t;
  plic : Plic.t;
  uart : Uart.t;
  virtio : list (VirtioDev S);
  power_off : bool;
  direct_sbi : bool;
  jit_pages : list Z;
  jit_dirty_pages : list Z
}.

Definition set_ram (v : list Z) (b : t) : t :=
  mk v b.(ram_ptr) b.(mtime) b.(mtimecmp) b.(msip) b.(rtc) b.(plic) b.(uart) b.(virtio)
    b.(power_off) b.(direct_sbi) b.(jit_pages) b.(jit_dirty_pages).
Definition set_mtime (v : Z) (b : t) : t :=
  mk b.(ram) b.(ram_ptr) v b.(mtimecmp) b.(msip) b.(rtc) b.(plic) b.(uart) b.(virtio)
    b.(power_off) b.(direct_sbi) b.(jit_pages) b.(jit_dirty_pages).
Definition set_mtimecmp (v : Z) (b : t) : t :=
  mk b.(ram) b.(ram_ptr) b.(mtime) v b.(msip) b.(rtc) b.(plic) b.(uart) b.(virtio)
    b.(power_off) b.(direct_sbi) b.(jit_pages) b.(jit_dirty_pages).
Definition set_msip (v : bool) (b : t) : t :=
  mk b.(ram) b.(ram_ptr) b.(mtime) b.(mtimecmp) v b.(rtc) b.(plic) b.(uart) b.(virtio)
    b.(power_off) b.(direct_sbi) b.(jit_pages) b.(jit_dirty_pages).
Definition set_rtc (v : Rtc.t) (b : t) : t :=
  mk b.(ram) b.(ram_ptr) b.(mtime) b.(mtimecmp) b.(msip) v b.(plic) b.(uart) b.(virtio)
    b.(power_off) b.(direct_sbi) b.(jit_pages) b.(jit_dirty_pages).
Definition set_plic (v : Plic.t) (b : t) : t :=
  mk b.(ram) b.(ram_ptr) b.(mtime) b.(mtimecmp) b.(msip) b.(rtc) v b.(uart) b.(virtio)
    b.(power_off) b.(direct_sbi) b.(jit_pages) b.(jit_dirty_pages).
Definition set_uart (v : Uart.t) (b : t) : t :=
  mk b.(ram) b.(ram_ptr) b.(mtime) b.(mtimecmp) b.(msip) b.(rtc) b.(plic) v b.(virtio)
    b.(power_off) b.(direct_sbi) b.(jit_pages) b.(jit_dirty_pages).
Definition set_virtio (v : list (VirtioDev S)) (b : t) : t :=
  mk b.(ram) b.(ram_ptr) b.(mtime) b.(mtimecmp) b.(msip) b.(rtc) b.(plic) b.(uart) v
    b.(power_off) b.(direct_sbi) b.(jit_pages) b.(jit_dirty_pages).
Definition set_power_off (v : bool) (b : t) : t :=
  mk b.(ram) b.(ram_ptr) b.(mtime) b.(mtimecmp) b.(msip) b.(rtc) b.(plic) b.(uart) b.(virtio)
    v b.(direct_sbi) b.(jit_pages) b.(jit_dirty_pages).
Definition set_jit_pages (v : list Z) (b : t) : t :=
  mk b.(ram) b.(ram_ptr) b.(mtime) b.(mtimecmp) b.(msip) b.(rtc) b.(plic) b.(uart) b.(virtio)
    b.(power_off) b.(direct_sbi) v b.(jit_dirty_pages).
Definition set_jit_dirty_pages (v : list Z) (b : t) : t :=
  mk b.(ram) b.(ram_ptr) b.(mtime) b.(mtimecmp) b.(msip) b.(rtc) b.(plic) b.(uart) b.(virtio)
    b.(power_off) b.(direct_sbi) b.(jit_pages) v.

(** Pending bits from the device lines. *)
Definition lines (b : t) : Z :=
  let p := if Uart.irq b.(uart) then 0 .| (1 .<< UART_IRQ) else 0 in
  let p := if Rtc.irq b.(rtc) then p .| (1 .<< GOLDFISH_RTC_IRQ) else p in
  snd (foldl (fun '(i, p) d =>
    (i + 1, if irq_pending d then p .| (1 .<< (VIRTIO_IRQ_BASE + i)) else p)) (0, p) b.(virtio)).

Definition refresh_plic (b : t) : t := set_plic (Plic.set_pending (lines b) b.(plic)) b.

Definition uart_take (b : t) : list Z * t :=
  let '(out, u) := Uart.take_output b.(uart) in (out, set_uart u b).
Definition uart_input (bytes : list Z) (b : t) : t := set_uart (Uart.input bytes b.(uart)) b.

(** *** Pages generated code was compiled from *)

Definition page_of (pa : Z) : Z := (pa - RAM_BASE) .>> 12.

Definition jit_mark_page (pa : Z) (b : t) : t :=
  if RAM_BASE <=? pa then
    let page := page_of pa in
    match b.(jit_pages) !! Z.to_nat (page / 64) with
    | Some w => set_jit_pages (aset b.(jit_pages) (page / 64) (w .| (1 .<< (page mod 64)))) b
    | None => b
    end
  else b.

Definition jit_page_marked (b : t) (page : Z) : bool :=
  match b.(jit_pages) !! Z.to_nat (page / 64) with
  | Some word => negb ((word .& (1 .<< (page mod 64))) =? 0)
  | None => false
  end.

Definition jit_unmark_page (page : Z) (b : t) : t :=
  match b.(jit_pages) !! Z.to_nat (page / 64) with
  | Some w => set_jit_pages (aset b.(jit_pages) (page / 64) (w .&~ (1 .<< (page mod 64)))) b
  | None => b
  end.

Definition jit_take_dirty (b : t) : list Z * t := (b.(jit_dirty_pages), set_jit_dirty_pages [] b).

Definition jit_check_store (addr : Z) (b : t) : t :=
  if RAM_BASE <=? addr then
    let page := page_of addr in
    match b.(jit_pages) !! Z.to_nat (page / 64) with
    | Some w =>
        if negb ((w .& (1 .<< (page mod 64))) =? 0)
        then set_jit_dirty_pages (b.(jit_dirty_pages) ++ [page]) b else b
    | None => b
    end
  else b.

(** *** Accesses *)

(** Offset of an access that lies in memory. *)
Definition ram_slice (b : t) (addr len : Z) : option Z :=
  if RAM_BASE <=? addr then
    let off := addr - RAM_BASE in
    if off + len <=? Z.of_nat (length b.(ram)) then Some off else None
  else None.

Definition mmio_read (addr size : Z) (b : t) : option Z * t :=
  if in_range TEST_BASE (TEST_BASE + 0x1000) addr then (Some 0, b)
  else if in_range CLINT_BASE (CLINT_BASE + CLINT_SIZE) addr then
    let off := addr - CLINT_BASE in
    (Some (if off =? 0x0 then Z.b2z b.(msip)
           else if off =? 0x4000 then b.(mtimecmp)
           else if off =? 0xbff8 then b.(mtime) else 0), b)
  else if in_range PLIC_BASE (PLIC_BASE + PLIC_SIZE) addr then
    let '(v, p) := Plic.read b.(plic) (addr - PLIC_BASE) in (Some v, set_plic p b)
  else if in_range UART_BASE (UART_BASE + UART_SIZE) addr then
    let '(v, u) := Uart.read b.(uart) (addr - UART_BASE) in (Some v, set_uart u b)
  else if in_range GOLDFISH_RTC_BASE (GOLDFISH_RTC_BASE + GOLDFISH_RTC_SIZE) addr then
    let '(v, r) := Rtc.read b.(rtc) (addr - GOLDFISH_RTC_BASE) in (Some v, set_rtc r b)
  else if in_range VIRTIO_BASE (VIRTIO_BASE + VIRTIO_COUNT * VIRTIO_SIZE) addr then
    let i := (addr - VIRTIO_BASE) / VIRTIO_SIZE in
    let off := (addr - VIRTIO_BASE) mod VIRTIO_SIZE in
    ((fun d => read_sized d off size) <$> b.(virtio) !! Z.to_nat i, b)
  else (None, b).

(** Processing a queue of device [i] against the memory. *)
Definition process_device (i qi : Z) (d : VirtioDev S) : Hart t unit := fun b =>
  match process PROCESS_FUEL qi RAM_BASE d b.(ram) with
  | (Ok (Some d), ram) => (Ok tt, set_virtio (aset b.(virtio) i d) (set_ram ram b))
  | (_, ram) => (Panic, set_ram ram b)
  end.

Definition mmio_write (addr val : Z) : Hart t bool :=
  if in_range TEST_BASE (TEST_BASE + 0x1000) addr then
    let v := u32 val .& 0xffff in
    (if (v =? 0x5555) || (v =? 0x7777) || (v =? 0x3333) then modify (set_power_off true) else ret tt) ;;;
    ret true
  else if in_range CLINT_BASE (CLINT_BASE + CLINT_SIZE) addr then
    let off := addr - CLINT_BASE in
    (if off =? 0x0 then modify (set_msip (negb ((val .& 1) =? 0)))
     else if off =? 0x4000 then modify (set_mtimecmp val) else ret tt) ;;;
    ret true
  else if in_range PLIC_BASE (PLIC_BASE + PLIC_SIZE) addr then
    modify (fun b => set_plic (Plic.write b.(plic) (addr - PLIC_BASE) (u32 val)) b) ;;; ret true
  else if in_range UART_BASE (UART_BASE + UART_SIZE) addr then
    modify (fun b => set_uart (Uart.write b.(uart) (addr - UART_BASE) (u8 val)) b) ;;; ret true
  else if in_range GOLDFISH_RTC_BASE (GOLDFISH_RTC_BASE + GOLDFISH_RTC_SIZE) addr then
    modify (fun b => set_rtc (Rtc.write b.(rtc) (addr - GOLDFISH_RTC_BASE) (u32 val)) b) ;;; ret true
  else if in_range VIRTIO_BASE (VIRTIO_BASE + VIRTIO_COUNT * VIRTIO_SIZE) addr then
    let i := (addr - VIRTIO_BASE) / VIRTIO_SIZE in
    let off := (addr - VIRTIO_BASE) mod VIRTIO_SIZE in
    devs <- gets virtio ;;
    match devs !! Z.to_nat i with
    | None => ret true
    | Some d =>
        let '(notify, d) := write d off (u32 val) in
        modify (fun b => set_virtio (aset b.(virtio) i d) b) ;;;
        match notify with
        | Some q => process_device i q d ;;; ret true
        | None => ret true
        end
    end
  else ret false.

(** [poll_virtio]: queues 0 and 1 of every device. *)
Fixpoint poll_devices (n : nat) (i : Z) : Hart t unit :=
  match n with
  | O => ret tt
  | Datatypes.S n =>
      let poll qi :=
        devs <- gets virtio ;;
        d <- unwrap (devs !! Z.to_nat i) ;; process_device i qi d in
      poll 0 ;;; poll 1 ;;; poll_devices n (i + 1)
  end.

Definition poll_virtio : Hart t unit := fun b => poll_devices (length b.(virtio)) 0 b.

(** [virt_rw!]: one reader and one writer per width [n] in bytes. *)
Definition virt_read (n addr : Z) : Hart t Z := fun b =>
  match ram_slice b addr n with
  | Some off => (Ok (from_le_bytes (take (Z.to_nat n) (drop (Z.to_nat off) b.(ram)))), b)
  | None =>
      match mmio_read addr n b with
      | (Some v, b) => (Ok (wrap (8 * n) v), b)
      | (None, b) => (Err (LoadAccessFault addr), b)
      end
  end.

Definition virt_write (n addr val : Z) : Hart t unit := fun b =>
  let b := jit_check_store addr b in
  match ram_slice b addr n with
  | Some off =>
      (Ok tt, set_ram (take (Z.to_nat off) b.(ram) ++ to_le_bytes (Z.to_nat n) val
                        ++ drop (Z.to_nat (off + n)) b.(ram)) b)
  | None =>
      (done <- mmio_write addr val ;;
       if (done : bool) then ret tt else throw (StoreAccessFault addr)) b
  end.

Definition virt_irq_lines (b : t) : Z * t :=
  let b := refresh_plic b in
  let l := 0 in
  let l := if negb b.(direct_sbi) && (b.(mtimecmp) <=? b.(mtime)) then l .| IRQ_MTIP else l in
  let l := if b.(msip) then l .| IRQ_MSIP else l in
  let l := if Plic.pending_ctx b.(plic) 0 then l .| IRQ_MEIP else l in
  let l := if Plic.pending_ctx b.(plic) 1 then l .| IRQ_SEIP else l in
  (l, b).

Definition virt_jit_fast_off (b : t) (va pa : Z) (store : bool) : option Z :=
  if (pa <? RAM_BASE) || (RAM_BASE + Z.of_nat (length b.(ram)) <=? (pa .| 0xfff)) then None
  else
    let marked :=
      match b.(jit_pages) !! Z.to_nat (page_of pa / 64) with
      | Some word => negb (((word .>> (page_of pa .& 63)) .& 1) =? 0)
      | None => false
      end in
    if store && marked then None
    else Some (i64 (b.(ram_ptr) + (pa - RAM_BASE) - va)).

(** Host accesses inside the memory's allocation. *)
Definition host_get (n address : Z) (b : t) : Z :=
  from_le_bytes (take (Z.to_nat n) (drop (Z.to_nat (address - b.(ram_ptr))) b.(ram))).
Definition host_put (n address val : Z) (b : t) : t :=
  let off := address - b.(ram_ptr) in
  set_ram (take (Z.to_nat off) b.(ram) ++ to_le_bytes (Z.to_nat n) val
            ++ drop (Z.to_nat (off + n)) b.(ram)) b.

#[global] Instance VirtBus_Bus : Bus t := {
  read8 := virt_read 1;
  read16 := virt_read 2;
  read32 := virt_read 4;
  read64 := virt_read 8;
  write8 := virt_write 1;
  write16 := virt_write 2;
  write32 := virt_write 4;
  write64 := virt_write 8;
  jit_fast_off := virt_jit_fast_off;
  fetch32 := default_fetch (virt_read 4);
  fetch16 := default_fetch (virt_read 2);
  irq_lines := virt_irq_lines;
  host_load := host_get;
  host_store := host_put
}.
End VirtBus.
Arguments t : clear implicits.
End VirtBus.

(** ** The device tree *)

(** [{:x}]. *)
Fixpoint hex_digits (fuel : nat) (v : Z) (acc : list Z) : list Z :=
  match fuel with
  | O => acc
  | S fuel =>
      let d := v mod 16 in
      let acc := (if d <? 10 then 48 + d else 87 + d) :: acc in
      if v / 16 =? 0 then acc else hex_digits fuel (v / 16) acc
  end.
Definition hex (v : Z) : list Z := hex_digits 16 v [].

(** Byte [i] of the seed for the kernel's random number generator. *)
Definition seed_byte (i : Z) : Z := u8 (mul32 i 0x9e3779b1 .>> 13) .^ u8 (u8 i * 31).

Definition virtio_node (plic_phandle i : Z) : list (Fdt -> Fdt) :=
  let base := VIRTIO_BASE + i * VIRTIO_SIZE in
  [begin_node (str "virtio_mmio@" ++ hex base);
   prop_str (str "compatible") (str "virtio,mmio");
   prop_u64_pair (str "reg") base VIRTIO_SIZE;
   prop_u32s (str "interrupts-extended") [plic_phandle; VIRTIO_IRQ_BASE + i];
   end_node].

(** The calls of [build_virt_fdt], in order. *)
Definition virt_fdt_calls (ram_size : Z) (cmdline : list Z) (initrd_start initrd_end : Z) (n_virtio : Z)
    : list (Fdt -> Fdt) :=
  let intc_phandle := 1 in
  let plic_phandle := 2 in
  let syscon_ph := 5 in
  [begin_node (str "");
   prop_u32 (str "#address-cells") 2;
   prop_u32 (str "#size-cells") 2;
   prop_str (str "compatible") (str "riscv-virtio");
   prop_str (str "model") (str "riscv-virtio,qemu");
   begin_node (str "chosen");
   prop_str (str "bootargs") cmdline;
   prop_str (str "stdout-path") (str "/soc/serial@10000000");
   prop (str "rng-seed") (map seed_byte (seqZ 0 64))]
  ++ (if initrd_start <? initrd_end
      then [prop (str "linux,initrd-start") (to_be_bytes 8 initrd_start);
            prop (str "linux,initrd-end") (to_be_bytes 8 initrd_end)] else []) ++
  [end_node;
   begin_node (str "cpus");
   prop_u32 (str "#address-cells") 1;
   prop_u32 (str "#size-cells") 0;
   prop_u32 (str "timebase-frequency") RTC_FREQ;
   begin_node (str "cpu@0");
   prop_str (str "device_type") (str "cpu");
   prop_u32 (str "reg") 0;
   prop_str (str "status") (str "okay");
   prop_str (str "compatible") (str "riscv");
   prop_str (str "riscv,isa-base") (str "rv64i");
   prop_strs (str "riscv,isa-extensions")
     [str "i"; str "m"; str "a"; str "f"; str "d"; str "c"; str "v"; str "zicntr"; str "zicsr";
      str "zifencei"];
   prop_str (str "riscv,isa") (str "rv64imafdcv");
   prop_str (str "mmu-type") (str "riscv,sv48");
   begin_node (str "interrupt-controller");
   prop_u32 (str "#interrupt-cells") 1;
   prop (str "interrupt-controller") [];
   prop_str (str "compatible") (str "riscv,cpu-intc");
   prop_u32 (str "phandle") intc_phandle;
   end_node;
   end_node;
   end_node;
   begin_node (str "memory@" ++ hex RAM_BASE);
   prop_str (str "device_type") (str "memory");
   prop_u64_pair (str "reg") RAM_BASE ram_size;
   end_node;
   begin_node (str "soc");
   prop_u32 (str "#address-cells") 2;
   prop_u32 (str "#size-cells") 2;
   prop_str (str "compatible") (str "simple-bus");
   prop (str "ranges") [];
   begin_node (str "test@" ++ hex TEST_BASE);
   prop_strs (str "compatible") [str "sifive,test1"; str "sifive,test0"; str "syscon"];
   prop_u64_pair (str "reg") TEST_BASE 0x1000;
   prop_u32 (str "phandle") syscon_ph;
   end_node;
   begin_node (str "poweroff");
   prop_str (str "compatible") (str "syscon-poweroff");
   prop_u32 (str "regmap") syscon_ph;
   prop_u32 (str "offset") 0;
   prop_u32 (str "value") 0x5555;
   end_node;
   begin_node (str "reboot");
   prop_str (str "compatible") (str "syscon-reboot");
   prop_u32 (str "regmap") syscon_ph;
   prop_u32 (str "offset") 0;
   prop_u32 (str "value") 0x7777;
   end_node;
   begin_node (str "serial@" ++ hex UART_BASE);
   prop_str (str "compatible") (str "ns16550a");
   prop_u64_pair (str "reg") UART_BASE UART_SIZE;
   prop_u32 (str "clock-frequency") 3686400;
   prop_u32s (str "interrupts-extended") [plic_phandle; UART_IRQ];
   end_node;
   begin_node (str "rtc@" ++ hex GOLDFISH_RTC_BASE);
   prop_str (str "compatible") (str "google,goldfish-rtc");
   prop_u64_pair (str "reg") GOLDFISH_RTC_BASE GOLDFISH_RTC_SIZE;
   prop_u32s (str "interrupts-extended") [plic_phandle; GOLDFISH_RTC_IRQ];
   end_node;
   begin_node (str "clint@" ++ hex CLINT_BASE);
   prop_strs (str "compatible") [str "sifive,clint0"; str "riscv,clint0"];
   prop_u64_pair (str "reg") CLINT_BASE CLINT_SIZE;
   prop_u32s (str "interrupts-extended") [intc_phandle; 3; intc_phandle; 7];
   end_node;
   begin_node (str "plic@" ++ hex PLIC_BASE);
   prop_strs (str "compatible") [str "sifive,plic-1.0.0"; str "riscv,plic0"];
   prop_u32 (str "#interrupt-cells") 1;
   prop (str "interrupt-controller") [];
   prop_u64_pair (str "reg") PLIC_BASE PLIC_SIZE;
   prop_u32 (str "riscv,ndev") (Plic.SOURCES - 1);
   prop_u32s (str "interrupts-extended") [intc_phandle; 11; intc_phandle; 9];
   prop_u32 (str "phandle") plic_phandle;
   end_node]
  ++ concat (map (virtio_node plic_phandle) (seqZ 0 n_virtio)) ++
  [end_node; end_node].

Definition build_virt_fdt (ram_size : Z) (cmdline : list Z) (initrd_start initrd_end : Z) (n_virtio : Z)
    : list Z :=
  finish (foldl (fun f call => call f) Fdt_new
            (virt_fdt_calls ram_size cmdline initrd_start initrd_end n_virtio)).

(** ** The machine *)

Definition is_ecall (s : StopReason) : bool := match s with Ecall => true | _ => false end.
Definition is_wfi (s : StopReason) : bool := match s with Wfi => true | _ => false end.
Definition is_budget (s : StopReason) : bool := match s with Budget => true | _ => false end.

Module VirtMachine.
Section VirtMachine.
Context {S : Type} `{P9Server S} `{VectorUnit (VirtBus.t S)}.
Abbreviation bus_t := (VirtBus.t S) (only parsing).

Record VirtImages : Type := mkImages {
  opensbi : list Z;
  kernel : list Z;
  cmdline : list Z;
  initrd : option (list Z);
  disk : option (list Z);
  fs : list S;
  external_fs : option (list Z);
  virtio_console : bool;
  net : option (list Z)
}.

Record t : Type := mk {
  cpu : Cpu;
  bus : bus_t;
  insns_per_tick : Z;
  idle_ticks : Z;
  realtime_ticks : option Z;
  power_off : bool;
  dtb : list Z;
  unsupported_sbi : option (Z * Z);
  sbi_calls : list Z
}.

Definition set_cpu (v : Cpu) (m : t) : t :=
  mk v m.(bus) m.(insns_per_tick) m.(idle_ticks) m.(realtime_ticks) m.(power_off) m.(dtb)
    m.(unsupported_sbi) m.(sbi_calls).
Definition set_bus (v : bus_t) (m : t) : t :=
  mk m.(cpu) v m.(insns_per_tick) m.(idle_ticks) m.(realtime_ticks) m.(power_off) m.(dtb)
    m.(unsupported_sbi) m.(sbi_calls).
Definition set_idle_ticks (v : Z) (m : t) : t :=
  mk m.(cpu) m.(bus) m.(insns_per_tick) v m.(realtime_ticks) m.(power_off) m.(dtb)
    m.(unsupported_sbi) m.(sbi_calls).
Definition set_realtime_ticks (v : option Z) (m : t) : t :=
  mk m.(cpu) m.(bus) m.(insns_per_tick) m.(idle_ticks) v m.(power_off) m.(dtb)
    m.(unsupported_sbi) m.(sbi_calls).
Definition set_power_off (v : bool) (m : t) : t :=
  mk m.(cpu) m.(bus) m.(insns_per_tick) m.(idle_ticks) m.(realtime_ticks) v m.(dtb)
    m.(unsupported_sbi) m.(sbi_calls).
Definition set_unsupported_sbi (v : option (Z * Z)) (m : t) : t :=
  mk m.(cpu) m.(bus) m.(insns_per_tick) m.(idle_ticks) m.(realtime_ticks) m.(power_off) m.(dtb)
    v m.(sbi_calls).
Definition set_sbi_calls (v : list Z) (m : t) : t :=
  mk m.(cpu) m.(bus) m.(insns_per_tick) m.(idle_ticks) m.(realtime_ticks) m.(power_off) m.(dtb)
    m.(unsupported_sbi) v.

(** *** Boot *)

Definition saturating_sub (a b : Z) : Z := Z.max 0 (a - b).

(** The device list, in slot order. *)
Definition devices (i : VirtImages) : list (VirtioDev S) :=
  (if i.(virtio_console) then [new (Console [] [] 80 24)] else []) ++
  match i.(disk) with Some disk => [new (Block disk)] | None => [] end ++
  map (fun srv => new (Fs srv)) i.(fs) ++
  match i.(external_fs) with Some tag => [new (FsExternal tag [] ∅)] | None => [] end ++
  match i.(net) with Some mac => [new (Net mac [] [])] | None => [] end.

Definition n_virtio (i : VirtImages) : Z :=
  Z.b2z (match i.(disk) with Some _ => true | None => false end) + Z.of_nat (length i.(fs))
  + Z.b2z (match i.(external_fs) with Some _ => true | None => false end)
  + Z.b2z i.(virtio_console) + Z.b2z (match i.(net) with Some _ => true | None => false end).

(** [fw_dynamic_info], the words OpenSBI reads from [a2]. *)
Definition fw_info : list Z := [0x4942534f; 2; RAM_BASE + KERNEL_OFFSET; 1; 0; 0].

Fixpoint put_info (o : Z) (words : list Z) : Ram unit :=
  match words with
  | [] => ret tt
  | v :: words => put_slice o (u64 (o + 8)) (to_le_bytes 8 v) ;;; put_info (o + 8) words
  end.

(** Initrd below the device tree: its offset, or where the tree is. *)
Definition put_initrd (below : Z) (image : option (list Z)) : Ram (Z * Z * Z) :=
  match image with
  | None => ret (below, 0, 0)
  | Some ir =>
      let n := Z.of_nat (length ir) in
      let s := saturating_sub below n .&~ 0xfffff in
      put_slice s (u64 (s + n)) ir ;;;
      ret (s, RAM_BASE + s, RAM_BASE + s + n)
  end.

(** The hart at reset. *)
Definition boot_cpu (dtb_addr dyn_addr : Z) (direct_sbi : bool) : Cpu :=
  let c := enable_system 0 Cpu_new in
  let c := set_pc (if direct_sbi then RAM_BASE + KERNEL_OFFSET else RAM_BASE) c in
  let c := set_xr 12 dyn_addr (set_xr 11 dtb_addr (set_xr 10 0 c)) in
  if direct_sbi then
    match c.(sys) with
    | None => c
    | Some s =>
        let s := set_mode Supervisor s in
        let s := set_medeleg (0xb109 .| (1 .<< 2)) s in
        let s := set_mideleg (IRQ_SSIP .| IRQ_STIP .| IRQ_SEIP) s in
        let s := set_satp 0 (set_mcounteren 0x7 s) in
        enable_host_sbi (set_sys (Some s) c)
    end
  else c.

(** [new_inner] on zeroed memory of [ram_size] bytes at host address [ptr]. *)
Definition new_inner (ram_size ptr : Z) (i : VirtImages) (direct_sbi : bool) : Ram t :=
  put_slice 0 (Z.of_nat (length i.(opensbi))) i.(opensbi) ;;;
  put_slice KERNEL_OFFSET (KERNEL_OFFSET + Z.of_nat (length i.(kernel))) i.(kernel) ;;;
  let n := n_virtio i in
  let dtb := build_virt_fdt ram_size i.(cmdline) 0 0 n in
  let dtb_off := saturating_sub (sub64 ram_size 0x200000) (Z.of_nat (length dtb)) .&~ 0xfff in
  p <- put_initrd dtb_off i.(initrd) ;;
  let '(below, initrd_start, initrd_end) := p in
  let dyn_off := saturating_sub below 0x1000 .&~ 0xfff in
  let dtb := build_virt_fdt ram_size i.(cmdline) initrd_start initrd_end n in
  put_slice dtb_off (u64 (dtb_off + Z.of_nat (length dtb))) dtb ;;;
  put_info dyn_off fw_info ;;;
  ram <- gets id ;;
  ret (mk (boot_cpu (RAM_BASE + dtb_off) (RAM_BASE + dyn_off) direct_sbi)
         (VirtBus.mk ram ptr 0 U64_MAX false Rtc.new Plic.new Uart.new (devices i) false direct_sbi
            (replicate (Z.to_nat (((ram_size .>> 12) + 63) / 64)) 0) [])
         100 0 None false dtb None (replicate 8 0)).

Definition boot (ram_size ptr : Z) (i : VirtImages) (direct_sbi : bool) : outcome Empty_set t :=
  fst (new_inner ram_size ptr i direct_sbi (replicate (Z.to_nat ram_size) 0)).

(** *** The host's side *)

Definition on_bus {A} (f : bus_t -> A * bus_t) (m : t) : A * t :=
  let '(a, b) := f m.(bus) in (a, set_bus b m).

Definition console_output : t -> list Z * t := on_bus VirtBus.uart_take.
Definition console_input (bytes : list Z) (m : t) : t := set_bus (VirtBus.uart_input bytes m.(bus)) m.

(** The first device a test accepts, and its slot. *)
Fixpoint find_device (p : VirtioDev S -> bool) (i : Z) (l : list (VirtioDev S))
    : option (Z * VirtioDev S) :=
  match l with
  | [] => None
  | d :: l => if p d then Some (i, d) else find_device p (i + 1) l
  end.

Definition set_device (i : Z) (d : VirtioDev S) (m : t) : t :=
  set_bus (VirtBus.set_virtio (aset m.(bus).(VirtBus.virtio) i d) m.(bus)) m.

Definition is_net (d : VirtioDev S) : bool := device_id d =? 1.
Definition is_console (d : VirtioDev S) : bool :=
  match d.(backend) with Console _ _ _ _ => true | _ => false end.
Definition is_external (d : VirtioDev S) : bool :=
  match d.(backend) with FsExternal _ _ _ => true | _ => false end.

Definition net_input (frame : list Z) (m : t) : bool * t :=
  match find_device is_net 0 m.(bus).(VirtBus.virtio) with
  | None => (false, m)
  | Some (i, d) => let '(ok, d) := Virtio.net_input frame d in (ok, set_device i d m)
  end.

Definition net_input_capacity (m : t) : Z :=
  match find_device is_net 0 m.(bus).(VirtBus.virtio) with
  | None => 0
  | Some (_, d) => Virtio.net_input_capacity d
  end.

Definition net_take_output (m : t) : list (list Z) * t :=
  match find_device is_net 0 m.(bus).(VirtBus.virtio) with
  | None => ([], m)
  | Some (i, d) => let '(out, d) := Virtio.net_take_output d in (out, set_device i d m)
  end.

(** [find_map]: devices are asked in order until one has a request. *)
Definition has_request (d : VirtioDev S) : bool :=
  match fst (Virtio.fs_external_take_request d) with Some _ => true | None => false end.

Definition fs_external_take_request (m : t) : option (list Z) * t :=
  match find_device has_request 0 m.(bus).(VirtBus.virtio) with
  | None => (None, m)
  | Some (i, d) => let '(r, d) := Virtio.fs_external_take_request d in (r, set_device i d m)
  end.

(** Operations of the machine that may panic. *)
Definition Mach (A : Type) : Type := M Exception t A.

Definition fs_external_reply (bytes : list Z) : Mach bool := fun m =>
  match find_device is_external 0 m.(bus).(VirtBus.virtio) with
  | None => (Ok false, m)
  | Some (i, d) =>
      match Virtio.fs_external_reply bytes RAM_BASE d m.(bus).(VirtBus.ram) with
      | (Ok (ok, d), ram) => (Ok ok, set_device i d (set_bus (VirtBus.set_ram ram m.(bus)) m))
      | (_, ram) => (Panic, m)
      end
  end.

Definition virtio_console_input (bytes : list Z) : Mach unit := fun m =>
  match find_device is_console 0 m.(bus).(VirtBus.virtio) with
  | None => (Ok tt, m)
  | Some (i, d) =>
      let '(o, b) := VirtBus.process_device i 0 (Virtio.console_input bytes d) m.(bus) in
      (o, set_bus b m)
  end.

Definition virtio_console_resize (cols rows : Z) (m : t) : t :=
  match find_device is_console 0 m.(bus).(VirtBus.virtio) with
  | None => m
  | Some (i, d) =>
      let m := set_device i (Virtio.console_resize cols rows d) m in
      set_bus (VirtBus.refresh_plic m.(bus)) m
  end.

Definition virtio_console_take_output (m : t) : list Z * t :=
  match find_device is_console 0 m.(bus).(VirtBus.virtio) with
  | None => ([], m)
  | Some (i, d) => let '(out, d) := Virtio.console_take_output d in (out, set_device i d m)
  end.

Definition set_rtc_unix_ns (ns : Z) (m : t) : t :=
  set_bus (VirtBus.set_rtc (Rtc.set_host_time_ns ns m.(bus).(VirtBus.rtc)) m.(bus)) m.

Definition saturating_add (a b : Z) : Z := Z.min (a + b) U64_MAX.

Definition advance_realtime_ns (ns : Z) (m : t) : t :=
  let ticks := u64 ((ns * RTC_FREQ) / 1000000000) in
  set_realtime_ticks (Some (saturating_add (default 0 m.(realtime_ticks)) ticks)) m.

(** *** The timer *)

Definition machine : Mach t := gets id.
Definition checked_div (a b : Z) : Mach Z := if b =? 0 then panic else ret (a / b).

(** The supervisor timer bit from the comparison. *)
Definition set_stip (mtime mtimecmp : Z) (s : SysCsrs) : SysCsrs :=
  set_mip (if mtimecmp <=? mtime then s.(mip) .| IRQ_STIP else s.(mip) .&~ IRQ_STIP) s.

Definition sync_sys (b : bus_t) (time_scale ticks : Z) (realtime : bool) (s : SysCsrs) : SysCsrs :=
  let s := set_mtime b.(VirtBus.mtime) s in
  let s := if b.(VirtBus.direct_sbi) then set_stip b.(VirtBus.mtime) b.(VirtBus.mtimecmp) s else s in
  let s := set_time_scale time_scale s in
  let offset := saturating_sub b.(VirtBus.mtime) ticks in
  set_time_offset (if realtime then Z.max s.(time_offset) offset else offset) s.

Definition sync_devices : Mach unit :=
  m <- machine ;;
  ticks <- checked_div m.(cpu).(insn_count) m.(insns_per_tick) ;;
  let instruction_time := add64 ticks m.(idle_ticks) in
  let mtime :=
    match m.(realtime_ticks) with
    | Some wall => Z.max m.(bus).(VirtBus.mtime) wall
    | None => instruction_time
    end in
  let realtime := match m.(realtime_ticks) with Some _ => true | None => false end in
  let b := VirtBus.set_mtime mtime m.(bus) in
  let c :=
    match m.(cpu).(sys) with
    | None => m.(cpu)
    | Some s => set_sys (Some (sync_sys b m.(insns_per_tick) ticks realtime s)) m.(cpu)
    end in
  modify (fun m => set_cpu c (set_bus b m)).

(** *** The host's SBI *)

Definition NOT_SUPPORTED : Z := u64 (-2).
Definition INVALID_PARAM : Z := u64 (-3).
Definition ALREADY_STARTED : Z := u64 (-7).
Definition SBI_BASE : Z := 0x10.
Definition SBI_TIME : Z := 0x54494d45.
Definition SBI_IPI : Z := 0x00735049.
Definition SBI_RFENCE : Z := 0x52464e43.
Definition SBI_HSM : Z := 0x48534d.
Definition SBI_SRST : Z := 0x53525354.

Definition bucket (ext : Z) : Z :=
  if ext =? SBI_BASE then 1 else if ext =? SBI_TIME then 2 else if ext =? SBI_IPI then 3
  else if ext =? SBI_RFENCE then 4 else if ext =? SBI_HSM then 5 else if ext =? SBI_SRST then 6 else 7.

Definition count_call (i : Z) (m : t) : t :=
  set_sbi_calls (aset m.(sbi_calls) i (u64 (aget m.(sbi_calls) i + 1))) m.

Definition set_timer (v : Z) (m : t) : t :=
  let b := VirtBus.set_mtimecmp v m.(bus) in
  let m := set_bus b m in
  match m.(cpu).(sys) with
  | None => m
  | Some s => set_cpu (set_sys (Some (set_stip b.(VirtBus.mtime) v s)) m.(cpu)) m
  end.

Definition shutdown (m : t) : t := set_power_off true (set_bus (VirtBus.set_power_off true m.(bus)) m).

(** The match of [service_sbi]: error, value and the new machine. *)
Definition sbi_call (ext function arg0 arg1 : Z) (m : t) : Z * Z * t :=
  let known e := (e =? SBI_BASE) || (e =? SBI_TIME) || (e =? SBI_IPI) || (e =? SBI_RFENCE)
                 || (e =? SBI_HSM) || (e =? SBI_SRST) in
  let unsupported := (NOT_SUPPORTED, 0, set_unsupported_sbi (Some (ext, function)) m) in
  if ext =? SBI_BASE then
    if function =? 0 then (0, 2 .<< 24, m)
    else if function =? 1 then (0, 0x52563634, m)
    else if function =? 2 then (0, 1, m)
    else if function =? 3 then (0, Z.b2z (known arg0), m)
    else if (function =? 4) || (function =? 5) then (0, 0, m)
    else if function =? 6 then (0, 1, m)
    else unsupported
  else if (ext =? SBI_TIME) && (function =? 0) then (0, 0, set_timer arg0 m)
  else if (ext =? SBI_IPI) && (function =? 0) then
    (if negb (arg1 =? 0) && negb (arg1 =? U64_MAX) then INVALID_PARAM else 0, 0, m)
  else if (ext =? SBI_RFENCE) && (function <=? 6) then (0, 0, m)
  else if ext =? SBI_HSM then
    if function =? 0 then (ALREADY_STARTED, 0, m)
    else if function =? 1 then (INVALID_PARAM, 0, m)
    else if function =? 2 then (if arg0 =? 0 then 0 else INVALID_PARAM, 0, m)
    else if function =? 3 then (NOT_SUPPORTED, 0, m)
    else unsupported
  else if (ext =? SBI_SRST) && (function =? 0) then
    if arg0 <=? 2 then (0, 0, shutdown m) else (INVALID_PARAM, 0, m)
  else if ext =? 0 then (0, 0, set_timer arg0 m)
  else if ext =? 1 then
    (0, 0, set_bus (VirtBus.set_uart (Uart.write m.(bus).(VirtBus.uart) 0 (u8 arg0)) m.(bus)) m)
  else if ext =? 2 then (0, U64_MAX, m)
  else if (3 <=? ext) && (ext <=? 7) then (0, 0, m)
  else if ext =? 8 then (0, 0, shutdown m)
  else unsupported.

Definition service_sbi (m : t) : t :=
  let ext := xr m.(cpu) 17 in
  let m := count_call (bucket ext) (count_call 0 m) in
  let '(error, value, m) :=
    sbi_call ext (xr m.(cpu) 16) (xr m.(cpu) 10) (xr m.(cpu) 11) m in
  set_cpu (set_xr 11 value (set_xr 10 error m.(cpu))) m.
(** *** Execution slices *)

(** Running the hart on the machine's bus. *)
Definition on_hart {A} (h : Hart (Cpu * bus_t) A) : Mach A := fun m =>
  let '(o, (c, b)) := h (m.(cpu), m.(bus)) in (o, set_bus b (set_cpu c m)).

Definition on_bus_m {A} (h : Hart bus_t A) : Mach A := fun m =>
  let '(o, b) := h m.(bus) in (o, set_bus b m).

(** Retired instructions since [before]. *)
Definition retired_since (before : Z) : Mach Z :=
  m <- machine ;; ret (sub64 m.(cpu).(insn_count) before).

(** A serviced call: [true] when it was not supported, which ends the slice. *)
Definition service_ecall : Mach bool :=
  modify service_sbi ;;;
  m <- machine ;;
  match m.(unsupported_sbi) with
  | Some _ => modify (set_power_off true) ;;; ret true
  | None => ret false
  end.

(** What every slice starts and ends with. *)
Definition slice_begin : Mach Z :=
  m <- machine ;;
  on_bus_m VirtBus.poll_virtio ;;; sync_devices ;;; ret m.(cpu).(insn_count).

(** A halted hart without a host clock skips to the next timer event. *)
Definition skip_idle (m : t) : t :=
  let next := m.(bus).(VirtBus.mtimecmp) in
  match m.(realtime_ticks) with
  | Some _ => m
  | None =>
      if negb (next =? U64_MAX) && (m.(bus).(VirtBus.mtime) <? next)
      then set_idle_ticks (add64 m.(idle_ticks) (next - m.(bus).(VirtBus.mtime))) m else m
  end.

Definition slice_end (start : Z) (stop : StopReason) : Mach Z :=
  (if is_wfi stop then modify skip_idle else ret tt) ;;;
  sync_devices ;;;
  modify (fun m => set_power_off m.(bus).(VirtBus.power_off) m) ;;;
  retired_since start.

(** The loop of [run_slice] and its variants: [run] is the hart's driver. *)
Fixpoint slice_loop (run : Z -> Hart (Cpu * bus_t) StopReason) (fuel : nat) (remaining : Z)
    (stop : StopReason) : Mach (option StopReason) :=
  match fuel with
  | O => ret None
  | Datatypes.S fuel =>
      m <- machine ;;
      if (remaining =? 0) || m.(power_off) then ret (Some stop) else
      let before := m.(cpu).(insn_count) in
      stop <- on_hart (run remaining) ;;
      ran <- retired_since before ;;
      let remaining := saturating_sub remaining ran in
      if is_ecall stop && m.(bus).(VirtBus.direct_sbi) then
        unsupported <- service_ecall ;;
        if (unsupported : bool) then ret (Some stop) else slice_loop run fuel remaining stop
      else ret (Some stop)
  end.

Definition slice_with (run : Z -> Hart (Cpu * bus_t) StopReason) (fuel : nat) (max_insns : Z)
    : Mach (option Z) :=
  start <- slice_begin ;;
  stop <- slice_loop run fuel max_insns Budget ;;
  match stop with
  | None => ret None
  | Some stop => n <- slice_end start stop ;; ret (Some n)
  end.

Definition run_slice : nat -> Z -> Mach (option Z) := slice_with run.
Definition run_slice_integrated : nat -> Z -> Mach (option Z) := slice_with run_integrated_scalar.

(** The traced slice threads the trace's environment. *)
Section Traced.
Context {U : Type} (trace : InstructionTrace -> U -> U).

Fixpoint traced_loop (fuel : nat) (remaining : Z) (stop : StopReason) (u : U)
    : Mach (option StopReason * U) :=
  match fuel with
  | O => ret (None, u)
  | Datatypes.S fuel =>
      m <- machine ;;
      if (remaining =? 0) || m.(power_off) then ret (Some stop, u) else
      let before := m.(cpu).(insn_count) in
      r <- on_hart (run_traced trace remaining u) ;;
      let '(stop, u) := r in
      ran <- retired_since before ;;
      let remaining := saturating_sub remaining ran in
      if is_ecall stop && m.(bus).(VirtBus.direct_sbi) then
        unsupported <- service_ecall ;;
        if (unsupported : bool) then ret (Some stop, u) else traced_loop fuel remaining stop u
      else ret (Some stop, u)
  end.

Definition run_slice_traced (fuel : nat) (max_insns : Z) (u : U) : Mach (option Z * U) :=
  start <- slice_begin ;;
  r <- traced_loop fuel max_insns Budget u ;;
  match r with
  | (None, u) => ret (None, u)
  | (Some stop, u) => n <- slice_end start stop ;; ret (Some n, u)
  end.
End Traced.

(** The result of a slice that reports a halt. *)
Definition slice_end_yield (start : Z) (stop : StopReason) : Mach (Z * bool) :=
  n <- slice_end start stop ;; ret (n, is_wfi stop).

(** Every [period]-th retired instruction synchronizes the devices. *)
Definition sync_every (period start : Z) : Mach unit :=
  n <- retired_since start ;; if (n .& (period - 1)) =? 0 then sync_devices else ret tt.

(** Sampled slices: [sample] attributes retired instructions to mappings. *)
Section Sampled.
Context {U : Type} (sample : Z -> Z -> Z -> Z -> Z -> bool -> U -> U) (compiled : CompiledEntryMap).

(** A found control-flow entry: pc, physical address, satp, mode. *)
Definition Entry : Type := Z * Z * Z * Z.

(** One chunk of at most [n] instructions: the reason it ended, whether it
    reached compiled code, and the entry it observed. *)
Definition Chunk : Type := Z -> Mach (StopReason * bool * option Entry).

Definition chunk_plain : Chunk := fun n =>
  reason <- on_hart (run_integrated_scalar n) ;; ret (reason, false, None).

Definition chunk_until (control_entries : bool) : Chunk := fun n =>
  if control_entries then
    r <- on_hart (run_integrated_scalar_until_observed
           (fun pc u => let hit := contains compiled pc in (hit, (hit, snd u)))
           (fun pc pa satp mode u =>
              match snd u with None => (fst u, Some (pc, pa, satp, mode)) | Some _ => u end)
           n (false, None)) ;;
    ret (fst r, fst (snd r), snd (snd r))
  else
    r <- on_hart (run_integrated_scalar_until
           (fun pc _ => let hit := contains compiled pc in (hit, hit)) n false) ;;
    ret (fst r, snd r, None).

Fixpoint sampled_loop (chunk : Chunk) (quantum start : Z) (fuel : nat) (first : bool) (remaining : Z)
    (reason : StopReason) (u : U) : Mach (option StopReason * U) :=
  match fuel with
  | O => ret (None, u)
  | Datatypes.S fuel =>
      m <- machine ;;
      if (remaining =? 0) || m.(power_off) then ret (Some reason, u) else
      if negb first && contains compiled m.(cpu).(pc) then ret (Some reason, u) else
      let pc := m.(cpu).(pc) in
      pa <- on_hart (jit_probe_fetch pc) ;;
      m <- machine ;;
      let '(satp, mode) := satp_mode m.(cpu) in
      let before := m.(cpu).(insn_count) in
      r <- chunk (Z.min remaining (Z.max quantum 1)) ;;
      let '(reason, reached, entry) := r in
      ran <- retired_since before ;;
      let remaining := saturating_sub remaining ran in
      let u :=
        if negb (ran =? 0) then
          let u := match pa with Some pa => sample pc pa satp mode ran false u | None => u end in
          match entry with
          | Some (entry_pc, entry_pa, entry_satp, entry_mode) =>
              sample entry_pc entry_pa entry_satp entry_mode 0 true u
          | None => u
          end
        else u in
      unsupported <- (if is_ecall reason && m.(bus).(VirtBus.direct_sbi) then service_ecall else ret false) ;;
      if (unsupported : bool) then ret (Some reason, u) else
      if negb (is_ecall reason && m.(bus).(VirtBus.direct_sbi)) && negb (is_budget reason)
      then ret (Some reason, u) else
      if (ran =? 0) || reached then ret (Some reason, u) else
      sync_every 2048 start ;;;
      sampled_loop chunk quantum start fuel false remaining reason u
  end.

Definition sampled_with (chunk : Chunk) (fuel : nat) (max_insns quantum : Z) (u : U)
    : Mach (option (Z * bool) * U) :=
  start <- slice_begin ;;
  r <- sampled_loop chunk quantum start fuel true max_insns Budget u ;;
  match r with
  | (None, u) => ret (None, u)
  | (Some stop, u) => n <- slice_end_yield start stop ;; ret (Some n, u)
  end.

Definition run_slice_sampled : nat -> Z -> Z -> U -> Mach (option (Z * bool) * U) :=
  sampled_with chunk_plain.
Definition run_slice_sampled_until (control_entries : bool)
    : nat -> Z -> Z -> U -> Mach (option (Z * bool) * U) := sampled_with (chunk_until control_entries).
End Sampled.

(** Slices that stop at generated code. *)
Section Until.
Context {V : Type} (compiled : Z -> V -> bool * V).

Fixpoint until_loop (max_insns start : Z) (fuel : nat) (stop : StopReason) (v : V)
    : Mach (option StopReason * V) :=
  match fuel with
  | O => ret (None, v)
  | Datatypes.S fuel =>
      m <- machine ;;
      let before := m.(cpu).(insn_count) in
      let slice_progress := sub64 before start in
      if (max_insns <=? slice_progress) || m.(power_off) then ret (Some stop, v) else
      let run_budget := Z.min (max_insns - slice_progress) (64 - (slice_progress .& 63)) in
      r <- on_hart (run_integrated_scalar_until
             (fun pc u => let '(hit, v) := compiled pc (snd u) in (hit, (hit, v)))
             run_budget (false, v)) ;;
      let '(stop, (reached, v)) := r in
      let serviced := is_ecall stop && m.(bus).(VirtBus.direct_sbi) in
      unsupported <- (if serviced then service_ecall else ret false) ;;
      if (unsupported : bool) then ret (Some stop, v) else
      if negb serviced && is_wfi stop then ret (Some stop, v) else
      m <- machine ;;
      let '(hit, v) :=
        if reached then (true, v) else if serviced then compiled m.(cpu).(pc) v else (false, v) in
      if (hit : bool) then ret (Some stop, v) else
      if m.(cpu).(insn_count) =? before then ret (Some stop, v) else
      sync_every 64 start ;;;
      until_loop max_insns start fuel stop v
  end.

Definition run_slice_until (fuel : nat) (max_insns : Z) (v : V) : Mach (option (Z * bool) * V) :=
  start <- slice_begin ;;
  r <- until_loop max_insns start fuel Budget v ;;
  match r with
  | (None, v) => ret (None, v)
  | (Some stop, v) => n <- slice_end_yield start stop ;; ret (Some n, v)
  end.
End Until.

Section UntilCompiled.
Context (compiled : CompiledEntryMap).

Definition SHORT_BRIDGE_PREFIX : Z := 2.

(** The prefix: one instruction at a time with the compact driver. *)
Fixpoint prefix_loop (max_insns start : Z) (fuel : nat) (stop : StopReason)
    : Mach (option (StopReason * bool)) :=
  match fuel with
  | O => ret None
  | Datatypes.S fuel =>
      m <- machine ;;
      let before := m.(cpu).(insn_count) in
      if (Z.min max_insns SHORT_BRIDGE_PREFIX <=? sub64 before start) || m.(power_off)
      then ret (Some (stop, true)) else
      stop <- on_hart (run 1) ;;
      let serviced := is_ecall stop && m.(bus).(VirtBus.direct_sbi) in
      unsupported <- (if serviced then service_ecall else ret false) ;;
      if (unsupported : bool) then ret (Some (stop, false)) else
      if negb serviced && is_wfi stop then ret (Some (stop, false)) else
      m <- machine ;;
      if contains compiled m.(cpu).(pc) || (m.(cpu).(insn_count) =? before)
      then ret (Some (stop, false))
      else prefix_loop max_insns start fuel stop
  end.

(** The rest, with the integrated driver. *)
Fixpoint compiled_loop (max_insns start : Z) (fuel : nat) (stop : StopReason)
    : Mach (option StopReason) :=
  match fuel with
  | O => ret None
  | Datatypes.S fuel =>
      m <- machine ;;
      let before := m.(cpu).(insn_count) in
      let slice_progress := sub64 before start in
      if (max_insns <=? slice_progress) || m.(power_off) then ret (Some stop) else
      let run_budget := Z.min (max_insns - slice_progress) (64 - (slice_progress .& 63)) in
      stop <- on_hart (run_integrated_scalar_until_compiled run_budget compiled) ;;
      let serviced := is_ecall stop && m.(bus).(VirtBus.direct_sbi) in
      unsupported <- (if serviced then service_ecall else ret false) ;;
      if (unsupported : bool) then ret (Some stop) else
      if negb serviced && is_wfi stop then ret (Some stop) else
      m <- machine ;;
      if contains compiled m.(cpu).(pc) then ret (Some stop) else
      if m.(cpu).(insn_count) =? before then ret (Some stop) else
      sync_every 64 start ;;;
      compiled_loop max_insns start fuel stop
  end.

Definition run_slice_until_compiled (fuel : nat) (max_insns : Z) : Mach (option (Z * bool)) :=
  start <- slice_begin ;;
  p <- prefix_loop max_insns start fuel Budget ;;
  match p with
  | None => ret None
  | Some (stop, continue_integrated) =>
      stop <- (if (continue_integrated : bool) then compiled_loop max_insns start fuel stop
               else ret (Some stop)) ;;
      match stop with
      | None => ret None
      | Some stop => n <- slice_end_yield start stop ;; ret (Some n)
      end
  end.
End UntilCompiled.
End VirtMachine.
Arguments t : clear implicits.
Arguments VirtImages : clear implicits.
End VirtMachine.
