(* ===== verification/VirtSpec.v ===== *)
(** * The board's bus (Virt.v): memory, fast paths, compiled pages, interrupts

    The virt bus keeps the promise the hart relies on; accesses through a
    granted host offset are the accesses through the bus; a change to a page
    generated code was compiled from is always reported; and the interrupt
    lines are those the device lines, the controller and the timer call for. *)

From stdpp Require Import gmap.
From S2P Require Import Prelude Exception Csr State Bus Slices Trap Devices DevicesSpec Virtio VirtioSpec.
From S2P Require Import Dtb Virt TrapSpec.

Lemma land_bit w k : 0 <= k -> negb ((w .& (1 .<< k)) =? 0) = Z.testbit w k.
Proof.
  intros Hk. destruct (Z.testbit w k) eqn:E.
  - apply negb_true_iff, Z.eqb_neq. intros Hz. apply (f_equal (fun x => Z.testbit x k)) in Hz.
    rewrite Z.land_spec, testbit_pow, Z.eqb_refl, E, Z.bits_0 in Hz by lia. done.
  - apply negb_false_iff, Z.eqb_eq. apply Z.bits_inj'. intros j Hj.
    rewrite Z.land_spec, testbit_pow, Z.bits_0 by lia.
    destruct (Z.eqb_spec k j) as [<-|]; [by rewrite E|by rewrite andb_false_r].
Qed.

Lemma shift_bit w k : 0 <= k -> negb (((w .>> k) .& 1) =? 0) = Z.testbit w k.
Proof.
  intros Hk. change 1 with (1 .<< 0). rewrite land_bit by lia.
  rewrite Z.shiftr_spec by lia. done.
Qed.

Lemma last_byte x : 0 <= x -> (x .| 0xfff) = x / 4096 * 4096 + 4095.
Proof.
  intros Hx. transitivity (4095 .| (x / 4096 * 4096)).
  2: { rewrite (lor_add 12) by (try done; change (2 ^ 12) with 4096; by rewrite Z.mod_mul). lia. }
  rewrite <- (shiftl_lit _ 12 4096), <- (shiftr_lit x 12 4096) by done.
  apply Z.bits_inj'. intros j Hj. change 0xfff with (Z.ones 12).
  rewrite !Z.lor_spec, Z.shiftl_spec by done.
  destruct (decide (j < 12)).
  - rewrite Z.ones_spec_low by lia. by rewrite orb_true_r.
  - rewrite Z.ones_spec_high, Z.shiftr_spec, Z.sub_add by lia. by rewrite orb_false_r.
Qed.

Lemma u64_i64 x : u64 (i64 x) = u64 x.
Proof.
  unfold u64, i64, wrap, signed. rewrite Zminus_mod_idemp_l. f_equal. lia.
Qed.

Lemma add64_offset a x : add64 a (u64 (i64 x)) = u64 (a + x).
Proof. rewrite u64_i64. unfold add64, u64, wrap. by rewrite Zplus_mod_idemp_r. Qed.

Section Bus.
Context {S : Type} `{P9Server S}.
Abbreviation bus_t := (VirtBus.t S).
Import VirtBus.

(** ** Memory *)

Definition size (b : bus_t) : Z := Z.of_nat (length b.(ram)).

(** An access that lies in memory. *)
Definition in_ram (b : bus_t) (addr n : Z) : Prop :=
  0 < n /\ RAM_BASE <= addr /\ addr - RAM_BASE + n <= size b.

(** The pages generated code was compiled from. *)
Definition marked (b : bus_t) (pa : Z) : bool := (RAM_BASE <=? pa) && jit_page_marked b (page_of pa).

Lemma page_of_div pa : page_of pa = (pa - RAM_BASE) / 4096.
Proof. unfold page_of. by apply shiftr_lit. Qed.

Lemma mod_bound_64 p : 0 <= p mod 64 < 64.
Proof. apply Z.mod_pos_bound. lia. Qed.

Lemma jit_page_marked_bit (b : bus_t) page :
  jit_page_marked b page
  = match b.(jit_pages) !! Z.to_nat (page / 64) with
    | Some w => Z.testbit w (page mod 64) | None => false end.
Proof.
  unfold jit_page_marked. destruct (_ !! _); [|done].
  apply land_bit, mod_bound_64.
Qed.

Lemma check_store_eq addr (b : bus_t) :
  jit_check_store addr b
  = if marked b addr then set_jit_dirty_pages (b.(jit_dirty_pages) ++ [page_of addr]) b else b.
Proof.
  unfold jit_check_store, marked, jit_page_marked. destruct (_ <=? _); [|done].
  cbv zeta. by destruct (_ !! _).
Qed.

Lemma ram_slice_in (b : bus_t) addr n : in_ram b addr n -> ram_slice b addr n = Some (addr - RAM_BASE).
Proof.
  intros (Hn & Ha & Hs). unfold ram_slice, size in *. cbv zeta.
  by rewrite (proj2 (Z.leb_le _ _) Ha), (proj2 (Z.leb_le _ _) Hs).
Qed.

Lemma ram_slice_out (b : bus_t) addr n : 0 < n -> ~ in_ram b addr n -> ram_slice b addr n = None.
Proof.
  intros Hn Ho. unfold ram_slice, in_ram, size in *. cbv zeta.
  destruct (Z.leb_spec RAM_BASE addr); [|done].
  destruct (Z.leb_spec (addr - RAM_BASE + n) (Z.of_nat (length b.(ram)))); [lia|done].
Qed.

(** Memory with [bytes] at an offset. *)
Definition patch (l : list Z) (off : Z) (bytes : list Z) : list Z :=
  take (Z.to_nat off) l ++ bytes ++ drop (Z.to_nat (off + Z.of_nat (length bytes))) l.

Lemma write_in (b : bus_t) addr n val :
  in_ram b addr n ->
  virt_write n addr val b
  = (Ok tt, set_ram (patch b.(ram) (addr - RAM_BASE) (to_le_bytes (Z.to_nat n) val)) (jit_check_store addr b)).
Proof.
  intros Hi. unfold virt_write. cbv zeta.
  assert (ram (jit_check_store addr b) = ram b) as Er
    by (rewrite check_store_eq; by destruct (marked b addr)).
  rewrite (ram_slice_in _ addr n) by (unfold in_ram, size in *; by rewrite Er).
  unfold patch. rewrite Er, length_to_le_bytes, Z2Nat.id by (destruct Hi; lia). done.
Qed.

Lemma read_in (b : bus_t) addr n :
  in_ram b addr n -> virt_read n addr b = (Ok (word (Z.to_nat n) b.(ram) (addr - RAM_BASE)), b).
Proof. intros Hi. unfold virt_read. by rewrite ram_slice_in. Qed.

(** ** Fast paths *)

(** An access through an offset granted in the same state. *)
Lemma fast_path_now (b : bus_t) va pa off va' n val store :
  0 <= b.(ram_ptr) -> b.(ram_ptr) + size b <= 2 ^ 63 ->
  uint 64 va -> uint 64 pa -> uint 64 va' -> va mod 4096 = pa mod 4096 ->
  va' / 4096 = va / 4096 -> 0 < n -> va' mod 4096 + n <= 4096 ->
  virt_jit_fast_off b va pa store = Some off ->
  let address := add64 va' (u64 off) in
  let pa' := pa + (va' - va) in
  virt_read n pa' b = (Ok (host_get n address b), b) /\
  (store = true ->
   virt_write n pa' val b = (Ok tt, host_put n address val b) /\
   (host_put n address val b).(jit_dirty_pages) = b.(jit_dirty_pages) /\
   marked b pa' = false).
Proof.
  intros Hp Hs Hva Hpa Hva' Hoff Hpage Hn Hin Hf address pa'.
  unfold virt_jit_fast_off in Hf.
  destruct (Z.ltb_spec pa RAM_BASE) as [|Hbase]; [done|]. cbn [orb] in Hf.
  rewrite last_byte in Hf by apply Hpa.
  destruct (Z.leb_spec (RAM_BASE + Z.of_nat (length b.(ram))) (pa / 4096 * 4096 + 4095)) as [|Hend]; [done|].
  assert (pa' = pa / 4096 * 4096 + va' mod 4096) as Epa by (unfold pa'; Z.div_mod_to_equations; lia).
  assert (page_of pa' = page_of pa) as Epg.
  { rewrite !page_of_div, Epa. change RAM_BASE with (524288 * 4096).
    pose proof (Z.mod_pos_bound va' 4096 ltac:(lia)).
    Z.div_mod_to_equations. lia. }
  assert (RAM_BASE <= pa') as Hlo.
  { rewrite Epa. change RAM_BASE with (524288 * 4096) in *. Z.div_mod_to_equations. lia. }
  assert (in_ram b pa' n) as Hr by (unfold in_ram, size; rewrite Epa in *; lia).
  assert (off = i64 (b.(ram_ptr) + (pa - RAM_BASE) - va)) as ->.
  { destruct (store && _) in Hf; congruence. }
  assert (address - b.(ram_ptr) = pa' - RAM_BASE) as Ea.
  { unfold address. rewrite add64_offset, u64_id; unfold size, in_ram, pa' in *; lia. }
  split; [|intros ->].
  - rewrite read_in by done. unfold host_get. by rewrite Ea.
  - rewrite write_in by done.
    assert (marked b pa' = false) as Hm.
    { unfold marked. rewrite Epg, jit_page_marked_bit. destruct (_ !! _) as [w|]; [|apply andb_false_r].
      rewrite (land_ones_lit _ 63 6) in Hf by done. cbn [andb] in Hf.
      rewrite shift_bit in Hf by apply mod_bound_64. change (2 ^ 6) with 64 in Hf.
      destruct (Z.testbit w _); [done|apply andb_false_r]. }
    rewrite check_store_eq, Hm. unfold host_put, patch. cbv zeta. rewrite Ea, length_to_le_bytes, Z2Nat.id by lia.
    by destruct b.
Qed.

(** ** Pages generated code was compiled from *)

(** What the embedder and the hart do to the bus. *)
Inductive bus_op : Type :=
| OMark (pa : Z)
| OUnmark (page : Z)
| OTake
| ORead (n addr : Z)
| OWrite (n addr val : Z)
| OLines.

Definition bus_step (b : bus_t) (o : bus_op) : bus_t :=
  match o with
  | OMark pa => jit_mark_page pa b
  | OUnmark page => jit_unmark_page page b
  | OTake => snd (jit_take_dirty b)
  | ORead n addr => snd (virt_read n addr b)
  | OWrite n addr val => snd (virt_write n addr val b)
  | OLines => snd (virt_irq_lines b)
  end.

Definition bus_steps (ops : list bus_op) (b : bus_t) : bus_t := foldl bus_step b ops.

(** *** How long an offset stays good *)

(** The page is not marked, if the offset is for stores; no device moves memory. *)
Definition keeps_grant (page : Z) (store : bool) (o : bus_op) : Prop :=
  match o with
  | OMark pa => uint 64 pa /\ (store = true -> page_of pa <> page)
  | OUnmark page' => 0 <= page'
  | OWrite n addr _ =>
      0 < n /\ in_range VIRTIO_BASE (VIRTIO_BASE + VIRTIO_COUNT * VIRTIO_SIZE) addr = false
  | _ => True
  end.

Definition grant_kept (page : Z) (store : bool) (b b' : bus_t) : Prop :=
  b'.(ram_ptr) = b.(ram_ptr) /\ size b' = size b /\
  (store = true -> jit_page_marked b page = false -> jit_page_marked b' page = false).

(** Updating the word of a page leaves an unmarked page unmarked, if the new
    word does. *)
Lemma unmarked_update (b : bus_t) page idx w w' :
  b.(jit_pages) !! Z.to_nat idx = Some w ->
  (Z.to_nat idx = Z.to_nat (page / 64) -> Z.testbit w (page mod 64) = false -> Z.testbit w' (page mod 64) = false) ->
  jit_page_marked b page = false -> jit_page_marked (set_jit_pages (aset b.(jit_pages) idx w') b) page = false.
Proof.
  intros Hw Hk. rewrite !jit_page_marked_bit. cbn [set_jit_pages jit_pages]. unfold aset.
  destruct (decide (Z.to_nat idx = Z.to_nat (page / 64))) as [E|E].
  - rewrite <- E, Hw, list_lookup_insert_eq by (by eapply lookup_lt_Some). by apply Hk.
  - by rewrite list_lookup_insert_ne.
Qed.

Lemma mmio_kept_ptr addr n val (b : bus_t) :
  ram_ptr (snd (mmio_read addr n b)) = ram_ptr b /\
  (in_range VIRTIO_BASE (VIRTIO_BASE + VIRTIO_COUNT * VIRTIO_SIZE) addr = false ->
   ram_ptr (snd (mmio_write addr val b)) = ram_ptr b).
Proof.
  split; [|intros Hv]; [unfold mmio_read|unfold mmio_write; rewrite Hv]; repeat case_match; done.
Qed.

(** An access inside a page, which does not make a device move memory, and no
    collection of the reports or removal of the page. *)
Definition plain (page : Z) (o : bus_op) : Prop :=
  match o with
  | OMark pa => uint 64 pa
  | OUnmark page' => 0 <= page' /\ page' <> page
  | OTake => False
  | OWrite n addr _ =>
      0 < n /\ (addr - RAM_BASE) mod 4096 + n <= 4096 /\
      in_range VIRTIO_BASE (VIRTIO_BASE + VIRTIO_COUNT * VIRTIO_SIZE) addr = false
  | _ => True
  end.

(** The bytes of a page. *)
Definition page_bytes (l : list Z) (page : Z) (i : Z) : option Z := l !! Z.to_nat (4096 * page + i).
Definition same_page (l l' : list Z) (page : Z) : Prop :=
  forall i, 0 <= i < 4096 -> page_bytes l page i = page_bytes l' page i.

(** The code-page state a device register leaves alone. *)
Definition code_kept (b b' : bus_t) : Prop :=
  b'.(ram) = b.(ram) /\ b'.(jit_pages) = b.(jit_pages) /\ b'.(jit_dirty_pages) = b.(jit_dirty_pages).

Lemma mmio_read_kept addr n (b : bus_t) : code_kept b (snd (mmio_read addr n b)).
Proof.
  unfold mmio_read. repeat case_match; cbn [snd]; done.
Qed.

Lemma mmio_write_kept addr val (b : bus_t) :
  in_range VIRTIO_BASE (VIRTIO_BASE + VIRTIO_COUNT * VIRTIO_SIZE) addr = false ->
  code_kept b (snd (mmio_write addr val b)).
Proof.
  intros Hv. unfold mmio_write. cbv zeta. rewrite Hv.
  repeat case_match; done.
Qed.

Lemma grant_step (b : bus_t) page store o :
  0 <= page -> keeps_grant page store o -> grant_kept page store b (bus_step b o).
Proof.
  intros Hp Ho. unfold grant_kept, size. destruct o as [pa|page'| |n addr|n addr val|]; cbn [bus_step keeps_grant] in *; try done.
  - destruct Ho as [Hu Hne]. unfold jit_mark_page. destruct (Z.leb_spec RAM_BASE pa); [|done].
    destruct (_ !! _) as [w|] eqn:Hw; [|done]. split_and!; [done..|]. intros Hs.
    apply (unmarked_update b page _ w _ Hw). intros E Hb. specialize (Hne Hs).
    rewrite Z.lor_spec, testbit_pow, Hb by apply mod_bound_64. apply Z.eqb_neq. intros Em. apply Hne.
    assert (0 <= page_of pa) by (rewrite page_of_div; apply Z.div_pos; lia).
    apply Z2Nat.inj in E; [|apply Z.div_pos; lia..]. rewrite (Z.div_mod (page_of pa) 64), (Z.div_mod page 64); lia.
  - unfold jit_unmark_page. destruct (_ !! _) as [w|] eqn:Hw; [|done]. split_and!; [done..|]. intros _.
    apply (unmarked_update b page _ w _ Hw). intros _ Hb. by rewrite Z.ldiff_spec, Hb.
  - unfold virt_read. destruct (ram_slice b addr n); [done|].
    pose proof (mmio_read_kept addr n b) as (Er & Ej & _). pose proof (proj1 (mmio_kept_ptr addr n 0 b)) as Ep.
    destruct (mmio_read addr n b) as [[v|] b']; cbn [snd] in *; unfold jit_page_marked; by rewrite Er, Ej, Ep.
  - destruct Ho as [Hn Hv]. destruct (decide (in_ram b addr n)) as [Hi|Ho].
    + rewrite write_in by done. cbn [snd]. destruct Hi as (_ & Hlo & Hhi). unfold size in Hhi.
      rewrite check_store_eq. destruct (marked b addr); cbn [set_ram set_jit_dirty_pages ram_ptr ram];
        (split; [done|split; [|done]]); unfold patch; rewrite !length_app, length_take, length_drop, length_to_le_bytes; lia.
    + unfold virt_write. set (c := jit_check_store addr b).
      assert (ram c = ram b /\ jit_pages c = jit_pages b /\ ram_ptr c = ram_ptr b) as (Hr & Hj & Hq)
        by (unfold c; rewrite check_store_eq; by destruct (marked b addr)).
      rewrite ram_slice_out by (unfold in_ram, size in *; rewrite ?Hr; done). unfold bind.
      destruct (mmio_write_kept addr val c Hv) as (Er & Ej & _). pose proof (proj2 (mmio_kept_ptr addr 0 val c) Hv) as Eq.
      destruct (mmio_write addr val c) as [[[]|e|] b'']; cbn [snd] in *; unfold jit_page_marked; cbn;
        by rewrite Er, Ej, Eq, Hr, Hj, Hq.
Qed.

Lemma grant_steps page store ops (b : bus_t) :
  0 <= page -> Forall (keeps_grant page store) ops -> grant_kept page store b (bus_steps ops b).
Proof.
  intros Hp. unfold bus_steps. revert b. induction ops as [|o ops IH]; intros b Ho; [by split_and!|].
  apply Forall_cons_iff in Ho as [Ho Hops]. cbn [foldl].
  destruct (grant_step b page store o Hp Ho) as (E1 & E2 & E3).
  destruct (IH (bus_step b o) Hops) as (F1 & F2 & F3). split_and!; [congruence|congruence|auto].
Qed.

Lemma fast_off_kept (b b' : bus_t) va pa off store :
  grant_kept (page_of pa) store b b' ->
  virt_jit_fast_off b va pa store = Some off -> virt_jit_fast_off b' va pa store = Some off.
Proof.
  intros (Ep & Es & Em). unfold virt_jit_fast_off, size in *. rewrite Ep, Es.
  destruct (_ || _); [done|].
  assert (forall c : bus_t, match jit_pages c !! Z.to_nat (page_of pa / 64) with
    | Some word => negb (((word .>> (page_of pa .& 63)) .& 1) =? 0) | None => false end = jit_page_marked c (page_of pa)) as E.
  { intros c. rewrite jit_page_marked_bit. destruct (_ !! _) as [w|]; [|done].
    rewrite (land_ones_lit _ 63 6) by done. by rewrite shift_bit by apply mod_bound_64. }
  rewrite !E. destruct store; [cbn [andb]|done].
  destruct (jit_page_marked b (page_of pa)); [done|]. by rewrite Em.
Qed.

(** C10: When the bus grants generated code a host offset for a page, then, as
    long as no device moves memory and, for stores, the page is not marked as
    compiled, a load of any width inside that page through the offset is the
    load through the bus; and when the offset was granted for stores, so is a
    store, the page is not a compiled one, and no page is reported as changed. *)
Theorem virt_fast_path_sound (b0 : bus_t) ops va pa off va' n val store :
  0 <= b0.(ram_ptr) -> b0.(ram_ptr) + size b0 <= 2 ^ 63 ->
  uint 64 va -> uint 64 pa -> uint 64 va' -> va mod 4096 = pa mod 4096 ->
  va' / 4096 = va / 4096 -> 0 < n -> va' mod 4096 + n <= 4096 ->
  virt_jit_fast_off b0 va pa store = Some off -> Forall (keeps_grant (page_of pa) store) ops ->
  let b := bus_steps ops b0 in
  let address := add64 va' (u64 off) in
  let pa' := pa + (va' - va) in
  virt_read n pa' b = (Ok (host_get n address b), b) /\
  (store = true ->
   virt_write n pa' val b = (Ok tt, host_put n address val b) /\
   (host_put n address val b).(jit_dirty_pages) = b.(jit_dirty_pages) /\
   marked b pa' = false).
Proof.
  intros Hp Hs Hva Hpa Hva' Hoff Hpage Hn Hin Hf Hops b.
  assert (0 <= page_of pa) as Hpg.
  { unfold virt_jit_fast_off in Hf. destruct (Z.ltb_spec pa RAM_BASE); [done|].
    rewrite page_of_div. apply Z.div_pos; lia. }
  pose proof (grant_steps (page_of pa) store ops b0 Hpg Hops) as Hk. fold b in Hk.
  pose proof Hk as (Ep & Es & _). apply fast_path_now; rewrite ?Ep, ?Es; try done.
  by eapply fast_off_kept.
Qed.

Lemma patch_other l off bytes i :
  0 <= off -> off + Z.of_nat (length bytes) <= Z.of_nat (length l) ->
  0 <= i -> i < off \/ off + Z.of_nat (length bytes) <= i ->
  patch l off bytes !! Z.to_nat i = l !! Z.to_nat i.
Proof.
  intros Ho Hl Hi Hout. unfold patch. destruct Hout as [Hlt|Hge].
  - rewrite lookup_app_l by (rewrite length_take; lia). by rewrite lookup_take_lt by lia.
  - rewrite lookup_app_r by (rewrite length_take; lia).
    rewrite lookup_app_r by (rewrite length_take; lia). rewrite length_take, lookup_drop.
    f_equal. lia.
Qed.

Lemma page_coord a p : 0 <= a -> 0 <= p -> a / 4096 <> p -> a + (4096 - a mod 4096) <= 4096 * p \/ 4096 * (p + 1) <= a.
Proof. intros. Z.div_mod_to_equations. lia. Qed.

(** A write inside one page: the page is reported if it is marked, and every
    other page keeps its bytes. *)
Lemma write_page (b : bus_t) n addr val page :
  plain page (OWrite n addr val) -> 0 <= page -> jit_page_marked b page = true ->
  let b' := bus_step b (OWrite n addr val) in
  jit_page_marked b' page = true /\
  (forall q, q ∈ b.(jit_dirty_pages) -> q ∈ b'.(jit_dirty_pages)) /\
  (same_page b.(ram) b'.(ram) page \/ page ∈ b'.(jit_dirty_pages)).
Proof.
  intros (Hn & Hc & Hv) Hp Hm. cbn [bus_step]. cbv zeta.
  assert (ram (jit_check_store addr b) = ram b /\ jit_pages (jit_check_store addr b) = jit_pages b /\
    (forall q, q ∈ b.(jit_dirty_pages) -> q ∈ (jit_check_store addr b).(jit_dirty_pages)) /\
    (marked b addr = true -> page_of addr ∈ (jit_check_store addr b).(jit_dirty_pages))) as (Hr & Hj & Hd & Hk).
  { rewrite check_store_eq. destruct (marked b addr); split_and!; try done.
    - intros q Hq. cbn. apply elem_of_app. by left.
    - intros _. cbn. apply elem_of_app. right. by apply list_elem_of_singleton. }
  destruct (decide (in_ram b addr n)) as [Hi|Ho].
  - rewrite write_in by done. cbn [snd]. unfold jit_page_marked. cbn [set_ram jit_pages jit_dirty_pages ram].
    rewrite Hj. split; [done|]. split; [done|].
    destruct Hi as (_ & Hlo & Hhi). unfold size in Hhi.
    destruct (decide ((addr - RAM_BASE) / 4096 = page)) as [Epg|Hne].
    + right. rewrite <- page_of_div in Epg. rewrite <- Epg. apply Hk. unfold marked.
      rewrite Epg, Hm, andb_true_r. by apply Z.leb_le.
    + left. intros i Hi'. unfold page_bytes. symmetry.
      pose proof (page_coord (addr - RAM_BASE) page ltac:(lia) Hp Hne) as Hpc.
      apply patch_other; rewrite ?length_to_le_bytes, ?Z2Nat.id; lia.
  - unfold virt_write. rewrite ram_slice_out by (unfold in_ram, size in *; rewrite ?Hr; done).
    unfold bind.
    destruct (mmio_write_kept addr val (jit_check_store addr b) Hv) as (Er & Ej & Ed).
    destruct (mmio_write addr val _) as [[[]|e|] b'']; cbn [snd] in *;
      unfold jit_page_marked; cbn; rewrite ?Er, ?Ej, ?Ed, ?Hr, ?Hj; (split; [done|split; [done|by left]]).
Qed.

(** Updating the word of one page keeps another page's bit, if the word does. *)
Lemma marked_update (b : bus_t) page idx w w' :
  b.(jit_pages) !! Z.to_nat idx = Some w ->
  (Z.to_nat idx = Z.to_nat (page / 64) -> Z.testbit w (page mod 64) = true -> Z.testbit w' (page mod 64) = true) ->
  jit_page_marked b page = true -> jit_page_marked (set_jit_pages (aset b.(jit_pages) idx w') b) page = true.
Proof.
  intros Hw Hk. rewrite !jit_page_marked_bit. cbn [set_jit_pages jit_pages]. unfold aset.
  destruct (decide (Z.to_nat idx = Z.to_nat (page / 64))) as [E|E].
  - rewrite <- E, Hw, list_lookup_insert_eq by (by eapply lookup_lt_Some). by apply Hk.
  - by rewrite list_lookup_insert_ne.
Qed.

(** What every plain step keeps of a marked page. *)
Lemma step_marked (b : bus_t) o page :
  plain page o -> 0 <= page -> jit_page_marked b page = true ->
  jit_page_marked (bus_step b o) page = true /\
  (forall q, q ∈ b.(jit_dirty_pages) -> q ∈ (bus_step b o).(jit_dirty_pages)) /\
  (same_page b.(ram) (bus_step b o).(ram) page \/ page ∈ (bus_step b o).(jit_dirty_pages)).
Proof.
  intros Ho Hp Hm. destruct o as [pa|page'| |n addr|n addr val|].
  - cbn [bus_step]. unfold jit_mark_page. destruct (_ <=? _) eqn:Eb; [|split; [done|split; [done|by left]]].
    cbv zeta. destruct (_ !! _) as [w|] eqn:Ew; [|split; [done|split; [done|by left]]].
    split; [|split; [done|by left]]. apply (marked_update _ _ _ w); [done| |done].
    intros _ Hb. by rewrite Z.lor_spec, Hb.
  - destruct Ho as [Hp' Hne]. cbn [bus_step]. unfold jit_unmark_page.
    destruct (_ !! _) as [w|] eqn:Ew; [|split; [done|split; [done|by left]]].
    split; [|split; [done|by left]]. apply (marked_update _ _ _ w); [done| |done].
    intros Ei Hb. pose proof (mod_bound_64 page'). pose proof (mod_bound_64 page).
    rewrite Z.ldiff_spec, testbit_pow, Hb by lia. apply negb_true_iff, Z.eqb_neq.
    assert (page' / 64 = page / 64) by (apply Z2Nat.inj; [apply Z.div_pos; lia|apply Z.div_pos; lia|done]).
    intros Em. apply Hne. rewrite (Z.div_mod page' 64), (Z.div_mod page 64); lia.
  - done.
  - cbn [bus_step]. unfold virt_read. destruct (ram_slice b addr n); [split; [done|split; [done|by left]]|].
    pose proof (mmio_read_kept addr n b) as (Er & Ej & Ed).
    destruct (mmio_read addr n b) as [[v|] b']; cbn [snd] in *; unfold jit_page_marked;
      rewrite Er, Ej, Ed; (split; [done|split; [done|by left]]).
  - by apply write_page.
  - split; [done|split; [done|by left]].
Qed.

(** C14: Changes of compiled code by the hart do not go unreported: once a page
    is marked, and until the embedder collects the reports or unmarks it, any
    sequence of marks, reads, interrupt polls, memory writes that do not cross a
    page boundary, and register writes of the devices that do not move memory
    (all but virtio) leaves its bytes as they were at the marking, or the page is
    among the reports. *)
Theorem compiled_page_changes_reported (b : bus_t) ops page :
  0 <= page -> jit_page_marked b page = true -> Forall (plain page) ops ->
  same_page b.(ram) (bus_steps ops b).(ram) page \/ page ∈ (bus_steps ops b).(jit_dirty_pages).
Proof.
  intros Hp. unfold bus_steps. revert b. induction ops as [|o ops IH]; intros b Hm Hops; [by left|].
  apply Forall_cons_iff in Hops as [Ho Hops]. cbn [foldl].
  destruct (step_marked b o page Ho Hp Hm) as (Hm' & Hd & Hs).
  assert (forall l (c : bus_t), page ∈ c.(jit_dirty_pages) -> jit_page_marked c page = true ->
    Forall (plain page) l -> page ∈ (foldl bus_step c l).(jit_dirty_pages)) as Hstay.
  { clear -Hp. induction l as [|o l IH]; intros c Hin Hc Hl; [done|]. apply Forall_cons_iff in Hl as [Ho Hl].
    destruct (step_marked c o page Ho Hp Hc) as (Hc' & Hd & _). cbn [foldl]. apply IH; auto. }
  destruct Hs as [Hs|Hs]; [|right; by apply Hstay].
  destruct (IH _ Hm' Hops) as [Hs'|]; [|by right]. left. intros i Hi. by rewrite Hs, Hs'.
Qed.

(** ** The promise of the bus *)

(** A device's queue may panic on a malformed chain, so the promise is made for
    a board without virtio devices. *)
Definition virt_wf (b : bus_t) : Prop := Forall (uint 8) b.(ram) /\ b.(virtio) = [] /\ uint 64 b.(mtime).

Lemma mmio_read_wf addr n (b : bus_t) : virt_wf b -> virt_wf (snd (mmio_read addr n b)).
Proof. intros Hb. unfold mmio_read. repeat case_match; done. Qed.

Lemma mmio_write_wf addr val (b : bus_t) :
  virt_wf b -> exists done, fst (mmio_write addr val b) = Ok done /\ virt_wf (snd (mmio_write addr val b)).
Proof.
  intros Hb. pose proof (proj1 (proj2 Hb)) as Hv. unfold mmio_write. cbv zeta. unfold bind, gets, modify, ret.
  destruct (in_range TEST_BASE _ addr); [destruct (_ || _); eexists; split; done|].
  destruct (in_range CLINT_BASE _ addr); [destruct (_ =? 0); [|destruct (_ =? 0x4000)]; eexists; split; done|].
  destruct (in_range PLIC_BASE _ addr); [eexists; split; done|].
  destruct (in_range UART_BASE _ addr); [eexists; split; done|].
  destruct (in_range GOLDFISH_RTC_BASE _ addr); [eexists; split; done|].
  destruct (in_range VIRTIO_BASE _ addr); [rewrite Hv; eexists; split; done|eexists; split; done].
Qed.

Lemma check_store_wf addr (b : bus_t) : virt_wf b -> virt_wf (jit_check_store addr b).
Proof. rewrite check_store_eq. by destruct (marked b addr). Qed.

Lemma bytes_word n l off : 0 <= n -> Forall (uint 8) l -> uint (8 * n) (word (Z.to_nat n) l off).
Proof.
  intros Hn Hl. unfold word.
  pose proof (from_le_bytes_range (take (Z.to_nat n) (drop (Z.to_nat off) l))) as Hr.
  eapply uint_mono; [|apply Hr; by apply Forall_take, Forall_drop]. rewrite length_take. lia.
Qed.

Lemma virt_read_ok n addr : uint 64 addr -> 0 < n -> hoare virt_wf (virt_read n addr) (uint (8 * n)).
Proof.
  intros Ha Hn b Hb. destruct (decide (in_ram b addr n)) as [Hi|Ho].
  - rewrite read_in by done. split; [done|]. apply bytes_word; [lia|apply Hb].
  - unfold virt_read. rewrite ram_slice_out by done. pose proof (mmio_read_wf addr n b Hb) as Hw.
    destruct (mmio_read addr n b) as [[v|] b']; cbn [snd] in *; split; try done. apply uint_wrap. lia.
Qed.

Lemma patch_bytes l off bytes : Forall (uint 8) l -> Forall (uint 8) bytes -> Forall (uint 8) (patch l off bytes).
Proof. intros. unfold patch. rewrite !Forall_app. split_and!; [by apply Forall_take|done|by apply Forall_drop]. Qed.

Lemma virt_write_ok n addr val : uint 64 addr -> 0 < n -> hoare virt_wf (virt_write n addr val) (fun _ => True).
Proof.
  intros Ha Hn b Hb. pose proof (check_store_wf addr b Hb) as Hc.
  destruct (decide (in_ram b addr n)) as [Hi|Ho].
  - rewrite write_in by done. split; [|done]. split; [|apply Hc].
    apply patch_bytes; [apply Hb|apply to_le_bytes_bytes].
  - unfold virt_write. rewrite ram_slice_out
      by (try done; unfold in_ram, size in *; rewrite check_store_eq; by destruct (marked b addr)).
    destruct (mmio_write_wf addr val _ Hc) as (d & E & Hw). unfold bind.
    destruct (mmio_write addr val _) as [o b'] eqn:Em. cbn [fst snd] in *. subst o.
    destruct d; split; done.
Qed.

Lemma line_uint (c : bool) l v : uint 64 l -> uint 64 v -> uint 64 (if c then l .| v else l).
Proof. intros. destruct c; [by apply uint_lor|done]. Qed.

#[global, refine] Instance VirtBus_BusOk : BusOk bus_t := { bus_wf := virt_wf }.
Proof.
  - intros. apply (virt_read_ok 1); [done|lia].
  - intros. apply (virt_read_ok 2); [done|lia].
  - intros. apply (virt_read_ok 4); [done|lia].
  - intros. apply (virt_read_ok 8); [done|lia].
  - intros. apply (virt_write_ok 1); [done|lia].
  - intros. apply (virt_write_ok 2); [done|lia].
  - intros. apply (virt_write_ok 4); [done|lia].
  - intros. apply (virt_write_ok 8); [done|lia].
  - intros. apply hoare_map_err; [done|]. apply (virt_read_ok 2); [done|lia].
  - intros b Hb. split; [|done]. unfold irq_lines. cbn -[virt_irq_lines]. unfold virt_irq_lines. cbn [fst].
    repeat apply line_uint; done.
  - intros n a b [Hb _] Hn. unfold host_load. cbn. unfold host_get.
    apply (bytes_word n b.(ram)); [lia|done].
  - intros n a v b (Hb & Hv & Ht). split; [|done]. cbn. rewrite !Forall_app.
    split_and!; [by apply Forall_take|apply to_le_bytes_bytes|by apply Forall_drop].
Defined.

(** ** Interrupt lines *)

(** Does the device at source [j] raise its line? *)
Definition asserted (b : bus_t) (j : Z) : bool :=
  (UART_IRQ =? j) && Uart.irq b.(uart) || (GOLDFISH_RTC_IRQ =? j) && Rtc.irq b.(rtc)
  || (VIRTIO_IRQ_BASE <=? j)
     && match b.(virtio) !! Z.to_nat (j - VIRTIO_IRQ_BASE) with Some d => irq_pending d | None => false end.

(** Would source [j] interrupt context [ctx]?  Its line is high, it is enabled
    and not in service, and its priority is above the threshold. *)
Definition interrupts (b : bus_t) (ctx j : Z) : Prop :=
  0 <= j /\ asserted b j = true /\ Z.testbit (aget b.(plic).(Plic.enable) ctx) j = true /\
  Z.testbit b.(plic).(Plic.claimed) j = false /\
  aget b.(plic).(Plic.threshold) ctx < aget b.(plic).(Plic.priority) j.

Lemma device_bits l i p j :
  0 <= i -> 0 <= j ->
  Z.testbit (snd (foldl (fun '(i, p) (d : VirtioDev S) =>
    (i + 1, if irq_pending d then p .| (1 .<< (VIRTIO_IRQ_BASE + i)) else p)) (i, p) l)) j
  = Z.testbit p j || ((VIRTIO_IRQ_BASE + i <=? j)
      && match l !! Z.to_nat (j - VIRTIO_IRQ_BASE - i) with Some d => irq_pending d | None => false end).
Proof.
  unfold VIRTIO_IRQ_BASE. intros Hi Hj. revert i p Hi. induction l as [|d l IH]; intros i p Hi; cbn [foldl].
  - rewrite lookup_nil. cbn [snd]. by rewrite andb_false_r, orb_false_r.
  - rewrite IH by lia.
    assert (Z.testbit (if irq_pending d then p .| (1 .<< (1 + i)) else p) j
            = Z.testbit p j || irq_pending d && (1 + i =? j)) as ->.
    { destruct (irq_pending d); [|by rewrite orb_false_r]. by rewrite Z.lor_spec, testbit_pow by lia. }
    rewrite <- orb_assoc. f_equal.
    destruct (Z.eqb_spec (1 + i) j) as [<-|Hne].
    + replace (Z.to_nat (1 + i - 1 - i)) with O by lia. cbn [lookup list_lookup].
      rewrite Z.leb_refl, (proj2 (Z.leb_gt (1 + (i + 1)) (1 + i))) by lia.
      by rewrite andb_true_r, andb_false_l, orb_false_r.
    + rewrite andb_false_r. cbn [orb].
      destruct (Z.leb_spec (1 + i) j), (Z.leb_spec (1 + (i + 1)) j); try lia; try done.
      replace (Z.to_nat (j - 1 - i)) with (Datatypes.S (Z.to_nat (j - 1 - (i + 1)))) by lia. done.
Qed.

Lemma lines_bit (b : bus_t) j : 0 <= j -> Z.testbit (lines b) j = asserted b j.
Proof.
  intros Hj. unfold lines. rewrite device_bits by lia. unfold asserted, VIRTIO_IRQ_BASE.
  replace (1 + 0) with 1 by lia. rewrite Z.sub_0_r. f_equal.
  unfold UART_IRQ, GOLDFISH_RTC_IRQ.
  destruct (Uart.irq _), (Rtc.irq _); rewrite ?Z.lor_spec, ?testbit_pow, ?Z.bits_0 by lia;
    by rewrite ?andb_true_r, ?andb_false_r, ?orb_false_r, ?orb_false_l.
Qed.

Lemma lines_range (b : bus_t) : (length b.(virtio) <= 8)%nat -> uint 32 (lines b).
Proof.
  intros Hl. assert (0 <= lines b) as Hn.
  { unfold lines. apply Z.bits_iff_nonneg_ex. exists 64. intros j Hj.
    rewrite device_bits by lia. rewrite (lookup_ge_None_2 (virtio b)) by (unfold VIRTIO_IRQ_BASE; lia).
    rewrite andb_false_r, orb_false_r. unfold UART_IRQ, GOLDFISH_RTC_IRQ.
    destruct (Uart.irq _), (Rtc.irq _); rewrite ?Z.lor_spec, ?testbit_pow, ?Z.bits_0 by lia;
      repeat match goal with |- context [?x =? j] => destruct (Z.eqb_spec x j); [lia|] end; done. }
  apply uint_testbit; [lia|done|]. intros j Hj. rewrite lines_bit by lia. unfold asserted.
  rewrite (lookup_ge_None_2 (virtio b)) by (unfold VIRTIO_IRQ_BASE; lia). unfold UART_IRQ, GOLDFISH_RTC_IRQ.
  repeat match goal with |- context [?x =? j] => destruct (Z.eqb_spec x j); [lia|] end. by rewrite andb_false_r.
Qed.

Lemma wf_refresh (b : bus_t) :
  PlicSpec.wf b.(plic) -> (length b.(virtio) <= 8)%nat -> PlicSpec.wf (plic (refresh_plic b)).
Proof. intros [] Hl. constructor; try done. by apply lines_range. Qed.

Lemma deliverable_interrupts (b : bus_t) ctx j :
  PlicSpec.deliverable (plic (refresh_plic b)) ctx j <-> interrupts b ctx j.
Proof.
  unfold PlicSpec.deliverable, interrupts. cbn [refresh_plic set_plic plic Plic.set_pending
    Plic.pending Plic.enable Plic.claimed Plic.threshold Plic.priority].
  split; intros (Hj & Hp & ?); [rewrite lines_bit in Hp by done|rewrite lines_bit by done]; done.
Qed.

Lemma context_pending (b : bus_t) ctx :
  PlicSpec.wf b.(plic) -> (length b.(virtio) <= 8)%nat -> 0 <= ctx < Plic.CONTEXTS ->
  Plic.pending_ctx (plic (refresh_plic b)) ctx = true <-> exists j, interrupts b ctx j.
Proof.
  intros Hw Hl Hc.
  destruct (PlicSpec.best_cases (plic (refresh_plic b)) ctx (wf_refresh b Hw Hl) Hc)
    as [[Hb Hn]|(Hr & Hd & _)]; unfold Plic.pending_ctx.
  - rewrite Hb. split; [done|]. intros [j Hj]. by apply deliverable_interrupts, Hn in Hj.
  - split; [|intros _; apply negb_true_iff, Z.eqb_neq; lia]. intros _. eexists. by apply deliverable_interrupts.
Qed.

(** Each line of the sample. *)
Lemma irq_line_bit (b : bus_t) j :
  0 <= j -> Z.testbit (fst (virt_irq_lines b)) j
    = (7 =? j) && negb b.(direct_sbi) && (b.(mtimecmp) <=? b.(mtime)) || (3 =? j) && b.(msip)
      || (11 =? j) && Plic.pending_ctx (plic (refresh_plic b)) 0
      || (9 =? j) && Plic.pending_ctx (plic (refresh_plic b)) 1.
Proof.
  intros Hj. unfold virt_irq_lines. cbn [fst]. cbv zeta.
  assert (forall (c : bool) x n, 0 <= n ->
    Z.testbit (if c then x .| (1 .<< n) else x) j = Z.testbit x j || (n =? j) && c) as Hline.
  { intros c x n Hn. destruct c; [|by rewrite andb_false_r, orb_false_r].
    by rewrite Z.lor_spec, testbit_pow, andb_true_r. }
  change IRQ_SEIP with (1 .<< 9). change IRQ_MEIP with (1 .<< 11).
  change IRQ_MSIP with (1 .<< 3). change IRQ_MTIP with (1 .<< 7).
  rewrite !Hline, Z.bits_0 by lia. cbn [orb refresh_plic set_plic direct_sbi mtimecmp mtime msip].
  by rewrite andb_assoc.
Qed.

(** C18: The interrupt lines the hart samples: the machine timer exactly when the
    comparison has passed on a board without the host's SBI, the software
    interrupt as written, and the external interrupt of each mode exactly when
    some device raises a source that is enabled for that mode, not in service
    and above its threshold; no other line is ever high. *)
Theorem virt_irq_lines_spec (b : bus_t) :
  PlicSpec.wf b.(plic) -> (length b.(virtio) <= 8)%nat ->
  let l := fst (virt_irq_lines b) in
  (Z.testbit l 7 = true <-> b.(direct_sbi) = false /\ b.(mtimecmp) <= b.(mtime)) /\
  Z.testbit l 3 = b.(msip) /\
  (Z.testbit l 11 = true <-> exists j, interrupts b 0 j) /\
  (Z.testbit l 9 = true <-> exists j, interrupts b 1 j) /\
  (forall j, 0 <= j -> j <> 3 -> j <> 7 -> j <> 9 -> j <> 11 -> Z.testbit l j = false).
Proof.
  intros Hw Hl l.
  assert (forall j, 0 <= j -> _) as Hbit by (intros j Hj; exact (irq_line_bit b j Hj)). fold l in Hbit.
  rewrite <- !context_pending by done.
  split_and!; try (rewrite Hbit by lia; cbn [Z.eqb Pos.eqb andb orb]).
  - rewrite !orb_false_r, andb_true_iff, negb_true_iff, Z.leb_le. done.
  - by rewrite !orb_false_r.
  - by rewrite !orb_false_r.
  - done.
  - intros j Hj H3 H7 H9 H11. rewrite Hbit by done.
    repeat match goal with |- context [?x =? j] => destruct (Z.eqb_spec x j); [lia|] end. done.
Qed.
End Bus.

(** ** A concrete board for the witnesses *)

(** Two pages of memory, the second compiled, and a received byte that the
    serial port reports to the enabled supervisor context. *)
Definition demo_board : VirtBus.t unit :=
  VirtBus.mk (replicate (Z.to_nat 8192) 0) 0x10000 5 7 false Rtc.new
    (Plic.mk (replicate 32 1) 0 [0; 0x400] [0; 0] 0) (Uart.mk 1 0 0 0 [65] [] false) [] false false [2] [].

Lemma virt_fast_path_sound_witness :
  VirtBus.virt_jit_fast_off demo_board 0x4000 0x80000000 true = Some (0x10000 - 0x4000) /\
  let b := bus_steps [OMark 0x80001000; OLines] demo_board in
  VirtBus.virt_write 8 0x80000010 77 b = (Ok tt, VirtBus.host_put 8 0x10010 77 b).
Proof.
  split; [vm_compute; reflexivity|]. intros b.
  assert (Forall (keeps_grant 0 true) [OMark 0x80001000; OLines]) as Hops.
  { constructor; [|by constructor]. split; [split; done|]. intros _. vm_compute. congruence. }
  destruct (virt_fast_path_sound demo_board [OMark 0x80001000; OLines] 0x4000 0x80000000 (0x10000 - 0x4000) 0x4010 8 77 true
    ltac:(vm_compute; congruence) ltac:(vm_compute; congruence) ltac:(split; done) ltac:(split; done) ltac:(split; done)
    eq_refl eq_refl eq_refl ltac:(vm_compute; congruence) ltac:(vm_compute; reflexivity) Hops) as [_ Hst].
  exact (proj1 (Hst eq_refl)).
Defined.

Lemma compiled_page_changes_reported_witness :
  let ops := [OWrite 4 0x80001010 9; OLines] in
  same_page (VirtBus.ram demo_board) (VirtBus.ram (bus_steps ops demo_board)) 1
  \/ 1 ∈ VirtBus.jit_dirty_pages (bus_steps ops demo_board).
Proof.
  apply (compiled_page_changes_reported demo_board [OWrite 4 0x80001010 9; OLines] 1);
    [lia|vm_compute; reflexivity|].
  constructor; [|constructor; [exact I|constructor]]. vm_compute. split; [done|split; [congruence|done]].
Defined.

(** A console with a byte of input and one buffer, in page 1, which holds
    compiled code. *)
Definition console_board : VirtBus.t unit :=
  VirtBus.mk
    (to_le_bytes 8 (0x80000000 + 4096) ++ to_le_bytes 4 1 ++ to_le_bytes 2 2 ++ to_le_bytes 2 0 ++
     to_le_bytes 4 0x10000 ++ replicate (Z.to_nat 8172) 0)
    0x10000 5 7 false Rtc.new Plic.new Uart.new
    [set_queues [mkQueue 1 1 0x80000000 (0x80000000 + 16) (0x80000000 + 64) 0; default_queue] (new (Console [65] [] 80 25))]
    false false [2] [].

(** A device that moves memory reports no page: the notification lets the
    console change a page generated code was compiled from. *)
Lemma device_write_unreported :
  let b' := bus_step console_board (OWrite 4 (VIRTIO_BASE + 0x50) 0) in
  VirtBus.jit_page_marked console_board 1 = true /\
  page_bytes (VirtBus.ram console_board) 1 0 = Some 0 /\
  page_bytes (VirtBus.ram b') 1 0 = Some 65 /\ VirtBus.jit_dirty_pages b' = [].
Proof. vm_compute. by split_and!. Qed.

Lemma virt_irq_lines_spec_witness :
  fst (VirtBus.virt_irq_lines demo_board) = 1 .<< 9 /\ exists j, interrupts demo_board 1 j.
Proof.
  split; [vm_compute; reflexivity|].
  apply (virt_irq_lines_spec demo_board); [|cbn; lia|vm_compute; reflexivity].
  constructor; cbn; repeat constructor; done.
Defined.
