(* ===== verification/VirtTime.v ===== *)
(** * The board's clock, the host's SBI and the slices (Virt.v)

    The guest's two clocks agree and never run backwards, a halted hart is
    brought to its timer, an SBI call touches only what it names, and a slice
    ends without a panic. *)

From stdpp Require Import gmap.
From S2P Require Import Prelude Exception Csr State Bus Slices Mmu Trap CsrOps Vector Exec Step T0 Run Wf SafeMem SafeExec T0Equiv T0Run Retire.
From S2P Require Import Devices DevicesSpec Virtio VirtioSpec Dtb Virt TrapSpec VirtSpec.

Section Clock.
Context {S : Type} `{P9Server S} `{VectorUnit (VirtBus.t S)}.
Import VirtMachine.
Abbreviation mach := (VirtMachine.t S).
Abbreviation bus_mtime m := (VirtBus.mtime (bus m)).
Abbreviation deadline m := (VirtBus.mtimecmp (bus m)).
Abbreviation direct m := (VirtBus.direct_sbi (bus m)).

(** ** Synchronization *)

Definition ticks (m : mach) : Z := m.(cpu).(insn_count) / m.(insns_per_tick).

Definition realtime (m : mach) : bool := match m.(realtime_ticks) with Some _ => true | None => false end.

(** The board's time after a synchronization. *)
Definition now (m : mach) : Z :=
  match m.(realtime_ticks) with
  | Some wall => Z.max (bus_mtime m) wall
  | None => add64 (ticks m) m.(idle_ticks)
  end.

Definition synced (m : mach) : mach :=
  let b := VirtBus.set_mtime (now m) m.(bus) in
  set_cpu (match m.(cpu).(sys) with
           | None => m.(cpu)
           | Some s => set_sys (Some (sync_sys b m.(insns_per_tick) (ticks m) (realtime m) s)) m.(cpu)
           end) (set_bus b m).

Lemma sync_devices_ok (m : mach) : m.(insns_per_tick) <> 0 -> sync_devices m = (Ok tt, synced m).
Proof.
  intros Hn. unfold sync_devices, bind, machine, gets, checked_div, id.
  by rewrite (proj2 (Z.eqb_neq _ _) Hn).
Qed.

Lemma set_stip_bit t cmp s : Z.testbit (mip (set_stip t cmp s)) 5 = (cmp <=? t).
Proof.
  unfold set_stip. cbn [mip set_mip]. change IRQ_STIP with (1 .<< 5). destruct (cmp <=? t).
  - rewrite Z.lor_spec, testbit_pow by lia. by rewrite orb_true_r.
  - rewrite Z.ldiff_spec, testbit_pow by lia. by rewrite andb_false_r.
Qed.

(** C21: Synchronizing the devices sets both clocks the guest can read.  In
    virtual time the timer register and [rdtime] are the same number, the
    retired instructions at the configured rate plus the skipped idle time.
    Under a host clock the timer register reaches the host's time and never
    moves back, and [rdtime] is at least the timer register and at least what
    it was at any earlier instruction.  With the host's SBI the supervisor
    timer interrupt is pending exactly when the deadline has passed. *)
Theorem sync_clock (m : mach) s :
  0 < m.(insns_per_tick) -> m.(cpu).(sys) = Some s ->
  0 <= m.(cpu).(insn_count) -> 0 <= m.(idle_ticks) -> 0 <= bus_mtime m -> 0 <= s.(time_offset) ->
  ticks m + Z.max m.(idle_ticks) (Z.max (now m) s.(time_offset)) < 2 ^ 64 ->
  exists m' s', sync_devices m = (Ok tt, m') /\ m'.(cpu).(sys) = Some s' /\
    match m.(realtime_ticks) with
    | None =>
        bus_mtime m' = ticks m + m.(idle_ticks) /\ rdtime m'.(cpu).(insn_count) s' = bus_mtime m'
    | Some wall =>
        bus_mtime m <= bus_mtime m' /\ wall <= bus_mtime m' /\
        bus_mtime m' <= rdtime m'.(cpu).(insn_count) s' /\
        (s.(time_scale) = m.(insns_per_tick) ->
         forall earlier, 0 <= earlier <= m.(cpu).(insn_count) ->
         rdtime earlier s <= rdtime m'.(cpu).(insn_count) s')
    end /\
    (direct m = true -> Z.testbit (mip s') 5 = (deadline m' <=? bus_mtime m')).
Proof.
  intros Hp Es Hi Hidle Hm Ho Hmax.
  exists (synced m), (sync_sys (VirtBus.set_mtime (now m) m.(bus)) m.(insns_per_tick) (ticks m) (realtime m) s).
  split; [apply sync_devices_ok; lia|]. unfold synced. rewrite Es. split; [done|].
  assert (0 <= ticks m) as Ht by (apply Z.div_pos; lia).
  set (s' := sync_sys _ _ _ _ s).
  assert (time_scale s' = m.(insns_per_tick)) as Esc.
  { unfold s', sync_sys. destruct (VirtBus.direct_sbi _); done. }
  assert (time_offset s' = let o := saturating_sub (now m) (ticks m) in
          if realtime m then Z.max s.(time_offset) o else o) as Eo.
  { unfold s', sync_sys. by destruct (VirtBus.direct_sbi _). }
  split.
  - unfold rdtime. cbn [set_cpu set_bus bus cpu VirtBus.set_mtime VirtBus.mtime set_sys insn_count].
    rewrite Esc, Eo, (proj2 (Z.eqb_neq m.(insns_per_tick) 0)) by lia. fold (ticks m).
    unfold realtime, saturating_sub, now in *. cbv zeta. destruct (realtime_ticks m) as [wall|].
    + split_and!; try lia.
      * unfold add64. rewrite u64_id by lia. lia.
      * intros Esame earlier He. rewrite Esame, (proj2 (Z.eqb_neq m.(insns_per_tick) 0)) by lia.
        assert (earlier / m.(insns_per_tick) <= ticks m) as Hle by (apply Z.div_le_mono; lia).
        assert (0 <= earlier / m.(insns_per_tick)) by (apply Z.div_pos; lia).
        unfold add64. rewrite !u64_id by lia. lia.
    + unfold add64 in *. rewrite (u64_id (ticks m + idle_ticks m)) by lia.
      rewrite u64_id by lia. lia.
  - intros Hd. assert (mip s' = mip (set_stip (now m) (deadline m) s)) as ->.
    { unfold s', sync_sys. cbn [VirtBus.set_mtime VirtBus.direct_sbi VirtBus.mtime VirtBus.mtimecmp]. by rewrite Hd. }
    apply set_stip_bit.
Qed.

(** A halted hart is brought to its timer: in virtual time, when a slice
    ends with the hart waiting and a deadline is set, the clock has reached the
    deadline at the end of the slice, and the timer interrupt is raised, as the
    supervisor's pending bit with the host's SBI and on the machine timer line
    without it. *)
Theorem idle_reaches_deadline (m : mach) s start :
  0 < m.(insns_per_tick) -> m.(cpu).(sys) = Some s -> m.(realtime_ticks) = None ->
  0 <= m.(cpu).(insn_count) -> 0 <= m.(idle_ticks) ->
  0 <= bus_mtime m <= ticks m + m.(idle_ticks) ->
  ticks m + m.(idle_ticks) + deadline m < 2 ^ 64 -> 0 <= deadline m -> deadline m <> U64_MAX ->
  exists n m' s', slice_end start Wfi m = (Ok n, m') /\ m'.(cpu).(sys) = Some s' /\
    deadline m' = deadline m /\ deadline m' <= bus_mtime m' /\
    (direct m = true -> Z.testbit (mip s') 5 = true) /\
    (direct m = false -> Z.testbit (fst (VirtBus.virt_irq_lines m'.(bus))) 7 = true).
Proof.
  intros Hp Es Er Hi Hidle Hm Hmax Hd Hne.
  assert (0 <= ticks m) as Ht by (apply Z.div_pos; lia).
  set (m1 := skip_idle m).
  assert (m1 = m /\ deadline m <= bus_mtime m \/
    bus_mtime m < deadline m /\ m1 = set_idle_ticks (m.(idle_ticks) + (deadline m - bus_mtime m)) m) as Hm1.
  { unfold m1, skip_idle. cbv zeta. rewrite Er, (proj2 (Z.eqb_neq _ _) Hne). cbn [negb andb].
    destruct (Z.ltb_spec (bus_mtime m) (deadline m)); [right|by left].
    split; [done|]. unfold add64. by rewrite u64_id by lia. }
  assert (now m1 = ticks m + idle_ticks m1 /\ deadline m <= now m1) as [Enow Hreach].
  { unfold now, ticks. destruct Hm1 as [[-> ?]|[? ->]]; cbn [set_idle_ticks realtime_ticks cpu insns_per_tick idle_ticks];
      rewrite Er; fold (ticks m); unfold add64; rewrite u64_id by lia; lia. }
  set (m2 := set_power_off (bus (synced m1)).(VirtBus.power_off) (synced m1)).
  set (s' := sync_sys (VirtBus.set_mtime (now m1) m1.(bus)) m1.(insns_per_tick) (ticks m1) (realtime m1) s).
  exists (sub64 (insn_count (cpu m2)) start), m2, s'.
  assert (cpu m1 = cpu m /\ bus m1 = bus m) as [Ec Eb] by (destruct Hm1 as [[-> ?]|[? ->]]; done).
  assert (cpu (synced m1) = set_sys (Some s') (cpu m1)) as Ecpu.
  { unfold synced, s'. rewrite Ec, Es. done. }
  assert (bus m2 = VirtBus.set_mtime (now m1) (bus m)) as Ebus by (unfold m2, synced; rewrite <- Eb; done).
  split.
  { unfold slice_end, bind, modify. cbn [is_wfi]. rewrite sync_devices_ok; [done|].
    fold m1. destruct Hm1 as [[-> ?]|[? ->]]; cbn [set_idle_ticks insns_per_tick]; lia. }
  split; [unfold m2; cbn [set_power_off cpu]; by rewrite Ecpu|].
  rewrite Ebus. cbn [VirtBus.set_mtime VirtBus.mtimecmp VirtBus.mtime].
  split; [done|]. split; [done|]. split.
  - intros Hdir. unfold s', sync_sys. rewrite Eb.
    cbn [VirtBus.set_mtime VirtBus.mtimecmp VirtBus.mtime VirtBus.direct_sbi]. rewrite Hdir.
    etransitivity; [apply (set_stip_bit (now m1) (deadline m) (set_mtime (now m1) s))|]. by apply Z.leb_le.
  - intros Hdir.
    rewrite irq_line_bit by lia.
    cbn [VirtBus.set_mtime VirtBus.direct_sbi VirtBus.mtimecmp VirtBus.mtime].
    rewrite Hdir, (proj2 (Z.leb_le _ _) Hreach). done.
Qed.

(** ** The host's SBI *)

Definition known_errors : list Z := [0; NOT_SUPPORTED; INVALID_PARAM; ALREADY_STARTED].

(** Is the call a request to set the timer? *)
Definition timer_call (ext fn : Z) : bool := (ext =? SBI_TIME) && (fn =? 0) || (ext =? 0).
(** Does the call end the machine?  The new-style reset takes a type up to 2. *)
Definition reset_call (ext fn a0 : Z) : bool := (ext =? SBI_SRST) && (fn =? 0) && (a0 <=? 2) || (ext =? 8).

(** The system CSRs of a timer call differ in one bit of mip, and those of any
    other call not at all. *)
Definition timer_bit_only (timer passed : bool) (o o' : option SysCsrs) : Prop :=
  match o, o' with
  | Some s, Some s' =>
      exists pend, s' = set_mip pend s /\
        forall i, 0 <= i -> Z.testbit pend i = if timer && (i =? 5) then passed else Z.testbit (mip s) i
  | None, None => True
  | _, _ => False
  end.

(** The board after a call: its power, its deadline and its serial port. *)
Definition board_after (ext fn a0 : Z) (b : VirtBus.t S) : VirtBus.t S :=
  VirtBus.set_power_off (reset_call ext fn a0 || VirtBus.power_off b)
    (VirtBus.set_mtimecmp (if timer_call ext fn then a0 else VirtBus.mtimecmp b)
       (VirtBus.set_uart (if ext =? 1 then Uart.write (VirtBus.uart b) 0 (u8 a0) else VirtBus.uart b) b)).

(** What a call changes besides the answer and the records of the calls. *)
Definition sbi_effect (ext fn a0 : Z) (m m' : mach) : Prop :=
  timer_bit_only (timer_call ext fn) (a0 <=? bus_mtime m) (sys (cpu m)) (sys (cpu m')) /\
  bus m' = board_after ext fn a0 (bus m) /\
  power_off m' = reset_call ext fn a0 || power_off m /\
  insns_per_tick m' = insns_per_tick m /\ idle_ticks m' = idle_ticks m /\
  realtime_ticks m' = realtime_ticks m /\ dtb m' = dtb m.

Definition sbi_result (ext fn a0 : Z) (m : mach) (r : Z * Z * mach) : Prop :=
  let '(error, value, m') := r in
  error ∈ known_errors /\ uint 64 value /\
  cpu m' = set_sys (sys (cpu m')) (cpu m) /\ sbi_effect ext fn a0 m m'.

Lemma set_sys_id (c : Cpu) : c = set_sys (sys c) c.
Proof. by destruct c. Qed.

Lemma timer_bit_same passed o : timer_bit_only false passed o o.
Proof. destruct o as [s|]; [|done]. exists (mip s). split; [by destruct s|done]. Qed.

Lemma timer_bit_set t cmp o :
  timer_bit_only true (cmp <=? t) o (match o with Some s => Some (set_stip t cmp s) | None => None end).
Proof.
  destruct o as [s|]; [|done]. unfold set_stip. eexists. split; [done|]. intros i Hi. cbn [andb].
  change IRQ_STIP with (1 .<< 5).
  destruct (cmp <=? t); rewrite ?Z.lor_spec, ?Z.ldiff_spec, testbit_pow, (Z.eqb_sym 5) by lia;
    destruct (i =? 5); by rewrite ?orb_true_r, ?orb_false_r, ?andb_false_r, ?andb_true_r.
Qed.

Lemma board_same ext fn a0 (b : VirtBus.t S) :
  timer_call ext fn = false -> reset_call ext fn a0 = false -> (ext =? 1) = false -> board_after ext fn a0 b = b.
Proof. intros Ht Hr Hp. unfold board_after. rewrite Ht, Hr, Hp. by destruct b. Qed.

Lemma sbi_same ext fn a0 error value (m m' : mach) :
  error ∈ known_errors -> uint 64 value -> timer_call ext fn = false -> reset_call ext fn a0 = false ->
  (ext =? 1) = false -> bus m' = bus m -> cpu m' = cpu m -> power_off m' = power_off m ->
  insns_per_tick m' = insns_per_tick m -> idle_ticks m' = idle_ticks m -> realtime_ticks m' = realtime_ticks m ->
  dtb m' = dtb m -> sbi_result ext fn a0 m (error, value, m').
Proof.
  intros He Hv Ht Hr Hp Eb Ec Eo Ei Ed Er Edt. unfold sbi_result, sbi_effect. rewrite board_same, Ht, Hr, Eb, Ec by done.
  split_and!; try done; [apply set_sys_id|apply timer_bit_same].
Qed.

Lemma sbi_timer ext fn a0 (m : mach) :
  timer_call ext fn = true -> reset_call ext fn a0 = false -> (ext =? 1) = false ->
  sbi_result ext fn a0 m (0, 0, set_timer a0 m).
Proof.
  intros Ht Hr Hp. unfold sbi_result, sbi_effect, board_after. rewrite Ht, Hr, Hp.
  assert (0 ∈ known_errors) by (unfold known_errors; set_solver).
  pose proof (timer_bit_set (bus_mtime m) a0 (sys (cpu m))) as Hb.
  unfold set_timer. cbn [set_bus cpu]. destruct (sys (cpu m)) as [s|] eqn:Es; split_and!; try done.
  - apply set_sys_id.
  - cbn [set_bus cpu]. by rewrite Es.
Qed.

Lemma sbi_shutdown ext fn a0 (m : mach) :
  timer_call ext fn = false -> reset_call ext fn a0 = true -> (ext =? 1) = false ->
  sbi_result ext fn a0 m (0, 0, shutdown m).
Proof.
  intros Ht Hr Hp. unfold sbi_result, sbi_effect, board_after. rewrite Ht, Hr, Hp.
  assert (0 ∈ known_errors) by (unfold known_errors; set_solver).
  split_and!; try done; [apply set_sys_id|apply timer_bit_same].
Qed.

Lemma known_err0 : 0 ∈ known_errors. Proof. unfold known_errors. set_solver. Qed.
Lemma known_err1 : NOT_SUPPORTED ∈ known_errors. Proof. unfold known_errors. set_solver. Qed.
Lemma known_err2 : INVALID_PARAM ∈ known_errors. Proof. unfold known_errors. set_solver. Qed.
Lemma known_err3 : ALREADY_STARTED ∈ known_errors. Proof. unfold known_errors. set_solver. Qed.
#[local] Hint Resolve known_err0 known_err1 known_err2 known_err3 : core.

Lemma sbi_call_result ext fn a0 a1 (m : mach) : sbi_result ext fn a0 m (sbi_call ext fn a0 a1 m).
Proof.
  unfold sbi_call. cbv zeta.
  destruct (Z.eqb_spec ext SBI_BASE) as [->|H1].
  { repeat match goal with |- context [if ?b then _ else _] => destruct b end; apply sbi_same; try done; auto;
      apply uint_b2z; lia. }
  destruct (Z.eqb_spec ext SBI_TIME) as [->|H2]; cbn [andb].
  { destruct (fn =? 0) eqn:E; [|by apply sbi_same; try done; unfold timer_call; rewrite E].
    apply sbi_timer; [unfold timer_call; by rewrite E|done|done]. }
  destruct (Z.eqb_spec ext SBI_IPI) as [->|H3]; cbn [andb].
  { destruct (fn =? 0); [|by apply sbi_same]. destruct (_ && _); by apply sbi_same. }
  destruct (Z.eqb_spec ext SBI_RFENCE) as [->|H4]; cbn [andb].
  { destruct (fn <=? 6); by apply sbi_same. }
  destruct (Z.eqb_spec ext SBI_HSM) as [->|H5]; cbn [andb].
  { repeat case_match; by apply sbi_same. }
  destruct (Z.eqb_spec ext SBI_SRST) as [->|H6]; cbn [andb].
  { destruct (fn =? 0) eqn:E; [|by apply sbi_same; try done; unfold reset_call; rewrite E].
    destruct (a0 <=? 2) eqn:E'; [apply sbi_shutdown; [done| |done]|apply sbi_same; try done];
      unfold reset_call; by rewrite E, E'. }
  assert (timer_call ext fn = (ext =? 0)) as Et.
  { unfold timer_call. by rewrite (proj2 (Z.eqb_neq _ _) H2). }
  assert (reset_call ext fn a0 = (ext =? 8)) as Er.
  { unfold reset_call. by rewrite (proj2 (Z.eqb_neq _ _) H6). }
  destruct (Z.eqb_spec ext 0) as [->|H7]; [by apply sbi_timer|].
  destruct (Z.eqb_spec ext 1) as [->|H8].
  { unfold sbi_result, sbi_effect. rewrite Et, Er. split_and!; try done; auto.
    - apply set_sys_id.
    - apply timer_bit_same. }
  destruct (Z.eqb_spec ext 2) as [->|H9]; [by apply sbi_same|].
  destruct ((3 <=? ext) && (ext <=? 7)) eqn:E3.
  { apply andb_true_iff in E3 as [? ?%Z.leb_le]. apply sbi_same; try done; rewrite ?Er; apply Z.eqb_neq; lia. }
  destruct (Z.eqb_spec ext 8) as [->|H10]; [by apply sbi_shutdown|].
  apply sbi_same; try done; rewrite ?Et, ?Er; auto; by apply Z.eqb_neq.
Qed.

(** C25: A call to the host's SBI answers with one of the documented errors and a
    machine word and changes nothing else than, for a timer call, the deadline
    and the supervisor timer bit of mip, which becomes the comparison of the new
    deadline with the time, so that an earlier event is dropped; for a reset the
    power state; for the legacy output call the serial port; and the records of
    the calls.  Every other register, CSR, TLB entry, device and memory byte is
    kept. *)
Theorem service_sbi_contract (m : mach) :
  let ext := xr (cpu m) 17 in
  let fn := xr (cpu m) 16 in
  let a0 := xr (cpu m) 10 in
  length (xregs (cpu m)) = 32%nat ->
  let m' := service_sbi m in
  exists error value,
    error ∈ known_errors /\ uint 64 value /\
    xr (cpu m') 10 = error /\ xr (cpu m') 11 = value /\
    (forall i, 0 <= i -> i <> 10 -> i <> 11 -> xr (cpu m') i = xr (cpu m) i) /\
    cpu m' = set_xregs (xregs (cpu m')) (set_sys (sys (cpu m')) (cpu m)) /\
    sbi_effect ext fn a0 m m'.
Proof.
  intros ext fn a0 Hlen m'. subst m'. unfold service_sbi. fold ext. cbv zeta.
  set (m1 := count_call _ _).
  pose proof (sbi_call_result ext fn a0 (xr (cpu m) 11) m1) as Hr.
  change (xr (cpu m1) 16) with fn. change (xr (cpu m1) 10) with a0. change (xr (cpu m1) 11) with (xr (cpu m) 11).
  destruct (sbi_call ext fn a0 (xr (cpu m) 11) m1) as [[error value] m2].
  destruct Hr as (He & Hv & Hc & Hx). change (cpu m1) with (cpu m) in Hc.
  assert (xregs (cpu m2) = xregs (cpu m)) as Ex by by rewrite Hc.
  exists error, value. split; [done|]. split; [done|].
  cbn [set_cpu cpu]. unfold xr, set_xr. cbn [set_xregs xregs]. rewrite Ex. split_and!.
  - rewrite aget_aset_other by lia. apply aget_aset_same. lia.
  - apply aget_aset_same. unfold aset. rewrite length_insert. lia.
  - intros i Hi H10 H11. by rewrite !aget_aset_other by lia.
  - rewrite Hc. by destruct (cpu m).
  - exact Hx.
Qed.

(** The probe tells the truth: an extension the base extension reports as
    absent (beyond the legacy numbers) answers every call as not supported, and
    one it reports as present serves its first function; the probe itself never
    fails. *)
Theorem sbi_probe_truthful e (m : mach) :
  8 < e ->
  exists present, (forall a1, sbi_call SBI_BASE 3 e a1 m = (0, Z.b2z present, m)) /\
  if present
  then forall a0 a1, a0 <= 2 -> fst (fst (sbi_call e 0 a0 a1 m)) <> NOT_SUPPORTED
  else forall fn a0 a1, sbi_call e fn a0 a1 m = (NOT_SUPPORTED, 0, set_unsupported_sbi (Some (e, fn)) m).
Proof.
  intros He. eexists. split; [intros a1; reflexivity|]. cbv zeta. unfold sbi_call.
  destruct (Z.eqb_spec e SBI_BASE) as [->|]; [done|].
  destruct (Z.eqb_spec e SBI_TIME) as [->|]; [done|].
  destruct (Z.eqb_spec e SBI_IPI) as [->|]; [cbn; intros; by destruct (_ && _)|].
  destruct (Z.eqb_spec e SBI_RFENCE) as [->|]; [done|].
  destruct (Z.eqb_spec e SBI_HSM) as [->|]; [done|].
  destruct (Z.eqb_spec e SBI_SRST) as [->|].
  { cbn [orb andb]. intros a0 a1 Ha. cbv zeta. cbn [andb Z.eqb]. rewrite (proj2 (Z.leb_le a0 2) Ha). done. }
  cbn [orb andb]. intros fn a0 a1. cbv zeta.
  rewrite !(proj2 (Z.eqb_neq e _)) by lia. rewrite (proj2 (Z.leb_gt e 7)) by lia. by rewrite andb_false_r.
Qed.
End Clock.

(** ** Slices *)

Section Slices.
Context {S : Type} `{HP : P9Server S} `{HV : VectorUnit (VirtBus.t S)}.
Context `{HO : !VectorUnitOk (VirtBus.t S)} `{HF : !VectorUnitFrame (VirtBus.t S)}.
Import VirtMachine.
Abbreviation mach := (VirtMachine.t S).

(** A full-system hart on a board without virtio devices, with its clocks in
    range. *)
Record machine_wf (m : mach) : Prop := {
  wf_hart : inv true (m.(cpu), m.(bus));
  wf_rate : 0 < m.(insns_per_tick) /\ uint 64 m.(insns_per_tick);
  wf_wall : opt_wf (uint 64) m.(realtime_ticks)
}.

Lemma wf_set_stip t cmp s : wf_sys s -> wf_sys (set_stip t cmp s).
Proof using Type.
  intros Hs. unfold set_stip. assert (uint 64 IRQ_STIP) by (vm_compute; split; congruence).
  pose proof (wf_mip s Hs). destruct (cmp <=? t); destruct Hs; constructor; simpl; auto with rv.
  - by apply uint_lor.
  - by apply uint_ldiff.
Qed.

Lemma wf_timer_bit timer passed o o' :
  timer_bit_only timer passed o o' -> opt_wf wf_sys o -> opt_wf wf_sys o'.
Proof using Type.
  destruct o as [s|], o' as [s'|]; try done. intros (pend & -> & Hp) Hs.
  pose proof (wf_mip s Hs) as Hm. assert (uint 64 pend) as Hu.
  { assert (forall i, 64 <= i -> Z.testbit pend i = false) as Hhigh.
    { intros i Hi. rewrite Hp, (proj2 (Z.eqb_neq i 5)), andb_false_r by lia.
      by apply (proj1 (uint_testbit 64 _ ltac:(lia) (proj1 Hm))). }
    assert (0 <= pend) as H0 by (apply Z.bits_iff_nonneg_ex; exists 63; intros i Hi; apply Hhigh; lia).
    by apply uint_testbit. }
  destruct Hs. constructor; simpl; auto.
Qed.

Lemma now_range (m : mach) : machine_wf m -> uint 64 (now m).
Proof using Type.
  intros [[_ (_ & _ & Ht)] _ Hw]. unfold now. cbn [snd] in Ht.
  destruct (realtime_ticks m) as [wall|]; [|apply uint_wrap; lia].
  unfold opt_wf, uint in *. lia.
Qed.

Lemma synced_wf (m : mach) : machine_wf m -> machine_wf (synced m).
Proof using Type.
  intros Hm. pose proof (now_range m Hm) as Hnow. pose proof Hm as [[[Hc Hsys] (Hr & Hv & Ht)] Hrate Hw].
  cbn [fst snd] in *. split; [|exact Hrate|exact Hw]. split; [|by split].
  unfold synced. cbn [set_cpu set_bus cpu fst]. destruct (sys (cpu m)) as [s|] eqn:Es; [|by split].
  split; [|done]. apply wf_set_sys; [done|]. unfold opt_wf. 
  assert (wf_sys s) as Hs by (pose proof (wf_csrs _ Hc) as Hs; by rewrite Es in Hs).
  unfold sync_sys. set (b := VirtBus.set_mtime _ _).
  assert (wf_sys (set_mtime (VirtBus.mtime b) s)) as H1 by (destruct Hs; constructor; simpl; auto).
  set (s1 := set_mtime _ s) in *. clearbody s1.
  assert (wf_sys (if VirtBus.direct_sbi b then set_stip (VirtBus.mtime b) (VirtBus.mtimecmp b) s1 else s1)) as H2
    by (destruct (VirtBus.direct_sbi b); [by apply wf_set_stip|done]).
  set (s2 := if VirtBus.direct_sbi b then _ else _) in *. clearbody s2.
  assert (0 <= ticks m) as Htk by (apply Z.div_pos; [apply Hc|lia]).
  assert (uint 64 (saturating_sub (VirtBus.mtime b) (ticks m))) as Hsub.
  { unfold saturating_sub, uint in *. cbn [b VirtBus.set_mtime VirtBus.mtime]. lia. }
  pose proof (wf_time_offset _ H2) as Ho. destruct Hrate as [_ Hrate].
  set (off := if realtime m then _ else _).
  assert (uint 64 off) as Hoff.
  { unfold off. change (time_offset (set_time_scale (insns_per_tick m) s2)) with (time_offset s2).
    destruct (realtime m); [|done]. unfold uint in *. lia. }
  clearbody off. destruct H2. constructor; simpl; auto.
Qed.

Lemma service_sbi_wf (m : mach) :
  machine_wf m -> machine_wf (service_sbi m) /\ insn_count (cpu (service_sbi m)) = insn_count (cpu m)
    /\ VirtBus.direct_sbi (bus (service_sbi m)) = VirtBus.direct_sbi (bus m).
Proof using Type.
  intros [[[Hc Hsys] (Hr & Hv & Ht)] Hrate Hw]. cbn [fst snd] in *.
  unfold service_sbi. cbv zeta. set (m1 := count_call _ _).
  pose proof (sbi_call_result (xr (cpu m) 17) (xr (cpu m1) 16) (xr (cpu m1) 10) (xr (cpu m1) 11) m1) as Hres.
  destruct (sbi_call _ _ _ _ m1) as [[error value] m2].
  destruct Hres as (He & Hval & Hcpu & Hbit & Hb & _ & Hi & _ & Hrt & _).
  change (cpu m1) with (cpu m) in *. change (bus m1) with (bus m) in *.
  assert (uint 64 error) as Herr.
  { unfold known_errors in He. repeat (apply elem_of_cons in He as [-> | He]; [vm_compute; split; congruence|]).
    by apply elem_of_nil in He. }
  assert (wf_cpu (cpu m2) /\ is_sys (cpu m2) = true) as [Hc2 Hs2].
  { rewrite Hcpu. cbn [set_sys sys]. split.
    - apply wf_set_sys; [done|]. eapply wf_timer_bit; [exact Hbit|apply Hc].
    - unfold is_sys in *. cbn [set_sys sys]. destruct (sys (cpu m)), (sys (cpu m2)); done. }
  cbn [set_cpu cpu bus]. rewrite Hb.
  split; [|by split; [unfold set_xr; cbn [set_xregs insn_count]; rewrite Hcpu|]].
  split; cbn [set_cpu cpu bus insns_per_tick realtime_ticks];
    [|rewrite Hi; exact Hrate|rewrite Hrt; exact Hw].
  split; cbn [fst snd].
  - split; [|done]. unfold set_xr. apply wf_set_xregs; cbn [set_xregs xregs].
    + apply wf_set_xregs; [done|apply arr_set; [apply Hc2|done]|].
      rewrite aget_aset_other by lia. apply Hc2.
    + apply arr_set; [|done]. apply arr_set; [apply Hc2|done].
    + rewrite !aget_aset_other by lia. apply Hc2.
  - rewrite Hb. unfold bus_wf, VirtBus_BusOk, virt_wf in *. by split_and!.
Qed.

Lemma on_hart_run (m : mach) n :
  machine_wf m -> 0 <= n < 2 ^ 64 ->
  exists stop m' k, on_hart (run n) m = (Ok stop, m') /\ machine_wf m' /\
    power_off m' = power_off m /\ unsupported_sbi m' = unsupported_sbi m /\
    0 <= k <= n /\ insn_count (cpu m') = u64 (insn_count (cpu m) + k) /\ (stop = Ecall -> 1 <= k).
Proof using HO HF.
  intros [Hi Hrate Hw] Hn. destruct (run_total true n (cpu m, bus m) Hi) as (stop & [c b] & E & Hi' & _).
  destruct (run_charges n (cpu m, bus m) (c, b) stop) as (k & Hk & Ha & He);
    [lia|apply (proj1 (proj1 Hi))|done|].
  exists stop, (set_bus b (set_cpu c m)), k. unfold on_hart. rewrite E.
  split; [done|]. split; [by split|]. split_and!; try done; try lia. intros ->. apply He. by left.
Qed.

Lemma sub64_advance a k : uint 64 a -> 0 <= k < 2 ^ 64 -> sub64 (u64 (a + k)) a = k.
Proof using Type.
  intros Ha Hk. unfold sub64, u64, wrap. rewrite Zminus_mod_idemp_l, Z.add_simpl_l. by apply Z.mod_small.
Qed.

Lemma slice_loop_total fuel remaining stop (m : mach) :
  machine_wf m -> 0 <= remaining < 2 ^ 64 -> remaining < Z.of_nat fuel ->
  exists stop' m' k, slice_loop run fuel remaining stop m = (Ok (Some stop'), m') /\ machine_wf m' /\
    0 <= k <= remaining /\ insn_count (cpu m') = u64 (insn_count (cpu m) + k).
Proof using HO HF.
  revert remaining stop m. induction fuel as [|fuel IH]; intros remaining stop m Hm Hr Hf; [lia|].
  pose proof (wf_insn_count _ (proj1 (proj1 (wf_hart _ Hm)))) as Hu. cbn [fst] in Hu.
  assert (insn_count (cpu m) = u64 (insn_count (cpu m) + 0)) as Hzero
    by (rewrite Z.add_0_r; symmetry; by apply wrap_small).
  cbn [slice_loop]. unfold bind at 1, machine, gets, id. 
  destruct (Z.eqb_spec remaining 0) as [->|Hnz]; cbn [orb].
  { exists stop, m, 0. split_and!; try done; lia. }
  destruct (power_off m). { exists stop, m, 0. split_and!; try done; lia. }
  destruct (on_hart_run m remaining Hm Hr) as (stop1 & m1 & k & E & Hm1 & _ & _ & Hk & Ha & He).
  unfold bind at 1. rewrite E. unfold bind at 1, retired_since, bind at 1, machine, gets, ret at 1, id.
  rewrite Ha, sub64_advance by (try done; lia).
  destruct (is_ecall stop1 && VirtBus.direct_sbi (bus m)) eqn:Ee.
  2: { exists stop1, m1, k. split_and!; try done; lia. }
  assert (stop1 = Ecall) as -> by (apply andb_true_iff in Ee as [Ee _]; by destruct stop1).
  specialize (He eq_refl). destruct (service_sbi_wf m1 Hm1) as (Hm2 & Hcount & _).
  unfold service_ecall, bind at 1 2, modify at 1, bind at 1, machine, gets, id.
  destruct (unsupported_sbi (service_sbi m1)) as [u|].
  - unfold bind, modify, ret. exists Ecall, (set_power_off true (service_sbi m1)), k. split_and!; try done; try lia.
    + destruct Hm2. by split.
    + cbn [set_power_off cpu]. by rewrite Hcount.
  - unfold ret. assert (saturating_sub remaining k = remaining - k) as -> by (unfold saturating_sub; lia).
    destruct (IH (remaining - k) Ecall (service_sbi m1) Hm2) as (stop' & m' & k' & E' & Hm' & Hk' & Ha'); [lia|lia|].
    exists stop', m', (k + k'). split_and!; try done; try lia. rewrite Ha', Hcount, Ha.
    unfold u64, wrap. rewrite Zplus_mod_idemp_l. f_equal. lia.
Qed.

(** C5: A slice of the machine always returns: on a board without virtio
    devices, from any well-formed state and for any budget below [2^64], the
    slice ends without a panic, in a well-formed state, after at most [budget]
    retired instructions, whose number it reports; [budget + 1] passes of its
    loop suffice, because every SBI call it serves was a retired instruction. *)
Theorem run_slice_total fuel max_insns (m : mach) :
  machine_wf m -> 0 <= max_insns < 2 ^ 64 -> max_insns < Z.of_nat fuel ->
  exists n m', run_slice fuel max_insns m = (Ok (Some n), m') /\ machine_wf m' /\
    0 <= n <= max_insns /\ insn_count (cpu m') = u64 (insn_count (cpu m) + n).
Proof using HO HF.
  intros Hm Hr Hf. pose proof (wf_insn_count _ (proj1 (proj1 (wf_hart _ Hm)))) as Hu. cbn [fst] in Hu.
  unfold run_slice, slice_with, slice_begin, bind at 1 2, machine, gets, id.
  assert (on_bus_m VirtBus.poll_virtio m = (Ok tt, m)) as Ep.
  { unfold on_bus_m, VirtBus.poll_virtio. destruct (wf_hart _ Hm) as [_ (_ & Hv & _)]. cbn [snd] in Hv.
    rewrite Hv. cbn. by destruct m. }
  unfold bind at 1. rewrite Ep. unfold bind at 1.
  rewrite sync_devices_ok by (pose proof (proj1 (wf_rate _ Hm)); lia).
  pose proof (synced_wf m Hm) as Hm1.
  assert (insn_count (cpu (synced m)) = insn_count (cpu m)) as Ec
    by (unfold synced; cbn [set_cpu cpu]; by destruct (sys (cpu m))).
  destruct (slice_loop_total fuel max_insns Budget (synced m) Hm1 Hr Hf) as (stop & m2 & k & E2 & Hm2 & Hk & Ha).
  unfold ret at 1, bind at 1. rewrite E2.
  set (m3 := if is_wfi stop then skip_idle m2 else m2).
  assert (machine_wf m3 /\ cpu m3 = cpu m2) as [Hm3 Ec3].
  { assert (machine_wf (skip_idle m2) /\ cpu (skip_idle m2) = cpu m2) as Hsk.
    { unfold skip_idle. cbv zeta. destruct (realtime_ticks m2) as [wall|] eqn:Ew; [done|].
      destruct (_ && _); [|done]. split; [|done]. destruct Hm2. split; try done. }
    unfold m3. by destruct (is_wfi stop). }
  set (m4 := set_power_off (VirtBus.power_off (bus (synced m3))) (synced m3)).
  pose proof (synced_wf m3 Hm3) as Hm4.
  assert (insn_count (cpu m4) = u64 (insn_count (cpu m) + k)) as Ha4.
  { unfold m4, synced. cbn [set_power_off set_cpu cpu]. rewrite <- Ec, <- Ha, <- Ec3. by destruct (sys (cpu m3)). }
  exists k, m4. split; [|split; [|split; [done|done]]].
  - unfold slice_end.
    assert ((if is_wfi stop then modify skip_idle else ret tt : Mach unit) m2 = (Ok tt, m3)) as Esk
      by (unfold m3; by destruct (is_wfi stop)).
    unfold bind at 1 2. rewrite Esk. unfold bind at 1.
    rewrite sync_devices_ok by (pose proof (proj1 (wf_rate _ Hm3)); lia).
    unfold bind, modify, retired_since, machine, gets, ret, id. cbv beta iota. fold m4.
    unfold bind. by rewrite Ha4, sub64_advance by (try done; lia).
  - destruct Hm4. by split.
Qed.
End Slices.

(** ** A concrete machine for the witnesses *)

#[local] Instance board_unit : VectorUnit (VirtBus.t unit) := trapping_unit.

#[local] Instance board_unit_frame : VectorUnitFrame (VirtBus.t unit).
Proof. by constructor. Qed.

#[local] Instance board_unit_ok : VectorUnitOk (VirtBus.t unit).
Proof.
  split; intros; simpl; apply hoare_throw; simpl; (eapply uint_mono; [|eassumption]; lia).
Qed.

(** A supervisor hart at an ECALL followed by a jump to itself, with the number
    of the call in [a7]. *)
Definition sbi_hart (ext : Z) : Cpu :=
  set_xr 17 ext (enable_host_sbi (set_pc RAM_BASE (set_sys (Some (set_mode Supervisor SysCsrs_new)) Cpu_new))).

Definition sbi_machine (ext deadline : Z) : VirtMachine.t unit :=
  VirtMachine.mk (sbi_hart ext)
    (VirtBus.mk [0x73; 0; 0; 0; 0x6f; 0; 0; 0] 0x10000 0 deadline false Rtc.new Plic.new Uart.new [] false true [0] [])
    100 0 None false [] None (replicate 8 0).

Lemma sbi_hart_wf ext : uint 64 ext -> wf_cpu (sbi_hart ext).
Proof.
  intros He. unfold sbi_hart, set_xr, enable_host_sbi.
  assert (wf_cpu (set_pc RAM_BASE (set_sys (Some (set_mode Supervisor SysCsrs_new)) Cpu_new))) as Hc.
  { apply wf_set_pc; [|vm_compute; split; congruence]. apply wf_set_sys; [apply wf_Cpu_new|].
    pose proof wf_SysCsrs_new as Hs. destruct Hs. by constructor. }
  set (c := set_pc _ _) in *. clearbody c.
  assert (wf_cpu (set_host_sbi true c)) as Hh by (destruct Hc; by constructor).
  apply wf_set_xregs; [done|apply arr_set; [apply Hh|done]|]. rewrite aget_aset_other by lia. apply Hh.
Qed.

Lemma sbi_machine_wf ext deadline : uint 64 ext -> machine_wf (sbi_machine ext deadline).
Proof.
  intros He. split; [|vm_compute; split; [reflexivity|split; congruence]|exact I]. split.
  - split; [by apply sbi_hart_wf|reflexivity].
  - split; [|split; [done|vm_compute; split; congruence]].
    repeat (constructor; [vm_compute; split; congruence|]). constructor.
Qed.

Lemma sync_clock_witness :
  exists m', VirtMachine.sync_devices (sbi_machine 0 0) = (Ok tt, m') /\ VirtBus.mtime (VirtMachine.bus m') = 0.
Proof.
  destruct (sync_clock (sbi_machine 0 0) (set_mode Supervisor SysCsrs_new)) as (m' & s' & E & _ & [Ht _] & _);
    try reflexivity; try (vm_compute; congruence).
  exists m'. split; [exact E|exact Ht].
Defined.

Lemma idle_reaches_deadline_witness :
  exists n m', VirtMachine.slice_end 0 Wfi (sbi_machine 0 500) = (Ok n, m')
    /\ 500 <= VirtBus.mtime (VirtMachine.bus m').
Proof.
  destruct (idle_reaches_deadline (sbi_machine 0 500) (set_mode Supervisor SysCsrs_new) 0)
    as (n & m' & s' & E & _ & Ed & Hle & _); try reflexivity; try (vm_compute; congruence); [vm_compute; split; congruence|].
  exists n, m'. split; [exact E|]. rewrite Ed in Hle. exact Hle.
Defined.

Lemma service_sbi_contract_witness :
  VirtBus.mtimecmp (VirtMachine.bus (VirtMachine.service_sbi (sbi_machine VirtMachine.SBI_TIME 500))) = 0.
Proof.
  destruct (service_sbi_contract (sbi_machine VirtMachine.SBI_TIME 500) eq_refl) as (e & v & _ & _ & _ & _ & _ & _ & _ & Hb & _).
  rewrite Hb. vm_compute. reflexivity.
Defined.

Lemma sbi_probe_truthful_witness :
  VirtMachine.sbi_call 0x1234 7 0 0 (sbi_machine 0 0)
  = (VirtMachine.NOT_SUPPORTED, 0, VirtMachine.set_unsupported_sbi (Some (0x1234, 7)) (sbi_machine 0 0)).
Proof.
  destruct (sbi_probe_truthful 0x1234 (sbi_machine 0 0) ltac:(lia)) as ([] & E & Hc); [|exact (Hc 7 0 0)].
  specialize (E 0). apply (f_equal (fun r => snd (fst r))) in E. cbn in E. discriminate.
Defined.

Lemma run_slice_total_witness :
  exists n m', VirtMachine.run_slice 10 5 (sbi_machine 0 500) = (Ok (Some n), m') /\ 0 <= n <= 5.
Proof.
  destruct (run_slice_total 10 5 (sbi_machine 0 500)) as (n & m' & E & _ & Hn & _);
    [apply sbi_machine_wf; vm_compute; split; congruence|lia|lia|].
  exists n, m'. split; [exact E|exact Hn].
Defined.

(** A call that is not supported ends the slice and asks for power off, but the
    end of the slice copies the bus's flag over the request. *)
Lemma unsupported_call_stays_on :
  match VirtMachine.run_slice 10 5 (sbi_machine 0xdeadbeef 500) with
  | (Ok (Some n), m') =>
      n = 1 /\ VirtMachine.unsupported_sbi m' = Some (0xdeadbeef, 0) /\ VirtMachine.power_off m' = false
  | _ => False
  end.
Proof. vm_compute. repeat split. Qed.
