(* ===== verification/VirtBoot.v ===== *)
(** * Booting the board (Virt.v [new_inner], [build_virt_fdt])

    The device tree the board describes itself with, as a tree; the calls that
    build the blob emit exactly it; and the memory a booted machine starts with
    holds the firmware, the kernel, the initial file system, the firmware's
    parameters and that blob, each where the registers and the tree say. *)

From Stdlib Require Import String.
From stdpp Require Import gmap.
From S2P Require Import Prelude Exception Csr State Bus Slices Mmu Trap CsrOps Vector Exec Step T0 Run.
From S2P Require Import Devices Virtio VirtioSpec Dtb DtbSpec Virt.
Open Scope list_scope.

(** ** The board's tree *)

Definition p_str (n : string) (v : list Z) : list Z * list Z := (str n, v ++ [0]).
Definition p_strs (n : string) (vs : list string) : list Z * list Z :=
  (str n, concat (map (fun s => s ++ [0]) (map str vs))).
Definition p_u32 (n : string) (v : Z) : list Z * list Z := (str n, to_be_bytes 4 v).
Definition p_u32s (n : string) (vs : list Z) : list Z * list Z := (str n, concat (map (to_be_bytes 4) vs)).
Definition p_pair (n : string) (a b : Z) : list Z * list Z := (str n, to_be_bytes 8 a ++ to_be_bytes 8 b).
Definition p_flag (n : string) : list Z * list Z := (str n, []).

(** One node per virtio slot, with the slot's registers and interrupt source. *)
Definition virtio_slots (slots : list Z) : forest :=
  foldr (fun i rest =>
    let base := VIRTIO_BASE + i * VIRTIO_SIZE in
    Node (str "virtio_mmio@" ++ hex base)
      [p_str "compatible" (str "virtio,mmio"); p_pair "reg" base VIRTIO_SIZE;
       p_u32s "interrupts-extended" [2; VIRTIO_IRQ_BASE + i]] Leaf rest) Leaf slots.

Definition chosen_node (cmdline : list Z) (s e : Z) : forest -> forest :=
  Node (str "chosen")
    ([p_str "bootargs" cmdline; p_str "stdout-path" (str "/soc/serial@10000000");
      (str "rng-seed", map seed_byte (seqZ 0 64))]
     ++ (if s <? e then [(str "linux,initrd-start", to_be_bytes 8 s); (str "linux,initrd-end", to_be_bytes 8 e)]
         else [])) Leaf.

Definition cpus_node : forest -> forest :=
  Node (str "cpus")
    [p_u32 "#address-cells" 1; p_u32 "#size-cells" 0; p_u32 "timebase-frequency" RTC_FREQ]
    (Node (str "cpu@0")
      [p_str "device_type" (str "cpu"); p_u32 "reg" 0; p_str "status" (str "okay");
       p_str "compatible" (str "riscv"); p_str "riscv,isa-base" (str "rv64i");
       p_strs "riscv,isa-extensions" ["i"; "m"; "a"; "f"; "d"; "c"; "v"; "zicntr"; "zicsr"; "zifencei"]%string;
       p_str "riscv,isa" (str "rv64imafdcv"); p_str "mmu-type" (str "riscv,sv48")]
      (Node (str "interrupt-controller")
        [p_u32 "#interrupt-cells" 1; p_flag "interrupt-controller"; p_str "compatible" (str "riscv,cpu-intc");
         p_u32 "phandle" 1] Leaf Leaf) Leaf).

Definition soc_node (n_virtio : Z) : forest -> forest :=
  Node (str "soc")
    [p_u32 "#address-cells" 2; p_u32 "#size-cells" 2; p_str "compatible" (str "simple-bus"); p_flag "ranges"]
    (Node (str "test@" ++ hex TEST_BASE)
      [p_strs "compatible" ["sifive,test1"; "sifive,test0"; "syscon"]%string; p_pair "reg" TEST_BASE 0x1000;
       p_u32 "phandle" 5] Leaf
    (Node (str "poweroff")
      [p_str "compatible" (str "syscon-poweroff"); p_u32 "regmap" 5; p_u32 "offset" 0; p_u32 "value" 0x5555] Leaf
    (Node (str "reboot")
      [p_str "compatible" (str "syscon-reboot"); p_u32 "regmap" 5; p_u32 "offset" 0; p_u32 "value" 0x7777] Leaf
    (Node (str "serial@" ++ hex UART_BASE)
      [p_str "compatible" (str "ns16550a"); p_pair "reg" UART_BASE UART_SIZE; p_u32 "clock-frequency" 3686400;
       p_u32s "interrupts-extended" [2; UART_IRQ]] Leaf
    (Node (str "rtc@" ++ hex GOLDFISH_RTC_BASE)
      [p_str "compatible" (str "google,goldfish-rtc"); p_pair "reg" GOLDFISH_RTC_BASE GOLDFISH_RTC_SIZE;
       p_u32s "interrupts-extended" [2; GOLDFISH_RTC_IRQ]] Leaf
    (Node (str "clint@" ++ hex CLINT_BASE)
      [p_strs "compatible" ["sifive,clint0"; "riscv,clint0"]%string; p_pair "reg" CLINT_BASE CLINT_SIZE;
       p_u32s "interrupts-extended" [1; 3; 1; 7]] Leaf
    (Node (str "plic@" ++ hex PLIC_BASE)
      [p_strs "compatible" ["sifive,plic-1.0.0"; "riscv,plic0"]%string; p_u32 "#interrupt-cells" 1;
       p_flag "interrupt-controller"; p_pair "reg" PLIC_BASE PLIC_SIZE; p_u32 "riscv,ndev" (Plic.SOURCES - 1);
       p_u32s "interrupts-extended" [1; 11; 1; 9]; p_u32 "phandle" 2] Leaf
    (virtio_slots (seqZ 0 n_virtio))))))))).

Definition virt_root : list (list Z * list Z) :=
  [p_u32 "#address-cells" 2; p_u32 "#size-cells" 2; p_str "compatible" (str "riscv-virtio");
   p_str "model" (str "riscv-virtio,qemu")].

Definition virt_children (ram_size : Z) (cmdline : list Z) (s e n_virtio : Z) : forest :=
  chosen_node cmdline s e (cpus_node
    (Node (str "memory@" ++ hex RAM_BASE)
      [p_str "device_type" (str "memory"); p_pair "reg" RAM_BASE ram_size] Leaf
    (soc_node n_virtio Leaf))).

Definition virt_tree (ram_size : Z) (cmdline : list Z) (s e n_virtio : Z) : forest :=
  Node (str "") virt_root (virt_children ram_size cmdline s e n_virtio) Leaf.

(** ** The calls emit the tree *)

Abbreviation build := (foldl (fun (f : Fdt) (call : Fdt -> Fdt) => call f)).

#[local] Opaque prop begin_node end_node str hex to_be_bytes.

Lemma virtio_slots_calls slots f :
  build f (concat (map (virtio_node 2) slots)) = emit (virtio_slots slots) f.
Proof.
  revert f. induction slots as [|i slots IH]; intros f; [done|].
  cbn [map concat]. rewrite foldl_app, IH. reflexivity.
Qed.

Lemma virt_calls_emit ram_size cmdline s e n :
  build Fdt_new (virt_fdt_calls ram_size cmdline s e n) = emit (virt_tree ram_size cmdline s e n) Fdt_new.
Proof.
  unfold virt_fdt_calls. cbv zeta. rewrite !foldl_app, virtio_slots_calls.
  unfold virt_tree, virt_children, chosen_node. destruct (s <? e); reflexivity.
Qed.

#[local] Transparent str hex.

(** ** The tree is well formed *)

Lemma hex_digits_ok fuel v acc : name_ok acc -> name_ok (hex_digits fuel v acc).
Proof.
  revert v acc. induction fuel as [|fuel IH]; intros v acc Ha; [done|]. cbn [hex_digits]. cbv zeta.
  assert (name_ok ((if v mod 16 <? 10 then 48 + v mod 16 else 87 + v mod 16) :: acc)) as Hc.
  { constructor; [|done]. pose proof (Z.mod_pos_bound v 16). destruct (_ <? _); lia. }
  destruct (_ =? 0); [done|]. by apply IH.
Qed.

Lemma name_ok_app a b : name_ok a -> name_ok b -> name_ok (a ++ b).
Proof. intros. by apply Forall_app. Qed.

Lemma hex_ok v : name_ok (hex v).
Proof. apply hex_digits_ok. constructor. Qed.

Lemma nonzero_ok l : forallb (fun b => negb (b =? 0)) l = true -> name_ok l.
Proof.
  induction l as [|b l IH]; [constructor|]. cbn [forallb]. intros [Hb%negb_true_iff%Z.eqb_neq Hl]%andb_true_iff.
  constructor; [done|by apply IH].
Qed.

Abbreviation nonzero n := (forallb (fun b => negb (b =? 0)) (str n) = true).

Lemma p_str_ok n v : nonzero n -> Z.of_nat (List.length v) + 1 < 2 ^ 32 -> prop_ok (p_str n v).
Proof. intros Hn Hl. split; [by apply nonzero_ok|]. cbn [p_str snd]. rewrite length_app. cbn. lia. Qed.
Lemma p_strs_ok n vs :
  nonzero n -> Z.of_nat (List.length (concat (map (fun s => s ++ [0]) (map str vs)))) < 2 ^ 32 -> prop_ok (p_strs n vs).
Proof. intros Hn Hl. split; [by apply nonzero_ok|done]. Qed.
Lemma p_u32_ok n v : nonzero n -> prop_ok (p_u32 n v).
Proof. intros Hn. split; [by apply nonzero_ok|]. cbn [p_u32 snd]. by rewrite length_to_be. Qed.
Lemma p_u32s_ok n vs : nonzero n -> (List.length vs <= 64)%nat -> prop_ok (p_u32s n vs).
Proof. intros Hn Hl. split; [by apply nonzero_ok|]. cbn [p_u32s snd]. rewrite length_words. lia. Qed.
Lemma p_pair_ok n a b : nonzero n -> prop_ok (p_pair n a b).
Proof. intros Hn. split; [by apply nonzero_ok|]. cbn [p_pair snd]. by rewrite length_app, !length_to_be. Qed.
Lemma p_flag_ok n : nonzero n -> prop_ok (p_flag n).
Proof. intros Hn. split; [by apply nonzero_ok|done]. Qed.
Lemma p_be64_ok n v : nonzero n -> prop_ok (str n, to_be_bytes 8 v).
Proof. intros Hn. split; [by apply nonzero_ok|]. cbn [snd]. by rewrite length_to_be. Qed.

Ltac tree_tac := repeat match goal with
  | |- forest_ok (Node _ _ _ _) => split; [|split; [|split]]
  | |- forest_ok Leaf => exact I
  | |- name_ok (_ ++ hex _) => apply name_ok_app; [|apply hex_ok]
  | |- name_ok (str _) => apply nonzero_ok; reflexivity
  | |- Forall prop_ok [] => constructor
  | |- Forall prop_ok (_ :: _) => constructor
  | |- prop_ok (p_str _ _) => apply p_str_ok; [reflexivity|try (cbn; lia)]
  | |- prop_ok (p_strs _ _) => apply p_strs_ok; [reflexivity|cbn; lia]
  | |- prop_ok (p_u32 _ _) => apply p_u32_ok; reflexivity
  | |- prop_ok (p_u32s _ _) => apply p_u32s_ok; [reflexivity|cbn; lia]
  | |- prop_ok (p_pair _ _ _) => apply p_pair_ok; reflexivity
  | |- prop_ok (p_flag _) => apply p_flag_ok; reflexivity
  | |- prop_ok (str _, to_be_bytes 8 _) => apply p_be64_ok; reflexivity
  end.

Lemma virtio_slots_ok slots : forest_ok (virtio_slots slots).
Proof.
  induction slots as [|i slots IH]; [done|]. cbn [virtio_slots foldr]. cbv zeta. fold (virtio_slots slots).
  tree_tac. done.
Qed.

Lemma virt_tree_ok ram_size cmdline s e n :
  Z.of_nat (List.length cmdline) + 1 < 2 ^ 32 -> forest_ok (virt_tree ram_size cmdline s e n).
Proof.
  intros Hc. unfold virt_tree, virt_root, virt_children, chosen_node, cpus_node, soc_node.
  tree_tac; [|apply virtio_slots_ok].
  apply Forall_app. split; [|destruct (s <? e); tree_tac].
  tree_tac. split; [by apply nonzero_ok|done].
Qed.

(** ** The memory of a booted machine *)

Section Boot.
Context {S : Type} `{P9Server S} `{VectorUnit (VirtBus.t S)}.
Import VirtMachine.

Variable ram_size : Z.
Variable i : VirtImages S.
Abbreviation len l := (Z.of_nat (List.length l)).

Definition initrd_bytes : list Z := match i.(initrd) with Some ir => ir | None => [] end.

(** Where things go, from the top of the memory down. *)
Definition tree_at : Z :=
  (ram_size - 0x200000 - len (build_virt_fdt ram_size i.(cmdline) 0 0 (n_virtio i))) / 4096 * 4096.
Definition low : Z :=
  match i.(initrd) with Some ir => (tree_at - len ir) / 1048576 * 1048576 | None => tree_at end.
Definition info_at : Z := (low - 0x1000) / 4096 * 4096.
Definition initrd_start : Z := match i.(initrd) with Some _ => RAM_BASE + low | None => 0 end.
Definition initrd_end : Z := match i.(initrd) with Some ir => RAM_BASE + low + len ir | None => 0 end.

Definition blob : list Z := build_virt_fdt ram_size i.(cmdline) initrd_start initrd_end (n_virtio i).

(** The images fit: the firmware below the kernel, and room above it for the
    rest with its alignment. *)
Record fits : Prop := {
  fits_size : ram_size < 2 ^ 63;
  fits_firmware : len i.(opensbi) <= KERNEL_OFFSET;
  fits_room :
    KERNEL_OFFSET + len i.(kernel) + len initrd_bytes
    + len (build_virt_fdt ram_size i.(cmdline) 0 0 (n_virtio i)) + 0x200000 + 0x103000 <= ram_size;
  fits_tree : len blob <= 0x200000;
  fits_cmdline : len i.(cmdline) + 1 < 2 ^ 32
}.

Lemma clear_low x n m : 0 <= n -> m = Z.ones n -> x .&~ m = x / 2 ^ n * 2 ^ n.
Proof. intros Hn ->. rewrite Z.ldiff_ones_r, Z.shiftl_mul_pow2, Z.shiftr_div_pow2 by done. done. Qed.

Lemma put_info_ok words : forall o mem,
  0 <= o -> o + 8 * len words <= len mem -> len mem < 2 ^ 64 ->
  exists mem', put_info o words mem = (Ok tt, mem') /\
    holds mem' o (concat (map (to_le_bytes 8) words)) /\ outside o (o + 8 * len words) mem mem'.
Proof.
  induction words as [|v words IH]; intros o mem Ho Hl Hm.
  { exists mem. split; [done|]. split; [apply holds_nil; cbn in Hl; lia|]. apply outside_refl. }
  cbn [put_info List.length] in *. rewrite u64_id by lia.
  destruct (put_slice_ok (E := Empty_set) o (o + 8) (to_le_bytes 8 v) mem) as (m1 & E1 & H1 & O1);
    [done|rewrite length_to_le_bytes; lia|lia|].
  pose proof (proj1 O1) as L1.
  destruct (IH (o + 8) m1) as (m2 & E2 & H2 & O2); [lia|rewrite <- L1; lia|rewrite <- L1; lia|].
  exists m2. unfold bind. rewrite E1. split; [done|]. split.
  - cbn [map concat]. apply holds_app. rewrite length_to_le_bytes. split; [|done].
    eapply holds_outside; [done|exact O2|]. rewrite length_to_le_bytes. lia.
  - eapply outside_trans; [eapply outside_mono; [exact O1|lia|lia]|eapply outside_mono; [exact O2|lia|lia]].
Qed.

Lemma layout (Hf : fits) :
  KERNEL_OFFSET + len i.(kernel) <= info_at /\ info_at + 48 <= low /\ low + len initrd_bytes <= tree_at /\
  tree_at <= ram_size - 0x200000.
Proof using Type.
  destruct Hf as [_ _ Hr _ _]. unfold info_at, low, tree_at, initrd_bytes in *.
  destruct (initrd i) as [ir|]; cbn [List.length] in *; Z.div_mod_to_equations; lia.
Qed.

Lemma put_initrd_ok (Hf : fits) mem :
  len mem = ram_size ->
  exists mem', put_initrd tree_at i.(initrd) mem = (Ok (low, initrd_start, initrd_end), mem') /\
    holds mem' low initrd_bytes /\ outside low tree_at mem mem'.
Proof using Type.
  intros Hm. pose proof (layout Hf) as (L1 & L2 & L3 & L4). destruct Hf as [Hsz _ _ _ _].
  unfold put_initrd, initrd_start, initrd_end, initrd_bytes, low, KERNEL_OFFSET in *.
  destruct (initrd i) as [ir|].
  - cbv zeta. assert (saturating_sub tree_at (len ir) .&~ 0xfffff = (tree_at - len ir) / 1048576 * 1048576) as ->.
    { rewrite (clear_low _ 20) by done. unfold saturating_sub. rewrite Z.max_r; [done|].
      Z.div_mod_to_equations. lia. }
    set (s := (tree_at - len ir) / 1048576 * 1048576) in *. clearbody s.
    rewrite u64_id by lia.
    destruct (put_slice_ok (E := Empty_set) s (s + len ir) ir mem) as (m1 & E1 & H1 & O1); [lia|done|lia|].
    exists m1. unfold bind. rewrite E1. split; [done|]. split; [done|]. eapply outside_mono; [exact O1|lia|lia].
  - exists mem. split; [done|]. split; [|apply outside_refl]. apply holds_nil. lia.
Qed.

Lemma devices_count : Z.of_nat (List.length (devices i)) = n_virtio i.
Proof using Type.
  unfold devices, n_virtio. rewrite !length_app, length_map.
  destruct (virtio_console i), (disk i), (external_fs i), (net i); cbn [List.length Z.b2z]; lia.
Qed.

(** The four regions above the kernel, written in the order of the code. *)
Lemma boot_memory (Hf : fits) :
  exists mem, (put_slice 0 (len i.(opensbi)) i.(opensbi) ;;;
      put_slice KERNEL_OFFSET (KERNEL_OFFSET + len i.(kernel)) i.(kernel) ;;;
      p <- put_initrd tree_at i.(initrd) ;;
      put_slice tree_at (u64 (tree_at + len blob)) blob ;;; put_info info_at fw_info ;;; ret p : Ram (Z * Z * Z))
      (replicate (Z.to_nat ram_size) 0) = (Ok (low, initrd_start, initrd_end), mem) /\
    len mem = ram_size /\ holds mem 0 i.(opensbi) /\ holds mem KERNEL_OFFSET i.(kernel) /\
    holds mem low initrd_bytes /\ holds mem info_at (concat (map (to_le_bytes 8) fw_info)) /\ holds mem tree_at blob.
Proof using Type.
  pose proof (layout Hf) as (L1 & L2 & L3 & L4). pose proof (put_initrd_ok Hf) as Hird.
  destruct Hf as [Hsz Hfw Hroom Htree _]. unfold KERNEL_OFFSET in *.
  set (m0 := replicate (Z.to_nat ram_size) 0).
  assert (len m0 = ram_size) as E0 by (unfold m0; rewrite length_replicate; lia).
  destruct (put_slice_ok (E := Empty_set) 0 (len i.(opensbi)) i.(opensbi) m0) as (m1 & P1 & H1 & O1); [lia|lia|lia|].
  pose proof (proj1 O1) as E1.
  destruct (put_slice_ok (E := Empty_set) 0x200000 (0x200000 + len i.(kernel)) i.(kernel) m1)
    as (m2 & P2 & H2 & O2); [lia|lia|lia|]. pose proof (proj1 O2) as E2.
  destruct (Hird m2) as (m3 & P3 & H3 & O3); [lia|]. pose proof (proj1 O3) as E3.
  destruct (put_slice_ok (E := Empty_set) tree_at (tree_at + len blob) blob m3) as (m4 & P4 & H4 & O4);
    [lia|lia|lia|]. pose proof (proj1 O4) as E4.
  destruct (put_info_ok fw_info info_at m4) as (m5 & P5 & H5 & O5); [lia|cbn [List.length fw_info]; lia|lia|].
  change (8 * len fw_info) with 48 in O5. pose proof (proj1 O5) as E5.
  exists m5. split; [|split_and!; try done; [lia|..]].
  - unfold bind. rewrite P1, P2, P3. rewrite u64_id by lia. by rewrite P4, P5.
  - eapply holds_outside; [|exact O5|lia]. eapply holds_outside; [|exact O4|lia].
    eapply holds_outside; [|exact O3|lia]. eapply holds_outside; [exact H1|exact O2|lia].
  - eapply holds_outside; [|exact O5|lia]. eapply holds_outside; [|exact O4|lia].
    eapply holds_outside; [exact H2|exact O3|lia].
  - eapply holds_outside; [|exact O5|lia]. eapply holds_outside; [exact H3|exact O4|lia].
  - eapply holds_outside; [exact H4|exact O5|lia].
Qed.

Lemma boot_cpu_regs a d direct :
  xr (boot_cpu a d direct) 11 = a /\ xr (boot_cpu a d direct) 12 = d /\
  pc (boot_cpu a d direct) = (if direct then RAM_BASE + KERNEL_OFFSET else RAM_BASE).
Proof using Type. by destruct direct. Qed.

(** C6: A machine whose images fit boots, and its memory holds the firmware at
    the start, the kernel at its offset, the initial file system where the
    device tree says, the firmware's parameters at the address in [a2], and at
    the address in [a1] a blob that decodes to the tree of the board: its
    memory, its devices with their registers and interrupt sources, one node
    per attached virtio device, and the command line. *)
Theorem boot_image ptr direct (Hf : fits) :
  exists m, boot ram_size ptr i direct = Ok m /\
    let mem := VirtBus.ram m.(bus) in
    len mem = ram_size /\
    holds mem 0 i.(opensbi) /\ holds mem KERNEL_OFFSET i.(kernel) /\
    (forall ir, i.(initrd) = Some ir -> holds mem (initrd_start - RAM_BASE) ir) /\
    holds mem (xr m.(cpu) 12 - RAM_BASE) (concat (map (to_le_bytes 8) fw_info)) /\
    holds mem (xr m.(cpu) 11 - RAM_BASE) m.(dtb) /\
    (let t := virt_tree ram_size i.(cmdline) initrd_start initrd_end (Z.of_nat (List.length (VirtBus.virtio m.(bus)))) in
     parse_dtb (size t) m.(dtb) = Some t) /\
    m.(cpu).(pc) = (if direct then RAM_BASE + KERNEL_OFFSET else RAM_BASE).
Proof using Type.
  pose proof (layout Hf) as (L1 & L2 & L3 & L4).
  destruct (boot_memory Hf) as (mem & E & El & Hmem). pose proof Hf as [Hsz Hfw Hroom Htree Hcmd].
  assert (saturating_sub (sub64 ram_size 0x200000)
            (len (build_virt_fdt ram_size i.(cmdline) 0 0 (n_virtio i))) .&~ 0xfff = tree_at) as Et.
  { rewrite (clear_low _ 12) by done. unfold saturating_sub, tree_at, sub64. rewrite u64_id by lia.
    rewrite Z.max_r by lia. done. }
  assert (saturating_sub low 0x1000 .&~ 0xfff = info_at) as Ei.
  { rewrite (clear_low _ 12) by done. unfold saturating_sub, info_at. unfold KERNEL_OFFSET in *.
    rewrite Z.max_r by lia. done. }
  eexists. split.
  { unfold boot, new_inner. cbv zeta. rewrite Et. revert E. unfold bind.
    destruct (put_slice 0 _ _ _) as [[[]|[]|] m1]; [|done..].
    destruct (put_slice KERNEL_OFFSET _ _ _) as [[[]|[]|] m2]; [|done..].
    destruct (put_initrd _ _ _) as [[[[lo st] en]|[]|] m3]; [|done..].
    intros E. assert (lo = low /\ st = initrd_start /\ en = initrd_end) as (-> & -> & ->).
    { destruct (put_slice tree_at _ _ _) as [[[]|[]|] m4]; [|done..].
      destruct (put_info _ _ _) as [[[]|[]|] m5]; [|done..]. by injection E as -> -> -> _. }
    revert E. rewrite Ei. fold blob.
    destruct (put_slice tree_at _ _ _) as [[[]|[]|] m4]; [|done..].
    destruct (put_info _ _ _) as [[[]|[]|] m5]; [|done..]. intros [= ->]. reflexivity. }
  cbv zeta. cbn [bus cpu dtb VirtBus.ram VirtBus.virtio].
  destruct (boot_cpu_regs (RAM_BASE + tree_at) (RAM_BASE + info_at) direct) as (-> & -> & ->).
  rewrite !Z.add_simpl_l. destruct Hmem as (H1 & H2 & H3 & H4 & H5). split_and!; try done.
  - intros ir Eir. unfold initrd_start, initrd_bytes in *. rewrite Eir in *. by rewrite Z.add_simpl_l.
  - rewrite devices_count.
    pose proof (dtb_round_trip (str "") virt_root
      (virt_children ram_size i.(cmdline) initrd_start initrd_end (n_virtio i))) as Hrt.
    unfold blob, build_virt_fdt in *. rewrite virt_calls_emit in *. apply Hrt; [by apply virt_tree_ok| |done].
    eapply Z.le_lt_trans; [exact Htree|done].
Qed.
End Boot.

(** A small machine with a file system, a disk and a console. *)
Definition demo_images : VirtMachine.VirtImages unit :=
  VirtMachine.mkImages [1; 2; 3] [4; 5; 6; 7] (str "console=ttyS0") (Some [8; 9]) (Some (replicate 512 0)) [] None
    true None.

Lemma demo_fits : fits 0x800000 demo_images.
Proof. split; vm_compute; congruence. Qed.

#[local] Instance boot_unit : VectorUnit (VirtBus.t unit) := trapping_unit.

Lemma boot_image_witness :
  exists m, VirtMachine.boot 0x800000 0x10000 demo_images true = Ok m /\
    holds (VirtBus.ram (VirtMachine.bus m)) KERNEL_OFFSET [4; 5; 6; 7] /\
    pc (VirtMachine.cpu m) = 0x80200000.
Proof.
  destruct (boot_image 0x800000 demo_images 0x10000 true demo_fits) as (m & E & _ & _ & Hk & _ & _ & _ & _ & Hpc).
  exists m. split; [exact E|]. split; [exact Hk|exact Hpc].
Defined.
