(* ===== verification/P9.v ===== *)
(** * The 9P2000.L file server (p9.rs)

    The protocol half of the virtio 9P device: message framing, the table of
    fids and one definition per message.  The files are behind [FsBackend], as
    in the source.  A Rust [String] is the list of its UTF-8 bytes. *)

From stdpp Require Import gmap.
From S2P Require Import Prelude Bus.

(** ** Protocol constants *)

Definition T_STATFS : Z := 8.
Definition T_LOPEN : Z := 12.
Definition T_LCREATE : Z := 14.
Definition T_SYMLINK : Z := 16.
Definition T_MKNOD : Z := 18.
Definition T_READLINK : Z := 22.
Definition T_GETATTR : Z := 24.
Definition T_SETATTR : Z := 26.
Definition T_XATTRWALK : Z := 30.
Definition T_READDIR : Z := 40.
Definition T_FSYNC : Z := 50.
Definition T_LOCK : Z := 52.
Definition T_GETLOCK : Z := 54.
Definition T_LINK : Z := 70.
Definition T_MKDIR : Z := 72.
Definition T_RENAMEAT : Z := 74.
Definition T_UNLINKAT : Z := 76.
Definition T_VERSION : Z := 100.
Definition T_ATTACH : Z := 104.
Definition T_FLUSH : Z := 108.
Definition T_WALK : Z := 110.
Definition T_READ : Z := 116.
Definition T_WRITE : Z := 118.
Definition T_CLUNK : Z := 120.
Definition R_LERROR : Z := 7.

Definition QT_DIR : Z := 0x80.
Definition QT_SYMLINK : Z := 0x02.
Definition QT_FILE : Z := 0x00.

Definition S_IFMT : Z := 0xf000.
Definition S_IFDIR : Z := 0x4000.
Definition S_IFREG : Z := 0x8000.
Definition S_IFLNK : Z := 0xa000.

Definition O_TRUNC : Z := 0x200.

Definition SETATTR_MODE : Z := 0x001.
Definition SETATTR_UID : Z := 0x002.
Definition SETATTR_GID : Z := 0x004.
Definition SETATTR_SIZE : Z := 0x008.
Definition SETATTR_ATIME : Z := 0x010.
Definition SETATTR_MTIME : Z := 0x020.
Definition SETATTR_ATIME_SET : Z := 0x080.
Definition SETATTR_MTIME_SET : Z := 0x100.

Definition AT_REMOVEDIR : Z := 0x200.

Definition ENOENT : Z := 2.
Definition EIO : Z := 5.
Definition EEXIST : Z := 17.
Definition ENOTDIR : Z := 20.
Definition EISDIR : Z := 21.
Definition EINVAL : Z := 22.
Definition ENOTEMPTY : Z := 39.
Definition EPROTO : Z := 71.
Definition EOPNOTSUPP : Z := 95.

Definition MAX_MSIZE : Z := 131072.

(** ** What the backend reports *)

Record Qid : Type := mkQid { qid_type : Z; qid_version : Z; qid_path : Z }.

Definition qid_kind (mode : Z) : Z :=
  if mode .& S_IFMT =? S_IFDIR then QT_DIR
  else if mode .& S_IFMT =? S_IFLNK then QT_SYMLINK else QT_FILE.

Definition from_mode (mode ino : Z) : Qid := mkQid (qid_kind mode) 0 ino.

(** Times are seconds and nanoseconds. *)
Record Attr : Type := mkAttr {
  a_qid : Qid; a_mode : Z; a_uid : Z; a_gid : Z; a_nlink : Z; a_rdev : Z; a_size : Z;
  a_blksize : Z; a_blocks : Z; a_atime : Z * Z; a_mtime : Z * Z; a_ctime : Z * Z
}.

Record DirEntry : Type := mkEntry { e_name : list Z; e_ino : Z; e_mode : Z }.

Record StatFs : Type := mkStatFs {
  f_bsize : Z; f_blocks : Z; f_bfree : Z; f_bavail : Z; f_files : Z; f_ffree : Z
}.

(** The trait: an error is an errno.  [fs_read] fills a buffer and returns how
    much of it. *)
Class FsBackend (F : Type) : Type := {
  fs_statfs : F -> StatFs * F;
  fs_lstat : list Z -> M Z F Attr;
  fs_readdir : list Z -> M Z F (list DirEntry);
  fs_open : list Z -> Z -> M Z F Attr;
  fs_close : list Z -> F -> F;
  fs_read : list Z -> Z -> list Z -> M Z F (Z * list Z);
  fs_write : list Z -> Z -> list Z -> M Z F Z;
  fs_create : list Z -> Z -> Z -> M Z F Attr;
  fs_mkdir : list Z -> Z -> M Z F Attr;
  fs_symlink : list Z -> list Z -> M Z F Attr;
  fs_mknod : list Z -> Z -> Z -> Z -> M Z F Attr;
  fs_readlink : list Z -> M Z F (list Z);
  fs_hardlink : list Z -> list Z -> M Z F unit;
  fs_remove : list Z -> bool -> M Z F unit;
  fs_rename : list Z -> list Z -> M Z F unit;
  fs_set_mode : list Z -> Z -> M Z F unit;
  fs_set_owner : list Z -> option Z -> option Z -> M Z F unit;
  fs_truncate : list Z -> Z -> M Z F unit;
  fs_set_times : list Z -> option (Z * Z) -> option (Z * Z) -> M Z F unit
}.

(** ** Paths *)

Definition SLASH : Z := 47.
Definition DOT : list Z := [46].
Definition DOTDOT : list Z := [46; 46].

(** What precedes the last slash, if there is one: [path.rfind('/')]. *)
Fixpoint before_last_slash (path : list Z) : option (list Z) :=
  match path with
  | [] => None
  | c :: path =>
      match before_last_slash path with
      | Some p => Some (c :: p)
      | None => if c =? SLASH then Some [] else None
      end
  end.

Definition parent (path : list Z) : list Z := default [] (before_last_slash path).

Definition join (base name : list Z) : option (list Z) :=
  if decide (name = []) then None
  else if decide (name = DOT) then Some base
  else if decide (name = DOTDOT) then Some (parent base)
  else if decide (SLASH ∈ name \/ 0 ∈ name) then None
  else Some (base ++ SLASH :: name).

(** ** UTF-8 (the standard library's [String::from_utf8_lossy]) *)

Definition continuation (b : Z) : bool := b .& 192 =? 128.

(** The second bytes a first byte of a three- or four-byte character allows. *)
Definition second_byte (first b : Z) : bool :=
  if first =? 0xe0 then (0xa0 <=? b) && (b <=? 0xbf)
  else if first =? 0xed then (0x80 <=? b) && (b <=? 0x9f)
  else if first =? 0xf0 then (0x90 <=? b) && (b <=? 0xbf)
  else if first =? 0xf4 then (0x80 <=? b) && (b <=? 0x8f)
  else (0x80 <=? b) && (b <=? 0xbf).

(** The character at the front of [first :: rest]: well formed with its length,
    or ill formed with the number of bytes one replacement stands for. *)
Definition utf8_char (first : Z) (rest : list Z) : bool * nat :=
  let get i := nth i rest 0 in
  if first <? 0x80 then (true, 1%nat)
  else if (0xc2 <=? first) && (first <=? 0xdf) then
    if continuation (get 0%nat) then (true, 2%nat) else (false, 1%nat)
  else if (0xe0 <=? first) && (first <=? 0xef) then
    if negb (second_byte first (get 0%nat)) then (false, 1%nat)
    else if negb (continuation (get 1%nat)) then (false, 2%nat) else (true, 3%nat)
  else if (0xf0 <=? first) && (first <=? 0xf4) then
    if negb (second_byte first (get 0%nat)) then (false, 1%nat)
    else if negb (continuation (get 1%nat)) then (false, 2%nat)
    else if negb (continuation (get 2%nat)) then (false, 3%nat) else (true, 4%nat)
  else (false, 1%nat).

Definition REPLACEMENT : list Z := [0xef; 0xbf; 0xbd].

Fixpoint utf8_lossy_loop (fuel : nat) (l : list Z) : list Z :=
  match fuel, l with
  | S fuel, first :: rest =>
      let '(ok, n) := utf8_char first rest in
      (if ok then take n l else REPLACEMENT) ++ utf8_lossy_loop fuel (drop n l)
  | _, _ => []
  end.

Definition from_utf8_lossy (l : list Z) : list Z := utf8_lossy_loop (length l) l.

(** ** Message framing *)

Record Rd : Type := mkRd { rd_b : list Z; rd_p : Z }.

Definition rd_new (b : list Z) : Rd := mkRd b 0.

Definition rd_take (n : Z) (r : Rd) : option (list Z) * Rd :=
  if U64_MAX <? r.(rd_p) + n then (None, r) else
  match slice r.(rd_b) r.(rd_p) (r.(rd_p) + n) with
  | Some s => (Some s, mkRd r.(rd_b) (r.(rd_p) + n))
  | None => (None, r)
  end.

Definition rd_le (n : Z) (r : Rd) : option Z * Rd :=
  let '(s, r) := rd_take n r in (from_le_bytes <$> s, r).
Definition rd_u8 : Rd -> option Z * Rd := rd_le 1.
Definition rd_u16 : Rd -> option Z * Rd := rd_le 2.
Definition rd_u32 : Rd -> option Z * Rd := rd_le 4.
Definition rd_u64 : Rd -> option Z * Rd := rd_le 8.

Definition rd_str (r : Rd) : option (list Z) * Rd :=
  match rd_u16 r with
  | (Some n, r) => let '(s, r) := rd_take n r in (from_utf8_lossy <$> s, r)
  | (None, r) => (None, r)
  end.

(** What the writer's methods append. *)
Definition w_u8 (v : Z) : list Z := to_le_bytes 1 v.
Definition w_u16 (v : Z) : list Z := to_le_bytes 2 v.
Definition w_u32 (v : Z) : list Z := to_le_bytes 4 v.
Definition w_u64 (v : Z) : list Z := to_le_bytes 8 v.
Definition w_str (s : list Z) : list Z := w_u16 (Z.of_nat (length s)) ++ s.
Definition w_qid (q : Qid) : list Z := w_u8 q.(qid_type) ++ w_u32 q.(qid_version) ++ w_u64 q.(qid_path).

Definition reply (id tag : Z) (body : list Z) : list Z :=
  w_u32 (Z.of_nat (length body) + 7) ++ w_u8 id ++ w_u16 tag ++ body.

Definition err_body (errno : Z) : list Z := w_u32 errno.

(** ** The server *)

Record Fid : Type := mkFid { f_path : list Z; f_opened : bool; f_dir : option (list DirEntry) }.

Record Server (F : Type) : Type := mkServer {
  srv_fs : F;
  srv_tag : list Z;
  srv_msize : Z;
  srv_fids : gmap Z Fid
}.
Arguments mkServer {F}.
Arguments srv_fs {F}.
Arguments srv_tag {F}.
Arguments srv_msize {F}.
Arguments srv_fids {F}.

Definition PROTOCOL : list Z := [57; 80; 50; 48; 48; 48; 46; 76].
Definition UNKNOWN : list Z := [117; 110; 107; 110; 111; 119; 110].

Section Handlers.
Context {F : Type} `{FsBackend F}.

Definition set_fs (fs : F) (s : Server F) : Server F := mkServer fs s.(srv_tag) s.(srv_msize) s.(srv_fids).
Definition set_msize (m : Z) (s : Server F) : Server F := mkServer s.(srv_fs) s.(srv_tag) m s.(srv_fids).
Definition set_fids (m : gmap Z Fid) (s : Server F) : Server F := mkServer s.(srv_fs) s.(srv_tag) s.(srv_msize) m.

Definition server_new (tag : list Z) (fs : F) : Server F := mkServer fs tag 8192 ∅.

(** A handler runs on the server and the reader of the request. *)
Definition Conn : Type := Server F * Rd.
Definition Srv (A : Type) : Type := M Z Conn A.

(** [r.get().ok_or(EPROTO)?]. *)
Definition need {A} (get : Rd -> option A * Rd) : Srv A := fun c =>
  let '(o, r) := get (snd c) in
  (match o with Some a => Ok a | None => Err EPROTO end, (fst c, r)).

(** A call of the backend. *)
Definition with_fs {A} (m : M Z F A) : Srv A := fun c =>
  let '(o, fs) := m (fst c).(srv_fs) in (o, (set_fs fs (fst c), snd c)).

Definition server : Srv (Server F) := gets fst.
Definition update (f : Server F -> Server F) : Srv unit := modify (fun c => (f (fst c), snd c)).

Definition close_fid (f : Fid) : Srv unit :=
  if f.(f_opened) then update (fun s => set_fs (fs_close f.(f_path) s.(srv_fs)) s) else ret tt.

Definition set_fid (fid : Z) (path : list Z) : Srv unit :=
  s <- server ;;
  match s.(srv_fids) !! fid with
  | Some old => update (fun s => set_fids (delete fid s.(srv_fids)) s) ;;; close_fid old
  | None => ret tt
  end ;;;
  update (fun s => set_fids (<[fid := mkFid path false None]> s.(srv_fids)) s).

Definition fid_state (fid : Z) : Srv Fid := s <- server ;; ok_or (s.(srv_fids) !! fid) EPROTO.
Definition fid_path (fid : Z) : Srv (list Z) := f <- fid_state fid ;; ret f.(f_path).

Definition child (dfid : Z) (name : list Z) : Srv (list Z) :=
  dir <- fid_path dfid ;; ok_or (join dir name) EINVAL.

(** [self.fids.get_mut(&fid).ok_or(EPROTO)?] and an update of the fid. *)
Definition update_fid (fid : Z) (f : Fid -> Fid) : Srv unit :=
  old <- fid_state fid ;; update (fun s => set_fids (<[fid := f old]> s.(srv_fids)) s).

Definition saturating_sub (a b : Z) : Z := Z.max 0 (a - b).

Definition iounit (s : Server F) : Z := saturating_sub s.(srv_msize) 24.

(** *** One definition per message *)

Definition t_version : Srv (list Z) :=
  msize <- need rd_u32 ;;
  version <- need rd_str ;;
  update (set_fids ∅) ;;;
  update (set_msize (Z.min (Z.max msize 4096) MAX_MSIZE)) ;;;
  s <- server ;;
  ret (w_u32 s.(srv_msize)
       ++ w_str (if decide (PROTOCOL `prefix_of` version) then PROTOCOL else UNKNOWN)).

(** The trailing uid is optional. *)
Definition t_attach : Srv (list Z) :=
  fid <- need rd_u32 ;;
  _ <- need rd_u32 ;;
  _ <- need rd_str ;;
  _ <- need rd_str ;;
  attr <- with_fs (fs_lstat []) ;;
  set_fid fid [] ;;;
  ret (w_qid attr.(a_qid)).

(** The loop of a walk: it stops at the first name that cannot be resolved. *)
Fixpoint walk_names (n : nat) (path : list Z) (qids : list Qid) : Srv (list Z * list Qid) :=
  match n with
  | O => ret (path, qids)
  | S n =>
      name <- need rd_str ;;
      match join path name with
      | None => ret (path, qids)
      | Some next =>
          found <- attempt (with_fs (fs_lstat next)) ;;
          match found with
          | inl attr => walk_names n next (qids ++ [attr.(a_qid)])
          | inr _ => ret (path, qids)
          end
      end
  end.

Definition t_walk : Srv (list Z) :=
  fid <- need rd_u32 ;;
  newfid <- need rd_u32 ;;
  nwname <- need rd_u16 ;;
  path <- fid_path fid ;;
  walked <- walk_names (Z.to_nat nwname) path [] ;;
  let '(path, qids) := walked in
  set_fid newfid path ;;;
  ret (w_u16 (Z.of_nat (length qids)) ++ concat (map w_qid qids)).

Definition t_clunk : Srv (list Z) :=
  fid <- need rd_u32 ;;
  s <- server ;;
  match s.(srv_fids) !! fid with
  | Some f => update (fun s => set_fids (delete fid s.(srv_fids)) s) ;;; close_fid f
  | None => ret tt
  end ;;;
  ret [].

Definition t_statfs : Srv (list Z) :=
  _ <- need rd_u32 ;;
  st <- with_fs (fun fs => let '(st, fs) := fs_statfs fs in (Ok st, fs)) ;;
  ret (w_u32 0 ++ w_u32 st.(f_bsize) ++ w_u64 st.(f_blocks) ++ w_u64 st.(f_bfree) ++ w_u64 st.(f_bavail)
       ++ w_u64 st.(f_files) ++ w_u64 st.(f_ffree) ++ w_u64 0 ++ w_u32 255).

Definition attr_body (mask : Z) (a : Attr) : list Z :=
  w_u64 mask ++ w_qid a.(a_qid) ++ w_u32 a.(a_mode) ++ w_u32 a.(a_uid) ++ w_u32 a.(a_gid)
  ++ w_u64 a.(a_nlink) ++ w_u64 a.(a_rdev) ++ w_u64 a.(a_size) ++ w_u64 a.(a_blksize) ++ w_u64 a.(a_blocks)
  ++ w_u64 a.(a_atime).1 ++ w_u64 a.(a_atime).2 ++ w_u64 a.(a_mtime).1 ++ w_u64 a.(a_mtime).2
  ++ w_u64 a.(a_ctime).1 ++ w_u64 a.(a_ctime).2 ++ w_u64 0 ++ w_u64 0 ++ w_u64 0 ++ w_u64 0.

Definition t_getattr : Srv (list Z) :=
  fid <- need rd_u32 ;;
  mask <- need rd_u64 ;;
  path <- fid_path fid ;;
  a <- with_fs (fs_lstat path) ;;
  ret (attr_body mask a).

Definition has (valid bit : Z) : bool := negb (valid .& bit =? 0).

(** [then_some], and the time a client gave or [None] for "now". *)
Definition given {A} (b : bool) (a : A) : option A := if b then Some a else None.

Definition t_setattr : Srv (list Z) :=
  fid <- need rd_u32 ;;
  valid <- need rd_u32 ;;
  mode <- need rd_u32 ;;
  uid <- need rd_u32 ;;
  gid <- need rd_u32 ;;
  size <- need rd_u64 ;;
  atime_s <- need rd_u64 ;;
  atime_ns <- need rd_u64 ;;
  mtime_s <- need rd_u64 ;;
  mtime_ns <- need rd_u64 ;;
  path <- fid_path fid ;;
  (if has valid (SETATTR_UID .| SETATTR_GID)
   then with_fs (fs_set_owner path (given (has valid SETATTR_UID) uid) (given (has valid SETATTR_GID) gid))
   else ret tt) ;;;
  (if has valid SETATTR_SIZE then with_fs (fs_truncate path size) else ret tt) ;;;
  (if has valid (SETATTR_ATIME .| SETATTR_MTIME)
   then with_fs (fs_set_times path
          (given (has valid SETATTR_ATIME && has valid SETATTR_ATIME_SET) (atime_s, atime_ns))
          (given (has valid SETATTR_MTIME && has valid SETATTR_MTIME_SET) (mtime_s, mtime_ns)))
   else ret tt) ;;;
  (if has valid SETATTR_MODE then with_fs (fs_set_mode path mode) else ret tt) ;;;
  ret [].

Definition t_lopen : Srv (list Z) :=
  fid <- need rd_u32 ;;
  flags <- need rd_u32 ;;
  path <- fid_path fid ;;
  attr <- with_fs (fs_open path flags) ;;
  update_fid fid (fun f => mkFid f.(f_path) true None) ;;;
  s <- server ;;
  ret (w_qid attr.(a_qid) ++ w_u32 (iounit s)).

Definition t_lcreate : Srv (list Z) :=
  fid <- need rd_u32 ;;
  name <- need rd_str ;;
  flags <- need rd_u32 ;;
  mode <- need rd_u32 ;;
  _ <- need rd_u32 ;;
  path <- child fid name ;;
  attr <- with_fs (fs_create path flags mode) ;;
  update_fid fid (fun _ => mkFid path true None) ;;;
  s <- server ;;
  ret (w_qid attr.(a_qid) ++ w_u32 (iounit s)).

(** The fid of a transfer must have been opened. *)
Definition opened_fid (fid : Z) : Srv Fid :=
  f <- fid_state fid ;; if f.(f_opened) then ret f else throw EPROTO.

Definition t_read : Srv (list Z) :=
  fid <- need rd_u32 ;;
  offset <- need rd_u64 ;;
  count <- need rd_u32 ;;
  f <- opened_fid fid ;;
  s <- server ;;
  let count := Z.min count (saturating_sub s.(srv_msize) 11) in
  filled <- with_fs (fs_read f.(f_path) offset (replicate (Z.to_nat count) 0)) ;;
  let '(n, buf) := filled in
  data <- unwrap (slice buf 0 n) ;;
  ret (w_u32 n ++ data).

Definition t_write : Srv (list Z) :=
  fid <- need rd_u32 ;;
  offset <- need rd_u64 ;;
  count <- need rd_u32 ;;
  data <- need (rd_take count) ;;
  f <- opened_fid fid ;;
  n <- with_fs (fs_write f.(f_path) offset data) ;;
  ret (w_u32 n).

(** The listing a fid iterates over: the entries of the directory behind "."
    and "..". *)
Definition snapshot (path : list Z) : Srv (list DirEntry) :=
  self_attr <- with_fs (fs_lstat path) ;;
  parent_attr <- with_fs (fs_lstat (parent path)) ;;
  entries <- with_fs (fs_readdir path) ;;
  ret (mkEntry DOT self_attr.(a_qid).(qid_path) self_attr.(a_mode)
       :: mkEntry DOTDOT parent_attr.(a_qid).(qid_path) parent_attr.(a_mode) :: entries).

(** Entry [i] on the wire, stamped with the offset that follows it. *)
Definition dir_entry (i : Z) (e : DirEntry) : list Z :=
  w_qid (from_mode e.(e_mode) e.(e_ino)) ++ w_u64 (i + 1) ++ w_u8 ((e.(e_mode) .& S_IFMT) .>> 12) ++ w_str e.(e_name).

(** The entries from index [i] on that fit. *)
Fixpoint fill_entries (count : Z) (i : Z) (entries : list DirEntry) (out : list Z) : list Z :=
  match entries with
  | [] => out
  | e :: entries =>
      let size := 13 + 8 + 1 + 2 + Z.of_nat (length e.(e_name)) in
      if count <? Z.of_nat (length out) + size then out
      else fill_entries count (i + 1) entries (out ++ dir_entry i e)
  end.

(** [Iterator::skip]. *)
Definition skip {A} (n : Z) (l : list A) : list A :=
  if Z.of_nat (length l) <=? n then [] else drop (Z.to_nat n) l.

Definition readdir (fid offset count : Z) : Srv (list Z) :=
  f <- opened_fid fid ;;
  entries <- match f.(f_dir), offset =? 0 with
             | Some entries, false => ret entries
             | _, _ =>
                 entries <- snapshot f.(f_path) ;;
                 update_fid fid (fun f => mkFid f.(f_path) f.(f_opened) (Some entries)) ;;;
                 ret entries
             end ;;
  s <- server ;;
  let count := Z.min count (saturating_sub s.(srv_msize) 11) in
  ret (fill_entries count offset (skip offset entries) []).

Definition t_readdir : Srv (list Z) :=
  fid <- need rd_u32 ;;
  offset <- need rd_u64 ;;
  count <- need rd_u32 ;;
  body <- readdir fid offset count ;;
  ret (w_u32 (Z.of_nat (length body)) ++ body).

Definition t_mkdir : Srv (list Z) :=
  dfid <- need rd_u32 ;;
  name <- need rd_str ;;
  mode <- need rd_u32 ;;
  _ <- need rd_u32 ;;
  path <- child dfid name ;;
  attr <- with_fs (fs_mkdir path mode) ;;
  ret (w_qid attr.(a_qid)).

Definition t_unlinkat : Srv (list Z) :=
  dfid <- need rd_u32 ;;
  name <- need rd_str ;;
  flags <- need rd_u32 ;;
  path <- child dfid name ;;
  with_fs (fs_remove path (has flags AT_REMOVEDIR)) ;;;
  ret [].

Definition t_renameat : Srv (list Z) :=
  olddirfid <- need rd_u32 ;;
  oldname <- need rd_str ;;
  newdirfid <- need rd_u32 ;;
  newname <- need rd_str ;;
  from <- child olddirfid oldname ;;
  to <- child newdirfid newname ;;
  with_fs (fs_rename from to) ;;;
  ret [].

Definition t_symlink : Srv (list Z) :=
  dfid <- need rd_u32 ;;
  name <- need rd_str ;;
  target <- need rd_str ;;
  _ <- need rd_u32 ;;
  path <- child dfid name ;;
  attr <- with_fs (fs_symlink path target) ;;
  ret (w_qid attr.(a_qid)).

Definition t_readlink : Srv (list Z) :=
  fid <- need rd_u32 ;;
  path <- fid_path fid ;;
  target <- with_fs (fs_readlink path) ;;
  ret (w_str target).

Definition t_link : Srv (list Z) :=
  dfid <- need rd_u32 ;;
  fid <- need rd_u32 ;;
  name <- need rd_str ;;
  existing <- fid_path fid ;;
  new <- child dfid name ;;
  with_fs (fs_hardlink existing new) ;;;
  ret [].

Definition t_mknod : Srv (list Z) :=
  dfid <- need rd_u32 ;;
  name <- need rd_str ;;
  mode <- need rd_u32 ;;
  major <- need rd_u32 ;;
  minor <- need rd_u32 ;;
  _ <- need rd_u32 ;;
  path <- child dfid name ;;
  attr <- with_fs (fs_mknod path mode major minor) ;;
  ret (w_qid attr.(a_qid)).

Definition t_lock : Srv (list Z) := _ <- need rd_u32 ;; ret (w_u8 0).

Definition t_getlock : Srv (list Z) :=
  _ <- need rd_u32 ;;
  _ <- need rd_u8 ;;
  start <- need rd_u64 ;;
  len <- need rd_u64 ;;
  proc_id <- need rd_u32 ;;
  client_id <- need rd_str ;;
  ret (w_u8 2 ++ w_u64 start ++ w_u64 len ++ w_u32 proc_id ++ w_str client_id).

Definition dispatch (id : Z) : Srv (list Z) :=
  if id =? T_VERSION then t_version
  else if id =? T_ATTACH then t_attach
  else if id =? T_WALK then t_walk
  else if id =? T_CLUNK then t_clunk
  else if id =? T_STATFS then t_statfs
  else if id =? T_GETATTR then t_getattr
  else if id =? T_SETATTR then t_setattr
  else if id =? T_LOPEN then t_lopen
  else if id =? T_LCREATE then t_lcreate
  else if id =? T_READ then t_read
  else if id =? T_WRITE then t_write
  else if id =? T_READDIR then t_readdir
  else if id =? T_MKDIR then t_mkdir
  else if id =? T_UNLINKAT then t_unlinkat
  else if id =? T_RENAMEAT then t_renameat
  else if id =? T_SYMLINK then t_symlink
  else if id =? T_READLINK then t_readlink
  else if id =? T_LINK then t_link
  else if id =? T_MKNOD then t_mknod
  else if (id =? T_FSYNC) || (id =? T_FLUSH) then ret []
  else if id =? T_XATTRWALK then throw EOPNOTSUPP
  else if id =? T_LOCK then t_lock
  else if id =? T_GETLOCK then t_getlock
  else throw EOPNOTSUPP.

(** The header: [size[4] id[1] tag[2]]; the three reads happen in any case. *)
Definition read_header (r : Rd) : option (Z * Z) * Rd :=
  let '(size, r) := rd_u32 r in
  let '(id, r) := rd_u8 r in
  let '(tag, r) := rd_u16 r in
  (match size, id, tag with Some _, Some id, Some tag => Some (id, tag) | _, _, _ => None end, r).

(** [None] when the server panics. *)
Definition handle (req : list Z) (s : Server F) : option (list Z * Server F) :=
  match read_header (rd_new req) with
  | (None, _) => Some (reply R_LERROR 0 (err_body EPROTO), s)
  | (Some (id, tag), r) =>
      match dispatch id (s, r) with
      | (Ok body, (s, _)) => Some (reply (id + 1) tag body, s)
      | (Err e, (s, _)) => Some (reply R_LERROR tag (err_body e), s)
      | (Panic, _) => None
      end
  end.

(** A session: the replies to a sequence of requests. *)
Fixpoint session (reqs : list (list Z)) (s : Server F) : option (list (list Z) * Server F) :=
  match reqs with
  | [] => Some ([], s)
  | req :: reqs =>
      '(rep, s) ← handle req s ;
      '(reps, s) ← session reqs s ;
      Some (rep :: reps, s)
  end.
End Handlers.
