(* ===== verification/P9Fs.v ===== *)
(** * The in-memory file system (p9fs.rs)

    [MemFs] is a table of nodes; a directory maps names to indices of the
    table, and a node's inode number is its index plus one.  Permission bits are
    in hexadecimal (0o755 is 0x1ed, 0o777 0x1ff, 0o7777 0xfff).  A name is the list
    of its UTF-8 bytes, and a [BTreeMap] lists its names in their order.  The
    backend over a host directory is file I/O and has no definition. *)

From stdpp Require Import gmap sorting.
From S2P Require Import Prelude Bus P9.

(** ** Data *)

Inductive Body : Type :=
| Dir (entries : gmap (list Z) nat)
| File (data : list Z)
| Link (target : list Z)
| Special (rdev : Z)
| Freed.

Record Node : Type := mkNode {
  n_body : Body; n_mode : Z; n_uid : Z; n_gid : Z; n_atime : Z * Z; n_mtime : Z * Z; n_ctime : Z * Z
}.

Definition set_body (b : Body) (n : Node) : Node :=
  mkNode b n.(n_mode) n.(n_uid) n.(n_gid) n.(n_atime) n.(n_mtime) n.(n_ctime).
Definition set_n_mode (m : Z) (n : Node) : Node :=
  mkNode n.(n_body) m n.(n_uid) n.(n_gid) n.(n_atime) n.(n_mtime) n.(n_ctime).
Definition set_n_uid (u : Z) (n : Node) : Node :=
  mkNode n.(n_body) n.(n_mode) u n.(n_gid) n.(n_atime) n.(n_mtime) n.(n_ctime).
Definition set_n_gid (g : Z) (n : Node) : Node :=
  mkNode n.(n_body) n.(n_mode) n.(n_uid) g n.(n_atime) n.(n_mtime) n.(n_ctime).
Definition set_n_atime (t : Z * Z) (n : Node) : Node :=
  mkNode n.(n_body) n.(n_mode) n.(n_uid) n.(n_gid) t n.(n_mtime) n.(n_ctime).
Definition set_n_mtime (t : Z * Z) (n : Node) : Node :=
  mkNode n.(n_body) n.(n_mode) n.(n_uid) n.(n_gid) n.(n_atime) t n.(n_ctime).

Record MemFs : Type := mkMemFs { nodes : list Node; capacity : Z }.

Definition new_node (body : Body) (mode : Z) : Node := mkNode body mode 0 0 (0, 0) (0, 0) (0, 0).

Definition memfs_new : MemFs := mkMemFs [new_node (Dir ∅) (S_IFDIR .| 0x1ed)] (64 .<< 20).

Definition set_nodes (ns : list Node) (fs : MemFs) : MemFs := mkMemFs ns fs.(capacity).

Definition set_capacity (bytes : Z) (fs : MemFs) : MemFs := mkMemFs fs.(nodes) bytes.

(** ** Paths and names *)

(** [path.split('/')]. *)
Fixpoint split_slash (path : list Z) : list (list Z) :=
  match path with
  | [] => [[]]
  | c :: path =>
      let rest := split_slash path in
      if c =? SLASH then [] :: rest
      else match rest with s :: rest => (c :: s) :: rest | [] => [[c]] end
  end.

Definition components (path : list Z) : list (list Z) :=
  filter (fun c => c <> [] /\ c <> DOT) (split_slash path).

(** The order of strings: by bytes. *)
Fixpoint name_leb (a b : list Z) : bool :=
  match a, b with
  | [], _ => true
  | _ :: _, [] => false
  | x :: a, y :: b => (x <? y) || (x =? y) && name_leb a b
  end.

Definition listing (entries : gmap (list Z) nat) : list (list Z * nat) :=
  merge_sort (fun a b => name_leb a.1 b.1) (map_to_list entries).

Definition makedev (major minor : Z) : Z :=
  ((major .& 0xfffff000) .<< 32) .| ((major .& 0xfff) .<< 8) .| ((minor .& 0xffffff00) .<< 12) .| (minor .& 0xff).

(** ** Internals *)

Definition Fs (A : Type) : Type := M Z MemFs A.

(** [self.nodes[idx]]. *)
Definition node_at (idx : nat) : Fs Node := fs <- gets id ;; unwrap (fs.(nodes) !! idx).

(** An update in place of a node that exists. *)
Definition update_node (idx : nat) (f : Node -> Node) : Fs unit :=
  modify (fun fs => set_nodes (alter f idx fs.(nodes)) fs).

Definition alloc (body : Body) (mode : Z) : Fs nat :=
  fs <- gets id ;;
  modify (fun fs => set_nodes (fs.(nodes) ++ [new_node body mode]) fs) ;;;
  ret (length fs.(nodes)).

Definition child_idx (dir : nat) (name : list Z) : Fs (option nat) :=
  n <- node_at dir ;;
  ret (match n.(n_body) with Dir m => m !! name | _ => None end).

(** Nothing happens when [dir] is not a directory. *)
Definition link_child (dir : nat) (name : list Z) (node : nat) : Fs unit :=
  n <- node_at dir ;;
  match n.(n_body) with
  | Dir m => update_node dir (set_body (Dir (<[name := node]> m)))
  | _ => ret tt
  end.

Fixpoint ensure_dirs (idx : nat) (dirs : list (list Z)) : Fs nat :=
  match dirs with
  | [] => ret idx
  | c :: dirs =>
      found <- child_idx idx c ;;
      match found with
      | Some i => ensure_dirs i dirs
      | None =>
          new <- alloc (Dir ∅) (S_IFDIR .| 0x1ed) ;;
          link_child idx c new ;;;
          ensure_dirs new dirs
      end
  end.

(** [expect]s a final component. *)
Definition ensure_parent (path : list Z) : Fs (nat * list Z) :=
  let comps := components path in
  name <- unwrap (list.last comps) ;;
  idx <- ensure_dirs 0 (removelast comps) ;;
  ret (idx, name).

Fixpoint resolve (idx : nat) (comps : list (list Z)) : Fs nat :=
  match comps with
  | [] => ret idx
  | c :: comps =>
      n <- node_at idx ;;
      match n.(n_body) with
      | Dir m => i <- ok_or (m !! c) ENOENT ;; resolve i comps
      | _ => throw ENOTDIR
      end
  end.

Definition lookup_path (path : list Z) : Fs nat := resolve 0 (components path).

Definition split (path : list Z) : Fs (nat * list Z) :=
  let comps := components path in
  name <- ok_or (list.last comps) EINVAL ;;
  idx <- resolve 0 (removelast comps) ;;
  ret (idx, name).

Definition div_ceil (a b : Z) : Z := (a + b - 1) / b.

Definition attr_of (idx : nat) : Fs Attr :=
  n <- node_at idx ;;
  let size := match n.(n_body) with
              | File d => Z.of_nat (length d)
              | Link t => Z.of_nat (length t)
              | Dir m => Z.of_nat (size m) * 32
              | _ => 0
              end in
  let rdev := match n.(n_body) with Special rdev => rdev | _ => 0 end in
  ret (mkAttr (from_mode n.(n_mode) (Z.of_nat idx + 1)) n.(n_mode) n.(n_uid) n.(n_gid)
         (if n.(n_mode) .& S_IFMT =? S_IFDIR then 2 else 1) rdev size 4096 (div_ceil size 512)
         n.(n_atime) n.(n_mtime) n.(n_ctime)).

Definition create_at (path : list Z) (body : Body) (mode : Z) : Fs Attr :=
  at_ <- split path ;;
  let '(dir, name) := at_ in
  taken <- child_idx dir name ;;
  if bool_decide (is_Some taken) then throw EEXIST else
  n <- node_at dir ;;
  match n.(n_body) with
  | Dir _ =>
      node <- alloc body mode ;;
      link_child dir name node ;;;
      attr_of node
  | _ => throw ENOTDIR
  end.

Definition bytes_used (fs : MemFs) : Z :=
  foldr Z.add 0 (map (fun n => match n.(n_body) with File d => Z.of_nat (length d) | _ => 0 end) fs.(nodes)).

(** ** The backend's operations *)

Definition mem_statfs (fs : MemFs) : StatFs * MemFs :=
  let used := bytes_used fs in
  let free := saturating_sub fs.(capacity) used / 4096 in
  (mkStatFs 4096 (fs.(capacity) / 4096) free free (Z.of_nat (length fs.(nodes))) (1 .<< 20), fs).

Definition mem_lstat (path : list Z) : Fs Attr := idx <- lookup_path path ;; attr_of idx.

Fixpoint list_entries (entries : list (list Z * nat)) : Fs (list DirEntry) :=
  match entries with
  | [] => ret []
  | (name, i) :: entries =>
      n <- node_at i ;;
      rest <- list_entries entries ;;
      ret (mkEntry name (Z.of_nat i + 1) n.(n_mode) :: rest)
  end.

Definition mem_readdir (path : list Z) : Fs (list DirEntry) :=
  idx <- lookup_path path ;;
  n <- node_at idx ;;
  match n.(n_body) with
  | Dir m => list_entries (listing m)
  | _ => throw ENOTDIR
  end.

Definition mem_open (path : list Z) (flags : Z) : Fs Attr :=
  idx <- lookup_path path ;;
  n <- node_at idx ;;
  match n.(n_body) with
  | File _ => if has flags O_TRUNC then update_node idx (set_body (File [])) else ret tt
  | _ => ret tt
  end ;;;
  attr_of idx.

Definition mem_read (path : list Z) (offset : Z) (buf : list Z) : Fs (Z * list Z) :=
  idx <- lookup_path path ;;
  n <- node_at idx ;;
  match n.(n_body) with
  | File d =>
      let start := Z.min offset (Z.of_nat (length d)) in
      let n := Z.min (Z.of_nat (length buf)) (Z.of_nat (length d) - start) in
      src <- unwrap (slice d start (start + n)) ;;
      buf <- unwrap (copy_from_slice buf 0 n src) ;;
      ret (n, buf)
  | Dir _ => throw EISDIR
  | _ => throw EINVAL
  end.

(** [Vec::resize]: a vector is at most [isize::MAX] bytes. *)
Definition resize (d : list Z) (n : Z) : option (list Z) :=
  if 2 ^ 63 <=? n then None
  else Some (take (Z.to_nat n) d ++ replicate (Z.to_nat n - length d) 0).

(** The sum of the offset and the length wraps. *)
Definition write_file (d : list Z) (offset : Z) (data : list Z) : option (list Z) :=
  let end_ := add64 offset (Z.of_nat (length data)) in
  d ← (if Z.of_nat (length d) <? end_ then resize d end_ else Some d) ;
  copy_from_slice d offset end_ data.

Definition mem_write (path : list Z) (offset : Z) (data : list Z) : Fs Z :=
  idx <- lookup_path path ;;
  n <- node_at idx ;;
  match n.(n_body) with
  | File d =>
      d <- unwrap (write_file d offset data) ;;
      update_node idx (set_body (File d)) ;;;
      ret (Z.of_nat (length data))
  | Dir _ => throw EISDIR
  | _ => throw EINVAL
  end.

Definition mem_create (path : list Z) (flags mode : Z) : Fs Attr :=
  create_at path (File []) (S_IFREG .| (mode .& 0xfff)).

Definition mem_mkdir (path : list Z) (mode : Z) : Fs Attr :=
  create_at path (Dir ∅) (S_IFDIR .| (mode .& 0xfff)).

Definition mem_symlink (path target : list Z) : Fs Attr :=
  create_at path (Link target) (S_IFLNK .| 0x1ff).

Definition mem_mknod (path : list Z) (mode major minor : Z) : Fs Attr :=
  create_at path (Special (makedev major minor)) mode.

Definition mem_readlink (path : list Z) : Fs (list Z) :=
  idx <- lookup_path path ;;
  n <- node_at idx ;;
  match n.(n_body) with Link t => ret t | _ => throw EINVAL end.

Definition mem_hardlink (existing new : list Z) : Fs unit :=
  src <- lookup_path existing ;;
  at_ <- split new ;;
  let '(dir, name) := at_ in
  taken <- child_idx dir name ;;
  if bool_decide (is_Some taken) then throw EEXIST else link_child dir name src.

(** [m.remove(&name)] when the node is a directory. *)
Definition unlink_child (dir : nat) (name : list Z) : Fs unit :=
  n <- node_at dir ;;
  match n.(n_body) with
  | Dir m => update_node dir (set_body (Dir (delete name m)))
  | _ => ret tt
  end.

Definition mem_remove (path : list Z) (is_dir : bool) : Fs unit :=
  at_ <- split path ;;
  let '(dir, name) := at_ in
  found <- child_idx dir name ;;
  idx <- ok_or found ENOENT ;;
  n <- node_at idx ;;
  match n.(n_body) with
  | Dir m => if decide (m = ∅) then ret tt else throw ENOTEMPTY
  | _ => ret tt
  end ;;;
  unlink_child dir name ;;;
  update_node idx (set_body Freed).

Definition mem_rename (from to : list Z) : Fs unit :=
  at_ <- split from ;;
  let '(from_dir, from_name) := at_ in
  found <- child_idx from_dir from_name ;;
  idx <- ok_or found ENOENT ;;
  at_ <- split to ;;
  let '(to_dir, to_name) := at_ in
  unlink_child from_dir from_name ;;;
  link_child to_dir to_name idx.

Definition mem_set_mode (path : list Z) (mode : Z) : Fs unit :=
  idx <- lookup_path path ;;
  n <- node_at idx ;;
  update_node idx (set_n_mode ((n.(n_mode) .& S_IFMT) .| (mode .& 0xfff))).

(** An update when the value is given. *)
Definition update_given {A} (idx : nat) (f : A -> Node -> Node) (o : option A) : Fs unit :=
  match o with Some a => node_at idx ;;; update_node idx (f a) | None => ret tt end.

Definition mem_set_owner (path : list Z) (uid gid : option Z) : Fs unit :=
  idx <- lookup_path path ;;
  update_given idx set_n_uid uid ;;;
  update_given idx set_n_gid gid.

Definition mem_truncate (path : list Z) (size : Z) : Fs unit :=
  idx <- lookup_path path ;;
  n <- node_at idx ;;
  match n.(n_body) with
  | File d => d <- unwrap (resize d size) ;; update_node idx (set_body (File d))
  | _ => throw EINVAL
  end.

Definition mem_set_times (path : list Z) (atime mtime : option (Z * Z)) : Fs unit :=
  idx <- lookup_path path ;;
  update_given idx set_n_atime atime ;;;
  update_given idx set_n_mtime mtime.

(** [close] is the trait's default. *)
#[global] Instance MemFs_backend : FsBackend MemFs := {|
  fs_statfs := mem_statfs;
  fs_lstat := mem_lstat;
  fs_readdir := mem_readdir;
  fs_open := mem_open;
  fs_close _ fs := fs;
  fs_read := mem_read;
  fs_write := mem_write;
  fs_create := mem_create;
  fs_mkdir := mem_mkdir;
  fs_symlink := mem_symlink;
  fs_mknod := mem_mknod;
  fs_readlink := mem_readlink;
  fs_hardlink := mem_hardlink;
  fs_remove := mem_remove;
  fs_rename := mem_rename;
  fs_set_mode := mem_set_mode;
  fs_set_owner := mem_set_owner;
  fs_truncate := mem_truncate;
  fs_set_times := mem_set_times
|}.

(** ** Populating a tree *)

Definition add_dir (path : list Z) : Fs nat := ensure_dirs 0 (components path).

Definition add_file (path data : list Z) (mode : Z) : Fs unit :=
  at_ <- ensure_parent path ;;
  let '(dir, name) := at_ in
  node <- alloc (File data) (S_IFREG .| (mode .& 0xfff)) ;;
  link_child dir name node.

Definition add_symlink (path target : list Z) : Fs unit :=
  at_ <- ensure_parent path ;;
  let '(dir, name) := at_ in
  node <- alloc (Link target) (S_IFLNK .| 0x1ff) ;;
  link_child dir name node.

(** ** Tar archives *)

Fixpoint take_digits (field : list Z) : list Z :=
  match field with
  | b :: field => if (48 <=? b) && (b <=? 57) then b :: take_digits field else []
  | [] => []
  end.

Definition octal (field : list Z) : Z := fold_left (fun acc b => acc * 8 + (b - 48)) (take_digits field) 0.

Fixpoint until_nul (b : list Z) : list Z :=
  match b with c :: b => if c =? 0 then [] else c :: until_nul b | [] => [] end.

Definition cstr (b : list Z) : list Z := from_utf8_lossy (until_nul b).

(** [hdr[s..e]] of a header of 512 bytes. *)
Definition field (hdr : list Z) (s e : nat) : list Z := take (e - s) (drop s hdr).

Definition USTAR : list Z := [117; 115; 116; 97; 114].

Definition entry_name (hdr : list Z) : list Z :=
  let base := cstr (field hdr 0 100) in
  let prefix := if decide (field hdr 257 262 = USTAR) then cstr (field hdr 345 500) else [] in
  if decide (prefix = []) then base else prefix ++ SLASH :: base.

(** What an entry does: the entries loaded and the name of the next one. *)
Definition load_entry (hdr data : list Z) (long_name : option (list Z)) : Fs (Z * option (list Z)) :=
  let mode := u32 (octal (field hdr 100 108)) in
  let kind := nth 156 hdr 0 in
  let name := match long_name with Some n => n | None => entry_name hdr end in
  if kind =? 76 then ret (0, Some (cstr data))
  else if kind =? 53 then add_dir name ;;; ret (1, None)
  else if (kind =? 48) || (kind =? 0) then add_file name data mode ;;; ret (1, None)
  else if kind =? 50 then add_symlink name (cstr (field hdr 157 257)) ;;; ret (1, None)
  else ret (0, None).

(** The loop; every turn consumes at least a header. *)
Fixpoint load_tar_loop (fuel : nat) (tar : list Z) (pos loaded : Z) (long_name : option (list Z)) : Fs Z :=
  match fuel with
  | O => panic
  | S fuel =>
      let len := Z.of_nat (length tar) in
      if len <? pos + 512 then ret loaded else
      hdr <- unwrap (slice tar pos (pos + 512)) ;;
      if forallb (fun b => b =? 0) hdr then ret loaded else
      let size := octal (field hdr 124 136) in
      let data_start := pos + 512 in
      let data_end := Z.min (data_start + size) len in
      data <- unwrap (slice tar data_start data_end) ;;
      r <- load_entry hdr data long_name ;;
      load_tar_loop fuel tar (data_start + div_ceil size 512 * 512) (loaded + fst r) (snd r)
  end.

Definition load_tar (tar : list Z) : Fs Z := load_tar_loop (S (length tar)) tar 0 0 None.
