(* ===== verification/P9Spec.v ===== *)
(** * What the 9P server does with any backend

    One pass over the messages shows what holds of a handler for every backend:
    [always m1 m2 Q] compares a handler over two backends, with an invariant of
    the files and of the fids.  Three readings of it follow: a backend is asked
    only about normalised paths; a request gets one well-formed reply and never
    a panic from a backend that keeps its promises ([FsBackendOk]); and what
    every operation of a backend preserves, every session preserves. *)

From stdpp Require Import gmap.
From S2P Require Import Prelude Bus Slices P9 P9Fs.

(** ** Normalised paths

    The contract of [FsBackend]: the root is the empty path, and every other
    path is a slash before each of its components, none of them empty, a dot or
    two dots, or holding a slash or a NUL.  [join] and [parent] keep it. *)

Definition path_of (comps : list (list Z)) : list Z := concat (map (cons SLASH) comps).

Definition component (c : list Z) : Prop :=
  c <> [] /\ c <> DOT /\ c <> DOTDOT /\ SLASH ∉ c /\ 0 ∉ c.

#[global] Instance component_dec c : Decision (component c).
Proof. unfold component. apply _. Defined.

Definition normal (path : list Z) : Prop :=
  Forall component (components path) /\ path_of (components path) = path.

#[global] Instance normal_dec path : Decision (normal path).
Proof. unfold normal. apply _. Defined.

Lemma path_of_app a b : path_of (a ++ b) = path_of a ++ path_of b.
Proof. unfold path_of. by rewrite map_app, concat_app. Qed.

Lemma split_slash_nonempty p : split_slash p <> [].
Proof. destruct p as [|c p]; [done|]. cbn. destruct (_ =? _); [done|]. by destruct (split_slash p). Qed.

Lemma split_slash_app c p : SLASH ∉ c ->
  split_slash (c ++ SLASH :: p) = c :: split_slash p.
Proof.
  induction c as [|x c IH]; intros Hc; [done|]. apply not_elem_of_cons in Hc as [Hx Hc]. cbn.
  rewrite IH by done. destruct (Z.eqb_spec x SLASH); [by subst|done].
Qed.

Lemma split_slash_single c : SLASH ∉ c -> split_slash c = [c].
Proof.
  induction c as [|x c IH]; intros Hc; [done|]. apply not_elem_of_cons in Hc as [Hx Hc]. cbn.
  rewrite IH by done. destruct (Z.eqb_spec x SLASH); [by subst|done].
Qed.

Lemma split_path_of c comps : Forall (fun c => SLASH ∉ c) (c :: comps) ->
  split_slash (c ++ path_of comps) = c :: comps.
Proof.
  revert c. induction comps as [|d comps IH]; intros c [Hc Hs]%list.Forall_cons.
  - unfold path_of. cbn. rewrite app_nil_r. by apply split_slash_single.
  - unfold path_of. cbn [map concat]. change ((SLASH :: d) ++ ?x) with (SLASH :: (d ++ x)).
    rewrite split_slash_app by done. f_equal. by apply IH.
Qed.

Lemma filter_everything {A} (P : A -> Prop) `{forall x, Decision (P x)} l : Forall P l -> filter P l = l.
Proof. induction 1 as [|x l Hx _ IH]; [done|]. by rewrite filter_cons_True, IH. Qed.

Lemma components_path_of comps : Forall component comps -> components (path_of comps) = comps.
Proof.
  intros Hc. unfold components. destruct comps as [|c comps].
  - done.
  - change (path_of (c :: comps)) with ((SLASH :: c) ++ path_of comps).
    change (((SLASH :: c) ++ path_of comps)) with ([] ++ SLASH :: (c ++ path_of comps)).
    rewrite split_slash_app, split_path_of.
    + rewrite filter_cons_False by tauto. apply filter_everything. eapply list.Forall_impl; [exact Hc|].
      unfold component. tauto.
    + eapply list.Forall_impl; [exact Hc|]. unfold component. tauto.
    + set_solver.
Qed.

Lemma normal_path_of comps : Forall component comps -> normal (path_of comps).
Proof. intros Hc. unfold normal. by rewrite components_path_of. Qed.

Lemma normal_inv p : normal p -> exists comps, p = path_of comps /\ Forall component comps.
Proof. intros [Hc E]. by exists (components p). Qed.

Lemma normal_root : normal [].
Proof. apply (normal_path_of []). constructor. Qed.

Lemma before_last_slash_app p c : SLASH ∉ c -> before_last_slash (p ++ SLASH :: c) = Some p.
Proof.
  intros Hc. assert (before_last_slash c = None) as Hn.
  { induction c as [|x c IH]; [done|]. apply not_elem_of_cons in Hc as [Hx Hc]. cbn. rewrite IH by done.
    by destruct (Z.eqb_spec x SLASH); [subst|]. }
  induction p as [|x p IH]; cbn; [|by rewrite IH]. by rewrite Hn.
Qed.

Lemma parent_path_of comps c : component c -> parent (path_of (comps ++ [c])) = path_of comps.
Proof.
  intros (_ & _ & _ & Hs & _). unfold parent. rewrite path_of_app. unfold path_of at 2. cbn.
  rewrite app_nil_r. by rewrite before_last_slash_app.
Qed.

Lemma normal_parent p : normal p -> normal (parent p).
Proof.
  intros (comps & -> & Hc)%normal_inv. destruct comps as [|c comps _] using rev_ind; [apply normal_root|].
  apply Forall_app in Hc as [Hc [Hl _]%list.Forall_cons]. rewrite parent_path_of by done. by apply normal_path_of.
Qed.

Lemma path_of_snoc comps c : path_of (comps ++ [c]) = path_of comps ++ SLASH :: c.
Proof. rewrite path_of_app. unfold path_of at 2. cbn. by rewrite app_nil_r. Qed.

Lemma normal_join base name p : normal base -> join base name = Some p -> normal p.
Proof.
  intros Hb. unfold join. repeat case_decide; intros [= <-]; [done|by apply normal_parent|].
  destruct (normal_inv base Hb) as (comps & -> & Hc). rewrite <- path_of_snoc. apply normal_path_of.
  apply Forall_app. split; [done|]. apply list.Forall_cons. split; [|constructor]. unfold component. tauto.
Qed.

(** A component appended to a path is the last one a backend sees. *)
Lemma components_join base name : normal base -> component name ->
  components (base ++ SLASH :: name) = components base ++ [name].
Proof.
  intros (comps & -> & Hc)%normal_inv Hn. rewrite <- path_of_snoc, !components_path_of; [done..|].
  apply Forall_app. split; [done|]. by apply list.Forall_cons.
Qed.

(** ** The wire *)

(** A string field is at most 2^16 - 1 bytes, each of which decodes to at most three. *)
Definition STR_MAX : Z := 3 * 65535.
(** A reply has a length that its header can hold. *)
Definition BODY_MAX : Z := 2 ^ 31.

Lemma utf8_char_length first rest : (1 <= snd (utf8_char first rest))%nat.
Proof. unfold utf8_char. repeat case_match; cbn; lia. Qed.

Lemma utf8_lossy_length l : Z.of_nat (length (from_utf8_lossy l)) <= 3 * Z.of_nat (length l).
Proof.
  unfold from_utf8_lossy. generalize (length l) at 1. intros fuel. revert l.
  induction fuel as [|fuel IH]; intros l; [cbn; lia|]. destruct l as [|first rest]; [cbn; lia|].
  cbn [utf8_lossy_loop]. pose proof (utf8_char_length first rest) as Hn.
  destruct (utf8_char first rest) as [ok n]. cbn [snd] in Hn.
  specialize (IH (drop n (first :: rest))). rewrite length_app.
  assert (Z.of_nat (length (if ok then take n (first :: rest) else REPLACEMENT))
          <= 3 * Z.of_nat (length (first :: rest) - length (drop n (first :: rest)))) as H.
  { rewrite length_drop. destruct ok; [rewrite length_take|cbn [length REPLACEMENT]]; cbn [length] in *; lia. }
  rewrite length_drop in *. lia.
Qed.

Lemma slice_length l s e x : slice l s e = Some x -> 0 <= s -> Z.of_nat (length x) = e - s /\ e <= Z.of_nat (length l).
Proof.
  unfold slice. intros E Hs. case_match eqn:Hc; [|done]. apply andb_true_iff in Hc as [H1 H2].
  injection E as <-. rewrite length_take, length_drop. lia.
Qed.

Lemma slice_bytes l s e x : slice l s e = Some x -> Forall (uint 8) l -> Forall (uint 8) x.
Proof. unfold slice. case_match; [|done]. intros [= <-] Hl. by apply Forall_take, Forall_drop. Qed.

(** A read in the middle of a request. *)
Lemma rd_take_inv n b p s r :
  0 <= p -> 0 <= n -> rd_take n (mkRd b p) = (Some s, r) ->
  r = mkRd b (p + n) /\ s = take (Z.to_nat n) (drop (Z.to_nat p) b) /\ p + n <= Z.of_nat (length b).
Proof.
  intros Hp Hn. unfold rd_take, slice. cbn. case_match; [done|]. destruct ((p <=? p + n) && _) eqn:Hc; [|done].
  intros [= <- <-]. apply andb_true_iff in Hc as [H1 H2]. split_and!; [done| |lia].
  f_equal. lia.
Qed.

Lemma rd_take_reader n r : rd_b (snd (rd_take n r)) = rd_b r.
Proof. unfold rd_take. repeat case_match; done. Qed.

Lemma rd_take_pos n r : 0 <= n -> 0 <= rd_p r -> 0 <= rd_p (snd (rd_take n r)).
Proof. intros Hn Hp. unfold rd_take. repeat case_match; cbn; lia. Qed.

Lemma rd_le_inv n b p v r :
  0 <= p -> 0 <= n -> rd_le n (mkRd b p) = (Some v, r) ->
  r = mkRd b (p + n) /\ v = word (Z.to_nat n) b p /\ p + n <= Z.of_nat (length b).
Proof.
  intros Hp Hn. unfold rd_le. destruct (rd_take n (mkRd b p)) as [[s|] r'] eqn:E; [|done].
  intros [= <- <-]. by apply rd_take_inv in E as (-> & -> & ?).
Qed.

Definition rd_wf (r : Rd) : Prop := 0 <= rd_p r /\ Forall (uint 8) (rd_b r).

(** What a read yields from any request. *)
Definition yields {A} (get : Rd -> option A * Rd) (Q : A -> Prop) : Prop :=
  forall r, rd_wf r -> rd_wf (snd (get r)) /\ forall a, fst (get r) = Some a -> Q a.

Lemma yields_take n : 0 <= n -> yields (rd_take n) (fun s => Z.of_nat (length s) = n /\ Forall (uint 8) s).
Proof.
  intros Hn r [Hp Hb]. split.
  - split; [by apply rd_take_pos|]. by rewrite rd_take_reader.
  - intros s. unfold rd_take. case_match; [done|]. case_match eqn:E; [|done]. intros [= <-].
    split; [apply slice_length in E as [? _]; [lia|done]|by eapply slice_bytes].
Qed.

Lemma yields_le n : 0 <= n -> yields (rd_le n) (uint (8 * n)).
Proof.
  intros Hn r Hr. destruct (yields_take n Hn r Hr) as [Hw Hs]. unfold rd_le.
  destruct (rd_take n r) as [[s|] r']; cbn in *; [|done]. split; [done|]. intros a [= <-].
  destruct (Hs s eq_refl) as [Hl Hb]. pose proof (from_le_bytes_range s Hb) as Hr'. unfold uint in *. by rewrite Hl in Hr'.
Qed.

Lemma yields_str : yields rd_str (fun s => Z.of_nat (length s) <= STR_MAX).
Proof.
  intros r Hr. destruct (yields_le 2 ltac:(lia) r Hr) as [Hw Hn]. unfold rd_str, rd_u16.
  destruct (rd_le 2 r) as [[n|] r']; cbn in *; [|done]. specialize (Hn n eq_refl).
  destruct (yields_take n ltac:(unfold uint in Hn; lia) r' Hw) as [Hw' Hs].
  destruct (rd_take n r') as [[s|] r'']; cbn in *; [|done]. split; [done|]. intros a [= <-].
  destruct (Hs s eq_refl) as [Hl _]. pose proof (utf8_lossy_length s). unfold STR_MAX, uint in *. lia.
Qed.

(** ** Two backends, an invariant *)

(** Results that agree, keep [inv], and panic only where that is allowed. *)
Definition matched {S A} (may_panic : Prop) (inv : S -> Prop) (r1 r2 : outcome Z A * S) (Q : A -> Prop) : Prop :=
  r1 = r2 /\ match r1 with (Ok a, s) => inv s /\ Q a | (Err _, s) => inv s | (Panic, _) => may_panic end.

Section Pass.
Context {F : Type} (B1 B2 : FsBackend F).
Context (fs_wf : F -> Prop) (may_panic : Prop) (size_ok : Z -> Prop).

Definition op_ok {A} (m1 m2 : M Z F A) (Q : A -> Prop) : Prop :=
  forall f, fs_wf f -> matched may_panic fs_wf (m1 f) (m2 f) Q.

(** What the server relies on: the paths are normalised, targets have a
    bounded length, and file sizes are [size_ok]. *)
Record backends_ok : Prop := {
  bo_statfs f : fs_wf f -> fs_statfs (FsBackend := B1) f = fs_statfs (FsBackend := B2) f
    /\ fs_wf (snd (fs_statfs (FsBackend := B1) f));
  bo_close p f : normal p -> fs_wf f -> fs_close (FsBackend := B1) p f = fs_close (FsBackend := B2) p f
    /\ fs_wf (fs_close (FsBackend := B1) p f);
  bo_lstat p : normal p -> op_ok (fs_lstat (FsBackend := B1) p) (fs_lstat (FsBackend := B2) p) (fun _ => True);
  bo_readdir p : normal p -> op_ok (fs_readdir (FsBackend := B1) p) (fs_readdir (FsBackend := B2) p) (fun _ => True);
  bo_open p fl : normal p -> op_ok (fs_open (FsBackend := B1) p fl) (fs_open (FsBackend := B2) p fl) (fun _ => True);
  bo_read p o buf : normal p -> 0 <= o ->
    op_ok (fs_read (FsBackend := B1) p o buf) (fs_read (FsBackend := B2) p o buf)
      (fun r => may_panic \/ 0 <= fst r <= Z.of_nat (length buf) /\ length (snd r) = length buf);
  bo_write p o data : normal p -> 0 <= o -> size_ok (o + Z.of_nat (length data)) ->
    op_ok (fs_write (FsBackend := B1) p o data) (fs_write (FsBackend := B2) p o data) (fun _ => True);
  bo_create p fl m : normal p -> op_ok (fs_create (FsBackend := B1) p fl m) (fs_create (FsBackend := B2) p fl m) (fun _ => True);
  bo_mkdir p m : normal p -> op_ok (fs_mkdir (FsBackend := B1) p m) (fs_mkdir (FsBackend := B2) p m) (fun _ => True);
  bo_symlink p t : normal p -> Z.of_nat (length t) <= STR_MAX ->
    op_ok (fs_symlink (FsBackend := B1) p t) (fs_symlink (FsBackend := B2) p t) (fun _ => True);
  bo_mknod p m a b : normal p ->
    op_ok (fs_mknod (FsBackend := B1) p m a b) (fs_mknod (FsBackend := B2) p m a b) (fun _ => True);
  bo_readlink p : normal p -> op_ok (fs_readlink (FsBackend := B1) p) (fs_readlink (FsBackend := B2) p)
    (fun t => may_panic \/ Z.of_nat (length t) + 2 < BODY_MAX);
  bo_hardlink p q : normal p -> normal q ->
    op_ok (fs_hardlink (FsBackend := B1) p q) (fs_hardlink (FsBackend := B2) p q) (fun _ => True);
  bo_remove p d : normal p -> op_ok (fs_remove (FsBackend := B1) p d) (fs_remove (FsBackend := B2) p d) (fun _ => True);
  bo_rename p q : normal p -> normal q ->
    op_ok (fs_rename (FsBackend := B1) p q) (fs_rename (FsBackend := B2) p q) (fun _ => True);
  bo_set_mode p m : normal p -> op_ok (fs_set_mode (FsBackend := B1) p m) (fs_set_mode (FsBackend := B2) p m) (fun _ => True);
  bo_set_owner p u g : normal p ->
    op_ok (fs_set_owner (FsBackend := B1) p u g) (fs_set_owner (FsBackend := B2) p u g) (fun _ => True);
  bo_truncate p n : normal p -> 0 <= n -> size_ok n ->
    op_ok (fs_truncate (FsBackend := B1) p n) (fs_truncate (FsBackend := B2) p n) (fun _ => True);
  bo_set_times p a m : normal p ->
    op_ok (fs_set_times (FsBackend := B1) p a m) (fs_set_times (FsBackend := B2) p a m) (fun _ => True)
}.

Record server_ok (s : Server F) : Prop := {
  so_fs : fs_wf s.(srv_fs);
  so_fids : map_Forall (fun _ f => normal f.(f_path)) s.(srv_fids);
  so_msize : 4096 <= s.(srv_msize) <= MAX_MSIZE
}.

Definition conn_ok (c : Conn) : Prop := server_ok (fst c) /\ rd_wf (snd c).

Definition at_conn {A} (c : Conn) (m1 m2 : Srv A) (Q : A -> Prop) : Prop :=
  matched may_panic conn_ok (m1 c) (m2 c) Q.

Definition always {A} (m1 m2 : Srv A) (Q : A -> Prop) : Prop := forall c, conn_ok c -> at_conn c m1 m2 Q.

(** *** Rules *)

Lemma at_bind {A B} c (m1 m2 : Srv A) (k1 k2 : A -> Srv B) Q R :
  at_conn c m1 m2 Q -> (forall a, Q a -> always (k1 a) (k2 a) R) -> at_conn c (bind m1 k1) (bind m2 k2) R.
Proof using Type.
  intros [E Hm] Hk. unfold at_conn, matched, bind. rewrite <- E. destruct (m1 c) as [[a|e|] s]; [|done..].
  destruct Hm as [Hs Ha]. by apply Hk.
Qed.

Lemma always_bind {A B} (m1 m2 : Srv A) (k1 k2 : A -> Srv B) Q R :
  always m1 m2 Q -> (forall a, Q a -> always (k1 a) (k2 a) R) -> always (bind m1 k1) (bind m2 k2) R.
Proof using Type. intros Hm Hk c Hc. eapply at_bind; [by apply Hm|done]. Qed.

Lemma always_ret {A} (a : A) (Q : A -> Prop) : Q a -> always (ret a) (ret a) Q.
Proof using Type. by intros HQ c Hc. Qed.

Lemma always_throw {A} e (Q : A -> Prop) : always (throw e) (throw e) Q.
Proof using Type. by intros c Hc. Qed.

Lemma always_weaken {A} (m1 m2 : Srv A) (Q R : A -> Prop) :
  always m1 m2 Q -> (forall a, Q a -> R a) -> always m1 m2 R.
Proof using Type.
  intros Hm HQ c Hc. destruct (Hm c Hc) as [E H]. split; [done|].
  destruct (m1 c) as [[a|e|] s]; [|done..]. destruct H; auto.
Qed.

Lemma always_ok_or {A} (o : option A) e (Q : A -> Prop) :
  (forall a, o = Some a -> Q a) -> always (ok_or o e) (ok_or o e) Q.
Proof using Type. intros Ho. destruct o; [by apply always_ret, Ho|apply always_throw]. Qed.

Lemma always_unwrap {A} (o : option A) (Q : A -> Prop) :
  (forall a, o = Some a -> Q a) -> (o = None -> may_panic) -> always (unwrap o) (unwrap o) Q.
Proof using Type. intros Ho Hn. destruct o; [by apply always_ret, Ho|]. intros c Hc. split; [done|]. by apply Hn. Qed.

Lemma always_need {A} (get : Rd -> option A * Rd) Q : yields get Q -> always (need get) (need get) Q.
Proof using Type.
  intros Hg [s r] [Hs Hr]. cbn in Hr. destruct (Hg r Hr) as [Hw Ha]. unfold at_conn, matched, need. cbn.
  destruct (get r) as [[a|] r']; cbn in *; split; try done. split; [by split|by apply Ha].
Qed.

Lemma always_fs {A} (m1 m2 : M Z F A) Q : op_ok m1 m2 Q -> always (with_fs m1) (with_fs m2) Q.
Proof using Type.
  intros Hm [s r] [Hs Hr]. destruct (Hm s.(srv_fs) (so_fs _ Hs)) as [E H]. unfold at_conn, matched, with_fs. cbn [fst].
  rewrite <- E. destruct (m1 s.(srv_fs)) as [[a|e|] f]; (split; [done|]); [destruct H as [Hf Ha]|rename H into Hf|done];
    [split; [|done]|]; (split; [split; [done|apply Hs..]|done]).
Qed.

Lemma always_server : always server server server_ok.
Proof using Type. intros c Hc. split; [done|]. split; [done|apply Hc]. Qed.

Lemma always_update f1 f2 :
  (forall s, server_ok s -> f1 s = f2 s /\ server_ok (f1 s)) -> always (update f1) (update f2) (fun _ => True).
Proof using Type.
  intros Hf c [Hs Hr]. destruct (Hf _ Hs) as [E Hs']. unfold at_conn, matched, update, modify. rewrite <- E.
  split; [done|]. split; [by split|done].
Qed.

Lemma always_attempt {A} (m1 m2 : Srv A) Q :
  always m1 m2 Q -> always (attempt m1) (attempt m2) (fun r => match r with inl a => Q a | inr _ => True end).
Proof using Type.
  intros Hm c Hc. destruct (Hm c Hc) as [E H]. unfold at_conn, matched, attempt. rewrite <- E.
  split; [done|]. by destruct (m1 c) as [[a|e|] s].
Qed.

(** *** Fids *)

Context (Hok : backends_ok).

Lemma server_set_fids s m : server_ok s -> map_Forall (fun _ f => normal f.(f_path)) m -> server_ok (set_fids m s).
Proof using Type. intros Hs Hm. split; [apply Hs|done|apply Hs]. Qed.

Lemma server_set_fs s f : server_ok s -> fs_wf f -> server_ok (set_fs f s).
Proof using Type. intros Hs Hf. split; [done|apply Hs..]. Qed.

Lemma always_close_fid f : normal f.(f_path) ->
  always (close_fid (H := B1) f) (close_fid (H := B2) f) (fun _ => True).
Proof using Hok.
  intros Hf. unfold close_fid. destruct f.(f_opened); [|by apply always_ret].
  apply always_update. intros s Hs. destruct (bo_close Hok f.(f_path) s.(srv_fs) Hf (so_fs _ Hs)) as [E Hw].
  rewrite <- E. split; [done|]. by apply server_set_fs.
Qed.

Lemma always_drop_fid (o : option Fid) fid :
  (forall f, o = Some f -> normal f.(f_path)) ->
  always
    (match o with
     | Some old => update (fun s => set_fids (delete fid s.(srv_fids)) s) ;;; close_fid (H := B1) old
     | None => ret tt end)
    (match o with
     | Some old => update (fun s => set_fids (delete fid s.(srv_fids)) s) ;;; close_fid (H := B2) old
     | None => ret tt end) (fun _ => True).
Proof using Hok.
  intros Ho. destruct o as [f|]; [|by apply always_ret]. eapply always_bind.
  - apply always_update. intros s Hs. split; [done|]. apply server_set_fids; [done|]. apply map_Forall_delete, Hs.
  - intros _ _. by apply always_close_fid, Ho.
Qed.

Lemma always_set_fid fid p : normal p ->
  always (set_fid (H := B1) fid p) (set_fid (H := B2) fid p) (fun _ => True).
Proof using Hok.
  intros Hp. eapply always_bind; [apply always_server|]. intros s0 Hs0. eapply always_bind.
  - apply always_drop_fid. intros f Hf. by apply (so_fids _ Hs0 _ _ Hf).
  - intros _ _. apply always_update. intros s Hs. split; [done|].
    apply server_set_fids; [done|]. by apply map_Forall_insert_2; [|apply Hs].
Qed.

Lemma always_fid_state fid : always (fid_state fid) (fid_state fid) (fun f => normal f.(f_path)).
Proof using Type.
  eapply always_bind; [apply always_server|]. intros s Hs. apply always_ok_or. intros f Hf.
  by apply (so_fids _ Hs _ _ Hf).
Qed.

Lemma always_fid_path fid : always (fid_path fid) (fid_path fid) normal.
Proof using Type. eapply always_bind; [apply always_fid_state|]. intros f Hf. by apply always_ret. Qed.

Lemma always_child fid name : always (child fid name) (child fid name) normal.
Proof using Type.
  eapply always_bind; [apply always_fid_path|]. intros p Hp. apply always_ok_or. intros q Hq. by eapply normal_join.
Qed.

Lemma always_update_fid fid g : (forall f, normal f.(f_path) -> normal (g f).(f_path)) ->
  always (update_fid fid g) (update_fid fid g) (fun _ => True).
Proof using Type.
  intros Hg. eapply always_bind; [apply always_fid_state|]. intros f Hf. apply always_update. intros s Hs.
  split; [done|]. apply server_set_fids; [done|]. apply map_Forall_insert_2; [by apply Hg|apply Hs].
Qed.

Lemma always_opened_fid fid : always (opened_fid fid) (opened_fid fid) (fun f => normal f.(f_path)).
Proof using Type.
  eapply always_bind; [apply always_fid_state|]. intros f Hf.
  destruct f.(f_opened); [by apply always_ret|apply always_throw].
Qed.

(** *** Messages *)

(** A body fits the reply's header. *)
Definition body_ok (body : list Z) : Prop := may_panic \/ Z.of_nat (length body) + 7 < 2 ^ 32.

Definition responds (m1 m2 : Srv (list Z)) : Prop := always m1 m2 body_ok.

Lemma always_walk_names n : forall p qids, normal p ->
  always (walk_names (H := B1) n p qids) (walk_names (H := B2) n p qids)
    (fun r => normal (fst r) /\ (length (snd r) <= n + length qids)%nat).
Proof using Hok.
  induction n as [|n IH]; intros p qids Hp; cbn [walk_names]; [by apply always_ret; cbn; auto with lia|].
  eapply always_bind; [apply always_need, yields_str|]. intros name _.
  destruct (join p name) as [next|] eqn:Ej; [|by apply always_ret; cbn; auto with lia].
  apply normal_join in Ej; [|done].
  eapply always_bind; [eapply always_attempt, always_fs, (bo_lstat Hok _ Ej)|]. intros [attr|e] _.
  - eapply always_weaken; [by apply IH|]. intros r [? Hl]. split; [done|]. rewrite length_app in Hl. cbn in Hl. lia.
  - by apply always_ret; cbn; auto with lia.
Qed.

Lemma fill_length count i entries out :
  Z.of_nat (length out) <= count -> Z.of_nat (length (fill_entries count i entries out)) <= count.
Proof using Type.
  revert i out. induction entries as [|e entries IH]; intros i out Ho; cbn [fill_entries]; [done|]. cbv zeta.
  case_match eqn:Hc; [done|]. apply IH. rewrite length_app. unfold dir_entry, w_qid, w_u8, w_u32, w_u64, w_str, w_u16.
  rewrite !length_app, !length_to_le_bytes. lia.
Qed.

Lemma always_snapshot p : normal p -> always (snapshot (H := B1) p) (snapshot (H := B2) p) (fun _ => True).
Proof using Hok.
  intros Hp. eapply always_bind; [by apply always_fs, (bo_lstat Hok)|]. intros a _.
  eapply always_bind; [by apply always_fs, (bo_lstat Hok), normal_parent|]. intros b _.
  eapply always_bind; [by apply always_fs, (bo_readdir Hok)|]. intros es _. by apply always_ret.
Qed.

Lemma always_readdir fid offset count : 0 <= count ->
  always (readdir (H := B1) fid offset count) (readdir (H := B2) fid offset count)
    (fun body => Z.of_nat (length body) <= MAX_MSIZE).
Proof using Hok.
  intros Hc. eapply always_bind; [apply always_opened_fid|]. intros f Hf.
  eapply (always_bind _ _ _ _ (fun _ => True)).
  - assert (always
      (entries <- snapshot (H := B1) f.(f_path) ;;
       update_fid fid (fun f => mkFid f.(f_path) f.(f_opened) (Some entries)) ;;; ret entries)
      (entries <- snapshot (H := B2) f.(f_path) ;;
       update_fid fid (fun f => mkFid f.(f_path) f.(f_opened) (Some entries)) ;;; ret entries) (fun _ => True)) as Hs.
    { eapply always_bind; [by apply always_snapshot|]. intros es _.
      eapply always_bind; [by apply always_update_fid|]. intros _ _. by apply always_ret. }
    destruct f.(f_dir); [|exact Hs]. destruct (offset =? 0); [exact Hs|by apply always_ret].
  - intros es _. eapply always_bind; [apply always_server|]. intros s Hs. apply always_ret. cbv beta.
    pose proof (so_msize _ Hs). etransitivity; [apply fill_length|]; unfold saturating_sub; cbn; lia.
Qed.

Ltac p9_bound :=
  right; repeat first
    [ rewrite length_app | rewrite length_to_le_bytes
    | progress unfold w_qid, w_u8, w_u16, w_u32, w_u64, w_str, attr_body, err_body, PROTOCOL, UNKNOWN, STR_MAX, MAX_MSIZE, BODY_MAX in * ];
  cbn [length] in *; lia.

(** A prefix of a handler, with the lemma of the operation it runs. *)
Ltac p9_op :=
  lazymatch goal with
  | |- always (need (rd_take _)) _ _ => apply always_need, yields_take
  | |- always (need rd_str) _ _ => apply always_need, yields_str
  | |- always (need rd_u8) _ _ => apply always_need, (yields_le 1); lia
  | |- always (need rd_u16) _ _ => apply always_need, (yields_le 2); lia
  | |- always (need rd_u32) _ _ => apply always_need, (yields_le 4); lia
  | |- always (need rd_u64) _ _ => apply always_need, (yields_le 8); lia
  | |- always server _ _ => apply always_server
  | |- always (fid_path _) _ _ => apply always_fid_path
  | |- always (opened_fid _) _ _ => apply always_opened_fid
  | |- always (child _ _) _ _ => apply always_child
  | |- always (set_fid _ _) _ _ => apply always_set_fid
  | |- always (update_fid _ _) _ _ => apply always_update_fid; intros; assumption
  | |- always (walk_names _ _ _) _ _ => apply always_walk_names
  | |- always (readdir _ _ _) _ _ => apply always_readdir
  | |- always (with_fs _) _ _ =>
      apply always_fs; first
        [ apply (bo_lstat Hok) | apply (bo_open Hok) | apply (bo_create Hok) | apply (bo_mkdir Hok)
        | apply (bo_mknod Hok) | apply (bo_symlink Hok) | apply (bo_readlink Hok) | apply (bo_hardlink Hok)
        | apply (bo_remove Hok) | apply (bo_rename Hok) | apply (bo_set_mode Hok) | apply (bo_set_owner Hok)
        | apply (bo_set_times Hok) | apply (bo_read Hok) ]
  end.

Ltac p9_step :=
  lazymatch goal with
  | |- responds _ _ => unfold responds
  | |- always (bind _ _) _ _ =>
      eapply always_bind; [first [p9_op; [..] | p9_op]; try assumption | let a := fresh "a" in let Ha := fresh "Ha" in intros a Ha; cbv beta in Ha]
  | |- always (ret _) _ _ => apply always_ret
  | |- always (throw _) _ _ => apply always_throw
  end.

Lemma responds_version : responds t_version t_version.
Proof using Type.
  unfold t_version. do 3 p9_step.
  eapply (always_bind _ _ _ _ (fun _ => True)).
  { apply always_update. intros s Hs. split; [done|]. by apply server_set_fids. }
  intros _ _. eapply (always_bind _ _ _ _ (fun _ => True)).
  { apply always_update. intros s Hs. split; [done|]. split; [apply Hs|apply Hs|].
    cbn [srv_msize set_msize]. unfold MAX_MSIZE. clear. lia. }
  intros _ _. p9_step. p9_step. destruct (decide _); p9_bound.
Qed.

Lemma responds_attach : responds (t_attach (H := B1)) (t_attach (H := B2)).
Proof using Hok. unfold t_attach. repeat p9_step; [apply normal_root..|p9_bound]. Qed.

Lemma responds_walk : responds (t_walk (H := B1)) (t_walk (H := B2)).
Proof using Hok.
  unfold t_walk. do 6 p9_step. destruct a3 as [p qids]. destruct Ha3 as [Hp Hl]. p9_step. p9_step.
  right. unfold w_u16. rewrite length_app, length_to_le_bytes. cbn in Hl.
  assert (length (concat (map w_qid qids)) = 13 * length qids)%nat as ->; [|unfold uint in *; lia].
  clear. induction qids as [|q qids IH]; [done|]. cbn [map concat]. rewrite length_app, IH.
  unfold w_qid, w_u8, w_u32, w_u64. rewrite !length_app, !length_to_le_bytes. cbn [length]. lia.
Qed.

Lemma responds_clunk : responds (t_clunk (H := B1)) (t_clunk (H := B2)).
Proof using Hok.
  unfold t_clunk. do 3 p9_step. eapply always_bind.
  - apply always_drop_fid. intros f Hf. by apply (so_fids _ Ha0 _ _ Hf).
  - intros _ _. p9_step. p9_bound.
Qed.

Lemma responds_statfs : responds (t_statfs (H := B1)) (t_statfs (H := B2)).
Proof using Hok.
  unfold t_statfs. do 2 p9_step. eapply (always_bind _ _ _ _ (fun _ => True)).
  - apply always_fs. intros f Hf. destruct (bo_statfs Hok f Hf) as [E Hw]. unfold matched. rewrite <- E.
    by destruct (fs_statfs f).
  - intros st _. p9_step. p9_bound.
Qed.

Lemma responds_getattr : responds (t_getattr (H := B1)) (t_getattr (H := B2)).
Proof using Hok. unfold t_getattr. repeat p9_step. p9_bound. Qed.

Lemma responds_lopen : responds (t_lopen (H := B1)) (t_lopen (H := B2)).
Proof using Hok. unfold t_lopen. repeat p9_step. p9_bound. Qed.

Lemma responds_lcreate : responds (t_lcreate (H := B1)) (t_lcreate (H := B2)).
Proof using Hok. unfold t_lcreate. repeat p9_step. p9_bound. Qed.

Lemma responds_read : responds (t_read (H := B1)) (t_read (H := B2)).
Proof using Hok.
  unfold t_read. do 6 p9_step.
  eapply always_bind; [apply always_fs, (bo_read Hok); [done|unfold uint in *; lia]|]. intros [n buf] Hr. cbn [fst snd] in Hr.
  set (count := Z.min _ _) in *. assert (0 <= count <= MAX_MSIZE) as Hc.
  { pose proof (so_msize _ Ha3). unfold count, saturating_sub, uint in *. lia. }
  rewrite length_replicate in Hr. eapply always_bind.
  - apply always_unwrap; [intros data Hd; exact Hd|]. intros Hn. destruct Hr as [Hr|[Hr Hl]]; [done|].
    unfold slice in Hn. case_match eqn:Hs; [done|]. apply andb_false_iff in Hs. lia.
  - intros data Hd. p9_step. destruct Hr as [Hr|[Hr Hl]]; [by left|].
    apply slice_length in Hd as [Hd _]; [|lia]. p9_bound.
Qed.

Lemma responds_readdir : responds (t_readdir (H := B1)) (t_readdir (H := B2)).
Proof using Hok.
  unfold t_readdir. do 3 p9_step. p9_step. p9_step.
  { unfold uint in *. lia. }
  p9_step. p9_bound.
Qed.

Lemma responds_mkdir : responds (t_mkdir (H := B1)) (t_mkdir (H := B2)).
Proof using Hok. unfold t_mkdir. repeat p9_step. p9_bound. Qed.

Lemma responds_unlinkat : responds (t_unlinkat (H := B1)) (t_unlinkat (H := B2)).
Proof using Hok. unfold t_unlinkat. repeat p9_step. p9_bound. Qed.

Lemma responds_renameat : responds (t_renameat (H := B1)) (t_renameat (H := B2)).
Proof using Hok. unfold t_renameat. repeat p9_step. p9_bound. Qed.

Lemma responds_symlink : responds (t_symlink (H := B1)) (t_symlink (H := B2)).
Proof using Hok. unfold t_symlink. repeat p9_step. p9_bound. Qed.

Lemma responds_readlink : responds (t_readlink (H := B1)) (t_readlink (H := B2)).
Proof using Hok. unfold t_readlink. repeat p9_step. destruct Ha1 as [?|Hl]; [by left|]. p9_bound. Qed.

Lemma responds_link : responds (t_link (H := B1)) (t_link (H := B2)).
Proof using Hok. unfold t_link. repeat p9_step. p9_bound. Qed.

Lemma responds_mknod : responds (t_mknod (H := B1)) (t_mknod (H := B2)).
Proof using Hok. unfold t_mknod. repeat p9_step. p9_bound. Qed.

Lemma responds_lock : responds t_lock t_lock.
Proof using Type. unfold t_lock. repeat p9_step. p9_bound. Qed.

Lemma responds_getlock : responds t_getlock t_getlock.
Proof using Type. unfold t_getlock. repeat p9_step. p9_bound. Qed.

(** *** Requests that name a size *)

(** A read at a known position of the request. *)
Lemma at_need_le {A} n s b p (k1 k2 : Z -> Srv A) R :
  0 <= n -> conn_ok (s, mkRd b p) ->
  (conn_ok (s, mkRd b (p + n)) -> uint (8 * n) (word (Z.to_nat n) b p) ->
   at_conn (s, mkRd b (p + n)) (k1 (word (Z.to_nat n) b p)) (k2 (word (Z.to_nat n) b p)) R) ->
  at_conn (s, mkRd b p) (bind (need (rd_le n)) k1) (bind (need (rd_le n)) k2) R.
Proof using Type.
  intros Hn [Hs Hr] Hk. destruct (yields_le n Hn _ Hr) as [Hw Hv]. unfold at_conn, matched, bind, need in *. cbn in *.
  destruct (rd_le n (mkRd b p)) as [[v|] r] eqn:E; cbn [fst snd] in *.
  - apply rd_le_inv in E as (-> & -> & _); [|apply Hr|done]. apply Hk; [by split|by apply Hv].
  - by split.
Qed.

Lemma at_always {A} c (m1 m2 : Srv A) Q : conn_ok c -> always m1 m2 Q -> at_conn c m1 m2 Q.
Proof using Type. intros Hc Hm. by apply Hm. Qed.

Lemma responds_write s b :
  conn_ok (s, mkRd b 7) -> size_ok (word 8 b 11 + word 4 b 19) ->
  at_conn (s, mkRd b 7) (t_write (H := B1)) (t_write (H := B2)) body_ok.
Proof using Hok.
  intros Hc Hsize. unfold t_write. do 3 (apply at_need_le; [lia|done|clear Hc; intros Hc ?]). cbn [Z.add Pos.add Pos.succ] in *.
  change (Z.to_nat 8) with 8%nat in *. change (Z.to_nat 4) with 4%nat in *.
  apply at_always; [done|]. eapply always_bind; [apply always_need, yields_take; unfold uint in *; lia|].
  intros data [Hl _]. p9_step. eapply always_bind.
  - apply always_fs, (bo_write Hok); [done|unfold uint in *; lia|]. by rewrite Hl.
  - intros n _. p9_step. p9_bound.
Qed.

Lemma always_if {A} (b : bool) (m1 m2 n1 n2 : Srv A) Q :
  (b = true -> always m1 m2 Q) -> (b = false -> always n1 n2 Q) ->
  always (if b then m1 else n1) (if b then m2 else n2) Q.
Proof using Type. destruct b; auto. Qed.

Lemma responds_setattr s b :
  conn_ok (s, mkRd b 7) -> size_ok (word 8 b 27) ->
  at_conn (s, mkRd b 7) (t_setattr (H := B1)) (t_setattr (H := B2)) body_ok.
Proof using Hok.
  intros Hc Hsize. unfold t_setattr. do 6 (apply at_need_le; [lia|done|clear Hc; intros Hc ?]). cbn [Z.add Pos.add Pos.succ] in *.
  change (Z.to_nat 8) with 8%nat in *. change (Z.to_nat 4) with 4%nat in *.
  apply at_always; [done|]. do 5 p9_step.
  eapply (always_bind _ _ _ _ (fun _ => True)).
  { apply always_if; intros _; [p9_op; done|by apply always_ret]. }
  intros _ _. eapply (always_bind _ _ _ _ (fun _ => True)).
  { apply always_if; intros _; [|by apply always_ret]. apply always_fs, (bo_truncate Hok); [done|unfold uint in *; lia|done]. }
  intros _ _. eapply (always_bind _ _ _ _ (fun _ => True)).
  { apply always_if; intros _; [p9_op; done|by apply always_ret]. }
  intros _ _. eapply (always_bind _ _ _ _ (fun _ => True)).
  { apply always_if; intros _; [p9_op; done|by apply always_ret]. }
  intros _ _. p9_step. p9_bound.
Qed.

(** The end of a write, and the size of a truncation, are sizes a file may have. *)
Definition sized (req : list Z) : Prop :=
  (word 1 req 4 = T_WRITE -> size_ok (word 8 req 11 + word 4 req 19))
  /\ (word 1 req 4 = T_SETATTR -> size_ok (word 8 req 27)).

(** Only message numbers have a reply. *)
Lemma dispatch_known id c body c' : dispatch (H := B1) id c = (Ok body, c') -> id <= T_CLUNK.
Proof using Type.
  unfold dispatch. intros E. destruct (Z.le_gt_cases id T_CLUNK) as [|Hid]; [done|]. exfalso. revert E.
  repeat (rewrite (proj2 (Z.eqb_neq id _)) by (intros ->; by vm_compute in Hid)). done.
Qed.

Lemma dispatch_pair req s :
  conn_ok (s, mkRd req 7) -> sized req ->
  at_conn (s, mkRd req 7) (dispatch (H := B1) (word 1 req 4)) (dispatch (H := B2) (word 1 req 4)) body_ok.
Proof using Hok.
  intros Hc [Hw Hs]. unfold dispatch.
  destruct (Z.eqb_spec (word 1 req 4) T_WRITE) as [E|_].
  { rewrite E. cbn. by apply responds_write, Hw. }
  destruct (Z.eqb_spec (word 1 req 4) T_SETATTR) as [E|_].
  { rewrite E. cbn. by apply responds_setattr, Hs. }
  apply at_always; [done|].
  repeat (apply always_if; [intros Hb|intros _]).
  all: first
    [ discriminate | apply responds_version | apply responds_attach | apply responds_walk | apply responds_clunk
    | apply responds_statfs | apply responds_getattr | apply responds_lopen | apply responds_lcreate
    | apply responds_read | apply responds_readdir | apply responds_mkdir | apply responds_unlinkat
    | apply responds_renameat | apply responds_symlink | apply responds_readlink | apply responds_link
    | apply responds_mknod | apply responds_lock | apply responds_getlock | apply always_throw
    | apply always_ret; p9_bound ].
Qed.

(** *** Whole requests *)

(** The header of a request of at least seven bytes is read in full. *)
Lemma read_header_long req : (7 <= length req)%nat -> Z.of_nat (length req) < 2 ^ 63 ->
  read_header (rd_new req) = (Some (word 1 req 4, word 2 req 5), mkRd req 7).
Proof using Type.
  intros Hl Hmax. assert (forall n p, 0 <= p -> 0 <= n -> p + n <= 7 ->
    rd_le n (mkRd req p) = (Some (word (Z.to_nat n) req p), mkRd req (p + n))) as Hr.
  { intros n p Hp Hn Hb. unfold rd_le, rd_take, slice, word, U64_MAX. cbn [rd_b rd_p].
    destruct (Z.ltb_spec 0xffffffffffffffff (p + n)); [lia|].
    rewrite (proj2 (andb_true_iff _ _)) by lia. cbn. by replace (Z.to_nat (p + n - p)) with (Z.to_nat n) by lia. }
  unfold read_header, rd_new, rd_u32, rd_u8, rd_u16. rewrite !Hr by lia. done.
Qed.

Lemma read_header_short req : (length req < 7)%nat -> fst (read_header (rd_new req)) = None.
Proof using Type.
  intros Hl. unfold read_header, rd_new, rd_u32, rd_u8, rd_u16.
  destruct (rd_le 4 (mkRd req 0)) as [[a|] r1] eqn:E1; [|by repeat case_match].
  apply rd_le_inv in E1 as (-> & _ & _); [|lia..]. destruct (rd_le 1 _) as [[b|] r2] eqn:E2; [|by repeat case_match].
  apply rd_le_inv in E2 as (-> & _ & _); [|lia..]. destruct (rd_le 2 _) as [[c|] r3] eqn:E3; [|done].
  apply rd_le_inv in E3 as (_ & _ & ?); lia.
Qed.

(** A reply to a request: its size, its tag, and its number or an error. *)
Definition answers (req rep : list Z) : Prop :=
  word 4 rep 0 = Z.of_nat (length rep) /\ Z.of_nat (length rep) < 2 ^ 32
  /\ if decide (length req < 7)%nat then rep = reply R_LERROR 0 (err_body EPROTO)
     else word 2 rep 5 = word 2 req 5
          /\ (word 1 rep 4 = word 1 req 4 + 1 \/ word 1 rep 4 = R_LERROR /\ length rep = 11%nat).

Lemma word_reply id tag body :
  Z.of_nat (length body) + 7 < 2 ^ 32 -> uint 8 id -> uint 16 tag ->
  word 4 (reply id tag body) 0 = Z.of_nat (length (reply id tag body))
  /\ word 1 (reply id tag body) 4 = id /\ word 2 (reply id tag body) 5 = tag
  /\ length (reply id tag body) = (7 + length body)%nat.
Proof using Type.
  intros Hb Hid Ht. assert (length (reply id tag body) = 7 + length body)%nat as Hl.
  { unfold reply, w_u32, w_u8, w_u16. rewrite !length_app, !length_to_le_bytes. lia. }
  rewrite Hl. unfold reply, w_u32, w_u8, w_u16, word. split_and!; [| | |done].
  - change (drop (Z.to_nat 0) ?l) with l. rewrite take_app_length' by (rewrite ?length_to_le_bytes; done).
    rewrite from_to_le_bytes, Z.mod_small; lia.
  - rewrite drop_app_length' by (rewrite ?length_to_le_bytes; done).
    rewrite take_app_length' by (rewrite ?length_to_le_bytes; done). rewrite from_to_le_bytes. by apply Z.mod_small.
  - rewrite app_assoc. rewrite drop_app_length' by (rewrite length_app, !length_to_le_bytes; done).
    rewrite take_app_length' by (rewrite ?length_to_le_bytes; done). rewrite from_to_le_bytes. by apply Z.mod_small.
Qed.

Lemma word_uint n b o : Forall (uint 8) b -> uint (8 * Z.of_nat n) (word n b o).
Proof using Type.
  intros Hb. unfold word. pose proof (from_le_bytes_range (take n (drop (Z.to_nat o) b))
    ltac:(by apply Forall_take, Forall_drop)) as H.
  eapply uint_mono; [|exact H]. rewrite length_take. lia.
Qed.

Lemma handle_pair req s :
  Forall (uint 8) req -> Z.of_nat (length req) < 2 ^ 63 -> server_ok s -> sized req ->
  handle (H := B1) req s = handle (H := B2) req s
  /\ match handle (H := B1) req s with
     | Some (rep, s') => server_ok s' /\ (may_panic \/ answers req rep)
     | None => may_panic
     end.
Proof using Hok.
  intros Hb Hmax Hs Hsz. unfold handle, answers. destruct (decide (length req < 7)%nat) as [Hl|Hl].
  - pose proof (read_header_short req Hl) as E. destruct (read_header (rd_new req)) as [o r]. cbn in E. subst o.
    split; [done|]. split; [done|]. right. split; [vm_compute; done|]. split; [vm_compute; done|done].
  - rewrite read_header_long by lia.
    assert (conn_ok (s, mkRd req 7)) as Hc by (split; [done|split; [cbn; lia|done]]).
    destruct (dispatch_pair req s Hc Hsz) as [E Hd]. rewrite <- E.
    destruct (dispatch (H := B1) (word 1 req 4) (s, mkRd req 7)) as [[body|e|] [s' r']] eqn:Ed; [| |by split].
    + destruct Hd as [[Hs' _] Hbody]. split; [reflexivity|]. split; [exact Hs'|]. destruct Hbody as [?|Hbody]; [by left|]. right.
      apply dispatch_known in Ed. pose proof (word_uint 1 req 4 Hb). pose proof (word_uint 2 req 5 Hb).
      destruct (word_reply (word 1 req 4 + 1) (word 2 req 5) body) as (E1 & E2 & E3 & E4); [done| |done|].
      { unfold uint, T_CLUNK in *. lia. }
      split; [done|]. split; [rewrite E4; lia|]. split; [done|]. by left.
    + destruct Hd as [Hs' _]. split; [reflexivity|]. split; [exact Hs'|]. right. pose proof (word_uint 2 req 5 Hb).
      destruct (word_reply R_LERROR (word 2 req 5) (err_body e)) as (E1 & E2 & E3 & E4);
        [unfold err_body, w_u32; rewrite length_to_le_bytes; lia|done|done|].
      split; [done|]. split; [rewrite E4; unfold err_body, w_u32; rewrite length_to_le_bytes; lia|].
      split; [done|]. right. split; [done|].
      rewrite E4. unfold err_body, w_u32. by rewrite length_to_le_bytes.
Qed.

Definition request_ok (req : list Z) : Prop := Forall (uint 8) req /\ Z.of_nat (length req) < 2 ^ 63 /\ sized req.

Lemma session_pair reqs : forall s, Forall request_ok reqs -> server_ok s ->
  session (H := B1) reqs s = session (H := B2) reqs s
  /\ match session (H := B1) reqs s with
     | Some (reps, s') => server_ok s' /\ (may_panic \/ Forall2 answers reqs reps)
     | None => may_panic
     end.
Proof using Hok.
  induction reqs as [|req reqs IH]; intros s Hr Hs; cbn [session].
  { split; [done|]. split; [done|]. by right. }
  apply list.Forall_cons in Hr as [(Hb & Hm & Hz) Hr]. destruct (handle_pair req s Hb Hm Hs Hz) as [E Hh].
  rewrite <- E. destruct (handle (H := B1) req s) as [[rep s1]|]; cbn [mbind option_bind]; [|done].
  destruct Hh as [Hs1 Ha]. destruct (IH s1 Hr Hs1) as [E' Hss]. rewrite <- E'.
  destruct (session (H := B1) reqs s1) as [[reps s2]|]; cbn [mbind option_bind]; [|done]. split; [done|].
  destruct Hss as [Hs2 Has]. split; [done|]. destruct Ha as [?|Ha]; [by left|]. destruct Has as [?|Has]; [by left|].
  right. by constructor.
Qed.

Lemma server_new_ok tag f : fs_wf f -> server_ok (server_new tag f).
Proof using Type. intros Hf. split; [done|apply map_Forall_empty|]. cbn. unfold MAX_MSIZE. lia. Qed.
End Pass.
