(* ===== verification/P9Mem.v ===== *)
(** * The in-memory file system keeps its promises to the server

    [mem_ok]: every name leads to a node of the table, and the mode of a
    directory, a regular file or a link has the file type of its body (a special
    node keeps the mode its maker named).  Every operation of the backend keeps it and
    does not panic, unless a file would exceed the largest vector.  Nodes
    [evolve]: none disappears or changes its kind, so an inode number a client
    has seen never names another file. *)

From stdpp Require Import gmap sorting.
From S2P Require Import Prelude Bus Slices P9 P9Fs P9Spec.

(** ** The invariant *)

Definition file_type (n : Node) : Z := n.(n_mode) .& S_IFMT.

Record node_ok (len : nat) (n : Node) : Prop := {
  no_dir m : n.(n_body) = Dir m -> map_Forall (fun _ i => (i < len)%nat) m /\ file_type n = S_IFDIR;
  no_file d : n.(n_body) = File d -> file_type n = S_IFREG;
  no_link t : n.(n_body) = Link t -> file_type n = S_IFLNK /\ Z.of_nat (length t) + 2 < BODY_MAX
}.

Record mem_ok (fs : MemFs) : Prop := {
  mo_root : (0 < length fs.(nodes))%nat;
  mo_nodes : Forall (node_ok (length fs.(nodes))) fs.(nodes)
}.

(** A node that is removed stays removed; any other keeps its kind. *)
Definition becomes (b b' : Body) : Prop :=
  match b, b' with
  | _, Freed | Dir _, Dir _ | File _, File _ => True
  | Link t, Link t' => t = t'
  | Special r, Special r' => r = r'
  | _, _ => False
  end.

Definition evolves (fs fs' : MemFs) : Prop :=
  forall i n, fs.(nodes) !! i = Some n -> exists n', fs'.(nodes) !! i = Some n' /\ becomes n.(n_body) n'.(n_body).

Lemma becomes_refl b : becomes b b.
Proof. by destruct b. Qed.

Lemma becomes_trans a b c : becomes a b -> becomes b c -> becomes a c.
Proof. destruct a, b, c; cbn; intros; try done; congruence. Qed.

Lemma evolves_refl fs : evolves fs fs.
Proof. intros i n Hi. exists n. split; [done|apply becomes_refl]. Qed.

Lemma evolves_trans a b c : evolves a b -> evolves b c -> evolves a c.
Proof.
  intros H1 H2 i n Hi. destruct (H1 i n Hi) as (n' & Hi' & Hb). destruct (H2 i n' Hi') as (n'' & Hi'' & Hb').
  exists n''. split; [done|by eapply becomes_trans].
Qed.

Lemma evolves_length fs fs' : evolves fs fs' -> (length fs.(nodes) <= length fs'.(nodes))%nat.
Proof.
  intros He. destruct (decide (length fs.(nodes) = 0)%nat) as [->|Hne]; [lia|].
  destruct (lookup_lt_is_Some_2 fs.(nodes) (length fs.(nodes) - 1) ltac:(lia)) as [n Hn].
  destruct (He _ _ Hn) as (n' & Hn' & _). apply lookup_lt_Some in Hn'. lia.
Qed.

#[export] Hint Resolve becomes_refl evolves_refl : p9.

Definition valid (i : nat) (fs : MemFs) : Prop := (i < length fs.(nodes))%nat.

Lemma valid_evolves i fs fs' : evolves fs fs' -> valid i fs -> valid i fs'.
Proof. intros He%evolves_length. unfold valid. lia. Qed.

Lemma node_ok_mono len len' n : (len <= len')%nat -> node_ok len n -> node_ok len' n.
Proof.
  intros Hl Hn. split; [|apply Hn..]. intros m Hm. destruct (no_dir _ _ Hn m Hm) as [Hi Ht]. split; [|done].
  eapply map_Forall_impl; [exact Hi|]. cbn. lia.
Qed.

(** ** Triples *)

(** From a state where [P] holds, [m] returns with [Q] or fails; it does not
    panic, and the nodes evolve. *)
Definition runs {A} (P : MemFs -> Prop) (m : Fs A) (Q : MemFs -> A -> Prop) : Prop :=
  forall fs, mem_ok fs -> P fs ->
  match m fs with
  | (Ok a, fs') => mem_ok fs' /\ evolves fs fs' /\ Q fs' a
  | (Err _, fs') => mem_ok fs' /\ evolves fs fs'
  | (Panic, _) => False
  end.

Lemma runs_bind {A B} P (m : Fs A) (k : A -> Fs B) Q R :
  runs P m Q -> (forall a, runs (fun fs => Q fs a) (k a) R) -> runs P (bind m k) R.
Proof.
  intros Hm Hk fs Hfs HP. specialize (Hm fs Hfs HP). unfold bind. destruct (m fs) as [[a|e|] fs']; [|done..].
  destruct Hm as (Hfs' & He & HQ). specialize (Hk a fs' Hfs' HQ). destruct (k a fs') as [[b|e|] fs'']; [| |done].
  - destruct Hk as (? & He' & ?). split_and!; [done|by eapply evolves_trans|done].
  - destruct Hk as [? He']. split; [done|by eapply evolves_trans].
Qed.

Lemma runs_ret {A} (P : MemFs -> Prop) (a : A) (Q : MemFs -> A -> Prop) :
  (forall fs, mem_ok fs -> P fs -> Q fs a) -> runs P (ret a) Q.
Proof. intros HQ fs Hfs HP. split_and!; [done|apply evolves_refl|by apply HQ]. Qed.

Lemma runs_throw {A} P e (Q : MemFs -> A -> Prop) : runs P (throw e) Q.
Proof. intros fs Hfs _. split; [done|apply evolves_refl]. Qed.

Lemma runs_ok_or {A} P (o : option A) e (Q : MemFs -> A -> Prop) :
  (forall a fs, o = Some a -> mem_ok fs -> P fs -> Q fs a) -> runs P (ok_or o e) Q.
Proof. intros Ho. destruct o; [|apply runs_throw]. apply runs_ret. intros. by apply Ho. Qed.

Lemma runs_unwrap {A} P (o : option A) (Q : MemFs -> A -> Prop) :
  (forall fs, mem_ok fs -> P fs -> exists a, o = Some a /\ Q fs a) -> runs P (unwrap o) Q.
Proof.
  intros Ho fs Hfs HP. destruct (Ho fs Hfs HP) as (a & -> & HQ). split_and!; [done|apply evolves_refl|done].
Qed.

Lemma runs_weaken {A} (P P' : MemFs -> Prop) (m : Fs A) Q :
  runs P m Q -> (forall fs, mem_ok fs -> P' fs -> P fs) -> runs P' m Q.
Proof. intros Hm HP fs Hfs HP'. by apply Hm, HP. Qed.

Lemma runs_weaken_post {A} P (m : Fs A) (Q R : MemFs -> A -> Prop) :
  runs P m Q -> (forall fs a, Q fs a -> R fs a) -> runs P m R.
Proof.
  intros Hm HQ fs Hfs HP. specialize (Hm fs Hfs HP). destruct (m fs) as [[a|e|] fs']; [|done..].
  destruct Hm as (? & ? & ?). split_and!; [done..|by apply HQ].
Qed.

(** A condition that nodes keep as they evolve holds after [m] too. *)
Lemma runs_frame {A} (P : MemFs -> Prop) (m : Fs A) Q (R : MemFs -> Prop) :
  (forall fs fs', evolves fs fs' -> R fs -> R fs') -> runs P m Q ->
  runs (fun fs => P fs /\ R fs) m (fun fs a => Q fs a /\ R fs).
Proof.
  intros HR Hm fs Hfs [HP HRfs]. specialize (Hm fs Hfs HP). destruct (m fs) as [[a|e|] fs']; [|done..].
  destruct Hm as (? & He & ?). split_and!; [done..|by eapply HR].
Qed.

(** ** The internals *)

Lemma runs_node_at P idx : (forall fs, P fs -> valid idx fs) ->
  runs P (node_at idx) (fun fs n => fs.(nodes) !! idx = Some n /\ P fs).
Proof.
  intros HP fs Hfs Hp. specialize (HP fs Hp). unfold node_at, bind, gets. cbn.
  destruct (lookup_lt_is_Some_2 _ _ HP) as [n Hn]. rewrite Hn. cbn. split_and!; [done|apply evolves_refl|done..].
Qed.

Lemma alter_ok fs idx f n :
  mem_ok fs -> fs.(nodes) !! idx = Some n -> node_ok (length fs.(nodes)) (f n) -> becomes n.(n_body) (f n).(n_body) ->
  mem_ok (set_nodes (alter f idx fs.(nodes)) fs) /\ evolves fs (set_nodes (alter f idx fs.(nodes)) fs).
Proof.
  intros Hfs Hn Hok Hb. split.
  - split; cbn [nodes set_nodes]; rewrite length_alter; [apply Hfs|]. apply Forall_lookup. intros i x Hx.
    destruct (decide (i = idx)) as [->|Hne].
    + rewrite list_lookup_alter_eq, Hn in Hx. by injection Hx as <-.
    + rewrite list_lookup_alter_ne in Hx by done. by apply (Forall_lookup_1 _ _ _ _ (mo_nodes _ Hfs) Hx).
  - intros i x Hx. cbn [nodes set_nodes]. destruct (decide (i = idx)) as [->|Hne].
    + rewrite list_lookup_alter_eq, Hn. assert (x = n) as -> by congruence. by eexists.
    + rewrite list_lookup_alter_ne by done. exists x. by auto with p9.
Qed.

Lemma runs_update P idx f (Q : MemFs -> unit -> Prop) :
  (forall fs, mem_ok fs -> P fs -> exists n, fs.(nodes) !! idx = Some n /\ node_ok (length fs.(nodes)) (f n)
     /\ becomes n.(n_body) (f n).(n_body)) ->
  (forall fs fs', evolves fs fs' -> P fs -> Q fs' tt) -> runs P (update_node idx f) Q.
Proof.
  intros HP HQ fs Hfs Hp. destruct (HP fs Hfs Hp) as (n & Hn & Hok & Hb).
  destruct (alter_ok fs idx f n Hfs Hn Hok Hb) as [H1 H2]. unfold update_node, modify.
  split_and!; [done..|]. by eapply HQ.
Qed.

Lemma node_at_ok fs i n : mem_ok fs -> fs.(nodes) !! i = Some n -> node_ok (length fs.(nodes)) n.
Proof. intros Hfs Hn. apply (Forall_lookup_1 _ _ _ _ (mo_nodes _ Hfs) Hn). Qed.

(** What stays true as nodes evolve. *)
Definition stable (R : MemFs -> Prop) : Prop := forall fs fs', evolves fs fs' -> R fs -> R fs'.

Lemma stable_valid i : stable (valid i).
Proof. intros fs fs'. apply valid_evolves. Qed.

Lemma stable_and R1 R2 : stable R1 -> stable R2 -> stable (fun fs => R1 fs /\ R2 fs).
Proof. intros H1 H2 fs fs' He [? ?]. split; [by eapply H1|by eapply H2]. Qed.

Lemma stable_True : stable (fun _ => True).
Proof. done. Qed.
#[export] Hint Resolve stable_valid stable_and stable_True : p9.

Definition new_ok (body : Body) (mode : Z) : Prop := forall len, node_ok len (new_node body mode).

Lemma runs_alloc P body mode : stable P -> new_ok body mode ->
  runs P (alloc body mode) (fun fs i => valid i fs /\ P fs).
Proof.
  intros HP Hn fs Hfs Hp. unfold alloc, bind, gets, modify. cbn.
  assert (evolves fs (set_nodes (fs.(nodes) ++ [new_node body mode]) fs)) as He.
  { intros i n Hi. exists n. cbn. rewrite lookup_app_l by (by eapply lookup_lt_Some). by auto with p9. }
  split_and!; [|done| |by eapply HP].
  - split; cbn [nodes set_nodes]; rewrite length_app; cbn [length]; [lia|]. apply Forall_app. split.
    + eapply list.Forall_impl; [apply Hfs|]. intros x. apply node_ok_mono. lia.
    + by constructor.
  - unfold valid. cbn. rewrite length_app. cbn. lia.
Qed.

Definition found (fs : MemFs) (o : option nat) : Prop := forall i, o = Some i -> valid i fs.

Lemma runs_child_idx P dir name : (forall fs, P fs -> valid dir fs) ->
  runs P (child_idx dir name) (fun fs o => found fs o /\ P fs).
Proof.
  intros HP. eapply runs_bind; [by apply runs_node_at|]. intros n. apply runs_ret. intros fs Hfs [Hn Hp].
  split; [|done]. intros i. destruct n.(n_body) as [m| | | |] eqn:Eb; try done. intros Hi.
  destruct (no_dir _ _ (node_at_ok _ _ _ Hfs Hn) m Eb) as [Hm _]. apply (Hm _ _ Hi).
Qed.

Lemma set_body_dir_ok len n m m' :
  node_ok len n -> n.(n_body) = Dir m -> map_Forall (fun _ i => (i < len)%nat) m' -> node_ok len (set_body (Dir m') n).
Proof.
  intros Hn Hb Hm. destruct (no_dir _ _ Hn m Hb) as [_ Ht]. split; cbn; [|done..]. intros m2 [= <-]. done.
Qed.

Lemma runs_link_child P dir name node : stable P -> (forall fs, P fs -> valid dir fs /\ valid node fs) ->
  runs P (link_child dir name node) (fun fs _ => P fs).
Proof.
  intros HP Hv. eapply runs_bind; [by apply runs_node_at; intros; apply Hv|]. intros n.
  destruct n.(n_body) as [m| | | |] eqn:Eb; try (apply runs_ret; intros ? ? [_ ?]; done).
  apply runs_update; [|intros fs fs' He [_ Hp]; by eapply HP]. intros fs Hfs [Hn Hp]. exists n.
  pose proof (node_at_ok _ _ _ Hfs Hn) as Hok. split_and!; [done| |by rewrite Eb].
  eapply set_body_dir_ok; [done..|]. apply map_Forall_insert_2; [apply Hv, Hp|]. by apply (no_dir _ _ Hok m Eb).
Qed.

Lemma runs_unlink_child P dir name : stable P -> (forall fs, P fs -> valid dir fs) ->
  runs P (unlink_child dir name) (fun fs _ => P fs).
Proof.
  intros HP Hv. eapply runs_bind; [by apply runs_node_at|]. intros n.
  destruct n.(n_body) as [m| | | |] eqn:Eb; try (apply runs_ret; intros ? ? [_ ?]; done).
  apply runs_update; [|intros fs fs' He [_ Hp]; by eapply HP]. intros fs Hfs [Hn Hp]. exists n.
  pose proof (node_at_ok _ _ _ Hfs Hn) as Hok. split_and!; [done| |by rewrite Eb].
  eapply set_body_dir_ok; [done..|]. apply map_Forall_delete. by apply (no_dir _ _ Hok m Eb).
Qed.

Lemma runs_resolve comps : forall P idx, (forall fs, P fs -> valid idx fs) ->
  runs P (resolve idx comps) (fun fs i => valid i fs /\ P fs).
Proof.
  induction comps as [|c comps IH]; intros P idx HP; cbn [resolve].
  { apply runs_ret. intros fs _ Hp. split; [by apply HP|done]. }
  eapply runs_bind; [by apply runs_node_at|]. intros n. destruct n.(n_body) as [m| | | |] eqn:Eb; try apply runs_throw.
  eapply (runs_bind _ _ _ (fun fs i => valid i fs /\ P fs)).
  - apply runs_ok_or. intros i fs Hi Hfs [Hn Hp]. split; [|done].
    destruct (no_dir _ _ (node_at_ok _ _ _ Hfs Hn) m Eb) as [Hm _]. apply (Hm _ _ Hi).
  - intros i fs Hfs Hp. specialize (IH (fun fs => valid i fs /\ P fs) i (fun _ H => proj1 H) fs Hfs Hp).
    destruct (resolve i comps fs) as [[a|e|] fs']; naive_solver.
Qed.

Lemma runs_lookup P p : runs P (lookup_path p) (fun fs i => valid i fs /\ P fs).
Proof.
  intros fs Hfs HP. pose proof (runs_resolve (components p) (fun fs => valid 0 fs /\ P fs) 0%nat (fun _ H => proj1 H) fs Hfs) as H.
  unfold lookup_path. specialize (H (conj (mo_root _ Hfs) HP)).
  destruct (resolve 0 (components p) fs) as [[a|e|] fs']; naive_solver.
Qed.

Lemma runs_split P p : runs P (split p) (fun fs r => valid (fst r) fs /\ P fs).
Proof.
  eapply (runs_bind _ _ _ (fun fs _ => P fs)); [by apply runs_ok_or|]. intros name.
  eapply (runs_bind _ _ _ (fun fs i => valid i fs /\ P fs)).
  - intros fs Hfs HP.
    pose proof (runs_resolve (removelast (components p)) (fun fs => valid 0 fs /\ P fs) 0%nat (fun _ H => proj1 H) fs Hfs) as H.
    specialize (H (conj (mo_root _ Hfs) HP)).
    destruct (resolve 0 (removelast (components p)) fs) as [[a|e|] fs']; naive_solver.
  - intros i. by apply runs_ret.
Qed.

Lemma runs_attr P idx : (forall fs, P fs -> valid idx fs) -> runs P (attr_of idx) (fun _ _ => True).
Proof. intros HP. eapply runs_bind; [by apply runs_node_at|]. intros n. by apply runs_ret. Qed.

(** ** The backend's operations *)

Definition always_true {A} (_ : MemFs) (_ : A) : Prop := True.
Abbreviation anywhere := (fun _ : MemFs => True).

Lemma runs_create_at p body mode : new_ok body mode -> runs anywhere (create_at p body mode) always_true.
Proof.
  intros Hn. eapply runs_bind; [apply runs_split|]. intros [dir name]. cbn [fst].
  eapply runs_bind; [by apply runs_child_idx; intros ? []|]. intros o. cbn beta.
  destruct (bool_decide _); [apply runs_throw|].
  eapply runs_bind; [apply runs_node_at; by intros ? (_ & ? & _)|]. intros n.
  destruct n.(n_body); try apply runs_throw.
  eapply runs_bind; [apply (runs_weaken (valid dir)); [by apply runs_alloc; auto with p9|by intros ? ? (_ & _ & ? & _)]|].
  intros node. cbn beta. eapply runs_bind; [apply runs_link_child; [auto with p9|tauto]|].
  intros []. eapply runs_attr. by intros ? [].
Qed.

Lemma runs_lstat p : runs anywhere (mem_lstat p) always_true.
Proof. eapply runs_bind; [apply runs_lookup|]. intros i. eapply runs_attr. by intros ? []. Qed.

(** A lookup that is followed by a case distinction on the node's body. *)
Lemma runs_on_node {A} p (k : nat -> Node -> Fs A) Q :
  (forall i n, runs (fun fs => fs.(nodes) !! i = Some n /\ valid i fs) (k i n) Q) ->
  runs anywhere (idx <- lookup_path p ;; n <- node_at idx ;; k idx n) Q.
Proof.
  intros Hk. eapply runs_bind; [apply runs_lookup|]. intros i.
  eapply runs_bind; [by apply runs_node_at; intros ? []|]. intros n.
  eapply runs_weaken; [apply Hk|]. by intros fs _ (? & ? & _).
Qed.

Lemma runs_list_entries P es : (forall fs name i, P fs -> (name, i) ∈ es -> valid i fs) ->
  runs P (list_entries es) (fun fs _ => P fs).
Proof.
  induction es as [|[name i] es IH]; intros HP; cbn [list_entries]; [by apply runs_ret|].
  eapply runs_bind; [apply runs_node_at; intros fs Hfs; eapply HP; [done|by left]|]. intros n. cbn beta.
  eapply (runs_bind _ _ _ (fun fs _ => P fs)).
  - eapply runs_weaken; [apply IH; intros; eapply HP; [done|by right]|]. by intros fs _ [].
  - intros rest. by apply runs_ret.
Qed.

Lemma elem_of_listing m name i : (name, i) ∈ listing m <-> m !! name = Some i.
Proof. unfold listing. by rewrite (merge_sort_Permutation _ (map_to_list m)), elem_of_map_to_list. Qed.

Lemma runs_readdir p : runs anywhere (mem_readdir p) always_true.
Proof.
  apply runs_on_node. intros i n. destruct n.(n_body) as [m| | | |] eqn:Eb; try apply runs_throw.
  intros fs Hfs [Hn Hi]. pose proof (no_dir _ _ (node_at_ok _ _ _ Hfs Hn) m Eb) as [Hm _].
  pose proof (runs_list_entries (fun fs' => evolves fs fs') (listing m)) as H.
  assert (runs (fun fs' => evolves fs fs') (list_entries (listing m)) (fun fs' _ => evolves fs fs')) as Hr.
  { apply H. intros fs' name j He Hj%elem_of_listing. eapply valid_evolves; [exact He|]. by apply (Hm name). }
  specialize (Hr fs Hfs (evolves_refl fs)). destruct (list_entries (listing m) fs) as [[a|e|] fs']; naive_solver.
Qed.

Lemma set_body_file_ok len n d d' : node_ok len n -> n.(n_body) = File d -> node_ok len (set_body (File d') n).
Proof. intros Hn Hb. pose proof (no_file _ _ Hn d Hb) as Ht. by split. Qed.

Lemma runs_set_file i n d d' :
  n.(n_body) = File d -> runs (fun fs => fs.(nodes) !! i = Some n /\ valid i fs) (update_node i (set_body (File d')))
    (fun fs _ => valid i fs).
Proof.
  intros Hb. apply runs_update; [|intros fs fs' He [_ ?]; by eapply valid_evolves]. intros fs Hfs [Hn _]. exists n.
  split_and!; [done| |by rewrite Hb]. eapply set_body_file_ok; [by eapply node_at_ok|done].
Qed.

Lemma runs_open p fl : runs anywhere (mem_open p fl) always_true.
Proof.
  apply runs_on_node. intros i n. eapply (runs_bind _ _ _ (fun fs _ => valid i fs)).
  - destruct n.(n_body) as [|d| | |] eqn:Eb; try (by apply runs_ret; intros ? ? []).
    destruct (has fl O_TRUNC); [by eapply runs_set_file|by apply runs_ret; intros ? ? []].
  - intros []. by apply runs_attr.
Qed.

Lemma slice_some l s e : 0 <= s <= e -> e <= Z.of_nat (length l) -> exists x, slice l s e = Some x /\ Z.of_nat (length x) = e - s.
Proof.
  intros Hs He. unfold slice. rewrite (proj2 (andb_true_iff _ _)) by lia. eexists. split; [done|].
  rewrite length_take, length_drop. lia.
Qed.

Lemma runs_read p o buf : 0 <= o -> runs anywhere (mem_read p o buf)
  (fun _ r => 0 <= fst r <= Z.of_nat (length buf) /\ length (snd r) = length buf).
Proof.
  intros Ho. apply runs_on_node. intros i n. destruct n.(n_body) as [|d| | |] eqn:Eb; try apply runs_throw. cbv zeta.
  set (start := Z.min o (Z.of_nat (length d))). set (k := Z.min _ (_ - start)).
  assert (0 <= start <= Z.of_nat (length d)) as Hst by (unfold start; lia).
  assert (0 <= k /\ start + k <= Z.of_nat (length d) /\ k <= Z.of_nat (length buf)) as (Hk1 & Hk2 & Hk3) by (unfold k; lia).
  destruct (slice_some d start (start + k)) as (src & E & Hl); [lia..|]. rewrite E.
  eapply (runs_bind _ _ _ (fun _ x => x = src)); [apply runs_unwrap; by eexists|]. intros ? fs Hfs ->.
  unfold copy_from_slice. rewrite (proj2 (andb_true_iff _ _)); [|split; [apply andb_true_iff; split; lia|lia]].
  split_and!; [done|apply evolves_refl|cbn; lia..|]. cbn [snd]. rewrite !length_app, length_take, length_drop. lia.
Qed.

Lemma write_file_some d o data :
  0 <= o -> o + Z.of_nat (length data) < 2 ^ 63 -> exists d', write_file d o data = Some d'.
Proof.
  intros Ho Hl. unfold write_file, add64, u64. rewrite wrap_small by (unfold uint; lia).
  set (e := o + Z.of_nat (length data)) in *.
  assert (exists d1, (if Z.of_nat (length d) <? e then resize d e else Some d) = Some d1
    /\ e <= Z.of_nat (length d1)) as (d1 & -> & He).
  { destruct (Z.ltb_spec (Z.of_nat (length d)) e); [|by exists d]. unfold resize.
    destruct (Z.leb_spec (2 ^ 63) e); [lia|]. eexists. split; [done|]. rewrite length_app, length_take, length_replicate. lia. }
  cbn. unfold copy_from_slice. rewrite (proj2 (andb_true_iff _ _)); [by eexists|].
  split; [apply andb_true_iff; split|]; unfold e in *; lia.
Qed.

Lemma runs_write p o data : 0 <= o -> o + Z.of_nat (length data) < 2 ^ 63 -> runs anywhere (mem_write p o data) always_true.
Proof.
  intros Ho Hl. apply runs_on_node. intros i n. destruct n.(n_body) as [|d| | |] eqn:Eb; try apply runs_throw.
  destruct (write_file_some d o data Ho Hl) as [d' E]. rewrite E.
  eapply (runs_bind _ _ _ (fun _ _ => _)); [by apply runs_unwrap; eauto|]. intros a.
  eapply (runs_bind _ _ _ always_true); [|intros []; by apply runs_ret].
  intros fs Hfs Hp. pose proof (runs_set_file i n d a Eb fs Hfs Hp) as H.
  destruct (update_node i (set_body (File a)) fs) as [[[]|e|] fs']; naive_solver.
Qed.

Lemma type_of_mode k m : (k .| (m .& 0xfff)) .& S_IFMT = k .& S_IFMT.
Proof. rewrite Z.land_lor_distr_l, <- Z.land_assoc. change (0xfff .& S_IFMT) with 0. by rewrite Z.land_0_r, Z.lor_0_r. Qed.

Lemma new_file_ok d m : new_ok (File d) (S_IFREG .| (m .& 0xfff)).
Proof. intros len. split; cbn; [done| |done]. intros ? _. unfold file_type. cbn. by rewrite type_of_mode. Qed.

Lemma new_dir_ok m : new_ok (Dir ∅) (S_IFDIR .| (m .& 0xfff)).
Proof.
  intros len. split; cbn; [|done..]. intros ? [= <-]. split; [apply map_Forall_empty|]. unfold file_type. cbn.
  by rewrite type_of_mode.
Qed.

Lemma new_link_ok t : Z.of_nat (length t) + 2 < BODY_MAX -> new_ok (Link t) (S_IFLNK .| 0x1ff).
Proof. intros Ht len. split; cbn; [done..|]. intros ? [= <-]. by split. Qed.

Lemma new_special_ok r m : new_ok (Special r) m.
Proof. by intros len. Qed.

Lemma runs_readlink p : runs anywhere (mem_readlink p) (fun _ t => Z.of_nat (length t) + 2 < BODY_MAX).
Proof.
  apply runs_on_node. intros i n. destruct n.(n_body) as [| |t| |] eqn:Eb; try apply runs_throw.
  apply runs_ret. intros fs Hfs [Hn _]. by apply (no_link _ _ (node_at_ok _ _ _ Hfs Hn) t Eb).
Qed.

Lemma runs_hardlink p q : runs anywhere (mem_hardlink p q) always_true.
Proof.
  eapply runs_bind; [apply runs_lookup|]. intros src. cbn beta.
  eapply runs_bind; [apply runs_split|]. intros [dir name]. cbn [fst].
  eapply runs_bind; [by apply runs_child_idx; intros ? []|]. intros o. cbn beta.
  destruct (bool_decide _); [apply runs_throw|].
  intros fs Hfs (_ & Hd & Hs & _).
  pose proof (runs_link_child (fun fs => valid dir fs /\ valid src fs) dir name src ltac:(auto with p9) (fun _ H => H)
    fs Hfs (conj Hd Hs)) as H.
  destruct (link_child dir name src fs) as [[[]|e|] fs']; naive_solver.
Qed.

Lemma freed_ok len n : node_ok len n -> node_ok len (set_body Freed n).
Proof. by split. Qed.

Lemma runs_free P i : (forall fs, P fs -> valid i fs) -> runs P (update_node i (set_body Freed)) always_true.
Proof.
  intros HP. apply runs_update; [|done]. intros fs Hfs Hp. destruct (lookup_lt_is_Some_2 _ _ (HP fs Hp)) as [n Hn].
  exists n. split_and!; [done|by apply freed_ok, (node_at_ok _ _ _ Hfs Hn)|by destruct n.(n_body)].
Qed.

Lemma runs_remove p d : runs anywhere (mem_remove p d) always_true.
Proof.
  eapply runs_bind; [apply runs_split|]. intros [dir name]. cbn [fst].
  eapply runs_bind; [by apply runs_child_idx; intros ? []|]. intros o. cbn beta.
  eapply (runs_bind _ _ _ (fun fs i => valid i fs /\ valid dir fs)).
  { apply runs_ok_or. intros i fs -> _ (Hi & Hd & _). split; [by apply Hi|done]. }
  intros i. cbn beta. eapply runs_bind; [by apply runs_node_at; intros ? []|]. intros n. cbn beta.
  eapply (runs_bind _ _ _ (fun fs _ => valid i fs /\ valid dir fs)).
  { assert (runs (fun fs => nodes fs !! i = Some n /\ valid i fs /\ valid dir fs) (ret tt)
      (fun fs _ => valid i fs /\ valid dir fs)) as Hr by (apply runs_ret; tauto).
    destruct n.(n_body) as [m| | | |]; try exact Hr. destruct (decide (m = ∅)); [exact Hr|apply runs_throw]. }
  intros []. eapply runs_bind; [apply runs_unlink_child; [auto with p9|tauto]|]. intros []. apply runs_free. tauto.
Qed.

Lemma runs_rename p q : runs anywhere (mem_rename p q) always_true.
Proof.
  eapply runs_bind; [apply runs_split|]. intros [dir name]. cbn [fst].
  eapply runs_bind; [by apply runs_child_idx; intros ? []|]. intros o. cbn beta.
  eapply (runs_bind _ _ _ (fun fs i => valid i fs /\ valid dir fs)).
  { apply runs_ok_or. intros i fs -> _ (Hi & Hd & _). split; [by apply Hi|done]. }
  intros i. cbn beta. eapply runs_bind; [apply runs_split|]. intros [to_dir to_name]. cbn [fst].
  eapply runs_bind; [apply runs_unlink_child; [auto 6 with p9|tauto]|]. intros [].
  intros fs Hfs Hp. pose proof (runs_link_child _ to_dir to_name i (stable_and _ _ (stable_valid to_dir) (stable_valid i))
    (fun _ H => H) fs Hfs) as H. destruct Hp as (Ht & Hi & _). specialize (H (conj Ht Hi)).
  destruct (link_child to_dir to_name i fs) as [[[]|e|] fs']; naive_solver.
Qed.

(** Updates of the metadata. *)
Lemma runs_meta P i f :
  (forall fs, P fs -> valid i fs) ->
  (forall n, (f n).(n_body) = n.(n_body) /\ file_type (f n) = file_type n) ->
  stable P -> runs P (update_node i f) (fun fs _ => P fs).
Proof.
  intros HP Hf HS. apply runs_update; [|by intros fs fs' He; apply HS]. intros fs Hfs Hp.
  destruct (lookup_lt_is_Some_2 _ _ (HP fs Hp)) as [n Hn]. exists n. destruct (Hf n) as [Eb Et].
  pose proof (node_at_ok _ _ _ Hfs Hn) as Hok.
  split_and!; [done| |rewrite Eb; apply becomes_refl]. split; rewrite Eb, ?Et; apply Hok.
Qed.

Lemma runs_set_mode p m : runs anywhere (mem_set_mode p m) always_true.
Proof.
  apply runs_on_node. intros i n fs Hfs [Hn Hi]. unfold update_node, modify.
  destruct (alter_ok fs i (set_n_mode ((n.(n_mode) .& S_IFMT) .| (m .& 0xfff))) n Hfs Hn) as [H1 H2].
  - pose proof (node_at_ok _ _ _ Hfs Hn) as Hok.
    assert (file_type (set_n_mode ((n.(n_mode) .& S_IFMT) .| (m .& 0xfff)) n) = file_type n) as Et.
    { unfold file_type. cbn. by rewrite type_of_mode, <- Z.land_assoc. }
    split; rewrite Et; apply Hok.
  - apply becomes_refl.
  - by split_and!.
Qed.

Lemma runs_given {A} i (f : A -> Node -> Node) o :
  (forall a n, (f a n).(n_body) = n.(n_body) /\ file_type (f a n) = file_type n) ->
  runs (valid i) (update_given i f o) (fun fs _ => valid i fs).
Proof.
  intros Hf. destruct o as [a|]; [|by apply runs_ret]. unfold update_given.
  eapply runs_bind; [by apply runs_node_at|]. intros n.
  eapply runs_weaken; [apply (runs_meta (valid i)); auto with p9|]. by intros fs _ [].
Qed.

Lemma runs_meta_path {A B} p (f : A -> Node -> Node) (g : B -> Node -> Node) a b :
  (forall a n, (f a n).(n_body) = n.(n_body) /\ file_type (f a n) = file_type n) ->
  (forall b n, (g b n).(n_body) = n.(n_body) /\ file_type (g b n) = file_type n) ->
  runs anywhere (idx <- lookup_path p ;; update_given idx f a ;;; update_given idx g b) always_true.
Proof.
  intros Hf Hg. eapply runs_bind; [apply runs_lookup|]. intros i. cbn beta.
  eapply runs_bind; [eapply runs_weaken; [by apply runs_given|by intros ? ? []]|]. intros [] fs Hfs Hi.
  pose proof (runs_given i g b Hg fs Hfs Hi) as H. destruct (update_given i g b fs) as [[[]|e|] fs']; naive_solver.
Qed.

Lemma runs_truncate p n : n < 2 ^ 63 -> runs anywhere (mem_truncate p n) always_true.
Proof.
  intros Hn. apply runs_on_node. intros i nd. destruct nd.(n_body) as [|d| | |] eqn:Eb; try apply runs_throw.
  unfold resize. destruct (Z.leb_spec (2 ^ 63) n); [lia|].
  eapply (runs_bind _ _ _ (fun _ _ => _)); [by apply runs_unwrap; eauto|]. intros a fs Hfs Hp.
  pose proof (runs_set_file i nd d a Eb fs Hfs Hp) as H'.
  destruct (update_node i (set_body (File a)) fs) as [[[]|e|] fs']; naive_solver.
Qed.

(** ** The promises *)

Section Promises.
Context (kept : MemFs -> Prop).
Context (Hmem : forall fs, kept fs -> mem_ok fs).
Context (Hkept : forall fs fs', kept fs -> mem_ok fs' -> evolves fs fs' -> kept fs').

Lemma runs_op {A} (m : Fs A) Q : runs anywhere m (fun _ a => Q a) -> op_ok kept False m m Q.
Proof using Hmem Hkept.
  intros Hm fs Hfs. split; [done|]. specialize (Hm fs (Hmem _ Hfs) I). destruct (m fs) as [[a|e|] fs'].
  - destruct Hm as (? & ? & ?). split; [by eapply Hkept|done].
  - destruct Hm. by eapply Hkept.
  - done.
Qed.

Lemma runs_op_weaken {A} (m : Fs A) Q (R : A -> Prop) :
  runs anywhere m Q -> (forall fs a, Q fs a -> R a) -> op_ok kept False m m R.
Proof using Hmem Hkept.
  intros Hm HQ. apply runs_op. intros fs Hfs HP. specialize (Hm fs Hfs HP). destruct (m fs) as [[a|e|] fs']; naive_solver.
Qed.

(** The in-memory backend keeps what evolution keeps, and panics only on a size
    of 2^63 bytes or more. *)
Lemma MemFs_promises :
  backends_ok MemFs_backend MemFs_backend kept False (fun n => n < 2 ^ 63).
Proof using Hmem Hkept.
  split; intros; cbn.
  - done.
  - done.
  - eapply runs_op_weaken; [apply runs_lstat|done].
  - eapply runs_op_weaken; [apply runs_readdir|done].
  - eapply runs_op_weaken; [apply runs_open|done].
  - eapply runs_op_weaken; [by apply runs_read|]. intros fs [n b] H1. by right.
  - eapply runs_op_weaken; [by apply runs_write|done].
  - eapply runs_op_weaken; [apply runs_create_at, new_file_ok|done].
  - eapply runs_op_weaken; [apply runs_create_at, new_dir_ok|done].
  - eapply runs_op_weaken; [apply runs_create_at, new_link_ok|done]. unfold STR_MAX, BODY_MAX in *. lia.
  - eapply runs_op_weaken; [apply runs_create_at, new_special_ok|done].
  - eapply runs_op_weaken; [apply runs_readlink|]. intros fs t Ht. by right.
  - eapply runs_op_weaken; [apply runs_hardlink|done].
  - eapply runs_op_weaken; [apply runs_remove|done].
  - eapply runs_op_weaken; [apply runs_rename|done].
  - eapply runs_op_weaken; [apply runs_set_mode|done].
  - eapply runs_op_weaken; [by apply runs_meta_path|done].
  - eapply runs_op_weaken; [by apply runs_truncate|done].
  - eapply runs_op_weaken; [by apply runs_meta_path|done].
Qed.
End Promises.

Lemma memfs_new_ok : mem_ok memfs_new.
Proof.
  split; [cbn; lia|]. constructor; [|constructor]. split; cbn; [|done..]. intros m [= <-].
  split; [apply map_Forall_empty|done].
Qed.

(** ** Populating a tree *)

Lemma runs_ensure_dirs dirs : forall P idx, stable P -> (forall fs, P fs -> valid idx fs) ->
  runs P (ensure_dirs idx dirs) (fun fs i => valid i fs /\ P fs).
Proof.
  induction dirs as [|c dirs IH]; intros P idx HS HP; cbn [ensure_dirs].
  { apply runs_ret. intros fs _ Hp. split; [by apply HP|done]. }
  assert (forall i, runs (fun fs => valid i fs /\ P fs) (ensure_dirs i dirs) (fun fs i => valid i fs /\ P fs)) as Hin.
  { intros i. eapply runs_weaken_post; [apply (IH (fun fs => valid i fs /\ P fs) i)|].
    - by apply stable_and; auto with p9.
    - by intros ? [].
    - by intros ? ? (? & ? & ?). }
  eapply runs_bind; [by apply runs_child_idx|]. intros [i|]; cbn beta.
  - eapply runs_weaken; [apply Hin|]. intros fs _ [Hi Hp]. split; [by apply Hi|done].
  - eapply runs_bind; [eapply runs_weaken; [apply runs_alloc; [exact HS|apply (new_dir_ok 0x1ed)]|by intros ? ? []]|].
    intros new. cbn beta.
    eapply runs_bind; [apply (runs_link_child (fun fs => valid new fs /\ P fs))|intros []; apply Hin].
    + by apply stable_and; auto with p9.
    + intros fs [? ?]. split; [by apply HP|done].
Qed.

Lemma runs_add_dir p : runs anywhere (add_dir p) (fun fs i => valid i fs).
Proof.
  intros fs Hfs _. pose proof (runs_ensure_dirs (components p) (valid 0) 0%nat (stable_valid 0) (fun _ H => H) fs Hfs
    (mo_root _ Hfs)) as H.
  unfold add_dir. destruct (ensure_dirs 0 (components p) fs) as [[a|e|] fs']; naive_solver.
Qed.

Lemma runs_add_node p body mode : components p <> [] -> new_ok body mode ->
  runs anywhere (at_ <- ensure_parent p ;; let '(dir, name) := at_ in
    node <- alloc body mode ;; link_child dir name node) always_true.
Proof.
  intros Hp Hn. eapply (runs_bind _ _ _ (fun fs r => valid (fst r) fs)).
  - unfold ensure_parent. eapply (runs_bind _ _ _ (fun _ _ => True)).
    + apply runs_unwrap. intros fs _ _. destruct (components p) as [|c l] using rev_ind; [done|]. rewrite list.last_snoc. by eexists.
    + intros name. eapply (runs_bind _ _ _ (fun fs i => valid i fs)).
      * intros fs Hfs _. pose proof (runs_ensure_dirs (removelast (components p)) (valid 0) 0%nat (stable_valid 0) (fun _ H => H) fs Hfs (mo_root _ Hfs)) as H.
        destruct (ensure_dirs 0 (removelast (components p)) fs) as [[a|e|] fs']; naive_solver.
      * intros i. by apply runs_ret.
  - intros [dir name]. cbn [fst]. eapply runs_bind; [apply runs_alloc; [apply stable_valid|done]|].
    intros node. eapply runs_weaken_post; [apply (runs_link_child (fun fs => valid node fs /\ valid dir fs))|done]; [auto with p9|tauto].
Qed.

Lemma runs_add_file p d m : components p <> [] -> runs anywhere (add_file p d m) always_true.
Proof. intros Hp. by apply runs_add_node, new_file_ok. Qed.

Lemma runs_add_symlink p t : components p <> [] -> Z.of_nat (length t) + 2 < BODY_MAX ->
  runs anywhere (add_symlink p t) always_true.
Proof. intros Hp Ht. by apply runs_add_node, new_link_ok. Qed.

(** ** Loading an archive ends *)

Lemma octal_nonneg f : 0 <= octal f.
Proof.
  unfold octal. assert (forall l acc, 0 <= acc -> 0 <= fold_left (fun acc b => acc * 8 + (b - 48)) (take_digits l) acc) as H.
  { induction l as [|b l IH]; intros acc Ha; [done|]. cbn. destruct ((48 <=? b) && (b <=? 57)) eqn:E; [|done].
    apply andb_true_iff in E as [? ?]. cbn. apply IH. lia. }
  apply H. lia.
Qed.

(** A turn consumes at least a header, so more fuel than bytes changes nothing. *)
Lemma load_tar_loop_enough tar fuel : forall fuel' pos loaded long_name fs,
  Z.of_nat (length tar) - pos < Z.of_nat fuel -> Z.of_nat (length tar) - pos < Z.of_nat fuel' -> (0 < fuel)%nat -> (0 < fuel')%nat ->
  load_tar_loop fuel tar pos loaded long_name fs = load_tar_loop fuel' tar pos loaded long_name fs.
Proof.
  induction fuel as [|fuel IH]; intros [|fuel'] pos loaded ln fs H1 H2 H3 H4; try lia. cbn [load_tar_loop]. cbv zeta.
  destruct (Z.ltb_spec (Z.of_nat (length tar)) (pos + 512)); [done|].
  unfold bind at 1 4. destruct (unwrap _ fs) as [[hdr|e|] fs1]; [|done..].
  destruct (forallb _ hdr); [done|]. unfold bind at 1 3. destruct (unwrap _ fs1) as [[data|e|] fs2]; [|done..].
  unfold bind. destruct (load_entry hdr data ln fs2) as [[[n l]|e|] fs3]; [|done..]. cbn [fst snd].
  pose proof (octal_nonneg (field hdr 124 136)). pose proof (Z.div_pos (octal (field hdr 124 136) + 512 - 1) 512).
  unfold div_ceil. apply IH; lia.
Qed.

Lemma load_tar_ends tar fuel fs : (length tar < fuel)%nat -> load_tar tar fs = load_tar_loop fuel tar 0 0 None fs.
Proof. intros Hf. unfold load_tar. apply load_tar_loop_enough; lia. Qed.

(** A file entry without a name panics. *)
Lemma nameless_file_panics :
  let header := [46; 47] ++ replicate 154 0 ++ [48] ++ replicate 355 0 in
  fst (load_tar header memfs_new) = Panic.
Proof. vm_compute. reflexivity. Qed.
