(* ===== verification/P9Serve.v ===== *)
(** * What the 9P server promises

    The interface [FsBackendOk] states what the server relies on; with it, the
    server answers every request.  The in-memory file system implements it. *)

From stdpp Require Import gmap sorting.
From S2P Require Import Prelude Bus Slices P9 P9Fs P9Spec P9Mem.

(** ** Only normalised paths reach a backend *)

(** A backend that is asked about a path that is not normalised panics (or, for
    [close], does nothing). *)
Definition guard {F A} (paths : list (list Z)) (m : M Z F A) : M Z F A :=
  if decide (Forall normal paths) then m else panic.

Definition guarded {F} (B : FsBackend F) : FsBackend F := {|
  fs_statfs := fs_statfs;
  fs_lstat p := guard [p] (fs_lstat p);
  fs_readdir p := guard [p] (fs_readdir p);
  fs_open p fl := guard [p] (fs_open p fl);
  fs_close p fs := if decide (normal p) then fs_close p fs else fs;
  fs_read p o b := guard [p] (fs_read p o b);
  fs_write p o d := guard [p] (fs_write p o d);
  fs_create p fl m := guard [p] (fs_create p fl m);
  fs_mkdir p m := guard [p] (fs_mkdir p m);
  fs_symlink p t := guard [p] (fs_symlink p t);
  fs_mknod p m a b := guard [p] (fs_mknod p m a b);
  fs_readlink p := guard [p] (fs_readlink p);
  fs_hardlink p q := guard [p; q] (fs_hardlink p q);
  fs_remove p d := guard [p] (fs_remove p d);
  fs_rename p q := guard [p; q] (fs_rename p q);
  fs_set_mode p m := guard [p] (fs_set_mode p m);
  fs_set_owner p u g := guard [p] (fs_set_owner p u g);
  fs_truncate p n := guard [p] (fs_truncate p n);
  fs_set_times p a m := guard [p] (fs_set_times p a m)
|}.

Lemma guard_pass {F A} paths (m : M Z F A) : Forall normal paths -> guard paths m = m.
Proof. intros Hp. unfold guard. by rewrite decide_True. Qed.

Lemma op_ok_any {F A} (m1 m2 : M Z F A) Q : m1 = m2 -> (forall a, Q a) -> op_ok (fun _ => True) True m1 m2 Q.
Proof. intros -> HQ f _. split; [done|]. by destruct (m2 f) as [[a|e|] f']. Qed.

Lemma guarded_ok {F} (B : FsBackend F) : backends_ok B (guarded B) (fun _ => True) True (fun _ => True).
Proof.
  split; intros; cbn; try (apply op_ok_any; [symmetry; apply guard_pass; repeat (apply list.Forall_cons; split; [done|]); by constructor|by auto]).
  - done.
  - by rewrite decide_True.
Qed.

(** C26: whatever a client sends, the server asks its backend only about
    normalised paths: the root, or a slash before each of some components, none
    of which is empty, a dot, two dots or holds a slash or a NUL (what a backend
    makes of a link on such a path is its own affair).  A backend that refuses
    all other paths is therefore served alike. *)
Theorem paths_confined {F} (B : FsBackend F) tag (fs : F) reqs :
  Forall (fun req => Forall (uint 8) req /\ Z.of_nat (length req) < 2 ^ 63) reqs ->
  session (H := guarded B) reqs (server_new tag fs) = session (H := B) reqs (server_new tag fs).
Proof.
  intros Hr. destruct (session_pair B (guarded B) _ _ _ (guarded_ok B) reqs (server_new tag fs)) as [E _]; [| |symmetry; exact E].
  - eapply list.Forall_impl; [exact Hr|]. intros req [? ?]. by split_and!.
  - by apply server_new_ok.
Qed.

(** ** A backend that keeps its promises *)

Definition FILE_MAX : Z := 2 ^ 63.

Class FsBackendOk (F : Type) `{B : FsBackend F} : Type := {
  fs_inv : F -> Prop;
  fs_promises : backends_ok B B fs_inv False (fun n => n < FILE_MAX)
}.

#[export] Instance MemFs_backend_ok : FsBackendOk MemFs.
Proof. exists mem_ok. by apply MemFs_promises. Defined.

(** C40: over a backend that keeps its promises, the server answers every
    request, whatever its bytes, without a panic: a reply carries its own size
    and the request's tag, and either the request's number plus one or an error
    of four bytes.  Only a write or a truncation that names a size of 2^63 bytes
    or more is excepted. *)
Theorem server_answers {F} `{FsBackendOk F} tag (fs : F) reqs :
  fs_inv fs -> Forall (request_ok (fun n => n < FILE_MAX)) reqs ->
  exists reps s, session reqs (server_new tag fs) = Some (reps, s)
    /\ fs_inv s.(srv_fs) /\ Forall2 answers reqs reps.
Proof.
  intros Hfs Hr.
  destruct (session_pair B B _ _ _ fs_promises reqs (server_new tag fs) Hr) as [_ Hs]; [by apply server_new_ok|].
  destruct (session reqs (server_new tag fs)) as [[reps s]|]; [|done]. destruct Hs as [Hs [[]|Ha]].
  exists reps, s. split_and!; [done|apply Hs|done].
Qed.

(** C32: the nodes of the in-memory file system are typed: through every session
    that names no size of 2^63 bytes or more, each directory entry leads to a
    node of the table and the mode of each directory, regular file and link has
    the file type of its body (a special node keeps the mode its client named,
    and nothing is said of it); no node disappears or changes its kind but by
    removal, which is final, so an inode number never comes to name another
    file. *)
Theorem memfs_typed tag (fs : MemFs) reqs :
  mem_ok fs -> Forall (request_ok (fun n => n < FILE_MAX)) reqs ->
  exists reps s, session reqs (server_new tag fs) = Some (reps, s) /\ mem_ok s.(srv_fs) /\ evolves fs s.(srv_fs).
Proof.
  intros Hfs Hr.
  assert (backends_ok MemFs_backend MemFs_backend (fun fs' => mem_ok fs' /\ evolves fs fs') False (fun n => n < FILE_MAX)) as Hp.
  { apply MemFs_promises; [by intros ? []|]. intros a b [_ He] Hb Hab. split; [done|by eapply evolves_trans]. }
  destruct (session_pair _ _ _ _ _ Hp reqs (server_new tag fs) Hr) as [_ Hs].
  { apply server_new_ok. split; [done|apply evolves_refl]. }
  destruct (session reqs (server_new tag fs)) as [[reps s]|]; [|done]. destruct Hs as [Hs _].
  exists reps, s. split; [done|apply (so_fs _ _ Hs)].
Qed.

(** ** A small file system for the witnesses *)

(** /a holds "hi", /d is a directory. *)
Definition demo_fs : MemFs :=
  snd ((add_file [47; 97] [104; 105] 0x1a4 ;;; add_dir [47; 100]) memfs_new).

Definition t_message (id : Z) (body : list Z) : list Z := reply id 1 body.
Definition demo_version : list Z := t_message T_VERSION (w_u32 8192 ++ w_str PROTOCOL).
Definition demo_attach : list Z := t_message T_ATTACH (w_u32 0 ++ w_u32 U32_MAX ++ w_str [] ++ w_str [] ++ w_u32 0).
Definition demo_walk (fid newfid : Z) (names : list (list Z)) : list Z :=
  t_message T_WALK (w_u32 fid ++ w_u32 newfid ++ w_u16 (Z.of_nat (length names)) ++ concat (map w_str names)).
Definition demo_lopen (fid : Z) : list Z := t_message T_LOPEN (w_u32 fid ++ w_u32 2).

(** Up from the root, into /d, back and to /a; then "../a", which is refused. *)
Definition demo_reqs : list (list Z) :=
  [demo_version; demo_attach; demo_walk 0 1 [DOTDOT; [100]; DOTDOT; [97]]; demo_walk 0 2 [[46; 46; 47; 97]]; demo_lopen 1].

Definition byte_check (req : list Z) : bool := forallb (fun b => (0 <=? b) && (b <? 2 ^ 8)) req.

Lemma byte_check_ok req : byte_check req = true -> Forall (uint 8) req.
Proof. unfold byte_check. rewrite forallb_forall, list.Forall_forall. intros H x Hx%list_elem_of_In. specialize (H x Hx). unfold uint. lia. Qed.

Definition request_check (req : list Z) : bool :=
  byte_check req && negb (word 1 req 4 =? T_WRITE) && negb (word 1 req 4 =? T_SETATTR) && (Z.of_nat (length req) <? 2 ^ 63).

Lemma request_check_ok reqs : forallb request_check reqs = true -> Forall (request_ok (fun n => n < FILE_MAX)) reqs.
Proof.
  rewrite forallb_forall, list.Forall_forall. intros H req Hreq%list_elem_of_In. specialize (H req Hreq).
  unfold request_check in H. rewrite !andb_true_iff, !negb_true_iff in H. destruct H as (((Hb & Hw) & Hs) & Hl).
  split_and!; [by apply byte_check_ok|lia|]. split; lia.
Qed.

Lemma paths_confined_witness :
  option_map (fun r => length (concat (fst r))) (session (H := guarded MemFs_backend) demo_reqs (server_new [] demo_fs))
  = Some 135%nat.
Proof.
  rewrite (paths_confined MemFs_backend [] demo_fs demo_reqs).
  - vm_compute. reflexivity.
  - eapply list.Forall_impl; [apply request_check_ok; vm_compute; reflexivity|]. by intros req (? & ? & _).
Defined.

Lemma demo_fs_ok : mem_ok demo_fs.
Proof.
  pose proof memfs_new_ok as H.
  assert (runs anywhere (add_file [47; 97] [104; 105] 0x1a4 ;;; add_dir [47; 100]) (fun fs i => valid i fs)) as Hr.
  { eapply runs_bind; [by apply runs_add_file|]. intros []. apply runs_add_dir. }
  specialize (Hr memfs_new H I). unfold demo_fs.
  destruct ((add_file [47; 97] [104; 105] 0x1a4 ;;; add_dir [47; 100]) memfs_new) as [[a|e|] fs]; naive_solver.
Qed.

Lemma server_answers_witness :
  exists reps s, session demo_reqs (server_new [] demo_fs) = Some (reps, s) /\ Forall2 answers demo_reqs reps.
Proof.
  destruct (server_answers [] demo_fs demo_reqs) as (reps & s & E & _ & Ha).
  - apply demo_fs_ok.
  - apply request_check_ok. vm_compute. reflexivity.
  - exists reps, s. split; [exact E|exact Ha].
Defined.

(** Remove /a and create /b: the inode of /b is a new one. *)
Definition demo_replace : list (list Z) :=
  [demo_version; demo_attach; t_message T_UNLINKAT (w_u32 0 ++ w_str [97] ++ w_u32 0);
   t_message T_LCREATE (w_u32 0 ++ w_str [98] ++ w_u32 0 ++ w_u32 0x1a4 ++ w_u32 0)].

Lemma memfs_typed_witness :
  exists reps s, session demo_replace (server_new [] demo_fs) = Some (reps, s)
    /\ mem_ok s.(srv_fs) /\ evolves demo_fs s.(srv_fs).
Proof.
  apply (memfs_typed [] demo_fs demo_replace).
  - apply demo_fs_ok.
  - apply request_check_ok. vm_compute. reflexivity.
Defined.
