(* ===== verification/P9Wire.v ===== *)
(** * The 9P messages of a client

    A message built with the writer is read back field by field.  With that,
    what a client gets from the server is computed message by message: data
    written is data read, and a directory is read to its end. *)

From stdpp Require Import gmap sorting.
From S2P Require Import Prelude Bus Slices P9 P9Fs P9Spec P9Mem P9Serve.

(** ** Reading what a writer wrote *)

(** The bytes of [b] from position [p] on. *)
Definition at_pos (b : list Z) (p : Z) (rest : list Z) : Prop :=
  0 <= p <= Z.of_nat (length b) /\ drop (Z.to_nat p) b = rest /\ Z.of_nat (length b) < 2 ^ 63.

Lemma at_pos_length b p x rest : at_pos b p (x ++ rest) -> p + Z.of_nat (length x) <= Z.of_nat (length b).
Proof.
  intros (Hp & Hd & _). assert (length (drop (Z.to_nat p) b) = length (x ++ rest)) as Hl by by rewrite Hd.
  rewrite length_drop, length_app in Hl. lia.
Qed.

Lemma rd_take_at b p x rest :
  at_pos b p (x ++ rest) ->
  rd_take (Z.of_nat (length x)) (mkRd b p) = (Some x, mkRd b (p + Z.of_nat (length x)))
  /\ at_pos b (p + Z.of_nat (length x)) rest.
Proof.
  intros Hat. pose proof (at_pos_length _ _ _ _ Hat) as Hl. destruct Hat as (Hp & Hd & Hm).
  unfold rd_take, slice, U64_MAX. cbn [rd_b rd_p].
  destruct (Z.ltb_spec 0xffffffffffffffff (p + Z.of_nat (length x))); [lia|].
  rewrite (proj2 (andb_true_iff _ _)) by lia.
  replace (Z.to_nat (p + Z.of_nat (length x) - p)) with (length x) by lia. rewrite Hd, take_app_length. split; [done|].
  split_and!; [lia..| |done]. rewrite Z2Nat.inj_add, Nat2Z.id, <- drop_drop by lia. by rewrite Hd, drop_app_length.
Qed.

Section Fields.
Context {F : Type}.

(** A field at the front is read and the rest is left. *)
Lemma need_le {A} n v rest b p (s : Server F) (k : Z -> Srv A) :
  uint (8 * Z.of_nat n) v -> at_pos b p (to_le_bytes n v ++ rest) ->
  bind (need (rd_le (Z.of_nat n))) k (s, mkRd b p) = k v (s, mkRd b (p + Z.of_nat n))
  /\ at_pos b (p + Z.of_nat n) rest.
Proof using Type.
  intros Hv Hp. destruct (rd_take_at b p (to_le_bytes n v) rest Hp) as [E Hp'].
  rewrite length_to_le_bytes in *. split; [|done]. unfold bind, need, rd_le. cbn [snd fst]. rewrite E. cbn.
  by rewrite from_to_le_bytes, Z.mod_small.
Qed.

Lemma need_u32 {A} v rest b p (s : Server F) (k : Z -> Srv A) :
  uint 32 v -> at_pos b p (w_u32 v ++ rest) ->
  bind (need rd_u32) k (s, mkRd b p) = k v (s, mkRd b (p + 4)) /\ at_pos b (p + 4) rest.
Proof using Type. intros Hv. by apply (need_le 4). Qed.

Lemma need_u64 {A} v rest b p (s : Server F) (k : Z -> Srv A) :
  uint 64 v -> at_pos b p (w_u64 v ++ rest) ->
  bind (need rd_u64) k (s, mkRd b p) = k v (s, mkRd b (p + 8)) /\ at_pos b (p + 8) rest.
Proof using Type. intros Hv. by apply (need_le 8). Qed.

Lemma need_bytes {A} x b p (s : Server F) (k : list Z -> Srv A) :
  at_pos b p x ->
  bind (need (rd_take (Z.of_nat (length x)))) k (s, mkRd b p) = k x (s, mkRd b (p + Z.of_nat (length x))).
Proof using Type.
  intros Hp. rewrite <- (app_nil_r x) in Hp. destruct (rd_take_at b p x [] Hp) as [E _].
  unfold bind, need. cbn [snd fst]. by rewrite E.
Qed.

(** A step of a handler whose result is known. *)
Lemma step_run {A B} (m : Srv (F := F) A) (k : A -> Srv (F := F) B) c a c' : m c = (Ok a, c') -> bind m k c = k a c'.
Proof using Type. intros E. unfold bind. by rewrite E. Qed.
End Fields.

(** ** A request and its reply *)

Lemma reply_at id tag body : Z.of_nat (length body) + 7 < 2 ^ 32 -> at_pos (reply id tag body) 7 body.
Proof.
  intros Hl. unfold reply. assert (length (w_u32 (Z.of_nat (length body) + 7) ++ w_u8 id ++ w_u16 tag) = 7%nat) as H7.
  { unfold w_u32, w_u8, w_u16. by rewrite !length_app, !length_to_le_bytes. }
  assert (forall rest, w_u32 (Z.of_nat (length body) + 7) ++ w_u8 id ++ w_u16 tag ++ rest
    = (w_u32 (Z.of_nat (length body) + 7) ++ w_u8 id ++ w_u16 tag) ++ rest) as -> by (intros; by rewrite <- !app_assoc).
  split_and!; [lia|rewrite length_app, H7; lia| |rewrite length_app, H7; lia]. by rewrite drop_app_length'.
Qed.

(** Reading the next field: [Hv] is its range, [Hp] where the reader is. *)
Ltac p9_field lem Hv Hp :=
  match goal with
  | |- context [bind (need _) ?k (?s, mkRd ?b ?p)] =>
      let E := fresh "E" in
      destruct (lem _ _ _ _ b p s k Hv Hp) as [E Hp']; rewrite E; clear E; clear Hp; rename Hp' into Hp; cbv beta
  end.

(** The server dispatches on a message's number and answers with its tag. *)
Lemma handle_message {F} `{FsBackend F} id tag body (s : Server F) :
  uint 8 id -> uint 16 tag -> Z.of_nat (length body) + 7 < 2 ^ 32 ->
  handle (reply id tag body) s
  = match dispatch id (s, mkRd (reply id tag body) 7) with
    | (Ok rep, (s, _)) => Some (reply (id + 1) tag rep, s)
    | (Err e, (s, _)) => Some (reply R_LERROR tag (err_body e), s)
    | (Panic, _) => None
    end.
Proof.
  intros Hid Ht Hl. destruct (word_reply id tag body Hl Hid Ht) as (_ & E1 & E2 & E3).
  unfold handle. rewrite read_header_long, E1, E2 by lia. done.
Qed.

(** ** Data written is data read *)

(** What a write leaves in a file: the data at its offset, zeroes up to it when
    the file was shorter, and the rest as it was. *)
Record overwritten (d : list Z) (off : Z) (data d' : list Z) : Prop := {
  ov_length : Z.of_nat (length d') = Z.max (Z.of_nat (length d)) (off + Z.of_nat (length data));
  ov_data : holds d' off data;
  ov_rest i : (i < length d')%nat -> ~ (off <= Z.of_nat i < off + Z.of_nat (length data)) ->
    d' !! i = Some (default 0 (d !! i))
}.

Lemma resize_grow d n : Z.of_nat (length d) <= n -> n < 2 ^ 63 ->
  resize d n = Some (d ++ replicate (Z.to_nat n - length d) 0).
Proof. intros Hl Hn. unfold resize. destruct (Z.leb_spec (2 ^ 63) n); [lia|]. rewrite take_ge by lia. done. Qed.

Lemma write_file_overwrites d off data :
  0 <= off -> off + Z.of_nat (length data) < 2 ^ 63 -> Z.of_nat (length d) < 2 ^ 63 ->
  exists d', write_file d off data = Some d' /\ overwritten d off data d'.
Proof.
  intros Ho Hl Hd. unfold write_file, add64, u64. rewrite wrap_small by (unfold uint; lia).
  set (e := off + Z.of_nat (length data)) in *.
  assert (exists d1, (if Z.of_nat (length d) <? e then resize d e else Some d) = Some d1
    /\ Z.of_nat (length d1) = Z.max (Z.of_nat (length d)) e
    /\ forall i, (i < length d1)%nat -> d1 !! i = Some (default 0 (d !! i))) as (d1 & -> & Hl1 & Hr1).
  { destruct (Z.ltb_spec (Z.of_nat (length d)) e) as [Hlt|Hge].
    - rewrite resize_grow by lia. eexists. split; [done|]. rewrite length_app, length_replicate. split; [lia|].
      intros i Hi. destruct (decide (i < length d)%nat) as [Hid|Hid].
      + rewrite lookup_app_l by done. by destruct (lookup_lt_is_Some_2 _ _ Hid) as [x ->].
      + rewrite lookup_app_r, lookup_replicate_2 by lia. by rewrite lookup_ge_None_2 by lia.
    - exists d. split_and!; [done|lia|]. intros i Hi. by destruct (lookup_lt_is_Some_2 _ _ Hi) as [x ->]. }
  cbn. destruct (copy_from_slice_ok d1 off data) as (d2 & E & Hh & [Hlen Hout]); [lia..|].
  exists d2. unfold e. rewrite E. split; [done|]. split; [rewrite <- Hlen; unfold e in *; lia|done|].
  intros i Hi Hni. rewrite <- Hout by done. apply Hr1. by rewrite Hlen.
Qed.

(** Lookups do not depend on the contents of files. *)
Definition put_file (i : nat) (d : list Z) (fs : MemFs) : MemFs := set_nodes (alter (set_body (File d)) i fs.(nodes)) fs.

Lemma node_at_put fs i n d d' j :
  fs.(nodes) !! i = Some n -> n.(n_body) = File d ->
  match fs.(nodes) !! j, (put_file i d' fs).(nodes) !! j with
  | Some a, Some b => a = b \/ a.(n_body) = File d /\ b.(n_body) = File d'
  | None, None => True
  | _, _ => False
  end.
Proof.
  intros Hn Hb. unfold put_file. cbn. destruct (decide (i = j)) as [<-|Hne].
  - rewrite list_lookup_alter_eq, Hn. cbn. by right.
  - rewrite list_lookup_alter_ne by done. destruct (_ !! j); [by left|done].
Qed.

Lemma resolve_put fs i n d d' :
  fs.(nodes) !! i = Some n -> n.(n_body) = File d ->
  forall comps j, resolve j comps (put_file i d' fs) = (fst (resolve j comps fs), put_file i d' fs)
    /\ snd (resolve j comps fs) = fs.
Proof.
  intros Hn Hb. induction comps as [|c comps IH]; intros j; [done|]. cbn [resolve].
  pose proof (node_at_put fs i n d d' j Hn Hb) as Hj. unfold bind, node_at, bind, gets. cbn [id].
  destruct (fs.(nodes) !! j) as [a|], ((put_file i d' fs).(nodes) !! j) as [b|]; try done. cbn.
  assert (match a.(n_body) with Dir m => b.(n_body) = Dir m | _ => forall m, b.(n_body) <> Dir m end) as Hab.
  { destruct Hj as [<-|[Ea Eb]]; [by destruct a.(n_body)|]. by rewrite Ea, Eb. }
  destruct a.(n_body) as [m| | | |].
  - rewrite Hab. unfold bind, ok_or. destruct (m !! c); cbn; [apply IH|done].
  - by destruct b.(n_body) as [m| | | |]; [destruct (Hab m)|..].
  - by destruct b.(n_body) as [m| | | |]; [destruct (Hab m)|..].
  - by destruct b.(n_body) as [m| | | |]; [destruct (Hab m)|..].
  - by destruct b.(n_body) as [m| | | |]; [destruct (Hab m)|..].
Qed.

(** The path leads to the file with contents [d] at node [i]. *)
Definition names_file (fs : MemFs) (path : list Z) (i : nat) (d : list Z) : Prop :=
  lookup_path path fs = (Ok i, fs) /\ exists n, fs.(nodes) !! i = Some n /\ n.(n_body) = File d.

Lemma names_file_put fs path i d d' : names_file fs path i d -> names_file (put_file i d' fs) path i d'.
Proof.
  intros (El & n & Hn & Hb). split.
  - unfold lookup_path in *. destruct (resolve_put fs i n d d' Hn Hb (components path) 0) as [E _]. by rewrite E, El.
  - exists (set_body (File d') n). split; [|done]. unfold put_file. cbn. by rewrite list_lookup_alter_eq, Hn.
Qed.

Lemma mem_write_file fs path i d off data :
  names_file fs path i d -> 0 <= off -> off + Z.of_nat (length data) < 2 ^ 63 -> Z.of_nat (length d) < 2 ^ 63 ->
  exists d', mem_write path off data fs = (Ok (Z.of_nat (length data)), put_file i d' fs) /\ overwritten d off data d'.
Proof.
  intros (El & n & Hn & Hb) Ho Hl Hd. destruct (write_file_overwrites d off data Ho Hl Hd) as (d' & E & Ho').
  exists d'. split; [|done]. unfold mem_write, bind at 1. rewrite El. unfold node_at, bind, gets. cbn.
  rewrite Hn. cbn. rewrite Hb, E. done.
Qed.

Lemma mem_read_file fs path i d off data :
  names_file fs path i d -> holds d off data ->
  mem_read path off (replicate (length data) 0) fs = (Ok (Z.of_nat (length data), data), fs).
Proof.
  intros (El & n & Hn & Hb) Hh. pose proof Hh as (Ho & Hl & _). unfold mem_read, bind at 1. rewrite El.
  unfold node_at, bind, gets. cbn. rewrite Hn. cbn. rewrite Hb. cbv zeta. rewrite length_replicate.
  rewrite !Z.min_l by lia. rewrite (slice_holds _ _ _ Hh). cbn.
  unfold copy_from_slice. rewrite length_replicate, (proj2 (andb_true_iff _ _)).
  - cbn. unfold ret. rewrite drop_ge by (rewrite length_replicate; lia). by rewrite app_nil_r.
  - split; [apply andb_true_iff; split; lia|lia].
Qed.

Definition twrite (tag fid off : Z) (data : list Z) : list Z :=
  reply T_WRITE tag (w_u32 fid ++ w_u64 off ++ w_u32 (Z.of_nat (length data)) ++ data).
Definition tread (tag fid off count : Z) : list Z := reply T_READ tag (w_u32 fid ++ w_u64 off ++ w_u32 count ++ []).

(** The state of a fid that was opened. *)
Lemma opened_fid_run {F} (s : Server F) fid f r :
  s.(srv_fids) !! fid = Some f -> f.(f_opened) = true -> opened_fid fid (s, r) = (Ok f, (s, r)).
Proof. intros Hf Ho. unfold opened_fid, fid_state, server, bind, gets, ok_or, ret. cbn. rewrite Hf. cbn. by rewrite Ho. Qed.

Lemma length_fields fid off count rest :
  length (w_u32 fid ++ w_u64 off ++ w_u32 count ++ rest) = (16 + length rest)%nat.
Proof. unfold w_u32, w_u64. rewrite !length_app, !length_to_le_bytes. lia. Qed.

Section RoundTrip.
Context (s : Server MemFs) (tag fid off : Z) (data : list Z) (f : Fid) (i : nat) (d : list Z).
Context (Htag : uint 16 tag) (Hfid : uint 32 fid).
Context (Hf : s.(srv_fids) !! fid = Some f) (Hopen : f.(f_opened) = true).
Context (Hfile : names_file s.(srv_fs) f.(f_path) i d).
Context (Hoff : 0 <= off) (Hfit : Z.of_nat (length data) <= s.(srv_msize) - 11 <= MAX_MSIZE).
Context (Hend : off + Z.of_nat (length data) < 2 ^ 63) (Hd : Z.of_nat (length d) < 2 ^ 63).

Lemma write_message :
  exists d', handle (twrite tag fid off data) s
    = Some (reply (T_WRITE + 1) tag (w_u32 (Z.of_nat (length data))), set_fs (put_file i d' s.(srv_fs)) s)
  /\ overwritten d off data d'.
Proof using Type*.
  destruct (mem_write_file _ _ _ _ off data Hfile Hoff Hend Hd) as (d' & E & Hov). exists d'. split; [|done].
  assert (Z.of_nat (length (w_u32 fid ++ w_u64 off ++ w_u32 (Z.of_nat (length data)) ++ data)) + 7 < 2 ^ 32) as Hl.
  { rewrite length_fields. unfold MAX_MSIZE in *. lia. }
  unfold twrite. rewrite handle_message by done. change (dispatch T_WRITE) with (t_write (F := MemFs)).
  pose proof (reply_at T_WRITE tag _ Hl) as Hp. set (msg := reply _ _ _) in *. unfold t_write.
  assert (uint 64 off) as Ho64 by (unfold uint; lia).
  assert (uint 32 (Z.of_nat (length data))) as Hn32 by (unfold uint, MAX_MSIZE in *; lia).
  p9_field @need_u32 Hfid Hp. p9_field @need_u64 Ho64 Hp. p9_field @need_u32 Hn32 Hp.
  rewrite need_bytes by done. rewrite (step_run _ _ _ _ _ (opened_fid_run s fid f _ Hf Hopen)).
  unfold bind, with_fs. cbn. by rewrite E.
Qed.

(** Reading the length of what the file holds at the offset. *)
Lemma read_message d' :
  holds d' off data ->
  let s' := set_fs (put_file i d' s.(srv_fs)) s in
  handle (tread tag fid off (Z.of_nat (length data))) s'
  = Some (reply (T_READ + 1) tag (w_u32 (Z.of_nat (length data)) ++ data), s').
Proof using Type*.
  intros Hh s'. unfold tread.
  assert (Z.of_nat (length (w_u32 fid ++ w_u64 off ++ w_u32 (Z.of_nat (length data)) ++ [])) + 7 < 2 ^ 32) as Hl.
  { rewrite length_fields. cbn. lia. }
  rewrite handle_message by done. change (dispatch T_READ) with (t_read (F := MemFs)).
  pose proof (reply_at T_READ tag _ Hl) as Hp. set (msg := reply _ _ _) in *. unfold t_read.
  assert (uint 64 off) as Ho64 by (unfold uint; lia).
  assert (uint 32 (Z.of_nat (length data))) as Hn32 by (unfold uint, MAX_MSIZE in *; lia).
  p9_field @need_u32 Hfid Hp. p9_field @need_u64 Ho64 Hp. p9_field @need_u32 Hn32 Hp.
  rewrite (step_run _ _ _ _ _ (opened_fid_run s' fid f _ Hf Hopen)).
  unfold server, bind at 1, gets. cbn [fst]. unfold saturating_sub.
  replace (Z.min (Z.of_nat (length data)) (Z.max 0 (srv_msize s' - 11))) with (Z.of_nat (length data)) by (cbn; lia).
  rewrite Nat2Z.id. pose proof (mem_read_file _ _ _ _ off data (names_file_put _ _ _ _ d' Hfile) Hh) as E.
  unfold bind, with_fs. cbn [fst snd srv_fs set_fs s' fs_read MemFs_backend]. rewrite E.
  unfold unwrap, slice. rewrite (proj2 (andb_true_iff _ _)) by lia. rewrite Z.sub_0_r, Nat2Z.id. cbn.
  by rewrite drop_0, firstn_all.
Qed.
End RoundTrip.

(** C36: data a client writes to an open file is what it then reads: the write is
    acknowledged with the length of the data, a read at the same offset returns
    the data, the rest of the file keeps its bytes with zeroes in a gap, and
    nothing else in the server changes. *)
Theorem write_read_round_trip (s : Server MemFs) tag fid off data f i d :
  uint 16 tag -> uint 32 fid ->
  s.(srv_fids) !! fid = Some f -> f.(f_opened) = true -> names_file s.(srv_fs) f.(f_path) i d ->
  0 <= off -> Z.of_nat (length data) <= s.(srv_msize) - 11 <= MAX_MSIZE ->
  off + Z.of_nat (length data) < 2 ^ 63 -> Z.of_nat (length d) < 2 ^ 63 ->
  exists d', let s' := set_fs (put_file i d' s.(srv_fs)) s in
    overwritten d off data d' /\ names_file s'.(srv_fs) f.(f_path) i d'
    /\ handle (twrite tag fid off data) s = Some (reply (T_WRITE + 1) tag (w_u32 (Z.of_nat (length data))), s')
    /\ handle (tread tag fid off (Z.of_nat (length data))) s'
       = Some (reply (T_READ + 1) tag (w_u32 (Z.of_nat (length data)) ++ data), s').
Proof.
  intros Htag Hfid Hf Hopen Hfile Hoff Hfit Hend Hd.
  destruct (write_message s tag fid off data f i d Htag Hfid Hf Hopen Hfile Hoff Hfit Hend Hd) as (d' & E & Hov).
  exists d'. split_and!; [done|by eapply names_file_put|done|].
  apply (read_message s tag fid off data f i d Htag Hfid Hf Hopen Hfile Hoff Hfit Hend Hd d'), Hov.
Qed.

(** ** A server with an open file *)

Definition demo_server : Server MemFs := mkServer demo_fs [] 8192 {[1 := mkFid [47; 97] true None]}.

Lemma demo_names_file : names_file demo_server.(srv_fs) [47; 97] 1 [104; 105].
Proof. split; [vm_compute; reflexivity|]. eexists. split; vm_compute; reflexivity. Qed.

(** Three bytes behind the end of the file, and back. *)
Lemma write_read_round_trip_witness :
  exists s', handle (twrite 9 1 5 [1; 2; 3]) demo_server = Some (reply (T_WRITE + 1) 9 (w_u32 3), s')
    /\ handle (tread 9 1 5 3) s' = Some (reply (T_READ + 1) 9 (w_u32 3 ++ [1; 2; 3]), s').
Proof.
  destruct (write_read_round_trip demo_server 9 1 5 [1; 2; 3] (mkFid [47; 97] true None) 1 [104; 105])
    as (d' & _ & _ & Ew & Er).
  - unfold uint. lia.
  - unfold uint. lia.
  - vm_compute. reflexivity.
  - reflexivity.
  - exact demo_names_file.
  - lia.
  - vm_compute. split; congruence.
  - vm_compute. reflexivity.
  - vm_compute. reflexivity.
  - eexists. split; [exact Ew|exact Er].
Defined.

(** ** Where the server or the file system falls short *)

(** A write at an offset no vector can reach panics instead of failing. *)
Lemma huge_write_panics : handle (twrite 9 1 (2 ^ 63) [0]) demo_server = None.
Proof. vm_compute. reflexivity. Qed.

(** Removing one name of a file with two removes the file. *)
Lemma removing_a_link_frees_the_file :
  let fs := snd ((mem_hardlink [47; 97] [47; 98] ;;; mem_remove [47; 97] false) demo_fs) in
  fst (mem_read [47; 98] 0 [0; 0] fs) = Err EINVAL /\ is_Some (match fst (mem_lstat [47; 98] fs) with Ok a => Some a | _ => None end).
Proof. vm_compute. split; [reflexivity|by eexists]. Qed.

(** Renaming to a name below a file succeeds and loses the source. *)
Lemma rename_below_a_file_loses :
  let r := mem_rename [47; 100] [47; 97; 47; 120] demo_fs in
  fst r = Ok tt /\ fst (mem_lstat [47; 100] (snd r)) = Err ENOENT /\ fst (mem_lstat [47; 97; 47; 120] (snd r)) = Err ENOTDIR.
Proof. vm_compute. done. Qed.

(** A node made by mknod keeps the file type its client names: a special node
    that calls itself a directory, and that no one can list. *)
Lemma mknod_keeps_any_type :
  let r := mem_mknod [47; 120] (S_IFDIR .| 0x1ed) 1 3 demo_fs in
  (match fst r with Ok a => a.(a_mode) .& S_IFMT | _ => 0 end) = S_IFDIR /\ fst (mem_readdir [47; 120] (snd r)) = Err ENOTDIR.
Proof. vm_compute. done. Qed.

(** A string that is not UTF-8 can grow past the length its field can hold: the
    field says 2, and 65538 bytes follow. *)
Lemma lossy_string_overflows_field :
  let body := w_u32 0 ++ w_u8 0 ++ w_u64 0 ++ w_u64 0 ++ w_u32 0 ++ w_str (replicate 21846 0xff) in
  match handle (reply T_GETLOCK 9 body) demo_server with
  | Some (rep, _) => word 2 rep 28 = 2 /\ Z.of_nat (length rep) = 30 + 65538
  | None => False
  end.
Proof. vm_compute. done. Qed.

(** ** Reading a directory to its end

    A client lists a directory by asking for the entries after the last one it
    was given, until a reply has none.  It receives the listing the server took
    at the start, each entry once and in order, whatever the size of a reply, as
    long as one entry fits. *)

(** *** The client *)

(** An entry as a client decodes it: [qid[13] offset[8] type[1] name[s]]. *)
Record Dirent : Type := mkDirent { de_qid : Qid; de_offset : Z; de_type : Z; de_name : list Z }.

Definition parse_entry (l : list Z) : Dirent :=
  mkDirent (mkQid (word 1 l 0) (word 4 l 1) (word 8 l 5)) (word 8 l 13) (word 1 l 21)
    (take (Z.to_nat (word 2 l 22)) (drop 24 l)).

Fixpoint parse_entries (fuel : nat) (l : list Z) : list Dirent :=
  match fuel, l with
  | S fuel, _ :: _ =>
      parse_entry l :: parse_entries fuel (drop (24 + Z.to_nat (word 2 l 22)) l)
  | _, _ => []
  end.

Definition treaddir (tag fid off count : Z) : list Z := reply T_READDIR tag (w_u32 fid ++ w_u64 off ++ w_u32 count ++ []).

Fixpoint scan {F} `{FsBackend F} (fuel : nat) (tag fid off count : Z) (s : Server F) : option (list Dirent * Server F) :=
  match fuel with
  | O => None
  | S fuel =>
      '(rep, s) ← handle (treaddir tag fid off count) s ;
      if negb (word 1 rep 4 =? T_READDIR + 1) then None else
      let got := parse_entries (length rep) (drop 11 rep) in
      match list.last got with
      | None => Some ([], s)
      | Some e =>
          '(more, s) ← scan fuel tag fid e.(de_offset) count s ;
          Some (got ++ more, s)
      end
  end.

(** What the client should see of entry [i]. *)
Definition dirent (i : Z) (e : DirEntry) : Dirent :=
  mkDirent (from_mode e.(e_mode) e.(e_ino)) (i + 1) ((e.(e_mode) .& S_IFMT) .>> 12) e.(e_name).

Fixpoint dirents (i : Z) (es : list DirEntry) : list Dirent :=
  match es with [] => [] | e :: es => dirent i e :: dirents (i + 1) es end.

Fixpoint encoded (i : Z) (es : list DirEntry) : list Z :=
  match es with [] => [] | e :: es => dir_entry i e ++ encoded (i + 1) es end.

(** An entry that can be sent. *)
Definition entry_ok (e : DirEntry) : Prop := uint 64 e.(e_ino) /\ Z.of_nat (length e.(e_name)) < 2 ^ 16.

(** *** Encoding and decoding *)

Lemma word_at l n v rest : l = to_le_bytes n v ++ rest -> uint (8 * Z.of_nat n) v -> word n l 0 = v.
Proof.
  intros -> Hv. unfold word. cbn. rewrite drop_0, take_app_length' by (by rewrite length_to_le_bytes).
  rewrite from_to_le_bytes. by apply Z.mod_small.
Qed.

Lemma word_drop n l k : word n l (Z.of_nat k) = word n (drop k l) 0.
Proof. unfold word. by rewrite Nat2Z.id, drop_0. Qed.

Lemma length_dir_entry i e : length (dir_entry i e) = (24 + length e.(e_name))%nat.
Proof. unfold dir_entry, w_qid, w_u8, w_u16, w_u32, w_u64, w_str, w_u16. rewrite !length_app, !length_to_le_bytes. lia. Qed.

Lemma qid_kind_range m : uint 8 (qid_kind m).
Proof. unfold qid_kind. repeat case_match; vm_compute; intuition discriminate. Qed.

Lemma d_type_range m : uint 8 ((m .& S_IFMT) .>> 12).
Proof.
  change S_IFMT with (Z.shiftl (Z.ones 4) 12). rewrite (land_shifted_ones _ _ 12 4 4096), (shiftr_lit _ 12 4096) by done.
  rewrite Z.div_mul by lia. unfold uint. pose proof (Z.mod_pos_bound (m / 4096) (2 ^ 4)). lia.
Qed.

Lemma parse_dir_entry i e rest : entry_ok e -> uint 64 (i + 1) ->
  parse_entry (dir_entry i e ++ rest) = dirent i e
  /\ drop (24 + Z.to_nat (word 2 (dir_entry i e ++ rest) 22)) (dir_entry i e ++ rest) = rest.
Proof.
  intros [Hino Hname] Hi. pose proof (qid_kind_range e.(e_mode)) as Hk. pose proof (d_type_range e.(e_mode)) as Ht.
  set (l := dir_entry i e ++ rest).
  assert (l = w_u8 (qid_kind e.(e_mode)) ++ w_u32 0 ++ w_u64 e.(e_ino) ++ w_u64 (i + 1)
              ++ w_u8 ((e.(e_mode) .& S_IFMT) .>> 12) ++ w_u16 (Z.of_nat (length e.(e_name))) ++ e.(e_name) ++ rest) as El.
  { unfold l, dir_entry, w_qid, w_str, from_mode. cbn [qid_type qid_version qid_path]. by rewrite <- !app_assoc. }
  assert (forall n v r k, drop k l = to_le_bytes n v ++ r -> uint (8 * Z.of_nat n) v ->
    word n l (Z.of_nat k) = v /\ drop (k + n) l = r) as Hw.
  { intros n v r k Hd Hv. split; [rewrite word_drop; by eapply word_at|].
    rewrite <- drop_drop, Hd. by rewrite drop_app_length' by (by rewrite length_to_le_bytes). }
  destruct (Hw 1%nat (qid_kind e.(e_mode)) _ 0%nat El Hk) as [E0 D1].
  destruct (Hw 4%nat 0 _ 1%nat D1 ltac:(vm_compute; intuition discriminate)) as [E1 D2].
  destruct (Hw 8%nat e.(e_ino) _ 5%nat D2 Hino) as [E2 D3].
  destruct (Hw 8%nat (i + 1) _ 13%nat D3 Hi) as [E3 D4].
  destruct (Hw 1%nat _ _ 21%nat D4 Ht) as [E4 D5].
  destruct (Hw 2%nat (Z.of_nat (length e.(e_name))) _ 22%nat D5 ltac:(unfold uint; lia)) as [E5 D6].
  change (Z.of_nat 0) with 0 in E0. change (Z.of_nat 1) with 1 in E1. change (Z.of_nat 5) with 5 in E2.
  change (Z.of_nat 13) with 13 in E3. change (Z.of_nat 21) with 21 in E4. change (Z.of_nat 22) with 22 in E5.
  unfold parse_entry. rewrite E0, E1, E2, E3, E4, E5, Nat2Z.id.
  change (22 + 2)%nat with 24%nat in D6. rewrite D6, take_app_length. split; [done|].
  by rewrite <- drop_drop, D6, drop_app_length.
Qed.

Lemma parse_encoded es : forall i fuel, Forall entry_ok es -> 0 <= i -> i + Z.of_nat (length es) < 2 ^ 64 ->
  (length es <= fuel)%nat -> parse_entries fuel (encoded i es) = dirents i es.
Proof.
  induction es as [|e es IH]; intros i fuel Hes Hi Hl Hf; [by destruct fuel|].
  apply list.Forall_cons in Hes as [He Hes]. destruct fuel as [|fuel]; [cbn in Hf; lia|]. cbn [encoded dirents length] in *.
  destruct (parse_dir_entry i e (encoded (i + 1) es) He ltac:(unfold uint; lia)) as [E1 E2].
  assert (exists x l, dir_entry i e ++ encoded (i + 1) es = x :: l) as (x & l & E).
  { pose proof (length_dir_entry i e) as H. destruct (dir_entry i e) as [|x l]; [cbn in H; lia|]. by eexists _, _. }
  cbn [parse_entries]. rewrite E. rewrite <- E, E1, E2. f_equal. apply IH; [done|lia..].
Qed.

Lemma dirents_length i es : length (dirents i es) = length es.
Proof. revert i. induction es as [|e es IH]; intros i; [done|]. cbn. by rewrite IH. Qed.

Lemma dirents_app i a b : dirents i (a ++ b) = dirents i a ++ dirents (i + Z.of_nat (length a)) b.
Proof.
  revert i. induction a as [|e a IH]; intros i; cbn [dirents app length]; [by rewrite Z.add_0_r|].
  rewrite IH. do 3 f_equal. lia.
Qed.

Lemma dirents_last i es :
  match list.last (dirents i es) with
  | Some e => (0 < length es)%nat /\ e.(de_offset) = i + Z.of_nat (length es)
  | None => es = []
  end.
Proof.
  destruct es as [|x es _] using rev_ind; [done|]. rewrite dirents_app, length_app. cbn [dirents].
  rewrite list.last_snoc. cbn [dirent de_offset length]. lia.
Qed.

(** A reply holds the encoding of the entries that fit; at least one when the
    first one does. *)
Lemma fill_spec count es : forall i out, exists k,
  fill_entries count i es out = out ++ encoded i (take k es)
  /\ forall e, head es = Some e -> Z.of_nat (length out) + 24 + Z.of_nat (length e.(e_name)) <= count -> (0 < k)%nat.
Proof.
  induction es as [|e es IH]; intros i out; cbn [fill_entries].
  { exists 0%nat. by rewrite app_nil_r. }
  cbv zeta. destruct (Z.ltb_spec count (Z.of_nat (length out) + (13 + 8 + 1 + 2 + Z.of_nat (length e.(e_name))))) as [Hlt|Hge].
  - exists 0%nat. rewrite app_nil_r. split; [done|]. intros ? [= <-]. lia.
  - destruct (IH (i + 1) (out ++ dir_entry i e)) as (k & E & _). exists (S k). rewrite E, <- app_assoc. split; [done|lia].
Qed.

(** *** One request *)

Lemma skip_drop {A} (l : list A) i : 0 <= i -> skip i l = drop (Z.to_nat i) l.
Proof. intros Hi. unfold skip. destruct (Z.leb_spec (Z.of_nat (length l)) i); [|done]. by rewrite drop_ge by lia. Qed.

Section Scan.
Context {F : Type} `{FsBackend F} (tag fid count : Z).
Context (Htag : uint 16 tag) (Hfid : uint 32 fid) (Hcount : uint 32 count).

Definition room (s : Server F) : Z := Z.min count (saturating_sub s.(srv_msize) 11).

Lemma treaddir_message off s body s' :
  uint 64 off -> Z.of_nat (length body) <= MAX_MSIZE ->
  (forall r, readdir fid off count (s, r) = (Ok body, (s', r))) ->
  handle (treaddir tag fid off count) s
  = Some (reply (T_READDIR + 1) tag (w_u32 (Z.of_nat (length body)) ++ body), s').
Proof using Type*.
  intros Hoff Hb Hr. unfold treaddir.
  assert (Z.of_nat (length (w_u32 fid ++ w_u64 off ++ w_u32 count ++ [])) + 7 < 2 ^ 32) as Hl.
  { rewrite length_fields. cbn. lia. }
  rewrite handle_message by done. change (dispatch T_READDIR) with (t_readdir (F := F)).
  pose proof (reply_at T_READDIR tag _ Hl) as Hp. set (msg := reply _ _ _) in *. unfold t_readdir.
  p9_field @need_u32 Hfid Hp. p9_field @need_u64 Hoff Hp. p9_field @need_u32 Hcount Hp.
  by rewrite (step_run _ _ _ _ _ (Hr _)).
Qed.

(** What the client makes of the reply. *)
Lemma got_entries body : Z.of_nat (length body) <= MAX_MSIZE ->
  let rep := reply (T_READDIR + 1) tag (w_u32 (Z.of_nat (length body)) ++ body) in
  word 1 rep 4 = T_READDIR + 1 /\ drop 11 rep = body /\ (length body <= length rep)%nat.
Proof using Type*.
  intros Hb rep.
  assert (length (w_u32 (Z.of_nat (length body)) ++ body) = 4 + length body)%nat as Hl.
  { unfold w_u32. by rewrite length_app, length_to_le_bytes. }
  destruct (word_reply (T_READDIR + 1) tag (w_u32 (Z.of_nat (length body)) ++ body)) as (_ & E & _ & E4);
    [rewrite Hl; unfold MAX_MSIZE in *; lia|done|done|]. fold rep in E, E4. split_and!; [done| |lia].
  unfold rep, reply. rewrite !(app_assoc _ _ (w_u32 _ ++ body)), (app_assoc _ (w_u32 _) body).
  apply drop_app_length'. unfold w_u32, w_u8, w_u16. by rewrite !length_app, !length_to_le_bytes.
Qed.

Context (es : list DirEntry) (Hes : Forall entry_ok es) (Hmany : Z.of_nat (length es) < 2 ^ 63).

(** A server that holds the listing of the fid. *)
Definition holding (s : Server F) (f : Fid) : Prop :=
  s.(srv_fids) !! fid = Some f /\ f.(f_opened) = true /\ f.(f_dir) = Some es
  /\ s.(srv_msize) <= MAX_MSIZE /\ Forall (fun e => 24 + Z.of_nat (length e.(e_name)) <= room s) es.

(** The entries of one reply from index [i] on. *)
Lemma one_reply s i : Forall (fun e => 24 + Z.of_nat (length e.(e_name)) <= room s) es -> s.(srv_msize) <= MAX_MSIZE ->
  0 <= i <= Z.of_nat (length es) ->
  exists k, (i < Z.of_nat (length es) -> (0 < k)%nat)
    /\ let body := fill_entries (room s) i (skip i es) [] in
       let got := take k (drop (Z.to_nat i) es) in
       Z.of_nat (length body) <= MAX_MSIZE /\ parse_entries (length body) body = dirents i got
       /\ forall fuel, (length body <= fuel)%nat -> parse_entries fuel body = dirents i got.
Proof using Hes Hmany Hcount.
  intros Hroom Hms Hi. rewrite skip_drop by lia.
  destruct (fill_spec (room s) (drop (Z.to_nat i) es) i []) as (k & E & Hk). exists k.
  set (got := take k (drop (Z.to_nat i) es)) in *.
  assert (Forall entry_ok got) as Hg by by apply Forall_take, Forall_drop.
  assert (length got <= length es - Z.to_nat i)%nat as Hgl by (unfold got; rewrite length_take, length_drop; lia).
  assert (forall l j, (length l <= length (encoded j l))%nat) as Hel.
  { clear. induction l as [|e l IH]; intros j; [done|]. cbn [encoded length]. rewrite length_app, length_dir_entry.
    specialize (IH (j + 1)). lia. }
  assert (forall fuel, (length (encoded i got) <= fuel)%nat -> parse_entries fuel (encoded i got) = dirents i got) as Hp.
  { intros fuel Hf. apply parse_encoded; [done|lia|lia|]. specialize (Hel got i). lia. }
  split.
  - intros Hlt. destruct (lookup_lt_is_Some_2 es (Z.to_nat i) ltac:(lia)) as [e He].
    apply (Hk e).
    + rewrite (drop_S _ _ _ He). done.
    + cbn [length]. pose proof (Forall_lookup_1 _ _ _ _ Hroom He). cbn in *. lia.
  - cbn [app] in E. cbv zeta. rewrite E. split_and!; [|by apply Hp|done]. rewrite <- E.
    etransitivity; [apply fill_length; cbn; unfold room, saturating_sub, uint in *; lia|].
    unfold room, saturating_sub, MAX_MSIZE in *. lia.
Qed.

(** A request behind the first entry is answered from the held listing. *)
Lemma readdir_held s f off r : holding s f -> off <> 0 ->
  readdir fid off count (s, r) = (Ok (fill_entries (room s) off (skip off es) []), (s, r)).
Proof using Type.
  intros (Hf & Ho & Hd & _) Hoff. unfold readdir. rewrite (step_run _ _ _ _ _ (opened_fid_run s fid f r Hf Ho)).
  rewrite Hd. rewrite (proj2 (Z.eqb_neq off 0) Hoff). done.
Qed.

(** The first request takes the listing. *)
Definition listed (s : Server F) (f : Fid) (fs : F) : Server F :=
  let s := set_fs fs s in set_fids (<[fid := mkFid f.(f_path) f.(f_opened) (Some es)]> s.(srv_fids)) s.

Lemma readdir_first s f fs r :
  s.(srv_fids) !! fid = Some f -> f.(f_opened) = true ->
  snapshot f.(f_path) (s, r) = (Ok es, (set_fs fs s, r)) ->
  readdir fid 0 count (s, r) = (Ok (fill_entries (room s) 0 (skip 0 es) []), (listed s f fs, r)).
Proof using Type.
  intros Hf Ho Hs. unfold readdir. rewrite (step_run _ _ _ _ _ (opened_fid_run s fid f r Hf Ho)).
  rewrite Z.eqb_refl.
  assert (bind (snapshot f.(f_path)) (fun entries =>
      update_fid fid (fun f => mkFid f.(f_path) f.(f_opened) (Some entries)) ;;; ret entries) (s, r)
    = (Ok es, (listed s f fs, r))) as E.
  { rewrite (step_run _ _ _ _ _ Hs). unfold update_fid, fid_state, server, bind, gets, ok_or, ret, update, modify.
    cbn. by rewrite Hf. }
  destruct f.(f_dir); (rewrite (step_run _ _ _ _ _ E); done).
Qed.

(** The scan from an index behind the first entry. *)
Lemma scan_rest fuel : forall s f i, holding s f -> 0 < i <= Z.of_nat (length es) ->
  (length es - Z.to_nat i < fuel)%nat ->
  scan fuel tag fid i count s = Some (dirents i (drop (Z.to_nat i) es), s).
Proof using Type*.
  induction fuel as [|fuel IH]; intros s f i Hs Hi Hfuel; [lia|]. cbn [scan].
  pose proof Hs as (_ & _ & _ & Hms & Hroom).
  destruct (one_reply s i Hroom Hms ltac:(lia)) as (k & Hk & Hb & _ & Hp).
  set (body := fill_entries _ _ _ _) in *. set (got := take k (drop (Z.to_nat i) es)) in *.
  rewrite (treaddir_message i s body s); [|unfold uint; lia|done|intros r; apply (readdir_held s f); [done|lia]].
  destruct (got_entries body Hb) as (E4 & Ed & El). cbn [mbind option_bind]. rewrite E4, Z.eqb_refl, Ed, Hp by done. cbn [negb].
  assert (drop (Z.to_nat i) es = got ++ drop (Z.to_nat i + length got) es) as Esplit.
  { unfold got. rewrite <- drop_drop. rewrite <- (take_drop k (drop (Z.to_nat i) es)) at 1. f_equal.
    destruct (decide (k <= length (drop (Z.to_nat i) es))%nat).
    - by rewrite length_take_le.
    - rewrite !drop_ge; [done| |lia]. rewrite length_take. lia. }
  pose proof (dirents_last i got) as Hlast. destruct (list.last (dirents i got)) as [e|].
  - destruct Hlast as [Hgot ->].
    assert (length got <= length es - Z.to_nat i)%nat as Hle by (unfold got; rewrite length_take, length_drop; lia).
    rewrite (IH s f) by (done || lia). cbn [mbind option_bind]. rewrite Esplit, dirents_app.
    do 4 f_equal. f_equal. lia.
  - destruct (Z.eq_dec i (Z.of_nat (length es))) as [->|Hne].
    + by rewrite Nat2Z.id, drop_all.
    + specialize (Hk ltac:(lia)). assert (length got = 0)%nat as Hz by by rewrite Hlast.
      unfold got in Hz. rewrite length_take, length_drop in Hz. lia.
Qed.

Lemma scan_all s f fs :
  s.(srv_fids) !! fid = Some f -> f.(f_opened) = true ->
  (forall r, snapshot f.(f_path) (s, r) = (Ok es, (set_fs fs s, r))) ->
  s.(srv_msize) <= MAX_MSIZE -> Forall (fun e => 24 + Z.of_nat (length e.(e_name)) <= room s) es ->
  scan (S (length es)) tag fid 0 count s = Some (dirents 0 es, listed s f fs).
Proof using Type*.
  intros Hf Ho Hs Hms Hroom. set (s' := listed s f fs).
  assert (holding s' (mkFid f.(f_path) f.(f_opened) (Some es))) as Hh.
  { split_and!; [|done..]. unfold s', listed. cbn. by rewrite lookup_insert_eq. }
  destruct (one_reply s 0 Hroom Hms ltac:(lia)) as (k & Hk & Hb & _ & Hp).
  set (body := fill_entries _ _ _ _) in *. change (drop (Z.to_nat 0) es) with es in Hp. set (got := take k es) in *.
  change (scan (S (length es)) tag fid 0 count s) with
    ('(rep, s) ← handle (treaddir tag fid 0 count) s ;
      if negb (word 1 rep 4 =? T_READDIR + 1) then None else
      let got := parse_entries (length rep) (drop 11 rep) in
      match list.last got with
      | None => Some ([], s)
      | Some e => '(more, s) ← scan (length es) tag fid e.(de_offset) count s ; Some (got ++ more, s)
      end).
  rewrite (treaddir_message 0 s body s'); [|vm_compute; intuition discriminate|done|intros r; by apply readdir_first].
  destruct (got_entries body Hb) as (E4 & Ed & El). cbn [mbind option_bind]. rewrite E4, Z.eqb_refl, Ed, Hp by done. cbn [negb].
  pose proof (dirents_last 0 got) as Hlast. destruct (list.last (dirents 0 got)) as [e|].
  - destruct Hlast as [Hgot ->]. assert (length got <= length es)%nat as Hle by (unfold got; rewrite length_take; lia).
    rewrite (scan_rest _ _ _ _ Hh) by lia. cbn [mbind option_bind].
    assert (es = got ++ drop (length got) es) as Esplit.
    { unfold got. rewrite <- (take_drop k es) at 1. f_equal. destruct (decide (k <= length es)%nat).
      - by rewrite length_take_le.
      - rewrite !drop_ge; [done| |lia]. rewrite length_take. lia. }
    assert (dirents 0 es = dirents 0 got ++ dirents (0 + Z.of_nat (length got)) (drop (length got) es)) as ->
      by by rewrite <- dirents_app, <- Esplit.
    do 4 f_equal. f_equal. lia.
  - assert (es = []) as ->; [|done]. destruct es as [|e es']; [done|]. specialize (Hk ltac:(cbn; lia)).
    unfold got in Hlast. by destruct k as [|k]; [lia|].
Qed.
End Scan.


(** The root of a small tree, in replies of one or two entries. *)
Definition demo_root : Server MemFs := mkServer demo_fs [] 8192 {[0 := mkFid [] true None]}.

