(* ===== verification/P9Board.v ===== *)
(** * The 9P server behind the virtio device

    The server is the [P9Server] of the virtio 9P device.  A request the guest
    lays out in its memory comes back answered in the buffers it offers. *)

From stdpp Require Import gmap.
From S2P Require Import Prelude Bus Slices Virtio VirtioSpec P9 P9Fs P9Spec P9Mem P9Serve.

#[export] Instance Server_P9Server {F} `{FsBackend F} : P9Server (Server F) := {|
  p9_mount_tag s := s.(srv_tag);
  p9_handle s req := handle req s
|}.

(** ** Delivery of a reply *)

Section Delivery.
Context (ram_base : Z) (Hbase : 0 <= ram_base < 2 ^ 63).

(** The contents of the device-writable buffers, in order. *)
Definition readback (ram : list Z) (chain : list Descriptor) : option (list Z) :=
  gather ram ram_base (map (fun d => (d.1, negb d.2)) chain).

(** Each device-writable buffer is in memory, and they do not overlap. *)
Definition in_memory (ram : list Z) (chain : list Descriptor) : Prop :=
  Forall (fun d => d.2 = true -> ram_base <= d.1.1 /\ d.1.1 - ram_base + d.1.2 <= Z.of_nat (length ram)) chain.

Fixpoint separate (chain : list Descriptor) : Prop :=
  match chain with
  | [] => True
  | d :: chain => (d.2 = true -> forall x, covers ram_base d x -> ~ writable_in ram_base chain x) /\ separate chain
  end.

Lemma in_memory_length ram ram' chain : length ram = length ram' -> in_memory ram chain -> in_memory ram' chain.
Proof using Type. unfold in_memory. by intros ->. Qed.

Lemma guest_slice_ok ram addr len :
  ram_base <= addr -> 0 <= len -> addr - ram_base + len <= Z.of_nat (length ram) -> Z.of_nat (length ram) < 2 ^ 63 ->
  exists x, guest_slice ram ram_base addr len = Some x /\ Z.of_nat (length x) = len
    /\ x = take (Z.to_nat len) (drop (Z.to_nat (addr - ram_base)) ram).
Proof using Type.
  intros Ha Hl Hm Hr. unfold guest_slice. destruct (Z.ltb_spec addr ram_base); [lia|].
  destruct (Z.leb_spec (2 ^ 64) (addr - ram_base + len)); [lia|]. rewrite slice_ok by lia. eexists. split; [done|].
  replace (Z.to_nat (addr - ram_base + len - (addr - ram_base))) with (Z.to_nat len) by lia.
  rewrite length_take, length_drop. split; [lia|done].
Qed.

Lemma readback_some ram chain :
  Forall desc_wf chain -> in_memory ram chain -> Z.of_nat (length ram) < 2 ^ 63 -> exists x, readback ram chain = Some x.
Proof using Type.
  intros Hw Hm Hr. unfold readback. induction chain as [|[[addr len] w] chain IH]; [by eexists|].
  apply list.Forall_cons in Hw as [[_ Hl] Hw]. apply list.Forall_cons in Hm as [Hd Hm]. destruct (IH Hw Hm) as [rest E].
  cbn [map gather fst snd] in *. destruct w; cbn [negb]; [|by exists rest]. destruct (Hd eq_refl) as [H1 H2].
  destruct (guest_slice_ok ram addr len) as (x & Ex & _ & _); [done|unfold uint in *; lia|done..|].
  rewrite Ex, E. by eexists.
Qed.

Lemma guest_put_ok ram addr bs :
  ram_base <= addr -> addr - ram_base + Z.of_nat (length bs) <= Z.of_nat (length ram) -> Z.of_nat (length ram) < 2 ^ 63 ->
  exists ram', guest_put ram_base addr (Z.of_nat (length bs)) bs ram = (Ok true, ram')
    /\ holds ram' (addr - ram_base) bs /\ outside (addr - ram_base) (addr - ram_base + Z.of_nat (length bs)) ram ram'.
Proof using Type.
  intros Ha Hm Hr. destruct (guest_slice_ok ram addr (Z.of_nat (length bs))) as (x & Ex & _ & _); [done|lia|done..|].
  destruct (put_slice_ok (E := Empty_set) (addr - ram_base) (addr - ram_base + Z.of_nat (length bs)) bs ram)
    as (ram' & E & Hh & Ho); [lia|done|lia|]. exists ram'. split_and!; [|done..].
  unfold guest_put, bind, gets, id. rewrite Ex. unfold Ram in *. rewrite E. done.
Qed.

Lemma scatter_done bytes chain : forall ram,
  scatter ram_base bytes chain (Z.of_nat (length bytes)) ram = (Ok (Z.of_nat (length bytes)), ram).
Proof using Type.
  induction chain as [|[[addr len] w] chain IH]; intros ram; [done|]. cbn [scatter].
  rewrite Z.leb_refl, orb_true_r. apply IH.
Qed.

Lemma capacity_nonneg chain : Forall desc_wf chain -> 0 <= writable_capacity chain.
Proof using Type.
  induction 1 as [|[[addr len] w] chain [_ Hl] _ IH]; [done|].
  change (0 <= if w : bool then len + writable_capacity chain else writable_capacity chain). unfold uint in Hl. destruct w; lia.
Qed.

(** What a buffer holds after its bytes were put and the later buffers written. *)
Lemma buffer_kept ram1 ram' addr len src chain :
  ram_base <= addr -> uint 32 len -> addr - ram_base + len <= Z.of_nat (length ram1) -> Z.of_nat (length ram1) < 2 ^ 63 ->
  Z.of_nat (length src) <= len -> holds ram1 (addr - ram_base) src ->
  (forall x, covers ram_base (addr, len, true) x -> ~ writable_in ram_base chain x) ->
  only (writable_in ram_base chain) ram1 ram' ->
  exists tail, guest_slice ram' ram_base addr len = Some (src ++ tail)
    /\ Z.of_nat (length src) + Z.of_nat (length tail) = len.
Proof using Type.
  intros Ha Hl Hm Hr Hs Hh Hsep [Hlen Hout]. unfold uint in Hl.
  destruct (guest_slice_ok ram' addr len) as (x & E & Hxl & Hx); [done|lia..|].
  assert (holds ram' (addr - ram_base) src) as Hh'.
  { destruct Hh as (H0 & H1 & H2). split_and!; [lia..|]. intros j y Hj. rewrite <- (Hout); [by apply H2|].
    apply Hsep. apply lookup_lt_Some in Hj. cbn. lia. }
  assert (take (length src) x = src) as Ht.
  { apply slice_holds in Hh'. unfold slice in Hh'. case_match; [|done]. injection Hh' as Hh'.
    rewrite Hx, take_take, Nat.min_l by lia. rewrite <- Hh' at 2. f_equal. lia. }
  exists (drop (length src) x). rewrite E. split.
  - f_equal. transitivity (take (length src) x ++ drop (length src) x); [by rewrite take_drop|by rewrite Ht].
  - rewrite length_drop. lia.
Qed.

(** Scattering over buffers with enough room: the buffers then begin with the
    bytes, and nothing outside them has changed. *)
Lemma scatter_delivers bytes chain : forall pos ram,
  Forall desc_wf chain -> in_memory ram chain -> separate chain -> Z.of_nat (length ram) < 2 ^ 63 ->
  0 <= pos <= Z.of_nat (length bytes) -> Z.of_nat (length bytes) < 2 ^ 32 ->
  Z.of_nat (length bytes) - pos <= writable_capacity chain ->
  exists ram' rest, scatter ram_base bytes chain pos ram = (Ok (Z.of_nat (length bytes)), ram')
    /\ readback ram' chain = Some (drop (Z.to_nat pos) bytes ++ rest).
Proof using Hbase.
  induction chain as [|[[addr len] w] chain IH]; intros pos ram Hw Hm Hs Hr Hpos Hb Hc.
  { exists ram, []. cbn in *. assert (pos = Z.of_nat (length bytes)) as -> by lia. by rewrite Nat2Z.id, drop_all. }
  pose proof Hw as Hw0. pose proof Hm as Hm0.
  apply list.Forall_cons in Hw as [[Ha Hl] Hw]. apply list.Forall_cons in Hm as [Hd Hm]. destruct Hs as [Hsep Hs].
  cbn [fst snd] in *. destruct w; cbn [scatter negb orb] in *.
  2: { destruct (IH pos ram Hw Hm Hs Hr Hpos Hb Hc) as (ram' & rest & E & Hrb). exists ram', rest. by split. }
  destruct (Hd eq_refl) as [H1 H2].
  destruct (Z.leb_spec (Z.of_nat (length bytes)) pos) as [Hle|Hgt].
  { assert (pos = Z.of_nat (length bytes)) as -> by lia. rewrite scatter_done, Nat2Z.id, drop_all.
    destruct (readback_some ram ((addr, len, true) :: chain)) as [x E]; [done..|]. by exists ram, x. }
  unfold uint in Hl. set (n := Z.min (Z.of_nat (length bytes) - pos) len). assert (0 <= n <= len) as Hn by (unfold n; lia).
  destruct (slice_some bytes pos (pos + n)) as (src & Es & Hsl); [unfold n; lia..|]. rewrite Es.
  assert (Z.of_nat (length src) = n) as Hsn by lia.
  destruct (guest_put_ok ram addr src) as (ram1 & Ep & Hh & [Hlen Hout]); [done|lia|done|].
  assert (u32 n = Z.of_nat (length src)) as Eu by (rewrite Hsn; unfold u32; apply wrap_small; unfold uint; lia).
  pose proof (capacity_nonneg chain Hw) as Hcap. cbn in Hc. change (foldr _ 0 chain) with (writable_capacity chain) in Hc.
  destruct (IH (pos + n) ram1 Hw) as (ram' & rest & Er & Hrb); [by eapply in_memory_length|done|lia|unfold n; lia|done|unfold n; lia|].
  pose proof (writes_scatter ram_base bytes chain (pos + n) Hw ltac:(lia) ram1 _ ram' ltac:(lia) Er) as Honly.
  destruct (buffer_kept ram1 ram' addr len src chain) as (tail & Eg & Htl);
    [done|unfold uint; lia|lia|lia|lia|exact Hh|exact (Hsep eq_refl)|exact Honly|].
  exists ram', (if decide (n = len) then rest else tail ++ rest). split.
  - unfold bind at 1, unwrap, ret. unfold bind at 1. rewrite Eu, Ep. exact Er.
  - unfold readback in *. cbn [map gather fst snd negb]. rewrite Eg, Hrb. cbn [mbind option_bind].
    assert (drop (Z.to_nat pos) bytes = src ++ drop (Z.to_nat (pos + n)) bytes) as ->.
    { unfold slice in Es. case_match; [|done]. injection Es as <-.
      rewrite <- (take_drop (Z.to_nat n) (drop (Z.to_nat pos) bytes)) at 1. f_equal; [f_equal; lia|].
      rewrite drop_drop. f_equal. lia. }
    destruct (decide (n = len)) as [En|En].
    + assert (tail = []) as -> by (destruct tail; [done|cbn in Htl; lia]). by rewrite app_nil_r, app_assoc.
    + assert (drop (Z.to_nat (pos + n)) bytes = []) as -> by (apply drop_ge; unfold n in *; lia).
      by rewrite app_nil_r, <- app_assoc.
Qed.
End Delivery.

(** ** The device *)

(** C33: a request a guest lays out in the device-readable buffers of a chain is
    answered in its device-writable ones, when they have room for the reply: the
    device returns without a panic and reports the length of the reply, and the
    writable buffers begin with the server's reply to exactly the gathered
    request, which carries its size and tag; the server stays well formed. *)
Theorem p9_device_answers {F} `{FsBackendOk F} ram_base qi hd chain (srv : Server F) ram req :
  0 <= ram_base < 2 ^ 63 -> Z.of_nat (length ram) < 2 ^ 63 -> Forall desc_wf chain ->
  in_memory ram_base ram chain -> separate ram_base chain ->
  server_ok fs_inv srv -> gather ram ram_base chain = Some req -> req <> [] ->
  request_ok (fun n => n < FILE_MAX) req ->
  (forall rep srv', handle req srv = Some (rep, srv') -> Z.of_nat (length rep) <= writable_capacity chain) ->
  exists rep srv' ram' rest,
    handle req srv = Some (rep, srv') /\ server_ok fs_inv srv' /\ answers req rep
    /\ service qi hd chain ram_base (Virtio.Fs srv) ram = (Ok (Complete (Z.of_nat (length rep)), Virtio.Fs srv'), ram')
    /\ readback ram_base ram' chain = Some (rep ++ rest).
Proof.
  intros Hbase Hram Hw Hm Hsep Hsrv Hg Hne (Hb & Hmax & Hsz) Hroom.
  destruct (handle_pair B B _ _ _ fs_promises req srv Hb Hmax Hsrv Hsz) as [_ Hh].
  destruct (handle req srv) as [[rep srv']|] eqn:E; [|done]. destruct Hh as [Hs' [[]|Ha]].
  assert (Z.of_nat (length rep) < 2 ^ 32) as Hlen by apply Ha.
  destruct (scatter_delivers ram_base Hbase rep chain 0 ram Hw Hm Hsep Hram) as (ram' & rest & Es & Hr);
    [lia|done|specialize (Hroom rep srv' eq_refl); lia|].
  exists rep, srv', ram', rest. split_and!; [done..| |exact Hr].
  unfold service, bind, gets, id. rewrite Hg. destruct req as [|c req]; [done|].
  cbn [p9_handle Server_P9Server]. rewrite E. cbn [unwrap ret]. rewrite Es. unfold u32. rewrite wrap_small; [done|]. unfold uint. lia.
Qed.

(** An attach request at the start of memory, and 64 bytes for the reply. *)
Definition demo_ram : list Z := demo_attach ++ replicate 64 0.
Definition demo_chain : list Descriptor :=
  [(0, Z.of_nat (length demo_attach), false); (Z.of_nat (length demo_attach), 64, true)].

Lemma p9_device_answers_witness :
  exists srv' ram' rest,
    service 0 0 demo_chain 0 (Virtio.Fs (server_new [] demo_fs)) demo_ram = (Ok (Complete 20, Virtio.Fs srv'), ram')
    /\ readback 0 ram' demo_chain = Some (reply (T_ATTACH + 1) 1 (w_qid (mkQid QT_DIR 0 1)) ++ rest).
Proof.
  destruct (p9_device_answers 0 0 0 demo_chain (server_new [] demo_fs) demo_ram demo_attach)
    as (rep & srv' & ram' & rest & Eh & _ & _ & Es & Er).
  - lia.
  - vm_compute. reflexivity.
  - repeat constructor; vm_compute; congruence.
  - repeat constructor; cbn; intros; try discriminate; vm_compute; split; congruence.
  - cbn. split_and!; [discriminate| |done]. intros _ x _ (d & Hd & _). set_solver.
  - apply server_new_ok, demo_fs_ok.
  - vm_compute. reflexivity.
  - done.
  - apply list.Forall_singleton, request_check_ok. vm_compute. reflexivity.
  - intros rep srv' E. vm_compute in E. injection E as <- _. vm_compute. congruence.
  - vm_compute in Eh. injection Eh as <- <-. eexists _, ram', rest. split; [exact Es|exact Er].
Defined.
